(* ===== verification/_CoqProject ===== *)
-Q . S2P
Prelude.v
Encoding.v
Password.v
StateMachine.v
AuditLog.v
Household.v
HouseholdMemory.v
HouseholdProofs.v
Consent.v
ConsentProofs.v
Jobs.v
JobsProofs.v
Rbac.v
RbacProofs.v
Livekit.v
LivekitProofs.v
Webhook.v
WebhookProofs.v
Company.v
Auth.v
Devstore.v
CompanyProofs.v
AuthProofs.v
Issuer.v
IssuerProofs.v
Experience.v
ExperienceProofs.v
Sso.v
SsoProofs.v
Social.v
SocialProofs.v
Registry.v
Gateway.v
GatewayProofs.v
ConnectApi.v
ApiProofs.v
Credentials.v
CredentialsProofs.v
Rpauth.v
RpauthProofs.v
Entitlements.v
EntitlementsProofs.v
Json.v
Signature.v
AuditSigned.v
AuditSignedProofs.v
AuditBuffer.v
AuditBufferProofs.v
Identity.v
KeySource.v
KeySourceProofs.v
Verifier.v
VerifierProofs.v
Risk.v
RiskProofs.v
Realtime.v
RealtimeProofs.v
Aigateway.v
AigatewayProofs.v
Saml.v
SamlProofs.v
Federation.v
FederationProofs.v
Webfetch.v
WebfetchProofs.v
Storage.v
StorageProofs.v
PolicyCache.v
PolicyCacheProofs.v
FeatureFlags.v
Scheduler.v
SchedulerProofs.v
Billing.v
Ratelimit.v
Relying.v
HttpHelpers.v
Upload.v
Spiffe.v
Piv.v
SamlGuards.v
