(* ===== verification/Prelude.v ===== *)
(** * Eden Platform (Go): verification development

    The Eden platform is a Go library of services a product assembles: an
    account and household model with a consent ledger, companies, sign-up and
    login, an OIDC issuer, role-based access control, an audit trail, a job queue, a transition engine, calls and
    meetings over LiveKit, outgoing webhooks, feature flags, a cron scheduler
    and many adapters to external systems.  The services keep no state of their
    own beyond caches and timers: each talks to a store through an interface,
    and the repository ships an in-memory store for most of them, which this
    development models next to the service.

    ** How the code is read

    A Go value is read as the datum it denotes: a [uuid.UUID] as a number, a
    [time.Time] and a [time.Duration] as nanoseconds ([Z]), an [int] as a [Z]
    with its wrap-around written out where it can occur ([wrap]), a map as a
    [gmap], a struct as a record, a string constant type as a string.  A method
    that changes state or can fail is a program of the small state-and-error
    monad [prog] below, written in the order of the source; the state after an
    error is the state the code had reached.  Wrapped errors ([fmt.Errorf] with
    [%w]) are values of [goerr], and [errors_Is] is [errors.Is].  What a method
    takes from its environment is an argument [Env]: the clock, the identifiers
    [uuid.New] returns, and the order in which Go ranges over maps, which is
    arbitrary ([MapRange]): every theorem holds for every order.  Code outside
    the repository is a parameter: the textual form of identifiers ([UuidText]),
    [encoding/json] ([Marshal] in AuditLog, [unmarshal] in Rbac), the LiveKit
    server ([Remote] and [SDK] in Livekit), HMAC and SHA-256 ([Sha256]), the key
    derivations of passwords ([KeyDerivation]), golang-jwt ([JWTLib]), bcrypt ([Bcrypt]), OIDC and SAML
    libraries ([SSOLib], [Upstream]), the case
    table of Unicode ([UnicodeCase]), [mail.ParseAddress], [url.Parse], HTTP
    exchanges, [time.ParseDuration], [time.Format], handlers and callbacks.  Log output,
    contexts and cancellation are not part of the states.  A method protected by
    a mutex is one step; where a service calls its store several times the calls
    are not one step in the code, and the theorems say so when it matters.

    ** The files

    - Prelude (this file): the readings above, the monad and its tactics, and
      lemmas on maps, counting, sorting and best-element loops.
    - Encoding: the parts of Go's standard library on texts that the services
      share: white space, case, UTF-8, decimal, hex, base64, query escapes, with
      their round trips.
    - Password: platform/auth/password.go, password_fips.go, policy_hasher.go and
      platform/auth/secrethasher.  Encoded hashes, parsed back by [fmt.Sscanf] as
      the verifiers do: what [Hash] stores verifies; two fields make [Verify]
      panic.
    - StateMachine: platform/statemachine ([Machine], [Transition], the memory
      store).  Over any lawful store the runs of the engine follow the declared
      graph; the memory store is lawful, and a transition on it is exact.
    - AuditLog: platform/audit/logger.go: the event record and the buffered logger with its
      goroutine, channel, batch and [Stop], as a step relation.  Of event.go, the builders
      and [LogSync], which goes past the channel, are not modelled.  Every accepted
      event is delivered by [Stop], in order; buffers stay within their bounds.
      It also holds the audit emitter the other services call.
    - Household, HouseholdMemory, HouseholdProofs: platform/household (service,
      types, store interface), internal/aoid/composition/inmem_household.go, and
      the theorems.  The contract of a store is the class [StoreLaws]; over any
      lawful store each call of the service refines an abstract specification,
      whose runs keep the household invariant (roles and capabilities agree, one
      account owner, at least one manager, one membership per identity); the
      in-memory store is lawful.
    - Consent, ConsentProofs: platform/consent and inmem_consent.go.  The ledger
      is append-only over any lawful store; [IsValid] reads the latest entry;
      granting makes valid, revoking makes invalid; two histories in which the
      answer is not the one a reader may expect.
    - Jobs, JobsProofs: platform/jobs (queue, memory store, worker).  In every
      interleaving of workers no job runs twice at once, attempts never exceed
      the limit, [Dequeue] takes the best eligible job, [processJob] is exact on
      every branch, and the default backoff is the square of the attempts while it
      fits its width.
    - Rbac, RbacProofs: platform/rbac (enforcer with its cache, hierarchy
      resolver, features, role names, policies, service) and
      platform/devstore/rbac_store.go.  The cache never serves a stale answer
      through the service; role assignment is exact; the resolver finds the
      nearest membership; the default matrix is consistent with the hierarchy.
    - Livekit, LivekitProofs: platform/livekit (state graph, store, service,
      recordings, webhook, adapter, fake clock).  One active call per user,
      calls that follow the graph, capacity of meetings, ringing calls that
      expire, the path from acceptance to connection; a race that two interleaved
      requests can win.
    - Webhook, WebhookProofs: platform/webhook (service, retries, signatures) and
      platform/devstore/webhook_store.go.  Triggers, sweeps, single deliveries and the
      requests they start are tasks that interleave at their store calls.  A failing
      webhook is paused in every interleaving, up to the copies a trigger had listed;
      attempts are bounded and settled deliveries final when neither sweeps nor
      [ExecuteDelivery] take up what is claimed or settled, and not otherwise; what a
      sweep starts; signatures verify.
    - Company, CompanyProofs: platform/company over the development backend.  The
      closure table of the hierarchy is exact, ancestors, descendants and
      effective settings are those of the chain of parents; settings that are
      null make the merge panic.
    - Auth, Devstore, AuthProofs: platform/auth (store interface, JWT manager,
      guards, service) and platform/devstore (memory_store.go, audit_store.go).
      Tokens validate to the claims they were made for; the backend stays well
      formed whatever transactions interleave; sign-up, login and refresh do what
      they promise, alone; two refreshes, or two sign-ups, that interleave do not;
      the refresh token of a navigator buys staff tokens.
    - Issuer, IssuerProofs: internal/aoid/clients and internal/aoid/issuer.  Over
      the histories of requests a code is exchanged once, by whom and for what it
      was issued, and redirects go to registered URIs; public clients are refused
      and refresh tokens are not bound to a client.
    - Experience, ExperienceProofs: platform/experience.  The preimage of a
      content hash determines the spec and the resolution tuple; the service
      answers each scope from its own last spec; versions and proto changes are
      compared exactly, binaries render what they know, repositories stay within
      the grants of their identity; agent specs are sound up to tools that share
      an adapter.
    - Sso, SsoProofs: platform/auth/handoff.go and sso.go.  A hand-off code is
      redeemed once, for what it was minted for; the callback sends a code and the
      exchange endpoint the tokens; state tokens round-trip up to a bar in the
      redirect URI; an assertion of any company's provider signs in any user.
    - Social, SocialProofs: platform/auth/social and platform/auth/oidc.  The accounts
      a provider's identity may enter, and who else opens them; new users have no
      session beyond their first access token; a whole login with any of
      the five providers ends with its tokens, at whatever target without a bar extends
      an allowed one.
    - Credentials, CredentialsProofs: API keys, one-time and backup codes, sessions,
      OAuth user information and breach screening of platform/auth.  The local
      breach list is a membership test, the remote one bounded; what is generated
      verifies; an Apple token is not verified.
    - Rpauth, RpauthProofs: platform/rpauth.  The introspection cache is a bounded
      least-recently-used cache; an identity that is served was confirmed within
      the time to live; gates and re-checks are exact, and a revoked connection
      is closed within an interval.
    - Entitlements, EntitlementsProofs: platform/entitlements.  What the caches
      serve in any order of calls; gates fail closed; an invalidation during a
      fetch is lost.
    - Json, AuditSigned, AuditSignedProofs: the JSON printer, the canonical form of an
      audit event and its JWS (platform/audit, platform/kms/signature).  The
      signed bytes determine the event, what the store signs verifies, and raw
      ECDSA signatures round-trip.  The decoders of encoding/json are the class
      [JsonDecoder]; ASN.1 and the keys are arguments.
    - AuditBuffer, AuditBufferProofs: the Postgres audit buffer and the forwarder.  In
      every interleaving of emitters, forwarders, re-signers and crashes ([step])
      a signed event is kept until the sink has accepted it, and a working sink
      drains the buffer; an event whose re-signing fails is stranded.
    - Signature: platform/kms/signature and the signing methods of
      platform/auth/kmssigner.
    - Identity, KeySource, Verifier, with KeySourceProofs and VerifierProofs:
      platform/identity and platform/auth/jwks.  From a credential to verified
      claims: what is issued states what was proved and verifies, for its lifetime,
      through the published key set; the assurance level counts distinct
      categories; a source asks the issuer no more often than its floor, is behind it by
      a cache lifetime at most while the issuer answers, and serves its last set while
      it does not.  golang-jwt is the class [ContextJWT],
      the keys are [SignatureScheme] and [KeyFormat]; the laws the theorems use of
      them are [standard_methods], [signs], [reads_token] and [reads_back].
    - Risk, RiskProofs: platform/risk.  Each signal triggers exactly on what it is
      about; the score is the clipped sum of the weights, in any order, up to 32
      bits, and zero beyond.  Floating point is the class [Float64].
    - Realtime, RealtimeProofs: platform/realtime (hub, buffered subscribers, Redis
      fan-out), several processes as a step relation.  A subscriber keeps the latest
      messages, a fanned-out message is heard once, and twice where it was published;
      the fan-out follows the subscribers while their calls are paired.
    - Aigateway, AigatewayProofs: platform/aigateway.  What the client meets outside is
      the oracle [Outside], what it does is recorded.  The retry loop, its waits and
      its headers are exact; a stream is the contents of its chunks up to the end mark;
      every call is observed once; a streamed chat loses its extra headers.
    - Saml, SamlProofs: platform/auth/saml and its identity provider.  Documents are
      trees; reading, writing and signing them is the class [SAMLLib].  What an issued
      assertion holds for its reader; verification yields the attributes that are read
      without it.
    - Federation, FederationProofs: internal/aoid/federation.  What a login through an external
      provider needs and gives, policy, provisioning and role included, against a
      specification of its own; the endpoint that receives responses does not verify
      them, so anybody signs in as any user of an admitted domain; a response that is
      issued is read back; provisioned users have no password; providers outlive their configuration.
    - Webfetch, WebfetchProofs: platform/webfetch, with the address classes of Go's net
      package.  Every request of a fetch has passed the policy and its answer is
      bounded; a name that changes its address between check and connection is
      fetched from an address the policy refuses.
    - Storage, StorageProofs: platform/storage (in-memory and S3 clients, minio-go
      being the class [Minio]) and platform/attachments with its two stores, in memory and
      over Postgres, whose calls can fail and time out.  Over any client and store that
      keep the laws [ClientLaws] and [StoreLaws], as these do, attachments made by
      [Attach] keep their objects, and one that fails leaves none behind unless a call
      left its effect in doubt; attachments made from a key can lose their object, and a
      removal that fails half-way leaves a record without one.
    - PolicyCache, PolicyCacheProofs: platform/policycache, with the commits of the
      table it follows, as a step relation.  Polls bring every timely row; a late
      commit or a slow refresh leaves the cache wrong for good.
    - FeatureFlags: platform/feature-flags (flags, rollout, client, both sources).
      Which override wins, when [IsEnabled] and [Variant] agree, and that raising
      a rollout takes the feature from nobody.
    - Scheduler, SchedulerProofs: platform/scheduler (cron parser and matching,
      ticks, leases, memory locker).  A printed expression parses to a schedule
      that fires exactly when it denotes; a lease excludes concurrent runs of a
      tick, but not a second run after the first; the parser always ends.
    - Registry, Gateway, GatewayProofs: platform/registry, platform/bridge,
      platform/server (interceptors, tenant scope, health), platform/adminauth,
      platform/mtls/peer.go and platform/membership.  Which administrators reach a
      handler; the adapter of a subject; the two membership resolvers agree.
    - ConnectApi, ApiProofs: platform/connectapi and the server of
      cmd/eden-platform-dev: the 36 procedures of seven services over the development
      backend, [serve] from the headers to the answer.  The interceptors refine a policy
      without caches at every reachable state, and every request keeps the backend well
      formed; the policy checks the company of the token and not that of the message.
    - Billing: platform/billing-rail (dispatcher and recording mocks, over
      the classes [Rail] and [EdenBizSink]).  Every authentic event makes one call on the
      sink; no sink can tell a redelivered charge from a second one.
    - Ratelimit: platform/ratelimit over binary64 ([SpecFloat]) and the
      class [RedisClient].  In every interleaving of a fleet, commands that time out
      included, a window admits no more than its limit; waits are rounded down, tiers fixed by the first check.
    - Relying: platform/oidcrp and platform/logingov.  Signed states and
      records in flight are exact; what a Login.gov identity needs; a tenant takes
      exactly the tokens of its first provider and client.
    - HttpHelpers: platform/apierror and platform/httputil.  Bounds
      of pagination, which offsets break; errors and events as they are written.
    - Upload: platform/upload over [Minio] and the class [UploadStore].
      An upload completes once, by its uploader, whatever was stored.
    - Piv: platform/mtls/piv, with the DER of encoding/asn1 as far as it needs it.  The
      names of a certificate are read back; EDIPIs and chains are exact.
    - SamlGuards: platform/saml.  An assertion is new once before it expires, the guard
      against wrapping is exact, and so are the factories and the metadata cache.
    - Spiffe: platform/spiffe, with [url.Parse] as far as it needs it.  What
      is built parses back; encoded dots and slashes and encoded control
      characters pass the guard against traversal.

    ** Bounds and fuel

    A few definitions recurse on fuel, each given a bound that suffices.  The length
    of what is consumed: [replace_all_fuel] in Livekit and [parse_elements] and
    [parse_subidentifiers] in Piv, of whose text each step takes a character at
    least, and [evict] in Rpauth, which removes an element per step.  The number
    of steps that can matter: [search_loop] in Credentials, whose interval has at
    most the size it starts with and shrinks; [be_bytes] in Signature and [hex_of]
    in Storage, with a step per bit of the number and more; [ipv6_loop] in
    Webfetch, the eight groups of an address; [Do] there, the redirects the policy
    allows ([Do_enough] shows that it never runs out).  [fill] in Scheduler, a
    loop whose 64-bit counter can wrap around, has five more than the upper bound of
    the field; [fill_terminates] shows that this is enough for every step the
    parser accepts.  Every other recursion is structural, and programs are total:
    no theorem assumes that a program returns.

    ** What is not modelled

    SQL stores other than the audit buffer and the attachments table, and generated
    code (their semantics is PostgreSQL's or the generator's), cryptography, X.509 and XML signatures and other protocol
    libraries, thin clients of external services (e-mail, search, notifications,
    collectors), configuration and server assembly. *)

From Stdlib Require Export Ascii String.
From stdpp Require Export sorting strings numbers pretty.
From stdpp Require Export base tactics list gmap.

(** ** Basic data *)

(** A [uuid.UUID] is read as the number its sixteen bytes denote; the code
    only compares identifiers, tests them against [uuid.Nil] and prints them. *)
Abbreviation uuid := N (only parsing).
Abbreviation uuid_Nil := (0%N) (only parsing).

(** A [time.Time] is a number of nanoseconds, zero being Go's zero time, and a
    [time.Duration] a number of nanoseconds. *)
Abbreviation time := Z (only parsing).
Abbreviation duration := Z (only parsing).

Definition Second : duration := 1000000000%Z.
Definition Minute : duration := (60 * Second)%Z.
Definition Hour : duration := (60 * Minute)%Z.

(** [t.IsZero()]. *)
Definition IsZero (t : time) : bool := bool_decide (t = 0%Z).
(** [t.After(u)] and [t.Before(u)]. *)
Definition After (t u : time) : bool := bool_decide (u < t)%Z.
Definition Before (t u : time) : bool := bool_decide (t < u)%Z.
(** [t.Sub(u)] saturates. *)
Definition time_Sub (t u : time) : duration := Z.max (- 2 ^ 63) (Z.min (2 ^ 63 - 1) (t - u)).
Lemma time_Sub_small t u : (- 2 ^ 63 ≤ t - u < 2 ^ 63)%Z → time_Sub t u = (t - u)%Z.
Proof. unfold time_Sub. lia. Qed.

(** ** Machine integers

    The two's complement reading of an integer at width [w]. *)
Definition wrap (w : Z) (n : Z) : Z :=
  ((n + 2 ^ (w - 1)) `mod` 2 ^ w - 2 ^ (w - 1))%Z.
Abbreviation wrap32 := (wrap 32).
Abbreviation wrap64 := (wrap 64).

Lemma wrap64_small n : (- 2 ^ 63 ≤ n < 2 ^ 63)%Z → wrap64 n = n.
Proof. intros Hn. unfold wrap. rewrite Z.mod_small; lia. Qed.
Lemma wrap32_small n : (- 2 ^ 31 ≤ n < 2 ^ 31)%Z → wrap32 n = n.
Proof. intros Hn. unfold wrap. rewrite Z.mod_small; lia. Qed.

(** ** Errors

    A Go error is a sentinel value, a fresh error made by [fmt.Errorf], or
    an error wrapped with [%w]; [errors.Is] looks through the wrapping. *)
Inductive goerr (X : Type) : Type :=
  | Sentinel (s : X)
  | Errorf (msg : string)
  | Wrapf (msg : string) (e : goerr X).
Arguments Sentinel {X} _.
Arguments Errorf {X} _.
Arguments Wrapf {X} _ _.

#[export] Instance goerr_eq_dec `{EqDecision X} : EqDecision (goerr X).
Proof. solve_decision. Defined.

Fixpoint errors_Is `{EqDecision X} (e : goerr X) (s : X) : bool :=
  match e with
  | Sentinel s' => bool_decide (s' = s)
  | Errorf _ => false
  | Wrapf _ e' => errors_Is e' s
  end.

(** What a fallible call returns. *)
Inductive outcome (E A : Type) : Type :=
  | Ok (a : A)
  | Err (e : E).
Arguments Ok {E A} _.
Arguments Err {E A} _.

#[export] Instance outcome_eq_dec `{EqDecision E, EqDecision A} : EqDecision (outcome E A).
Proof. solve_decision. Defined.

Definition is_Ok {E A} (o : outcome E A) : bool :=
  match o with Ok _ => true | Err _ => false end.

(** A call that may panic instead. *)
Inductive call (A : Type) : Type :=
  | Returns (a : A)
  | Panics.
Arguments Returns {A} _.
Arguments Panics {A}.

(** ** Stateful, fallible programs

    A method that mutates its receiver and returns [(A, error)].  An error
    return keeps every mutation made before it: nothing is rolled back. *)
Definition prog (St E A : Type) : Type := St → outcome E A * St.

#[export] Instance prog_ret {St E} : MRet (prog St E) := λ A a s, (Ok a, s).
#[export] Instance prog_bind {St E} : MBind (prog St E) := λ A B k m s,
  match m s with
  | (Ok a, s') => k a s'
  | (Err e, s') => (Err e, s')
  end.

Section programs.
Context {St E : Type}.
Implicit Types (A : Type).

(** [return zero, err]. *)
Definition throw {A} (e : E) : prog St E A := λ s, (Err e, s).
Definition get : prog St E St := λ s, (Ok s, s).
Definition gets {A} (f : St → A) : prog St E A := λ s, (Ok (f s), s).
Definition modify (f : St → St) : prog St E unit := λ s, (Ok tt, f s).
(** [if bad { return err }]. *)
Definition reject_if (bad : bool) (e : E) : prog St E unit :=
  if bad then throw e else mret tt.
(** A call whose two results are inspected by the caller. *)
Definition try {A} (m : prog St E A) : prog St E (outcome E A) :=
  λ s, let '(r, s') := m s in (Ok r, s').
(** [_ = f()]. *)
Definition ignore {A} (m : prog St E A) : prog St E unit :=
  λ s, (Ok tt, (m s).2).
(** A value computed without touching the state. *)
Definition of_outcome {A} (o : outcome E A) : prog St E A := λ s, (o, s).
End programs.

(** [if err != nil { return zero, fmt.Errorf("msg: %w", err) }]. *)
Definition wrapping {St X A} (msg : string) (m : prog St (goerr X) A) : prog St (goerr X) A :=
  λ s, match m s with
       | (Ok a, s') => (Ok a, s')
       | (Err e, s') => (Err (Wrapf msg e), s')
       end.

(** A call on one component of a larger state. *)
Definition zoom {T St E A} (view : St → T) (set : T → St → St) (m : prog T E A) : prog St E A :=
  λ s, let '(r, t') := m (view s) in (r, set t' s).

(** ** Iteration over maps

    [for k, v := range m] visits the entries of a Go map in an unspecified
    order.  The development is parametric in that order: [range] is any
    enumeration of the entries. *)
Class MapRange : Type := {
  range : ∀ {K V : Type} `{Countable K}, gmap K V → list (K * V);
  range_perm : ∀ {K V : Type} `{Countable K} (m : gmap K V), range m ≡ₚ map_to_list m;
}.

(** One such order, used where a witness evaluates a program. *)
Definition canonical_range : MapRange := {|
  range := λ K V _ _ m, map_to_list m;
  range_perm := λ K V _ _ m, Permutation_refl (map_to_list m);
|}.

Definition range_values {R : MapRange} `{Countable K} {V} (m : gmap K V) : list V :=
  (range m).*2.

(** [for _, x := range xs { if f x { ... return } }]: does some [x] satisfy [f]? *)
Definition any {A} (f : A → bool) (l : list A) : bool := existsb f l.
(** The number of elements that satisfy [f]. *)
Definition count {A} (f : A → bool) (l : list A) : nat := length (filter (λ x, f x = true) l).

(** What one call reads from outside the program: the clock, the identifiers
    [uuid.New] returns (in the order of the calls) and the order in which maps
    are ranged over. *)
Record Env : Type := {
  now : time;
  new_id : nat → uuid;
  order : MapRange;
}.

(** [json.RawMessage]: [None] is a nil slice. *)
Abbreviation RawMessage := (option string) (only parsing).
(** [len(r) == 0]. *)
Definition raw_empty (r : RawMessage) : bool :=
  match r with None => true | Some s => bool_decide (s = ""%string) end.

(** One iteration of a loop that keeps the best of the selected elements:
    [if sel x && (best == nil || better x best) { best = x }]. *)
Definition keep_best {A} (sel : A → bool) (better : A → A → bool) (best : option A) (x : A) :
    option A :=
  if sel x then
    match best with
    | None => Some x
    | Some b => if better x b then Some x else Some b
    end
  else best.

(** ** Sorting

    [sort.Slice(s, less)]: [a] may stand before [b] when [less b a] is false.
    [sort.Slice] leaves the order of equivalent elements open; the slices the
    code sorts come from a map range, whose order is itself arbitrary. *)
Definition may_precede {A} (less : A → A → bool) : relation A := λ a b, less b a = false.
#[export] Instance may_precede_dec {A} (less : A → A → bool) : RelDecision (may_precede less).
Proof. intros a b. unfold may_precede. apply _. Defined.
Definition sort_slice {A} (less : A → A → bool) (l : list A) : list A :=
  merge_sort (may_precede less) l.

(** What [sort.Slice] asks of its comparison. *)
Class StrictWeak {A} (less : A → A → bool) : Prop := {
  less_asym a b : less a b = true → less b a = false;
  less_cotrans a b c : less a b = false → less b c = false → less a c = false;
}.

(** [s[offset:]] and then [s[:limit]], for in-range arguments. *)
Definition drop_Z {A} (offset : Z) (l : list A) : list A := drop (Z.to_nat offset) l.
Definition take_Z {A} (limit : Z) (l : list A) : list A := take (Z.to_nat limit) l.

(** ** Printed identifiers

    [uuid.UUID.String] and [uuid.Parse] belong to github.com/google/uuid.  What
    the code relies on: parsing a printed identifier gives it back, and the
    printed form (hexadecimal digits and dashes) holds no colon. *)
Class UuidText : Type := {
  uuid_String : uuid → string;
  uuid_Parse : string → option uuid;
  uuid_Parse_String u : uuid_Parse (uuid_String u) = Some u;
  uuid_String_no_colon u : ":"%char ∉ String.list_ascii_of_string (uuid_String u);
}.

(** A stand-in for the package that satisfies those two requirements, for
    the witnesses that evaluate a program: binary digits, least first. *)
Fixpoint bits_of (p : positive) : string :=
  match p with
  | xH => ""
  | xO p => String "0" (bits_of p)
  | xI p => String "1" (bits_of p)
  end.
Fixpoint bits_parse (s : string) : option positive :=
  match s with
  | EmptyString => Some xH
  | String "0" s => xO <$> bits_parse s
  | String "1" s => xI <$> bits_parse s
  | _ => None
  end.
Definition binary_String (u : uuid) : string :=
  match u with N0 => "-" | Npos p => bits_of p end.
Definition binary_Parse (s : string) : option uuid :=
  if decide (s = "-"%string) then Some 0%N else Npos <$> bits_parse s.

Lemma bits_parse_of p : bits_parse (bits_of p) = Some p.
Proof. induction p as [p IH|p IH|]; simpl; rewrite ?IH; done. Qed.

Lemma bits_of_no_colon p : ":"%char ∉ String.list_ascii_of_string (bits_of p).
Proof. induction p as [p IH|p IH|]; simpl; set_solver. Qed.

Lemma binary_Parse_String u : binary_Parse (binary_String u) = Some u.
Proof.
  destruct u as [|p]; [done|]. unfold binary_Parse, binary_String.
  case_decide as Hp; [by destruct p|]. by rewrite bits_parse_of.
Qed.

Lemma binary_String_no_colon u : ":"%char ∉ String.list_ascii_of_string (binary_String u).
Proof. destruct u as [|p]; [simpl; set_solver|apply bits_of_no_colon]. Qed.

Definition binary_uuid_text : UuidText := {|
  uuid_String := binary_String; uuid_Parse := binary_Parse;
  uuid_Parse_String := binary_Parse_String;
  uuid_String_no_colon := binary_String_no_colon |}.

(** ** Strings

    The functions of package [strings] the code uses. *)
(** [strings.TrimPrefix], for a text that has the prefix. *)
Definition trim_prefix (p s : string) : string :=
  String.substring (String.length p) (String.length s - String.length p) s.
(** [strings.HasSuffix] and [strings.TrimSuffix]. *)
Definition has_suffix (suf s : string) : bool :=
  bool_decide (String.length suf ≤ String.length s)%nat
  && bool_decide (String.substring (String.length s - String.length suf) (String.length suf) s = suf).
Definition trim_suffix (suf s : string) : string :=
  if has_suffix suf s then String.substring 0 (String.length s - String.length suf) s else s.
(** [strings.Split(s, c)] for a separator of one character. *)
Fixpoint split_on (c : ascii) (s : string) : list string :=
  match s with
  | EmptyString => [""]
  | String a rest =>
      if bool_decide (a = c) then "" :: split_on c rest
      else match split_on c rest with
           | [] => [String a ""]
           | x :: xs => String a x :: xs
           end
  end.

(** [for _, r := range s] decodes UTF-8; [decode] lists the runes of a sequence
    of bytes, the replacement character standing for each invalid byte. *)
Definition RuneError : N := 65533.
Definition within_ (lo hi b : N) : bool := bool_decide (lo ≤ b)%N && bool_decide (b ≤ hi)%N.
Definition cont (b : N) : bool := within_ 128 191 b.
Definition low6 (b : N) : N := (b - 128)%N.
Fixpoint decode (l : list N) : list N :=
  match l with
  | [] => []
  | b0 :: l0 =>
      if within_ 0 127 b0 then b0 :: decode l0
      else
        match l0 with
        | b1 :: l1 =>
            if within_ 194 223 b0 && cont b1
            then ((b0 - 192) * 64 + low6 b1)%N :: decode l1
            else
              match l1 with
              | b2 :: l2 =>
                  if cont b1 && cont b2
                     && ((bool_decide (b0 = 224%N) && within_ 160 191 b1)
                         || within_ 225 236 b0 || within_ 238 239 b0
                         || (bool_decide (b0 = 237%N) && within_ 128 159 b1))
                  then ((b0 - 224) * 4096 + low6 b1 * 64 + low6 b2)%N :: decode l2
                  else
                    match l2 with
                    | b3 :: l3 =>
                        if cont b1 && cont b2 && cont b3
                           && ((bool_decide (b0 = 240%N) && within_ 144 191 b1)
                               || within_ 241 243 b0
                               || (bool_decide (b0 = 244%N) && within_ 128 143 b1))
                        then ((b0 - 240) * 262144 + low6 b1 * 4096 + low6 b2 * 64 + low6 b3)%N
                             :: decode l3
                        else RuneError :: decode l0
                    | [] => RuneError :: decode l0
                    end
              | [] => RuneError :: decode l0
              end
        | [] => RuneError :: decode l0
        end
  end.
Definition runes (s : string) : list N := decode (N_of_ascii <$> String.list_ascii_of_string s).

(** [unicode.IsSpace] and [strings.TrimSpace], on runes. *)
Definition is_space (r : N) : bool :=
  within_ 9 13 r || bool_decide (r ∈ [32; 133; 160; 5760; 8232; 8233; 8239; 8287; 12288]%N)
  || within_ 8192 8202 r.
Fixpoint trim_left (l : list N) : list N :=
  match l with
  | r :: rest => if is_space r then trim_left rest else l
  | [] => []
  end.
Definition trim_space (l : list N) : list N := reverse (trim_left (reverse (trim_left l))).

(** ** Automation *)

(** Runs a program on a symbolic state, one branch per goal. *)
Ltac prog_unfold :=
  cbv [mbind prog_bind mret prog_ret throw get gets modify reject_if try ignore
       of_outcome wrapping zoom] in *.
Ltac prog_step :=
  first [ progress simplify_eq/= | case_match | progress prog_unfold ].
Ltac prog_cases := prog_unfold; simpl in *; repeat prog_step.

Create HintDb go.

(** ** Shared lemmas *)

Section range_lemmas.
Context `{!MapRange} `{Countable K} {V : Type}.
Implicit Types (m : gmap K V).

Lemma elem_of_range m k v : (k, v) ∈ range m ↔ m !! k = Some v.
Proof. by rewrite range_perm, elem_of_map_to_list. Qed.

Lemma elem_of_range_values m v : v ∈ range_values m ↔ ∃ k, m !! k = Some v.
Proof.
  unfold range_values. rewrite list_elem_of_fmap. split.
  - intros ([k w] & -> & Hk). exists k. by apply elem_of_range.
  - intros [k Hk]. exists (k, v). split; [done|]. by apply elem_of_range.
Qed.

Lemma range_NoDup m : NoDup (range m).
Proof. rewrite range_perm. apply NoDup_map_to_list. Qed.

Lemma range_NoDup_fst m : NoDup (range m).*1.
Proof. rewrite range_perm. apply NoDup_fst_map_to_list. Qed.
End range_lemmas.

(** An invariant of the steps is an invariant of the runs. *)
Lemma rtc_preserves {A} (R : relation A) (I : A → Prop) x y :
  (∀ a b, R a b → I a → I b) → rtc R x y → I x → I y.
Proof. intros Hstep. induction 1; eauto. Qed.

Lemma any_true {A} (f : A → bool) l : any f l = true ↔ ∃ x, x ∈ l ∧ f x = true.
Proof. unfold any. rewrite existsb_exists. by setoid_rewrite <-list_elem_of_In. Qed.

Lemma any_false {A} (f : A → bool) l : any f l = false ↔ ∀ x, x ∈ l → f x = false.
Proof.
  rewrite <-not_true_iff_false, any_true. split.
  - intros Hn x Hx. apply not_true_iff_false. naive_solver.
  - intros Hall (x & Hx & Hfx). rewrite Hall in Hfx; done.
Qed.

Lemma count_perm {A} (f : A → bool) l l' : l ≡ₚ l' → count f l = count f l'.
Proof. intros Hp. unfold count. by rewrite Hp. Qed.

#[export] Instance count_Proper {A} (f : A → bool) : Proper ((≡ₚ) ==> (=)) (count f).
Proof. intros l l'. apply count_perm. Qed.

Lemma count_cons {A} (f : A → bool) x l :
  count f (x :: l) = ((if f x then 1 else 0) + count f l)%nat.
Proof. unfold count. rewrite filter_cons. destruct (f x); by case_decide. Qed.

Lemma count_app {A} (f : A → bool) l l' : count f (l ++ l') = (count f l + count f l')%nat.
Proof. unfold count. by rewrite filter_app, length_app. Qed.

Lemma count_zero {A} (f : A → bool) l : count f l = 0%nat ↔ any f l = false.
Proof.
  induction l as [|x l IH]; [done|]. rewrite count_cons.
  unfold any in *. simpl. destruct (f x); simpl; [lia|done].
Qed.

Lemma count_ext {A} (f g : A → bool) l :
  (∀ x, x ∈ l → f x = g x) → count f l = count g l.
Proof.
  induction l as [|x l IH]; intros Hfg; [done|].
  rewrite !count_cons, Hfg, IH; set_solver.
Qed.

(** Counting the entries of a map does not depend on the order of the range. *)
Lemma count_range_values `{R : !MapRange} `{Countable K} {V} (f : V → bool) (m : gmap K V) :
  count f (range_values m) = size (filter (λ '(_, v), f v = true) m).
Proof.
  unfold range_values. rewrite (count_perm _ _ (map_to_list m).*2) by (by rewrite range_perm).
  induction m as [|k v m Hk IH] using map_ind.
  - by rewrite map_to_list_empty, map_filter_empty, map_size_empty.
  - rewrite map_to_list_insert, fmap_cons, count_cons, map_filter_insert, IH by done.
    case_decide as Hd; cbn in *.
    + rewrite Hd, map_size_insert_None; [done|]. apply map_lookup_filter_None. by left.
    + apply not_true_is_false in Hd. by rewrite Hd, delete_id.
Qed.

(** Text before the first colon determines the split. *)
Lemma append_colon_inj (s s' t t' : string) :
  ":"%char ∉ String.list_ascii_of_string s → ":"%char ∉ String.list_ascii_of_string s' →
  s +:+ ":" +:+ t = s' +:+ ":" +:+ t' → s = s' ∧ t = t'.
Proof.
  revert s'. induction s as [|a s IH]; intros [|b s'] Hs Hs' Heq; cbn in *; simplify_eq.
  - done.
  - set_solver.
  - set_solver.
  - destruct (IH s') as [-> ->]; [set_solver..|done|done].
Qed.

(** Writing the entries of a map one by one is the union of the maps. *)
Lemma foldl_insert_list `{Countable K} {V} (l : list (K * V)) (m : gmap K V) :
  NoDup l.*1 → foldl (λ m '(k, v), <[k := v]> m) m l = list_to_map l ∪ m.
Proof.
  revert m. induction l as [|[k v] l IH]; intros m Hnd; cbn; [by rewrite (left_id_L ∅ (∪))|].
  apply NoDup_cons in Hnd as [Hk Hnd]. rewrite IH by done.
  rewrite <-insert_union_r by (by apply not_elem_of_list_to_map_1).
  by rewrite insert_union_l.
Qed.

Lemma foldl_insert_range `{R : !MapRange} `{Countable K} {V} (o m : gmap K V) :
  foldl (λ m '(k, v), <[k := v]> m) m (range o) = o ∪ m.
Proof.
  rewrite foldl_insert_list by apply range_NoDup_fst. f_equal.
  rewrite <-(list_to_map_to_list o) at 2. apply list_to_map_proper; [apply range_NoDup_fst|].
  apply range_perm.
Qed.

(** Deleting every key that the range visits empties the map. *)
Lemma foldl_delete_range `{R : !MapRange} `{Countable K} {V} (m : gmap K V) :
  foldl (λ c '(k, _), delete k c) m (range m) = ∅.
Proof.
  assert (∀ (l : list (K * V)) (c : gmap K V) k,
    foldl (λ c '(k, _), delete k c) c l !! k = None ↔ (k ∈ l.*1 ∨ c !! k = None)) as Hl.
  { intros l. induction l as [|[j v] l IH]; intros c k; cbn; [set_solver|].
    rewrite IH, lookup_delete_None, elem_of_cons. naive_solver. }
  apply map_eq. intros k. rewrite lookup_empty. apply Hl.
  destruct (m !! k) as [v|] eqn:Hk; [|by right]. left. apply list_elem_of_fmap.
  exists (k, v). by rewrite elem_of_range.
Qed.

#[export] Instance uuid_String_inj `{!UuidText} : Inj (=) (=) uuid_String.
Proof. intros u v Huv. apply (f_equal uuid_Parse) in Huv. rewrite !uuid_Parse_String in Huv. congruence. Qed.

Lemma substring_full s : String.substring 0 (String.length s) s = s.
Proof. induction s as [|a s IH]; cbn; [done|]. by rewrite IH. Qed.

Lemma prefix_app p s : String.prefix p (p +:+ s) = true.
Proof.
  induction p as [|a p IH]; [by destruct s|].
  change (String a p +:+ s) with (String a (p +:+ s)). unfold String.prefix; fold String.prefix.
  by destruct (ascii_dec a a).
Qed.

Lemma string_app_empty (s : string) : s +:+ "" = s.
Proof. induction s as [|a s IH]; [done|]. change (String a s +:+ "") with (String a (s +:+ "")). by rewrite IH. Qed.
Lemma prefix_inv p s : String.prefix p s = true → s = p +:+ trim_prefix p s.
Proof.
  revert s. induction p as [|a p IH]; intros s Hp.
  - unfold trim_prefix. cbn. by rewrite Nat.sub_0_r, substring_full.
  - destruct s as [|b s]; [done|]. unfold String.prefix in Hp; fold String.prefix in Hp.
    destruct (ascii_dec a b) as [<-|]; [|done].
    change (String a s = String a (p +:+ trim_prefix p s)). by rewrite <-(IH _ Hp).
Qed.

Lemma trim_prefix_app p s : trim_prefix p (p +:+ s) = s.
Proof.
  unfold trim_prefix. replace (String.length (p +:+ s) - String.length p)%nat with (String.length s).
  - induction p as [|a p IH]; [apply substring_full|exact IH].
  - induction p as [|a p IH]; [apply eq_sym, Nat.sub_0_r|exact IH].
Qed.

Lemma length_string_app p s : String.length (p +:+ s) = (String.length p + String.length s)%nat.
Proof. induction p as [|a p IH]; [done|]. by apply (f_equal S). Qed.

Lemma substring_skip p s n : String.substring (String.length p) n (p +:+ s) = String.substring 0 n s.
Proof. by induction p as [|a p IH]. Qed.

Lemma substring_take p s : String.substring 0 (String.length p) (p +:+ s) = p.
Proof. induction p as [|a p IH]; [by destruct s|]. by apply (f_equal (String a)). Qed.

Lemma substring_split n s :
  s = String.substring 0 n s +:+ String.substring n (String.length s - n) s.
Proof.
  revert n. induction s as [|a s IH]; intros [|n]; [done..| |].
  - change (String a s = String.substring 0 (String.length (String a s)) (String a s)).
    by rewrite substring_full.
  - cbn [String.substring String.length Nat.sub].
    change (String a s = String a (String.substring 0 n s +:+ String.substring n (String.length s - n) s)).
    by rewrite <-IH.
Qed.

Lemma has_suffix_app p suf : has_suffix suf (p +:+ suf) = true.
Proof.
  unfold has_suffix. rewrite length_string_app, Nat.add_sub, substring_skip, substring_full.
  rewrite !bool_decide_true by (done || lia). done.
Qed.

Lemma trim_suffix_app p suf : trim_suffix suf (p +:+ suf) = p.
Proof.
  unfold trim_suffix. by rewrite has_suffix_app, length_string_app, Nat.add_sub, substring_take.
Qed.

Lemma has_suffix_inv suf s : has_suffix suf s = true → s = trim_suffix suf s +:+ suf.
Proof.
  intros Hs. unfold trim_suffix. rewrite Hs. unfold has_suffix in Hs.
  apply andb_true_iff in Hs as [Hl Hsub]. apply bool_decide_eq_true in Hl, Hsub.
  rewrite (substring_split (String.length s - String.length suf) s) at 1.
  replace (String.length s - (String.length s - String.length suf))%nat with (String.length suf) by lia.
  by rewrite Hsub.
Qed.

Lemma split_on_none c s : c ∉ String.list_ascii_of_string s → split_on c s = [s].
Proof.
  induction s as [|a s IH]; cbn; [done|]. rewrite not_elem_of_cons. intros [Hne Hs].
  rewrite bool_decide_false, (IH Hs) by congruence. done.
Qed.

Lemma split_on_app c p s :
  c ∉ String.list_ascii_of_string p → split_on c (p +:+ String c s) = p :: split_on c s.
Proof.
  induction p as [|a p IH].
  - intros _. change ("" +:+ String c s) with (String c s). cbn. by rewrite bool_decide_true.
  - cbn [String.list_ascii_of_string]. rewrite not_elem_of_cons. intros [Hne Hp].
    change (String a p +:+ String c s) with (String a (p +:+ String c s)).
    cbn [split_on]. rewrite bool_decide_false, (IH Hp) by congruence. done.
Qed.

Lemma NoDup_fst_eq {A B} (l : list (A * B)) k x y : NoDup l.*1 → (k, x) ∈ l → (k, y) ∈ l → x = y.
Proof.
  intros Hnd [i Hi]%list_elem_of_lookup [j Hj]%list_elem_of_lookup.
  assert (i = j) as -> by (apply (NoDup_lookup l.*1 i j k); by rewrite ?list_lookup_fmap, ?Hi, ?Hj). congruence.
Qed.
Lemma filter_all {A} (P : A → Prop) `{∀ x, Decision (P x)} (l : list A) : (∀ x, x ∈ l → P x) → filter P l = l.
Proof.
  induction l as [|x l IH]; intros Hp; [done|]. rewrite filter_cons_True by (apply Hp; by left).
  f_equal. apply IH. intros y Hy. apply Hp. by right.
Qed.

Lemma StronglySorted_mono {A} (R R' : relation A) l :
  (∀ a b, R a b → R' a b) → StronglySorted R l → StronglySorted R' l.
Proof.
  intros Himp. induction 1; constructor; [done|]. eapply Forall_impl; eauto.
Qed.

Lemma StronglySorted_lookup {A} (R : relation A) l i j x y :
  StronglySorted R l → l !! i = Some x → l !! j = Some y → (i < j)%nat → R x y.
Proof.
  intros Hs. revert i j. induction Hs as [|z l Hs IH Hall]; intros i j Hx Hy Hij; [done|].
  destruct j as [|j]; [lia|]. destruct i as [|i]; cbn in *; simplify_eq; [|eapply IH; eauto; lia].
  rewrite Forall_forall in Hall. by eapply Hall, list_elem_of_lookup_2.
Qed.

Section sorting.
Context {A : Type} (less : A → A → bool).

Lemma sort_slice_perm l : sort_slice less l ≡ₚ l.
Proof. apply merge_sort_Permutation. Qed.

Lemma elem_of_sort_slice x l : x ∈ sort_slice less l ↔ x ∈ l.
Proof. by rewrite sort_slice_perm. Qed.

Context `{!StrictWeak less}.

#[local] Instance may_precede_total : Total (may_precede less).
Proof.
  intros a b. unfold may_precede. destruct (less b a) eqn:E; [right|by left].
  by apply less_asym.
Qed.

#[local] Instance may_precede_trans : Transitive (may_precede less).
Proof. intros a b c Hab Hbc. unfold may_precede in *. eauto using less_cotrans. Qed.

Lemma sort_slice_sorted l : StronglySorted (may_precede less) (sort_slice less l).
Proof. apply (StronglySorted_merge_sort (may_precede less)). Qed.

(** The first element of a sorted slice: an element no other one is less than. *)
Lemma sort_slice_head x l l' :
  sort_slice less l = x :: l' → x ∈ l ∧ ∀ y, y ∈ l → less y x = false.
Proof.
  intros Hs. split.
  - apply elem_of_sort_slice. rewrite Hs. set_solver.
  - intros y Hy. apply elem_of_sort_slice in Hy. rewrite Hs in Hy.
    pose proof (sort_slice_sorted l) as Hst. rewrite Hs in Hst.
    apply StronglySorted_inv in Hst as [_ Hall].
    apply elem_of_cons in Hy as [->|Hy].
    + destruct (less x x) eqn:E; [|done]. pose proof (less_asym _ _ E). congruence.
    + rewrite Forall_forall in Hall. by apply Hall.
Qed.
End sorting.

(** The loop ends with a selected element none of the selected ones beats, or
    with nothing when none is selected. *)
Section keep_best.
Context {A : Type} (sel : A → bool) (better : A → A → bool) `{!StrictWeak better}.

Lemma less_irrefl x : better x x = false.
Proof. destruct (better x x) eqn:E; [|done]. pose proof (less_asym _ _ E). congruence. Qed.

Lemma keep_best_from (l : list A) b :
  sel b = true →
  ∃ r, foldl (keep_best sel better) (Some b) l = Some r ∧ (r = b ∨ r ∈ l) ∧ sel r = true ∧
    better b r = false ∧ ∀ x, x ∈ l → sel x = true → better x r = false.
Proof.
  revert b. induction l as [|y l IH]; intros b Hb; cbn.
  { exists b. split_and!; eauto using less_irrefl. by intros ? ?%not_elem_of_nil. }
  unfold keep_best at 2. destruct (sel y) eqn:Hy; [destruct (better y b) eqn:Hyb|].
  - destruct (IH y Hy) as (r & -> & Hin & Hr & Hyr & Hall). exists r. split_and!; [done| |done| |].
    + set_solver.
    + apply less_asym in Hyb. eauto using less_cotrans.
    + intros x [->|Hx]%elem_of_cons; eauto.
  - destruct (IH b Hb) as (r & -> & Hin & Hr & Hbr & Hall). exists r. split_and!; try done.
    + set_solver.
    + intros x [->|Hx]%elem_of_cons; eauto using less_cotrans.
  - destruct (IH b Hb) as (r & -> & Hin & Hr & Hbr & Hall). exists r. split_and!; try done.
    + set_solver.
    + intros x [->|Hx]%elem_of_cons; [congruence|eauto].
Qed.

Lemma keep_best_spec l :
  match foldl (keep_best sel better) None l with
  | Some r => r ∈ l ∧ sel r = true ∧ ∀ x, x ∈ l → sel x = true → better x r = false
  | None => ∀ x, x ∈ l → sel x = false
  end.
Proof.
  induction l as [|y l IH]; cbn; [by intros ? ?%not_elem_of_nil|].
  unfold keep_best at 2. destruct (sel y) eqn:Hy.
  - destruct (keep_best_from l y Hy) as (r & -> & Hin & Hr & Hyr & Hall). split_and!.
    + set_solver.
    + done.
    + intros x [->|Hx]%elem_of_cons; eauto.
  - destruct (foldl _ _ _) as [r|].
    + destruct IH as (Hin & Hr & Hall). split_and!; [set_solver|done|].
      intros x [->|Hx]%elem_of_cons; [congruence|eauto].
    + intros x [->|Hx]%elem_of_cons; eauto.
Qed.
End keep_best.

#[export] Hint Resolve range_NoDup range_NoDup_fst : go.

(** ** Programs that move the state along a relation *)

Section moves.
Context {St : Type} (R : relation St) {PR : PreOrder R}.

Definition moves {E A} (m : prog St E A) : Prop := ∀ s, R s (m s).2.

Lemma moves_still {E A} (m : prog St E A) : (∀ s, (m s).2 = s) → moves m.
Proof. intros Hm s. by rewrite Hm. Qed.
Lemma moves_ret {E A} (a : A) : moves (mret a : prog St E A).
Proof. by apply moves_still. Qed.
Lemma moves_throw {E A} (e : E) : moves (throw e : prog St E A).
Proof. by apply moves_still. Qed.
Lemma moves_of_outcome {E A} (o : outcome E A) : moves (of_outcome o : prog St E A).
Proof. by apply moves_still. Qed.
Lemma moves_get {E} : moves (get : prog St E St).
Proof. by apply moves_still. Qed.
Lemma moves_gets {E A} (f : St → A) : moves (gets f : prog St E A).
Proof. by apply moves_still. Qed.
Lemma moves_modify {E} f : (∀ s, R s (f s)) → moves (modify f : prog St E unit).
Proof. done. Qed.
Lemma moves_bind {E A B} (m : prog St E A) (k : A → prog St E B) : moves m → (∀ a, moves (k a)) → moves (m ≫= k).
Proof.
  intros Hm Hk s. specialize (Hm s). unfold mbind, prog_bind. destruct (m s) as [[a|err] s']; [|done].
  etrans; [exact Hm|apply Hk].
Qed.
Lemma moves_wrapping {X A} msg (m : prog St (goerr X) A) : moves m → moves (wrapping msg m).
Proof. intros Hm s. specialize (Hm s). unfold wrapping. by destruct (m s) as [[] ?]. Qed.
Lemma moves_try {E A} (m : prog St E A) : moves m → moves (try m).
Proof. intros Hm s. specialize (Hm s). unfold try. by destruct (m s). Qed.
Lemma moves_ignore {E A} (m : prog St E A) : moves m → moves (ignore m).
Proof. intros Hm s. exact (Hm s). Qed.
Lemma moves_zoom {T E A} (RT : relation T) (view : St → T) (set : T → St → St) (m : prog T E A) :
  (∀ t, RT t (m t).2) → (∀ s t, RT (view s) t → R s (set t s)) → moves (zoom view set m).
Proof. intros Hm Hz s. specialize (Hm (view s)). unfold zoom. destruct (m (view s)). by apply Hz. Qed.
End moves.
Create HintDb moves.
#[export] Hint Resolve moves_ret moves_throw moves_of_outcome moves_get moves_gets moves_wrapping moves_try moves_ignore : moves.
#[export] Hint Extern 0 (PreOrder _) => apply _ : moves.
(** Goes through a program; what is left are the calls no hint knows. *)
Ltac moving :=
  repeat match goal with
         | |- moves _ (_ ≫= _) => apply moves_bind; [apply _| |intros ?]
         | |- moves _ (match ?x with _ => _ end) => destruct x
         | |- moves _ (let _ := _ in _) => cbv zeta
         | |- moves _ _ => progress eauto with moves
         end.
