(* ===== verification/Encoding.v ===== *)
(** * Texts and their encodings

    The functions of packages [strings], [encoding/hex], [encoding/base64] and
    [net/url] that the authentication code applies to texts.  A Go string is a
    sequence of bytes, and white space is recognised in its UTF-8 form, so that
    trimming and splitting leave the other bytes, valid or not, as they are. *)

From S2P Require Import Prelude.

Abbreviation byte_of := N_of_ascii (only parsing).

(** ** White space

    The width in bytes of the white space a text starts with, zero for none:
    the ASCII spaces, U+0085 and U+00A0, and the spaces of three bytes. *)
Definition ascii_space (a : ascii) : bool :=
  within_ 9 13 (byte_of a) || bool_decide (byte_of a = 32%N).
Definition space2 (a b : ascii) : bool :=
  bool_decide (byte_of a = 194%N) && bool_decide (byte_of b = 133 ∨ byte_of b = 160)%N.
Definition space3 (a b c : ascii) : bool :=
  let a := byte_of a in let b := byte_of b in let c := byte_of c in
  (bool_decide (a = 225 ∧ b = 154 ∧ c = 128)%N
   || (bool_decide (a = 226 ∧ b = 128)%N
       && (within_ 128 138 c || bool_decide (c = 168 ∨ c = 169 ∨ c = 175)%N))
   || bool_decide (a = 226 ∧ b = 129 ∧ c = 159)%N
   || bool_decide (a = 227 ∧ b = 128 ∧ c = 128)%N).

Fixpoint trim_bytes_left (l : list ascii) : list ascii :=
  match l with
  | [] => []
  | a :: l1 =>
      if ascii_space a then trim_bytes_left l1
      else match l1 with
           | [] => l
           | b :: l2 =>
               if space2 a b then trim_bytes_left l2
               else match l2 with
                    | [] => l
                    | c :: l3 => if space3 a b c then trim_bytes_left l3 else l
                    end
           end
  end.
(** The same on a reversed text: each space is met from its last byte. *)
Fixpoint trim_bytes_right (l : list ascii) : list ascii :=
  match l with
  | [] => []
  | a :: l1 =>
      if ascii_space a then trim_bytes_right l1
      else match l1 with
           | [] => l
           | b :: l2 =>
               if space2 b a then trim_bytes_right l2
               else match l2 with
                    | [] => l
                    | c :: l3 => if space3 c b a then trim_bytes_right l3 else l
                    end
           end
  end.

(** [strings.TrimSpace]. *)
Definition TrimSpace (s : string) : string :=
  String.string_of_list_ascii
    (reverse (trim_bytes_right (reverse (trim_bytes_left (String.list_ascii_of_string s))))).

(** [strings.Fields]: [word] is the current field, reversed. *)
Definition flush (word : list ascii) (fields : list string) : list string :=
  match word with
  | [] => fields
  | _ => String.string_of_list_ascii (reverse word) :: fields
  end.
Fixpoint fields_of (word : list ascii) (l : list ascii) : list string :=
  match l with
  | [] => flush word []
  | a :: l1 =>
      if ascii_space a then flush word (fields_of [] l1)
      else match l1 with
           | [] => flush (a :: word) []
           | b :: l2 =>
               if space2 a b then flush word (fields_of [] l2)
               else match l2 with
                    | [] => fields_of (a :: word) l1
                    | c :: l3 =>
                        if space3 a b c then flush word (fields_of [] l3)
                        else fields_of (a :: word) l1
                    end
           end
  end.
Definition strings_Fields (s : string) : list string :=
  fields_of [] (String.list_ascii_of_string s).

(** UTF-8, for the runes a text can hold. *)
Definition encode_rune (r : N) : list ascii :=
  ascii_of_N <$>
    (if bool_decide (r < 128)%N then [r]
     else if bool_decide (r < 2048)%N then [192 + r / 64; 128 + r mod 64]
     else if bool_decide (r < 65536)%N then
       [224 + r / 4096; 128 + r / 64 mod 64; 128 + r mod 64]
     else [240 + r / 262144; 128 + r / 4096 mod 64; 128 + r / 64 mod 64; 128 + r mod 64])%N.
Definition encode (rs : list N) : string := String.string_of_list_ascii (concat (encode_rune <$> rs)).

(** [unicode.ToLower]: a table of the Unicode standard. *)
Class UnicodeCase : Type := {
  lower_rune : N → N;
  lower_rune_ascii r : (r < 128)%N → lower_rune r = if within_ 65 90 r then (r + 32)%N else r;
}.
(** The table of the ASCII letters. *)
Definition ascii_case : UnicodeCase.
Proof.
  refine {| lower_rune := λ r, if within_ 65 90 r then (r + 32)%N else r |}. done.
Defined.

(** [strings.ToLower]; a byte that is not part of a rune becomes U+FFFD. *)
Definition ToLower {C : UnicodeCase} (s : string) : string := encode (lower_rune <$> runes s).

(** [strings.Join(xs, sep)]. *)
Fixpoint strings_Join (sep : string) (xs : list string) : string :=
  match xs with
  | [] => ""
  | [x] => x
  | x :: rest => x +:+ sep +:+ strings_Join sep rest
  end.

(** ** Decimal numbers

    The value of a sequence of digits, and the digits [strconv] and [fmt] print. *)
Definition digit (r : N) : option Z :=
  if within_ 48 57 r then Some (Z.of_N r - 48)%Z else None.
Definition add_digit (acc : option Z) (r : N) : option Z :=
  n ← acc; d ← digit r; Some (n * 10 + d)%Z.
Definition digits (z : Z) : list N := N_of_ascii <$> String.list_ascii_of_string (pretty z).
Definition is_digit (r : N) : Prop := (48 ≤ r ≤ 57)%N.

(** Texts as runes, or as bytes where only ASCII matters. *)
Abbreviation text := (list N) (only parsing).
Definition bytes (s : string) : text := N_of_ascii <$> String.list_ascii_of_string s.

(** [strconv.Atoi]: an optional sign and decimal digits, within 64 bits. *)
Definition atoi_digits (s : text) : option Z :=
  match s with [] => None | _ => foldl add_digit (Some 0%Z) s end.
Definition in_int64 (n : Z) : option Z :=
  if bool_decide (- 2 ^ 63 ≤ n < 2 ^ 63)%Z then Some n else None.
Definition Atoi (s : text) : option Z :=
  match s with
  | 45%N :: rest => n ← atoi_digits rest; in_int64 (- n)%Z
  | 43%N :: rest => n ← atoi_digits rest; in_int64 n
  | _ => n ← atoi_digits s; in_int64 n
  end.

(** ** Order of texts: that of their bytes, as [sort.Strings] and [<] have it. *)
Fixpoint bytes_lt (a b : list N) : bool :=
  match a, b with
  | _, [] => false
  | [], _ :: _ => true
  | x :: a, y :: b => bool_decide (x < y)%N || (bool_decide (x = y) && bytes_lt a b)
  end.
Definition string_lt (a b : string) : bool := bytes_lt (bytes a) (bytes b).
(** [sort.Strings]. *)
Definition sort_Strings (l : list string) : list string := sort_slice string_lt l.

(** ** JSON values as [json.Unmarshal] decodes them into [any]; the members of an
    object are those of a Go map, in some order. *)
#[warnings="-register-all"] Inductive json : Type :=
  | JNull
  | JBool (b : bool)
  | JNumber (n : string)
  | JString (s : string)
  | JArray (l : list json)
  | JObject (members : list (string * json)).

(** The member of an object, if the value is one. *)
Definition member (k : string) (j : json) : option json :=
  match j with JObject ms => snd <$> head (filter (λ kv, kv.1 = k) ms) | _ => None end.

(** [strings.TrimRight(s, c)]. *)
Fixpoint TrimRight (s : string) (c : ascii) : string :=
  match s with
  | EmptyString => ""
  | String a s =>
      let s := TrimRight s c in
      if bool_decide (a = c) && bool_decide (s = "") then "" else String a s
  end.

(** ** Digests: [crypto/sha256] is a parameter. *)
Class Sha256 : Type := { sha256 : string → string }.

(** [strings.Contains(s, sub)]. *)
Definition strings_Contains (s sub : string) : bool :=
  match String.index 0 sub s with Some _ => true | None => false end.

(** ** Hexadecimal *)

Definition hex_digit (n : N) : ascii :=
  ascii_of_N (if bool_decide (n < 10)%N then 48 + n else 87 + n)%N.
Fixpoint hex_EncodeToString (s : string) : string :=
  match s with
  | EmptyString => ""
  | String a rest =>
      String (hex_digit (byte_of a / 16)) (String (hex_digit (byte_of a mod 16)%N)
        (hex_EncodeToString rest))
  end.
(** [fromHexChar]. *)
Definition hex_value (a : ascii) : option N :=
  let c := byte_of a in
  if within_ 48 57 c then Some (c - 48)%N
  else if within_ 97 102 c then Some (c - 87)%N
  else if within_ 65 70 c then Some (c - 55)%N
  else None.
Definition hex_byte (a b : ascii) : option ascii :=
  match hex_value a, hex_value b with
  | Some x, Some y => Some (ascii_of_N (16 * x + y)%N)
  | _, _ => None
  end.
(** [None] stands for the error of an odd length or a wrong digit. *)
Fixpoint hex_DecodeString (s : string) : option string :=
  match s with
  | EmptyString => Some ""
  | String a (String b rest) =>
      match hex_byte a b, hex_DecodeString rest with
      | Some c, Some r => Some (String c r)
      | _, _ => None
      end
  | String _ EmptyString => None
  end.

(** ** base64.RawStdEncoding and base64.RawURLEncoding

    The alphabets differ in their last two characters; neither pads. *)
Inductive alphabet : Type := StdAlphabet | URLAlphabet.
Definition last_two (al : alphabet) : N * N :=
  match al with StdAlphabet => (43, 47)%N | URLAlphabet => (45, 95)%N end.

Definition base64_char (al : alphabet) (n : N) : ascii :=
  ascii_of_N
    (if bool_decide (n < 26)%N then n + 65
     else if bool_decide (n < 52)%N then n + 71
     else if bool_decide (n < 62)%N then n - 4
     else if bool_decide (n = 62)%N then (last_two al).1 else (last_two al).2)%N.
(** The groups of six bits of a text, the last one filled with zeros. *)
Fixpoint sextets (l : list ascii) : list N :=
  match l with
  | [] => []
  | [a] => let n := (byte_of a * 16)%N in [n / 64; n mod 64]%N
  | [a; b] =>
      let n := (byte_of a * 1024 + byte_of b * 4)%N in [n / 4096; n / 64 mod 64; n mod 64]%N
  | a :: b :: c :: rest =>
      let n := (byte_of a * 65536 + byte_of b * 256 + byte_of c)%N in
      (n / 262144)%N :: (n / 4096 mod 64)%N :: (n / 64 mod 64)%N :: (n mod 64)%N :: sextets rest
  end.
Definition base64_EncodeToString (al : alphabet) (s : string) : string :=
  String.string_of_list_ascii (base64_char al <$> sextets (String.list_ascii_of_string s)).

Definition base64_value (al : alphabet) (a : ascii) : option N :=
  let c := byte_of a in
  if within_ 65 90 c then Some (c - 65)%N
  else if within_ 97 122 c then Some (c - 71)%N
  else if within_ 48 57 c then Some (c + 4)%N
  else if bool_decide (c = (last_two al).1) then Some 62%N
  else if bool_decide (c = (last_two al).2) then Some 63%N
  else None.
(** Groups of four characters; a last group may have two or three, and its
    spare bits are ignored. *)
Fixpoint decode_sextets (l : list N) : option (list ascii) :=
  match l with
  | [] => Some []
  | [_] => None
  | [x; y] => Some [ascii_of_N ((x * 64 + y) / 16)%N]
  | [x; y; z] =>
      let n := (x * 4096 + y * 64 + z)%N in
      Some [ascii_of_N (n / 1024)%N; ascii_of_N (n / 4 mod 256)%N]
  | x :: y :: z :: w :: rest =>
      let n := (x * 262144 + y * 4096 + z * 64 + w)%N in
      (λ r, ascii_of_N (n / 65536)%N :: ascii_of_N (n / 256 mod 256)%N
              :: ascii_of_N (n mod 256)%N :: r) <$> decode_sextets rest
  end.
(** [DecodeString] skips line ends; [None] stands for its error. *)
Definition base64_DecodeString (al : alphabet) (s : string) : option string :=
  let l := filter (λ a, byte_of a ≠ 10%N ∧ byte_of a ≠ 13%N) (String.list_ascii_of_string s) in
  String.string_of_list_ascii <$> (mapM (base64_value al) l ≫= decode_sextets).

(** ** HTTP header names *)

(** [http.Header.Set] brings its key into canonical form. *)
Definition upper_ascii (a : ascii) : ascii := if within_ 97 122 (byte_of a) then ascii_of_N (byte_of a - 32) else a.
Definition lower_ascii (a : ascii) : ascii := if within_ 65 90 (byte_of a) then ascii_of_N (byte_of a + 32) else a.
Definition token_char (a : ascii) : bool :=
  within_ 97 122 (byte_of a) || within_ 65 90 (byte_of a) || within_ 48 57 (byte_of a)
  || bool_decide (a ∈ String.list_ascii_of_string "!#$%&'*+-.^_`|~").
Fixpoint header_canonical (upper : bool) (l : list ascii) : list ascii :=
  match l with
  | [] => []
  | a :: l => (if upper then upper_ascii a else lower_ascii a) :: header_canonical (bool_decide (a = "-"%char)) l
  end.
Definition CanonicalHeaderKey (k : string) : string :=
  if forallb token_char (String.list_ascii_of_string k) then String.string_of_list_ascii (header_canonical true (String.list_ascii_of_string k)) else k.
Definition Header_Set (k v : string) (h : gmap string string) : gmap string string := <[CanonicalHeaderKey k := v]> h.

(** ** url.QueryEscape and url.QueryUnescape *)

Definition unreserved (a : ascii) : bool :=
  let c := byte_of a in
  within_ 48 57 c || within_ 65 90 c || within_ 97 122 c
  || bool_decide (c = 45 ∨ c = 95 ∨ c = 46 ∨ c = 126)%N.
Definition upper_hex_digit (n : N) : ascii :=
  ascii_of_N (if bool_decide (n < 10)%N then 48 + n else 55 + n)%N.
Fixpoint QueryEscape (s : string) : string :=
  match s with
  | EmptyString => ""
  | String a rest =>
      if bool_decide (a = " "%char) then String "+" (QueryEscape rest)
      else if unreserved a then String a (QueryEscape rest)
      else String "%" (String (upper_hex_digit (byte_of a / 16)%N)
             (String (upper_hex_digit (byte_of a mod 16)%N) (QueryEscape rest)))
  end.
Fixpoint QueryUnescape (s : string) : option string :=
  match s with
  | EmptyString => Some ""
  | String a rest =>
      if bool_decide (a = "%"%char) then
        match rest with
        | String b (String c rest') =>
            match hex_byte b c, QueryUnescape rest' with
            | Some x, Some r => Some (String x r)
            | _, _ => None
            end
        | _ => None
        end
      else String (if bool_decide (a = "+"%char) then " " else a) <$> QueryUnescape rest
  end.

(** ** Lemmas *)

Ltac each_byte a := destruct a as [[] [] [] [] [] [] [] []].

Lemma hex_byte_digits a : hex_byte (hex_digit (byte_of a / 16)) (hex_digit (byte_of a mod 16)%N) = Some a.
Proof. each_byte a; vm_compute; reflexivity. Qed.

Lemma hex_Decode_Encode s : hex_DecodeString (hex_EncodeToString s) = Some s.
Proof. induction s as [|a s IH]; [done|]. cbn [hex_EncodeToString hex_DecodeString]. by rewrite hex_byte_digits, IH. Qed.

#[export] Instance hex_EncodeToString_inj : Inj (=) (=) hex_EncodeToString.
Proof.
  intros s t Hst. apply (f_equal hex_DecodeString) in Hst. rewrite !hex_Decode_Encode in Hst. congruence.
Qed.

Lemma hex_byte_upper a :
  hex_byte (upper_hex_digit (byte_of a / 16)%N) (upper_hex_digit (byte_of a mod 16)%N) = Some a.
Proof. each_byte a; vm_compute; reflexivity. Qed.

Lemma unreserved_plain a : unreserved a = true → a ≠ "%"%char ∧ a ≠ "+"%char ∧ a ≠ "|"%char.
Proof. each_byte a; vm_compute; done. Qed.

(** Escaping loses nothing. *)
Lemma QueryUnescape_Escape s : QueryUnescape (QueryEscape s) = Some s.
Proof.
  induction s as [|a s IH]; [done|]. cbn [QueryEscape].
  destruct (bool_decide (a = " "%char)) eqn:Hsp.
  - apply bool_decide_eq_true in Hsp as ->. cbn. by rewrite IH.
  - destruct (unreserved a) eqn:Hu.
    + destruct (unreserved_plain _ Hu) as (Hp & Hq & _). cbn [QueryUnescape].
      by rewrite !bool_decide_false, IH.
    + cbn [QueryUnescape]. rewrite bool_decide_true by done.
      by rewrite hex_byte_upper, IH.
Qed.

Lemma upper_hex_digit_no_bar (n : N) :
  (n < 16)%N → upper_hex_digit n ≠ "|"%char.
Proof.
  intros Hn Heq. apply (f_equal N_of_ascii) in Heq. unfold upper_hex_digit in Heq.
  rewrite N_ascii_embedding in Heq by (case_bool_decide; lia).
  vm_compute (N_of_ascii "|") in Heq. case_bool_decide; lia.
Qed.

Lemma byte_of_bound a : (byte_of a < 256)%N.
Proof. apply N_ascii_bounded. Qed.

(** An escaped text never holds the separator of the handoff subjects. *)
Lemma QueryEscape_no_bar s : "|"%char ∉ String.list_ascii_of_string (QueryEscape s).
Proof.
  induction s as [|a s IH]; cbn [QueryEscape String.list_ascii_of_string]; [apply not_elem_of_nil|].
  pose proof (byte_of_bound a) as Hb.
  destruct (bool_decide (a = " "%char)); [|destruct (unreserved a) eqn:Hu];
    cbn [String.list_ascii_of_string]; rewrite !not_elem_of_cons.
  - split; [done|exact IH].
  - split; [|exact IH]. intros <-. by destruct (unreserved_plain _ Hu) as (_ & _ & ?).
  - split_and!; [done| | |exact IH]; apply not_eq_sym, upper_hex_digit_no_bar.
    + apply N.Div0.div_lt_upper_bound. lia.
    + apply N.mod_lt. lia.
Qed.

Lemma pretty_N_char_digit x :
  (x < 10)%N → digit (N_of_ascii (pretty_N_char x)) = Some (Z.of_N x) ∧
  is_digit (N_of_ascii (pretty_N_char x)).
Proof.
  intros Hx. assert (x = 0 ∨ x = 1 ∨ x = 2 ∨ x = 3 ∨ x = 4 ∨ x = 5 ∨ x = 6 ∨ x = 7 ∨ x = 8 ∨ x = 9)%N
    as Hcases by lia. unfold is_digit.
  repeat (destruct Hcases as [->|Hcases]; [by vm_compute|]). subst. by vm_compute.
Qed.

Lemma pretty_N_go_digits x s :
  foldl add_digit (Some 0%Z) (N_of_ascii <$> String.list_ascii_of_string (pretty_N_go x s)) =
  foldl add_digit (Some (Z.of_N x)) (N_of_ascii <$> String.list_ascii_of_string s) ∧
  (Forall is_digit (N_of_ascii <$> String.list_ascii_of_string s) →
   Forall is_digit (N_of_ascii <$> String.list_ascii_of_string (pretty_N_go x s))).
Proof.
  revert s. induction (N.lt_wf_0 x) as [x _ IH]; intros s.
  destruct (decide (x = 0)%N) as [->|Hx]; [by rewrite pretty_N_go_0|].
  rewrite pretty_N_go_step by lia.
  assert (x `mod` 10 < 10)%N as Hlt by (apply N.mod_lt; lia).
  destruct (pretty_N_char_digit _ Hlt) as [Hd Hi].
  destruct (IH (x / 10)%N ltac:(apply N.div_lt; lia) (String (pretty_N_char (x `mod` 10)) s)) as [IH1 IH2].
  split.
  - rewrite IH1. cbn [String.list_ascii_of_string fmap list_fmap foldl]. f_equal. unfold add_digit.
    cbn. rewrite Hd. cbn. f_equal. pose proof (N.div_mod' x 10). lia.
  - intros Hs. apply IH2. cbn. by constructor.
Qed.

Lemma digits_spec z :
  (0 ≤ z)%Z → digits z ≠ [] ∧ Forall is_digit (digits z) ∧ foldl add_digit (Some 0%Z) (digits z) = Some z.
Proof.
  intros Hz. unfold digits. destruct z as [|p|p]; [|..|lia].
  - cbn. split_and!; [done| |done]. repeat constructor; unfold is_digit; lia.
  - change (pretty (Z.pos p)) with (pretty (N.pos p)). unfold pretty, pretty_N.
    rewrite decide_False by lia. destruct (pretty_N_go_digits (N.pos p) "") as [H1 H2].
    cbn [String.list_ascii_of_string fmap list_fmap foldl] in H1, H2. rewrite H1. split_and!; [|by apply H2|done].
    intros He. rewrite He in H1. done.
Qed.

Lemma Atoi_digits z : (0 ≤ z < 2 ^ 63)%Z → Atoi (digits z) = Some z.
Proof.
  intros Hz. destruct (digits_spec z) as (Hne & Hd & Hf); [lia|].
  destruct (digits z) as [|r l]; [done|]. apply Forall_cons in Hd as [Hr _].
  assert (Atoi (r :: l) = (n ← atoi_digits (r :: l); in_int64 n)) as ->.
  { unfold Atoi, is_digit in *. repeat case_match; subst; try done; lia. }
  unfold atoi_digits. rewrite Hf. cbn. unfold in_int64. rewrite bool_decide_true; [done|lia].
Qed.

(** The order of texts is total. *)
Lemma bytes_lt_irrefl a : bytes_lt a a = false.
Proof. induction a as [|x a IH]; [done|]. cbn. rewrite IH, andb_false_r, bool_decide_false by lia. done. Qed.
Lemma bytes_lt_cons x a y b :
  bytes_lt (x :: a) (y :: b) = true ↔ (x < y)%N ∨ x = y ∧ bytes_lt a b = true.
Proof. cbn. rewrite orb_true_iff, andb_true_iff, !bool_decide_eq_true. done. Qed.
Lemma bytes_lt_trans a b c : bytes_lt a b = true → bytes_lt b c = true → bytes_lt a c = true.
Proof.
  revert b c. induction a as [|x a IH]; intros [|y b] [|z c]; try done.
  rewrite !bytes_lt_cons. intros [?|[-> ?]] [?|[-> ?]]; [left; lia|auto|auto|right; eauto].
Qed.
Lemma bytes_lt_total a b : bytes_lt a b = true ∨ a = b ∨ bytes_lt b a = true.
Proof.
  revert b. induction a as [|x a IH]; intros [|y b]; [auto|auto|auto|]. rewrite !bytes_lt_cons.
  destruct (IH b) as [?|[->|?]], (N.lt_total x y) as [?|[->|?]]; auto.
Qed.

#[export] Instance bytes_inj : Inj (=) (=) bytes.
Proof.
  intros s t Hst. unfold bytes in Hst. apply list_fmap_eq_inj in Hst; [|intros a b Hab;
    by rewrite <-(ascii_N_embedding a), <-(ascii_N_embedding b), Hab].
  by rewrite <-(String.string_of_list_ascii_of_string s), Hst, String.string_of_list_ascii_of_string.
Qed.

Lemma string_lt_total a b : string_lt a b = false → string_lt b a = false → a = b.
Proof.
  unfold string_lt. intros H1 H2. destruct (bytes_lt_total (bytes a) (bytes b)) as [?|[?%bytes_inj|?]]; congruence.
Qed.
#[export] Instance string_lt_weak : StrictWeak string_lt.
Proof.
  split; unfold string_lt.
  - intros a b Hab. destruct (bytes_lt (bytes b) (bytes a)) eqn:Hba; [|done].
    by rewrite <-(bytes_lt_irrefl (bytes a)), (bytes_lt_trans _ _ _ Hab Hba).
  - intros a b c Hab Hbc. destruct (bytes_lt (bytes a) (bytes c)) eqn:Hac; [|done].
    destruct (bytes_lt_total (bytes a) (bytes b)) as [?|[Heq|Hlt]]; [congruence|congruence|].
    exfalso. by rewrite (bytes_lt_trans _ _ _ Hlt Hac) in Hbc.
Qed.

(** Sorting texts gives the same list for every order they come in. *)
Lemma sort_Strings_perm l l' : l ≡ₚ l' → sort_Strings l = sort_Strings l'.
Proof.
  intros Hl. apply (StronglySorted_unique_strong (may_precede string_lt)).
  - intros a b _ _ Hab Hba. by apply string_lt_total.
  - apply (sort_slice_sorted string_lt).
  - apply (sort_slice_sorted string_lt).
  - unfold sort_Strings. by rewrite !sort_slice_perm.
Qed.

Lemma string_app_assoc (s t u : string) : (s +:+ t) +:+ u = s +:+ (t +:+ u).
Proof.
  induction s as [|a s IH]; [done|]. change (String a ((s +:+ t) +:+ u) = String a (s +:+ t +:+ u)).
  by rewrite IH.
Qed.
Lemma substring_prefix s sub : String.substring 0 (String.length sub) s = sub → ∃ q, s = sub +:+ q.
Proof.
  revert s. induction sub as [|a sub IH]; intros s; [by exists s|]. destruct s as [|b s]; [done|]. cbn.
  intros [= -> Hs]. apply IH in Hs as [q ->]. by exists q.
Qed.
Lemma strings_Contains_iff s sub : strings_Contains s sub = true ↔ ∃ p q, s = p +:+ (sub +:+ q).
Proof.
  unfold strings_Contains. split.
  - destruct (String.index 0 sub s) as [n|] eqn:Hi; [|done]. intros _.
    apply String.index_correct1 in Hi. revert s Hi. induction n as [|n IH]; intros s Hi.
    + apply substring_prefix in Hi as [q ->]. by exists "", q.
    + destruct s as [|b s]; [cbn in Hi; subst sub; by exists "", ""|]. cbn in Hi. apply IH in Hi as (p & q & ->).
      by exists (String b p), q.
  - intros (l & r & ->). destruct (String.index 0 sub _) as [n|] eqn:Hi; [done|].
    destruct (decide (sub = "")) as [->|Hne]; [by destruct l, r|].
    apply (String.index_correct3 0 (String.length l)) in Hi; [|done|lia]. destruct Hi.
    rewrite substring_skip. apply substring_take.
Qed.

Lemma list_ascii_app (s t : string) :
  String.list_ascii_of_string (s +:+ t) = String.list_ascii_of_string s ++ String.list_ascii_of_string t.
Proof.
  induction s as [|a s IH]; [done|]. change (a :: String.list_ascii_of_string (s +:+ t) =
    a :: (String.list_ascii_of_string s ++ String.list_ascii_of_string t)). by rewrite IH.
Qed.

(** ** base64 loses nothing *)

Lemma ascii_of_byte a n : n = byte_of a → ascii_of_N n = a.
Proof. intros ->. apply ascii_N_embedding. Qed.

Lemma base64_value_char al (n : N) :
  (n < 64)%N → base64_value al (base64_char al n) = Some n ∧
    byte_of (base64_char al n) ≠ 10%N ∧ byte_of (base64_char al n) ≠ 13%N ∧
    base64_char al n ≠ "$"%char.
Proof.
  intros Hn. pose (good k := bool_decide (base64_value al (base64_char al (N.of_nat k)) = Some (N.of_nat k) ∧
    byte_of (base64_char al (N.of_nat k)) ≠ 10%N ∧ byte_of (base64_char al (N.of_nat k)) ≠ 13%N ∧
    base64_char al (N.of_nat k) ≠ "$"%char)).
  assert (forallb good (seq 0 64) = true) as Hb by (destruct al; vm_compute; done).
  rewrite forallb_forall in Hb. specialize (Hb (N.to_nat n)). unfold good in Hb.
  rewrite N2Nat.id in Hb. eapply bool_decide_eq_true_1, Hb, in_seq. lia.
Qed.

(** Induction by groups of three. *)
Lemma triples_ind {A} (P : list A → Prop) :
  P [] → (∀ a, P [a]) → (∀ a b, P [a; b]) → (∀ a b c l, P l → P (a :: b :: c :: l)) → ∀ l, P l.
Proof.
  intros H0 H1 H2 H3. refine (fix go l := _). destruct l as [|a [|b [|c l]]];
    [exact H0|apply H1|apply H2|apply H3, go].
Qed.

Lemma sextets_bound l : Forall (λ n, (n < 64)%N) (sextets l).
Proof.
  induction l as [|a|a b|a b c l IH] using triples_ind; cbn [sextets];
    repeat constructor; try exact IH;
    try pose proof (byte_of_bound a); try pose proof (byte_of_bound b); try pose proof (byte_of_bound c);
    zify; Z.to_euclidean_division_equations; lia.
Qed.

Lemma decode_sextets_sextets l : decode_sextets (sextets l) = Some l.
Proof.
  induction l as [|a|a b|a b c l IH] using triples_ind; [done|..]; cbn [sextets decode_sextets];
    rewrite ?IH; cbn; f_equal; repeat f_equal; apply ascii_of_byte;
    try pose proof (byte_of_bound a); try pose proof (byte_of_bound b); try pose proof (byte_of_bound c);
    zify; Z.to_euclidean_division_equations; lia.
Qed.

Lemma base64_Decode_Encode al s : base64_DecodeString al (base64_EncodeToString al s) = Some s.
Proof.
  unfold base64_DecodeString, base64_EncodeToString.
  rewrite String.list_ascii_of_string_of_list_ascii.
  pose proof (sextets_bound (String.list_ascii_of_string s)) as Hb.
  assert (mapM (base64_value al) (filter (λ a, byte_of a ≠ 10%N ∧ byte_of a ≠ 13%N)
    (base64_char al <$> sextets (String.list_ascii_of_string s))) =
    Some (sextets (String.list_ascii_of_string s))) as ->.
  { induction Hb as [|n l Hn Hl IH]; [done|]. cbn [fmap list_fmap].
    destruct (base64_value_char al n Hn) as (Hv & H1 & H2 & _).
    rewrite filter_cons_True by done. cbn. by rewrite Hv, IH. }
  cbn. rewrite decode_sextets_sextets. cbn. by rewrite String.string_of_list_ascii_of_string.
Qed.

Lemma base64_no_dollar al s : "$"%char ∉ String.list_ascii_of_string (base64_EncodeToString al s).
Proof.
  unfold base64_EncodeToString. rewrite String.list_ascii_of_string_of_list_ascii.
  intros (n & Hn & Hin)%list_elem_of_fmap. pose proof (sextets_bound (String.list_ascii_of_string s)) as Hb.
  rewrite Forall_forall in Hb. by destruct (base64_value_char al n (Hb n Hin)) as (_ & _ & _ & []).
Qed.

(** ** Splitting and joining texts *)

Lemma Join_split ch s : strings_Join (String ch "") (split_on ch s) = s.
Proof.
  induction s as [|a s IH]; [done|]. cbn [split_on]. case_bool_decide as Ha.
  - subst a. destruct (split_on ch s) as [|x xs] eqn:E; [by destruct s; cbn in E; repeat case_match|].
    change (strings_Join (String ch "") ("" :: x :: xs)) with (String ch (strings_Join (String ch "") (x :: xs))). by rewrite IH.
  - destruct (split_on ch s) as [|x xs] eqn:E; [by cbn in IH; subst|].
    destruct xs as [|y ys]; cbn in IH |- *; by rewrite <-IH.
Qed.
Lemma split_on_cons ch s : ∃ x xs, split_on ch s = x :: xs.
Proof. destruct s as [|a s]; cbn; [eauto|]. case_bool_decide; [eauto|]. destruct (split_on ch s); eauto. Qed.
Lemma split_on_head ch (t : string) x xs : split_on ch t = x :: xs → ch ∉ String.list_ascii_of_string x.
Proof.
  revert x xs. induction t as [|a t IH]; intros x xs; cbn [split_on].
  - intros [= <- <-]. apply not_elem_of_nil.
  - case_bool_decide as Ha; [intros [= <- <-]; apply not_elem_of_nil|].
    destruct (split_on_cons ch t) as (y & ys & E). rewrite E. intros [= <- <-]. cbn.
    apply not_elem_of_cons. split; [congruence|by eapply IH].
Qed.
Lemma split_first ch t body y ys :
  split_on ch t = body :: y :: ys →
  t = body +:+ String ch (strings_Join (String ch "") (y :: ys)) ∧ (ch ∉ String.list_ascii_of_string body).
Proof.
  intros Hs. split; [|by eapply split_on_head]. pose proof (Join_split ch t) as Hj. rewrite Hs in Hj. by rewrite <-Hj at 1.
Qed.
Lemma base64_no_dot s : "."%char ∉ String.list_ascii_of_string (base64_EncodeToString URLAlphabet s).
Proof.
  unfold base64_EncodeToString. rewrite String.list_ascii_of_string_of_list_ascii.
  intros (n & Hn & Hin)%list_elem_of_fmap. pose proof (sextets_bound (String.list_ascii_of_string s)) as Hb.
  rewrite Forall_forall in Hb. destruct (base64_value_char URLAlphabet n (Hb n Hin)) as (Hv & _). by rewrite <-Hn in Hv.
Qed.
Lemma base64_nonempty al s : s ≠ "" → base64_EncodeToString al s ≠ "".
Proof.
  intros Hs E. apply Hs. pose proof (base64_Decode_Encode al s) as Hd. rewrite E in Hd. cbn in Hd. by injection Hd.
Qed.
