(* ===== verification/Password.v ===== *)
(** * Password and secret hashing (platform/auth/password*.go, auth/secrethasher)

    The encoded form of a hash: how [PasswordHasher] and package [secrethasher]
    print it, and how [Verify] parses it again, with [fmt.Sscanf], base64 and
    [strings.Split] written out.  The key derivation functions, Argon2id and
    PBKDF2, are parameters; Argon2id can panic, so a call either returns or
    panics.  A printed hash verifies exactly the passwords that derive its key,
    whichever hasher checks it; a stored text with zero rounds makes [Verify]
    panic. *)

From S2P Require Import Prelude Encoding.

(** [argon2.IDKey(password, salt, time, memory, threads, keyLen)] and
    [pbkdf2.Key(password, salt, iter, keyLen, sha256.New)]. *)
Class KeyDerivation : Type := {
  argon2_IDKey : string → string → N → N → N → N → call string;
  pbkdf2_Key : string → string → Z → Z → string;
}.

(** ** fmt.Sscanf for the formats the code uses

    A scan consumes a prefix of the input and leaves the rest; [None] stands for
    any of its errors.  [%d] skips white space, but not the end of a line. *)
Fixpoint skip_spaces (l : list ascii) : option (list ascii) :=
  match l with
  | [] => Some []
  | a :: l1 =>
      if bool_decide (byte_of a = 10%N) then None
      else if ascii_space a then skip_spaces l1
      else match l1 with
           | [] => Some l
           | b :: l2 =>
               if space2 a b then skip_spaces l2
               else match l2 with
                    | [] => Some l
                    | c :: l3 => if space3 a b c then skip_spaces l3 else Some l
                    end
           end
  end.

Definition is_digit_byte (a : ascii) : bool := within_ 48 57 (byte_of a).
Fixpoint span_digits (l : list ascii) : list ascii * list ascii :=
  match l with
  | a :: rest => if is_digit_byte a then let '(d, r) := span_digits rest in (a :: d, r) else ([], l)
  | [] => ([], [])
  end.
(** [scanNumber] and the conversion of what it read. *)
Definition scan_number (l : list ascii) : option (Z * list ascii) :=
  let '(d, rest) := span_digits l in
  match d with
  | [] => None
  | _ => n ← foldl add_digit (Some 0%Z) (N_of_ascii <$> d); Some (n, rest)
  end.
(** [%d] into an unsigned integer of [w] bits. *)
Definition scan_uint (w : Z) (l : list ascii) : option (N * list ascii) :=
  l ← skip_spaces l;
  '(n, rest) ← scan_number l;
  if bool_decide (n < 2 ^ w)%Z then Some (Z.to_N n, rest) else None.
(** [%d] into an [int]. *)
Definition scan_int (l : list ascii) : option (Z * list ascii) :=
  l ← skip_spaces l;
  '(neg, l) ← (match l with
               | a :: rest =>
                   Some (if bool_decide (a = "-"%char) then (true, rest)
                         else if bool_decide (a = "+"%char) then (false, rest) else (false, l))
               | [] => None
               end);
  '(n, rest) ← scan_number l;
  let n := if neg : bool then (- n)%Z else n in
  if bool_decide (- 2 ^ 63 ≤ n < 2 ^ 63)%Z then Some (n, rest) else None.
(** The literal characters of a format. *)
Fixpoint scan_literal (p : string) (l : list ascii) : option (list ascii) :=
  match p, l with
  | EmptyString, _ => Some l
  | String c p, a :: l => if bool_decide (a = c) then scan_literal p l else None
  | String _ _, [] => None
  end.

(** [Sscanf(s, "v=%d", &version)], or with [i]. *)
Definition Sscanf_int (prefix s : string) : option Z :=
  l ← scan_literal prefix (String.list_ascii_of_string s);
  '(n, _) ← scan_int l;
  Some n.
(** [Sscanf(s, "m=%d,t=%d,p=%d", &memory, &time, &threads)]. *)
Definition Sscanf_params (s : string) : option (N * N * N) :=
  l ← scan_literal "m=" (String.list_ascii_of_string s);
  '(memory, l) ← scan_uint 32 l;
  l ← scan_literal ",t=" l;
  '(time, l) ← scan_uint 32 l;
  l ← scan_literal ",p=" l;
  '(threads, _) ← scan_uint 8 l;
  Some (memory, time, threads).

(** [argon2.Version]. *)
Definition argon2_Version : Z := 19.

(** The two encoded forms, as both packages print them. *)
Definition print_argon2id (memory time threads : N) (salt hash : string) : string :=
  "$argon2id$v=" +:+ pretty argon2_Version +:+ "$m=" +:+ pretty memory +:+ ",t=" +:+ pretty time +:+
  ",p=" +:+ pretty threads +:+ "$" +:+ base64_EncodeToString StdAlphabet salt +:+ "$" +:+
  base64_EncodeToString StdAlphabet hash.
Definition print_pbkdf2 (iters : Z) (salt hash : string) : string :=
  "$pbkdf2-sha256$i=" +:+ pretty iters +:+ "$" +:+ base64_EncodeToString StdAlphabet salt +:+ "$" +:+
  base64_EncodeToString StdAlphabet hash.

Definition len (s : string) : Z := Z.of_nat (String.length s).

(** ** platform/auth/password.go and password_fips.go *)

Module PasswordHasher.

Inductive Algo : Type :=
  | AlgoArgon2id
  | AlgoPBKDF2SHA256
  | AlgoOther (n : Z).

Inductive hash_error : Type := ErrMalformedHash | ErrUnsupportedAlgorithm.
#[export] Instance hash_error_eq_dec : EqDecision hash_error.
Proof. solve_decision. Defined.
Abbreviation herr := (goerr hash_error) (only parsing).
Abbreviation result A := (call (outcome herr A)) (only parsing).
Definition fail {A} (s : hash_error) (msg : string) : result A := Returns (Err (Wrapf msg (Sentinel s))).

Record PasswordHasher : Type := {
  algo : Algo;
  h_time : N;
  h_memory : N;
  h_threads : N;
  h_keyLen : N;
  h_saltLen : N;
  h_iters : Z;
}.

Definition NewPasswordHasher : PasswordHasher :=
  {| algo := AlgoArgon2id; h_time := 1; h_memory := 47104; h_threads := 1; h_keyLen := 32;
     h_saltLen := 16; h_iters := 0 |}.

Definition pbkdf2IterFloor : Z := 1000.

Definition NewFIPSPasswordHasher : PasswordHasher :=
  {| algo := AlgoPBKDF2SHA256; h_time := 0; h_memory := 0; h_threads := 0; h_keyLen := 32;
     h_saltLen := 16; h_iters := 600000 |}.

(** [fipsmode.Enabled()] is an argument. *)
Definition NewPolicyHasher (fips : bool) : PasswordHasher :=
  if fips then NewFIPSPasswordHasher else NewPasswordHasher.

Section hasher.
Context {K : KeyDerivation}.

(** [salt] is what [rand.Read] wrote, [None] when it failed. *)
Definition hashArgon2id (h : PasswordHasher) (salt : option string) (password : string) : result string :=
  match salt with
  | None => Returns (Err (Errorf "generate salt"))
  | Some salt =>
      match argon2_IDKey password salt (h_time h) (h_memory h) (h_threads h) (h_keyLen h) with
      | Panics => Panics
      | Returns hash =>
          Returns (Ok (print_argon2id (h_memory h) (h_time h) (h_threads h) salt hash))
      end
  end.

Definition hashPBKDF2 (h : PasswordHasher) (salt : option string) (password : string) : result string :=
  match salt with
  | None => Returns (Err (Errorf "generate salt"))
  | Some salt =>
      let hash := pbkdf2_Key password salt (h_iters h) (Z.of_N (h_keyLen h)) in
      Returns (Ok (print_pbkdf2 (h_iters h) salt hash))
  end.

Definition Hash (h : PasswordHasher) (salt : option string) (password : string) : result string :=
  match algo h with
  | AlgoArgon2id => hashArgon2id h salt password
  | AlgoPBKDF2SHA256 => hashPBKDF2 h salt password
  | AlgoOther _ => fail ErrUnsupportedAlgorithm "algo"
  end.

Definition verifyArgon2id (password : string) (parts : list string) : result bool :=
  match parts with
  | [_; _; p2; p3; p4; p5] =>
      match Sscanf_int "v=" p2 with
      | None => fail ErrMalformedHash "parse version"
      | Some _ =>
          match Sscanf_params p3 with
          | None => fail ErrMalformedHash "parse params"
          | Some (memory, time, threads) =>
              match base64_DecodeString StdAlphabet p4 with
              | None => fail ErrMalformedHash "decode salt"
              | Some salt =>
                  match base64_DecodeString StdAlphabet p5 with
                  | None => fail ErrMalformedHash "decode hash"
                  | Some expectedHash =>
                      match argon2_IDKey password salt time memory threads
                              (Z.to_N (len expectedHash `mod` 2 ^ 32)) with
                      | Panics => Panics
                      | Returns computedHash => Returns (Ok (bool_decide (computedHash = expectedHash)))
                      end
                  end
              end
          end
      end
  | _ => fail ErrMalformedHash "argon2id expected 6 parts"
  end.

Definition verifyPBKDF2 (password : string) (parts : list string) : result bool :=
  match parts with
  | [_; _; p2; p3; p4] =>
      if negb (String.prefix "i=" p2) then fail ErrMalformedHash "missing iter param prefix"
      else match Sscanf_int "i=" p2 with
           | None => fail ErrMalformedHash "parse iters"
           | Some iters =>
               if bool_decide (iters < pbkdf2IterFloor)%Z then fail ErrMalformedHash "iterations too low"
               else match base64_DecodeString StdAlphabet p3 with
                    | None => fail ErrMalformedHash "decode salt"
                    | Some salt =>
                        match base64_DecodeString StdAlphabet p4 with
                        | None => fail ErrMalformedHash "decode hash"
                        | Some expected =>
                            let computed := pbkdf2_Key password salt iters (len expected) in
                            Returns (Ok (bool_decide (computed = expected)))
                        end
                    end
           end
  | _ => fail ErrMalformedHash "pbkdf2-sha256 expected 5 parts"
  end.

(** The hasher that verifies does not matter: the text says how it was made. *)
Definition Verify (h : PasswordHasher) (password encodedHash : string) : result bool :=
  if bool_decide (encodedHash = "") || negb (String.prefix "$" encodedHash)
  then fail ErrMalformedHash "missing leading '$' or empty input"
  else
    let parts := split_on "$" encodedHash in
    match parts with
    | _ :: tag :: _ =>
        if bool_decide (tag = "argon2id") then verifyArgon2id password parts
        else if bool_decide (tag = "pbkdf2-sha256") then verifyPBKDF2 password parts
        else fail ErrUnsupportedAlgorithm tag
    | _ => fail ErrMalformedHash "too few parts"
    end.
End hasher.
End PasswordHasher.

(** ** platform/auth/secrethasher/hasher.go *)

Module secrethasher.

Definition argon2idTime : N := 1.
Definition argon2idMemKiB : N := 47104.
Definition argon2idThreads : N := 1.
Definition argon2idKeyLen : N := 32.
Definition pbkdf2Iter : Z := 600000.
Definition pbkdf2KeyLen : Z := 32.
Definition saltLen : N := 16.

Inductive secret_error : Type := ErrUnknownAlgorithm | ErrInvalidFormat | ErrAlgorithmMismatch.
Abbreviation result A := (call (outcome (goerr secret_error) A)) (only parsing).
Definition invalid {A} : result A := Returns (Err (Sentinel ErrInvalidFormat)).

Section hasher.
Context {K : KeyDerivation}.

Definition Hash (fipsMode : bool) (salt : option string) (secret : string) : result string :=
  match salt with
  | None => Returns (Err (Errorf "secrethasher: salt"))
  | Some salt =>
      if fipsMode then
        Returns (Ok (print_pbkdf2 pbkdf2Iter salt (pbkdf2_Key secret salt pbkdf2Iter pbkdf2KeyLen)))
      else
        match argon2_IDKey secret salt argon2idTime argon2idMemKiB argon2idThreads argon2idKeyLen with
        | Panics => Panics
        | Returns h => Returns (Ok (print_argon2id argon2idMemKiB argon2idTime argon2idThreads salt h))
        end
  end.

Definition verifyArgon2id (secret encoded : string) : result bool :=
  match split_on "$" encoded with
  | [_; _; p2; p3; p4; p5] =>
      match Sscanf_int "v=" p2, Sscanf_params p3 with
      | Some _, Some (m, t, p) =>
          match base64_DecodeString StdAlphabet p4, base64_DecodeString StdAlphabet p5 with
          | Some salt, Some expected =>
              match argon2_IDKey secret salt t m p (Z.to_N (len expected `mod` 2 ^ 32)) with
              | Panics => Panics
              | Returns computed => Returns (Ok (bool_decide (computed = expected)))
              end
          | _, _ => invalid
          end
      | _, _ => invalid
      end
  | _ => invalid
  end.

Definition verifyPBKDF2 (secret encoded : string) : result bool :=
  match split_on "$" encoded with
  | [_; _; p2; p3; p4] =>
      match Sscanf_int "i=" p2 with
      | None => invalid
      | Some iter =>
          if bool_decide (iter ≤ 0)%Z then invalid
          else match base64_DecodeString StdAlphabet p3, base64_DecodeString StdAlphabet p4 with
               | Some salt, Some expected =>
                   Returns (Ok (bool_decide (pbkdf2_Key secret salt iter (len expected) = expected)))
               | _, _ => invalid
               end
      end
  | _ => invalid
  end.

Definition Verify (secret encoded : string) : result bool :=
  if bool_decide (encoded = "") || negb (String.prefix "$" encoded) then invalid
  else if String.prefix "$argon2id$" encoded then verifyArgon2id secret encoded
  else if String.prefix "$pbkdf2-sha256$" encoded then verifyPBKDF2 secret encoded
  else Returns (Err (Sentinel ErrUnknownAlgorithm)).
End hasher.
End secrethasher.

(** ** Printed numbers scan back *)

Lemma pretty_of_N (n : N) : pretty n = pretty (Z.of_N n).
Proof. by destruct n. Qed.

Lemma digit_not_space a : is_digit_byte a = true →
  byte_of a ≠ 10%N ∧ ascii_space a = false ∧ (∀ b, space2 a b = false) ∧ (∀ b c, space3 a b c = false) ∧
  a ≠ "-"%char ∧ a ≠ "+"%char ∧ a ≠ "$"%char.
Proof. each_byte a; vm_compute (is_digit_byte _); try done; intros _; split_and!; try done; reflexivity. Qed.

Lemma is_digit_byte_digit a : is_digit (byte_of a) → is_digit_byte a = true.
Proof. unfold is_digit, is_digit_byte, within_. intros. rewrite !bool_decide_true; [done|lia..]. Qed.

Lemma span_digits_app d rest :
  Forall (λ a, is_digit_byte a = true) d → match rest with a :: _ => is_digit_byte a = false | [] => True end →
  span_digits (d ++ rest) = (d, rest).
Proof.
  intros Hd Hr. induction Hd as [|a d Ha Hd IH]; cbn.
  - destruct rest as [|b rest]; [done|]. cbn. by rewrite Hr.
  - by rewrite Ha, IH.
Qed.

(** The bytes of a printed number. *)
Lemma pretty_bytes (z : Z) :
  (0 ≤ z)%Z → ∃ a d, String.list_ascii_of_string (pretty z) = a :: d ∧
    Forall (λ a, is_digit_byte a = true) (a :: d) ∧
    foldl add_digit (Some 0%Z) (N_of_ascii <$> a :: d) = Some z.
Proof.
  intros Hz. destruct (digits_spec z Hz) as (Hne & Hd & Hf). unfold digits in *.
  destruct (String.list_ascii_of_string (pretty z)) as [|a d]; [done|]. exists a, d.
  split_and!; [done| |done]. rewrite Forall_fmap in Hd. eapply Forall_impl; [exact Hd|].
  intros x. apply is_digit_byte_digit.
Qed.

Lemma pretty_no_dollar (z : Z) : (0 ≤ z)%Z → "$"%char ∉ String.list_ascii_of_string (pretty z).
Proof.
  intros Hz. destruct (pretty_bytes z Hz) as (a & d & -> & Hd & _). rewrite Forall_forall in Hd.
  intros Hin. by apply Hd in Hin.
Qed.

Definition no_digit (rest : list ascii) : Prop :=
  match rest with a :: _ => is_digit_byte a = false | [] => True end.

Lemma scan_number_pretty (z : Z) rest :
  (0 ≤ z)%Z → no_digit rest →
  scan_number (String.list_ascii_of_string (pretty z) ++ rest) = Some (z, rest).
Proof.
  intros Hz Hr. destruct (pretty_bytes z Hz) as (a & d & -> & Hd & Hf). unfold scan_number.
  rewrite span_digits_app by done. by rewrite Hf.
Qed.

Lemma skip_spaces_pretty (z : Z) rest :
  (0 ≤ z)%Z → skip_spaces (String.list_ascii_of_string (pretty z) ++ rest) =
    Some (String.list_ascii_of_string (pretty z) ++ rest).
Proof.
  intros Hz. destruct (pretty_bytes z Hz) as (a & d & -> & Hd & _).
  apply Forall_cons in Hd as [Ha _]. destruct (digit_not_space a Ha) as (H1 & H2 & H3 & H4 & _).
  cbn [app skip_spaces]. rewrite bool_decide_false, H2 by done.
  destruct (d ++ rest) as [|b [|c l]]; rewrite ?H3, ?H4; done.
Qed.

Lemma scan_int_pretty (z : Z) rest :
  (0 ≤ z < 2 ^ 63)%Z → no_digit rest →
  scan_int (String.list_ascii_of_string (pretty z) ++ rest) = Some (z, rest).
Proof.
  intros Hz Hr. unfold scan_int. rewrite skip_spaces_pretty by lia. cbn.
  pose proof (scan_number_pretty z rest ltac:(lia) Hr) as Hs.
  destruct (pretty_bytes z ltac:(lia)) as (a & d & Hp & Hd & _). rewrite Hp in *.
  apply Forall_cons in Hd as [Ha _]. destruct (digit_not_space a Ha) as (_ & _ & _ & _ & H5 & H6 & _).
  cbn [app] in *. rewrite !bool_decide_false by done. cbn. rewrite Hs. cbn.
  rewrite bool_decide_true; [done|lia].
Qed.

Lemma scan_uint_pretty w (n : N) rest :
  (Z.of_N n < 2 ^ w)%Z → no_digit rest →
  scan_uint w (String.list_ascii_of_string (pretty n) ++ rest) = Some (n, rest).
Proof.
  intros Hn Hr. rewrite pretty_of_N. unfold scan_uint. rewrite skip_spaces_pretty by lia. cbn.
  rewrite scan_number_pretty by (done || lia). cbn. rewrite bool_decide_true by lia. by rewrite N2Z.id.
Qed.

Lemma scan_literal_app p rest : scan_literal p (String.list_ascii_of_string p ++ rest) = Some rest.
Proof. induction p as [|a p IH]; [done|]. cbn. by rewrite bool_decide_true. Qed.

Lemma Sscanf_int_print prefix (z : Z) :
  (0 ≤ z < 2 ^ 63)%Z → Sscanf_int prefix (prefix +:+ pretty z) = Some z.
Proof.
  intros Hz. unfold Sscanf_int. rewrite list_ascii_app, scan_literal_app. cbn.
  rewrite <-(app_nil_r (String.list_ascii_of_string (pretty z))), scan_int_pretty; done.
Qed.

Definition print_params (memory time threads : N) : string :=
  "m=" +:+ pretty memory +:+ ",t=" +:+ pretty time +:+ ",p=" +:+ pretty threads.

Lemma Sscanf_params_print (memory time threads : N) :
  (memory < 2 ^ 32)%N → (time < 2 ^ 32)%N → (threads < 2 ^ 8)%N →
  Sscanf_params (print_params memory time threads) = Some (memory, time, threads).
Proof.
  intros Hm Ht Hp. unfold Sscanf_params, print_params.
  rewrite !list_ascii_app, scan_literal_app. cbn [mbind option_bind].
  rewrite scan_uint_pretty by (done || lia). cbn [mbind option_bind].
  rewrite scan_literal_app. cbn [mbind option_bind]. rewrite scan_uint_pretty by (done || lia).
  cbn [mbind option_bind]. rewrite scan_literal_app. cbn [mbind option_bind].
  rewrite <-(app_nil_r (String.list_ascii_of_string (pretty threads))), scan_uint_pretty by (done || lia).
  done.
Qed.

(** ** Printed hashes *)

Lemma print_params_no_dollar memory time threads :
  "$"%char ∉ String.list_ascii_of_string (print_params memory time threads).
Proof.
  unfold print_params. rewrite !list_ascii_app, !not_elem_of_app, !pretty_of_N.
  split_and!; try (apply pretty_no_dollar; lia); by apply (bool_decide_unpack _).
Qed.

Lemma parts_argon2id memory time threads salt hash :
  split_on "$" (print_argon2id memory time threads salt hash) =
  [""; "argon2id"; "v=" +:+ pretty argon2_Version; print_params memory time threads;
   base64_EncodeToString StdAlphabet salt; base64_EncodeToString StdAlphabet hash].
Proof.
  assert (print_argon2id memory time threads salt hash =
    "" +:+ String "$" ("argon2id" +:+ String "$" (("v=" +:+ pretty argon2_Version) +:+
    String "$" (print_params memory time threads +:+ String "$"
    (base64_EncodeToString StdAlphabet salt +:+ String "$"
      (base64_EncodeToString StdAlphabet hash)))))) as ->.
  { unfold print_params. rewrite !string_app_assoc. reflexivity. }
  rewrite !split_on_app, split_on_none; [done|..]; try apply base64_no_dollar;
    try apply print_params_no_dollar; by apply (bool_decide_unpack _).
Qed.

Lemma parts_pbkdf2 iters salt hash :
  (0 ≤ iters)%Z →
  split_on "$" (print_pbkdf2 iters salt hash) =
  [""; "pbkdf2-sha256"; "i=" +:+ pretty iters;
   base64_EncodeToString StdAlphabet salt; base64_EncodeToString StdAlphabet hash].
Proof.
  intros Hi. assert (print_pbkdf2 iters salt hash =
    "" +:+ String "$" ("pbkdf2-sha256" +:+ String "$" (("i=" +:+ pretty iters) +:+ String "$"
    (base64_EncodeToString StdAlphabet salt +:+ String "$"
      (base64_EncodeToString StdAlphabet hash))))) as ->.
  { rewrite !string_app_assoc. reflexivity. }
  rewrite !split_on_app, split_on_none; [done|..]; try apply base64_no_dollar;
    try by apply (bool_decide_unpack _).
  rewrite list_ascii_app, not_elem_of_app. split; [by apply (bool_decide_unpack _)|].
  by apply pretty_no_dollar.
Qed.

Lemma len_mod_id s n : len s = Z.of_N n → (n < 2 ^ 32)%N → Z.to_N (len s `mod` 2 ^ 32) = n.
Proof. intros -> Hn. rewrite Z.mod_small by lia. apply N2Z.id. Qed.

(** What the packages document of a key: its length, and when Argon2id panics. *)
Class KeyDerivationLaws (K : KeyDerivation) : Prop := {
  argon2_returns p s t m th k : (1 ≤ t)%N → (1 ≤ th)%N → (1 ≤ k)%N →
    ∃ h, argon2_IDKey p s t m th k = Returns h ∧ len h = Z.of_N k;
  argon2_panics p s t m th k : (t = 0 ∨ th = 0)%N → argon2_IDKey p s t m th k = Panics;
  pbkdf2_len p s i k : (0 ≤ k)%Z → len (pbkdf2_Key p s i k) = k;
}.

(** The key a hasher derives from a password and a salt. *)
Definition derived `{K : KeyDerivation} (h : PasswordHasher.PasswordHasher) (salt password : string) :
    call string :=
  match PasswordHasher.algo h with
  | PasswordHasher.AlgoPBKDF2SHA256 =>
      Returns (pbkdf2_Key password salt (PasswordHasher.h_iters h) (Z.of_N (PasswordHasher.h_keyLen h)))
  | _ => argon2_IDKey password salt (PasswordHasher.h_time h) (PasswordHasher.h_memory h)
           (PasswordHasher.h_threads h) (PasswordHasher.h_keyLen h)
  end.

(** The texts of the two constructors, read back by either package. *)
Section reading.
Context {K : KeyDerivation} {L : KeyDerivationLaws K}.

Lemma Verify_argon2id_print verifier p' memory time threads salt hash k' :
  (memory < 2 ^ 32)%N → (time < 2 ^ 32)%N → (threads < 2 ^ 8)%N → len hash = 32%Z →
  argon2_IDKey p' salt time memory threads 32 = Returns k' →
  PasswordHasher.Verify verifier p' (print_argon2id memory time threads salt hash) =
    Returns (Ok (bool_decide (k' = hash))) ∧
  secrethasher.Verify p' (print_argon2id memory time threads salt hash) =
    Returns (Ok (bool_decide (k' = hash))).
Proof.
  intros Hm Ht Hp Hlen Hk.
  assert (String.prefix "$argon2id$" (print_argon2id memory time threads salt hash) = true) as Hpre
    by (apply (prefix_app "$argon2id$")).
  assert (String.prefix "$" (print_argon2id memory time threads salt hash) = true) as Hd
    by (apply (prefix_app "$")).
  pose proof (len_mod_id hash 32 Hlen ltac:(done)) as Hmod.
  split; [unfold PasswordHasher.Verify|unfold secrethasher.Verify]; rewrite Hd, ?Hpre;
    rewrite bool_decide_false by done; cbn [orb negb];
    [|unfold secrethasher.verifyArgon2id]; rewrite parts_argon2id; cbn [bool_decide decide_rel];
    [rewrite bool_decide_true by done; unfold PasswordHasher.verifyArgon2id|];
    rewrite Sscanf_int_print by (unfold argon2_Version; lia);
    rewrite Sscanf_params_print by done; rewrite !base64_Decode_Encode, Hmod, Hk; done.
Qed.

Lemma Verify_pbkdf2_print verifier p' iters salt hash :
  (1000 ≤ iters < 2 ^ 63)%Z → len hash = 32%Z →
  PasswordHasher.Verify verifier p' (print_pbkdf2 iters salt hash) =
    Returns (Ok (bool_decide (pbkdf2_Key p' salt iters 32 = hash))) ∧
  secrethasher.Verify p' (print_pbkdf2 iters salt hash) =
    Returns (Ok (bool_decide (pbkdf2_Key p' salt iters 32 = hash))).
Proof.
  intros Hi Hlen.
  assert (String.prefix "$pbkdf2-sha256$" (print_pbkdf2 iters salt hash) = true) as Hpre
    by (apply (prefix_app "$pbkdf2-sha256$")).
  assert (String.prefix "$" (print_pbkdf2 iters salt hash) = true) as Hd by (apply (prefix_app "$")).
  assert (String.prefix "$argon2id$" (print_pbkdf2 iters salt hash) = false) as Hno by done.
  split; [unfold PasswordHasher.Verify|unfold secrethasher.Verify]; rewrite Hd, ?Hno, ?Hpre;
    rewrite bool_decide_false by done; cbn [orb negb];
    [|unfold secrethasher.verifyPBKDF2]; rewrite parts_pbkdf2 by lia;
    [rewrite bool_decide_false, bool_decide_true by done; unfold PasswordHasher.verifyPBKDF2|];
    rewrite ?(prefix_app "i="), Sscanf_int_print by lia; cbn [negb];
    rewrite bool_decide_false by (unfold PasswordHasher.pbkdf2IterFloor; lia);
    rewrite !base64_Decode_Encode, Hlen; done.
Qed.
End reading.

(** What [Hash] stores verifies. *)
Lemma Hash_verifies `{K : KeyDerivation, L : !KeyDerivationLaws K} fips verifier salt p :
  let h := PasswordHasher.NewPolicyHasher fips in
  ∃ enc k, PasswordHasher.Hash h (Some salt) p = Returns (Ok enc) ∧ derived h salt p = Returns k ∧
    (secrethasher.Hash fips (Some salt) p = Returns (Ok enc)) ∧
    ∀ p', ∃ k', derived h salt p' = Returns k' ∧
      PasswordHasher.Verify verifier p' enc = Returns (Ok (bool_decide (k' = k))) ∧
      secrethasher.Verify p' enc = Returns (Ok (bool_decide (k' = k))).
Proof.
  intros h. destruct fips; subst h.
  - set (k := pbkdf2_Key p salt 600000 32). exists (print_pbkdf2 600000 salt k), k.
    split_and!; [done..|]. intros p'. eexists. split; [done|].
    apply Verify_pbkdf2_print; [done|]. unfold k. by rewrite pbkdf2_len.
  - destruct (argon2_returns p salt 1 47104 1 32) as (k & Hk & Hlen); [done..|].
    exists (print_argon2id 47104 1 1 salt k), k.
    split_and!; [unfold PasswordHasher.Hash, PasswordHasher.hashArgon2id; cbn; by rewrite Hk|exact Hk| |].
    + unfold secrethasher.Hash. unfold secrethasher.argon2idTime, secrethasher.argon2idMemKiB,
        secrethasher.argon2idThreads, secrethasher.argon2idKeyLen. by rewrite Hk.
    + intros p'. destruct (argon2_returns p' salt 1 47104 1 32) as (k' & Hk' & _); [done..|].
      exists k'. split; [exact Hk'|]. by apply Verify_argon2id_print.
Qed.

(** Whatever the FIPS mode at the time of hashing and of checking, the text
    [Hash] stores for a password verifies exactly the passwords that derive the
    same key from the salt, the hashed one among them, with both packages. *)
Theorem Verify_Hash `{K : KeyDerivation, L : !KeyDerivationLaws K} fips verifier salt p :
  let h := PasswordHasher.NewPolicyHasher fips in
  ∃ enc k, PasswordHasher.Hash h (Some salt) p = Returns (Ok enc) ∧ derived h salt p = Returns k ∧
    (secrethasher.Hash fips (Some salt) p = Returns (Ok enc)) ∧
    ∀ p', ∃ k', derived h salt p' = Returns k' ∧
      PasswordHasher.Verify verifier p' enc = Returns (Ok (bool_decide (k' = k))) ∧
      secrethasher.Verify p' enc = Returns (Ok (bool_decide (k' = k))).
Proof. exact (Hash_verifies fips verifier salt p). Qed.

(** A derivation that pads or cuts the password to the length of the key. *)
Fixpoint fit (n : nat) (s : string) : string :=
  match n, s with
  | O, _ => ""
  | S n, EmptyString => String "0" (fit n "")
  | S n, String a s => String a (fit n s)
  end.
Lemma len_fit n s : len (fit n s) = Z.of_nat n.
Proof. unfold len. f_equal. revert s. induction n as [|n IH]; intros [|a s]; cbn; by rewrite ?IH. Qed.
Definition toy_kdf : KeyDerivation := {|
  argon2_IDKey := λ p s t m th k,
    if bool_decide (t = 0 ∨ th = 0)%N then Panics else Returns (fit (N.to_nat k) (p +:+ s));
  pbkdf2_Key := λ p s i k, fit (Z.to_nat k) (p +:+ s) |}.
Lemma toy_kdf_laws : KeyDerivationLaws toy_kdf.
Proof.
  split; cbn; intros.
  - rewrite bool_decide_false by lia. eexists. split; [done|]. rewrite len_fit. lia.
  - by rewrite bool_decide_true.
  - rewrite len_fit. lia.
Qed.

Lemma Verify_Hash_witness :
  let h := PasswordHasher.NewPolicyHasher false in
  ∃ enc k, PasswordHasher.Hash (K := toy_kdf) h (Some "salt") "secret" = Returns (Ok enc) ∧
    derived (K := toy_kdf) h "salt" "secret" = Returns k ∧
    (secrethasher.Hash (K := toy_kdf) false (Some "salt") "secret" = Returns (Ok enc)) ∧
    ∀ p', ∃ k', derived (K := toy_kdf) h "salt" p' = Returns k' ∧
      PasswordHasher.Verify (K := toy_kdf) h p' enc = Returns (Ok (bool_decide (k' = k))) ∧
      secrethasher.Verify (K := toy_kdf) p' enc = Returns (Ok (bool_decide (k' = k))).
Proof. apply (Verify_Hash (K := toy_kdf) (L := toy_kdf_laws) false). Defined.

(** Package secrethasher documents that [Verify] never panics on malformed
    input; a stored text whose number of rounds is zero makes it panic, for every
    secret, salt and digest, and so does [PasswordHasher.Verify]. *)
Theorem Verify_panics `{K : KeyDerivation, L : !KeyDerivationLaws K} verifier secret salt hash :
  secrethasher.Verify secret (print_argon2id 47104 0 1 salt hash) = Panics ∧
  PasswordHasher.Verify verifier secret (print_argon2id 47104 0 1 salt hash) = Panics.
Proof.
  assert (String.prefix "$argon2id$" (print_argon2id 47104 0 1 salt hash) = true) as Hpre
    by (apply (prefix_app "$argon2id$")).
  assert (String.prefix "$" (print_argon2id 47104 0 1 salt hash) = true) as Hd
    by (apply (prefix_app "$")).
  split; [unfold secrethasher.Verify|unfold PasswordHasher.Verify]; rewrite Hd, ?Hpre;
    rewrite bool_decide_false by done; cbn [orb negb];
    [unfold secrethasher.verifyArgon2id|]; rewrite parts_argon2id;
    [|rewrite bool_decide_true by done; unfold PasswordHasher.verifyArgon2id];
    rewrite Sscanf_int_print by (unfold argon2_Version; lia);
    rewrite Sscanf_params_print by done; rewrite !base64_Decode_Encode, argon2_panics by auto; done.
Qed.

Lemma Verify_panics_witness :
  secrethasher.Verify (K := toy_kdf) "x" (print_argon2id 47104 0 1 "salt" "digest") = Panics ∧
  PasswordHasher.Verify (K := toy_kdf) PasswordHasher.NewPasswordHasher "x"
    (print_argon2id 47104 0 1 "salt" "digest") = Panics.
Proof. apply (Verify_panics (K := toy_kdf) (L := toy_kdf_laws)). Defined.
