(* ===== verification/StateMachine.v ===== *)
(** * The transition engine (platform/statemachine)

    [Machine] is the state graph built by [New]; [Machine_Transition] is
    [Machine.Transition] over any [Store]; [MemoryStore] is the in-process
    store.  The theorems give the outcome of [Transition] on every branch, over
    any lawful store, and show that the history kept for an instance is always
    a path of the graph from the initial state to the current one. *)

From S2P Require Import Prelude.

Inductive sm_sentinel : Type :=
  | ErrNoTransition
  | ErrGuardRejected
  | ErrInstanceNotFound.

#[export] Instance sm_sentinel_eq_dec : EqDecision sm_sentinel.
Proof. solve_decision. Defined.

Abbreviation sm_error := (goerr sm_sentinel).

(** The payload argument, an [any]: nil, one of the two map types that
    [coerceStringMap] recognises, or anything else. *)
Inductive sm_payload (V : Type) : Type :=
  | PayloadNil
  | PayloadStrings (m : gmap string string)
  | PayloadValues (m : gmap string V)
  | PayloadOther (v : V).
Arguments PayloadNil {V}.
Arguments PayloadStrings {V} _.
Arguments PayloadValues {V} _.
Arguments PayloadOther {V} _.

Section machine.
(** The state and event types are comparable; [V] is the type of opaque values
    and [Sprint_v] is [fmt.Sprintf] with the verb %v. *)
Context {S E V : Type} `{Countable S, Countable E} (Sprint_v : V → string).

Record Transition : Type := {
  t_From : S;
  t_Event : E;
  t_To : S;
  t_Guard : option (sm_payload V → option sm_error);
}.

Record HistoryEntry : Type := {
  h_InstanceID : string;
  h_From : S;
  h_To : S;
  h_Event : E;
  h_Timestamp : time;
  h_Reason : string;
  h_Payload : option (gmap string string);
}.

(** A subscriber is named by a number; what the engine does with it is call
    it, so its effect here is a line in the trace of calls. *)
Record Machine : Type := {
  m_initial : S;
  m_transitions : gmap (S * E) Transition;
  m_subscribers : list nat;
}.

(** Later transitions with the same key replace earlier ones. *)
Definition New (initial : S) (transitions : list Transition) : Machine := {|
  m_initial := initial;
  m_transitions :=
    foldl (λ tm t, <[(t_From t, t_Event t) := t]> tm) ∅ transitions;
  m_subscribers := [];
|}.

Definition Machine_Initial (m : Machine) : S := m_initial m.

Definition Machine_Subscribe (m : Machine) (fn : option nat) : Machine :=
  match fn with
  | None => m
  | Some f => {| m_initial := m_initial m; m_transitions := m_transitions m;
                 m_subscribers := m_subscribers m ++ [f] |}
  end.

Definition coerceStringMap (p : sm_payload V) : option (gmap string string) :=
  match p with
  | PayloadNil => None
  | PayloadStrings m => Some m
  | PayloadValues m => Some (Sprint_v <$> m)
  | PayloadOther v => Some {["payload"%string := Sprint_v v]}
  end.

(** The [Store] interface. *)
Class Store (St : Type) : Type := {
  Get : string → prog St sm_error (S * list HistoryEntry);
  Save : string → S → HistoryEntry → prog St sm_error unit;
  History : string → prog St sm_error (list HistoryEntry);
}.

Section transition.
Context {St : Type} `{!Store St}.

(** The store and the trace of subscriber calls. *)
Record Engine : Type := { e_store : St; e_calls : list (nat * HistoryEntry) }.

Definition on_store {A} (p : prog St sm_error A) : prog Engine sm_error A :=
  zoom e_store (λ st e, {| e_store := st; e_calls := e_calls e |}) p.

Definition notify (m : Machine) (entry : HistoryEntry) : prog Engine sm_error unit :=
  modify (λ e, {| e_store := e_store e;
                  e_calls := e_calls e ++ ((λ f, (f, entry)) <$> m_subscribers m) |}).

(** [Transition] returns the state along with the error, so its result is a
    pair; [None] is the zero value of the state type. *)
Definition Machine_Transition (m : Machine) (now : time) (instanceID : string)
    (event : E) (payload : sm_payload V) : prog Engine sm_error (option S * option sm_error) :=
  r ← try (on_store (Get instanceID));
  match r with
  | Err err =>
      if errors_Is err ErrInstanceNotFound then mret (Ok (m_initial m))
      else mret (Err err)
  | Ok (cur, _) => mret (Ok cur)
  end ≫= λ cur_or_err,
  match cur_or_err with
  | Err err => mret (None, Some err)
  | Ok cur =>
      match m_transitions m !! (cur, event) with
      | None => mret (Some cur, Some (Wrapf "" (Sentinel ErrNoTransition)))
      | Some t =>
          match t_Guard t ≫= (λ g, g payload) with
          | Some guardErr => mret (Some cur, Some (Wrapf "" (Sentinel ErrGuardRejected)))
          | None =>
              let entry := {|
                h_InstanceID := instanceID; h_From := cur; h_To := t_To t;
                h_Event := event; h_Timestamp := now; h_Reason := "";
                h_Payload := coerceStringMap payload |} in
              saved ← try (on_store (Save instanceID (t_To t) entry));
              match saved with
              | Err err => mret (Some cur, Some (Wrapf "statemachine: save" err))
              | Ok _ => notify m entry;; mret (Some (t_To t), None)
              end
          end
      end
  end.
End transition.

(** [MemoryStore]. *)
Record MemoryStore : Type := {
  states : gmap string S;
  histories : gmap string (list HistoryEntry);
}.

Definition NewMemoryStore : MemoryStore := {| states := ∅; histories := ∅ |}.

Definition MemoryStore_Get (id : string) : prog MemoryStore sm_error (S * list HistoryEntry) :=
  s ← get;
  match states s !! id with
  | None => throw (Sentinel ErrInstanceNotFound)
  | Some state => mret (state, default [] (histories s !! id))
  end.

Definition MemoryStore_Save (id : string) (state : S) (entry : HistoryEntry)
    : prog MemoryStore sm_error unit :=
  modify (λ s, {| states := <[id := state]> (states s);
                  histories := <[id := default [] (histories s !! id) ++ [entry]]> (histories s) |}).

Definition MemoryStore_History (id : string) : prog MemoryStore sm_error (list HistoryEntry) :=
  gets (λ s, default [] (histories s !! id)).

#[export] Instance memory_store : Store MemoryStore := {|
  Get := MemoryStore_Get; Save := MemoryStore_Save; History := MemoryStore_History |}.
End machine.

Arguments Transition S E V : clear implicits.
Arguments HistoryEntry S E : clear implicits.
Arguments Machine S E V {_ _ _ _}.
Arguments Store S E St : clear implicits.
Arguments Engine S E St : clear implicits.
Arguments MemoryStore S E : clear implicits.

(** ** What a store promises

    A store keeps, per instance, at most one state and a history; [Save] sets
    the one and appends to the other, a failing call changes nothing, and a
    lookup that fails with [ErrInstanceNotFound] means no state is kept. *)
Class StoreLaws (S E St : Type) `{!Store S E St} : Type := {
  st_state : St → string → option S;
  st_hist : St → string → list (HistoryEntry S E);
  get_Ok id s x h s' :
    Get id s = (Ok (x, h), s') → s' = s ∧ st_state s id = Some x ∧ h = st_hist s id;
  get_Err id s e s' :
    Get id s = (Err e, s') →
    s' = s ∧ (errors_Is e ErrInstanceNotFound = true → st_state s id = None);
  save_Ok id x h s s' :
    Save id x h s = (Ok tt, s') →
    (st_state s' id = Some x ∧ st_hist s' id = st_hist s id ++ [h]) ∧
    ∀ id', id' ≠ id → st_state s' id' = st_state s id' ∧ st_hist s' id' = st_hist s id';
  save_Err id x h s e s' :
    Save id x h s = (Err e, s') →
    ∀ id', st_state s' id' = st_state s id' ∧ st_hist s' id' = st_hist s id';
}.

#[export] Instance memory_store_laws {S E : Type} : StoreLaws S E (MemoryStore S E).
Proof.
  refine {| st_state := λ s id, states s !! id;
            st_hist := λ s id, default [] (histories s !! id) |};
    cbn; unfold MemoryStore_Get, MemoryStore_Save; intros *; prog_cases;
    intros Heq; simplify_eq/=; try done.
  split; [by rewrite !lookup_insert_eq|].
  intros id' Hne. by rewrite !lookup_insert_ne by done.
Defined.

Section correctness.
Context {S E V : Type} `{Countable S, Countable E} (Sprint_v : V → string).
Context {St : Type} `{!Store S E St, !StoreLaws S E St}.
Implicit Types (m : Machine S E V) (e : Engine S E St).

(** ** The abstract machine *)

(** An instance that was never saved is in the initial state. *)
Definition current m (e : Engine S E St) (id : string) : S :=
  default (m_initial m) (st_state (e_store e) id).

(** The graph has an edge for [ev] out of [s], its guard accepts the payload,
    and it leads to [s']. *)
Definition fires m (p : sm_payload V) (s : S) (ev : E) (s' : S) : Prop :=
  ∃ t, m_transitions m !! (s, ev) = Some t ∧ (t_Guard t ≫= (λ g, g p)) = None ∧ s' = t_To t.

Definition same_view (e e' : Engine S E St) : Prop :=
  e_calls e' = e_calls e ∧
  ∀ id, st_state (e_store e') id = st_state (e_store e) id ∧
        st_hist (e_store e') id = st_hist (e_store e) id.

(** One accepted event: the edge fires, the history grows by the entry that
    records it, every subscriber is called once with it, in order, and no
    other instance changes. *)
Definition accepted m (now : time) (id : string) (ev : E) (p : sm_payload V)
    (e e' : Engine S E St) (s' : S) : Prop :=
  let entry := {| h_InstanceID := id; h_From := current m e id; h_To := s'; h_Event := ev;
                  h_Timestamp := now; h_Reason := ""; h_Payload := coerceStringMap Sprint_v p |} in
  fires m p (current m e id) ev s' ∧
  st_state (e_store e') id = Some s' ∧
  st_hist (e_store e') id = st_hist (e_store e) id ++ [entry] ∧
  e_calls e' = e_calls e ++ ((λ f, (f, entry)) <$> m_subscribers m) ∧
  ∀ id', id' ≠ id → st_state (e_store e') id' = st_state (e_store e) id' ∧
                    st_hist (e_store e') id' = st_hist (e_store e) id'.

(** ** Transition, on every branch *)

Lemma Transition_outcome m now id ev p e :
  let '(r, e') := Machine_Transition Sprint_v m now id ev p e in
  match r with
  | Ok (Some s', None) => accepted m now id ev p e e' s'
  | Ok (_, Some err) => same_view e e'
  | _ => False
  end.
Proof.
  unfold Machine_Transition, on_store, notify. prog_unfold; simpl.
  destruct (Get id (e_store e)) as [[[cur h]|err] st1] eqn:Hget.
  - apply get_Ok in Hget as (-> & Hcur & ->). simpl.
    destruct (m_transitions m !! (cur, ev)) as [t|] eqn:Ht; [|done].
    destruct (t_Guard t ≫= (λ g, g p)) as [ge|] eqn:Hg; unfold mbind in Hg; rewrite Hg; [done|].
    destruct (Save _ _ _ _) as [[[]|err] st2] eqn:Hs; simpl.
    + apply save_Ok in Hs as ([Hs1 Hs2] & Hs3).
      unfold accepted, current. rewrite Hcur; simpl. split; [|done]. exists t. done.
    + split; [done|]. by apply (save_Err _ _ _ _ _ _ Hs).
  - apply get_Err in Hget as (-> & Hnf). simpl.
    destruct (errors_Is err ErrInstanceNotFound) eqn:His; simpl; [|done].
    destruct (m_transitions m !! (m_initial m, ev)) as [t|] eqn:Ht; [|done].
    destruct (t_Guard t ≫= (λ g, g p)) as [ge|] eqn:Hg; unfold mbind in Hg; rewrite Hg; [done|].
    destruct (Save _ _ _ _) as [[[]|err'] st2] eqn:Hs; simpl.
    + apply save_Ok in Hs as ([Hs1 Hs2] & Hs3).
      unfold accepted, current. rewrite Hnf by done; simpl. split; [|done]. exists t. done.
    + split; [done|]. by apply (save_Err _ _ _ _ _ _ Hs).
Qed.

(** ** Runs

    Any sequence of calls to [Transition], on any instances. *)
Definition call m (e e' : Engine S E St) : Prop :=
  ∃ now id ev p, e' = (Machine_Transition Sprint_v m now id ev p e).2.

(** The entries [h] of instance [id] lead from [s0] to [s] along edges of the
    graph. *)
Inductive path m (id : string) (s0 : S) : list (HistoryEntry S E) → S → Prop :=
  | path_nil : path m id s0 [] s0
  | path_snoc h s he t :
      path m id s0 h s →
      m_transitions m !! (s, h_Event he) = Some t →
      h_InstanceID he = id → h_From he = s → h_To he = t_To t →
      path m id s0 (h ++ [he]) (t_To t).

(** Every instance's history is a path to its state; an instance without a
    state has no history. *)
Definition follows_graph m (e : Engine S E St) : Prop :=
  ∀ id, path m id (m_initial m) (st_hist (e_store e) id) (current m e id) ∧
        (st_state (e_store e) id = None → st_hist (e_store e) id = []).

Lemma follows_graph_same_view m e e' :
  same_view e e' → follows_graph m e → follows_graph m e'.
Proof.
  intros [_ Hv] Hf id. destruct (Hv id) as [Hs Hh], (Hf id) as [Hp Hn].
  unfold current in *. by rewrite Hs, Hh.
Qed.

Lemma follows_graph_accepted m now id ev p e e' s' :
  accepted m now id ev p e e' s' → follows_graph m e → follows_graph m e'.
Proof.
  intros ((t & Ht & _ & ->) & Hs & Hh & _ & Ho) Hf id'.
  destruct (decide (id' = id)) as [->|Hne].
  - split; [|by rewrite Hs]. unfold current at 1. rewrite Hs, Hh; simpl.
    eapply path_snoc; [apply Hf| |done..]. done.
  - destruct (Ho id' Hne) as [Hs' Hh'], (Hf id') as [Hp Hn].
    unfold current in *. by rewrite Hs', Hh'.
Qed.

Lemma follows_graph_call m e e' : call m e e' → follows_graph m e → follows_graph m e'.
Proof.
  intros (now & id & ev & p & ->) Hf.
  pose proof (Transition_outcome m now id ev p e) as Ho.
  destruct (Machine_Transition _ _ _ _ _ _ _) as [[[[s'|] [err|]]|] e'']; simpl in *;
    try done; eauto using follows_graph_same_view, follows_graph_accepted.
Qed.

(** Over any store that keeps its promises, whatever sequence of events is
    fed to whatever instances, the history of every instance is a path of the
    graph from the initial state, made of entries of that instance, that ends
    in the instance's current state. *)
Theorem runs_follow_graph m e e' :
  (∀ id, st_state (e_store e) id = None ∧ st_hist (e_store e) id = []) →
  rtc (call m) e e' →
  ∀ id, path m id (m_initial m) (st_hist (e_store e') id) (current m e' id).
Proof.
  intros Hfresh Hrun. enough (follows_graph m e') as Hf by (intros id; apply Hf).
  eapply rtc_preserves; [apply (follows_graph_call m)|exact Hrun|].
  intros id. destruct (Hfresh id) as [Hs Hh]. unfold current. rewrite Hs, Hh.
  split; [constructor|done].
Qed.
End correctness.

(** ** The in-memory store

    Here no call fails for reasons of its own, so the outcome of [Transition]
    is decided by the graph and the guard alone. *)
Section memory.
Context {S E V : Type} `{Countable S, Countable E} (Sprint_v : V → string).
Implicit Types (m : Machine S E V) (e : Engine S E (MemoryStore S E)).

(** Over the in-memory store an event is accepted exactly when an edge for
    it leaves the current state and the edge's guard accepts the payload;
    otherwise the call reports [ErrNoTransition] (no edge) or
    [ErrGuardRejected] (guard), returns the current state, and neither the
    store changes nor a subscriber is called. *)
Theorem memory_Transition_exact m now id ev p e :
  let '(r, e') := Machine_Transition Sprint_v m now id ev p e in
  match m_transitions m !! (current m e id, ev) with
  | None => e' = e ∧ ∃ err, r = Ok (Some (current m e id), Some err) ∧
                            errors_Is err ErrNoTransition = true
  | Some t =>
      match t_Guard t ≫= (λ g, g p) with
      | Some _ => e' = e ∧ ∃ err, r = Ok (Some (current m e id), Some err) ∧
                                  errors_Is err ErrGuardRejected = true
      | None => r = Ok (Some (t_To t), None) ∧
                accepted Sprint_v m now id ev p e e' (t_To t)
      end
  end.
Proof.
  pose proof (Transition_outcome Sprint_v m now id ev p e) as Ho. revert Ho.
  unfold current, Machine_Transition, on_store, notify. destruct e as [[sts hs] calls].
  prog_unfold; cbn. unfold MemoryStore_Get, MemoryStore_Save. prog_unfold; simpl.
  destruct (sts !! id) as [cur|] eqn:Hcur; simpl;
    destruct (m_transitions m !! _) as [t|]; simpl; try by eauto.
  all: destruct (t_Guard t) as [g|]; simpl; [destruct (g p)|]; simpl; eauto.
Qed.
End memory.

(** A three-state document workflow, used by the witness. *)
Definition example_graph : Machine nat nat nat :=
  New 0 [ {| t_From := 0; t_Event := 1; t_To := 1; t_Guard := None |};
          {| t_From := 1; t_Event := 2; t_To := 2; t_Guard := None |} ].
Definition example_engine : Engine nat nat (MemoryStore nat nat) :=
  {| e_store := NewMemoryStore; e_calls := [] |}.
Definition example_run : Engine nat nat (MemoryStore nat nat) :=
  (Machine_Transition (pretty (A := nat)) example_graph 20 "doc" 2 PayloadNil
    (Machine_Transition (pretty (A := nat)) example_graph 10 "doc" 1 PayloadNil example_engine).2).2.

Lemma runs_follow_graph_witness :
  path example_graph "doc" 0 (st_hist (e_store example_run) "doc") 2 ∧
  length (st_hist (e_store example_run) "doc") = 2.
Proof.
  split; [|by vm_compute].
  change 2 with (current example_graph example_run "doc").
  apply (runs_follow_graph (pretty (A := nat)) example_graph example_engine example_run).
  - intros id. split; vm_compute; reflexivity.
  - eapply rtc_l; [by eexists 10%Z, "doc"%string, 1, PayloadNil|].
    eapply rtc_l; [by eexists 20%Z, "doc"%string, 2, PayloadNil|]. apply rtc_refl.
Defined.
