(* ===== verification/AuditLog.v ===== *)
(** * The audit logger (platform/audit/logger.go)

    [Event] is the record every service emits; [Logger] is the asynchronous
    logger: a bounded channel, the batch its goroutine collects, the phase that
    goroutine is in, and the sequence of [CreateAuditLog] calls it has made on
    its store.  The goroutine and its callers interleave freely: a run is any
    sequence of the steps below, [Log] calls during and after [Stop] included.
    The theorems show that no event taken from the channel is lost, duplicated
    or reordered, that the bounded channel is the only place where one is
    dropped, and that draining terminates. *)

From S2P Require Import Prelude.

(** A value of [Event.Details], a [map[string]any]; a nil map is [None]. *)
Inductive detail : Type :=
  | DString (s : string)
  | DBool (b : bool)
  | DInt (z : Z).

#[export] Instance detail_eq_dec : EqDecision detail.
Proof. solve_decision. Defined.

Record MFAAttestation : Type := {
  Presented : list string;
  Verified : list string;
  StepUpSatisfied : bool;
  AALAchieved : string;
}.

Record FederationLink : Type := { IDP : string; Level : string; TrustLink : string }.

Record RiskSignal : Type := { rs_Signal : string; rs_Weight : Z }.

Record RiskAttestation : Type := { ra_Score : Z; ra_Signals : list RiskSignal }.

Record Event : Type := {
  CompanyID : string;
  ActorID : string;
  Action : string;
  Resource : string;
  ResourceID : string;
  Details : option (gmap string detail);
  IPAddress : string;
  Decision : string;
  ActorKind : string;
  SubjectID : string;
  SubjectKind : string;
  MFA : option MFAAttestation;
  Federation : list FederationLink;
  Risk : option RiskAttestation;
}.

(** The fields the services of this repository fill in. *)
Definition event (company actor action resource resource_id : string)
    (details : gmap string detail) (ip : string) : Event := {|
  CompanyID := company; ActorID := actor; Action := action; Resource := resource;
  ResourceID := resource_id; Details := Some details; IPAddress := ip;
  Decision := ""; ActorKind := ""; SubjectID := ""; SubjectKind := "";
  MFA := None; Federation := []; Risk := None |}.

(** ** What the services share

    The household and consent packages declare the same two types. *)

Record AuditContext : Type := {
  ac_CompanyID : uuid;
  ac_ActorID : uuid;
  ac_IPAddress : string;
}.

(** [auditEmitter]: the no-op emitter, or a logger with the events sent to it. *)
Inductive auditEmitter : Type :=
  | noopEmitter
  | loggerEmitter (sent : list Event).

Definition emitter_Log (ev : Event) (em : auditEmitter) : auditEmitter :=
  match em with
  | noopEmitter => noopEmitter
  | loggerEmitter sent => loggerEmitter (sent ++ [ev])
  end.

Section logger.
(** [json.Marshal] of the details (nil on an error), and github.com/google/uuid. *)
Context {U : UuidText} (Marshal : option (gmap string detail) → option string).

(** One call of [AuditStore.CreateAuditLog]; the logger ignores its result. *)
Record AuditCall : Type := {
  c_companyID : uuid;
  c_actorID : uuid;
  c_action : string;
  c_resource : string;
  c_resourceID : string;
  c_ipAddress : string;
  c_details : string;
}.

Definition channel_capacity : nat := Z.to_nat 10000.
Definition batch_limit : nat := 50.

(** Where the goroutine of [run] is: in its main select, in the draining loop
    entered when [done] is closed, or returned. *)
Inductive phase : Type := Running | Draining | Stopped.

#[export] Instance phase_eq_dec : EqDecision phase.
Proof. solve_decision. Defined.

(** [events] is the channel's buffer, [batch] the slice of [run], and [calls]
    the calls made on the store so far; [has_store] is [l.store != nil]. *)
Record Logger : Type := {
  has_store : bool;
  events : list Event;
  batch : list Event;
  calls : list AuditCall;
  at_phase : phase;
}.

Definition NewLogger (store : bool) : Logger :=
  {| has_store := store; events := []; batch := []; calls := []; at_phase := Running |}.

(** The non-blocking send of [Log]: the event is dropped when the channel is
    full.  The result says whether it was accepted. *)
Definition Log (e : Event) (l : Logger) : bool * Logger :=
  if decide (length (events l) < channel_capacity)
  then (true, {| has_store := has_store l; events := events l ++ [e];
                 batch := batch l; calls := calls l; at_phase := at_phase l |})
  else (false, l).

(** The body of the loop in [flush]: an event whose company or actor is not an
    identifier is skipped with a warning. *)
Definition flush_event (e : Event) : option AuditCall :=
  let detailsJSON := default "{}" (Marshal (Details e)) in
  companyID ← uuid_Parse (CompanyID e);
  actorID ← uuid_Parse (ActorID e);
  Some {| c_companyID := companyID; c_actorID := actorID; c_action := Action e;
          c_resource := Resource e; c_resourceID := ResourceID e;
          c_ipAddress := IPAddress e; c_details := detailsJSON |}.

Definition flush (l : Logger) : Logger :=
  match batch l with
  | [] => l
  | _ =>
      if has_store l
      then {| has_store := true; events := events l; batch := [];
              calls := calls l ++ omap flush_event (batch l); at_phase := at_phase l |}
      else {| has_store := false; events := events l; batch := []; calls := calls l;
              at_phase := at_phase l |}
  end.

(** [e := <-l.events; batch = append(batch, e)], when the channel is not empty. *)
Definition take_event (l : Logger) : Logger :=
  match events l with
  | [] => l
  | e :: es => {| has_store := has_store l; events := es; batch := batch l ++ [e];
                  calls := calls l; at_phase := at_phase l |}
  end.

(** [case e := <-l.events] of the main select. *)
Definition receive (l : Logger) : Logger :=
  let l' := take_event l in
  if decide (batch_limit ≤ length (batch l')) then flush l' else l'.

Definition set_phase (p : phase) (l : Logger) : Logger :=
  {| has_store := has_store l; events := events l; batch := batch l; calls := calls l;
     at_phase := p |}.

(** One scheduling step of the logger, with the events it accepted. *)
Inductive logger_step : Logger → list Event → Logger → Prop :=
  | step_log e l l' : Log e l = (true, l') → logger_step l [e] l'
  | step_drop e l l' : Log e l = (false, l') → logger_step l [] l'
  | step_receive l : at_phase l = Running → events l ≠ [] → logger_step l [] (receive l)
  | step_tick l : at_phase l = Running → logger_step l [] (flush l)
  | step_done l : at_phase l = Running → logger_step l [] (set_phase Draining l)
  | step_drain l : at_phase l = Draining → events l ≠ [] → logger_step l [] (take_event l)
  | step_return l : at_phase l = Draining → events l = [] →
      logger_step l [] (set_phase Stopped (flush l)).

Inductive logger_run : Logger → list Event → Logger → Prop :=
  | run_nil l : logger_run l [] l
  | run_step l es l' es' l'' :
      logger_run l es l' → logger_step l' es' l'' → logger_run l (es ++ es') l''.

(** ** Nothing accepted is lost *)

(** What the store has been asked to write for the events [done] that left
    the batch; those still in the batch and the channel follow them. *)
Definition accounted (l : Logger) (accepted : list Event) : Prop :=
  ∃ done, accepted = done ++ batch l ++ events l ∧
    (has_store l = true → calls l = omap flush_event done) ∧
    (at_phase l = Stopped → batch l = []).

Lemma flush_batch l : batch (flush l) = [].
Proof. unfold flush. destruct (batch l) eqn:Hb; [done|]. by destruct (has_store l). Qed.

Lemma flush_frame l :
  events (flush l) = events l ∧ has_store (flush l) = has_store l ∧
  at_phase (flush l) = at_phase l.
Proof. unfold flush. destruct (batch l); [done|]. by destruct (has_store l) eqn:?. Qed.

Lemma flush_accounted l es : accounted l es → accounted (flush l) es.
Proof.
  intros (done & -> & Hc & Hs). destruct (flush_frame l) as (He & Hh & Hp).
  exists (done ++ batch l). unfold accounted. rewrite flush_batch, He, Hh.
  split_and!; [by rewrite <-(assoc_L app)| |done].
  intros Hst. rewrite omap_app, <-Hc by done. unfold flush.
  destruct (batch l); [by rewrite app_nil_r|]. by rewrite Hst.
Qed.

Lemma take_event_accounted l es :
  at_phase l ≠ Stopped → accounted l es → accounted (take_event l) es.
Proof.
  intros Hp (done & -> & Hc & Hs). unfold take_event.
  destruct (events l) as [|e evs] eqn:He; exists done; cbn; rewrite ?He;
    split_and!; try done.
  by rewrite <-(assoc_L app).
Qed.

Lemma step_accounted l es acc l' :
  logger_step l es l' → accounted l acc → accounted l' (acc ++ es).
Proof.
  intros Hstep Hacc.
  inversion Hstep as [e l0 l1 Hl|e l0 l1 Hl|l0 Hr Hne|l0 Hr|l0 Hr|l0 Hd Hne|l0 Hd He]; subst;
    rewrite ?app_nil_r.
  - unfold Log in Hl. case_decide; simplify_eq. destruct Hacc as (done & -> & Hc & Hs).
    exists done; cbn. split_and!; [by rewrite !(assoc_L app)|done|done].
  - unfold Log in Hl. by case_decide; simplify_eq.
  - unfold receive. assert (accounted (take_event l) acc) as Ht.
    { apply take_event_accounted; [congruence|done]. }
    case_decide; [by apply flush_accounted|done].
  - by apply flush_accounted.
  - destruct Hacc as (done & -> & Hc & Hs). by exists done.
  - apply take_event_accounted; [congruence|done].
  - destruct (flush_accounted _ _ Hacc) as (done & -> & Hc & Hs).
    exists done. split_and!; [done|done|]. intros _. cbn. apply flush_batch.
Qed.

Lemma run_accounted l0 es l :
  logger_run l0 es l → accounted l0 [] → accounted l es.
Proof.
  induction 1 as [l|l es l' es' l'' _ IH Hstep]; intros H0; [done|].
  eauto using step_accounted.
Qed.

Lemma step_has_store l es l' : logger_step l es l' → has_store l' = has_store l.
Proof.
  destruct (flush_frame l) as (_ & Hf & _).
  inversion 1 as [e l0 l1 Hl|e l0 l1 Hl|l0 Hr Hne|l0 Hr|l0 Hr|l0 Hd Hne|l0 Hd Hn]; subst;
    try done; unfold receive; try (unfold Log in Hl; by case_decide; simplify_eq).
  - destruct (flush_frame (take_event l)) as (_ & Hf' & _).
    case_decide; rewrite ?Hf'; unfold take_event; by destruct (events l).
  - unfold take_event. by destruct (events l).
Qed.

Lemma run_has_store l0 es l : logger_run l0 es l → has_store l = has_store l0.
Proof.
  induction 1 as [l|l es l' es' l'' _ IH Hstep]; [done|].
  rewrite <-IH. eauto using step_has_store.
Qed.

(** However [Log] calls, receives, flush ticks and [Stop] interleave, once
    the goroutine has returned its store has been called exactly once per
    accepted event whose company and actor parse, in the order of acceptance;
    the only accepted events missing are those logged after the channel was
    drained, which sit in the channel. *)
Theorem Stop_delivers_accepted es l :
  logger_run (NewLogger true) es l → at_phase l = Stopped →
  ∃ delivered, es = delivered ++ events l ∧ calls l = omap flush_event delivered.
Proof.
  intros Hrun Hstop. pose proof (run_has_store _ _ _ Hrun) as Hst.
  assert (accounted (NewLogger true) []) as H0 by (exists []; done).
  destruct (run_accounted _ _ _ Hrun H0) as (done & -> & Hc & Hb).
  exists done. rewrite Hb by done. split; [done|by apply Hc].
Qed.

(** ** Bounds *)

Definition bounded (l : Logger) : Prop :=
  length (events l) ≤ channel_capacity ∧
  (at_phase l = Running → length (batch l) < batch_limit).

Lemma step_bounded l es l' : logger_step l es l' → bounded l → bounded l'.
Proof.
  intros Hstep [Hc Hb]. unfold bounded, batch_limit in *.
  destruct (flush_frame l) as (He & _ & Hp).
  inversion Hstep as [e l0 l1 Hl|e l0 l1 Hl|l0 Hr Hne|l0 Hr|l0 Hr|l0 Hd Hne|l0 Hd Hn]; subst.
  - unfold Log in Hl. case_decide; simplify_eq. cbn. rewrite length_app; cbn. split; [lia|done].
  - unfold Log in Hl. by case_decide; simplify_eq.
  - unfold receive. destruct (flush_frame (take_event l)) as (He' & _ & _).
    assert (length (events (take_event l)) ≤ channel_capacity).
    { unfold take_event. destruct (events l) eqn:E; cbn in *; [by rewrite E|]. lia. }
    case_decide as Hlim; [rewrite flush_batch, He'; cbn; split; [done|lia]|].
    unfold batch_limit in Hlim. split; [done|lia].
  - rewrite flush_batch, He; cbn. split; [done|lia].
  - done.
  - unfold take_event. destruct (events l) eqn:E; [done|]. cbn in *. split; [lia|congruence].
  - cbn. rewrite He. done.
Qed.

(** The channel never holds more than its ten thousand slots, the batch
    holds fewer than fifty events while the logger runs, and an event is
    dropped only when the channel is full. *)
Theorem Logger_bounded store es l e :
  logger_run (NewLogger store) es l →
  length (events l) ≤ channel_capacity ∧
  (at_phase l = Running → length (batch l) < batch_limit) ∧
  ((Log e l).1 = false ↔ length (events l) = channel_capacity).
Proof.
  intros Hrun. assert (bounded l) as [Hc Hb].
  { remember (NewLogger store) as l0 eqn:Hl0. induction Hrun as [l1|l1 ? l2 ? l3 _ IH Hs].
    - subst. split; cbn; unfold batch_limit; lia.
    - eauto using step_bounded. }
  split_and!; [done..|]. unfold Log. case_decide; cbn; split; intros; try done; lia.
Qed.

(** From the draining loop the goroutine reaches its return by its own steps. *)
Lemma drain_terminates l :
  at_phase l = Draining →
  ∃ l', logger_run l [] l' ∧ at_phase l' = Stopped ∧ events l' = [] ∧ batch l' = [].
Proof.
  remember (events l) as evs eqn:Hev. revert l Hev.
  induction evs as [|e evs IH]; intros l Hev Hd.
  - exists (set_phase Stopped (flush l)). destruct (flush_frame l) as (He & _ & _). split_and!.
    + apply (run_step _ [] l [] _); [apply run_nil|by apply step_return].
    + done.
    + cbn. by rewrite He.
    + cbn. apply flush_batch.
  - destruct (IH (take_event l)) as (l' & Hrun & Hrest).
    + unfold take_event. by rewrite <-Hev.
    + unfold take_event. by destruct (events l).
    + exists l'. split; [|done]. clear IH Hrest.
      assert (logger_step l [] (take_event l)) as Hs by (apply step_drain; [done|by rewrite <-Hev]).
      revert Hs. generalize (take_event l) as m, Hrun. clear. intros m Hrun Hs.
      remember [] as acc eqn:Hacc in Hrun.
      induction Hrun as [m|m es1 m1 es2 m2 _ IH Hlast].
      * apply (run_step _ [] l [] _); [apply run_nil|done].
      * apply app_eq_nil in Hacc as [-> ->].
        apply (run_step _ [] m1 [] _); [by apply IH|done].
Qed.
End logger.

(** Two accepted events, the second with an actor that is no identifier. *)
Definition example_event1 : Event :=
  event (binary_String 1) (binary_String 2) "household.created" "household" "" ∅ "".
Definition example_event2 : Event :=
  event (binary_String 1) "someone" "household.deleted" "household" "" ∅ "".
Definition example_marshal (_ : option (gmap string detail)) : option string := Some "{}".
Definition example_logger : Logger :=
  set_phase Stopped (flush (U := binary_uuid_text) example_marshal (take_event
    (set_phase Draining (Log example_event2
      (receive (U := binary_uuid_text) example_marshal
        (Log example_event1 (NewLogger true)).2)).2))).

Lemma example_logger_run :
  logger_run (U := binary_uuid_text) example_marshal (NewLogger true)
    [example_event1; example_event2] example_logger.
Proof.
  eapply (run_step _ _ [_; _] _ []); [eapply (run_step _ _ [_; _] _ []);
    [eapply (run_step _ _ [_; _] _ []); [eapply (run_step _ _ [_] _ [_]);
      [eapply (run_step _ _ [_] _ []); [eapply (run_step _ _ [] _ [_]); [apply run_nil|]|]|]|]|]|].
  - by apply step_log.
  - by apply step_receive.
  - by apply step_log.
  - by apply step_done.
  - by apply step_drain.
  - by apply step_return.
Qed.

Lemma Stop_delivers_accepted_witness :
  ∃ delivered, [example_event1; example_event2] = delivered ++ events example_logger ∧
    calls example_logger = omap (flush_event (U := binary_uuid_text) example_marshal) delivered.
Proof.
  apply (Stop_delivers_accepted (U := binary_uuid_text) example_marshal).
  - apply example_logger_run.
  - by vm_compute.
Defined.

Lemma Logger_bounded_witness :
  length (events example_logger) ≤ channel_capacity.
Proof.
  apply (Logger_bounded (U := binary_uuid_text) example_marshal true
           [example_event1; example_event2] example_logger example_event1).
  apply example_logger_run.
Defined.
