(* ===== verification/Household.v ===== *)
(** * The household domain (platform/household)

    The data of types.go, the store interface of store.go as the class [Store]
    and every method of the service of service.go, over any store.  A service
    is its store together with the audit events it has emitted.  Persistence is
    in [HouseholdMemory]; the invariants are in [HouseholdProofs]. *)

From S2P Require Import Prelude AuditLog.

(** ** types.go *)

(** [type Role string]: any string can arrive from a caller. *)
Abbreviation Role := string (only parsing).
Definition RoleGuardian : Role := "guardian".
Definition RoleAdult : Role := "adult".
Definition RoleChild : Role := "child".

Definition Role_Valid (r : Role) : bool :=
  bool_decide (r = RoleGuardian) || bool_decide (r = RoleAdult) || bool_decide (r = RoleChild).
Definition Role_IsChild (r : Role) : bool := bool_decide (r = RoleChild).
Definition Role_CanGrantConsent (r : Role) : bool := bool_decide (r = RoleGuardian).
Definition Role_CanBeAccountOwner (r : Role) : bool := bool_decide (r ≠ RoleChild).
Definition Role_CanBeManager (r : Role) : bool := bool_decide (r ≠ RoleChild).

(** [type Status string]. *)
Abbreviation Status := string (only parsing).
Definition StatusPending : Status := "pending".
Definition StatusActive : Status := "active".
Definition StatusRemoved : Status := "removed".

Definition Status_Valid (s : Status) : bool :=
  bool_decide (s = StatusPending) || bool_decide (s = StatusActive)
  || bool_decide (s = StatusRemoved).

(** [if metadata == nil { metadata = json.RawMessage(`{}`) }]. *)
Definition raw_or_object (r : RawMessage) : RawMessage :=
  match r with None => Some "{}" | _ => r end.

Record Household : Type := {
  h_ID : uuid;
  h_PrimaryContactIdentityID : uuid;
  h_DisplayName : string;
  h_Metadata : RawMessage;
  h_CreatedAt : time;
  h_UpdatedAt : time;
}.

Record Member : Type := {
  m_ID : uuid;
  m_HouseholdID : uuid;
  m_IdentityID : uuid;
  m_Role : Role;
  m_Status : Status;
  m_IsManager : bool;
  m_IsAccountOwner : bool;
  m_Birthdate : option time;
  m_Capabilities : RawMessage;
  m_AddedAt : time;
  m_RemovedAt : option time;
}.

Record ParentOfRecord : Type := {
  p_ID : uuid;
  p_ChildMemberID : uuid;
  p_ParentMemberID : uuid;
  p_EstablishedAt : time;
  p_RevokedAt : option time;
}.

#[export] Instance Household_eq_dec : EqDecision Household.
Proof. solve_decision. Defined.
#[export] Instance Member_eq_dec : EqDecision Member.
Proof. solve_decision. Defined.
#[export] Instance ParentOfRecord_eq_dec : EqDecision ParentOfRecord.
Proof. solve_decision. Defined.

(** ** Errors *)

Inductive household_error : Type :=
  | ErrNotFound
  | ErrAccountOwnerExists
  | ErrInvalidRole
  | ErrInvalidStatus
  | ErrChildBirthdateRequired
  | ErrChildCannotHoldCapability
  | ErrAccountOwnerMustBeAdult
  | ErrLastManager
  | ErrCannotRemoveAccountOwner
  | ErrParentNotEligible.
#[export] Instance household_error_eq_dec : EqDecision household_error.
Proof. solve_decision. Defined.
Abbreviation herr := (goerr household_error) (only parsing).

(** ** The store interface (store.go) *)

Class Store (St : Type) : Type := {
  st_CreateHousehold : Env → Household → prog St herr Household;
  st_CreateHouseholdWithOwner : Env → Household → Member → prog St herr (Household * Member);
  st_GetHouseholdByID : uuid → prog St herr Household;
  st_UpdateHousehold : Env → Household → prog St herr Household;
  st_DeleteHousehold : Env → uuid → prog St herr unit;
  st_AddMember : Env → Member → prog St herr Member;
  st_GetMember : uuid → prog St herr Member;
  st_GetMemberByIdentity : Env → uuid → uuid → prog St herr Member;
  st_UpdateMemberRole : Env → uuid → Role → bool → bool → RawMessage → prog St herr Member;
  st_RemoveMember : Env → uuid → prog St herr unit;
  st_ListMembers : Env → uuid → prog St herr (list Member);
  st_CountManagers : Env → uuid → prog St herr nat;
  st_GetHouseholdForIdentity : Env → uuid → prog St herr (Household * Member);
  st_ListHouseholdsForIdentity : Env → uuid → prog St herr (list Household);
  st_SetAccountOwner : Env → uuid → uuid → prog St herr Member;
  st_EstablishParentOfRecord : Env → uuid → uuid → prog St herr ParentOfRecord;
  st_RevokeParentOfRecord : Env → uuid → prog St herr unit;
  st_ListParentsOfRecord : Env → uuid → prog St herr (list ParentOfRecord);
  st_ListChildrenForParent : Env → uuid → prog St herr (list ParentOfRecord);
}.

(** ** service.go *)

Definition ActionHouseholdCreated := "household.created".
Definition ActionHouseholdUpdated := "household.updated".
Definition ActionHouseholdDeleted := "household.deleted".
Definition ActionMemberAdded := "household.member_added".
Definition ActionMemberRoleChanged := "household.member_role_changed".
Definition ActionMemberRemoved := "household.member_removed".
Definition ActionAccountOwnerTransferred := "household.account_owner_transferred".
Definition ActionParentOfRecordEstablished := "household.parent_of_record_established".
Definition ActionParentOfRecordRevoked := "household.parent_of_record_revoked".
Definition resourceHousehold := "household".

Record Service (St : Type) : Type := { store : St; auditor : auditEmitter }.
Arguments store {St} _.
Arguments auditor {St} _.
Arguments Build_Service {St} _ _.

Definition NewService {St} (st : St) (logger : bool) : Service St :=
  {| store := st; auditor := if logger then loggerEmitter [] else noopEmitter |}.

(** [validateCapabilities]: the error it returns, if any. *)
Definition validateCapabilities (role : Role) (isManager isAccountOwner : bool) : option herr :=
  if Role_IsChild role && (isManager || isAccountOwner)
  then Some (Sentinel ErrChildCannotHoldCapability)
  else if isAccountOwner && negb (Role_CanBeAccountOwner role)
  then Some (Sentinel ErrAccountOwnerMustBeAdult)
  else None.

Record OwnerInput : Type := {
  o_IdentityID : uuid;
  o_Role : Role;
  o_Birthdate : option time;
}.

Section service.
Context {U : UuidText} {St : Type} {S : Store St}.
Abbreviation svc A := (prog (Service St) herr A) (only parsing).

(** A call of [s.store]. *)
Definition on_store {A} (m : prog St herr A) : svc A :=
  zoom store (λ st s, {| store := st; auditor := auditor s |}) m.

Definition check (e : option herr) : svc unit :=
  match e with Some err => throw err | None => mret tt end.

Definition emit (ac : AuditContext) (action : string) (resourceID : uuid)
    (details : gmap string detail) : svc unit :=
  let resID := if bool_decide (resourceID ≠ uuid_Nil) then uuid_String resourceID else "" in
  modify (λ s, {| store := store s;
    auditor := emitter_Log
      (event (uuid_String (ac_CompanyID ac)) (uuid_String (ac_ActorID ac)) action
        resourceHousehold resID details (ac_IPAddress ac)) (auditor s) |}).

Definition member_details (m : Member) : gmap string detail :=
  <["member_id" := DString (uuid_String (m_ID m))]>
  (<["identity_id" := DString (uuid_String (m_IdentityID m))]>
  (<["role" := DString (m_Role m)]>
  (<["is_manager" := DBool (m_IsManager m)]>
  (<["is_account_owner" := DBool (m_IsAccountOwner m)]> ∅)))).

Definition CreateHousehold (e : Env) (ac : AuditContext) (displayName : string)
    (metadata : RawMessage) : svc Household :=
  let metadata := raw_or_object metadata in
  h ← wrapping "create household" (on_store (st_CreateHousehold e
        {| h_ID := uuid_Nil; h_PrimaryContactIdentityID := ac_ActorID ac;
           h_DisplayName := displayName; h_Metadata := metadata;
           h_CreatedAt := 0%Z; h_UpdatedAt := 0%Z |}));
  _ ← emit ac ActionHouseholdCreated (h_ID h) {["display_name" := DString displayName]};
  mret h.

Definition CreateHouseholdWithOwner (e : Env) (ac : AuditContext) (displayName : string)
    (owner : OwnerInput) (metadata : RawMessage) : svc (Household * Member) :=
  _ ← reject_if (negb (Role_Valid (o_Role owner)))
        (Wrapf (o_Role owner) (Sentinel ErrInvalidRole));
  _ ← check (validateCapabilities (o_Role owner) true true);
  let metadata := raw_or_object metadata in
  let h := {| h_ID := uuid_Nil; h_PrimaryContactIdentityID := o_IdentityID owner;
              h_DisplayName := displayName; h_Metadata := metadata;
              h_CreatedAt := 0%Z; h_UpdatedAt := 0%Z |} in
  let m := {| m_ID := uuid_Nil; m_HouseholdID := uuid_Nil; m_IdentityID := o_IdentityID owner;
              m_Role := o_Role owner; m_Status := StatusActive; m_IsManager := true;
              m_IsAccountOwner := true; m_Birthdate := o_Birthdate owner;
              m_Capabilities := None; m_AddedAt := 0%Z; m_RemovedAt := None |} in
  '(createdHH, createdMember) ← wrapping "create household with owner"
        (on_store (st_CreateHouseholdWithOwner e h m));
  _ ← emit ac ActionHouseholdCreated (h_ID createdHH) {["display_name" := DString displayName]};
  _ ← emit ac ActionMemberAdded (h_ID createdHH) (member_details createdMember);
  mret (createdHH, createdMember).

Definition GetHouseholdByID (id : uuid) : svc Household := on_store (st_GetHouseholdByID id).

Definition GetHouseholdForIdentity (e : Env) (identityID : uuid) : svc (Household * Member) :=
  on_store (st_GetHouseholdForIdentity e identityID).

Definition ListHouseholdsForIdentity (e : Env) (identityID : uuid) : svc (list Household) :=
  on_store (st_ListHouseholdsForIdentity e identityID).

Definition UpdateHousehold (e : Env) (ac : AuditContext) (h : Household) : svc Household :=
  updated ← wrapping "update household" (on_store (st_UpdateHousehold e h));
  _ ← emit ac ActionHouseholdUpdated (h_ID updated)
        {["display_name" := DString (h_DisplayName updated)]};
  mret updated.

Definition DeleteHousehold (e : Env) (ac : AuditContext) (id : uuid) : svc unit :=
  _ ← wrapping "delete household" (on_store (st_DeleteHousehold e id));
  emit ac ActionHouseholdDeleted id ∅.

Definition with_status (st : Status) (m : Member) : Member :=
  {| m_ID := m_ID m; m_HouseholdID := m_HouseholdID m; m_IdentityID := m_IdentityID m;
     m_Role := m_Role m; m_Status := st; m_IsManager := m_IsManager m;
     m_IsAccountOwner := m_IsAccountOwner m; m_Birthdate := m_Birthdate m;
     m_Capabilities := m_Capabilities m; m_AddedAt := m_AddedAt m;
     m_RemovedAt := m_RemovedAt m |}.

Definition AddMember (e : Env) (ac : AuditContext) (m : Member) : svc Member :=
  _ ← reject_if (negb (Role_Valid (m_Role m))) (Wrapf (m_Role m) (Sentinel ErrInvalidRole));
  _ ← reject_if (bool_decide (m_Role m = RoleChild) && bool_decide (m_Birthdate m = None))
        (Sentinel ErrChildBirthdateRequired);
  let m := if bool_decide (m_Status m = "") then with_status StatusActive m else m in
  _ ← reject_if (negb (Status_Valid (m_Status m)))
        (Wrapf (m_Status m) (Sentinel ErrInvalidStatus));
  _ ← check (validateCapabilities (m_Role m) (m_IsManager m) (m_IsAccountOwner m));
  added ← wrapping "add member" (on_store (st_AddMember e m));
  _ ← emit ac ActionMemberAdded (m_HouseholdID added) (member_details added);
  mret added.

(** The guard both [UpdateMemberRole] and [RemoveMember] put before taking the
    manager capability away. *)
Definition reject_last_manager (losing : bool) (e : Env) (householdID : uuid) : svc unit :=
  if losing then
    n ← wrapping "count managers" (on_store (st_CountManagers e householdID));
    reject_if (bool_decide (n ≤ 1)%nat) (Sentinel ErrLastManager)
  else mret tt.

Definition UpdateMemberRole (e : Env) (ac : AuditContext) (memberID : uuid) (role : Role)
    (isManager isAccountOwner : bool) (caps : RawMessage) : svc Member :=
  _ ← reject_if (negb (Role_Valid role)) (Wrapf role (Sentinel ErrInvalidRole));
  _ ← check (validateCapabilities role isManager isAccountOwner);
  current ← wrapping "get member for role update" (on_store (st_GetMember memberID));
  _ ← reject_if (bool_decide (m_Status current = StatusRemoved))
        (Wrapf "member is removed" (Sentinel ErrNotFound));
  _ ← reject_if (bool_decide (role = RoleChild) && bool_decide (m_Birthdate current = None))
        (Sentinel ErrChildBirthdateRequired);
  _ ← reject_if (m_IsAccountOwner current && negb isAccountOwner)
        (Sentinel ErrCannotRemoveAccountOwner);
  _ ← reject_last_manager (m_IsManager current && negb isManager) e (m_HouseholdID current);
  let caps := if raw_empty caps then Some "{}" else caps in
  updated ← wrapping "update member role"
        (on_store (st_UpdateMemberRole e memberID role isManager isAccountOwner caps));
  _ ← emit ac ActionMemberRoleChanged (m_HouseholdID updated)
        (<["member_id" := DString (uuid_String (m_ID updated))]>
         {["role" := DString (m_Role updated)]});
  mret updated.

Definition SetAccountOwner (e : Env) (ac : AuditContext) (householdID newOwnerMemberID : uuid) :
    svc Member :=
  target ← wrapping "get new owner" (on_store (st_GetMember newOwnerMemberID));
  _ ← reject_if (bool_decide (m_HouseholdID target ≠ householdID)) (Sentinel ErrNotFound);
  _ ← reject_if (bool_decide (m_Status target = StatusRemoved))
        (Wrapf "member is removed" (Sentinel ErrNotFound));
  _ ← reject_if (negb (Role_CanBeAccountOwner (m_Role target)))
        (Sentinel ErrAccountOwnerMustBeAdult);
  owner ← wrapping "set account owner"
        (on_store (st_SetAccountOwner e householdID newOwnerMemberID));
  _ ← emit ac ActionAccountOwnerTransferred householdID
        {["new_owner_member_id" := DString (uuid_String newOwnerMemberID)]};
  mret owner.

Definition RemoveMember (e : Env) (ac : AuditContext) (memberID : uuid) : svc unit :=
  m ← wrapping "get member for removal" (on_store (st_GetMember memberID));
  _ ← reject_if (m_IsAccountOwner m) (Sentinel ErrCannotRemoveAccountOwner);
  _ ← reject_last_manager (m_IsManager m) e (m_HouseholdID m);
  _ ← wrapping "remove member" (on_store (st_RemoveMember e memberID));
  emit ac ActionMemberRemoved (m_HouseholdID m)
    (<["member_id" := DString (uuid_String memberID)]>
     {["identity_id" := DString (uuid_String (m_IdentityID m))]}).

Definition ListMembers (e : Env) (householdID : uuid) : svc (list Member) :=
  on_store (st_ListMembers e householdID).

Definition EstablishParentOfRecord (e : Env) (ac : AuditContext)
    (childMemberID parentMemberID : uuid) : svc ParentOfRecord :=
  parent ← wrapping "get proposed parent" (on_store (st_GetMember parentMemberID));
  _ ← reject_if (negb (Role_CanGrantConsent (m_Role parent)))
        (Wrapf ("role=" +:+ m_Role parent) (Sentinel ErrParentNotEligible));
  child ← wrapping "get child member" (on_store (st_GetMember childMemberID));
  por ← wrapping "establish parent_of_record"
        (on_store (st_EstablishParentOfRecord e childMemberID parentMemberID));
  _ ← emit ac ActionParentOfRecordEstablished (m_HouseholdID child)
        (<["child_member_id" := DString (uuid_String childMemberID)]>
        (<["parent_member_id" := DString (uuid_String parentMemberID)]>
         {["parent_of_record_id" := DString (uuid_String (p_ID por))]}));
  mret por.

Definition RevokeParentOfRecord (e : Env) (ac : AuditContext) (porID : uuid) : svc unit :=
  _ ← wrapping "revoke parent_of_record" (on_store (st_RevokeParentOfRecord e porID));
  emit ac ActionParentOfRecordRevoked uuid_Nil
    {["parent_of_record_id" := DString (uuid_String porID)]}.

Definition ListParentsOfRecord (e : Env) (childMemberID : uuid) : svc (list ParentOfRecord) :=
  on_store (st_ListParentsOfRecord e childMemberID).

Definition ListChildrenForParent (e : Env) (parentMemberID : uuid) : svc (list ParentOfRecord) :=
  on_store (st_ListChildrenForParent e parentMemberID).

(** Every method that changes something, with the arguments of the call. *)
Inductive mutation : Type :=
  | MCreateHousehold (ac : AuditContext) (name : string) (md : RawMessage)
  | MCreateHouseholdWithOwner (ac : AuditContext) (name : string) (o : OwnerInput) (md : RawMessage)
  | MUpdateHousehold (ac : AuditContext) (h : Household)
  | MDeleteHousehold (ac : AuditContext) (id : uuid)
  | MAddMember (ac : AuditContext) (m : Member)
  | MUpdateMemberRole (ac : AuditContext) (id : uuid) (r : Role) (mgr own : bool) (caps : RawMessage)
  | MSetAccountOwner (ac : AuditContext) (hid id : uuid)
  | MRemoveMember (ac : AuditContext) (id : uuid)
  | MEstablishParentOfRecord (ac : AuditContext) (child parent : uuid)
  | MRevokeParentOfRecord (ac : AuditContext) (id : uuid).

Definition call (e : Env) (op : mutation) : svc unit :=
  match op with
  | MCreateHousehold ac name md => _ ← CreateHousehold e ac name md; mret tt
  | MCreateHouseholdWithOwner ac name o md => _ ← CreateHouseholdWithOwner e ac name o md; mret tt
  | MUpdateHousehold ac h => _ ← UpdateHousehold e ac h; mret tt
  | MDeleteHousehold ac id => DeleteHousehold e ac id
  | MAddMember ac m => _ ← AddMember e ac m; mret tt
  | MUpdateMemberRole ac id r mgr own caps => _ ← UpdateMemberRole e ac id r mgr own caps; mret tt
  | MSetAccountOwner ac hid id => _ ← SetAccountOwner e ac hid id; mret tt
  | MRemoveMember ac id => RemoveMember e ac id
  | MEstablishParentOfRecord ac c p => _ ← EstablishParentOfRecord e ac c p; mret tt
  | MRevokeParentOfRecord ac id => RevokeParentOfRecord e ac id
  end.
End service.
