(* ===== verification/HouseholdMemory.v ===== *)
(** * The in-memory household store (internal/aoid/composition/inmem_household.go)

    Each method of [inMemoryHouseholdStore] over its three maps.  A method holds
    the store's mutex from entry to return, so it is one atomic step.  The
    loops range over a map in the arbitrary order of the environment. *)

From S2P Require Import Prelude AuditLog Household.

Record inMemoryHouseholdStore : Type := {
  households : gmap uuid Household;
  members : gmap uuid Member;
  parentLinks : gmap uuid ParentOfRecord;
}.

Definition newInMemoryHouseholdStore : inMemoryHouseholdStore :=
  {| households := ∅; members := ∅; parentLinks := ∅ |}.

Abbreviation mem A := (prog inMemoryHouseholdStore herr A) (only parsing).

Definition set_households (hs : gmap uuid Household) (s : inMemoryHouseholdStore) :=
  {| households := hs; members := members s; parentLinks := parentLinks s |}.
Definition set_members (ms : gmap uuid Member) (s : inMemoryHouseholdStore) :=
  {| households := households s; members := ms; parentLinks := parentLinks s |}.
Definition set_parentLinks (ps : gmap uuid ParentOfRecord) (s : inMemoryHouseholdStore) :=
  {| households := households s; members := members s; parentLinks := ps |}.

(** [h.ID = id; h.CreatedAt = t; h.UpdatedAt = t]. *)
Definition stamp_household (id : uuid) (t : time) (h : Household) : Household :=
  {| h_ID := id; h_PrimaryContactIdentityID := h_PrimaryContactIdentityID h;
     h_DisplayName := h_DisplayName h; h_Metadata := h_Metadata h;
     h_CreatedAt := t; h_UpdatedAt := t |}.

(** [m.ID = id; m.HouseholdID = hid; m.AddedAt = t], with the default for
    empty capabilities. *)
Definition stamp_member (id hid : uuid) (t : time) (m : Member) : Member :=
  {| m_ID := id; m_HouseholdID := hid; m_IdentityID := m_IdentityID m; m_Role := m_Role m;
     m_Status := m_Status m; m_IsManager := m_IsManager m;
     m_IsAccountOwner := m_IsAccountOwner m; m_Birthdate := m_Birthdate m;
     m_Capabilities := if raw_empty (m_Capabilities m) then Some "{}" else m_Capabilities m;
     m_AddedAt := t; m_RemovedAt := m_RemovedAt m |}.

(** [e.HouseholdID == hid && e.IsAccountOwner && e.Status != StatusRemoved]. *)
Definition owner_in (hid : uuid) (m : Member) : bool :=
  bool_decide (m_HouseholdID m = hid) && m_IsAccountOwner m
  && bool_decide (m_Status m ≠ StatusRemoved).
Definition manager_in (hid : uuid) (m : Member) : bool :=
  bool_decide (m_HouseholdID m = hid) && m_IsManager m
  && bool_decide (m_Status m ≠ StatusRemoved).
Definition member_in (hid : uuid) (m : Member) : bool :=
  bool_decide (m_HouseholdID m = hid) && bool_decide (m_Status m ≠ StatusRemoved).
Definition member_as (identityID : uuid) (m : Member) : bool :=
  bool_decide (m_IdentityID m = identityID) && bool_decide (m_Status m ≠ StatusRemoved).

Definition mem_CreateHousehold (e : Env) (h : Household) : mem Household :=
  let h := stamp_household (new_id e 0) (now e) h in
  _ ← modify (λ s, set_households (<[h_ID h := h]> (households s)) s);
  mret h.

Definition mem_CreateHouseholdWithOwner (e : Env) (h : Household) (owner : Member) :
    mem (Household * Member) :=
  let h := stamp_household (new_id e 0) (now e) h in
  let owner := stamp_member (new_id e 1) (h_ID h) (now e) owner in
  let owner := if bool_decide (m_Status owner = "") then with_status StatusActive owner
               else owner in
  s ← get;
  _ ← reject_if (m_IsAccountOwner owner &&
                 any (owner_in (h_ID h)) (range_values (R := order e) (members s)))
        (Sentinel ErrAccountOwnerExists);
  _ ← modify (λ s, set_households (<[h_ID h := h]> (households s)) s);
  _ ← modify (λ s, set_members (<[m_ID owner := owner]> (members s)) s);
  mret (h, owner).

Definition mem_GetHouseholdByID (id : uuid) : mem Household := λ s,
  match households s !! id with
  | None => (Err (Sentinel ErrNotFound), s)
  | Some h => (Ok h, s)
  end.

Definition mem_UpdateHousehold (e : Env) (h : Household) : mem Household := λ s,
  match households s !! h_ID h with
  | None => (Err (Sentinel ErrNotFound), s)
  | Some existing =>
      let existing :=
        {| h_ID := h_ID existing;
           h_PrimaryContactIdentityID := h_PrimaryContactIdentityID existing;
           h_DisplayName := h_DisplayName h; h_Metadata := h_Metadata h;
           h_CreatedAt := h_CreatedAt existing; h_UpdatedAt := now e |} in
      (Ok existing, set_households (<[h_ID h := existing]> (households s)) s)
  end.

(** The loop deletes the members of the household while it ranges. *)
Definition delete_members_of (id : uuid) (entries : list (uuid * Member))
    (ms : gmap uuid Member) : gmap uuid Member :=
  foldl (λ ms '(mid, m), if bool_decide (m_HouseholdID m = id) then delete mid ms else ms)
    ms entries.

Definition mem_DeleteHousehold (e : Env) (id : uuid) : mem unit :=
  _ ← modify (λ s, set_households (delete id (households s)) s);
  modify (λ s, set_members
    (delete_members_of id (range (MapRange := order e) (members s)) (members s)) s).

Definition mem_AddMember (e : Env) (m : Member) : mem Member :=
  s ← get;
  _ ← reject_if (m_IsAccountOwner m &&
                 any (owner_in (m_HouseholdID m)) (range_values (R := order e) (members s)))
        (Sentinel ErrAccountOwnerExists);
  let m := stamp_member (new_id e 0) (m_HouseholdID m) (now e) m in
  _ ← modify (λ s, set_members (<[m_ID m := m]> (members s)) s);
  mret m.

Definition mem_GetMember (id : uuid) : mem Member := λ s,
  match members s !! id with
  | None => (Err (Sentinel ErrNotFound), s)
  | Some m => (Ok m, s)
  end.

Definition mem_GetMemberByIdentity (e : Env) (householdID identityID : uuid) : mem Member := λ s,
  match List.find (λ m, bool_decide (m_HouseholdID m = householdID) && member_as identityID m)
          (range_values (R := order e) (members s)) with
  | Some m => (Ok m, s)
  | None => (Err (Sentinel ErrNotFound), s)
  end.

Definition with_role (role : Role) (isManager isAccountOwner : bool) (caps : RawMessage)
    (m : Member) : Member :=
  {| m_ID := m_ID m; m_HouseholdID := m_HouseholdID m; m_IdentityID := m_IdentityID m;
     m_Role := role; m_Status := m_Status m; m_IsManager := isManager;
     m_IsAccountOwner := isAccountOwner; m_Birthdate := m_Birthdate m;
     m_Capabilities := if raw_empty caps then m_Capabilities m else caps;
     m_AddedAt := m_AddedAt m; m_RemovedAt := m_RemovedAt m |}.

Definition mem_UpdateMemberRole (e : Env) (memberID : uuid) (role : Role)
    (isManager isAccountOwner : bool) (caps : RawMessage) : mem Member := λ s,
  match members s !! memberID with
  | None => (Err (Sentinel ErrNotFound), s)
  | Some m =>
      if isAccountOwner && negb (m_IsAccountOwner m) &&
         any (λ '(id, x), bool_decide (id ≠ memberID) && owner_in (m_HouseholdID m) x)
           (range (MapRange := order e) (members s))
      then (Err (Sentinel ErrAccountOwnerExists), s)
      else
        let m := with_role role isManager isAccountOwner caps m in
        (Ok m, set_members (<[memberID := m]> (members s)) s)
  end.

Definition as_removed (t : time) (m : Member) : Member :=
  {| m_ID := m_ID m; m_HouseholdID := m_HouseholdID m; m_IdentityID := m_IdentityID m;
     m_Role := m_Role m; m_Status := StatusRemoved; m_IsManager := m_IsManager m;
     m_IsAccountOwner := m_IsAccountOwner m; m_Birthdate := m_Birthdate m;
     m_Capabilities := m_Capabilities m; m_AddedAt := m_AddedAt m;
     m_RemovedAt := Some t |}.

Definition mem_RemoveMember (e : Env) (memberID : uuid) : mem unit := λ s,
  match members s !! memberID with
  | None => (Err (Sentinel ErrNotFound), s)
  | Some m => (Ok tt, set_members (<[memberID := as_removed (now e) m]> (members s)) s)
  end.

Definition added_before (m m' : Member) : bool := Before (m_AddedAt m) (m_AddedAt m').

Definition mem_ListMembers (e : Env) (householdID : uuid) : mem (list Member) :=
  gets (λ s, sort_slice added_before
    (filter (λ m, member_in householdID m = true) (range_values (R := order e) (members s)))).

Definition mem_CountManagers (e : Env) (householdID : uuid) : mem nat :=
  gets (λ s, count (manager_in householdID) (range_values (R := order e) (members s))).

(** One iteration: keep the membership added first. *)
Definition earlier_membership (identityID : uuid) : option Member → Member → option Member :=
  keep_best (member_as identityID) added_before.

Definition mem_GetHouseholdForIdentity (e : Env) (identityID : uuid) :
    mem (Household * Member) := λ s,
  match foldl (earlier_membership identityID) None (range_values (R := order e) (members s)) with
  | None => (Err (Sentinel ErrNotFound), s)
  | Some found =>
      match households s !! m_HouseholdID found with
      | None => (Err (Sentinel ErrNotFound), s)
      | Some h => (Ok (h, found), s)
      end
  end.

(** One iteration: append the household of a membership, once. *)
Definition add_household (identityID : uuid) (hs : gmap uuid Household)
    (acc : list Household * gset uuid) (m : Member) : list Household * gset uuid :=
  let '(out, seen) := acc in
  if member_as identityID m && bool_decide (m_HouseholdID m ∉ seen) then
    match hs !! m_HouseholdID m with
    | Some h => (out ++ [h], {[m_HouseholdID m]} ∪ seen)
    | None => (out, seen)
    end
  else (out, seen).

Definition mem_ListHouseholdsForIdentity (e : Env) (identityID : uuid) : mem (list Household) :=
  gets (λ s, (foldl (add_household identityID (households s)) ([], ∅)
                (range_values (R := order e) (members s))).1).

Definition with_owner (b : bool) (m : Member) : Member :=
  {| m_ID := m_ID m; m_HouseholdID := m_HouseholdID m; m_IdentityID := m_IdentityID m;
     m_Role := m_Role m; m_Status := m_Status m; m_IsManager := m_IsManager m;
     m_IsAccountOwner := b; m_Birthdate := m_Birthdate m; m_Capabilities := m_Capabilities m;
     m_AddedAt := m_AddedAt m; m_RemovedAt := m_RemovedAt m |}.

(** The loop that demotes the current account owner. *)
Definition demote_owners (hid : uuid) (entries : list (uuid * Member))
    (ms : gmap uuid Member) : gmap uuid Member :=
  foldl (λ ms '(id, m), if bool_decide (m_HouseholdID m = hid) && m_IsAccountOwner m
                        then <[id := with_owner false m]> ms else ms) ms entries.

Definition mem_SetAccountOwner (e : Env) (householdID newOwnerMemberID : uuid) : mem Member := λ s,
  match members s !! newOwnerMemberID with
  | None => (Err (Sentinel ErrNotFound), s)
  | Some target =>
      if bool_decide (m_HouseholdID target ≠ householdID)
         || bool_decide (m_Status target = StatusRemoved)
      then (Err (Sentinel ErrNotFound), s)
      else
        let ms := demote_owners householdID (range (MapRange := order e) (members s)) (members s) in
        let target := with_owner true target in
        (Ok target, set_members (<[newOwnerMemberID := target]> ms) s)
  end.

Definition mem_EstablishParentOfRecord (e : Env) (childMemberID parentMemberID : uuid) :
    mem ParentOfRecord :=
  let por := {| p_ID := new_id e 0; p_ChildMemberID := childMemberID;
                p_ParentMemberID := parentMemberID; p_EstablishedAt := now e;
                p_RevokedAt := None |} in
  _ ← modify (λ s, set_parentLinks (<[p_ID por := por]> (parentLinks s)) s);
  mret por.

Definition as_revoked (t : time) (p : ParentOfRecord) : ParentOfRecord :=
  {| p_ID := p_ID p; p_ChildMemberID := p_ChildMemberID p; p_ParentMemberID := p_ParentMemberID p;
     p_EstablishedAt := p_EstablishedAt p; p_RevokedAt := Some t |}.

Definition mem_RevokeParentOfRecord (e : Env) (id : uuid) : mem unit := λ s,
  match parentLinks s !! id with
  | None => (Err (Sentinel ErrNotFound), s)
  | Some por => (Ok tt, set_parentLinks (<[id := as_revoked (now e) por]> (parentLinks s)) s)
  end.

Definition mem_ListParentsOfRecord (e : Env) (childMemberID : uuid) : mem (list ParentOfRecord) :=
  gets (λ s, filter (λ p, p_ChildMemberID p = childMemberID ∧ p_RevokedAt p = None)
    (range_values (R := order e) (parentLinks s))).

Definition mem_ListChildrenForParent (e : Env) (parentMemberID : uuid) :
    mem (list ParentOfRecord) :=
  gets (λ s, filter (λ p, p_ParentMemberID p = parentMemberID ∧ p_RevokedAt p = None)
    (range_values (R := order e) (parentLinks s))).

(** The store implements [household.Store]. *)
#[export] Instance memory_Store : Store inMemoryHouseholdStore := {|
  st_CreateHousehold := mem_CreateHousehold;
  st_CreateHouseholdWithOwner := mem_CreateHouseholdWithOwner;
  st_GetHouseholdByID := mem_GetHouseholdByID;
  st_UpdateHousehold := mem_UpdateHousehold;
  st_DeleteHousehold := mem_DeleteHousehold;
  st_AddMember := mem_AddMember;
  st_GetMember := mem_GetMember;
  st_GetMemberByIdentity := mem_GetMemberByIdentity;
  st_UpdateMemberRole := mem_UpdateMemberRole;
  st_RemoveMember := mem_RemoveMember;
  st_ListMembers := mem_ListMembers;
  st_CountManagers := mem_CountManagers;
  st_GetHouseholdForIdentity := mem_GetHouseholdForIdentity;
  st_ListHouseholdsForIdentity := mem_ListHouseholdsForIdentity;
  st_SetAccountOwner := mem_SetAccountOwner;
  st_EstablishParentOfRecord := mem_EstablishParentOfRecord;
  st_RevokeParentOfRecord := mem_RevokeParentOfRecord;
  st_ListParentsOfRecord := mem_ListParentsOfRecord;
  st_ListChildrenForParent := mem_ListChildrenForParent;
|}.
