(* ===== verification/HouseholdProofs.v ===== *)
(** * Household correctness

    The contract a store owes the service ([StoreLaws]), the abstract
    specification of every mutation ([spec]: its guards and its effect on the
    three tables), the theorem that the service implements it over any lawful
    store, the invariants that follow by induction over runs, and the proof
    that the in-memory store is lawful. *)

From S2P Require Import Prelude AuditLog Household HouseholdMemory.

(** ** The contract of a store *)

(** The tables a store holds. *)
Record view : Type := {
  v_households : gmap uuid Household;
  v_members : gmap uuid Member;
  v_links : gmap uuid ParentOfRecord;
}.

(** The identifiers [uuid.New] returns in this call are new to the tables. *)
Record fresh_env (e : Env) (v : view) : Prop := {
  fresh_household n : v_households v !! new_id e n = None;
  fresh_member n : v_members v !! new_id e n = None;
  fresh_reference n k m : v_members v !! k = Some m → m_HouseholdID m ≠ new_id e n;
  fresh_link n : v_links v !! new_id e n = None;
}.

(** The row a store writes for a member it was given. *)
Record stored_as (given row : Member) : Prop := {
  stored_identity : m_IdentityID row = m_IdentityID given;
  stored_role : m_Role row = m_Role given;
  stored_status : m_Status row = m_Status given;
  stored_manager : m_IsManager row = m_IsManager given;
  stored_owner : m_IsAccountOwner row = m_IsAccountOwner given;
  stored_birthdate : m_Birthdate row = m_Birthdate given;
}.

Definition has_owner (hid : uuid) (ms : gmap uuid Member) : Prop :=
  ∃ k m, ms !! k = Some m ∧ owner_in hid m = true.
Definition has_manager (hid : uuid) (ms : gmap uuid Member) : Prop :=
  ∃ k m, ms !! k = Some m ∧ manager_in hid m = true.
Definition managers (hid : uuid) (ms : gmap uuid Member) : gmap uuid Member :=
  filter (λ '(_, m), manager_in hid m = true) ms.
Definition demote (hid : uuid) (m : Member) : Member :=
  if bool_decide (m_HouseholdID m = hid) && m_IsAccountOwner m then with_owner false m else m.

Definition with_members (ms : gmap uuid Member) (v : view) : view :=
  {| v_households := v_households v; v_members := ms; v_links := v_links v |}.

(** What each method does to the tables: an error leaves them alone, a success
    has the stated effect and establishes the stated facts. *)
Class StoreLaws (St : Type) (S : Store St) : Type := {
  view_of : St → view;
  law_CreateHousehold e h s r s' :
    fresh_env e (view_of s) → st_CreateHousehold e h s = (r, s') →
    match r with
    | Err _ => view_of s' = view_of s
    | Ok h' => v_households (view_of s) !! h_ID h' = None ∧
        view_of s' = {| v_households := <[h_ID h' := h']> (v_households (view_of s));
                        v_members := v_members (view_of s); v_links := v_links (view_of s) |}
    end;
  law_CreateHouseholdWithOwner e h m s r s' :
    fresh_env e (view_of s) → m_Status m ≠ "" →
    st_CreateHouseholdWithOwner e h m s = (r, s') →
    match r with
    | Err _ => view_of s' = view_of s
    | Ok (h', m') =>
        v_households (view_of s) !! h_ID h' = None ∧
        v_members (view_of s) !! m_ID m' = None ∧
        (∀ k x, v_members (view_of s) !! k = Some x → m_HouseholdID x ≠ h_ID h') ∧
        stored_as m m' ∧ m_HouseholdID m' = h_ID h' ∧
        view_of s' = {| v_households := <[h_ID h' := h']> (v_households (view_of s));
                        v_members := <[m_ID m' := m']> (v_members (view_of s));
                        v_links := v_links (view_of s) |}
    end;
  law_UpdateHousehold e h s r s' :
    st_UpdateHousehold e h s = (r, s') →
    match r with
    | Err _ => view_of s' = view_of s
    | Ok h' => is_Some (v_households (view_of s) !! h_ID h) ∧
        h_DisplayName h' = h_DisplayName h ∧ h_Metadata h' = h_Metadata h ∧
        view_of s' = {| v_households := <[h_ID h := h']> (v_households (view_of s));
                        v_members := v_members (view_of s); v_links := v_links (view_of s) |}
    end;
  law_DeleteHousehold e id s r s' :
    st_DeleteHousehold e id s = (r, s') →
    match r with
    | Err _ => view_of s' = view_of s
    | Ok _ => v_households (view_of s') = delete id (v_households (view_of s)) ∧
        v_members (view_of s') = filter (λ '(_, m), m_HouseholdID m ≠ id) (v_members (view_of s))
    end;
  law_AddMember e m s r s' :
    fresh_env e (view_of s) → st_AddMember e m s = (r, s') →
    match r with
    | Err _ => view_of s' = view_of s
    | Ok m' =>
        v_members (view_of s) !! m_ID m' = None ∧ stored_as m m' ∧
        m_HouseholdID m' = m_HouseholdID m ∧
        (m_IsAccountOwner m = true → m_Status m ≠ StatusRemoved →
           ¬ has_owner (m_HouseholdID m) (v_members (view_of s))) ∧
        view_of s' = with_members (<[m_ID m' := m']> (v_members (view_of s))) (view_of s)
    end;
  law_GetMember id s :
    ∃ s', st_GetMember id s =
      (match v_members (view_of s) !! id with
       | Some m => Ok m | None => Err (Sentinel ErrNotFound) end, s') ∧ view_of s' = view_of s;
  law_UpdateMemberRole e id role mgr own caps s r s' :
    st_UpdateMemberRole e id role mgr own caps s = (r, s') →
    match r with
    | Err _ => view_of s' = view_of s
    | Ok m' => ∃ m, v_members (view_of s) !! id = Some m ∧ m' = with_role role mgr own caps m ∧
        (own = true → m_IsAccountOwner m = false →
           ∀ k x, k ≠ id → v_members (view_of s) !! k = Some x →
             owner_in (m_HouseholdID m) x = false) ∧
        view_of s' = with_members (<[id := m']> (v_members (view_of s))) (view_of s)
    end;
  law_RemoveMember e id s r s' :
    st_RemoveMember e id s = (r, s') →
    match r with
    | Err _ => view_of s' = view_of s
    | Ok _ => ∃ m t, v_members (view_of s) !! id = Some m ∧
        view_of s' = with_members (<[id := as_removed t m]> (v_members (view_of s))) (view_of s)
    end;
  law_CountManagers e hid s r s' :
    st_CountManagers e hid s = (r, s') →
    view_of s' = view_of s ∧
    match r with Err _ => True | Ok n => n = size (managers hid (v_members (view_of s))) end;
  law_SetAccountOwner e hid id s r s' :
    st_SetAccountOwner e hid id s = (r, s') →
    match r with
    | Err _ => view_of s' = view_of s
    | Ok m' => ∃ m, v_members (view_of s) !! id = Some m ∧ m_HouseholdID m = hid ∧
        m_Status m ≠ StatusRemoved ∧ m' = with_owner true m ∧
        view_of s' = with_members (<[id := m']> (demote hid <$> v_members (view_of s))) (view_of s)
    end;
  law_EstablishParentOfRecord e c p s r s' :
    fresh_env e (view_of s) → st_EstablishParentOfRecord e c p s = (r, s') →
    match r with
    | Err _ => view_of s' = view_of s
    | Ok l => p_ChildMemberID l = c ∧ p_ParentMemberID l = p ∧ p_RevokedAt l = None ∧
        view_of s' = {| v_households := v_households (view_of s);
                        v_members := v_members (view_of s);
                        v_links := <[p_ID l := l]> (v_links (view_of s)) |}
    end;
  law_RevokeParentOfRecord e id s r s' :
    st_RevokeParentOfRecord e id s = (r, s') →
    match r with
    | Err _ => view_of s' = view_of s
    | Ok _ => ∃ l t, v_links (view_of s) !! id = Some l ∧
        view_of s' = {| v_households := v_households (view_of s);
                        v_members := v_members (view_of s);
                        v_links := <[id := as_revoked t l]> (v_links (view_of s)) |}
    end;
}.

(** ** The abstract specification *)

Definition capable (role : Role) (mgr own : bool) : Prop :=
  role = RoleChild → mgr = false ∧ own = false.

(** What a successful mutation requires of the tables and does to them. *)
Inductive spec : mutation → view → view → Prop :=
  | spec_CreateHousehold ac name md v h :
      v_households v !! h_ID h = None →
      spec (MCreateHousehold ac name md) v
        {| v_households := <[h_ID h := h]> (v_households v);
           v_members := v_members v; v_links := v_links v |}
  | spec_CreateHouseholdWithOwner ac name o md v h m :
      Role_Valid (o_Role o) = true → o_Role o ≠ RoleChild →
      v_households v !! h_ID h = None → v_members v !! m_ID m = None →
      (∀ k x, v_members v !! k = Some x → m_HouseholdID x ≠ h_ID h) →
      m_HouseholdID m = h_ID h → m_IdentityID m = o_IdentityID o → m_Role m = o_Role o →
      m_Status m = StatusActive → m_IsManager m = true → m_IsAccountOwner m = true →
      spec (MCreateHouseholdWithOwner ac name o md) v
        {| v_households := <[h_ID h := h]> (v_households v);
           v_members := <[m_ID m := m]> (v_members v); v_links := v_links v |}
  | spec_UpdateHousehold ac h v h' :
      is_Some (v_households v !! h_ID h) →
      h_DisplayName h' = h_DisplayName h → h_Metadata h' = h_Metadata h →
      spec (MUpdateHousehold ac h) v
        {| v_households := <[h_ID h := h']> (v_households v);
           v_members := v_members v; v_links := v_links v |}
  | spec_DeleteHousehold ac id v v' :
      v_households v' = delete id (v_households v) →
      v_members v' = filter (λ '(_, m), m_HouseholdID m ≠ id) (v_members v) →
      spec (MDeleteHousehold ac id) v v'
  | spec_AddMember ac given v m :
      Role_Valid (m_Role m) = true → Status_Valid (m_Status m) = true →
      (m_Role m = RoleChild → m_Birthdate m ≠ None) →
      capable (m_Role m) (m_IsManager m) (m_IsAccountOwner m) →
      v_members v !! m_ID m = None →
      m_HouseholdID m = m_HouseholdID given → m_IdentityID m = m_IdentityID given →
      m_Role m = m_Role given → m_IsManager m = m_IsManager given →
      m_IsAccountOwner m = m_IsAccountOwner given →
      (m_IsAccountOwner m = true → m_Status m ≠ StatusRemoved →
         ¬ has_owner (m_HouseholdID m) (v_members v)) →
      spec (MAddMember ac given) v (with_members (<[m_ID m := m]> (v_members v)) v)
  | spec_UpdateMemberRole ac id role mgr own caps caps' v m :
      v_members v !! id = Some m → m_Status m ≠ StatusRemoved →
      Role_Valid role = true → capable role mgr own →
      (role = RoleChild → m_Birthdate m ≠ None) →
      (m_IsAccountOwner m = true → own = true) →
      (m_IsManager m = true → mgr = false →
         1 < size (managers (m_HouseholdID m) (v_members v))) →
      (own = true → m_IsAccountOwner m = false →
         ∀ k x, k ≠ id → v_members v !! k = Some x → owner_in (m_HouseholdID m) x = false) →
      spec (MUpdateMemberRole ac id role mgr own caps) v
        (with_members (<[id := with_role role mgr own caps' m]> (v_members v)) v)
  | spec_SetAccountOwner ac hid id v m :
      v_members v !! id = Some m → m_HouseholdID m = hid → m_Status m ≠ StatusRemoved →
      m_Role m ≠ RoleChild →
      spec (MSetAccountOwner ac hid id) v
        (with_members (<[id := with_owner true m]> (demote hid <$> v_members v)) v)
  | spec_RemoveMember ac id v m t :
      v_members v !! id = Some m → m_IsAccountOwner m = false →
      (m_IsManager m = true → 1 < size (managers (m_HouseholdID m) (v_members v))) →
      spec (MRemoveMember ac id) v (with_members (<[id := as_removed t m]> (v_members v)) v)
  | spec_EstablishParentOfRecord ac c p v child parent l :
      v_members v !! p = Some parent → m_Role parent = RoleGuardian →
      v_members v !! c = Some child →
      p_ChildMemberID l = c → p_ParentMemberID l = p → p_RevokedAt l = None →
      spec (MEstablishParentOfRecord ac c p) v
        {| v_households := v_households v; v_members := v_members v;
           v_links := <[p_ID l := l]> (v_links v) |}
  | spec_RevokeParentOfRecord ac id v l t :
      v_links v !! id = Some l →
      spec (MRevokeParentOfRecord ac id) v
        {| v_households := v_households v; v_members := v_members v;
           v_links := <[id := as_revoked t l]> (v_links v) |}.

(** The audit actions of a successful mutation, in order. *)
Definition actions_of (op : mutation) : list string :=
  match op with
  | MCreateHousehold _ _ _ => [ActionHouseholdCreated]
  | MCreateHouseholdWithOwner _ _ _ _ => [ActionHouseholdCreated; ActionMemberAdded]
  | MUpdateHousehold _ _ => [ActionHouseholdUpdated]
  | MDeleteHousehold _ _ => [ActionHouseholdDeleted]
  | MAddMember _ _ => [ActionMemberAdded]
  | MUpdateMemberRole _ _ _ _ _ _ => [ActionMemberRoleChanged]
  | MSetAccountOwner _ _ _ => [ActionAccountOwnerTransferred]
  | MRemoveMember _ _ => [ActionMemberRemoved]
  | MEstablishParentOfRecord _ _ _ => [ActionParentOfRecordEstablished]
  | MRevokeParentOfRecord _ _ => [ActionParentOfRecordRevoked]
  end.

Definition context_of (op : mutation) : AuditContext :=
  match op with
  | MCreateHousehold ac _ _ | MCreateHouseholdWithOwner ac _ _ _ | MUpdateHousehold ac _
  | MDeleteHousehold ac _ | MAddMember ac _ | MUpdateMemberRole ac _ _ _ _ _
  | MSetAccountOwner ac _ _ | MRemoveMember ac _ | MEstablishParentOfRecord ac _ _
  | MRevokeParentOfRecord ac _ => ac
  end.

Section refinement.
Context {U : UuidText} {St : Type} {S : Store St} {L : StoreLaws St S}.
Implicit Types (s : Service St) (e : Env) (op : mutation).

Definition view_at (s : Service St) : view := view_of (store s).

(** The event carries the caller's company, actor and address. *)
Definition signed (ac : AuditContext) (action : string) (ev : Event) : Prop :=
  Action ev = action ∧ CompanyID ev = uuid_String (ac_CompanyID ac) ∧
  ActorID ev = uuid_String (ac_ActorID ac) ∧ IPAddress ev = ac_IPAddress ac ∧
  Resource ev = resourceHousehold.

(** The emitter was sent one event per action, in order, and nothing else. *)
Definition audited (op : mutation) (em em' : auditEmitter) : Prop :=
  match em, em' with
  | noopEmitter, noopEmitter => True
  | loggerEmitter sent, loggerEmitter sent' =>
      ∃ evs, sent' = sent ++ evs ∧ Forall2 (signed (context_of op)) (actions_of op) evs
  | _, _ => False
  end.

(** How a call relates to the specification. *)
Definition implements (op : mutation) (s : Service St) (r : outcome herr unit)
    (s' : Service St) : Prop :=
  match r with
  | Ok _ => spec op (view_at s) (view_at s') ∧ audited op (auditor s) (auditor s')
  | Err _ => view_at s' = view_at s ∧ auditor s' = auditor s
  end.

Lemma check_None s : check None s = (Ok tt, s).
Proof. done. Qed.

Lemma validateCapabilities_None role mgr own :
  validateCapabilities role mgr own = None → capable role mgr own.
Proof.
  unfold validateCapabilities, Role_IsChild, capable. intros Hv ->.
  rewrite bool_decide_true in Hv by done. by destruct mgr, own.
Qed.

(** Splits a run of a service method at its next store call or guard. *)
Ltac svc_step :=
  match goal with
  | H : context [reject_if ?b _ _] |- _ => destruct b eqn:?; cbn [reject_if throw] in H
  | H : context [check ?o _] |- _ =>
      let E := fresh "Hcheck" in destruct o eqn:E; cbn [check throw] in H
  | H : context [on_store ?m ?s] |- _ =>
      unfold on_store at 1, zoom in H; destruct (m (store s)) as [[?|?] ?] eqn:?
  | H : (_, _) = (_, _) |- _ => injection H as H; subst
  end.
Ltac svc_norm :=
  repeat (cbv [mbind prog_bind mret prog_ret wrapping throw emit modify] in *; cbn in *).


Lemma GetMember_inv id st r st' :
  st_GetMember id st = (r, st') →
  view_of st' = view_of st ∧
  r = match v_members (view_of st) !! id with
      | Some m => Ok m | None => Err (Sentinel ErrNotFound) end.
Proof. intros Hg. destruct (law_GetMember id st) as (s1 & Hg' & Hv). by rewrite Hg in Hg'; simplify_eq. Qed.

(** Replaces every store call by what the contract says of it. *)
Ltac use_law :=
  match goal with
  | H : st_GetMember _ _ = _ |- _ =>
      let E := fresh "Hget" in apply GetMember_inv in H as [? E]; symmetry in E
  | H : st_CountManagers _ _ _ = _ |- _ => apply law_CountManagers in H as [? H]
  | H : st_CreateHousehold _ _ _ = _ |- _ => apply law_CreateHousehold in H
  | H : st_CreateHouseholdWithOwner _ _ _ _ = _ |- _ => apply law_CreateHouseholdWithOwner in H
  | H : st_UpdateHousehold _ _ _ = _ |- _ => apply law_UpdateHousehold in H
  | H : st_DeleteHousehold _ _ _ = _ |- _ => apply law_DeleteHousehold in H
  | H : st_AddMember _ _ _ = _ |- _ => apply law_AddMember in H
  | H : st_UpdateMemberRole _ _ _ _ _ _ _ = _ |- _ => apply law_UpdateMemberRole in H
  | H : st_RemoveMember _ _ _ = _ |- _ => apply law_RemoveMember in H
  | H : st_SetAccountOwner _ _ _ _ = _ |- _ => apply law_SetAccountOwner in H
  | H : st_EstablishParentOfRecord _ _ _ _ = _ |- _ => 
      apply law_EstablishParentOfRecord in H;
      [|by repeat match goal with E : view_of _ = _ |- _ => rewrite E end]
  | H : st_RevokeParentOfRecord _ _ _ = _ |- _ => apply law_RevokeParentOfRecord in H
  end.
Ltac run_service := svc_norm; repeat (svc_step; svc_norm); unfold implements, view_at in *; cbn in *.

Lemma emit_audited op action id details em :
  actions_of op = [action] →
  audited op em (emitter_Log
    (event (uuid_String (ac_CompanyID (context_of op))) (uuid_String (ac_ActorID (context_of op)))
      action resourceHousehold id details (ac_IPAddress (context_of op))) em).
Proof.
  intros Ha. unfold audited. rewrite Ha. destruct em; cbn; [done|].
  eexists. split; [done|]. repeat constructor.
Qed.
Ltac emitted := match goal with |- audited ?op _ _ => by apply (emit_audited op) end.

Lemma CreateHousehold_implements e ac name md s r s' :
  fresh_env e (view_at s) → call e (MCreateHousehold ac name md) s = (r, s') →
  implements (MCreateHousehold ac name md) s r s'.
Proof.
  intros Hf Hc. cbn in Hc. unfold CreateHousehold in Hc. run_service; use_law; try done.
  destruct Heqp as [Hnew ->]. split; [by eapply spec_CreateHousehold|emitted].
Qed.

Lemma CreateHouseholdWithOwner_implements e ac name o md s r s' :
  fresh_env e (view_at s) → call e (MCreateHouseholdWithOwner ac name o md) s = (r, s') →
  implements (MCreateHouseholdWithOwner ac name o md) s r s'.
Proof.
  intros Hf Hc. cbn in Hc. unfold CreateHouseholdWithOwner in Hc. run_service; try done.
  - destruct a as [h m]. svc_norm. simplify_eq. unfold implements, view_at; cbn.
    use_law; [|done..].
    destruct Heqp as (Hh & Hm & Href & [] & Hhid & ->). cbn in *. split.
    + apply negb_false_iff in Heqb. apply validateCapabilities_None in Hcheck.
      eapply spec_CreateHouseholdWithOwner; try done. intros Hch. by destruct (Hcheck Hch).
    + destruct (auditor s); cbn; [done|]. rewrite <-(assoc_L app). eexists.
      split; [done|]. repeat constructor.
  - use_law; done.
Qed.

Lemma CreateHouseholdWithOwner_row e ac name o md s h m s' :
  fresh_env e (view_at s) → CreateHouseholdWithOwner e ac name o md s = (Ok (h, m), s') →
  v_members (view_at s') !! m_ID m = Some m ∧ m_HouseholdID m = h_ID h ∧
  m_Status m = StatusActive ∧ m_IsManager m = true ∧ m_IsAccountOwner m = true.
Proof.
  intros Hf Hc. unfold CreateHouseholdWithOwner in Hc. run_service; try done.
  destruct a as [h' m']. svc_norm. simplify_eq. unfold view_at; cbn. use_law; [|done..].
  destruct Heqp as (Hh & Hm & Href & [] & Hhid & ->). cbn in *. by rewrite lookup_insert_eq.
Qed.

Lemma UpdateHousehold_implements e ac h s r s' :
  call e (MUpdateHousehold ac h) s = (r, s') → implements (MUpdateHousehold ac h) s r s'.
Proof.
  intros Hc. cbn in Hc. unfold UpdateHousehold in Hc. run_service; use_law; try done.
  destruct Heqp as (Hex & Hn & Hm & ->). split; [by eapply spec_UpdateHousehold|emitted].
Qed.

Lemma DeleteHousehold_implements e ac id s r s' :
  call e (MDeleteHousehold ac id) s = (r, s') → implements (MDeleteHousehold ac id) s r s'.
Proof.
  intros Hc. cbn in Hc. unfold DeleteHousehold in Hc. run_service; use_law; try done.
  destruct Heqp as (Hh & Hm). split; [by eapply spec_DeleteHousehold|emitted].
Qed.

Lemma AddMember_implements e ac m s r s' :
  fresh_env e (view_at s) → call e (MAddMember ac m) s = (r, s') →
  implements (MAddMember ac m) s r s'.
Proof.
  intros Hf Hc. cbn in Hc. unfold AddMember in Hc.
  set (m1 := if bool_decide (m_Status m = "") then with_status StatusActive m else m) in Hc.
  assert (m_Role m1 = m_Role m ∧ m_Birthdate m1 = m_Birthdate m ∧
          m_IsManager m1 = m_IsManager m ∧ m_IsAccountOwner m1 = m_IsAccountOwner m ∧
          m_IdentityID m1 = m_IdentityID m ∧ m_HouseholdID m1 = m_HouseholdID m)
    as (Hr & Hb & Hmg & Ho & Hi & Hh) by (unfold m1; by destruct (bool_decide _)).
  clearbody m1. run_service; try done; use_law; try done.
  destruct Heqp as (Hnew & [] & Hhid & Howner & ->). split; [|emitted].
  apply negb_false_iff in Heqb, Heqb1. apply andb_false_iff in Heqb0.
  rewrite !bool_decide_eq_false in Heqb0. apply validateCapabilities_None in Hcheck.
  eapply spec_AddMember; try congruence.
  - intros Hch. destruct Heqb0 as [Hx|Hx]; [congruence|]. congruence.
  - intros Hch. destruct Hcheck as [? ?]; [congruence|]. split; congruence.
  - intros Hown Hst. rewrite Hhid. apply Howner; congruence.
Qed.

Lemma reject_last_manager_inv b e hid s r s' :
  reject_last_manager b e hid s = (r, s') →
  view_at s' = view_at s ∧ auditor s' = auditor s ∧
  (is_Ok r = true → b = true → 1 < size (managers hid (v_members (view_at s)))).
Proof.
  intros Hc. unfold reject_last_manager in Hc. destruct b; run_service; try use_law; try done.
  apply bool_decide_eq_false in Heqb. split_and!; [done..|]. intros _ _. lia.
Qed.
Ltac manager_step :=
  match goal with
  | H : context [reject_last_manager ?b ?e ?h ?s] |- _ =>
      let G := fresh "Hguard" in let E := fresh "Hcalled" in
      destruct (reject_last_manager b e h s) as [[[]|?] ?] eqn:E;
      apply reject_last_manager_inv in E as (?Hv & ?Ha & G); unfold view_at in *; cbn in *
  end.

Ltac run_guarded :=
  run_service; try manager_step; run_service; repeat use_law; try done;
  try (split; congruence).
(** Reads a member found by [GetMember]. *)
Ltac found_member :=
  match goal with
  | H : match ?ms !! ?id with Some _ => _ | None => _ end = Ok _ |- _ =>
      let E := fresh "Hm" in destruct (ms !! id) eqn:E; [|done]; injection H as H; subst
  end.

Lemma UpdateMemberRole_implements e ac id role mgr own caps s r s' :
  call e (MUpdateMemberRole ac id role mgr own caps) s = (r, s') →
  implements (MUpdateMemberRole ac id role mgr own caps) s r s'.
Proof.
  intros Hc. cbn in Hc. unfold UpdateMemberRole in Hc. run_guarded.
  found_member. rewrite Hv, H in Heqp0. rewrite H in Hguard.
  destruct Heqp0 as (m & Hm' & -> & Hown & ->). simplify_eq.
  split; [|rewrite Ha; emitted].
  apply negb_false_iff in Heqb. apply bool_decide_eq_false in Heqb0.
  apply validateCapabilities_None in Hcheck. rewrite andb_false_iff, !bool_decide_eq_false in Heqb1.
  eapply spec_UpdateMemberRole; try done.
  - intros Hch. by destruct Heqb1.
  - intros Ho. rewrite Ho in Heqb2. by destruct own.
  - intros Hmg ->. apply Hguard; [done|]. by rewrite Hmg.
Qed.

Lemma SetAccountOwner_implements e ac hid id s r s' :
  call e (MSetAccountOwner ac hid id) s = (r, s') →
  implements (MSetAccountOwner ac hid id) s r s'.
Proof.
  intros Hc. cbn in Hc. unfold SetAccountOwner in Hc. run_guarded.
  found_member. rewrite H in Heqp0. destruct Heqp0 as (m & Hm' & Hh & Hst & -> & ->). simplify_eq.
  split; [|emitted]. eapply spec_SetAccountOwner; try done.
  unfold Role_CanBeAccountOwner in Heqb1. intros Hch. by rewrite Hch in Heqb1.
Qed.

Lemma RemoveMember_implements e ac id s r s' :
  call e (MRemoveMember ac id) s = (r, s') → implements (MRemoveMember ac id) s r s'.
Proof.
  intros Hc. cbn in Hc. unfold RemoveMember in Hc. run_guarded.
  found_member. rewrite Hv, H in Heqp0. rewrite H in Hguard.
  destruct Heqp0 as (m & t & Hm' & ->). simplify_eq.
  split; [|rewrite Ha; emitted]. eapply spec_RemoveMember; try done. by apply Hguard.
Qed.

Lemma EstablishParentOfRecord_implements e ac c p s r s' :
  fresh_env e (view_at s) → call e (MEstablishParentOfRecord ac c p) s = (r, s') →
  implements (MEstablishParentOfRecord ac c p) s r s'.
Proof.
  intros Hf Hc. cbn in Hc. unfold EstablishParentOfRecord in Hc. run_guarded.
  rewrite H, H0 in Heqp2. destruct Heqp2 as (Hl & Hp & Hr & ->). rewrite H0 in Hget.
  do 2 found_member. split; [|emitted].
  eapply spec_EstablishParentOfRecord; try done.
  unfold Role_CanGrantConsent in Heqb. apply negb_false_iff in Heqb.
  by apply bool_decide_eq_true in Heqb.
Qed.

Lemma RevokeParentOfRecord_implements e ac id s r s' :
  call e (MRevokeParentOfRecord ac id) s = (r, s') →
  implements (MRevokeParentOfRecord ac id) s r s'.
Proof.
  intros Hc. cbn in Hc. unfold RevokeParentOfRecord in Hc. run_guarded.
  destruct Heqp as (l & t & Hl & ->). split; [|emitted]. by eapply spec_RevokeParentOfRecord.
Qed.

Lemma call_implements e op s r s' :
  fresh_env e (view_at s) → call e op s = (r, s') → implements op s r s'.
Proof.
  destruct op; eauto using CreateHousehold_implements, CreateHouseholdWithOwner_implements,
    UpdateHousehold_implements, DeleteHousehold_implements, AddMember_implements,
    UpdateMemberRole_implements, SetAccountOwner_implements, RemoveMember_implements,
    EstablishParentOfRecord_implements, RevokeParentOfRecord_implements.
Qed.
End refinement.

(** ** Invariants of the specification *)

(** A stored member is well formed: known role and status; a child holds no
    capability and has a birthdate. *)
Definition wf_member (m : Member) : Prop :=
  Role_Valid (m_Role m) = true ∧ Status_Valid (m_Status m) = true ∧
  (m_Role m = RoleChild →
     m_IsManager m = false ∧ m_IsAccountOwner m = false ∧ m_Birthdate m ≠ None).

(** No household has two account owners that are not removed. *)
Definition single_owner (ms : gmap uuid Member) : Prop :=
  ∀ hid i j m m', ms !! i = Some m → ms !! j = Some m' →
    owner_in hid m = true → owner_in hid m' = true → i = j.

Record household_inv (v : view) : Prop := {
  inv_key k m : v_members v !! k = Some m → m_ID m = k;
  inv_wf k m : v_members v !! k = Some m → wf_member m;
  inv_single : single_owner (v_members v);
}.

Lemma owner_in_true hid m :
  owner_in hid m = true ↔
  m_HouseholdID m = hid ∧ m_IsAccountOwner m = true ∧ m_Status m ≠ StatusRemoved.
Proof. unfold owner_in. rewrite !andb_true_iff, !bool_decide_eq_true. naive_solver. Qed.

Lemma manager_in_true hid m :
  manager_in hid m = true ↔
  m_HouseholdID m = hid ∧ m_IsManager m = true ∧ m_Status m ≠ StatusRemoved.
Proof. unfold manager_in. rewrite !andb_true_iff, !bool_decide_eq_true. naive_solver. Qed.

(** Writing one row keeps the single owner when that row is no owner, or when
    no other row of its household is. *)
Lemma single_owner_insert id m ms :
  single_owner ms →
  (∀ hid, owner_in hid m = true → ∀ k x, k ≠ id → ms !! k = Some x → owner_in hid x = false) →
  single_owner (<[id := m]> ms).
Proof.
  intros Hs Hm hid i j x y Hx Hy Ox Oy.
  rewrite lookup_insert_Some in Hx, Hy.
  destruct Hx as [[<- <-]|[Hi Hx]], Hy as [[<- <-]|[Hj Hy]]; [done|..].
  - specialize (Hm hid Ox j y). rewrite Hm in Oy; done.
  - specialize (Hm hid Oy i x). rewrite Hm in Ox; done.
  - by apply (Hs hid i j x y).
Qed.

Lemma household_inv_insert v id m :
  household_inv v → m_ID m = id → wf_member m →
  (∀ hid, owner_in hid m = true →
     ∀ k x, k ≠ id → v_members v !! k = Some x → owner_in hid x = false) →
  household_inv (with_members (<[id := m]> (v_members v)) v).
Proof.
  intros [Hk Hw Hs] Hid Hwf Ho. split; cbn.
  - intros k x. rewrite lookup_insert_Some. naive_solver.
  - intros k x. rewrite lookup_insert_Some. naive_solver.
  - by apply single_owner_insert.
Qed.

(** The invariant speaks of the members only. *)
Lemma household_inv_members v v' :
  v_members v' = v_members v → household_inv v → household_inv v'.
Proof. intros Hv [Hk Hw Hs]. split; rewrite Hv; done. Qed.

Lemma no_owner_elsewhere hid ms k x :
  ¬ has_owner hid ms → ms !! k = Some x → owner_in hid x = false.
Proof.
  intros Hn Hx. apply not_true_iff_false. intros Ho. apply Hn. by exists k, x.
Qed.

Lemma demote_not_owner hid hid' m :
  owner_in hid' (demote hid m) = true → hid' ≠ hid ∧ owner_in hid' m = true.
Proof.
  unfold demote. destruct (bool_decide _ && _) eqn:E; rewrite !owner_in_true; cbn; [naive_solver|].
  rewrite andb_false_iff, bool_decide_eq_false in E. naive_solver congruence.
Qed.

Lemma demote_frame hid m :
  m_ID (demote hid m) = m_ID m ∧ m_HouseholdID (demote hid m) = m_HouseholdID m ∧
  m_IsManager (demote hid m) = m_IsManager m ∧ m_Status (demote hid m) = m_Status m ∧
  (wf_member m → wf_member (demote hid m)).
Proof.
  unfold demote. destruct (_ && _); cbn; [|done]. split_and!; try done.
  unfold wf_member; cbn. naive_solver.
Qed.

Lemma inv_DeleteHousehold id v v' :
  v_members v' = filter (λ '(_, m), m_HouseholdID m ≠ id) (v_members v) →
  household_inv v → household_inv v'.
Proof.
  intros Hv [Hk Hw Hs].
  assert (∀ k m, v_members v' !! k = Some m → v_members v !! k = Some m) as Hsub.
  { intros k m. rewrite Hv. by intros [? _]%map_lookup_filter_Some. }
  split; [eauto..|]. intros hid i j m m' Hm Hm'. apply (Hs hid); eauto.
Qed.

Lemma inv_UpdateMemberRole v id m role mgr own caps :
  household_inv v → v_members v !! id = Some m → Role_Valid role = true →
  capable role mgr own → (role = RoleChild → m_Birthdate m ≠ None) →
  (own = true → m_IsAccountOwner m = false →
     ∀ k x, k ≠ id → v_members v !! k = Some x → owner_in (m_HouseholdID m) x = false) →
  household_inv (with_members (<[id := with_role role mgr own caps m]> (v_members v)) v).
Proof.
  intros Hinv Hm Hr Hcap Hb Hown. destruct Hinv as [Hk Hw Hs] eqn:E; clear E.
  apply household_inv_insert; [done|cbn; by apply Hk| |].
  - destruct (Hw _ _ Hm) as (_ & Hst & _). split_and!; [done|done|]. cbn.
    intros Hch. destruct (Hcap Hch). auto.
  - intros hid Ho k x Hne Hx. apply owner_in_true in Ho as (<- & Ho & Hst). cbn in *.
    destruct (m_IsAccountOwner m) eqn:Hmo; [|by eapply Hown].
    apply not_true_iff_false. intros Hox. apply Hne. symmetry.
    eapply (Hs (m_HouseholdID m) id k m x); [done..| |done]. by apply owner_in_true.
Qed.

Lemma inv_SetAccountOwner v id m :
  household_inv v → v_members v !! id = Some m → m_Role m ≠ RoleChild →
  household_inv (with_members
    (<[id := with_owner true m]> (demote (m_HouseholdID m) <$> v_members v)) v).
Proof.
  intros [Hk Hw Hs] Hm Hr. split; cbn.
  - intros k x. rewrite lookup_insert_Some, lookup_fmap_Some.
    intros [[<- <-]|[_ (y & <- & Hy)]]; [cbn; by apply Hk|].
    destruct (demote_frame (m_HouseholdID m) y) as [-> _]. by apply Hk.
  - intros k x. rewrite lookup_insert_Some, lookup_fmap_Some.
    intros [[<- <-]|[_ (y & <- & Hy)]]; [|apply demote_frame; by eapply Hw].
    destruct (Hw _ _ Hm) as (Hrole & Hst & _). by split_and!.
  - apply single_owner_insert.
    + intros hid' i j x y. rewrite !lookup_fmap_Some. intros (x' & <- & Hx) (y' & <- & Hy) Ox Oy.
      apply demote_not_owner in Ox as [_ Ox], Oy as [_ Oy]. by apply (Hs hid' i j x' y').
    + intros hid' Ho k x Hne. rewrite lookup_fmap_Some. intros (y & <- & Hy).
      apply owner_in_true in Ho as (Hh & _). cbn in Hh. apply not_true_iff_false. intros Ho'.
      apply demote_not_owner in Ho' as [Hneq _]. congruence.
Qed.

Lemma spec_inv op v v' : spec op v v' → household_inv v → household_inv v'.
Proof.
  intros Hspec Hinv. destruct Hspec as
    [|ac name o md v h m Hvalid Hadult Hnh Hnm Href Hhid Hi Hrole Hst Hmg Ho| |
     |ac given v m Hr Hst Hb Hcap Hnew Hh Hi Hrole Hmg Hown Ho| | |ac id v m t Hm Ho Hlast| |];
    try by (eapply household_inv_members; [|exact Hinv]).
  - eapply (household_inv_members (with_members (<[m_ID m := m]> (v_members v)) v)); [done|].
    apply household_inv_insert; [done..| |].
    + unfold wf_member. rewrite Hrole, Hst. by split_and!.
    + intros hid Hown k x Hne Hx. apply owner_in_true in Hown as (<- & _ & _).
      apply not_true_iff_false. rewrite owner_in_true. intros (Hh & _).
      apply (Href k x Hx). congruence.
  - by eapply inv_DeleteHousehold.
  - apply household_inv_insert; [done|done| |].
    + split_and!; [done..|]. intros Hch. destruct (Hcap Hch). auto.
    + intros hid Hown' k x Hne Hx. apply owner_in_true in Hown' as (<- & Hown' & Hst').
      eapply no_owner_elsewhere; [by apply Ho|done].
  - by eapply inv_UpdateMemberRole.
  - subst. by eapply inv_SetAccountOwner.
  - apply household_inv_insert; [done|cbn; by eapply inv_key| |].
    + destruct (inv_wf _ Hinv _ _ Hm) as (Hr & _ & Hc). by split_and!.
    + intros hid Hown. apply owner_in_true in Hown as (_ & _ & Hst). by cbn in Hst.
Qed.

(** ** The lower bound: an account owner and a manager *)

Definition provisioned (hid : uuid) (v : view) : Prop :=
  has_owner hid (v_members v) ∧ has_manager hid (v_members v).

(** Replacing a row keeps an owner when the old row was none or the new one is. *)
Lemma has_owner_insert hid id m ms :
  has_owner hid ms →
  (∀ old, ms !! id = Some old → owner_in hid old = true → owner_in hid m = true) →
  has_owner hid (<[id := m]> ms).
Proof.
  intros (k & x & Hx & Ho) Hkeep. destruct (decide (k = id)) as [->|Hne].
  - exists id, m. rewrite lookup_insert_eq. eauto.
  - exists k, x. by rewrite lookup_insert_ne.
Qed.

(** A second manager survives any change of one row. *)
Lemma has_manager_insert hid id m ms :
  has_manager hid ms →
  (∀ old, ms !! id = Some old → manager_in hid old = true →
     manager_in hid m = true ∨ 1 < size (managers hid ms)) →
  has_manager hid (<[id := m]> ms).
Proof.
  intros (k & x & Hx & Hmg) Hkeep. destruct (decide (k = id)) as [->|Hne].
  - destruct (Hkeep _ Hx Hmg) as [Hm|Hsize]; [exists id, m; by rewrite lookup_insert_eq|].
    destruct (decide (delete id (managers hid ms) = ∅)) as [Hem|Hem].
    + assert (size (managers hid ms) = 1); [|lia].
      assert (managers hid ms !! id = Some x) as Hl by (by apply map_lookup_filter_Some).
      by rewrite <-(insert_delete_id _ _ _ Hl), Hem, map_size_insert_None, map_size_empty.
    + apply map_choose in Hem as (j & y & Hy). apply lookup_delete_Some in Hy as [Hj Hy].
      apply map_lookup_filter_Some in Hy as [Hy Hmy]. exists j, y. by rewrite lookup_insert_ne.
  - exists k, x. by rewrite lookup_insert_ne.
Qed.

Lemma provisioned_SetAccountOwner hid id m v :
  provisioned hid v → v_members v !! id = Some m → m_Status m ≠ StatusRemoved →
  provisioned hid (with_members
    (<[id := with_owner true m]> (demote (m_HouseholdID m) <$> v_members v)) v).
Proof.
  intros [Ho Hmg] Hm Hst. split; cbn.
  - destruct (decide (m_HouseholdID m = hid)) as [Heq|Hne].
    { exists id, (with_owner true m). rewrite lookup_insert_eq. split; [done|].
      by apply owner_in_true. }
    apply has_owner_insert.
    + destruct Ho as (k & x & Hx & Hox). exists k, (demote (m_HouseholdID m) x).
      rewrite lookup_fmap, Hx. split; [done|]. unfold demote.
      destruct (_ && _) eqn:E; [|done]. apply andb_true_iff in E as [E _].
      apply bool_decide_eq_true in E. apply owner_in_true in Hox. naive_solver congruence.
    + intros old. rewrite lookup_fmap_Some. intros (y & <- & Hy) [_ Hoy]%demote_not_owner.
      rewrite owner_in_true in *; cbn. naive_solver congruence.
  - apply has_manager_insert.
    + destruct Hmg as (k & x & Hx & Hmx). exists k, (demote (m_HouseholdID m) x).
      rewrite lookup_fmap, Hx. split; [done|].
      destruct (demote_frame (m_HouseholdID m) x) as (_ & E1 & E2 & E3 & _).
      by rewrite manager_in_true, E1, E2, E3, <-manager_in_true.
    + intros old. rewrite lookup_fmap_Some. intros (y & <- & Hy).
      destruct (demote_frame (m_HouseholdID m) y) as (_ & E1 & E2 & E3 & _). simplify_eq.
      rewrite !manager_in_true, E1, E2, E3; cbn. by left.
Qed.

Lemma spec_provisioned hid op v v' :
  (∀ ac, op ≠ MDeleteHousehold ac hid) → spec op v v' → provisioned hid v → provisioned hid v'.
Proof.
  intros Hnd Hspec [Ho Hmg]. destruct Hspec as
    [|ac name o md v h m Hvalid Hadult Hnh Hnm| |ac id v v' Hh Hv
     |ac given v m Hr Hst Hb Hcap Hnew
     |ac id role mgr own caps caps' v m Hm Hst Hr Hcap Hb Hown Hlast Huniq
     |ac hid' id v m Hm Hh Hst Hr|ac id v m t Hm Hno Hlast| |]; try done.
  - split; cbn; [apply has_owner_insert|apply has_manager_insert]; naive_solver congruence.
  - assert (id ≠ hid) as Hne by (intros ->; by apply (Hnd ac)). split; rewrite Hv.
    + destruct Ho as (k & x & Hx & Hox). exists k, x. split; [|done].
      apply map_lookup_filter_Some. split; [done|]. apply owner_in_true in Hox. naive_solver.
    + destruct Hmg as (k & x & Hx & Hmx). exists k, x. split; [|done].
      apply map_lookup_filter_Some. split; [done|]. apply manager_in_true in Hmx. naive_solver.
  - split; cbn; [apply has_owner_insert|apply has_manager_insert]; naive_solver congruence.
  - split; cbn; [apply has_owner_insert|apply has_manager_insert]; try done; intros old Hold.
    + rewrite !owner_in_true; cbn. naive_solver.
    + rewrite !manager_in_true; cbn. simplify_eq. intros (<- & Hmgr & _).
      destruct mgr; [by left|right; by apply Hlast].
  - subst. by apply provisioned_SetAccountOwner.
  - split; cbn; [apply has_owner_insert|apply has_manager_insert]; try done; intros old Hold.
    + rewrite !owner_in_true; cbn. naive_solver congruence.
    + rewrite manager_in_true. simplify_eq. intros (<- & Hmgr & _). right. by apply Hlast.
Qed.

(** ** Runs of the service *)

Section runs.
Context {U : UuidText} {St : Type} {S : Store St} {L : StoreLaws St S}.

(** One call, successful or not; [ops] lists the calls made. *)
Inductive service_run : Service St → list mutation → Service St → Prop :=
  | service_nil s : service_run s [] s
  | service_call s ops s1 e op r s2 :
      service_run s ops s1 → fresh_env e (view_at s1) → call e op s1 = (r, s2) →
      service_run s (ops ++ [op]) s2.

Lemma run_keeps (P : view → Prop) s ops s' :
  service_run s ops s' →
  (∀ op v v', op ∈ ops → spec op v v' → P v → P v') →
  P (view_at s) → P (view_at s').
Proof.
  induction 1 as [s|s ops s1 e op r s2 Hrun IH Hf Hc]; intros Hstep HP; [done|].
  assert (P (view_at s1)) as H1.
  { apply IH; [|done]. intros op' v v' Hin. apply Hstep. set_solver. }
  pose proof (call_implements _ _ _ _ _ Hf Hc) as Himp.
  destruct r; [destruct Himp as [Hs _]|destruct Himp as [-> _]; done].
  eapply Hstep; [|done..]. set_solver.
Qed.

(** C8: over any lawful store, every mutation implements its specification: a
    successful call meets the specification's guards and has exactly its
    effect on the tables, and the audit trail grows by one signed event per
    specified action; a failing call changes no table and emits nothing. *)
Theorem household_call_refines_spec e op (s : Service St) r s' :
  fresh_env e (view_at s) → call e op s = (r, s') →
  match r with
  | Ok _ => spec op (view_at s) (view_at s') ∧ audited op (auditor s) (auditor s')
  | Err _ => view_at s' = view_at s ∧ auditor s' = auditor s
  end.
Proof. apply call_implements. Qed.

(** From empty tables, whatever calls are made, every stored member has a
    known role and status, every child has a birthdate and no capability, and
    no household ever has two account owners that are not removed. *)
Theorem household_invariant (s : Service St) ops s' :
  v_members (view_at s) = ∅ → service_run s ops s' →
  (∀ k m, v_members (view_at s') !! k = Some m → m_ID m = k ∧ wf_member m) ∧
  single_owner (v_members (view_at s')).
Proof.
  intros Hem Hrun. assert (household_inv (view_at s')) as [Hk Hw Hs].
  { apply (run_keeps household_inv _ _ _ Hrun); [intros; by eapply spec_inv|].
    split; rewrite Hem; [done..|]. intros ?????. done. }
  split; [|done]. intros k m Hm. eauto.
Qed.

(** C16: a household made by [CreateHouseholdWithOwner] keeps exactly one
    account owner and at least one manager through every later sequence of
    calls that does not delete it. *)
Theorem household_keeps_owner_and_manager (s : Service St) e ac name o md h m s1 ops s2 :
  household_inv (view_at s) → fresh_env e (view_at s) →
  CreateHouseholdWithOwner e ac name o md s = (Ok (h, m), s1) →
  service_run s1 ops s2 → (∀ ac', MDeleteHousehold ac' (h_ID h) ∉ ops) →
  (∃ k x, v_members (view_at s2) !! k = Some x ∧ owner_in (h_ID h) x = true ∧
     ∀ j y, v_members (view_at s2) !! j = Some y → owner_in (h_ID h) y = true → j = k) ∧
  has_manager (h_ID h) (v_members (view_at s2)).
Proof.
  intros Hinv Hf Hc Hrun Hnd.
  assert (call e (MCreateHouseholdWithOwner ac name o md) s = (Ok tt, s1)) as Hcall.
  { cbn. unfold mbind, prog_bind. by rewrite Hc. }
  pose proof (call_implements _ _ _ _ _ Hf Hcall) as [Hspec _].
  assert (household_inv (view_at s2)) as Hinv2.
  { apply (run_keeps household_inv _ _ _ Hrun); [intros; by eapply spec_inv|].
    by eapply spec_inv. }
  assert (provisioned (h_ID h) (view_at s2)) as [(k & x & Hx & Ho) Hm].
  { apply (run_keeps _ _ _ _ Hrun).
    - intros op v v' Hin. apply spec_provisioned. intros ac' ->. by apply (Hnd ac').
    - destruct (CreateHouseholdWithOwner_row _ _ _ _ _ _ _ _ _ Hf Hc) as (Hrow & Hh & Hst & Hmg & How).
      split; exists (m_ID m), m; rewrite ?owner_in_true, ?manager_in_true, Hst; done. }
  split; [|done]. exists k, x. split_and!; [done..|].
  intros j y Hy Hoy. by eapply (inv_single _ Hinv2 (h_ID h)).
Qed.
End runs.

(** ** The in-memory store is lawful *)

Definition memory_view (s : inMemoryHouseholdStore) : view :=
  {| v_households := households s; v_members := members s; v_links := parentLinks s |}.

Lemma delete_members_of_Some id l ms k m :
  delete_members_of id l ms !! k = Some m ↔
  ms !! k = Some m ∧ ∀ x, (k, x) ∈ l → m_HouseholdID x ≠ id.
Proof.
  revert ms. induction l as [|[j x] l IH]; intros ms; cbn.
  - split; [|naive_solver]. intros. split; [done|]. by intros ? ?%not_elem_of_nil.
  - unfold delete_members_of in IH. rewrite IH. setoid_rewrite elem_of_cons.
    case_bool_decide as Hx; rewrite ?lookup_delete_Some; naive_solver.
Qed.

Lemma delete_members_of_range (R : MapRange) id ms :
  delete_members_of id (range ms) ms = filter (λ '(_, m), m_HouseholdID m ≠ id) ms.
Proof.
  apply map_eq. intros k. apply option_eq. intros m.
  rewrite delete_members_of_Some, map_lookup_filter_Some.
  setoid_rewrite elem_of_range. naive_solver congruence.
Qed.

Lemma demote_owners_lookup hid l ms k :
  NoDup l.*1 → (∀ j x, (j, x) ∈ l → ms !! j = Some x) →
  demote_owners hid l ms !! k =
  (if decide (k ∈ l.*1) then demote hid <$> ms !! k else ms !! k).
Proof.
  revert ms. induction l as [|[j x] l IH]; intros ms Hnd Hin; cbn in *.
  { case_decide as Hk; [by apply not_elem_of_nil in Hk|done]. }
  apply NoDup_cons in Hnd as [Hj Hnd].
  set (ms' := if _ : bool then _ else ms).
  assert (∀ i, i ≠ j → ms' !! i = ms !! i) as Hother.
  { intros i Hi. unfold ms'. destruct (_ && _); [by apply lookup_insert_ne|done]. }
  assert (ms' !! j = demote hid <$> ms !! j) as Hhere.
  { unfold ms', demote. rewrite (Hin j x) by set_solver. cbn.
    destruct (_ && _); [by rewrite lookup_insert_eq|]. apply Hin. set_solver. }
  fold (demote_owners hid l ms'). rewrite IH; [|done|].
  - destruct (decide (k = j)) as [->|Hk].
    + rewrite decide_False by done. rewrite decide_True by set_solver. done.
    + rewrite Hother by done. do 2 case_decide; set_solver.
  - intros i y Hi. rewrite Hother; [apply Hin; set_solver|]. intros ->.
    apply Hj, list_elem_of_fmap. by exists (j, y).
Qed.

Lemma demote_owners_range (R : MapRange) hid ms :
  demote_owners hid (range ms) ms = demote hid <$> ms.
Proof.
  apply map_eq. intros k. rewrite lookup_fmap, demote_owners_lookup; auto with go.
  - case_decide as Hk; [done|]. destruct (ms !! k) as [m|] eqn:Hm; [|done].
    exfalso. apply Hk, list_elem_of_fmap. exists (k, m). by rewrite elem_of_range.
  - intros j x. by rewrite elem_of_range.
Qed.

Lemma any_owner_false (R : MapRange) hid ms :
  any (owner_in hid) (range_values ms) = false → ¬ has_owner hid ms.
Proof.
  rewrite any_false. intros Hall (k & m & Hm & Ho). rewrite Hall in Ho; [done|].
  apply elem_of_range_values. eauto.
Qed.

#[export] Program Instance memory_StoreLaws : StoreLaws inMemoryHouseholdStore memory_Store := {|
  view_of := memory_view
|}.
Next Obligation.
  intros e h s r s' [] Hc. cbv in Hc. simplify_eq/=. done.
Qed.
Next Obligation.
  intros e h m s r s' [Hh Hm Hr Hl] Hst Hc. unfold st_CreateHouseholdWithOwner in Hc; cbn in Hc.
  unfold mem_CreateHouseholdWithOwner in Hc. cbn in Hc. rewrite bool_decide_false in Hc by done.
  prog_cases; [|done]. split_and!; try done. intros k x Hx. by eapply Hr.
Qed.
Next Obligation.
  intros e h s r s' Hc. cbn in Hc. unfold mem_UpdateHousehold in Hc. prog_cases; [|done].
  by split_and!.
Qed.
Next Obligation.
  intros e id s r s' Hc. cbn in Hc. unfold mem_DeleteHousehold in Hc. prog_cases.
  split; [done|]. apply delete_members_of_range.
Qed.
Next Obligation.
  intros e m s r s' [Hh Hm Hr Hl] Hc. cbn in Hc. unfold mem_AddMember in Hc. prog_cases; [|done].
  split_and!; try done. intros Hown _. eapply any_owner_false. by rewrite Hown in *.
Qed.
Next Obligation.
  intros id s. exists s. cbn. unfold mem_GetMember. by destruct (members s !! id).
Qed.
Next Obligation.
  intros e id role mgr own caps s r s' Hc. cbn in Hc. unfold mem_UpdateMemberRole in Hc.
  destruct (members s !! id) as [m|] eqn:Hm; [|by simplify_eq].
  destruct (_ && _) eqn:Hany; simplify_eq; [done|]. exists m. split_and!; try done.
  intros -> Hno k x Hne Hx. rewrite Hno in Hany. cbn in Hany. rewrite any_false in Hany.
  specialize (Hany (k, x)). rewrite elem_of_range in Hany. specialize (Hany Hx). cbn in Hany.
  by rewrite bool_decide_true in Hany.
Qed.
Next Obligation.
  intros e id s r s' Hc. cbn in Hc. unfold mem_RemoveMember in Hc. prog_cases; [|done]. eauto.
Qed.
Next Obligation.
  intros e hid s r s' Hc. cbn in Hc. unfold mem_CountManagers in Hc. prog_cases.
  split; [done|]. apply count_range_values.
Qed.
Next Obligation.
  intros e hid id s r s' Hc. cbn in Hc. unfold mem_SetAccountOwner in Hc.
  destruct (members s !! id) as [m|] eqn:Hm; [|by simplify_eq].
  destruct (_ || _) eqn:Hbad; simplify_eq; [done|].
  rewrite orb_false_iff, !bool_decide_eq_false in Hbad. destruct Hbad as [Hh Hst].
  apply dec_stable in Hh. exists m. split_and!; try done. by rewrite demote_owners_range.
Qed.
Next Obligation.
  intros e c p s r s' _ Hc. cbv in Hc. simplify_eq. done.
Qed.
Next Obligation.
  intros e id s r s' Hc. cbn in Hc. unfold mem_RevokeParentOfRecord in Hc. prog_cases; [|done]. eauto.
Qed.

(** ** Reads of the in-memory store *)

#[export] Instance added_before_StrictWeak : StrictWeak added_before.
Proof.
  split; unfold added_before, Before; intros *.
  - rewrite bool_decide_eq_true, bool_decide_eq_false. lia.
  - rewrite !bool_decide_eq_false. lia.
Qed.

(** [ListMembers] over the in-memory store returns, for every iteration
    order of the map, exactly the members of the household that are not
    removed, each once, oldest first, and changes nothing. *)
Theorem memory_ListMembers_exact {U : UuidText} e hid (s : Service inMemoryHouseholdStore) :
  ∃ l, ListMembers e hid s = (Ok l, s) ∧
    StronglySorted (λ m m', m_AddedAt m ≤ m_AddedAt m')%Z l ∧
    l ≡ₚ (filter (λ m, member_in hid m = true) (map_to_list (members (store s))).*2).
Proof.
  eexists. split; [by destruct s|]. split.
  - eapply StronglySorted_mono; [|apply sort_slice_sorted, _].
    intros a b. unfold may_precede, added_before, Before. rewrite bool_decide_eq_false. lia.
  - rewrite sort_slice_perm. unfold range_values. by rewrite range_perm.
Qed.

(** [GetHouseholdForIdentity] over the in-memory store returns a
    membership of the identity that no other current membership predates,
    with its household, and reports ErrNotFound exactly when the identity has
    no current membership or the household row of the one found is missing. *)
Theorem memory_GetHouseholdForIdentity_earliest {U : UuidText} e id
    (s : Service inMemoryHouseholdStore) :
  (∃ h m k, GetHouseholdForIdentity e id s = (Ok (h, m), s) ∧
     members (store s) !! k = Some m ∧ member_as id m = true ∧
     households (store s) !! m_HouseholdID m = Some h ∧
     ∀ j x, members (store s) !! j = Some x → member_as id x = true →
       (m_AddedAt m ≤ m_AddedAt x)%Z) ∨
  (GetHouseholdForIdentity e id s = (Err (Sentinel ErrNotFound), s) ∧
     ((∀ j x, members (store s) !! j = Some x → member_as id x = false) ∨
      ∃ k m, members (store s) !! k = Some m ∧ member_as id m = true ∧
        households (store s) !! m_HouseholdID m = None)).
Proof.
  destruct s as [st em]. unfold GetHouseholdForIdentity, on_store, zoom. cbn.
  unfold mem_GetHouseholdForIdentity.
  pose proof (keep_best_spec (member_as id) added_before
    (range_values (R := order e) (members st))) as Hbest.
  unfold earlier_membership. destruct (foldl _ _ _) as [f|].
  - destruct Hbest as (Hin & Has & Hl). apply elem_of_range_values in Hin as [k Hk].
    destruct (households st !! m_HouseholdID f) as [h|] eqn:Hh.
    + left. exists h, f, k. split_and!; try done. intros j x Hx Hax.
      assert (added_before x f = false) as Hle by (apply Hl; [apply elem_of_range_values|]; eauto).
      apply bool_decide_eq_false in Hle. lia.
    + right. split; [done|]. right. by exists k, f.
  - right. split; [done|]. left. intros j x Hx. apply Hbest, elem_of_range_values. eauto.
Qed.

(** Deleting a household from the in-memory store leaves every
    parent-of-record link in place, so the links of its children are still
    listed although their member rows are gone. *)
Theorem memory_DeleteHousehold_keeps_links {U : UuidText} e e' ac hid
    (s : Service inMemoryHouseholdStore) child :
  let s' := (DeleteHousehold e ac hid s).2 in
  (∀ k m, members (store s') !! k = Some m → m_HouseholdID m ≠ hid) ∧
  (ListParentsOfRecord e' child s').1 = (ListParentsOfRecord e' child s).1.
Proof.
  split; [|done]. intros k m.
  change (members (store (DeleteHousehold e ac hid s).2)) with
    (delete_members_of hid (range (MapRange := order e) (members (store s))) (members (store s))).
  rewrite delete_members_of_range.
  by intros [_ ?]%map_lookup_filter_Some.
Qed.

(** ** Witnesses *)

Lemma fresh_env_above e v (b : N) :
  (∀ n, b ≤ new_id e n)%N →
  map_Forall (λ k _, k < b)%N (v_households v) →
  map_Forall (λ k m, k < b ∧ m_HouseholdID m < b)%N (v_members v) →
  map_Forall (λ k _, k < b)%N (v_links v) → fresh_env e v.
Proof.
  intros Hb Hh Hm Hl. split.
  - intros n. apply eq_None_not_Some. intros [x Hx%Hh]. specialize (Hb n). cbn in *. lia.
  - intros n. apply eq_None_not_Some. intros [x Hx%Hm]. specialize (Hb n). cbn in *. lia.
  - intros n k m Hk%Hm. specialize (Hb n). cbn in *. lia.
  - intros n. apply eq_None_not_Some. intros [x Hx%Hl]. specialize (Hb n). cbn in *. lia.
Qed.

Definition example_env (base : N) : Env :=
  {| now := Z.of_N base; new_id n := (base + N.of_nat n)%N; order := canonical_range |}.
Definition example_ac : AuditContext :=
  {| ac_CompanyID := 1; ac_ActorID := 2; ac_IPAddress := "10.0.0.1" |}.
Definition example_owner : OwnerInput :=
  {| o_IdentityID := 7; o_Role := RoleGuardian; o_Birthdate := None |}.
Definition example_start : Service inMemoryHouseholdStore :=
  NewService newInMemoryHouseholdStore true.
Definition example_create : mutation :=
  MCreateHouseholdWithOwner example_ac "Doe" example_owner None.
(** The sole owner and manager tries to give up the manager capability. *)
Definition example_demote : mutation :=
  MUpdateMemberRole example_ac 101 RoleGuardian false true None.
Definition example_created : Service inMemoryHouseholdStore :=
  (call (U := binary_uuid_text) (example_env 100) example_create example_start).2.

Lemma example_fresh_start b : fresh_env (example_env b) (view_at example_start).
Proof. by split. Qed.
Lemma example_fresh_created : fresh_env (example_env 200) (view_at example_created).
Proof.
  apply (fresh_env_above _ _ 200); [intros n; cbn; lia|..];
    apply (bool_decide_unpack _); by vm_compute.
Qed.

Lemma household_call_refines_spec_witness :
  spec example_create (view_at example_start) (view_at example_created).
Proof.
  apply (household_call_refines_spec (U := binary_uuid_text) (example_env 100) example_create
           example_start (Ok tt)); [apply example_fresh_start|by vm_compute].
Defined.

Lemma household_invariant_witness : single_owner (v_members (view_at example_created)).
Proof.
  apply (household_invariant (U := binary_uuid_text) example_start [example_create]).
  - by vm_compute.
  - eapply (service_call _ [] example_start (example_env 100) _ (Ok tt)).
    + apply service_nil.
    + apply example_fresh_start.
    + by vm_compute.
Defined.

Lemma household_keeps_owner_and_manager_witness :
  has_manager 100 (v_members (view_at
    (call (U := binary_uuid_text) (example_env 200) example_demote example_created).2)).
Proof.
  destruct (CreateHouseholdWithOwner (U := binary_uuid_text) (example_env 100) example_ac "Doe"
              example_owner None example_start) as [[[h m]|]] eqn:Hc; [|by vm_compute in Hc].
  assert (h_ID h = 100%N) as Hid by (vm_compute in Hc; by simplify_eq).
  rewrite <-Hid.
  eapply (household_keeps_owner_and_manager (U := binary_uuid_text) example_start
    (example_env 100) example_ac "Doe" example_owner None h m _ [example_demote]).
  - split; cbn; [done..|]. by intros ?????.
  - apply example_fresh_start.
  - exact Hc.
  - eapply (service_call _ [] _ (example_env 200) _ _).
    + apply service_nil.
    + replace s with example_created; [apply example_fresh_created|].
      unfold example_created, example_create, call, mbind, prog_bind. by rewrite Hc.
    + replace s with example_created; [apply surjective_pairing|].
      unfold example_created, example_create, call, mbind, prog_bind. by rewrite Hc.
  - intros ac' Hin. apply list_elem_of_singleton in Hin. done.
Defined.
