(* ===== verification/Consent.v ===== *)
(** * The consent ledger (platform/consent and its in-memory store)

    The data of types.go, the store interface of store.go as the class [Ledger],
    every method of service.go over any store, and the in-memory store of
    internal/aoid/composition/inmem_consent.go.  The contract of a store is
    [LedgerLaws]; the in-memory store meets it. *)

From S2P Require Import Prelude AuditLog.

(** ** types.go and store.go *)

Abbreviation Purpose := string (only parsing).
Definition PurposeChildAccountCreation : Purpose := "child_account_creation".
Definition PurposeAITutorInteraction : Purpose := "ai_tutor_interaction".
Definition PurposeMarketingCommunications : Purpose := "marketing_communications".
Definition PurposeDataExport : Purpose := "data_export".
Definition PurposeThirdPartySharing : Purpose := "third_party_sharing".

Record Entry : Type := {
  ID : uuid;
  HouseholdID : uuid;
  PrincipalMemberID : uuid;
  ConsenterMemberID : uuid;
  purpose : Purpose;
  Scope : RawMessage;
  ConsentTextVersion : string;
  Evidence : RawMessage;
  GrantedAt : time;
  RevokesID : option uuid;
  CreatedAt : time;
}.
#[export] Instance Entry_eq_dec : EqDecision Entry.
Proof. solve_decision. Defined.

Definition IsRevocation (e : Entry) : bool := bool_decide (RevokesID e ≠ None).

Record Validity : Type := { Valid : bool; LatestEntry : option Entry }.

Record GrantRequest : Type := {
  g_HouseholdID : uuid;
  g_PrincipalMemberID : uuid;
  g_ConsenterMemberID : uuid;
  g_Purpose : Purpose;
  g_Scope : RawMessage;
  g_ConsentTextVersion : string;
  g_Evidence : RawMessage;
}.

(** The sentinels, and the panic of a slice expression out of range. *)
Inductive consent_error : Type :=
  | ErrNotFound
  | ErrEmptyPurpose
  | ErrAlreadyRevoked (latest : Entry)
  | PanicSliceBounds.
#[export] Instance consent_error_eq_dec : EqDecision consent_error.
Proof. solve_decision. Defined.
Abbreviation cerr := (goerr consent_error) (only parsing).

Definition is_ErrNotFound (e : cerr) : bool := errors_Is e ErrNotFound.
#[global] Arguments is_ErrNotFound : simpl never.

Class Ledger (St : Type) : Type := {
  l_InsertEntry : Env → Entry → prog St cerr Entry;
  l_GetEntry : uuid → prog St cerr Entry;
  l_LatestForPurpose : Env → uuid → Purpose → prog St cerr Entry;
  l_ListForPrincipal : Env → uuid → Z → Z → prog St cerr (list Entry);
  l_ListByPurpose : Env → Purpose → Z → Z → prog St cerr (list Entry);
  l_ListForHousehold : Env → uuid → Z → Z → prog St cerr (list Entry);
}.

(** ** service.go *)

Definition ActionConsentGranted := "consent.granted".
Definition ActionConsentRevoked := "consent.revoked".
Definition ActionConsentRead := "consent.read".
Definition resourceConsent := "consent".

Record Service (St : Type) : Type := { store : St; auditor : auditEmitter }.
Arguments store {St} _.
Arguments auditor {St} _.

Definition NewService {St} (st : St) (logger : bool) : Service St :=
  {| store := st; auditor := if logger then loggerEmitter [] else noopEmitter |}.

Definition raw_default (r : RawMessage) : RawMessage := if raw_empty r then Some "{}" else r.

Section service.
(** [Format] is [time.Time.Format(time.RFC3339)]. *)
Context {U : UuidText} (Format : time → string) {St : Type} {S : Ledger St}.
Abbreviation svc A := (prog (Service St) cerr A) (only parsing).

Definition on_store {A} (m : prog St cerr A) : svc A :=
  zoom store (λ st s, {| store := st; auditor := auditor s |}) m.

(** A call whose error the caller inspects; a panic is not an error value. *)
Definition try_call {A} (m : svc A) : svc (outcome cerr A) := λ s,
  match m s with
  | (Err (Sentinel PanicSliceBounds), s') => (Err (Sentinel PanicSliceBounds), s')
  | (r, s') => (Ok r, s')
  end.

Definition emit (ac : AuditContext) (action : string) (resourceID : uuid)
    (details : gmap string detail) : svc unit :=
  let resID := if bool_decide (resourceID ≠ uuid_Nil) then uuid_String resourceID else "" in
  modify (λ s, {| store := store s;
    auditor := emitter_Log
      (event (uuid_String (ac_CompanyID ac)) (uuid_String (ac_ActorID ac)) action
        resourceConsent resID details (ac_IPAddress ac)) (auditor s) |}).

Definition Grant (e : Env) (ac : AuditContext) (req : GrantRequest) : svc Entry :=
  _ ← reject_if (bool_decide (g_Purpose req = "")) (Sentinel ErrEmptyPurpose);
  let entry := {| ID := uuid_Nil; HouseholdID := g_HouseholdID req;
                  PrincipalMemberID := g_PrincipalMemberID req;
                  ConsenterMemberID := g_ConsenterMemberID req; purpose := g_Purpose req;
                  Scope := raw_default (g_Scope req);
                  ConsentTextVersion := g_ConsentTextVersion req;
                  Evidence := raw_default (g_Evidence req);
                  GrantedAt := 0%Z; RevokesID := None; CreatedAt := 0%Z |} in
  stored ← wrapping "insert consent grant" (on_store (l_InsertEntry e entry));
  _ ← emit ac ActionConsentGranted (ID stored)
        (<["principal_member_id" := DString (uuid_String (PrincipalMemberID stored))]>
        (<["consenter_member_id" := DString (uuid_String (ConsenterMemberID stored))]>
        (<["purpose" := DString (purpose stored)]>
         {["consent_text_version" := DString (ConsentTextVersion stored)]})));
  mret stored.

Definition Revoke (e : Env) (ac : AuditContext) (originalID revokerMemberID : uuid)
    (evidence : RawMessage) : svc Entry :=
  original ← wrapping "get original entry" (on_store (l_GetEntry originalID));
  _ ← reject_if (IsRevocation original) (Errorf "consent: cannot revoke a revocation entry");
  latest ← try_call (on_store
             (l_LatestForPurpose e (PrincipalMemberID original) (purpose original)));
  _ ← match latest with
      | Err err => reject_if (negb (is_ErrNotFound err)) (Wrapf "check latest entry" err)
      | Ok latest =>
          reject_if (IsRevocation latest && bool_decide (RevokesID latest = Some originalID))
            (Sentinel (ErrAlreadyRevoked latest))
      end;
  let rev := {| ID := uuid_Nil; HouseholdID := HouseholdID original;
                PrincipalMemberID := PrincipalMemberID original;
                ConsenterMemberID := revokerMemberID; purpose := purpose original;
                Scope := Scope original; ConsentTextVersion := ConsentTextVersion original;
                Evidence := raw_default evidence;
                GrantedAt := 0%Z; RevokesID := Some originalID; CreatedAt := 0%Z |} in
  stored ← wrapping "insert revocation" (on_store (l_InsertEntry e rev));
  _ ← emit ac ActionConsentRevoked (ID stored)
        (<["original_entry_id" := DString (uuid_String originalID)]>
        (<["principal_member_id" := DString (uuid_String (PrincipalMemberID stored))]>
        (<["revoker_member_id" := DString (uuid_String revokerMemberID)]>
         {["purpose" := DString (purpose stored)]})));
  mret stored.

Definition IsValid (e : Env) (ac : AuditContext) (principalMemberID : uuid) (p : Purpose)
    (at_ : time) : svc Validity :=
  _ ← reject_if (bool_decide (p = "")) (Sentinel ErrEmptyPurpose);
  latest ← try_call (on_store (l_LatestForPurpose e principalMemberID p));
  _ ← emit ac ActionConsentRead principalMemberID
        (<["principal_member_id" := DString (uuid_String principalMemberID)]>
        (<["purpose" := DString p]> {["as_of" := DString (Format at_)]}));
  match latest with
  | Err err =>
      if is_ErrNotFound err then mret {| Valid := false; LatestEntry := None |}
      else throw (Wrapf "latest for purpose" err)
  | Ok latest =>
      if After (GrantedAt latest) at_
      then mret {| Valid := false; LatestEntry := Some latest |}
      else mret {| Valid := negb (IsRevocation latest); LatestEntry := Some latest |}
  end.

Definition ListForPrincipal (e : Env) (ac : AuditContext) (principalMemberID : uuid)
    (limit offset : Z) : svc (list Entry) :=
  entries ← try_call (on_store (l_ListForPrincipal e principalMemberID limit offset));
  _ ← emit ac ActionConsentRead principalMemberID
        (<["principal_member_id" := DString (uuid_String principalMemberID)]>
        (<["operation" := DString "list"]>
        (<["limit" := DInt limit]> {["offset" := DInt offset]})));
  match entries with
  | Err err => throw (Wrapf "list for principal" err)
  | Ok entries => mret entries
  end.

Definition GetEntry (ac : AuditContext) (id : uuid) : svc Entry :=
  entry ← try_call (on_store (l_GetEntry id));
  _ ← emit ac ActionConsentRead id
        (<["entry_id" := DString (uuid_String id)]> {["operation" := DString "get"]});
  of_outcome entry.

(** Every method, with the arguments of the call. *)
Inductive request : Type :=
  | QGrant (ac : AuditContext) (req : GrantRequest)
  | QRevoke (ac : AuditContext) (originalID revoker : uuid) (evidence : RawMessage)
  | QIsValid (ac : AuditContext) (principal : uuid) (p : Purpose) (at_ : time)
  | QListForPrincipal (ac : AuditContext) (principal : uuid) (limit offset : Z)
  | QGetEntry (ac : AuditContext) (id : uuid).

Definition serve (e : Env) (q : request) : svc unit :=
  match q with
  | QGrant ac req => _ ← Grant e ac req; mret tt
  | QRevoke ac o r ev => _ ← Revoke e ac o r ev; mret tt
  | QIsValid ac p pu t => _ ← IsValid e ac p pu t; mret tt
  | QListForPrincipal ac p l o => _ ← ListForPrincipal e ac p l o; mret tt
  | QGetEntry ac id => _ ← GetEntry ac id; mret tt
  end.
End service.

(** ** inmem_consent.go *)

Record inMemoryConsentStore : Type := { entries : gmap uuid Entry }.
Definition newInMemoryConsentStore : inMemoryConsentStore := {| entries := ∅ |}.
Abbreviation mem A := (prog inMemoryConsentStore cerr A) (only parsing).

Definition mem_InsertEntry (e : Env) (x : Entry) : mem Entry :=
  let x := {| ID := new_id e 0; HouseholdID := HouseholdID x;
              PrincipalMemberID := PrincipalMemberID x; ConsenterMemberID := ConsenterMemberID x;
              purpose := purpose x; Scope := Scope x; ConsentTextVersion := ConsentTextVersion x;
              Evidence := Evidence x;
              GrantedAt := if IsZero (GrantedAt x) then now e else GrantedAt x;
              RevokesID := RevokesID x; CreatedAt := now e |} in
  _ ← modify (λ s, {| entries := <[ID x := x]> (entries s) |});
  mret x.

Definition mem_GetEntry (id : uuid) : mem Entry := λ s,
  match entries s !! id with
  | None => (Err (Sentinel ErrNotFound), s)
  | Some x => (Ok x, s)
  end.

(** [a] is more recent than [b]: the comparison of [LatestForPurpose] and of
    [list]. *)
Definition newer (a b : Entry) : bool :=
  After (GrantedAt a) (GrantedAt b)
  || (bool_decide (GrantedAt a = GrantedAt b) && After (CreatedAt a) (CreatedAt b)).

Definition concerns (principal : uuid) (p : Purpose) (x : Entry) : bool :=
  negb (bool_decide (PrincipalMemberID x ≠ principal) || bool_decide (purpose x ≠ p)).

(** One iteration of [LatestForPurpose]. *)
Definition keep_latest (principal : uuid) (p : Purpose) : option Entry → Entry → option Entry :=
  keep_best (concerns principal p) newer.

Definition mem_LatestForPurpose (e : Env) (principal : uuid) (p : Purpose) : mem Entry := λ s,
  match foldl (keep_latest principal p) None (range_values (R := order e) (entries s)) with
  | None => (Err (Sentinel ErrNotFound), s)
  | Some best => (Ok best, s)
  end.

(** [sort.Slice]'s comparison in [list]. *)
Definition listed_before (a b : Entry) : bool :=
  if bool_decide (GrantedAt a ≠ GrantedAt b) then After (GrantedAt a) (GrantedAt b)
  else After (CreatedAt a) (CreatedAt b).

(** [out[offset:]] panics on a negative offset. *)
Definition mem_list (e : Env) (pred : Entry → bool) (limit offset : Z) : mem (list Entry) := λ s,
  let out := sort_slice listed_before
    (filter (λ x, pred x = true) (range_values (R := order e) (entries s))) in
  if bool_decide (Z.of_nat (length out) ≤ offset)%Z then (Ok [], s)
  else if bool_decide (offset < 0)%Z then (Err (Sentinel PanicSliceBounds), s)
  else
    let out := drop_Z offset out in
    let out := if bool_decide (0 < limit)%Z && bool_decide (limit < Z.of_nat (length out))%Z
               then take_Z limit out else out in
    (Ok out, s).

Definition mem_ListForPrincipal (e : Env) (principal : uuid) (limit offset : Z) :=
  mem_list e (λ x, bool_decide (PrincipalMemberID x = principal)) limit offset.
Definition mem_ListByPurpose (e : Env) (p : Purpose) (limit offset : Z) :=
  mem_list e (λ x, bool_decide (purpose x = p)) limit offset.
Definition mem_ListForHousehold (e : Env) (hh : uuid) (limit offset : Z) :=
  mem_list e (λ x, bool_decide (HouseholdID x = hh)) limit offset.

#[export] Instance memory_Ledger : Ledger inMemoryConsentStore := {|
  l_InsertEntry := mem_InsertEntry;
  l_GetEntry := mem_GetEntry;
  l_LatestForPurpose := mem_LatestForPurpose;
  l_ListForPrincipal := mem_ListForPrincipal;
  l_ListByPurpose := mem_ListByPurpose;
  l_ListForHousehold := mem_ListForHousehold;
|}.
