(* ===== verification/ConsentProofs.v ===== *)
(** * Consent ledger correctness

    The contract of a ledger store, the append-only and referential invariants
    of every run of the service over a lawful store, the meaning of [IsValid],
    and two histories on which the service departs from its documentation. *)

From S2P Require Import Prelude AuditLog Consent.

(** ** The contract of a store *)

(** [x] is a most recent entry of the principal for the purpose. *)
Definition is_latest (principal : uuid) (p : Purpose) (L : gmap uuid Entry) (x : Entry) : Prop :=
  (∃ k, L !! k = Some x) ∧ concerns principal p x = true ∧
  ∀ j y, L !! j = Some y → concerns principal p y = true → newer y x = false.

(** The row a store writes for an entry it was given. *)
Record recorded_as (given row : Entry) : Prop := {
  rec_household : HouseholdID row = HouseholdID given;
  rec_principal : PrincipalMemberID row = PrincipalMemberID given;
  rec_purpose : purpose row = purpose given;
  rec_revokes : RevokesID row = RevokesID given;
}.

Class LedgerLaws (St : Type) (S : Ledger St) : Type := {
  ledger : St → gmap uuid Entry;
  law_InsertEntry e x s r s' :
    ledger s !! new_id e 0 = None → l_InsertEntry e x s = (r, s') →
    match r with
    | Err _ => ledger s' = ledger s
    | Ok x' => ledger s !! ID x' = None ∧ recorded_as x x' ∧ ledger s' = <[ID x' := x']> (ledger s)
    end;
  law_GetEntry id s r s' :
    l_GetEntry id s = (r, s') →
    ledger s' = ledger s ∧ match r with Ok x => ledger s !! id = Some x | Err _ => True end;
  law_LatestForPurpose e principal p s r s' :
    l_LatestForPurpose e principal p s = (r, s') →
    ledger s' = ledger s ∧
    match r with
    | Ok x => is_latest principal p (ledger s) x
    | Err err => is_ErrNotFound err = true →
        ∀ k x, ledger s !! k = Some x → concerns principal p x = false
    end;
  law_ListForPrincipal e principal limit offset s r s' :
    l_ListForPrincipal e principal limit offset s = (r, s') → ledger s' = ledger s;
}.

(** The consent in force at [t]: a latest entry up to [t] is a grant. *)
Definition valid_as_of (M : gmap uuid Entry) (principal : uuid) (p : Purpose) (t : time) : Prop :=
  ∃ x, is_latest principal p (filter (λ '(_, y), GrantedAt y ≤ t)%Z M) x ∧ IsRevocation x = false.

(** [is_latest], by evaluation. *)
Lemma is_latest_check principal p L k x :
  L !! k = Some x → concerns principal p x = true →
  bool_decide (map_Forall (λ _ y, concerns principal p y = true → newer y x = false) L) = true →
  is_latest principal p L x.
Proof. intros Hk Hx Hall%bool_decide_eq_true. split_and!; eauto. Qed.

(** ** Append only, with well-formed revocations *)

(** Every revocation points at a grant of the same household, principal and
    purpose, and every row is stored under its identifier. *)
Definition ledger_inv (L : gmap uuid Entry) : Prop :=
  ∀ k x, L !! k = Some x → ID x = k ∧
    ∀ g, RevokesID x = Some g →
      ∃ y, L !! g = Some y ∧ RevokesID y = None ∧ HouseholdID y = HouseholdID x ∧
        PrincipalMemberID y = PrincipalMemberID x ∧ purpose y = purpose x.

(** What a call may do to the ledger. *)
Inductive appends (q : request) (L : gmap uuid Entry) : gmap uuid Entry → Prop :=
  | appends_nothing : appends q L L
  | appends_grant ac req x :
      q = QGrant ac req → L !! ID x = None → RevokesID x = None →
      PrincipalMemberID x = g_PrincipalMemberID req → purpose x = g_Purpose req →
      purpose x ≠ "" → appends q L (<[ID x := x]> L)
  | appends_revocation ac g revoker ev x y :
      q = QRevoke ac g revoker ev → L !! ID x = None → L !! g = Some y → RevokesID y = None →
      RevokesID x = Some g → HouseholdID x = HouseholdID y →
      PrincipalMemberID x = PrincipalMemberID y → purpose x = purpose y →
      appends q L (<[ID x := x]> L).

Lemma appends_subseteq q L L' : appends q L L' → L ⊆ L'.
Proof. destruct 1; [done|by apply insert_subseteq..]. Qed.

Lemma appends_inv q L L' : appends q L L' → ledger_inv L → ledger_inv L'.
Proof.
  intros Ha Hinv. pose proof (appends_subseteq _ _ _ Ha) as Hsub.
  assert (∀ k x, L !! k = Some x → ID x = k ∧ ∀ g, RevokesID x = Some g →
    ∃ y, L' !! g = Some y ∧ RevokesID y = None ∧ HouseholdID y = HouseholdID x ∧
      PrincipalMemberID y = PrincipalMemberID x ∧ purpose y = purpose x) as Hold.
  { intros k x [Hk Hx]%Hinv. split; [done|]. intros g (y & Hy & ?)%Hx.
    exists y. split; [by eapply lookup_weaken|done]. }
  destruct Ha as [|ac req x -> Hn Hr Hpr Hpu Hne|ac g revoker ev x y -> Hn Hy Hg Hr Hh Hpr Hpu];
    [done|intros k z; rewrite lookup_insert_Some..].
  - intros [[<- <-]|[_ Hz]]; [|by apply Hold]. split; [done|]. congruence.
  - intros [[<- <-]|[_ Hz]]; [|by apply Hold]. split; [done|]. intros g' ?.
    exists y. split_and!; try congruence. eapply lookup_weaken; [|done]. congruence.
Qed.

Section laws.
Context {U : UuidText} (Format : time → string) {St : Type} {S : Ledger St} {L : LedgerLaws St S}.
Implicit Types (s : Service St) (e : Env).

Definition ledger_at (s : Service St) : gmap uuid Entry := ledger (store s).

Ltac svc_norm :=
  repeat (cbv [mbind prog_bind mret prog_ret wrapping throw emit modify of_outcome try_call] in *;
          cbn in *).
Ltac svc_step :=
  match goal with
  | H : context [reject_if ?b _ _] |- _ => destruct b eqn:?; cbn [reject_if throw] in H
  | H : context [on_store ?m ?s] |- _ =>
      unfold on_store at 1, zoom in H; destruct (m (store s)) as [[?|[[]|?|? ?]] ?] eqn:?
  | H : context [if is_ErrNotFound ?x then _ else _] |- _ => destruct (is_ErrNotFound x) eqn:?
  | H : context [if After ?x ?y then _ else _] |- _ => destruct (After x y) eqn:?
  | H : (_, _) = (_, _) |- _ => injection H as H; subst
  end.
Ltac use_law :=
  match goal with
  | H : l_GetEntry _ _ = _ |- _ => apply law_GetEntry in H as [? H]
  | H : l_LatestForPurpose _ _ _ _ = _ |- _ => apply law_LatestForPurpose in H as [? H]
  | H : l_ListForPrincipal _ _ _ _ _ = _ |- _ => apply law_ListForPrincipal in H
  | H : l_InsertEntry _ _ _ = _ |- _ =>
      apply law_InsertEntry in H;
      [|by repeat match goal with E : ledger _ = _ |- _ => rewrite E end]
  end.
Ltac run_service := svc_norm; repeat (svc_step; svc_norm); unfold ledger_at in *; cbn in *;
  repeat use_law.

(** Closes the cases in which the ledger did not change. *)
Ltac unchanged :=
  repeat match goal with E : ledger _ = ledger _ |- _ => rewrite E; clear E end; constructor.

Lemma Grant_appends e ac req s r s' :
  ledger_at s !! new_id e 0 = None → Grant e ac req s = (r, s') →
  appends (QGrant ac req) (ledger_at s) (ledger_at s').
Proof.
  intros Hf Hc. unfold Grant in Hc. run_service; try by unchanged.
  destruct Heqp as (Hn & [] & ->). apply bool_decide_eq_false in Heqb. cbn in *.
  eapply appends_grant; try done. congruence.
Qed.

Lemma Revoke_appends e ac g revoker ev s r s' :
  ledger_at s !! new_id e 0 = None → Revoke e ac g revoker ev s = (r, s') →
  appends (QRevoke ac g revoker ev) (ledger_at s) (ledger_at s').
Proof.
  intros Hf Hc. unfold Revoke in Hc. run_service; try by unchanged.
  all: rewrite H0, H in Heqp1; destruct Heqp1 as (Hn & [] & ->); cbn in *;
    apply bool_decide_eq_false, dec_stable in Heqb; by eapply appends_revocation.
Qed.

Lemma IsValid_inv e ac p pu t s r s' :
  IsValid Format e ac p pu t s = (r, s') →
  ledger_at s' = ledger_at s ∧
  match r with
  | Ok v => match LatestEntry v with
            | Some x => is_latest p pu (ledger_at s) x ∧
                Valid v = bool_decide (GrantedAt x ≤ t)%Z && negb (IsRevocation x)
            | None => Valid v = false ∧
                ∀ k x, ledger_at s !! k = Some x → concerns p pu x = false
            end
  | Err _ => True
  end.
Proof.
  intros Hc. unfold IsValid in Hc. run_service; try done.
  all: split; [done|]; split; try done.
  - apply bool_decide_eq_true in Heqb0. by rewrite bool_decide_false by lia.
  - apply bool_decide_eq_false in Heqb0. by rewrite bool_decide_true by lia.
  - by apply Heqp0.
  - by apply Heqp0.
Qed.

Lemma serve_appends e q s r s' :
  ledger_at s !! new_id e 0 = None → serve Format e q s = (r, s') →
  appends q (ledger_at s) (ledger_at s').
Proof.
  intros Hf Hc. destruct q as [ac req|ac g rev ev|ac p pu t|ac p l o|ac id]; cbn in Hc;
    unfold mbind, prog_bind, mret, prog_ret in Hc.
  - destruct (Grant _ _ _ _) as [[] ?] eqn:Hg; simplify_eq; by eapply Grant_appends.
  - destruct (Revoke _ _ _ _ _ _) as [[] ?] eqn:Hg; simplify_eq; by eapply Revoke_appends.
  - destruct (IsValid _ _ _ _ _ _ _) as [[] ?] eqn:Hg; simplify_eq;
      apply IsValid_inv in Hg as [-> _]; constructor.
  - unfold ListForPrincipal in Hc. run_service; by unchanged.
  - unfold GetEntry in Hc. run_service; by unchanged.
Qed.

(** A run: any sequence of calls, successful or not. *)
Inductive consent_step : relation (Service St) :=
  | consent_call e q s r s' :
      ledger_at s !! new_id e 0 = None → serve Format e q s = (r, s') → consent_step s s'.

(** C19: the ledger is append only: over any lawful store, whatever calls are
    made, every row ever written is still there, unchanged; and from an empty
    ledger every revocation points at an existing grant of the same household,
    principal and purpose. *)
Theorem consent_append_only s s' :
  rtc consent_step s s' →
  ledger_at s ⊆ ledger_at s' ∧ (ledger_at s = ∅ → ledger_inv (ledger_at s')).
Proof.
  intros Hrun. split.
  - apply (rtc_preserves consent_step (λ s', ledger_at s ⊆ ledger_at s') s s'); [|done..].
    intros a b [e q a' r b' Hf Hc] Hsub. etrans; [done|].
    eapply appends_subseteq. by eapply serve_appends.
  - intros Hem. apply (rtc_preserves consent_step (λ s', ledger_inv (ledger_at s')) s s'); [|done|].
    + intros a b [e q a' r b' Hf Hc]. eapply appends_inv. by eapply serve_appends.
    + by rewrite Hem.
Qed.

(** Whatever the store holds, [IsValid] answers from a most recent entry:
    the answer is yes exactly when that entry is a grant made no later than
    the requested time, a yes is right as of that time, and the ledger is left
    alone. *)
Theorem IsValid_reads_latest e ac p pu t s r s' :
  IsValid Format e ac p pu t s = (r, s') →
  ledger_at s' = ledger_at s ∧
  match r with
  | Ok v =>
      match LatestEntry v with
      | Some x => is_latest p pu (ledger_at s) x ∧
          Valid v = bool_decide (GrantedAt x ≤ t)%Z && negb (IsRevocation x)
      | None => Valid v = false ∧ ∀ k x, ledger_at s !! k = Some x → concerns p pu x = false
      end ∧ (Valid v = true → valid_as_of (ledger_at s) p pu t)
  | Err _ => True
  end.
Proof.
  intros Hc. apply IsValid_inv in Hc as [-> Hv]. split; [done|]. destruct r as [v|]; [|done].
  split; [done|]. intros Hval. destruct (LatestEntry v) as [x|]; [|by destruct Hv; congruence].
  destruct Hv as [((k & Hk) & Hx & Hmax) Heq]. rewrite Hval in Heq. symmetry in Heq.
  apply andb_true_iff in Heq as [Ht Hg]. apply bool_decide_eq_true in Ht.
  exists x. split; [|by apply negb_true_iff]. split_and!; [|done|].
  - exists k. by apply map_lookup_filter_Some.
  - intros j y [Hy _]%map_lookup_filter_Some. by apply Hmax with j.
Qed.
End laws.

(** ** The in-memory store *)

#[export] Instance newer_StrictWeak : StrictWeak newer.
Proof.
  split; unfold newer, After; intros *;
    rewrite ?orb_true_iff, ?orb_false_iff, ?andb_true_iff, ?andb_false_iff,
      ?bool_decide_eq_true, ?bool_decide_eq_false; lia.
Qed.

#[export] Program Instance memory_LedgerLaws : LedgerLaws inMemoryConsentStore memory_Ledger := {|
  ledger := entries
|}.
Next Obligation. intros e x s r s' Hf Hc. cbv in Hc. by simplify_eq/=. Qed.
Next Obligation.
  intros id s r s' Hc. cbn in Hc. unfold mem_GetEntry in Hc. prog_cases; done.
Qed.
Next Obligation.
  intros e principal p s r s' Hc. cbn in Hc. unfold mem_LatestForPurpose, keep_latest in Hc.
  pose proof (keep_best_spec (concerns principal p) newer (range_values (R := order e) (entries s)))
    as Hbest.
  destruct (foldl _ _ _) as [x|]; simplify_eq; (split; [done|]).
  - destruct Hbest as (Hin & Hx & Hmax). apply elem_of_range_values in Hin. split_and!; [done|done|].
    intros j y Hy. apply Hmax, elem_of_range_values. eauto.
  - intros _ k x Hx. apply Hbest, elem_of_range_values. eauto.
Qed.
Next Obligation.
  intros e principal limit offset s r s' Hc. cbn in Hc.
  unfold mem_ListForPrincipal, mem_list in Hc. prog_cases; done.
Qed.

Section memory.
Context {U : UuidText} (Format : time → string).
Implicit Types (s : Service inMemoryConsentStore).

(** Every entry of the principal for the purpose predates the clock. *)
Definition clock_ahead (e : Env) (principal : uuid) (p : Purpose) (s : Service inMemoryConsentStore)
    : Prop :=
  ∀ k y, entries (store s) !! k = Some y → concerns principal p y = true →
    (GrantedAt y < now e)%Z.

Lemma mem_LatestForPurpose_inv e principal p st r st' :
  mem_LatestForPurpose e principal p st = (r, st') →
  st' = st ∧ match r with
             | Ok x => is_latest principal p (entries st) x
             | Err _ => ∀ k x, entries st !! k = Some x → concerns principal p x = false
             end.
Proof.
  intros Hl. split; [unfold mem_LatestForPurpose in Hl; by case_match; simplify_eq|].
  pose proof (law_LatestForPurpose e principal p st r st' Hl) as [_ Hr].
  destruct r; [done|]. apply Hr. unfold mem_LatestForPurpose in Hl. by case_match; simplify_eq.
Qed.

(** [IsValid] when the store finds [x]. *)
Lemma IsValid_found e ac principal p t x s :
  p ≠ "" → mem_LatestForPurpose e principal p (store s) = (Ok x, store s) →
  ∃ s', IsValid Format e ac principal p t s =
    (Ok {| Valid := bool_decide (GrantedAt x ≤ t)%Z && negb (IsRevocation x);
           LatestEntry := Some x |}, s').
Proof.
  intros Hp Hl. eexists. unfold IsValid. rewrite bool_decide_false by done.
  cbv [mbind prog_bind mret prog_ret wrapping on_store zoom reject_if try_call].
  cbn [store l_LatestForPurpose memory_Ledger emit modify]. rewrite Hl.
  unfold After. destruct (bool_decide (t < GrantedAt x)%Z) eqn:E.
  - apply bool_decide_eq_true in E. by rewrite (bool_decide_false (GrantedAt x ≤ t)%Z) by lia.
  - apply bool_decide_eq_false in E. by rewrite (bool_decide_true (GrantedAt x ≤ t)%Z) by lia.
Qed.

Lemma LatestForPurpose_after_insert e e' x st principal p :
  now e ≠ 0%Z → GrantedAt x = 0%Z → concerns principal p x = true →
  (∀ k y, entries st !! k = Some y → concerns principal p y = true → (GrantedAt y < now e)%Z) →
  ∃ x', mem_InsertEntry e x st = (Ok x', {| entries := <[ID x' := x']> (entries st) |}) ∧
    GrantedAt x' = now e ∧ RevokesID x' = RevokesID x ∧
    mem_LatestForPurpose e' principal p {| entries := <[ID x' := x']> (entries st) |} =
      (Ok x', {| entries := <[ID x' := x']> (entries st) |}).
Proof.
  intros Hz H0 Hx Hpast. eexists. split; [done|]. rewrite H0. split_and!; [done..|].
  unfold mem_LatestForPurpose, keep_latest. cbn [entries].
  set (x' := {| ID := _ |}).
  assert (concerns principal p x' = true) as Hx' by done.
  pose proof (keep_best_spec (concerns principal p) newer
    (range_values (R := order e') (<[ID x' := x']> (entries st)))) as Hbest.
  destruct (foldl _ _ _) as [y|].
  - destruct Hbest as (Hin & Hy & Hmax). apply elem_of_range_values in Hin as [k Hk].
    apply lookup_insert_Some in Hk as [[_ <-]|[_ Hk]]; [done|].
    assert (newer x' y = false) as Hold.
    { apply Hmax; [|done]. apply elem_of_range_values. exists (ID x'). by rewrite lookup_insert_eq. }
    specialize (Hpast _ _ Hk Hy). unfold newer, After in Hold. cbn in Hold.
    rewrite bool_decide_true in Hold by done. done.
  - rewrite Hbest in Hx'; [done|]. apply elem_of_range_values. exists (ID x').
    by rewrite lookup_insert_eq.
Qed.

(** Over the in-memory store, a grant made when the clock is past every
    earlier entry of the principal for the purpose succeeds, and from that
    moment on [IsValid] reports the consent valid, citing the new entry. *)
Theorem Grant_makes_valid e e' ac ac' req t s :
  g_Purpose req ≠ "" → now e ≠ 0%Z → (now e ≤ t)%Z →
  clock_ahead e (g_PrincipalMemberID req) (g_Purpose req) s →
  ∃ x s1 s2, Grant e ac req s = (Ok x, s1) ∧
    IsValid Format e' ac' (g_PrincipalMemberID req) (g_Purpose req) t s1 =
      (Ok {| Valid := true; LatestEntry := Some x |}, s2).
Proof.
  intros Hp Hz Ht Hpast. unfold Grant. set (g := {| ID := _ |}).
  assert (concerns (g_PrincipalMemberID req) (g_Purpose req) g = true) as Hg.
  { unfold concerns; cbn. by rewrite !bool_decide_false by auto. }
  destruct (LatestForPurpose_after_insert e e' g (store s) _ _ Hz eq_refl Hg Hpast)
    as (x & Hins & Hgr & Hrev & Hlat).
  edestruct (IsValid_found e' ac' (g_PrincipalMemberID req) (g_Purpose req) t x) as [s2 Hv];
    [done| |exists x; do 2 eexists; split; [|rewrite Hv]].
  2: { rewrite bool_decide_false by done.
       cbv [mbind prog_bind mret prog_ret wrapping on_store zoom reject_if].
       change (l_InsertEntry e g) with (mem_InsertEntry e g). rewrite Hins. done. }
  - exact Hlat.
  - unfold IsRevocation. rewrite Hgr, Hrev. by rewrite bool_decide_true.
Qed.

(** Over the in-memory store, revoking an existing grant when the clock is
    past every earlier entry of its principal and purpose either reports
    ErrAlreadyRevoked, because a latest entry revokes that very grant, or
    succeeds and from then on [IsValid] reports the consent invalid. *)
Theorem Revoke_makes_invalid e e' ac ac' g y revoker ev t s :
  entries (store s) !! g = Some y → IsRevocation y = false → purpose y ≠ "" → now e ≠ 0%Z →
  clock_ahead e (PrincipalMemberID y) (purpose y) s →
  (∃ x, Revoke e ac g revoker ev s = (Err (Sentinel (ErrAlreadyRevoked x)), s) ∧
     is_latest (PrincipalMemberID y) (purpose y) (entries (store s)) x ∧ RevokesID x = Some g) ∨
  (∃ x s1 s2, Revoke e ac g revoker ev s = (Ok x, s1) ∧ RevokesID x = Some g ∧
     IsValid Format e' ac' (PrincipalMemberID y) (purpose y) t s1 =
       (Ok {| Valid := false; LatestEntry := Some x |}, s2)).
Proof.
  intros Hy Hgr Hp Hz Hpast. unfold Revoke.
  cbv [mbind prog_bind mret prog_ret wrapping on_store zoom reject_if try_call].
  cbn [l_GetEntry l_LatestForPurpose l_InsertEntry memory_Ledger].
  unfold mem_GetEntry at 1 2. rewrite Hy, Hgr. cbn [store].
  set (rev := {| ID := _; RevokesID := Some g |}).
  assert (concerns (PrincipalMemberID y) (purpose y) rev = true) as Hc.
  { unfold concerns; cbn. by rewrite !bool_decide_false by auto. }
  destruct (LatestForPurpose_after_insert e e' rev (store s) _ _ Hz eq_refl Hc Hpast)
    as (x & Hins & Hgx & Hrev & Hlat).
  destruct (mem_LatestForPurpose e (PrincipalMemberID y) (purpose y) (store s)) as [[b|err] st']
    eqn:Hb; apply mem_LatestForPurpose_inv in Hb as [-> Hb].
  - destruct (IsRevocation b && bool_decide (RevokesID b = Some g)) eqn:Hbr.
    + left. exists b. apply andb_true_iff in Hbr as [_ Hbr%bool_decide_eq_true].
      by destruct s.
    + right. edestruct (IsValid_found e' ac' (PrincipalMemberID y) (purpose y) t x) as [s2 Hv];
        [done| |exists x; do 2 eexists; split_and!; [| |rewrite Hv]]; cbn [store].
      2: rewrite Hins; done.
      * exact Hlat.
      * by rewrite Hrev.
      * unfold IsRevocation. rewrite Hrev. by rewrite andb_false_r.
  - specialize (Hb _ _ Hy). unfold concerns in Hb. by rewrite !bool_decide_false in Hb by auto.
Qed.
End memory.

(** ** Two histories *)

Definition example_env (t : time) (id : uuid) : Env :=
  {| now := t; new_id := λ _, id; order := canonical_range |}.
Definition example_ac : AuditContext :=
  {| ac_CompanyID := 1; ac_ActorID := 2; ac_IPAddress := "10.0.0.1" |}.
Definition example_req : GrantRequest :=
  {| g_HouseholdID := 3; g_PrincipalMemberID := 4; g_ConsenterMemberID := 5;
     g_Purpose := PurposeAITutorInteraction; g_Scope := None; g_ConsentTextVersion := "v1";
     g_Evidence := None |}.
Definition example_format (_ : time) : string := "".
Definition example_start : Service inMemoryConsentStore := NewService newInMemoryConsentStore true.
Definition example_serve (t : time) (id : uuid) (q : request)
    (s : Service inMemoryConsentStore) : Service inMemoryConsentStore :=
  (serve (U := binary_uuid_text) example_format (example_env t id) q s).2.

(** Grant 10 at time 10; revoke it at time 20; grant 30 at time 30; revoke
    grant 10 once more at time 40. *)
Definition example_granted := example_serve 10 10 (QGrant example_ac example_req) example_start.
Definition example_revoked := example_serve 20 20 (QRevoke example_ac 10 5 None) example_granted.
Definition example_regranted := example_serve 30 30 (QGrant example_ac example_req) example_revoked.
Definition example_rerevoked := example_serve 40 40 (QRevoke example_ac 10 5 None) example_regranted.

Lemma example_step t id q s :
  entries (store s) !! id = None →
  consent_step (U := binary_uuid_text) example_format s (example_serve t id q s).
Proof.
  intros Hf. by eapply (consent_call _ (example_env t id) q); [|apply surjective_pairing].
Qed.

Lemma example_runs :
  rtc (consent_step (U := binary_uuid_text) example_format) example_start example_revoked ∧
  rtc (consent_step (U := binary_uuid_text) example_format) example_start example_rerevoked.
Proof.
  split.
  - do 2 (eapply rtc_r; [|by apply example_step; vm_compute]). apply rtc_refl.
  - do 4 (eapply rtc_r; [|by apply example_step; vm_compute]). apply rtc_refl.
Qed.

(** [IsValid] is not an as-of query: there is a history (a grant at 10, its
    revocation at 20) in which the consent is in force as of 15 and [IsValid]
    for 15 answers no, because it only looks at the overall latest entry. *)
Theorem IsValid_forgets_history :
  ∃ s v s', rtc (consent_step (U := binary_uuid_text) example_format) example_start s ∧
    valid_as_of (entries (store s)) 4 PurposeAITutorInteraction 15 ∧
    IsValid (U := binary_uuid_text) example_format (example_env 50 50) example_ac 4
      PurposeAITutorInteraction 15 s = (Ok v, s') ∧ Valid v = false.
Proof.
  exists example_revoked. do 2 eexists. split_and!; [apply example_runs| |by vm_compute|done].
  eexists. split; [|shelve]. eapply (is_latest_check _ _ _ 10); by vm_compute.
  Unshelve. by vm_compute.
Qed.

(** The already-revoked test of [Revoke] misses a grant revoked before the
    latest entry: after grant, revocation and a new grant, revoking the first
    grant again succeeds, and [IsValid] then reports the consent invalid
    although nothing in the ledger revokes the new grant. *)
Theorem Revoke_again_invalidates_new_grant :
  ∃ s x s1 v s2, rtc (consent_step (U := binary_uuid_text) example_format) example_start s ∧
    map_Exists (λ _ y, RevokesID y = Some 10%N) (entries (store s)) ∧
    Revoke (U := binary_uuid_text) (example_env 40 40) example_ac 10 5 None s = (Ok x, s1) ∧
    map_Forall (λ _ y, RevokesID y ≠ Some 30%N) (entries (store s1)) ∧
    (∃ y, entries (store s1) !! 30%N = Some y ∧ IsRevocation y = false) ∧
    IsValid (U := binary_uuid_text) example_format (example_env 50 50) example_ac 4
      PurposeAITutorInteraction 50 s1 = (Ok v, s2) ∧ Valid v = false.
Proof.
  exists example_regranted. eexists. exists example_rerevoked. do 2 eexists. split_and!.
  - do 3 (eapply rtc_r; [|by apply example_step; vm_compute]). apply rtc_refl.
  - apply map_Exists_lookup. exists 20%N. eexists. split; by vm_compute.
  - by vm_compute.
  - apply (bool_decide_unpack _). by vm_compute.
  - eexists. split; by vm_compute.
  - by vm_compute.
  - done.
Qed.

(** ** Witnesses *)

Lemma consent_append_only_witness : ledger_inv (entries (store example_rerevoked)).
Proof.
  refine (proj2 (consent_append_only (U := binary_uuid_text) example_format example_start
           example_rerevoked _) _); [apply example_runs|by vm_compute].
Defined.

Lemma IsValid_reads_latest_witness :
  ∃ x, is_latest 4 PurposeAITutorInteraction (entries (store example_granted)) x.
Proof.
  destruct (IsValid (U := binary_uuid_text) example_format (example_env 50 50) example_ac 4
    PurposeAITutorInteraction 15 example_granted) as [[v|] s'] eqn:Hv; [|by vm_compute in Hv].
  pose proof (IsValid_reads_latest (U := binary_uuid_text) _ _ _ _ _ _ _ _ _ Hv) as [_ [Hr _]].
  destruct (LatestEntry v) as [x|] eqn:Hx; [exists x; apply Hr|].
  vm_compute in Hv. by simplify_eq.
Defined.

Lemma Grant_makes_valid_witness :
  ∃ x s1 s2, Grant (U := binary_uuid_text) (example_env 30 30) example_ac example_req
               example_revoked = (Ok x, s1) ∧
    IsValid (U := binary_uuid_text) example_format (example_env 50 50) example_ac 4
      PurposeAITutorInteraction 31 s1 = (Ok {| Valid := true; LatestEntry := Some x |}, s2).
Proof.
  apply (Grant_makes_valid (U := binary_uuid_text) example_format (example_env 30 30)
           (example_env 50 50) example_ac example_ac example_req); [done|done|by vm_compute|].
  apply (bool_decide_unpack (map_Forall (λ _ y, concerns 4 PurposeAITutorInteraction y = true →
    (GrantedAt y < 30)%Z) (entries (store example_revoked)))). by vm_compute.
Defined.

Lemma Revoke_makes_invalid_witness :
  (∃ x, Revoke (U := binary_uuid_text) (example_env 20 20) example_ac 10 5 None example_granted =
       (Err (Sentinel (ErrAlreadyRevoked x)), example_granted) ∧
     is_latest 4 PurposeAITutorInteraction (entries (store example_granted)) x ∧
     RevokesID x = Some 10%N) ∨
  (∃ x s1 s2, Revoke (U := binary_uuid_text) (example_env 20 20) example_ac 10 5 None
       example_granted = (Ok x, s1) ∧ RevokesID x = Some 10%N ∧
     IsValid (U := binary_uuid_text) example_format (example_env 50 50) example_ac 4
       PurposeAITutorInteraction 50 s1 = (Ok {| Valid := false; LatestEntry := Some x |}, s2)).
Proof.
  destruct (entries (store example_granted) !! 10%N) as [y|] eqn:Hy; [|by vm_compute in Hy].
  assert (PrincipalMemberID y = 4%N ∧ purpose y = PurposeAITutorInteraction ∧
    IsRevocation y = false) as (Hp & Hpu & Hr) by (vm_compute in Hy; by simplify_eq).
  rewrite <-Hp, <-Hpu. apply (Revoke_makes_invalid (U := binary_uuid_text)); [done|done| |done|].
  - by rewrite Hpu.
  - rewrite Hp, Hpu.
    apply (bool_decide_unpack (map_Forall (λ _ z, concerns 4 PurposeAITutorInteraction z = true →
      (GrantedAt z < 20)%Z) (entries (store example_granted)))). by vm_compute.
Defined.
