(* ===== verification/Jobs.v ===== *)
(** * The job queue (platform/jobs)

    jobs.go: the job record, the store interface ([JobStore]) and the producer
    side ([Queue]); memory_store.go: the in-memory store; worker.go: the worker,
    split where it really runs: a poll that claims a job, the handler, and
    what the worker does with the handler's result.  Observer calls are
    recorded in order.  The whole system (producers and any number of worker
    goroutines over one store) and its theorems are in [JobsProofs]. *)

From S2P Require Import Prelude.

(** ** jobs.go *)

Definition StatusPending : string := "pending".
Definition StatusRunning : string := "running".
Definition StatusCompleted : string := "completed".
Definition StatusFailed : string := "failed".
Definition StatusDead : string := "dead".
Definition PriorityNormal : Z := 0.
Definition PriorityHigh : Z := 1.
Definition DefaultMaxRetries : Z := 3.

Record Job : Type := {
  ID : string;
  Type_ : string;
  Payload : RawMessage;
  Priority : Z;
  MaxRetries : Z;
  Attempts : Z;
  Status : string;
  Error : string;
  LockedBy : string;
  LockedAt : option time;
  ScheduledAt : option time;
  CompletedAt : option time;
  CreatedAt : time;
}.
#[export] Instance Job_eq_dec : EqDecision Job.
Proof. solve_decision. Defined.

(** An error value is its message. *)
Class JobStore (St : Type) : Type := {
  js_Enqueue : Job → prog St string unit;
  js_Dequeue : Env → list string → string → prog St string (option Job);
  js_Complete : Env → string → prog St string unit;
  js_Fail : string → string → prog St string unit;
  js_Retry : string → time → prog St string unit;
  js_MarkDead : string → string → prog St string unit;
  js_Heartbeat : Env → string → string → prog St string unit;
  js_ListJobs : Env → string → Z → prog St string (list Job);
}.

Section queue.
(** [json.Marshal] of a payload of type [P]. *)
Context {U : UuidText} {P : Type} (Marshal : P → outcome string string).
Context {St : Type} {S : JobStore St}.

Definition enqueue (e : Env) (jobType : string) (payload : P) (priority : Z)
    (scheduledAt : option time) : prog St string unit := λ s,
  match Marshal payload with
  | Err err => (Err ("jobs: marshal payload: " +:+ err), s)
  | Ok raw =>
      let job := {| ID := uuid_String (new_id e 0); Type_ := jobType; Payload := Some raw;
                    Priority := priority; MaxRetries := DefaultMaxRetries; Attempts := 0;
                    Status := StatusPending; Error := ""; LockedBy := ""; LockedAt := None;
                    ScheduledAt := scheduledAt; CompletedAt := None; CreatedAt := now e |} in
      match js_Enqueue job s with
      | (Err err, s') => (Err ("jobs: enqueue " +:+ jobType +:+ ": " +:+ err), s')
      | (Ok _, s') => (Ok tt, s')
      end
  end.

Definition Enqueue (e : Env) (jobType : string) (payload : P) :=
  enqueue e jobType payload PriorityNormal None.
Definition EnqueueHigh (e : Env) (jobType : string) (payload : P) :=
  enqueue e jobType payload PriorityHigh None.
Definition EnqueueDelayed (e : Env) (jobType : string) (payload : P) (delay : duration) :=
  enqueue e jobType payload PriorityNormal (Some (now e + delay)%Z).
Definition EnqueueAt (e : Env) (jobType : string) (payload : P) (at_ : time) :=
  enqueue e jobType payload PriorityNormal (Some at_).
End queue.

(** ** memory_store.go *)

Record MemoryStore : Type := { jobs : gmap string Job }.
Definition NewMemoryStore : MemoryStore := {| jobs := ∅ |}.
Abbreviation mem A := (prog MemoryStore string A) (only parsing).

Definition mem_Enqueue (job : Job) : mem unit :=
  modify (λ m, {| jobs := <[ID job := job]> (jobs m) |}).

(** The three [continue]s of the loop in [Dequeue]. *)
Definition eligible (t : time) (jobTypes : list string) (j : Job) : bool :=
  bool_decide (Status j = StatusPending) && bool_decide (Type_ j ∈ jobTypes)
  && match ScheduledAt j with None => true | Some at_ => negb (After at_ t) end.

Definition runs_before (a b : Job) : bool :=
  if bool_decide (Priority a ≠ Priority b) then bool_decide (Priority b < Priority a)%Z
  else Before (CreatedAt a) (CreatedAt b).

Definition claim (t : time) (lockedBy : string) (j : Job) : Job :=
  {| ID := ID j; Type_ := Type_ j; Payload := Payload j; Priority := Priority j;
     MaxRetries := MaxRetries j; Attempts := wrap64 (Attempts j + 1); Status := StatusRunning;
     Error := Error j; LockedBy := lockedBy; LockedAt := Some t; ScheduledAt := ScheduledAt j;
     CompletedAt := CompletedAt j; CreatedAt := CreatedAt j |}.

(** The candidates are pointers into the map: claiming the chosen one updates
    its entry; the caller gets a copy. *)
Definition mem_Dequeue (e : Env) (jobTypes : list string) (lockedBy : string) :
    mem (option Job) := λ m,
  let candidates := filter (λ '(_, j), eligible (now e) jobTypes j = true)
    (range (MapRange := order e) (jobs m)) in
  match sort_slice (λ a b, runs_before a.2 b.2) candidates with
  | [] => (Ok None, m)
  | (k, chosen) :: _ =>
      let chosen := claim (now e) lockedBy chosen in
      (Ok (Some chosen), {| jobs := <[k := chosen]> (jobs m) |})
  end.

(** An update of an existing job; an unknown identifier is not an error. *)
Definition update_job (jobID : string) (f : Job → Job) : mem unit := λ m,
  match jobs m !! jobID with
  | None => (Ok tt, m)
  | Some j => (Ok tt, {| jobs := <[jobID := f j]> (jobs m) |})
  end.

(** The fields an update rewrites; the lock is released. *)
Definition released (status err : string) (sched completed : option time) (j : Job) : Job :=
  {| ID := ID j; Type_ := Type_ j; Payload := Payload j; Priority := Priority j;
     MaxRetries := MaxRetries j; Attempts := Attempts j; Status := status;
     Error := err; LockedBy := ""; LockedAt := None; ScheduledAt := sched;
     CompletedAt := completed; CreatedAt := CreatedAt j |}.

Definition mem_Complete (e : Env) (jobID : string) : mem unit :=
  update_job jobID (λ j, released StatusCompleted (Error j) (ScheduledAt j) (Some (now e)) j).
Definition mem_Fail (jobID errMsg : string) : mem unit :=
  update_job jobID (λ j, released StatusFailed errMsg (ScheduledAt j) (CompletedAt j) j).
Definition mem_Retry (jobID : string) (scheduledAt : time) : mem unit :=
  update_job jobID (λ j, released StatusPending (Error j) (Some scheduledAt) (CompletedAt j) j).
Definition mem_MarkDead (jobID errMsg : string) : mem unit :=
  update_job jobID (λ j, released StatusDead errMsg (ScheduledAt j) (CompletedAt j) j).

Definition mem_Heartbeat (e : Env) (jobID lockedBy : string) : mem unit := λ m,
  match jobs m !! jobID with
  | None => (Ok tt, m)
  | Some j =>
      if bool_decide (LockedBy j ≠ lockedBy) then (Ok tt, m)
      else (Ok tt, {| jobs := <[jobID :=
        {| ID := ID j; Type_ := Type_ j; Payload := Payload j; Priority := Priority j;
           MaxRetries := MaxRetries j; Attempts := Attempts j; Status := Status j;
           Error := Error j; LockedBy := LockedBy j; LockedAt := Some (now e);
           ScheduledAt := ScheduledAt j; CompletedAt := CompletedAt j;
           CreatedAt := CreatedAt j |}]> (jobs m) |})
  end.

Definition mem_ListJobs (e : Env) (status : string) (limit : Z) : mem (list Job) :=
  gets (λ m,
    let out := sort_slice (λ a b, After (CreatedAt a) (CreatedAt b))
      (filter (λ j, Status j = status) (range_values (R := order e) (jobs m))) in
    if bool_decide (0 < limit)%Z && bool_decide (limit < Z.of_nat (length out))%Z
    then take_Z limit out else out).

#[export] Instance memory_JobStore : JobStore MemoryStore := {|
  js_Enqueue := mem_Enqueue; js_Dequeue := mem_Dequeue; js_Complete := mem_Complete;
  js_Fail := mem_Fail; js_Retry := mem_Retry; js_MarkDead := mem_MarkDead;
  js_Heartbeat := mem_Heartbeat; js_ListJobs := mem_ListJobs |}.

(** ** worker.go *)

(** [time.Duration(attempts*attempts*10) * time.Second], in 64-bit arithmetic. *)
Definition defaultBackoff (attempts : Z) : duration :=
  wrap64 (wrap64 (wrap64 (attempts * attempts) * 10) * Second).

(** How a handler ends; a panic value is printed with the stack. *)
Inductive handler_result : Type :=
  | returns_nil
  | returns_error (msg : string)
  | panics (value stack : string).

(** The error [safeExecute] reports, if any. *)
Definition safeExecute (r : handler_result) : option string :=
  match r with
  | returns_nil => None
  | returns_error msg => Some msg
  | panics v stack => Some ("panic: " +:+ v +:+ String "010"%char stack)
  end.

Inductive observation : Type :=
  | OnDequeue (job : Job)
  | OnComplete (job : Job) (dur : duration)
  | OnFail (job : Job) (err : string) (willRetry : bool)
  | OnDead (job : Job) (err : string).

(** Handlers belong to the callers of the package: [H] is their type, and how
    an execution ends is an argument of [processJob]. *)
Record Worker (H : Type) : Type := {
  handlers : gmap string H;
  concurrency : Z;
  workerID : string;
  pollInterval : duration;
  jobTimeout : duration;
  backoff : Z → duration;
}.
Arguments handlers {H} _.
Arguments concurrency {H} _.
Arguments workerID {H} _.
Arguments pollInterval {H} _.
Arguments jobTimeout {H} _.
Arguments backoff {H} _.

Section configuration.
Context {H : Type}.
Abbreviation Worker := (Worker H).

Definition NewWorker (id : string) (conc : Z) : Worker :=
  {| handlers := ∅; concurrency := if bool_decide (conc < 1)%Z then 1%Z else conc;
     workerID := String.substring 0 8 id; pollInterval := Second;
     jobTimeout := (5 * Minute)%Z; backoff := defaultBackoff |}.

Definition Register (jobType : string) (h : H) (w : Worker) : Worker :=
  {| handlers := <[jobType := h]> (handlers w); concurrency := concurrency w;
     workerID := workerID w; pollInterval := pollInterval w; jobTimeout := jobTimeout w;
     backoff := backoff w |}.

Definition WithPollInterval (d : duration) (w : Worker) : Worker :=
  if bool_decide (0 < d)%Z then
    {| handlers := handlers w; concurrency := concurrency w; workerID := workerID w;
       pollInterval := d; jobTimeout := jobTimeout w; backoff := backoff w |}
  else w.
Definition WithJobTimeout (d : duration) (w : Worker) : Worker :=
  if bool_decide (0 < d)%Z then
    {| handlers := handlers w; concurrency := concurrency w; workerID := workerID w;
       pollInterval := pollInterval w; jobTimeout := d; backoff := backoff w |}
  else w.
Definition WithBackoff (fn : option (Z → duration)) (w : Worker) : Worker :=
  match fn with
  | Some fn =>
      {| handlers := handlers w; concurrency := concurrency w; workerID := workerID w;
         pollInterval := pollInterval w; jobTimeout := jobTimeout w; backoff := fn |}
  | None => w
  end.

Definition RegisteredTypes (e : Env) (w : Worker) : list string :=
  (range (MapRange := order e) (handlers w)).*1.

(** [fmt.Sprintf("%s-%d", w.workerID, id)]. *)
Definition goroutine_name (w : Worker) (id : nat) : string := workerID w +:+ "-" +:+ pretty id.

End configuration.

Section worker.
Context {H : Type} {St : Type} {S : JobStore St}.

(** A store and the observer's record. *)
Abbreviation run A := (prog (St * list observation) string A) (only parsing).
Definition on_store {A} (m : prog St string A) : run A :=
  zoom fst (λ st s, (st, s.2)) m.
Definition observe (o : observation) : run unit := modify (λ s, (s.1, s.2 ++ [o])).

(** One iteration of [processLoop] up to the claim: [None] means sleep. *)
Definition poll (e : Env) (jobTypes : list string) (lockedBy : string) : run (option Job) :=
  r ← try (on_store (js_Dequeue e jobTypes lockedBy));
  match r with
  | Err _ | Ok None => mret None
  | Ok (Some job) => _ ← observe (OnDequeue job); mret (Some job)
  end.

Definition handleFailure (e : Env) (w : Worker H) (job : Job) (jobErr : string) : run unit :=
  if bool_decide (MaxRetries job ≤ Attempts job)%Z then
    _ ← ignore (on_store (js_MarkDead (ID job) jobErr));
    observe (OnDead job jobErr)
  else
    let at_ := (now e + backoff w (Attempts job))%Z in
    _ ← ignore (on_store (js_Retry (ID job) at_));
    observe (OnFail job jobErr true).

(** [processJob], for an execution of the handler that ends with [result]
    after [dur]. *)
Definition processJob (e : Env) (w : Worker H) (result : handler_result) (dur : duration)
    (job : Job) : run unit :=
  match handlers w !! Type_ job with
  | None =>
      let errMsg := "no handler for job type: " +:+ Type_ job in
      _ ← ignore (on_store (js_Fail (ID job) errMsg));
      observe (OnFail job errMsg false)
  | Some _ =>
      match safeExecute result with
      | Some err => handleFailure e w job err
      | None =>
          r ← try (on_store (js_Complete e (ID job)));
          match r with
          | Err _ => mret tt
          | Ok _ => observe (OnComplete job dur)
          end
      end
  end.
End worker.
