(* ===== verification/JobsProofs.v ===== *)
(** * Job queue correctness

    [Dequeue] picks the right job whatever order the map is ranged in; the
    system of producers and worker goroutines over one in-memory store never
    runs a job twice at once and never exceeds its retries; the default
    backoff is exact up to the attempt at which 64-bit arithmetic overflows. *)

From S2P Require Import Prelude Jobs.

(** ** Dequeue *)

#[export] Instance runs_before_StrictWeak {K} :
  StrictWeak (λ a b : K * Job, runs_before a.2 b.2).
Proof.
  split; unfold runs_before, Before; intros *;
    repeat case_bool_decide; rewrite ?bool_decide_eq_true, ?bool_decide_eq_false; try done; lia.
Qed.

Definition no_better (t : time) (types : list string) (m : gmap string Job) (j : Job) : Prop :=
  ∀ k x, m !! k = Some x → eligible t types x = true → runs_before x j = false.

Lemma Dequeue_cases e types g m :
  (mem_Dequeue e types g m = (Ok None, m) ∧
     ∀ k x, jobs m !! k = Some x → eligible (now e) types x = false) ∨
  (∃ k j, jobs m !! k = Some j ∧ eligible (now e) types j = true ∧
     no_better (now e) types (jobs m) j ∧
     mem_Dequeue e types g m =
       (Ok (Some (claim (now e) g j)), {| jobs := <[k := claim (now e) g j]> (jobs m) |})).
Proof.
  unfold mem_Dequeue. set (cands := filter _ _).
  assert (∀ k x, (k, x) ∈ cands ↔ jobs m !! k = Some x ∧ eligible (now e) types x = true) as Hc.
  { intros k x. unfold cands. rewrite list_elem_of_filter, elem_of_range. naive_solver. }
  destruct (sort_slice _ cands) as [|[k j] rest] eqn:Hs.
  - left. split; [done|]. intros k x Hx. apply not_true_iff_false. intros Hel.
    assert ((k, x) ∈ cands) as Hin by (by apply Hc).
    apply (elem_of_sort_slice (λ a b : string * Job, runs_before a.2 b.2)) in Hin.
    rewrite Hs in Hin. by apply not_elem_of_nil in Hin.
  - right. apply sort_slice_head in Hs as [Hin Hmax]; [|apply _]. exists k, j.
    apply Hc in Hin as [Hk Hel]. split_and!; [done..| |done].
    intros k' x Hx Hex. apply (Hmax (k', x)). by apply Hc.
Qed.

(** For every iteration order of the map, [Dequeue] returns nothing exactly
    when no job is pending, of a requested type and due; otherwise it returns
    such a job with the highest priority and, among those, the earliest
    creation time, marked running and locked by the caller with one more
    attempt, and changes no other job. *)
Theorem Dequeue_exact e types g (m : MemoryStore) :
  (mem_Dequeue e types g m = (Ok None, m) ∧
     ∀ k x, jobs m !! k = Some x → eligible (now e) types x = false) ∨
  (∃ k j, jobs m !! k = Some j ∧
     Status j = StatusPending ∧ Type_ j ∈ types ∧
     (∀ t, ScheduledAt j = Some t → (t ≤ now e)%Z) ∧
     (∀ k' x, jobs m !! k' = Some x → eligible (now e) types x = true →
        (Priority x ≤ Priority j)%Z ∧
        (Priority x = Priority j → (CreatedAt j ≤ CreatedAt x)%Z)) ∧
     mem_Dequeue e types g m =
       (Ok (Some (claim (now e) g j)), {| jobs := <[k := claim (now e) g j]> (jobs m) |})).
Proof.
  destruct (Dequeue_cases e types g m) as [?|(k & j & Hj & Hel & Hbest & Heq)]; [by left|].
  right. exists k, j. unfold eligible in Hel.
  rewrite !andb_true_iff, !bool_decide_eq_true in Hel. destruct Hel as [[Hst Hty] Hsch].
  split_and!; try done.
  - intros t Ht. rewrite Ht in Hsch. apply negb_true_iff, bool_decide_eq_false in Hsch. lia.
  - intros k' x Hx Hex. specialize (Hbest k' x Hx Hex). unfold runs_before, Before in Hbest.
    case_bool_decide; rewrite bool_decide_eq_false in Hbest; lia.
Qed.

(** ** The system *)

Section system.
Context {U : UuidText} {P H : Type} (Marshal : P → outcome string string).

(** The store with the observer's record, and the job each busy goroutine is
    executing, by goroutine name. *)
Record System : Type := {
  shared : MemoryStore * list observation;
  busy : gmap string Job;
}.
Definition system_start : System := {| shared := (NewMemoryStore, []); busy := ∅ |}.
Definition jobs_of (sys : System) : gmap string Job := jobs (shared sys).1.

Inductive system_step : relation System :=
  | step_enqueue e ty p prio at_ sys :
      jobs_of sys !! uuid_String (new_id e 0) = None →
      system_step sys
        {| shared := ((enqueue Marshal e ty p prio at_ (shared sys).1).2, (shared sys).2);
           busy := busy sys |}
  | step_poll_idle e types g sys sh :
      busy sys !! g = None → poll e types g (shared sys) = (Ok None, sh) →
      system_step sys {| shared := sh; busy := busy sys |}
  | step_poll_claim e types g sys job sh :
      busy sys !! g = None → poll e types g (shared sys) = (Ok (Some job), sh) →
      system_step sys {| shared := sh; busy := <[g := job]> (busy sys) |}
  | step_process e (w : Worker H) result dur g sys job :
      busy sys !! g = Some job →
      system_step sys
        {| shared := (processJob e w result dur job (shared sys)).2; busy := delete g (busy sys) |}
  | step_heartbeat e id g sys :
      system_step sys
        {| shared := ((mem_Heartbeat e id g (shared sys).1).2, (shared sys).2);
           busy := busy sys |}.

(** What the store knows of each job. *)
Record job_ok (k : string) (j : Job) : Prop := {
  ok_id : ID j = k;
  ok_max : MaxRetries j = DefaultMaxRetries;
  ok_attempts : (0 ≤ Attempts j ≤ DefaultMaxRetries)%Z;
  ok_pending : Status j = StatusPending → (Attempts j < DefaultMaxRetries)%Z;
  ok_dead : Status j = StatusDead → Attempts j = DefaultMaxRetries;
}.

(** A busy goroutine holds a copy of a running job locked under its name. *)
Definition held (sys : System) (g : string) (c : Job) : Prop :=
  ∃ j, jobs_of sys !! ID c = Some j ∧ Status j = StatusRunning ∧ LockedBy j = g ∧
    Attempts c = Attempts j ∧ MaxRetries c = MaxRetries j.

Record system_inv (sys : System) : Prop := {
  inv_jobs k j : jobs_of sys !! k = Some j → job_ok k j;
  inv_held g c : busy sys !! g = Some c → held sys g c;
  inv_running k j : jobs_of sys !! k = Some j → Status j = StatusRunning →
    ∃ c, busy sys !! LockedBy j = Some c ∧ ID c = k;
}.

Lemma poll_cases e types g sys r sh :
  poll e types g (shared sys) = (r, sh) →
  (r = Ok None ∧ sh = shared sys) ∨
  (∃ k j, jobs_of sys !! k = Some j ∧ eligible (now e) types j = true ∧
     r = Ok (Some (claim (now e) g j)) ∧ jobs sh.1 = <[k := claim (now e) g j]> (jobs_of sys)).
Proof.
  intros Hp. unfold poll, on_store, zoom, try in Hp. prog_unfold. cbn in Hp.
  destruct (Dequeue_cases e types g (shared sys).1) as [[Hd _]|(k & j & Hj & Hel & _ & Hd)];
    rewrite Hd in Hp; cbn in Hp; simplify_eq.
  - left. by destruct (shared sys).
  - right. exists k, j. done.
Qed.

(** A step that replaces the running job of one goroutine, freeing it. *)
Lemma inv_release sys g c status err sched completed sh :
  system_inv sys → busy sys !! g = Some c →
  status ≠ StatusRunning →
  (status = StatusPending → (Attempts c < DefaultMaxRetries)%Z) →
  (status = StatusDead → (DefaultMaxRetries ≤ Attempts c)%Z) →
  (∃ j, jobs_of sys !! ID c = Some j ∧
     jobs sh.1 = <[ID c := released status (err j) (sched j) (completed j) j]> (jobs_of sys)) →
  system_inv {| shared := sh; busy := delete g (busy sys) |}.
Proof.
  intros [Hj Hh Hr] Hg Hnr Hp Hd (j & Hjc & Hsh).
  destruct (Hh _ _ Hg) as (j' & Hj' & Hst & Hlk & Hat & Hmax). simplify_eq.
  pose proof (Hj _ _ Hjc) as [Hid Hmr Hatt Hpen Hdead].
  split; unfold held, jobs_of in *; cbn [shared busy].
  - intros k x. rewrite Hsh, lookup_insert_Some. intros [[<- <-]|[_ Hx]]; [|by apply Hj].
    split; cbn; try done; [intros ?; rewrite <-Hat; auto|].
    intros Hde. specialize (Hd Hde). lia.
  - intros g' c'. rewrite lookup_delete_Some. intros [Hne Hc'].
    destruct (Hh _ _ Hc') as (x & Hx & Hstx & Hlx & Hax). exists x. split; [|done].
    rewrite Hsh, lookup_insert_ne; [done|].
    intros Heq. rewrite <-Heq, Hjc in Hx. congruence.
  - intros k x. rewrite Hsh, lookup_insert_Some. intros [[<- <-]|[Hk Hx]]; [done|].
    intros Hstx. destruct (Hr _ _ Hx Hstx) as (c' & Hc' & <-). exists c'. split; [|done].
    rewrite lookup_delete_ne; [done|]. intros Heq. apply Hk. congruence.
Qed.
(** Evaluates the worker's calls on the in-memory store. *)
Ltac worker_run :=
  unfold on_store, observe; prog_unfold; cbn;
  unfold mem_Fail, mem_Retry, mem_MarkDead, mem_Complete, update_job.

Lemma inv_process e (w : Worker H) result dur sys g c :
  system_inv sys → busy sys !! g = Some c →
  system_inv {| shared := (processJob e w result dur c (shared sys)).2;
                busy := delete g (busy sys) |}.
Proof.
  intros Hinv Hg. destruct (inv_held _ Hinv _ _ Hg) as (j & Hj & _ & _ & Hat & Hmax).
  pose proof (inv_jobs _ Hinv _ _ Hj) as [_ Hmr Hatt _ _].
  unfold jobs_of in Hj. unfold processJob, handleFailure.
  destruct (handlers w !! Type_ c); [destruct (safeExecute result) as [err|]; [case_bool_decide|]|].
  - eapply (inv_release sys g c StatusDead (λ _, err) ScheduledAt CompletedAt); try done; [lia|].
    exists j. split; [done|]. worker_run. by rewrite Hj.
  - eapply (inv_release sys g c StatusPending Error (λ _, Some _) CompletedAt); try done; [lia|].
    exists j. split; [done|]. worker_run. by rewrite Hj.
  - eapply (inv_release sys g c StatusCompleted Error ScheduledAt (λ _, Some _)); try done.
    exists j. split; [done|]. worker_run. by rewrite Hj.
  - eapply (inv_release sys g c StatusFailed (λ _, _) ScheduledAt CompletedAt); try done.
    exists j. split; [done|]. worker_run. by rewrite Hj.
Qed.

Lemma inv_claim e types g sys k j sh :
  system_inv sys → busy sys !! g = None → jobs_of sys !! k = Some j →
  eligible (now e) types j = true → jobs sh.1 = <[k := claim (now e) g j]> (jobs_of sys) →
  system_inv {| shared := sh; busy := <[g := claim (now e) g j]> (busy sys) |}.
Proof.
  intros [Hjs Hh Hr] Hg Hj Hel Hsh. pose proof (Hjs _ _ Hj) as [Hid Hmr Hatt Hpen _].
  assert (Status j = StatusPending) as Hst.
  { unfold eligible in Hel. by rewrite !andb_true_iff, !bool_decide_eq_true in Hel; destruct Hel as [[? _] _]. }
  specialize (Hpen Hst). unfold DefaultMaxRetries in *.
  assert (wrap64 (Attempts j + 1) = Attempts j + 1)%Z as Hw by (apply wrap64_small; lia).
  split; unfold held, jobs_of in *; cbn [shared busy].
  - intros k' x. rewrite Hsh, lookup_insert_Some. intros [[<- <-]|[_ Hx]]; [|by apply Hjs].
    split; cbn; try done; rewrite ?Hw; unfold DefaultMaxRetries; lia.
  - intros g' c. rewrite Hsh, lookup_insert_Some. intros [[<- <-]|[Hne Hc]].
    + exists (claim (now e) g j). cbn. rewrite Hid, lookup_insert_eq. done.
    + destruct (Hh _ _ Hc) as (x & Hx & Hstx & Hlx & Hax). exists x. split; [|done].
      rewrite lookup_insert_ne; [done|]. intros ->. rewrite Hx in Hj. simplify_eq.
      by rewrite Hst in Hstx.
  - intros k' x. rewrite Hsh, lookup_insert_Some. intros [[<- <-]|[Hne Hx]] Hstx.
    + exists (claim (now e) g j). cbn. by rewrite lookup_insert_eq.
    + destruct (Hr _ _ Hx Hstx) as (c & Hc & <-). exists c. split; [|done].
      rewrite lookup_insert_ne; [done|]. congruence.
Qed.

Lemma inv_enqueue e ty p prio at_ sys :
  system_inv sys → jobs_of sys !! uuid_String (new_id e 0) = None →
  system_inv {| shared := ((enqueue Marshal e ty p prio at_ (shared sys).1).2, (shared sys).2);
                busy := busy sys |}.
Proof.
  intros [Hjs Hh Hr] Hn. unfold enqueue. destruct (Marshal p) as [raw|err]; [|done].
  split; unfold held, jobs_of in *; cbn.
  - intros k x. rewrite lookup_insert_Some. intros [[<- <-]|[_ Hx]]; [by split|by apply Hjs].
  - intros g c Hc. destruct (Hh _ _ Hc) as (x & Hx & ?). exists x. split; [|done].
    rewrite lookup_insert_ne; [done|]. congruence.
  - intros k x. rewrite lookup_insert_Some. intros [[<- <-]|[_ Hx]]; [done|by apply Hr].
Qed.

Lemma inv_heartbeat e id g sys :
  system_inv sys →
  system_inv {| shared := ((mem_Heartbeat e id g (shared sys).1).2, (shared sys).2);
                busy := busy sys |}.
Proof.
  intros [Hjs Hh Hr]. unfold mem_Heartbeat. unfold held, jobs_of in *.
  destruct (jobs (shared sys).1 !! id) as [j|] eqn:Hj; [|by destruct sys as [[]]].
  case_bool_decide; [by destruct sys as [[]]|]. split; unfold held, jobs_of; cbn.
  - intros k x. rewrite lookup_insert_Some. intros [[<- <-]|[_ Hx]]; [|by apply Hjs].
    by destruct (Hjs _ _ Hj).
  - intros g' c Hc. destruct (Hh _ _ Hc) as (x & Hx & Hrest).
    destruct (decide (ID c = id)) as [<-|Hne].
    + simplify_eq. eexists. by rewrite lookup_insert_eq.
    + exists x. by rewrite lookup_insert_ne.
  - intros k x. rewrite lookup_insert_Some. intros [[<- <-]|[_ Hx]]; [|by apply Hr].
    by apply (Hr _ _ Hj).
Qed.

Lemma step_inv sys sys' : system_step sys sys' → system_inv sys → system_inv sys'.
Proof.
  intros Hs Hinv. destruct Hs as [| e types g sys sh Hg Hp|e types g sys job sh Hg Hp| |].
  - by apply inv_enqueue.
  - apply poll_cases in Hp as [[_ ->]|(k & j & _ & _ & ? & _)]; [|done]. by destruct sys.
  - apply poll_cases in Hp as [[? _]|(k & j & Hj & Hel & ? & Hsh)]; [done|]. simplify_eq.
    by eapply inv_claim.
  - by apply inv_process.
  - by apply inv_heartbeat.
Qed.

Lemma run_inv sys : rtc system_step system_start sys → system_inv sys.
Proof.
  intros Hrun. apply (rtc_preserves system_step system_inv _ _ step_inv Hrun).
  split; intros *; cbn; by rewrite lookup_empty.
Qed.

(** C14: mutual exclusion: in every reachable state of the system, however
    producers, polls, executions and heartbeats interleave, no two goroutines
    are executing the same job, and the running jobs are exactly those a
    goroutine is executing. *)
Theorem no_job_runs_twice_at_once sys :
  rtc system_step system_start sys →
  (∀ g1 g2 c1 c2, busy sys !! g1 = Some c1 → busy sys !! g2 = Some c2 → ID c1 = ID c2 → g1 = g2) ∧
  (∀ k, (∃ j, jobs_of sys !! k = Some j ∧ Status j = StatusRunning) ↔
        (∃ g c, busy sys !! g = Some c ∧ ID c = k)).
Proof.
  intros [Hj Hh Hr]%run_inv. split.
  - intros g1 g2 c1 c2 H1 H2 Heq. destruct (Hh _ _ H1) as (j1 & Hj1 & _ & <- & _).
    destruct (Hh _ _ H2) as (j2 & Hj2 & _ & <- & _). congruence.
  - intros k. split.
    + intros (j & Hk & Hst). destruct (Hr _ _ Hk Hst) as (c & Hc & Hid). eauto.
    + intros (g & c & Hc & <-). destruct (Hh _ _ Hc) as (j & Hk & Hst & _). eauto.
Qed.

(** In every reachable state a job has been attempted at most three times,
    a pending job still has an attempt left, and a job is dead only after its
    third attempt failed. *)
Theorem attempts_bounded sys k j :
  rtc system_step system_start sys → jobs_of sys !! k = Some j →
  (0 ≤ Attempts j ≤ DefaultMaxRetries)%Z ∧
  (Status j = StatusPending → (Attempts j < DefaultMaxRetries)%Z) ∧
  (Status j = StatusDead → Attempts j = DefaultMaxRetries).
Proof. intros [Hj _ _]%run_inv Hk. by destruct (Hj _ _ Hk). Qed.

(** What a worker does with a job it holds, on every branch: a success
    completes it; a failure or a panic schedules a retry after the backoff
    when attempts remain and marks it dead otherwise; a job without a handler
    is failed; and the observer is told exactly that. *)
Theorem processJob_exact e (w : Worker H) result dur c (m : MemoryStore) obs j :
  jobs m !! ID c = Some j →
  processJob e w result dur c (m, obs) =
  (Ok tt,
   match handlers w !! Type_ c, safeExecute result with
   | None, _ =>
       let msg := "no handler for job type: " +:+ Type_ c in
       ({| jobs := <[ID c := released StatusFailed msg (ScheduledAt j) (CompletedAt j) j]> (jobs m) |},
        obs ++ [OnFail c msg false])
   | Some _, None =>
       ({| jobs := <[ID c := released StatusCompleted (Error j) (ScheduledAt j) (Some (now e)) j]>
                     (jobs m) |}, obs ++ [OnComplete c dur])
   | Some _, Some err =>
       if bool_decide (MaxRetries c ≤ Attempts c)%Z then
         ({| jobs := <[ID c := released StatusDead err (ScheduledAt j) (CompletedAt j) j]> (jobs m) |},
          obs ++ [OnDead c err])
       else
         ({| jobs := <[ID c := released StatusPending (Error j)
                         (Some (now e + backoff w (Attempts c))%Z) (CompletedAt j) j]> (jobs m) |},
          obs ++ [OnFail c err true])
   end).
Proof.
  intros Hj. unfold processJob, handleFailure.
  destruct (handlers w !! Type_ c); [destruct (safeExecute result); [case_bool_decide|]|];
    worker_run; by rewrite Hj.
Qed.
End system.

(** ** The default backoff *)

(** The default backoff is the documented attempts² × 10 s, with no
    overflow, and grows with the attempts, for every attempt up to 30370; at
    the next one the 64-bit product wraps to a negative duration. *)
Theorem defaultBackoff_exact n :
  (0 ≤ n ≤ 30370)%Z →
  defaultBackoff n = (n * n * (10 * Second))%Z ∧
  (∀ k, (0 ≤ k < n)%Z → (defaultBackoff k < defaultBackoff n)%Z) ∧
  (defaultBackoff 30371 < 0)%Z.
Proof.
  assert (∀ a, (0 ≤ a ≤ 30370)%Z → defaultBackoff a = (a * a * (10 * Second))%Z) as Hex.
  { intros a Ha. unfold defaultBackoff, Second.
    assert (0 ≤ a * a ≤ 922336900)%Z by nia.
    rewrite (wrap64_small (a * a)), (wrap64_small (a * a * 10)) by lia.
    rewrite wrap64_small by lia. lia. }
  intros Hn. split_and!; [by apply Hex| |by vm_compute].
  intros k Hk. rewrite !Hex by lia. unfold Second. nia.
Qed.

(** ** Witnesses *)

Definition example_env (t : time) : Env :=
  {| now := t; new_id := λ n, 7%N; order := canonical_range |}.
Definition example_marshal (_ : unit) : outcome string string := Ok "{}".
Definition example_worker : Worker unit := Register "email.send" tt (NewWorker "0123456789" 4).
Definition example_queued : System :=
  {| shared := ((enqueue (U := binary_uuid_text) example_marshal (example_env 10) "email.send" tt
                   PriorityNormal None NewMemoryStore).2, []);
     busy := ∅ |}.
Definition example_job : Job :=
  match (poll (example_env 20) ["email.send"] (goroutine_name example_worker 0)
           (shared example_queued)).1 with
  | Ok (Some j) => j
  | _ => {| ID := ""; Type_ := ""; Payload := None; Priority := 0; MaxRetries := 0; Attempts := 0;
            Status := ""; Error := ""; LockedBy := ""; LockedAt := None; ScheduledAt := None;
            CompletedAt := None; CreatedAt := 0 |}
  end.
Definition example_running : System :=
  {| shared := (poll (example_env 20) ["email.send"] (goroutine_name example_worker 0)
                  (shared example_queued)).2;
     busy := {[goroutine_name example_worker 0 := example_job]} |}.

Lemma example_run :
  rtc (system_step (U := binary_uuid_text) (H := unit) example_marshal)
    system_start example_running.
Proof.
  apply (rtc_l _ _ example_queued).
  - by apply (step_enqueue _ (example_env 10) "email.send" tt PriorityNormal None system_start).
  - apply rtc_once.
    apply (step_poll_claim _ (example_env 20) ["email.send"] (goroutine_name example_worker 0)
             example_queued example_job); [done|by vm_compute].
Qed.

Lemma no_job_runs_twice_at_once_witness :
  ∃ j, jobs_of example_running !! binary_String 7 = Some j ∧ Status j = StatusRunning.
Proof.
  apply (no_job_runs_twice_at_once (U := binary_uuid_text) (H := unit) example_marshal
           example_running example_run).
  exists (goroutine_name example_worker 0), example_job. split; by vm_compute.
Defined.

Lemma attempts_bounded_witness :
  ∃ j, jobs_of example_running !! binary_String 7 = Some j ∧
    (0 ≤ Attempts j ≤ DefaultMaxRetries)%Z.
Proof.
  exists example_job. split; [by vm_compute|].
  apply (attempts_bounded (U := binary_uuid_text) (H := unit) example_marshal example_running
           (binary_String 7) example_job); [apply example_run|by vm_compute].
Defined.

Lemma processJob_exact_witness :
  (processJob (example_env 30) example_worker (panics "boom" "stack") 5 example_job
     (shared example_running)).2.2 =
  [OnDequeue example_job] ++
  [OnFail example_job ("panic: boom" +:+ String "010"%char "stack") true].
Proof.
  replace (shared example_running) with ((shared example_running).1, [OnDequeue example_job])
    by (by vm_compute).
  rewrite (processJob_exact (example_env 30) example_worker (panics "boom" "stack") 5 example_job
             (shared example_running).1 [OnDequeue example_job] example_job) by (by vm_compute).
  by vm_compute.
Defined.

Lemma defaultBackoff_exact_witness : defaultBackoff 3 = (90 * Second)%Z.
Proof. destruct (defaultBackoff_exact 3) as (-> & _ & _); [lia|]. by vm_compute. Defined.
