(* ===== verification/Rbac.v ===== *)
(** * Role-based access control (platform/rbac and its development store)

    store.go and features.go: roles, permissions, the store interface as the
    class [RBACStore] and the default permission matrix; enforcer.go: the
    enforcer with its cache; hierarchy.go: the company hierarchy resolver;
    policy.go, role_names.go, service.go; and the in-memory store of
    platform/devstore/rbac_store.go.  The theorems are in [RbacProofs]. *)

From S2P Require Import Prelude.

(** ** store.go *)

Abbreviation RoleLevel := Z (only parsing).
Definition RoleLevelViewer : RoleLevel := 20.
Definition RoleLevelMember : RoleLevel := 40.
Definition RoleLevelManager : RoleLevel := 60.
Definition RoleLevelAdmin : RoleLevel := 80.
Definition RoleLevelOwner : RoleLevel := 90.
Definition RoleLevelSuperAdmin : RoleLevel := 100.

Abbreviation Feature := string (only parsing).
Abbreviation PermissionMatrix := (gmap string (gmap string Z)) (only parsing).

Record Role : Type := {
  r_ID : uuid;
  r_CompanyID : option uuid;
  r_Name : string;
  r_Description : string;
  r_Level : RoleLevel;
  r_IsSystem : bool;
}.

Record Permission : Type := {
  p_ID : uuid;
  p_Feature : string;
  p_Action : string;
  p_Resource : string;
}.

Record Membership : Type := {
  m_ID : uuid;
  m_CompanyID : uuid;
  m_UserID : uuid;
  m_RoleID : uuid;
  m_RoleName : string;
  m_RoleLevel : RoleLevel;
  m_PermissionOverrides : RawMessage;
}.

Record CompanyAncestor : Type := {
  a_CompanyID : uuid;
  a_Generations : Z;
  a_InheritedRoleCap : option Z;
  a_AccessLevel : option string;
}.

Inductive rbac_error : Type := ErrUnauthorized | ErrUnknownAction.
#[export] Instance rbac_error_eq_dec : EqDecision rbac_error.
Proof. solve_decision. Defined.
Abbreviation rerr := (goerr rbac_error) (only parsing).

(** The reads see the store (and, for the identifiers they make up, the
    environment); the others update it. *)
Class RBACStore (St : Type) : Type := {
  GetRoleByID : St → uuid → outcome rerr Role;
  ListRolesByCompany : Env → St → uuid → outcome rerr (list Role);
  st_CreateRole : Env → uuid → string → string → RoleLevel → prog St rerr Role;
  ListPermissionsByRole : St → uuid → outcome rerr (list Permission);
  ListAllPermissions : Env → St → outcome rerr (list Permission);
  AddRolePermission : uuid → uuid → prog St rerr unit;
  GetUserRole : St → uuid → uuid → outcome rerr Role;
  GetMembership : Env → St → uuid → uuid → outcome rerr Membership;
  st_GetUserPermissions : St → uuid → uuid → outcome rerr (list Permission);
  AssignRoleToUser : Env → uuid → uuid → uuid → prog St rerr unit;
  CreateMembership : Env → uuid → uuid → uuid → prog St rerr unit;
  GetCompanyAncestors : St → uuid → outcome rerr (list CompanyAncestor);
  GetMembershipInCompany : Env → St → uuid → uuid → outcome rerr (option Membership);
}.

(** ** features.go *)

Definition FeatureCRM : Feature := "crm".
Definition FeatureInvoicing : Feature := "invoicing".
Definition FeaturePayments : Feature := "payments".
Definition FeatureSubscriptions : Feature := "subscriptions".
Definition FeatureHelpdesk : Feature := "helpdesk".
Definition FeatureKnowledgebase : Feature := "knowledgebase".
Definition FeatureHR : Feature := "hr".
Definition FeatureProducts : Feature := "products".
Definition FeatureInventory : Feature := "inventory".
Definition FeatureEcommerce : Feature := "ecommerce".
Definition FeatureMarketing : Feature := "marketing".
Definition FeatureProposals : Feature := "proposals".
Definition FeatureProjects : Feature := "projects".
Definition FeatureLegal : Feature := "legal".
Definition FeatureAccounting : Feature := "accounting".
Definition FeatureScheduling : Feature := "scheduling".
Definition FeatureReporting : Feature := "reporting".
Definition FeatureCommunications : Feature := "communications".
Definition FeatureWebsite : Feature := "website".
Definition FeatureAITools : Feature := "ai_tools".
Definition FeatureInvestorPortal : Feature := "investor_portal".
Definition FeatureStrategicPlanning : Feature := "strategic_planning".
Definition FeatureWorkflows : Feature := "workflows".
Definition FeatureBanking : Feature := "banking".
Definition FeatureCustomerPortal : Feature := "customer_portal".
Definition FeatureSoftware : Feature := "software".
Definition FeatureSettings : Feature := "settings".
Definition FeatureNotifications : Feature := "notifications".

Definition DefaultPermissionMatrix : PermissionMatrix := list_to_map [
  (FeatureCRM, list_to_map [("view", RoleLevelViewer);
    ("create", RoleLevelMember);
    ("edit", RoleLevelMember);
    ("delete", RoleLevelManager);
    ("export", RoleLevelManager);
    ("admin", RoleLevelAdmin)]);
  (FeatureInvoicing, list_to_map [("view", RoleLevelViewer);
    ("create", RoleLevelMember);
    ("edit", RoleLevelMember);
    ("send", RoleLevelMember);
    ("void", RoleLevelManager);
    ("delete", RoleLevelAdmin);
    ("admin", RoleLevelAdmin)]);
  (FeaturePayments, list_to_map [("view", RoleLevelViewer);
    ("create", RoleLevelMember);
    ("refund", RoleLevelManager);
    ("admin", RoleLevelAdmin)]);
  (FeatureSubscriptions, list_to_map [("view", RoleLevelViewer);
    ("create", RoleLevelMember);
    ("edit", RoleLevelMember);
    ("cancel", RoleLevelManager);
    ("admin", RoleLevelAdmin)]);
  (FeatureHelpdesk, list_to_map [("view", RoleLevelViewer);
    ("create", RoleLevelMember);
    ("assign", RoleLevelMember);
    ("resolve", RoleLevelMember);
    ("delete", RoleLevelManager);
    ("admin", RoleLevelAdmin)]);
  (FeatureKnowledgebase, list_to_map [("view", RoleLevelViewer);
    ("create", RoleLevelMember);
    ("edit", RoleLevelMember);
    ("publish", RoleLevelManager);
    ("delete", RoleLevelManager);
    ("admin", RoleLevelAdmin)]);
  (FeatureHR, list_to_map [("view", RoleLevelViewer);
    ("create", RoleLevelManager);
    ("edit", RoleLevelManager);
    ("approve", RoleLevelManager);
    ("delete", RoleLevelAdmin);
    ("payroll", RoleLevelAdmin);
    ("admin", RoleLevelAdmin)]);
  (FeatureProducts, list_to_map [("view", RoleLevelViewer);
    ("create", RoleLevelMember);
    ("edit", RoleLevelMember);
    ("delete", RoleLevelManager);
    ("admin", RoleLevelAdmin)]);
  (FeatureInventory, list_to_map [("view", RoleLevelViewer);
    ("adjust", RoleLevelMember);
    ("transfer", RoleLevelMember);
    ("write_off", RoleLevelManager);
    ("admin", RoleLevelAdmin)]);
  (FeatureEcommerce, list_to_map [("view", RoleLevelViewer);
    ("manage", RoleLevelMember);
    ("admin", RoleLevelAdmin)]);
  (FeatureMarketing, list_to_map [("view", RoleLevelViewer);
    ("create", RoleLevelMember);
    ("edit", RoleLevelMember);
    ("send", RoleLevelManager);
    ("delete", RoleLevelManager);
    ("admin", RoleLevelAdmin)]);
  (FeatureProposals, list_to_map [("view", RoleLevelViewer);
    ("create", RoleLevelMember);
    ("edit", RoleLevelMember);
    ("send", RoleLevelManager);
    ("approve", RoleLevelManager);
    ("admin", RoleLevelAdmin)]);
  (FeatureProjects, list_to_map [("view", RoleLevelViewer);
    ("create", RoleLevelMember);
    ("edit", RoleLevelMember);
    ("delete", RoleLevelManager);
    ("admin", RoleLevelAdmin)]);
  (FeatureLegal, list_to_map [("view", RoleLevelViewer);
    ("create", RoleLevelMember);
    ("edit", RoleLevelMember);
    ("approve", RoleLevelManager);
    ("delete", RoleLevelAdmin);
    ("admin", RoleLevelAdmin)]);
  (FeatureAccounting, list_to_map [("view", RoleLevelViewer);
    ("create", RoleLevelMember);
    ("edit", RoleLevelMember);
    ("close_period", RoleLevelAdmin);
    ("admin", RoleLevelAdmin)]);
  (FeatureScheduling, list_to_map [("view", RoleLevelViewer);
    ("create", RoleLevelMember);
    ("edit", RoleLevelMember);
    ("delete", RoleLevelManager);
    ("admin", RoleLevelAdmin)]);
  (FeatureReporting, list_to_map [("view", RoleLevelViewer);
    ("create", RoleLevelMember);
    ("export", RoleLevelManager);
    ("admin", RoleLevelAdmin)]);
  (FeatureCommunications, list_to_map [("view", RoleLevelViewer);
    ("create", RoleLevelMember);
    ("send", RoleLevelMember);
    ("delete", RoleLevelManager);
    ("admin", RoleLevelAdmin)]);
  (FeatureWebsite, list_to_map [("view", RoleLevelViewer);
    ("edit", RoleLevelMember);
    ("publish", RoleLevelManager);
    ("admin", RoleLevelAdmin)]);
  (FeatureAITools, list_to_map [("view", RoleLevelViewer);
    ("use", RoleLevelMember);
    ("admin", RoleLevelAdmin)]);
  (FeatureInvestorPortal, list_to_map [("view", RoleLevelViewer);
    ("create", RoleLevelManager);
    ("edit", RoleLevelManager);
    ("manage_cap", RoleLevelAdmin);
    ("admin", RoleLevelOwner)]);
  (FeatureStrategicPlanning, list_to_map [("view", RoleLevelViewer);
    ("create", RoleLevelManager);
    ("edit", RoleLevelManager);
    ("approve", RoleLevelAdmin);
    ("admin", RoleLevelOwner)]);
  (FeatureWorkflows, list_to_map [("view", RoleLevelViewer);
    ("create", RoleLevelMember);
    ("edit", RoleLevelMember);
    ("execute", RoleLevelMember);
    ("admin", RoleLevelAdmin)]);
  (FeatureBanking, list_to_map [("view", RoleLevelViewer);
    ("create", RoleLevelMember);
    ("edit", RoleLevelMember);
    ("delete", RoleLevelManager);
    ("admin", RoleLevelAdmin)]);
  (FeatureCustomerPortal, list_to_map [("view", RoleLevelViewer);
    ("create", RoleLevelMember);
    ("edit", RoleLevelMember);
    ("delete", RoleLevelManager);
    ("admin", RoleLevelAdmin)]);
  (FeatureSoftware, list_to_map [("view", RoleLevelViewer);
    ("create", RoleLevelMember);
    ("edit", RoleLevelMember);
    ("delete", RoleLevelManager);
    ("admin", RoleLevelAdmin)]);
  (FeatureSettings, list_to_map [("view", RoleLevelViewer);
    ("edit", RoleLevelManager);
    ("admin", RoleLevelAdmin)]);
  (FeatureNotifications, list_to_map [("view", RoleLevelViewer);
    ("create", RoleLevelMember);
    ("send", RoleLevelMember);
    ("admin", RoleLevelAdmin)])].

(** ** role_names.go *)

Definition RoleLevelByName : gmap string RoleLevel := list_to_map [
  ("viewer", RoleLevelViewer); ("member", RoleLevelMember); ("manager", RoleLevelManager);
  ("admin", RoleLevelAdmin); ("owner", RoleLevelOwner); ("super_admin", RoleLevelSuperAdmin)].

Definition RoleNameByLevel (level : RoleLevel) : string :=
  if bool_decide (RoleLevelSuperAdmin ≤ level)%Z then "super_admin"
  else if bool_decide (RoleLevelOwner ≤ level)%Z then "owner"
  else if bool_decide (RoleLevelAdmin ≤ level)%Z then "admin"
  else if bool_decide (RoleLevelManager ≤ level)%Z then "manager"
  else if bool_decide (RoleLevelMember ≤ level)%Z then "member"
  else "viewer".

Definition AllowedByRoleName (matrix : PermissionMatrix) (roleName : string) (feature : Feature)
    (action : string) : bool :=
  match RoleLevelByName !! roleName with
  | None => false
  | Some level =>
      match matrix !! feature with
      | None => false
      | Some actionMatrix =>
          match actionMatrix !! action with
          | None => false
          | Some required => bool_decide (required ≤ level)%Z
          end
      end
  end.

(** ** policy.go *)

(** A policy; [Can] is there when the policy is also an [ActionPolicy]. *)
Record Policy : Type := {
  Show : bool;
  Create : bool;
  Update : bool;
  Destroy : bool;
  Can : option (string → bool);
}.

Definition Authorize (p : Policy) (action : string) : outcome rerr unit :=
  let decide_on (allowed : bool) :=
    if allowed then Ok tt else Err (Sentinel ErrUnauthorized) in
  if bool_decide (action = "show") then decide_on (Show p)
  else if bool_decide (action = "create") then decide_on (Create p)
  else if bool_decide (action = "update") then decide_on (Update p)
  else if bool_decide (action = "destroy") then decide_on (Destroy p)
  else match Can p with
       | None => Err (Wrapf action (Sentinel ErrUnknownAction))
       | Some can => decide_on (can action)
       end.

Definition BasePolicy : Policy :=
  {| Show := false; Create := false; Update := false; Destroy := false; Can := None |}.

(** ** enforcer.go *)

Definition DefaultCacheTTL : duration := (5 * Minute)%Z.

Record cacheEntry : Type := {
  permissions : gmap string bool;
  roleLevel : RoleLevel;
  expiresAt : time;
}.

Record Enforcer : Type := {
  cache : gmap string cacheEntry;
  cacheTTL : duration;
  matrix : PermissionMatrix;
}.

Definition NewEnforcer (m : option PermissionMatrix) : Enforcer :=
  {| cache := ∅; cacheTTL := DefaultCacheTTL; matrix := default DefaultPermissionMatrix m |}.

Definition set_cache (c : gmap string cacheEntry) (en : Enforcer) : Enforcer :=
  {| cache := c; cacheTTL := cacheTTL en; matrix := matrix en |}.

Section enforcer.
(** [json.Unmarshal] of the overrides into a [map[string]bool]. *)
Context {U : UuidText} (Unmarshal : string → option (gmap string bool)).
Context {St : Type} {S : RBACStore St}.

(** [userID.String() + ":" + companyID.String()]. *)
Definition cacheKey (userID companyID : uuid) : string :=
  uuid_String userID +:+ ":" +:+ uuid_String companyID.

(** [for k, v := range overrides { permSet[k] = v }]. *)
Definition apply_overrides (e : Env) (overrides permSet : gmap string bool) : gmap string bool :=
  foldl (λ ps '(k, v), <[k := v]> ps) permSet (range (MapRange := order e) overrides).

(** The permissions as the store has them: the role's, then the overrides of
    the membership. *)
Definition load_permissions (e : Env) (st : St) (userID companyID : uuid) :
    outcome rerr (gmap string bool * RoleLevel) :=
  match GetUserRole st companyID userID with
  | Err err => Err (Wrapf "get user role" err)
  | Ok role =>
      match ListPermissionsByRole st (r_ID role) with
      | Err err => Err (Wrapf "list permissions" err)
      | Ok perms =>
          let permSet := foldl (λ ps p, <[p_Feature p +:+ ":" +:+ p_Action p := true]> ps) ∅ perms in
          let permSet :=
            match GetMembership e st companyID userID with
            | Err _ => permSet
            | Ok membership =>
                match m_PermissionOverrides membership with
                | None => permSet
                | Some raw =>
                    match Unmarshal raw with
                    | None => permSet
                    | Some overrides => apply_overrides e overrides permSet
                    end
                end
            end in
          Ok (permSet, r_Level role)
      end
  end.

(** [permSet[permission]]: false when absent. *)
Definition granted (ps : gmap string bool) (permission : string) : bool :=
  default false (ps !! permission).

(** The rest of [HasPermission] after a cache miss; [stored] is the clock when
    the entry is stored. *)
Definition load_and_cache (e : Env) (stored : time) (st : St) (userID companyID : uuid)
    (permission : string) : prog Enforcer rerr bool := λ en,
  match load_permissions e st userID companyID with
  | Err err => (Err err, en)
  | Ok (permSet, level) =>
      (Ok (granted permSet permission),
       set_cache (<[cacheKey userID companyID :=
         {| permissions := permSet; roleLevel := level;
            expiresAt := (stored + cacheTTL en)%Z |}]> (cache en)) en)
  end.

Definition HasPermission (e : Env) (stored : time) (st : St) (userID companyID : uuid)
    (permission : string) : prog Enforcer rerr bool := λ en,
  let key := cacheKey userID companyID in
  match cache en !! key with
  | Some ce =>
      if Before (now e) (expiresAt ce) then (Ok (granted (permissions ce) permission), en)
      else load_and_cache e stored st userID companyID permission
             (set_cache (delete key (cache en)) en)
  | None => load_and_cache e stored st userID companyID permission en
  end.

Definition HasMinimumRole (st : St) (userID companyID : uuid) (minLevel : RoleLevel) :
    outcome rerr bool :=
  match GetUserRole st companyID userID with
  | Err err => Err (Wrapf "get user role" err)
  | Ok role => Ok (bool_decide (minLevel ≤ r_Level role)%Z)
  end.

Definition CheckFeatureAction (e : Env) (stored : time) (st : St) (userID companyID : uuid)
    (feature : Feature) (action : string) : prog Enforcer rerr bool := λ en,
  let check := HasPermission e stored st userID companyID (feature +:+ ":" +:+ action) in
  match matrix en !! feature ≫= λ actionMatrix, actionMatrix !! action with
  | Some minLevel =>
      match GetUserRole st companyID userID with
      | Err err => (Err (Wrapf "get user role" err), en)
      | Ok role =>
          if bool_decide (r_Level role < minLevel)%Z then (Ok false, en) else check en
      end
  | None => check en
  end.

Definition InvalidateCache (userID companyID : uuid) (en : Enforcer) : Enforcer :=
  set_cache (delete (cacheKey userID companyID) (cache en)) en.

Definition InvalidateAll (e : Env) (en : Enforcer) : Enforcer :=
  set_cache (foldl (λ c '(k, _), delete k c) (cache en)
    (range (MapRange := order e) (cache en))) en.
End enforcer.

(** ** hierarchy.go *)

Record ResolvedMembership : Type := {
  rm_CompanyID : uuid;
  rm_UserID : uuid;
  rm_RoleLevel : RoleLevel;
  rm_RoleName : string;
  rm_SourceCompany : uuid;
  rm_IsDirect : bool;
  rm_CappedLevel : RoleLevel;
  rm_AccessLevel : string;
}.

Section hierarchy.
Context {U : UuidText} {St : Type} {S : RBACStore St}.

(** One iteration of the ancestor walk: [None] is [continue]. *)
Definition resolve_via (e : Env) (st : St) (companyID userID : uuid) (ancestor : CompanyAncestor) :
    option ResolvedMembership :=
  match GetMembershipInCompany e st (a_CompanyID ancestor) userID with
  | Err _ | Ok None => None
  | Ok (Some membership) =>
      let effectiveLevel :=
        match a_InheritedRoleCap ancestor with
        | Some cap => if bool_decide (cap < m_RoleLevel membership)%Z then cap
                      else m_RoleLevel membership
        | None => m_RoleLevel membership
        end in
      let accessLevel := default "full" (a_AccessLevel ancestor) in
      if bool_decide (accessLevel = "none") then None
      else Some {| rm_CompanyID := companyID; rm_UserID := userID;
                   rm_RoleLevel := m_RoleLevel membership; rm_RoleName := m_RoleName membership;
                   rm_SourceCompany := a_CompanyID ancestor; rm_IsDirect := false;
                   rm_CappedLevel := effectiveLevel; rm_AccessLevel := accessLevel |}
  end.

Fixpoint walk_ancestors (e : Env) (st : St) (companyID userID : uuid)
    (ancestors : list CompanyAncestor) : option ResolvedMembership :=
  match ancestors with
  | [] => None
  | a :: rest =>
      match resolve_via e st companyID userID a with
      | Some r => Some r
      | None => walk_ancestors e st companyID userID rest
      end
  end.

Definition ResolveMembership (e : Env) (st : St) (companyID userID : uuid) :
    outcome rerr ResolvedMembership :=
  match GetMembershipInCompany e st companyID userID with
  | Ok (Some direct) =>
      Ok {| rm_CompanyID := companyID; rm_UserID := userID; rm_RoleLevel := m_RoleLevel direct;
            rm_RoleName := m_RoleName direct; rm_SourceCompany := companyID; rm_IsDirect := true;
            rm_CappedLevel := m_RoleLevel direct; rm_AccessLevel := "full" |}
  | _ =>
      match GetCompanyAncestors st companyID with
      | Err err => Err (Wrapf "get company ancestors" err)
      | Ok ancestors =>
          match walk_ancestors e st companyID userID ancestors with
          | Some r => Ok r
          | None => Err (Errorf ("user " +:+ uuid_String userID +:+ " has no membership for company "
                                 +:+ uuid_String companyID +:+ " or its ancestors"))
          end
      end
  end.

Definition CanAccessCompany (e : Env) (st : St) (companyID userID : uuid) : bool :=
  match ResolveMembership e st companyID userID with
  | Err _ => false
  | Ok resolved => bool_decide (rm_AccessLevel resolved ≠ "none")
  end.

Definition GetEffectiveRoleLevel (e : Env) (st : St) (companyID userID : uuid) :
    outcome rerr RoleLevel :=
  match ResolveMembership e st companyID userID with
  | Err err => Err err
  | Ok resolved => Ok (rm_CappedLevel resolved)
  end.
End hierarchy.

(** ** service.go *)

Definition SuperAdminRoleID : uuid := 0x10000000000000000000000000000000%N.
Definition OwnerRoleID : uuid := 0x10000000000000000000000000000001%N.
Definition AdminRoleID : uuid := 0x10000000000000000000000000000002%N.
Definition MemberRoleID : uuid := 0x10000000000000000000000000000003%N.
Definition ViewerRoleID : uuid := 0x10000000000000000000000000000004%N.
Definition ManagerRoleID : uuid := 0x10000000000000000000000000000005%N.

Record Service (St : Type) : Type := { store : St; enforcer : Enforcer }.
Arguments store {St} _.
Arguments enforcer {St} _.
Arguments Build_Service {St} _ _.

Section service.
Context {U : UuidText} {St : Type} {S : RBACStore St}.
Abbreviation svc A := (prog (Service St) rerr A) (only parsing).

Definition on_store {A} (m : prog St rerr A) : svc A :=
  zoom store (λ st s, {| store := st; enforcer := enforcer s |}) m.

Definition ListRoles (e : Env) (companyID : uuid) (s : Service St) : outcome rerr (list Role) :=
  ListRolesByCompany e (store s) companyID.

Fixpoint add_permissions (roleID : uuid) (permissionIDs : list uuid) : svc unit :=
  match permissionIDs with
  | [] => mret tt
  | pid :: rest => _ ← ignore (on_store (AddRolePermission roleID pid)); add_permissions roleID rest
  end.

Definition CreateRole (e : Env) (companyID : uuid) (name description : string) (level : RoleLevel)
    (permissionIDs : list uuid) : svc Role :=
  role ← wrapping "create role" (on_store (st_CreateRole e companyID name description level));
  _ ← add_permissions (r_ID role) permissionIDs;
  mret role.

Definition invalidate_all (e : Env) : svc unit :=
  modify (λ s, {| store := store s; enforcer := InvalidateAll e (enforcer s) |}).

Definition AssignRole (e : Env) (companyID userID roleID currentUserID : uuid) : svc unit :=
  _ ← (if bool_decide (roleID = OwnerRoleID) then
         s ← get;
         currentRole ← wrapping "get current user role"
           (of_outcome (GetUserRole (store s) companyID currentUserID));
         reject_if (bool_decide (r_ID currentRole ≠ OwnerRoleID)
                    && bool_decide (r_Level currentRole < RoleLevelOwner)%Z)
           (Errorf "only the owner can transfer ownership")
       else mret tt);
  _ ← wrapping "assign role" (on_store (AssignRoleToUser e companyID userID roleID));
  invalidate_all e.

Definition RemoveRole (e : Env) (companyID userID roleID : uuid) : svc unit :=
  _ ← reject_if (bool_decide (roleID = OwnerRoleID)) (Errorf "cannot remove the owner role");
  _ ← wrapping "reset to member role" (on_store (AssignRoleToUser e companyID userID MemberRoleID));
  invalidate_all e.

Definition ListPermissions (e : Env) (s : Service St) : outcome rerr (list Permission) :=
  ListAllPermissions e (store s).

Definition GetUserPermissions (companyID userID : uuid) (s : Service St) :
    outcome rerr (list Permission * Role) :=
  match st_GetUserPermissions (store s) companyID userID with
  | Err err => Err (Wrapf "get user permissions" err)
  | Ok perms =>
      match GetUserRole (store s) companyID userID with
      | Err err => Err (Wrapf "get user role" err)
      | Ok role => Ok (perms, role)
      end
  end.
End service.

(** ** platform/devstore/rbac_store.go *)

(** [auth.Membership] and [auth.Role], the fields the store reads. *)
Record auth_Membership : Type := { am_CompanyID : uuid; am_RoleID : uuid }.
Record auth_Role : Type := { ar_ID : uuid; ar_Name : string; ar_RoleLevel : Z }.

(** The part of the backend's state the store uses. *)
Record Backend : Type := {
  rbacRoles : gmap uuid Role;
  rbacPermissions : gmap uuid Permission;
  rolePermissions : gmap uuid (list uuid);
  rbacMemberships : gmap string Membership;
  memberships : gmap uuid (list auth_Membership);
  roles : gmap uuid auth_Role;
}.

Section devstore.
Context {U : UuidText}.

Definition membership_key (companyID userID : uuid) : string :=
  uuid_String companyID +:+ ":" +:+ uuid_String userID.

Definition dev_GetRoleByID (b : Backend) (id : uuid) : outcome rerr Role :=
  match rbacRoles b !! id with
  | None => Err (Errorf ("rbac role not found: " +:+ uuid_String id))
  | Some role => Ok role
  end.

Definition dev_ListRolesByCompany (e : Env) (b : Backend) (companyID : uuid) :
    outcome rerr (list Role) :=
  Ok (filter (λ r, r_IsSystem r = true ∨ r_CompanyID r = Some companyID)
    (range_values (R := order e) (rbacRoles b))).

Definition set_rbacRoles (rs : gmap uuid Role) (b : Backend) : Backend :=
  {| rbacRoles := rs; rbacPermissions := rbacPermissions b; rolePermissions := rolePermissions b;
     rbacMemberships := rbacMemberships b; memberships := memberships b; roles := roles b |}.
Definition set_rolePermissions (rp : gmap uuid (list uuid)) (b : Backend) : Backend :=
  {| rbacRoles := rbacRoles b; rbacPermissions := rbacPermissions b; rolePermissions := rp;
     rbacMemberships := rbacMemberships b; memberships := memberships b; roles := roles b |}.
Definition set_rbacMemberships (ms : gmap string Membership) (b : Backend) : Backend :=
  {| rbacRoles := rbacRoles b; rbacPermissions := rbacPermissions b;
     rolePermissions := rolePermissions b; rbacMemberships := ms; memberships := memberships b;
     roles := roles b |}.

Definition dev_CreateRole (e : Env) (companyID : uuid) (name description : string)
    (level : RoleLevel) : prog Backend rerr Role :=
  let role := {| r_ID := new_id e 0; r_CompanyID := Some companyID; r_Name := name;
                 r_Description := description; r_Level := level; r_IsSystem := false |} in
  _ ← modify (λ b, set_rbacRoles (<[r_ID role := role]> (rbacRoles b)) b);
  mret role.

Definition dev_ListPermissionsByRole (b : Backend) (roleID : uuid) :
    outcome rerr (list Permission) :=
  Ok (omap (λ pid, rbacPermissions b !! pid) (default [] (rolePermissions b !! roleID))).

Definition dev_ListAllPermissions (e : Env) (b : Backend) : outcome rerr (list Permission) :=
  Ok (range_values (R := order e) (rbacPermissions b)).

Definition dev_AddRolePermission (roleID permissionID : uuid) : prog Backend rerr unit :=
  modify (λ b, set_rolePermissions
    (<[roleID := default [] (rolePermissions b !! roleID) ++ [permissionID]]> (rolePermissions b)) b).

(** The auth role of the first auth membership in the company whose role is
    known. *)
Definition auth_role_in (b : Backend) (companyID userID : uuid) :
    option (auth_Membership * auth_Role) :=
  head (omap (λ m, if bool_decide (am_CompanyID m = companyID)
                   then (λ r, (m, r)) <$> roles b !! am_RoleID m else None)
         (default [] (memberships b !! userID))).

Definition dev_GetUserRole (b : Backend) (companyID userID : uuid) : outcome rerr Role :=
  match rbacMemberships b !! membership_key companyID userID
        ≫= λ membership, rbacRoles b !! m_RoleID membership with
  | Some role => Ok role
  | None =>
      match auth_role_in b companyID userID with
      | Some (_, authRole) =>
          Ok {| r_ID := ar_ID authRole; r_CompanyID := None; r_Name := ar_Name authRole;
                r_Description := ""; r_Level := ar_RoleLevel authRole; r_IsSystem := true |}
      | None => Err (Errorf ("rbac role not found for user " +:+ uuid_String userID
                             +:+ " in company " +:+ uuid_String companyID))
      end
  end.

Definition dev_GetMembership (e : Env) (b : Backend) (companyID userID : uuid) :
    outcome rerr Membership :=
  match rbacMemberships b !! membership_key companyID userID with
  | Some membership => Ok membership
  | None =>
      match auth_role_in b companyID userID with
      | Some (m, authRole) =>
          Ok {| m_ID := new_id e 0; m_CompanyID := companyID; m_UserID := userID;
                m_RoleID := am_RoleID m; m_RoleName := ar_Name authRole;
                m_RoleLevel := ar_RoleLevel authRole; m_PermissionOverrides := None |}
      | None => Err (Errorf ("membership not found for user " +:+ uuid_String userID
                             +:+ " in company " +:+ uuid_String companyID))
      end
  end.

Definition dev_GetUserPermissions (b : Backend) (companyID userID : uuid) :
    outcome rerr (list Permission) :=
  match dev_GetUserRole b companyID userID with
  | Err err => Err err
  | Ok role => dev_ListPermissionsByRole b (r_ID role)
  end.

Definition dev_AssignRoleToUser (e : Env) (companyID userID roleID : uuid) :
    prog Backend rerr unit := λ b,
  match rbacRoles b !! roleID with
  | None => (Err (Errorf ("rbac role not found: " +:+ uuid_String roleID)), b)
  | Some role =>
      (Ok tt, set_rbacMemberships
        (<[membership_key companyID userID :=
           {| m_ID := new_id e 0; m_CompanyID := companyID; m_UserID := userID;
              m_RoleID := roleID; m_RoleName := r_Name role; m_RoleLevel := r_Level role;
              m_PermissionOverrides := None |}]> (rbacMemberships b)) b)
  end.

(** [CreateMembership] has the same body. *)
Definition dev_CreateMembership := dev_AssignRoleToUser.

Definition dev_GetCompanyAncestors (b : Backend) (companyID : uuid) :
    outcome rerr (list CompanyAncestor) :=
  Ok [{| a_CompanyID := companyID; a_Generations := 0; a_InheritedRoleCap := None;
         a_AccessLevel := None |}].

Definition dev_GetMembershipInCompany (e : Env) (b : Backend) (companyID userID : uuid) :
    outcome rerr (option Membership) :=
  match dev_GetMembership e b companyID userID with
  | Err err => Err err
  | Ok membership => Ok (Some membership)
  end.

#[export] Instance dev_RBACStore : RBACStore Backend := {|
  GetRoleByID := dev_GetRoleByID;
  ListRolesByCompany := dev_ListRolesByCompany;
  st_CreateRole := dev_CreateRole;
  ListPermissionsByRole := dev_ListPermissionsByRole;
  ListAllPermissions := dev_ListAllPermissions;
  AddRolePermission := dev_AddRolePermission;
  GetUserRole := dev_GetUserRole;
  GetMembership := dev_GetMembership;
  st_GetUserPermissions := dev_GetUserPermissions;
  AssignRoleToUser := dev_AssignRoleToUser;
  CreateMembership := dev_CreateMembership;
  GetCompanyAncestors := dev_GetCompanyAncestors;
  GetMembershipInCompany := dev_GetMembershipInCompany;
|}.
End devstore.
