(* ===== verification/RbacProofs.v ===== *)
(** * Access-control correctness

    The permission cache never serves a stale answer to the service that owns
    it; role assignment reads back and is guarded; the hierarchy resolver picks
    the nearest usable ancestor and caps its level; the permission matrix and
    the role names behave as a hierarchy. *)

From S2P Require Import Prelude Rbac.

(** ** Keys *)

Section keys.
Context {U : UuidText}.

Lemma cacheKey_inj u c u' c' : cacheKey u c = cacheKey u' c' → u = u' ∧ c = c'.
Proof.
  intros Hk. apply append_colon_inj in Hk as [Hu Hc]; try apply uuid_String_no_colon.
  split; by apply (inj uuid_String).
Qed.

Lemma membership_key_inj c u c' u' : membership_key c u = membership_key c' u' → c = c' ∧ u = u'.
Proof. apply cacheKey_inj. Qed.
End keys.

(** ** The cache *)

Section cache.
Context {U : UuidText} (Unmarshal : string → option (gmap string bool)).
Implicit Types (e : Env) (b : Backend) (s : Service Backend).
Abbreviation load := (load_permissions Unmarshal).

(** What the store answers does not depend on the clock, on made-up
    identifiers or on the order in which the overrides are visited. *)
Lemma load_env e e' b u c : load e b u c = load e' b u c.
Proof.
  unfold load_permissions. cbn. destruct (dev_GetUserRole b c u) as [role|]; [|done].
  unfold dev_GetMembership, apply_overrides.
  destruct (rbacMemberships b !! membership_key c u) as [m|]; cbn.
  - destruct (m_PermissionOverrides m); [|done]. destruct (Unmarshal _); [|done].
    by rewrite !foldl_insert_range.
  - by destruct (auth_role_in b c u) as [[]|].
Qed.

(** Every cached entry is what the store would answer now. *)
Definition coherent (s : Service Backend) : Prop :=
  ∀ e u c ce, cache (enforcer s) !! cacheKey u c = Some ce →
    load e (store s) u c = Ok (permissions ce, roleLevel ce).

(** The calls of the service and of its enforcer. *)
Inductive request : Type :=
  | QHasPermission (stored : time) (u c : uuid) (permission : string)
  | QCheckFeatureAction (stored : time) (u c : uuid) (feature action : string)
  | QInvalidateCache (u c : uuid)
  | QCreateRole (c : uuid) (name description : string) (level : Z) (perms : list uuid)
  | QAssignRole (c u role caller : uuid)
  | QRemoveRole (c u role : uuid).

Definition on_enforcer {A} (m : Backend → prog Enforcer rerr A) : prog (Service Backend) rerr A :=
  λ s, let '(r, en) := m (store s) (enforcer s) in (r, {| store := store s; enforcer := en |}).

Definition serve (e : Env) (q : request) : prog (Service Backend) rerr unit :=
  match q with
  | QHasPermission t u c p =>
      _ ← on_enforcer (λ st, HasPermission Unmarshal e t st u c p); mret tt
  | QCheckFeatureAction t u c f a =>
      _ ← on_enforcer (λ st, CheckFeatureAction Unmarshal e t st u c f a); mret tt
  | QInvalidateCache u c =>
      modify (λ s, {| store := store s; enforcer := InvalidateCache u c (enforcer s) |})
  | QCreateRole c n d l ps => _ ← CreateRole e c n d l ps; mret tt
  | QAssignRole c u r by_ => AssignRole e c u r by_
  | QRemoveRole c u r => RemoveRole e c u r
  end.

(** The identifier of a created role is new to the backend. *)
Record fresh_role (e : Env) (b : Backend) : Prop := {
  fresh_in_memberships k m : rbacMemberships b !! k = Some m → m_RoleID m ≠ new_id e 0;
  fresh_in_auth k r : roles b !! k = Some r → ar_ID r ≠ new_id e 0;
  fresh_in_roles k r : rbacRoles b !! k = Some r → r_ID r ≠ new_id e 0;
}.

Lemma HasPermission_spec e t b u c p en :
  (∀ ce, cache en !! cacheKey u c = Some ce → load e b u c = Ok (permissions ce, roleLevel ce)) →
  let '(r, en') := HasPermission Unmarshal e t b u c p en in
  r = match load e b u c with Ok (ps, _) => Ok (granted ps p) | Err err => Err err end ∧
  ∀ k ce, cache en' !! k = Some ce → cache en !! k = Some ce ∨
    (k = cacheKey u c ∧ load e b u c = Ok (permissions ce, roleLevel ce)).
Proof.
  intros Hco. unfold HasPermission.
  assert (∀ en1, (∀ k ce, cache en1 !! k = Some ce → cache en !! k = Some ce) →
    let '(r, en') := load_and_cache Unmarshal e t b u c p en1 in
    r = match load e b u c with Ok (ps, _) => Ok (granted ps p) | Err err => Err err end ∧
    ∀ k ce, cache en' !! k = Some ce → cache en !! k = Some ce ∨
      (k = cacheKey u c ∧ load e b u c = Ok (permissions ce, roleLevel ce))) as Hmiss.
  { intros en1 Hsub. unfold load_and_cache. destruct (load e b u c) as [[ps lv]|err]; [|by split; auto].
    split; [done|]. cbn. intros k ce. rewrite lookup_insert_Some.
    intros [[<- <-]|[_ Hk]]; [by right|by left; apply Hsub]. }
  destruct (cache en !! cacheKey u c) as [ce|] eqn:Hc; [destruct (Before _ _)|].
  - rewrite (Hco _ eq_refl). split; [done|]. by left.
  - apply Hmiss. cbn. intros k ce' [_ Hk]%lookup_delete_Some. done.
  - by apply Hmiss.
Qed.

Lemma HasPermission_coherent e t u c p s r s' :
  on_enforcer (λ st, HasPermission Unmarshal e t st u c p) s = (r, s') →
  coherent s → coherent s' ∧ store s' = store s ∧
  r = match load e (store s) u c with Ok (ps, _) => Ok (granted ps p) | Err err => Err err end.
Proof.
  intros Hc Hco. unfold on_enforcer in Hc.
  pose proof (HasPermission_spec e t (store s) u c p (enforcer s) (Hco e u c)) as Hs.
  destruct (HasPermission _ _ _ _ _ _ _ _) as [r1 en1]. simplify_eq. destruct Hs as [-> Hcache].
  split_and!; [|done|done]. intros e' u' c' ce Hk. cbn in Hk.
  apply Hcache in Hk as [Hk|[[-> ->]%cacheKey_inj Hl]]; [by apply Hco|].
  cbn. by rewrite (load_env e' e).
Qed.

Lemma CheckFeatureAction_coherent e t u c f a s r s' :
  on_enforcer (λ st, CheckFeatureAction Unmarshal e t st u c f a) s = (r, s') →
  coherent s → coherent s' ∧ store s' = store s.
Proof.
  intros Hc Hco. unfold on_enforcer, CheckFeatureAction in Hc.
  assert (∀ r s', on_enforcer (λ st, HasPermission Unmarshal e t st u c (f +:+ ":" +:+ a)) s
    = (r, s') → coherent s' ∧ store s' = store s) as Hp.
  { intros r0 s0 H0. by destruct (HasPermission_coherent _ _ _ _ _ _ _ _ H0 Hco) as (? & ? & _). }
  unfold on_enforcer in Hp.
  destruct (matrix (enforcer s) !! f ≫= _); [|by apply (Hp r s')].
  destruct (GetUserRole (store s) c u); [case_bool_decide|]; [|by apply (Hp r s')|];
    simplify_eq; by destruct s.
Qed.

Lemma invalidated_coherent b e en : coherent {| store := b; enforcer := InvalidateAll e en |}.
Proof.
  intros e' u c ce. unfold InvalidateAll. cbn. rewrite foldl_delete_range. by rewrite lookup_empty.
Qed.

Lemma AssignRole_inv e c u r by_ s res s' :
  AssignRole e c u r by_ s = (res, s') →
  match res with
  | Err _ => s' = s
  | Ok _ => ∃ b', dev_AssignRoleToUser e c u r (store s) = (Ok tt, b') ∧
      s' = {| store := b'; enforcer := InvalidateAll e (enforcer s) |} ∧
      (r = OwnerRoleID → ∃ role, GetUserRole (store s) c by_ = Ok role ∧
         (r_ID role = OwnerRoleID ∨ RoleLevelOwner ≤ r_Level role)%Z)
  end.
Proof.
  intros Hc. unfold AssignRole, invalidate_all in Hc. prog_unfold.
  assert (∀ res b', AssignRoleToUser e c u r (store s) = (res, b') →
    match res with Ok _ => True | Err _ => b' = store s end) as Herr.
  { intros res0 b' H0. cbn in H0. unfold dev_AssignRoleToUser in H0. by case_match; simplify_eq. }
  destruct (bool_decide (r = OwnerRoleID)) eqn:Hown.
  - destruct (GetUserRole (store s) c by_) as [role|err] eqn:Hrole; [|by simplify_eq].
    destruct (bool_decide (r_ID role ≠ OwnerRoleID) && _) eqn:Hbad; [by simplify_eq|].
    unfold on_store in Hc. prog_unfold.
    destruct (AssignRoleToUser e c u r (store s)) as [[[]|] b'] eqn:Ha; simplify_eq; cbn.
    + exists b'. split_and!; [done|done|]. intros _. exists role. split; [done|].
      rewrite andb_false_iff, !bool_decide_eq_false in Hbad.
      destruct Hbad as [Hb%dec_stable|Hb]; [by left|right; lia].
    + rewrite (Herr _ _ eq_refl). by destruct s.
  - unfold on_store in Hc. prog_unfold.
    destruct (AssignRoleToUser e c u r (store s)) as [[[]|] b'] eqn:Ha; simplify_eq; cbn.
    + exists b'. split_and!; [done|done|]. by apply bool_decide_eq_false in Hown.
    + rewrite (Herr _ _ eq_refl). by destruct s.
Qed.
Lemma RemoveRole_inv e c u r s res s' :
  RemoveRole e c u r s = (res, s') →
  match res with
  | Err _ => s' = s
  | Ok _ => ∃ b', dev_AssignRoleToUser e c u MemberRoleID (store s) = (Ok tt, b') ∧
      s' = {| store := b'; enforcer := InvalidateAll e (enforcer s) |} ∧ r ≠ OwnerRoleID
  end.
Proof.
  intros Hc. unfold RemoveRole, invalidate_all, on_store in Hc. prog_unfold.
  destruct (bool_decide (r = OwnerRoleID)) eqn:Hr; [by simplify_eq|]. cbn in Hc.
  unfold dev_AssignRoleToUser in *.
  destruct (rbacRoles (store s) !! MemberRoleID); simplify_eq; [|by destruct s].
  eexists. split_and!; [done|done|]. by apply bool_decide_eq_false in Hr.
Qed.

(** Creating a role touches only the fresh role and its permissions. *)
Lemma add_permissions_store id pids s :
  ∃ rp, add_permissions id pids s =
    (Ok tt, {| store := set_rolePermissions rp (store s); enforcer := enforcer s |}) ∧
    ∀ k, k ≠ id → rp !! k = rolePermissions (store s) !! k.
Proof.
  revert s. induction pids as [|pid pids IH]; intros s.
  - exists (rolePermissions (store s)). split; [|done]. by destruct s as [[] ?].
  - cbn [add_permissions]. unfold on_store, ignore. prog_unfold. cbn.
    match goal with |- context [add_permissions id pids ?s1] => destruct (IH s1) as (rp & -> & Hrp) end.
    exists rp. split; [done|]. intros k Hk. rewrite Hrp by done. cbn. by rewrite lookup_insert_ne.
Qed.

Lemma load_new_role e e' b role rp u c :
  fresh_role e' b → r_ID role = new_id e' 0 →
  (∀ k, k ≠ new_id e' 0 → rp !! k = rolePermissions b !! k) →
  load e (set_rolePermissions rp (set_rbacRoles (<[r_ID role := role]> (rbacRoles b)) b)) u c
  = load e b u c.
Proof.
  intros [Hm Ha Hr] Hid Hrp. unfold load_permissions. cbn.
  set (b' := set_rolePermissions rp _).
  assert (dev_GetUserRole b' c u = dev_GetUserRole b c u) as Hrole.
  { unfold dev_GetUserRole. cbn. destruct (rbacMemberships b !! membership_key c u) as [m|] eqn:Hk;
      cbn; [|done]. by rewrite lookup_insert_ne by (rewrite Hid; symmetry; by eapply Hm). }
  rewrite Hrole. destruct (dev_GetUserRole b c u) as [ro|] eqn:Hro; [|done].
  assert (r_ID ro ≠ new_id e' 0) as Hne.
  { unfold dev_GetUserRole in Hro.
    destruct (rbacMemberships b !! membership_key c u ≫= _) as [ro'|] eqn:Hk.
    - simplify_eq. apply bind_Some in Hk as (m & _ & Hk). by eapply Hr.
    - destruct (auth_role_in b c u) as [[am ar]|] eqn:Har; simplify_eq. cbn.
      unfold auth_role_in in Har. apply head_Some_elem_of in Har.
      apply list_elem_of_omap in Har as (am' & _ & Har). case_bool_decide; [|done].
      apply fmap_Some in Har as (ar' & Hl & ?). simplify_eq. by eapply Ha. }
  unfold dev_ListPermissionsByRole. cbn. by rewrite Hrp.
Qed.

Lemma CreateRole_coherent e c n d l ps s r s' :
  fresh_role e (store s) → CreateRole e c n d l ps s = (r, s') → coherent s → coherent s'.
Proof.
  intros Hf Hc Hco. unfold CreateRole, on_store in Hc. prog_unfold. cbn in Hc.
  unfold dev_CreateRole in Hc. prog_unfold. cbn in Hc.
  match type of Hc with context [add_permissions ?id ps ?s1] =>
    destruct (add_permissions_store id ps s1) as (rp & Hadd & Hrp); rewrite Hadd in Hc end.
  simplify_eq. intros e' u c' ce Hce. cbn in *. rewrite <-(Hco e' u c' ce Hce).
  by eapply load_new_role.
Qed.

Lemma serve_coherent e q s r s' :
  fresh_role e (store s) → serve e q s = (r, s') → coherent s → coherent s'.
Proof.
  intros Hf Hc Hco. destruct q; cbn in Hc; unfold mbind, prog_bind, mret, prog_ret in Hc.
  - destruct (on_enforcer _ _) as [[] ?] eqn:H0; simplify_eq;
      by apply HasPermission_coherent in H0 as (? & _ & _).
  - destruct (on_enforcer _ _) as [[] ?] eqn:H0; simplify_eq;
      by apply CheckFeatureAction_coherent in H0 as [? _].
  - unfold modify in Hc. simplify_eq. intros e' u' c' ce. cbn. intros [_ Hk]%lookup_delete_Some.
    by apply Hco.
  - destruct (CreateRole _ _ _ _ _ _ _) as [[] ?] eqn:H0; simplify_eq; by eapply CreateRole_coherent.
  - apply AssignRole_inv in Hc. destruct r; [|by subst]. destruct Hc as (b' & _ & -> & _).
    apply invalidated_coherent.
  - apply RemoveRole_inv in Hc. destruct r; [|by subst]. destruct Hc as (b' & _ & -> & _).
    apply invalidated_coherent.
Qed.

Inductive rbac_step : relation (Service Backend) :=
  | rbac_call e q s r s' : fresh_role e (store s) → serve e q s = (r, s') → rbac_step s s'.

(** C7: the permission cache is never stale: after any sequence of permission
    checks, invalidations, role creations, assignments and removals through
    the service, [HasPermission] answers what the store says at that moment,
    whether or not the answer was cached. *)
Theorem permission_cache_never_stale s0 s e t u c p :
  cache (enforcer s0) = ∅ → rtc rbac_step s0 s →
  (HasPermission Unmarshal e t (store s) u c p (enforcer s)).1 =
  match load e (store s) u c with Ok (ps, _) => Ok (granted ps p) | Err err => Err err end.
Proof.
  intros Hem Hrun. assert (coherent s) as Hco.
  { apply (rtc_preserves rbac_step coherent s0 s); [|done|].
    - intros a b [e' q a' r b' Hf Hc]. by eapply serve_coherent.
    - intros e' u' c' ce. by rewrite Hem. }
  pose proof (HasPermission_spec e t (store s) u c p (enforcer s) (Hco e u c)) as Hs.
  destruct (HasPermission _ _ _ _ _ _ _ _) as [r en']. by destruct Hs.
Qed.

(** A successful [AssignRole] reads back: the user now has exactly that
    role in that company, nobody else's role changes, the cache is empty, and
    the owner role was granted only by a caller who is owner or of owner
    level; a failing one changes nothing. *)
Theorem AssignRole_exact e c u r by_ s res s' :
  AssignRole e c u r by_ s = (res, s') →
  match res with
  | Err _ => s' = s
  | Ok _ =>
      (∃ role, rbacRoles (store s) !! r = Some role ∧ GetUserRole (store s') c u = Ok role) ∧
      (∀ c' u', (c', u') ≠ (c, u) → GetUserRole (store s') c' u' = GetUserRole (store s) c' u') ∧
      cache (enforcer s') = ∅ ∧
      (r = OwnerRoleID → ∃ role, GetUserRole (store s) c by_ = Ok role ∧
         (r_ID role = OwnerRoleID ∨ RoleLevelOwner ≤ r_Level role)%Z)
  end.
Proof.
  intros Hc. apply AssignRole_inv in Hc. destruct res as [|err]; [|done].
  destruct Hc as (b' & Ha & -> & Hg). cbn. unfold dev_AssignRoleToUser in Ha.
  destruct (rbacRoles (store s) !! r) as [role|] eqn:Hr; [|done]. simplify_eq. split_and!.
  - exists role. split; [done|]. unfold dev_GetUserRole. cbn. by rewrite lookup_insert_eq; cbn; rewrite Hr.
  - intros c' u' Hne. unfold dev_GetUserRole. cbn. rewrite lookup_insert_ne; [done|].
    intros [-> ->]%membership_key_inj. done.
  - unfold InvalidateAll. cbn. apply foldl_delete_range.
  - done.
Qed.

(** Nothing guards the super-admin role: where it is seeded, any caller,
    even one without any role, can assign it to any user, who then passes
    every minimum-level check up to its level. *)
Theorem AssignRole_superadmin_unguarded e c u by_ s role lvl :
  rbacRoles (store s) !! SuperAdminRoleID = Some role → (lvl ≤ r_Level role)%Z →
  ∃ s', AssignRole e c u SuperAdminRoleID by_ s = (Ok tt, s') ∧
    HasMinimumRole (store s') u c lvl = Ok true.
Proof.
  intros Hr Hl. eexists. split.
  - unfold AssignRole, invalidate_all, on_store. rewrite bool_decide_false by (by vm_compute).
    prog_unfold. cbn [AssignRoleToUser dev_RBACStore]. unfold dev_AssignRoleToUser. by rewrite Hr.
  - cbn. unfold HasMinimumRole. cbn. unfold dev_GetUserRole. cbn.
    rewrite lookup_insert_eq. cbn. rewrite Hr. by rewrite bool_decide_true.
Qed.
End cache.

(** ** The hierarchy resolver *)

Section resolver.
Context {U : UuidText} {St : Type} {S : RBACStore St}.

Lemma resolve_via_caps e st c u a r :
  resolve_via e st c u a = Some r →
  rm_SourceCompany r = a_CompanyID a ∧ rm_IsDirect r = false ∧ rm_AccessLevel r ≠ "none" ∧
  (rm_CappedLevel r ≤ rm_RoleLevel r)%Z ∧
  (∀ cap, a_InheritedRoleCap a = Some cap → (rm_CappedLevel r ≤ cap)%Z).
Proof.
  unfold resolve_via. intros Hr.
  destruct (GetMembershipInCompany e st (a_CompanyID a) u) as [[m|]|]; [|done..].
  destruct (bool_decide (_ = "none")) eqn:Hn; [done|]. apply bool_decide_eq_false in Hn.
  simplify_eq/=. split_and!; [done..| |].
  - destruct (a_InheritedRoleCap a); [case_bool_decide|]; lia.
  - intros cap ->. case_bool_decide; lia.
Qed.

Lemma walk_ancestors_spec e st c u l :
  match walk_ancestors e st c u l with
  | Some r => ∃ pre a post, l = pre ++ a :: post ∧ resolve_via e st c u a = Some r ∧
      Forall (λ a', resolve_via e st c u a' = None) pre
  | None => Forall (λ a', resolve_via e st c u a' = None) l
  end.
Proof.
  induction l as [|a l IH]; cbn; [done|].
  destruct (resolve_via e st c u a) as [r|] eqn:Ha.
  - by exists [], a, l.
  - destruct (walk_ancestors e st c u l); [|by constructor].
    destruct IH as (pre & a' & post & -> & Hr & Hpre). exists (a :: pre), a', post.
    by split_and!; [|done|constructor].
Qed.

(** The resolver returns a direct membership with its full level when there
    is one; otherwise the first ancestor in the store's order that has a
    membership of the user and does not deny access, with a level that never
    exceeds the member's own nor the ancestor's cap; otherwise an error, in
    which case no ancestor was usable. *)
Theorem ResolveMembership_nearest e st c u :
  match ResolveMembership e st c u with
  | Ok r =>
      rm_CompanyID r = c ∧ rm_AccessLevel r ≠ "none" ∧
      ((∃ m, GetMembershipInCompany e st c u = Ok (Some m) ∧ rm_IsDirect r = true ∧
          rm_SourceCompany r = c ∧ rm_RoleLevel r = m_RoleLevel m ∧
          rm_CappedLevel r = m_RoleLevel m) ∨
       (∃ pre a post, GetCompanyAncestors st c = Ok (pre ++ a :: post) ∧
          (∀ m, GetMembershipInCompany e st c u ≠ Ok (Some m)) ∧
          Forall (λ a', resolve_via e st c u a' = None) pre ∧
          rm_IsDirect r = false ∧ rm_SourceCompany r = a_CompanyID a ∧
          (rm_CappedLevel r ≤ rm_RoleLevel r)%Z ∧
          (∀ cap, a_InheritedRoleCap a = Some cap → (rm_CappedLevel r ≤ cap)%Z)))
  | Err _ =>
      (∀ m, GetMembershipInCompany e st c u ≠ Ok (Some m)) ∧
      ∀ ancestors, GetCompanyAncestors st c = Ok ancestors →
        Forall (λ a', resolve_via e st c u a' = None) ancestors
  end.
Proof.
  unfold ResolveMembership.
  destruct (GetMembershipInCompany e st c u) as [[m|]|err]; [by split_and!; [..|left; exists m]|..].
  all: destruct (GetCompanyAncestors st c) as [l|]; [|by split].
  all: pose proof (walk_ancestors_spec e st c u l) as Hw.
  all: destruct (walk_ancestors e st c u l) as [r|]; [|split; [done|]; by intros ? [= <-]].
  all: destruct Hw as (pre & a & post & -> & Hr & Hpre).
  all: pose proof (resolve_via_caps _ _ _ _ _ _ Hr) as (Hsrc & Hd & Hacc & Hcap & Hcaps).
  all: split_and!; [|done|right; by exists pre, a, post].
  all: unfold resolve_via in Hr; repeat case_match; by simplify_eq.
Qed.
End resolver.

(** ** Feature checks *)

(** Over any store, [CheckFeatureAction] grants an action the matrix lists
    only to a user whose role reaches the listed level, and only with the
    permission itself; a user below that level is refused without touching the
    cache. *)
Theorem CheckFeatureAction_respects_matrix {U : UuidText} {St : Type} {S : RBACStore St}
    Unmarshal e t (st : St) u c f a en row minLevel role :
  matrix en !! f = Some row → row !! a = Some minLevel → GetUserRole st c u = Ok role →
  CheckFeatureAction Unmarshal e t st u c f a en =
    if bool_decide (r_Level role < minLevel)%Z then (Ok false, en)
    else HasPermission Unmarshal e t st u c (f +:+ ":" +:+ a) en.
Proof.
  intros Hf Ha Hr. unfold CheckFeatureAction. rewrite Hf. cbn. by rewrite Ha, Hr.
Qed.

(** ** The matrix and the role names *)

Definition row_ok (row : gmap string Z) : Prop :=
  row !! "view" = Some RoleLevelViewer ∧
  (∃ l, row !! "admin" = Some l ∧ RoleLevelAdmin ≤ l)%Z ∧
  map_Forall (λ _ l, RoleLevelViewer ≤ l ≤ RoleLevelOwner)%Z row.

Definition row_okb (row : gmap string Z) : bool :=
  bool_decide (row !! "view" = Some RoleLevelViewer)
  && match row !! "admin" with Some l => bool_decide (RoleLevelAdmin ≤ l)%Z | None => false end
  && bool_decide (map_Forall (λ _ l, RoleLevelViewer ≤ l ≤ RoleLevelOwner)%Z row).

Lemma row_okb_ok row : row_okb row = true → row_ok row.
Proof.
  unfold row_okb, row_ok. rewrite !andb_true_iff, !bool_decide_eq_true.
  intros [[Hv Ha] Hall]. split_and!; [done| |done].
  destruct (row !! "admin") as [l|]; [|done]. exists l. by apply bool_decide_eq_true in Ha.
Qed.

(** In the default matrix every feature lets a viewer view and reserves
    its administration to admins or above, every action is open to the owner,
    and access is monotone: a role name whose level is at least that of an
    allowed one is allowed too. *)
Theorem default_matrix_hierarchy :
  map_Forall (λ _ row, row_ok row) DefaultPermissionMatrix ∧
  (∀ f row a l, DefaultPermissionMatrix !! f = Some row → row !! a = Some l →
     AllowedByRoleName DefaultPermissionMatrix "owner" f a = true) ∧
  (∀ m n1 n2 l1 l2 f a, RoleLevelByName !! n1 = Some l1 → RoleLevelByName !! n2 = Some l2 →
     (l1 ≤ l2)%Z → AllowedByRoleName m n1 f a = true → AllowedByRoleName m n2 f a = true).
Proof.
  assert (map_Forall (λ _ row, row_ok row) DefaultPermissionMatrix) as Hrows.
  { intros f row Hrow. apply row_okb_ok. revert f row Hrow.
    apply (bool_decide_unpack (map_Forall (λ _ row, row_okb row = true) DefaultPermissionMatrix)).
    by vm_compute. }
  split_and!; [done|..].
  - intros f row a l Hf Ha. unfold AllowedByRoleName. rewrite Hf, Ha.
    replace (RoleLevelByName !! "owner") with (Some RoleLevelOwner) by (by vm_compute).
    destruct (Hrows f row Hf) as (_ & _ & Hall). specialize (Hall a l Ha). cbn in Hall.
    apply bool_decide_eq_true. lia.
  - intros m n1 n2 l1 l2 f a H1 H2 Hle. unfold AllowedByRoleName. rewrite H1, H2.
    destruct (m !! f) as [row|]; [|done]. destruct (row !! a); [|done].
    rewrite !bool_decide_eq_true. lia.
Qed.

(** Role names and levels round trip: naming the level of a known role
    gives the role back, and the name of any level is a known role whose level
    is the greatest one not above it (viewer below the lowest). *)
Theorem role_name_roundtrip :
  (∀ n l, RoleLevelByName !! n = Some l → RoleNameByLevel l = n) ∧
  (∀ l, ∃ l', RoleLevelByName !! RoleNameByLevel l = Some l' ∧ (RoleLevelViewer ≤ l → l' ≤ l)%Z ∧
     ∀ n k, RoleLevelByName !! n = Some k → (k ≤ l → k ≤ l')%Z).
Proof.
  assert (∀ n k, RoleLevelByName !! n = Some k →
    (n, k) ∈ [("viewer", 20); ("member", 40); ("manager", 60); ("admin", 80); ("owner", 90);
              ("super_admin", 100)]%Z) as Hall.
  { intros n k Hn. by apply elem_of_list_to_map_2 in Hn. }
  split.
  - intros n l Hn. apply Hall in Hn. repeat (apply elem_of_cons in Hn as [?|Hn]; [by simplify_eq|]).
    by apply not_elem_of_nil in Hn.
  - intros l. unfold RoleNameByLevel.
    repeat case_bool_decide; eexists; (split; [by vm_compute|]);
      unfold RoleLevelSuperAdmin, RoleLevelOwner, RoleLevelAdmin, RoleLevelManager,
        RoleLevelMember, RoleLevelViewer in *; (split; [lia|]);
      intros n k Hn; apply Hall in Hn;
      repeat (apply elem_of_cons in Hn as [?|Hn]; [simplify_eq; lia|]); by apply not_elem_of_nil in Hn.
Qed.

(** ** Witnesses *)

Definition example_env (n : nat) : Env :=
  {| now := Z.of_nat n; new_id := λ k, (1000 + N.of_nat n)%N; order := canonical_range |}.
Definition example_role (id : uuid) (lvl : Z) : Role :=
  {| r_ID := id; r_CompanyID := None; r_Name := RoleNameByLevel lvl; r_Description := "";
     r_Level := lvl; r_IsSystem := true |}.
Definition example_backend : Backend :=
  {| rbacRoles := {[ViewerRoleID := example_role ViewerRoleID 20;
                    SuperAdminRoleID := example_role SuperAdminRoleID 100]};
     rbacPermissions := {[1%N := {| p_ID := 1; p_Feature := "crm"; p_Action := "view";
                                    p_Resource := "" |}]};
     rolePermissions := {[ViewerRoleID := [1%N]]};
     rbacMemberships := ∅; memberships := ∅; roles := ∅ |}.
Definition example_matrix : PermissionMatrix :=
  {[FeatureCRM := {["delete" := RoleLevelManager]}]}.
Definition example_service : Service Backend :=
  {| store := example_backend; enforcer := NewEnforcer (Some example_matrix) |}.
Definition example_unmarshal (_ : string) : option (gmap string bool) := None.
Definition example_store : RBACStore Backend := dev_RBACStore (U := binary_uuid_text).
Definition example_assigned : Service Backend :=
  (AssignRole (S := example_store) (example_env 1) 5 6 ViewerRoleID 7 example_service).2.

Lemma example_fresh : fresh_role (example_env 1) example_backend.
Proof.
  split; [intros k m; cbn; by rewrite lookup_empty..|].
  intros k r Hk. cbn in Hk. apply lookup_insert_Some in Hk as [[<- <-]|[_ Hk]]; [by vm_compute|].
  apply lookup_singleton_Some in Hk as [<- <-]. by vm_compute.
Qed.

Lemma permission_cache_never_stale_witness :
  (HasPermission (U := binary_uuid_text) (S := example_store) example_unmarshal (example_env 2) 3
     (store example_assigned) 6 5 "crm:view" (enforcer example_assigned)).1 = Ok true.
Proof.
  rewrite (permission_cache_never_stale (U := binary_uuid_text) example_unmarshal
    example_service example_assigned); [by vm_compute|done|].
  apply rtc_once. apply (rbac_call _ (example_env 1) (QAssignRole 5 6 ViewerRoleID 7) _ (Ok tt)).
  - apply example_fresh.
  - by vm_compute.
Defined.

Lemma AssignRole_exact_witness : cache (enforcer example_assigned) = ∅.
Proof.
  apply (AssignRole_exact (U := binary_uuid_text) (example_env 1) 5 6 ViewerRoleID 7
           example_service (Ok tt) example_assigned). by vm_compute.
Defined.

Lemma AssignRole_superadmin_unguarded_witness :
  ∃ s', AssignRole (S := example_store) (example_env 1) 5 6 SuperAdminRoleID 7 example_service =
      (Ok tt, s') ∧ HasMinimumRole (S := example_store) (store s') 6 5 100 = Ok true.
Proof.
  apply (AssignRole_superadmin_unguarded (U := binary_uuid_text) _ _ _ _ _
           (example_role SuperAdminRoleID 100)); by vm_compute.
Defined.

Lemma CheckFeatureAction_respects_matrix_witness :
  (CheckFeatureAction (U := binary_uuid_text) (S := example_store) example_unmarshal (example_env 2) 3
     (store example_assigned) 6 5 FeatureCRM "delete" (enforcer example_assigned)).1 = Ok false.
Proof.
  rewrite (CheckFeatureAction_respects_matrix (U := binary_uuid_text) _ _ _ _ _ _ _ _ _
    {["delete" := RoleLevelManager]} RoleLevelManager (example_role ViewerRoleID 20));
    by vm_compute.
Defined.
