(* ===== verification/Livekit.v ===== *)
(** * Calls and meetings (platform/livekit)

    state.go, types.go, roomname.go and errors.go; the in-memory store of
    store.go; every handler of service.go, recording.go and the webhook
    dispatch of webhook.go.  The state of a service is its store, the timers it
    has armed, the events it has signalled and the requests it has made to the
    LiveKit server, whose answers are an argument of each handler.  The theorems
    are in [LivekitProofs]. *)

From S2P Require Import Prelude.

(** ** state.go *)

Abbreviation CallState := string (only parsing).
Definition StateRinging : CallState := "ringing".
Definition StateConnecting : CallState := "connecting".
Definition StateConnected : CallState := "connected".
Definition StateDeclined : CallState := "declined".
Definition StateMissed : CallState := "missed".
Definition StateFailed : CallState := "failed".
Definition StateEnded : CallState := "ended".

Definition CallState_IsTerminal (s : CallState) : bool :=
  bool_decide (s = StateDeclined) || bool_decide (s = StateMissed)
  || bool_decide (s = StateFailed) || bool_decide (s = StateEnded).

Definition callTransitions : gmap string (gset string) := list_to_map [
  (StateRinging, {[StateConnecting; StateDeclined; StateMissed; StateFailed]});
  (StateConnecting, {[StateConnected; StateFailed; StateEnded]});
  (StateConnected, {[StateEnded]})].

Definition ValidCallTransition (from to : CallState) : bool :=
  match callTransitions !! from with
  | None => false
  | Some allowed => bool_decide (to ∈ allowed)
  end.

Abbreviation MeetingState := string (only parsing).
Definition MeetingStateScheduled : MeetingState := "scheduled".
Definition MeetingStateActive : MeetingState := "active".
Definition MeetingStateEnded : MeetingState := "ended".

Definition MeetingState_IsTerminal (s : MeetingState) : bool := bool_decide (s = MeetingStateEnded).

Definition meetingTransitions : gmap string (gset string) := list_to_map [
  (MeetingStateScheduled, {[MeetingStateActive; MeetingStateEnded]});
  (MeetingStateActive, {[MeetingStateEnded]})].

Definition ValidMeetingTransition (from to : MeetingState) : bool :=
  match meetingTransitions !! from with
  | None => false
  | Some allowed => bool_decide (to ∈ allowed)
  end.

Abbreviation RecordingState := string (only parsing).
Definition RecordingStateRecording : RecordingState := "recording".
Definition RecordingStateProcessing : RecordingState := "processing".
Definition RecordingStateCompleted : RecordingState := "completed".
Definition RecordingStateFailed : RecordingState := "failed".

(** ** types.go and errors.go *)

Abbreviation CallType := string (only parsing).
Definition CallTypeVoice : CallType := "voice".
Definition CallTypeVideo : CallType := "video".

Record Call : Type := {
  c_ID : uuid;
  c_RoomName : string;
  c_CallerID : uuid;
  c_CalleeID : uuid;
  c_CallType : CallType;
  c_State : CallState;
  c_StartedAt : time;
  c_AnsweredAt : option time;
  c_ConnectedAt : option time;
  c_EndedAt : option time;
  c_EndReason : string;
  c_Duration : duration;
}.

Record Meeting : Type := {
  m_ID : uuid;
  m_RoomName : string;
  m_Title : string;
  m_CreatorID : uuid;
  m_MaxParticipants : Z;
  m_RecordingEnabled : bool;
  m_E2EEEnabled : bool;
  m_State : MeetingState;
  m_StartedAt : option time;
  m_EndedAt : option time;
  m_CreatedAt : time;
}.

Record Participant : Type := {
  p_MeetingID : uuid;
  p_UserID : uuid;
  p_JoinedAt : time;
  p_LeftAt : option time;
}.

Record Recording : Type := {
  r_ID : uuid;
  r_MeetingID : uuid;
  r_EgressID : string;
  r_State : RecordingState;
  r_FilePath : string;
  r_FileSize : Z;
  r_Duration : duration;
  r_StartedAt : time;
  r_EndedAt : option time;
}.

Record CallAcceptedResult : Type := {
  acc_Call : Call;
  acc_LiveKitURL : string;
  acc_CalleeToken : string;
}.

Record MeetingJoinResult : Type := {
  join_Meeting : Meeting;
  join_LiveKitURL : string;
  join_Token : string;
  join_E2EEEnabled : bool;
}.

Definition EventCallInvite := "call.invite".
Definition EventCallAccepted := "call.accepted".
Definition EventCallDeclined := "call.declined".
Definition EventCallEnded := "call.ended".
Definition EventCallMissed := "call.missed".

Inductive livekit_error : Type :=
  | ErrInvalidCallType
  | ErrCallNotFound
  | ErrMeetingNotFound
  | ErrRecordingNotFound
  | ErrInvalidState
  | ErrUserBusy
  | ErrNotParticipant
  | ErrMeetingFull
  | ErrUnauthorized
  | ErrConfig.
#[export] Instance livekit_error_eq_dec : EqDecision livekit_error.
Proof. solve_decision. Defined.
Abbreviation lerr := (goerr livekit_error) (only parsing).

Definition CallType_Validate (t : CallType) : option lerr :=
  if bool_decide (t ≠ CallTypeVoice) && bool_decide (t ≠ CallTypeVideo)
  then Some (Sentinel ErrInvalidCallType) else None.

(** ** roomname.go *)

Definition callRoomPrefix : string := "call-".
Definition meetingRoomPrefix : string := "meeting-".

Definition IsCallRoom (roomName : string) : bool := String.prefix callRoomPrefix roomName.
Definition IsMeetingRoom (roomName : string) : bool := String.prefix meetingRoomPrefix roomName.

Section livekit.
Context {U : UuidText}.

Definition CallIDFromRoomName (roomName : string) : outcome lerr uuid :=
  if negb (IsCallRoom roomName) then Err (Errorf "room does not have the call prefix")
  else match uuid_Parse (trim_prefix callRoomPrefix roomName) with
       | Some id => Ok id
       | None => Err (Errorf "invalid UUID")
       end.

Definition MeetingIDFromRoomName (roomName : string) : outcome lerr uuid :=
  if negb (IsMeetingRoom roomName) then Err (Errorf "room does not have the meeting prefix")
  else match uuid_Parse (trim_prefix meetingRoomPrefix roomName) with
       | Some id => Ok id
       | None => Err (Errorf "invalid UUID")
       end.

(** ** The state of a service *)

(** A request made to the LiveKit server. *)
Inductive room_request : Type :=
  | ReqCreateCallRoom (callID : string)
  | ReqCreateMeetingRoom (name : string) (maxParticipants : Z)
  | ReqDeleteRoom (room : string)
  | ReqStartEgress (room layout filepath : string)
  | ReqStopEgress (egressID : string).

Record State : Type := {
  calls : gmap uuid Call;
  meetings : gmap uuid Meeting;
  participants : gmap uuid (list Participant);
  recordings : gmap uuid Recording;
  (** armed ringing timers: deadline and call *)
  timers : list (time * uuid);
  (** [SendToUser] calls: user, event type, payload *)
  signals : list (uuid * string * gmap string string);
  requests : list room_request;
}.

Definition NewState : State :=
  {| calls := ∅; meetings := ∅; participants := ∅; recordings := ∅;
     timers := []; signals := []; requests := [] |}.

Definition set_calls (x : gmap uuid Call) (s : State) : State :=
  {| calls := x; meetings := meetings s; participants := participants s;
     recordings := recordings s; timers := timers s; signals := signals s;
     requests := requests s |}.
Definition set_meetings (x : gmap uuid Meeting) (s : State) : State :=
  {| calls := calls s; meetings := x; participants := participants s;
     recordings := recordings s; timers := timers s; signals := signals s;
     requests := requests s |}.
Definition set_participants (x : gmap uuid (list Participant)) (s : State) : State :=
  {| calls := calls s; meetings := meetings s; participants := x;
     recordings := recordings s; timers := timers s; signals := signals s;
     requests := requests s |}.
Definition set_recordings (x : gmap uuid Recording) (s : State) : State :=
  {| calls := calls s; meetings := meetings s; participants := participants s;
     recordings := x; timers := timers s; signals := signals s; requests := requests s |}.
Definition set_timers (x : list (time * uuid)) (s : State) : State :=
  {| calls := calls s; meetings := meetings s; participants := participants s;
     recordings := recordings s; timers := x; signals := signals s; requests := requests s |}.
Definition set_signals (x : list (uuid * string * gmap string string)) (s : State) : State :=
  {| calls := calls s; meetings := meetings s; participants := participants s;
     recordings := recordings s; timers := timers s; signals := x; requests := requests s |}.
Definition set_requests (x : list room_request) (s : State) : State :=
  {| calls := calls s; meetings := meetings s; participants := participants s;
     recordings := recordings s; timers := timers s; signals := signals s; requests := x |}.

Abbreviation lk A := (prog State lerr A) (only parsing).

(** ** store.go *)

(** [if x.ID == uuid.Nil { x.ID = uuid.New() }]. *)
Definition or_new (e : Env) (id : uuid) : uuid :=
  if bool_decide (id = uuid_Nil) then new_id e 9 else id.

Definition with_call_id (id : uuid) (c : Call) : Call :=
  {| c_ID := id; c_RoomName := c_RoomName c; c_CallerID := c_CallerID c;
     c_CalleeID := c_CalleeID c; c_CallType := c_CallType c; c_State := c_State c;
     c_StartedAt := c_StartedAt c; c_AnsweredAt := c_AnsweredAt c;
     c_ConnectedAt := c_ConnectedAt c; c_EndedAt := c_EndedAt c; c_EndReason := c_EndReason c;
     c_Duration := c_Duration c |}.
Definition with_meeting_id (id : uuid) (m : Meeting) : Meeting :=
  {| m_ID := id; m_RoomName := m_RoomName m; m_Title := m_Title m; m_CreatorID := m_CreatorID m;
     m_MaxParticipants := m_MaxParticipants m; m_RecordingEnabled := m_RecordingEnabled m;
     m_E2EEEnabled := m_E2EEEnabled m; m_State := m_State m; m_StartedAt := m_StartedAt m;
     m_EndedAt := m_EndedAt m; m_CreatedAt := m_CreatedAt m |}.
Definition with_recording_id (id : uuid) (r : Recording) : Recording :=
  {| r_ID := id; r_MeetingID := r_MeetingID r; r_EgressID := r_EgressID r; r_State := r_State r;
     r_FilePath := r_FilePath r; r_FileSize := r_FileSize r; r_Duration := r_Duration r;
     r_StartedAt := r_StartedAt r; r_EndedAt := r_EndedAt r |}.

Definition CreateCall (e : Env) (call : Call) : lk Call :=
  let call := with_call_id (or_new e (c_ID call)) call in
  _ ← modify (λ s, set_calls (<[c_ID call := call]> (calls s)) s);
  mret call.

Definition GetCall (id : uuid) : lk Call := λ s,
  match calls s !! id with
  | None => (Err (Sentinel ErrCallNotFound), s)
  | Some c => (Ok c, s)
  end.

Definition UpdateCall (call : Call) : lk Call := λ s,
  match calls s !! c_ID call with
  | None => (Err (Sentinel ErrCallNotFound), s)
  | Some _ => (Ok call, set_calls (<[c_ID call := call]> (calls s)) s)
  end.

(** The user takes part in the call and it is not over. *)
Definition active_for (userID : uuid) (c : Call) : bool :=
  (bool_decide (c_CallerID c = userID) || bool_decide (c_CalleeID c = userID))
  && negb (CallState_IsTerminal (c_State c)).

Definition GetActiveCallForUser (e : Env) (userID : uuid) : lk Call := λ s,
  match List.find (active_for userID) (range_values (R := order e) (calls s)) with
  | Some c => (Ok c, s)
  | None => (Err (Sentinel ErrCallNotFound), s)
  end.

(** The pagination of the two lists; the callers pass offsets of at least 0. *)
Definition page {A} (limit offset : Z) (out : list A) : list A :=
  if bool_decide (Z.of_nat (length out) < offset)%Z then []
  else
    let out := drop_Z offset out in
    if bool_decide (0 < limit)%Z && bool_decide (limit < Z.of_nat (length out))%Z
    then take_Z limit out else out.

Definition st_ListCallsForUser (e : Env) (userID : uuid) (limit offset : Z) : lk (list Call) :=
  gets (λ s, page limit offset (sort_slice (λ a b, After (c_StartedAt a) (c_StartedAt b))
    (filter (λ c, c_CallerID c = userID ∨ c_CalleeID c = userID)
      (range_values (R := order e) (calls s))))).

Definition st_CreateMeeting (e : Env) (m : Meeting) : lk Meeting :=
  let m := with_meeting_id (or_new e (m_ID m)) m in
  _ ← modify (λ s, set_meetings (<[m_ID m := m]> (meetings s)) s);
  mret m.

Definition GetMeeting (id : uuid) : lk Meeting := λ s,
  match meetings s !! id with
  | None => (Err (Sentinel ErrMeetingNotFound), s)
  | Some m => (Ok m, s)
  end.

Definition UpdateMeeting (m : Meeting) : lk Meeting := λ s,
  match meetings s !! m_ID m with
  | None => (Err (Sentinel ErrMeetingNotFound), s)
  | Some _ => (Ok m, set_meetings (<[m_ID m := m]> (meetings s)) s)
  end.

Definition st_ListMeetingsForCreator (e : Env) (userID : uuid) (limit offset : Z) :
    lk (list Meeting) :=
  gets (λ s, page limit offset (sort_slice (λ a b, After (m_CreatedAt a) (m_CreatedAt b))
    (filter (λ m, m_CreatorID m = userID) (range_values (R := order e) (meetings s))))).

Definition parts_of (s : State) (meetingID : uuid) : list Participant :=
  default [] (participants s !! meetingID).

(** [p.UserID == userID && p.LeftAt == nil]. *)
Definition present (userID : uuid) (p : Participant) : bool :=
  bool_decide (p_UserID p = userID) && bool_decide (p_LeftAt p = None).

Definition AddParticipant (p : Participant) : lk unit := λ s,
  match meetings s !! p_MeetingID p with
  | None => (Err (Sentinel ErrMeetingNotFound), s)
  | Some _ =>
      if any (present (p_UserID p)) (parts_of s (p_MeetingID p)) then (Ok tt, s)
      else (Ok tt, set_participants
             (<[p_MeetingID p := parts_of s (p_MeetingID p) ++ [p]]> (participants s)) s)
  end.

(** Marks the first present record of the user, if any. *)
Fixpoint mark_left (userID : uuid) (leftAt : time) (parts : list Participant) :
    option (list Participant) :=
  match parts with
  | [] => None
  | p :: rest =>
      if present userID p
      then Some ({| p_MeetingID := p_MeetingID p; p_UserID := p_UserID p;
                    p_JoinedAt := p_JoinedAt p; p_LeftAt := Some leftAt |} :: rest)
      else cons p <$> mark_left userID leftAt rest
  end.

Definition RemoveParticipant (meetingID userID : uuid) (leftAt : time) : lk unit := λ s,
  match mark_left userID leftAt (parts_of s meetingID) with
  | Some parts => (Ok tt, set_participants (<[meetingID := parts]> (participants s)) s)
  | None => (Err (Sentinel ErrNotParticipant), s)
  end.

Definition joined (p : Participant) : bool := bool_decide (p_LeftAt p = None).

Definition CountActiveParticipants (meetingID : uuid) : lk Z :=
  gets (λ s, Z.of_nat (count joined (parts_of s meetingID))).

Definition ListParticipants (meetingID : uuid) : lk (list Participant) :=
  gets (λ s, parts_of s meetingID).

Definition CreateRecording (e : Env) (r : Recording) : lk Recording :=
  let r := with_recording_id (or_new e (r_ID r)) r in
  _ ← modify (λ s, set_recordings (<[r_ID r := r]> (recordings s)) s);
  mret r.

Definition GetRecording (id : uuid) : lk Recording := λ s,
  match recordings s !! id with
  | None => (Err (Sentinel ErrRecordingNotFound), s)
  | Some r => (Ok r, s)
  end.

Definition GetRecordingByEgressID (e : Env) (egressID : string) : lk Recording := λ s,
  match List.find (λ r, bool_decide (r_EgressID r = egressID))
          (range_values (R := order e) (recordings s)) with
  | Some r => (Ok r, s)
  | None => (Err (Sentinel ErrRecordingNotFound), s)
  end.

Definition UpdateRecording (r : Recording) : lk Recording := λ s,
  match recordings s !! r_ID r with
  | None => (Err (Sentinel ErrRecordingNotFound), s)
  | Some _ => (Ok r, set_recordings (<[r_ID r := r]> (recordings s)) s)
  end.

Definition ListRecordingsForMeeting (e : Env) (meetingID : uuid) : lk (list Recording) :=
  gets (λ s, sort_slice (λ a b, After (r_StartedAt a) (r_StartedAt b))
    (filter (λ r, r_MeetingID r = meetingID) (range_values (R := order e) (recordings s)))).

(** ** service.go *)

Definition DefaultRingingTimeout : duration := (30 * Second)%Z.
Definition DefaultMaxMeetingParticipants : Z := 10.
Definition MaxMeetingParticipantsCap : Z := 49.

Record Config : Type := {
  livekitURL : string;
  ringingTimeout : duration;
  tokenTTL : duration;
}.

(** What the LiveKit server and the token issuer answer during a call: the
    name of a created room, a token, an egress identifier, or an error. *)
Record Remote : Type := {
  on_CreateCallRoom : string → outcome lerr string;
  on_CreateMeetingRoom : string → Z → outcome lerr string;
  on_IssueJoinToken : string → string → duration → outcome lerr string;
  on_StartEgress : string → outcome lerr string;
  on_StopEgress : string → outcome lerr unit;
}.

Definition request (r : room_request) : lk unit :=
  modify (λ s, set_requests (requests s ++ [r]) s).
Definition SendToUser (userID : uuid) (eventType : string) (payload : gmap string string) :
    lk unit :=
  modify (λ s, set_signals (signals s ++ [(userID, eventType, payload)]) s).
Definition check (o : option lerr) : lk unit :=
  match o with Some err => throw err | None => mret tt end.

Definition assertNoActiveCall (e : Env) (userID : uuid) : lk unit :=
  r ← try (GetActiveCallForUser e userID);
  match r with
  | Ok _ => throw (Sentinel ErrUserBusy)
  | Err err => reject_if (negb (errors_Is err ErrCallNotFound)) (Wrapf "check active call" err)
  end.

(** The guards of [InitiateCall], up to the last store read. *)
Definition InitiateCall_check (e : Env) (callerID calleeID : uuid) (callType : CallType) : lk unit :=
  _ ← check (CallType_Validate callType);
  _ ← reject_if (bool_decide (callerID = calleeID))
        (Wrapf "caller and callee must differ" (Sentinel ErrInvalidState));
  _ ← assertNoActiveCall e callerID;
  assertNoActiveCall e calleeID.

(** The rest: the call is stored, the callee notified and the timer armed. *)
Definition InitiateCall_create (e : Env) (cfg : Config) (callerID calleeID : uuid)
    (callType : CallType) : lk Call :=
  stored ← wrapping "create call" (CreateCall e
    {| c_ID := new_id e 0; c_RoomName := ""; c_CallerID := callerID; c_CalleeID := calleeID;
       c_CallType := callType; c_State := StateRinging; c_StartedAt := now e;
       c_AnsweredAt := None; c_ConnectedAt := None; c_EndedAt := None; c_EndReason := "";
       c_Duration := 0 |});
  _ ← SendToUser calleeID EventCallInvite
        (<["call_id" := uuid_String (c_ID stored)]>
        (<["caller_id" := uuid_String callerID]> {["call_type" := callType]}));
  _ ← modify (λ s, set_timers (timers s ++ [((now e + ringingTimeout cfg)%Z, c_ID stored)]) s);
  mret stored.

Definition InitiateCall (e : Env) (cfg : Config) (callerID calleeID : uuid) (callType : CallType) :
    lk Call :=
  _ ← InitiateCall_check e callerID calleeID callType;
  InitiateCall_create e cfg callerID calleeID callType.

(** [call.State = st; call.EndedAt = &t; call.EndReason = reason]. *)
Definition finished (st : CallState) (t : time) (reason : string) (c : Call) : Call :=
  {| c_ID := c_ID c; c_RoomName := c_RoomName c; c_CallerID := c_CallerID c;
     c_CalleeID := c_CalleeID c; c_CallType := c_CallType c; c_State := st;
     c_StartedAt := c_StartedAt c; c_AnsweredAt := c_AnsweredAt c;
     c_ConnectedAt := c_ConnectedAt c; c_EndedAt := Some t; c_EndReason := reason;
     c_Duration := c_Duration c |}.

(** The timer callback; its errors are only logged. *)
Definition expireRinging (e : Env) (callID : uuid) : lk unit :=
  call ← GetCall callID;
  if bool_decide (c_State call ≠ StateRinging) then mret tt
  else
    _ ← UpdateCall (finished StateMissed (now e) "timeout" call);
    let payload := {["call_id" := uuid_String callID]} in
    _ ← SendToUser (c_CallerID call) EventCallMissed payload;
    SendToUser (c_CalleeID call) EventCallMissed payload.

Definition AcceptCall (e : Env) (cfg : Config) (rem : Remote) (callID calleeID : uuid) :
    lk CallAcceptedResult :=
  call ← wrapping "get call" (GetCall callID);
  _ ← reject_if (bool_decide (c_State call ≠ StateRinging))
        (Wrapf (c_State call) (Sentinel ErrInvalidState));
  _ ← reject_if (bool_decide (c_CalleeID call ≠ calleeID))
        (Wrapf "only the callee may accept" (Sentinel ErrUnauthorized));
  _ ← request (ReqCreateCallRoom (uuid_String callID));
  match on_CreateCallRoom rem (uuid_String callID) with
  | Err err =>
      _ ← ignore (UpdateCall (finished StateFailed (now e) "room_creation_failed" call));
      throw (Wrapf "create room" err)
  | Ok room =>
      match on_IssueJoinToken rem room (uuid_String (c_CallerID call)) (tokenTTL cfg) with
      | Err err => _ ← request (ReqDeleteRoom room); throw (Wrapf "issue caller token" err)
      | Ok callerToken =>
          match on_IssueJoinToken rem room (uuid_String calleeID) (tokenTTL cfg) with
          | Err err => _ ← request (ReqDeleteRoom room); throw (Wrapf "issue callee token" err)
          | Ok calleeToken =>
              let call :=
                {| c_ID := c_ID call; c_RoomName := room; c_CallerID := c_CallerID call;
                   c_CalleeID := c_CalleeID call; c_CallType := c_CallType call;
                   c_State := StateConnecting; c_StartedAt := c_StartedAt call;
                   c_AnsweredAt := Some (now e); c_ConnectedAt := c_ConnectedAt call;
                   c_EndedAt := c_EndedAt call; c_EndReason := c_EndReason call;
                   c_Duration := c_Duration call |} in
              r ← try (UpdateCall call);
              match r with
              | Err err => _ ← request (ReqDeleteRoom room); throw (Wrapf "update call" err)
              | Ok updated =>
                  _ ← SendToUser (c_CallerID call) EventCallAccepted
                        (<["call_id" := uuid_String (c_ID updated)]>
                        (<["livekit_url" := livekitURL cfg]> {["token" := callerToken]}));
                  mret {| acc_Call := updated; acc_LiveKitURL := livekitURL cfg;
                          acc_CalleeToken := calleeToken |}
              end
          end
      end
  end.

Definition DeclineCall (e : Env) (callID calleeID : uuid) : lk unit :=
  call ← wrapping "get call" (GetCall callID);
  _ ← reject_if (bool_decide (c_State call ≠ StateRinging))
        (Wrapf (c_State call) (Sentinel ErrInvalidState));
  _ ← reject_if (bool_decide (c_CalleeID call ≠ calleeID))
        (Wrapf "only the callee may decline" (Sentinel ErrUnauthorized));
  _ ← wrapping "update call" (UpdateCall (finished StateDeclined (now e) "declined" call));
  SendToUser (c_CallerID call) EventCallDeclined {["call_id" := uuid_String callID]}.

(** The duration is set when the call had been connected. *)
Definition timed (t : time) (c : Call) : Call :=
  match c_ConnectedAt c with
  | None => c
  | Some t0 =>
      {| c_ID := c_ID c; c_RoomName := c_RoomName c; c_CallerID := c_CallerID c;
         c_CalleeID := c_CalleeID c; c_CallType := c_CallType c; c_State := c_State c;
         c_StartedAt := c_StartedAt c; c_AnsweredAt := c_AnsweredAt c;
         c_ConnectedAt := c_ConnectedAt c; c_EndedAt := c_EndedAt c;
         c_EndReason := c_EndReason c; c_Duration := time_Sub t t0 |}
  end.

Definition EndCall (e : Env) (callID userID : uuid) : lk unit :=
  call ← wrapping "get call" (GetCall callID);
  _ ← reject_if (bool_decide (c_State call ≠ StateConnecting)
                 && bool_decide (c_State call ≠ StateConnected))
        (Wrapf (c_State call) (Sentinel ErrInvalidState));
  '(endReason, otherParty) ←
    (if bool_decide (userID = c_CallerID call) then mret ("caller_hangup", c_CalleeID call)
     else if bool_decide (userID = c_CalleeID call) then mret ("callee_hangup", c_CallerID call)
     else throw (Sentinel ErrNotParticipant));
  _ ← wrapping "update call"
        (UpdateCall (finished StateEnded (now e) endReason (timed (now e) call)));
  SendToUser otherParty EventCallEnded
    (<["call_id" := uuid_String callID]> {["end_reason" := endReason]}).

Definition MarkConnected (e : Env) (callID : uuid) : lk unit :=
  call ← wrapping "get call" (GetCall callID);
  if bool_decide (c_State call ≠ StateConnecting) then mret tt
  else
    _ ← wrapping "update call" (UpdateCall
          {| c_ID := c_ID call; c_RoomName := c_RoomName call; c_CallerID := c_CallerID call;
             c_CalleeID := c_CalleeID call; c_CallType := c_CallType call;
             c_State := StateConnected; c_StartedAt := c_StartedAt call;
             c_AnsweredAt := c_AnsweredAt call; c_ConnectedAt := Some (now e);
             c_EndedAt := c_EndedAt call; c_EndReason := c_EndReason call;
             c_Duration := c_Duration call |});
    mret tt.

Definition EndCallByRoom (e : Env) (roomName reason : string) : lk unit :=
  callID ← of_outcome (CallIDFromRoomName roomName);
  call ← wrapping "get call" (GetCall callID);
  if bool_decide (c_State call ≠ StateConnecting) && bool_decide (c_State call ≠ StateConnected)
  then mret tt
  else
    _ ← wrapping "update call"
          (UpdateCall (finished StateEnded (now e) reason (timed (now e) call)));
    let payload := <["call_id" := uuid_String callID]> {["end_reason" := reason]} in
    _ ← SendToUser (c_CallerID call) EventCallEnded payload;
    SendToUser (c_CalleeID call) EventCallEnded payload.

(** The limits both list methods apply. *)
Definition clamp_limit (limit : Z) : Z :=
  if bool_decide (limit ≤ 0)%Z || bool_decide (100 < limit)%Z then 20 else limit.
Definition clamp_offset (offset : Z) : Z := if bool_decide (offset < 0)%Z then 0 else offset.

Definition ListCallsForUser (e : Env) (userID : uuid) (limit offset : Z) : lk (list Call) :=
  st_ListCallsForUser e userID (clamp_limit limit) (clamp_offset offset).

Record CreateMeetingInput : Type := {
  in_Title : string;
  in_CreatorID : uuid;
  in_MaxParticipants : Z;
  in_RecordingEnabled : bool;
}.

Definition CreateMeeting (e : Env) (inp : CreateMeetingInput) : lk Meeting :=
  _ ← reject_if (bool_decide (in_Title inp = ""))
        (Wrapf "title is required" (Sentinel ErrInvalidState));
  let maxP := in_MaxParticipants inp in
  let maxP := if bool_decide (maxP ≤ 0)%Z then DefaultMaxMeetingParticipants else maxP in
  let maxP := if bool_decide (MaxMeetingParticipantsCap < maxP)%Z
              then MaxMeetingParticipantsCap else maxP in
  let id := new_id e 0 in
  wrapping "create meeting" (st_CreateMeeting e
    {| m_ID := id; m_RoomName := "meeting-" +:+ uuid_String id; m_Title := in_Title inp;
       m_CreatorID := in_CreatorID inp; m_MaxParticipants := maxP;
       m_RecordingEnabled := in_RecordingEnabled inp;
       m_E2EEEnabled := negb (in_RecordingEnabled inp); m_State := MeetingStateScheduled;
       m_StartedAt := None; m_EndedAt := None; m_CreatedAt := now e |}).

(** [m.State = active; m.StartedAt = &t], and [m.State = ended; m.EndedAt = &t]. *)
Definition activated (t : time) (m : Meeting) : Meeting :=
  {| m_ID := m_ID m; m_RoomName := m_RoomName m; m_Title := m_Title m;
     m_CreatorID := m_CreatorID m; m_MaxParticipants := m_MaxParticipants m;
     m_RecordingEnabled := m_RecordingEnabled m; m_E2EEEnabled := m_E2EEEnabled m;
     m_State := MeetingStateActive; m_StartedAt := Some t; m_EndedAt := m_EndedAt m;
     m_CreatedAt := m_CreatedAt m |}.
Definition ended (t : time) (m : Meeting) : Meeting :=
  {| m_ID := m_ID m; m_RoomName := m_RoomName m; m_Title := m_Title m;
     m_CreatorID := m_CreatorID m; m_MaxParticipants := m_MaxParticipants m;
     m_RecordingEnabled := m_RecordingEnabled m; m_E2EEEnabled := m_E2EEEnabled m;
     m_State := MeetingStateEnded; m_StartedAt := m_StartedAt m; m_EndedAt := Some t;
     m_CreatedAt := m_CreatedAt m |}.

Definition JoinMeeting (e : Env) (cfg : Config) (rem : Remote) (meetingID userID : uuid) :
    lk MeetingJoinResult :=
  meeting ← wrapping "get meeting" (GetMeeting meetingID);
  _ ← reject_if (bool_decide (m_State meeting = MeetingStateEnded))
        (Wrapf "meeting has ended" (Sentinel ErrInvalidState));
  count ← wrapping "count participants" (CountActiveParticipants meetingID);
  _ ← reject_if (bool_decide (m_MaxParticipants meeting ≤ count)%Z) (Sentinel ErrMeetingFull);
  meeting ← (if bool_decide (m_State meeting = MeetingStateScheduled) then
      _ ← request (ReqCreateMeetingRoom (uuid_String meetingID) (m_MaxParticipants meeting));
      _ ← wrapping "create meeting room"
            (of_outcome (on_CreateMeetingRoom rem (uuid_String meetingID)
               (m_MaxParticipants meeting)));
      wrapping "activate meeting" (UpdateMeeting (activated (now e) meeting))
    else mret meeting);
  _ ← wrapping "add participant" (AddParticipant
        {| p_MeetingID := meetingID; p_UserID := userID; p_JoinedAt := now e; p_LeftAt := None |});
  token ← wrapping "issue token"
        (of_outcome (on_IssueJoinToken rem (m_RoomName meeting) (uuid_String userID) (tokenTTL cfg)));
  mret {| join_Meeting := meeting; join_LiveKitURL := livekitURL cfg; join_Token := token;
          join_E2EEEnabled := m_E2EEEnabled meeting |}.

Definition LeaveMeeting (e : Env) (meetingID userID : uuid) : lk unit :=
  _ ← wrapping "remove participant" (RemoveParticipant meetingID userID (now e));
  count ← wrapping "count participants" (CountActiveParticipants meetingID);
  if bool_decide (0 < count)%Z then mret tt
  else
    meeting ← wrapping "get meeting" (GetMeeting meetingID);
    if bool_decide (m_State meeting = MeetingStateEnded) then mret tt
    else _ ← wrapping "end meeting" (UpdateMeeting (ended (now e) meeting)); mret tt.

Definition EndMeeting (e : Env) (meetingID userID : uuid) : lk unit :=
  meeting ← wrapping "get meeting" (GetMeeting meetingID);
  _ ← reject_if (bool_decide (m_CreatorID meeting ≠ userID)) (Sentinel ErrUnauthorized);
  if bool_decide (m_State meeting = MeetingStateEnded) then mret tt
  else
    _ ← wrapping "end meeting" (UpdateMeeting (ended (now e) meeting));
    request (ReqDeleteRoom (m_RoomName meeting)).

Definition EndMeetingByRoom (e : Env) (roomName : string) : lk unit :=
  meetingID ← of_outcome (MeetingIDFromRoomName roomName);
  meeting ← wrapping "get meeting" (GetMeeting meetingID);
  if bool_decide (m_State meeting = MeetingStateEnded) then mret tt
  else _ ← wrapping "end meeting" (UpdateMeeting (ended (now e) meeting)); mret tt.

Definition ListMeetingsForCreator (e : Env) (userID : uuid) (limit offset : Z) :
    lk (list Meeting) :=
  st_ListMeetingsForCreator e userID (clamp_limit limit) (clamp_offset offset).

(** ** recording.go *)

Record S3Config : Type := {
  s3_Endpoint : string;
  s3_AccessKey : string;
  s3_SecretKey : string;
  s3_Region : string;
  s3_Bucket : string;
  s3_ForcePathStyle : bool;
}.

Definition S3Config_Validate (c : S3Config) : option lerr :=
  if bool_decide (s3_Bucket c = "")
  then Some (Wrapf "S3Config.Bucket is required" (Sentinel ErrConfig))
  else if bool_decide (s3_AccessKey c = "") || bool_decide (s3_SecretKey c = "")
  then Some (Wrapf "S3Config credentials are required" (Sentinel ErrConfig))
  else None.

Record RecordingConfig : Type := {
  rc_S3 : S3Config;
  rc_Layout : string;
  rc_FilePathTemplate : string;
}.

(** [strings.ReplaceAll] for a pattern that is not empty: left to right, past
    each occurrence.  The fuel is the length of the text. *)
Fixpoint replace_all_fuel (fuel : nat) (pat by_ s : string) : string :=
  match fuel with
  | O => s
  | S fuel =>
      match s with
      | EmptyString => EmptyString
      | String a rest =>
          if String.prefix pat s then by_ +:+ replace_all_fuel fuel pat by_ (trim_prefix pat s)
          else String a (replace_all_fuel fuel pat by_ rest)
      end
  end.
Definition replace_all (pat by_ s : string) : string :=
  replace_all_fuel (String.length s) pat by_ s.

Definition StartRecording (e : Env) (rc : RecordingConfig) (rem : Remote) (meetingID : uuid)
    (roomName : string) : lk Recording :=
  let layout := if bool_decide (rc_Layout rc = "") then "speaker" else rc_Layout rc in
  let template := if bool_decide (rc_FilePathTemplate rc = "")
                  then "recordings/{room}/{time}.mp4" else rc_FilePathTemplate rc in
  let filepath := replace_all "{room}" roomName template in
  _ ← request (ReqStartEgress roomName layout filepath);
  egressID ← wrapping "start room composite egress" (of_outcome (on_StartEgress rem roomName));
  wrapping "create recording" (CreateRecording e
    {| r_ID := new_id e 0; r_MeetingID := meetingID; r_EgressID := egressID;
       r_State := RecordingStateRecording; r_FilePath := ""; r_FileSize := 0; r_Duration := 0;
       r_StartedAt := now e; r_EndedAt := None |}).

Definition StopRecording (e : Env) (rem : Remote) (recordingID : uuid) : lk Recording :=
  rec ← wrapping "get recording" (GetRecording recordingID);
  _ ← reject_if (bool_decide (r_State rec ≠ RecordingStateRecording))
        (Wrapf (r_State rec) (Sentinel ErrInvalidState));
  _ ← request (ReqStopEgress (r_EgressID rec));
  _ ← wrapping "stop egress" (of_outcome (on_StopEgress rem (r_EgressID rec)));
  wrapping "update recording" (UpdateRecording
    {| r_ID := r_ID rec; r_MeetingID := r_MeetingID rec; r_EgressID := r_EgressID rec;
       r_State := RecordingStateProcessing; r_FilePath := r_FilePath rec;
       r_FileSize := r_FileSize rec; r_Duration := r_Duration rec;
       r_StartedAt := r_StartedAt rec; r_EndedAt := Some (now e) |}).

Definition HandleEgressEnded (e : Env) (egressID filePath : string) (fileSize durationNs : Z)
    (failed : bool) : lk unit :=
  rec ← wrapping "get recording by egress" (GetRecordingByEgressID e egressID);
  let state := if failed then RecordingStateFailed else RecordingStateCompleted in
  _ ← wrapping "update recording" (UpdateRecording
    {| r_ID := r_ID rec; r_MeetingID := r_MeetingID rec; r_EgressID := r_EgressID rec;
       r_State := state;
       r_FilePath := if bool_decide (filePath ≠ "") then filePath else r_FilePath rec;
       r_FileSize := if bool_decide (0 < fileSize)%Z then fileSize else r_FileSize rec;
       r_Duration := if bool_decide (0 < durationNs)%Z then durationNs else r_Duration rec;
       r_StartedAt := r_StartedAt rec; r_EndedAt := Some (now e) |});
  mret tt.

Definition ListRecordings (e : Env) (meetingID : uuid) : lk (list Recording) :=
  ListRecordingsForMeeting e meetingID.

(** ** webhook.go *)

Definition WebhookEventParticipantJoined := "participant_joined".
Definition WebhookEventParticipantLeft := "participant_left".
Definition WebhookEventRoomFinished := "room_finished".
Definition WebhookEventEgressStarted := "egress_started".
Definition WebhookEventEgressEnded := "egress_ended".

(** The fields of a verified LiveKit event the handler reads: the results of
    an egress are filename, size and duration. *)
Record EgressInfo : Type := {
  eg_ID : string;
  eg_Failed : bool;
  eg_FileResults : list (string * Z * Z);
}.
Record WebhookEvent : Type := {
  ev_Event : string;
  ev_Room : string;
  ev_NumParticipants : Z;
  ev_Identity : string;
  ev_Egress : option EgressInfo;
}.

(** Errors of the dispatched handlers are logged and dropped. *)
Definition dispatchParticipantJoined (e : Env) (ev : WebhookEvent) : lk unit :=
  let roomName := ev_Room ev in
  if negb (IsCallRoom roomName) then mret tt
  else if bool_decide (ev_NumParticipants ev < 2)%Z then mret tt
  else match CallIDFromRoomName roomName with
       | Err _ => mret tt
       | Ok callID => ignore (MarkConnected e callID)
       end.

Definition dispatchParticipantLeft (e : Env) (ev : WebhookEvent) : lk unit :=
  let roomName := ev_Room ev in
  if IsCallRoom roomName then ignore (EndCallByRoom e roomName "participant_left")
  else if IsMeetingRoom roomName then
    if bool_decide (ev_Identity ev = "") then mret tt
    else match uuid_Parse (ev_Identity ev) with
         | None => mret tt
         | Some userID =>
             match MeetingIDFromRoomName roomName with
             | Err _ => mret tt
             | Ok meetingID => ignore (LeaveMeeting e meetingID userID)
             end
         end
  else mret tt.

Definition dispatchRoomFinished (e : Env) (ev : WebhookEvent) : lk unit :=
  let roomName := ev_Room ev in
  if IsCallRoom roomName then ignore (EndCallByRoom e roomName "room_finished")
  else if IsMeetingRoom roomName then ignore (EndMeetingByRoom e roomName)
  else mret tt.

Definition dispatchEgressEnded (e : Env) (recording_service : bool) (ev : WebhookEvent) : lk unit :=
  if negb recording_service then mret tt
  else match ev_Egress ev with
       | None => mret tt
       | Some info =>
           let '(filePath, fileSize, durationNs) := default ("", 0, 0)%Z (head (eg_FileResults info)) in
           ignore (HandleEgressEnded e (eg_ID info) filePath fileSize durationNs (eg_Failed info))
       end.

(** [ServeHTTP]: [verified] is the event whose signature checks, if it does.
    The result is the status code and the subscribers that ran, in order (a
    panic in one of them is recovered). *)
Definition ServeHTTP {Sub : Type} (e : Env) (recording_service : bool)
    (subscribers : gmap string (list Sub)) (verified : option WebhookEvent) : lk (Z * list Sub) :=
  match verified with
  | None => mret (401%Z, [])
  | Some ev =>
      let ty := ev_Event ev in
      _ ← (if bool_decide (ty = WebhookEventParticipantJoined) then dispatchParticipantJoined e ev
           else if bool_decide (ty = WebhookEventParticipantLeft) then dispatchParticipantLeft e ev
           else if bool_decide (ty = WebhookEventRoomFinished) then dispatchRoomFinished e ev
           else if bool_decide (ty = WebhookEventEgressEnded)
           then dispatchEgressEnded e recording_service ev
           else mret tt);
      mret (200%Z, default [] (subscribers !! ty))
  end.

(** [NewRecordingService] and [NewWebhookHandler]: the flags say which of the
    required dependencies are set. *)
Definition NewRecordingService (store egress : bool) (cfg : RecordingConfig) :
    outcome lerr RecordingConfig :=
  if negb store then Err (Wrapf "Store is required" (Sentinel ErrConfig))
  else if negb egress then Err (Wrapf "EgressClient is required" (Sentinel ErrConfig))
  else match S3Config_Validate (rc_S3 cfg) with
       | Some err => Err err
       | None => Ok cfg
       end.
Definition NewWebhookHandler {Sub : Type} (service keyProvider : bool) :
    outcome lerr (gmap string (list Sub)) :=
  if negb service then Err (Wrapf "Service is required" (Sentinel ErrConfig))
  else if negb keyProvider then Err (Wrapf "KeyProvider is required" (Sentinel ErrConfig))
  else Ok ∅.

(** Subscribers of a type run in registration order. *)
Definition Subscribe {Sub : Type} (eventType : string) (sub : Sub)
    (subscribers : gmap string (list Sub)) : gmap string (list Sub) :=
  <[eventType := default [] (subscribers !! eventType) ++ [sub]]> subscribers.

(** [NewService]: the flags say which of the required dependencies are set; the
    optional ones (signaler, clock, logger) get their defaults. *)
Definition NewService (store rooms tokens : bool) (url : string) (ringing ttl : duration) :
    outcome lerr Config :=
  if negb store then Err (Wrapf "Store is required" (Sentinel ErrConfig))
  else if negb rooms then Err (Wrapf "Rooms is required" (Sentinel ErrConfig))
  else if negb tokens then Err (Wrapf "Tokens is required" (Sentinel ErrConfig))
  else if bool_decide (url = "") then Err (Wrapf "LiveKitURL is required" (Sentinel ErrConfig))
  else Ok {| livekitURL := url;
             ringingTimeout := if bool_decide (ringing = 0%Z) then DefaultRingingTimeout else ringing;
             tokenTTL := if bool_decide (ttl = 0%Z) then Hour else ttl |}.

(** ** livekit_adapter.go *)

Record RoomInfo : Type := {
  ri_Name : string;
  ri_MaxParticipants : Z;
  ri_NumParticipants : Z;
  ri_EmptyTimeoutSecs : Z;
}.

(** The requests of the LiveKit SDK the adapter builds. *)
Record CreateRoomRequest : Type := {
  cr_Name : string;
  cr_EmptyTimeout : Z;
  cr_MaxParticipants : Z;
}.
Record AccessToken : Type := {
  at_Room : string;
  at_Identity : string;
  at_Name : string;
  at_ValidFor : duration;
}.

Record LiveKitConfig : Type := {
  lc_URL : string;
  lc_APIKey : string;
  lc_APISecret : string;
}.

Definition NewLiveKitAdapter (cfg : LiveKitConfig) : outcome lerr LiveKitConfig :=
  if bool_decide (lc_URL cfg = "") then Err (Wrapf "URL is required" (Sentinel ErrConfig))
  else if bool_decide (lc_APIKey cfg = "") then Err (Wrapf "APIKey is required" (Sentinel ErrConfig))
  else if bool_decide (lc_APISecret cfg = "")
  then Err (Wrapf "APISecret is required" (Sentinel ErrConfig))
  else Ok cfg.

(** What the SDK answers to a request, as the server and the keys decide. *)
Record SDK : Type := {
  CreateRoom : CreateRoomRequest → outcome lerr RoomInfo;
  ToJWT : AccessToken → outcome lerr string;
  StartRoomCompositeEgress : string → outcome lerr string;
  StopEgress : string → outcome lerr unit;
}.

Definition wrap_outcome {A} (msg : string) (o : outcome lerr A) : outcome lerr A :=
  match o with Ok a => Ok a | Err err => Err (Wrapf msg err) end.

Definition CreateCallRoom (sdk : SDK) (callID : string) : outcome lerr RoomInfo :=
  wrap_outcome "create call room" (CreateRoom sdk
    {| cr_Name := "call-" +:+ callID; cr_EmptyTimeout := 30; cr_MaxParticipants := 2 |}).

Definition CreateMeetingRoom (sdk : SDK) (name : string) (maxParticipants : Z) :
    outcome lerr RoomInfo :=
  let maxParticipants := if bool_decide (maxParticipants ≤ 0)%Z
                         then DefaultMaxMeetingParticipants else maxParticipants in
  wrap_outcome "create meeting room" (CreateRoom sdk
    {| cr_Name := "meeting-" +:+ name; cr_EmptyTimeout := 300;
       cr_MaxParticipants := (maxParticipants `mod` 2 ^ 32)%Z |}).

Definition IssueJoinToken (sdk : SDK) (roomName identity displayName : string) (ttl : duration) :
    outcome lerr string :=
  let ttl := if bool_decide (ttl ≤ 0)%Z then Hour else ttl in
  wrap_outcome "sign join token" (ToJWT sdk
    {| at_Room := roomName; at_Identity := identity; at_Name := displayName; at_ValidFor := ttl |}).

(** The answers a service gets when it is wired to the adapter; it passes the
    identity as the display name. *)
Definition adapter (sdk : SDK) : Remote :=
  let name o := match o with Ok room => Ok (ri_Name room) | Err err => Err err end in
  {| on_CreateCallRoom callID := name (CreateCallRoom sdk callID);
     on_CreateMeetingRoom n k := name (CreateMeetingRoom sdk n k);
     on_IssueJoinToken room identity ttl := IssueJoinToken sdk room identity identity ttl;
     on_StartEgress := StartRoomCompositeEgress sdk;
     on_StopEgress := StopEgress sdk |}.
End livekit.

(** ** clock.go: the fake clock

    Timers are shared objects: the clock holds pointers to them and a callback
    may stop any of them.  [heap] holds the timers by address, [pending] the
    clock's slice of pointers; a callback acts on the whole clock. *)
Module FakeClock.
Section fake_clock.
Context {F : Type}.

Record fakeTimer : Type := {
  firesAt : time;
  fn : F;
  stopped : bool;
}.

Record t : Type := {
  fake_now : time;
  heap : list fakeTimer;
  pending : list nat;
}.

Definition NewFakeClock (start : time) : t := {| fake_now := start; heap := []; pending := [] |}.

Definition AfterFunc (d : duration) (f : F) (c : t) : nat * t :=
  (length (heap c),
   {| fake_now := fake_now c;
      heap := heap c ++ [{| firesAt := (fake_now c + d)%Z; fn := f; stopped := false |}];
      pending := pending c ++ [length (heap c)] |}).

Definition Stop (p : nat) (c : t) : bool * t :=
  match heap c !! p with
  | Some tm =>
      if stopped tm then (false, c)
      else (true, {| fake_now := fake_now c;
                     heap := <[p := {| firesAt := firesAt tm; fn := fn tm; stopped := true |}]> (heap c);
                     pending := pending c |})
  | None => (false, c)
  end.

Definition is_stopped (c : t) (p : nat) : bool := default true (stopped <$> heap c !! p).
Definition due (t0 : time) (c : t) (p : nat) : bool :=
  match heap c !! p with Some tm => negb (After (firesAt tm) t0) | None => false end.

(** The pointers the snapshot selects, and those it leaves in the clock. *)
Definition ready (t0 : time) (c : t) : list nat :=
  filter (λ p, is_stopped c p = false ∧ due t0 c p = true) (pending c).
Definition remaining (t0 : time) (c : t) : list nat :=
  filter (λ p, is_stopped c p = false ∧ due t0 c p = false) (pending c).

(** [run] is what calling a callback does to the clock. *)
Definition fire (run : F → t → t) (c : t) (p : nat) : t :=
  match heap c !! p with
  | Some tm => if stopped tm then c else run (fn tm) c
  | None => c
  end.

Definition Advance (run : F → t → t) (d : duration) (c : t) : t :=
  let now := (fake_now c + d)%Z in
  foldl (fire run)
    {| fake_now := now; heap := heap c; pending := remaining now c |} (ready now c).
End fake_clock.
Arguments t : clear implicits.
End FakeClock.
