(* ===== verification/LivekitProofs.v ===== *)
(** * Call and meeting correctness

    What each handler may do to the calls and to the meetings is summarised by
    two small step relations; every handler is shown to stay within them, and
    the invariants follow by induction over runs of the service: one active
    call per user, calls that only move along the transition graph, meetings
    that never exceed their capacity, ringing calls that can always expire.
    The invariants are those of serialised handlers; the last part shows what
    two interleaved calls of [InitiateCall] can do. *)

From S2P Require Import Prelude Livekit.

(** A path of the call graph. *)
Abbreviation call_path := (rtc (λ a b, ValidCallTransition a b = true)).

Section service.
Context {U : UuidText} (cfg : Config).

(** ** Effects *)

(** What a handler that leaves the timers [T] armed may do to the calls. *)
Inductive calls_step (T : list (time * uuid)) (M : gmap uuid Call) : gmap uuid Call → Prop :=
  | calls_same : calls_step T M M
  | calls_created c :
      M !! c_ID c = None → c_State c = StateRinging → c_CallerID c ≠ c_CalleeID c →
      (∀ k x, M !! k = Some x →
         active_for (c_CallerID c) x = false ∧ active_for (c_CalleeID c) x = false) →
      ((c_StartedAt c + ringingTimeout cfg)%Z, c_ID c) ∈ T →
      calls_step T M (<[c_ID c := c]> M)
  | calls_moved k c c' :
      M !! k = Some c → c_ID c' = c_ID c →
      c_CallerID c' = c_CallerID c → c_CalleeID c' = c_CalleeID c →
      ValidCallTransition (c_State c) (c_State c') = true →
      calls_step T M (<[k := c']> M).

Definition room : Type := gmap uuid Meeting * gmap uuid (list Participant).

Inductive meet_step : room → room → Prop :=
  | meet_created m ms ps :
      ms !! m_ID m = None → ps !! m_ID m = None →
      (1 ≤ m_MaxParticipants m ≤ MaxMeetingParticipantsCap)%Z →
      m_State m = MeetingStateScheduled → m_E2EEEnabled m = negb (m_RecordingEnabled m) →
      meet_step (ms, ps) (<[m_ID m := m]> ms, ps)
  | meet_moved k m m' ms ps :
      ms !! k = Some m → m_ID m' = m_ID m → m_MaxParticipants m' = m_MaxParticipants m →
      m_RecordingEnabled m' = m_RecordingEnabled m → m_E2EEEnabled m' = m_E2EEEnabled m →
      ValidMeetingTransition (m_State m) (m_State m') = true →
      meet_step (ms, ps) (<[k := m']> ms, ps)
  | meet_joined k m p ms ps :
      ms !! k = Some m → p_LeftAt p = None → m_State m ≠ MeetingStateEnded →
      (Z.of_nat (count joined (default [] (ps !! k))) < m_MaxParticipants m)%Z →
      any (present (p_UserID p)) (default [] (ps !! k)) = false →
      meet_step (ms, ps) (ms, <[k := default [] (ps !! k) ++ [p]]> ps)
  | meet_left k u t l ms ps :
      mark_left u t (default [] (ps !! k)) = Some l →
      meet_step (ms, ps) (ms, <[k := l]> ps).

Definition rooms_of (s : State) : room := (meetings s, participants s).

(** What a handler may do to the whole state. *)
Record within (s s' : State) : Prop := {
  w_calls : calls_step (timers s') (calls s) (calls s');
  w_rooms : rtc meet_step (rooms_of s) (rooms_of s');
  w_timers : timers s ⊆ timers s';
}.

Record keys_ok (s : State) : Prop := {
  call_key k c : calls s !! k = Some c → c_ID c = k;
  meeting_key k m : meetings s !! k = Some m → m_ID m = k;
}.

Record fresh_env (e : Env) (s : State) : Prop := {
  fresh_call n : calls s !! new_id e n = None;
  fresh_meeting n : meetings s !! new_id e n = None;
  fresh_parts n : participants s !! new_id e n = None;
  fresh_nonzero n : new_id e n ≠ uuid_Nil;
}.

Lemma within_refl s : within s s.
Proof. split; [constructor|done|done]. Qed.

(** A state that differs only in signals, requests or recordings. *)
Lemma within_frame s s' :
  calls s' = calls s → meetings s' = meetings s → participants s' = participants s →
  timers s' = timers s → within s s'.
Proof.
  intros Hc Hm Hp Ht. split; unfold rooms_of; rewrite ?Hc, ?Hm, ?Hp, ?Ht; [constructor|done|done].
Qed.

Section handlers.
Implicit Types (e : Env) (s : State).

(** Runs a handler on a symbolic state. *)
Ltac lk_norm :=
  unfold GetCall, UpdateCall, GetMeeting, UpdateMeeting, CountActiveParticipants,
    AddParticipant, RemoveParticipant, SendToUser, request, CreateRecording, GetRecording,
    UpdateRecording, GetRecordingByEgressID, check in *; prog_unfold; cbn in *.
Ltac lk_run H := lk_norm; repeat (case_match; simplify_eq/=; lk_norm); simplify_eq/=.
Ltac frame := by apply within_frame.

Lemma moved_within s s' k c j c' :
  calls s !! k = Some c → c_ID c = k → calls s' = <[j := c']> (calls s) → j = c_ID c →
  c_ID c' = c_ID c → c_CallerID c' = c_CallerID c → c_CalleeID c' = c_CalleeID c →
  ValidCallTransition (c_State c) (c_State c') = true →
  meetings s' = meetings s → participants s' = participants s → timers s' = timers s →
  within s s'.
Proof.
  intros Hk Hid Hc -> Hid' Hca Hce Hv Hm Hp Ht.
  split; unfold rooms_of; rewrite ?Hc, ?Hm, ?Hp, ?Ht; [|done|done].
  rewrite Hid. by eapply calls_moved.
Qed.

(** Reads the state a guard found. *)
Ltac state_eq :=
  repeat match goal with
  | H : bool_decide (?x ≠ ?y) = false |- _ => apply bool_decide_eq_false, dec_stable in H
  | H : bool_decide (?x = ?y) = true |- _ => apply bool_decide_eq_true in H
  | H : bool_decide (?x = ?y) = false |- _ => apply bool_decide_eq_false in H
  | H : bool_decide (?x ≠ ?y) && bool_decide (?x ≠ ?z) = false |- _ =>
      apply andb_false_iff in H as [H|H]; apply bool_decide_eq_false, dec_stable in H
  end.
(** Closes a goal in which one call moved along the graph. *)
Ltac moved :=
  match goal with
  | Hk : ∀ k c, calls ?s !! k = Some c → c_ID c = k, H : calls ?s !! ?k = Some ?c |- within ?s _ =>
      eapply (moved_within s _ k c); [done|by eapply Hk|cbn; done|..]; try done; cbn;
      match goal with E : c_State c = _ |- _ => rewrite E; by vm_compute end
  end.

Lemma expireRinging_within e id s r s' :
  keys_ok s → expireRinging e id s = (r, s') → within s s'.
Proof.
  intros [Hk _] Hc. unfold expireRinging in Hc. lk_run Hc; try frame. state_eq. moved.
Qed.

Lemma AcceptCall_within e rem id u s r s' :
  keys_ok s → AcceptCall e cfg rem id u s = (r, s') → within s s'.
Proof.
  intros [Hk _] Hc. unfold AcceptCall in Hc. lk_run Hc; try frame; state_eq; moved.
Qed.

Lemma DeclineCall_within e id u s r s' :
  keys_ok s → DeclineCall e id u s = (r, s') → within s s'.
Proof. intros [Hk _] Hc. unfold DeclineCall in Hc. lk_run Hc; try frame; state_eq; moved. Qed.

Lemma timed_frame t c :
  c_ID (timed t c) = c_ID c ∧ c_CallerID (timed t c) = c_CallerID c ∧
  c_CalleeID (timed t c) = c_CalleeID c.
Proof. unfold timed. by destruct (c_ConnectedAt c). Qed.

Lemma ended_within s s' k c t reason :
  calls s' = <[c_ID (timed t c) := finished StateEnded t reason (timed t c)]> (calls s) →
  meetings s' = meetings s → participants s' = participants s → timers s' = timers s →
  (∀ k c, calls s !! k = Some c → c_ID c = k) → calls s !! k = Some c →
  (c_State c = StateConnecting ∨ c_State c = StateConnected) → within s s'.
Proof.
  intros Hs' Hm Hp Ht Hk Hc Hst. destruct (timed_frame t c) as (E1 & E2 & E3).
  eapply (moved_within s _ k c); [done|by eapply Hk|cbn; done|..]; cbn; try done.
  destruct Hst as [-> | ->]; by vm_compute.
Qed.

Lemma EndCall_within e id u s r s' :
  keys_ok s → EndCall e id u s = (r, s') → within s s'.
Proof.
  intros [Hk _] Hc. unfold EndCall in Hc. lk_run Hc; try frame; state_eq;
    (eapply ended_within; [cbn; done|done..|by auto]).
Qed.

Lemma MarkConnected_within e id s r s' :
  keys_ok s → MarkConnected e id s = (r, s') → within s s'.
Proof. intros [Hk _] Hc. unfold MarkConnected in Hc. lk_run Hc; try frame; state_eq; moved. Qed.

Lemma EndCallByRoom_within e room reason s r s' :
  keys_ok s → EndCallByRoom e room reason s = (r, s') → within s s'.
Proof.
  intros [Hk _] Hc. unfold EndCallByRoom in Hc. lk_run Hc; try frame; state_eq;
    (eapply ended_within; [cbn; done|done..|by auto]).
Qed.
Lemma assertNoActiveCall_inv e u s r s' :
  assertNoActiveCall e u s = (r, s') →
  s' = s ∧ (r = Ok tt → ∀ k c, calls s !! k = Some c → active_for u c = false).
Proof.
  intros Hc. unfold assertNoActiveCall, GetActiveCallForUser in Hc. prog_unfold.
  destruct (List.find _ _) as [c|] eqn:Hf; cbn in Hc; [by simplify_eq|].
  rewrite bool_decide_true in Hc by done. cbn in Hc. simplify_eq. split; [done|].
  intros _ k c Hk. apply (find_none _ _ Hf). apply list_elem_of_In, elem_of_range_values. eauto.
Qed.

Lemma InitiateCall_check_inv e a b ty s r s' :
  InitiateCall_check e a b ty s = (r, s') →
  s' = s ∧ (r = Ok tt → a ≠ b ∧ ∀ k c, calls s !! k = Some c →
              active_for a c = false ∧ active_for b c = false).
Proof.
  intros Hc. unfold InitiateCall_check, check in Hc. prog_unfold.
  destruct (CallType_Validate ty); [by simplify_eq|]. cbn in Hc.
  destruct (bool_decide (a = b)) eqn:Hab; [by simplify_eq|]. apply bool_decide_eq_false in Hab.
  destruct (assertNoActiveCall e a s) as [[[]|] s1] eqn:H1;
    apply assertNoActiveCall_inv in H1 as [-> H1]; [|by simplify_eq].
  apply assertNoActiveCall_inv in Hc as [-> H2]. split; [done|]. intros Hr. split; [done|].
  intros k c Hk. split; eauto.
Qed.

Lemma InitiateCall_create_inv e a b ty s r s' :
  fresh_env e s → InitiateCall_create e cfg a b ty s = (r, s') →
  ∃ c, r = Ok c ∧ c_ID c = new_id e 0 ∧ c_State c = StateRinging ∧ c_CallerID c = a ∧
    c_CalleeID c = b ∧ c_StartedAt c = now e ∧ calls s' = <[c_ID c := c]> (calls s) ∧ meetings s' = meetings s ∧
    participants s' = participants s ∧
    timers s' = timers s ++ [((now e + ringingTimeout cfg)%Z, c_ID c)].
Proof.
  intros [_ _ _ Hz] Hc. unfold InitiateCall_create, CreateCall, SendToUser in Hc. prog_unfold.
  cbn in Hc. simplify_eq. eexists. split; [done|]. cbn. unfold or_new.
  rewrite bool_decide_false by apply Hz. done.
Qed.

Lemma InitiateCall_within e a b ty s r s' :
  fresh_env e s → InitiateCall e cfg a b ty s = (r, s') → within s s'.
Proof.
  intros Hf Hc. unfold InitiateCall in Hc. prog_unfold.
  destruct (InitiateCall_check e a b ty s) as [[[]|] s1] eqn:H1;
    apply InitiateCall_check_inv in H1 as [-> H1]; [|simplify_eq; apply within_refl].
  destruct (H1 eq_refl) as [Hab Hfree].
  apply InitiateCall_create_inv in Hc as (c & _ & Hid & Hst & Hca & Hce & Hat & Hcs & Hm & Hp & Ht); [|done].
  split; [rewrite Hcs|by unfold rooms_of; rewrite Hm, Hp|rewrite Ht; set_solver].
  apply calls_created; [rewrite Hid; apply Hf|done|congruence|by rewrite Hca, Hce|].
  rewrite Ht, Hat. set_solver.
Qed.

Lemma CreateMeeting_within e inp s r s' :
  fresh_env e s → CreateMeeting e inp s = (r, s') → within s s'.
Proof.
  intros [_ Hm Hp Hz] Hc. unfold CreateMeeting, st_CreateMeeting in Hc. prog_unfold.
  destruct (bool_decide (in_Title inp = "")); cbn in Hc; simplify_eq; [apply within_refl|].
  split; cbn; [constructor| |done]. apply rtc_once. unfold rooms_of; cbn. unfold or_new.
  rewrite bool_decide_false by apply Hz. apply meet_created; cbn; [done..| |done|done].
  unfold DefaultMaxMeetingParticipants, MaxMeetingParticipantsCap. repeat case_bool_decide; lia.
Qed.

Lemma meeting_moved_within s s' k m j m' :
  meetings s' = <[j := m']> (meetings s) → j = m_ID m → meetings s !! k = Some m → m_ID m = k →
  m_ID m' = m_ID m → m_MaxParticipants m' = m_MaxParticipants m →
  m_RecordingEnabled m' = m_RecordingEnabled m → m_E2EEEnabled m' = m_E2EEEnabled m →
  ValidMeetingTransition (m_State m) (m_State m') = true →
  calls s' = calls s → participants s' = participants s → timers s' = timers s → within s s'.
Proof.
  intros Hms -> Hm Hid Hid' Hmax Hr He Hv Hc Hp Ht.
  split; rewrite ?Hc, ?Ht; [constructor| |done]. unfold rooms_of. rewrite Hms, Hp.
  apply rtc_once. rewrite Hid. by eapply meet_moved.
Qed.

(** A meeting that has not ended can end. *)
Lemma meeting_end_valid s k m :
  (m_State m = MeetingStateScheduled ∨ m_State m = MeetingStateActive) →
  meetings s !! k = Some m → ValidMeetingTransition (m_State m) MeetingStateEnded = true.
Proof. intros [-> | ->] _; by vm_compute. Qed.

(** The states a meeting can be in. *)
Definition meeting_states (s : State) : Prop :=
  ∀ k m, meetings s !! k = Some m →
    m_State m = MeetingStateScheduled ∨ m_State m = MeetingStateActive ∨
    m_State m = MeetingStateEnded.

Ltac meeting_ended :=
  match goal with
  | Hk : ∀ k m, meetings ?s !! k = Some m → m_ID m = k, H : meetings ?s !! ?k = Some ?m,
    Hst : meeting_states ?s |- within ?s _ =>
      eapply (meeting_moved_within s _ k m); [cbn; done|..|cbn; done|cbn; done|cbn; done]; cbn;
      try done; [by eapply Hk|apply (meeting_end_valid s k); [destruct (Hst _ _ H); naive_solver|done]]
  end.

Lemma EndMeeting_within e id u s r s' :
  keys_ok s → meeting_states s → EndMeeting e id u s = (r, s') → within s s'.
Proof.
  intros [_ Hk] Hst Hc. unfold EndMeeting in Hc. lk_run Hc; try frame; state_eq; meeting_ended.
Qed.

Lemma EndMeetingByRoom_within e room s r s' :
  keys_ok s → meeting_states s → EndMeetingByRoom e room s = (r, s') → within s s'.
Proof.
  intros [_ Hk] Hst Hc. unfold EndMeetingByRoom in Hc. lk_run Hc; try frame; state_eq; meeting_ended.
Qed.
(** Adding a participant to a meeting with room left, after its activation. *)
Lemma AddParticipant_steps s k u t m :
  meetings s !! k = Some m → m_State m ≠ MeetingStateEnded →
  (Z.of_nat (count joined (parts_of s k)) < m_MaxParticipants m)%Z →
  ∃ s', AddParticipant {| p_MeetingID := k; p_UserID := u; p_JoinedAt := t; p_LeftAt := None |} s =
      (Ok tt, s') ∧ calls s' = calls s ∧ timers s' = timers s ∧
    rtc meet_step (rooms_of s) (rooms_of s').
Proof.
  intros Hm Hst Hcap. unfold AddParticipant. cbn. rewrite Hm.
  destruct (any (present u) (parts_of s k)) eqn:Hany; eexists; (split; [done|]); [done|].
  split_and!; [done..|]. apply rtc_once.
  by apply (meet_joined k m {| p_MeetingID := k; p_UserID := u; p_JoinedAt := t; p_LeftAt := None |}).
Qed.

Lemma JoinMeeting_within e rem id u s r s' :
  keys_ok s → JoinMeeting e cfg rem id u s = (r, s') → within s s'.
Proof.
  intros [_ Hk] Hc. unfold JoinMeeting, GetMeeting, CountActiveParticipants in Hc. prog_unfold.
  destruct (meetings s !! id) as [m|] eqn:Hm; [|simplify_eq; frame]. cbn in Hc.
  destruct (bool_decide (m_State m = MeetingStateEnded)) eqn:Hend; [simplify_eq; frame|].
  destruct (bool_decide (m_MaxParticipants m ≤ _)%Z) eqn:Hfull; [simplify_eq; frame|].
  apply bool_decide_eq_false in Hend, Hfull.
  destruct (bool_decide (m_State m = MeetingStateScheduled)) eqn:Hsch.
  - unfold request, UpdateMeeting in Hc. prog_unfold. cbn in Hc.
    apply bool_decide_eq_true in Hsch. rewrite (Hk _ _ Hm) in Hc.
    destruct (on_CreateMeetingRoom rem _ _); [|simplify_eq; frame]. cbn in Hc. rewrite Hm in Hc.
    match type of Hc with context [AddParticipant _ ?s1] =>
      destruct (AddParticipant_steps s1 id u (now e) (activated (now e) m)) as (s2 & Ha & Hcs & Ht & Hr);
        [cbn; by rewrite lookup_insert_eq|done|cbn; unfold parts_of; cbn; unfold parts_of in Hfull; lia|]
    end.
    rewrite Ha in Hc. cbn in Hc. assert (within s s2) as Hw.
    { split; [rewrite Hcs; constructor| |by rewrite Ht].
      eapply rtc_l; [|exact Hr]. unfold rooms_of; cbn.
      eapply meet_moved; [done..|]. rewrite Hsch. by vm_compute. }
    destruct (on_IssueJoinToken rem _ _ _); by simplify_eq.
  - destruct (AddParticipant_steps s id u (now e) m) as (s2 & Ha & Hcs & Ht & Hr); [done|done|lia|].
    rewrite Ha in Hc. cbn in Hc. assert (within s s2) as Hw.
    { split; [rewrite Hcs; constructor|done|by rewrite Ht]. }
    destruct (on_IssueJoinToken rem _ _ _); by simplify_eq.
Qed.

Lemma LeaveMeeting_within e id u s r s' :
  keys_ok s → meeting_states s → LeaveMeeting e id u s = (r, s') → within s s'.
Proof.
  intros [_ Hk] Hst Hc. unfold LeaveMeeting, RemoveParticipant in Hc. prog_unfold.
  destruct (mark_left u (now e) (parts_of s id)) as [l|] eqn:Hl; [|simplify_eq; frame].
  set (s1 := set_participants _ s) in Hc.
  assert (within s s1) as Hw.
  { split; [constructor| |done]. apply rtc_once. by eapply meet_left. }
  assert (meetings s1 = meetings s ∧ calls s1 = calls s ∧ timers s1 = timers s)
    as (Hms & Hcs & Hts) by done. clearbody s1.
  unfold CountActiveParticipants, GetMeeting, UpdateMeeting in Hc. prog_unfold. cbn in Hc.
  destruct (bool_decide (0 < _)%Z); [by simplify_eq|]. rewrite Hms in Hc.
  destruct (meetings s !! id) as [m|] eqn:Hm; [|by simplify_eq]. cbn in Hc.
  destruct (bool_decide (m_State m = MeetingStateEnded)) eqn:Hend; [by simplify_eq|].
  rewrite Hms, (Hk _ _ Hm), Hm in Hc. simplify_eq. apply bool_decide_eq_false in Hend.
  split; cbn; [rewrite Hcs; constructor| |by rewrite Hts].
  eapply rtc_r; [apply (w_rooms _ _ Hw)|]. unfold rooms_of; cbn. rewrite Hms.
  eapply meet_moved; [done..|]. cbn. apply (meeting_end_valid s id); [|done].
  destruct (Hst _ _ Hm); naive_solver.
Qed.

Lemma StartRecording_within e rc rem id room s r s' :
  StartRecording e rc rem id room s = (r, s') → within s s'.
Proof. intros Hc. unfold StartRecording in Hc. lk_run Hc; frame. Qed.

Lemma StopRecording_within e rem id s r s' :
  StopRecording e rem id s = (r, s') → within s s'.
Proof. intros Hc. unfold StopRecording in Hc. lk_run Hc; frame. Qed.

Lemma HandleEgressEnded_within e eg fp fs d b s r s' :
  HandleEgressEnded e eg fp fs d b s = (r, s') → within s s'.
Proof. intros Hc. unfold HandleEgressEnded in Hc. lk_run Hc; frame. Qed.

Lemma ignored_within {A} (m : prog State lerr A) s r s' :
  (∀ r0 s0, m s = (r0, s0) → within s s0) → ignore m s = (r, s') → within s s'.
Proof.
  intros Hm Hc. unfold ignore in Hc. simplify_eq. apply (Hm (m s).1). apply surjective_pairing.
Qed.

Lemma ServeHTTP_within {Sub} e rec (subs : gmap string (list Sub)) ev s r s' :
  keys_ok s → meeting_states s → ServeHTTP e rec subs ev s = (r, s') → within s s'.
Proof.
  intros Hk Hst Hc. unfold ServeHTTP, mbind, prog_bind, mret, prog_ret in Hc.
  destruct ev as [ev|]; [|simplify_eq; apply within_refl].
  match type of Hc with (let (_, _) := ?m in _) = _ => destruct m as [rd sd] eqn:Hd end.
  assert (within s sd) as Hw; [|destruct rd; by simplify_eq].
  clear Hc. repeat case_bool_decide; [..|simplify_eq; apply within_refl].
  - unfold dispatchParticipantJoined, mret, prog_ret in Hd. repeat case_match; simplify_eq; try apply within_refl.
    eapply ignored_within; [|done]. intros ??. by apply MarkConnected_within.
  - unfold dispatchParticipantLeft, mret, prog_ret in Hd. repeat case_match; simplify_eq; try apply within_refl;
      (eapply ignored_within; [|done]); intros ??;
      [by apply EndCallByRoom_within|by apply LeaveMeeting_within].
  - unfold dispatchRoomFinished, mret, prog_ret in Hd. repeat case_match; simplify_eq; try apply within_refl;
      (eapply ignored_within; [|done]); intros ??;
      [by apply EndCallByRoom_within|by apply EndMeetingByRoom_within].
  - unfold dispatchEgressEnded, mret, prog_ret in Hd. repeat case_match; simplify_eq; try apply within_refl.
    eapply ignored_within; [|done]. intros ??. by apply HandleEgressEnded_within.
Qed.
End handlers.

(** ** Runs *)

Section runs.
Implicit Types (s : State).

Inductive operation : Type :=
  | OInitiateCall (caller callee : uuid) (ty : CallType)
  | OAcceptCall (id callee : uuid)
  | ODeclineCall (id callee : uuid)
  | OEndCall (id user : uuid)
  | OCreateMeeting (inp : CreateMeetingInput)
  | OJoinMeeting (id user : uuid)
  | OLeaveMeeting (id user : uuid)
  | OEndMeeting (id user : uuid)
  | OStartRecording (rc : RecordingConfig) (id : uuid) (room : string)
  | OStopRecording (id : uuid)
  | OWebhook (recording_service : bool) (ev : option WebhookEvent).

Definition perform (e : Env) (rem : Remote) (op : operation) : prog State lerr unit :=
  match op with
  | OInitiateCall a b ty => _ ← InitiateCall e cfg a b ty; mret tt
  | OAcceptCall id u => _ ← AcceptCall e cfg rem id u; mret tt
  | ODeclineCall id u => DeclineCall e id u
  | OEndCall id u => EndCall e id u
  | OCreateMeeting inp => _ ← CreateMeeting e inp; mret tt
  | OJoinMeeting id u => _ ← JoinMeeting e cfg rem id u; mret tt
  | OLeaveMeeting id u => LeaveMeeting e id u
  | OEndMeeting id u => EndMeeting e id u
  | OStartRecording rc id room => _ ← StartRecording e rc rem id room; mret tt
  | OStopRecording id => _ ← StopRecording e rem id; mret tt
  | OWebhook rec ev => _ ← ServeHTTP (Sub := unit) e rec ∅ ev; mret tt
  end.

(** A handler runs to completion, or an armed timer fires. *)
Inductive livekit_step : relation State :=
  | step_perform e rem op s r s' :
      fresh_env e s → perform e rem op s = (r, s') → livekit_step s s'
  | step_fire e l1 t id l2 s r s' :
      timers s = l1 ++ (t, id) :: l2 → (t ≤ now e)%Z →
      expireRinging e id (set_timers (l1 ++ l2) s) = (r, s') → livekit_step s s'.

Lemma returning_within {A} (m : prog State lerr A) s r s' :
  (∀ r0 s0, m s = (r0, s0) → within s s0) →
  (_ ← m; mret tt) s = (r, s') → within s s'.
Proof.
  intros Hm Hc. unfold mbind, prog_bind, mret, prog_ret in Hc.
  destruct (m s) as [[a|err] s1] eqn:H1; simplify_eq; by eapply Hm.
Qed.

Lemma perform_within e rem op s r s' :
  keys_ok s → meeting_states s → fresh_env e s → perform e rem op s = (r, s') → within s s'.
Proof.
  intros Hk Hst Hf Hc. destruct op; cbn in Hc;
    try (eapply returning_within; [|done]; intros ??);
    eauto using InitiateCall_within, AcceptCall_within, DeclineCall_within, EndCall_within,
      CreateMeeting_within, JoinMeeting_within, LeaveMeeting_within, EndMeeting_within,
      StartRecording_within, StopRecording_within, ServeHTTP_within.
Qed.

(** ** Invariants *)

Definition one_active_call (M : gmap uuid Call) : Prop :=
  ∀ u i j c d, M !! i = Some c → M !! j = Some d →
    active_for u c = true → active_for u d = true → i = j.

Definition room_ok (ms : gmap uuid Meeting) (k : uuid) (l : list Participant) : Prop :=
  ∀ m, ms !! k = Some m → (Z.of_nat (count joined l) ≤ m_MaxParticipants m)%Z.

Definition rooms_inv (r : room) : Prop :=
  (∀ k m, r.1 !! k = Some m → m_ID m = k ∧
     (1 ≤ m_MaxParticipants m ≤ MaxMeetingParticipantsCap)%Z ∧
     m_E2EEEnabled m = negb (m_RecordingEnabled m) ∧
     (m_State m = MeetingStateScheduled ∨ m_State m = MeetingStateActive ∨
      m_State m = MeetingStateEnded) ∧
     (Z.of_nat (count joined (default [] (r.2 !! k))) ≤ m_MaxParticipants m)%Z).

Record calls_inv (M : gmap uuid Call) : Prop := {
  ci_key k c : M !! k = Some c → c_ID c = k;
  ci_one : one_active_call M;
}.

Lemma ValidCallTransition_source a b :
  ValidCallTransition a b = true → CallState_IsTerminal a = false.
Proof.
  unfold ValidCallTransition, callTransitions. intros Hv.
  destruct (list_to_map _ !! a) as [st|] eqn:Ha; [|done]. apply elem_of_list_to_map_2 in Ha.
  repeat (apply elem_of_cons in Ha as [?|Ha]; [simplify_eq; by vm_compute|]).
  by apply not_elem_of_nil in Ha.
Qed.

Lemma active_for_true u c :
  active_for u c = true ↔
  (c_CallerID c = u ∨ c_CalleeID c = u) ∧ CallState_IsTerminal (c_State c) = false.
Proof.
  unfold active_for. by rewrite andb_true_iff, orb_true_iff, !bool_decide_eq_true, negb_true_iff.
Qed.

Lemma calls_step_inv T M M' : calls_step T M M' → calls_inv M → calls_inv M'.
Proof.
  intros Hs [Hk Hone]. destruct Hs as [|c Hn Hst Hne Hfree _|k c c' Hc Hid Hca Hce Hv]; [done|..].
  - split.
    + intros k x. rewrite lookup_insert_Some. naive_solver.
    + intros u i j x y. rewrite !lookup_insert_Some.
      intros [[<- <-]|[_ Hx]] [[<- <-]|[_ Hy]] Ax Ay; [done|..|by eapply Hone].
      * apply active_for_true in Ax as [[<- | <-] _]; destruct (Hfree _ _ Hy); congruence.
      * apply active_for_true in Ay as [[<- | <-] _]; destruct (Hfree _ _ Hx); congruence.
  - assert (∀ u, active_for u c' = true → active_for u c = true) as Hback.
    { intros u. rewrite !active_for_true, Hca, Hce. intros [Hp _]. split; [done|].
      by eapply ValidCallTransition_source. }
    split.
    + intros i x. rewrite lookup_insert_Some. intros [[<- <-]|[_ Hx]]; [rewrite Hid|]; eauto.
    + intros u i j x y. rewrite !lookup_insert_Some.
      intros [[<- <-]|[_ Hx]] [[<- <-]|[_ Hy]] Ax Ay; [done|..|by eapply Hone];
        eapply Hone; eauto.
Qed.

Lemma mark_left_count u t l l' : mark_left u t l = Some l' → (count joined l' ≤ count joined l)%nat.
Proof.
  revert l'. induction l as [|p l IH]; intros l' Hm; cbn in Hm; [done|].
  destruct (present u p) eqn:Hp.
  - simplify_eq. rewrite !count_cons. unfold joined at 1. cbn. lia.
  - apply fmap_Some in Hm as (l1 & Hl & ->). rewrite !count_cons. specialize (IH _ Hl). lia.
Qed.

Lemma ValidMeetingTransition_target a b :
  ValidMeetingTransition a b = true → b = MeetingStateActive ∨ b = MeetingStateEnded.
Proof.
  unfold ValidMeetingTransition, meetingTransitions. intros Hv.
  destruct (list_to_map _ !! a) as [st|] eqn:Ha; [|done]. apply elem_of_list_to_map_2 in Ha.
  apply bool_decide_eq_true in Hv.
  repeat (apply elem_of_cons in Ha as [?|Ha]; [simplify_eq; set_solver|]).
  by apply not_elem_of_nil in Ha.
Qed.

Lemma meet_step_inv r r' : meet_step r r' → rooms_inv r → rooms_inv r'.
Proof.
  intros Hs Hinv. unfold rooms_inv in *.
  destruct Hs as [m ms ps Hn Hp Hmax Hst He|k m m' ms ps Hm Hid Hmax Hr He Hv
                 |k m p ms ps Hm Hleft Hst Hcap Hany|k u t l ms ps Hl]; cbn in *.
  - intros k x. rewrite lookup_insert_Some. intros [[<- <-]|[_ Hx]]; [|by apply Hinv].
    rewrite Hp. cbn. split_and!; try done; [lia..|by left|]. unfold count. cbn. lia.
  - intros k' x. rewrite lookup_insert_Some. intros [[<- <-]|[_ Hx]]; [|by apply Hinv].
    destruct (Hinv _ _ Hm) as (H1 & H2 & H3 & H4 & H5).
    rewrite Hid, Hmax, Hr, He. split_and!; try done; [lia..|].
    destruct (ValidMeetingTransition_target _ _ Hv); auto.
  - intros k' x Hx. destruct (Hinv _ _ Hx) as (H1 & H2 & H3 & H4 & H5). split_and!; try done; [lia..|].
    destruct (decide (k' = k)) as [->|Hne]; [|by rewrite lookup_insert_ne].
    simplify_eq. rewrite lookup_insert_eq. cbn [default from_option]. unfold id in *.
    rewrite count_app, count_cons. assert (joined p = true) as -> by by apply bool_decide_true.
    change (count joined []) with 0%nat. lia.
  - intros k' x Hx. destruct (Hinv _ _ Hx) as (H1 & H2 & H3 & H4 & H5). split_and!; try done; [lia..|].
    destruct (decide (k' = k)) as [->|Hne]; [|by rewrite lookup_insert_ne].
    rewrite lookup_insert_eq. cbn [default from_option]. apply mark_left_count in Hl. unfold id in *. lia.
Qed.

Record service_inv (s : State) : Prop := {
  si_calls : calls_inv (calls s);
  si_rooms : rooms_inv (rooms_of s);
}.

Lemma service_inv_keys s : service_inv s → keys_ok s ∧ meeting_states s.
Proof.
  intros [[Hk _] Hr]. split; [split; [done|]|]; intros k m Hm; destruct (Hr k m Hm) as (? & ? & ? & ? & ?); done.
Qed.

Lemma within_inv s s' : within s s' → service_inv s → service_inv s'.
Proof.
  intros [Hc Hr _] [Ic Ir]. split; [by eapply calls_step_inv|].
  by apply (rtc_preserves meet_step rooms_inv _ _ meet_step_inv Hr).
Qed.

Lemma step_within s s' :
  livekit_step s s' → service_inv s →
  ∃ s0, calls s0 = calls s ∧ rooms_of s0 = rooms_of s ∧ within s0 s'.
Proof.
  intros Hs Hinv. destruct (service_inv_keys _ Hinv) as [Hk Hst].
  destruct Hs as [e rem op s r s' Hf Hc|e l1 t id l2 s r s' Ht Hn Hc].
  - exists s. split_and!; [done..|]. by eapply perform_within.
  - exists (set_timers (l1 ++ l2) s). split_and!; [done..|].
    eapply expireRinging_within; [|done]. destruct Hk. by split.
Qed.

Lemma livekit_step_inv s s' : livekit_step s s' → service_inv s → service_inv s'.
Proof.
  intros Hs Hinv. destruct (step_within _ _ Hs Hinv) as (s0 & Hc & Hr & Hw).
  eapply within_inv; [done|]. destruct Hinv as [Ic Ir]. split; [by rewrite Hc|by rewrite Hr].
Qed.

Lemma livekit_run_inv s : rtc livekit_step NewState s → service_inv s.
Proof.
  intros Hrun. apply (rtc_preserves livekit_step service_inv _ _ livekit_step_inv Hrun).
  split; [split|]; intros *; done.
Qed.

(** C1: however the handlers, webhooks and timers are sequenced, no user is
    ever in two calls that are not over. *)
Theorem one_active_call_per_user s u i j c d :
  rtc livekit_step NewState s →
  calls s !! i = Some c → calls s !! j = Some d →
  active_for u c = true → active_for u d = true → i = j.
Proof. intros [[_ Hone] _]%livekit_run_inv. by apply Hone. Qed.

Lemma calls_step_path T M M' k c :
  calls_step T M M' → M !! k = Some c →
  ∃ c', M' !! k = Some c' ∧ c_CallerID c' = c_CallerID c ∧ c_CalleeID c' = c_CalleeID c ∧
    call_path (c_State c) (c_State c') ∧ (CallState_IsTerminal (c_State c) = true → c' = c).
Proof.
  intros Hs Hk. destruct Hs as [|x Hn|j x x' Hx Hid Hca Hce Hv].
  - by exists c.
  - exists c. rewrite lookup_insert_ne by congruence. done.
  - destruct (decide (j = k)) as [->|Hne].
    + simplify_eq. exists x'. rewrite lookup_insert_eq. split_and!; try done; [by apply rtc_once|].
      intros Ht. pose proof (ValidCallTransition_source _ _ Hv). congruence.
    + exists c. by rewrite lookup_insert_ne.
Qed.

(** A call, once created, keeps its two parties and only ever moves along
    the transition graph; a call in a terminal state never changes again, in
    any field. *)
Theorem calls_follow_graph s s' k c :
  rtc livekit_step NewState s → rtc livekit_step s s' → calls s !! k = Some c →
  ∃ c', calls s' !! k = Some c' ∧ c_CallerID c' = c_CallerID c ∧ c_CalleeID c' = c_CalleeID c ∧
    call_path (c_State c) (c_State c') ∧ (CallState_IsTerminal (c_State c) = true → c' = c).
Proof.
  intros Hinv%livekit_run_inv Hrun. revert c. induction Hrun as [s|s s1 s2 Hs _ IH]; intros c Hk; [by exists c|].
  destruct (step_within _ _ Hs Hinv) as (s0 & Hcs & _ & Hw). rewrite <-Hcs in Hk.
  destruct (calls_step_path _ _ _ _ _ (w_calls _ _ Hw) Hk) as (c1 & Hk1 & Ha1 & Hb1 & Hp1 & Ht1).
  destruct (IH (livekit_step_inv _ _ Hs Hinv) c1 Hk1) as (c2 & Hk2 & Ha2 & Hb2 & Hp2 & Ht2).
  exists c2. split_and!; [done|congruence..|by etrans|].
  intros Ht. specialize (Ht1 Ht) as ->. auto.
Qed.

(** In every reachable state a meeting holds at most as many present
    participants as it allows, which is between 1 and 49, and it is encrypted
    end to end exactly when it is not recorded. *)
Theorem meeting_capacity s k m :
  rtc livekit_step NewState s → meetings s !! k = Some m →
  (Z.of_nat (count joined (parts_of s k)) ≤ m_MaxParticipants m ≤ MaxMeetingParticipantsCap)%Z ∧
  (1 ≤ m_MaxParticipants m)%Z ∧ m_E2EEEnabled m = negb (m_RecordingEnabled m).
Proof.
  intros [_ Hr]%livekit_run_inv Hm. destruct (Hr k m Hm) as (_ & Hmax & He & _ & Hcap).
  cbn in Hcap. unfold parts_of. split_and!; [done|lia..|done].
Qed.

(** Every ringing call has its timer armed, at the deadline set when it was
    created. *)
Definition ringing_armed (s : State) : Prop :=
  ∀ k c, calls s !! k = Some c → c_State c = StateRinging →
    ((c_StartedAt c + ringingTimeout cfg)%Z, k) ∈ timers s.

Lemma ValidCallTransition_target a b : ValidCallTransition a b = true → b ≠ StateRinging.
Proof.
  unfold ValidCallTransition, callTransitions. intros Hv ->.
  destruct (list_to_map _ !! a) as [st|] eqn:Ha; [|done]. apply elem_of_list_to_map_2 in Ha.
  repeat (apply elem_of_cons in Ha as [?|Ha]; [simplify_eq; by vm_compute in Hv|]).
  by apply not_elem_of_nil in Ha.
Qed.

Lemma within_armed s s' : within s s' → ringing_armed s → ringing_armed s'.
Proof.
  intros [Hc _ Ht] Ha k c' Hk Hr.
  destruct Hc as [|x Hn Hst Hne Hfree Hin|j x x' Hx Hid Hca Hce Hv]; [by apply Ht, Ha| |].
  - apply lookup_insert_Some in Hk as [[<- ->]|[_ Hk]]; [done|]. by apply Ht, Ha.
  - apply lookup_insert_Some in Hk as [[<- ->]|[_ Hk]]; [|by apply Ht, Ha].
    by apply ValidCallTransition_target in Hv.
Qed.

Lemma expireRinging_exact e id s c :
  calls s !! id = Some c → c_ID c = id → c_State c = StateRinging →
  expireRinging e id s =
    (Ok tt, set_signals (signals s ++ [(c_CallerID c, EventCallMissed, {["call_id" := uuid_String id]});
                                       (c_CalleeID c, EventCallMissed, {["call_id" := uuid_String id]})])
              (set_calls (<[id := finished StateMissed (now e) "timeout" c]> (calls s)) s)).
Proof.
  intros Hc Hid Hst. unfold expireRinging, GetCall, UpdateCall, SendToUser. prog_unfold.
  rewrite Hc. rewrite bool_decide_false by (by intros []). cbn. rewrite Hid, Hc.
  unfold set_signals, set_calls. cbn. by rewrite <-app_assoc.
Qed.

Lemma step_armed s s' :
  livekit_step s s' → service_inv s ∧ ringing_armed s → service_inv s' ∧ ringing_armed s'.
Proof.
  intros Hs [Hinv Ha]. split; [by eapply livekit_step_inv|].
  destruct (service_inv_keys _ Hinv) as [Hk Hst].
  destruct Hs as [e rem op s r s' Hf Hc|e l1 t id l2 s r s' Ht Hn Hc].
  { eapply within_armed; [|done]. by eapply perform_within. }
  set (s0 := set_timers (l1 ++ l2) s) in *.
  destruct (calls s !! id) as [c|] eqn:Hid; [destruct (decide (c_State c = StateRinging)) as [Hr|Hr]|].
  - rewrite (expireRinging_exact e id s0 c) in Hc; [|done|by eapply Hk|done]. simplify_eq.
    intros k c'. cbn. rewrite lookup_insert_Some. intros [[<- <-]|[Hne Hk']]; [done|].
    intros Hr'. specialize (Ha _ _ Hk' Hr'). rewrite Ht in Ha. set_solver.
  - eapply within_armed; [eapply expireRinging_within; [|done]; destruct Hk; by split|].
    intros k c' Hk' Hr'. specialize (Ha _ _ Hk' Hr'). rewrite Ht in Ha. cbn in Hk'. set_solver.
  - eapply within_armed; [eapply expireRinging_within; [|done]; destruct Hk; by split|].
    intros k c' Hk' Hr'. specialize (Ha _ _ Hk' Hr'). rewrite Ht in Ha. cbn in Hk'. set_solver.
Qed.

Lemma run_armed s : rtc livekit_step NewState s → service_inv s ∧ ringing_armed s.
Proof.
  intros Hrun. eapply (rtc_preserves livekit_step (λ s, service_inv s ∧ ringing_armed s));
    [apply step_armed|exact Hrun|]. split; [by apply livekit_run_inv|]. by intros ??.
Qed.

(** No call rings for ever.  In every reachable state a ringing call has a
    timer armed for the ringing timeout after its start; from that moment on
    the timer can fire, and when it does the call alone becomes missed and
    both parties are told. *)
Theorem ringing_call_expires s k c :
  rtc livekit_step NewState s → calls s !! k = Some c → c_State c = StateRinging →
  ∀ e, (c_StartedAt c + ringingTimeout cfg ≤ now e)%Z →
  ∃ s', livekit_step s s' ∧
    calls s' = <[k := finished StateMissed (now e) "timeout" c]> (calls s) ∧
    meetings s' = meetings s ∧ participants s' = participants s ∧
    signals s' = signals s ++ [(c_CallerID c, EventCallMissed, {["call_id" := uuid_String k]});
                               (c_CalleeID c, EventCallMissed, {["call_id" := uuid_String k]})].
Proof.
  intros Hrun Hk Hr e Hle. destruct (run_armed _ Hrun) as [Hinv Ha].
  destruct (service_inv_keys _ Hinv) as [[Hkeys _] _].
  destruct (list_elem_of_split _ _ (Ha _ _ Hk Hr)) as (l1 & l2 & Ht).
  eexists. split; [eapply step_fire; [exact Ht|done|]|].
  - apply (expireRinging_exact e k _ c); [done|by eapply Hkeys|done].
  - done.
Qed.
End runs.
End service.

(** ** Room names *)

(** The webhook recovers the identifier from the names the service gives
    its rooms, and never takes a call for a meeting or the reverse. *)
Theorem room_name_roundtrip `{!UuidText} id :
  CallIDFromRoomName (callRoomPrefix +:+ uuid_String id) = Ok id ∧
  MeetingIDFromRoomName (meetingRoomPrefix +:+ uuid_String id) = Ok id ∧
  IsMeetingRoom (callRoomPrefix +:+ uuid_String id) = false ∧
  IsCallRoom (meetingRoomPrefix +:+ uuid_String id) = false.
Proof.
  unfold CallIDFromRoomName, MeetingIDFromRoomName, IsCallRoom, IsMeetingRoom.
  by rewrite !prefix_app, !trim_prefix_app, !uuid_Parse_String.
Qed.

(** ** From the accepted call to the connected one *)

Section end_to_end.
Context {U : UuidText} (cfg : Config).

Lemma AcceptCall_ok_inv e rem id u s res s' :
  (∀ k c, calls s !! k = Some c → c_ID c = k) →
  AcceptCall e cfg rem id u s = (Ok res, s') →
  on_CreateCallRoom rem (uuid_String id) = Ok (c_RoomName (acc_Call res)) ∧
  c_ID (acc_Call res) = id ∧ c_State (acc_Call res) = StateConnecting ∧
  calls s' = <[id := acc_Call res]> (calls s).
Proof.
  intros Hk Hc. unfold AcceptCall, GetCall, request, UpdateCall, SendToUser in Hc. prog_unfold.
  cbn in Hc. destruct (calls s !! id) as [c|] eqn:Hid; [|done]. cbn in Hc.
  destruct (bool_decide (c_State c ≠ _)); [done|]. destruct (bool_decide (c_CalleeID c ≠ u)); [done|].
  cbn in Hc. destruct (on_CreateCallRoom _ _) as [room|]; [|by simplify_eq].
  destruct (on_IssueJoinToken _ _ _ _); [|done]. destruct (on_IssueJoinToken _ _ _ _); [|done].
  cbn in Hc. rewrite (Hk _ _ Hid), Hid in Hc. by simplify_eq.
Qed.

(** [call.State = connected; call.ConnectedAt = &t]. *)
Definition connected_at (t : time) (c : Call) : Call :=
  {| c_ID := c_ID c; c_RoomName := c_RoomName c; c_CallerID := c_CallerID c;
     c_CalleeID := c_CalleeID c; c_CallType := c_CallType c; c_State := StateConnected;
     c_StartedAt := c_StartedAt c; c_AnsweredAt := c_AnsweredAt c; c_ConnectedAt := Some t;
     c_EndedAt := c_EndedAt c; c_EndReason := c_EndReason c; c_Duration := c_Duration c |}.

(** With the LiveKit adapter, and a server that gives a room the name it
    was asked for, the room of an accepted call leads the webhook back to that
    call: the event of its second participant makes it connected, and nothing
    else changes. *)
Theorem accepted_call_connects e e' sdk id u s res s' ev rec :
  (∀ k c, calls s !! k = Some c → c_ID c = k) →
  (∀ req room, CreateRoom sdk req = Ok room → ri_Name room = cr_Name req) →
  AcceptCall e cfg (adapter sdk) id u s = (Ok res, s') →
  ev_Event ev = WebhookEventParticipantJoined →
  ev_Room ev = c_RoomName (acc_Call res) → (2 ≤ ev_NumParticipants ev)%Z →
  ServeHTTP (Sub := unit) e' rec ∅ (Some ev) s' =
    (Ok (200%Z, []), set_calls (<[id := connected_at (now e') (acc_Call res)]> (calls s)) s').
Proof.
  intros Hk Hname Hacc Hty Hroom Hn.
  destruct (AcceptCall_ok_inv _ _ _ _ _ _ _ Hk Hacc) as (Hcr & Hid & Hst & Hcs).
  cbn in Hcr. unfold CreateCallRoom, wrap_outcome in Hcr.
  destruct (CreateRoom sdk _) as [ri|] eqn:Hsdk; [|done]. apply Hname in Hsdk. simplify_eq/=.
  assert (ev_Room ev = callRoomPrefix +:+ uuid_String (c_ID (acc_Call res))) as Hev.
  { rewrite Hroom. by rewrite <-Hcr, Hsdk. }
  unfold ServeHTTP, dispatchParticipantJoined, CallIDFromRoomName, IsCallRoom. prog_unfold.
  rewrite Hty, Hev, prefix_app, trim_prefix_app, uuid_Parse_String. cbn.
  rewrite bool_decide_true by done. rewrite bool_decide_false by lia. unfold ignore, MarkConnected, GetCall, UpdateCall. prog_unfold.
  cbn. rewrite Hcs, lookup_insert_eq, Hst, bool_decide_false by (by intros []). cbn.
  rewrite Hcs, lookup_insert_eq. cbn.
  unfold set_calls. cbn. by rewrite insert_insert_eq.
Qed.

Lemma assertNoActiveCall_ok e u s :
  (∀ k c, calls s !! k = Some c → active_for u c = false) → assertNoActiveCall e u s = (Ok tt, s).
Proof.
  intros Hfree. unfold assertNoActiveCall, GetActiveCallForUser. prog_unfold.
  destruct (List.find _ _) as [c|] eqn:Hf; [|done].
  apply find_some in Hf as [Hin Ha]. apply list_elem_of_In, elem_of_range_values in Hin as [k Hk].
  by rewrite (Hfree _ _ Hk) in Ha.
Qed.

Lemma InitiateCall_check_ok e a b ty s :
  CallType_Validate ty = None → a ≠ b →
  (∀ k c, calls s !! k = Some c → active_for a c = false ∧ active_for b c = false) →
  InitiateCall_check e a b ty s = (Ok tt, s).
Proof.
  intros Hty Hab Hfree. unfold InitiateCall_check, check. prog_unfold.
  rewrite Hty, bool_decide_false, !assertNoActiveCall_ok by naive_solver. done.
Qed.

(** The guard on busy users is not atomic.  When two free users call a
    third free user at the same time, and both requests pass the guard before
    either is stored, both succeed and the callee rings in two calls. *)
Theorem InitiateCall_race e1 e2 a1 a2 b ty1 ty2 s :
  CallType_Validate ty1 = None → CallType_Validate ty2 = None → a1 ≠ b → a2 ≠ b →
  (∀ k c, calls s !! k = Some c →
     active_for a1 c = false ∧ active_for a2 c = false ∧ active_for b c = false) →
  new_id e1 0 ≠ new_id e2 0 → new_id e1 0 ≠ uuid_Nil → new_id e2 0 ≠ uuid_Nil →
  InitiateCall_check e1 a1 b ty1 s = (Ok tt, s) ∧
  InitiateCall_check e2 a2 b ty2 s = (Ok tt, s) ∧
  ∃ c1 c2 s1 s2,
    InitiateCall_create e1 cfg a1 b ty1 s = (Ok c1, s1) ∧
    InitiateCall_create e2 cfg a2 b ty2 s1 = (Ok c2, s2) ∧
    c_ID c1 ≠ c_ID c2 ∧ calls s2 !! c_ID c1 = Some c1 ∧ calls s2 !! c_ID c2 = Some c2 ∧
    active_for b c1 = true ∧ active_for b c2 = true.
Proof.
  intros Hty1 Hty2 Hn1 Hn2 Hfree Hne Hz1 Hz2.
  split; [apply InitiateCall_check_ok; naive_solver|].
  split; [apply InitiateCall_check_ok; naive_solver|].
  unfold InitiateCall_create, CreateCall, SendToUser. prog_unfold.
  unfold or_new. rewrite !bool_decide_false by done. do 4 eexists.
  split_and!; [reflexivity|reflexivity|done|..]; cbn.
  - rewrite lookup_insert_ne by done. apply lookup_insert_eq.
  - apply lookup_insert_eq.
  - unfold active_for. cbn. by rewrite (bool_decide_true (b = b)), orb_true_r by done.
  - unfold active_for. cbn. by rewrite (bool_decide_true (b = b)), orb_true_r by done.
Qed.
End end_to_end.

(** ** The fake clock *)

(** A fake clock fires due timers in the order they were scheduled, not
    in the order of their deadlines. *)
Theorem Advance_scheduling_order {F} (run : F → FakeClock.t F → FakeClock.t F) start d1 d2 d f1 f2 :
  (d1 ≤ d)%Z → (d2 ≤ d)%Z →
  (∀ f c, FakeClock.heap c `prefix_of` FakeClock.heap (run f c)) →
  let c1 := (FakeClock.AfterFunc d1 f1 (FakeClock.NewFakeClock start)).2 in
  let c2 := (FakeClock.AfterFunc d2 f2 c1).2 in
  FakeClock.Advance run d c2 =
    run f2 (run f1 {| FakeClock.fake_now := (start + d)%Z; FakeClock.heap := FakeClock.heap c2;
                      FakeClock.pending := [] |}).
Proof.
  intros H1 H2 Hrun c1 c2. unfold FakeClock.Advance.
  assert (∀ i x, FakeClock.heap c2 !! i = Some x → FakeClock.due (start + d) c2 i = true) as Hdue.
  { intros i x Hi. unfold FakeClock.due. rewrite Hi. unfold After. apply negb_true_iff, bool_decide_eq_false, Z.nlt_ge.
    destruct i as [|[|i]]; cbn in Hi; simplify_eq/=; lia. }
  pose proof (Hdue 0%nat _ eq_refl) as D0. pose proof (Hdue 1%nat _ eq_refl) as D1.
  assert (FakeClock.ready (start + d) c2 = [0; 1]%nat ∧ FakeClock.remaining (start + d) c2 = []) as [Hr Hm].
  { unfold FakeClock.ready, FakeClock.remaining.
    change (FakeClock.pending c2) with [0; 1]%nat. rewrite !filter_cons, D0, D1, !filter_nil.
    by repeat case_decide; naive_solver. }
  change (FakeClock.fake_now c2) with start. rewrite Hr, Hm. cbn [foldl].
  unfold FakeClock.fire at 2. cbn. unfold FakeClock.fire.
  set (s0 := {| FakeClock.fake_now := _ |}).
  destruct (Hrun f1 s0) as [l Hl]. rewrite Hl. cbn. done.
Qed.

(** ** Examples *)

Definition example_env (base : N) (t : time) : Env :=
  {| now := t; new_id n := (base + N.of_nat n)%N; order := canonical_range |}.
Definition example_cfg : Config :=
  {| livekitURL := "wss://lk"; ringingTimeout := DefaultRingingTimeout; tokenTTL := Hour |}.
(** A server that creates every room under the name asked for. *)
Definition example_sdk : SDK :=
  {| CreateRoom req := Ok {| ri_Name := cr_Name req; ri_MaxParticipants := cr_MaxParticipants req;
                             ri_NumParticipants := 0; ri_EmptyTimeoutSecs := cr_EmptyTimeout req |};
     ToJWT tok := Ok (at_Identity tok);
     StartRoomCompositeEgress room := Ok room; StopEgress _ := Ok tt |}.

Section examples.
#[local] Existing Instance binary_uuid_text.
#[local] Abbreviation run m s := (m s).2 (only parsing).

Definition ringing_state : State :=
  run (InitiateCall (example_env 100 10) example_cfg 1 2 CallTypeVoice) NewState.
Definition ringing_call : Call :=
  {| c_ID := 100; c_RoomName := ""; c_CallerID := 1; c_CalleeID := 2; c_CallType := CallTypeVoice;
     c_State := StateRinging; c_StartedAt := 10; c_AnsweredAt := None; c_ConnectedAt := None;
     c_EndedAt := None; c_EndReason := ""; c_Duration := 0 |}.
Definition meeting_state : State :=
  run (CreateMeeting (example_env 100 10)
         {| in_Title := "standup"; in_CreatorID := 1; in_MaxParticipants := 0;
            in_RecordingEnabled := false |}) NewState.
Definition declined_state : State := run (DeclineCall (example_env 200 20) 100 2) ringing_state.

Lemma fresh_new base t : (base ≠ 0)%N → fresh_env (example_env base t) NewState.
Proof. intros Hb. split; intros n; cbn; try apply lookup_empty. lia. Qed.

Lemma fresh_ringing t : fresh_env (example_env 200 t) ringing_state.
Proof.
  split; intros n; cbn; try apply lookup_empty; [|lia].
  change (calls ringing_state !! (200 + N.of_nat n)%N = None).
  change (calls ringing_state) with ({[100%N := ringing_call]} : gmap uuid Call).
  rewrite lookup_singleton_ne; [done|lia].
Qed.

Lemma ringing_reachable : rtc (livekit_step example_cfg) NewState ringing_state.
Proof.
  apply rtc_once. eapply (step_perform _ (example_env 100 10) (adapter example_sdk)
    (OInitiateCall 1 2 CallTypeVoice)); [by apply fresh_new|]. by vm_compute.
Qed.

Lemma one_active_call_per_user_witness :
  ¬ ∃ j d, calls ringing_state !! j = Some d ∧ j ≠ 100%N ∧ active_for 2 d = true.
Proof.
  intros (j & d & Hd & Hne & Ha). apply Hne.
  apply (one_active_call_per_user example_cfg ringing_state 2 j 100%N d ringing_call);
    [apply ringing_reachable|done|done|done|by vm_compute].
Defined.

Lemma calls_follow_graph_witness :
  ∃ c', calls declined_state !! 100%N = Some c' ∧ c_CallerID c' = 1%N ∧ c_CalleeID c' = 2%N ∧
    call_path StateRinging (c_State c') ∧
    (CallState_IsTerminal StateRinging = true → c' = ringing_call).
Proof.
  apply (calls_follow_graph example_cfg ringing_state declined_state 100 ringing_call);
    [apply ringing_reachable| |by vm_compute].
  apply rtc_once. eapply (step_perform _ (example_env 200 20) (adapter example_sdk)
    (ODeclineCall 100 2)); [apply fresh_ringing|]. by vm_compute.
Defined.

Lemma meeting_capacity_witness :
  (Z.of_nat (count joined (parts_of meeting_state 100)) ≤ 10 ≤ MaxMeetingParticipantsCap)%Z ∧
  (1 ≤ 10)%Z ∧ true = negb false.
Proof.
  apply (meeting_capacity example_cfg meeting_state 100
    {| m_ID := 100; m_RoomName := "meeting-" +:+ uuid_String 100%N; m_Title := "standup";
       m_CreatorID := 1; m_MaxParticipants := 10; m_RecordingEnabled := false;
       m_E2EEEnabled := true; m_State := MeetingStateScheduled; m_StartedAt := None;
       m_EndedAt := None; m_CreatedAt := 10 |}); [|by vm_compute].
  apply rtc_once. eapply (step_perform _ (example_env 100 10) (adapter example_sdk)
    (OCreateMeeting {| in_Title := "standup"; in_CreatorID := 1; in_MaxParticipants := 0;
       in_RecordingEnabled := false |})); [by apply fresh_new|]. by vm_compute.
Defined.

Lemma ringing_call_expires_witness :
  ∃ s', livekit_step example_cfg ringing_state s' ∧
    calls s' = <[100%N := finished StateMissed (60 * Second) "timeout" ringing_call]>
                 (calls ringing_state) ∧
    meetings s' = meetings ringing_state ∧ participants s' = participants ringing_state ∧
    signals s' = signals ringing_state ++
      [(1%N, EventCallMissed, {["call_id" := uuid_String 100%N]});
       (2%N, EventCallMissed, {["call_id" := uuid_String 100%N]})].
Proof.
  apply (ringing_call_expires example_cfg ringing_state 100 ringing_call)
    with (e := example_env 200 (60 * Second)); [apply ringing_reachable|by vm_compute..].
Defined.

Lemma accepted_call_connects_witness :
  ∃ res s', AcceptCall (example_env 200 20) example_cfg (adapter example_sdk) 100 2 ringing_state =
      (Ok res, s') ∧
    ServeHTTP (Sub := unit) (example_env 300 30) false ∅
      (Some {| ev_Event := WebhookEventParticipantJoined; ev_Room := c_RoomName (acc_Call res);
               ev_NumParticipants := 2; ev_Identity := ""; ev_Egress := None |}) s' =
    (Ok (200%Z, []), set_calls (<[100%N := connected_at 30 (acc_Call res)]>
                                  (calls ringing_state)) s').
Proof.
  destruct (AcceptCall (example_env 200 20) example_cfg (adapter example_sdk) 100 2 ringing_state)
    as [[res|err] s'] eqn:Hacc; [|by vm_compute in Hacc].
  exists res, s'. split; [done|].
  apply (accepted_call_connects example_cfg (example_env 200 20) (example_env 300 30) example_sdk
           100 2 ringing_state); try done.
  - change (calls ringing_state) with ({[100%N := ringing_call]} : gmap uuid Call).
    intros k c [<- <-]%lookup_singleton_Some. done.
  - intros req room Hreq. by injection Hreq as <-.
Defined.

Lemma InitiateCall_race_witness :
  ∃ c1 c2 s1 s2,
    InitiateCall_create (example_env 100 10) example_cfg 1 3 CallTypeVoice NewState = (Ok c1, s1) ∧
    InitiateCall_create (example_env 200 10) example_cfg 2 3 CallTypeVoice s1 = (Ok c2, s2) ∧
    c_ID c1 ≠ c_ID c2 ∧ calls s2 !! c_ID c1 = Some c1 ∧ calls s2 !! c_ID c2 = Some c2 ∧
    active_for 3 c1 = true ∧ active_for 3 c2 = true.
Proof.
  apply (InitiateCall_race example_cfg (example_env 100 10) (example_env 200 10) 1 2 3); try done.
Defined.

Lemma Advance_scheduling_order_witness :
  let later f c := (FakeClock.AfterFunc 100 f c).2 in
  let c1 := (FakeClock.AfterFunc 10 "slow" (FakeClock.NewFakeClock 0)).2 in
  let c2 := (FakeClock.AfterFunc 5 "fast" c1).2 in
  FakeClock.Advance later 20 c2 =
    later "fast" (later "slow" {| FakeClock.fake_now := 20; FakeClock.heap := FakeClock.heap c2;
                                  FakeClock.pending := [] |}).
Proof.
  apply (Advance_scheduling_order (λ f c, (FakeClock.AfterFunc 100 f c).2) 0 10 5 20 "slow" "fast");
    [done|done|]. intros f c. by eexists.
Defined.
End examples.
