(* ===== verification/Webhook.v ===== *)
(** * Outgoing webhooks (platform/webhook and its development store)

    store.go and events.go: the records and the store interface; service.go:
    subscription matching, signatures, [Trigger], [deliver] and
    [recordFailure]; retry.go: the sweep and the single delivery;
    platform/devstore/webhook_store.go: the in-memory store.  Calls of the service and
    the goroutines they start work on copies of the rows they have read, while others
    run; a service is therefore a store with the list of what is running, each stopped
    between two of its store calls ([task], [task_step]).  [Trigger],
    [RetryFailedDeliveries], [ExecuteDelivery] and [deliver] are the functions of the
    code, run with nothing in between; [StartTrigger], [StartRetry] and [StartExecute] are
    their first store calls.  The theorems are in [WebhookProofs]. *)

From S2P Require Import Prelude.

(** ** store.go and events.go *)

Record Webhook : Type := {
  w_ID : uuid;
  w_CompanyID : uuid;
  w_URL : string;
  w_Secret : string;
  w_Events : list string;
  w_Active : bool;
  w_ConsecutiveFails : Z;
  w_CreatedAt : time;
}.

Record WebhookDelivery : Type := {
  d_ID : uuid;
  d_WebhookID : uuid;
  d_EventType : string;
  d_Payload : string;
  d_Status : string;
  d_StatusCode : Z;
  d_ResponseBody : string;
  d_Attempts : Z;
  d_NextRetryAt : option time;
  d_CreatedAt : time;
}.

#[export] Instance Webhook_eq_dec : EqDecision Webhook.
Proof. solve_decision. Defined.
#[export] Instance WebhookDelivery_eq_dec : EqDecision WebhookDelivery.
Proof. solve_decision. Defined.

Abbreviation werr := (goerr Empty_set) (only parsing).

(** [CreateDelivery] takes the index of its [uuid.New] among the caller's. *)
Class WebhookStore (St : Type) : Type := {
  ws_CreateWebhook : Env → uuid → string → string → list string → prog St werr Webhook;
  ws_GetWebhook : uuid → prog St werr Webhook;
  ws_ListWebhooksByCompany : Env → uuid → prog St werr (list Webhook);
  ws_UpdateWebhookStatus : uuid → bool → prog St werr unit;
  ws_DeleteWebhook : uuid → prog St werr unit;
  ws_IncrementFailureCount : uuid → prog St werr Z;
  ws_ResetFailureCount : uuid → prog St werr unit;
  ws_CreateDelivery : Env → nat → uuid → string → string → prog St werr WebhookDelivery;
  ws_UpdateDelivery : uuid → string → Z → string → option time → prog St werr unit;
  ws_GetPendingDeliveries : Env → prog St werr (list WebhookDelivery);
  ws_GetDelivery : uuid → prog St werr WebhookDelivery;
  ws_ListFailedDeliveriesForRetry : Env → Z → prog St werr (list WebhookDelivery);
}.

(** ** platform/devstore/webhook_store.go *)

Record Backend : Type := {
  webhooks : gmap uuid Webhook;
  deliveries : gmap uuid WebhookDelivery;
}.
Definition set_webhooks (x : gmap uuid Webhook) (b : Backend) : Backend :=
  {| webhooks := x; deliveries := deliveries b |}.
Definition set_deliveries (x : gmap uuid WebhookDelivery) (b : Backend) : Backend :=
  {| webhooks := webhooks b; deliveries := x |}.
Abbreviation dev A := (prog Backend werr A) (only parsing).

Definition dev_CreateWebhook (e : Env) (companyID : uuid) (url secret : string)
    (events : list string) : dev Webhook :=
  let wh := {| w_ID := new_id e 0; w_CompanyID := companyID; w_URL := url; w_Secret := secret;
               w_Events := events; w_Active := true; w_ConsecutiveFails := 0;
               w_CreatedAt := now e |} in
  _ ← modify (λ b, set_webhooks (<[w_ID wh := wh]> (webhooks b)) b);
  mret wh.

Definition dev_GetWebhook (id : uuid) : dev Webhook := λ b,
  match webhooks b !! id with
  | None => (Err (Errorf "webhook not found"), b)
  | Some wh => (Ok wh, b)
  end.

Definition dev_ListWebhooksByCompany (e : Env) (companyID : uuid) : dev (list Webhook) :=
  gets (λ b, sort_slice (λ x y, Before (w_CreatedAt x) (w_CreatedAt y))
    (filter (λ wh, w_CompanyID wh = companyID) (range_values (R := order e) (webhooks b)))).

(** [wh, ok := webhooks[id]; ...; webhooks[id] = f(wh)]. *)
Definition update_webhook {A} (id : uuid) (f : Webhook → Webhook) (res : Webhook → A) : dev A := λ b,
  match webhooks b !! id with
  | None => (Err (Errorf "webhook not found"), b)
  | Some wh => (Ok (res (f wh)), set_webhooks (<[id := f wh]> (webhooks b)) b)
  end.

Definition with_active (active : bool) (wh : Webhook) : Webhook :=
  {| w_ID := w_ID wh; w_CompanyID := w_CompanyID wh; w_URL := w_URL wh; w_Secret := w_Secret wh;
     w_Events := w_Events wh; w_Active := active; w_ConsecutiveFails := w_ConsecutiveFails wh;
     w_CreatedAt := w_CreatedAt wh |}.
Definition with_fails (n : Z) (wh : Webhook) : Webhook :=
  {| w_ID := w_ID wh; w_CompanyID := w_CompanyID wh; w_URL := w_URL wh; w_Secret := w_Secret wh;
     w_Events := w_Events wh; w_Active := w_Active wh; w_ConsecutiveFails := n;
     w_CreatedAt := w_CreatedAt wh |}.

Definition dev_UpdateWebhookStatus (id : uuid) (active : bool) : dev unit :=
  update_webhook id (with_active active) (λ _, tt).

Definition dev_DeleteWebhook (id : uuid) : dev unit :=
  modify (λ b, set_webhooks (delete id (webhooks b)) b).

Definition dev_IncrementFailureCount (id : uuid) : dev Z :=
  update_webhook id (λ wh, with_fails (wrap64 (w_ConsecutiveFails wh + 1)) wh) w_ConsecutiveFails.

Definition dev_ResetFailureCount (id : uuid) : dev unit :=
  update_webhook id (with_fails 0) (λ _, tt).

Definition dev_CreateDelivery (e : Env) (n : nat) (webhookID : uuid) (eventType payload : string) :
    dev WebhookDelivery :=
  let delivery := {| d_ID := new_id e n; d_WebhookID := webhookID; d_EventType := eventType;
                     d_Payload := payload; d_Status := "pending"; d_StatusCode := 0;
                     d_ResponseBody := ""; d_Attempts := 0; d_NextRetryAt := None;
                     d_CreatedAt := now e |} in
  _ ← modify (λ b, set_deliveries (<[d_ID delivery := delivery]> (deliveries b)) b);
  mret delivery.

Definition attempted (status : string) (statusCode : Z) (responseBody : string)
    (nextRetryAt : option time) (d : WebhookDelivery) : WebhookDelivery :=
  {| d_ID := d_ID d; d_WebhookID := d_WebhookID d; d_EventType := d_EventType d;
     d_Payload := d_Payload d; d_Status := status; d_StatusCode := statusCode;
     d_ResponseBody := responseBody; d_Attempts := wrap64 (d_Attempts d + 1);
     d_NextRetryAt := nextRetryAt; d_CreatedAt := d_CreatedAt d |}.

Definition dev_UpdateDelivery (id : uuid) (status : string) (statusCode : Z)
    (responseBody : string) (nextRetryAt : option time) : dev unit := λ b,
  match deliveries b !! id with
  | None => (Err (Errorf "delivery not found"), b)
  | Some d =>
      (Ok tt, set_deliveries
                (<[id := attempted status statusCode responseBody nextRetryAt d]> (deliveries b)) b)
  end.

Definition dev_GetPendingDeliveries (e : Env) : dev (list WebhookDelivery) :=
  gets (λ b, filter (λ d, d_Status d = "pending") (range_values (R := order e) (deliveries b))).

Definition dev_GetDelivery (id : uuid) : dev WebhookDelivery := λ b,
  match deliveries b !! id with
  | None => (Err (Errorf "delivery not found"), b)
  | Some d => (Ok d, b)
  end.

(** The rows of [ListFailedDeliveriesForRetry]. *)
Definition retryable (maxAttempts : Z) (d : WebhookDelivery) : Prop :=
  d_Status d = "failed" ∧ (d_Attempts d < maxAttempts)%Z.
#[export] Instance retryable_dec maxAttempts d : Decision (retryable maxAttempts d).
Proof. unfold retryable. apply _. Defined.

Definition dev_ListFailedDeliveriesForRetry (e : Env) (maxAttempts : Z) :
    dev (list WebhookDelivery) :=
  gets (λ b, sort_slice (λ x y, Before (d_CreatedAt x) (d_CreatedAt y))
    (filter (retryable maxAttempts) (range_values (R := order e) (deliveries b)))).

(** A negative offset panics in Go; the handler passes none. *)
Definition dev_ListDeliveriesByWebhook (e : Env) (webhookID : uuid) (limit offset : Z) :
    dev (list WebhookDelivery) :=
  gets (λ b,
    let filtered := sort_slice (λ x y, After (d_CreatedAt x) (d_CreatedAt y))
      (filter (λ d, d_WebhookID d = webhookID) (range_values (R := order e) (deliveries b))) in
    if bool_decide (Z.of_nat (length filtered) ≤ offset)%Z then []
    else
      let filtered := drop (Z.to_nat offset) filtered in
      if bool_decide (0 < limit)%Z && bool_decide (limit < Z.of_nat (length filtered))%Z
      then take (Z.to_nat limit) filtered else filtered).

#[export] Instance dev_WebhookStore : WebhookStore Backend := {|
  ws_CreateWebhook := dev_CreateWebhook;
  ws_GetWebhook := dev_GetWebhook;
  ws_ListWebhooksByCompany := dev_ListWebhooksByCompany;
  ws_UpdateWebhookStatus := dev_UpdateWebhookStatus;
  ws_DeleteWebhook := dev_DeleteWebhook;
  ws_IncrementFailureCount := dev_IncrementFailureCount;
  ws_ResetFailureCount := dev_ResetFailureCount;
  ws_CreateDelivery := dev_CreateDelivery;
  ws_UpdateDelivery := dev_UpdateDelivery;
  ws_GetPendingDeliveries := dev_GetPendingDeliveries;
  ws_GetDelivery := dev_GetDelivery;
  ws_ListFailedDeliveriesForRetry := dev_ListFailedDeliveriesForRetry;
|}.

(** ** service.go: configuration, matching and signatures *)

Definition DefaultMaxRetries : Z := 5.
Definition DefaultMaxConsecutiveFailures : Z := 10.
Definition DefaultHTTPTimeout : duration := (10 * Second)%Z.
Definition DefaultDeliveryTimeout : duration := (30 * Second)%Z.

(** The fields of a [Service] but its store and its running deliveries. *)
Record Config : Type := {
  maxRetries : Z;
  maxConsecutiveFailures : Z;
  clientTimeout : duration;
  deliveryTimeout : duration;
}.

Abbreviation ServiceOption := (Config → Config) (only parsing).
Definition WithMaxRetries (n : Z) : ServiceOption := λ c,
  {| maxRetries := n; maxConsecutiveFailures := maxConsecutiveFailures c;
     clientTimeout := clientTimeout c; deliveryTimeout := deliveryTimeout c |}.
Definition WithMaxConsecutiveFailures (n : Z) : ServiceOption := λ c,
  {| maxRetries := maxRetries c; maxConsecutiveFailures := n;
     clientTimeout := clientTimeout c; deliveryTimeout := deliveryTimeout c |}.
Definition WithHTTPTimeout (d : duration) : ServiceOption := λ c,
  {| maxRetries := maxRetries c; maxConsecutiveFailures := maxConsecutiveFailures c;
     clientTimeout := d; deliveryTimeout := deliveryTimeout c |}.
Definition WithDeliveryTimeout (d : duration) : ServiceOption := λ c,
  {| maxRetries := maxRetries c; maxConsecutiveFailures := maxConsecutiveFailures c;
     clientTimeout := clientTimeout c; deliveryTimeout := d |}.
Definition NewService (opts : list ServiceOption) : Config :=
  foldl (λ s opt, opt s)
    {| maxRetries := DefaultMaxRetries; maxConsecutiveFailures := DefaultMaxConsecutiveFailures;
       clientTimeout := DefaultHTTPTimeout; deliveryTimeout := DefaultDeliveryTimeout |} opts.

(** One iteration of the loop of [matchesEvent]. *)
Definition matches_one (eventType e : string) : bool :=
  bool_decide (e = "*") || bool_decide (e = eventType)
  || (has_suffix ".*" e && String.prefix (trim_suffix ".*" e) eventType).
Definition matchesEvent (subscribed : list string) (eventType : string) : bool :=
  any (matches_one eventType) subscribed.

(** [t.Unix()]: seconds since 1970, the zero time being the year 1. *)
Definition Unix (t : time) : Z := (t `div` Second - 62135596800)%Z.

(** What the receiver is sent. *)
Record Request : Type := {
  req_URL : string;
  req_Headers : list (string * string);
  req_Body : string;
}.

(** What comes of sending it: the URL does not parse, the exchange fails, or a
    response arrives. *)
Inductive http_result : Type :=
  | NewRequestFails (err : string)
  | DoFails (err : string)
  | Responds (statusCode : Z) (body : string).

Section service.
(** The lower-case hexadecimal HMAC-SHA256 of a message under a key, and the
    integer a floating-point number out of the range of int64 converts to,
    which Go leaves to the platform. *)
Context {U : UuidText} (hmac_hex : string → string → string) (float_overflow : Z).

Definition sign (secret timestamp payload : string) : string :=
  hmac_hex secret (timestamp +:+ "." +:+ payload).

Definition sig_header (timestamp signature : string) : string :=
  "t=" +:+ timestamp +:+ ",v1=" +:+ signature.

(** One iteration of the loop of [VerifySignature]. *)
Definition read_part (acc : string * string) (p : string) : string * string :=
  if String.prefix "t=" p then (trim_prefix "t=" p, acc.2)
  else if String.prefix "v1=" p then (acc.1, trim_prefix "v1=" p)
  else acc.

Definition VerifySignature (secret sigHeader payload : string) : bool :=
  let parts := split_on ","%char sigHeader in
  if bool_decide (length parts ≠ 2%nat) then false
  else
    let '(timestamp, sig) := foldl read_part ("", "") parts in
    bool_decide (sig = sign secret timestamp payload).

(** The request [deliver] builds. *)
Definition request_of (e : Env) (wh : Webhook) (delivery : WebhookDelivery) : Request :=
  let timestamp := pretty (Unix (now e)) in
  let signature := sign (w_Secret wh) timestamp (d_Payload delivery) in
  {| req_URL := w_URL wh;
     req_Headers := [("Content-Type", "application/json");
                     ("X-Eden-Signature", sig_header timestamp signature);
                     ("X-Eden-Event", d_EventType delivery);
                     ("X-Eden-Delivery", uuid_String (d_ID delivery))];
     req_Body := d_Payload delivery |}.

(** [time.Duration(math.Pow(2, float64(n)))]: powers of two are exact, and
    their fractions truncate to 0. *)
Definition pow2 (n : Z) : Z :=
  if bool_decide (n < 0)%Z then 0 else if bool_decide (n < 63)%Z then 2 ^ n else float_overflow.

(** ** service.go and retry.go: deliveries *)

Context {St : Type} {S : WebhookStore St}.

(** [secret] is drawn by [generateSecret] when none is given. *)
Definition Register (e : Env) (generated : string) (companyID : uuid) (url secret : string)
    (events : list string) : prog St werr Webhook :=
  let secret := if bool_decide (secret = "") then generated else secret in
  ws_CreateWebhook e companyID url secret events.

(** The status and the next retry [recordFailure] writes. *)
Definition failure_status (e : Env) (cfg : Config) (delivery : WebhookDelivery) :
    string * option time :=
  let attempt := wrap64 (d_Attempts delivery + 1) in
  if bool_decide (attempt < maxRetries cfg)%Z
  then ("failed", Some (now e + wrap64 (pow2 attempt * Minute))%Z)
  else ("exhausted", None).

(** What follows the update of the delivery. *)
Definition count_failure (cfg : Config) (webhookID : uuid) : prog St werr unit :=
  r ← try (ws_IncrementFailureCount webhookID);
  match r with
  | Ok failCount =>
      if bool_decide (maxConsecutiveFailures cfg ≤ failCount)%Z
      then ignore (ws_UpdateWebhookStatus webhookID false) else mret tt
  | Err _ => mret tt
  end.

Definition recordFailure (e : Env) (cfg : Config) (wh : Webhook) (delivery : WebhookDelivery)
    (statusCode : Z) (responseBody : string) : prog St werr unit :=
  let '(status, nextRetry) := failure_status e cfg delivery in
  _ ← ignore (ws_UpdateDelivery (d_ID delivery) status statusCode responseBody nextRetry);
  count_failure cfg (w_ID wh).

(** The first 1024 bytes of the response are kept. *)
Definition limited (body : string) : string := String.substring 0 1024 body.

Definition is_2xx (statusCode : Z) : bool :=
  bool_decide (200 ≤ statusCode)%Z && bool_decide (statusCode < 300)%Z.

Definition deliver (e : Env) (cfg : Config) (result : http_result) (wh : Webhook)
    (delivery : WebhookDelivery) : prog St werr unit :=
  match result with
  | NewRequestFails err | DoFails err => recordFailure e cfg wh delivery 0 err
  | Responds code body =>
      let body := limited body in
      if is_2xx code then
        _ ← ignore (ws_UpdateDelivery (d_ID delivery) "success" code body None);
        ignore (ws_ResetFailureCount (w_ID wh))
      else recordFailure e cfg wh delivery code body
  end.

(** What is running, between two of its store calls: the loop of a [Trigger] over the
    webhooks it has listed, the loop of a sweep over the deliveries it has listed, an
    [ExecuteDelivery] that has read its delivery, and a [deliver], in four places.  [n]
    counts the deliveries a trigger has created. *)
Inductive task : Type :=
  | Triggering (n : nat) (eventType payload : string) (whs : list Webhook)
  | Retrying (ds : list WebhookDelivery)
  | Executing (delivery : WebhookDelivery)
  | Sending (wh : Webhook) (delivery : WebhookDelivery)
  | Resetting (webhookID : uuid)
  | Counting (webhookID : uuid)
  | Pausing (webhookID : uuid).

(** One iteration of the loop of [Trigger]: what goes on. *)
Definition trigger_step (e : Env) (n : nat) (eventType payload : string) (whs : list Webhook) :
    prog St werr (list task) :=
  match whs with
  | [] => mret []
  | wh :: rest =>
      if negb (w_Active wh) then mret [Triggering n eventType payload rest]
      else if negb (matchesEvent (w_Events wh) eventType) then mret [Triggering n eventType payload rest]
      else
        r ← try (ws_CreateDelivery e n (w_ID wh) eventType payload);
        match r with
        | Err _ => mret [Triggering n eventType payload rest]
        | Ok delivery => mret [Triggering (Datatypes.S n) eventType payload rest; Sending wh delivery]
        end
  end.
(** One iteration of the loop of [RetryFailedDeliveries]. *)
Definition retry_step (ds : list WebhookDelivery) : prog St werr (list task) :=
  match ds with
  | [] => mret []
  | d :: rest =>
      r ← try (ws_GetWebhook (d_WebhookID d));
      match r with
      | Err _ => mret [Retrying rest]
      | Ok hook => if negb (w_Active hook) then mret [Retrying rest] else mret [Retrying rest; Sending hook d]
      end
  end.
(** The second read of [ExecuteDelivery]: no look at the status of the delivery, its
    attempts, or whether the webhook is active. *)
Definition execute_step (d : WebhookDelivery) : prog St werr (list task) :=
  r ← try (ws_GetWebhook (d_WebhookID d));
  match r with
  | Err _ => mret []
  | Ok hook => mret [Sending hook d]
  end.
(** The end of a request and the first store call after it. *)
Definition send_step (e : Env) (cfg : Config) (result : http_result) (wh : Webhook) (d : WebhookDelivery) :
    prog St werr (list task) :=
  let failed code body :=
    let '(status, nextRetry) := failure_status e cfg d in
    _ ← ignore (ws_UpdateDelivery (d_ID d) status code body nextRetry);
    mret [Counting (w_ID wh)] in
  match result with
  | NewRequestFails err | DoFails err => failed 0%Z err
  | Responds code body =>
      if is_2xx code then
        _ ← ignore (ws_UpdateDelivery (d_ID d) "success" code (limited body) None);
        mret [Resetting (w_ID wh)]
      else failed code (limited body)
  end.

(** One store call of what is running, and what goes on after it. *)
Definition task_step (e : Env) (cfg : Config) (result : http_result) (t : task) :
    prog St werr (list task) :=
  match t with
  | Triggering n ev p whs => trigger_step e n ev p whs
  | Retrying ds => retry_step ds
  | Executing d => execute_step d
  | Sending wh d => send_step e cfg result wh d
  | Resetting id => _ ← ignore (ws_ResetFailureCount id); mret []
  | Counting id =>
      r ← try (ws_IncrementFailureCount id);
      match r with
      | Ok failCount =>
          if bool_decide (maxConsecutiveFailures cfg ≤ failCount)%Z then mret [Pausing id] else mret []
      | Err _ => mret []
      end
  | Pausing id => _ ← ignore (ws_UpdateWebhookStatus id false); mret []
  end.

(** A store and what is running. *)
Record World : Type := { store : St; running : list task }.
Abbreviation svc A := (prog World werr A) (only parsing).
Definition on_store {A} (m : prog St werr A) : svc A :=
  zoom store (λ st w, {| store := st; running := running w |}) m.
Definition spawn (t : task) : svc unit :=
  modify (λ w, {| store := store w; running := running w ++ [t] |}).

Fixpoint trigger_loop (e : Env) (n : nat) (eventType payload : string) (whs : list Webhook) :
    svc unit :=
  match whs with
  | [] => mret tt
  | wh :: rest =>
      if negb (w_Active wh) then trigger_loop e n eventType payload rest
      else if negb (matchesEvent (w_Events wh) eventType)
      then trigger_loop e n eventType payload rest
      else
        r ← try (on_store (ws_CreateDelivery e n (w_ID wh) eventType payload));
        match r with
        | Err _ => trigger_loop e n eventType payload rest
        | Ok delivery =>
            _ ← spawn (Sending wh delivery);
            trigger_loop e (Datatypes.S n) eventType payload rest
        end
  end.

Definition Trigger (e : Env) (companyID : uuid) (eventType payload : string) : svc unit :=
  whs ← wrapping "list webhooks" (on_store (ws_ListWebhooksByCompany e companyID));
  trigger_loop e 0 eventType payload whs.

Fixpoint retry_loop (retried : Z) (ds : list WebhookDelivery) : svc Z :=
  match ds with
  | [] => mret retried
  | d :: rest =>
      r ← try (on_store (ws_GetWebhook (d_WebhookID d)));
      match r with
      | Err _ => retry_loop retried rest
      | Ok hook =>
          if negb (w_Active hook) then retry_loop retried rest
          else _ ← spawn (Sending hook d); retry_loop (retried + 1)%Z rest
      end
  end.

Definition RetryFailedDeliveries (e : Env) (cfg : Config) : svc Z :=
  ds ← wrapping "list failed deliveries"
         (on_store (ws_ListFailedDeliveriesForRetry e (maxRetries cfg)));
  retry_loop 0 ds.

(** [ExecuteDelivery] runs the delivery in the caller's goroutine. *)
Definition ExecuteDelivery (deliveryID : uuid) : svc unit :=
  d ← wrapping "get delivery" (on_store (ws_GetDelivery deliveryID));
  hook ← wrapping "get webhook" (on_store (ws_GetWebhook (d_WebhookID d)));
  spawn (Sending hook d).

(** The first store call of each, after which others may run. *)
Definition StartTrigger (e : Env) (companyID : uuid) (eventType payload : string) : svc unit :=
  whs ← wrapping "list webhooks" (on_store (ws_ListWebhooksByCompany e companyID));
  spawn (Triggering 0 eventType payload whs).
Definition StartRetry (e : Env) (cfg : Config) : svc unit :=
  ds ← wrapping "list failed deliveries"
         (on_store (ws_ListFailedDeliveriesForRetry e (maxRetries cfg)));
  spawn (Retrying ds).
Definition StartExecute (deliveryID : uuid) : svc unit :=
  d ← wrapping "get delivery" (on_store (ws_GetDelivery deliveryID));
  spawn (Executing d).
End service.
Arguments World : clear implicits.
