(* ===== verification/WebhookProofs.v ===== *)
(** * Webhook correctness

    The calls of the service are their tasks, run with nothing in between; what the
    retry sweep starts, in closed form.  Then runs, in which everything interleaves at its
    store calls: a webhook that keeps failing is paused, and what is still sent to it;
    in the runs whose sweeps do not overlap with what is outstanding, attempts are
    bounded and settled deliveries are final; what overlapping sweeps and
    [ExecuteDelivery] do otherwise; signatures. *)

From S2P Require Import Prelude Webhook.

(** Sorting by an instant is a weak order. *)
#[export] Instance Before_StrictWeak {A} (f : A → time) : StrictWeak (λ x y, Before (f x) (f y)).
Proof. split; unfold Before; intros *; rewrite ?bool_decide_eq_true, ?bool_decide_eq_false; lia. Qed.

Lemma StronglySorted_sublist {A} (R : relation A) l k :
  l `sublist_of` k → StronglySorted R k → StronglySorted R l.
Proof.
  induction 1 as [|x l k Hs IH|x l k Hs IH]; rewrite ?StronglySorted_cons; [done| |naive_solver].
  intros [Hx Hk]. split; [|auto]. rewrite Forall_forall in *. intros y Hy. by apply Hx, (elem_of_submseteq _ _ _ Hy), sublist_submseteq.
Qed.

(** ** Calls and goroutines, cut at their store calls *)

Section tasks.
Context (float_overflow : Z) {St : Type} {S : WebhookStore St}.

(** Runs a goroutine with nothing in between, for at most [n] store calls. *)
Fixpoint run_alone (n : nat) (e : Env) (cfg : Config) (result : http_result) (t : task) (st : St) :
    option St :=
  match n with
  | O => None
  | Datatypes.S n =>
      match task_step float_overflow e cfg result t st with
      | (Ok [], st') => Some st'
      | (Ok [t'], st') => run_alone n e cfg result t' st'
      | _ => None
      end
  end.

(** The tasks of a delivery are [deliver], cut at its store calls: it makes at
    most three. *)
Lemma deliver_steps e cfg result wh d st :
  ∃ st', deliver float_overflow e cfg result wh d st = (Ok tt, st') ∧
    run_alone 3 e cfg result (Sending wh d) st = Some st'.
Proof.
  unfold deliver, recordFailure, count_failure. cbn [run_alone task_step]. unfold send_step.
  destruct (failure_status float_overflow e cfg d) as [status next].
  assert (∀ code body, ∃ st',
    (_ ← ignore (ws_UpdateDelivery (d_ID d) status code body next);
     r ← try (ws_IncrementFailureCount (w_ID wh));
     match r with
     | Ok failCount => if bool_decide (maxConsecutiveFailures cfg ≤ failCount)%Z
                       then ignore (ws_UpdateWebhookStatus (w_ID wh) false) else mret tt
     | Err _ => mret tt
     end) st = (Ok tt, st') ∧
    run_alone 2 e cfg result (Counting (w_ID wh))
      (ws_UpdateDelivery (d_ID d) status code body next st).2 = Some st') as Hfail.
  { intros code body. cbn [run_alone task_step]. prog_unfold.
    destruct (ws_IncrementFailureCount _ _) as [[k|] st1]; [|eauto].
    destruct (bool_decide _); [|eauto]. eexists. split; [done|]. done. }
  destruct result as [err|err|code body].
  1, 2: destruct (Hfail 0%Z err) as (st' & -> & Hr); exists st'; split; [done|]; exact Hr.
  destruct (is_2xx code).
  - prog_unfold. eexists. split; [done|]. done.
  - destruct (Hfail code (limited body)) as (st' & -> & Hr). exists st'. split; [done|]. exact Hr.
Qed.

(** Runs a loop with nothing in between, and collects what it starts. *)
Fixpoint run_loop (n : nat) (e : Env) (cfg : Config) (result : http_result) (t : task) (st : St) :
    option (list task * St) :=
  match n with
  | O => None
  | Datatypes.S n =>
      match task_step float_overflow e cfg result t st with
      | (Ok [], st') => Some ([], st')
      | (Ok (t' :: started), st') => (λ r, (started ++ r.1, r.2)) <$> run_loop n e cfg result t' st'
      | (Err _, _) => None
      end
  end.

Lemma trigger_loop_steps e cfg result n ev p whs (w : World St) :
  ∃ started st', run_loop (Datatypes.S (length whs)) e cfg result (Triggering n ev p whs) (store w) = Some (started, st') ∧
    trigger_loop e n ev p whs w = (Ok tt, {| store := st'; running := running w ++ started |}).
Proof.
  revert n w. induction whs as [|wh whs IH]; intros n [st run]; cbn [length].
  { exists [], st. split; [done|]. cbn. by rewrite app_nil_r. }
  set (m := Datatypes.S (length whs)). cbn [run_loop task_step trigger_loop trigger_step store].
  destruct (w_Active wh); cbn [negb]; [|destruct (IH n {| store := st; running := run |}) as (l & st' & Hl & ->); exists l, st'; split; [|done];
    cbn [store] in Hl; fold m in Hl; cbv [mret prog_ret]; by rewrite Hl].
  destruct (matchesEvent (w_Events wh) ev); cbn [negb]; [|destruct (IH n {| store := st; running := run |}) as (l & st' & Hl & ->);
    exists l, st'; split; [|done]; cbn [store] in Hl; fold m in Hl; cbv [mret prog_ret]; by rewrite Hl].
  unfold on_store, spawn. prog_unfold. cbn [store running].
  destruct (ws_CreateDelivery e n (w_ID wh) ev p st) as [[d|err] st1]; cbn [store running].
  - destruct (IH (Datatypes.S n) {| store := st1; running := run ++ [Sending wh d] |}) as (l & st' & Hl & ->). cbn [store running] in *.
    exists (Sending wh d :: l), st'. fold m in Hl. rewrite Hl. split; [done|]. by rewrite <-app_assoc.
  - destruct (IH n {| store := st1; running := run |}) as (l & st' & Hl & ->). exists l, st'. cbn [store] in Hl. fold m in Hl. by rewrite Hl.
Qed.
Lemma retry_loop_steps e cfg result k ds (w : World St) :
  ∃ started st', run_loop (Datatypes.S (length ds)) e cfg result (Retrying ds) (store w) = Some (started, st') ∧
    retry_loop k ds w = (Ok (k + Z.of_nat (length started))%Z, {| store := st'; running := running w ++ started |}).
Proof.
  revert k w. induction ds as [|d ds IH]; intros k [st run]; cbn [length].
  { exists [], st. split; [done|]. cbn. by rewrite Z.add_0_r, app_nil_r. }
  set (m := Datatypes.S (length ds)). cbn [run_loop task_step retry_loop retry_step store].
  unfold on_store, spawn. prog_unfold. cbn [store running].
  destruct (ws_GetWebhook (d_WebhookID d) st) as [[hook|err] st1]; cbn [store running]; [destruct (w_Active hook); cbn [negb]|].
  - cbn [store running]. destruct (IH (k + 1)%Z {| store := st1; running := run ++ [Sending hook d] |}) as (l & st' & Hl & ->). cbn [store running] in *.
    exists (Sending hook d :: l), st'. fold m in Hl. rewrite Hl. split; [done|]. rewrite <-app_assoc. cbn. do 2 f_equal. lia.
  - cbn [store running]. destruct (IH k {| store := st1; running := run |}) as (l & st' & Hl & ->). exists l, st'. cbn [store] in Hl. fold m in Hl. by rewrite Hl.
  - cbn [store running]. destruct (IH k {| store := st1; running := run |}) as (l & st' & Hl & ->). exists l, st'. cbn [store] in Hl. fold m in Hl. by rewrite Hl.
Qed.

(** The calls of the service are their first store call and their task, run with nothing
    in between. *)
Theorem calls_cut_at_store_calls e cfg result (w : World St) :
  (∀ c ev p w1, StartTrigger e c ev p w = (Ok tt, w1) →
     ∃ whs st started st', w1 = {| store := st; running := running w ++ [Triggering 0 ev p whs] |} ∧
       run_loop (Datatypes.S (length whs)) e cfg result (Triggering 0 ev p whs) st = Some (started, st') ∧
       Trigger e c ev p w = (Ok tt, {| store := st'; running := running w ++ started |})) ∧
  (∀ w1, StartRetry e cfg w = (Ok tt, w1) →
     ∃ ds st started st', w1 = {| store := st; running := running w ++ [Retrying ds] |} ∧
       run_loop (Datatypes.S (length ds)) e cfg result (Retrying ds) st = Some (started, st') ∧
       RetryFailedDeliveries e cfg w = (Ok (Z.of_nat (length started)), {| store := st'; running := running w ++ started |})) ∧
  (∀ id w1, StartExecute id w = (Ok tt, w1) →
     ∃ d st, w1 = {| store := st; running := running w ++ [Executing d] |} ∧
       match task_step float_overflow e cfg result (Executing d) st with
       | (Ok [], st') => ∃ err, ExecuteDelivery id w = (Err err, {| store := st'; running := running w |})
       | (Ok ts, st') => ExecuteDelivery id w = (Ok tt, {| store := st'; running := running w ++ ts |})
       | (Err _, _) => False
       end).
Proof.
  split_and!.
  - intros c ev p w1. unfold StartTrigger, Trigger, on_store, spawn. prog_unfold.
    destruct (ws_ListWebhooksByCompany e c (store w)) as [[whs|err] st]; [|done]. intros [= <-]. cbn [store running].
    destruct (trigger_loop_steps e cfg result 0 ev p whs {| store := st; running := running w |}) as (l & st' & Hl & Ht).
    exists whs, st, l, st'. done.
  - intros w1. unfold StartRetry, RetryFailedDeliveries, on_store, spawn. prog_unfold.
    destruct (ws_ListFailedDeliveriesForRetry e (maxRetries cfg) (store w)) as [[ds|err] st]; [|done]. intros [= <-]. cbn [store running].
    destruct (retry_loop_steps e cfg result 0 ds {| store := st; running := running w |}) as (l & st' & Hl & Ht).
    exists ds, st, l, st'. done.
  - intros id w1. unfold StartExecute, ExecuteDelivery, on_store, spawn. prog_unfold.
    destruct (ws_GetDelivery id (store w)) as [[d|err] st]; [|done]. intros [= <-]. cbn [store running]. exists d, st. split; [done|].
    cbn [task_step]. unfold execute_step. prog_unfold. destruct (ws_GetWebhook (d_WebhookID d) st) as [[hook|err] st']; by eauto.
Qed.
End tasks.

(** ** What the service starts *)

Section service.
Context (float_overflow : Z).
Abbreviation W := (World Backend).

Definition started (p : Webhook * WebhookDelivery) : task := Sending p.1 p.2.
Lemma elem_of_listed e c ds (hooks : gmap uuid Webhook) wh :
  (ds : list Webhook) = sort_slice (λ x y, Before (w_CreatedAt x) (w_CreatedAt y))
    (filter (λ wh, w_CompanyID wh = c) (range_values (R := order e) hooks)) →
  wh ∈ ds ↔ w_CompanyID wh = c ∧ ∃ k, hooks !! k = Some wh.
Proof.
  intros ->. rewrite elem_of_sort_slice, list_elem_of_filter, elem_of_range_values. done.
Qed.

(** The active webhook of each listed delivery. *)
Definition retried (b : Backend) (ds : list WebhookDelivery) : list (Webhook * WebhookDelivery) :=
  omap (λ d, hook ← webhooks b !! d_WebhookID d; if w_Active hook then Some (hook, d) else None) ds.

Lemma retried_cons b d ds :
  retried b (d :: ds) =
    match webhooks b !! d_WebhookID d with
    | Some hook => if w_Active hook then (hook, d) :: retried b ds else retried b ds
    | None => retried b ds
    end.
Proof.
  unfold retried. cbn. destruct (webhooks b !! d_WebhookID d) as [hook|]; [|done]. cbn.
  by destruct (w_Active hook).
Qed.

Lemma retry_loop_spec k ds (w : W) :
  retry_loop k ds w =
    (Ok (k + Z.of_nat (length (retried (store w) ds)))%Z,
     {| store := store w; running := running w ++ (started <$> retried (store w) ds) |}).
Proof.
  revert k w. induction ds as [|d ds IH]; intros k [b run]; cbn [retry_loop].
  { cbn. by rewrite Z.add_0_r, app_nil_r. }
  rewrite retried_cons. unfold on_store, spawn. prog_unfold. cbn -[retry_loop retried].
  unfold dev_GetWebhook. destruct (webhooks b !! d_WebhookID d) as [hook|]; cbn -[retry_loop retried].
  - destruct (w_Active hook); cbn -[retry_loop retried]; rewrite IH; cbn -[retried]; [|done].
    rewrite <-app_assoc. cbn -[retried]. do 2 f_equal. lia.
  - by rewrite IH.
Qed.

Lemma elem_of_retried b ds hook d :
  (hook, d) ∈ retried b ds ↔
  d ∈ ds ∧ webhooks b !! d_WebhookID d = Some hook ∧ w_Active hook = true.
Proof.
  induction ds as [|x ds IH]; [cbn; set_solver|]. rewrite retried_cons, elem_of_cons.
  destruct (webhooks b !! d_WebhookID x) as [h|] eqn:Hx; [destruct (w_Active h) eqn:Ha|].
  - rewrite elem_of_cons, IH. split; [naive_solver|]. intros ([-> | ?] & ? & ?); naive_solver.
  - rewrite IH. split; [naive_solver|]. intros ([-> | ?] & ? & ?); naive_solver congruence.
  - rewrite IH. split; [naive_solver|]. intros ([-> | ?] & ? & ?); naive_solver congruence.
Qed.

Definition failed_rows (e : Env) (cfg : Config) (b : Backend) : list WebhookDelivery :=
  sort_slice (λ x y, Before (d_CreatedAt x) (d_CreatedAt y))
    (filter (retryable (maxRetries cfg)) (range_values (R := order e) (deliveries b))).

Lemma elem_of_failed_rows e cfg b d :
  d ∈ failed_rows e cfg b ↔
  d_Status d = "failed" ∧ (d_Attempts d < maxRetries cfg)%Z ∧ ∃ k, deliveries b !! k = Some d.
Proof.
  unfold failed_rows. rewrite elem_of_sort_slice, list_elem_of_filter, elem_of_range_values.
  unfold retryable. naive_solver.
Qed.

Lemma RetryFailedDeliveries_spec e cfg (w : W) :
  RetryFailedDeliveries e cfg w =
    (Ok (Z.of_nat (length (retried (store w) (failed_rows e cfg (store w))))),
     {| store := store w;
        running := running w ++ (started <$> retried (store w) (failed_rows e cfg (store w))) |}).
Proof.
  unfold RetryFailedDeliveries, on_store. prog_unfold. cbn -[retry_loop].
  destruct w as [b run]. cbn -[retry_loop]. apply (retry_loop_spec 0).
Qed.

Lemma retried_sublist b ds : (retried b ds).*2 `sublist_of` ds.
Proof.
  induction ds as [|d ds IH]; [constructor|]. rewrite retried_cons.
  destruct (webhooks b !! d_WebhookID d) as [h|]; [destruct (w_Active h)|]; cbn; by constructor.
Qed.

(** The retry sweep starts one delivery for each failed row with attempts
    left whose webhook is active, oldest first, and returns their number; it
    changes no row, and neither the clock nor the next-retry time of a row
    plays any part. *)
Theorem RetryFailedDeliveries_exact e cfg (w : W) :
  ∃ L, RetryFailedDeliveries e cfg w =
      (Ok (Z.of_nat (length L)), {| store := store w; running := running w ++ (started <$> L) |}) ∧
    (∀ hook d, (hook, d) ∈ L ↔
       (∃ k, deliveries (store w) !! k = Some d) ∧ d_Status d = "failed" ∧
       (d_Attempts d < maxRetries cfg)%Z ∧
       webhooks (store w) !! d_WebhookID d = Some hook ∧ w_Active hook = true) ∧
    StronglySorted (λ a b, (d_CreatedAt a ≤ d_CreatedAt b)%Z) L.*2.
Proof.
  eexists. split; [apply RetryFailedDeliveries_spec|]. split.
  - intros hook d. rewrite elem_of_retried, elem_of_failed_rows. naive_solver.
  - eapply StronglySorted_sublist; [apply retried_sublist|].
    eapply StronglySorted_mono; [|apply sort_slice_sorted; apply _].
    intros a b Hab. unfold may_precede, Before in Hab. apply bool_decide_eq_false in Hab. lia.
Qed.

(** ** Runs *)

Context (cfg : Config).

(** What happens next: the first store call of a call of the service, a call of the
    store by somebody else (the status of a webhook may be set, to resume one that was
    paused), or one store call of what is running. *)
Inductive event : Type :=
  | ERegister (id : uuid) | ETrigger | EDelete (id : uuid) | EStatus (id : uuid) (active : bool)
  | ERetry | EExecute (id : uuid) | ETask (t : task) (goes_on : list task).

Record fresh_env (e : Env) (b : Backend) : Prop := {
  fresh_hook n : webhooks b !! new_id e n = None;
  fresh_row n : deliveries b !! new_id e n = None;
}.

Inductive webhook_step : event → W → W → Prop :=
  | step_register e gen c url secret evs r w w' :
      fresh_env e (store w) → on_store (Register e gen c url secret evs) w = (r, w') →
      webhook_step (ERegister (new_id e 0)) w w'
  | step_trigger e c ev p r w w' :
      StartTrigger e c ev p w = (r, w') → webhook_step ETrigger w w'
  | step_delete id r w w' :
      on_store (ws_DeleteWebhook id) w = (r, w') → webhook_step (EDelete id) w w'
  | step_status id active r w w' :
      on_store (ws_UpdateWebhookStatus id active) w = (r, w') → webhook_step (EStatus id active) w w'
  | step_retry e r w w' :
      StartRetry e cfg w = (r, w') → webhook_step ERetry w w'
  | step_execute id r w w' :
      StartExecute id w = (r, w') → webhook_step (EExecute id) w w'
  | step_task e result t ts l1 l2 b b' :
      fresh_env e b → task_step float_overflow e cfg result t b = (Ok ts, b') →
      webhook_step (ETask t ts) {| store := b; running := l1 ++ t :: l2 |}
        {| store := b'; running := l1 ++ ts ++ l2 |}.

(** A sequence of steps, with what happened. *)
Inductive trace : W → list event → W → Prop :=
  | trace_nil w : trace w [] w
  | trace_cons ev w w1 evs w2 : webhook_step ev w w1 → trace w1 evs w2 → trace w (ev :: evs) w2.

Definition NewWorld : W := {| store := {| webhooks := ∅; deliveries := ∅ |}; running := [] |}.
Definition any_step (w w' : W) : Prop := ∃ ev, webhook_step ev w w'.

Lemma trace_rtc w evs w' : trace w evs w' → rtc any_step w w'.
Proof. induction 1 as [|ev w w1 evs w2 Hs _ IH]; [done|]. eapply rtc_l; [by exists ev|done]. Qed.

(** The first store calls only read, and start one task. *)
Lemma StartTrigger_spec e c ev p (w w' : W) r :
  StartTrigger e c ev p w = (r, w') →
  ∃ whs, w' = {| store := store w; running := running w ++ [Triggering 0 ev p whs] |} ∧
    ∀ wh, wh ∈ whs ↔ w_CompanyID wh = c ∧ ∃ k, webhooks (store w) !! k = Some wh.
Proof.
  unfold StartTrigger, on_store, spawn. prog_unfold. destruct w as [b run]. cbn. intros [= <- <-]. eexists. split; [done|].
  intros wh. by apply (elem_of_listed e c).
Qed.
Lemma StartRetry_spec e (w w' : W) r :
  StartRetry e cfg w = (r, w') →
  w' = {| store := store w; running := running w ++ [Retrying (failed_rows e cfg (store w))] |}.
Proof. unfold StartRetry, on_store, spawn. prog_unfold. destruct w as [b run]. cbn. by intros [= <- <-]. Qed.
Lemma StartExecute_spec id (w w' : W) r :
  StartExecute id w = (r, w') →
  match deliveries (store w) !! id with
  | None => w' = w
  | Some d => w' = {| store := store w; running := running w ++ [Executing d] |}
  end.
Proof.
  unfold StartExecute, on_store, spawn. prog_unfold. destruct w as [b run]. cbn. unfold dev_GetDelivery.
  destruct (deliveries b !! id); cbn; by intros [= <- <-].
Qed.

(** What a step of a task does to the in-memory store, and what goes on after it. *)
Definition new_row (e : Env) (n : nat) (wh : Webhook) (ev p : string) : WebhookDelivery :=
  {| d_ID := new_id e n; d_WebhookID := w_ID wh; d_EventType := ev; d_Payload := p;
     d_Status := "pending"; d_StatusCode := 0; d_ResponseBody := ""; d_Attempts := 0;
     d_NextRetryAt := None; d_CreatedAt := now e |}.
Definition update_of (b : Backend) (id : uuid) (f : Webhook → Webhook) : gmap uuid Webhook :=
  match webhooks b !! id with None => webhooks b | Some wh => <[id := f wh]> (webhooks b) end.

Lemma trigger_step_cases e n ev p whs b r b' :
  trigger_step e n ev p whs b = (r, b') →
  match whs with
  | [] => r = Ok [] ∧ b' = b
  | wh :: rest =>
      (r = Ok [Triggering n ev p rest] ∧ b' = b) ∨
      (w_Active wh = true ∧ r = Ok [Triggering (S n) ev p rest; Sending wh (new_row e n wh ev p)] ∧
       b' = set_deliveries (<[new_id e n := new_row e n wh ev p]> (deliveries b)) b)
  end.
Proof.
  unfold trigger_step. destruct whs as [|wh rest]; [by intros [= <- <-]|].
  destruct (w_Active wh); cbn [negb]; [|intros [= <- <-]; by left].
  destruct (matchesEvent _ _); cbn [negb]; [|intros [= <- <-]; by left].
  prog_unfold. cbn. unfold dev_CreateDelivery. prog_unfold. cbn. intros [= <- <-]. by right.
Qed.
Lemma retry_step_cases ds b r b' :
  retry_step ds b = (r, b') → b' = b ∧
  match ds with
  | [] => r = Ok []
  | d :: rest =>
      r = Ok [Retrying rest] ∨
      ∃ hook, webhooks b !! d_WebhookID d = Some hook ∧ w_Active hook = true ∧ r = Ok [Retrying rest; Sending hook d]
  end.
Proof.
  unfold retry_step. destruct ds as [|d rest]; [by intros [= <- <-]|]. prog_unfold. cbn. unfold dev_GetWebhook.
  destruct (webhooks b !! d_WebhookID d) as [hook|] eqn:Hh; [|intros [= <- <-]; by auto].
  destruct (w_Active hook) eqn:Ha; cbn [negb]; intros [= <- <-]; (split; [done|]); [right; by exists hook|by left].
Qed.
Lemma execute_step_cases d b r b' :
  execute_step d b = (r, b') → b' = b ∧
  r = Ok (match webhooks b !! d_WebhookID d with None => [] | Some hook => [Sending hook d] end).
Proof.
  unfold execute_step. prog_unfold. cbn. unfold dev_GetWebhook. destruct (webhooks b !! d_WebhookID d); by intros [= <- <-].
Qed.
Lemma send_step_cases e result wh d b r b' :
  send_step float_overflow e cfg result wh d b = (r, b') →
  webhooks b' = webhooks b ∧ (r = Ok [Resetting (w_ID wh)] ∨ r = Ok [Counting (w_ID wh)]) ∧
  ∃ status code body next,
    ((status, next) = ("success", None) ∨ (status, next) = failure_status float_overflow e cfg d) ∧
    deliveries b' = match deliveries b !! d_ID d with
                    | None => deliveries b
                    | Some row => <[d_ID d := attempted status code body next row]> (deliveries b)
                    end.
Proof.
  unfold send_step. destruct (failure_status float_overflow e cfg d) as [status next] eqn:Hf.
  assert (∀ st nx code body, (st, nx) = ("success", None) ∨ (st, nx) = (status, next) →
    ∃ status0 code0 body0 next0,
      ((status0, next0) = ("success", None) ∨ (status0, next0) = (status, next)) ∧
      deliveries (dev_UpdateDelivery (d_ID d) st code body nx b).2 =
        match deliveries b !! d_ID d with
        | None => deliveries b
        | Some row => <[d_ID d := attempted status0 code0 body0 next0 row]> (deliveries b)
        end) as Hupd.
  { intros st nx code body Hst. exists st, code, body, nx. split; [done|].
    unfold dev_UpdateDelivery. by destruct (deliveries b !! d_ID d). }
  assert (∀ st nx code body, webhooks (dev_UpdateDelivery (d_ID d) st code body nx b).2 = webhooks b)
    as Hwh by (intros *; unfold dev_UpdateDelivery; by destruct (deliveries b !! d_ID d)).
  prog_unfold. destruct result as [err|err|code body]; [..|destruct (is_2xx code)]; intros [= <- <-];
    (split; [apply Hwh|]); (split; [by auto|]); apply Hupd; by auto.
Qed.
Lemma task_step_cases e result t b r b' :
  task_step float_overflow e cfg result t b = (r, b') →
  match t with
  | Triggering n ev p whs => trigger_step e n ev p whs b = (r, b')
  | Retrying ds => retry_step ds b = (r, b')
  | Executing d => execute_step d b = (r, b')
  | Sending wh d => send_step float_overflow e cfg result wh d b = (r, b')
  | Resetting id => r = Ok [] ∧ deliveries b' = deliveries b ∧ webhooks b' = update_of b id (with_fails 0)
  | Counting id =>
      deliveries b' = deliveries b ∧
      webhooks b' = update_of b id (λ wh, with_fails (wrap64 (w_ConsecutiveFails wh + 1)) wh) ∧
      r = Ok (match webhooks b !! id with
              | None => []
              | Some wh => if bool_decide (maxConsecutiveFailures cfg ≤ wrap64 (w_ConsecutiveFails wh + 1))%Z then [Pausing id] else []
              end)
  | Pausing id => r = Ok [] ∧ deliveries b' = deliveries b ∧ webhooks b' = update_of b id (with_active false)
  end.
Proof.
  unfold task_step, update_of. destruct t as [n ev p whs|ds|d|wh d|id|id|id]; try done; cbn; intros Hs.
  - unfold dev_ResetFailureCount, update_webhook in Hs. prog_unfold.
    destruct (webhooks b !! id); cbn in Hs; by simplify_eq.
  - unfold dev_IncrementFailureCount, update_webhook in Hs. prog_unfold.
    destruct (webhooks b !! id) as [wh|]; cbn in Hs; [|by simplify_eq].
    destruct (bool_decide _); by simplify_eq.
  - unfold dev_UpdateWebhookStatus, update_webhook in Hs. prog_unfold.
    destruct (webhooks b !! id); cbn in Hs; by simplify_eq.
Qed.
(** ** Pausing *)

Definition keys_ok (w : W) : Prop := ∀ k wh, webhooks (store w) !! k = Some wh → w_ID wh = k.
(** A webhook is not active, if it is there. *)
Definition inactive (id : uuid) (w : W) : Prop :=
  ∀ wh, webhooks (store w) !! id = Some wh → w_Active wh = false.
(** Neither registered (its identifier is not drawn again) nor resumed. *)
Definition quiet (id : uuid) (ev : event) : Prop := ev ≠ ERegister id ∧ ev ≠ EStatus id true.

(** What a step does to the webhooks: nothing, or to one of them. *)
Lemma update_of_lookup b id f k x :
  update_of b id f !! k = Some x →
  ∃ y, webhooks b !! k = Some y ∧ ((k = id ∧ x = f y) ∨ (k ≠ id ∧ x = y)).
Proof.
  unfold update_of. destruct (webhooks b !! id) as [wh|] eqn:Hid.
  - intros [[<- <-]|[Hne Hk]]%lookup_insert_Some; eauto.
  - intros Hk. exists x. split; [done|]. right. split; [|done]. intros ->. congruence.
Qed.
(** Each webhook after a step was there before, with its identifier, or was registered;
    its flag has changed only by a change of status, a pause included. *)
Lemma step_webhooks ev w w' k x :
  webhook_step ev w w' → webhooks (store w') !! k = Some x →
  (ev = ERegister k ∧ w_ID x = k) ∨
  ∃ y, webhooks (store w) !! k = Some y ∧ w_ID x = w_ID y ∧
    (w_Active x = w_Active y ∨ (∃ active, ev = EStatus k active ∧ w_Active x = active) ∨
     (∃ ts, ev = ETask (Pausing k) ts ∧ w_Active x = false)).
Proof.
  intros Hs Hk. destruct Hs as [e gen c url secret evs r w w' Hf Hc|e c evt p r w w' Hc
    |id r w w' Hc|id active r w w' Hc|e r w w' Hc|id r w w' Hc|e result t ts l1 l2 b b' Hf Hc].
  - unfold on_store, Register in Hc. cbn in Hc. unfold dev_CreateWebhook in Hc. prog_unfold. cbn in Hc.
    simplify_eq. cbn in Hk. apply lookup_insert_Some in Hk as [[<- <-]|[_ Hk]]; [by left|right; eauto 6].
  - apply StartTrigger_spec in Hc as (whs & -> & _). cbn in Hk. right. eauto 6.
  - cbn in Hc. unfold on_store, dev_DeleteWebhook in Hc. prog_unfold. simplify_eq. cbn in Hk.
    apply lookup_delete_Some in Hk as [_ Hk]. right. eauto 6.
  - right. assert (webhooks (store w') = update_of (store w) id (with_active active)) as Hw.
    { cbn in Hc. unfold on_store, dev_UpdateWebhookStatus, update_webhook, update_of in *. prog_unfold. destruct w as [b run]. cbn in *.
      destruct (webhooks b !! id); by simplify_eq/=. }
    rewrite Hw in Hk. apply update_of_lookup in Hk as (y & Hy & [[-> ->]|[_ ->]]); exists y; cbn; eauto 8.
  - apply StartRetry_spec in Hc as ->. cbn in Hk. right. eauto 6.
  - apply StartExecute_spec in Hc. right. destruct (deliveries (store w) !! id); subst w'; cbn in Hk; eauto 6.
  - right. cbn in *. assert (∀ y, webhooks b !! k = Some y → x = y → ∃ y, webhooks b !! k = Some y ∧ w_ID x = w_ID y ∧
      (w_Active x = w_Active y ∨ (∃ active, ETask t ts = EStatus k active ∧ w_Active x = active) ∨
       (∃ ts', ETask t ts = ETask (Pausing k) ts' ∧ w_Active x = false))) as Hsame by (intros y Hy ->; eauto 6).
    apply task_step_cases in Hc. destruct t as [n evt p whs|ds|d|wh d|id|id|id].
    + apply trigger_step_cases in Hc. destruct whs; [destruct Hc as [_ ->]|destruct Hc as [[_ ->]|(_ & _ & ->)]]; by eapply Hsame.
    + apply retry_step_cases in Hc as [-> _]. by eapply Hsame.
    + apply execute_step_cases in Hc as [-> _]. by eapply Hsame.
    + apply send_step_cases in Hc as (Hw & _). rewrite Hw in Hk. by eapply Hsame.
    + destruct Hc as (_ & _ & Hw). rewrite Hw in Hk. apply update_of_lookup in Hk as (y & Hy & [[-> ->]|[_ ->]]); exists y; cbn; eauto 8.
    + destruct Hc as (_ & Hw & _). rewrite Hw in Hk. apply update_of_lookup in Hk as (y & Hy & [[-> ->]|[_ ->]]); exists y; cbn; eauto 8.
    + destruct Hc as (_ & _ & Hw). rewrite Hw in Hk. apply update_of_lookup in Hk as (y & Hy & [[-> ->]|[_ ->]]); exists y; cbn; eauto 8.
Qed.

Lemma keys_ok_step ev w w' : webhook_step ev w w' → keys_ok w → keys_ok w'.
Proof.
  intros Hs Hk k x Hx. destruct (step_webhooks _ _ _ _ _ Hs Hx) as [[_ ?]|(y & Hy & -> & _)]; [done|by apply Hk].
Qed.
Lemma keys_ok_run w : rtc any_step NewWorld w → keys_ok w.
Proof.
  intros Hrun. apply (rtc_preserves any_step keys_ok NewWorld); [intros x y [ev Hs]; by eapply keys_ok_step|done|].
  intros k wh. cbn. by rewrite lookup_empty.
Qed.
Lemma inactive_step id ev w w' : webhook_step ev w w' → quiet id ev → inactive id w → inactive id w'.
Proof.
  intros Hs [Hr Ha] Hi x Hx. destruct (step_webhooks _ _ _ _ _ Hs Hx) as [[-> _]|(y & Hy & _ & Hact)]; [done|].
  destruct Hact as [->|[(active & -> & ->)|(ts & _ & ->)]]; [by apply Hi| |done]. by destruct active.
Qed.
Lemma inactive_trace id w evs w' : trace w evs w' → Forall (quiet id) evs → inactive id w → inactive id w'.
Proof.
  induction 1 as [|ev w w1 evs w2 Hs _ IH]; [done|]. intros [Hq Hqs]%Forall_cons Hi. apply IH; [done|]. by eapply inactive_step.
Qed.

(** A task that is about to pause stays until it has done so. *)
Lemma step_running ev w w' t :
  webhook_step ev w w' → t ∈ running w → t ∈ running w' ∨ ∃ ts, ev = ETask t ts.
Proof.
  intros Hs Hin. destruct Hs as [e gen c url secret evs r w w' Hf Hc|e c evt p r w w' Hc
    |id r w w' Hc|id active r w w' Hc|e r w w' Hc|id r w w' Hc|e result t' ts l1 l2 b b' Hf Hc].
  - left. unfold on_store, Register in Hc. cbn in Hc. unfold dev_CreateWebhook in Hc. prog_unfold. by simplify_eq/=.
  - left. apply StartTrigger_spec in Hc as (whs & -> & _). cbn. set_solver.
  - left. cbn in Hc. unfold on_store, dev_DeleteWebhook in Hc. prog_unfold. by simplify_eq/=.
  - left. cbn in Hc. unfold on_store, dev_UpdateWebhookStatus, update_webhook in Hc. prog_unfold. destruct w as [b run]. cbn in *.
    destruct (webhooks b !! id); by simplify_eq/=.
  - left. apply StartRetry_spec in Hc as ->. cbn. set_solver.
  - left. apply StartExecute_spec in Hc. destruct (deliveries (store w) !! id); subst w'; [|done]. cbn. set_solver.
  - cbn in *. rewrite !elem_of_app, !elem_of_cons in *. destruct Hin as [?|[->|?]]; [by auto|by eauto|by auto].
Qed.
Lemma Pausing_step id ts w w' : webhook_step (ETask (Pausing id) ts) w w' → inactive id w'.
Proof.
  intros Hs. inversion Hs as [| | | | | |e result t ts' l1 l2 b b' Hf Hc]; subst. apply task_step_cases in Hc as (_ & _ & Hw).
  intros x Hx. cbn in Hx. rewrite Hw in Hx. apply update_of_lookup in Hx as (y & Hy & [[_ ->]|[? _]]); done.
Qed.
Definition about_to_be_inactive (id : uuid) (w : W) : Prop := inactive id w ∨ Pausing id ∈ running w.
Lemma about_trace id w evs w' :
  trace w evs w' → Forall (quiet id) evs → about_to_be_inactive id w → about_to_be_inactive id w'.
Proof.
  induction 1 as [|ev w w1 evs w2 Hs _ IH]; [done|]. intros [Hq Hqs]%Forall_cons Ha. apply IH; [done|].
  destruct Ha as [Hi|Hp]; [left; by eapply inactive_step|].
  destruct (step_running _ _ _ _ Hs Hp) as [?|[ts ->]]; [by right|left; by eapply Pausing_step].
Qed.
(** The failure that reaches the limit is followed by a pause. *)
Lemma Counting_step id ts w w' wh :
  webhook_step (ETask (Counting id) ts) w w' → webhooks (store w') !! id = Some wh →
  (maxConsecutiveFailures cfg ≤ w_ConsecutiveFails wh)%Z → Pausing id ∈ running w'.
Proof.
  intros Hs Hwh Hm. inversion Hs as [| | | | | |e result t ts' l1 l2 b b' Hf Hc]; subst. apply task_step_cases in Hc as (_ & Hw & Hr).
  cbn in *. rewrite Hw in Hwh. apply update_of_lookup in Hwh as (y & Hy & [[_ ->]|[? _]]); [|done].
  rewrite Hy, bool_decide_true in Hr by done. injection Hr as ->. set_solver.
Qed.

(** The active copies of a webhook that a trigger has listed and not yet come to. *)
Definition active_copy (id : uuid) (wh : Webhook) : nat := if bool_decide (w_ID wh = id) && w_Active wh then 1 else 0.
Definition stale_in (id : uuid) (t : task) : nat :=
  match t with Triggering _ _ _ whs => sum_list_with (active_copy id) whs | _ => 0%nat end.
Definition stale (id : uuid) (w : W) : nat := sum_list_with (stale_in id) (running w).
(** The requests to a webhook that the loops of triggers start in a run. *)
Definition sends_to (id : uuid) (t : task) : nat :=
  match t with Sending wh _ => if bool_decide (w_ID wh = id) then 1 else 0 | _ => 0%nat end.
Definition started_in (id : uuid) (ev : event) : nat :=
  match ev with ETask (Triggering _ _ _ _) ts => sum_list_with (sends_to id) ts | _ => 0%nat end.
Definition started_by_triggers (id : uuid) (evs : list event) : nat := sum_list_with (started_in id) evs.

Lemma stale_app id l1 l2 : sum_list_with (stale_in id) (l1 ++ l2) = (sum_list_with (stale_in id) l1 + sum_list_with (stale_in id) l2)%nat.
Proof. induction l1 as [|t l1 IH]; [done|]. cbn. lia. Qed.

(** While a webhook is not active, nobody takes it up again. *)
Lemma stale_step id ev w w' :
  webhook_step ev w w' → keys_ok w → inactive id w → (started_in id ev + stale id w' ≤ stale id w)%nat.
Proof.
  intros Hs Hkeys Hi. unfold stale. destruct Hs as [e gen c url secret evs r w w' Hf Hc|e c evt p r w w' Hc
    |id' r w w' Hc|id' active r w w' Hc|e r w w' Hc|id' r w w' Hc|e result t ts l1 l2 b b' Hf Hc]; cbn [started_in].
  - unfold on_store, Register in Hc. cbn in Hc. unfold dev_CreateWebhook in Hc. prog_unfold. by simplify_eq/=.
  - apply StartTrigger_spec in Hc as (whs & -> & Hl). cbn. rewrite stale_app. cbn.
    assert (∀ l, (∀ wh, wh ∈ l → wh ∈ whs) → sum_list_with (active_copy id) l = 0%nat) as Hz.
    { induction l as [|wh l IH]; intros Hsub; [done|]. cbn. rewrite IH by set_solver. rewrite Nat.add_0_r. unfold active_copy.
      destruct (bool_decide (w_ID wh = id)) eqn:Hid; [|done]. apply bool_decide_eq_true in Hid. cbn [andb].
      destruct (Hl wh) as [Hin _]. destruct Hin as (_ & k & Hk); [apply Hsub; by left|].
      rewrite (Hkeys _ _ Hk) in Hid. subst k. by rewrite (Hi _ Hk). }
    rewrite Hz by done. lia.
  - cbn in Hc. unfold on_store, dev_DeleteWebhook in Hc. prog_unfold. by simplify_eq/=.
  - cbn in Hc. unfold on_store, dev_UpdateWebhookStatus, update_webhook in Hc. prog_unfold. destruct w as [b run]. cbn in *.
    destruct (webhooks b !! id'); by simplify_eq/=.
  - apply StartRetry_spec in Hc as ->. cbn. rewrite stale_app. cbn. lia.
  - apply StartExecute_spec in Hc. destruct (deliveries (store w) !! id'); subst w'; [|done]. cbn. rewrite stale_app. cbn. lia.
  - cbn [running]. rewrite !stale_app. cbn [sum_list_with]. apply task_step_cases in Hc.
    destruct t as [n evt p whs|ds|d|wh d|i|i|i].
    + apply trigger_step_cases in Hc. destruct whs as [|wh rest]; [destruct Hc as [[= ->] _]; cbn; lia|].
      destruct Hc as [[[= ->] _]|(Ha & [= ->] & _)]; cbn [stale_in sum_list_with sends_to]; unfold active_copy; [lia|].
      rewrite Ha, andb_true_r. case_bool_decide; lia.
    + apply retry_step_cases in Hc as [_ Hc]. destruct ds as [|d rest]; [injection Hc as ->; cbn; lia|].
      destruct Hc as [[= ->]|(hook & _ & _ & [= ->])]; cbn; lia.
    + apply execute_step_cases in Hc as [_ [= ->]]. destruct (webhooks b !! _); cbn; lia.
    + apply send_step_cases in Hc as (_ & [[= ->]|[= ->]] & _); cbn; lia.
    + destruct Hc as ([= ->] & _). cbn. lia.
    + destruct Hc as (_ & _ & [= ->]). repeat case_match; cbn; lia.
    + destruct Hc as ([= ->] & _). cbn. lia.
Qed.
(** Who starts a request to a webhook that is not active. *)
Lemma starters id t ts w w' wh d :
  webhook_step (ETask t ts) w w' → keys_ok w → inactive id w → Sending wh d ∈ ts → w_ID wh = id →
  (∃ d', t = Executing d') ∨ ∃ n ev p rest, t = Triggering n ev p (wh :: rest).
Proof.
  intros Hs Hkeys Hi Hin Hid. inversion Hs as [| | | | | |e result t' ts' l1 l2 b b' Hf Hc]; subst t' ts'. subst w w'. cbn in *.
  apply task_step_cases in Hc. destruct t as [n evt p whs|ds|d'|wh' d'|i|i|i].
  - right. apply trigger_step_cases in Hc. destruct whs as [|wh' rest]; [destruct Hc as [[= ->] _]; set_solver|].
    destruct Hc as [[[= ->] _]|(Ha & [= ->] & _)]; [set_solver|].
    apply elem_of_cons in Hin as [?|Hin]; [done|]. apply list_elem_of_singleton in Hin. injection Hin as -> ->. eauto.
  - exfalso. apply retry_step_cases in Hc as [_ Hc]. destruct ds as [|d' rest]; [injection Hc as ->; set_solver|].
    destruct Hc as [[= ->]|(hook & Hh & Ha & [= ->])]; [set_solver|].
    apply elem_of_cons in Hin as [?|Hin]; [done|]. apply list_elem_of_singleton in Hin. injection Hin as -> ->.
    assert (d_WebhookID d' = id) as Heq by (rewrite <-Hid; symmetry; by apply Hkeys). rewrite Heq in Hh. rewrite (Hi _ Hh) in Ha. done.
  - left. eauto.
  - exfalso. apply send_step_cases in Hc as (_ & [[= ->]|[= ->]] & _); set_solver.
  - exfalso. destruct Hc as ([= ->] & _). set_solver.
  - exfalso. destruct Hc as (_ & _ & [= ->]). repeat case_match; set_solver.
  - exfalso. destruct Hc as ([= ->] & _). set_solver.
Qed.
Lemma inactive_run id w evs w' :
  trace w evs w' → Forall (quiet id) evs → keys_ok w → inactive id w →
  (started_by_triggers id evs + stale id w' ≤ stale id w)%nat ∧
  ∀ t ts wh d, ETask t ts ∈ evs → Sending wh d ∈ ts → w_ID wh = id →
    (∃ d', t = Executing d') ∨ ∃ n ev p rest, t = Triggering n ev p (wh :: rest).
Proof.
  induction 1 as [w|ev w w1 evs w2 Hs _ IH]; intros Hq Hk Hi.
  - split; [cbn; lia|]. intros t ts wh d Hin. by apply not_elem_of_nil in Hin.
  - apply Forall_cons in Hq as [Hq Hqs]. destruct IH as [IH1 IH2]; [done|by eapply keys_ok_step|by eapply inactive_step|].
    pose proof (stale_step id _ _ _ Hs Hk Hi) as Hst. split; [cbn; unfold started_by_triggers in IH1; lia|].
    intros t ts wh d [<-|Hin]%elem_of_cons; [by eapply starters|by apply (IH2 t ts wh d)].
Qed.

(** C22: when a counted failure brings a webhook to the limit, a goroutine is going to
    pause it; once that has run, and until somebody resumes the webhook, it is not active,
    no sweep starts a request to it, and triggers start at most one for each copy of it
    that a trigger had listed while it was active and has not come to yet: none, when no
    trigger is running.  [ExecuteDelivery] does not look at the flag. *)
Theorem failing_webhook_is_paused evs0 w0 ts w1 id wh evs w2 evs' w3 :
  trace NewWorld evs0 w0 → webhook_step (ETask (Counting id) ts) w0 w1 →
  webhooks (store w1) !! id = Some wh → (maxConsecutiveFailures cfg ≤ w_ConsecutiveFails wh)%Z →
  trace w1 evs w2 → Pausing id ∉ running w2 → trace w2 evs' w3 → Forall (quiet id) (evs ++ evs') →
  Pausing id ∈ running w1 ∧
  (∀ wh', webhooks (store w3) !! id = Some wh' → w_Active wh' = false) ∧
  (started_by_triggers id evs' + stale id w3 ≤ stale id w2)%nat ∧
  (∀ t ts' wh' d, ETask t ts' ∈ evs' → Sending wh' d ∈ ts' → w_ID wh' = id →
     (∃ d', t = Executing d') ∨ ∃ n ev p rest, t = Triggering n ev p (wh' :: rest)).
Proof.
  intros Hrun0 Hcount Hwh Hm Hrun Hnot Hrun' [Hq Hq']%Forall_app.
  pose proof (Counting_step _ _ _ _ _ Hcount Hwh Hm) as Hp. split; [done|].
  assert (keys_ok w2) as Hk.
  { apply keys_ok_run. etrans; [by apply trace_rtc in Hrun0|]. eapply rtc_l; [by eexists|]. by eapply trace_rtc. }
  destruct (about_trace id w1 evs w2 Hrun Hq) as [Hi|?]; [by right| |done].
  split; [by eapply inactive_trace|]. by apply inactive_run.
Qed.
(** ** The life of a delivery *)

(** The most attempts a delivery can have. *)
Definition most_attempts : Z := Z.max 1 (maxRetries cfg).

(** A delivery that can still be attempted. *)
Definition open_row (d : WebhookDelivery) : Prop :=
  (d_Status d = "pending" ∧ d_Attempts d = 0%Z ∧ d_NextRetryAt d = None) ∨
  (d_Status d = "failed" ∧ (1 ≤ d_Attempts d < maxRetries cfg)%Z ∧ is_Some (d_NextRetryAt d)).

(** A delivery that is over. *)
Definition settled_row (d : WebhookDelivery) : Prop :=
  (d_Status d = "success" ∧ (1 ≤ d_Attempts d ≤ most_attempts)%Z ∧ d_NextRetryAt d = None) ∨
  (d_Status d = "exhausted" ∧ d_Attempts d = most_attempts ∧ d_NextRetryAt d = None).

(** The deliveries that something running is going to attempt. *)
Definition claims (t : task) : list WebhookDelivery :=
  match t with Retrying ds => ds | Executing d => [d] | Sending _ d => [d] | _ => [] end.
Definition claimed (w : W) : list WebhookDelivery := running w ≫= claims.

(** Runs in which a sweep starts when nothing is claimed, and [ExecuteDelivery] is called
    for deliveries that are open and not claimed. *)
Definition serial_step (w w' : W) : Prop :=
  ∃ ev, webhook_step ev w w' ∧
    match ev with
    | ERetry => claimed w = []
    | EExecute id => ∀ d, deliveries (store w) !! id = Some d → open_row d ∧ d ∉ claimed w
    | _ => True
    end.

Record rows_inv (w : W) : Prop := {
  ri_key k d : deliveries (store w) !! k = Some d → d_ID d = k;
  ri_shape k d : deliveries (store w) !! k = Some d → open_row d ∨ settled_row d;
  ri_claimed d : d ∈ claimed w → deliveries (store w) !! d_ID d = Some d ∧ open_row d;
  ri_nodup : NoDup (d_ID <$> claimed w);
}.

Lemma open_not_settled d : open_row d → settled_row d → False.
Proof. unfold open_row, settled_row. intros [(E & _)|(E & _)] [(E' & _)|(E' & _)]; congruence. Qed.

Lemma attempted_shape e code body d status next :
  (maxRetries cfg < 2 ^ 63)%Z → open_row d →
  (status, next) = ("success", None) ∨ (status, next) = failure_status float_overflow e cfg d →
  open_row (attempted status code body next d) ∨ settled_row (attempted status code body next d).
Proof.
  intros Hmax Ho Hs.
  assert (0 ≤ d_Attempts d ∧ d_Attempts d + 1 ≤ most_attempts ∧ most_attempts < 2 ^ 63)%Z
    as (H0 & H1 & H2) by (unfold most_attempts; destruct Ho as [(_ & -> & _)|(_ & ? & _)]; lia).
  unfold failure_status in Hs. unfold open_row, settled_row, attempted. cbn.
  rewrite wrap64_small in * by lia. destruct Hs as [[= -> ->]|Hs]; [right; left; split_and!; [done|lia..|done]|].
  case_bool_decide as Hlt; injection Hs as -> ->.
  - left; right. split_and!; [done|lia..|by eexists].
  - right; right. split_and!; [done| |done]. unfold most_attempts in *. lia.
Qed.

Lemma claimed_app b l1 l2 : claimed {| store := b; running := l1 ++ l2 |} = (l1 ≫= claims) ++ (l2 ≫= claims).
Proof. unfold claimed. cbn [running]. by rewrite bind_app. Qed.

(** The rows stay, and claims are only given up. *)
Lemma rows_inv_frame (w w' : W) :
  deliveries (store w') = deliveries (store w) → claimed w' ⊆+ claimed w → rows_inv w → rows_inv w'.
Proof.
  intros Hd Hc [H1 H2 H3 H4]. split; rewrite ?Hd; [done..| |].
  - intros d Hin. apply H3. by eapply elem_of_submseteq.
  - apply submseteq_Permutation in Hc as [rest Hc]. rewrite Hc, fmap_app, NoDup_app in H4. tauto.
Qed.
Lemma rows_inv_triggering e n wh ev p b t ts l1 l2 :
  fresh_env e b → claims t = [] → ts ≫= claims = [new_row e n wh ev p] →
  rows_inv {| store := b; running := l1 ++ t :: l2 |} →
  rows_inv {| store := set_deliveries (<[new_id e n := new_row e n wh ev p]> (deliveries b)) b; running := l1 ++ ts ++ l2 |}.
Proof.
  intros [_ Hf] Ht Hts [H1 H2 H3 H4]. set (d := new_row e n wh ev p) in *.
  assert (claimed {| store := b; running := l1 ++ t :: l2 |} = (l1 ≫= claims) ++ (l2 ≫= claims)) as Hold
    by (rewrite claimed_app; cbn; by rewrite Ht).
  assert (∀ b', claimed {| store := b'; running := l1 ++ ts ++ l2 |} ≡ₚ d :: ((l1 ≫= claims) ++ (l2 ≫= claims))) as Hnew
    by (intros b'; rewrite claimed_app, bind_app, Hts; cbn; by rewrite Permutation_middle).
  rewrite Hold in H3, H4. cbn [store] in *. assert (deliveries b !! d_ID d = None) as Hfresh by apply Hf. split; cbn [store deliveries set_deliveries].
  - intros k x [[<- <-]|[_ Hx]]%lookup_insert_Some; [done|by apply H1].
  - intros k x [[<- <-]|[_ Hx]]%lookup_insert_Some; [left; by left|by eapply H2].
  - intros x. rewrite Hnew, elem_of_cons. intros [->|Hin]; [split; [apply lookup_insert_eq|by left]|].
    destruct (H3 _ Hin) as [Hx Ho]. split; [|done]. rewrite lookup_insert_ne; [done|]. intros Heq. rewrite <-Heq in Hx. cbn in Hfresh. congruence.
  - rewrite Hnew. cbn. apply NoDup_cons. split; [|done]. intros (x & Hid & Hin)%list_elem_of_fmap.
    destruct (H3 _ Hin) as [Hx _]. rewrite <-Hid in Hx. cbn in Hx, Hfresh. congruence.
Qed.
Lemma rows_inv_send e result wh d b b' ts l1 l2 :
  (maxRetries cfg < 2 ^ 63)%Z → send_step float_overflow e cfg result wh d b = (Ok ts, b') →
  rows_inv {| store := b; running := l1 ++ Sending wh d :: l2 |} →
  rows_inv {| store := b'; running := l1 ++ ts ++ l2 |} ∧
  ∀ k x, settled_row x → deliveries b !! k = Some x → deliveries b' !! k = Some x.
Proof.
  intros Hmax (_ & Hr & status & code & body & next & Hst & Hd)%send_step_cases [H1 H2 H3 H4].
  assert (claimed {| store := b; running := l1 ++ Sending wh d :: l2 |} ≡ₚ d :: ((l1 ≫= claims) ++ (l2 ≫= claims))) as Hold
    by (rewrite claimed_app; cbn; by rewrite Permutation_middle).
  assert (∀ b', claimed {| store := b'; running := l1 ++ ts ++ l2 |} = (l1 ≫= claims) ++ (l2 ≫= claims)) as Hnew
    by (intros b0; rewrite claimed_app, bind_app; destruct Hr as [[= ->]|[= ->]]; done).
  rewrite Hold in H4. cbn in H4. apply NoDup_cons in H4 as [Hnd H4]. cbn [store] in *.
  destruct (H3 d) as [Hrow Ho]; [rewrite Hold; by left|]. rewrite Hrow in Hd. split.
  - split; cbn [store]; rewrite ?Hd.
    + intros k y [[<- <-]|[_ Hk]]%lookup_insert_Some; [done|by apply H1].
    + intros k y [[<- <-]|[_ Hk]]%lookup_insert_Some; [by eapply attempted_shape|by eapply H2].
    + intros x Hin. rewrite Hnew in Hin. destruct (H3 x) as [Hx Hox]; [rewrite Hold; by right|]. split; [|done].
      rewrite lookup_insert_ne; [done|]. intros Heq. apply Hnd, list_elem_of_fmap. by exists x.
    + by rewrite Hnew.
  - intros k x Hx Hk. rewrite Hd. rewrite lookup_insert_ne; [done|]. intros <-. rewrite Hrow in Hk. injection Hk as ->.
    by eapply open_not_settled.
Qed.

(** Every step of a serial run keeps the rows well formed, and the settled ones as they
    are. *)
Lemma serial_rows w w' :
  (maxRetries cfg < 2 ^ 63)%Z → serial_step w w' → rows_inv w →
  rows_inv w' ∧ ∀ k x, settled_row x → deliveries (store w) !! k = Some x → deliveries (store w') !! k = Some x.
Proof.
  intros Hmax (ev & Hs & Hser) Hw.
  assert (∀ w', deliveries (store w') = deliveries (store w) → claimed w' ⊆+ claimed w →
    rows_inv w' ∧ ∀ k x, settled_row x → deliveries (store w) !! k = Some x → deliveries (store w') !! k = Some x) as Hframe.
  { intros w2 Hd Hc. split; [by apply (rows_inv_frame w)|]. by intros k x _; rewrite Hd. }
  assert (∀ b t, w = b → claimed {| store := store b; running := running b ++ [t] |} = claimed b ++ claims t) as Hone.
  { intros b t _. unfold claimed. cbn [running]. rewrite bind_app. cbn. by rewrite app_nil_r. }
  destruct Hs as [e gen c url secret evs r w w' Hf Hc|e c evt p r w w' Hc
    |id r w w' Hc|id active r w w' Hc|e r w w' Hc|id r w w' Hc|e result t ts l1 l2 b b' Hf Hc].
  - apply Hframe; unfold on_store, Register in Hc; cbn in Hc; unfold dev_CreateWebhook in Hc; prog_unfold; by simplify_eq/=.
  - apply StartTrigger_spec in Hc as (whs & -> & _). apply Hframe; [done|]. rewrite Hone by done. by rewrite app_nil_r.
  - apply Hframe; cbn in Hc; unfold on_store, dev_DeleteWebhook in Hc; prog_unfold; by simplify_eq/=.
  - apply Hframe; cbn in Hc; unfold on_store, dev_UpdateWebhookStatus, update_webhook in Hc; prog_unfold; destruct w as [b run]; cbn in *;
      destruct (webhooks b !! id); by simplify_eq/=.
  - apply StartRetry_spec in Hc as ->. split; [|done]. destruct Hw as [H1 H2 H3 H4].
    split; cbn [store]; rewrite ?Hone, ?Hser by done; cbn [claims app]; [done..| |].
    + intros d (Hst & Hat & k & Hk)%elem_of_failed_rows. rewrite (H1 _ _ Hk). split; [done|].
      destruct (H2 _ _ Hk) as [?|[(E & _)|(E & _)]]; [done|congruence..].
    + unfold failed_rows. rewrite sort_slice_perm. eapply sublist_NoDup; [|apply fmap_sublist, sublist_filter].
      unfold range_values. rewrite <-list_fmap_compose. rewrite (list_fmap_ext _ fst); [apply range_NoDup_fst|].
      intros n [k d] Hn. cbn. apply H1. apply (elem_of_range (H := order e)). by eapply list_elem_of_lookup_2.
  - apply StartExecute_spec in Hc. destruct (deliveries (store w) !! id) as [d|] eqn:Hd; subst w'; [|by split].
    destruct (Hser d eq_refl) as [Ho Hnin]. split; [|done]. destruct Hw as [H1 H2 H3 H4].
    split; cbn [store]; rewrite ?Hone by done; cbn [claims]; [done..| |].
    + intros x [Hin|Hx%list_elem_of_singleton]%elem_of_app; [by apply H3|subst x]. by rewrite (H1 _ _ Hd).
    + rewrite fmap_app. apply NoDup_app. split_and!; [done| |apply NoDup_singleton].
      intros k (x & -> & Hin)%list_elem_of_fmap Hk. apply list_elem_of_singleton in Hk. destruct (H3 _ Hin) as [Hx _].
      rewrite Hk, (H1 _ _ Hd) in Hx. cbn in Hx. congruence.
  - apply task_step_cases in Hc. cbn [store] in *. destruct t as [n evt p whs|ds|d|wh d|i|i|i].
    + apply trigger_step_cases in Hc. destruct whs as [|wh rest].
      { destruct Hc as [[= ->] ->]. apply Hframe; [done|]. rewrite !claimed_app. by cbn. }
      destruct Hc as [[[= ->] ->]|(_ & [= ->] & ->)].
      { apply Hframe; [done|]. rewrite !claimed_app. by cbn. }
      split; [by apply (rows_inv_triggering e n wh evt p b (Triggering n evt p (wh :: rest)))|]. intros k x _ Hk. cbn.
      rewrite lookup_insert_ne; [done|]. intros <-. by rewrite (fresh_row _ _ Hf) in Hk.
    + apply retry_step_cases in Hc as [-> Hc]. apply Hframe; [done|]. rewrite !claimed_app, bind_app. cbn.
      apply submseteq_app; [done|]. destruct ds as [|d rest]; [by injection Hc as ->|].
      destruct Hc as [[= ->]|(hook & _ & _ & [= ->])]; cbn; rewrite ?app_nil_r.
      * by apply submseteq_cons.
      * by rewrite (Permutation_app_comm rest [d]).
    + apply execute_step_cases in Hc as [-> [= ->]]. apply Hframe; [done|]. rewrite !claimed_app, bind_app. cbn.
      apply submseteq_app; [done|]. destruct (webhooks b !! d_WebhookID d); cbn; [done|by apply submseteq_cons].
    + by apply (rows_inv_send e result wh d b b' ts l1 l2).
    + destruct Hc as ([= ->] & Hd & _). apply Hframe; [done|]. rewrite !claimed_app. by cbn.
    + destruct Hc as (Hd & _ & [= ->]). apply Hframe; [done|]. rewrite !claimed_app, bind_app. by repeat case_match.
    + destruct Hc as ([= ->] & Hd & _). apply Hframe; [done|]. rewrite !claimed_app. by cbn.
Qed.

(** C21: when a sweep starts only while no delivery is claimed by a running sweep,
    [ExecuteDelivery] or request, and [ExecuteDelivery] is called only for deliveries that
    are open and not claimed, a delivery is pending with no attempt, failed with attempts
    left and a next retry, successful, or exhausted after exactly the attempts allowed; a
    successful or exhausted delivery never changes again. *)
Theorem delivery_lifecycle w w' k d :
  (maxRetries cfg < 2 ^ 63)%Z → rtc serial_step NewWorld w → rtc serial_step w w' →
  deliveries (store w) !! k = Some d →
  (open_row d ∨ settled_row d) ∧ (settled_row d → deliveries (store w') !! k = Some d).
Proof.
  intros Hmax Hrun Hrun' Hk.
  assert (rows_inv w) as Hw.
  { apply (rtc_preserves serial_step rows_inv _ _ (λ x y Hs Hx, proj1 (serial_rows x y Hmax Hs Hx)) Hrun).
    split; cbn; [done..| |constructor]. intros x Hin. by apply not_elem_of_nil in Hin. }
  split; [by eapply (ri_shape _ Hw)|]. intros Hd. clear Hrun.
  induction Hrun' as [w|w w1 w2 Hs _ IH]; [done|]. destruct (serial_rows _ _ Hmax Hs Hw) as [Hw1 Hsame].
  apply IH; [by apply Hsame|done].
Qed.

(** [ExecuteDelivery] does not look at the status of a delivery, its attempts, or the
    flag of the webhook: whatever they are, the event is sent again, and when this fails
    the delivery is marked as failed or exhausted, with one attempt more. *)
Theorem executed_whatever_its_status e err id d hook w :
  keys_ok w → d_ID d = id → deliveries (store w) !! id = Some d → webhooks (store w) !! d_WebhookID d = Some hook →
  fresh_env e (store w) →
  ∃ w1 w2 w3 status next, webhook_step (EExecute id) w w1 ∧
    webhook_step (ETask (Executing d) [Sending hook d]) w1 w2 ∧
    webhook_step (ETask (Sending hook d) [Counting (w_ID hook)]) w2 w3 ∧
    (status, next) = failure_status float_overflow e cfg d ∧
    deliveries (store w3) !! id = Some (attempted status 0 err next d).
Proof.
  intros Hkeys Hid Hd Hh Hf. destruct w as [b run]. cbn [store] in *.
  destruct (failure_status float_overflow e cfg d) as [status next] eqn:Hst.
  set (b3 := set_deliveries (<[id := attempted status 0 err next d]> (deliveries b)) b).
  exists {| store := b; running := run ++ [Executing d] |}, {| store := b; running := run ++ [Sending hook d] |},
    {| store := b3; running := run ++ [Counting (w_ID hook)] |}, status, next. split_and!; [..|done|cbn; apply lookup_insert_eq].
  - eapply (step_execute id (Ok tt)). unfold StartExecute, on_store, spawn. prog_unfold. cbn. unfold dev_GetDelivery. by rewrite Hd.
  - apply (step_task e (DoFails err) (Executing d) [Sending hook d] run [] b b); [done|].
    cbn. unfold execute_step. prog_unfold. cbn. unfold dev_GetWebhook. by rewrite Hh.
  - apply (step_task e (DoFails err) (Sending hook d) [Counting (w_ID hook)] run [] b b3); [done|].
    cbn. unfold send_step. rewrite Hst. prog_unfold. cbn. unfold dev_UpdateDelivery. by rewrite Hid, Hd.
Qed.

(** Runs one store call of the [n]th of what is running. *)
Definition exec_task (n : nat) (e : Env) (result : http_result) (w : W) : W :=
  match running w !! n with
  | None => w
  | Some t =>
      match task_step float_overflow e cfg result t (store w) with
      | (Ok ts, b') => {| store := b'; running := take n (running w) ++ ts ++ drop (S n) (running w) |}
      | (Err _, _) => w
      end
  end.
Definition goes_on (n : nat) (e : Env) (result : http_result) (w : W) : list task :=
  match running w !! n with
  | None => []
  | Some t => match task_step float_overflow e cfg result t (store w) with (Ok ts, _) => ts | (Err _, _) => [] end
  end.
Lemma exec_task_step n e result (w : W) t :
  fresh_env e (store w) → running w !! n = Some t →
  webhook_step (ETask t (goes_on n e result w)) w (exec_task n e result w).
Proof.
  intros Hf Hn. unfold exec_task, goes_on. rewrite Hn. destruct w as [b run]. cbn in *.
  destruct (task_step _ _ _ _ _ _) as [r b'] eqn:Hs.
  assert (∃ ts, r = Ok ts) as [ts ->].
  { pose proof (task_step_cases _ _ _ _ _ _ Hs) as Hc. destruct t as [m evt p whs|ds|d|wh d|i|i|i].
    - apply trigger_step_cases in Hc. destruct whs; [destruct Hc as [-> _]|destruct Hc as [[-> _]|(_ & -> & _)]]; by eexists.
    - apply retry_step_cases in Hc as [_ Hc]. destruct ds; [subst|destruct Hc as [->|(? & _ & _ & ->)]]; by eexists.
    - apply execute_step_cases in Hc as [_ ->]. by eexists.
    - apply send_step_cases in Hc as (_ & [->| ->] & _); by eexists.
    - destruct Hc as (-> & _). by eexists.
    - destruct Hc as (_ & _ & ->). by eexists.
    - destruct Hc as (-> & _). by eexists. }
  rewrite <-(take_drop_middle run n t Hn) at 1. by eapply step_task.
Qed.
End service.

(** ** Signatures *)

Lemma ascii_app c s1 s2 :
  c ∈ String.list_ascii_of_string (s1 +:+ s2) ↔
  c ∈ String.list_ascii_of_string s1 ∨ c ∈ String.list_ascii_of_string s2.
Proof.
  induction s1 as [|a s1 IH]; [cbn; set_solver|].
  change (String a s1 +:+ s2) with (String a (s1 +:+ s2)). cbn. rewrite !elem_of_cons, IH. tauto.
Qed.

Lemma pretty_N_char_no_comma x : pretty_N_char x ≠ ","%char.
Proof. unfold pretty_N_char. by repeat case_match. Qed.

Lemma pretty_N_go_no_comma x s :
  ","%char ∉ String.list_ascii_of_string s → ","%char ∉ String.list_ascii_of_string (pretty_N_go x s).
Proof.
  revert s. induction (N.lt_wf_0 x) as [x _ IH]; intros s Hs.
  destruct (decide (x = 0)%N) as [->|Hx]; [by rewrite pretty_N_go_0|].
  rewrite pretty_N_go_step by lia. apply IH; [apply N.div_lt; lia|].
  cbn. rewrite not_elem_of_cons. split; [|done]. intros Heq. by eapply pretty_N_char_no_comma.
Qed.

Lemma pretty_no_comma (z : Z) : ","%char ∉ String.list_ascii_of_string (pretty z).
Proof.
  assert (∀ p, ","%char ∉ String.list_ascii_of_string (pretty (Npos p))) as Hpos.
  { intros p. unfold pretty, pretty_N. case_decide; [done|]. apply pretty_N_go_no_comma.
    cbn. apply not_elem_of_nil. }
  destruct z as [|p|p]; cbn.
  - set_solver.
  - apply Hpos.
  - change (","%char ∉ "-"%char :: String.list_ascii_of_string (pretty (Npos p))).
    rewrite not_elem_of_cons. split; [done|apply Hpos].
Qed.

(** A receiver that holds the secret accepts the request as it was sent,
    and accepts another body under the same header only if its keyed digest
    is the same. *)
Theorem signature_verifies {U : UuidText} hmac_hex e wh d :
  (∀ key msg, ","%char ∉ String.list_ascii_of_string (hmac_hex key msg)) →
  let req := request_of hmac_hex e wh d in
  ∃ h, ("X-Eden-Signature", h) ∈ req_Headers req ∧
    VerifySignature hmac_hex (w_Secret wh) h (req_Body req) = true ∧
    ∀ body, VerifySignature hmac_hex (w_Secret wh) h body = true ↔
      hmac_hex (w_Secret wh) (pretty (Unix (now e)) +:+ "." +:+ body) =
      hmac_hex (w_Secret wh) (pretty (Unix (now e)) +:+ "." +:+ d_Payload d).
Proof.
  intros Hhex req. eexists. split; [cbn; apply elem_of_cons; right; left; reflexivity|].
  set (ts := pretty (Unix (now e))). set (sg := sign _ _ _ _).
  assert (split_on ","%char (sig_header ts sg) = ["t=" +:+ ts; "v1=" +:+ sg]) as Hsplit.
  { unfold sig_header.
    change ("t=" +:+ ts +:+ ",v1=" +:+ sg) with (("t=" +:+ ts) +:+ String ","%char ("v1=" +:+ sg)).
    rewrite split_on_app, split_on_none; [done|..]; rewrite ascii_app.
    - intros [?|?]; [set_solver|]. by apply (Hhex (w_Secret wh) (ts +:+ "." +:+ d_Payload d)).
    - intros [?|?]; [set_solver|]. by apply (pretty_no_comma (Unix (now e))). }
  assert (∀ body, VerifySignature hmac_hex (w_Secret wh) (sig_header ts sg) body = true ↔
            hmac_hex (w_Secret wh) (ts +:+ "." +:+ body) =
            hmac_hex (w_Secret wh) (ts +:+ "." +:+ d_Payload d)) as Hv.
  { intros body. unfold VerifySignature. rewrite Hsplit. cbn [length].
    rewrite bool_decide_false by (by intros []). cbn [foldl]. unfold read_part at 2.
    rewrite prefix_app, trim_prefix_app. unfold read_part. rewrite prefix_app, trim_prefix_app.
    change (String.prefix "t=" ("v1=" +:+ sg)) with false. cbn [fst snd].
    rewrite bool_decide_eq_true. unfold sg, sign. split; congruence. }
  split; [by apply Hv|exact Hv].
Qed.

(** ** Examples *)

Definition example_env (base : N) (t : time) : Env :=
  {| now := t; new_id n := (base + N.of_nat n)%N; order := canonical_range |}.
Definition example_cfg (fails : Z) : Config := NewService [WithMaxConsecutiveFailures fails].

Section examples.
#[local] Existing Instance binary_uuid_text.

Lemma example_drawn base t (w : World Backend) :
  set_Forall (λ k, (k < base)%N) (dom (webhooks (store w)) ∪ dom (deliveries (store w))) →
  fresh_env (example_env base t) (store w).
Proof.
  intros Hw. split; intros n; apply not_elem_of_dom; intros Hin.
  - assert (new_id (example_env base t) n < base)%N by (apply Hw; set_solver). cbn in *. lia.
  - assert (new_id (example_env base t) n < base)%N by (apply Hw; set_solver). cbn in *. lia.
Qed.

(** One webhook; one event is triggered: the webhooks are listed, the delivery created,
    the loop ends. *)
Definition registered_world : World Backend :=
  (on_store (Register (example_env 100 10) "s3cret" 1 "https://x" "" ["*"]) NewWorld).2.
Definition listed_world : World Backend :=
  (StartTrigger (example_env 200 20) 1 "user.created" "{}" registered_world).2.
Definition created_world : World Backend :=
  exec_task 0 (example_cfg 1) 0%nat (example_env 200 20) (DoFails "") listed_world.
Definition triggered_world : World Backend :=
  exec_task 0 (example_cfg 1) 0%nat (example_env 300 20) (DoFails "") created_world.
(** Its first attempt fails, and is counted. *)
Definition sent_world : World Backend :=
  exec_task 0 (example_cfg 1) 0%nat (example_env 300 30) (DoFails "refused") triggered_world.
Definition counted_world (fails : Z) : World Backend :=
  exec_task 0 (example_cfg fails) 0%nat (example_env 300 40) (DoFails "refused") sent_world.
(** With a limit of one, the webhook is paused; the next trigger starts nothing. *)
Definition paused_world : World Backend :=
  exec_task 0 (example_cfg 1) 0%nat (example_env 300 50) (DoFails "refused") (counted_world 1).
Definition listed_again : World Backend :=
  (StartTrigger (example_env 300 60) 1 "user.created" "{}" paused_world).2.
Definition skipped_world : World Backend :=
  exec_task 0 (example_cfg 1) 0%nat (example_env 300 60) (DoFails "") listed_again.
(** With a limit of ten, two sweeps follow before either request is answered. *)
Definition step10 (n : nat) (t : time) (result : http_result) (w : World Backend) : World Backend :=
  exec_task 0 (example_cfg 10) n (example_env 400 t) result w.
Definition listed_twice : World Backend :=
  (StartRetry (example_env 400 50) (example_cfg 10) (StartRetry (example_env 400 50) (example_cfg 10) (counted_world 10)).2).2.
Definition swept_world : World Backend :=
  step10 1 60 (DoFails "") (step10 1 60 (DoFails "") (step10 0 60 (DoFails "") (step10 0 60 (DoFails "") listed_twice))).
(** The first request succeeds, then the second one fails. *)
Definition succeeded_world : World Backend := step10 0 70 (Responds 200 "ok") swept_world.
Definition overwritten_world : World Backend := step10 1 80 (DoFails "timeout") succeeded_world.

Ltac fresh_here := apply example_drawn; apply (bool_decide_unpack _); by vm_compute.
Lemma registered_step fails :
  webhook_step 0 (example_cfg fails) (ERegister 100) NewWorld registered_world.
Proof.
  eapply (step_register 0 (example_cfg fails) (example_env 100 10) "s3cret" 1 "https://x" "" ["*"]);
    [fresh_here|apply surjective_pairing].
Qed.
(** The steps up to the end of the first attempt do not depend on the limit. *)
Definition first_events : list event :=
  [ERegister 100; ETrigger; ETask (default (Pausing 0) (head (running listed_world))) (running created_world);
   ETask (default (Pausing 0) (head (running created_world))) []; ETask (default (Pausing 0) (head (running triggered_world))) [Counting 100]].
Lemma first_trace fails : trace 0 (example_cfg fails) NewWorld first_events sent_world.
Proof.
  eapply trace_cons; [apply registered_step|].
  eapply (trace_cons _ _ _ _ listed_world); [eapply step_trigger; apply surjective_pairing|].
  eapply (trace_cons _ _ _ _ created_world).
  { apply (exec_task_step 0 (example_cfg fails) 0 (example_env 200 20) (DoFails "") listed_world _); [fresh_here|by vm_compute]. }
  eapply (trace_cons _ _ _ _ triggered_world).
  { apply (exec_task_step 0 (example_cfg fails) 0 (example_env 300 20) (DoFails "") created_world _); [fresh_here|by vm_compute]. }
  eapply (trace_cons _ _ _ _ sent_world); [|constructor].
  apply (exec_task_step 0 (example_cfg fails) 0 (example_env 300 30) (DoFails "refused") triggered_world _); [fresh_here|by vm_compute].
Qed.
Lemma counted_reachable fails : rtc (any_step 0 (example_cfg fails)) NewWorld (counted_world fails).
Proof.
  eapply rtc_r; [eapply trace_rtc, first_trace|]. eexists.
  eapply (exec_task_step 0 (example_cfg fails) 0 (example_env 300 40) (DoFails "refused") sent_world); [fresh_here|by vm_compute].
Qed.
Lemma step10_reachable n t result w task :
  running w !! n = Some task → set_Forall (λ k, (k < 400)%N) (dom (webhooks (store w)) ∪ dom (deliveries (store w))) →
  rtc (any_step 0 (example_cfg 10)) NewWorld w → rtc (any_step 0 (example_cfg 10)) NewWorld (step10 n t result w).
Proof.
  intros Hn Hf Hrun. eapply rtc_r; [exact Hrun|]. eexists. eapply exec_task_step; [by apply example_drawn|exact Hn].
Qed.
Ltac step10_here := eapply step10_reachable; [by vm_compute|apply (bool_decide_unpack _); by vm_compute|].
Lemma succeeded_reachable : rtc (any_step 0 (example_cfg 10)) NewWorld succeeded_world.
Proof.
  do 5 step10_here. eapply rtc_r; [eapply rtc_r; [apply (counted_reachable 10)|]|];
    exists ERetry; eapply step_retry; apply surjective_pairing.
Qed.

(** Two sweeps may both take up a failed delivery: after the first request has
    succeeded, the failure of the second one marks the delivery as failed
    again. *)
Theorem overlapping_sweeps_lose_success :
  ∃ w w' d d', rtc (any_step 0 (example_cfg 10)) NewWorld w ∧ rtc (any_step 0 (example_cfg 10)) w w' ∧
    deliveries (store w) !! 200%N = Some d ∧ d_Status d = "success" ∧
    deliveries (store w') !! 200%N = Some d' ∧ d_Status d' = "failed".
Proof.
  exists succeeded_world, overwritten_world. do 2 eexists. split; [apply succeeded_reachable|].
  split; [|by vm_compute]. apply rtc_once. eexists. eapply exec_task_step; [fresh_here|by vm_compute].
Qed.

Lemma failing_webhook_is_paused_witness :
  (∀ wh, webhooks (store skipped_world) !! 100%N = Some wh → w_Active wh = false) ∧
  is_Some (webhooks (store skipped_world) !! 100%N) ∧ running skipped_world ≠ [].
Proof.
  split; [|split; [by eexists|done]].
  destruct (webhooks (store (counted_world 1)) !! 100%N) as [wh|] eqn:Hwh; [|by vm_compute in Hwh].
  apply (failing_webhook_is_paused 0 (example_cfg 1) first_events sent_world [Pausing 100] (counted_world 1) 100 wh
    [ETask (Pausing 100) []] paused_world [ETrigger; ETask (default (Pausing 0) (head (running listed_again))) (running skipped_world)] skipped_world).
  - apply first_trace.
  - apply (exec_task_step 0 (example_cfg 1) 0 (example_env 300 40) (DoFails "refused") sent_world (Counting 100)); [fresh_here|by vm_compute].
  - exact Hwh.
  - vm_compute in Hwh. injection Hwh as <-. done.
  - eapply trace_cons; [|constructor].
    apply (exec_task_step 0 (example_cfg 1) 0 (example_env 300 50) (DoFails "refused") (counted_world 1) (Pausing 100)); [fresh_here|by vm_compute].
  - change (running paused_world) with (@nil task). apply not_elem_of_nil.
  - eapply (trace_cons _ _ _ _ listed_again); [eapply step_trigger; apply surjective_pairing|]. eapply trace_cons; [|constructor].
    apply (exec_task_step 0 (example_cfg 1) 0 (example_env 300 60) (DoFails "") listed_again _); [fresh_here|by vm_compute].
  - repeat (apply Forall_cons; split; [split; congruence|]). apply Forall_nil. done.
Defined.

Lemma delivery_lifecycle_witness :
  match deliveries (store created_world) !! 200%N with
  | Some d => open_row (example_cfg 10) d ∨ settled_row (example_cfg 10) d
  | None => False
  end.
Proof.
  destruct (deliveries (store created_world) !! 200%N) as [d|] eqn:Hd; [|by vm_compute in Hd].
  apply (delivery_lifecycle 0 (example_cfg 10) created_world created_world 200 d); [done| |done|done].
  eapply rtc_l; [exists (ERegister 100); split; [apply registered_step|done]|].
  eapply (rtc_l _ _ listed_world); [exists ETrigger; split; [eapply step_trigger; apply surjective_pairing|done]|].
  apply rtc_once. eexists. split.
  - eapply (exec_task_step 0 (example_cfg 10) 0 (example_env 200 20) (DoFails "") listed_world); [fresh_here|by vm_compute].
  - done.
Defined.

Lemma signature_verifies_witness :
  let wh := {| w_ID := 1; w_CompanyID := 1; w_URL := "https://x"; w_Secret := "k"; w_Events := [];
               w_Active := true; w_ConsecutiveFails := 0; w_CreatedAt := 0 |} in
  let d := {| d_ID := 2; d_WebhookID := 1; d_EventType := "user.created"; d_Payload := "{}";
              d_Status := "pending"; d_StatusCode := 0; d_ResponseBody := ""; d_Attempts := 0;
              d_NextRetryAt := None; d_CreatedAt := 0 |} in
  let hex (key msg : string) := pretty (Z.of_nat (String.length (key +:+ msg))) in
  let req := request_of hex (example_env 100 10) wh d in
  ∃ h, ("X-Eden-Signature", h) ∈ req_Headers req ∧
    VerifySignature hex "k" h (req_Body req) = true ∧
    ∀ body, VerifySignature hex "k" h body = true ↔
      hex "k" (pretty (Unix 10) +:+ "." +:+ body) = hex "k" (pretty (Unix 10) +:+ "." +:+ "{}").
Proof.
  intros wh d hex. apply (signature_verifies hex (example_env 100 10) wh d).
  intros key msg. apply pretty_no_comma.
Defined.
End examples.
