(* ===== verification/Company.v ===== *)
(** * The company hierarchy (platform/company)

    store.go: companies, the rows of the closure table and the store interface
    as the class [CompanyStore]; service.go: the service over any store.  The
    development backend that implements the store is in [Devstore]; the
    theorems are in [CompanyProofs]. *)

From S2P Require Import Prelude Encoding.

(** ** store.go *)

Abbreviation CompanyType := string (only parsing).
Definition CompanyTypeHolding : CompanyType := "holding".
Definition CompanyTypeSubsidiary : CompanyType := "subsidiary".
Definition CompanyTypeBrand : CompanyType := "brand".
Definition CompanyTypeStandalone : CompanyType := "standalone".
Definition CompanyTypePersonal : CompanyType := "personal".

Record Company : Type := {
  co_ID : uuid;
  co_Name : string;
  co_Slug : string;
  co_ParentCompanyID : option uuid;
  co_CompanyType : CompanyType;
  co_InheritedRoleCap : option Z;
  co_InheritedAccessLvl : option string;
  co_Settings : RawMessage;
  co_IsActive : bool;
  co_CreatedAt : time;
  co_UpdatedAt : time;
}.

Record CompanyHierarchy : Type := {
  h_AncestorID : uuid;
  h_DescendantID : uuid;
  h_Generations : Z;
}.
#[export] Instance CompanyHierarchy_eq_dec : EqDecision CompanyHierarchy.
Proof. solve_decision. Defined.

Abbreviation cerr := (goerr Empty_set) (only parsing).

(** The reads see the store, the others update it.  The identifiers of a call
    are numbered: the service takes the first, the store the second. *)
Class CompanyStore (St : Type) : Type := {
  cs_CreateCompany : Env → Company → prog St cerr Company;
  cs_GetCompany : St → uuid → outcome cerr Company;
  cs_UpdateCompany : Env → Company → prog St cerr Company;
  cs_ListCompanies : Env → St → outcome cerr (list Company);
  cs_InsertHierarchyEntries : list CompanyHierarchy → prog St cerr unit;
  cs_GetAncestors : St → uuid → outcome cerr (list CompanyHierarchy);
  cs_GetDescendants : St → uuid → outcome cerr (list CompanyHierarchy);
  cs_GetSelfAndDescendantIDs : St → uuid → outcome cerr (list uuid);
  cs_DeleteHierarchyEntries : uuid → prog St cerr unit;
}.

(** ** service.go *)

(** The characters a slug keeps. *)
Definition slug_rune (c : N) : bool :=
  within_ 97 122 c || within_ 48 57 c || bool_decide (c = 45%N).
(** [strings.ReplaceAll(s, " ", "-")], on runes. *)
Definition dash_spaces (c : N) : N := if bool_decide (c = 32%N) then 45%N else c.

Definition with_slug (slug : string) (c : Company) : Company :=
  {| co_ID := co_ID c; co_Name := co_Name c; co_Slug := slug;
     co_ParentCompanyID := co_ParentCompanyID c; co_CompanyType := co_CompanyType c;
     co_InheritedRoleCap := co_InheritedRoleCap c; co_InheritedAccessLvl := co_InheritedAccessLvl c;
     co_Settings := co_Settings c; co_IsActive := co_IsActive c; co_CreatedAt := co_CreatedAt c;
     co_UpdatedAt := co_UpdatedAt c |}.

Definition quoted (s : string) : string := String (ascii_of_N 34) s +:+ String (ascii_of_N 34) "".
Definition DefaultSettings : string := "{" +:+ quoted "enabled_features" +:+ ": []}".

Section service.
(** [time.Now().Format("150405")] depends on the zone of the machine. *)
Context {C : UnicodeCase} (Format_150405 : time → string).

(** platform/auth has the same function with another default name. *)
Definition generateSlug (default_name : string) (e : Env) (name : string) : string :=
  let slug := dash_spaces <$> runes (ToLower (TrimSpace name)) in
  let s := encode (filter (λ c, slug_rune c = true) slug) in
  (if bool_decide (s = "") then default_name else s) +:+ "-" +:+ Format_150405 (now e).

Context {St : Type} {S : CompanyStore St}.

Definition CreateCompany (e : Env) (name slug : string) (companyType : CompanyType)
    (parentID : option uuid) (settings : RawMessage) : prog St cerr Company :=
  if bool_decide (TrimSpace name = "") then throw (Errorf "company name is required")
  else
    let slug := if bool_decide (slug = "") then generateSlug "company" e name else slug in
    let companyType := if bool_decide (companyType = "") then CompanyTypeStandalone else companyType in
    let settings := match settings with
                    | None => Some DefaultSettings
                    | Some _ => settings
                    end in
    let company := {| co_ID := new_id e 0; co_Name := name; co_Slug := slug;
                      co_ParentCompanyID := parentID; co_CompanyType := companyType;
                      co_InheritedRoleCap := None; co_InheritedAccessLvl := None;
                      co_Settings := settings; co_IsActive := true; co_CreatedAt := now e;
                      co_UpdatedAt := now e |} in
    created ← wrapping "create company" (cs_CreateCompany e company);
    let self := {| h_AncestorID := co_ID created; h_DescendantID := co_ID created;
                   h_Generations := 0 |} in
    entries ← (match parentID with
               | None => mret [self]
               | Some p =>
                   ancestors ← wrapping "get parent ancestors"
                     (λ st, (cs_GetAncestors st p, st));
                   mret (self :: ((λ a, {| h_AncestorID := h_AncestorID a;
                                           h_DescendantID := co_ID created;
                                           h_Generations := wrap64 (h_Generations a + 1) |})
                                  <$> ancestors))
               end);
    _ ← wrapping "insert hierarchy entries" (cs_InsertHierarchyEntries entries);
    mret created.

Definition GetCompany (st : St) (id : uuid) : outcome cerr Company := cs_GetCompany st id.

Definition UpdateCompany (e : Env) (c : Company) : prog St cerr Company :=
  if bool_decide (TrimSpace (co_Name c) = "") then throw (Errorf "company name is required")
  else
    let c := if bool_decide (TrimSpace (co_Slug c) = "")
             then with_slug (generateSlug "company" e (co_Name c)) c else c in
    cs_UpdateCompany e c.

(** An ancestor row without its company is skipped. *)
Definition GetAncestors (st : St) (companyID : uuid) : outcome cerr (list Company) :=
  match cs_GetAncestors st companyID with
  | Err err => Err (Wrapf "get ancestors" err)
  | Ok hierarchy =>
      Ok (omap (λ h, if bool_decide (h_AncestorID h = companyID) then None
                     else match cs_GetCompany st (h_AncestorID h) with
                          | Ok c => Some c
                          | Err _ => None
                          end) hierarchy)
  end.

Definition GetSelfAndDescendantIDs (st : St) (companyID : uuid) : outcome cerr (list uuid) :=
  cs_GetSelfAndDescendantIDs st companyID.

Definition IsDescendantOf (st : St) (companyID ancestorID : uuid) : outcome cerr bool :=
  match cs_GetSelfAndDescendantIDs st ancestorID with
  | Err err => Err err
  | Ok descendants => Ok (any (λ d, bool_decide (d = companyID)) descendants)
  end.

(** *** Effective settings

    [json.Unmarshal] into a [map[string]interface{}] fails, or yields a map, or
    yields the nil map for the document [null]. *)
Context {Json : Type} (Unmarshal : string → option (option (gmap string Json)))
  (Marshal : option (gmap string Json) → outcome cerr string).

(** [if _, exists := merged[key]; !exists { merged[key] = val }], which panics
    when [merged] is the nil map. *)
Definition fill_key (merged : call (option (gmap string Json))) (kv : string * Json) :
    call (option (gmap string Json)) :=
  match merged with
  | Panics => Panics
  | Returns None => Panics
  | Returns (Some m) =>
      Returns (Some (match m !! kv.1 with Some _ => m | None => <[kv.1 := kv.2]> m end))
  end.
Definition fill_ancestor (e : Env) (merged : call (option (gmap string Json))) (ancestor : Company) :
    call (option (gmap string Json)) :=
  match co_Settings ancestor ≫= Unmarshal with
  | Some (Some ancestorSettings) =>
      foldl fill_key merged (range (MapRange := order e) ancestorSettings)
  | _ => merged
  end.

Definition GetEffectiveSettings (e : Env) (st : St) (companyID : uuid) : call (outcome cerr string) :=
  match cs_GetCompany st companyID with
  | Err err => Returns (Err (Wrapf "get company" err))
  | Ok company =>
      match (match co_Settings company with
             | None => Some (Some ∅)
             | Some settings => Unmarshal settings
             end) with
      | None => Returns (Err (Errorf "unmarshal company settings"))
      | Some merged =>
          match GetAncestors st companyID with
          | Err err => Returns (Err err)
          | Ok ancestors =>
              match foldl (fill_ancestor e) (Returns merged) ancestors with
              | Panics => Panics
              | Returns merged =>
                  match Marshal merged with
                  | Err err => Returns (Err (Wrapf "marshal merged settings" err))
                  | Ok result => Returns (Ok result)
                  end
              end
          end
      end
  end.
End service.
