(* ===== verification/Auth.v ===== *)
(** * Authentication (platform/auth)

    store.go: users, memberships, roles, single sign-on configurations, refresh
    tokens and the store interface as the class [AuthStore], with transactions;
    jwt.go: claims and the token manager; context.go, require.go and
    entitlements.go: what a handler asks of its claims; service.go: sign-up,
    login, rotation of refresh tokens.  Signatures are those of the library
    golang-jwt over ML-DSA-65, a parameter.  The development backend that
    implements the store is in [Devstore]; the theorems are in [AuthProofs]. *)

From S2P Require Import Prelude Encoding Password Rbac Company.

(** ** store.go *)

Inductive auth_error : Type :=
  | ErrNoJITMatch
  | ErrAmbiguousJITMatch
  | ErrNoCompany
  | ErrNoHousehold
  | ErrNotParentMode
  | ErrNotChildMode
  | ErrNoClaims
  | ErrMissingEntitlement.
#[export] Instance auth_error_eq_dec : EqDecision auth_error.
Proof. solve_decision. Defined.
Abbreviation aerr := (goerr auth_error) (only parsing).

Record User : Type := {
  u_ID : uuid;
  u_Email : string;
  u_PasswordHash : string;
  u_DisplayName : string;
  u_AvatarURL : string;
  u_IsActive : bool;
  u_CreatedAt : time;
}.

Record Membership : Type := {
  mb_CompanyID : uuid;
  mb_UserID : uuid;
  mb_RoleID : uuid;
  mb_RoleName : string;
}.

Record Role : Type := {
  ro_ID : uuid;
  ro_Name : string;
  ro_Description : string;
  ro_RoleLevel : Z;
}.

Record SSOConfig : Type := {
  sso_CompanyID : uuid;
  sso_Provider : string;
  sso_IssuerURL : string;
  sso_ClientID : string;
  sso_ClientSecret : string;
  sso_MetadataURL : string;
  sso_DisplayName : string;
  sso_ExtraScopes : list string;
  sso_EnforceSSO : bool;
  sso_IsActive : bool;
  sso_EmailDomainAllowlist : list string;
  sso_JITDefaultRole : string;
  sso_JITEnabled : bool;
}.

Record RefreshTokenRecord : Type := {
  rt_UserID : uuid;
  rt_TokenHash : string;
  rt_ExpiresAt : time;
}.

Record OAuthCredential : Type := {
  oa_CompanyID : uuid;
  oa_UserID : uuid;
  oa_Provider : string;
  oa_AccessToken : string;
  oa_RefreshToken : string;
  oa_TokenExpiry : time;
  oa_Scopes : list string;
}.

(** The identifiers of a call are numbered by the caller. *)
Class AuthStore (St : Type) : Type := {
  as_GetUserByEmail : string → prog St aerr User;
  as_GetUserByID : uuid → prog St aerr User;
  as_CreateUser : Env → nat → string → string → string → prog St aerr User;
  as_UpdateUser : uuid → string → string → prog St aerr User;
  as_CreateCompany : Env → nat → string → string → string → prog St aerr uuid;
  as_CreateCompanyMembership : uuid → uuid → uuid → prog St aerr unit;
  as_GetCompanyMembershipByUser : uuid → prog St aerr Membership;
  as_GetRoleByID : uuid → prog St aerr Role;
  as_GetUserRole : uuid → uuid → prog St aerr Role;
  as_CreateRefreshToken : uuid → string → time → prog St aerr unit;
  as_GetRefreshToken : Env → string → prog St aerr RefreshTokenRecord;
  as_RevokeRefreshToken : string → prog St aerr unit;
  as_GetSSOConfig : uuid → string → prog St aerr SSOConfig;
  as_ListSSOConfigs : Env → uuid → prog St aerr (list SSOConfig);
  as_UpsertSSOConfig : SSOConfig → prog St aerr unit;
  as_DeleteSSOConfig : uuid → string → prog St aerr unit;
  as_HasEnforcedSSO : Env → uuid → prog St aerr bool;
  as_ResolveJITCompanyByIssuerDomain : Env → string → string → prog St aerr (uuid * string);
  as_UpsertOAuthCredential : OAuthCredential → prog St aerr unit;
  as_GetOAuthCredential : uuid → string → prog St aerr OAuthCredential;
  as_CreateAuditLog : uuid → uuid → string → string → string → string → string → prog St aerr unit;
}.

(** [BeginTx] returns a handle [Tx] with operations of its own; [Commit] gives
    its writes to the store, [Rollback] drops them. *)
Class TxAuthStore (St Tx : Type) : Type := {
  #[global] tx_base :: AuthStore St;
  #[global] tx_ops :: AuthStore Tx;
  BeginTx : prog St aerr Tx;
  Commit : Tx → prog St aerr unit;
}.

(** ** jwt.go *)

(** [jwt.RegisteredClaims]; instants are in whole seconds, [None] when absent. *)
Record RegisteredClaims : Type := {
  Subject : string;
  Issuer : string;
  Audience : list string;
  ExpiresAt : option time;
  IssuedAt : option time;
  NotBefore : option time;
  JTI : string;
}.

Record Claims : Type := {
  Registered : RegisteredClaims;
  c_UserID : string;
  c_CompanyID : string;
  c_CompanyIDs : list string;
  c_Role : string;
  c_RoleLevel : Z;
  c_Scopes : list string;
  c_HouseholdID : string;
  c_ChildID : string;
  c_ChildMode : bool;
  c_Entitlements : list string;
}.

Definition HasScope (c : Claims) (scope : string) : bool :=
  any (λ s, bool_decide (s = scope)) (c_Scopes c).
Definition OnlyHasScope (c : Claims) (scope : string) : bool :=
  bool_decide (length (c_Scopes c) = 1%nat) && bool_decide (head (c_Scopes c) = Some scope).
(** entitlements.go. *)
Definition HasEntitlement (c : Claims) (entitlement : string) : bool :=
  any (λ s, bool_decide (s = entitlement)) (c_Entitlements c).

(** The claims of a token that carries the registered ones only: the others are
    zero when such a token is read as an access token. *)
Definition registered_only (r : RegisteredClaims) : Claims :=
  {| Registered := r; c_UserID := ""; c_CompanyID := ""; c_CompanyIDs := []; c_Role := "";
     c_RoleLevel := 0; c_Scopes := []; c_HouseholdID := ""; c_ChildID := ""; c_ChildMode := false;
     c_Entitlements := [] |}.

Record JWTConfig : Type := {
  KeySeedPath : string;
  KeySeedPaths : gmap string string;
  ActiveKID : string;
  cfg_Issuer : string;
  AccessTokenExpiry : duration;
  RefreshTokenExpiry : duration;
}.
Definition DefaultJWTConfig : JWTConfig :=
  {| KeySeedPath := ""; KeySeedPaths := ∅; ActiveKID := ""; cfg_Issuer := "eden-platform";
     AccessTokenExpiry := (15 * Minute)%Z; RefreshTokenExpiry := (7 * 24 * Hour)%Z |}.

(** golang-jwt with circl: keys, signing, and reading a signed text.  [unsigned]
    is what the header and the payload of a text say; [verified] checks its
    signature under a public key. *)
Class JWTLib : Type := {
  PrivateKey : Type;
  PublicKey : Type;
  public : PrivateKey → PublicKey;
  hmac_key : PrivateKey → string;
  SignedString : string → PrivateKey → Claims → string;
  SignedStringHS256 : string → RegisteredClaims → string;
  unsigned : string → option (string * string * Claims);
  verified : string → PublicKey → bool;
  verifiedHS256 : string → string → bool;
}.

(** [jwt.NewNumericDate] truncates to the second. *)
Definition NumericDate (t : time) : time := ((t `div` Second) * Second)%Z.

(** The checks of the library's validator on the instants of a token. *)
Definition not_expired (now : time) (r : RegisteredClaims) : bool :=
  match ExpiresAt r with None => true | Some exp => bool_decide (now < exp)%Z end
  && match NotBefore r with None => true | Some nbf => bool_decide (nbf ≤ now)%Z end.

Section jwt.
Context {J : JWTLib}.

(** A key entry is its private key, which determines the public one. *)
Record JWTManager : Type := {
  keys : gmap string PrivateKey;
  activeKID : string;
  config : JWTConfig;
}.

(** [load] reads a seed file ([None] when it fails), [fresh] is a generated key,
    [None] when the generator fails. *)
Definition loaded_keys (e : Env) (load : string → option PrivateKey) (paths : gmap string string) :
    outcome aerr (gmap string PrivateKey) :=
  foldl (λ acc '(kid, path),
    match acc with
    | Err err => Err err
    | Ok m => match load path with
              | None => Err (Errorf "load key seed")
              | Some sk => Ok (<[kid := sk]> m)
              end
    end) (Ok ∅) (range (MapRange := order e) paths).

Definition with_defaults (cfg : JWTConfig) : JWTConfig :=
  {| KeySeedPath := KeySeedPath cfg; KeySeedPaths := KeySeedPaths cfg; ActiveKID := ActiveKID cfg;
     cfg_Issuer := if bool_decide (cfg_Issuer cfg = "") then "eden-platform" else cfg_Issuer cfg;
     AccessTokenExpiry := if bool_decide (AccessTokenExpiry cfg = 0%Z) then (15 * Minute)%Z
                          else AccessTokenExpiry cfg;
     RefreshTokenExpiry := if bool_decide (RefreshTokenExpiry cfg = 0%Z) then (7 * 24 * Hour)%Z
                           else RefreshTokenExpiry cfg |}.

Definition NewJWTManager (e : Env) (load : string → option PrivateKey) (fresh : option PrivateKey)
    (cfg : JWTConfig) : outcome aerr JWTManager :=
  let cfg := with_defaults cfg in
  let ephemeral :=
    match fresh with
    | None => Err (Errorf "generate key pair")
    | Some sk => Ok {| keys := {["ephemeral" := sk]}; activeKID := "ephemeral"; config := cfg |}
    end in
  if bool_decide (0 < size (KeySeedPaths cfg))%nat then
    match loaded_keys e load (KeySeedPaths cfg) with
    | Err err => Err err
    | Ok ks =>
        if bool_decide (ActiveKID cfg = "") then
          Err (Errorf "ActiveKID must be set when KeySeedPaths is non-empty")
        else match ks !! ActiveKID cfg with
             | None => Err (Errorf "ActiveKID not found in KeySeedPaths")
             | Some _ => Ok {| keys := ks; activeKID := ActiveKID cfg; config := cfg |}
             end
    end
  else if negb (bool_decide (KeySeedPath cfg = "")) then
    match load (KeySeedPath cfg) with
    | Some sk => Ok {| keys := {["default" := sk]}; activeKID := "default"; config := cfg |}
    | None => ephemeral
    end
  else ephemeral.

(** [keyfunc]: the public key the signature of a text must verify under. *)
Definition keyfunc (m : JWTManager) (alg kid : string) : option PublicKey :=
  if bool_decide (alg ≠ "ML-DSA-65") then None
  else if bool_decide (kid = "") then public <$> keys m !! activeKID m
  else public <$> keys m !! kid.

(** [jwt.ParseWithClaims(tokenStr, claims, m.keyfunc)]. *)
Definition ParseWithClaims (e : Env) (m : JWTManager) (tokenStr : string) : option Claims :=
  match unsigned tokenStr with
  | None => None
  | Some (alg, kid, claims) =>
      match keyfunc m alg kid with
      | None => None
      | Some pk =>
          if verified tokenStr pk && not_expired (now e) (Registered claims) then Some claims else None
      end
  end.

(** [token.Header["kid"] = m.activeKID; token.SignedString(...)]; a manager
    always has its active key. *)
Definition sign_claims (m : JWTManager) (c : Claims) : outcome aerr string :=
  match keys m !! activeKID m with
  | None => Err (Errorf "no active signing key")
  | Some sk => Ok (SignedString (activeKID m) sk c)
  end.

(** [jti] is what [generateJTI] drew. *)
Definition registered (e : Env) (m : JWTManager) (jti subject : string) (expiry : duration) :
    RegisteredClaims :=
  {| Subject := subject; Issuer := cfg_Issuer (config m); Audience := [];
     ExpiresAt := Some (NumericDate (now e + expiry)%Z); IssuedAt := Some (NumericDate (now e));
     NotBefore := None; JTI := jti |}.

Definition CreateAccessTokenWithScopes (e : Env) (m : JWTManager) (jti userID companyID role : string)
    (roleLevel : Z) (companyIDs scopes : list string) : outcome aerr string :=
  sign_claims m
    {| Registered := registered e m jti userID (AccessTokenExpiry (config m)); c_UserID := userID;
       c_CompanyID := companyID; c_CompanyIDs := companyIDs; c_Role := role;
       c_RoleLevel := roleLevel; c_Scopes := scopes; c_HouseholdID := ""; c_ChildID := "";
       c_ChildMode := false; c_Entitlements := [] |}.

Definition CreateAccessToken (e : Env) (m : JWTManager) (jti userID companyID role : string)
    (roleLevel : Z) (companyIDs : list string) : outcome aerr string :=
  CreateAccessTokenWithScopes e m jti userID companyID role roleLevel companyIDs [].

Definition CreateHouseholdAccessToken (e : Env) (m : JWTManager)
    (jti userID householdID childID : string) (childMode : bool) : outcome aerr string :=
  sign_claims m
    {| Registered := registered e m jti userID (AccessTokenExpiry (config m)); c_UserID := userID;
       c_CompanyID := ""; c_CompanyIDs := []; c_Role := ""; c_RoleLevel := 0; c_Scopes := [];
       c_HouseholdID := householdID; c_ChildID := childID; c_ChildMode := childMode;
       c_Entitlements := [] |}.

Definition CreateRefreshToken (e : Env) (m : JWTManager) (jti userID : string) : outcome aerr string :=
  sign_claims m (registered_only (registered e m jti userID (RefreshTokenExpiry (config m)))).

Definition CreateShortLivedToken (e : Env) (m : JWTManager) (jti subject : string) (expiry : duration) :
    outcome aerr string :=
  sign_claims m (registered_only (registered e m jti subject expiry)).

Definition ValidateAccessToken (e : Env) (m : JWTManager) (tokenStr : string) : outcome aerr Claims :=
  match ParseWithClaims e m tokenStr with
  | None => Err (Errorf "parse access token")
  | Some claims => Ok claims
  end.

Definition ValidateRefreshToken (e : Env) (m : JWTManager) (tokenStr : string) :
    outcome aerr RegisteredClaims :=
  match ParseWithClaims e m tokenStr with
  | None => Err (Errorf "parse refresh token")
  | Some claims => Ok (Registered claims)
  end.

Definition ValidateShortLivedToken (e : Env) (m : JWTManager) (tokenStr : string) : outcome aerr string :=
  match ParseWithClaims e m tokenStr with
  | None => Err (Errorf "parse short-lived token")
  | Some claims => Ok (Subject (Registered claims))
  end.

(** [stateHMACKey]: derived from the active key. *)
Definition stateHMACKey (m : JWTManager) : outcome aerr string :=
  match keys m !! activeKID m with
  | None => Err (Errorf "no active signing key")
  | Some sk => Ok (hmac_key sk)
  end.

Definition CreateCompactShortLivedToken (e : Env) (m : JWTManager) (jti subject : string)
    (expiry : duration) : outcome aerr string :=
  match stateHMACKey m with
  | Err err => Err err
  | Ok key => Ok (SignedStringHS256 key (registered e m jti subject expiry))
  end.

Definition ValidateCompactShortLivedToken (e : Env) (m : JWTManager) (tokenStr : string) :
    outcome aerr string :=
  match stateHMACKey m with
  | Err err => Err err
  | Ok key =>
      match unsigned tokenStr with
      | None => Err (Errorf "parse compact short-lived token")
      | Some (alg, _, claims) =>
          if bool_decide (alg = "HS256") && verifiedHS256 tokenStr key
             && not_expired (now e) (Registered claims)
          then Ok (Subject (Registered claims)) else Err (Errorf "parse compact short-lived token")
      end
  end.

Definition PublicKeys (m : JWTManager) : gmap string PublicKey := public <$> keys m.
Definition ActivePrivateKey (m : JWTManager) : option PrivateKey := keys m !! activeKID m.
End jwt.

(** ** context.go, require.go, entitlements.go

    A request carries the claims its token was validated to, or none. *)
Section require.
Context {U : UuidText}.

Definition parse_or (s : string) (err : auth_error) : outcome aerr uuid :=
  match uuid_Parse s with
  | None => Err (Sentinel err)
  | Some id => Ok id
  end.

Definition RequireCompany (claims : option Claims) : outcome aerr uuid :=
  match claims with
  | None => Err (Sentinel ErrNoCompany)
  | Some c => if bool_decide (c_CompanyID c = "") then Err (Sentinel ErrNoCompany)
              else parse_or (c_CompanyID c) ErrNoCompany
  end.
Definition RequireUser (claims : option Claims) : outcome aerr uuid :=
  match claims with
  | None => Err (Sentinel ErrNoCompany)
  | Some c => if bool_decide (c_UserID c = "") then Err (Sentinel ErrNoCompany)
              else parse_or (c_UserID c) ErrNoCompany
  end.
Definition RequireHousehold (claims : option Claims) : outcome aerr uuid :=
  match claims with
  | None => Err (Sentinel ErrNoHousehold)
  | Some c => if bool_decide (c_HouseholdID c = "") then Err (Sentinel ErrNoHousehold)
              else parse_or (c_HouseholdID c) ErrNoHousehold
  end.
Definition RequireParentMode (claims : option Claims) : outcome aerr Claims :=
  match claims with
  | None => Err (Sentinel ErrNoHousehold)
  | Some c => if c_ChildMode c then Err (Sentinel ErrNotParentMode) else Ok c
  end.
Definition RequireChildMode (claims : option Claims) : outcome aerr Claims :=
  match claims with
  | None => Err (Sentinel ErrNoHousehold)
  | Some c => if negb (c_ChildMode c) then Err (Sentinel ErrNotChildMode) else Ok c
  end.
Definition RequirePlan (claims : option Claims) (entitlement : string) : outcome aerr Claims :=
  match claims with
  | None => Err (Sentinel ErrNoClaims)
  | Some c => if negb (HasEntitlement c entitlement)
              then Err (Wrapf entitlement (Sentinel ErrMissingEntitlement)) else Ok c
  end.
End require.

(** ** service.go *)

Record AuthResponse : Type := {
  AccessToken : string;
  RefreshToken : string;
  resp_User : User;
}.

(** What one call draws at random: the salt of a password hash, [None] when the
    generator fails, and the token identifiers. *)
Record Rand : Type := { salt : option string; jti : nat → string }.

(** [err.Error()]. *)
Fixpoint Error_text {X} (text : X → string) (err : goerr X) : string :=
  match err with
  | Sentinel s => text s
  | Errorf msg => msg
  | Wrapf msg err => msg +:+ ": " +:+ Error_text text err
  end.
Definition sentinel_text (err : auth_error) : string :=
  match err with
  | ErrNoJITMatch => "auth: no jit-enabled sso_config matches issuer+domain"
  | ErrAmbiguousJITMatch => "auth: ambiguous jit-enabled sso_config match for issuer+domain"
  | ErrNoCompany => "auth: no company in context"
  | ErrNoHousehold => "auth: no household in context"
  | ErrNotParentMode => "auth: not in parent mode"
  | ErrNotChildMode => "auth: not in child mode"
  | ErrNoClaims => "auth: no claims in context"
  | ErrMissingEntitlement => "auth: missing entitlement"
  end.

Section service.
Context {U : UuidText} {C : UnicodeCase} {H : Sha256} {K : KeyDerivation} {J : JWTLib}.
(** [mail.ParseAddress] accepts the text; the clock text of a slug. *)
Context (ParseAddress : string → bool) (Format_150405 : time → string).

Record Service : Type := {
  jwtManager : JWTManager;
  passwordHasher : PasswordHasher.PasswordHasher;
  b2cMode : bool;
}.

Definition HashToken (token : string) : string := hex_EncodeToString (sha256 token).

Definition normalized (email : string) : string := ToLower (TrimSpace email).

(** A panic of the key derivation ends the request without an answer; the error
    "panic" stands for it. *)
Definition returned {St A} (c : PasswordHasher.result A) (msg : string) : prog St aerr A :=
  match c with
  | Panics => throw (Errorf "panic")
  | Returns (Err _) => throw (Errorf msg)
  | Returns (Ok a) => mret a
  end.

Definition RefreshTokenExpiry_of (s : Service) : duration := RefreshTokenExpiry (config (jwtManager s)).

Section ops.
Context {Tx : Type} {S : AuthStore Tx}.

(** The two tokens of a response and the row of the refresh token; [access] is
    what the access token was signed to. *)
Definition issue_tokens (s : Service) (e : Env) (r : Rand) (user : User)
    (access : outcome aerr string) (access_msg store_msg : string) (refresh_jti : nat) :
    prog Tx aerr AuthResponse :=
  accessToken ← wrapping access_msg (of_outcome access);
  refreshToken ← wrapping "create refresh token"
    (of_outcome (CreateRefreshToken e (jwtManager s) (jti r refresh_jti) (uuid_String (u_ID user))));
  _ ← wrapping store_msg
    (as_CreateRefreshToken (u_ID user) (HashToken refreshToken) (now e + RefreshTokenExpiry_of s)%Z);
  mret {| AccessToken := accessToken; RefreshToken := refreshToken; resp_User := user |}.

Definition create_user_error {A} (err : aerr) : prog Tx aerr A :=
  let text := Error_text sentinel_text err in
  if strings_Contains text "duplicate key" || strings_Contains text "unique constraint"
  then throw (Errorf "an account with this email already exists")
  else throw (Wrapf "create user" err).

(** [SignUp] between the start of its transaction and its commit. *)
Definition SignUp_tx (s : Service) (e : Env) (r : Rand) (email hashedPassword displayName : string) :
    prog Tx aerr AuthResponse :=
  created ← try (as_CreateUser e 0 (normalized email) hashedPassword (TrimSpace displayName));
  user ← (match created with Ok user => mret user | Err err => create_user_error err end);
  let '(companyName, companySlug, companyType) :=
    if b2cMode s then
      (TrimSpace displayName,
       "personal-" +:+ String.substring 0 8 (uuid_String (u_ID user)), CompanyTypePersonal)
    else
      (TrimSpace displayName +:+ "'s Company",
       generateSlug Format_150405 "default-company" e displayName, CompanyTypeStandalone) in
  companyID ← wrapping "create company" (as_CreateCompany e 1 companyName companySlug companyType);
  _ ← wrapping "create company membership"
    (as_CreateCompanyMembership companyID (u_ID user) OwnerRoleID);
  let companyIDStr := uuid_String companyID in
  resp ← issue_tokens s e r user
    (CreateAccessToken e (jwtManager s) (jti r 0) (uuid_String (u_ID user)) companyIDStr "owner" 90
       [companyIDStr]) "create access token" "store refresh token" 1;
  _ ← ignore (as_CreateAuditLog companyID (u_ID user) "user.signup" "user" (uuid_String (u_ID user))
                "" "{}");
  mret resp.

(** The access token of a login: that of the role, or that of a navigator. *)
Definition staff_token (s : Service) (e : Env) (r : Rand) (user : User) (membership : Membership)
    (role : Role) : outcome aerr string :=
  CreateAccessToken e (jwtManager s) (jti r 0) (uuid_String (u_ID user))
    (uuid_String (mb_CompanyID membership)) (ro_Name role) (ro_RoleLevel role)
    [uuid_String (mb_CompanyID membership)].

Definition genericErr : aerr := Errorf "invalid credentials".

(** The checks [Login] and [SignInNavigators] share. *)
Definition check_credentials (s : Service) (email password : string) : prog Tx aerr User :=
  found ← try (as_GetUserByEmail (normalized email));
  match found with
  | Err _ => throw genericErr
  | Ok user =>
      if negb (u_IsActive user) then throw genericErr
      else
        match_ ← returned (PasswordHasher.Verify (passwordHasher s) password (u_PasswordHash user))
                   "invalid credentials";
        if negb match_ then throw genericErr else mret user
  end.

Definition Login (s : Service) (e : Env) (r : Rand) (email password : string) :
    prog Tx aerr AuthResponse :=
  user ← check_credentials s email password;
  membership ← wrapping "get company membership" (as_GetCompanyMembershipByUser (u_ID user));
  role ← wrapping "get role" (as_GetRoleByID (mb_RoleID membership));
  resp ← issue_tokens s e r user (staff_token s e r user membership role)
    "create access token" "store refresh token" 1;
  _ ← ignore (as_CreateAuditLog (mb_CompanyID membership) (u_ID user) "user.login" "user"
                (uuid_String (u_ID user)) "" "{}");
  mret resp.

Definition SignInNavigators (s : Service) (e : Env) (r : Rand) (email password : string) :
    prog Tx aerr AuthResponse :=
  user ← check_credentials s email password;
  membership ← wrapping "get company membership" (as_GetCompanyMembershipByUser (u_ID user));
  let companyIDStr := uuid_String (mb_CompanyID membership) in
  resp ← issue_tokens s e r user
    (CreateAccessTokenWithScopes e (jwtManager s) (jti r 0) (uuid_String (u_ID user)) companyIDStr
       "" 0 [companyIDStr] ["volunteer:field"])
    "create navigators access token" "store refresh token" 1;
  _ ← ignore (as_CreateAuditLog (mb_CompanyID membership) (u_ID user) "user.login_navigators" "user"
                (uuid_String (u_ID user)) "" ("{" +:+ quoted "client" +:+ ":" +:+ quoted "navigators" +:+ "}"));
  mret resp.

(** [RefreshToken] up to its read of the stored row, and from its revocation on:
    the two store calls are not one step. *)
Definition refresh_lookup (s : Service) (e : Env) (refreshTokenStr : string) :
    prog Tx aerr RefreshTokenRecord :=
  match ValidateRefreshToken e (jwtManager s) refreshTokenStr with
  | Err _ => throw (Errorf "invalid refresh token")
  | Ok _ =>
      found ← try (as_GetRefreshToken e (HashToken refreshTokenStr));
      match found with
      | Err _ => throw (Errorf "refresh token not found or expired")
      | Ok stored => mret stored
      end
  end.

Definition refresh_rotate (s : Service) (e : Env) (r : Rand) (refreshTokenStr : string)
    (storedToken : RefreshTokenRecord) : prog Tx aerr AuthResponse :=
  _ ← wrapping "revoke old refresh token" (as_RevokeRefreshToken (HashToken refreshTokenStr));
  user ← wrapping "get user" (as_GetUserByID (rt_UserID storedToken));
  membership ← wrapping "get company membership" (as_GetCompanyMembershipByUser (u_ID user));
  role ← wrapping "get role" (as_GetRoleByID (mb_RoleID membership));
  issue_tokens s e r user (staff_token s e r user membership role)
    "create access token" "store new refresh token" 1.

Definition Service_RefreshToken (s : Service) (e : Env) (r : Rand) (refreshTokenStr : string) :
    prog Tx aerr AuthResponse :=
  storedToken ← refresh_lookup s e refreshTokenStr;
  refresh_rotate s e r refreshTokenStr storedToken.

Definition UpdateProfile (userID : uuid) (displayName avatarURL : string) : prog Tx aerr User :=
  if bool_decide (TrimSpace displayName = "") then throw (Errorf "display name is required")
  else as_UpdateUser userID (TrimSpace displayName) (TrimSpace avatarURL).

Definition Logout (refreshTokenStr : string) : prog Tx aerr unit :=
  as_RevokeRefreshToken (HashToken refreshTokenStr).

Definition RememberRefreshToken (userID : uuid) (refreshTokenStr : string) (expiresAt : time) :
    prog Tx aerr unit :=
  as_CreateRefreshToken userID (HashToken refreshTokenStr) expiresAt.

Definition Service_GetUserByID (id : uuid) : prog Tx aerr User := as_GetUserByID id.
Definition Service_GetUserByEmail (email : string) : prog Tx aerr User :=
  as_GetUserByEmail (normalized email).
Definition Service_CreateUser (e : Env) (email passwordHash displayName : string) : prog Tx aerr User :=
  as_CreateUser e 0 (normalized email) passwordHash (TrimSpace displayName).
End ops.

Context {St Tx : Type} {S : TxAuthStore St Tx}.

Definition SignUp (s : Service) (e : Env) (r : Rand) (email password displayName : string) :
    prog St aerr AuthResponse :=
  if negb (ParseAddress email) then throw (Errorf "invalid email")
  else if bool_decide (len password < 8)%Z then throw (Errorf "password must be at least 8 characters")
  else if bool_decide (TrimSpace displayName = "") then throw (Errorf "display name is required")
  else
    hashedPassword ← returned (PasswordHasher.Hash (passwordHasher s) (salt r) password) "hash password";
    tx ← wrapping "begin transaction" BeginTx;
    match SignUp_tx s e r email hashedPassword displayName tx with
    | (Err err, _) => throw err
    | (Ok resp, tx) =>
        _ ← wrapping "commit transaction" (Commit tx);
        mret resp
    end.
End service.
