(* ===== verification/Devstore.v ===== *)
(** * The development backend (platform/devstore/memory_store.go, audit_store.go)

    One in-memory state behind the stores of the authentication, company, RBAC,
    audit and webhook services.  A transaction is a clone of the whole state that
    a commit puts in the place of the current one.  The RBAC and webhook stores
    of the backend are modelled in [Rbac] and [Webhook] on the part of the state
    they use ([rbac_view], [webhook_view]). *)

From S2P Require Import Prelude Encoding Webhook Rbac Company Auth.

Record auditLogEntry : Type := {
  al_ID : uuid;
  al_CompanyID : uuid;
  al_ActorID : uuid;
  al_Action : string;
  al_Resource : string;
  al_ResourceID : string;
  al_Details : string;
  al_IPAddress : string;
  al_CreatedAt : time;
}.

Record memoryState : Type := {
  usersByID : gmap uuid User;
  usersByEmail : gmap string uuid;
  companies : gmap uuid Company;
  hierarchy : list CompanyHierarchy;
  ms_memberships : gmap uuid (list Membership);
  ms_roles : gmap uuid Role;
  refreshTokens : gmap string RefreshTokenRecord;
  ssoConfigs : gmap string SSOConfig;
  defaultSettings : RawMessage;
  ms_rbacRoles : gmap uuid Rbac.Role;
  ms_rbacPermissions : gmap uuid Permission;
  ms_rolePermissions : gmap uuid (list uuid);
  ms_rbacMemberships : gmap string Rbac.Membership;
  auditLogs : list auditLogEntry;
  ms_webhooks : gmap uuid Webhook;
  ms_deliveries : gmap uuid WebhookDelivery;
}.

(** The fields a method writes; the others stay. *)
Definition set_users (byID : gmap uuid User) (byEmail : gmap string uuid) (s : memoryState) : memoryState :=
  {| usersByID := byID; usersByEmail := byEmail; companies := companies s; hierarchy := hierarchy s;
     ms_memberships := ms_memberships s; ms_roles := ms_roles s; refreshTokens := refreshTokens s;
     ssoConfigs := ssoConfigs s; defaultSettings := defaultSettings s; ms_rbacRoles := ms_rbacRoles s;
     ms_rbacPermissions := ms_rbacPermissions s; ms_rolePermissions := ms_rolePermissions s;
     ms_rbacMemberships := ms_rbacMemberships s; auditLogs := auditLogs s; ms_webhooks := ms_webhooks s;
     ms_deliveries := ms_deliveries s |}.
Definition set_companies (cs : gmap uuid Company) (hs : list CompanyHierarchy) (s : memoryState) :
    memoryState :=
  {| usersByID := usersByID s; usersByEmail := usersByEmail s; companies := cs; hierarchy := hs;
     ms_memberships := ms_memberships s; ms_roles := ms_roles s; refreshTokens := refreshTokens s;
     ssoConfigs := ssoConfigs s; defaultSettings := defaultSettings s; ms_rbacRoles := ms_rbacRoles s;
     ms_rbacPermissions := ms_rbacPermissions s; ms_rolePermissions := ms_rolePermissions s;
     ms_rbacMemberships := ms_rbacMemberships s; auditLogs := auditLogs s; ms_webhooks := ms_webhooks s;
     ms_deliveries := ms_deliveries s |}.
Definition set_memberships (ms : gmap uuid (list Membership)) (s : memoryState) : memoryState :=
  {| usersByID := usersByID s; usersByEmail := usersByEmail s; companies := companies s;
     hierarchy := hierarchy s; ms_memberships := ms; ms_roles := ms_roles s;
     refreshTokens := refreshTokens s; ssoConfigs := ssoConfigs s; defaultSettings := defaultSettings s;
     ms_rbacRoles := ms_rbacRoles s; ms_rbacPermissions := ms_rbacPermissions s;
     ms_rolePermissions := ms_rolePermissions s; ms_rbacMemberships := ms_rbacMemberships s;
     auditLogs := auditLogs s; ms_webhooks := ms_webhooks s; ms_deliveries := ms_deliveries s |}.
Definition set_tokens (ts : gmap string RefreshTokenRecord) (cfgs : gmap string SSOConfig)
    (logs : list auditLogEntry) (s : memoryState) : memoryState :=
  {| usersByID := usersByID s; usersByEmail := usersByEmail s; companies := companies s;
     hierarchy := hierarchy s; ms_memberships := ms_memberships s; ms_roles := ms_roles s;
     refreshTokens := ts; ssoConfigs := cfgs; defaultSettings := defaultSettings s;
     ms_rbacRoles := ms_rbacRoles s; ms_rbacPermissions := ms_rbacPermissions s;
     ms_rolePermissions := ms_rolePermissions s; ms_rbacMemberships := ms_rbacMemberships s;
     auditLogs := logs; ms_webhooks := ms_webhooks s; ms_deliveries := ms_deliveries s |}.
Definition set_refreshTokens (ts : gmap string RefreshTokenRecord) (s : memoryState) : memoryState :=
  set_tokens ts (ssoConfigs s) (auditLogs s) s.
Definition set_ssoConfigs (cfgs : gmap string SSOConfig) (s : memoryState) : memoryState :=
  set_tokens (refreshTokens s) cfgs (auditLogs s) s.
Definition set_auditLogs (logs : list auditLogEntry) (s : memoryState) : memoryState :=
  set_tokens (refreshTokens s) (ssoConfigs s) logs s.

(** What the RBAC and webhook stores see of the state, and their writes. *)
Definition rbac_membership (m : Membership) : auth_Membership :=
  {| am_CompanyID := mb_CompanyID m; am_RoleID := mb_RoleID m |}.
Definition rbac_role (r : Role) : auth_Role :=
  {| ar_ID := ro_ID r; ar_Name := ro_Name r; ar_RoleLevel := ro_RoleLevel r |}.
Definition rbac_view (s : memoryState) : Rbac.Backend :=
  {| rbacRoles := ms_rbacRoles s; rbacPermissions := ms_rbacPermissions s;
     rolePermissions := ms_rolePermissions s; rbacMemberships := ms_rbacMemberships s;
     memberships := map rbac_membership <$> ms_memberships s;
     roles := rbac_role <$> ms_roles s |}.
Definition set_rbac (b : Rbac.Backend) (s : memoryState) : memoryState :=
  {| usersByID := usersByID s; usersByEmail := usersByEmail s; companies := companies s;
     hierarchy := hierarchy s; ms_memberships := ms_memberships s; ms_roles := ms_roles s;
     refreshTokens := refreshTokens s; ssoConfigs := ssoConfigs s; defaultSettings := defaultSettings s;
     ms_rbacRoles := rbacRoles b; ms_rbacPermissions := rbacPermissions b;
     ms_rolePermissions := rolePermissions b; ms_rbacMemberships := rbacMemberships b;
     auditLogs := auditLogs s; ms_webhooks := ms_webhooks s; ms_deliveries := ms_deliveries s |}.
Definition webhook_view (s : memoryState) : Webhook.Backend :=
  {| webhooks := ms_webhooks s; deliveries := ms_deliveries s |}.

(** [append(json.RawMessage(nil), r...)]: an empty text becomes nil. *)
Definition clone_raw (r : RawMessage) : RawMessage := if raw_empty r then None else r.

Definition with_settings (r : RawMessage) (c : Company) : Company :=
  {| co_ID := co_ID c; co_Name := co_Name c; co_Slug := co_Slug c;
     co_ParentCompanyID := co_ParentCompanyID c; co_CompanyType := co_CompanyType c;
     co_InheritedRoleCap := co_InheritedRoleCap c; co_InheritedAccessLvl := co_InheritedAccessLvl c;
     co_Settings := r; co_IsActive := co_IsActive c; co_CreatedAt := co_CreatedAt c;
     co_UpdatedAt := co_UpdatedAt c |}.

Definition clone (s : memoryState) : memoryState :=
  {| usersByID := usersByID s; usersByEmail := usersByEmail s;
     companies := (λ c, with_settings (clone_raw (co_Settings c)) c) <$> companies s;
     hierarchy := hierarchy s; ms_memberships := ms_memberships s; ms_roles := ms_roles s;
     refreshTokens := refreshTokens s; ssoConfigs := ssoConfigs s;
     defaultSettings := clone_raw (defaultSettings s); ms_rbacRoles := ms_rbacRoles s;
     ms_rbacPermissions := ms_rbacPermissions s; ms_rolePermissions := ms_rolePermissions s;
     ms_rbacMemberships := ms_rbacMemberships s; auditLogs := auditLogs s;
     ms_webhooks := ms_webhooks s; ms_deliveries := ms_deliveries s |}.

(** platform/rbac's identifiers of the system roles. *)
Definition authRoles : gmap uuid Role := list_to_map [
  (OwnerRoleID, {| ro_ID := OwnerRoleID; ro_Name := "owner"; ro_Description := ""; ro_RoleLevel := 90 |});
  (AdminRoleID, {| ro_ID := AdminRoleID; ro_Name := "admin"; ro_Description := ""; ro_RoleLevel := 80 |});
  (MemberRoleID, {| ro_ID := MemberRoleID; ro_Name := "member"; ro_Description := ""; ro_RoleLevel := 40 |});
  (ViewerRoleID, {| ro_ID := ViewerRoleID; ro_Name := "viewer"; ro_Description := ""; ro_RoleLevel := 20 |})].

Definition default_features : string :=
  "{" +:+ quoted "enabled_features" +:+ ":[" +:+ quoted "home" +:+ "," +:+ quoted "projects" +:+ ","
  +:+ quoted "activity" +:+ "," +:+ quoted "settings" +:+ "]}".

Definition NewMemoryBackend : memoryState :=
  {| usersByID := ∅; usersByEmail := ∅; companies := ∅; hierarchy := []; ms_memberships := ∅;
     ms_roles := authRoles; refreshTokens := ∅; ssoConfigs := ∅;
     defaultSettings := Some default_features; ms_rbacRoles := ∅; ms_rbacPermissions := ∅;
     ms_rolePermissions := ∅; ms_rbacMemberships := ∅; auditLogs := []; ms_webhooks := ∅;
     ms_deliveries := ∅ |}.

(** ** The closure table *)

Definition by_generations (x y : CompanyHierarchy) : bool :=
  bool_decide (h_Generations x < h_Generations y)%Z.

Definition getAncestors (s : memoryState) (companyID : uuid) : list CompanyHierarchy :=
  sort_slice by_generations (filter (λ entry, h_DescendantID entry = companyID) (hierarchy s)).

(** Adds a row unless it is there. *)
Definition insert_row (hs : list CompanyHierarchy) (entry : CompanyHierarchy) : list CompanyHierarchy :=
  if any (λ existing, bool_decide (existing = entry)) hs then hs else hs ++ [entry].
Definition insertHierarchy (entry : CompanyHierarchy) (s : memoryState) : memoryState :=
  set_companies (companies s) (insert_row (hierarchy s) entry) s.

(** ** CompanyStore *)

Definition dev_ListCompaniesForUser (s : memoryState) (userID : uuid) : list Company :=
  sort_slice (λ x y, bool_decide (String.ltb (co_Name x) (co_Name y) = true))
    (omap (λ membership, companies s !! mb_CompanyID membership)
       (default [] (ms_memberships s !! userID))).

(** The record [CreateCompany] stores for the one it is given. *)
Definition created_company (e : Env) (s : memoryState) (c : Company) : Company :=
  {| co_ID := if bool_decide (co_ID c = uuid_Nil) then new_id e 1 else co_ID c;
     co_Name := co_Name c; co_Slug := co_Slug c; co_ParentCompanyID := co_ParentCompanyID c;
     co_CompanyType := if bool_decide (co_CompanyType c = "") then CompanyTypeStandalone
                       else co_CompanyType c;
     co_InheritedRoleCap := co_InheritedRoleCap c; co_InheritedAccessLvl := co_InheritedAccessLvl c;
     co_Settings := match co_Settings c with
                    | None => clone_raw (defaultSettings s)
                    | Some _ => co_Settings c
                    end;
     co_IsActive := true;
     co_CreatedAt := if IsZero (co_CreatedAt c) then now e else co_CreatedAt c;
     co_UpdatedAt := now e |}.

(** The row of a new company below an ancestor of its parent. *)
Definition child_row (child : uuid) (ancestor : CompanyHierarchy) : CompanyHierarchy :=
  {| h_AncestorID := h_AncestorID ancestor; h_DescendantID := child;
     h_Generations := wrap64 (h_Generations ancestor + 1) |}.
Definition self_row (id : uuid) : CompanyHierarchy :=
  {| h_AncestorID := id; h_DescendantID := id; h_Generations := 0 |}.

Definition dev_CreateCompany (e : Env) (c : Company) : prog memoryState cerr Company := λ s,
  let c := created_company e s c in
  let s := set_companies (<[co_ID c := c]> (companies s)) (hierarchy s) s in
  let s := insertHierarchy (self_row (co_ID c)) s in
  let s := match co_ParentCompanyID c with
           | None => s
           | Some p =>
               foldl (λ s ancestor, insertHierarchy (child_row (co_ID c) ancestor) s) s
                 (getAncestors s p)
           end in
  (Ok c, s).

Definition dev_GetCompany (s : memoryState) (id : uuid) : outcome cerr Company :=
  match companies s !! id with
  | None => Err (Errorf "company not found")
  | Some c => Ok c
  end.

Definition updated_company (e : Env) (c current : Company) : Company :=
  {| co_ID := co_ID current;
     co_Name := if bool_decide (co_Name c = "") then co_Name current else co_Name c;
     co_Slug := if bool_decide (co_Slug c = "") then co_Slug current else co_Slug c;
     co_ParentCompanyID := co_ParentCompanyID current;
     co_CompanyType := if bool_decide (co_CompanyType c = "") then co_CompanyType current
                       else co_CompanyType c;
     co_InheritedRoleCap := co_InheritedRoleCap c; co_InheritedAccessLvl := co_InheritedAccessLvl c;
     co_Settings := match co_Settings c with None => co_Settings current | Some r => Some r end;
     co_IsActive := co_IsActive current; co_CreatedAt := co_CreatedAt current;
     co_UpdatedAt := now e |}.

Definition dev_UpdateCompany (e : Env) (c : Company) : prog memoryState cerr Company := λ s,
  match companies s !! co_ID c with
  | None => (Err (Errorf "company not found"), s)
  | Some current =>
      let current := updated_company e c current in
      (Ok current, set_companies (<[co_ID c := current]> (companies s)) (hierarchy s) s)
  end.

Definition dev_ListCompanies (e : Env) (s : memoryState) : outcome cerr (list Company) :=
  Ok (sort_slice (λ x y, bool_decide (String.ltb (co_Name x) (co_Name y) = true))
        (range_values (R := order e) (companies s))).

Definition dev_InsertHierarchyEntries (entries : list CompanyHierarchy) : prog memoryState cerr unit :=
  modify (λ s, foldl (λ s entry, insertHierarchy entry s) s entries).

Definition dev_GetAncestors (s : memoryState) (companyID : uuid) : outcome cerr (list CompanyHierarchy) :=
  Ok (getAncestors s companyID).

Definition dev_GetDescendants (s : memoryState) (companyID : uuid) :
    outcome cerr (list CompanyHierarchy) :=
  Ok (sort_slice by_generations (filter (λ entry, h_AncestorID entry = companyID) (hierarchy s))).

Definition dev_GetSelfAndDescendantIDs (s : memoryState) (companyID : uuid) : outcome cerr (list uuid) :=
  match dev_GetDescendants s companyID with
  | Err err => Err err
  | Ok descendants => Ok (h_DescendantID <$> descendants)
  end.

Definition dev_DeleteHierarchyEntries (descendantID : uuid) : prog memoryState cerr unit :=
  modify (λ s, set_companies (companies s)
    (filter (λ entry, h_DescendantID entry ≠ descendantID) (hierarchy s)) s).

#[export] Instance dev_CompanyStore : CompanyStore memoryState := {|
  cs_CreateCompany := dev_CreateCompany;
  cs_GetCompany := dev_GetCompany;
  cs_UpdateCompany := dev_UpdateCompany;
  cs_ListCompanies := dev_ListCompanies;
  cs_InsertHierarchyEntries := dev_InsertHierarchyEntries;
  cs_GetAncestors := dev_GetAncestors;
  cs_GetDescendants := dev_GetDescendants;
  cs_GetSelfAndDescendantIDs := dev_GetSelfAndDescendantIDs;
  cs_DeleteHierarchyEntries := dev_DeleteHierarchyEntries;
|}.

(** ** AuthStore *)

Abbreviation dev A := (prog memoryState aerr A) (only parsing).

Section auth_store.
Context {U : UuidText} {C : UnicodeCase}.

Definition dev_GetUserByEmail (email : string) : dev User := λ s,
  match usersByEmail s !! normalized email with
  | None => (Err (Errorf "user not found"), s)
  | Some id =>
      (* the zero user when the identifier has no row *)
      (Ok (default {| u_ID := uuid_Nil; u_Email := ""; u_PasswordHash := ""; u_DisplayName := "";
                      u_AvatarURL := ""; u_IsActive := false; u_CreatedAt := 0%Z |}
             (usersByID s !! id)), s)
  end.

Definition dev_GetUserByID (id : uuid) : dev User := λ s,
  match usersByID s !! id with
  | None => (Err (Errorf "user not found"), s)
  | Some user => (Ok user, s)
  end.

Definition dev_CreateUser (e : Env) (n : nat) (email passwordHash displayName : string) : dev User :=
  λ s,
  let normalized := normalized email in
  match usersByEmail s !! normalized with
  | Some _ => (Err (Errorf "duplicate key"), s)
  | None =>
      let user := {| u_ID := new_id e n; u_Email := normalized; u_PasswordHash := passwordHash;
                     u_DisplayName := TrimSpace displayName; u_AvatarURL := ""; u_IsActive := true;
                     u_CreatedAt := now e |} in
      (Ok user, set_users (<[u_ID user := user]> (usersByID s))
                  (<[normalized := u_ID user]> (usersByEmail s)) s)
  end.

Definition dev_UpdateUser (id : uuid) (displayName avatarURL : string) : dev User := λ s,
  match usersByID s !! id with
  | None => (Err (Errorf "user not found"), s)
  | Some user =>
      let user := {| u_ID := u_ID user; u_Email := u_Email user; u_PasswordHash := u_PasswordHash user;
                     u_DisplayName := displayName; u_AvatarURL := avatarURL;
                     u_IsActive := u_IsActive user; u_CreatedAt := u_CreatedAt user |} in
      (Ok user, set_users (<[id := user]> (usersByID s)) (usersByEmail s) s)
  end.

Definition dev_auth_CreateCompany (e : Env) (n : nat) (name slug companyType : string) : dev uuid := λ s,
  let ct := if bool_decide (companyType = "") then CompanyTypeStandalone else companyType in
  let id := new_id e n in
  let c := {| co_ID := id; co_Name := name; co_Slug := slug; co_ParentCompanyID := None;
              co_CompanyType := ct; co_InheritedRoleCap := None; co_InheritedAccessLvl := None;
              co_Settings := clone_raw (defaultSettings s); co_IsActive := true;
              co_CreatedAt := now e; co_UpdatedAt := now e |} in
  (Ok id, insertHierarchy (self_row id) (set_companies (<[id := c]> (companies s)) (hierarchy s) s)).

Definition dev_CreateCompanyMembership (companyID userID roleID : uuid) : dev unit := λ s,
  match ms_roles s !! roleID with
  | None => (Err (Errorf "role not found"), s)
  | Some role =>
      let current := default [] (ms_memberships s !! userID) in
      if any (λ membership, bool_decide (mb_CompanyID membership = companyID)) current then (Ok tt, s)
      else
        (Ok tt, set_memberships
          (<[userID := current ++ [{| mb_CompanyID := companyID; mb_UserID := userID;
                                      mb_RoleID := roleID; mb_RoleName := ro_Name role |}]]>
             (ms_memberships s)) s)
  end.

Definition dev_GetCompanyMembershipByUser (userID : uuid) : dev Membership := λ s,
  match default [] (ms_memberships s !! userID) with
  | [] => (Err (Errorf "membership not found"), s)
  | membership :: _ => (Ok membership, s)
  end.

Definition dev_GetRoleByID (roleID : uuid) : dev Role := λ s,
  match ms_roles s !! roleID with
  | None => (Err (Errorf "role not found"), s)
  | Some role => (Ok role, s)
  end.

Definition dev_GetUserRole (companyID userID : uuid) : dev Role := λ s,
  match head (filter (λ m, mb_CompanyID m = companyID) (default [] (ms_memberships s !! userID))) with
  | None => (Err (Errorf "role not found"), s)
  | Some membership =>
      match ms_roles s !! mb_RoleID membership with
      | None => (Err (Errorf "role not found"), s)
      | Some role => (Ok role, s)
      end
  end.

Definition dev_CreateRefreshToken (userID : uuid) (tokenHash : string) (expiresAt : time) : dev unit :=
  modify (λ s, set_refreshTokens
    (<[tokenHash := {| rt_UserID := userID; rt_TokenHash := tokenHash; rt_ExpiresAt := expiresAt |}]>
       (refreshTokens s)) s).

Definition dev_GetRefreshToken (e : Env) (tokenHash : string) : dev RefreshTokenRecord := λ s,
  match refreshTokens s !! tokenHash with
  | None => (Err (Errorf "refresh token not found"), s)
  | Some record =>
      if After (now e) (rt_ExpiresAt record) then (Err (Errorf "refresh token not found"), s)
      else (Ok record, s)
  end.

Definition dev_RevokeRefreshToken (tokenHash : string) : dev unit :=
  modify (λ s, set_refreshTokens (delete tokenHash (refreshTokens s)) s).

Definition sso_key (companyID : uuid) (provider : string) : string :=
  uuid_String companyID +:+ ":" +:+ provider.
(** [len(key) > 36 && key[:36] == companyID.String()]. *)
Definition sso_key_of (companyID : uuid) (key : string) : bool :=
  bool_decide (36 < String.length key)%nat
  && bool_decide (String.substring 0 36 key = uuid_String companyID).

Definition dev_GetSSOConfig (companyID : uuid) (provider : string) : dev SSOConfig := λ s,
  match ssoConfigs s !! sso_key companyID provider with
  | None => (Err (Errorf "sso config not found"), s)
  | Some cfg => (Ok cfg, s)
  end.

Definition dev_ListSSOConfigs (e : Env) (companyID : uuid) : dev (list SSOConfig) :=
  gets (λ s, (filter (λ kv, sso_key_of companyID kv.1 = true)
                (range (MapRange := order e) (ssoConfigs s))).*2).

Definition dev_UpsertSSOConfig (cfg : SSOConfig) : dev unit :=
  modify (λ s, set_ssoConfigs
    (<[sso_key (sso_CompanyID cfg) (sso_Provider cfg) := cfg]> (ssoConfigs s)) s).

Definition dev_DeleteSSOConfig (companyID : uuid) (provider : string) : dev unit :=
  modify (λ s, set_ssoConfigs (delete (sso_key companyID provider) (ssoConfigs s)) s).

Definition dev_HasEnforcedSSO (e : Env) (companyID : uuid) : dev bool :=
  gets (λ s, any (λ '(key, cfg), sso_key_of companyID key && sso_EnforceSSO cfg && sso_IsActive cfg)
               (range (MapRange := order e) (ssoConfigs s))).

(** A configuration that admits the issuer and the domain. *)
Definition jit_match (issuer emailDomain : string) (cfg : SSOConfig) : Prop :=
  sso_IssuerURL cfg = issuer ∧ sso_IsActive cfg = true ∧ sso_JITEnabled cfg = true ∧
  emailDomain ∈ sso_EmailDomainAllowlist cfg.
#[export] Instance jit_match_dec issuer emailDomain cfg : Decision (jit_match issuer emailDomain cfg).
Proof. unfold jit_match. apply _. Defined.

Definition dev_ResolveJITCompanyByIssuerDomain (e : Env) (issuer emailDomain : string) :
    dev (uuid * string) := λ s,
  match filter (jit_match issuer emailDomain) (range_values (R := order e) (ssoConfigs s)) with
  | [] => (Err (Sentinel ErrNoJITMatch), s)
  | [cfg] => (Ok (sso_CompanyID cfg, sso_JITDefaultRole cfg), s)
  | _ => (Err (Sentinel ErrAmbiguousJITMatch), s)
  end.

#[export] Instance dev_AuthStore : AuthStore memoryState := {|
  as_GetUserByEmail := dev_GetUserByEmail;
  as_GetUserByID := dev_GetUserByID;
  as_CreateUser := dev_CreateUser;
  as_UpdateUser := dev_UpdateUser;
  as_CreateCompany := dev_auth_CreateCompany;
  as_CreateCompanyMembership := dev_CreateCompanyMembership;
  as_GetCompanyMembershipByUser := dev_GetCompanyMembershipByUser;
  as_GetRoleByID := dev_GetRoleByID;
  as_GetUserRole := dev_GetUserRole;
  as_CreateRefreshToken := dev_CreateRefreshToken;
  as_GetRefreshToken := dev_GetRefreshToken;
  as_RevokeRefreshToken := dev_RevokeRefreshToken;
  as_GetSSOConfig := dev_GetSSOConfig;
  as_ListSSOConfigs := dev_ListSSOConfigs;
  as_UpsertSSOConfig := dev_UpsertSSOConfig;
  as_DeleteSSOConfig := dev_DeleteSSOConfig;
  as_HasEnforcedSSO := dev_HasEnforcedSSO;
  as_ResolveJITCompanyByIssuerDomain := dev_ResolveJITCompanyByIssuerDomain;
  (* the auth store of the backend keeps no provider tokens and records nothing *)
  as_UpsertOAuthCredential := λ _, mret tt;
  as_GetOAuthCredential := λ _ _, throw (Errorf "oauth credential not found");
  as_CreateAuditLog := λ _ _ _ _ _ _ _, mret tt;
|}.

(** A transaction works on a clone; a commit replaces the state. *)
Definition dev_BeginTx : dev memoryState := gets clone.
Definition dev_Commit (tx : memoryState) : dev unit := modify (λ _, tx).

#[export] Instance dev_TxAuthStore : TxAuthStore memoryState memoryState := {|
  tx_base := dev_AuthStore;
  tx_ops := dev_AuthStore;
  BeginTx := dev_BeginTx;
  Commit := dev_Commit;
|}.
End auth_store.

(** ** audit_store.go *)

Definition dev_CreateAuditLog (e : Env) (companyID actorID : uuid)
    (action resource resourceID ipAddress details : string) : dev unit :=
  modify (λ s, set_auditLogs (auditLogs s ++ [
    {| al_ID := new_id e 0; al_CompanyID := companyID; al_ActorID := actorID; al_Action := action;
       al_Resource := resource; al_ResourceID := resourceID; al_Details := details;
       al_IPAddress := ipAddress; al_CreatedAt := now e |}]) s).

Definition matches_opt {A} `{EqDecision A} (filter : option A) (x : A) : bool :=
  match filter with None => true | Some y => bool_decide (x = y) end.

(** The page of matching entries, latest first, and their total number.  A
    negative offset panics in Go; the handler passes none. *)
Definition QueryAuditLogs (s : memoryState) (companyID : uuid) (limit offset : Z)
    (actorID : option uuid) (action resource : option string) : list auditLogEntry * nat :=
  let filtered := filter (λ entry,
    bool_decide (al_CompanyID entry = companyID) && matches_opt actorID (al_ActorID entry)
    && matches_opt action (al_Action entry) && matches_opt resource (al_Resource entry) = true)
    (auditLogs s) in
  let filtered := sort_slice (λ x y, After (al_CreatedAt x) (al_CreatedAt y)) filtered in
  let total := length filtered in
  if bool_decide (Z.of_nat total ≤ offset)%Z then ([], total)
  else
    let filtered := drop_Z offset filtered in
    (if bool_decide (0 < limit)%Z && bool_decide (limit < Z.of_nat (length filtered))%Z
     then take_Z limit filtered else filtered, total).

(** ** Seeds *)

Definition SeedRBACRole (role : Rbac.Role) (s : memoryState) : memoryState :=
  set_rbac (set_rbacRoles (<[r_ID role := role]> (ms_rbacRoles s)) (rbac_view s)) s.
Definition SeedRBACPermission (perm : Permission) (s : memoryState) : memoryState :=
  let b := rbac_view s in
  set_rbac {| rbacRoles := rbacRoles b; rbacPermissions := <[p_ID perm := perm]> (rbacPermissions b);
              rolePermissions := rolePermissions b; rbacMemberships := rbacMemberships b;
              memberships := memberships b; roles := roles b |} s.
Definition SetRBACMembershipOverrides (key : string) (overrides : RawMessage) (s : memoryState) :
    memoryState :=
  match ms_rbacMemberships s !! key with
  | None => s
  | Some m =>
      set_rbac (set_rbacMemberships
        (<[key := {| m_ID := m_ID m; m_CompanyID := m_CompanyID m; m_UserID := m_UserID m;
                     m_RoleID := m_RoleID m; m_RoleName := m_RoleName m;
                     m_RoleLevel := m_RoleLevel m; m_PermissionOverrides := overrides |}]>
           (ms_rbacMemberships s)) (rbac_view s)) s
  end.
Definition SetSSOConfig {U : UuidText} (companyID : uuid) (provider : string) (cfg : SSOConfig)
    (s : memoryState) : memoryState :=
  set_ssoConfigs (<[sso_key companyID provider := cfg]> (ssoConfigs s)) s.
