(* ===== verification/CompanyProofs.v ===== *)
(** * The closure table of the company hierarchy

    Over the development backend the rows of the closure table are exactly the
    pairs of a company and one of its ancestors, with their distance; hence
    [GetAncestors] lists the chain of parents nearest first, [IsDescendantOf]
    decides it, and [GetEffectiveSettings] takes each key from the nearest
    company that defines it. *)

From S2P Require Import Prelude Encoding Company Auth Devstore.

(** [above cs d g a]: [a] is [g] generations above [d] along known parents. *)
Inductive above (cs : gmap uuid Company) : uuid → Z → uuid → Prop :=
  | above_self d c : cs !! d = Some c → above cs d 0 d
  | above_parent d c p g a :
      cs !! d = Some c → co_ParentCompanyID c = Some p → above cs p g a → above cs d (g + 1) a.

Definition row (a d : uuid) (g : Z) : CompanyHierarchy :=
  {| h_AncestorID := a; h_DescendantID := d; h_Generations := g |}.

Record closure (s : memoryState) : Prop := {
  closure_rows a d g : row a d g ∈ hierarchy s ↔ above (companies s) d g a;
  closure_NoDup : NoDup (hierarchy s);
  closure_bound r : r ∈ hierarchy s → (0 ≤ h_Generations r < Z.of_nat (size (companies s)))%Z;
  closure_keys id c : companies s !! id = Some c → co_ID c = id;
}.

(** No company has the identifier, nor names it as its parent. *)
Definition fresh_company (id : uuid) (s : memoryState) : Prop :=
  companies s !! id = None ∧ ∀ d c, companies s !! d = Some c → co_ParentCompanyID c ≠ Some id.

Lemma row_eta r : row (h_AncestorID r) (h_DescendantID r) (h_Generations r) = r.
Proof. by destruct r. Qed.

Lemma above_dom cs d g a : above cs d g a → is_Some (cs !! d) ∧ is_Some (cs !! a).
Proof. induction 1; naive_solver. Qed.

Lemma above_nonneg cs d g a : above cs d g a → (0 ≤ g)%Z.
Proof. induction 1; lia. Qed.

(** The distance determines the ancestor. *)
Lemma above_functional cs d g a b : above cs d g a → above cs d g b → a = b.
Proof.
  intros Ha. revert b. induction Ha as [d c Hd|d c p g a Hd Hp Ha IH]; intros b Hb.
  - inversion Hb; subst; [done|].
    match goal with H : above _ _ ?g _, E : (?g + 1)%Z = 0%Z |- _ => apply above_nonneg in H; lia end.
  - inversion Hb; subst.
    + apply above_nonneg in Ha. lia.
    + apply IH. match goal with H : above _ ?q ?g' _, E : (?g' + 1)%Z = (g + 1)%Z |- _ =>
        assert (g' = g) as -> by lia; assert (q = p) as -> by congruence; exact H end.
Qed.

(** Every shorter distance is taken too. *)
Lemma above_closed cs d g a k : above cs d g a → (0 ≤ k ≤ g)%Z → ∃ b, above cs d k b.
Proof.
  intros Ha. revert k. induction Ha as [d c Hd|d c p g a Hd Hp Ha IH]; intros k Hk.
  - assert (k = 0%Z) as -> by lia. exists d. by econstructor.
  - destruct (decide (k = 0%Z)) as [->|Hne]; [exists d; by econstructor|].
    destruct (IH (k - 1)%Z) as [b Hb]; [lia|]. exists b.
    replace k with ((k - 1) + 1)%Z by lia. by econstructor.
Qed.

(** Companies whose parents agree have the same ancestors. *)
Lemma above_same_parents cs cs' d g a :
  (∀ id c, cs !! id = Some c → ∃ c', cs' !! id = Some c' ∧ co_ParentCompanyID c' = co_ParentCompanyID c) →
  above cs d g a → above cs' d g a.
Proof.
  intros Hsame. induction 1 as [d c Hd|d c p g a Hd Hp Ha IH];
    destruct (Hsame _ _ Hd) as (c' & Hc' & Heq); econstructor; eauto. congruence.
Qed.

(** A new company at the bottom of the hierarchy. *)
Lemma above_insert cs id c d g a :
  cs !! id = None → (∀ d c, cs !! d = Some c → co_ParentCompanyID c ≠ Some id) →
  co_ParentCompanyID c ≠ Some id →
  above (<[id := c]> cs) d g a ↔
  above cs d g a ∨ (d = id ∧ g = 0%Z ∧ a = id) ∨
  (d = id ∧ ∃ p g', co_ParentCompanyID c = Some p ∧ g = (g' + 1)%Z ∧ above cs p g' a).
Proof.
  intros Hid Hpar Hself.
  assert (∀ d g a, above (<[id := c]> cs) d g a → d ≠ id → above cs d g a) as Hold.
  { clear d g a. induction 1 as [d c' Hd|d c' p g a Hd Hp Ha IH]; intros Hne;
      rewrite lookup_insert_ne in Hd by done; [by econstructor|].
    econstructor; [exact Hd|exact Hp|]. apply IH. intros ->. by eapply Hpar. }
  split.
  - intros Ha. destruct (decide (d = id)) as [->|Hne]; [|left; eauto]. right.
    inversion Ha as [? c' Hd|? c' p g' ? Hd Hp Hab]; subst; [by left|]. right.
    rewrite lookup_insert_eq in Hd. simplify_eq. split; [done|]. exists p, g'. split_and!; [done..|].
    apply Hold; [done|]. congruence.
  - assert (∀ d g a, above cs d g a → above (<[id := c]> cs) d g a) as Hnew.
    { clear d g a. induction 1 as [d c' Hd|d c' p g a Hd Hp Ha IH];
        assert (d ≠ id) by congruence; [eapply above_self|eapply above_parent; eauto];
        by rewrite lookup_insert_ne. }
    intros [Ha|[(-> & -> & ->)|(-> & p & g' & Hp & -> & Ha)]]; [by apply Hnew| |].
    + eapply above_self, lookup_insert_eq.
    + eapply above_parent; [apply lookup_insert_eq|done|by apply Hnew].
Qed.

(** ** Rows *)

Lemma elem_of_insert_row hs e r : r ∈ insert_row hs e ↔ r ∈ hs ∨ r = e.
Proof.
  unfold insert_row. destruct (any _ hs) eqn:Hany; [|set_solver].
  apply any_true in Hany as (x & Hx & Heq%bool_decide_eq_true). naive_solver.
Qed.

Lemma insert_row_present hs e : e ∈ hs → insert_row hs e = hs.
Proof.
  intros He. unfold insert_row. destruct (any _ hs) eqn:Hany; [done|].
  rewrite any_false in Hany. specialize (Hany e He). by apply bool_decide_eq_false in Hany.
Qed.

Lemma insert_row_NoDup hs e : NoDup hs → NoDup (insert_row hs e).
Proof.
  intros Hnd. unfold insert_row. destruct (any _ hs) eqn:Hany; [done|].
  rewrite any_false in Hany. apply NoDup_app. split_and!; [done| |apply NoDup_singleton].
  intros x Hx ->%list_elem_of_singleton. specialize (Hany _ Hx). by apply bool_decide_eq_false in Hany.
Qed.

Lemma elem_of_insert_rows l hs r : r ∈ foldl insert_row hs l ↔ r ∈ hs ∨ r ∈ l.
Proof.
  revert hs. induction l as [|e l IH]; intros hs; cbn; [set_solver|].
  rewrite IH, elem_of_insert_row, elem_of_cons. naive_solver.
Qed.

Lemma insert_rows_present l hs : (∀ r, r ∈ l → r ∈ hs) → foldl insert_row hs l = hs.
Proof.
  induction l as [|e l IH]; intros Hin; cbn; [done|].
  rewrite insert_row_present by set_solver. apply IH. set_solver.
Qed.

Lemma insert_rows_NoDup l hs : NoDup hs → NoDup (foldl insert_row hs l).
Proof. revert hs. induction l; cbn; eauto using insert_row_NoDup. Qed.

Lemma foldl_insertHierarchy l s :
  foldl (λ s entry, insertHierarchy entry s) s l =
  set_companies (companies s) (foldl insert_row (hierarchy s) l) s.
Proof.
  revert s. induction l as [|e l IH]; intros s; [by destruct s|]. cbn. rewrite IH. by destruct s.
Qed.

Lemma elem_of_getAncestors s id r : r ∈ getAncestors s id ↔ r ∈ hierarchy s ∧ h_DescendantID r = id.
Proof. unfold getAncestors. rewrite elem_of_sort_slice, list_elem_of_filter. naive_solver. Qed.

(** ** The operations keep the table exact *)

(** What the state is after [dev_CreateCompany] with a new identifier. *)
Lemma dev_CreateCompany_eq e c s c' s' :
  fresh_company (co_ID c) s → co_ID c ≠ 0%N → co_ParentCompanyID c ≠ Some (co_ID c) →
  dev_CreateCompany e c s = (Ok c', s') →
  c' = created_company e s c ∧ co_ID c' = co_ID c ∧ co_ParentCompanyID c' = co_ParentCompanyID c ∧
  companies s' = <[co_ID c := c']> (companies s) ∧
  hierarchy s' = foldl insert_row (hierarchy s) (self_row (co_ID c) ::
    match co_ParentCompanyID c with
    | None => []
    | Some p => child_row (co_ID c) <$> getAncestors s p
    end).
Proof.
  intros Hf Hnil Hself. unfold dev_CreateCompany.
  assert (co_ID (created_company e s c) = co_ID c) as Hid
    by (cbn; by rewrite bool_decide_false).
  rewrite Hid. cbn [co_ParentCompanyID created_company]. intros Heq.
  destruct (co_ParentCompanyID c) as [p|] eqn:Hp.
  - assert (∀ l st, foldl (λ s ancestor, insertHierarchy (child_row (co_ID c) ancestor) s) st l =
      foldl (λ s entry, insertHierarchy entry s) st (child_row (co_ID c) <$> l)) as Hmap.
    { intros l. induction l as [|a l IH]; intros st; cbn; [done|]. apply IH. }
    rewrite Hmap, foldl_insertHierarchy in Heq. simplify_eq. split_and!; [done..|]. cbn. f_equal.
    f_equal. unfold getAncestors. f_equal. cbn. unfold insert_row.
    destruct (any _ _); [done|]. rewrite filter_app, filter_cons_False, app_nil_r; [done|].
    cbn. congruence.
  - simplify_eq. by split_and!.
Qed.

Lemma dev_CreateCompany_Ok e c s : ∃ c' s', dev_CreateCompany e c s = (Ok c', s').
Proof. unfold dev_CreateCompany. eauto. Qed.

Lemma dev_CreateCompany_closure e c s c' s' :
  closure s → fresh_company (co_ID c) s → co_ID c ≠ 0%N → co_ParentCompanyID c ≠ Some (co_ID c) →
  (Z.of_nat (size (companies s)) < 2 ^ 62)%Z →
  dev_CreateCompany e c s = (Ok c', s') → closure s'.
Proof.
  intros Hcl Hf Hnil Hself Hsize Heq.
  destruct (dev_CreateCompany_eq _ _ _ _ _ Hf Hnil Hself Heq) as (_ & Hid & Hp & Hcs & Hhs).
  destruct Hf as [Hnone Hpar].
  assert (∀ r, r ∈ hierarchy s' ↔ r ∈ hierarchy s ∨ r = self_row (co_ID c) ∨
    ∃ p a, co_ParentCompanyID c = Some p ∧ a ∈ hierarchy s ∧ h_DescendantID a = p ∧
      r = child_row (co_ID c) a) as Hin.
  { intros r. rewrite Hhs, elem_of_insert_rows, elem_of_cons.
    destruct (co_ParentCompanyID c) as [p|].
    - rewrite list_elem_of_fmap. setoid_rewrite elem_of_getAncestors. naive_solver.
    - rewrite elem_of_nil. naive_solver. }
  assert (∀ r, r ∈ hierarchy s → wrap64 (h_Generations r + 1) = h_Generations r + 1)%Z as Hw.
  { intros r Hr%(closure_bound s Hcl). apply wrap64_small. lia. }
  split.
  - intros a d g. rewrite Hin, Hcs, above_insert by (done || congruence). rewrite closure_rows by done.
    split.
    + intros [?|[Hr|(p & x & Hpc & Hx & Hdx & Hr)]]; [by left|right; left|right; right].
      * unfold row, self_row in Hr. by simplify_eq.
      * unfold row, child_row in Hr. rewrite Hw in Hr by done. injection Hr as -> -> ->.
        split; [done|]. exists p, (h_Generations x). split_and!; [congruence|done|].
        apply closure_rows; [done|]. by rewrite <-Hdx, row_eta.
    + intros [?|[(-> & -> & ->)|(-> & q & g' & Hq & -> & Ha)]]; [by left|right; by left|right; right].
      rewrite Hp in Hq. apply closure_rows in Ha; [|done].
      exists q, (row a q g'). split_and!; [done..|]. unfold child_row. by rewrite Hw.
  - rewrite Hhs. apply insert_rows_NoDup, Hcl.
  - intros r. rewrite Hin, Hcs, map_size_insert_None by done.
    intros [Hr|[->|(p & a & _ & Ha & _ & ->)]].
    + apply (closure_bound s Hcl) in Hr. lia.
    + cbn. lia.
    + cbn. rewrite Hw by done. apply (closure_bound s Hcl) in Ha. lia.
  - intros id x. rewrite Hcs, lookup_insert_Some.
    intros [[<- <-]|[_ Hx]]; [done|by apply (closure_keys s Hcl)].
Qed.

(** After the store's own rows, those of the service are there already. *)
Lemma CreateCompany_state `{UC : UnicodeCase} fmt e name slug ct parent settings s :
  fresh_company (new_id e 0) s → new_id e 0 ≠ 0%N → parent ≠ Some (new_id e 0) →
  (CreateCompany fmt e name slug ct parent settings s).2 = s ∨
  ∃ c c', co_ID c = new_id e 0 ∧ co_ParentCompanyID c = parent ∧
    dev_CreateCompany e c s = (Ok c', (CreateCompany fmt e name slug ct parent settings s).2).
Proof.
  intros Hf Hnil Hself. unfold CreateCompany. destruct (bool_decide _); [by left|]. right.
  match goal with |- context [cs_CreateCompany e ?c] => set (c0 := c) end.
  destruct (dev_CreateCompany_Ok e c0 s) as (c' & s' & Heq). exists c0, c'. split_and!; [done..|].
  rewrite Heq. f_equal.
  destruct (dev_CreateCompany_eq e c0 s c' s') as (_ & Hid & Hp & Hcs & Hhs); [done..|].
  cbv [mbind prog_bind wrapping]. cbn [cs_CreateCompany dev_CompanyStore]. rewrite Heq.
  assert (∀ l, (∀ r, r ∈ l → r ∈ hierarchy s') →
    foldl (λ s entry, insertHierarchy entry s) s' l = s') as Hstay.
  { intros l Hl. rewrite foldl_insertHierarchy, insert_rows_present by done. by destruct s'. }
  assert (self_row (co_ID c') ∈ hierarchy s') as Hrow.
  { rewrite Hhs, elem_of_insert_rows. right. rewrite Hid. apply elem_of_cons. by left. }
  change (co_ParentCompanyID c0) with parent in *.
  destruct parent as [p|]; cbn.
  - symmetry. apply (Hstay (self_row (co_ID c') :: (child_row (co_ID c') <$> getAncestors s' p))).
    intros r [->|(a & -> & Ha)%list_elem_of_fmap]%elem_of_cons; [done|].
    rewrite Hhs, elem_of_insert_rows, elem_of_cons. right; right. apply list_elem_of_fmap.
    rewrite Hid. exists a. split; [done|]. apply elem_of_getAncestors.
    apply elem_of_getAncestors in Ha as [Ha Hd]. split; [|done].
    rewrite Hhs, elem_of_insert_rows, elem_of_cons in Ha. destruct Ha as [Ha|[->|Ha]]; [done|..].
    + cbn in Hd. congruence.
    + apply list_elem_of_fmap in Ha as (b & -> & _). cbn in Hd. congruence.
  - symmetry. apply (Hstay [self_row (co_ID c')]). intros r ->%list_elem_of_singleton. done.
Qed.

Lemma closure_same_rows s s' :
  closure s → hierarchy s' = hierarchy s →
  (∀ id c, companies s' !! id = Some c → co_ID c = id) → size (companies s') = size (companies s) →
  (∀ id c, companies s !! id = Some c →
     ∃ c', companies s' !! id = Some c' ∧ co_ParentCompanyID c' = co_ParentCompanyID c) →
  (∀ id c, companies s' !! id = Some c →
     ∃ c', companies s !! id = Some c' ∧ co_ParentCompanyID c' = co_ParentCompanyID c) →
  closure s'.
Proof.
  intros Hcl Hh Hk Hs H1 H2. split; rewrite ?Hh, ?Hs; [|apply Hcl|apply Hcl|done].
  intros a d g. rewrite closure_rows by done. split; eauto using above_same_parents.
Qed.

Lemma UpdateCompany_closure e c s : closure s → closure (dev_UpdateCompany e c s).2.
Proof.
  intros Hcl. unfold dev_UpdateCompany. destruct (companies s !! co_ID c) as [cur|] eqn:Hc; [|done].
  pose proof (closure_keys s Hcl _ _ Hc) as Hid. cbn. apply (closure_same_rows s); try done; cbn.
  - intros id x [[<- <-]|[_ Hx]]%lookup_insert_Some; [done|by apply (closure_keys s Hcl)].
  - rewrite map_size_insert_Some; eauto.
  - intros id x Hx. destruct (decide (id = co_ID c)) as [->|].
    + rewrite lookup_insert_eq. eexists. split; [done|]. cbn. congruence.
    + rewrite lookup_insert_ne by done. eauto.
  - intros id x [[<- <-]|[_ Hx]]%lookup_insert_Some; eauto.
Qed.

Lemma auth_CreateCompany_closure e n name slug ct s :
  closure s → fresh_company (new_id e n) s → closure (dev_auth_CreateCompany e n name slug ct s).2.
Proof.
  intros Hcl [Hnone Hpar]. split; cbn.
  - intros a d g. rewrite elem_of_insert_row, above_insert by done. rewrite closure_rows by done.
    unfold row, self_row. split; [intros [?|?]; simplify_eq; auto|].
    intros [?|[(-> & -> & ->)|(_ & ? & ? & ? & _)]]; [by left|by right|done].
  - apply insert_row_NoDup, Hcl.
  - intros r. rewrite elem_of_insert_row, map_size_insert_None by done. intros [Hr| ->]; [|cbn; lia].
    apply (closure_bound s Hcl) in Hr. lia.
  - intros id c [[<- <-]|[_ Hx]]%lookup_insert_Some; [done|by apply (closure_keys s Hcl)].
Qed.

(** What changes the companies of the backend: the service's two calls and the
    company of a sign-up.  [uuid.New] makes identifiers nobody knows yet. *)
Section reachable.
Context {UC : UnicodeCase} (fmt : time → string).

Inductive company_step : relation memoryState :=
  | step_create e name slug ct parent settings s :
      fresh_company (new_id e 0) s → new_id e 0 ≠ 0%N → parent ≠ Some (new_id e 0) →
      (Z.of_nat (size (companies s)) < 2 ^ 62)%Z →
      company_step s (CreateCompany fmt e name slug ct parent settings s).2
  | step_update e c s : company_step s (UpdateCompany fmt e c s).2
  | step_signup e n name slug ct s :
      fresh_company (new_id e n) s →
      company_step s (dev_auth_CreateCompany e n name slug ct s).2.

Lemma company_step_closure s s' : company_step s s' → closure s → closure s'.
Proof.
  intros Hstep Hcl. destruct Hstep as [e name slug ct parent settings s Hf Hnil Hself Hsize|e c s|].
  - destruct (CreateCompany_state fmt e name slug ct parent settings s Hf Hnil Hself)
      as [->|(c & c' & Hid & Hp & Heq)]; [done|].
    eapply dev_CreateCompany_closure; [exact Hcl|..]; rewrite ?Hid, ?Hp; eauto.
  - unfold UpdateCompany. destruct (bool_decide _); [done|]. by apply UpdateCompany_closure.
  - by apply auth_CreateCompany_closure.
Qed.

Lemma closure_init : closure NewMemoryBackend.
Proof.
  split; cbn; [|apply NoDup_nil_2|by intros ? ?%not_elem_of_nil|by intros ?? ?%lookup_empty_Some].
  intros a d g. rewrite elem_of_nil. split; [done|]. intros [[? H1] _]%above_dom. by rewrite lookup_empty in H1.
Qed.

Lemma reachable_closure s : rtc company_step NewMemoryBackend s → closure s.
Proof. intros Hr. eapply rtc_preserves; [apply company_step_closure|done|apply closure_init]. Qed.

(** C18: whatever companies are created, below whichever parents, updated or
    signed up, the closure table holds exactly the rows (ancestor, descendant,
    generations) for which the ancestor is that many known parents above. *)
Theorem closure_table_exact s a d g :
  rtc company_step NewMemoryBackend s → row a d g ∈ hierarchy s ↔ above (companies s) d g a.
Proof. intros Hr. apply closure_rows. by apply reachable_closure. Qed.
End reachable.

(** ** Reading the table *)

(** Sorted rows of one company stand at their distance. *)
Lemma sorted_positions (l : list CompanyHierarchy) :
  StronglySorted (may_precede by_generations) l → NoDup (h_Generations <$> l) →
  (∀ r, r ∈ l → (0 ≤ h_Generations r)%Z) →
  (∀ r k, r ∈ l → (0 ≤ k ≤ h_Generations r)%Z → ∃ r', r' ∈ l ∧ h_Generations r' = k) →
  ∀ i r, l !! i = Some r → h_Generations r = Z.of_nat i.
Proof.
  intros Hs Hnd Hpos Hdown i r Hi.
  assert (∀ i j x y, l !! i = Some x → l !! j = Some y → (i < j)%nat →
    (h_Generations x < h_Generations y)%Z) as Hlt.
  { clear i r Hi. intros i j x y Hx Hy Hij.
    assert (h_Generations x ≤ h_Generations y)%Z as Hle.
    { pose proof (StronglySorted_lookup _ _ _ _ _ _ Hs Hx Hy Hij) as Hp.
      unfold may_precede, by_generations in Hp. apply bool_decide_eq_false in Hp. lia. }
    assert (h_Generations x ≠ h_Generations y); [|lia]. intros Heq.
    assert (i = j); [|lia]. eapply (NoDup_lookup _ _ _ (h_Generations x) Hnd);
      rewrite list_lookup_fmap, ?Hx, ?Hy; cbn; congruence. }
  assert (∀ i r, l !! i = Some r → (Z.of_nat i ≤ h_Generations r)%Z) as Hge.
  { clear i r Hi. induction i as [|i IH]; intros r Hi.
    - apply Hpos. by eapply list_elem_of_lookup_2.
    - destruct (lookup_lt_is_Some_2 l i) as [x Hx]; [apply lookup_lt_Some in Hi; lia|].
      specialize (IH x Hx). specialize (Hlt i (S i) x r Hx Hi). lia. }
  revert r Hi. induction (lt_wf i) as [i _ IH]. intros r Hi.
  pose proof (Hge i r Hi) as Hlow. destruct (decide (h_Generations r = Z.of_nat i)) as [|Hne]; [done|].
  exfalso. destruct (Hdown r (Z.of_nat i)) as (r' & Hin & Hg); [by eapply list_elem_of_lookup_2|lia|].
  apply list_elem_of_lookup in Hin as [j Hj].
  destruct (lt_eq_lt_dec i j) as [[Hij| ->]|Hij].
  - specialize (Hlt i j r r' Hi Hj Hij). lia.
  - simplify_eq.
  - specialize (IH j Hij r' Hj). lia.
Qed.

Lemma by_generations_StrictWeak : StrictWeak by_generations.
Proof. split; unfold by_generations; intros *; rewrite ?bool_decide_eq_true, ?bool_decide_eq_false; lia. Qed.

(** The rows of a company, nearest first. *)
Lemma getAncestors_lookup s id i r :
  closure s →
  getAncestors s id !! i = Some r ↔ above (companies s) id (Z.of_nat i) (h_AncestorID r) ∧
    r = row (h_AncestorID r) id (Z.of_nat i).
Proof.
  intros Hcl.
  assert (∀ r, r ∈ getAncestors s id ↔ above (companies s) id (h_Generations r) (h_AncestorID r) ∧
    h_DescendantID r = id) as Hin.
  { clear r. intros r. rewrite elem_of_getAncestors, <-closure_rows by done.
    split; intros [Hr <-]; (split; [|done]); by rewrite row_eta in *. }
  pose proof (sort_slice_sorted by_generations (StrictWeak0 := by_generations_StrictWeak)
    (filter (λ entry, h_DescendantID entry = id) (hierarchy s))) as Hsort.
  assert (NoDup (h_Generations <$> getAncestors s id)) as Hnd.
  { apply NoDup_fmap_2_strong.
    - intros x y [Hx Hdx]%Hin [Hy Hdy]%Hin Hg. rewrite Hg in Hx.
      pose proof (above_functional _ _ _ _ _ Hx Hy) as Ha. destruct x, y. cbn in *. congruence.
    - unfold getAncestors. rewrite sort_slice_perm. apply NoDup_filter, Hcl. }
  assert (∀ i r, getAncestors s id !! i = Some r → h_Generations r = Z.of_nat i) as Hpos.
  { apply sorted_positions; [exact Hsort|exact Hnd| |].
    - intros x [Hx _]%Hin. by eapply above_nonneg.
    - intros x k [Hx Hd]%Hin Hk. destruct (above_closed _ _ _ _ k Hx Hk) as [b Hb].
      exists (row b id k). split; [by apply Hin|done]. }
  split.
  - intros Hi. pose proof (Hpos _ _ Hi) as Hg. apply list_elem_of_lookup_2, Hin in Hi as [Ha Hd].
    rewrite Hg in Ha. split; [done|]. destruct r. cbn in *. by subst.
  - intros [Ha Hr]. assert (r ∈ getAncestors s id) as [j Hj]%list_elem_of_lookup.
    { apply Hin. by rewrite Hr. }
    pose proof (Hpos _ _ Hj) as Hg. rewrite Hr in Hg. cbn in Hg.
    by assert (i = j) as -> by lia.
Qed.

Lemma omap_lookup_total {A B} (f : A → option B) (l : list A) (i : nat) :
  (∀ x, x ∈ l → is_Some (f x)) → omap f l !! i = l !! i ≫= f.
Proof.
  revert i. induction l as [|x l IH]; intros i Hl; [done|]. cbn.
  destruct (Hl x) as [y Hy]; [set_solver|]. rewrite Hy.
  destruct i as [|i]; cbn; [done|]. apply IH. set_solver.
Qed.

Lemma above_trans cs d g a h b : above cs d g a → above cs a h b → above cs d (g + h) b.
Proof.
  induction 1 as [d c Hd|d c p g a Hd Hp Ha IH]; intros Hb; [done|].
  replace (g + 1 + h)%Z with ((g + h) + 1)%Z by lia. econstructor; eauto.
Qed.

(** No company is above itself. *)
Lemma above_acyclic s d g : closure s → above (companies s) d g d → g = 0%Z.
Proof.
  intros Hcl Ha. destruct (decide (g = 0%Z)) as [|Hne]; [done|]. exfalso.
  pose proof (above_nonneg _ _ _ _ Ha) as Hg.
  assert (∀ n : nat, above (companies s) d (Z.of_nat n * g) d) as Hn.
  { induction n as [|n IH]; [|replace (Z.of_nat (S n) * g)%Z with (Z.of_nat n * g + g)%Z by lia;
      by eapply above_trans].
    destruct (above_dom _ _ _ _ Ha) as [[c Hc] _]. by eapply above_self. }
  specialize (Hn (size (companies s))). rewrite <-closure_rows in Hn by done.
  apply (closure_bound s Hcl) in Hn. cbn in Hn. nia.
Qed.

Section reading.
Context {UC : UnicodeCase} (fmt : time → string).

(** For a known company, [GetAncestors] returns its chain of parents: its
    element [i] is the company [i + 1] generations above, nothing is missing and
    nothing else is there. *)
Theorem GetAncestors_exact s d :
  rtc (company_step fmt) NewMemoryBackend s →
  ∃ l, GetAncestors s d = Ok l ∧
    ∀ i c, l !! i = Some c ↔
      above (companies s) d (Z.of_nat i + 1) (co_ID c) ∧ companies s !! co_ID c = Some c.
Proof.
  intros Hr%reachable_closure. unfold GetAncestors. cbn [cs_GetAncestors dev_CompanyStore dev_GetAncestors].
  eexists. split; [done|]. intros i c.
  pose proof (λ i r, getAncestors_lookup s d i r Hr) as Hrows.
  destruct (getAncestors s d) as [|r0 rows] eqn:HR.
  { cbn. split; [done|]. intros [Ha Hc]. specialize (Hrows (S i) (row (co_ID c) d (Z.of_nat i + 1))).
    replace (Z.of_nat (S i)) with (Z.of_nat i + 1)%Z in Hrows by lia. apply proj2 in Hrows. by specialize (Hrows (conj Ha eq_refl)). }
  assert (h_AncestorID r0 = d) as H0.
  { destruct (Hrows 0%nat r0) as [[Ha _] _]; [done|].
    inversion Ha; subst; [done|].
    match goal with H : above _ _ ?g _, E : (?g + 1)%Z = _ |- _ => apply above_nonneg in H; lia end. }
  cbn [omap list_omap]. rewrite H0, bool_decide_true by done.
  assert (∀ j r, rows !! j = Some r ↔ above (companies s) d (Z.of_nat j + 1) (h_AncestorID r) ∧
    r = row (h_AncestorID r) d (Z.of_nat j + 1)) as Hrest.
  { intros j r. specialize (Hrows (S j) r). cbn [lookup list_lookup] in Hrows.
    replace (Z.of_nat (S j)) with (Z.of_nat j + 1)%Z in Hrows by lia. done. }
  assert (∀ r, r ∈ rows → ∃ cc, companies s !! h_AncestorID r = Some cc ∧ h_AncestorID r ≠ d) as Hfound.
  { intros r [j Hj]%list_elem_of_lookup. apply Hrest in Hj as [Ha _].
    destruct (above_dom _ _ _ _ Ha) as [_ [cc Hcc]]. exists cc. split; [done|].
    intros Heq. rewrite Heq in Ha. apply above_acyclic in Ha; [lia|done]. }
  rewrite omap_lookup_total.
  2: { intros r Hin. destruct (Hfound r Hin) as (cc & Hcc & Hne). rewrite bool_decide_false by done.
       unfold cs_GetCompany, dev_CompanyStore, dev_GetCompany. rewrite Hcc. eauto. }
  unfold cs_GetCompany, dev_CompanyStore, dev_GetCompany. split.
  - intros (r & Hj & Hc)%bind_Some. destruct (Hfound r) as (cc & Hcc & Hne);
      [by eapply list_elem_of_lookup_2|]. rewrite bool_decide_false, Hcc in Hc by done. simplify_eq.
    apply Hrest in Hj as [Ha _]. pose proof (closure_keys s Hr _ _ Hcc) as Hk. by rewrite Hk.
  - intros [Ha Hc]. apply bind_Some. exists (row (co_ID c) d (Z.of_nat i + 1)).
    split; [by apply Hrest|]. cbn. rewrite bool_decide_false, Hc; [done|].
    intros Heq. rewrite Heq in Ha. apply above_acyclic in Ha; [lia|done].
Qed.

(** [IsDescendantOf] answers whether the company is the other one or below
    it, at any distance. *)
Theorem IsDescendantOf_exact s d a :
  rtc (company_step fmt) NewMemoryBackend s →
  ∃ b, IsDescendantOf s d a = Ok b ∧ (b = true ↔ ∃ g, above (companies s) d g a).
Proof.
  intros Hr%reachable_closure. unfold IsDescendantOf. eexists. split; [done|].
  rewrite any_true. setoid_rewrite bool_decide_eq_true. setoid_rewrite list_elem_of_fmap.
  setoid_rewrite elem_of_sort_slice. setoid_rewrite list_elem_of_filter. split.
  - intros (x & (r & -> & Ha & Hr') & <-). exists (h_Generations r). apply closure_rows; [done|].
    by rewrite <-Ha, row_eta.
  - intros [g Hg]. exists d. split; [|done]. exists (row a d g). by rewrite closure_rows.
Qed.
End reading.

(** ** Effective settings *)

Section settings.
Context {UC : UnicodeCase} (fmt : time → string).
Context {Json : Type} (Unmarshal : string → option (option (gmap string Json)))
  (Marshal : option (gmap string Json) → outcome cerr string).

(** The keys a company defines: none when its settings are absent, no object, or
    null. *)
Definition defined (c : Company) : gmap string Json :=
  match co_Settings c ≫= Unmarshal with Some (Some m) => m | _ => ∅ end.

(** The first of several maps that has the key. *)
Definition nearest (ms : list (gmap string Json)) (k : string) : option Json :=
  head (omap (λ m : gmap string Json, m !! k) ms).

Lemma fill_keys (l : list (string * Json)) m :
  NoDup l.*1 → foldl fill_key (Returns (Some m)) l = Returns (Some (m ∪ list_to_map l)).
Proof.
  revert m. induction l as [|[k v] l IH]; intros m Hnd; cbn.
  { by rewrite (right_id_L ∅ (∪)). }
  apply NoDup_cons in Hnd as [Hk Hnd]. rewrite IH by done. do 2 f_equal. apply map_eq. intros j.
  rewrite !lookup_union. destruct (decide (j = k)) as [->|Hne].
  - rewrite lookup_insert_eq, (not_elem_of_list_to_map_1 _ _ Hk).
    destruct (m !! k) eqn:Hm; rewrite ?Hm, ?lookup_insert_eq; done.
  - rewrite (lookup_insert_ne (list_to_map l)) by done. f_equal.
    destruct (m !! k); [done|]. by rewrite lookup_insert_ne.
Qed.

Lemma fill_ancestor_union e m c :
  fill_ancestor Unmarshal e (Returns (Some m)) c = Returns (Some (m ∪ defined c)).
Proof.
  unfold fill_ancestor, defined. destruct (co_Settings c ≫= Unmarshal) as [[a|]|];
    [|by rewrite (right_id_L ∅ (∪))..].
  rewrite fill_keys by apply range_NoDup_fst. do 3 f_equal. rewrite <-(list_to_map_to_list a) at 2.
  apply list_to_map_proper; [apply range_NoDup_fst|]. apply range_perm.
Qed.

Lemma fill_ancestors e m l :
  foldl (fill_ancestor Unmarshal e) (Returns (Some m)) l =
  Returns (Some (foldl (λ m c, m ∪ defined c) m l)).
Proof. revert m. induction l as [|c l IH]; intros m; cbn; [done|]. by rewrite fill_ancestor_union, IH. Qed.

Lemma lookup_unions m l k :
  foldl (λ m c, m ∪ defined c) m l !! k = nearest (m :: (defined <$> l)) k.
Proof.
  unfold nearest. revert m. induction l as [|c l IH]; intros m; cbn; [by destruct (m !! k)|].
  rewrite IH. cbn. rewrite lookup_union. destruct (m !! k), (defined c !! k); done.
Qed.

Lemma fill_keys_panics (l : list (string * Json)) : foldl fill_key Panics l = Panics.
Proof. by induction l. Qed.

(** From the nil map: a panic as soon as an ancestor has a key. *)
Lemma fill_ancestors_nil e l :
  foldl (fill_ancestor Unmarshal e) (Returns None) l =
  if any (λ c, negb (bool_decide (defined c = ∅))) l then Panics else Returns None.
Proof.
  assert (∀ l, foldl (fill_ancestor Unmarshal e) Panics l = Panics) as Hp.
  { clear l. intros l. induction l as [|c l IH]; cbn; [done|]. unfold fill_ancestor at 2.
    by destruct (co_Settings c ≫= Unmarshal) as [[a|]|]; rewrite ?fill_keys_panics. }
  induction l as [|c l IH]; cbn; [done|].
  assert (fill_ancestor Unmarshal e (Returns None) c =
    if decide (defined c = ∅) then Returns None else Panics) as ->.
  { unfold fill_ancestor, defined. destruct (co_Settings c ≫= Unmarshal) as [[a|]|];
      [|by rewrite decide_True..].
    pose proof (range_perm (MapRange := order e) a) as Hperm. case_decide as Ha.
    - subst a. rewrite map_to_list_empty in Hperm. apply Permutation_nil_r in Hperm. by rewrite Hperm.
    - destruct (range (MapRange := order e) a) as [|kv rest].
      + symmetry in Hperm. apply Permutation_nil_r, map_to_list_empty_iff in Hperm. done.
      + apply fill_keys_panics. }
  case_decide as Hc; [rewrite IH, bool_decide_true by done|rewrite Hp, bool_decide_false by done]; done.
Qed.

(** What the settings of a company are before its ancestors fill them in. *)
Definition own_settings (c : Company) : option (option (gmap string Json)) :=
  match co_Settings c with None => Some (Some ∅) | Some settings => Unmarshal settings end.

(** The effective settings of a company give each key the value of the
    nearest company, itself first, whose settings define it. *)
Theorem GetEffectiveSettings_nearest e s d c own l :
  rtc (company_step fmt) NewMemoryBackend s →
  companies s !! d = Some c → own_settings c = Some (Some own) → GetAncestors s d = Ok l →
  ∃ m, (∀ k, m !! k = nearest (own :: (defined <$> l)) k) ∧
    GetEffectiveSettings Unmarshal Marshal e s d =
      Returns (match Marshal (Some m) with
               | Err err => Err (Wrapf "marshal merged settings" err)
               | Ok result => Ok result
               end).
Proof.
  intros _ Hc Hown Hl. exists (foldl (λ m c, m ∪ defined c) own l).
  split; [intros k; apply lookup_unions|]. unfold GetEffectiveSettings.
  change (cs_GetCompany s d) with (dev_GetCompany s d). unfold dev_GetCompany. rewrite Hc. fold (own_settings c).
  rewrite Hown, Hl, fill_ancestors. by destruct (Marshal _).
Qed.

(** Settings that are the document null decode to the nil map, into which
    the loop over the ancestors writes: the call panics exactly when some
    ancestor defines a key. *)
Theorem null_settings_panic e s d c l :
  companies s !! d = Some c → own_settings c = Some None → GetAncestors s d = Ok l →
  GetEffectiveSettings Unmarshal Marshal e s d = Panics ↔ ∃ a, a ∈ l ∧ defined a ≠ ∅.
Proof.
  intros Hc Hown Hl. unfold GetEffectiveSettings.
  change (cs_GetCompany s d) with (dev_GetCompany s d). unfold dev_GetCompany. rewrite Hc. fold (own_settings c).
  rewrite Hown, Hl, fill_ancestors_nil. destruct (any _ l) eqn:Hany.
  - apply any_true in Hany as (a & Ha & Hne%negb_true_iff%bool_decide_eq_false). split; [eauto|done].
  - rewrite any_false in Hany. split; [by destruct (Marshal _)|].
    intros (a & Ha & Hne). specialize (Hany a Ha). by apply negb_false_iff, bool_decide_eq_true in Hany.
Qed.
End settings.

(** ** An example: a root and a company below it *)

Definition env_of (id : uuid) : Env := {| now := 5%Z; new_id := λ _, id; order := canonical_range |}.
Definition stamp (t : time) : string := "000000".
Definition root_state : memoryState :=
  (CreateCompany (C := ascii_case) stamp (env_of 7) "Root" "root" CompanyTypeHolding None
     (Some "[a]") NewMemoryBackend).2.
Definition child_state (settings : string) : memoryState :=
  (CreateCompany (C := ascii_case) stamp (env_of 8) "Child" "child" "" (Some 7%N)
     (Some settings) root_state).2.

Lemma example_reachable settings :
  rtc (company_step (UC := ascii_case) stamp) NewMemoryBackend (child_state settings).
Proof.
  apply (rtc_l _ _ root_state); [|apply rtc_once].
  - apply (step_create (UC := ascii_case) stamp (env_of 7)); [split; [done|intros d c Hc; cbn in Hc; by rewrite lookup_empty in Hc]|done|done|by vm_compute].
  - apply (step_create (UC := ascii_case) stamp (env_of 8)); [split|done|done|by vm_compute].
    + by vm_compute.
    + assert (map_Forall (λ _ c, co_ParentCompanyID c ≠ Some 8%N) (companies root_state)) as Hm
        by (apply (bool_decide_unpack _); by vm_compute).
      intros d c Hc. exact (Hm d c Hc).
Qed.

Lemma closure_table_exact_witness :
  row 7 8 1 ∈ hierarchy (child_state "{}") ↔ above (companies (child_state "{}")) 8 1 7.
Proof. apply (closure_table_exact (UC := ascii_case) stamp), example_reachable. Defined.

Lemma GetAncestors_exact_witness :
  ∃ l, GetAncestors (child_state "{}") 8 = Ok l ∧
    ∀ i c, l !! i = Some c ↔
      above (companies (child_state "{}")) 8 (Z.of_nat i + 1) (co_ID c) ∧
      companies (child_state "{}") !! co_ID c = Some c.
Proof. apply (GetAncestors_exact (UC := ascii_case) stamp), example_reachable. Defined.

Lemma IsDescendantOf_exact_witness :
  ∃ b, IsDescendantOf (child_state "{}") 8 7 = Ok b ∧
    (b = true ↔ ∃ g, above (companies (child_state "{}")) 8 g 7).
Proof. apply (IsDescendantOf_exact (UC := ascii_case) stamp), example_reachable. Defined.

(** Documents of the example: null, and a letter for the object with that key. *)
Definition toy_unmarshal (s : string) : option (option (gmap string nat)) :=
  if decide (s = "null") then Some None
  else if decide (s = "[a]") then Some (Some {["a" := 1]})
  else if decide (s = "[b]") then Some (Some {["b" := 2]}) else None.
Definition toy_marshal (m : option (gmap string nat)) : outcome cerr string :=
  Ok (match m with None => "null" | Some m => pretty (size m) end).

Definition the_company (s : memoryState) (id : uuid) : Company :=
  default (created_company (env_of 0) s
    {| co_ID := 0; co_Name := ""; co_Slug := ""; co_ParentCompanyID := None; co_CompanyType := "";
       co_InheritedRoleCap := None; co_InheritedAccessLvl := None; co_Settings := None;
       co_IsActive := false; co_CreatedAt := 0%Z; co_UpdatedAt := 0%Z |}) (companies s !! id).

Lemma GetEffectiveSettings_nearest_witness :
  ∃ m, (∀ k, m !! k = nearest ({["b" := 2]} :: (defined toy_unmarshal <$>
      [the_company (child_state "[b]") 7])) k) ∧
    GetEffectiveSettings toy_unmarshal toy_marshal (env_of 0) (child_state "[b]") 8 =
      Returns (match toy_marshal (Some m) with
               | Err err => Err (Wrapf "marshal merged settings" err)
               | Ok result => Ok result
               end).
Proof.
  apply (GetEffectiveSettings_nearest (UC := ascii_case) stamp toy_unmarshal toy_marshal (env_of 0)
    (child_state "[b]") 8 (the_company (child_state "[b]") 8));
    [apply example_reachable|by vm_compute..].
Defined.

Lemma null_settings_panic_witness :
  GetEffectiveSettings toy_unmarshal toy_marshal (env_of 0) (child_state "null") 8 = Panics ↔
  ∃ a, a ∈ [the_company (child_state "null") 7] ∧ defined toy_unmarshal a ≠ ∅.
Proof.
  apply (null_settings_panic toy_unmarshal toy_marshal (env_of 0) (child_state "null") 8
    (the_company (child_state "null") 8)); by vm_compute.
Defined.
