(* ===== verification/AuthProofs.v ===== *)
(** * Authentication: what the theorems show

    Tokens come back as the claims they were signed with while they live, and a
    refresh token opens no handler; over the development backend a sign-up makes
    an owner who can log in, refresh tokens rotate, the user index agrees with
    the users, and the company of a verified e-mail domain is resolved only when
    it is unambiguous.  Two histories in which interleaved requests break what
    sequential ones keep. *)

From S2P Require Import Prelude Encoding Password Rbac Company Auth Devstore.

(** What golang-jwt promises of the texts it signs. *)
Class JWTLaws (J : JWTLib) : Prop := {
  unsigned_signed kid sk c : unsigned (SignedString kid sk c) = Some ("ML-DSA-65", kid, c);
  verified_signed kid sk c : verified (SignedString kid sk c) (public sk) = true;
  unsigned_HS256 key r : unsigned (SignedStringHS256 key r) = Some ("HS256", "", registered_only r);
  verified_HS256 key r : verifiedHS256 (SignedStringHS256 key r) key = true;
}.

(** A library of that kind: a text lists what it signs, and its key. *)
Section toy_jwt.
(** The fields one after the other, each as a number. *)
Definition fields_of (alg kid : string) (c : Claims) (key : string) : list positive :=
  let r := Registered c in
  [countable.encode alg; countable.encode kid; countable.encode key; countable.encode (Subject r);
   countable.encode (Issuer r); countable.encode (Audience r); countable.encode (ExpiresAt r);
   countable.encode (IssuedAt r); countable.encode (NotBefore r); countable.encode (JTI r);
   countable.encode (c_UserID c); countable.encode (c_CompanyID c); countable.encode (c_CompanyIDs c);
   countable.encode (c_Role c); countable.encode (c_RoleLevel c); countable.encode (c_Scopes c);
   countable.encode (c_HouseholdID c); countable.encode (c_ChildID c); countable.encode (c_ChildMode c);
   countable.encode (c_Entitlements c)].
Definition of_fields (l : list positive) : option (string * string * Claims * string) :=
  match l with
  | [alg; kid; key; sub; iss; aud; exp; iat; nbf; jt; uid; cid; cids; role; level; scopes; hid; child;
     mode; ents] =>
      alg ← countable.decode alg; kid ← countable.decode kid; key ← countable.decode key;
      sub ← countable.decode sub; iss ← countable.decode iss; aud ← countable.decode aud;
      exp ← countable.decode exp; iat ← countable.decode iat; nbf ← countable.decode nbf;
      jt ← countable.decode jt; uid ← countable.decode uid; cid ← countable.decode cid;
      cids ← countable.decode cids; role ← countable.decode role; level ← countable.decode level;
      scopes ← countable.decode scopes; hid ← countable.decode hid; child ← countable.decode child;
      mode ← countable.decode mode; ents ← countable.decode ents;
      Some (alg, kid,
            {| Registered := {| Subject := sub; Issuer := iss; Audience := aud; ExpiresAt := exp;
                                IssuedAt := iat; NotBefore := nbf; JTI := jt |};
               c_UserID := uid; c_CompanyID := cid; c_CompanyIDs := cids; c_Role := role;
               c_RoleLevel := level; c_Scopes := scopes; c_HouseholdID := hid; c_ChildID := child;
               c_ChildMode := mode; c_Entitlements := ents |}, key)
  | _ => None
  end.
Definition toy_text (alg kid : string) (c : Claims) (key : string) : string :=
  bits_of (countable.encode (fields_of alg kid c key)).
Definition toy_read (s : string) : option (string * string * Claims * string) :=
  l ← bits_parse s; fs ← countable.decode l; of_fields fs.
Definition toy_jwt : JWTLib := {|
  PrivateKey := string; PublicKey := string; public := λ k, k; hmac_key := λ k, k;
  SignedString := λ kid sk c, toy_text "ML-DSA-65" kid c sk;
  SignedStringHS256 := λ key r, toy_text "HS256" "" (registered_only r) key;
  unsigned := λ s, fst <$> toy_read s;
  verified := λ s pk, bool_decide (snd <$> toy_read s = Some pk);
  verifiedHS256 := λ s key, bool_decide (snd <$> toy_read s = Some key) |}.
Arguments toy_text : simpl never.
Arguments toy_read : simpl never.
Lemma toy_read_text alg kid c key : toy_read (toy_text alg kid c key) = Some (alg, kid, c, key).
Proof.
  unfold toy_read, toy_text. rewrite bits_parse_of. cbn [mbind option_bind].
  rewrite countable.decode_encode. cbn [mbind option_bind of_fields fields_of].
  repeat (rewrite countable.decode_encode; cbn [mbind option_bind]). by destruct c as [[] ? ? ? ? ? ? ? ? ? ?].
Qed.
Lemma toy_jwt_laws : JWTLaws toy_jwt.
Proof. split; intros; cbn; rewrite toy_read_text; cbn; rewrite ?bool_decide_true; done. Qed.
End toy_jwt.

(** ** Tokens *)

Section tokens.
Context {J : JWTLib} {L : JWTLaws J}.

(** Managers always have their active key: [NewJWTManager] sees to it. *)
Definition has_key (m : @JWTManager J) : Prop := is_Some (keys m !! activeKID m) ∧ activeKID m ≠ "".

Lemma NewJWTManager_has_key e load fresh cfg m : NewJWTManager e load fresh cfg = Ok m → has_key m.
Proof.
  unfold NewJWTManager, has_key. intros Hm.
  assert (∀ sk, is_Some (({["ephemeral" := sk]} : gmap string PrivateKey) !! "ephemeral")) as He
    by (intros sk; rewrite lookup_singleton_eq; eauto).
  assert (∀ sk, is_Some (({["default" := sk]} : gmap string PrivateKey) !! "default")) as Hd
    by (intros sk; rewrite lookup_singleton_eq; eauto).
  repeat case_match; simplify_eq/=; split; auto;
    try by rewrite bool_decide_eq_false in *.
  all: eauto.
Qed.

Lemma ParseWithClaims_signed e m c tok :
  has_key m → sign_claims m c = Ok tok →
  ParseWithClaims e m tok = if not_expired (now e) (Registered c) then Some c else None.
Proof.
  intros [[sk Hsk] Hne] Htok. unfold sign_claims in Htok. rewrite Hsk in Htok. simplify_eq.
  unfold ParseWithClaims, keyfunc. rewrite unsigned_signed, bool_decide_false, bool_decide_false by auto.
  cbn. rewrite Hsk. cbn. by rewrite verified_signed.
Qed.

(** The life of a token: up to the second its expiry falls into. *)
Lemma not_expired_registered e t m jti subject expiry :
  not_expired t (registered e m jti subject expiry) =
  bool_decide (t < NumericDate (now e + expiry))%Z.
Proof. unfold not_expired, registered. cbn. by rewrite andb_true_r. Qed.

(** An access token validates to the claims it was created for until the
    second in which its expiry falls, and never from that second on. *)
Theorem access_token_roundtrip e e' m jti uid cid role level cids scopes :
  has_key m →
  ∃ tok, CreateAccessTokenWithScopes e m jti uid cid role level cids scopes = Ok tok ∧
    (∀ c, ValidateAccessToken e' m tok = Ok c ↔
      (now e' < NumericDate (now e + AccessTokenExpiry (config m)))%Z ∧
      c = {| Registered := registered e m jti uid (AccessTokenExpiry (config m)); c_UserID := uid;
             c_CompanyID := cid; c_CompanyIDs := cids; c_Role := role; c_RoleLevel := level;
             c_Scopes := scopes; c_HouseholdID := ""; c_ChildID := ""; c_ChildMode := false;
             c_Entitlements := [] |}).
Proof.
  intros Hk. unfold CreateAccessTokenWithScopes. pose proof Hk as [[sk Hsk] _].
  unfold sign_claims. rewrite Hsk. eexists. split; [done|]. intros c. unfold ValidateAccessToken.
  erewrite ParseWithClaims_signed; [|done|unfold sign_claims; by rewrite Hsk].
  cbn [Registered]. rewrite not_expired_registered.
  case_bool_decide; split; [intros [= <-]|intros [_ ->]|done|intros [? _]]; done.
Qed.

(** A refresh token, or any other token that carries registered claims only,
    is a valid text of the same keys, so [ValidateAccessToken] accepts it; but
    no guard on a user, a company, a household, child mode or an entitlement
    does. *)
Theorem refresh_token_opens_nothing `{U : UuidText} e e' m jti uid tok c :
  has_key m → CreateRefreshToken e m jti uid = Ok tok →
  (now e' < NumericDate (now e + RefreshTokenExpiry (config m)))%Z →
  (ValidateAccessToken e' m tok = Ok c ↔
     c = registered_only (registered e m jti uid (RefreshTokenExpiry (config m)))) ∧
  (ValidateAccessToken e' m tok = Ok c →
   RequireUser (Some c) = Err (Sentinel ErrNoCompany) ∧
   RequireCompany (Some c) = Err (Sentinel ErrNoCompany) ∧
   RequireHousehold (Some c) = Err (Sentinel ErrNoHousehold) ∧
   RequireChildMode (Some c) = Err (Sentinel ErrNotChildMode) ∧
   ∀ ent, RequirePlan (Some c) ent = Err (Wrapf ent (Sentinel ErrMissingEntitlement))).
Proof.
  intros Hk Htok Hlive. unfold ValidateAccessToken.
  rewrite (ParseWithClaims_signed e' m _ tok Hk Htok). cbn [Registered registered_only].
  rewrite not_expired_registered, bool_decide_true by done.
  split; [split; congruence|]. by intros [= <-].
Qed.

(** A household token in child mode passes [RequireChildMode] and never
    [RequireParentMode], one in parent mode the other way round. *)
Theorem household_token_modes e e' m jti uid hid child mode tok c :
  has_key m → CreateHouseholdAccessToken e m jti uid hid child mode = Ok tok →
  ValidateAccessToken e' m tok = Ok c →
  c_ChildID c = child ∧ c_HouseholdID c = hid ∧ c_Role c = "" ∧ c_RoleLevel c = 0%Z ∧
  (is_Ok (RequireChildMode (Some c)) = mode) ∧ (is_Ok (RequireParentMode (Some c)) = negb mode).
Proof.
  intros Hk Htok. unfold ValidateAccessToken. rewrite (ParseWithClaims_signed e' m _ tok Hk Htok).
  destruct (not_expired _ _); [|done]. intros [= <-]. by destruct mode.
Qed.
End tokens.

(** ** The company of an e-mail domain *)

Lemma filter_range_values {R : MapRange} `{Countable K} {V} (P : V → Prop) `{!∀ v, Decision (P v)}
    (m : gmap K V) :
  filter P (range_values m) = (filter (λ kv, P kv.2) (range m)).*2.
Proof.
  unfold range_values. induction (range m) as [|kv l IH]; [done|].
  rewrite fmap_cons, !filter_cons. case_decide; rewrite ?fmap_cons; by rewrite IH.
Qed.

(** Just-in-time provisioning resolves an issuer and an e-mail domain to a
    company and a role exactly when one configuration admits them and no other
    one does; with none it fails with [ErrNoJITMatch], with several it fails
    with [ErrAmbiguousJITMatch], whatever the order of the map. *)
Theorem ResolveJIT_exact e issuer domain s :
  let admits k cfg := ssoConfigs s !! k = Some cfg ∧ jit_match issuer domain cfg in
  (dev_ResolveJITCompanyByIssuerDomain e issuer domain s).2 = s ∧
  match (dev_ResolveJITCompanyByIssuerDomain e issuer domain s).1 with
  | Ok (cid, role) => ∃ k cfg, admits k cfg ∧ cid = sso_CompanyID cfg ∧ role = sso_JITDefaultRole cfg ∧
      ∀ k' cfg', admits k' cfg' → k' = k
  | Err err =>
      (err = Sentinel ErrNoJITMatch ∧ ∀ k cfg, ¬ admits k cfg) ∨
      (err = Sentinel ErrAmbiguousJITMatch ∧
       ∃ k k' cfg cfg', k ≠ k' ∧ admits k cfg ∧ admits k' cfg')
  end.
Proof.
  intros admits. unfold dev_ResolveJITCompanyByIssuerDomain.
  rewrite (filter_range_values (R := order e)).
  set (l := filter _ (range (MapRange := order e) (ssoConfigs s))).
  assert (∀ k cfg, (k, cfg) ∈ l ↔ admits k cfg) as Hl.
  { intros k cfg. unfold l, admits. rewrite list_elem_of_filter.
    rewrite (elem_of_range (H := order e)). naive_solver. }
  assert (NoDup l.*1) as Hnd.
  { unfold l. eapply sublist_NoDup; [apply (range_NoDup_fst (H := order e) (ssoConfigs s))|]. apply fmap_sublist, sublist_filter. }
  clearbody l. destruct l as [|[k cfg] [|[k' cfg'] l]]; cbn; (split; [done|]).
  - left. split; [done|]. intros k cfg Ha%Hl. by apply not_elem_of_nil in Ha.
  - exists k, cfg. split_and!; [apply Hl; set_solver|done|done|].
    intros k' cfg' [=]%Hl%list_elem_of_singleton. done.
  - right. split; [done|]. exists k, k', cfg, cfg'. split_and!; [|apply Hl; set_solver..].
    cbn in Hnd. apply NoDup_cons in Hnd as [Hnd _]. set_solver.
Qed.

(** ** The state of the backend is well formed *)

(** The e-mail index names the users, each user once; a user has at most one
    membership in a company, with a role the backend knows; a refresh token is
    stored under its hash. *)
Record backend_wf (s : memoryState) : Prop := {
  wf_email em id : usersByEmail s !! em = Some id ↔
    ∃ u, usersByID s !! id = Some u ∧ u_Email u = em;
  wf_id id u : usersByID s !! id = Some u → u_ID u = id;
  wf_memberships id l : ms_memberships s !! id = Some l →
    NoDup (mb_CompanyID <$> l) ∧
    ∀ m, m ∈ l → mb_UserID m = id ∧ ∃ role, ms_roles s !! mb_RoleID m = Some role ∧
      mb_RoleName m = ro_Name role;
  wf_tokens h r : refreshTokens s !! h = Some r → rt_TokenHash r = h;
}.

Section wf.
Context {U : UuidText} {C : UnicodeCase}.

(** The writes of the store, each with what it takes. *)
Inductive auth_write : memoryState → memoryState → Prop :=
  | write_user e n email ph dn s :
      usersByID s !! new_id e n = None → auth_write s (dev_CreateUser e n email ph dn s).2
  | write_profile id dn av s : auth_write s (dev_UpdateUser id dn av s).2
  | write_company e n name slug ct s : auth_write s (dev_auth_CreateCompany e n name slug ct s).2
  | write_membership cid uid rid s : auth_write s (dev_CreateCompanyMembership cid uid rid s).2
  | write_token uid h t s : auth_write s (dev_CreateRefreshToken uid h t s).2
  | write_revoke h s : auth_write s (dev_RevokeRefreshToken h s).2
  | write_sso cfg s : auth_write s (dev_UpsertSSOConfig cfg s).2
  | write_unsso cid p s : auth_write s (dev_DeleteSSOConfig cid p s).2.

(** The backend with its open transactions. *)
Inductive backend_step : memoryState * list memoryState → memoryState * list memoryState → Prop :=
  | step_write s s' txs : auth_write s s' → backend_step (s, txs) (s', txs)
  | step_begin s txs : backend_step (s, txs) (s, txs ++ [clone s])
  | step_tx_write s i tx tx' txs :
      txs !! i = Some tx → auth_write tx tx' → backend_step (s, txs) (s, <[i := tx']> txs)
  | step_commit s i tx txs : txs !! i = Some tx → backend_step (s, txs) (tx, txs).

Lemma auth_write_wf s s' : auth_write s s' → backend_wf s → backend_wf s'.
Proof.
  intros Hw Hwf. destruct Hw as [e n email ph dn s Hf|id dn av s|e n name slug ct s|cid uid rid s|uid h t s|h s|cfg s|cid p s].
  - unfold dev_CreateUser. destruct (usersByEmail s !! normalized email) as [id|] eqn:He; [done|].
    split; cbn; try apply Hwf.
    + intros em id. destruct (decide (id = new_id e n)) as [->|Hid].
      * rewrite lookup_insert_eq. split.
        -- intros [[-> _]|[_ Hx]]%lookup_insert_Some; [eauto|].
           apply (wf_email s Hwf) in Hx as (u & Hu & _). congruence.
        -- intros (u & [= <-] & <-). cbn. by rewrite lookup_insert_eq.
      * rewrite (lookup_insert_ne (usersByID s)) by done. rewrite lookup_insert_Some, (wf_email s Hwf). split.
        -- intros [[_ <-]|[_ Hx]]; done.
        -- intros (u & Hu & Hem). right. split; [|eauto]. intros <-.
           assert (usersByEmail s !! normalized email = Some id) by (apply (wf_email s Hwf); eauto). congruence.
    + intros id u [[<- <-]|[_ Hu]]%lookup_insert_Some; [done|by apply (wf_id s Hwf)].
  - unfold dev_UpdateUser. destruct (usersByID s !! id) as [u|] eqn:Hu; [|done].
    split; cbn; try apply Hwf.
    + intros em j. rewrite (wf_email s Hwf). destruct (decide (j = id)) as [->|Hj].
      * rewrite lookup_insert_eq, Hu. split; intros (x & [= <-] & <-); eauto.
      * by rewrite lookup_insert_ne.
    + intros j x [[<- <-]|[_ Hx]]%lookup_insert_Some; [cbn|]; by apply (wf_id s Hwf).
  - split; apply Hwf.
  - unfold dev_CreateCompanyMembership. destruct (ms_roles s !! rid) as [role|] eqn:Hr; [|done].
    destruct (any _ _) eqn:Hany; [done|]. rewrite any_false in Hany. split; cbn; try apply Hwf.
    intros id l [[<- <-]|[_ Hl]]%lookup_insert_Some; [|by apply (wf_memberships s Hwf)].
    assert (NoDup (mb_CompanyID <$> default [] (ms_memberships s !! uid)) ∧
      ∀ m, m ∈ default [] (ms_memberships s !! uid) → mb_UserID m = uid ∧
        ∃ role, ms_roles s !! mb_RoleID m = Some role ∧ mb_RoleName m = ro_Name role) as [Hnd Hall].
    { destruct (ms_memberships s !! uid) as [l|] eqn:Hl; cbn; [by apply (wf_memberships s Hwf)|].
      split; [apply NoDup_nil_2|]. intros m Hm. by apply not_elem_of_nil in Hm. }
    split.
    + rewrite fmap_app. apply NoDup_app. split_and!; [done| |apply NoDup_singleton].
      intros c (m & -> & Hm)%list_elem_of_fmap Hc%list_elem_of_singleton. cbn in Hc.
      specialize (Hany m Hm). by apply bool_decide_eq_false in Hany.
    + intros m [Hm|Hm%list_elem_of_singleton]%elem_of_app; [by apply Hall|]. subst. cbn. eauto.
  - split; cbn; try apply Hwf. intros k r [[<- <-]|[_ Hx]]%lookup_insert_Some; [done|].
    by apply (wf_tokens s Hwf).
  - split; cbn; try apply Hwf. intros k r [_ Hx]%lookup_delete_Some. by apply (wf_tokens s Hwf).
  - split; apply Hwf.
  - split; apply Hwf.
Qed.

Lemma NewMemoryBackend_wf : backend_wf NewMemoryBackend.
Proof.
  split; cbn; try (intros *; by rewrite lookup_empty).
  intros em id. rewrite lookup_empty. split; [done|]. intros (u & Hu & _). by rewrite lookup_empty in Hu.
Qed.

(** C17: whatever writes, transactions and commits interleave, the backend and
    every open transaction stay well formed: the e-mail index is exactly the
    users' e-mails, memberships are unique per company with known roles, and
    refresh tokens are stored under their hashes. *)
Theorem backend_well_formed s txs :
  rtc backend_step (NewMemoryBackend, []) (s, txs) →
  backend_wf s ∧ ∀ tx, tx ∈ txs → backend_wf tx.
Proof.
  intros Hr. pose (I (p : memoryState * list memoryState) := backend_wf p.1 ∧ ∀ tx : memoryState, tx ∈ p.2 → backend_wf tx).
  change (I (s, txs)). eapply (rtc_preserves backend_step I); [|exact Hr|]; unfold I; cbn.
  - intros x y Hstep [Hs Htxs]. destruct Hstep as [s0 s' ts Hw|s0 ts|s0 i tx tx' ts Hi Hw|s0 i tx ts Hi];
      cbn in *.
    + eauto using auth_write_wf.
    + split; [done|]. intros tx [Htx| ->%list_elem_of_singleton]%elem_of_app; [eauto|].
      split; apply Hs.
    + split; [done|]. intros t [j Hj]%list_elem_of_lookup.
      apply list_lookup_insert_Some in Hj as [(-> & -> & _)|(_ & Hj)].
      * eapply auth_write_wf; [exact Hw|]. apply Htxs. by eapply list_elem_of_lookup_2.
      * apply Htxs. by eapply list_elem_of_lookup_2.
    + split; [|done]. apply Htxs. by eapply list_elem_of_lookup_2.
  - split; [apply NewMemoryBackend_wf|intros tx Htx; by apply not_elem_of_nil in Htx].
Qed.
End wf.

(** ** Sign-up, login and refresh over the development backend *)

Section service.
Context {U : UuidText} {C : UnicodeCase} {H : Sha256} {K : KeyDerivation} {J : JWTLib}.
Context (ParseAddress : string → bool) (fmt : time → string).
Implicit Types (svc : @Service J) (s : memoryState).

(** The text of the claims under the active key. *)
Definition token_of (m : @JWTManager J) (c : Claims) : string :=
  match keys m !! activeKID m with Some sk => SignedString (activeKID m) sk c | None => "" end.

Lemma sign_claims_Ok m c : has_key m → sign_claims m c = Ok (token_of m c).
Proof. intros [[sk Hsk] _]. unfold sign_claims, token_of. by rewrite Hsk. Qed.

Definition staff_claims (svc : @Service J) (e : Env) (r : Rand) (uid cid : uuid) (role : string)
    (level : Z) : Claims :=
  {| Registered := registered e (jwtManager svc) (jti r 0) (uuid_String uid)
       (AccessTokenExpiry (config (jwtManager svc)));
     c_UserID := uuid_String uid; c_CompanyID := uuid_String cid; c_CompanyIDs := [uuid_String cid];
     c_Role := role; c_RoleLevel := level; c_Scopes := []; c_HouseholdID := ""; c_ChildID := "";
     c_ChildMode := false; c_Entitlements := [] |}.
Definition refresh_claims (svc : @Service J) (e : Env) (r : Rand) (uid : uuid) : Claims :=
  registered_only (registered e (jwtManager svc) (jti r 1) (uuid_String uid)
    (RefreshTokenExpiry (config (jwtManager svc)))).

(** The response for a user with a role in a company, and the row it stores. *)
Definition response (svc : @Service J) (e : Env) (r : Rand) (u : User) (cid : uuid) (role : string)
    (level : Z) : AuthResponse :=
  {| AccessToken := token_of (jwtManager svc) (staff_claims svc e r (u_ID u) cid role level);
     RefreshToken := token_of (jwtManager svc) (refresh_claims svc e r (u_ID u));
     resp_User := u |}.
Definition with_token (svc : @Service J) (e : Env) (uid : uuid) (tok : string) (s : memoryState) :
    memoryState :=
  set_refreshTokens (<[HashToken tok := {| rt_UserID := uid; rt_TokenHash := HashToken tok;
    rt_ExpiresAt := (now e + RefreshTokenExpiry_of svc)%Z |}]> (refreshTokens s)) s.

Lemma issue_tokens_staff svc e r u cid role level m1 m2 s :
  has_key (jwtManager svc) →
  issue_tokens (Tx := memoryState) svc e r u
    (CreateAccessToken e (jwtManager svc) (jti r 0) (uuid_String (u_ID u)) (uuid_String cid) role level
       [uuid_String cid]) m1 m2 1 s =
  (Ok (response svc e r u cid role level),
   with_token svc e (u_ID u) (token_of (jwtManager svc) (refresh_claims svc e r (u_ID u))) s).
Proof.
  intros Hk. unfold issue_tokens, CreateAccessToken, CreateAccessTokenWithScopes, CreateRefreshToken.
  by rewrite !sign_claims_Ok.
Qed.

(** A user who can log in: indexed, active, with a membership and a known role. *)
Record account (s : memoryState) (key : string) (u : User) (m : Membership) (role : Role) : Prop := {
  acc_email : usersByEmail s !! key = Some (u_ID u);
  acc_user : usersByID s !! u_ID u = Some u;
  acc_membership : head (default [] (ms_memberships s !! u_ID u)) = Some m;
  acc_role : ms_roles s !! mb_RoleID m = Some role;
}.

Lemma Login_Ok svc e r email password s u m role :
  has_key (jwtManager svc) → account s (normalized (normalized email)) u m role →
  u_IsActive u = true →
  PasswordHasher.Verify (passwordHasher svc) password (u_PasswordHash u) = Returns (Ok true) →
  Login svc e r email password s =
  (Ok (response svc e r u (mb_CompanyID m) (ro_Name role) (ro_RoleLevel role)),
   with_token svc e (u_ID u) (token_of (jwtManager svc) (refresh_claims svc e r (u_ID u))) s).
Proof.
  intros Hk [He Hu Hm Hr] Hact Hv. unfold Login, check_credentials.
  cbv [mbind prog_bind try wrapping].
  unfold as_GetUserByEmail, dev_AuthStore, dev_GetUserByEmail. rewrite He, Hu.
  cbn [default from_option id]. rewrite Hact. cbn [negb]. rewrite Hv. cbn [returned mret prog_ret negb].
  unfold dev_GetCompanyMembershipByUser, as_GetCompanyMembershipByUser.
  destruct (default [] (ms_memberships s !! u_ID u)) as [|m0 l]; [done|]. cbn in Hm. simplify_eq.
  unfold as_GetRoleByID, dev_GetRoleByID. rewrite Hr. unfold staff_token.
  by rewrite (issue_tokens_staff svc e r u).
Qed.

(** The user and the membership a sign-up makes. *)
Definition new_user (e : Env) (email ph displayName : string) : User :=
  {| u_ID := new_id e 0; u_Email := normalized (normalized email); u_PasswordHash := ph;
     u_DisplayName := TrimSpace (TrimSpace displayName); u_AvatarURL := ""; u_IsActive := true;
     u_CreatedAt := now e |}.
Definition owner_membership (e : Env) (role : Role) : Membership :=
  {| mb_CompanyID := new_id e 1; mb_UserID := new_id e 0; mb_RoleID := OwnerRoleID;
     mb_RoleName := ro_Name role |}.

Lemma SignUp_tx_Ok svc e r email ph displayName role s :
  has_key (jwtManager svc) →
  usersByEmail s !! normalized (normalized email) = None →
  ms_memberships s !! new_id e 0 = None → ms_roles s !! OwnerRoleID = Some role →
  let u := new_user e email ph displayName in
  ∃ s', SignUp_tx fmt svc e r email ph displayName s =
      (Ok (response svc e r u (new_id e 1) "owner" 90), s') ∧
    usersByEmail s' = <[normalized (normalized email) := u_ID u]> (usersByEmail s) ∧
    usersByID s' = <[u_ID u := u]> (usersByID s) ∧
    ms_memberships s' = <[u_ID u := [owner_membership e role]]> (ms_memberships s) ∧
    ms_roles s' = ms_roles s ∧ ms_rbacRoles s' = ms_rbacRoles s ∧
    ms_rbacMemberships s' = ms_rbacMemberships s ∧
    refreshTokens s' = refreshTokens (with_token svc e (u_ID u)
      (token_of (jwtManager svc) (refresh_claims svc e r (u_ID u))) s).
Proof.
  intros Hk Hkey Hm Hr u. unfold SignUp_tx. cbv [mbind prog_bind try wrapping].
  unfold as_CreateUser, dev_AuthStore, dev_CreateUser. rewrite Hkey. fold u.
  change {| u_ID := new_id e 0; u_Email := normalized (normalized email); u_PasswordHash := ph;
    u_DisplayName := TrimSpace (TrimSpace displayName); u_AvatarURL := ""; u_IsActive := true;
    u_CreatedAt := now e |} with u. cbn [mret prog_ret].
  assert (∀ name slug ct,
    let s1 := set_users (<[u_ID u := u]> (usersByID s))
      (<[normalized (normalized email) := u_ID u]> (usersByEmail s)) s in
    let s2 := (dev_auth_CreateCompany e 1 name slug ct s1).2 in
    ms_memberships s2 = ms_memberships s ∧ ms_roles s2 = ms_roles s ∧
    usersByID s2 = usersByID s1 ∧ usersByEmail s2 = usersByEmail s1 ∧
    refreshTokens s2 = refreshTokens s ∧ ms_rbacRoles s2 = ms_rbacRoles s ∧
    ms_rbacMemberships s2 = ms_rbacMemberships s) as Hc by done.
  destruct (b2cMode svc);
    match goal with |- context [as_CreateCompany e 1 ?n ?sl ?ct ?st] =>
      specialize (Hc n sl ct); cbv zeta in Hc;
      change (as_CreateCompany e 1 n sl ct st) with (Ok (E := aerr) (new_id e 1), (dev_auth_CreateCompany e 1 n sl ct st).2);
      set (s2 := (dev_auth_CreateCompany e 1 n sl ct st).2) in * end;
    clearbody s2; destruct Hc as (Hm2 & Hr2 & Hu2 & He2 & Ht2 & Hb2 & Hbm2);
    unfold as_CreateCompanyMembership, dev_CreateCompanyMembership;
    rewrite Hr2, Hr, Hm2; change (u_ID u) with (new_id e 0) at 1; rewrite Hm; cbn [default from_option any existsb];
    rewrite issue_tokens_staff by done; cbn; eexists; (split; [reflexivity|]); cbn;
    rewrite ?Hm2, ?Hr2, ?Hu2, ?He2, ?Ht2, ?Hb2, ?Hbm2, ?Hm; by split_and!.
Qed.

(** The clone a transaction works on, where sign-up looks. *)
Lemma clone_fields s :
  usersByEmail (clone s) = usersByEmail s ∧ usersByID (clone s) = usersByID s ∧
  ms_memberships (clone s) = ms_memberships s ∧ ms_roles (clone s) = ms_roles s ∧
  refreshTokens (clone s) = refreshTokens s ∧ ms_rbacMemberships (clone s) = ms_rbacMemberships s.
Proof. done. Qed.

(** What a request must bring to be signed up. *)
Record acceptable (email password displayName : string) : Prop := {
  ok_email : ParseAddress email = true;
  ok_password : (8 ≤ len password)%Z;
  ok_name : TrimSpace displayName ≠ "";
}.

Lemma SignUp_eq svc e r email password displayName ph s :
  acceptable email password displayName →
  PasswordHasher.Hash (passwordHasher svc) (salt r) password = Returns (Ok ph) →
  SignUp (St := memoryState) (Tx := memoryState) ParseAddress fmt svc e r email password displayName s =
  match SignUp_tx fmt svc e r email ph displayName (clone s) with
  | (Err err, _) => (Err err, s)
  | (Ok resp, tx) => (Ok resp, tx)
  end.
Proof.
  intros [He Hp Hn] Hh. unfold SignUp. rewrite He, !bool_decide_false by (done || lia). cbn [negb].
  rewrite Hh. cbv [mbind prog_bind returned mret prog_ret wrapping]. cbn [BeginTx dev_TxAuthStore dev_BeginTx gets].
  cbn. by destruct (SignUp_tx _ _ _ _ _ _ _ _) as [[resp|err] tx].
Qed.

Definition owner_role : Role :=
  {| ro_ID := OwnerRoleID; ro_Name := "owner"; ro_Description := ""; ro_RoleLevel := 90 |}.

(** An acceptable sign-up with a free e-mail makes an account that logs in. *)
Lemma SignUp_account `{L : !KeyDerivationLaws K} svc e r fips sl email password displayName s :
  has_key (jwtManager svc) → passwordHasher svc = PasswordHasher.NewPolicyHasher fips →
  salt r = Some sl → acceptable email password displayName →
  usersByEmail s !! normalized (normalized email) = None →
  ms_memberships s !! new_id e 0 = None → ms_roles s = authRoles →
  ∃ u s', SignUp (St := memoryState) (Tx := memoryState) ParseAddress fmt svc e r email password
            displayName s = (Ok (response svc e r u (new_id e 1) "owner" 90), s') ∧
    u_ID u = new_id e 0 ∧ account s' (normalized (normalized email)) u (owner_membership e owner_role) owner_role ∧
    u_IsActive u = true ∧
    PasswordHasher.Verify (passwordHasher svc) password (u_PasswordHash u) = Returns (Ok true) ∧
    ms_memberships s' !! u_ID u = Some [owner_membership e owner_role] ∧ ms_roles s' = ms_roles s ∧
    ms_rbacMemberships s' = ms_rbacMemberships s.
Proof.
  intros Hk Hh Hsl Hacc Hkey Hm Hr.
  destruct (Hash_verifies fips (passwordHasher svc) sl password) as (ph & k & Hhash & Hder & _ & Hv).
  rewrite <-Hh, <-Hsl in Hhash. rewrite (SignUp_eq svc e r email password displayName ph s Hacc Hhash).
  destruct (clone_fields s) as (Hc1 & Hc2 & Hc3 & Hc4 & Hc5 & Hc6).
  destruct (SignUp_tx_Ok svc e r email ph displayName owner_role (clone s))
    as (s' & Htx & He' & Hu' & Hm' & Hr' & _ & Hb' & _); [done|by rewrite Hc1|by rewrite Hc3|by rewrite Hc4, Hr|].
  set (u := new_user e email ph displayName) in *. exists u, s'. rewrite Htx.
  destruct (Hv password) as (k' & Hk' & Hver & _). rewrite Hder in Hk'. injection Hk' as <-.
  rewrite bool_decide_true in Hver by done.
  split_and!; [done..| |done|exact Hver|by rewrite Hm', lookup_insert_eq|by rewrite Hr', Hc4|by rewrite Hb', Hc6].
  split; rewrite ?He', ?Hu', ?Hm', ?Hr', ?Hc4, ?Hr, ?lookup_insert_eq; done.
Qed.

(** Over the development backend, an acceptable sign-up with a free e-mail
    answers with an owner's tokens; the same e-mail and password then log in and
    get an access token for the new company as its owner, and the role check of
    the RBAC service over the same backend lets the user pass at every level up
    to the owner's. *)
Theorem signup_then_login `{L : !KeyDerivationLaws K} svc e r e2 r2 fips sl email password displayName s :
  has_key (jwtManager svc) → passwordHasher svc = PasswordHasher.NewPolicyHasher fips →
  salt r = Some sl → acceptable email password displayName →
  usersByEmail s !! normalized (normalized email) = None →
  ms_memberships s !! new_id e 0 = None → ms_roles s = authRoles →
  ms_rbacMemberships s !! membership_key (new_id e 1) (new_id e 0) = None →
  ∃ u s', SignUp (St := memoryState) (Tx := memoryState) ParseAddress fmt svc e r email password
            displayName s = (Ok (response svc e r u (new_id e 1) "owner" 90), s') ∧
    u_ID u = new_id e 0 ∧
    Login svc e2 r2 email password s' =
      (Ok (response svc e2 r2 u (new_id e 1) "owner" 90),
       with_token svc e2 (u_ID u) (token_of (jwtManager svc) (refresh_claims svc e2 r2 (u_ID u))) s') ∧
    ∀ level, HasMinimumRole (rbac_view s') (u_ID u) (new_id e 1) level =
      Ok (bool_decide (level ≤ 90)%Z).
Proof.
  intros Hk Hh Hsl Hacc Hkey Hm Hr Hrb.
  destruct (SignUp_account svc e r fips sl email password displayName s)
    as (u & s' & Hok & Hid & Hac & Hact & Hver & Hm' & Hr' & Hb'); [done..|].
  exists u, s'. split; [done|]. split; [done|].
  split; [by apply (Login_Ok svc e2 r2 email password s' u (owner_membership e owner_role) owner_role)|].
  intros level. unfold HasMinimumRole, GetUserRole, dev_RBACStore, Rbac.dev_GetUserRole.
  change (rbacMemberships (rbac_view s')) with (ms_rbacMemberships s'). rewrite Hb', Hid, Hrb.
  cbn [mbind option_bind]. unfold auth_role_in.
  change (memberships (rbac_view s')) with (map rbac_membership <$> ms_memberships s').
  change (roles (rbac_view s')) with (rbac_role <$> ms_roles s'). rewrite !lookup_fmap, <-Hid, Hm'. cbn.
  rewrite bool_decide_true by done. rewrite lookup_fmap, Hr', Hr. done.
Qed.

(** *** Refresh *)

Lemma refresh_rotate_Ok svc e r tok stored s u m role :
  has_key (jwtManager svc) → rt_UserID stored = u_ID u → usersByID s !! u_ID u = Some u →
  head (default [] (ms_memberships s !! u_ID u)) = Some m → ms_roles s !! mb_RoleID m = Some role →
  refresh_rotate svc e r tok stored s =
  (Ok (response svc e r u (mb_CompanyID m) (ro_Name role) (ro_RoleLevel role)),
   with_token svc e (u_ID u) (token_of (jwtManager svc) (refresh_claims svc e r (u_ID u)))
     (set_refreshTokens (delete (HashToken tok) (refreshTokens s)) s)).
Proof.
  intros Hk Hid Hu Hm Hr. unfold refresh_rotate. cbv [mbind prog_bind wrapping].
  unfold as_RevokeRefreshToken, dev_AuthStore, dev_RevokeRefreshToken, modify.
  unfold as_GetUserByID, dev_GetUserByID. cbn [usersByID set_refreshTokens set_tokens].
  rewrite Hid, Hu. unfold as_GetCompanyMembershipByUser, dev_GetCompanyMembershipByUser.
  cbn [ms_memberships set_refreshTokens set_tokens].
  destruct (default [] (ms_memberships s !! u_ID u)) as [|m0 l]; [done|]. cbn in Hm. simplify_eq.
  unfold as_GetRoleByID, dev_GetRoleByID. cbn [ms_roles set_refreshTokens set_tokens]. rewrite Hr.
  unfold staff_token. by rewrite issue_tokens_staff.
Qed.

(** A rotation that succeeds found all it needs. *)
Lemma refresh_rotate_inv svc e r tok stored s resp s' :
  has_key (jwtManager svc) → refresh_rotate svc e r tok stored s = (Ok resp, s') →
  ∃ u m role, usersByID s !! rt_UserID stored = Some u ∧
    resp = response svc e r u (mb_CompanyID m) (ro_Name role) (ro_RoleLevel role) ∧
    s' = with_token svc e (u_ID u) (RefreshToken resp)
           (set_refreshTokens (delete (HashToken tok) (refreshTokens s)) s).
Proof.
  intros Hk. unfold refresh_rotate. cbv [mbind prog_bind wrapping].
  unfold as_RevokeRefreshToken, dev_AuthStore, dev_RevokeRefreshToken, modify.
  unfold as_GetUserByID, dev_GetUserByID. cbn [usersByID set_refreshTokens set_tokens].
  destruct (usersByID s !! rt_UserID stored) as [u|]; [|done].
  unfold as_GetCompanyMembershipByUser, dev_GetCompanyMembershipByUser.
  cbn [ms_memberships set_refreshTokens set_tokens].
  destruct (default [] (ms_memberships s !! u_ID u)) as [|m l]; [done|].
  unfold as_GetRoleByID, dev_GetRoleByID. cbn [ms_roles set_refreshTokens set_tokens].
  destruct (ms_roles s !! mb_RoleID m) as [role|]; [|done].
  unfold staff_token. rewrite issue_tokens_staff by done. intros [= <- <-]. eauto 10.
Qed.

Lemma refresh_lookup_inv svc e tok s rec s' :
  refresh_lookup svc e tok s = (Ok rec, s') →
  s' = s ∧ refreshTokens s !! HashToken tok = Some rec ∧ (now e ≤ rt_ExpiresAt rec)%Z.
Proof.
  unfold refresh_lookup. destruct (ValidateRefreshToken _ _ _); [|done].
  cbv [mbind prog_bind try]. unfold as_GetRefreshToken, dev_AuthStore, dev_GetRefreshToken.
  destruct (refreshTokens s !! HashToken tok) as [x|] eqn:Hx; [|done].
  unfold After. case_bool_decide as Ht; cbn; [done|]. intros [= <- <-]. split_and!; [done..|lia].
Qed.

Lemma refresh_lookup_absent svc e tok s :
  refreshTokens s !! HashToken tok = None → ∃ err, refresh_lookup svc e tok s = (Err err, s).
Proof.
  intros Hn. unfold refresh_lookup. destruct (ValidateRefreshToken _ _ _); [|by eexists].
  cbv [mbind prog_bind try]. unfold as_GetRefreshToken, dev_AuthStore, dev_GetRefreshToken.
  rewrite Hn. by eexists.
Qed.

(** A refresh that succeeds spends its token: any later refresh with it
    fails and changes nothing, while the new token is stored for the same user
    until its expiry. *)
Theorem refresh_token_rotates svc e r tok s resp s' :
  has_key (jwtManager svc) → Service_RefreshToken svc e r tok s = (Ok resp, s') →
  HashToken (RefreshToken resp) ≠ HashToken tok →
  refreshTokens s' !! HashToken (RefreshToken resp) =
    Some {| rt_UserID := u_ID (resp_User resp); rt_TokenHash := HashToken (RefreshToken resp);
            rt_ExpiresAt := (now e + RefreshTokenExpiry_of svc)%Z |} ∧
  ∀ e2 r2, ∃ err, Service_RefreshToken svc e2 r2 tok s' = (Err err, s').
Proof.
  intros Hk Hok Hne. unfold Service_RefreshToken in Hok. cbv [mbind prog_bind] in Hok.
  destruct (refresh_lookup svc e tok s) as [[stored|err] s0] eqn:Hl; [|done].
  apply refresh_lookup_inv in Hl as (-> & Hrow & Hlive).
  destruct (refresh_rotate_inv _ _ _ _ _ _ _ _ Hk Hok) as (u & m & role & Hu & Hresp & Hs').
  assert (u = resp_User resp) as -> by (by rewrite Hresp).
  subst s'. split; [apply lookup_insert_eq|]. intros e2 r2.
  destruct (refresh_lookup_absent svc e2 tok (with_token svc e (u_ID (resp_User resp)) (RefreshToken resp)
    (set_refreshTokens (delete (HashToken tok) (refreshTokens s)) s))) as [err Herr].
  { cbn. rewrite lookup_insert_ne by done. apply lookup_delete_eq. }
  exists err. unfold Service_RefreshToken. cbv [mbind prog_bind]. by rewrite Herr.
Qed.

(** The read of the stored row and its revocation are two store calls, and
    the revocation does not say whether there was a row: two requests that both
    read the token before either revokes it are both answered with new tokens,
    and both of these are stored. *)
Theorem concurrent_refresh svc e1 r1 e2 r2 tok stored s u m role :
  has_key (jwtManager svc) →
  is_Ok (ValidateRefreshToken e1 (jwtManager svc) tok) = true →
  is_Ok (ValidateRefreshToken e2 (jwtManager svc) tok) = true →
  refreshTokens s !! HashToken tok = Some stored →
  (now e1 ≤ rt_ExpiresAt stored)%Z → (now e2 ≤ rt_ExpiresAt stored)%Z →
  rt_UserID stored = u_ID u → usersByID s !! u_ID u = Some u →
  head (default [] (ms_memberships s !! u_ID u)) = Some m → ms_roles s !! mb_RoleID m = Some role →
  let resp1 := response svc e1 r1 u (mb_CompanyID m) (ro_Name role) (ro_RoleLevel role) in
  let resp2 := response svc e2 r2 u (mb_CompanyID m) (ro_Name role) (ro_RoleLevel role) in
  HashToken (RefreshToken resp1) ≠ HashToken tok →
  refresh_lookup svc e1 tok s = (Ok stored, s) ∧ refresh_lookup svc e2 tok s = (Ok stored, s) ∧
  ∃ s1 s2, refresh_rotate svc e1 r1 tok stored s = (Ok resp1, s1) ∧
    refresh_rotate svc e2 r2 tok stored s1 = (Ok resp2, s2) ∧
    is_Some (refreshTokens s2 !! HashToken (RefreshToken resp1)) ∧
    is_Some (refreshTokens s2 !! HashToken (RefreshToken resp2)).
Proof.
  intros Hk Hv1 Hv2 Hrow Ht1 Ht2 Hid Hu Hm Hr resp1 resp2 Hne.
  assert (∀ e, is_Ok (ValidateRefreshToken e (jwtManager svc) tok) = true →
    (now e ≤ rt_ExpiresAt stored)%Z → refresh_lookup svc e tok s = (Ok stored, s)) as Hl.
  { intros e Hv Ht. unfold refresh_lookup.
    destruct (ValidateRefreshToken e (jwtManager svc) tok); [|done].
    cbv [mbind prog_bind try]. unfold as_GetRefreshToken, dev_AuthStore, dev_GetRefreshToken.
    rewrite Hrow. unfold After. by rewrite bool_decide_false by lia. }
  split_and!; [by apply Hl..|]. eexists _, _.
  split; [by apply refresh_rotate_Ok|]. split; [by apply refresh_rotate_Ok|]. cbn.
  split; [|rewrite lookup_insert_eq; eauto].
  destruct (decide (HashToken (RefreshToken resp2) = HashToken (RefreshToken resp1))) as [Heq|Hd].
  - cbn in Heq. rewrite Heq, lookup_insert_eq. eauto.
  - rewrite lookup_insert_ne, lookup_delete_ne, lookup_insert_eq by done. eauto.
Qed.

(** The row a login stores for its refresh token is found while the token lives. *)
Definition refresh_row (svc : @Service J) (e : Env) (uid : uuid) (tok : string) : RefreshTokenRecord :=
  {| rt_UserID := uid; rt_TokenHash := HashToken tok;
     rt_ExpiresAt := (now e + RefreshTokenExpiry_of svc)%Z |}.
Lemma refresh_lookup_stored `{L : !JWTLaws J} svc e r uid e2 s :
  let tok := token_of (jwtManager svc) (refresh_claims svc e r uid) in
  has_key (jwtManager svc) → refreshTokens s !! HashToken tok = Some (refresh_row svc e uid tok) →
  (now e2 < NumericDate (now e + RefreshTokenExpiry_of svc))%Z →
  refresh_lookup svc e2 tok s = (Ok (refresh_row svc e uid tok), s).
Proof.
  intros tok Hk Hst Hlive. unfold refresh_lookup, ValidateRefreshToken.
  rewrite (ParseWithClaims_signed e2 _ _ tok Hk (sign_claims_Ok _ _ Hk)).
  unfold refresh_claims. cbn [Registered registered_only]. rewrite not_expired_registered, bool_decide_true by done.
  cbv [mbind prog_bind try]. unfold as_GetRefreshToken, dev_AuthStore, dev_GetRefreshToken.
  rewrite Hst. unfold After. rewrite bool_decide_false; [done|]. cbn.
  unfold NumericDate in Hlive. pose proof (Z.mul_div_le (now e + RefreshTokenExpiry_of svc) Second eq_refl).
  lia.
Qed.

(** The refresh token of a navigator's sign-in, whose access token has no
    role and only the scope volunteer:field, buys the user's staff tokens: the
    refreshed access token carries the role and the level of the membership, and
    no scope. *)
Theorem navigators_refresh_is_staff `{L : !JWTLaws J} svc e r e2 r2 email password s u m role :
  has_key (jwtManager svc) → account s (normalized (normalized email)) u m role →
  u_IsActive u = true →
  PasswordHasher.Verify (passwordHasher svc) password (u_PasswordHash u) = Returns (Ok true) →
  (now e2 < NumericDate (now e + RefreshTokenExpiry_of svc))%Z →
  ∃ resp s1 resp2 s2, SignInNavigators svc e r email password s = (Ok resp, s1) ∧
    Service_RefreshToken svc e2 r2 (RefreshToken resp) s1 = (Ok resp2, s2) ∧
    (∀ t c, ValidateAccessToken t (jwtManager svc) (AccessToken resp) = Ok c →
       c_Role c = "" ∧ c_RoleLevel c = 0%Z ∧ c_Scopes c = ["volunteer:field"]) ∧
    ∀ t c, ValidateAccessToken t (jwtManager svc) (AccessToken resp2) = Ok c →
       c_Role c = ro_Name role ∧ c_RoleLevel c = ro_RoleLevel role ∧ c_Scopes c = [].
Proof.
  intros Hk [He Hu Hm Hr] Hact Hv Hlive. unfold SignInNavigators, check_credentials.
  cbv [mbind prog_bind try wrapping]. unfold as_GetUserByEmail, dev_AuthStore, dev_GetUserByEmail.
  rewrite He, Hu. cbn [default from_option id]. rewrite Hact. cbn [negb]. rewrite Hv.
  cbn [returned mret prog_ret negb].
  unfold dev_GetCompanyMembershipByUser, as_GetCompanyMembershipByUser.
  destruct (default [] (ms_memberships s !! u_ID u)) as [|m0 l] eqn:Hms; [done|]. cbn in Hm. simplify_eq.
  unfold CreateAccessTokenWithScopes, issue_tokens, CreateRefreshToken.
  rewrite !sign_claims_Ok by done. cbn [wrapping of_outcome mbind prog_bind mret prog_ret].
  set (rt := token_of (jwtManager svc) (registered_only _)). set (at_ := token_of (jwtManager svc) _).
  assert (∀ t c claims, ValidateAccessToken t (jwtManager svc) (token_of (jwtManager svc) claims) = Ok c →
    c = claims) as Hval.
  { intros t c claims. unfold ValidateAccessToken.
    rewrite (ParseWithClaims_signed t _ claims _ Hk (sign_claims_Ok _ _ Hk)). destruct (not_expired _ _); congruence. }
  pose (s1 := with_token svc e (u_ID u) rt s).
  exists {| AccessToken := at_; RefreshToken := rt; resp_User := u |}.
  eexists (set_auditLogs _ s1),
    (response svc e2 r2 u (mb_CompanyID m) (ro_Name role) (ro_RoleLevel role)), _.
  split; [reflexivity|]. split; [|split; [by intros t c ->%Hval|by intros t c ->%Hval]].
  unfold Service_RefreshToken. cbv [mbind prog_bind]. cbn [RefreshToken].
  rewrite (refresh_lookup_stored svc e r (u_ID u) e2) by (done || apply lookup_insert_eq).
  apply refresh_rotate_Ok; [done|done|exact Hu|by cbn; rewrite Hms|exact Hr].
Qed.

(** *** Transactions *)

(** A commit replaces the whole state by the clone its transaction started
    from: when sign-up A begins, sign-up B runs from start to end and is
    answered with tokens, and A then completes, B's account and B's refresh
    token are gone, although both requests succeeded. *)
Theorem concurrent_signup_lost svc eA rA emailA phA nameA eB rB emailB passwordB nameB s respA txA respB sB :
  let keyA := normalized (normalized emailA) in
  let keyB := normalized (normalized emailB) in
  has_key (jwtManager svc) → keyA ≠ keyB → acceptable emailB passwordB nameB →
  (* A has begun: it works on a clone of [s] *)
  SignUp_tx fmt svc eA rA emailA phA nameA (clone s) = (Ok respA, txA) →
  ms_memberships s !! new_id eA 0 = None → usersByEmail s !! keyA = None →
  is_Some (ms_roles s !! OwnerRoleID) →
  SignUp (St := memoryState) (Tx := memoryState) ParseAddress fmt svc eB rB emailB passwordB nameB s =
    (Ok respB, sB) →
  usersByEmail s !! keyB = None → refreshTokens s !! HashToken (RefreshToken respB) = None →
  HashToken (RefreshToken respA) ≠ HashToken (RefreshToken respB) →
  let final := (dev_Commit txA sB).2 in
  usersByEmail final !! keyA = Some (u_ID (resp_User respA)) ∧
  usersByEmail final !! keyB = None ∧
  ∀ e r, ∃ err, Service_RefreshToken svc e r (RefreshToken respB) final = (Err err, final).
Proof.
  intros keyA keyB Hk Hne HaccB HA HmA HkA [role Hr] _ HkB HtB Hne2. cbn.
  destruct (SignUp_tx_Ok svc eA rA emailA phA nameA role (clone s))
    as (s' & Htx & He' & _ & _ & _ & _ & _ & Ht'); [done..|].
  rewrite HA in Htx. injection Htx as Hresp ->. rewrite He'. split_and!.
  - rewrite lookup_insert_eq. by rewrite Hresp.
  - by rewrite lookup_insert_ne.
  - intros e r. destruct (refresh_lookup_absent svc e (RefreshToken respB) s') as [err Herr].
    + rewrite Ht'. cbn. rewrite Hresp in Hne2. cbn in Hne2. by rewrite lookup_insert_ne.
    + exists err. unfold Service_RefreshToken. cbv [mbind prog_bind]. by rewrite Herr.
Qed.
End service.

(** ** Examples *)

Section examples.
#[local] Existing Instances toy_jwt binary_uuid_text ascii_case toy_kdf toy_jwt_laws toy_kdf_laws.
#[local] Instance identity_sha256 : Sha256 := {| sha256 := λ s, s |}.

Definition ex_manager : @JWTManager toy_jwt :=
  {| keys := {["k" := "secret key"]}; activeKID := "k"; config := DefaultJWTConfig |}.
Definition ex_service : @Service toy_jwt :=
  {| jwtManager := ex_manager; passwordHasher := PasswordHasher.NewPolicyHasher false; b2cMode := true |}.
(** Instants are seconds; a request with number [k] draws its own identifiers. *)
Definition ex_env (t : Z) (k : uuid) : Env :=
  {| now := (t * Second)%Z; new_id := λ n, (k + N.of_nat n)%N; order := canonical_range |}.
Definition ex_rand (k : string) : Rand := {| salt := Some "salt"; jti := λ n, k +:+ pretty n |}.
Definition any_address (s : string) : bool := true.
Definition ex_stamp (t : time) : string := "000000".

Lemma ex_has_key : has_key ex_manager.
Proof. split; [by eexists|done]. Qed.

Lemma ex_acceptable email : acceptable any_address email "password" "Ada".
Proof. by split. Qed.

Lemma access_token_roundtrip_witness :
  ∃ tok, CreateAccessTokenWithScopes (ex_env 100 1) ex_manager "j" "u" "c" "owner" 90 ["c"] [] = Ok tok ∧
    (∀ c, ValidateAccessToken (ex_env 900 1) ex_manager tok = Ok c ↔
      (900 * Second < NumericDate (100 * Second + 15 * Minute))%Z ∧
      c = {| Registered := registered (ex_env 100 1) ex_manager "j" "u" (15 * Minute)%Z; c_UserID := "u";
             c_CompanyID := "c"; c_CompanyIDs := ["c"]; c_Role := "owner"; c_RoleLevel := 90;
             c_Scopes := []; c_HouseholdID := ""; c_ChildID := ""; c_ChildMode := false;
             c_Entitlements := [] |}).
Proof. apply (access_token_roundtrip (ex_env 100 1) (ex_env 900 1) ex_manager), ex_has_key. Defined.

Definition ex_refresh_token : string :=
  token_of ex_manager (refresh_claims ex_service (ex_env 100 1) (ex_rand "old") 1).
Definition ex_refresh_claims : Claims :=
  registered_only (registered (ex_env 100 1) ex_manager "old1" (uuid_String 1%N) (7 * 24 * Hour)%Z).

Lemma refresh_token_opens_nothing_witness :
  (ValidateAccessToken (ex_env 900 1) ex_manager ex_refresh_token = Ok ex_refresh_claims ↔
     ex_refresh_claims = registered_only (registered (ex_env 100 1) ex_manager "old1" (uuid_String 1%N)
       (RefreshTokenExpiry (config ex_manager)))) ∧
  (ValidateAccessToken (ex_env 900 1) ex_manager ex_refresh_token = Ok ex_refresh_claims →
   RequireUser (Some ex_refresh_claims) = Err (Sentinel ErrNoCompany) ∧
   RequireCompany (Some ex_refresh_claims) = Err (Sentinel ErrNoCompany) ∧
   RequireHousehold (Some ex_refresh_claims) = Err (Sentinel ErrNoHousehold) ∧
   RequireChildMode (Some ex_refresh_claims) = Err (Sentinel ErrNotChildMode) ∧
   ∀ ent, RequirePlan (Some ex_refresh_claims) ent = Err (Wrapf ent (Sentinel ErrMissingEntitlement))).
Proof.
  apply (refresh_token_opens_nothing (ex_env 100 1) (ex_env 900 1) ex_manager "old1" (uuid_String 1%N)
    ex_refresh_token); [apply ex_has_key|reflexivity|reflexivity].
Defined.

Definition ex_child_token : string :=
  token_of ex_manager {| Registered := registered (ex_env 100 1) ex_manager "j" "u" (15 * Minute)%Z;
    c_UserID := "u"; c_CompanyID := ""; c_CompanyIDs := []; c_Role := ""; c_RoleLevel := 0;
    c_Scopes := []; c_HouseholdID := "h"; c_ChildID := "kid"; c_ChildMode := true; c_Entitlements := [] |}.
Definition read_claims (tok : string) : Claims :=
  match ValidateAccessToken (ex_env 900 1) ex_manager tok with
  | Ok c => c
  | Err _ => ex_refresh_claims
  end.

Lemma household_token_modes_witness :
  let c := read_claims ex_child_token in
  c_ChildID c = "kid" ∧ c_HouseholdID c = "h" ∧ c_Role c = "" ∧ c_RoleLevel c = 0%Z ∧
  (is_Ok (RequireChildMode (Some c)) = true) ∧ (is_Ok (RequireParentMode (Some c)) = negb true).
Proof.
  apply (household_token_modes (ex_env 100 1) (ex_env 900 1) ex_manager "j" "u" "h" "kid" true
    ex_child_token); [apply ex_has_key|reflexivity|by vm_compute].
Defined.

Lemma backend_well_formed_witness :
  backend_wf (dev_CreateUser (ex_env 1 1) 0 "ada@example.org" "h" "Ada" NewMemoryBackend).2 ∧
  ∀ tx, tx ∈ [clone NewMemoryBackend] → backend_wf tx.
Proof.
  apply (backend_well_formed).
  apply (rtc_l _ _ (NewMemoryBackend, [clone NewMemoryBackend])); [apply (step_begin NewMemoryBackend [])|].
  apply rtc_once, step_write, write_user. reflexivity.
Defined.

Lemma signup_then_login_witness :
  ∃ u s', SignUp (St := memoryState) (Tx := memoryState) any_address ex_stamp ex_service (ex_env 10 1)
      (ex_rand "a") "ada@example.org" "password" "Ada" NewMemoryBackend =
      (Ok (response ex_service (ex_env 10 1) (ex_rand "a") u 2 "owner" 90), s') ∧
    u_ID u = 1%N ∧
    Login ex_service (ex_env 20 5) (ex_rand "b") "ada@example.org" "password" s' =
      (Ok (response ex_service (ex_env 20 5) (ex_rand "b") u 2 "owner" 90),
       with_token ex_service (ex_env 20 5) (u_ID u)
         (token_of ex_manager (refresh_claims ex_service (ex_env 20 5) (ex_rand "b") (u_ID u))) s') ∧
    ∀ level, HasMinimumRole (rbac_view s') (u_ID u) 2 level = Ok (bool_decide (level ≤ 90)%Z).
Proof.
  apply (signup_then_login any_address ex_stamp ex_service (ex_env 10 1) (ex_rand "a") (ex_env 20 5)
    (ex_rand "b") false "salt"); [apply ex_has_key|done|done|apply ex_acceptable|done..].
Defined.

Definition run {St E A} (d : A) (p : outcome E A * St) : A * St :=
  match p with (Ok a, s) => (a, s) | (Err _, s) => (d, s) end.
Lemma run_Ok {St E A} (d : A) (p : outcome E A * St) : is_Ok p.1 = true → p = (Ok (run d p).1, (run d p).2).
Proof. by destruct p as [[a|err] s]. Qed.
Definition no_response : AuthResponse :=
  {| AccessToken := ""; RefreshToken := ""; resp_User := new_user (ex_env 0 0) "" "" "" |}.
Definition signed_up : AuthResponse * memoryState :=
  run no_response (SignUp (St := memoryState) (Tx := memoryState) any_address ex_stamp ex_service
    (ex_env 10 1) (ex_rand "a") "ada@example.org" "password" "Ada" NewMemoryBackend).
Definition refreshed : AuthResponse * memoryState :=
  run no_response (Service_RefreshToken ex_service (ex_env 20 5) (ex_rand "b")
    (RefreshToken signed_up.1) signed_up.2).

Lemma refreshed_Ok :
  is_Ok (Service_RefreshToken ex_service (ex_env 20 5) (ex_rand "b") (RefreshToken signed_up.1)
    signed_up.2).1 = true.
Proof. by vm_compute. Qed.

Lemma refresh_token_rotates_witness :
  refreshTokens refreshed.2 !! HashToken (RefreshToken refreshed.1) =
    Some {| rt_UserID := u_ID (resp_User refreshed.1);
            rt_TokenHash := HashToken (RefreshToken refreshed.1);
            rt_ExpiresAt := (20 * Second + RefreshTokenExpiry_of ex_service)%Z |} ∧
  ∀ e2 r2, ∃ err, Service_RefreshToken ex_service e2 r2 (RefreshToken signed_up.1) refreshed.2 =
    (Err err, refreshed.2).
Proof.
  apply (refresh_token_rotates ex_service (ex_env 20 5) (ex_rand "b") (RefreshToken signed_up.1)
    signed_up.2 refreshed.1 refreshed.2); [apply ex_has_key|exact (run_Ok no_response _ refreshed_Ok)|apply (bool_decide_unpack _); by vm_compute].
Defined.

Lemma navigators_refresh_is_staff_witness :
  ∃ resp s1 resp2 s2,
    SignInNavigators ex_service (ex_env 20 5) (ex_rand "b") "ada@example.org" "password" signed_up.2 =
      (Ok resp, s1) ∧
    Service_RefreshToken ex_service (ex_env 30 7) (ex_rand "c") (RefreshToken resp) s1 = (Ok resp2, s2) ∧
    (∀ t c, ValidateAccessToken t (jwtManager ex_service) (AccessToken resp) = Ok c →
       c_Role c = "" ∧ c_RoleLevel c = 0%Z ∧ c_Scopes c = ["volunteer:field"]) ∧
    ∀ t c, ValidateAccessToken t (jwtManager ex_service) (AccessToken resp2) = Ok c →
       c_Role c = "owner" ∧ c_RoleLevel c = 90%Z ∧ c_Scopes c = [].
Proof.
  apply (navigators_refresh_is_staff ex_service (ex_env 20 5) (ex_rand "b") (ex_env 30 7) (ex_rand "c")
    "ada@example.org" "password" signed_up.2 (resp_User signed_up.1)
    {| mb_CompanyID := 2; mb_UserID := 1; mb_RoleID := OwnerRoleID; mb_RoleName := "owner" |}
    {| ro_ID := OwnerRoleID; ro_Name := "owner"; ro_Description := ""; ro_RoleLevel := 90 |});
    [apply ex_has_key|split; by vm_compute|by vm_compute..].
Defined.

Definition ex_stored : RefreshTokenRecord :=
  {| rt_UserID := 1; rt_TokenHash := HashToken (RefreshToken signed_up.1);
     rt_ExpiresAt := (10 * Second + 7 * 24 * Hour)%Z |}.
Definition ex_owner : Membership :=
  {| mb_CompanyID := 2; mb_UserID := 1; mb_RoleID := OwnerRoleID; mb_RoleName := "owner" |}.
Definition ex_role : Role :=
  {| ro_ID := OwnerRoleID; ro_Name := "owner"; ro_Description := ""; ro_RoleLevel := 90 |}.

Lemma concurrent_refresh_witness :
  let tok := RefreshToken signed_up.1 in
  let s := signed_up.2 in
  let resp1 := response ex_service (ex_env 20 5) (ex_rand "b") (resp_User signed_up.1) 2 "owner" 90 in
  let resp2 := response ex_service (ex_env 20 7) (ex_rand "c") (resp_User signed_up.1) 2 "owner" 90 in
  refresh_lookup ex_service (ex_env 20 5) tok s = (Ok ex_stored, s) ∧
  refresh_lookup ex_service (ex_env 20 7) tok s = (Ok ex_stored, s) ∧
  ∃ s1 s2, refresh_rotate ex_service (ex_env 20 5) (ex_rand "b") tok ex_stored s = (Ok resp1, s1) ∧
    refresh_rotate ex_service (ex_env 20 7) (ex_rand "c") tok ex_stored s1 = (Ok resp2, s2) ∧
    is_Some (refreshTokens s2 !! HashToken (RefreshToken resp1)) ∧
    is_Some (refreshTokens s2 !! HashToken (RefreshToken resp2)).
Proof.
  apply (concurrent_refresh ex_service (ex_env 20 5) (ex_rand "b") (ex_env 20 7) (ex_rand "c")
    (RefreshToken signed_up.1) ex_stored signed_up.2 (resp_User signed_up.1) ex_owner ex_role);
    [apply ex_has_key|by vm_compute..|apply (bool_decide_unpack _); by vm_compute].
Defined.

Definition ex_txA : AuthResponse * memoryState :=
  run no_response (SignUp_tx (Tx := memoryState) ex_stamp ex_service (ex_env 10 1) (ex_rand "a")
    "ada@example.org" "hash" "Ada" (clone NewMemoryBackend)).
Definition ex_signupB : AuthResponse * memoryState :=
  run no_response (SignUp (St := memoryState) (Tx := memoryState) any_address ex_stamp ex_service
    (ex_env 11 5) (ex_rand "b") "bob@example.org" "password" "Ada" NewMemoryBackend).

Lemma ex_txA_Ok :
  is_Ok (SignUp_tx (Tx := memoryState) ex_stamp ex_service (ex_env 10 1) (ex_rand "a")
    "ada@example.org" "hash" "Ada" (clone NewMemoryBackend)).1 = true.
Proof. by vm_compute. Qed.
Lemma ex_signupB_Ok :
  is_Ok (SignUp (St := memoryState) (Tx := memoryState) any_address ex_stamp ex_service
    (ex_env 11 5) (ex_rand "b") "bob@example.org" "password" "Ada" NewMemoryBackend).1 = true.
Proof. by vm_compute. Qed.

Lemma concurrent_signup_lost_witness :
  let final := (dev_Commit ex_txA.2 ex_signupB.2).2 in
  usersByEmail final !! normalized (normalized "ada@example.org") = Some (u_ID (resp_User ex_txA.1)) ∧
  usersByEmail final !! normalized (normalized "bob@example.org") = None ∧
  ∀ e r, ∃ err, Service_RefreshToken ex_service e r (RefreshToken ex_signupB.1) final = (Err err, final).
Proof.
  apply (concurrent_signup_lost any_address ex_stamp ex_service (ex_env 10 1) (ex_rand "a")
    "ada@example.org" "hash" "Ada" (ex_env 11 5) (ex_rand "b") "bob@example.org" "password" "Ada"
    NewMemoryBackend ex_txA.1 ex_txA.2 ex_signupB.1 ex_signupB.2);
    [apply ex_has_key|apply (bool_decide_unpack _); by vm_compute|apply ex_acceptable|exact (run_Ok no_response _ ex_txA_Ok)|done|done
    |by eexists|exact (run_Ok no_response _ ex_signupB_Ok)|done|by vm_compute|apply (bool_decide_unpack _); by vm_compute].
Defined.
End examples.
