(* ===== verification/Issuer.v ===== *)
(** * The AO ID OIDC issuer (internal/aoid/issuer, internal/aoid/clients)

    clients.go: the client registry; codes.go: authorization codes and their
    in-memory store; issuer.go: login sessions and the authorize endpoint;
    login.go: the login page; token.go: the token endpoint; userinfo.go: the
    userinfo endpoint.  A handler is a program over the state of the issuer that
    answers with a [Response]; an early return is an error of the monad.  The
    theorems are in [IssuerProofs]. *)

From S2P Require Import Prelude Encoding Password Rbac Company Auth.

(** ** clients/clients.go *)

Definition AODexClientID : string := "aodex-pilot".
Definition ClientTypeConfidential : string := "confidential".
Definition ClientTypePublic : string := "public".

Record Client : Type := {
  cl_ID : string;
  cl_SecretHash : string;
  cl_Name : string;
  cl_Type : string;
  cl_RedirectURIs : list string;
  cl_AllowedScopes : list string;
  cl_AllowedGrants : list string;
  cl_AuthMethod : string;
  cl_CreatedAt : time;
}.

Definition containsString (haystack : list string) (needle : string) : bool :=
  any (λ h, bool_decide (h = needle)) haystack.
Definition Client_HasScope (c : Client) (s : string) : bool := containsString (cl_AllowedScopes c) s.
Definition Client_HasGrant (c : Client) (g : string) : bool := containsString (cl_AllowedGrants c) g.

Inductive issuer_error : Type :=
  | ErrClientNotFound
  | ErrDuplicateClient
  | ErrInvalidSecret
  | ErrInvalidRedirect
  | ErrCodeNotFound
  | ErrCodeExpired
  | ErrCodeConsumed
  | ErrSessionNotFound.
#[export] Instance issuer_error_eq_dec : EqDecision issuer_error.
Proof. solve_decision. Defined.
Abbreviation ierr := (goerr issuer_error) (only parsing).

Abbreviation MemoryRegistry := (gmap string Client) (only parsing).

Definition NewMemoryRegistry : MemoryRegistry := ∅.

Definition Lookup (r : MemoryRegistry) (clientID : string) : outcome ierr Client :=
  match r !! clientID with
  | None => Err (Sentinel ErrClientNotFound)
  | Some c => Ok c
  end.

Definition stamped (e : Env) (c : Client) : Client :=
  {| cl_ID := cl_ID c; cl_SecretHash := cl_SecretHash c; cl_Name := cl_Name c; cl_Type := cl_Type c;
     cl_RedirectURIs := cl_RedirectURIs c; cl_AllowedScopes := cl_AllowedScopes c;
     cl_AllowedGrants := cl_AllowedGrants c; cl_AuthMethod := cl_AuthMethod c;
     cl_CreatedAt := if IsZero (cl_CreatedAt c) then now e else cl_CreatedAt c |}.

Definition Register (e : Env) (client : Client) : prog MemoryRegistry ierr unit := λ r,
  if bool_decide (cl_ID client = "") then (Err (Errorf "clients: client ID required"), r)
  else match r !! cl_ID client with
       | Some _ => (Err (Sentinel ErrDuplicateClient), r)
       | None => (Ok tt, <[cl_ID client := stamped e client]> r)
       end.

Section registry.
Context {H : Sha256}.

Definition Authenticate (r : MemoryRegistry) (clientID secret : string) : outcome ierr Client :=
  match Lookup r clientID with
  | Err err => Err err
  | Ok c =>
      if bool_decide (cl_SecretHash c = "") then Err (Sentinel ErrInvalidSecret)
      else match hex_DecodeString (cl_SecretHash c) with
           | None => Err (Sentinel ErrInvalidSecret)
           | Some want =>
               if bool_decide (want = sha256 secret) then Ok c else Err (Sentinel ErrInvalidSecret)
           end
  end.

Definition ValidateRedirect (client : Client) (redirectURI : string) : outcome ierr unit :=
  if containsString (cl_RedirectURIs client) redirectURI then Ok tt
  else Err (Sentinel ErrInvalidRedirect).

Definition HashSecret (secret : string) : string := hex_EncodeToString (sha256 secret).

Definition AODex (clientSecret : string) (redirectURIs : list string) : Client :=
  {| cl_ID := AODexClientID; cl_SecretHash := HashSecret clientSecret; cl_Name := "AODex (pilot)";
     cl_Type := ClientTypeConfidential; cl_RedirectURIs := redirectURIs;
     cl_AllowedScopes := ["openid"; "profile"; "email"; "offline_access"];
     cl_AllowedGrants := ["authorization_code"; "refresh_token"];
     cl_AuthMethod := "client_secret_basic"; cl_CreatedAt := 0%Z |}.

Definition SeedAODex (e : Env) (clientSecret : string) (redirectURIs : list string) :
    prog MemoryRegistry ierr unit :=
  if bool_decide (clientSecret = "") then throw (Errorf "clients: SeedAODex: empty client secret")
  else if bool_decide (redirectURIs = []) then throw (Errorf "clients: SeedAODex: redirect URIs required")
  else
    res ← try (Register e (AODex clientSecret redirectURIs));
    match res with
    | Ok tt => mret tt
    | Err err => if errors_Is err ErrDuplicateClient then mret tt else throw err
    end.
End registry.

(** ** issuer/codes.go *)

Record AuthCode : Type := {
  ac_Code : string;
  ac_ClientID : string;
  ac_UserID : string;
  ac_Scope : list string;
  ac_RedirectURI : string;
  ac_CodeChallenge : string;
  ac_CodeChallengeMethod : string;
  ac_Nonce : string;
  ac_ExpiresAt : time;
  ac_CreatedAt : time;
}.

Abbreviation MemoryCodeStore := (gmap string AuthCode) (only parsing).

Definition Save (c : AuthCode) : prog MemoryCodeStore ierr unit := λ s,
  if bool_decide (ac_Code c = "") then (Err (Errorf "codes: empty code string"), s)
  else if IsZero (ac_ExpiresAt c) then (Err (Errorf "codes: ExpiresAt unset"), s)
  else match s !! ac_Code c with
       | Some _ => (Err (Errorf "codes: duplicate code"), s)
       | None => (Ok tt, <[ac_Code c := c]> s)
       end.

Definition Consume (e : Env) (codeStr : string) : prog MemoryCodeStore ierr AuthCode := λ s,
  match s !! codeStr with
  | None => (Err (Sentinel ErrCodeNotFound), s)
  | Some c =>
      let s := delete codeStr s in
      if After (now e) (ac_ExpiresAt c) then (Err (Sentinel ErrCodeExpired), s) else (Ok c, s)
  end.

(** One tick of the pruner. *)
Definition prune (e : Env) (s : MemoryCodeStore) : MemoryCodeStore :=
  foldl (λ s '(k, c), if After (now e) (ac_ExpiresAt c) then delete k s else s) s
    (range (MapRange := order e) s).

(** [generateCode] encodes 32 random bytes; [None] when the generator fails. *)
Definition generateCode (bytes : option string) : option string :=
  base64_EncodeToString URLAlphabet <$> bytes.

(** ** issuer/issuer.go: sessions *)

Definition SessionCookieName : string := "aoid_session".

Record memSession : Type := { ses_UserID : string; ses_ExpiresAt : time }.
Abbreviation MemorySessionStore := (gmap string memSession) (only parsing).

Definition Session_Create (bytes : option string) (userID : string) (expiresAt : time) :
    prog MemorySessionStore ierr string := λ s,
  match generateCode bytes with
  | None => (Err (Errorf "rand"), s)
  | Some id => (Ok id, <[id := {| ses_UserID := userID; ses_ExpiresAt := expiresAt |}]> s)
  end.

Definition Session_Lookup (e : Env) (sessionID : string) : prog MemorySessionStore ierr string := λ s,
  match s !! sessionID with
  | None => (Err (Sentinel ErrSessionNotFound), s)
  | Some sess =>
      if After (now e) (ses_ExpiresAt sess)
      then (Err (Sentinel ErrSessionNotFound), delete sessionID s)
      else (Ok (ses_UserID sess), s)
  end.

Definition Session_Destroy (sessionID : string) : prog MemorySessionStore ierr unit :=
  modify (delete sessionID).

(** ** HTTP

    A request as net/http delivers it: the first value of each parameter of the
    query and of the body, the credentials and the cookie. *)
Record Request : Type := {
  Method : string;
  Query : gmap string string;
  Body : gmap string string;
  ParseForm_ok : bool;
  BasicAuth : option (string * string);
  Cookie : option string;
  Authorization : string;
}.
Definition FormValue (r : Request) (k : string) : string :=
  match Body r !! k with Some v => v | None => default "" (Query r !! k) end.

Record tokenBundle : Type := {
  tb_AccessToken : string;
  tb_TokenType : string;
  tb_ExpiresIn : Z;
  tb_IDToken : string;
  tb_RefreshToken : string;
  tb_Scope : string;
}.

Record authorizeRequest : Type := {
  ar_ResponseType : string;
  ar_ClientID : string;
  ar_RedirectURI : string;
  ar_Scope : string;
  ar_State : string;
  ar_Nonce : string;
  ar_CodeChallenge : string;
  ar_CodeChallengeMethod : string;
  ar_Prompt : string;
}.

(** [loginPageData] (login.go): the page keeps the request in hidden fields. *)
Record loginPageData : Type := {
  lp_ClientName : string;
  lp_Issuer : string;
  lp_Email : string;
  lp_Error : string;
  lp_Request : authorizeRequest;
}.

(** What a handler answers.  A redirect is a URI and the parameters set in its
    query; [cookie] is the session cookie set on the way. *)
Inductive Response : Type :=
  | HTTPError (status : Z) (msg : string) (cookie : option string)
  | AuthorizeError (code desc : string)
  | Redirect (uri : string) (params : list (string * string)) (cookie : option string)
  | LoginPage (page : loginPageData)
  | TokenError (status : Z) (code desc : string)
  | TokenResponse (b : tokenBundle)
  | Userinfo (sub email : string) (email_verified : bool) (name preferred_username : string).

Definition parseAuthorizeRequest (r : Request) : authorizeRequest :=
  let get k := let v := default "" (Query r !! k) in
               if bool_decide (v ≠ "") then v else FormValue r k in
  {| ar_ResponseType := get "response_type"; ar_ClientID := get "client_id";
     ar_RedirectURI := get "redirect_uri"; ar_Scope := get "scope"; ar_State := get "state";
     ar_Nonce := get "nonce"; ar_CodeChallenge := get "code_challenge";
     ar_CodeChallengeMethod := get "code_challenge_method"; ar_Prompt := get "prompt" |}.

Definition splitScopes (s : string) : list string :=
  if bool_decide (TrimSpace s = "") then [] else strings_Fields s.

(** [IDTokenClaims] (token.go). *)
Record IDTokenClaims : Type := {
  id_Registered : RegisteredClaims;
  id_AuthTime : Z;
  id_Nonce : string;
  id_Email : string;
  id_EmailVerified : bool;
  id_Name : string;
  id_PreferredUsername : string;
}.

Record Config : Type := {
  cfg_IssuerURL : string;
  AuthCodeTTL : duration;
  SessionTTL : duration;
}.
Definition DefaultConfig : Config :=
  {| cfg_IssuerURL := ""; AuthCodeTTL := (10 * Minute)%Z; SessionTTL := (24 * Hour)%Z |}.

(** What a request reads from outside: clock and identifiers, the draws of the
    authentication service, and the bytes of a session and of a code. *)
Record Draws : Type := {
  env : Env;
  rnd : Rand;
  session_bytes : option string;
  code_bytes : option string;
}.

Section issuer.
Context {U : UuidText} {C : UnicodeCase} {H : Sha256} {K : KeyDerivation} {J : JWTLib}.
(** [url.Parse] accepts a redirect URI; the signature of an ID token. *)
Context (url_Parse : string → bool) (SignedIDToken : string → PrivateKey → IDTokenClaims → string).
Context {St : Type} {S : AuthStore St}.

(** The fields of an [Issuer] a request cannot change, and those it can. *)
Record Issuer_fields : Type := {
  is_Config : Config;
  is_Auth : Service;
  is_JWT : JWTManager;
}.
Definition New (cfg : Config) (authSvc : Service) (jwt : JWTManager) : Issuer_fields :=
  {| is_Config := {| cfg_IssuerURL := cfg_IssuerURL cfg;
                     AuthCodeTTL := if bool_decide (AuthCodeTTL cfg = 0%Z) then (10 * Minute)%Z
                                    else AuthCodeTTL cfg;
                     SessionTTL := if bool_decide (SessionTTL cfg = 0%Z) then (24 * Hour)%Z
                                   else SessionTTL cfg |};
     is_Auth := authSvc; is_JWT := jwt |}.

Record Issuer : Type := {
  Clients : MemoryRegistry;
  Codes : MemoryCodeStore;
  Sessions : MemorySessionStore;
  UserStore : St;
}.
Definition set_Codes (x : MemoryCodeStore) (s : Issuer) : Issuer :=
  {| Clients := Clients s; Codes := x; Sessions := Sessions s; UserStore := UserStore s |}.
Definition set_Sessions (x : MemorySessionStore) (s : Issuer) : Issuer :=
  {| Clients := Clients s; Codes := Codes s; Sessions := x; UserStore := UserStore s |}.
Definition set_UserStore (x : St) (s : Issuer) : Issuer :=
  {| Clients := Clients s; Codes := Codes s; Sessions := Sessions s; UserStore := x |}.
Definition set_Clients (x : MemoryRegistry) (s : Issuer) : Issuer :=
  {| Clients := x; Codes := Codes s; Sessions := Sessions s; UserStore := UserStore s |}.

(** A handler; an error is the response of an early return. *)
Abbreviation handler := (prog Issuer Response Response) (only parsing).

(** A call on a store of the issuer, its two results. *)
Definition on_codes {A} (m : prog MemoryCodeStore ierr A) : prog Issuer Response (outcome ierr A) :=
  zoom Codes set_Codes (λ s, let '(r, s') := m s in (Ok r, s')).
Definition on_sessions {A} (m : prog MemorySessionStore ierr A) : prog Issuer Response (outcome ierr A) :=
  zoom Sessions set_Sessions (λ s, let '(r, s') := m s in (Ok r, s')).
Definition on_auth {A} (m : prog St aerr A) : prog Issuer Response (outcome aerr A) :=
  zoom UserStore set_UserStore (λ s, let '(r, s') := m s in (Ok r, s')).

(** [if err != nil { ...; return }]. *)
Definition or_respond {E A} (r : outcome E A) (resp : Response) : prog Issuer Response A :=
  match r with Ok a => mret a | Err _ => throw resp end.

(** *** The authorize endpoint *)

Definition redirectErr (cookie : option string) (redirectURI code desc state : string) : Response :=
  if url_Parse redirectURI then
    Redirect redirectURI ([("error", code); ("error_description", desc)]
                          ++ (if bool_decide (state = "") then [] else [("state", state)])) cookie
  else HTTPError 400 "bad redirect_uri" cookie.

Definition renderLogin (i : Issuer_fields) (r : Request) (ar : authorizeRequest) (client : Client)
    (errMsg : string) : Response :=
  LoginPage {| lp_ClientName := cl_Name client; lp_Issuer := cfg_IssuerURL (is_Config i);
               lp_Email := FormValue r "email"; lp_Error := errMsg; lp_Request := ar |}.

(** The code [completeAuthorization] saves. *)
Definition code_for (i : Issuer_fields) (d : Draws) (ar : authorizeRequest) (userID code : string) :
    AuthCode :=
  {| ac_Code := code; ac_ClientID := ar_ClientID ar; ac_UserID := userID;
     ac_Scope := splitScopes (ar_Scope ar); ac_RedirectURI := ar_RedirectURI ar;
     ac_CodeChallenge := ar_CodeChallenge ar; ac_CodeChallengeMethod := ar_CodeChallengeMethod ar;
     ac_Nonce := ar_Nonce ar; ac_ExpiresAt := (now (env d) + AuthCodeTTL (is_Config i))%Z;
     ac_CreatedAt := now (env d) |}.

Definition completeAuthorization (i : Issuer_fields) (d : Draws) (ar : authorizeRequest)
    (cookie : option string) (userID : string) : handler :=
  match generateCode (code_bytes d) with
  | None =>
      throw (redirectErr cookie (ar_RedirectURI ar) "server_error" "could not generate code" (ar_State ar))
  | Some code =>
      saved ← on_codes (Save (code_for i d ar userID code));
      _ ← or_respond saved
        (redirectErr cookie (ar_RedirectURI ar) "server_error" "could not persist code" (ar_State ar));
      if url_Parse (ar_RedirectURI ar) then
        mret (Redirect (ar_RedirectURI ar)
          (("code", code) :: (if bool_decide (ar_State ar = "") then [] else [("state", ar_State ar)]))
          cookie)
      else throw (HTTPError 400 "bad redirect_uri" cookie)
  end.

Definition handleLoginPost (i : Issuer_fields) (d : Draws) (r : Request) (ar : authorizeRequest)
    (client : Client) : handler :=
  let email := TrimSpace (FormValue r "email") in
  let password := FormValue r "password" in
  _ ← reject_if (bool_decide (email = "") || bool_decide (password = ""))
    (renderLogin i r ar client "Enter both email and password.");
  logged ← on_auth (Login (is_Auth i) (env d) (rnd d) email password);
  resp ← or_respond logged (renderLogin i r ar client "Invalid email or password.");
  let userID := uuid_String (u_ID (resp_User resp)) in
  sid ← on_sessions (Session_Create (session_bytes d) userID
    (now (env d) + SessionTTL (is_Config i))%Z);
  completeAuthorization i d ar (match sid with Ok id => Some id | Err _ => None end) userID.

Definition currentUser (d : Draws) (r : Request) : prog Issuer Response string :=
  match Cookie r with
  | None => mret ""
  | Some c =>
      uid ← on_sessions (Session_Lookup (env d) c);
      mret (match uid with Ok uid => uid | Err _ => "" end)
  end.

(** The first scope the client may not ask for. *)
Definition refused_scope (client : Client) (scopes : list string) : option string :=
  head (filter (λ s, Client_HasScope client s = false) scopes).

Definition AuthorizeHandler (i : Issuer_fields) (d : Draws) (r : Request) : handler :=
  _ ← reject_if (negb (ParseForm_ok r)) (HTTPError 400 "bad request" None);
  let ar := parseAuthorizeRequest r in
  _ ← reject_if (bool_decide (ar_ClientID ar = "")) (HTTPError 400 "missing client_id" None);
  found ← gets (λ s, Lookup (Clients s) (ar_ClientID ar));
  client ← or_respond found (AuthorizeError "invalid_client" "unknown client_id");
  _ ← reject_if (bool_decide (ar_RedirectURI ar = ""))
    (AuthorizeError "invalid_request" "missing redirect_uri");
  _ ← or_respond (ValidateRedirect client (ar_RedirectURI ar))
    (AuthorizeError "invalid_redirect_uri" "redirect_uri does not match registered URI");
  let fail code desc := redirectErr None (ar_RedirectURI ar) code desc (ar_State ar) in
  _ ← reject_if (bool_decide (ar_ResponseType ar ≠ "code"))
    (fail "unsupported_response_type" "only response_type=code is supported");
  _ ← reject_if (bool_decide (ar_CodeChallenge ar = "") || bool_decide (ar_CodeChallengeMethod ar ≠ "S256"))
    (fail "invalid_request" "code_challenge with method=S256 is required (PKCE)");
  let scopes := splitScopes (ar_Scope ar) in
  _ ← reject_if (negb (containsString scopes "openid")) (fail "invalid_scope" "scope must include openid");
  _ ← (match refused_scope client scopes with
       | Some s => throw (fail "invalid_scope" ("scope %q not allowed for this client: " +:+ s))
       | None => mret tt
       end);
  if bool_decide (Method r = "POST") && bool_decide (FormValue r "aoid_login" = "1") then
    handleLoginPost i d r ar client
  else
    userID ← currentUser d r;
    if bool_decide (userID ≠ "") then completeAuthorization i d ar None userID
    else mret (renderLogin i r ar client "").

(** *** The token endpoint (token.go) *)

Definition extractClientCreds (r : Request) : option (string * string) :=
  match BasicAuth r with
  | Some creds => Some creds
  | None =>
      let cid := FormValue r "client_id" in
      let sec := FormValue r "client_secret" in
      if bool_decide (cid = "") || bool_decide (sec = "") then None else Some (cid, sec)
  end.

Definition verifyPKCE (verifier challenge : string) : bool :=
  bool_decide (base64_EncodeToString URLAlphabet (sha256 verifier) = challenge).

(** [jti d] numbers the identifiers of the tokens of one request. *)
Definition id_claims (i : Issuer_fields) (d : Draws) (user : User) (audience nonce : string)
    (scope : list string) : IDTokenClaims :=
  let t := now (env d) in
  let email := containsString scope "email" in
  let profile := containsString scope "profile" in
  {| id_Registered :=
       {| Subject := uuid_String (u_ID user); Auth.Issuer := cfg_IssuerURL (is_Config i);
          Audience := [audience]; ExpiresAt := Some (NumericDate (t + Hour)%Z);
          IssuedAt := Some (NumericDate t); NotBefore := Some (NumericDate t); JTI := jti (rnd d) 2 |};
     id_AuthTime := (t `div` Second - 62135596800)%Z;
     id_Nonce := nonce;
     id_Email := if email then u_Email user else "";
     id_EmailVerified := if email then u_IsActive user else false;
     id_Name := if profile then u_DisplayName user else "";
     id_PreferredUsername := if email || profile then u_Email user else "" |}.

Definition signIDToken (i : Issuer_fields) (d : Draws) (user : User) (audience nonce : string)
    (scope : list string) : outcome aerr string :=
  match ActivePrivateKey (is_JWT i) with
  | None => Err (Errorf "issuer: no active private key available")
  | Some priv =>
      Ok (SignedIDToken (activeKID (is_JWT i)) priv (id_claims i d user audience nonce scope))
  end.

Definition mintTokens (i : Issuer_fields) (d : Draws) (user : User) (clientID nonce : string)
    (scope : list string) : outcome aerr tokenBundle :=
  match CreateAccessToken (env d) (is_JWT i) (jti (rnd d) 0) (uuid_String (u_ID user)) "" "user" 0 [] with
  | Err err => Err (Wrapf "create access token" err)
  | Ok at_ =>
      match CreateRefreshToken (env d) (is_JWT i) (jti (rnd d) 1) (uuid_String (u_ID user)) with
      | Err err => Err (Wrapf "create refresh token" err)
      | Ok rt =>
          match signIDToken i d user clientID nonce scope with
          | Err err => Err (Wrapf "sign id token" err)
          | Ok idt =>
              Ok {| tb_AccessToken := at_; tb_TokenType := "Bearer"; tb_ExpiresIn := 900;
                    tb_IDToken := idt; tb_RefreshToken := rt; tb_Scope := strings_Join " " scope |}
          end
      end
  end.

Definition writeTokenResponse (b : tokenBundle) : Response :=
  TokenResponse {| tb_AccessToken := tb_AccessToken b;
                   tb_TokenType := if bool_decide (tb_TokenType b = "") then "Bearer" else tb_TokenType b;
                   tb_ExpiresIn := tb_ExpiresIn b; tb_IDToken := tb_IDToken b;
                   tb_RefreshToken := tb_RefreshToken b; tb_Scope := tb_Scope b |}.

Definition persistRefresh (d : Draws) (userID : uuid) (refresh : string) :
    prog Issuer Response (outcome aerr unit) :=
  on_auth (RememberRefreshToken userID refresh (now (env d) + 7 * 24 * Hour)%Z).

Definition handleCodeGrant (i : Issuer_fields) (d : Draws) (r : Request) (client : Client) : handler :=
  _ ← reject_if (negb (Client_HasGrant client "authorization_code"))
    (TokenError 400 "unauthorized_client" "client cannot use authorization_code grant");
  let codeStr := FormValue r "code" in
  _ ← reject_if (bool_decide (codeStr = "")) (TokenError 400 "invalid_request" "code required");
  consumed ← on_codes (Consume (env d) codeStr);
  code ← or_respond consumed
    (TokenError 400 "invalid_grant" "code invalid, expired, or already used");
  _ ← reject_if (bool_decide (ac_ClientID code ≠ cl_ID client))
    (TokenError 400 "invalid_grant" "code was issued to a different client");
  _ ← reject_if (bool_decide (FormValue r "redirect_uri" ≠ ac_RedirectURI code))
    (TokenError 400 "invalid_grant" "redirect_uri does not match the one used at /authorize");
  let verifier := FormValue r "code_verifier" in
  _ ← reject_if (bool_decide (verifier = "")) (TokenError 400 "invalid_request" "code_verifier required");
  _ ← reject_if (negb (verifyPKCE verifier (ac_CodeChallenge code)))
    (TokenError 400 "invalid_grant" "PKCE verification failed");
  match uuid_Parse (ac_UserID code) with
  | None => throw (TokenError 500 "server_error" "bad user id")
  | Some uid =>
      found ← on_auth (as_GetUserByID uid);
      user ← or_respond found (TokenError 500 "server_error" "user lookup failed");
      bundle ← or_respond (mintTokens i d user (cl_ID client) (ac_Nonce code) (ac_Scope code))
        (TokenError 500 "server_error" "could not mint tokens");
      (* an error is logged, no more *)
      _ ← persistRefresh d (u_ID user) (tb_RefreshToken bundle);
      mret (writeTokenResponse bundle)
  end.

Definition handleRefreshGrant (i : Issuer_fields) (d : Draws) (r : Request) (client : Client) : handler :=
  _ ← reject_if (negb (Client_HasGrant client "refresh_token"))
    (TokenError 400 "unauthorized_client" "client cannot use refresh_token grant");
  let rt := FormValue r "refresh_token" in
  _ ← reject_if (bool_decide (rt = "")) (TokenError 400 "invalid_request" "refresh_token required");
  refreshed ← on_auth (Service_RefreshToken (is_Auth i) (env d) (rnd d) rt);
  authResp ← or_respond refreshed
    (TokenError 400 "invalid_grant" "invalid or already-used refresh_token");
  idTok ← or_respond
    (signIDToken i d (resp_User authResp) (cl_ID client) "" ["openid"; "profile"; "email"])
    (TokenError 500 "server_error" "could not mint id token");
  mret (writeTokenResponse
    {| tb_AccessToken := AccessToken authResp; tb_TokenType := ""; tb_ExpiresIn := 900;
       tb_IDToken := idTok; tb_RefreshToken := RefreshToken authResp;
       tb_Scope := "openid profile email" |}).

Definition TokenHandler (i : Issuer_fields) (d : Draws) (r : Request) : handler :=
  _ ← reject_if (bool_decide (Method r ≠ "POST")) (TokenError 405 "invalid_request" "POST required");
  _ ← reject_if (negb (ParseForm_ok r)) (TokenError 400 "invalid_request" "could not parse form");
  match extractClientCreds r with
  | None => throw (TokenError 401 "invalid_client" "client credentials required")
  | Some (clientID, secret) =>
      authenticated ← gets (λ s, Authenticate (Clients s) clientID secret);
      client ← or_respond authenticated (TokenError 401 "invalid_client" "invalid client credentials");
      let grant := FormValue r "grant_type" in
      if bool_decide (grant = "authorization_code") then handleCodeGrant i d r client
      else if bool_decide (grant = "refresh_token") then handleRefreshGrant i d r client
      else if bool_decide (grant = "") then
        throw (TokenError 400 "invalid_request" "grant_type required")
      else throw (TokenError 400 "unsupported_grant_type" "grant_type not supported")
  end.

(** *** The userinfo endpoint (userinfo.go) *)

Definition UserinfoHandler (i : Issuer_fields) (d : Draws) (r : Request) : handler :=
  _ ← reject_if (bool_decide (Method r ≠ "GET") && bool_decide (Method r ≠ "POST"))
    (HTTPError 405 "method not allowed" None);
  _ ← reject_if (negb (String.prefix "Bearer " (Authorization r))) (HTTPError 401 "missing bearer token" None);
  let token := TrimSpace (trim_prefix "Bearer " (Authorization r)) in
  claims ← or_respond (ValidateAccessToken (env d) (is_JWT i) token) (HTTPError 401 "invalid token" None);
  match uuid_Parse (c_UserID claims) with
  | None => throw (HTTPError 401 "bad token sub" None)
  | Some uid =>
      found ← on_auth (as_GetUserByID uid);
      user ← or_respond found (HTTPError 404 "user not found" None);
      mret (Userinfo (uuid_String (u_ID user)) (u_Email user) (u_IsActive user) (u_DisplayName user)
              (u_Email user))
  end.

(** The response written, early or not. *)
Definition respond (m : handler) (s : Issuer) : Response * Issuer :=
  match m s with
  | (Ok resp, s') => (resp, s')
  | (Err resp, s') => (resp, s')
  end.

(** [Mount]: the routes. *)
Inductive route : Type := AuthorizeRoute | TokenRoute | UserinfoRoute.
#[export] Instance route_eq_dec : EqDecision route.
Proof. solve_decision. Defined.
Definition serve (i : Issuer_fields) (p : route) (d : Draws) (r : Request) (s : Issuer) :
    Response * Issuer :=
  match p with
  | AuthorizeRoute => respond (AuthorizeHandler i d r) s
  | TokenRoute => respond (TokenHandler i d r) s
  | UserinfoRoute => respond (UserinfoHandler i d r) s
  end.
End issuer.
