(* ===== verification/IssuerProofs.v ===== *)
(** * The issuer: what the theorems show

    Over the histories of requests the issuer serves: a redirect goes to a URI
    the client registered; an authorization code is exchanged at most as often as
    it was issued, by the client, with the redirect URI and with the PKCE
    verifier it was issued for, within its life, for scopes the client may ask
    for; and what the refresh grant and public clients get. *)

From S2P Require Import Prelude Encoding Password Rbac Company Auth Devstore AuthProofs Issuer.

Section issuer.
Context {U : UuidText} {C : UnicodeCase} {H : Sha256} {K : KeyDerivation} {J : JWTLib}.
Context (url_Parse : string → bool) (SignedIDToken : string → PrivateKey → IDTokenClaims → string).
Context {St : Type} {S : AuthStore St}.
Implicit Types (i : Issuer_fields) (s : @Issuer St).

Abbreviation serve := (serve url_Parse SignedIDToken).

(** ** What a request changes *)

(** Sessions and the store of users apart, two states are the same. *)
Definition same_codes s s' : Prop := Codes s' = Codes s ∧ Clients s' = Clients s.

#[export] Instance same_codes_refl : Reflexive same_codes.
Proof. by split. Qed.
#[export] Instance same_codes_trans : Transitive same_codes.
Proof. intros s1 s2 s3 [H1 H2] [H3 H4]. split; congruence. Qed.

(** Programs that leave clients and codes alone. *)
Definition preserves {A} (m : prog (@Issuer St) Response A) : Prop :=
  ∀ s r s', m s = (r, s') → same_codes s s'.

Lemma preserves_ret {A} (a : A) : preserves (mret a).
Proof. intros s r s' [= <- <-]. done. Qed.
Lemma preserves_throw {A} resp : preserves (A := A) (throw resp).
Proof. intros s r s' [= <- <-]. done. Qed.
Lemma preserves_gets {A} (f : Issuer → A) : preserves (gets f).
Proof. intros s r s' [= <- <-]. done. Qed.
Lemma preserves_reject b (resp : Response) : preserves (reject_if b resp).
Proof. destruct b; [apply preserves_throw|apply preserves_ret]. Qed.
Lemma preserves_respond {E A} (o : outcome E A) resp : preserves (or_respond o resp).
Proof. destruct o; [apply preserves_ret|apply preserves_throw]. Qed.
Lemma preserves_auth {A} (m : prog St aerr A) : preserves (on_auth m).
Proof. intros s r s'. unfold on_auth, zoom. destruct (m (UserStore s)). by intros [= <- <-]. Qed.
Lemma preserves_sessions {A} (m : prog MemorySessionStore ierr A) : preserves (on_sessions m).
Proof. intros s r s'. unfold on_sessions, zoom. destruct (m (Sessions s)). by intros [= <- <-]. Qed.
Lemma preserves_bind {A B} (m : prog (@Issuer St) Response A) (k : A → prog Issuer Response B) :
  preserves m → (∀ a, preserves (k a)) → preserves (m ≫= k).
Proof.
  intros Hm Hk s r s'. unfold mbind, prog_bind. destruct (m s) as [[a|resp] s1] eqn:Hs.
  - intros Hr. transitivity s1; [by eapply Hm|by eapply Hk].
  - intros [= <- <-]. by eapply Hm.
Qed.

(** Programs whose early returns give no tokens. *)
Definition plain {A} (m : prog (@Issuer St) Response A) : Prop :=
  ∀ s resp s' b, m s = (Err resp, s') → resp ≠ TokenResponse b.

Lemma plain_ret {A} (a : A) : plain (mret a).
Proof. intros s r s' b [=]. Qed.
Lemma plain_throw {A} status code desc : plain (A := A) (throw (TokenError status code desc)).
Proof. by intros s r s' b [= <- <-]. Qed.
Lemma plain_reject b status code desc : plain (reject_if b (TokenError status code desc)).
Proof. destruct b; [apply plain_throw|apply plain_ret]. Qed.
Lemma plain_respond {E A} (o : outcome E A) status code desc :
  plain (or_respond o (TokenError status code desc)).
Proof. destruct o; [apply plain_ret|apply plain_throw]. Qed.
Lemma plain_auth {A} (m : prog St aerr A) : plain (on_auth m).
Proof. intros s r s' b. unfold on_auth, zoom. by destruct (m (UserStore s)). Qed.
Lemma plain_codes {A} (m : prog MemoryCodeStore ierr A) : plain (on_codes m).
Proof. intros s r s' b. unfold on_codes, zoom. by destruct (m (Codes s)). Qed.
Lemma plain_bind {A B} (m : prog (@Issuer St) Response A) (k : A → prog Issuer Response B) :
  plain m → (∀ a, plain (k a)) → plain (m ≫= k).
Proof.
  intros Hm Hk s r s' b. unfold mbind, prog_bind. destruct (m s) as [[a|resp] s1] eqn:Hs.
  - by eapply Hk.
  - intros [= <- <-]. by eapply Hm.
Qed.

(** A program that gets past its first part. *)
Lemma bind_inv {A B} (m : prog (@Issuer St) Response A) (k : A → prog Issuer Response B) s r s' :
  (m ≫= k) s = (r, s') →
  (∃ a s1, m s = (Ok a, s1) ∧ k a s1 = (r, s')) ∨ (∃ resp, m s = (Err resp, s') ∧ r = Err resp).
Proof.
  unfold mbind, prog_bind. destruct (m s) as [[a|resp] s1]; [eauto|]. intros [= <- <-]. eauto.
Qed.
Lemma reject_inv b (resp : Response) s r s' :
  reject_if (St := @Issuer St) b resp s = (r, s') → s' = s ∧ r = if b then Err resp else Ok tt.
Proof. destruct b; by intros [= <- <-]. Qed.
Lemma respond_inv {E A} (o : outcome E A) resp s r s' :
  or_respond (St := St) o resp s = (r, s') →
  s' = s ∧ ((∃ a, o = Ok a ∧ r = Ok a) ∨ r = Err resp).
Proof. destruct o; intros [= <- <-]; split; eauto. Qed.
End issuer.

Create HintDb issuer.
#[global] Hint Unfold persistRefresh : issuer.
#[global] Hint Resolve preserves_ret preserves_throw preserves_gets preserves_reject preserves_respond
  preserves_auth preserves_sessions preserves_bind : issuer.
#[global] Hint Resolve plain_ret plain_throw plain_reject plain_respond plain_auth plain_codes : issuer.
Ltac plainly := repeat (first [apply plain_bind; [|intros ?] | case_match | solve [eauto with issuer]]).
Ltac preserve := repeat (first [apply preserves_bind; [|intros ?] | case_match | solve [eauto with issuer]]).

Section handlers.
Context {U : UuidText} {C : UnicodeCase} {H : Sha256} {K : KeyDerivation} {J : JWTLib}.
Context (url_Parse : string → bool) (SignedIDToken : string → PrivateKey → IDTokenClaims → string).
Context {St : Type} {S : AuthStore St}.
Implicit Types (i : Issuer_fields) (s : @Issuer St).

Lemma refresh_preserves i d r client : preserves (handleRefreshGrant (St := St) SignedIDToken i d r client).
Proof. unfold handleRefreshGrant. preserve. Qed.
Lemma userinfo_preserves i d r : preserves (UserinfoHandler (St := St) i d r).
Proof. unfold UserinfoHandler. preserve. Qed.

(** What [handleCodeGrant] does to the codes, and what holds when it answers with
    tokens. *)
Definition exchange_of (i : Issuer_fields) (d : Draws) (r : Request) (client : Client) s (ac : AuthCode)
    (b : tokenBundle) : Prop :=
  Codes s !! FormValue r "code" = Some ac ∧ (now (env d) ≤ ac_ExpiresAt ac)%Z ∧
  ac_ClientID ac = cl_ID client ∧ FormValue r "redirect_uri" = ac_RedirectURI ac ∧
  verifyPKCE (FormValue r "code_verifier") (ac_CodeChallenge ac) = true ∧
  tb_Scope b = strings_Join " " (ac_Scope ac).

Lemma handleCodeGrant_effect i d r client s res s' :
  handleCodeGrant SignedIDToken i d r client s = (res, s') →
  Clients s' = Clients s ∧
  (Codes s' = Codes s ∨ Codes s' = delete (FormValue r "code") (Codes s)).
Proof.
  unfold handleCodeGrant. intros Hr.
  apply bind_inv in Hr as [([] & s1 & Hg & Hr)|(? & Hg & ->)]; apply reject_inv in Hg as [-> _]; [|by auto].
  apply bind_inv in Hr as [([] & s1 & Hg & Hr)|(? & Hg & ->)]; apply reject_inv in Hg as [-> _]; [|by auto].
  apply bind_inv in Hr as [(consumed & s1 & Hc & Hr)|(? & Hc & ->)];
    unfold on_codes, zoom, Consume in Hc.
  2: { repeat case_match; simplify_eq. }
  match type of Hr with ?m s1 = _ => assert (preserves m) as Hm by preserve end.
  apply Hm in Hr as [Hco Hcl]. rewrite Hco, Hcl.
  repeat case_match; simplify_eq/=; auto.
Qed.

Lemma handleCodeGrant_tokens i d r client s b s' :
  handleCodeGrant SignedIDToken i d r client s = (Ok (TokenResponse b), s') →
  Codes s' = delete (FormValue r "code") (Codes s) ∧ ∃ ac, exchange_of i d r client s ac b.
Proof.
  unfold handleCodeGrant. intros Hr.
  apply bind_inv in Hr as [([] & s1 & Hg & Hr)|(? & Hg & ?)]; [apply reject_inv in Hg as [-> _]|done].
  apply bind_inv in Hr as [([] & s1 & Hg & Hr)|(? & Hg & ?)]; [apply reject_inv in Hg as [-> _]|done].
  apply bind_inv in Hr as [(consumed & s1 & Hc & Hr)|(? & Hc & ?)]; [|done].
  match type of Hr with ?m s1 = _ => assert (preserves m) as Hm by preserve end.
  pose proof (Hm _ _ _ Hr) as [Hco _]. clear Hm. rewrite Hco.
  apply bind_inv in Hr as [(ac & s2 & Hx & Hr)|(? & Hx & ?)]; [|done].
  apply respond_inv in Hx as [-> [(ac' & -> & [= <-])|?]]; [|done].
  assert (Codes s1 = delete (FormValue r "code") (Codes s) ∧ Codes s !! FormValue r "code" = Some ac ∧
    (now (env d) ≤ ac_ExpiresAt ac)%Z) as (-> & Hac & Hexp).
  { unfold on_codes, zoom, Consume, After in Hc.
    destruct (Codes s !! FormValue r "code") as [ac'|] eqn:Hac; [|done].
    destruct (bool_decide (ac_ExpiresAt ac' < now (env d))%Z) eqn:Hexp; simplify_eq/=.
    apply bool_decide_eq_false in Hexp. split_and!; [done..|lia]. }
  split; [done|]. exists ac. unfold exchange_of. split; [done|]. split; [done|].
  do 4 (apply bind_inv in Hr as [([] & ? & Hg & Hr)|(? & Hg & ?)]; [|done];
    apply reject_inv in Hg as [-> Hq];
    match type of Hq with _ = (if ?b then _ else _) => destruct b eqn:?; [done|clear Hq] end).
  repeat match goal with E : bool_decide (_ ≠ _) = false |- _ =>
    apply bool_decide_eq_false, dec_stable in E | E : negb _ = false |- _ => apply negb_false_iff in E end.
  split_and!; [done..|].
  destruct (uuid_Parse (ac_UserID ac)) as [uid|]; [|done].
  apply bind_inv in Hr as [(found & s3 & _ & Hr)|(? & _ & ?)]; [|done].
  apply bind_inv in Hr as [(user & s4 & _ & Hr)|(? & _ & ?)]; [|done].
  apply bind_inv in Hr as [(bundle & s5 & Hb & Hr)|(? & _ & ?)]; [|done].
  apply respond_inv in Hb as [-> [(bundle' & Hb & [= <-])|?]]; [|done].
  apply bind_inv in Hr as [(? & s6 & _ & Hr)|(? & _ & ?)]; [|done].
  injection Hr as <- _. cbn. unfold mintTokens in Hb. repeat case_match; simplify_eq/=. done.
Qed.

(** *** Running a handler *)

Abbreviation respond := (respond (St := St)).

Lemma respond_reject b resp (k : unit → prog (@Issuer St) Response Response) s :
  respond (reject_if b resp ≫= k) s = if b then (resp, s) else respond (k tt) s.
Proof. by destruct b. Qed.
Lemma respond_gets {A} (f : Issuer → A) (k : A → prog (@Issuer St) Response Response) s :
  respond (gets f ≫= k) s = respond (k (f s)) s.
Proof. done. Qed.
Lemma respond_or {E A} (o : outcome E A) resp (k : A → prog (@Issuer St) Response Response) s :
  respond (or_respond o resp ≫= k) s = match o with Ok a => respond (k a) s | Err _ => (resp, s) end.
Proof. by destruct o. Qed.
Lemma respond_bind {A} (m : prog (@Issuer St) Response A) (k : A → prog Issuer Response Response) s :
  respond (m ≫= k) s = match m s with
                       | (Ok a, s1) => respond (k a) s1
                       | (Err resp, s1) => (resp, s1)
                       end.
Proof. unfold respond, Issuer.respond, mbind, prog_bind. by destruct (m s) as [[a|resp] s1]. Qed.
Lemma respond_if b (m m' : prog (@Issuer St) Response Response) s :
  respond (if b : bool then m else m') s = if b then respond m s else respond m' s.
Proof. by destruct b. Qed.

(** The code a response delivers. *)
Definition code_of (resp : Response) : option string :=
  match resp with
  | Redirect _ (("code", c) :: _) _ => Some c
  | _ => None
  end.
Definition redirect_of (resp : Response) : option string :=
  match resp with Redirect uri _ _ => Some uri | _ => None end.

Lemma redirectErr_code cookie uri code desc state : code_of (redirectErr url_Parse cookie uri code desc state) = None.
Proof. unfold redirectErr. by destruct (url_Parse uri). Qed.
Lemma redirectErr_uri cookie uri code desc state u :
  redirect_of (redirectErr url_Parse cookie uri code desc state) = Some u → u = uri.
Proof. unfold redirectErr. destruct (url_Parse uri); cbn; congruence. Qed.

(** What [completeAuthorization] may do: nothing, or save one new code. *)
Definition saves (i : Issuer_fields) (d : Draws) (ar : authorizeRequest) s s' (resp : Response) : Prop :=
  ∃ code uid, Codes s !! code = None ∧ Codes s' = <[code := code_for i d ar uid code]> (Codes s) ∧
    if url_Parse (ar_RedirectURI ar) then code_of resp = Some code else code_of resp = None.

Lemma completeAuthorization_spec i d ar cookie uid s resp s' :
  respond (completeAuthorization url_Parse i d ar cookie uid) s = (resp, s') →
  Clients s' = Clients s ∧ (∀ u, redirect_of resp = Some u → u = ar_RedirectURI ar) ∧
  ((Codes s' = Codes s ∧ code_of resp = None) ∨ saves i d ar s s' resp).
Proof.
  unfold completeAuthorization. destruct (generateCode (code_bytes d)) as [code|].
  2: { intros [= <- <-]. split_and!; [done| |left; split; [done|apply redirectErr_code]].
       intros u. apply redirectErr_uri. }
  rewrite respond_bind. unfold on_codes, zoom, Save.
  destruct (bool_decide (ac_Code _ = "")) eqn:H1; [|destruct (IsZero _) eqn:H2];
    [..|destruct (Codes s !! ac_Code _) eqn:H3]; cbn [fst snd];
    rewrite respond_or.
  1-3: intros [= <- <-]; split_and!; [done| |left; split; [done|apply redirectErr_code]];
       intros u; apply redirectErr_uri.
  unfold saves. destruct (url_Parse (ar_RedirectURI ar)); intros [= <- <-];
    (split_and!; [done|cbn; congruence|right; by exists code, uid]).
Qed.

(** The checks an authorize request passed when it gets a code. *)
Definition authorized (s : @Issuer St) (ar : authorizeRequest) (client : Client) : Prop :=
  Clients s !! ar_ClientID ar = Some client ∧ ar_RedirectURI ar ∈ cl_RedirectURIs client ∧
  ar_CodeChallenge ar ≠ "" ∧ ar_CodeChallengeMethod ar = "S256" ∧
  "openid" ∈ splitScopes (ar_Scope ar) ∧
  ∀ sc, sc ∈ splitScopes (ar_Scope ar) → sc ∈ cl_AllowedScopes client.

Lemma containsString_true l x : containsString l x = true ↔ x ∈ l.
Proof.
  unfold containsString. rewrite any_true. setoid_rewrite bool_decide_eq_true. naive_solver.
Qed.

Lemma refused_scope_None client scopes :
  refused_scope client scopes = None → ∀ sc, sc ∈ scopes → sc ∈ cl_AllowedScopes client.
Proof.
  unfold refused_scope. intros Hn sc Hin. apply containsString_true.
  destruct (containsString (cl_AllowedScopes client) sc) eqn:Hc; [done|exfalso].
  assert (sc ∈ filter (λ x : string, Client_HasScope client x = false) scopes) as Hf by (by apply list_elem_of_filter).
  destruct (filter _ scopes); [by apply not_elem_of_nil in Hf|done].
Qed.

(** What an authorize request may do. *)
Definition authorize_outcome (i : Issuer_fields) (d : Draws) (ar : authorizeRequest) s (resp : Response) s' :
    Prop :=
  Clients s' = Clients s ∧
  (∀ u, redirect_of resp = Some u →
     u = ar_RedirectURI ar ∧ ∃ client, Clients s !! ar_ClientID ar = Some client ∧
       u ∈ cl_RedirectURIs client) ∧
  ((Codes s' = Codes s ∧ code_of resp = None) ∨
   (saves i d ar s s' resp ∧ ∃ client, authorized s ar client)).

Lemma outcome_plain i d ar s resp s' :
  same_codes s s' → redirect_of resp = None → code_of resp = None → authorize_outcome i d ar s resp s'.
Proof. intros [H1 H2] Hr Hc. split_and!; [done|congruence|auto]. Qed.

Lemma outcome_redirectErr i d ar s client cookie code desc state :
  Clients s !! ar_ClientID ar = Some client → ar_RedirectURI ar ∈ cl_RedirectURIs client →
  authorize_outcome i d ar s (redirectErr url_Parse cookie (ar_RedirectURI ar) code desc state) s.
Proof.
  intros Hcl Hu. split_and!; [done| |left; split; [done|apply redirectErr_code]].
  intros u ->%redirectErr_uri. eauto.
Qed.

Lemma outcome_complete i d ar s client cookie uid s1 resp s' :
  authorized s ar client → same_codes s s1 →
  respond (completeAuthorization url_Parse i d ar cookie uid) s1 = (resp, s') →
  authorize_outcome i d ar s resp s'.
Proof.
  intros Ha [Hco Hcl] Hr. destruct (completeAuthorization_spec _ _ _ _ _ _ _ _ Hr) as (H1 & H2 & H3).
  unfold authorize_outcome, saves in *. rewrite Hco, Hcl in *. split_and!; [done| |].
  - intros u ->%H2. split; [done|]. exists client. by destruct Ha as (? & ? & _).
  - destruct H3 as [?|?]; [by left|right]. eauto.
Qed.

Lemma LoginPost_outcome i d r ar client s resp s' :
  authorized s ar client →
  respond (handleLoginPost url_Parse i d r ar client) s = (resp, s') → authorize_outcome i d ar s resp s'.
Proof.
  intros Ha. unfold handleLoginPost. rewrite respond_reject.
  destruct (_ || _); [intros [= <- <-]; by apply outcome_plain|]. rewrite respond_bind.
  destruct (on_auth _ s) as [[logged|?] s1] eqn:Hl; pose proof (preserves_auth _ _ _ _ Hl) as Hs1.
  2: { unfold on_auth, zoom in Hl. by destruct (Login _ _ _ _ _ _). }
  rewrite respond_or. destruct logged as [ar'|]; [|intros [= <- <-]; by apply outcome_plain].
  rewrite respond_bind. destruct (on_sessions _ s1) as [[sid|?] s2] eqn:Hs;
    pose proof (preserves_sessions _ _ _ _ Hs) as Hs2.
  2: { unfold on_sessions, zoom in Hs. by destruct (Session_Create _ _ _ _). }
  apply outcome_complete with client; [done|by transitivity s1].
Qed.

Lemma AuthorizeHandler_outcome i d r s resp s' :
  respond (AuthorizeHandler url_Parse i d r) s = (resp, s') →
  authorize_outcome i d (parseAuthorizeRequest r) s resp s'.
Proof.
  unfold AuthorizeHandler. rewrite respond_reject.
  destruct (negb (ParseForm_ok r)); [intros [= <- <-]; by apply outcome_plain|].
  set (ar := parseAuthorizeRequest r). rewrite respond_reject.
  destruct (bool_decide (ar_ClientID ar = "")); [intros [= <- <-]; by apply outcome_plain|].
  rewrite respond_gets, respond_or. unfold Lookup.
  destruct (Clients s !! ar_ClientID ar) as [client|] eqn:Hcl;
    [|intros [= <- <-]; by apply outcome_plain].
  rewrite respond_reject.
  destruct (bool_decide (ar_RedirectURI ar = "")); [intros [= <- <-]; by apply outcome_plain|].
  rewrite respond_or. unfold ValidateRedirect.
  destruct (containsString (cl_RedirectURIs client) (ar_RedirectURI ar)) eqn:Huri;
    [|intros [= <- <-]; by apply outcome_plain].
  apply containsString_true in Huri. rewrite respond_reject.
  destruct (bool_decide (ar_ResponseType ar ≠ "code"));
    [intros [= <- <-]; by eapply outcome_redirectErr|].
  rewrite respond_reject.
  destruct (_ || _) eqn:Hpkce; [intros [= <- <-]; by eapply outcome_redirectErr|].
  apply orb_false_iff in Hpkce as [Hch%bool_decide_eq_false Hm%bool_decide_eq_false].
  apply dec_stable in Hm. rewrite respond_reject.
  destruct (containsString (splitScopes (ar_Scope ar)) "openid") eqn:Hop; cbn [negb];
    [|intros [= <- <-]; by eapply outcome_redirectErr].
  apply containsString_true in Hop.
  destruct (refused_scope client (splitScopes (ar_Scope ar))) as [sc|] eqn:Href;
    [intros [= <- <-]; by eapply outcome_redirectErr|].
  assert (authorized s ar client) as Ha.
  { split_and!; [done..|]. by apply refused_scope_None. }
  rewrite respond_bind. cbv [mret prog_ret]. rewrite respond_if.
  destruct (_ && _); [by apply LoginPost_outcome|]. rewrite respond_bind.
  destruct (currentUser d r s) as [[uid|resp1] s1] eqn:Hu;
    assert (same_codes s s1) as Hs1 by (unfold currentUser in Hu; revert Hu; generalize s s1;
      clear; intros s0 s2; destruct (Cookie r);
      [|by intros [= <- <-]]; intros Hq; revert Hq; eapply (preserves_bind);
      [apply preserves_sessions|intros; apply preserves_ret]).
  2: { exfalso. unfold currentUser in Hu. destruct (Cookie r); [|done].
       unfold mbind, prog_bind, on_sessions, zoom in Hu. by destruct (Session_Lookup _ _ _). }
  rewrite respond_if. destruct (bool_decide (uid ≠ ""));
    [by eapply outcome_complete|intros [= <- <-]; by apply outcome_plain].
Qed.

(** ** Histories *)

Record event : Type := {
  ev_route : route;
  ev_draws : Draws;
  ev_request : Request;
  ev_response : Response;
}.

(** Redirect URIs are registered in a form net/url parses. *)
Definition registrable (c : Client) : Prop := ∀ u, u ∈ cl_RedirectURIs c → url_Parse u = true.

(** The requests an issuer has served, latest first, and the state they lead to.
    Between requests clients are registered, expired codes pruned, sessions
    destroyed and the store of users changes in any way.  A request is one step;
    two of them meet in the code store only, whose methods run under its lock,
    and each calls it once. *)
Inductive history i : list event → @Issuer St → Prop :=
  | h_start users sessions :
      history i [] {| Clients := ∅; Codes := ∅; Sessions := sessions; UserStore := users |}
  | h_serve p d r h s resp s' :
      history i h s → serve url_Parse SignedIDToken i p d r s = (resp, s') →
      history i ({| ev_route := p; ev_draws := d; ev_request := r; ev_response := resp |} :: h) s'
  | h_register e c h s :
      history i h s → registrable c → history i h (set_Clients (Register e c (Clients s)).2 s)
  | h_prune e h s : history i h s → history i h (set_Codes (prune e (Codes s)) s)
  | h_session m h s : history i h s → history i h (set_Sessions m s)
  | h_users st h s : history i h s → history i h (set_UserStore st s).

(** The code an event delivers, and the code an event exchanges for tokens. *)
Definition issued (ev : event) : option string :=
  match ev_route ev with AuthorizeRoute => code_of (ev_response ev) | _ => None end.
Definition exchanged (ev : event) : option string :=
  match ev_route ev, ev_response ev with
  | TokenRoute, TokenResponse _ =>
      if bool_decide (FormValue (ev_request ev) "grant_type" = "authorization_code")
      then Some (FormValue (ev_request ev) "code") else None
  | _, _ => None
  end.

(** The event that issued a code, and what it was issued for. *)
Definition issue_of (i : Issuer_fields) s (ac : AuthCode) (ev : event) : Prop :=
  let ar := parseAuthorizeRequest (ev_request ev) in
  issued ev = Some (ac_Code ac) ∧ (∃ uid, ac = code_for i (ev_draws ev) ar uid (ac_Code ac)) ∧
  ∃ client, authorized s ar client.

Record issuer_inv (i : Issuer_fields) (h : list event) s : Prop := {
  inv_codes c ac : Codes s !! c = Some ac → ac_Code ac = c ∧ ∃ ev, ev ∈ h ∧ issue_of i s ac ev;
  inv_count c : (count (λ ev, bool_decide (exchanged ev = Some c)) h +
                 match Codes s !! c with Some _ => 1 | None => 0 end ≤
                 count (λ ev, bool_decide (issued ev = Some c)) h)%nat;
  inv_clients id c : Clients s !! id = Some c → cl_ID c = id ∧ registrable c;
}.

(** *** The invariant holds along every history *)

Lemma TokenHandler_outcome i d r s resp s' :
  respond (TokenHandler SignedIDToken i d r) s = (resp, s') →
  Clients s' = Clients s ∧
  (Codes s' = Codes s ∨ Codes s' = delete (FormValue r "code") (Codes s)) ∧
  ∀ b, resp = TokenResponse b → FormValue r "grant_type" = "authorization_code" →
    Codes s' = delete (FormValue r "code") (Codes s) ∧
    ∃ cid secret client ac, extractClientCreds r = Some (cid, secret) ∧
      Authenticate (Clients s) cid secret = Ok client ∧ exchange_of i d r client s ac b.
Proof.
  unfold TokenHandler. rewrite respond_reject.
  destruct (bool_decide (Method r ≠ "POST")); [intros [= <- <-]; split_and!; eauto; done|].
  rewrite respond_reject. destruct (negb (ParseForm_ok r)); [intros [= <- <-]; split_and!; eauto; done|].
  destruct (extractClientCreds r) as [[cid secret]|]; [|intros [= <- <-]; split_and!; eauto; done].
  rewrite respond_gets, respond_or.
  destruct (Authenticate (Clients s) cid secret) as [client|] eqn:Hauth;
    [|intros [= <- <-]; split_and!; eauto; done].
  rewrite respond_if. destruct (bool_decide (FormValue r "grant_type" = "authorization_code")) eqn:Hg.
  - intros Hr. unfold respond, Issuer.respond in Hr.
    destruct (handleCodeGrant SignedIDToken i d r client s) as [res s1] eqn:Hc.
    assert (s1 = s') as -> by (destruct res; congruence).
    destruct (handleCodeGrant_effect _ _ _ _ _ _ _ Hc) as [H1 H2].
    split_and!; [done..|]. intros b -> _.
    destruct res as [resp'|resp']; injection Hr as ->.
    + destruct (handleCodeGrant_tokens _ _ _ _ _ _ _ Hc) as [H3 [ac Hac]]. split; [done|]. eauto 10.
    + exfalso. assert (plain (handleCodeGrant SignedIDToken i d r client)) as Hp
        by (unfold handleCodeGrant, persistRefresh; plainly). by eapply Hp.
  - apply bool_decide_eq_false in Hg. rewrite !respond_if.
    destruct (bool_decide (FormValue r "grant_type" = "refresh_token")).
    + intros Hr. unfold respond, Issuer.respond in Hr.
      destruct (handleRefreshGrant SignedIDToken i d r client s) as [res s1] eqn:Hc.
      pose proof (refresh_preserves _ _ _ _ _ _ _ Hc) as [H1 H2].
      destruct res; simplify_eq; split_and!; eauto; done.
    + destruct (bool_decide _); intros [= <- <-]; split_and!; eauto; done.
Qed.

Lemma prune_subset e (codes : MemoryCodeStore) c ac : prune e codes !! c = Some ac → codes !! c = Some ac.
Proof.
  unfold prune. generalize (range (MapRange := order e) codes) as l. intros l.
  assert (∀ m : MemoryCodeStore, foldl (λ q '(k, x), if After (now e) (ac_ExpiresAt x) then delete k q else q) m l !! c
    = Some ac → m !! c = Some ac) as Hl; [|apply Hl].
  induction l as [|[k x] l IH]; intros m Hm; cbn in *; [done|]. apply IH in Hm.
  destruct (After _ _); [|done]. by apply lookup_delete_Some in Hm as [_ Hm].
Qed.

Lemma issue_of_mono i s s' ac ev :
  (∀ id c, Clients s !! id = Some c → Clients s' !! id = Some c) → issue_of i s ac ev → issue_of i s' ac ev.
Proof.
  intros Hcl (Hi & Hac & client & Ha & Hrest). split_and!; [done..|]. exists client.
  split; [by apply Hcl|done].
Qed.

Lemma count_le_mono {A} (f : A → bool) x l : (count f l ≤ count f (x :: l))%nat.
Proof. rewrite count_cons. lia. Qed.

(** A request that leaves codes and clients alone and delivers nothing. *)
Lemma quiet_inv i h s s' ev :
  issuer_inv i h s → Clients s' = Clients s →
  (Codes s' = Codes s ∨ ∃ c, Codes s' = delete c (Codes s)) → exchanged ev = None →
  issuer_inv i (ev :: h) s'.
Proof.
  intros [I1 I2 I3] Hcl Hco Hx. split; rewrite ?Hcl; [| |done].
  - intros c ac Hc. assert (Codes s !! c = Some ac) as Hc'.
    { destruct Hco as [<-|[k Hk]]; [done|]. rewrite Hk in Hc. by apply lookup_delete_Some in Hc as [_ Hc]. }
    destruct (I1 c ac Hc') as (Hid & ev' & Hin & Hiss). split; [done|]. exists ev'.
    split; [set_solver|]. eapply issue_of_mono; [|done]. by rewrite Hcl.
  - intros c. specialize (I2 c). rewrite !count_cons, Hx.
    assert (match Codes s' !! c with Some _ => 1 | None => 0 end ≤
            match Codes s !! c with Some _ => 1 | None => 0 end)%nat.
    { destruct Hco as [->|[k ->]]; [done|].
      destruct (delete k (Codes s) !! c) eqn:Hd; [|lia].
      apply lookup_delete_Some in Hd as [_ ->]. done. }
    rewrite bool_decide_false by done. lia.
Qed.

Lemma serve_inv i p d r h s resp s' :
  issuer_inv i h s → serve url_Parse SignedIDToken i p d r s = (resp, s') →
  issuer_inv i ({| ev_route := p; ev_draws := d; ev_request := r; ev_response := resp |} :: h) s'.
Proof.
  intros Hinv Hr. destruct p; cbn in Hr.
  - destruct (AuthorizeHandler_outcome _ _ _ _ _ _ Hr) as (Hcl & _ & [[Hco Hc]|[Hs [client Ha]]]).
    { by eapply quiet_inv; eauto. }
    destruct Hs as (code & uid & Hnone & Hco & Hcode). destruct Hinv as [I1 I2 I3].
    assert (registrable client) as Hreg by (destruct Ha as [Ha _]; apply (I3 _ _ Ha)).
    rewrite (Hreg (ar_RedirectURI (parseAuthorizeRequest r))) in Hcode by (by destruct Ha as (_ & ? & _)).
    set (ev := {| ev_route := AuthorizeRoute; ev_draws := d; ev_request := r; ev_response := resp |}).
    split; rewrite ?Hcl; [| |done].
    + intros c ac. rewrite Hco. intros [[<- <-]|[_ Hc]]%lookup_insert_Some.
      * split; [done|]. exists ev. split; [apply elem_of_cons; by left|]. split_and!; [exact Hcode|by exists uid|].
        exists client. unfold authorized. by rewrite Hcl.
      * destruct (I1 c ac Hc) as (Hid & ev' & Hin & Hiss). split; [done|]. exists ev'.
        split; [apply elem_of_cons; by right|]. eapply issue_of_mono; [|done]. by rewrite Hcl.
    + intros c. specialize (I2 c). rewrite !count_cons, Hco. cbn [exchanged ev ev_route].
      rewrite (bool_decide_false (None = Some c)) by done. cbn [issued ev ev_route ev_response].
      rewrite Hcode. destruct (decide (code = c)) as [->|Hne].
      * rewrite lookup_insert_eq, bool_decide_true by done. rewrite Hnone in I2. lia.
      * rewrite lookup_insert_ne by done. rewrite bool_decide_false by congruence. lia.
  - destruct (TokenHandler_outcome _ _ _ _ _ _ Hr) as (Hcl & Hco & Htok).
    set (ev := {| ev_route := TokenRoute; ev_draws := d; ev_request := r; ev_response := resp |}).
    destruct (exchanged ev) as [c|] eqn:Hx.
    2: { eapply quiet_inv; [done|done| |done]. destruct Hco; eauto. }
    assert (∃ b, resp = TokenResponse b ∧ FormValue r "grant_type" = "authorization_code" ∧
      c = FormValue r "code") as (b & -> & Hg & ->).
    { unfold exchanged in Hx. cbn in Hx. destruct resp; try done. case_bool_decide; [|done].
      exists b. by simplify_eq. }
    destruct (Htok b eq_refl Hg) as [Hdel (cid & sec & client & ac & _ & _ & Hac & _)].
    destruct Hinv as [I1 I2 I3]. split; rewrite ?Hcl; [| |done].
    + intros c ac'. rewrite Hdel. intros [_ Hc]%lookup_delete_Some.
      destruct (I1 c ac' Hc) as (Hid & ev' & Hin & Hiss). split; [done|]. exists ev'.
      split; [apply elem_of_cons; by right|]. eapply issue_of_mono; [|done]. by rewrite Hcl.
    + intros c. specialize (I2 c). rewrite !count_cons, Hdel, Hx. cbn [issued ev ev_route].
      rewrite (bool_decide_false (None = Some c)) by done.
      destruct (decide (FormValue r "code" = c)) as [<-|Hne].
      * rewrite lookup_delete_eq, bool_decide_true by done. rewrite Hac in I2. lia.
      * rewrite lookup_delete_ne by done. rewrite bool_decide_false by congruence. lia.
  - assert (same_codes s s') as [Hco Hcl].
    { unfold respond, Issuer.respond in Hr. destruct (UserinfoHandler i d r s) as [res s1] eqn:Hu.
      apply userinfo_preserves in Hu. by destruct res; simplify_eq. }
    eapply quiet_inv; [done|done|by left|done].
Qed.

Lemma issuer_inv_history i h s : history i h s → issuer_inv i h s.
Proof.
  induction 1 as [users sessions|p d r h s resp s' Hh IH Hr|e c h s Hh IH Hc|e h s Hh IH|m h s Hh IH|st h s Hh IH].
  - split; cbn; try (intros *; by rewrite lookup_empty).
  - by eapply serve_inv.
  - destruct IH as [I1 I2 I3].
    assert (∀ id x, Clients s !! id = Some x → (Register e c (Clients s)).2 !! id = Some x) as Hmono.
    { intros id x Hx. unfold Register. destruct (bool_decide _); [done|].
      destruct (Clients s !! cl_ID c) eqn:He; [done|]. cbn. rewrite lookup_insert_ne; congruence. }
    split; cbn; [|done|].
    + intros k ac Hk. destruct (I1 k ac Hk) as (Hid & ev & Hin & Hiss). split; [done|]. exists ev.
      split; [done|]. eapply issue_of_mono; [|done]. done.
    + intros id x. unfold Register. destruct (bool_decide _); [by apply I3|].
      destruct (Clients s !! cl_ID c) eqn:He; [by apply I3|]. cbn.
      intros [[<- <-]|[_ Hx]]%lookup_insert_Some; [done|by apply I3].
  - destruct IH as [I1 I2 I3]. split; cbn; [| |done].
    + intros k ac Hk%prune_subset. exact (I1 k ac Hk).
    + intros k. specialize (I2 k). destruct (prune e (Codes s) !! k) as [ac|] eqn:Hk; [|lia].
      apply prune_subset in Hk. by rewrite Hk in I2.
  - destruct IH as [I1 I2 I3]. split; cbn; [|done..]. exact I1.
  - destruct IH as [I1 I2 I3]. split; cbn; [|done..]. exact I1.
Qed.

(** ** What the histories guarantee *)

(** C11: tokens for an authorization code answer an earlier authorize request
    that delivered this code, and only to the client of that request, with its
    redirect URI, for a verifier whose S256 challenge it carried, before the
    code's life is over; the granted scopes are those of the request, openid
    among them, and the client may ask for each. *)
Theorem code_exchanged_as_issued i h s d r b s' :
  history i h s → serve url_Parse SignedIDToken i TokenRoute d r s = (TokenResponse b, s') →
  FormValue r "grant_type" = "authorization_code" →
  ∃ ev cid secret client, ev ∈ h ∧ issued ev = Some (FormValue r "code") ∧
    extractClientCreds r = Some (cid, secret) ∧ Authenticate (Clients s) cid secret = Ok client ∧
    let ar := parseAuthorizeRequest (ev_request ev) in
    ar_ClientID ar = cid ∧ ar_RedirectURI ar = FormValue r "redirect_uri" ∧
    ar_CodeChallenge ar = base64_EncodeToString URLAlphabet (sha256 (FormValue r "code_verifier")) ∧
    (now (env d) ≤ now (env (ev_draws ev)) + AuthCodeTTL (is_Config i))%Z ∧
    tb_Scope b = strings_Join " " (splitScopes (ar_Scope ar)) ∧
    "openid" ∈ splitScopes (ar_Scope ar) ∧
    ∀ sc, sc ∈ splitScopes (ar_Scope ar) → sc ∈ cl_AllowedScopes client.
Proof.
  intros Hh Hr Hg. pose proof (issuer_inv_history _ _ _ Hh) as [I1 _ I3].
  destruct (TokenHandler_outcome _ _ _ _ _ _ Hr) as (_ & _ & Ht).
  destruct (Ht b eq_refl Hg) as (_ & cid & secret & client & ac & Hcr & Hauth & Hac & Hexp & Hid & Huri & Hpk & Hsc).
  destruct (I1 _ _ Hac) as (Hcode & ev & Hin & Hiss & [uid Heq] & client' & Ha).
  assert (Clients s !! cid = Some client) as Hcl.
  { unfold Authenticate, Lookup in Hauth. repeat case_match; simplify_eq/=; done. }
  assert (cl_ID client = cid) as Hci by apply (I3 _ _ Hcl).
  assert (ar_ClientID (parseAuthorizeRequest (ev_request ev)) = cid) as Har.
  { transitivity (ac_ClientID ac); [by rewrite Heq|congruence]. }
  destruct Ha as (Hl & _ & _ & _ & Hop & Hall). rewrite Har, Hcl in Hl. injection Hl as <-.
  apply bool_decide_eq_true in Hpk.
  assert (ac_RedirectURI ac = ar_RedirectURI (parseAuthorizeRequest (ev_request ev)) ∧
    ac_CodeChallenge ac = ar_CodeChallenge (parseAuthorizeRequest (ev_request ev)) ∧
    ac_Scope ac = splitScopes (ar_Scope (parseAuthorizeRequest (ev_request ev))) ∧
    ac_ExpiresAt ac = now (env (ev_draws ev)) + AuthCodeTTL (is_Config i))%Z as (E1 & E2 & E3 & E4)
    by (by rewrite Heq).
  rewrite E1 in Huri. rewrite E2 in Hpk. rewrite E3 in Hsc. rewrite E4 in Hexp.
  exists ev, cid, secret, client.
  split_and!; try done. by rewrite Hiss, Hcode.
Qed.

(** C12: along every history a code is exchanged for tokens at most as often as
    it was delivered: a code the generator drew once buys tokens once. *)
Theorem code_single_use i h s c :
  history i h s →
  (count (λ ev, bool_decide (exchanged ev = Some c)) h ≤
   count (λ ev, bool_decide (issued ev = Some c)) h)%nat.
Proof. intros Hh%issuer_inv_history. pose proof (inv_count _ _ _ Hh c). lia. Qed.

(** Whatever the request, a redirect of the authorize endpoint, with a code
    or with an error, goes to the request's redirect URI, and this URI is
    registered for the client the request names. *)
Theorem redirects_registered i d r s uri params cookie s' :
  serve url_Parse SignedIDToken i AuthorizeRoute d r s = (Redirect uri params cookie, s') →
  uri = ar_RedirectURI (parseAuthorizeRequest r) ∧
  ∃ client, Clients s !! ar_ClientID (parseAuthorizeRequest r) = Some client ∧
    uri ∈ cl_RedirectURIs client.
Proof.
  intros Hr. destruct (AuthorizeHandler_outcome _ _ _ _ _ _ Hr) as (_ & Hu & _).
  apply (Hu uri). done.
Qed.

(** The registry's comment asks the token endpoint to skip [Authenticate]
    for public clients; it does not: a client without a secret hash is refused
    with 401 whatever it sends. *)
Theorem public_client_rejected i d r s cid c :
  Method r = "POST" → ParseForm_ok r = true → Clients s !! cid = Some c → cl_SecretHash c = "" →
  (∀ creds, extractClientCreds r = Some creds → creds.1 = cid) →
  ∃ desc, serve url_Parse SignedIDToken i TokenRoute d r s = (TokenError 401 "invalid_client" desc, s).
Proof.
  intros Hm Hp Hc Hh Hcr. cbn [Issuer.serve]. unfold TokenHandler.
  rewrite respond_reject, bool_decide_false by (intros Hq; by apply Hq). rewrite respond_reject, Hp. cbn [negb].
  destruct (extractClientCreds r) as [[cid' secret]|]; [|by eexists].
  specialize (Hcr _ eq_refl). cbn in Hcr. subst cid'. rewrite respond_gets, respond_or.
  unfold Authenticate, Lookup. rewrite Hc, Hh. by eexists.
Qed.

(** A refresh token is not bound to the client it was issued to, nor to the
    scopes granted: when one client's request with it is answered, the same
    request is answered with the same tokens for every other client that may use
    the grant, and the scope is always openid, profile and email. *)
Theorem refresh_grant_not_bound i d r client client' s b s' :
  handleRefreshGrant SignedIDToken i d r client s = (Ok (TokenResponse b), s') →
  Client_HasGrant client' "refresh_token" = true →
  tb_Scope b = "openid profile email" ∧
  ∃ b', handleRefreshGrant SignedIDToken i d r client' s = (Ok (TokenResponse b'), s') ∧
    tb_AccessToken b' = tb_AccessToken b ∧ tb_RefreshToken b' = tb_RefreshToken b ∧
    tb_Scope b' = "openid profile email".
Proof.
  unfold handleRefreshGrant, signIDToken. intros Hr Hg. rewrite Hg. cbn [negb].
  destruct (Client_HasGrant client "refresh_token"); [|done]. cbn [negb] in Hr.
  cbv [mbind prog_bind reject_if mret prog_ret throw] in *.
  destruct (bool_decide (FormValue r "refresh_token" = "")); [done|].
  destruct (on_auth _ s) as [[[resp|err]|?] s1]; [|done..]. cbn [or_respond mret prog_ret throw] in *.
  destruct (ActivePrivateKey (is_JWT i)) as [priv|]; [|done]. cbn [or_respond mret prog_ret] in *.
  injection Hr as <- <-. cbn. split; [done|]. eexists. split; [done|]. done.
Qed.
End handlers.

(** ** Examples *)

Section issuer_examples.
#[local] Existing Instances toy_jwt binary_uuid_text ascii_case toy_kdf identity_sha256.
Implicit Types s : @Issuer memoryState.

Definition ex_users : AuthResponse * memoryState :=
  run no_response (SignUp (St := memoryState) (Tx := memoryState) any_address ex_stamp ex_service
    (ex_env 10 3) (ex_rand "a") "ada@example.org" "password" "Ada" NewMemoryBackend).
Definition ex_issuer : Issuer_fields :=
  New {| cfg_IssuerURL := "https://id"; AuthCodeTTL := 0; SessionTTL := 0 |} ex_service ex_manager.
Definition any_url (u : string) : bool := true.
Definition ex_sign (kid : string) (key : string) (c : IDTokenClaims) : string :=
  kid +:+ key +:+ Subject (id_Registered c).
Abbreviation ex_serve := (Issuer.serve (J := toy_jwt) (St := memoryState) any_url ex_sign).

Definition ex_client : Client := AODex "s3cret" ["https://app/cb"].
Definition ex_public : Client :=
  {| cl_ID := "spa"; cl_SecretHash := ""; cl_Name := "SPA"; cl_Type := ClientTypePublic;
     cl_RedirectURIs := ["https://spa/cb"]; cl_AllowedScopes := ["openid"];
     cl_AllowedGrants := ["authorization_code"]; cl_AuthMethod := "none"; cl_CreatedAt := 1 |}.

Definition ex_draws (t : Z) (k : uuid) (code : string) : Draws :=
  {| env := ex_env t k; rnd := ex_rand "t"; session_bytes := Some "session"; code_bytes := Some code |}.

Definition ex_authorize : Request :=
  {| Method := "GET";
     Query := {["response_type" := "code"; "client_id" := "aodex-pilot"; "redirect_uri" := "https://app/cb";
                "scope" := "openid email"; "state" := "xyz"; "nonce" := "n";
                "code_challenge" := base64_EncodeToString URLAlphabet "verifier";
                "code_challenge_method" := "S256"]};
     Body := ∅; ParseForm_ok := true; BasicAuth := None; Cookie := Some "sid"; Authorization := "" |}.
Definition ex_code : string := base64_EncodeToString URLAlphabet "one".
Definition ex_token : Request :=
  {| Method := "POST"; Query := ∅;
     Body := {["grant_type" := "authorization_code"; "code" := ex_code;
               "redirect_uri" := "https://app/cb"; "code_verifier" := "verifier"]};
     ParseForm_ok := true; BasicAuth := Some ("aodex-pilot", "s3cret"); Cookie := None;
     Authorization := "" |}.

Definition ex_s0 : Issuer :=
  {| Clients := ∅; Codes := ∅;
     Sessions := {["sid" := {| ses_UserID := uuid_String 3%N; ses_ExpiresAt := 1000 * Second |}]};
     UserStore := ex_users.2 |}.
Definition ex_s1 : Issuer := set_Clients (Register (ex_env 20 9) ex_client (Clients ex_s0)).2 ex_s0.
Definition ex_s2 : Response * @Issuer memoryState :=
  ex_serve ex_issuer AuthorizeRoute (ex_draws 30 9 "one") ex_authorize ex_s1.
Definition ex_s3 : Response * @Issuer memoryState :=
  ex_serve ex_issuer TokenRoute (ex_draws 40 9 "two") ex_token ex_s2.2.
Definition ex_issued : event :=
  {| ev_route := AuthorizeRoute; ev_draws := ex_draws 30 9 "one"; ev_request := ex_authorize;
     ev_response := ex_s2.1 |}.
Definition ex_exchanged : event :=
  {| ev_route := TokenRoute; ev_draws := ex_draws 40 9 "two"; ev_request := ex_token;
     ev_response := ex_s3.1 |}.

Lemma ex_history2 : history any_url ex_sign ex_issuer [ex_issued] ex_s2.2.
Proof.
  apply h_serve with (s := ex_s1); [|by destruct ex_s2 eqn:E].
  apply h_register; [apply h_start|done].
Qed.

Definition ex_bundle : tokenBundle :=
  match ex_s3.1 with
  | TokenResponse b => b
  | _ => {| tb_AccessToken := ""; tb_TokenType := ""; tb_ExpiresIn := 0; tb_IDToken := "";
            tb_RefreshToken := ""; tb_Scope := "" |}
  end.
Definition is_tokens (resp : Response) : bool := match resp with TokenResponse _ => true | _ => false end.
Lemma ex_tokens : is_tokens ex_s3.1 = true.
Proof. by vm_compute. Qed.
Lemma ex_exchange :
  ex_serve ex_issuer TokenRoute (ex_draws 40 9 "two") ex_token ex_s2.2 = (TokenResponse ex_bundle, ex_s3.2).
Proof.
  unfold ex_bundle. pose proof ex_tokens as Ht. fold ex_s3. destruct ex_s3 as [[] s']; done.
Qed.

Lemma code_exchanged_as_issued_witness :
  ∃ ev cid secret client, ev ∈ [ex_issued] ∧ issued ev = Some (FormValue ex_token "code") ∧
    extractClientCreds ex_token = Some (cid, secret) ∧
    Authenticate (Clients ex_s2.2) cid secret = Ok client ∧
    let ar := parseAuthorizeRequest (ev_request ev) in
    ar_ClientID ar = cid ∧ ar_RedirectURI ar = FormValue ex_token "redirect_uri" ∧
    ar_CodeChallenge ar =
      base64_EncodeToString URLAlphabet (sha256 (FormValue ex_token "code_verifier")) ∧
    (now (env (ex_draws 40 9 "two")) ≤
     now (env (ev_draws ev)) + AuthCodeTTL (is_Config ex_issuer))%Z ∧
    tb_Scope ex_bundle = strings_Join " " (splitScopes (ar_Scope ar)) ∧
    "openid" ∈ splitScopes (ar_Scope ar) ∧
    ∀ sc, sc ∈ splitScopes (ar_Scope ar) → sc ∈ cl_AllowedScopes client.
Proof.
  apply (code_exchanged_as_issued (J := toy_jwt) any_url ex_sign ex_issuer [ex_issued] ex_s2.2 (ex_draws 40 9 "two")
    ex_token ex_bundle ex_s3.2 ex_history2 ex_exchange). reflexivity.
Defined.

Lemma code_single_use_witness :
  (count (λ ev, bool_decide (exchanged ev = Some ex_code)) [ex_exchanged; ex_issued] ≤
   count (λ ev, bool_decide (issued ev = Some ex_code)) [ex_exchanged; ex_issued])%nat.
Proof.
  apply (code_single_use (J := toy_jwt) any_url ex_sign ex_issuer [ex_exchanged; ex_issued] ex_s3.2 ex_code).
  apply h_serve with (s := ex_s2.2); [exact ex_history2|by destruct ex_s3 eqn:E].
Defined.

Definition ex_redirect : string * list (string * string) * option string :=
  match ex_s2.1 with Redirect uri params cookie => (uri, params, cookie) | _ => ("", [], None) end.
Lemma ex_delivered :
  ex_serve ex_issuer AuthorizeRoute (ex_draws 30 9 "one") ex_authorize ex_s1 =
  (Redirect ex_redirect.1.1 ex_redirect.1.2 ex_redirect.2, ex_s2.2).
Proof.
  assert (bool_decide (redirect_of ex_s2.1 = Some "https://app/cb") = true) as Hr by (by vm_compute).
  unfold ex_redirect. fold ex_s2. destruct ex_s2 as [[] s']; done.
Qed.

Lemma redirects_registered_witness :
  ex_redirect.1.1 = ar_RedirectURI (parseAuthorizeRequest ex_authorize) ∧
  ∃ client, Clients ex_s1 !! ar_ClientID (parseAuthorizeRequest ex_authorize) = Some client ∧
    ex_redirect.1.1 ∈ cl_RedirectURIs client.
Proof.
  apply (redirects_registered (J := toy_jwt) any_url ex_sign ex_issuer (ex_draws 30 9 "one") ex_authorize ex_s1 _
    ex_redirect.1.2 ex_redirect.2 ex_s2.2). exact ex_delivered.
Defined.

Definition ex_public_token : Request :=
  {| Method := "POST"; Query := ∅;
     Body := {["grant_type" := "authorization_code"; "client_id" := "spa"; "client_secret" := "any"]};
     ParseForm_ok := true; BasicAuth := None; Cookie := None; Authorization := "" |}.

Lemma public_client_rejected_witness :
  ∃ desc, ex_serve ex_issuer TokenRoute (ex_draws 40 9 "two") ex_public_token
    (set_Clients {["spa" := ex_public]} ex_s0) =
    (TokenError 401 "invalid_client" desc, set_Clients {["spa" := ex_public]} ex_s0).
Proof.
  apply (public_client_rejected (J := toy_jwt) any_url ex_sign ex_issuer (ex_draws 40 9 "two") ex_public_token _ "spa" ex_public);
    [reflexivity..|]. intros creds [= <-]. reflexivity.
Defined.

(** Ada's refresh token, spent by the first client. *)
Definition ex_refresh : Request :=
  {| Method := "POST"; Query := ∅;
     Body := {["grant_type" := "refresh_token"; "refresh_token" := RefreshToken ex_users.1]};
     ParseForm_ok := true; BasicAuth := None; Cookie := None; Authorization := "" |}.
Definition ex_other : Client :=
  {| cl_ID := "other"; cl_SecretHash := "ff"; cl_Name := "Other"; cl_Type := ClientTypeConfidential;
     cl_RedirectURIs := []; cl_AllowedScopes := ["openid"]; cl_AllowedGrants := ["refresh_token"];
     cl_AuthMethod := "client_secret_basic"; cl_CreatedAt := 1 |}.
Abbreviation ex_grant := (handleRefreshGrant (J := toy_jwt) (St := memoryState) ex_sign ex_issuer
  (ex_draws 40 5 "two") ex_refresh).
Definition ex_granted : tokenBundle * @Issuer memoryState :=
  match ex_grant ex_client ex_s0 with
  | (Ok (TokenResponse b), s) => (b, s)
  | (_, s) => (ex_bundle, s)
  end.
Lemma ex_granted_Ok : ex_grant ex_client ex_s0 = (Ok (TokenResponse ex_granted.1), ex_granted.2).
Proof.
  assert (match (ex_grant ex_client ex_s0).1 with Ok resp => is_tokens resp | _ => false end = true) as Hr
    by (by vm_compute).
  unfold ex_granted. destruct (ex_grant ex_client ex_s0) as [[[]|] s']; done.
Qed.

Lemma refresh_grant_not_bound_witness :
  tb_Scope ex_granted.1 = "openid profile email" ∧
  ∃ b', ex_grant ex_other ex_s0 = (Ok (TokenResponse b'), ex_granted.2) ∧
    tb_AccessToken b' = tb_AccessToken ex_granted.1 ∧ tb_RefreshToken b' = tb_RefreshToken ex_granted.1 ∧
    tb_Scope b' = "openid profile email".
Proof.
  apply (refresh_grant_not_bound (J := toy_jwt) ex_sign ex_issuer (ex_draws 40 5 "two") ex_refresh ex_client ex_other
    ex_s0 _ _ ex_granted_Ok). reflexivity.
Defined.
End issuer_examples.
