(* ===== verification/Experience.v ===== *)
(** * Experience contracts (platform/experience)

    contract_version.go, version_negotiation.go: versions and what a binary does
    with a spec; navgraph.go, presentation.go, tooling.go, agentspec.go: the
    checks of a spec; binding.go, repository.go and the two stub repositories:
    scopes; resolve.go, content_hash.go: resolution and its cache key;
    dispatcher.go: the stub dispatcher; spec_store.go, router.go, handler.go: the
    service.  Protobuf messages are records of the fields the code reads, with
    the others kept as one datum; encoding/json and the deterministic marshaling
    of a message are parameters.  The theorems are in [ExperienceProofs]. *)

From S2P Require Import Prelude Encoding Password Rbac Company Auth.

Inductive experience_error : Type :=
  | ErrScopeDenied
  | ErrTransportNotSupported
  | ErrDispatchDenied
  | ErrDispatchExternalDeferred
  | ErrDispatchInvalidInput
  | ErrResolutionDenied.
#[export] Instance experience_error_eq_dec : EqDecision experience_error.
Proof. solve_decision. Defined.
Abbreviation xerr := (goerr experience_error) (only parsing).

(** ** contract_version.go *)

Inductive ChangeClass : Type := ChangeNone | ChangeMinor | ChangeBreaking | ChangeOther (n : Z).
#[export] Instance ChangeClass_eq_dec : EqDecision ChangeClass.
Proof. solve_decision. Defined.

Record FieldDescriptor : Type := { fd_Number : Z; fd_Name : string; fd_Kind : string }.
#[export] Instance FieldDescriptor_eq_dec : EqDecision FieldDescriptor.
Proof. solve_decision. Defined.

Definition indexByNumber (fields : list FieldDescriptor) : gmap Z FieldDescriptor :=
  foldl (λ m f, <[fd_Number f := f]> m) ∅ fields.

(** The old field is gone, or something else has its number. *)
Definition field_breaks (newByNum : gmap Z FieldDescriptor) (num : Z) (old : FieldDescriptor) : bool :=
  match newByNum !! num with
  | None => true
  | Some new => bool_decide (fd_Name new ≠ fd_Name old) || bool_decide (fd_Kind new ≠ fd_Kind old)
  end.

Definition ClassifyChange (e : Env) (oldFields newFields : list FieldDescriptor) : ChangeClass :=
  let oldByNum := indexByNumber oldFields in
  let newByNum := indexByNumber newFields in
  if any (λ '(num, old), field_breaks newByNum num old) (range (MapRange := order e) oldByNum)
  then ChangeBreaking
  else if any (λ '(num, _), match oldByNum !! num with None => true | Some _ => false end)
            (range (MapRange := order e) newByNum)
  then ChangeMinor else ChangeNone.

(** One component of a dotted version; a missing one is 0. *)
Definition semver_component (parts : list string) (i : nat) : option Z :=
  match parts !! i with None => Some 0%Z | Some p => Atoi (bytes (TrimSpace p)) end.
Definition parseSemver (v : string) : option (Z * Z * Z) :=
  let parts := split_on "." (TrimSpace v) in
  major ← semver_component parts 0;
  minor ← semver_component parts 1;
  patch ← semver_component parts 2;
  Some (major, minor, patch).

Definition BumpVersion (version : string) (class : ChangeClass) : outcome xerr string :=
  match class with
  | ChangeBreaking => Err (Errorf "contract: a BREAKING change is forbidden")
  | ChangeNone => Ok version
  | ChangeMinor =>
      match parseSemver version with
      | None => Err (Errorf "contract: malformed semver")
      | Some (major, minor, _) =>
          Ok (pretty major +:+ "." +:+ pretty (wrap64 (minor + 1)) +:+ ".0")
      end
  | ChangeOther _ => Err (Errorf "contract: unknown change class")
  end.

(** ** The messages *)

Inductive UnknownSurfacePolicy : Type := Policy_IGNORE | Policy_BLOCK_UPGRADE | Policy_RENDER_DEGRADED | Policy_Other (n : Z).
Inductive Placement : Type := PLACEMENT_PRIMARY | PLACEMENT_Other (n : Z).
#[export] Instance Placement_eq_dec : EqDecision Placement.
Proof. solve_decision. Defined.
Inductive OfflinePolicy : Type :=
  | OFFLINE_UNSPECIFIED | OFFLINE_NONE | OFFLINE_READ_CACHE | OFFLINE_READ_WRITE_QUEUE | OFFLINE_Other (n : Z).
Inductive ConflictPolicy : Type := CONFLICT_UNSPECIFIED | CONFLICT_Other (n : Z).
#[export] Instance ConflictPolicy_eq_dec : EqDecision ConflictPolicy.
Proof. solve_decision. Defined.
Inductive TransportKind : Type := TRANSPORT_UNSPECIFIED | TRANSPORT_CONNECT | TRANSPORT_REST_OPENAPI | TRANSPORT_Other (n : Z).
#[export] Instance TransportKind_eq_dec : EqDecision TransportKind.
Proof. solve_decision. Defined.
Inductive ScopeAuthority : Type := AUTHORITY_UNSPECIFIED | AUTHORITY_COMPANY | AUTHORITY_ORG | AUTHORITY_Other (n : Z).
#[export] Instance ScopeAuthority_eq_dec : EqDecision ScopeAuthority.
Proof. solve_decision. Defined.
Inductive SideEffect : Type := SIDE_EFFECT_READ | SIDE_EFFECT_WRITE | SIDE_EFFECT_EXTERNAL | SIDE_EFFECT_Other (n : Z).
#[export] Instance SideEffect_eq_dec : EqDecision SideEffect.
Proof. solve_decision. Defined.
Inductive ToolVisibility : Type := INTERNAL_ONLY | EXTERNAL_SAFE | VISIBILITY_Other (n : Z).
#[export] Instance ToolVisibility_eq_dec : EqDecision ToolVisibility.
Proof. solve_decision. Defined.
Inductive AgentAudience : Type := AUDIENCE_INTERNAL | AUDIENCE_EXTERNAL | AUDIENCE_BOTH | AUDIENCE_Other (n : Z).
#[export] Instance AgentAudience_eq_dec : EqDecision AgentAudience.
Proof. solve_decision. Defined.

Record NavSlot : Type := { ns_SurfaceId : string; ns_Placement : Placement }.
Record NavEdge : Type := { ne_FromSurfaceId : string; ne_ToSurfaceId : string }.
Record NavGraph : Type := { ng_LandingSurfaceId : string; ng_Slots : list NavSlot; ng_Edges : list NavEdge }.
Record OfflineSpec : Type := { of_Policy : OfflinePolicy; of_ConflictPolicy : ConflictPolicy }.
Record LockedSurface : Type := { ls_SurfaceId : string; ls_UpsellReason : string }.
Record ResolutionContext : Type := {
  rc_TenantId : string;
  rc_OrgId : string;
  rc_ResolvedAt : string;
  rc_ResolverVersion : string;
}.
(** [sp_Other] is what no operation reads or changes. *)
Record ExperienceSpec : Type := {
  sp_SpecSchemaVersion : string;
  sp_SurfaceContractVersion : string;
  sp_ContentHash : string;
  sp_MinBinaryVersion : string;
  sp_TenantId : string;
  sp_OrgId : string;
  sp_ReferencedSurfaceIds : list string;
  sp_UnknownSurfacePolicy : UnknownSurfacePolicy;
  sp_NavGraph : option NavGraph;
  sp_Timezone : string;
  sp_SurfaceOffline : gmap string (option OfflineSpec);
  sp_ResolutionContext : option ResolutionContext;
  sp_LockedSurfaces : list LockedSurface;
  sp_Other : string;
}.
Record AppDefinition : Type := { ad_Id : string; ad_Spec : option ExperienceSpec; ad_Other : string }.
Record SurfaceRegistryManifest : Type := { sm_ContractVersion : string; sm_KnownSurfaceIds : list string }.
Record ToolDefinition : Type := {
  td_AdapterId : string;
  td_InputSchema : string;
  td_OutputSchema : string;
  td_SideEffect : SideEffect;
  td_Visibility : ToolVisibility;
}.
#[export] Instance ToolDefinition_eq_dec : EqDecision ToolDefinition.
Proof. solve_decision. Defined.
Record AgentNode : Type := { an_ToolIds : list string; an_IoEnvelopeSchema : string }.
Record AudienceBinding : Type := { ab_Audience : AgentAudience; ab_ToolIds : list string }.
Record AgentSpec : Type := {
  as_CompanyId : string;
  as_Persona : string;
  as_ModelRef : string;
  as_Tools : list ToolDefinition;
  as_MaxSteps : Z;
  as_Audience : AgentAudience;
  as_AudienceBindings : list AudienceBinding;
}.
Record CredentialRef : Type := { cr_Ref : string; cr_Custody : string }.
Record ServiceTransportBinding : Type := {
  sb_Operations : list Z;
  sb_TransportKind : TransportKind;
  sb_ScopeAuthority : ScopeAuthority;
}.

(** [fixtures.ResolutionTuple]. *)
Record ResolutionTuple : Type := {
  rt_Role : string;
  rt_FormFactor : string;
  rt_TenantID : string;
  rt_OrgID : string;
  rt_Entitlement : string;
  rt_Granted : gset string;
}.

(** ** version_negotiation.go *)

Record NegotiationResult : Type := {
  RenderedSurfaces : list string;
  DroppedSurfaces : list string;
  DegradedSurfaces : list string;
  Blocked : bool;
  Reason : string;
  nr_TenantID : string;
  nr_OrgID : string;
}.

Definition componentAt (parts : list string) (i : nat) : Z :=
  match parts !! i with
  | None => 0%Z
  | Some p => default 0%Z (Atoi (bytes (TrimSpace p)))
  end.

(** The loop of [compareVersions] from index [i], [n] rounds to go. *)
Fixpoint compare_from (ps qs : list string) (i n : nat) : Z :=
  match n with
  | O => 0%Z
  | S n =>
      let av := componentAt ps i in
      let bv := componentAt qs i in
      if bool_decide (av < bv)%Z then (-1)%Z
      else if bool_decide (bv < av)%Z then 1%Z
      else compare_from ps qs (S i) n
  end.
Definition compareVersions (a b : string) : Z :=
  let ps := split_on "." a in
  let qs := split_on "." b in
  compare_from ps qs 0 (length ps `max` length qs).

Section negotiate.
(** [strconv.Quote]. *)
Context (Quote : string → string).

Definition blocked (res : NegotiationResult) (reason : string) : NegotiationResult :=
  {| RenderedSurfaces := RenderedSurfaces res; DroppedSurfaces := DroppedSurfaces res;
     DegradedSurfaces := DegradedSurfaces res; Blocked := true; Reason := reason;
     nr_TenantID := nr_TenantID res; nr_OrgID := nr_OrgID res |}.
Definition with_surfaces (rendered dropped degraded : list string) (res : NegotiationResult) :
    NegotiationResult :=
  {| RenderedSurfaces := rendered; DroppedSurfaces := dropped; DegradedSurfaces := degraded;
     Blocked := Blocked res; Reason := Reason res; nr_TenantID := nr_TenantID res;
     nr_OrgID := nr_OrgID res |}.

(** The loop over the referenced surfaces. *)
Fixpoint negotiate_surfaces (policy : UnknownSurfacePolicy) (known : gset string)
    (ids : list string) (res : NegotiationResult) : NegotiationResult :=
  match ids with
  | [] => res
  | id :: rest =>
      if bool_decide (id ∈ known) then
        negotiate_surfaces policy known rest
          (with_surfaces (RenderedSurfaces res ++ [id]) (DroppedSurfaces res) (DegradedSurfaces res) res)
      else match policy with
           | Policy_IGNORE =>
               negotiate_surfaces policy known rest
                 (with_surfaces (RenderedSurfaces res) (DroppedSurfaces res ++ [id]) (DegradedSurfaces res) res)
           | Policy_RENDER_DEGRADED =>
               negotiate_surfaces policy known rest
                 (with_surfaces (RenderedSurfaces res) (DroppedSurfaces res) (DegradedSurfaces res ++ [id]) res)
           | Policy_BLOCK_UPGRADE =>
               blocked res ("spec references unknown surface " +:+ Quote id
                            +:+ " and policy is BLOCK_UPGRADE; upgrade required")
           | Policy_Other _ =>
               blocked res ("spec references unknown surface " +:+ Quote id
                            +:+ " and unknown_surface_policy is unspecified; failing safe (block)")
           end
  end.

Definition Negotiate (spec : ExperienceSpec) (manifest : SurfaceRegistryManifest)
    (binaryVersion : string) : NegotiationResult :=
  let res := {| RenderedSurfaces := []; DroppedSurfaces := []; DegradedSurfaces := [];
                Blocked := false; Reason := ""; nr_TenantID := sp_TenantId spec;
                nr_OrgID := sp_OrgId spec |} in
  let floor := sp_MinBinaryVersion spec in
  if bool_decide (floor ≠ "") && bool_decide (compareVersions binaryVersion floor < 0)%Z then
    blocked res ("binary " +:+ binaryVersion +:+ " is below the spec's min_binary_version " +:+ floor
                 +:+ "; upgrade required")
  else
    negotiate_surfaces (sp_UnknownSurfacePolicy spec)
      (list_to_set (sm_KnownSurfaceIds manifest)) (sp_ReferencedSurfaceIds spec) res.
End negotiate.

(** ** navgraph.go *)

Definition maxPrimarySlots : Z := 5.

Inductive CoherenceCode : Type :=
  | CoherenceTooManyPrimary
  | CoherenceLandingMissing
  | CoherenceEdgeEndpointMissing
  | CoherenceSurfaceNotEntitled
  | CoherenceMissingTimezone
  | CoherenceIncoherentOffline.
#[export] Instance CoherenceCode_eq_dec : EqDecision CoherenceCode.
Proof. solve_decision. Defined.

Record CoherenceError : Type := { ce_Code : CoherenceCode; ce_SurfaceID : string; ce_Message : string }.

Definition coherence_errors (bad : bool) (code : CoherenceCode) (surface msg : string) :
    list CoherenceError :=
  if bad then [{| ce_Code := code; ce_SurfaceID := surface; ce_Message := msg |}] else [].

Definition ValidateNavGraph (g : option NavGraph) (entitled : gset string) : list CoherenceError :=
  match g with
  | None => []
  | Some g =>
      let slotSurfaces : gset string := list_to_set (ns_SurfaceId <$> ng_Slots g) in
      let primaryCount := Z.of_nat (count (λ sl, bool_decide (ns_Placement sl = PLACEMENT_PRIMARY))
                                      (ng_Slots g)) in
      coherence_errors (bool_decide (maxPrimarySlots < primaryCount)%Z) CoherenceTooManyPrimary ""
        ("primary nav has " +:+ pretty primaryCount +:+ " slots; max is 5")
      ++ coherence_errors
           (bool_decide (ng_LandingSurfaceId g ≠ "")
            && negb (bool_decide (ng_LandingSurfaceId g ∈ slotSurfaces)))
           CoherenceLandingMissing (ng_LandingSurfaceId g) "landing_surface_id is not a placed slot"
      ++ (edge ← ng_Edges g;
          endpoint ← [ne_FromSurfaceId edge; ne_ToSurfaceId edge];
          coherence_errors (bool_decide (endpoint ≠ "") && negb (bool_decide (endpoint ∈ slotSurfaces)))
            CoherenceEdgeEndpointMissing endpoint "edge endpoint is not a placed slot")
      ++ (sl ← ng_Slots g;
          coherence_errors (negb (bool_decide (ns_SurfaceId sl ∈ entitled)))
            CoherenceSurfaceNotEntitled (ns_SurfaceId sl)
            "surface is not entitled to the requesting scope")
  end.

(** ** presentation.go *)

Definition SchedulingSurfaces (ids : list string) : gset string := list_to_set ids.

Definition servesDataOffline (p : OfflinePolicy) : bool :=
  match p with OFFLINE_READ_CACHE | OFFLINE_READ_WRITE_QUEUE => true | _ => false end.
Definition offlineIsActive (p : OfflinePolicy) : bool :=
  match p with OFFLINE_UNSPECIFIED | OFFLINE_NONE => false | _ => true end.

Section presentation.
(** The generated names of the two enumerations. *)
Context (OfflinePolicy_String : OfflinePolicy → string) (ConflictPolicy_String : ConflictPolicy → string).

Definition ValidatePresentation (e : Env) (spec : option ExperienceSpec)
    (schedulingSurfaces : gset string) : list CoherenceError :=
  match spec with
  | None => []
  | Some spec =>
      '(surfaceID, off) ← range (MapRange := order e) (sp_SurfaceOffline spec);
      off ← (match off with None => [] | Some off => [off] end);
      coherence_errors
        (servesDataOffline (of_Policy off) && bool_decide (surfaceID ∈ schedulingSurfaces)
         && bool_decide (sp_Timezone spec = ""))
        CoherenceMissingTimezone surfaceID
        "offline scheduling surface requires LocaleSpec.timezone (load-bearing for local appointment times)"
      ++ coherence_errors
           (negb (offlineIsActive (of_Policy off))
            && bool_decide (of_ConflictPolicy off ≠ CONFLICT_UNSPECIFIED))
           CoherenceIncoherentOffline surfaceID
           ("conflict_policy " +:+ ConflictPolicy_String (of_ConflictPolicy off)
            +:+ " set while offline policy is " +:+ OfflinePolicy_String (of_Policy off)
            +:+ " (nothing is queued offline)")
  end.
End presentation.

(** ** tooling.go *)

Inductive ToolingCode : Type := ToolingAdapterNotAllowed | ToolingMalformedEnvelope | ToolingExternalDeferred.
#[export] Instance ToolingCode_eq_dec : EqDecision ToolingCode.
Proof. solve_decision. Defined.
Record ToolingError : Type := { te_Code : ToolingCode; te_AdapterID : string; te_Message : string }.

Definition tool_errors (allowedAdapters : gset string) (tool : ToolDefinition) : list ToolingError :=
  let adapterID := td_AdapterId tool in
  if negb (bool_decide (adapterID ∈ allowedAdapters)) then
    [{| te_Code := ToolingAdapterNotAllowed; te_AdapterID := "";
        te_Message := "adapter is not in the allowed adapter set" |}]
  else
    (if bool_decide (td_InputSchema tool = "") || bool_decide (td_OutputSchema tool = "") then
       [{| te_Code := ToolingMalformedEnvelope; te_AdapterID := adapterID;
           te_Message := "tool input_schema/output_schema must be a non-empty JSON-Schema envelope" |}]
     else [])
    ++ (if bool_decide (td_SideEffect tool = SIDE_EFFECT_EXTERNAL) then
          [{| te_Code := ToolingExternalDeferred; te_AdapterID := adapterID;
              te_Message := "side_effect=external (outbound) is deferred -- representable but not dispatchable yet" |}]
        else []).
(** A nil element of the slice is skipped. *)
Definition ValidateTooling (tools : list (option ToolDefinition)) (allowedAdapters : gset string) :
    list ToolingError :=
  tool ← tools;
  match tool with None => [] | Some tool => tool_errors allowedAdapters tool end.

Definition AgentEnvelopePreserved (node : option AgentNode) : bool :=
  match node with None => false | Some node => bool_decide (an_IoEnvelopeSchema node ≠ "") end.
Definition SigningRefsOnly (e : Env) (by_platform : gmap string CredentialRef) : bool :=
  forallb (λ '(_, ref), negb (bool_decide (cr_Ref ref = "") || bool_decide (cr_Custody ref = "")))
    (range (MapRange := order e) by_platform).

(** ** agentspec.go *)

Inductive AgentSpecCode : Type :=
  | AgentSpecPermissionDenied
  | AgentSpecMissingPersona
  | AgentSpecMissingModelRef
  | AgentSpecNoTools
  | AgentSpecBudgetOutOfRange
  | AgentSpecMissingAdapterID
  | AgentSpecMissingExternalBinding
  | AgentSpecBindingUnknownTool
  | AgentSpecExternalToolNotSafe.
#[export] Instance AgentSpecCode_eq_dec : EqDecision AgentSpecCode.
Proof. solve_decision. Defined.

Definition AgentSpecMaxStepsCeiling : Z := 50.
Record AgentSpecError : Type := { ae_Code : AgentSpecCode; ae_Message : string }.

Definition deniedAgentSpec : list AgentSpecError :=
  [{| ae_Code := AgentSpecPermissionDenied; ae_Message := "agent spec is not available in this scope" |}].

Definition agent_error (bad : bool) (code : AgentSpecCode) (msg : string) : list AgentSpecError :=
  if bad then [{| ae_Code := code; ae_Message := msg |}] else [].

Definition externalFacing (a : AgentAudience) : bool :=
  match a with AUDIENCE_EXTERNAL | AUDIENCE_BOTH => true | _ => false end.

(** [visibilityByTool]: a later tool with the same adapter replaces an earlier. *)
Definition visibilityByTool (tools : list ToolDefinition) : gmap string ToolVisibility :=
  foldl (λ m tool, if bool_decide (td_AdapterId tool ≠ "")
                   then <[td_AdapterId tool := td_Visibility tool]> m else m) ∅ tools.

Section agentspec.
Context (Quote : string → string).

Definition binding_errors (visibility : gmap string ToolVisibility) (b : AudienceBinding)
    (toolID : string) : list AgentSpecError :=
  match visibility !! toolID with
  | None =>
      agent_error true AgentSpecBindingUnknownTool
        ("audience binding references " +:+ Quote toolID +:+ ", which is not among the spec's tools")
  | Some vis =>
      agent_error (externalFacing (ab_Audience b) && bool_decide (vis ≠ EXTERNAL_SAFE))
        AgentSpecExternalToolNotSafe
        ("external audience binding references " +:+ Quote toolID
         +:+ ", which is not visibility=EXTERNAL_SAFE (unspecified is internal_only)")
  end.

Definition validateAudience (spec : AgentSpec) : list AgentSpecError :=
  let visibility := visibilityByTool (as_Tools spec) in
  agent_error
    (externalFacing (as_Audience spec)
     && negb (any (λ b, externalFacing (ab_Audience b)) (as_AudienceBindings spec)))
    AgentSpecMissingExternalBinding
    "an external or both audience requires an explicit EXTERNAL audience binding"
  ++ (b ← as_AudienceBindings spec; toolID ← ab_ToolIds b; binding_errors visibility b toolID).

Definition ValidateAgentSpec (spec : option AgentSpec) (principalScope : string) : list AgentSpecError :=
  match spec with
  | None => deniedAgentSpec
  | Some spec =>
      if bool_decide (as_CompanyId spec ≠ principalScope) then deniedAgentSpec
      else
        agent_error (bool_decide (as_Persona spec = "")) AgentSpecMissingPersona
          "persona must be non-empty (the agent's behavioral contract)"
        ++ agent_error (bool_decide (as_ModelRef spec = "")) AgentSpecMissingModelRef
             "model_ref must reference an AOCore /v1/models catalog asset id"
        ++ agent_error (bool_decide (as_Tools spec = [])) AgentSpecNoTools
             "an agent spec must bind at least one tool"
        ++ agent_error (bool_decide (as_MaxSteps spec ≤ 0)%Z
                        || bool_decide (AgentSpecMaxStepsCeiling < as_MaxSteps spec)%Z)
             AgentSpecBudgetOutOfRange "budget.max_steps must be in (0, 50]"
        ++ (tool ← as_Tools spec;
            agent_error (bool_decide (td_AdapterId tool = "")) AgentSpecMissingAdapterID
              "every bound tool must name its curated-allowlist adapter_id")
        ++ validateAudience spec
  end.
End agentspec.

(** ** binding.go *)

Record AoidIdentity : Type := { ai_Subject : string; ai_CompanyIDs : list string; ai_OrgIDs : list string }.
Record ScopedContext : Type := { sc_Subject : string; sc_Authority : ScopeAuthority; sc_ScopeID : string }.

Definition grants_of (identity : AoidIdentity) (authority : ScopeAuthority) : option (list string) :=
  match authority with
  | AUTHORITY_COMPANY => Some (ai_CompanyIDs identity)
  | AUTHORITY_ORG => Some (ai_OrgIDs identity)
  | _ => None
  end.

Definition ResolveScope (identity : AoidIdentity) (authority : ScopeAuthority)
    (requestedScopeID : string) : outcome xerr ScopedContext :=
  match grants_of identity authority with
  | None => Err (Sentinel ErrScopeDenied)
  | Some grants =>
      if any (λ g, bool_decide (g = requestedScopeID) && bool_decide (requestedScopeID ≠ "")) grants
      then Ok {| sc_Subject := ai_Subject identity; sc_Authority := authority;
                 sc_ScopeID := requestedScopeID |}
      else Err (Sentinel ErrScopeDenied)
  end.

Definition BindingHasOperation (b : ServiceTransportBinding) (op : Z) : bool :=
  any (λ have, bool_decide (have = op)) (sb_Operations b).
Definition BindingIsBindable (b : ServiceTransportBinding) : bool :=
  bool_decide (sb_TransportKind b ≠ TRANSPORT_UNSPECIFIED)
  && bool_decide (sb_ScopeAuthority b ≠ AUTHORITY_UNSPECIFIED).

(** ** repository.go and the stub repositories *)

Record Entity : Type := { en_ID : string; en_ScopeID : string; en_Fields : gmap string string }.
Record PageRequest : Type := { pr_Cursor : string; pr_Limit : Z }.
Record Page : Type := { pg_Items : list Entity; pg_NextCursor : string }.

(** The contract of a repository, as a record of its operations. *)
Record Repository : Type := {
  repo_Get : ScopedContext → string → outcome xerr Entity;
  repo_List : ScopedContext → PageRequest → outcome xerr Page;
  repo_Create : ScopedContext → Entity → outcome xerr Entity;
  repo_Update : ScopedContext → Entity → outcome xerr Entity;
  repo_Delete : ScopedContext → string → outcome xerr unit;
  repo_Transport : TransportKind;
  repo_Authority : ScopeAuthority;
}.

Definition authorizeScope (identity : AoidIdentity) (authority : ScopeAuthority) (sc : ScopedContext) :
    outcome xerr unit :=
  if bool_decide (sc_Subject sc ≠ ai_Subject identity) then Err (Sentinel ErrScopeDenied)
  else if bool_decide (sc_Authority sc ≠ authority) then Err (Sentinel ErrScopeDenied)
  else match ResolveScope identity authority (sc_ScopeID sc) with
       | Err err => Err err
       | Ok reprojected =>
           if bool_decide (sc_ScopeID reprojected ≠ sc_ScopeID sc) then Err (Sentinel ErrScopeDenied)
           else Ok tt
       end.

(** [if err := r.authorize(sc); err != nil { return ..., err }]. *)
Definition authorized {A} (identity : AoidIdentity) (authority : ScopeAuthority) (sc : ScopedContext)
    (k : outcome xerr A) : outcome xerr A :=
  match authorizeScope identity authority sc with Err err => Err err | Ok _ => k end.

Definition first_page {A} (limit : Z) (items : list A) : list A :=
  if bool_decide (0 < limit)%Z && bool_decide (limit < Z.of_nat (length items))%Z
  then take_Z limit items else items.

(** repository_connect_stub.go. *)
Definition biz_entity (sc : ScopedContext) (id name : string) : Entity :=
  {| en_ID := id; en_ScopeID := sc_ScopeID sc;
     en_Fields := {["name" := name; "kind" := "connect-company"]} |}.
Definition newConnectStubRepository (identity : AoidIdentity) : Repository :=
  let authorize {A} sc (k : outcome xerr A) := authorized identity AUTHORITY_COMPANY sc k in
  {| repo_Get := λ sc id, authorize sc (Ok (biz_entity sc id "Biz Connect Entity"));
     repo_List := λ sc page, authorize sc
       (Ok {| pg_Items := first_page (pr_Limit page)
                            [biz_entity sc "tenant-biz-1" "Biz One"; biz_entity sc "tenant-biz-2" "Biz Two"];
              pg_NextCursor := "connect-cursor-page-2" |});
     repo_Create := λ sc e, authorize sc
       (Ok {| en_ID := "tenant-biz-created"; en_ScopeID := sc_ScopeID sc;
              en_Fields := <["kind" := "connect-company"]> (en_Fields e) |});
     repo_Update := λ sc e, authorize sc
       (Ok {| en_ID := en_ID e; en_ScopeID := sc_ScopeID sc;
              en_Fields := <["kind" := "connect-company"]> (en_Fields e) |});
     repo_Delete := λ sc _, authorize sc (Ok tt);
     repo_Transport := TRANSPORT_CONNECT;
     repo_Authority := AUTHORITY_COMPANY |}.

(** repository_aocore_rest_stub.go: a server in the process that replays recorded
    routes.  [URL_Path] is the path of the request [http.NewRequest] builds for a
    text, [None] when it cannot; the two decoders are encoding/json. *)
Record aocoreRoute : Type := { ro_Method : string; ro_Path : string; ro_Status : Z; ro_Body : string }.
Record aocoreEntityJSON : Type := { aj_ID : string; aj_OrgID : string; aj_Name : string; aj_Kind : string }.
Record aocoreListJSON : Type := { al_Items : list aocoreEntityJSON; al_NextCursor : string }.

Definition orgPath (orgID suffix : string) : string := "/v1/orgs/" +:+ orgID +:+ "/tenants" +:+ suffix.

Definition entityFromAocore (authorizedScope : string) (ej : aocoreEntityJSON) : Entity :=
  {| en_ID := aj_ID ej; en_ScopeID := authorizedScope;
     en_Fields := {["name" := aj_Name ej; "kind" := aj_Kind ej; "body_org_id" := aj_OrgID ej]} |}.

Section aocore.
Context (URL_Path : string → option string) (decode_entity : string → option aocoreEntityJSON)
  (decode_list : string → option aocoreListJSON).

(** The replay server: the first recorded route of this method and path. *)
Definition replay (routes : list aocoreRoute) (method path : string) : string * Z :=
  match head (filter (λ r, ro_Method r = method ∧ ro_Path r = path) routes) with
  | Some r => (if bool_decide (ro_Body r = "null") then "" else ro_Body r, ro_Status r)
  | None => ("no cassette route for " +:+ method +:+ " " +:+ path, 501%Z)
  end.
Definition aocore_do (routes : list aocoreRoute) (method path : string) : outcome xerr (string * Z) :=
  match URL_Path path with
  | None => Err (Errorf "aocore-REST stub: build request")
  | Some p => Ok (replay routes method p)
  end.

(** A call that expects one entity with this status. *)
Definition entity_call (routes : list aocoreRoute) (sc : ScopedContext) (method path : string)
    (want : Z) : outcome xerr Entity :=
  match aocore_do routes method path with
  | Err err => Err err
  | Ok (raw, status) =>
      if bool_decide (status ≠ want) then Err (Errorf "aocore-REST stub: status")
      else match decode_entity raw with
           | None => Err (Errorf "aocore-REST stub: decode")
           | Some ej => Ok (entityFromAocore (sc_ScopeID sc) ej)
           end
  end.

Definition list_call (routes : list aocoreRoute) (sc : ScopedContext) (page : PageRequest) :
    outcome xerr Page :=
  match aocore_do routes "GET" (orgPath (sc_ScopeID sc) "") with
  | Err err => Err err
  | Ok (raw, status) =>
      if bool_decide (status ≠ 200%Z) then Err (Errorf "aocore-REST stub: List status")
      else match decode_list raw with
           | None => Err (Errorf "aocore-REST stub: decode List")
           | Some lj =>
               Ok {| pg_Items := first_page (pr_Limit page)
                                   (entityFromAocore (sc_ScopeID sc) <$> al_Items lj);
                     pg_NextCursor := al_NextCursor lj |}
           end
  end.

Definition delete_call (routes : list aocoreRoute) (sc : ScopedContext) (id : string) : outcome xerr unit :=
  match aocore_do routes "DELETE" (orgPath (sc_ScopeID sc) ("/" +:+ id)) with
  | Err err => Err err
  | Ok (_, status) =>
      if bool_decide (status ≠ 204%Z) && bool_decide (status ≠ 200%Z)
      then Err (Errorf "aocore-REST stub: Delete status") else Ok tt
  end.

Definition newAocoreRestStubRepository (routes : list aocoreRoute) (identity : AoidIdentity) : Repository :=
  let authorize {A} sc (k : outcome xerr A) := authorized identity AUTHORITY_ORG sc k in
  {| repo_Get := λ sc id, authorize sc
       (entity_call routes sc "GET" (orgPath (sc_ScopeID sc) ("/" +:+ id)) 200);
     repo_List := λ sc page, authorize sc (list_call routes sc page);
     repo_Create := λ sc _, authorize sc (entity_call routes sc "POST" (orgPath (sc_ScopeID sc) "") 201);
     repo_Update := λ sc e, authorize sc
       (entity_call routes sc "PUT" (orgPath (sc_ScopeID sc) ("/" +:+ en_ID e)) 200);
     repo_Delete := λ sc id, authorize sc (delete_call routes sc id);
     repo_Transport := TRANSPORT_REST_OPENAPI;
     repo_Authority := AUTHORITY_ORG |}.

(** [routes] is the recorded cassette, [None] when it does not decode. *)
Definition RepositoryFor (cassette : option (list aocoreRoute)) (b : ServiceTransportBinding)
    (identity : AoidIdentity) : outcome xerr Repository :=
  if negb (BindingIsBindable b) then Err (Wrapf "not bindable" (Sentinel ErrTransportNotSupported))
  else if bool_decide (sb_TransportKind b = TRANSPORT_CONNECT)
          && bool_decide (sb_ScopeAuthority b = AUTHORITY_COMPANY)
  then Ok (newConnectStubRepository identity)
  else if bool_decide (sb_TransportKind b = TRANSPORT_REST_OPENAPI)
          && bool_decide (sb_ScopeAuthority b = AUTHORITY_ORG)
  then match cassette with
       | None => Err (Errorf "aocore-REST stub: decode cassette")
       | Some routes => Ok (newAocoreRestStubRepository routes identity)
       end
  else Err (Wrapf "has no impl" (Sentinel ErrTransportNotSupported)).
End aocore.

(** ** content_hash.go *)

Definition ResolverVersionTag : string := "experience-resolver/140-08".

(** A big-endian 32-bit length. *)
Definition be32 (n : N) : string :=
  String (ascii_of_N ((n `div` 2 ^ 24) `mod` 256)) (String (ascii_of_N ((n `div` 2 ^ 16) `mod` 256))
    (String (ascii_of_N ((n `div` 2 ^ 8) `mod` 256)) (String (ascii_of_N (n `mod` 256)) ""))).
Definition appendFramed (dst seg : string) : string :=
  dst +:+ be32 (N.of_nat (String.length seg) `mod` 2 ^ 32) +:+ seg.

Section resolution.
Context {H : Sha256} (Marshal : ExperienceSpec → option string).

Definition SHA256Hex (b : string) : string := hex_EncodeToString (sha256 b).

Definition with_hash (hash : string) (s : ExperienceSpec) : ExperienceSpec :=
  {| sp_SpecSchemaVersion := sp_SpecSchemaVersion s;
     sp_SurfaceContractVersion := sp_SurfaceContractVersion s; sp_ContentHash := hash;
     sp_MinBinaryVersion := sp_MinBinaryVersion s; sp_TenantId := sp_TenantId s; sp_OrgId := sp_OrgId s;
     sp_ReferencedSurfaceIds := sp_ReferencedSurfaceIds s;
     sp_UnknownSurfacePolicy := sp_UnknownSurfacePolicy s; sp_NavGraph := sp_NavGraph s;
     sp_Timezone := sp_Timezone s; sp_SurfaceOffline := sp_SurfaceOffline s;
     sp_ResolutionContext := sp_ResolutionContext s; sp_LockedSurfaces := sp_LockedSurfaces s;
     sp_Other := sp_Other s |}.

Definition canonicalSpecBytes (resolved : ExperienceSpec) : string :=
  default "" (Marshal (with_hash "" resolved)).

Definition tuplePreimage (e : Env) (t : ResolutionTuple) : string :=
  let granted := sort_Strings (range (MapRange := order e) (gset_to_gmap tt (rt_Granted t))).*1 in
  foldl appendFramed ""
    (["role=" +:+ (rt_Role t); "entitlements=" +:+ (rt_Entitlement t);
      "form_factor=" +:+ (rt_FormFactor t); "tenant=" +:+ (rt_TenantID t); "org=" +:+ (rt_OrgID t)]
     ++ ((λ g, "granted=" +:+ g) <$> granted)).

Definition hash_preimage (e : Env) (resolved : ExperienceSpec) (t : ResolutionTuple) : string :=
  appendFramed (appendFramed "" (canonicalSpecBytes resolved)) (tuplePreimage e t).
Definition ContentHash (e : Env) (resolved : ExperienceSpec) (t : ResolutionTuple) : string :=
  SHA256Hex (hash_preimage e resolved t).

(** ** resolve.go *)

Definition lockedUpsellReason : string := "This feature is not included in your current plan.".
Record ResolverConfig : Type := { cfg_Version : string; cfg_ResolvedAt : string }.

Definition lock (surfaceID : string) : LockedSurface :=
  {| ls_SurfaceId := surfaceID; ls_UpsellReason := lockedUpsellReason |}.

(** The filtered and stamped spec, before its hash. *)
Definition resolved_spec (spec : ExperienceSpec) (t : ResolutionTuple) (cfg : ResolverConfig) :
    ExperienceSpec :=
  {| sp_SpecSchemaVersion := sp_SpecSchemaVersion spec;
     sp_SurfaceContractVersion := sp_SurfaceContractVersion spec; sp_ContentHash := sp_ContentHash spec;
     sp_MinBinaryVersion := sp_MinBinaryVersion spec; sp_TenantId := sp_TenantId spec;
     sp_OrgId := sp_OrgId spec;
     sp_ReferencedSurfaceIds := filter (λ id, id ∈ rt_Granted t) (sp_ReferencedSurfaceIds spec);
     sp_UnknownSurfacePolicy := sp_UnknownSurfacePolicy spec; sp_NavGraph := sp_NavGraph spec;
     sp_Timezone := sp_Timezone spec; sp_SurfaceOffline := sp_SurfaceOffline spec;
     sp_ResolutionContext := Some
       {| rc_TenantId := rt_TenantID t; rc_OrgId := rt_OrgID t; rc_ResolvedAt := cfg_ResolvedAt cfg;
          rc_ResolverVersion := if bool_decide (cfg_Version cfg = "") then ResolverVersionTag
                                else cfg_Version cfg |};
     sp_LockedSurfaces := lock <$> filter (λ id, id ∉ rt_Granted t) (sp_ReferencedSurfaceIds spec);
     sp_Other := sp_Other spec |}.

Definition Resolve (e : Env) (spec : option ExperienceSpec) (t : ResolutionTuple) (cfg : ResolverConfig) :
    outcome xerr ExperienceSpec :=
  match spec with
  | None => Err (Sentinel ErrResolutionDenied)
  | Some spec =>
      if bool_decide (rt_TenantID t ≠ sp_TenantId spec) || bool_decide (rt_OrgID t ≠ sp_OrgId spec)
      then Err (Sentinel ErrResolutionDenied)
      else
        let resolved := resolved_spec spec t cfg in
        Ok (with_hash (ContentHash e resolved t) resolved)
  end.

(** ** dispatcher.go *)

Inductive GateClass : Type := GateRead | GateWrite.
Record StubResult : Type := {
  sr_GateClass : GateClass;
  sr_WriteGated : bool;
  sr_Executed : bool;
  sr_OutputEnvelope : string;
}.

(** [json.Unmarshal] into [any]. *)
Context (Unmarshal : string → option json).

Definition nodeBindsAdapter (node : AgentNode) (adapterID : string) : bool :=
  any (λ id, bool_decide (id = adapterID)) (an_ToolIds node).

(** The schema declares an object. *)
Definition object_schema (schema : string) : option json :=
  j ← Unmarshal schema;
  match member "type" j with Some (JString "object") => Some j | _ => None end.

Definition missing_required (obj : json) (required : list json) : bool :=
  any (λ r, match r with
            | JString key => match member key obj with Some _ => false | None => true end
            | _ => false
            end) required.

(** [false] is the error. *)
Definition validateAgainstSchema (input schema : string) : bool :=
  match Unmarshal input with
  | None => false
  | Some inputAny =>
      match object_schema schema with
      | None => true
      | Some schemaObj =>
          match inputAny with
          | JObject _ =>
              match member "required" schemaObj with
              | Some (JArray req) => negb (missing_required inputAny req)
              | _ => true
              end
          | _ => false
          end
      end
  end.

Definition echoOutputEnvelope (outputSchema : string) : string :=
  match object_schema outputSchema with Some _ => "{}" | None => "null" end.

(** [scopedAdapters] of the dispatcher; the external client it holds is never
    called. *)
Definition Dispatch (scopedAdapters : gmap string (gset string)) (node : option AgentNode)
    (tool : option ToolDefinition) (scope : ScopedContext) (input : string) : outcome xerr StubResult :=
  match tool, node with
  | Some tool, Some node =>
      let adapterID := td_AdapterId tool in
      if negb (nodeBindsAdapter node adapterID) then Err (Sentinel ErrDispatchDenied)
      else if negb (bool_decide (adapterID ∈ default ∅ (scopedAdapters !! sc_ScopeID scope)))
      then Err (Sentinel ErrDispatchDenied)
      else if bool_decide (td_InputSchema tool = "") || bool_decide (td_OutputSchema tool = "")
      then Err (Wrapf "tool envelope missing input_schema/output_schema" (Sentinel ErrDispatchInvalidInput))
      else match td_SideEffect tool with
           | SIDE_EFFECT_EXTERNAL => Err (Sentinel ErrDispatchExternalDeferred)
           | SIDE_EFFECT_Other _ => Err (Sentinel ErrDispatchDenied)
           | _ =>
               if negb (validateAgainstSchema input (td_InputSchema tool))
               then Err (Wrapf "input" (Sentinel ErrDispatchInvalidInput))
               else
                 let write := bool_decide (td_SideEffect tool = SIDE_EFFECT_WRITE) in
                 Ok {| sr_GateClass := if write then GateWrite else GateRead; sr_WriteGated := write;
                       sr_Executed := false;
                       sr_OutputEnvelope := echoOutputEnvelope (td_OutputSchema tool) |}
           end
  | _, _ => Err (Sentinel ErrDispatchDenied)
  end.

(** ** spec_store.go, router.go *)

Record PrincipalScope : Type := { ps_TenantID : string; ps_OrgID : string }.
#[export] Instance PrincipalScope_eq_dec : EqDecision PrincipalScope.
Proof. solve_decision. Defined.

Definition orgScopePrefix : string := "org:".
Definition principalScopeFromContext (claims : option Claims) : option PrincipalScope :=
  match claims with
  | None => None
  | Some claims =>
      if bool_decide (c_CompanyID claims = "") then None
      else Some {| ps_TenantID := c_CompanyID claims;
                   ps_OrgID := match head (filter (λ s, String.prefix orgScopePrefix s = true) (c_Scopes claims)) with
                               | Some s => trim_prefix orgScopePrefix s
                               | None => ""
                               end |}
  end.

Definition NUL : string := String "000"%char "".
Definition storeKey (scope : PrincipalScope) (appDefID : string) : string :=
  ps_TenantID scope +:+ NUL +:+ ps_OrgID scope +:+ NUL +:+ appDefID.

Abbreviation memorySpecStore := (gmap string AppDefinition) (only parsing).
Definition SpecStore_Put (scope : PrincipalScope) (def : AppDefinition) (s : memorySpecStore) :
    memorySpecStore := <[storeKey scope (ad_Id def) := def]> s.
Definition SpecStore_Get (scope : PrincipalScope) (appDefID : string) (s : memorySpecStore) :
    option AppDefinition := s !! storeKey scope appDefID.

(** ** handler.go *)

Inductive connect_error : Type :=
  | CodeUnauthenticated
  | CodePermissionDenied
  | CodeInvalidArgument (msg : string)
  | CodeInternal (err : xerr).

Record StoreSpecResponse : Type := { ss_AppDefId : string; ss_ContentHash : string; ss_SpecSchemaVersion : string }.
Record ValidationProblem : Type := { vp_Code : string; vp_SurfaceId : string; vp_Message : string }.

(** [ExperienceHandler]: the entitlements provider and the clock. *)
Record ExperienceHandler : Type := {
  TupleFor : PrincipalScope → string → string → ResolutionTuple;
  handler_now : string;
}.

Definition with_scope (scope : PrincipalScope) (s : ExperienceSpec) : ExperienceSpec :=
  {| sp_SpecSchemaVersion := sp_SpecSchemaVersion s;
     sp_SurfaceContractVersion := sp_SurfaceContractVersion s; sp_ContentHash := sp_ContentHash s;
     sp_MinBinaryVersion := sp_MinBinaryVersion s; sp_TenantId := ps_TenantID scope;
     sp_OrgId := ps_OrgID scope; sp_ReferencedSurfaceIds := sp_ReferencedSurfaceIds s;
     sp_UnknownSurfacePolicy := sp_UnknownSurfacePolicy s; sp_NavGraph := sp_NavGraph s;
     sp_Timezone := sp_Timezone s; sp_SurfaceOffline := sp_SurfaceOffline s;
     sp_ResolutionContext := sp_ResolutionContext s; sp_LockedSurfaces := sp_LockedSurfaces s;
     sp_Other := sp_Other s |}.

Abbreviation handler := (prog memorySpecStore connect_error) (only parsing).

(** The scope of the principal, or the early return. *)
Definition authenticated (claims : option Claims) : handler PrincipalScope :=
  match principalScopeFromContext claims with
  | None => throw CodeUnauthenticated
  | Some scope => mret scope
  end.

Definition StoreSpec (claims : option Claims) (def : option AppDefinition) : handler StoreSpecResponse :=
  scope ← authenticated claims;
  match def with
  | Some ({| ad_Spec := Some spec |} as def) =>
      _ ← reject_if (bool_decide (ad_Id def = ""))
        (CodeInvalidArgument "experience: app_definition.id is required");
      let spec := with_scope scope spec in
      _ ← modify (SpecStore_Put scope
            {| ad_Id := ad_Id def; ad_Spec := Some spec; ad_Other := ad_Other def |});
      mret {| ss_AppDefId := ad_Id def; ss_ContentHash := sp_ContentHash spec;
              ss_SpecSchemaVersion := sp_SpecSchemaVersion spec |}
  | _ => throw (CodeInvalidArgument "experience: app_definition with spec is required")
  end.

Definition ResolveSpec (h : ExperienceHandler) (e : Env) (claims : option Claims)
    (appDefID role formFactor : string) : handler ExperienceSpec :=
  scope ← authenticated claims;
  found ← gets (SpecStore_Get scope appDefID);
  match found with
  | None => throw CodePermissionDenied
  | Some def =>
      match Resolve e (ad_Spec def) (TupleFor h scope role formFactor)
              {| cfg_Version := ""; cfg_ResolvedAt := handler_now h |} with
      | Ok resolved => mret resolved
      | Err err => if errors_Is err ErrResolutionDenied then throw CodePermissionDenied
                   else throw (CodeInternal err)
      end
  end.

Definition CoherenceCode_text (c : CoherenceCode) : string :=
  match c with
  | CoherenceTooManyPrimary => "nav.too_many_primary"
  | CoherenceLandingMissing => "nav.landing_missing"
  | CoherenceEdgeEndpointMissing => "nav.edge_endpoint_missing"
  | CoherenceSurfaceNotEntitled => "nav.surface_not_entitled"
  | CoherenceMissingTimezone => "presentation.missing_timezone"
  | CoherenceIncoherentOffline => "presentation.incoherent_offline"
  end.

Definition grantedManifest (e : Env) (spec : ExperienceSpec) (t : ResolutionTuple) : SurfaceRegistryManifest :=
  {| sm_ContractVersion := sp_SurfaceContractVersion spec;
     sm_KnownSurfaceIds := (range (MapRange := order e) (gset_to_gmap tt (rt_Granted t))).*1 |}.

(** The answer: valid, and the problems. *)
Definition ValidateSpec (Quote : string → string) (h : ExperienceHandler) (e : Env)
    (claims : option Claims) (def : option AppDefinition) : handler (bool * list ValidationProblem) :=
  scope ← authenticated claims;
  match def with
  | Some {| ad_Spec := Some spec |} =>
      let spec := with_scope scope spec in
      let t := TupleFor h scope "" "" in
      let nav := (λ ce, {| vp_Code := CoherenceCode_text (ce_Code ce); vp_SurfaceId := ce_SurfaceID ce;
                           vp_Message := ce_Message ce |})
                 <$> ValidateNavGraph (sp_NavGraph spec) (rt_Granted t) in
      let neg := Negotiate Quote spec (grantedManifest e spec t) (sp_MinBinaryVersion spec) in
      let problems := nav ++ (if Blocked neg then
                                [{| vp_Code := "version.block_upgrade"; vp_SurfaceId := "";
                                    vp_Message := Reason neg |}]
                              else []) in
      mret (bool_decide (length problems = 0%nat), problems)
  | _ => throw (CodeInvalidArgument "experience: app_definition with spec is required")
  end.
End resolution.
