(* ===== verification/ExperienceProofs.v ===== *)
(** * Experience contracts: what the theorems show

    The preimage of a content hash determines spec and tuple; the service answers
    with the last spec its own scope stored, filtered by what the scope is
    granted; versions compare component by component and a binary renders what
    it knows; repositories stay within the grants of their identity; the checks
    of agent specs and of proto changes are exact. *)

From S2P Require Import Prelude Encoding Password Rbac Company Auth Experience.

(** ** Frames *)

Lemma be32_inj n m : (n < 2 ^ 32)%N → (m < 2 ^ 32)%N → be32 n = be32 m → n = m.
Proof.
  intros Hn Hm Hb. unfold be32 in Hb. injection Hb as H1 H2 H3 H4.
  assert (∀ a b, (a < 256)%N → (b < 256)%N → ascii_of_N a = ascii_of_N b → a = b) as Ha.
  { intros a b ? ? Hab. rewrite <-(N_ascii_embedding a), <-(N_ascii_embedding b) by done. by rewrite Hab. }
  apply Ha in H1, H2, H3, H4; try (apply N.mod_lt; lia).
  pose proof (N.div_mod' n 256). pose proof (N.div_mod' m 256).
  pose proof (N.div_mod' (n `div` 256) 256). pose proof (N.div_mod' (m `div` 256) 256).
  pose proof (N.div_mod' ((n `div` 256) `div` 256) 256). pose proof (N.div_mod' ((m `div` 256) `div` 256) 256).
  change (2 ^ 24)%N with (256 * (256 * 256))%N in *. change (2 ^ 16)%N with (256 * 256)%N in *.
  change (2 ^ 8)%N with 256%N in *. rewrite <-!N.Div0.div_div in *.
  assert (∀ x, (x < 2 ^ 32)%N → (((x `div` 256) `div` 256) `div` 256 < 256)%N) as Hd.
  { intros x Hx. do 3 (apply N.Div0.div_lt_upper_bound). done. }
  rewrite !N.mod_small in H1 by auto. lia.
Qed.

Definition fits (s : string) : Prop := (N.of_nat (String.length s) < 2 ^ 32)%N.

Definition frame (seg : string) : string := be32 (N.of_nat (String.length seg) `mod` 2 ^ 32) +:+ seg.

Lemma string_app_inv_length s s' t t' :
  String.length s = String.length s' → s +:+ t = s' +:+ t' → s = s' ∧ t = t'.
Proof.
  revert s'. induction s as [|a s IH]; intros [|b s']; cbn; try done.
  intros [= Hl] [= -> Heq]. destruct (IH s' Hl Heq) as [-> ->]. done.
Qed.

Lemma frame_inj s s' t t' : fits s → fits s' → frame s +:+ t = frame s' +:+ t' → s = s' ∧ t = t'.
Proof.
  intros Hs Hs'. unfold frame. rewrite !(N.mod_small (N.of_nat _)) by done. rewrite !string_app_assoc.
  intros Heq. apply string_app_inv_length in Heq as [Hb Heq]; [|done].
  apply be32_inj in Hb; [|done..]. apply string_app_inv_length in Heq as [-> ->]; [done|lia].
Qed.

Lemma frame_nonempty s t : frame s +:+ t ≠ "".
Proof. done. Qed.

Definition frames (l : list string) : string := foldl appendFramed "" l.


Lemma frames_from dst l : foldl appendFramed dst l = dst +:+ frames l.
Proof.
  unfold frames. revert dst. induction l as [|s l IH]; intros dst; cbn.
  - symmetry. apply string_app_empty.
  - rewrite (IH (appendFramed dst s)), (IH (appendFramed "" s)). unfold appendFramed.
    by rewrite !string_app_assoc.
Qed.
Lemma frames_cons s l : frames (s :: l) = frame s +:+ frames l.
Proof. unfold frames at 1. cbn [foldl]. by rewrite frames_from. Qed.

Lemma frames_inj l l' : Forall fits l → Forall fits l' → frames l = frames l' → l = l'.
Proof.
  revert l'. induction l as [|s l IH]; intros [|s' l'] Hl Hl' Heq; [done|..].
  - rewrite frames_cons in Heq. by symmetry in Heq.
  - rewrite frames_cons in Heq. done.
  - apply Forall_cons in Hl as [? ?], Hl' as [? ?]. rewrite !frames_cons in Heq.
    apply frame_inj in Heq as [-> Heq]; [|done..]. by rewrite (IH l').
Qed.

(** ** The content hash *)

Section hash.
Context {H : Sha256} (Marshal : ExperienceSpec → option string).

(** The segments of a preimage, each within the 32 bits of its length. *)
Definition axes (t : ResolutionTuple) : list string :=
  ["role=" +:+ (rt_Role t); "entitlements=" +:+ (rt_Entitlement t); "form_factor=" +:+ (rt_FormFactor t);
   "tenant=" +:+ (rt_TenantID t); "org=" +:+ (rt_OrgID t)].
Record segments_fit (e : Env) (r : ExperienceSpec) (t : ResolutionTuple) : Prop := {
  fit_spec : fits (canonicalSpecBytes Marshal r);
  fit_axes : Forall fits (axes t);
  fit_granted g : g ∈ rt_Granted t → fits ("granted=" +:+ g);
  fit_tuple : fits (tuplePreimage e t);
}.

Definition granted_keys (e : Env) (t : ResolutionTuple) : list string :=
  (range (MapRange := order e) (gset_to_gmap tt (rt_Granted t))).*1.

Lemma elem_of_granted_keys e t g : g ∈ granted_keys e t ↔ g ∈ rt_Granted t.
Proof.
  unfold granted_keys. rewrite list_elem_of_fmap. split.
  - intros ([k []] & -> & Hin%(elem_of_range (H := order e))). by apply lookup_gset_to_gmap_Some in Hin as [? _].
  - intros Hg. exists (g, tt). split; [done|]. apply (elem_of_range (H := order e)).
    by apply lookup_gset_to_gmap_Some.
Qed.

Lemma granted_keys_perm e e' t t' : rt_Granted t = rt_Granted t' → granted_keys e t ≡ₚ granted_keys e' t'.
Proof.
  intros Ht. apply NoDup_Permutation.
  - apply (range_NoDup_fst (H := order e)).
  - apply (range_NoDup_fst (H := order e')).
  - intros g. by rewrite !elem_of_granted_keys, Ht.
Qed.

Lemma tuplePreimage_frames e t :
  tuplePreimage e t = frames (axes t ++ ((λ g, "granted=" +:+ g) <$> sort_Strings (granted_keys e t))).
Proof. done. Qed.

Lemma hash_preimage_frames e r t :
  hash_preimage Marshal e r t = frames [canonicalSpecBytes Marshal r; tuplePreimage e t].
Proof. done. Qed.

Lemma append_prefix_inj p s t : p +:+ s = p +:+ t → s = t.
Proof. intros Heq. by apply string_app_inv_length in Heq as [_ ?]. Qed.

Lemma tuple_ext t t' :
  axes t = axes t' → rt_Granted t = rt_Granted t' → t = t'.
Proof.
  intros Ha Hg. unfold axes in Ha. injection Ha as H1 H2 H3 H4 H5.
  apply append_prefix_inj in H1, H2, H3, H4, H5.
  destruct t, t'. cbn in *. congruence.
Qed.

(** C34: the preimage of a content hash determines the resolved spec and the whole
    resolution tuple, and nothing else enters it: two preimages agree exactly
    when the specs have the same canonical bytes and role, entitlements, form
    factor, tenant, organisation and granted set agree, in whatever order the
    granted set is ranged over. *)
Theorem content_hash_preimage e e' r r' t t' :
  segments_fit e r t → segments_fit e' r' t' →
  hash_preimage Marshal e r t = hash_preimage Marshal e' r' t' ↔
  canonicalSpecBytes Marshal r = canonicalSpecBytes Marshal r' ∧ t = t'.
Proof.
  intros [F1 F2 F3 F4] [G1 G2 G3 G4]. rewrite !hash_preimage_frames. split.
  - intros Heq%frames_inj; [|by repeat constructor..]. injection Heq as Hs Ht.
    split; [done|]. rewrite !tuplePreimage_frames in Ht.
    assert (∀ e t, (∀ g, g ∈ rt_Granted t → fits ("granted=" +:+ g)) →
      Forall fits ((λ g, "granted=" +:+ g) <$> sort_Strings (granted_keys e t))) as Hfit.
    { intros e0 t0 Hg. apply Forall_fmap, Forall_forall. intros g Hin. apply Hg.
      by apply elem_of_sort_slice, elem_of_granted_keys in Hin. }
    apply frames_inj in Ht; [|apply Forall_app; auto..].
    apply app_inj_1 in Ht as [Ha Hg]; [|done]. apply tuple_ext; [done|].
    apply list_fmap_eq_inj in Hg; [|intros x y; apply append_prefix_inj].
    apply set_eq. intros g. rewrite <-(elem_of_granted_keys e), <-(elem_of_granted_keys e' t').
    unfold sort_Strings in Hg.
    by rewrite <-(elem_of_sort_slice string_lt g (granted_keys e t)), Hg, elem_of_sort_slice.
  - intros [Hs ->]. by rewrite Hs, !tuplePreimage_frames, (sort_Strings_perm _ _ (granted_keys_perm e e' t' t' eq_refl)).
Qed.

(** *** Resolution *)

Lemma canonical_with_hash h r : canonicalSpecBytes Marshal (with_hash h r) = canonicalSpecBytes Marshal r.
Proof. by destruct r. Qed.

Lemma ContentHash_order e e' r t : ContentHash Marshal e r t = ContentHash Marshal e' r t.
Proof.
  unfold ContentHash.
  by rewrite !hash_preimage_frames, !tuplePreimage_frames, (sort_Strings_perm _ _ (granted_keys_perm e e' t t eq_refl)).
Qed.

(** A resolution is denied exactly when there is no spec or its tenant or
    organisation is not that of the tuple; otherwise each surface the spec
    references is kept, in order, if it is granted and locked with a reason if
    not, nothing else is added, and the hash stamped on the result is the hash of
    the result itself. *)
Theorem Resolve_exact e spec t cfg :
  match Resolve Marshal e spec t cfg with
  | Err err => err = Sentinel ErrResolutionDenied ∧
      ∀ s, spec = Some s → rt_TenantID t ≠ sp_TenantId s ∨ rt_OrgID t ≠ sp_OrgId s
  | Ok r => ∃ s, spec = Some s ∧ sp_TenantId r = sp_TenantId s ∧ sp_OrgId r = sp_OrgId s ∧
      rt_TenantID t = sp_TenantId s ∧ rt_OrgID t = sp_OrgId s ∧
      sp_ReferencedSurfaceIds r = filter (λ id, id ∈ rt_Granted t) (sp_ReferencedSurfaceIds s) ∧
      (sp_ReferencedSurfaceIds r ++ (ls_SurfaceId <$> sp_LockedSurfaces r)) ≡ₚ sp_ReferencedSurfaceIds s ∧
      (∀ l, l ∈ sp_LockedSurfaces r → (ls_SurfaceId l ∉ rt_Granted t) ∧ ls_UpsellReason l ≠ "") ∧
      ∀ e', ContentHash Marshal e' r t = sp_ContentHash r
  end.
Proof.
  unfold Resolve. destruct spec as [s|]; [|split; [done|naive_solver]].
  destruct (bool_decide (rt_TenantID t ≠ sp_TenantId s)) eqn:Ht; cbn [orb].
  { apply bool_decide_eq_true in Ht. split; [done|]. intros ? [= <-]. by left. }
  destruct (bool_decide (rt_OrgID t ≠ sp_OrgId s)) eqn:Ho.
  { apply bool_decide_eq_true in Ho. split; [done|]. intros ? [= <-]. by right. }
  apply bool_decide_eq_false, dec_stable in Ht, Ho. exists s. cbn. split_and!; try done.
  - rewrite <-list_fmap_compose. change (ls_SurfaceId ∘ lock) with (@id string). rewrite list_fmap_id.
    induction (sp_ReferencedSurfaceIds s) as [|x l IH]; [done|].
    destruct (decide (x ∈ rt_Granted t)).
    + rewrite !filter_cons_True, filter_cons_False by naive_solver. cbn. by rewrite IH.
    + rewrite filter_cons_False, filter_cons_True by naive_solver. by rewrite <-Permutation_middle, IH.
  - intros l (x & -> & Hx)%list_elem_of_fmap. apply list_elem_of_filter in Hx as [Hx _]. done.
  - intros e'. rewrite (ContentHash_order e' e). unfold ContentHash, hash_preimage.
    by rewrite canonical_with_hash.
Qed.
End hash.

(** ** The service and its store *)

(** The tenant and the organisation of a principal hold no NUL character. *)
Definition nul_free (s : string) : Prop := "000"%char ∉ String.list_ascii_of_string s.
Definition clean (scope : PrincipalScope) : Prop := nul_free (ps_TenantID scope) ∧ nul_free (ps_OrgID scope).

Lemma nul_split_inj s s' t t' :
  nul_free s → nul_free s' → s +:+ (NUL +:+ t) = s' +:+ (NUL +:+ t') → s = s' ∧ t = t'.
Proof.
  unfold nul_free. revert s'. induction s as [|a s IH]; intros [|b s'] Hs Hs' Heq.
  - split; [done|]. exact (append_prefix_inj NUL t t' Heq).
  - injection Heq as <- _. exfalso. apply Hs'. cbn. apply elem_of_cons. by left.
  - injection Heq as -> _. exfalso. apply Hs. cbn. apply elem_of_cons. by left.
  - injection Heq as -> Heq. cbn in Hs, Hs'. apply not_elem_of_cons in Hs as [_ Hs], Hs' as [_ Hs'].
    by destruct (IH s' Hs Hs' Heq) as [-> ->].
Qed.

(** Identifiers are those of request bodies, any text; the key is injective all
    the same, because they come last. *)
Lemma storeKey_inj scope scope' id id' :
  clean scope → clean scope' → storeKey scope id = storeKey scope' id' → scope = scope' ∧ id = id'.
Proof.
  destruct scope as [tn o], scope' as [tn' o']. intros [? ?] [? ?] Heq. unfold storeKey in Heq. cbn in *.
  apply nul_split_inj in Heq as [-> Heq]; [|done..]. by apply nul_split_inj in Heq as [-> ->].
Qed.

Section service.
Context {H : Sha256} (Marshal : ExperienceSpec → option string).

(** The store after calls of [StoreSpec], oldest first. *)
Definition store_calls (calls : list (option Claims * option AppDefinition)) : gmap string AppDefinition :=
  foldl (λ s '(claims, def), (StoreSpec claims def s).2) ∅ calls.

(** What a call stores: the scope of its principal, an identifier and a spec. *)
Definition stores (call : option Claims * option AppDefinition) : option (PrincipalScope * string * ExperienceSpec) :=
  scope ← principalScopeFromContext call.1;
  def ← call.2;
  spec ← ad_Spec def;
  if bool_decide (ad_Id def = "") then None else Some (scope, ad_Id def, with_scope scope spec).

(** The reference: the last spec a call stored for this scope and identifier. *)
Definition last_stored (scope : PrincipalScope) (id : string)
    (calls : list (option Claims * option AppDefinition)) : option ExperienceSpec :=
  foldl (λ best call,
    match stores call with
    | Some (scope', id', spec) => if bool_decide (scope' = scope ∧ id' = id) then Some spec else best
    | None => best
    end) None calls.

Definition clean_calls (calls : list (option Claims * option AppDefinition)) : Prop :=
  ∀ call scope, call ∈ calls → principalScopeFromContext call.1 = Some scope → clean scope.

Lemma StoreSpec_state claims def s :
  (StoreSpec claims def s).2 =
  match stores (claims, def) with
  | Some (scope, id, spec) =>
      <[storeKey scope id := {| ad_Id := id; ad_Spec := Some spec; ad_Other := default "" (ad_Other <$> def) |}]> s
  | None => s
  end.
Proof.
  unfold StoreSpec, authenticated, stores. cbv [mbind prog_bind throw mret prog_ret reject_if modify option_bind]. cbn [fst snd].
  destruct (principalScopeFromContext claims) as [scope|]; [|done].
  destruct def as [[id [spec|] other]|]; [|done..]. cbn.
  by destruct (bool_decide (id = "")).
Qed.

Lemma store_lookup scope id calls :
  clean scope → clean_calls calls →
  ad_Spec <$> store_calls calls !! storeKey scope id = Some <$> last_stored scope id calls.
Proof.
  intros Hs. unfold store_calls, last_stored. induction calls as [|call calls IH] using rev_ind; intros Hc; [done|].
  rewrite !foldl_app. cbn [foldl]. destruct call as [claims def]. rewrite StoreSpec_state.
  assert (clean_calls calls) as Hc' by (intros c sc Hin; apply Hc; set_solver).
  specialize (IH Hc'). destruct (stores (claims, def)) as [[[scope' id'] spec]|] eqn:Hst; [|done].
  assert (clean scope') as Hs'.
  { apply (Hc (claims, def)); [set_solver|]. unfold stores in Hst. cbn [fst] in *.
    destruct (principalScopeFromContext claims); [|done]. cbn in Hst.
    destruct def as [[i [sp|] o]|]; cbn in Hst; repeat case_match; congruence. }
  case_bool_decide as Heq.
  - destruct Heq as [-> ->]. by rewrite lookup_insert_eq.
  - rewrite lookup_insert_ne; [done|]. intros Hk. apply Heq. by apply storeKey_inj.
Qed.

(** Whatever the specs stored, by whichever principals, under whichever
    identifiers and with whatever tenant and organisation written in them, a
    principal's [ResolveSpec] answers from the last spec stored under this
    identifier by a principal of the same scope, stamped with that scope, and
    with the same denial when there is none as when the entitlements are for
    another scope. *)
Theorem ResolveSpec_own_spec h e calls claims scope id role ff :
  clean_calls calls → principalScopeFromContext claims = Some scope → clean scope →
  ResolveSpec Marshal h e claims id role ff (store_calls calls) =
  (match last_stored scope id calls with
   | Some spec =>
       match Resolve Marshal e (Some spec) (TupleFor h scope role ff)
               {| cfg_Version := ""; cfg_ResolvedAt := handler_now h |} with
       | Ok r => Ok r
       | Err _ => Err CodePermissionDenied
       end
   | None => Err CodePermissionDenied
   end, store_calls calls) ∧
  ∀ spec, last_stored scope id calls = Some spec → sp_TenantId spec = ps_TenantID scope ∧ sp_OrgId spec = ps_OrgID scope.
Proof.
  intros Hc Hp Hs. split.
  - unfold ResolveSpec, authenticated, gets, SpecStore_Get. rewrite Hp. cbv [mbind prog_bind throw mret prog_ret].
    pose proof (store_lookup scope id calls Hs Hc) as Hl.
    destruct (store_calls calls !! storeKey scope id) as [def|], (last_stored scope id calls) as [spec|]; try done.
    cbn in Hl. injection Hl as ->. unfold Resolve.
    by destruct (_ || _).
  - unfold last_stored. induction calls as [|call calls IH] using rev_ind; [done|].
    rewrite foldl_app. cbn. assert (clean_calls calls) as Hc' by (intros c sc Hin; apply Hc; set_solver).
    destruct (stores call) as [[[scope' id'] spec']|] eqn:Hst; [|by apply IH].
    case_bool_decide as Heq; [|by apply IH]. intros spec [= <-]. destruct Heq as [-> ->].
    unfold stores in Hst. destruct call as [cl def]. cbn in Hst.
    destruct (principalScopeFromContext cl); [|done]. cbn in Hst.
    destruct def as [[i [sp|] o]|]; cbn in Hst; repeat case_match; simplify_eq. done.
Qed.
End service.

(** ** Versions *)

Definition parts (v : string) : list string := split_on "." v.

Lemma componentAt_beyond ps i : length ps ≤ i → componentAt ps i = 0%Z.
Proof. intros Hi. unfold componentAt. by rewrite lookup_ge_None_2. Qed.

Lemma compare_from_spec ps qs i n :
  let c := compare_from ps qs i n in
  (c = 0%Z ∧ ∀ j, i ≤ j < i + n → componentAt ps j = componentAt qs j) ∨
  (∃ j, i ≤ j < i + n ∧ (∀ k, i ≤ k < j → componentAt ps k = componentAt qs k) ∧
     (c = (-1)%Z ∧ (componentAt ps j < componentAt qs j)%Z ∨
      c = 1%Z ∧ (componentAt qs j < componentAt ps j)%Z)).
Proof.
  revert i. induction n as [|n IH]; intros i; cbn [compare_from]; [left; split; [done|]; lia|].
  case_bool_decide as H1; [right; exists i; split_and!; [lia|lia|lia|auto]|].
  case_bool_decide as H2; [right; exists i; split_and!; [lia|lia|lia|auto]|].
  assert (componentAt ps i = componentAt qs i) as Heq by lia.
  destruct (IH (S i)) as [[Hc Hall]|(j & Hj & Hk & Hc)].
  - left. split; [done|]. intros j Hj. destruct (decide (j = i)) as [->|]; [done|apply Hall; lia].
  - right. exists j. split_and!; [lia|lia| |done]. intros k Hki.
    destruct (decide (k = i)) as [->|]; [done|apply Hk; lia].
Qed.

(** Versions compare as sequences of numbers, component by component, a
    missing or malformed component counting as zero: the result is 0 when all
    components agree, and otherwise the order of the first pair that differs. *)
Theorem compareVersions_exact a b :
  (compareVersions a b = 0%Z ∧ ∀ i, componentAt (parts a) i = componentAt (parts b) i) ∨
  ∃ i, (∀ j, j < i → componentAt (parts a) j = componentAt (parts b) j) ∧
    (compareVersions a b = (-1)%Z ∧ (componentAt (parts a) i < componentAt (parts b) i)%Z ∨
     compareVersions a b = 1%Z ∧ (componentAt (parts b) i < componentAt (parts a) i)%Z).
Proof.
  unfold compareVersions. fold (parts a) (parts b).
  destruct (compare_from_spec (parts a) (parts b) 0 (length (parts a) `max` length (parts b)))
    as [[Hc Hall]|(j & Hj & Hk & Hc)].
  - left. split; [done|]. intros i. destruct (decide (i < length (parts a) `max` length (parts b))).
    + apply Hall. lia.
    + by rewrite !componentAt_beyond by lia.
  - right. exists j. split; [|done]. intros k Hkj. apply Hk. lia.
Qed.

Lemma negotiate_surfaces_spec Quote policy known ids res :
  Blocked res = false →
  let r := negotiate_surfaces Quote policy known ids res in
  nr_TenantID r = nr_TenantID res ∧ nr_OrgID r = nr_OrgID res ∧
  (Blocked r = true ↔ (∃ id, id ∈ ids ∧ id ∉ known) ∧
     match policy with Policy_IGNORE | Policy_RENDER_DEGRADED => False | _ => True end) ∧
  (Blocked r = false →
     RenderedSurfaces r = RenderedSurfaces res ++ filter (λ id, id ∈ known) ids ∧
     DroppedSurfaces r ++ DegradedSurfaces r ≡ₚ
       (DroppedSurfaces res ++ DegradedSurfaces res) ++ filter (λ id, id ∉ known) ids ∧
     (policy = Policy_IGNORE → DegradedSurfaces r = DegradedSurfaces res) ∧
     (policy = Policy_RENDER_DEGRADED → DroppedSurfaces r = DroppedSurfaces res)).
Proof.
  revert res. induction ids as [|id ids IH]; intros res Hb; cbn [negotiate_surfaces].
  { rewrite Hb, !app_nil_r. split_and!; [done|done| |done]. split; [done|]. intros [(id & Hin & _) _]. by apply not_elem_of_nil in Hin. }
  case_bool_decide as Hk.
  - destruct (IH (with_surfaces (RenderedSurfaces res ++ [id]) (DroppedSurfaces res) (DegradedSurfaces res) res) Hb)
      as (-> & -> & Hbl & Hr). split_and!; [done|done| |].
    + rewrite Hbl. split; intros [(x & Hin & Hx) Hp]; (split; [|done]); exists x; split; try done.
      * set_solver.
      * apply elem_of_cons in Hin as [->|]; [done|done].
    + intros Hnb. destruct (Hr Hnb) as (-> & Hp & H1 & H2).
        cbn [RenderedSurfaces DroppedSurfaces DegradedSurfaces with_surfaces] in *.
      rewrite filter_cons_True by done. rewrite filter_cons_False by naive_solver.
      rewrite <-app_assoc. split_and!; done.
  - destruct policy as [| | |n].
    all: try (cbn; split_and!; [done|done| |done]; split; [|done]; intros _; split; [|done]; exists id; set_solver).
    + destruct (IH (with_surfaces (RenderedSurfaces res) (DroppedSurfaces res ++ [id]) (DegradedSurfaces res) res) Hb)
        as (-> & -> & Hbl & Hr). split_and!; [done|done| |].
      * rewrite Hbl. naive_solver.
      * intros Hnb. destruct (Hr Hnb) as (-> & Hp & H1 & H2).
        cbn [RenderedSurfaces DroppedSurfaces DegradedSurfaces with_surfaces] in *.
        rewrite filter_cons_False by done. rewrite filter_cons_True by done.
        split_and!; [done| |done|done]. rewrite Hp. solve_Permutation.
    + destruct (IH (with_surfaces (RenderedSurfaces res) (DroppedSurfaces res) (DegradedSurfaces res ++ [id]) res) Hb)
        as (-> & -> & Hbl & Hr). split_and!; [done|done| |].
      * rewrite Hbl. naive_solver.
      * intros Hnb. destruct (Hr Hnb) as (-> & Hp & H1 & H2).
        cbn [RenderedSurfaces DroppedSurfaces DegradedSurfaces with_surfaces] in *.
        rewrite filter_cons_False by done. rewrite filter_cons_True by done.
        split_and!; [done| |done|done]. rewrite Hp. solve_Permutation.
Qed.

(** A binary is blocked exactly when it is below the floor of the spec, or
    when the spec references a surface it does not know under a policy other than
    ignoring or degrading; otherwise it renders the surfaces it knows, in order,
    and every other one is dropped or marked degraded as the policy says.  The
    scope of the result is that of the spec. *)
Theorem Negotiate_exact Quote spec manifest v :
  let r := Negotiate Quote spec manifest v in
  let known := sm_KnownSurfaceIds manifest in
  let refs := sp_ReferencedSurfaceIds spec in
  let below := sp_MinBinaryVersion spec ≠ "" ∧ (compareVersions v (sp_MinBinaryVersion spec) < 0)%Z in
  nr_TenantID r = sp_TenantId spec ∧ nr_OrgID r = sp_OrgId spec ∧
  (Blocked r = true ↔ below ∨ (∃ id, id ∈ refs ∧ id ∉ known) ∧
     match sp_UnknownSurfacePolicy spec with Policy_IGNORE | Policy_RENDER_DEGRADED => False | _ => True end) ∧
  (Blocked r = false →
     RenderedSurfaces r = filter (λ id, id ∈ known) refs ∧
     (DroppedSurfaces r ++ DegradedSurfaces r) ≡ₚ filter (λ id, id ∉ known) refs ∧
     (sp_UnknownSurfacePolicy spec = Policy_IGNORE → DegradedSurfaces r = []) ∧
     (sp_UnknownSurfacePolicy spec = Policy_RENDER_DEGRADED → DroppedSurfaces r = [])).
Proof.
  cbv zeta. unfold Negotiate. case_bool_decide as Hf; cbn [andb].
  1: case_bool_decide as Hc.
  { cbn. split_and!; [done|done| |done]. split; [intros _; by left|done]. }
  all: match goal with |- context [negotiate_surfaces ?q ?p ?k ?ids ?res] =>
    destruct (negotiate_surfaces_spec q p k ids res eq_refl) as (-> & -> & Hb & Hr) end; cbn in Hb, Hr.
  all: setoid_rewrite elem_of_list_to_set in Hb.
  all: assert (∀ (P Q : string → Prop) (l : list string) `{!∀ x, Decision (P x)} `{!∀ x, Decision (Q x)},
    (∀ x, P x ↔ Q x) → filter P l = filter Q l) as Hext
    by (intros P Q l ?? HPQ; by apply list_filter_iff).
  all: split_and!; [done|done| |intros Hnb; destruct (Hr Hnb) as (-> & Hp & ? & ?)].
  1,3: rewrite Hb; split; [by right|]; intros [[? ?]|?]; [exfalso; by auto with lia|done].
  all: split_and!; [apply Hext; intros; apply elem_of_list_to_set| |done|done].
  all: rewrite Hp; erewrite Hext; [reflexivity|]; intros; by rewrite elem_of_list_to_set.
Qed.

(** ** Proto changes *)

Lemma any_range_true {V} e (f : Z * V → bool) (m : gmap Z V) :
  any f (range (MapRange := order e) m) = true ↔ ∃ k v, m !! k = Some v ∧ f (k, v) = true.
Proof.
  rewrite any_true. split.
  - intros ([k v] & Hin & Hf). apply (elem_of_range (H := order e)) in Hin. eauto.
  - intros (k & v & Hk & Hf). exists (k, v). split; [|done]. by apply (elem_of_range (H := order e)).
Qed.

Lemma field_breaks_false m num old :
  field_breaks m num old = false ↔
  ∃ new, m !! num = Some new ∧ fd_Name new = fd_Name old ∧ fd_Kind new = fd_Kind old.
Proof.
  unfold field_breaks. destruct (m !! num) as [new|]; [|naive_solver].
  rewrite orb_false_iff, !bool_decide_eq_false. split.
  - intros [H1%dec_stable H2%dec_stable]. eauto.
  - intros (? & [= <-] & ? & ?). split; intros Hn; by apply Hn.
Qed.

Lemma indexByNumber_number fields n f : indexByNumber fields !! n = Some f → fd_Number f = n.
Proof.
  unfold indexByNumber. induction fields as [|x l IH] using rev_ind; [done|]. rewrite foldl_app. cbn.
  intros [[<- <-]|[_ Hf]]%lookup_insert_Some; [done|by apply IH].
Qed.

(** A change is breaking exactly when some old field has lost its number or
    shares it with another name or kind; it is none exactly when both sets index
    the same fields, and minor otherwise. *)
Theorem ClassifyChange_exact e old new :
  let o := indexByNumber old in
  let n := indexByNumber new in
  (ClassifyChange e old new = ChangeBreaking ↔ ∃ k f, o !! k = Some f ∧ n !! k ≠ Some f) ∧
  (ClassifyChange e old new = ChangeNone ↔ o = n) ∧
  (ClassifyChange e old new = ChangeMinor ↔ o ⊆ n ∧ o ≠ n).
Proof.
  cbv zeta. set (o := indexByNumber old). set (n := indexByNumber new).
  assert (∀ k f, o !! k = Some f → field_breaks n k f = true ↔ n !! k ≠ Some f) as Hfb.
  { intros k f Hk. rewrite <-not_false_iff_true, field_breaks_false.
    pose proof (indexByNumber_number _ _ _ Hk) as Hkn. split.
    - intros Hn Heq. apply Hn. eauto.
    - intros Hn (g & Hg & Hname & Hkind). apply Hn. rewrite Hg. f_equal.
      apply indexByNumber_number in Hg. destruct f, g. cbn in *. congruence. }
  assert (any (λ '(num, old), field_breaks n num old) (range (MapRange := order e) o) = true ↔
    ∃ k f, o !! k = Some f ∧ n !! k ≠ Some f) as Hbr.
  { rewrite any_range_true. split; intros (k & f & Hk & Hf); exists k, f; (split; [done|]);
      by apply Hfb. }
  assert (¬ (∃ k f, o !! k = Some f ∧ n !! k ≠ Some f) ↔ o ⊆ n) as Hsub.
  { rewrite map_subseteq_spec. split.
    - intros Hn k f Hk. destruct (decide (n !! k = Some f)); [done|]. exfalso. eauto.
    - intros Hs (k & f & Hk & Hf). auto. }
  unfold ClassifyChange. fold o n. destruct (any _ (range o)) eqn:Hb.
  - assert (¬ o ⊆ n) as Hns by (rewrite <-Hsub; tauto).
    split; [tauto|]. split; (split; [done|]); [intros Heq; destruct Hns; by rewrite Heq|by intros [? _]].
  - assert (o ⊆ n) as Hs by (apply Hsub; intros Hx; by apply Hbr in Hx).
    destruct (any _ (range n)) eqn:Ha.
    + apply any_range_true in Ha as (k & f & Hk & Hf). destruct (o !! k) eqn:Hok; [done|].
      assert (o ≠ n) as Hne by congruence.
      split; [split; [done|intros Hx; by apply Hbr in Hx]|split; [split; [done|intros Hx; by destruct Hne]|done]].
    + assert (o = n) as Heq.
      { apply map_eq. intros k. destruct (n !! k) as [f|] eqn:Hk.
        - destruct (o !! k) as [g|] eqn:Hok.
          + rewrite <-Hk. symmetry. eapply lookup_weaken; done.
          + exfalso. apply not_true_iff_false in Ha. apply Ha, any_range_true. exists k, f.
            by rewrite Hok.
        - destruct (o !! k) as [g|] eqn:Hok; [|done]. exfalso.
          rewrite (lookup_weaken _ _ _ _ Hok Hs) in Hk. done. }
      split; [split; [done|intros Hx; by apply Hbr in Hx]|split; [done|split; [done|by intros [_ ?]]]].
Qed.

(** ** Agent specs *)

Lemma agent_error_nil bad code msg : agent_error bad code msg = [] ↔ bad = false.
Proof. by destruct bad. Qed.

Lemma concat_nil {A B} (f : A → list B) l : mbind f l = [] ↔ ∀ x, x ∈ l → f x = [].
Proof.
  induction l as [|x l IH]; [split; [intros _ y Hy; by apply not_elem_of_nil in Hy|done]|].
  cbn. rewrite app_nil. rewrite IH. split.
  - intros [H1 H2] y [->|Hy]%elem_of_cons; auto.
  - intros Hall. split; [apply Hall; set_solver|]. intros y Hy. apply Hall. set_solver.
Qed.

Lemma visibilityByTool_spec tools id vis :
  visibilityByTool tools !! id = Some vis → ∃ tool, tool ∈ tools ∧ td_AdapterId tool = id ∧ td_Visibility tool = vis.
Proof.
  unfold visibilityByTool. induction tools as [|t l IH] using rev_ind; [done|]. rewrite foldl_app. cbn.
  case_bool_decide; [intros [[<- <-]|[_ Hl]]%lookup_insert_Some|intros Hl].
  - exists t. set_solver.
  - destruct (IH Hl) as (x & ? & ?). exists x. set_solver.
  - destruct (IH Hl) as (x & ? & ?). exists x. set_solver.
Qed.

Section agentspec.
Context (Quote : string → string).

Lemma validateAudience_nil spec :
  validateAudience Quote spec = [] ↔
  (externalFacing (as_Audience spec) = true → ∃ b, b ∈ as_AudienceBindings spec ∧ externalFacing (ab_Audience b) = true) ∧
  ∀ b id, b ∈ as_AudienceBindings spec → id ∈ ab_ToolIds b →
    ∃ vis, visibilityByTool (as_Tools spec) !! id = Some vis ∧
      (externalFacing (ab_Audience b) = true → vis = EXTERNAL_SAFE).
Proof.
  unfold validateAudience. rewrite app_nil, agent_error_nil, concat_nil. setoid_rewrite concat_nil.
  assert (∀ b id, binding_errors Quote (visibilityByTool (as_Tools spec)) b id = [] ↔
    ∃ vis, visibilityByTool (as_Tools spec) !! id = Some vis ∧ (externalFacing (ab_Audience b) = true → vis = EXTERNAL_SAFE)) as Hb.
  { intros b id. unfold binding_errors. destruct (visibilityByTool _ !! id) as [vis|]; [|naive_solver].
    rewrite agent_error_nil, andb_false_iff, bool_decide_eq_false. split.
    - intros [?|?%dec_stable]; exists vis; split; congruence.
    - intros (? & [= <-] & Hv). destruct (externalFacing _); [right; intros Hn; auto|by left]. }
  setoid_rewrite Hb. rewrite andb_false_iff, negb_false_iff, any_true.
  destruct (externalFacing (as_Audience spec)); naive_solver.
Qed.

(** An agent spec without findings belongs to the principal, has a persona, a
    model, a budget within its ceiling and at least one tool, all named; and every
    tool of a binding that faces customers is the adapter of some tool marked safe
    for them.  A missing and a foreign spec give the same single finding. *)
Theorem ValidateAgentSpec_sound spec scope :
  ValidateAgentSpec Quote None scope = deniedAgentSpec ∧
  (as_CompanyId spec ≠ scope → ValidateAgentSpec Quote (Some spec) scope = deniedAgentSpec) ∧
  (ValidateAgentSpec Quote (Some spec) scope = [] →
   as_CompanyId spec = scope ∧ as_Persona spec ≠ "" ∧ as_ModelRef spec ≠ "" ∧ as_Tools spec ≠ [] ∧
   (0 < as_MaxSteps spec ≤ 50)%Z ∧ (∀ tool, tool ∈ as_Tools spec → td_AdapterId tool ≠ "") ∧
   ∀ b id, b ∈ as_AudienceBindings spec → externalFacing (ab_Audience b) = true → id ∈ ab_ToolIds b →
     ∃ tool, tool ∈ as_Tools spec ∧ td_AdapterId tool = id ∧ td_Visibility tool = EXTERNAL_SAFE).
Proof.
  unfold ValidateAgentSpec. split; [done|]. case_bool_decide as Hs; split; try done.
  intros Hv. repeat (apply app_nil in Hv as [?%agent_error_nil Hv]).
  apply app_nil in Hv as [Ht Hv]. apply validateAudience_nil in Hv as [_ Hv]. rewrite concat_nil in Ht.
  repeat match goal with
  | E : (_ || _) = false |- _ => apply orb_false_iff in E as [? ?]
  | E : bool_decide _ = false |- _ => apply bool_decide_eq_false in E
  end. unfold AgentSpecMaxStepsCeiling in *. split_and!; try done; try lia.
  - intros tool Hin. specialize (Ht tool Hin). apply agent_error_nil, bool_decide_eq_false in Ht. done.
  - intros b id Hb He Hid. destruct (Hv b id Hb Hid) as (vis & Hvis & Hs').
    rewrite Hs' in Hvis by done. by apply visibilityByTool_spec.
Qed.

Definition with_tools (tools : list ToolDefinition) (spec : AgentSpec) : AgentSpec :=
  {| as_CompanyId := as_CompanyId spec; as_Persona := as_Persona spec; as_ModelRef := as_ModelRef spec;
     as_Tools := tools; as_MaxSteps := as_MaxSteps spec; as_Audience := as_Audience spec;
     as_AudienceBindings := as_AudienceBindings spec |}.

Lemma visibility_from (m l : gmap string ToolVisibility) tools id :
  (∃ tool : ToolDefinition, tool ∈ tools ∧ td_AdapterId tool = id) → id ≠ "" →
  foldl (λ m tool, if bool_decide (td_AdapterId tool ≠ "") then <[td_AdapterId tool := td_Visibility tool]> m
                   else m) m tools !! id =
  foldl (λ m tool, if bool_decide (td_AdapterId tool ≠ "") then <[td_AdapterId tool := td_Visibility tool]> m
                   else m) l tools !! id.
Proof.
  intros Hin Hne. induction tools as [|t ts IH] using rev_ind; [destruct Hin as (? & Hx & _); set_solver|].
  rewrite !foldl_app. cbn. case_bool_decide as Ht.
  - destruct (decide (td_AdapterId t = id)) as [->|Hid]; [by rewrite !lookup_insert_eq|].
    rewrite !lookup_insert_ne by done. apply IH. destruct Hin as (x & [Hx|Hx]%elem_of_app & Hd); set_solver.
  - apply IH. destruct Hin as (x & [Hx|Hx]%elem_of_app & Hd); set_solver.
Qed.

(** The check of customer-facing bindings looks a tool up by its adapter, and
    the last tool of an adapter hides the others: a tool with any visibility can
    be added, before the others, under the adapter of a tool the spec has, and
    the spec still passes. *)
Theorem duplicate_adapter_passes spec scope tool :
  ValidateAgentSpec Quote (Some spec) scope = [] →
  (∃ t, t ∈ as_Tools spec ∧ td_AdapterId t = td_AdapterId tool) →
  ValidateAgentSpec Quote (Some (with_tools (tool :: as_Tools spec) spec)) scope = [].
Proof.
  intros Hv (t & Ht & Hid). unfold ValidateAgentSpec in *. cbn [as_CompanyId with_tools].
  case_bool_decide; [done|]. cbn [as_Persona as_ModelRef as_Tools as_MaxSteps with_tools].
  rewrite !app_nil in *. destruct Hv as (Hp & Hm & _ & Hb & Htools & Haud). rewrite concat_nil in *.
  assert (td_AdapterId tool ≠ "") as Hne.
  { specialize (Htools t Ht). rewrite agent_error_nil, bool_decide_eq_false, Hid in Htools. done. }
  split_and!; [done|done|done|done| |].
  - intros x [->|Hx]%elem_of_cons; [|by apply Htools].
    by rewrite agent_error_nil, bool_decide_eq_false.
  - rewrite validateAudience_nil in *. cbn [as_Audience as_AudienceBindings as_Tools with_tools].
    destruct Haud as [H1 H2]. split; [done|]. intros b id Hbi Hin. destruct (H2 b id Hbi Hin) as (vis & Hvis & Hs).
    exists vis. split; [|done]. rewrite <-Hvis. unfold visibilityByTool. cbn [foldl].
    rewrite bool_decide_true by done. symmetry.
    destruct (visibilityByTool_spec _ _ _ Hvis) as (x & Hx & Hxid & _).
    apply visibility_from; [eauto|]. intros ->. specialize (Htools x Hx).
    rewrite agent_error_nil, bool_decide_eq_false, Hxid in Htools. done.
Qed.
End agentspec.

(** ** Scopes and repositories *)

(** The scope is projected from this identity, under this authority, to a scope
    the identity is granted. *)
Definition in_scope (identity : AoidIdentity) (authority : ScopeAuthority) (sc : ScopedContext) : Prop :=
  sc_Subject sc = ai_Subject identity ∧ sc_Authority sc = authority ∧
  ∃ grants, grants_of identity authority = Some grants ∧ sc_ScopeID sc ∈ grants ∧ sc_ScopeID sc ≠ "".

Lemma authorized_cases {A} identity authority sc (k : outcome xerr A) :
  (in_scope identity authority sc ∧ authorized identity authority sc k = k) ∨
  (¬ in_scope identity authority sc ∧ authorized identity authority sc k = Err (Sentinel ErrScopeDenied)).
Proof.
  unfold authorized, authorizeScope, in_scope.
  case_bool_decide as H1; [right; split; [tauto|done]|].
  case_bool_decide as H2; [right; split; [tauto|done]|].
  unfold ResolveScope. destruct (grants_of identity authority) as [grants|].
  2: { right. split; [|done]. intros (_ & _ & ? & ? & _). done. }
  destruct (any _ grants) eqn:Hg; cbn [sc_ScopeID].
  - rewrite bool_decide_false by (intros Hn; by apply Hn). left. split; [|done]. split_and!; [done..|].
    exists grants. split; [done|]. apply any_true in Hg as (g & Hin & Hg).
    apply andb_true_iff in Hg as [->%bool_decide_eq_true ?%bool_decide_eq_true]. done.
  - right. split; [|done]. intros (_ & _ & ? & [= <-] & Hin & Hne).
    apply (any_false (λ g, bool_decide (g = sc_ScopeID sc) && bool_decide (sc_ScopeID sc ≠ "")) grants) with (x := sc_ScopeID sc) in Hg; [|done].
    by rewrite !bool_decide_true in Hg.
Qed.

Lemma elem_of_first_page {A} limit (l : list A) x : x ∈ first_page limit l → x ∈ l.
Proof. unfold first_page, take_Z. destruct (_ && _); [|done]. intros Hx. rewrite <-(take_drop (Z.to_nat limit) l). apply elem_of_app. by left. Qed.

Section repositories.
Context (URL_Path : string → option string) (decode_entity : string → option aocoreEntityJSON)
  (decode_list : string → option aocoreListJSON).

(** An entity some operation of a repository answers with. *)
Inductive answers (repo : Repository) (sc : ScopedContext) (en : Entity) : Prop :=
  | answers_get id : repo_Get repo sc id = Ok en → answers repo sc en
  | answers_list p pg : repo_List repo sc p = Ok pg → en ∈ pg_Items pg → answers repo sc en
  | answers_create x : repo_Create repo sc x = Ok en → answers repo sc en
  | answers_update x : repo_Update repo sc x = Ok en → answers repo sc en.

Lemma entity_call_scope routes sc method path want en :
  entity_call URL_Path decode_entity routes sc method path want = Ok en → en_ScopeID en = sc_ScopeID sc.
Proof. unfold entity_call. repeat case_match; intros [=]; by subst. Qed.

(** A binding gets the repository of its transport and authority, and
    whichever it is, all its operations deny a scope that is not a grant of the
    identity in the same way, whatever they are asked for, while every entity
    they answer with carries the authorized scope of the call. *)
Theorem repository_scoped cassette b identity repo :
  RepositoryFor URL_Path decode_entity decode_list cassette b identity = Ok repo →
  repo_Transport repo = sb_TransportKind b ∧ repo_Authority repo = sb_ScopeAuthority b ∧
  (∀ sc, ¬ in_scope identity (repo_Authority repo) sc →
     (∀ id, repo_Get repo sc id = Err (Sentinel ErrScopeDenied)) ∧
     (∀ p, repo_List repo sc p = Err (Sentinel ErrScopeDenied)) ∧
     (∀ en, repo_Create repo sc en = Err (Sentinel ErrScopeDenied)) ∧
     (∀ en, repo_Update repo sc en = Err (Sentinel ErrScopeDenied)) ∧
     ∀ id, repo_Delete repo sc id = Err (Sentinel ErrScopeDenied)) ∧
  ∀ sc en, answers repo sc en → in_scope identity (repo_Authority repo) sc ∧ en_ScopeID en = sc_ScopeID sc.
Proof.
  unfold RepositoryFor. destruct (BindingIsBindable b); [|done]. cbn [negb].
  assert (∀ {A} a sc (k : outcome xerr A), ¬ in_scope identity a sc →
    authorized identity a sc k = Err (Sentinel ErrScopeDenied)) as Hden.
  { intros A a sc k Hn. by destruct (authorized_cases identity a sc k) as [[? _]|[_ ?]]. }
  assert (∀ {A} a sc (k : outcome xerr A) x, authorized identity a sc k = Ok x → in_scope identity a sc ∧ k = Ok x) as Hok.
  { intros A a sc k x Hx. destruct (authorized_cases identity a sc k) as [[? Heq]|[_ Heq]]; rewrite Heq in Hx; done. }
  destruct (bool_decide (sb_TransportKind b = TRANSPORT_CONNECT) && _) eqn:Hc;
    [|destruct (bool_decide (sb_TransportKind b = TRANSPORT_REST_OPENAPI) && _) eqn:Ha; [|done];
      destruct cassette as [routes|]; [|done]].
  all: intros [= <-];
    match goal with E : _ && _ = true |- _ => apply andb_true_iff in E as [?%bool_decide_eq_true ?%bool_decide_eq_true] end;
    split; [done|]; split; [done|]; split; [intros sc Hn; split_and!; intros; by apply Hden|].
  - intros sc en [id Hx|p pg Hx Hin|x Hx|x Hx]; apply Hok in Hx as [Hsc [= <-]]; (split; [done|]); try done.
    cbn in Hin. apply elem_of_first_page in Hin. by apply elem_of_cons in Hin as [->| ->%list_elem_of_singleton].
  - intros sc en [id Hx|p pg Hx Hin|x Hx|x Hx]; apply Hok in Hx as [Hsc Hx]; (split; [done|]);
      try by eapply entity_call_scope.
    unfold list_call in Hx. repeat case_match; try done. injection Hx as <-. cbn in Hin.
    apply elem_of_first_page, list_elem_of_fmap in Hin as (ej & -> & _). done.
Qed.
End repositories.

(** ** Dispatch *)

Section dispatch.
Context (Unmarshal : string → option json).

(** A dispatch validates exactly when the node binds the adapter, the scope's
    allowlist has it, both schemas are there, the side effect is a read or a
    write and the input satisfies the schema; it never executes anything; and an
    adapter that is unknown, foreign or unbound gives the same denial. *)
Theorem Dispatch_exact adapters node tool scope input :
  let adapter := td_AdapterId tool in
  let permitted := adapter ∈ an_ToolIds node ∧ adapter ∈ default ∅ (adapters !! sc_ScopeID scope) in
  let d := Dispatch Unmarshal adapters (Some node) (Some tool) scope input in
  (¬ permitted → d = Err (Sentinel ErrDispatchDenied)) ∧
  (∀ r, d = Ok r ↔ permitted ∧ td_InputSchema tool ≠ "" ∧ td_OutputSchema tool ≠ "" ∧
     (td_SideEffect tool = SIDE_EFFECT_READ ∨ td_SideEffect tool = SIDE_EFFECT_WRITE) ∧
     validateAgainstSchema Unmarshal input (td_InputSchema tool) = true ∧
     r = {| sr_GateClass := if bool_decide (td_SideEffect tool = SIDE_EFFECT_WRITE) then GateWrite else GateRead;
            sr_WriteGated := bool_decide (td_SideEffect tool = SIDE_EFFECT_WRITE); sr_Executed := false;
            sr_OutputEnvelope := echoOutputEnvelope Unmarshal (td_OutputSchema tool) |}).
Proof.
  cbv zeta. unfold Dispatch.
  assert (nodeBindsAdapter node (td_AdapterId tool) = true ↔ td_AdapterId tool ∈ an_ToolIds node) as Hn.
  { unfold nodeBindsAdapter. rewrite any_true. setoid_rewrite bool_decide_eq_true. naive_solver. }
  destruct (nodeBindsAdapter node (td_AdapterId tool)); cbn [negb].
  2: { split; [done|]. intros r. split; [done|]. intros ((Hx & _) & _). by apply Hn in Hx. }
  case_bool_decide as Ha; cbn [negb].
  2: { split; [done|]. intros r. split; [done|]. by intros ((_ & Hx) & _). }
  split; [intros Hx; destruct Hx; split; [by apply Hn|done]|]. intros r.
  do 2 (case_bool_decide; cbn [orb]; [split; [done|]; tauto|]).
  destruct (td_SideEffect tool) eqn:Hs; try (split; [done|]; naive_solver).
  all: destruct (validateAgainstSchema _ _ _); cbn [negb]; (split; [|naive_solver]); intros Hr; [|done];
    injection Hr as <-; split_and!; auto; by apply Hn.
Qed.
End dispatch.

(** ** Examples *)

Section experience_examples.
#[local] Instance ex_sha256 : Sha256 := {| sha256 := λ s, s |}.

Definition ex_marshal (s : ExperienceSpec) : option string := Some (sp_TenantId s +:+ sp_Other s).
Definition ex_xspec (tenant other : string) : ExperienceSpec :=
  {| sp_SpecSchemaVersion := "1"; sp_SurfaceContractVersion := "1"; sp_ContentHash := "";
     sp_MinBinaryVersion := "1.2"; sp_TenantId := tenant; sp_OrgId := "org"; sp_ReferencedSurfaceIds := ["a"; "b"];
     sp_UnknownSurfacePolicy := Policy_IGNORE; sp_NavGraph := None; sp_Timezone := ""; sp_SurfaceOffline := ∅;
     sp_ResolutionContext := None; sp_LockedSurfaces := []; sp_Other := other |}.
Definition ex_tuple (role : string) : ResolutionTuple :=
  {| rt_Role := role; rt_FormFactor := "phone"; rt_TenantID := "acme"; rt_OrgID := "org";
     rt_Entitlement := "pro"; rt_Granted := {["a"; "c"]} |}.
Definition ex_xenv : Env := {| now := 5; new_id := N.of_nat; order := canonical_range |}.

Lemma fits_small s : bool_decide (N.of_nat (String.length s) < 4294967296)%N = true → fits s.
Proof. intros Hs%bool_decide_eq_true. exact Hs. Qed.

Lemma ex_fits role : role ∈ ["admin"; "staff"] → segments_fit ex_marshal ex_xenv (ex_xspec "acme" "x") (ex_tuple role).
Proof.
  intros Hr. apply elem_of_cons in Hr as [->| ->%list_elem_of_singleton].
  all: split; [by apply fits_small|repeat constructor; by apply fits_small| |by apply fits_small; vm_compute].
  all: cbn; intros g [->%elem_of_singleton| ->%elem_of_singleton]%elem_of_union; by apply fits_small.
Qed.

Lemma content_hash_preimage_witness :
  hash_preimage ex_marshal ex_xenv (ex_xspec "acme" "x") (ex_tuple "admin") =
  hash_preimage ex_marshal ex_xenv (ex_xspec "acme" "x") (ex_tuple "staff") ↔
  canonicalSpecBytes ex_marshal (ex_xspec "acme" "x") = canonicalSpecBytes ex_marshal (ex_xspec "acme" "x") ∧
  ex_tuple "admin" = ex_tuple "staff".
Proof.
  apply (content_hash_preimage ex_marshal ex_xenv ex_xenv (ex_xspec "acme" "x") (ex_xspec "acme" "x")
    (ex_tuple "admin") (ex_tuple "staff")); apply ex_fits; set_solver.
Defined.

Definition ex_claims (company : string) : Claims :=
  {| Registered := {| Subject := "u"; Auth.Issuer := "i"; Audience := []; ExpiresAt := None; IssuedAt := None;
                      NotBefore := None; JTI := "j" |};
     c_UserID := "u"; c_CompanyID := company; c_CompanyIDs := []; c_Role := ""; c_RoleLevel := 0;
     c_Scopes := ["profile"; "org:org"]; c_HouseholdID := ""; c_ChildID := ""; c_ChildMode := false;
     c_Entitlements := [] |}.
(** Two tenants store a spec under one identifier; each writes the other's name. *)
Definition ex_calls : list (option Claims * option AppDefinition) :=
  [(Some (ex_claims "acme"), Some {| ad_Id := "app"; ad_Spec := Some (ex_xspec "evil" "1"); ad_Other := "" |});
   (Some (ex_claims "evil"), Some {| ad_Id := "app"; ad_Spec := Some (ex_xspec "acme" "2"); ad_Other := "" |})].
Definition ex_handler : ExperienceHandler :=
  {| TupleFor := λ scope role ff, ex_tuple role; handler_now := "now" |}.
Definition ex_scope : PrincipalScope := {| ps_TenantID := "acme"; ps_OrgID := "org" |}.

Lemma nul_free_dec s : bool_decide ("000"%char ∉ String.list_ascii_of_string s) = true → nul_free s.
Proof. apply bool_decide_eq_true. Qed.

Lemma ex_clean : clean_calls ex_calls.
Proof.
  intros call scope [->|[->|Hn]%elem_of_cons]%elem_of_cons Hs; [..|by apply not_elem_of_nil in Hn].
  all: vm_compute in Hs; injection Hs as <-; by split; apply nul_free_dec.
Qed.

Lemma ResolveSpec_own_spec_witness :
  ResolveSpec ex_marshal ex_handler ex_xenv (Some (ex_claims "acme")) "app" "admin" "phone" (store_calls ex_calls) =
  (match last_stored ex_scope "app" ex_calls with
   | Some spec =>
       match Resolve ex_marshal ex_xenv (Some spec) (TupleFor ex_handler ex_scope "admin" "phone")
               {| cfg_Version := ""; cfg_ResolvedAt := handler_now ex_handler |} with
       | Ok r => Ok r
       | Err _ => Err CodePermissionDenied
       end
   | None => Err CodePermissionDenied
   end, store_calls ex_calls) ∧
  ∀ spec, last_stored ex_scope "app" ex_calls = Some spec → sp_TenantId spec = "acme" ∧ sp_OrgId spec = "org".
Proof.
  apply (ResolveSpec_own_spec ex_marshal ex_handler ex_xenv ex_calls (Some (ex_claims "acme")) ex_scope "app" "admin" "phone");
    [exact ex_clean|reflexivity|by split; apply nul_free_dec].
Defined.

Definition ex_tool (v : ToolVisibility) : ToolDefinition :=
  {| td_AdapterId := "tickets"; td_InputSchema := "{}"; td_OutputSchema := "{}"; td_SideEffect := SIDE_EFFECT_WRITE;
     td_Visibility := v |}.
Definition ex_agent : AgentSpec :=
  {| as_CompanyId := "acme"; as_Persona := "kind"; as_ModelRef := "m"; as_Tools := [ex_tool EXTERNAL_SAFE];
     as_MaxSteps := 5; as_Audience := AUDIENCE_EXTERNAL;
     as_AudienceBindings := [{| ab_Audience := AUDIENCE_EXTERNAL; ab_ToolIds := ["tickets"] |}] |}.

Lemma duplicate_adapter_passes_witness :
  ValidateAgentSpec id (Some (with_tools [ex_tool INTERNAL_ONLY; ex_tool EXTERNAL_SAFE] ex_agent)) "acme" = [].
Proof.
  apply (duplicate_adapter_passes id ex_agent "acme" (ex_tool INTERNAL_ONLY)); [by vm_compute|].
  exists (ex_tool EXTERNAL_SAFE). split; [set_solver|reflexivity].
Defined.

Definition ex_identity : AoidIdentity := {| ai_Subject := "u"; ai_CompanyIDs := ["acme"]; ai_OrgIDs := [] |}.
Definition ex_binding : ServiceTransportBinding :=
  {| sb_Operations := [1%Z]; sb_TransportKind := TRANSPORT_CONNECT; sb_ScopeAuthority := AUTHORITY_COMPANY |}.

Lemma repository_scoped_witness :
  let repo := newConnectStubRepository ex_identity in
  repo_Transport repo = TRANSPORT_CONNECT ∧ repo_Authority repo = AUTHORITY_COMPANY ∧
  (∀ sc, ¬ in_scope ex_identity (repo_Authority repo) sc →
     (∀ id, repo_Get repo sc id = Err (Sentinel ErrScopeDenied)) ∧
     (∀ p, repo_List repo sc p = Err (Sentinel ErrScopeDenied)) ∧
     (∀ en, repo_Create repo sc en = Err (Sentinel ErrScopeDenied)) ∧
     (∀ en, repo_Update repo sc en = Err (Sentinel ErrScopeDenied)) ∧
     ∀ id, repo_Delete repo sc id = Err (Sentinel ErrScopeDenied)) ∧
  ∀ sc en, answers repo sc en → in_scope ex_identity (repo_Authority repo) sc ∧ en_ScopeID en = sc_ScopeID sc.
Proof.
  apply (repository_scoped Some (λ _, None) (λ _, None) None ex_binding ex_identity
    (newConnectStubRepository ex_identity)). reflexivity.
Defined.
End experience_examples.
