(* ===== verification/Sso.v ===== *)
(** * Hand-off codes and company single sign-on (platform/auth)

    handoff.go: codes that reference a token pair, their store as the class
    [HandoffStore] and the in-memory one; sso.go: OIDC and SAML sign-in of a
    company's users, the state token, the HTTP handlers.  Discovery, the token
    exchange, the verification of ID tokens and the SAML library are the record
    [Upstream], what a request gets from outside.  The theorems are in
    [SsoProofs]. *)

From S2P Require Import Prelude Encoding Password Rbac Company Auth.

(** ** handoff.go *)

Definition HandoffTTL : duration := (60 * Second)%Z.
Definition handoffSubjectPrefix : string := "edenhandoff.v1".

Inductive handoff_sentinel : Type :=
  | ErrHandoffInvalid
  | ErrHandoffReplayed
  | ErrHandoffAudience
  | ErrHandoffUnknown.
#[export] Instance handoff_sentinel_eq_dec : EqDecision handoff_sentinel.
Proof. solve_decision. Defined.

(** [fmt.Errorf] with up to two [%w]. *)
Inductive herr : Type :=
  | HSentinel (s : handoff_sentinel)
  | HErrorf (msg : string)
  | HWrapf (msg : string) (err : herr)
  | HWrapf2 (msg : string) (err1 err2 : herr).
#[export] Instance herr_eq_dec : EqDecision herr.
Proof. solve_decision. Defined.

(** [errors.Is]; the last three sentinels wrap the first. *)
Fixpoint herr_Is (err : herr) (s : handoff_sentinel) : bool :=
  match err with
  | HSentinel s' => bool_decide (s = s') || bool_decide (s = ErrHandoffInvalid)
  | HErrorf _ => false
  | HWrapf _ err => herr_Is err s
  | HWrapf2 _ err1 err2 => herr_Is err1 s || herr_Is err2 s
  end.

(** [ReplayGuard] and [HandoffStore]. *)
Class HandoffStore (HS : Type) : Type := {
  MarkRedeemed : Env → string → duration → prog HS herr bool;
  hs_Put : Env → string → AuthResponse → duration → prog HS herr unit;
  hs_Load : Env → string → prog HS herr AuthResponse;
}.

Definition handoff_wrapping {St A} (msg : string) (m : prog St herr A) : prog St herr A :=
  λ s, match m s with
       | (Ok a, s') => (Ok a, s')
       | (Err err, s') => (Err (HWrapf msg err), s')
       end.

Definition handoff_subject (jti audience : string) : string :=
  strings_Join "|" [handoffSubjectPrefix; jti; QueryEscape audience].

Definition parseHandoffSubject (subject : string) : outcome herr (string * string) :=
  match split_on "|" subject with
  | [tag; jti; escaped] =>
      if bool_decide (tag ≠ handoffSubjectPrefix) then
        Err (HWrapf "redeem handoff: subject is not a handoff" (HSentinel ErrHandoffInvalid))
      else if bool_decide (jti = "") then
        Err (HWrapf "redeem handoff: empty jti" (HSentinel ErrHandoffInvalid))
      else match QueryUnescape escaped with
           | None => Err (HWrapf "redeem handoff: undecodable audience" (HSentinel ErrHandoffInvalid))
           | Some aud => Ok (jti, aud)
           end
  | _ => Err (HWrapf "redeem handoff: subject is not a handoff" (HSentinel ErrHandoffInvalid))
  end.

(** The error of a library, as far as the hand-off looks at it. *)
Definition plain {A} (o : outcome aerr A) : outcome herr A :=
  match o with Ok a => Ok a | Err _ => Err (HErrorf "token") end.

Section handoff.
Context {J : JWTLib} {HS : Type} {S : HandoffStore HS}.

(** [jti r 0] names the hand-off, [jti r 1] the token that carries it. *)
Definition mintHandoff (e : Env) (r : Rand) (jm : option JWTManager) (audience : string)
    (resp : option AuthResponse) (ttl : duration) : prog HS herr string :=
  match jm with
  | None => throw (HErrorf "mint handoff: jwt manager and store are required")
  | Some jm =>
      if bool_decide (audience = "") then throw (HErrorf "mint handoff: audience is required")
      else match resp with
           | None => throw (HErrorf "mint handoff: a token pair is required")
           | Some resp =>
               if bool_decide (AccessToken resp = "")
               then throw (HErrorf "mint handoff: a token pair is required")
               else
                 let id := jti r 0 in
                 _ ← handoff_wrapping "mint handoff" (hs_Put e id resp ttl);
                 of_outcome (plain (CreateCompactShortLivedToken e jm (jti r 1)
                                      (handoff_subject id audience) ttl))
           end
  end.

Definition MintHandoff (e : Env) (r : Rand) (jm : option JWTManager) (audience : string)
    (resp : option AuthResponse) : prog HS herr string :=
  mintHandoff e r jm audience resp HandoffTTL.

Definition RedeemHandoff (e : Env) (jm : option JWTManager) (audience code : string) :
    prog HS herr AuthResponse :=
  match jm with
  | None => throw (HErrorf "redeem handoff: jwt manager and store are required")
  | Some jm =>
      match ValidateCompactShortLivedToken e jm code with
      | Err _ => throw (HWrapf2 "redeem handoff" (HSentinel ErrHandoffInvalid) (HErrorf "token"))
      | Ok subject =>
          match parseHandoffSubject subject with
          | Err err => throw err
          | Ok (id, boundAudience) =>
              if bool_decide (boundAudience ≠ audience) || bool_decide (audience = "")
              then throw (HSentinel ErrHandoffAudience)
              else
                marked ← try (MarkRedeemed e id HandoffTTL);
                match marked with
                | Err err => throw (HWrapf2 "redeem handoff" (HSentinel ErrHandoffInvalid) err)
                | Ok false => throw (HSentinel ErrHandoffReplayed)
                | Ok true => hs_Load e id
                end
          end
      end
  end.
End handoff.

Definition maxInMemoryHandoffs : Z := 10000.

Record handoffEntry : Type := { he_resp : AuthResponse; he_expiresAt : time }.
Record InMemoryHandoffStore : Type := {
  ho_entries : gmap string handoffEntry;
  redeemed : gmap string time;
}.
Definition NewInMemoryHandoffStore : InMemoryHandoffStore := {| ho_entries := ∅; redeemed := ∅ |}.

Definition sweepLocked (e : Env) (s : InMemoryHandoffStore) : InMemoryHandoffStore :=
  {| ho_entries := filter (λ kv, After (now e) (he_expiresAt kv.2) = false) (ho_entries s);
     redeemed := filter (λ kv, After (now e) kv.2 = false) (redeemed s) |}.

Definition mem_Put (e : Env) (jti : string) (resp : AuthResponse) (ttl : duration) :
    prog InMemoryHandoffStore herr unit := λ s,
  let s := sweepLocked e s in
  if bool_decide (maxInMemoryHandoffs ≤ Z.of_nat (size (ho_entries s)))%Z
  then (Err (HErrorf "handoff store is full"), s)
  else (Ok tt, {| ho_entries := <[jti := {| he_resp := resp; he_expiresAt := (now e + ttl)%Z |}]> (ho_entries s);
                  redeemed := redeemed s |}).

Definition mem_Load (e : Env) (jti : string) : prog InMemoryHandoffStore herr AuthResponse := λ s,
  match ho_entries s !! jti with
  | None => (Err (HSentinel ErrHandoffUnknown), s)
  | Some en => if After (now e) (he_expiresAt en) then (Err (HSentinel ErrHandoffUnknown), s)
               else (Ok (he_resp en), s)
  end.

Definition mem_MarkRedeemed (e : Env) (jti : string) (ttl : duration) :
    prog InMemoryHandoffStore herr bool := λ s,
  let s := sweepLocked e s in
  match redeemed s !! jti with
  | Some until => if Before (now e) until then (Ok false, s)
                  else (Ok true, {| ho_entries := ho_entries s; redeemed := <[jti := (now e + ttl)%Z]> (redeemed s) |})
  | None => (Ok true, {| ho_entries := ho_entries s; redeemed := <[jti := (now e + ttl)%Z]> (redeemed s) |})
  end.

#[export] Instance InMemoryHandoffStore_store : HandoffStore InMemoryHandoffStore := {|
  MarkRedeemed := mem_MarkRedeemed; hs_Put := mem_Put; hs_Load := mem_Load |}.

(** ** sso.go *)

(** [strings.SplitN(s, c, n)], [n] at least 1. *)
Fixpoint SplitN (c : ascii) (n : nat) (s : string) : list string :=
  match n with
  | O => []
  | S O => [s]
  | S n =>
      (fix go (s : string) : list string :=
         match s with
         | EmptyString => [""]
         | String a rest =>
             if bool_decide (a = c) then "" :: SplitN c n rest
             else match go rest with
                  | [] => [String a ""]
                  | x :: xs => String a x :: xs
                  end
         end) s
  end.

(** [ProviderPresets]: issuer URLs. *)
Definition ProviderPresets : gmap string string :=
  {["microsoft" := "https://login.microsoftonline.com/common/v2.0";
    "google" := "https://accounts.google.com"]}.

Definition appendSSOQuery (rawURL key value : string) : string :=
  let sep := if strings_Contains rawURL "?" then "&" else "?" in
  rawURL +:+ sep +:+ key +:+ "=" +:+ QueryEscape value.

(** SAML attributes. *)
Record Attribute : Type := { at_Name : string; at_FriendlyName : string; at_Values : list string }.
Record Assertion : Type := { AttributeStatements : list (list Attribute) }.

(** [for _, name := range names { if matches && len(Values) > 0 }]. *)
Definition attribute_value (names : list string) (attr : Attribute) : option string :=
  if any (λ name, bool_decide (at_Name attr = name) || bool_decide (at_FriendlyName attr = name)) names
  then head (at_Values attr) else None.
Definition getAssertionAttribute (assertion : option Assertion) (names : list string) : string :=
  match assertion with
  | None => ""
  | Some a => default "" (head (omap (attribute_value names) (concat (AttributeStatements a))))
  end.

(** [oauth2.Token] with its extra [id_token]. *)
Record OAuth2Token : Type := {
  ot_AccessToken : string;
  ot_RefreshToken : string;
  ot_Expiry : time;
  ot_IDToken : option string;
}.

(** go-oidc, oauth2 and crewjam/saml: [Provider] is a discovered provider, [SP]
    a service provider made from the metadata of an identity provider. *)
Class SSOLib : Type := { Provider : Type; SP : Type }.

Section sso.
Context {U : UuidText} {C : UnicodeCase} {H : Sha256} {J : JWTLib} {L : SSOLib}.

(** [oauth2.Config]; its endpoint is that of the provider. *)
Record OAuth2Config : Type := {
  oc_ClientID : string;
  oc_ClientSecret : string;
  oc_Endpoint : Provider;
  oc_RedirectURL : string;
  oc_Scopes : list string;
}.
Record oidcCachedProvider : Type := { provider : Provider; cp_config : OAuth2Config }.

(** What one request gets from outside; [None] is an error. *)
Record Upstream : Type := {
  NewProvider : string → option Provider;
  GenerateVerifier : string;
  AuthCodeURL : OAuth2Config → string → string → string;
  Exchange : OAuth2Config → string → option string → option OAuth2Token;
  (* the e-mail and the name of a verified ID token *)
  VerifyIDToken : Provider → string → string → option (string * string);
  FetchSP : string → string → option SP;
  AuthnRedirect : SP → string → option string;
  ParseResponse : SP → option (option Assertion);
}.

Record SSOService : Type := { sv_jwtManager : JWTManager; baseURL : string }.
Definition NewSSOService (jm : JWTManager) (url : string) : SSOService :=
  {| sv_jwtManager := jm; baseURL := TrimRight url "/" |}.

(** The providers a service has cached, its hand-offs and its store. *)
Context {St : Type} {AS : AuthStore St} {HS : Type} {S : HandoffStore HS}.
Record SSOState : Type := {
  oidcProviders : gmap string oidcCachedProvider;
  handoffStore : HS;
  store : St;
}.
Definition on_store {A} (m : prog St aerr A) : prog SSOState aerr A :=
  zoom store (λ t s, {| oidcProviders := oidcProviders s; handoffStore := handoffStore s; store := t |}) m.

Definition provider_key (cfg : SSOConfig) : string :=
  uuid_String (sso_CompanyID cfg) +:+ ":" +:+ sso_Provider cfg.

Definition oauth_config (s : SSOService) (cfg : SSOConfig) (p : Provider) : OAuth2Config :=
  {| oc_ClientID := sso_ClientID cfg; oc_ClientSecret := sso_ClientSecret cfg; oc_Endpoint := p;
     oc_RedirectURL := baseURL s +:+ "/auth/oidc/callback";
     oc_Scopes := ["openid"; "profile"; "email"] ++ sso_ExtraScopes cfg |}.

Definition getOrCreateOIDCProvider (s : SSOService) (u : Upstream) (cfg : SSOConfig) :
    prog SSOState aerr oidcCachedProvider := λ st,
  match oidcProviders st !! provider_key cfg with
  | Some cached => (Ok cached, st)
  | None =>
      let issuerURL := if bool_decide (sso_IssuerURL cfg = "")
                       then default "" (ProviderPresets !! sso_Provider cfg) else sso_IssuerURL cfg in
      match NewProvider u issuerURL with
      | None => (Err (Errorf "discover OIDC provider"), st)
      | Some p =>
          let cached := {| provider := p; cp_config := oauth_config s cfg p |} in
          (Ok cached, {| oidcProviders := <[provider_key cfg := cached]> (oidcProviders st);
                         handoffStore := handoffStore st; store := store st |})
      end
  end.

Definition state_subject (companyID : uuid) (provider redirectURI verifier : string) : string :=
  uuid_String companyID +:+ "|" +:+ provider +:+ "|" +:+ redirectURI +:+ "|" +:+ verifier.

(** [id] is what [generateJTI] drew. *)
Definition createStateJWT (s : SSOService) (e : Env) (id : string) (companyID : uuid)
    (provider redirectURI verifier : string) : outcome aerr string :=
  CreateCompactShortLivedToken e (sv_jwtManager s) id
    (state_subject companyID provider redirectURI verifier) (10 * Minute)%Z.

Definition state_fields (subject : string) : outcome aerr (uuid * string * string * string) :=
  match SplitN "|" 4 subject with
  | id :: provider :: redirectURI :: rest =>
      match uuid_Parse id with
      | None => Err (Errorf "invalid company_id in state")
      | Some companyID => Ok (companyID, provider, redirectURI, default "" (head rest))
      end
  | _ => Err (Errorf "malformed state")
  end.

Definition parseStateJWT (s : SSOService) (e : Env) (stateJWT : string) :
    outcome aerr (uuid * string * string * string) :=
  match ValidateCompactShortLivedToken e (sv_jwtManager s) stateJWT with
  | Ok subject => state_fields subject
  | Err _ => match ValidateShortLivedToken e (sv_jwtManager s) stateJWT with
             | Ok subject => state_fields subject
             | Err err => Err (Wrapf "invalid state" err)
             end
  end.

Definition with_issuer (url : string) (cfg : SSOConfig) : SSOConfig :=
  {| sso_CompanyID := sso_CompanyID cfg; sso_Provider := sso_Provider cfg; sso_IssuerURL := url;
     sso_ClientID := sso_ClientID cfg; sso_ClientSecret := sso_ClientSecret cfg;
     sso_MetadataURL := sso_MetadataURL cfg; sso_DisplayName := sso_DisplayName cfg;
     sso_ExtraScopes := sso_ExtraScopes cfg; sso_EnforceSSO := sso_EnforceSSO cfg;
     sso_IsActive := sso_IsActive cfg; sso_EmailDomainAllowlist := sso_EmailDomainAllowlist cfg;
     sso_JITDefaultRole := sso_JITDefaultRole cfg; sso_JITEnabled := sso_JITEnabled cfg |}.

(** The configuration of a company, or the error the code makes of any failure. *)
Definition sso_config (companyID : uuid) (provider msg : string) : prog SSOState aerr SSOConfig :=
  found ← try (on_store (as_GetSSOConfig companyID provider));
  match found with Err _ => throw (Errorf msg) | Ok cfg => mret cfg end.

Definition InitiateOIDC (s : SSOService) (e : Env) (r : Rand) (u : Upstream) (companyID : uuid)
    (provider redirectURI : string) : prog SSOState aerr (string * string) :=
  let provider := if bool_decide (provider = "") then "oidc" else provider in
  ssoConfig ← sso_config companyID provider "SSO provider not configured for this company";
  ssoConfig ← (if bool_decide (sso_IssuerURL ssoConfig = "") then
                 match ProviderPresets !! provider with
                 | Some url => mret (with_issuer url ssoConfig)
                 | None => throw (Errorf "no issuer URL configured for provider")
                 end
               else mret ssoConfig);
  cached ← wrapping "create OIDC provider" (getOrCreateOIDCProvider s u ssoConfig);
  let verifier := GenerateVerifier u in
  state ← wrapping "create state"
    (of_outcome (createStateJWT s e (jti r 0) companyID provider redirectURI verifier));
  mret (AuthCodeURL u (cp_config cached) state verifier, state).

(** [jitProvision]; [jti r 0] and [jti r 1] name the tokens. *)
Definition jitProvision (s : SSOService) (e : Env) (r : Rand) (email name : string) (companyID : uuid) :
    prog St aerr AuthResponse :=
  let email := ToLower (TrimSpace email) in
  let name := if bool_decide (name = "") then default "" (head (split_on "@" email)) else name in
  found ← try (as_GetUserByEmail email);
  user ← (match found with
          | Ok user => mret user
          | Err _ => wrapping "create SSO user" (as_CreateUser e 0 email "" name)
          end);
  _ ← ignore (as_CreateCompanyMembership companyID (u_ID user) MemberRoleID);
  role ← try (as_GetUserRole companyID (u_ID user));
  let '(roleName, roleLevel) :=
    match role with Ok role => (ro_Name role, ro_RoleLevel role) | Err _ => ("member", 40%Z) end in
  let companyIDStr := uuid_String companyID in
  accessToken ← wrapping "create access token"
    (of_outcome (CreateAccessToken e (sv_jwtManager s) (jti r 0) (uuid_String (u_ID user)) companyIDStr
                   roleName roleLevel [companyIDStr]));
  refreshToken ← wrapping "create refresh token"
    (of_outcome (CreateRefreshToken e (sv_jwtManager s) (jti r 1) (uuid_String (u_ID user))));
  _ ← wrapping "store refresh token"
    (as_CreateRefreshToken (u_ID user) (HashToken refreshToken)
       (now e + RefreshTokenExpiry (config (sv_jwtManager s)))%Z);
  mret {| AccessToken := accessToken; RefreshToken := refreshToken; resp_User := user |}.

Definition HandleOIDCCallbackWithVerifier (s : SSOService) (e : Env) (r : Rand) (u : Upstream)
    (code provider_name : string) (companyID : uuid) (verifier : string) :
    prog SSOState aerr AuthResponse :=
  ssoConfig ← sso_config companyID provider_name "SSO provider not configured for this company";
  cached ← wrapping "create OIDC provider" (getOrCreateOIDCProvider s u ssoConfig);
  let exchangeOpts := if bool_decide (verifier = "") then None else Some verifier in
  match Exchange u (cp_config cached) code exchangeOpts with
  | None => throw (Errorf "exchange authorization code")
  | Some oauth2Token =>
      match ot_IDToken oauth2Token with
      | None => throw (Errorf "no id_token in token response")
      | Some rawIDToken =>
          match VerifyIDToken u (provider cached) (sso_ClientID ssoConfig) rawIDToken with
          | None => throw (Errorf "verify ID token")
          | Some (email, name) =>
              if bool_decide (email = "") then throw (Errorf "email claim not found in ID token")
              else
                authResp ← on_store (jitProvision s e r email name companyID);
                if bool_decide (ot_AccessToken oauth2Token = "") then mret authResp
                else
                  _ ← ignore (on_store (as_UpsertOAuthCredential
                    {| oa_CompanyID := companyID; oa_UserID := u_ID (resp_User authResp);
                       oa_Provider := provider_name; oa_AccessToken := ot_AccessToken oauth2Token;
                       oa_RefreshToken := ot_RefreshToken oauth2Token;
                       oa_TokenExpiry := ot_Expiry oauth2Token;
                       oa_Scopes := sso_ExtraScopes ssoConfig |}));
                  mret authResp
          end
      end
  end.

Definition HandleOIDCCallback (s : SSOService) (e : Env) (r : Rand) (u : Upstream)
    (code provider_name : string) (companyID : uuid) : prog SSOState aerr AuthResponse :=
  HandleOIDCCallbackWithVerifier s e r u code provider_name companyID "".

Definition HandleOIDCCallbackWithState (s : SSOService) (e : Env) (r : Rand) (u : Upstream)
    (code stateJWT : string) : prog SSOState aerr (AuthResponse * string) :=
  '(companyID, provider_name, redirectURI, verifier) ←
    wrapping "invalid state" (of_outcome (parseStateJWT s e stateJWT));
  resp ← HandleOIDCCallbackWithVerifier s e r u code provider_name companyID verifier;
  mret (resp, redirectURI).

Definition createSAMLSP (s : SSOService) (u : Upstream) (cfg : SSOConfig) : outcome aerr SP :=
  if bool_decide (sso_MetadataURL cfg = "") then Err (Errorf "SAML metadata URL not configured")
  else match FetchSP u (sso_MetadataURL cfg) (baseURL s) with
       | None => Err (Errorf "fetch IdP metadata")
       | Some sp => Ok sp
       end.

(** The second argument of [AuthnRedirect] is the relay state. *)
Definition InitiateSAML (s : SSOService) (u : Upstream) (companyID : uuid) :
    prog SSOState aerr string :=
  ssoConfig ← sso_config companyID "saml" "SAML not configured for this company";
  sp ← wrapping "create SAML SP" (of_outcome (createSAMLSP s u ssoConfig));
  match AuthnRedirect u sp "" with
  | None => throw (Errorf "build SAML redirect URL")
  | Some url => mret url
  end.

Definition HandleSAMLCallback (s : SSOService) (e : Env) (r : Rand) (u : Upstream) (companyID : uuid) :
    prog SSOState aerr AuthResponse :=
  ssoConfig ← sso_config companyID "saml" "SAML not configured for this company";
  sp ← wrapping "create SAML SP" (of_outcome (createSAMLSP s u ssoConfig));
  match ParseResponse u sp with
  | None => throw (Errorf "validate SAML assertion")
  | Some assertion =>
      let email := getAssertionAttribute assertion
        ["email"; "http://schemas.xmlsoap.org/ws/2005/05/identity/claims/emailaddress"] in
      let name := getAssertionAttribute assertion
        ["displayName"; "http://schemas.xmlsoap.org/ws/2005/05/identity/claims/name"] in
      if bool_decide (email = "") then throw (Errorf "email attribute not found in SAML assertion")
      else on_store (jitProvision s e r email name companyID)
  end.

(** The answers of the handlers. *)
Inductive sso_response : Type :=
  | HttpError (msg : string) (status : Z)
  | HttpRedirect (target : string)
  | TokenPair (access refresh : string).

Definition respond (st : SSOState) (resp : sso_response) : sso_response * SSOState := (resp, st).

(** [r.URL.Query().Get("code")] and [Get("state")]. *)
Definition handleOIDCCallbackHTTP (s : SSOService) (e : Env) (r : Rand) (u : Upstream)
    (code stateJWT : string) (st : SSOState) : sso_response * SSOState :=
  if bool_decide (code = "") || bool_decide (stateJWT = "")
  then respond st (HttpError "missing code or state parameter" 400)
  else
    match HandleOIDCCallbackWithState s e r u code stateJWT st with
    | (Err _, st) => respond st (HttpError "authentication failed" 500)
    | (Ok (resp, redirectURI), st) =>
        if negb (bool_decide (redirectURI = "")) && negb (bool_decide (redirectURI = "json")) then
          (* the token identifiers of the hand-off are drawn after those of the response *)
          let r' := {| salt := salt r; jti := λ n, jti r (2 + n) |} in
          match MintHandoff e r' (Some (sv_jwtManager s)) redirectURI (Some resp) (handoffStore st) with
          | (minted, hs) =>
              let st := {| oidcProviders := oidcProviders st; handoffStore := hs; store := store st |} in
              match minted with
              | Err _ => respond st (HttpError "authentication failed" 500)
              | Ok handoffCode =>
                  respond st (HttpRedirect
                    (appendSSOQuery (appendSSOQuery redirectURI "code" handoffCode) "state" stateJWT))
              end
          end
        else respond st (TokenPair (AccessToken resp) (RefreshToken resp))
    end.

(** [form] is the parsed body: [None] when [ParseForm] fails. *)
Definition handleOIDCExchangeHTTP (s : SSOService) (e : Env) (method : string)
    (form : option (string → string)) (st : SSOState) : sso_response * SSOState :=
  if bool_decide (method ≠ "POST") then respond st (HttpError "method not allowed" 405)
  else match form with
       | None => respond st (HttpError "invalid request" 400)
       | Some PostFormValue =>
           let handoffCode := PostFormValue "code" in
           let redirectURI := PostFormValue "redirect_uri" in
           if bool_decide (handoffCode = "") || bool_decide (redirectURI = "")
           then respond st (HttpError "invalid request" 400)
           else
             match RedeemHandoff e (Some (sv_jwtManager s)) redirectURI handoffCode (handoffStore st) with
             | (redeemed, hs) =>
                 let st := {| oidcProviders := oidcProviders st; handoffStore := hs; store := store st |} in
                 match redeemed with
                 | Err _ => respond st (HttpError "invalid request" 400)
                 | Ok resp => respond st (TokenPair (AccessToken resp) (RefreshToken resp))
                 end
             end
       end.

Definition handleSAMLACSHTTP (s : SSOService) (e : Env) (r : Rand) (u : Upstream)
    (form : option (string → string)) (st : SSOState) : sso_response * SSOState :=
  match form with
  | None => respond st (HttpError "failed to parse form" 400)
  | Some FormValue =>
      match uuid_Parse (FormValue "RelayState") with
      | None => respond st (HttpError "invalid company_id in RelayState" 400)
      | Some companyID =>
          match HandleSAMLCallback s e r u companyID st with
          | (Err _, st) => respond st (HttpError "authentication failed" 500)
          | (Ok resp, st) => respond st (TokenPair (AccessToken resp) (RefreshToken resp))
          end
      end
  end.
End sso.
