(* ===== verification/SsoProofs.v ===== *)
(** * Theorems on hand-off codes and single sign-on

    A code is redeemed at most once whatever store operations come in between,
    and, while it lives, for exactly what it was minted for; state tokens carry
    their fields when these have no separator, and neither kind of token stands
    for the other; what the callback sends; whose identity an assertion buys. *)

From S2P Require Import Prelude Encoding Password Rbac Company Auth Devstore AuthProofs Sso.

(** ** Compact tokens *)

Section compact.
Context {J : JWTLib} {L : JWTLaws J}.

Lemma compact_created e (m : @JWTManager J) id subject ttl :
  has_key m → ∃ tok, CreateCompactShortLivedToken e m id subject ttl = Ok tok.
Proof.
  intros [[sk Hsk] _]. unfold CreateCompactShortLivedToken, stateHMACKey. rewrite Hsk. by eexists.
Qed.

Lemma compact_validates e e' (m : @JWTManager J) id subject ttl tok :
  CreateCompactShortLivedToken e m id subject ttl = Ok tok →
  ValidateCompactShortLivedToken e' m tok =
  if bool_decide (now e' < NumericDate (now e + ttl))%Z then Ok subject
  else Err (Errorf "parse compact short-lived token").
Proof.
  unfold CreateCompactShortLivedToken, ValidateCompactShortLivedToken.
  destruct (stateHMACKey m) as [key|]; [|done]. intros [= <-].
  rewrite unsigned_HS256, verified_HS256, bool_decide_true by done. cbn [andb registered_only Registered].
  by rewrite not_expired_registered.
Qed.

Lemma NumericDate_le t : (NumericDate t ≤ t)%Z.
Proof.
  unfold NumericDate. assert (0 < Second)%Z by done. rewrite Z.mul_comm. by apply Z.mul_div_le.
Qed.
End compact.

(** ** Hand-offs *)

(** The identifiers [generateJTI] draws are of this kind: hexadecimal digits. *)
Definition jti_ok (id : string) : Prop := id ≠ "" ∧ "|"%char ∉ String.list_ascii_of_string id.

Lemma parse_handoff_subject id audience :
  jti_ok id → parseHandoffSubject (handoff_subject id audience) = Ok (id, audience).
Proof.
  intros [Hne Hbar]. unfold parseHandoffSubject, handoff_subject.
  change (strings_Join "|" [handoffSubjectPrefix; id; QueryEscape audience])
    with (handoffSubjectPrefix +:+ String "|" (id +:+ String "|" (QueryEscape audience))).
  rewrite !split_on_app, split_on_none;
    [|apply QueryEscape_no_bar|done|by apply (bool_decide_unpack _)].
  rewrite bool_decide_false, bool_decide_false by (done || tauto). by rewrite QueryUnescape_Escape.
Qed.

(** What the requests of a server make of its hand-off store, in whatever order
    their calls are interleaved. *)
Inductive store_op : Type :=
  | OpPut (id : string) (resp : AuthResponse)
  | OpMark (id : string)
  | OpLoad (id : string).
Definition run_op (e : Env) (op : store_op) (s : InMemoryHandoffStore) : InMemoryHandoffStore :=
  match op with
  | OpPut id resp => (mem_Put e id resp HandoffTTL s).2
  | OpMark id => (mem_MarkRedeemed e id HandoffTTL s).2
  | OpLoad id => (mem_Load e id s).2
  end.
Definition run_ops (ops : list (Env * store_op)) (s : InMemoryHandoffStore) : InMemoryHandoffStore :=
  foldl (λ s '(e, op), run_op e op s) s ops.
(** The clock does not run backwards from [t] to [t']. *)
Fixpoint forward (t : time) (ops : list (Env * store_op)) (t' : time) : Prop :=
  match ops with
  | [] => (t ≤ t')%Z
  | (e, _) :: ops => (t ≤ now e)%Z ∧ forward (now e) ops t'
  end.
Lemma forward_le t ops t' : forward t ops t' → (t ≤ t')%Z.
Proof. revert t. induction ops as [|[e op] ops IH]; intros t; [done|]. intros [? ?%IH]. lia. Qed.

(** [id] stays marked as redeemed until [limit] at least. *)
Definition spent (id : string) (limit : time) (s : InMemoryHandoffStore) : Prop :=
  ∃ until, redeemed s !! id = Some until ∧ (limit ≤ until)%Z.

Lemma spent_sweep e id limit s : (now e ≤ limit)%Z → spent id limit s → spent id limit (sweepLocked e s).
Proof.
  intros Hnow (until & Hid & Hle). exists until. split; [|done]. cbn.
  apply map_lookup_filter_Some. split; [done|]. cbn. unfold After. apply bool_decide_eq_false. lia.
Qed.


Lemma spent_op e op id limit s : (now e ≤ limit)%Z → spent id limit s → spent id limit (run_op e op s).
Proof.
  intros Hnow Hs. pose proof (spent_sweep e id limit s Hnow Hs) as Hsw. destruct op as [k resp|k|k]; cbn [run_op].
  - unfold mem_Put. by case_bool_decide.
  - unfold mem_MarkRedeemed. destruct Hsw as (until & Hid & Hle).
    destruct (decide (k = id)) as [->|Hne].
    + rewrite Hid. unfold Before. case_bool_decide; [by exists until|].
      exists (now e + HandoffTTL)%Z. split; [apply lookup_insert_eq|]. unfold HandoffTTL, Second. lia.
    + repeat case_match; exists until; cbn; rewrite ?lookup_insert_ne by done; done.
  - unfold mem_Load. by repeat case_match.
Qed.
Lemma spent_ops ops id limit t t' s :
  forward t ops t' → (t' ≤ limit)%Z → spent id limit s → spent id limit (run_ops ops s).
Proof.
  revert t s. induction ops as [|[e op] ops IH]; intros t s; [done|]. intros [_ Hf] Hle Hs.
  pose proof (forward_le _ _ _ Hf). cbn. apply (IH _ _ Hf Hle), spent_op; [lia|done].
Qed.

Lemma spent_marked e id limit s :
  (now e < limit)%Z → spent id limit s → mem_MarkRedeemed e id HandoffTTL s = (Ok false, sweepLocked e s).
Proof.
  intros Hnow Hs. apply (spent_sweep e) in Hs as (until & Hid & Hle); [|lia].
  unfold mem_MarkRedeemed. rewrite Hid. unfold Before. by rewrite bool_decide_true by lia.
Qed.

(** The pair that is stored under [id] at least until [limit]. *)
Definition parked (id : string) (resp : AuthResponse) (limit : time) (s : InMemoryHandoffStore) : Prop :=
  redeemed s !! id = None ∧ ∃ en, ho_entries s !! id = Some en ∧ he_resp en = resp ∧ (limit ≤ he_expiresAt en)%Z.

Lemma parked_sweep e id resp limit s :
  (now e ≤ limit)%Z → parked id resp limit s → parked id resp limit (sweepLocked e s).
Proof.
  intros Hnow (Hr & en & Hen & Hresp & Hle). split; cbn.
  - apply map_lookup_filter_None. by left.
  - exists en. split; [|done]. apply map_lookup_filter_Some. split; [done|]. cbn.
    unfold After. apply bool_decide_eq_false. lia.
Qed.

(** An operation that neither stores nor redeems under [id]. *)
Definition leaves (id : string) (op : store_op) : Prop :=
  match op with OpPut k _ | OpMark k => k ≠ id | OpLoad _ => True end.

Lemma parked_op e op id resp limit s :
  leaves id op → (now e ≤ limit)%Z → parked id resp limit s → parked id resp limit (run_op e op s).
Proof.
  intros Hop Hnow Hp. pose proof (parked_sweep e id resp limit s Hnow Hp) as (Hr & en & Hen & Hw).
  destruct op as [k resp'|k|k]; cbn [run_op leaves] in *.
  - unfold mem_Put. case_bool_decide; [by split; eauto|]. split; [done|]. exists en. cbn.
    by rewrite lookup_insert_ne.
  - unfold mem_MarkRedeemed. repeat case_match; (split; [|by exists en]); cbn; by rewrite ?lookup_insert_ne.
  - unfold mem_Load. by repeat case_match.
Qed.
Lemma parked_ops ops id resp limit t t' s :
  Forall (λ x, leaves id x.2) ops → forward t ops t' → (t' ≤ limit)%Z →
  parked id resp limit s → parked id resp limit (run_ops ops s).
Proof.
  revert t s. induction ops as [|[e op] ops IH]; intros t s; [done|].
  intros [Hop Hops]%Forall_cons [_ Hf] Hle Hp. pose proof (forward_le _ _ _ Hf).
  cbn. apply (IH _ _ Hops Hf Hle), parked_op; [done|lia|done].
Qed.

Section handoffs.
Context {J : JWTLib} {L : JWTLaws J}.
Implicit Types (jm : @JWTManager J).

(** What a successful mint did. *)
Lemma MintHandoff_inv e r jm audience resp code s s' :
  MintHandoff e r (Some jm) audience (Some resp) s = (Ok code, s') →
  audience ≠ "" ∧ CreateCompactShortLivedToken e jm (jti r 1) (handoff_subject (jti r 0) audience) HandoffTTL = Ok code ∧
  redeemed s' = redeemed (sweepLocked e s) ∧
  ho_entries s' = <[jti r 0 := {| he_resp := resp; he_expiresAt := (now e + HandoffTTL)%Z |}]>
                    (ho_entries (sweepLocked e s)).
Proof.
  unfold MintHandoff, mintHandoff. case_bool_decide as Ha; [done|]. case_bool_decide as Hb; [done|].
  cbv [mbind prog_bind handoff_wrapping hs_Put InMemoryHandoffStore_store mem_Put of_outcome].
  case_bool_decide; [done|]. destruct (CreateCompactShortLivedToken _ _ _ _ _) as [tok|err]; [|done].
  cbn. by intros [= <- <-].
Qed.

(** Redemption of a minted code, up to the store. *)
Lemma RedeemHandoff_minted e r jm audience code e' audience' s :
  jti_ok (jti r 0) → audience ≠ "" →
  CreateCompactShortLivedToken e jm (jti r 1) (handoff_subject (jti r 0) audience) HandoffTTL = Ok code →
  RedeemHandoff e' (Some jm) audience' code s =
  if bool_decide (now e' < NumericDate (now e + HandoffTTL))%Z then
    if bool_decide (audience' = audience) then
      match mem_MarkRedeemed e' (jti r 0) HandoffTTL s with
      | (Ok true, s') => mem_Load e' (jti r 0) s'
      | (Ok false, s') => (Err (HSentinel ErrHandoffReplayed), s')
      | (Err err, s') => (Err (HWrapf2 "redeem handoff" (HSentinel ErrHandoffInvalid) err), s')
      end
    else (Err (HSentinel ErrHandoffAudience), s)
  else (Err (HWrapf2 "redeem handoff" (HSentinel ErrHandoffInvalid) (HErrorf "token")), s).
Proof.
  intros Hid Hne Hcode. unfold RedeemHandoff. rewrite (compact_validates e e' _ _ _ _ _ Hcode).
  case_bool_decide; [|done]. rewrite parse_handoff_subject by done.
  destruct (decide (audience' = audience)) as [->|Hd].
  - rewrite (bool_decide_false (audience ≠ audience)), (bool_decide_false (audience = "")) by tauto.
    rewrite (bool_decide_true (audience = audience)) by done. cbn [orb].
    cbv [mbind prog_bind try MarkRedeemed hs_Load InMemoryHandoffStore_store throw].
    by destruct (mem_MarkRedeemed e' (jti r 0) HandoffTTL s) as [[[]|err] s'].
  - by rewrite (bool_decide_true (audience ≠ audience')), (bool_decide_false (audience' = audience)) by done.
Qed.

(** A minted code is redeemed at most once: after one redemption, whatever
    mints, redemptions and loads of other requests the store serves in between,
    every later attempt, for whatever audience, fails with an error that wraps
    [ErrHandoffInvalid]. *)
Theorem handoff_single_use jm e0 r0 audience resp code s0 s0' e1 audience1 resp1 s1 s1' ops e2 audience2 :
  jti_ok (jti r0 0) →
  MintHandoff e0 r0 (Some jm) audience (Some resp) s0 = (Ok code, s0') →
  (now e0 ≤ now e1)%Z →
  RedeemHandoff e1 (Some jm) audience1 code s1 = (Ok resp1, s1') →
  forward (now e1) ops (now e2) →
  ∃ err s2, RedeemHandoff e2 (Some jm) audience2 code (run_ops ops s1') = (Err err, s2) ∧
    herr_Is err ErrHandoffInvalid = true.
Proof.
  intros Hid Hmint Htime Hred Hf. apply MintHandoff_inv in Hmint as (Hne & Hcode & _ & _).
  rewrite (RedeemHandoff_minted e0 r0 jm audience code e1) in Hred by done.
  case_bool_decide as Hlive; [|done]. case_bool_decide as Haud; [|done].
  assert (spent (jti r0 0) (now e1 + HandoffTTL) s1') as Hs1.
  { unfold mem_MarkRedeemed in Hred. unfold Before in Hred.
    assert (∀ s s', mem_Load e1 (jti r0 0) s = (Ok resp1, s') → s' = s) as Hload.
    { intros s s'. unfold mem_Load. repeat case_match; naive_solver. }
    repeat case_match; simplify_eq; apply Hload in Hred as ->;
      exists (now e1 + HandoffTTL)%Z; (split; [apply lookup_insert_eq|lia]). }
  rewrite (RedeemHandoff_minted e0 r0 jm audience code e2) by done.
  case_bool_decide as Hlive2; [|by eexists _, _].
  case_bool_decide; [|by eexists _, _].
  pose proof (NumericDate_le (now e0 + HandoffTTL)).
  rewrite (spent_marked e2 _ (now e1 + HandoffTTL)); [by eexists _, _|lia|].
  apply (spent_ops _ _ _ (now e1) (now e2)); [done|lia|done].
Qed.

Lemma handoff_redeemed jm e0 r0 audience resp code s0 s0' ops e1 :
  jti_ok (jti r0 0) → redeemed s0 !! jti r0 0 = None →
  MintHandoff e0 r0 (Some jm) audience (Some resp) s0 = (Ok code, s0') →
  Forall (λ x, leaves (jti r0 0) x.2) ops → forward (now e0) ops (now e1) →
  (now e1 < NumericDate (now e0 + HandoffTTL))%Z →
  (RedeemHandoff e1 (Some jm) audience code (run_ops ops s0')).1 = Ok resp.
Proof.
  intros Hid Hfresh Hmint Hops Hf Hlive. apply MintHandoff_inv in Hmint as (Hne & Hcode & Hr & He).
  pose proof (NumericDate_le (now e0 + HandoffTTL)).
  rewrite (RedeemHandoff_minted e0 r0 jm audience code e1) by done.
  rewrite bool_decide_true, bool_decide_true by done.
  assert (parked (jti r0 0) resp (now e0 + HandoffTTL) s0') as Hp.
  { split; [rewrite Hr; apply map_lookup_filter_None; by left|]. rewrite He. eexists.
    split; [apply lookup_insert_eq|done]. }
  apply (parked_ops ops _ _ _ (now e0) (now e1)) in Hp; [|done|done|lia].
  apply (parked_sweep e1) in Hp; [|lia]. destruct Hp as (Hnone & en & Hen & Hresp & Hle).
  unfold mem_MarkRedeemed. rewrite Hnone. unfold mem_Load. cbn [ho_entries]. rewrite Hen.
  unfold After. rewrite bool_decide_false by lia. cbn. by rewrite Hresp.
Qed.

(** While a code lives and nobody redeemed it, the audience it was minted for
    gets exactly the token pair it stands for, whatever the store served in
    between; any other audience is refused and burns nothing. *)
Theorem handoff_roundtrip jm e0 r0 audience resp code s0 s0' ops e1 :
  jti_ok (jti r0 0) → redeemed s0 !! jti r0 0 = None →
  MintHandoff e0 r0 (Some jm) audience (Some resp) s0 = (Ok code, s0') →
  Forall (λ x, leaves (jti r0 0) x.2) ops → forward (now e0) ops (now e1) →
  (now e1 < NumericDate (now e0 + HandoffTTL))%Z →
  (RedeemHandoff e1 (Some jm) audience code (run_ops ops s0')).1 = Ok resp ∧
  ∀ other, other ≠ audience →
    RedeemHandoff e1 (Some jm) other code (run_ops ops s0') = (Err (HSentinel ErrHandoffAudience), run_ops ops s0').
Proof.
  intros Hid Hfresh Hmint Hops Hf Hlive. split; [by eapply handoff_redeemed|]. intros other Hd.
  apply MintHandoff_inv in Hmint as (Hne & Hcode & _ & _).
  rewrite (RedeemHandoff_minted e0 r0 jm audience code e1) by done.
  by rewrite bool_decide_true, bool_decide_false by done.
Qed.
End handoffs.

(** ** State tokens *)

Lemma SplitN_app c n p s :
  c ∉ String.list_ascii_of_string p → SplitN c (S (S n)) (p +:+ String c s) = p :: SplitN c (S n) s.
Proof.
  induction p as [|a p IH].
  - intros _. change ("" +:+ String c s) with (String c s). cbn. by rewrite bool_decide_true.
  - cbn [String.list_ascii_of_string]. rewrite not_elem_of_cons. intros [Hne Hp].
    change (String a p +:+ String c s) with (String a (p +:+ String c s)). specialize (IH Hp).
    cbn in IH |- *. by rewrite bool_decide_false, IH by congruence.
Qed.

Section state.
Context {U : UuidText} {J : JWTLib} {L : JWTLaws J}.
(** A printed identifier is hexadecimal digits and dashes. *)
Hypothesis uuid_String_no_bar : ∀ u, "|"%char ∉ String.list_ascii_of_string (uuid_String u).
Hypothesis uuid_Parse_tag : uuid_Parse handoffSubjectPrefix = None.
Implicit Types (s : SSOService).

Lemma state_fields_subject companyID provider redirectURI verifier :
  "|"%char ∉ String.list_ascii_of_string provider →
  state_fields (state_subject companyID provider redirectURI verifier) =
  match SplitN "|" 2 (redirectURI +:+ "|" +:+ verifier) with
  | r :: rest => Ok (companyID, provider, r, default "" (head rest))
  | [] => Err (Errorf "malformed state")
  end.
Proof.
  intros Hp. unfold state_fields, state_subject.
  change (uuid_String companyID +:+ "|" +:+ provider +:+ "|" +:+ redirectURI +:+ "|" +:+ verifier)
    with (uuid_String companyID +:+ String "|" (provider +:+ String "|" (redirectURI +:+ String "|" verifier))).
  rewrite !SplitN_app by done. destruct (SplitN "|" 2 _) as [|r rest] eqn:Hr; [|by rewrite uuid_Parse_String].
  exfalso. revert Hr. cbn. destruct (redirectURI +:+ String "|" verifier); [done|].
  by repeat case_match.
Qed.

(** The life of a state token. *)
Lemma parseStateJWT_created s e e' id companyID provider redirectURI verifier state :
  createStateJWT s e id companyID provider redirectURI verifier = Ok state →
  parseStateJWT s e' state =
  if bool_decide (now e' < NumericDate (now e + 10 * Minute))%Z
  then state_fields (state_subject companyID provider redirectURI verifier)
  else Err (Wrapf "invalid state" (Errorf "parse short-lived token")).
Proof.
  intros Hst. unfold parseStateJWT. rewrite (compact_validates e e' _ _ _ _ _ Hst).
  case_bool_decide; [done|]. unfold createStateJWT, CreateCompactShortLivedToken in Hst.
  destruct (stateHMACKey _); [|done]. injection Hst as <-.
  unfold ValidateShortLivedToken, ParseWithClaims. rewrite unsigned_HS256. unfold keyfunc.
  by rewrite bool_decide_true.
Qed.

(** A state token gives back the company, the provider, the redirect URI and
    the PKCE verifier it was made of for ten minutes and then nothing, when
    neither the provider nor the redirect URI has a bar; a bar in the redirect
    URI cuts the URI there and spoils the verifier. *)
Theorem state_roundtrip s e e' id companyID provider redirectURI verifier :
  has_key (sv_jwtManager s) → "|"%char ∉ String.list_ascii_of_string provider →
  "|"%char ∉ String.list_ascii_of_string redirectURI →
  (∃ state, createStateJWT s e id companyID provider redirectURI verifier = Ok state ∧
     ∀ x, parseStateJWT s e' state = Ok x ↔
       (now e' < NumericDate (now e + 10 * Minute))%Z ∧ x = (companyID, provider, redirectURI, verifier)) ∧
  ∀ rest, ∃ state, createStateJWT s e id companyID provider (redirectURI +:+ "|" +:+ rest) verifier = Ok state ∧
     ∀ x, parseStateJWT s e' state = Ok x → x = (companyID, provider, redirectURI, rest +:+ "|" +:+ verifier).
Proof.
  intros Hk Hp Hr. split.
  - destruct (compact_created e (sv_jwtManager s) id
      (state_subject companyID provider redirectURI verifier) (10 * Minute)%Z Hk) as [state Hst].
    exists state. split; [done|]. intros x. rewrite (parseStateJWT_created s e e' id _ _ _ _ _ Hst).
    rewrite state_fields_subject by done.
    change (redirectURI +:+ "|" +:+ verifier) with (redirectURI +:+ String "|" verifier).
    rewrite SplitN_app by done. cbn. case_bool_decide; naive_solver.
  - intros rest. destruct (compact_created e (sv_jwtManager s) id
      (state_subject companyID provider (redirectURI +:+ "|" +:+ rest) verifier) (10 * Minute)%Z Hk) as [state Hst].
    exists state. split; [done|]. intros x. rewrite (parseStateJWT_created s e e' id _ _ _ _ _ Hst).
    rewrite state_fields_subject by done.
    assert ((redirectURI +:+ "|" +:+ rest) +:+ "|" +:+ verifier =
      redirectURI +:+ String "|" (rest +:+ "|" +:+ verifier)) as -> by (by rewrite string_app_assoc).
    rewrite SplitN_app by done. cbn. case_bool_decide; naive_solver.
Qed.

(** A state token is never redeemed as a hand-off code, and a hand-off code
    never parses as a state; the attempt changes nothing. *)
Theorem tokens_not_confused s e e' r companyID provider redirectURI verifier state audience code
    (hs : InMemoryHandoffStore) :
  (createStateJWT s e (jti r 0) companyID provider redirectURI verifier = Ok state →
   ∃ err, RedeemHandoff e' (Some (sv_jwtManager s)) audience state hs = (Err err, hs) ∧
     herr_Is err ErrHandoffInvalid = true) ∧
  (∀ resp hs', MintHandoff e r (Some (sv_jwtManager s)) audience (Some resp) hs = (Ok code, hs') →
     ∃ err, parseStateJWT s e' code = Err err).
Proof.
  split.
  - intros Hst. unfold RedeemHandoff. rewrite (compact_validates e e' _ _ _ _ _ Hst).
    case_bool_decide; [|by eexists].
    assert (∃ err, parseHandoffSubject (state_subject companyID provider redirectURI verifier) = Err err ∧
      herr_Is err ErrHandoffInvalid = true) as (err & -> & Herr); [|by eexists].
    unfold parseHandoffSubject, state_subject.
    change (uuid_String companyID +:+ "|" +:+ provider +:+ "|" +:+ redirectURI +:+ "|" +:+ verifier)
      with (uuid_String companyID +:+ String "|" (provider +:+ "|" +:+ redirectURI +:+ "|" +:+ verifier)).
    rewrite split_on_app by done. rewrite (bool_decide_true (uuid_String companyID ≠ _)).
    2: { intros Heq. pose proof (uuid_Parse_String companyID). congruence. }
    repeat case_match; by eexists.
  - intros resp hs' (_ & Hcode & _)%MintHandoff_inv. unfold parseStateJWT.
    rewrite (compact_validates e e' _ _ _ _ _ Hcode).
    assert (∃ err, state_fields (handoff_subject (jti r 0) audience) = Err err) as [err Herr].
    { unfold state_fields, handoff_subject.
      change (strings_Join "|" [handoffSubjectPrefix; jti r 0; QueryEscape audience])
        with (handoffSubjectPrefix +:+ String "|" (jti r 0 +:+ String "|" (QueryEscape audience))).
      rewrite SplitN_app by (by apply (bool_decide_unpack _)). rewrite uuid_Parse_tag.
      repeat case_match; by eexists. }
    case_bool_decide; [by rewrite Herr; eexists|].
    unfold ValidateShortLivedToken, ParseWithClaims, CreateCompactShortLivedToken in *.
    destruct (stateHMACKey _); [|done]. injection Hcode as <-. rewrite unsigned_HS256. unfold keyfunc.
    rewrite bool_decide_true by done. by eexists.
Qed.
End state.

(** ** Sign-in *)

Section sign_in.
Context {U : UuidText} {C : UnicodeCase} {H : Sha256} {K : KeyDerivation} {J : JWTLib} {L : JWTLaws J}.
Context {O : SSOLib}.
#[local] Abbreviation state := (SSOState (St := memoryState) (HS := InMemoryHandoffStore)).
Implicit Types (s : SSOService) (st : state) (u : Upstream).

Lemma getOrCreate_cached s u cfg st cached :
  oidcProviders st !! provider_key cfg = Some cached → getOrCreateOIDCProvider s u cfg st = (Ok cached, st).
Proof. intros Hc. unfold getOrCreateOIDCProvider. by rewrite Hc. Qed.

(** [getOrCreateOIDCProvider] changes the cache only, and leaves its result there. *)
Lemma getOrCreate_inv s u cfg st cached st' :
  getOrCreateOIDCProvider s u cfg st = (Ok cached, st') →
  oidcProviders st' !! provider_key cfg = Some cached ∧ store st' = store st ∧ handoffStore st' = handoffStore st.
Proof.
  unfold getOrCreateOIDCProvider. destruct (oidcProviders st !! _) as [c|] eqn:Hc; [by intros [= <- <-]|].
  case_match; [|done]. intros [= <- <-]. cbn. by rewrite lookup_insert_eq.
Qed.

Lemma sso_config_dev companyID prov msg st cfg :
  ssoConfigs (store st) !! sso_key companyID prov = Some cfg →
  sso_config companyID prov msg st = (Ok cfg, st).
Proof.
  intros Hc. unfold sso_config, on_store, zoom, try. cbv [mbind prog_bind].
  unfold as_GetSSOConfig, dev_AuthStore, dev_GetSSOConfig. rewrite Hc. by destruct st.
Qed.

Lemma on_store_run {A} (m : prog memoryState aerr A) st :
  on_store m st = ((m (store st)).1,
    {| oidcProviders := oidcProviders st; handoffStore := handoffStore st; store := (m (store st)).2 |}).
Proof. unfold on_store, zoom. by destruct (m (store st)). Qed.

(** The callback up to the provisioning of the user. *)
Lemma callback_eq s e r u code prov companyID verifier st cfg cached st1 :
  ssoConfigs (store st) !! sso_key companyID prov = Some cfg →
  getOrCreateOIDCProvider s u cfg st = (Ok cached, st1) →
  HandleOIDCCallbackWithVerifier s e r u code prov companyID verifier st =
  match Exchange u (cp_config cached) code (if bool_decide (verifier = "") then None else Some verifier) with
  | None => (Err (Errorf "exchange authorization code"), st1)
  | Some tok =>
      match ot_IDToken tok with
      | None => (Err (Errorf "no id_token in token response"), st1)
      | Some raw =>
          match VerifyIDToken u (provider cached) (sso_ClientID cfg) raw with
          | None => (Err (Errorf "verify ID token"), st1)
          | Some (email, name) =>
              if bool_decide (email = "") then (Err (Errorf "email claim not found in ID token"), st1)
              else on_store (jitProvision s e r email name companyID) st1
          end
      end
  end.
Proof.
  intros Hc Hp. unfold HandleOIDCCallbackWithVerifier. cbv [mbind prog_bind wrapping].
  rewrite (sso_config_dev _ _ _ _ _ Hc), Hp.
  destruct (Exchange _ _ _ _) as [tok|]; [|done]. destruct (ot_IDToken tok) as [raw|]; [|done].
  destruct (VerifyIDToken _ _ _ _) as [[email name]|]; [|done]. case_bool_decide; [done|].
  destruct (on_store (jitProvision s e r email name companyID) st1) as [[resp|err] st2]; [|done].
  case_bool_decide; [done|]. cbv [ignore]. rewrite on_store_run. cbn. by destruct st2.
Qed.

(** The membership [jitProvision] sees to. *)
Lemma CreateCompanyMembership_keeps companyID uid roleID (t : memoryState) :
  ∃ o t', dev_CreateCompanyMembership companyID uid roleID t = (o, t') ∧
    usersByID t' = usersByID t ∧ ms_roles t' = ms_roles t ∧
    ∀ m, head (default [] (ms_memberships t !! uid)) = Some m →
      head (default [] (ms_memberships t' !! uid)) = Some m.
Proof.
  unfold dev_CreateCompanyMembership. destruct (ms_roles t !! roleID) as [role|].
  - destruct (any _ _); [by exists (Ok tt), t|]. eexists (Ok tt), _. split; [done|]. cbn.
    split_and!; [done..|]. intros m Hm. rewrite lookup_insert_eq. cbn.
    by destruct (default [] (ms_memberships t !! uid)).
  - by exists (Err (Errorf "role not found")), t.
Qed.

Lemma jitProvision_existing svc s e r email name companyID (t : memoryState) user m role :
  has_key (jwtManager svc) → sv_jwtManager s = jwtManager svc →
  account t (normalized (normalized email)) user m role →
  ∃ resp t', jitProvision s e r email name companyID t = (Ok resp, t') ∧ resp_User resp = user ∧
    RefreshToken resp = token_of (jwtManager svc) (refresh_claims svc e r (u_ID user)) ∧
    refreshTokens t' !! HashToken (RefreshToken resp) = Some (refresh_row svc e (u_ID user) (RefreshToken resp)) ∧
    usersByID t' !! u_ID user = Some user ∧
    head (default [] (ms_memberships t' !! u_ID user)) = Some m ∧ ms_roles t' !! mb_RoleID m = Some role.
Proof.
  intros Hk Hjm [He Hu Hm Hr]. unfold jitProvision. rewrite Hjm.
  change (ToLower (TrimSpace email)) with (normalized email).
  cbv [mbind prog_bind try ignore wrapping mret prog_ret of_outcome].
  unfold as_GetUserByEmail, dev_AuthStore, dev_GetUserByEmail. rewrite He, Hu. cbn [default from_option id].
  unfold as_CreateCompanyMembership, as_GetUserRole.
  destruct (CreateCompanyMembership_keeps companyID (u_ID user) MemberRoleID t) as (o & t1 & -> & Hid & Hro & Hms). cbn [fst snd].
  assert ((Devstore.dev_GetUserRole companyID (u_ID user) t1).2 = t1) as Hrole.
  { unfold Devstore.dev_GetUserRole. by repeat case_match. }
  destruct (Devstore.dev_GetUserRole companyID (u_ID user) t1) as [rl t2]. cbn in Hrole. subst t2.
  destruct rl as [rl|]; cbv beta iota; unfold CreateAccessToken, CreateAccessTokenWithScopes, CreateRefreshToken;
    rewrite !sign_claims_Ok by done; eexists _, _; (split; [reflexivity|]); cbn;
    rewrite Hid, Hro, lookup_insert_eq; eauto 10.
Qed.

(** An assertion of any company's identity provider with the e-mail of a user
    of the backend signs that user in, whether the user is active or not, whatever
    domains the configuration of that company allows and whether it is active or
    enabled for provisioning; and the refresh token of the answer buys the
    user's own tokens, with the role the user has in the home company. *)
Theorem sso_assertion_takes_over svc s e r u code prov companyID verifier st cfg cached st1 tok raw email name
    user m role e2 r2 :
  has_key (jwtManager svc) → sv_jwtManager s = jwtManager svc →
  ssoConfigs (store st) !! sso_key companyID prov = Some cfg →
  getOrCreateOIDCProvider s u cfg st = (Ok cached, st1) →
  Exchange u (cp_config cached) code (if bool_decide (verifier = "") then None else Some verifier) = Some tok →
  ot_IDToken tok = Some raw → VerifyIDToken u (provider cached) (sso_ClientID cfg) raw = Some (email, name) →
  email ≠ "" → account (store st) (normalized (normalized email)) user m role →
  (now e2 < NumericDate (now e + RefreshTokenExpiry_of svc))%Z →
  ∃ resp st', HandleOIDCCallbackWithVerifier s e r u code prov companyID verifier st = (Ok resp, st') ∧
    resp_User resp = user ∧
    ∃ t, Service_RefreshToken svc e2 r2 (RefreshToken resp) (store st') =
      (Ok (response svc e2 r2 user (mb_CompanyID m) (ro_Name role) (ro_RoleLevel role)), t).
Proof.
  intros Hk Hjm Hcfg Hp Hex Hid Hver Hne Hacc Hlive.
  rewrite (callback_eq s e r u code prov companyID verifier st cfg cached st1) by done.
  rewrite Hex, Hid, Hver, bool_decide_false by done. rewrite on_store_run.
  apply getOrCreate_inv in Hp as (_ & -> & _).
  destruct (jitProvision_existing svc s e r email name companyID (store st) user m role)
    as (resp & t' & -> & Huser & Hrt & Hrow & Hu & Hm & Hr); [done..|].
  eexists resp, _. split; [done|]. split; [done|]. cbn [store fst snd]. eexists.
  unfold Service_RefreshToken. cbv [mbind prog_bind]. rewrite Hrt in *.
  rewrite (refresh_lookup_stored svc e r (u_ID user) e2) by done. by apply refresh_rotate_Ok.
Qed.

(** The configuration a company's provider is cached with stays in use: once
    a callback has used it, a new configuration that the company stores (say with
    a new secret, or another issuer) is not used, so that callbacks fail while the
    old configuration does. *)
Theorem stored_config_not_used s e r u e' r' u' code code' prov companyID verifier verifier' st st1 resp cfg cfg' p :
  ssoConfigs (store st) !! sso_key companyID prov = Some cfg →
  sso_CompanyID cfg = companyID → sso_Provider cfg = prov →
  sso_CompanyID cfg' = companyID → sso_Provider cfg' = prov →
  oidcProviders st !! sso_key companyID prov = None → NewProvider u (sso_IssuerURL cfg) = Some p →
  sso_IssuerURL cfg ≠ "" →
  HandleOIDCCallbackWithVerifier s e r u code prov companyID verifier st = (Ok resp, st1) →
  let st2 := (on_store (as_UpsertSSOConfig cfg') st1).2 in
  Exchange u' (oauth_config s cfg p) code' (if bool_decide (verifier' = "") then None else Some verifier') = None →
  HandleOIDCCallbackWithVerifier s e' r' u' code' prov companyID verifier' st2 =
    (Err (Errorf "exchange authorization code"), st2).
Proof.
  intros Hcfg Hc Hpr Hc' Hpr' Hnone Hnew Hiss Hok st2 Hex.
  assert (∀ x, sso_CompanyID x = companyID → sso_Provider x = prov → provider_key x = sso_key companyID prov) as Hkey.
  { by intros x <- <-. }
  pose (cached := {| provider := p; cp_config := oauth_config s cfg p |}).
  pose (st0 := {| oidcProviders := <[sso_key companyID prov := cached]> (oidcProviders st);
                  handoffStore := handoffStore st; store := store st |}).
  assert (getOrCreateOIDCProvider s u cfg st = (Ok cached, st0)) as Hp.
  { unfold getOrCreateOIDCProvider. rewrite (Hkey cfg), Hnone by done.
    rewrite bool_decide_false by done. by rewrite Hnew. }
  rewrite (callback_eq s e r u code prov companyID verifier st cfg cached st0) in Hok by done.
  assert (oidcProviders st1 = oidcProviders st0) as Hst1.
  { repeat case_match; simplify_eq; rewrite on_store_run in Hok; by simplify_eq. }
  assert (oidcProviders st2 !! provider_key cfg' = Some cached) as Hcached.
  { subst st2. rewrite on_store_run. cbn. rewrite Hst1, (Hkey cfg') by done. apply lookup_insert_eq. }
  rewrite (callback_eq s e' r' u' code' prov companyID verifier' st2 cfg' cached st2); [cbn [cp_config cached]; by rewrite Hex| |].
  - subst st2. rewrite on_store_run. cbn. rewrite Hc', Hpr'. apply lookup_insert_eq.
  - by apply getOrCreate_cached.
Qed.

Lemma callback_handoffs s e r u code prov companyID verifier st :
  handoffStore (HandleOIDCCallbackWithVerifier s e r u code prov companyID verifier st).2 = handoffStore st.
Proof.
  destruct (ssoConfigs (store st) !! sso_key companyID prov) as [cfg|] eqn:Hcfg.
  - destruct (getOrCreateOIDCProvider s u cfg st) as [[cached|err] st1] eqn:Hp.
    + rewrite (callback_eq s e r u code prov companyID verifier st cfg cached st1) by done.
      apply getOrCreate_inv in Hp as (_ & _ & <-). by repeat case_match; rewrite ?on_store_run.
    + unfold HandleOIDCCallbackWithVerifier. cbv [mbind prog_bind wrapping].
      rewrite (sso_config_dev _ _ _ _ _ Hcfg), Hp. revert Hp. unfold getOrCreateOIDCProvider.
      repeat case_match; naive_solver.
  - unfold HandleOIDCCallbackWithVerifier, sso_config, try. cbv [mbind prog_bind]. rewrite on_store_run.
    unfold as_GetSSOConfig, dev_AuthStore, dev_GetSSOConfig. by rewrite Hcfg.
Qed.
Lemma callback_state_handoffs s e r u code state st :
  handoffStore (HandleOIDCCallbackWithState s e r u code state st).2 = handoffStore st.
Proof.
  unfold HandleOIDCCallbackWithState. cbv [mbind prog_bind wrapping of_outcome].
  destruct (parseStateJWT s e state) as [[[[companyID prov] redirectURI] verifier]|]; [|done].
  pose proof (callback_handoffs s e r u code prov companyID verifier st) as Hh.
  by destruct (HandleOIDCCallbackWithVerifier s e r u code prov companyID verifier st) as [[] st1].
Qed.

(** A callback that redirects puts no token in the URL, only a code; posting
    that code with the redirect URI to the exchange endpoint within its life, and
    whatever the hand-off store served in between, is answered with exactly the
    tokens the callback got. *)
Theorem callback_then_exchange s e r u code state st target st' :
  jti_ok (jti r 2) → redeemed (handoffStore st) !! jti r 2 = None →
  handleOIDCCallbackHTTP s e r u code state st = (HttpRedirect target, st') →
  ∃ resp redirectURI handoffCode,
    (HandleOIDCCallbackWithState s e r u code state st).1 = Ok (resp, redirectURI) ∧
    target = appendSSOQuery (appendSSOQuery redirectURI "code" handoffCode) "state" state ∧
    (∀ ops e1 (form : string → string) providers t,
     Forall (λ x, leaves (jti r 2) x.2) ops → forward (now e) ops (now e1) →
     (now e1 < NumericDate (now e + HandoffTTL))%Z →
     form "code" = handoffCode → form "redirect_uri" = redirectURI → handoffCode ≠ "" →
     (handleOIDCExchangeHTTP (St := memoryState) s e1 "POST" (Some form)
        {| oidcProviders := providers; handoffStore := run_ops ops (handoffStore st'); store := t |}).1 =
     TokenPair (AccessToken resp) (RefreshToken resp)).
Proof.
  intros Hid Hfresh. unfold handleOIDCCallbackHTTP, respond. case_match; [done|].
  pose proof (callback_state_handoffs s e r u code state st) as Hh.
  destruct (HandleOIDCCallbackWithState s e r u code state st) as [[[resp redirectURI]|err] st1]; [|done].
  cbn in Hh. destruct (bool_decide (redirectURI = "")) eqn:Hr; [done|]. cbn [negb andb].
  destruct (bool_decide (redirectURI = "json")); [done|]. cbn [negb].
  destruct (MintHandoff _ _ _ _ _ _) as [[handoffCode|err] hs] eqn:Hmint; [|done]. intros [= <- <-].
  exists resp, redirectURI, handoffCode. split_and!; [done..|].
  intros ops e1 form providers t Hops Hf Hlive Hcode Huri Hne.
  rewrite Hh in Hmint. unfold handleOIDCExchangeHTTP. rewrite bool_decide_false by tauto.
  rewrite Hcode, Huri, Hr, bool_decide_false by done. cbn [orb handoffStore].
  pose proof (handoff_redeemed (sv_jwtManager s) e {| salt := salt r; jti := λ n, jti r (2 + n) |} redirectURI resp
    handoffCode (handoffStore st) hs ops e1 Hid Hfresh Hmint Hops Hf Hlive) as Hred.
  by destruct (RedeemHandoff _ _ _ _ _) as [[] hs1]; cbn in Hred; simplify_eq.
Qed.
End sign_in.

(** ** Witnesses *)

Section examples.
#[local] Existing Instances toy_jwt binary_uuid_text ascii_case toy_kdf toy_jwt_laws toy_kdf_laws identity_sha256.

Lemma ex_jti_ok : jti_ok "h0".
Proof. split; [done|by apply (bool_decide_unpack _)]. Qed.

Definition ex_pair : AuthResponse :=
  {| AccessToken := "access"; RefreshToken := "refresh"; resp_User := resp_User signed_up.1 |}.
Definition ex_minted : string * InMemoryHandoffStore :=
  run "" (MintHandoff (ex_env 100 1) (ex_rand "h") (Some ex_manager) "https://app" (Some ex_pair)
    NewInMemoryHandoffStore).
Lemma ex_minted_Ok :
  is_Ok (MintHandoff (ex_env 100 1) (ex_rand "h") (Some ex_manager) "https://app" (Some ex_pair)
    NewInMemoryHandoffStore).1 = true.
Proof. by vm_compute. Qed.
(** Another hand-off is minted and redeemed in between. *)
Definition ex_ops : list (Env * store_op) :=
  [(ex_env 120 1, OpPut "k0" ex_pair); (ex_env 121 1, OpMark "k0"); (ex_env 121 1, OpLoad "k0")].
Definition ex_redeemed : AuthResponse * InMemoryHandoffStore :=
  run no_response (RedeemHandoff (ex_env 110 1) (Some ex_manager) "https://app" ex_minted.1 ex_minted.2).
Lemma ex_redeemed_Ok :
  is_Ok (RedeemHandoff (ex_env 110 1) (Some ex_manager) "https://app" ex_minted.1 ex_minted.2).1 = true.
Proof. by vm_compute. Qed.

Lemma handoff_single_use_witness :
  ∃ err s2, RedeemHandoff (ex_env 130 1) (Some ex_manager) "https://app" ex_minted.1
      (run_ops ex_ops ex_redeemed.2) = (Err err, s2) ∧ herr_Is err ErrHandoffInvalid = true.
Proof.
  apply (handoff_single_use ex_manager (ex_env 100 1) (ex_rand "h") "https://app" ex_pair ex_minted.1
    NewInMemoryHandoffStore ex_minted.2 (ex_env 110 1) "https://app" ex_redeemed.1 ex_minted.2 ex_redeemed.2 ex_ops);
    [exact ex_jti_ok|exact (run_Ok "" _ ex_minted_Ok)|by apply (bool_decide_unpack _)
    |exact (run_Ok no_response _ ex_redeemed_Ok)|by repeat split].
Defined.

Lemma handoff_roundtrip_witness :
  (RedeemHandoff (ex_env 130 1) (Some ex_manager) "https://app" ex_minted.1 (run_ops ex_ops ex_minted.2)).1 = Ok ex_pair ∧
  ∀ other, other ≠ "https://app" →
    RedeemHandoff (ex_env 130 1) (Some ex_manager) other ex_minted.1 (run_ops ex_ops ex_minted.2) =
    (Err (HSentinel ErrHandoffAudience), run_ops ex_ops ex_minted.2).
Proof.
  apply (handoff_roundtrip ex_manager (ex_env 100 1) (ex_rand "h") "https://app" ex_pair ex_minted.1
    NewInMemoryHandoffStore ex_minted.2 ex_ops (ex_env 130 1));
    [exact ex_jti_ok|done|exact (run_Ok "" _ ex_minted_Ok)|by repeat constructor|by repeat split|done].
Defined.

Lemma bits_of_no_bar p : "|"%char ∉ String.list_ascii_of_string (bits_of p).
Proof. induction p as [p IH|p IH|]; simpl; set_solver. Qed.
Lemma binary_no_bar u : "|"%char ∉ String.list_ascii_of_string (uuid_String u).
Proof. destruct u as [|p]; [by apply (bool_decide_unpack _)|apply bits_of_no_bar]. Qed.

Definition ex_sso : SSOService := NewSSOService ex_manager "https://platform/".

Lemma state_roundtrip_witness :
  (∃ state, createStateJWT ex_sso (ex_env 100 1) "h0" 9%N "oidc" "https://app" "v" = Ok state ∧
     ∀ x, parseStateJWT ex_sso (ex_env 130 1) state = Ok x ↔
       (130 * Second < NumericDate (100 * Second + 10 * Minute))%Z ∧ x = (9%N, "oidc", "https://app", "v")) ∧
  ∀ rest, ∃ state, createStateJWT ex_sso (ex_env 100 1) "h0" 9%N "oidc" ("https://app" +:+ "|" +:+ rest) "v" = Ok state ∧
     ∀ x, parseStateJWT ex_sso (ex_env 130 1) state = Ok x → x = (9%N, "oidc", "https://app", rest +:+ "|" +:+ "v").
Proof.
  apply (state_roundtrip binary_no_bar ex_sso (ex_env 100 1) (ex_env 130 1) "h0" 9%N "oidc" "https://app" "v");
    [apply ex_has_key|by apply (bool_decide_unpack _)..].
Defined.

Lemma tokens_not_confused_witness :
  (createStateJWT ex_sso (ex_env 100 1) "h0" 9%N "oidc" "https://app" "v" = Ok "state" →
   ∃ err, RedeemHandoff (ex_env 110 1) (Some ex_manager) "https://app" "state" NewInMemoryHandoffStore =
     (Err err, NewInMemoryHandoffStore) ∧ herr_Is err ErrHandoffInvalid = true) ∧
  (∀ resp hs', MintHandoff (ex_env 100 1) (ex_rand "h") (Some ex_manager) "https://app" (Some resp)
       NewInMemoryHandoffStore = (Ok ex_minted.1, hs') →
     ∃ err, parseStateJWT ex_sso (ex_env 110 1) ex_minted.1 = Err err).
Proof.
  apply (tokens_not_confused binary_no_bar eq_refl ex_sso (ex_env 100 1) (ex_env 110 1) (ex_rand "h") 9%N "oidc"
    "https://app" "v" "state" "https://app" ex_minted.1 NewInMemoryHandoffStore).
Defined.

(** Company 9 has an identity provider of its own; ada owns company 2. *)
#[local] Instance ex_lib : SSOLib := {| Provider := string; SP := string |}.
Definition ex_upstream (email : string) : Upstream := {|
  NewProvider := λ url, Some url; GenerateVerifier := "v"; AuthCodeURL := λ _ state _, state;
  Exchange := λ cfg _ _, if bool_decide (oc_ClientSecret cfg = "s1") then
    Some {| ot_AccessToken := "at"; ot_RefreshToken := "rt"; ot_Expiry := 0%Z; ot_IDToken := Some "id" |} else None;
  VerifyIDToken := λ _ _ _, Some (email, "Ada"); FetchSP := λ _ _, None; AuthnRedirect := λ _ _, None;
  ParseResponse := λ _, None |}.
Definition ex_config (secret : string) : SSOConfig :=
  {| sso_CompanyID := 9%N; sso_Provider := "oidc"; sso_IssuerURL := "https://idp"; sso_ClientID := "id";
     sso_ClientSecret := secret; sso_MetadataURL := ""; sso_DisplayName := ""; sso_ExtraScopes := [];
     sso_EnforceSSO := false; sso_IsActive := false; sso_EmailDomainAllowlist := []; sso_JITDefaultRole := "";
     sso_JITEnabled := false |}.
Definition ex_sso_state : SSOState (St := memoryState) (HS := InMemoryHandoffStore) :=
  {| oidcProviders := ∅; handoffStore := NewInMemoryHandoffStore;
     store := SetSSOConfig 9 "oidc" (ex_config "s1") signed_up.2 |}.
Definition ex_cached : oidcCachedProvider :=
  {| provider := "https://idp"; cp_config := oauth_config ex_sso (ex_config "s1") "https://idp" |}.

Lemma sso_assertion_takes_over_witness :
  ∃ resp st', HandleOIDCCallbackWithVerifier ex_sso (ex_env 20 5) (ex_rand "b") (ex_upstream "Ada@example.org")
      "code" "oidc" 9 "v" ex_sso_state = (Ok resp, st') ∧
    resp_User resp = resp_User signed_up.1 ∧
    ∃ t, Service_RefreshToken ex_service (ex_env 30 7) (ex_rand "c") (RefreshToken resp) (store st') =
      (Ok (response ex_service (ex_env 30 7) (ex_rand "c") (resp_User signed_up.1) 2 "owner" 90), t).
Proof.
  apply (sso_assertion_takes_over ex_service ex_sso (ex_env 20 5) (ex_rand "b") (ex_upstream "Ada@example.org") "code" "oidc"
    9%N "v" ex_sso_state (ex_config "s1") ex_cached
    {| oidcProviders := {[provider_key (ex_config "s1") := ex_cached]}; handoffStore := NewInMemoryHandoffStore;
       store := SetSSOConfig 9 "oidc" (ex_config "s1") signed_up.2 |}
    {| ot_AccessToken := "at"; ot_RefreshToken := "rt"; ot_Expiry := 0%Z; ot_IDToken := Some "id" |} "id"
    "Ada@example.org" "Ada" (resp_User signed_up.1) ex_owner ex_role);
    [apply ex_has_key|done|by vm_compute|reflexivity|done..|split; by vm_compute|done].
Defined.

Definition ex_called_back : AuthResponse * SSOState (St := memoryState) (HS := InMemoryHandoffStore) :=
  run no_response (HandleOIDCCallbackWithVerifier ex_sso (ex_env 20 5) (ex_rand "b") (ex_upstream "Ada@example.org")
    "code" "oidc" 9 "v" ex_sso_state).
Lemma ex_called_back_Ok :
  is_Ok (HandleOIDCCallbackWithVerifier ex_sso (ex_env 20 5) (ex_rand "b") (ex_upstream "Ada@example.org")
    "code" "oidc" 9 "v" ex_sso_state).1 = true.
Proof. by vm_compute. Qed.
(** The company has replaced the secret "s1" by "s2", and the provider takes the new one only. *)
Definition ex_rotated : Upstream :=
  let u := ex_upstream "Ada@example.org" in {|
  NewProvider := NewProvider u; GenerateVerifier := "v"; AuthCodeURL := AuthCodeURL u;
  Exchange := λ cfg code v, if bool_decide (oc_ClientSecret cfg = "s2") then
    Some {| ot_AccessToken := "at"; ot_RefreshToken := "rt"; ot_Expiry := 0%Z; ot_IDToken := Some "id" |} else None;
  VerifyIDToken := VerifyIDToken u; FetchSP := λ _ _, None; AuthnRedirect := λ _ _, None;
  ParseResponse := λ _, None |}.

Lemma stored_config_not_used_witness :
  HandleOIDCCallbackWithVerifier ex_sso (ex_env 50 5) (ex_rand "d") ex_rotated "code2" "oidc" 9 "v"
    (on_store (as_UpsertSSOConfig (ex_config "s2")) ex_called_back.2).2 =
  (Err (Errorf "exchange authorization code"),
   (on_store (as_UpsertSSOConfig (ex_config "s2")) ex_called_back.2).2).
Proof.
  apply (stored_config_not_used ex_sso (ex_env 20 5) (ex_rand "b") (ex_upstream "Ada@example.org") (ex_env 50 5)
    (ex_rand "d") ex_rotated "code" "code2" "oidc" 9%N "v" "v" ex_sso_state ex_called_back.2 ex_called_back.1
    (ex_config "s1") (ex_config "s2") "https://idp");
    [by vm_compute|done..|exact (run_Ok no_response _ ex_called_back_Ok)|by vm_compute].
Defined.

Definition ex_state_token : string :=
  match createStateJWT ex_sso (ex_env 10 1) "s" 9%N "oidc" "https://app" "v" with Ok t => t | Err _ => "" end.
Definition ex_callback : sso_response * SSOState (St := memoryState) (HS := InMemoryHandoffStore) :=
  handleOIDCCallbackHTTP ex_sso (ex_env 20 5) (ex_rand "h") (ex_upstream "Ada@example.org") "code" ex_state_token
    ex_sso_state.
Definition ex_target : string := match ex_callback.1 with HttpRedirect t => t | _ => "" end.
Lemma ex_callback_redirects : match ex_callback.1 with HttpRedirect _ => true | _ => false end = true.
Proof. by vm_compute. Qed.
Lemma ex_callback_eq : ex_callback = (HttpRedirect ex_target, ex_callback.2).
Proof.
  unfold ex_target. pose proof ex_callback_redirects as Hr. by destruct ex_callback as [[| |] st].
Qed.
Lemma ex_jti2_ok : jti_ok "h2".
Proof. split; [done|by apply (bool_decide_unpack _)]. Qed.

Lemma callback_then_exchange_witness :
  ∃ resp redirectURI handoffCode,
    (HandleOIDCCallbackWithState ex_sso (ex_env 20 5) (ex_rand "h") (ex_upstream "Ada@example.org") "code"
       ex_state_token ex_sso_state).1 = Ok (resp, redirectURI) ∧
    ex_target = appendSSOQuery (appendSSOQuery redirectURI "code" handoffCode) "state" ex_state_token ∧
    (∀ ops e1 (form : string → string) providers t,
     Forall (λ x, leaves "h2" x.2) ops → forward (20 * Second)%Z ops (now e1) →
     (now e1 < NumericDate (20 * Second + HandoffTTL))%Z →
     form "code" = handoffCode → form "redirect_uri" = redirectURI → handoffCode ≠ "" →
     (handleOIDCExchangeHTTP (St := memoryState) ex_sso e1 "POST" (Some form)
        {| oidcProviders := providers; handoffStore := run_ops ops (handoffStore ex_callback.2); store := t |}).1 =
     TokenPair (AccessToken resp) (RefreshToken resp)).
Proof.
  apply (callback_then_exchange ex_sso (ex_env 20 5) (ex_rand "h") (ex_upstream "Ada@example.org") "code"
    ex_state_token ex_sso_state ex_target ex_callback.2); [exact ex_jti2_ok|done|exact ex_callback_eq].
Defined.
End examples.
