(* ===== verification/Social.v ===== *)
(** * Social login (platform/auth/social, platform/auth/oidc)

    oidc.go of platform/auth/oidc: the calls of a relying party; service.go: which
    account a provider's identity enters, the state token, the redirect allowlist;
    oidc.go, custom.go, apple.go, facebook.go, x.go: from an authorization code to
    an identity; http.go: the callback, the exchange of the code, Facebook's
    deletion request.  go-oidc, oauth2, x509 and the signing of Apple's client
    secret are the class [IdPLib]; what one request gets from outside (network,
    environment, random bytes) is the record [Outside].  The identity store is SQL
    and stays the class [SocialStore].  The theorems are in [SocialProofs]. *)

From S2P Require Import Prelude Encoding Password Rbac Company Auth Sso.

(** ** auth/store.go, social/store.go *)

Record UserIdentity : Type := {
  ui_ID : uuid;
  ui_UserID : uuid;
  ui_Provider : string;
  ui_ProviderSub : string;
  ui_Email : option string;
  ui_IsVerified : bool;
  ui_DisplayName : string;
  ui_AvatarURL : string;
  ui_RawClaims : string;
  ui_CreatedAt : time;
  ui_UpdatedAt : time;
}.

Class SocialStore (SSt : Type) : Type := {
  ss_UpsertUserIdentity : Env → nat → UserIdentity → prog SSt aerr UserIdentity;
  ss_GetUserIdentityByProviderSub : string → string → prog SSt aerr UserIdentity;
  ss_GetUserIdentityByEmail : string → prog SSt aerr UserIdentity;
  ss_ListUserIdentitiesByUser : uuid → prog SSt aerr (list UserIdentity);
  ss_DeleteUserIdentity : uuid → prog SSt aerr unit;
}.

Record Identity : Type := {
  id_Provider : string;
  id_ProviderSub : string;
  id_Email : string;
  id_EmailVerified : bool;
  id_DisplayName : string;
  id_AvatarURL : string;
  id_RawClaims : string;
}.

(** ** The libraries *)

Inductive AuthStyle : Type := AuthStyleAutoDetect | AuthStyleInParams | AuthStyleInHeader.
Record Endpoint : Type := { AuthURL : string; TokenURL : string; Style : AuthStyle }.
(** [oauth2.Config] and the options of [AuthCodeURL] and [Exchange]. *)
Record oauth2_Config : Type := {
  o2_ClientID : string;
  o2_ClientSecret : string;
  o2_Endpoint : Endpoint;
  o2_RedirectURL : string;
  o2_Scopes : list string;
}.
Inductive AuthCodeOption : Type :=
  | Nonce (nonce : string)
  | S256ChallengeOption (verifier : string)
  | VerifierOption (verifier : string).
(** [oauth2.Token] with its extra [id_token] when that is a string. *)
Record oauth2_Token : Type := { tk_AccessToken : string; tk_IDToken : option string }.

(** Claims as [json.Unmarshal] makes them. *)
Abbreviation claim_map := (gmap string json) (only parsing).

Class IdPLib : Type := {
  OIDCProvider : Type;
  provider_Endpoint : OIDCProvider → Endpoint;
  AuthCodeURL : oauth2_Config → string → list AuthCodeOption → string;
  ECKey : Type;
  pem_Decode : string → option string;
  (* [Some None]: a PKCS #8 key of another kind *)
  ParsePKCS8PrivateKey : string → option (option ECKey);
  ParseECPrivateKey : string → option ECKey;
  SignedStringES256 : string → ECKey → RegisteredClaims → option string;
  (* [strings.EqualFold], and the decoders of the JSON the providers answer *)
  EqualFold : string → string → bool;
  decode_apple_user : string → option (string * string);
  decode_x_user : string → option (string * string);
  decode_facebook_user : string → option (string * string * string);
}.

Record http_Request : Type := { hr_URL : string; hr_Authorization : option string }.

Section social.
Context {U : UuidText} {C : UnicodeCase} {H : Sha256} {J : JWTLib} {L : IdPLib}.

(** What one request gets from outside; [None] is an error.  A token that is
    verified but whose claims cannot be read is [Some None]. *)
Record Outside : Type := {
  NewProvider : string → option OIDCProvider;
  Exchange : oauth2_Config → string → list AuthCodeOption → option oauth2_Token;
  Verify : OIDCProvider → string → string → option (option claim_map);
  Do : http_Request → option (Z * string);
  Getenv : string → string;
  ReadFile : string → option string;
  rand_Read : option string;
  GenerateVerifier : string;
}.

(** ** platform/auth/oidc *)

Record Config : Type := {
  cf_Issuer : string;
  cf_ClientID : string;
  cf_ClientSecret : string;
  cf_RedirectURI : string;
  cf_Scopes : list string;
}.
Record Tokens : Type := { IDToken : string; to_AccessToken : string }.
Definition DefaultScopes : list string := ["openid"; "email"; "profile"].

Definition discovered (o : Outside) (cfg : Config) : outcome aerr OIDCProvider :=
  match NewProvider o (cf_Issuer cfg) with
  | None => Err (Errorf "discovering OIDC provider")
  | Some p => Ok p
  end.
Definition scopes_of (cfg : Config) : list string :=
  if bool_decide (length (cf_Scopes cfg) = 0%nat) then DefaultScopes else cf_Scopes cfg.
Definition config_at (cfg : Config) (endpoint : Endpoint) (scopes : list string) : oauth2_Config :=
  {| o2_ClientID := cf_ClientID cfg; o2_ClientSecret := cf_ClientSecret cfg; o2_Endpoint := endpoint;
     o2_RedirectURL := cf_RedirectURI cfg; o2_Scopes := scopes |}.

Definition BuildAuthURL (o : Outside) (cfg : Config) (state nonce : string) : outcome aerr string :=
  match discovered o cfg with
  | Err err => Err err
  | Ok p => Ok (AuthCodeURL (config_at cfg (provider_Endpoint p) (scopes_of cfg)) state [Nonce nonce])
  end.

Definition ExchangeCode (o : Outside) (cfg : Config) (code : string) : outcome aerr Tokens :=
  match discovered o cfg with
  | Err err => Err err
  | Ok p =>
      match Exchange o (config_at cfg (provider_Endpoint p) []) code [] with
      | None => Err (Errorf "exchanging code for tokens")
      | Some token =>
          match tk_IDToken token with
          | None => Err (Errorf "no id_token in token response")
          | Some raw => Ok {| IDToken := raw; to_AccessToken := tk_AccessToken token |}
          end
      end
  end.

Definition VerifyIDToken (o : Outside) (cfg : Config) (rawIDToken : string) : outcome aerr claim_map :=
  match discovered o cfg with
  | Err err => Err err
  | Ok p =>
      match Verify o p (cf_ClientID cfg) rawIDToken with
      | None => Err (Errorf "verifying ID token")
      | Some None => Err (Errorf "extracting claims")
      | Some (Some claims) => Ok claims
      end
  end.

Definition BuildAuthURLStatic (authEndpoint : string) (cfg : Config) (state nonce : string) : string :=
  AuthCodeURL (config_at cfg {| AuthURL := authEndpoint; TokenURL := ""; Style := AuthStyleAutoDetect |}
                 (scopes_of cfg)) state [Nonce nonce].

(** ** service.go: the service *)

Definition stateTTL : duration := (10 * Minute)%Z.
Definition placeholderDomain : string := "social.placeholder".

Record ProviderConfig : Type := {
  pc_Provider : string;
  pc_IssuerURL : string;
  pc_ClientID : string;
  pc_ClientSecret : string;
  pc_Scopes : list string;
  pc_UsesPKCE : bool;
}.
(** The zero value a lookup of a missing provider gives. *)
Definition no_provider : ProviderConfig :=
  {| pc_Provider := ""; pc_IssuerURL := ""; pc_ClientID := ""; pc_ClientSecret := ""; pc_Scopes := [];
     pc_UsesPKCE := false |}.

Record SocialAuthService : Type := {
  jwt : JWTManager;
  so_baseURL : string;
  redirectAllowlist : list string;
  providers : gmap string ProviderConfig;
}.
Definition NewSocialAuthService (jm : JWTManager) (url : string) (allowlist : list string) :
    SocialAuthService :=
  {| jwt := jm; so_baseURL := TrimRight url "/"; redirectAllowlist := allowlist; providers := ∅ |}.
Definition with_provider (s : SocialAuthService) (provider : string) (pc : ProviderConfig) :
    SocialAuthService :=
  {| jwt := jwt s; so_baseURL := so_baseURL s; redirectAllowlist := redirectAllowlist s;
     providers := <[provider := pc]> (providers s) |}.
Definition provider_of (s : SocialAuthService) (provider : string) : ProviderConfig :=
  default no_provider (providers s !! provider).

Definition placeholderEmail (provider sub : string) : string :=
  let short := String.substring 0 12 (hex_EncodeToString (sha256 (provider +:+ "|" +:+ sub))) in
  "noemail+" +:+ provider +:+ "-" +:+ short +:+ "@" +:+ placeholderDomain.
Definition displayName (i : Identity) (email : string) : string :=
  let dn := TrimSpace (id_DisplayName i) in
  if negb (bool_decide (dn = "")) then dn else default "" (head (SplitN "@" 2 email)).
Definition refreshTokenExpiry : duration := (7 * 24 * Hour)%Z.
Definition unusablePasswordHash : string := "social:no-password".

(** [id] is what [generateJTI] drew. *)
Definition createStateJWT (s : SocialAuthService) (e : Env) (id provider redirectURI pkceVerifier nonce : string) :
    outcome aerr string :=
  CreateShortLivedToken e (jwt s) id (strings_Join "|" [provider; redirectURI; pkceVerifier; nonce]) stateTTL.
Definition parseStateJWT (s : SocialAuthService) (e : Env) (stateJWT : string) :
    outcome aerr (string * string * string * string) :=
  match ValidateShortLivedToken e (jwt s) stateJWT with
  | Err err => Err (Wrapf "invalid state" err)
  | Ok subject =>
      match SplitN "|" 4 subject with
      | [provider; redirectURI; pkceVerifier; nonce] => Ok (provider, redirectURI, pkceVerifier, nonce)
      | _ => Err (Errorf "malformed state")
      end
  end.

Definition isAllowedRedirectURI (s : SocialAuthService) (uri : string) : bool :=
  if bool_decide (uri = "") then false
  else any (λ allowed, negb (bool_decide (allowed = "")) && String.prefix allowed uri) (redirectAllowlist s).

(** ** service.go: which account an identity enters *)

Section provision.
Context {St SSt HS : Type} {A : AuthStore St} {SS : SocialStore SSt} {HO : HandoffStore HS}.

Record SocialState : Type := { social : SSt; users : St; so_handoffStore : HS }.
Definition on_social {X} (m : prog SSt aerr X) : prog SocialState aerr X :=
  zoom social (λ t s, {| social := t; users := users s; so_handoffStore := so_handoffStore s |}) m.
Definition on_users {X} (m : prog St aerr X) : prog SocialState aerr X :=
  zoom users (λ t s, {| social := social s; users := t; so_handoffStore := so_handoffStore s |}) m.

Definition issueTokens (s : SocialAuthService) (e : Env) (r : Rand) (user : User) : prog St aerr AuthResponse :=
  accessToken ← wrapping "create access token"
    (of_outcome (CreateAccessToken e (jwt s) (jti r 0) (uuid_String (u_ID user)) "" "" 0 []));
  refreshToken ← wrapping "create refresh token"
    (of_outcome (CreateRefreshToken e (jwt s) (jti r 1) (uuid_String (u_ID user))));
  _ ← wrapping "store refresh token"
    (as_CreateRefreshToken (u_ID user) (HashToken refreshToken) (now e + refreshTokenExpiry)%Z);
  mret {| AccessToken := accessToken; RefreshToken := refreshToken; resp_User := user |}.

(** The user of an identity that is not known, and the e-mail of its row. *)
Definition resolve_user (e : Env) (i : Identity) : prog St aerr (User * option string) :=
  let email := ToLower (TrimSpace (id_Email i)) in
  let canLink := negb (bool_decide (email = "")) && id_EmailVerified i in
  if canLink then
    found ← try (as_GetUserByEmail email);
    user ← (match found with
            | Ok existingUser => mret existingUser
            | Err _ => wrapping "create user" (as_CreateUser e 0 email unusablePasswordHash (displayName i email))
            end);
    mret (user, Some email)
  else
    let placeholder := placeholderEmail (id_Provider i) (id_ProviderSub i) in
    user ← wrapping "create placeholder user"
      (as_CreateUser e 0 placeholder unusablePasswordHash (displayName i placeholder));
    mret (user, if bool_decide (email = "") then None else Some email).

Definition identity_row (i : Identity) (user : User) (identityEmail : option string) : UserIdentity :=
  {| ui_ID := uuid_Nil; ui_UserID := u_ID user; ui_Provider := id_Provider i;
     ui_ProviderSub := id_ProviderSub i; ui_Email := identityEmail; ui_IsVerified := id_EmailVerified i;
     ui_DisplayName := id_DisplayName i; ui_AvatarURL := id_AvatarURL i; ui_RawClaims := id_RawClaims i;
     ui_CreatedAt := 0; ui_UpdatedAt := 0 |}.

Definition Provision (s : SocialAuthService) (e : Env) (r : Rand) (i : Identity) :
    prog SocialState aerr AuthResponse :=
  if bool_decide (id_Provider i = "") || bool_decide (id_ProviderSub i = "")
  then throw (Errorf "provider and provider_sub are required")
  else
    known ← try (on_social (ss_GetUserIdentityByProviderSub (id_Provider i) (id_ProviderSub i)));
    match known with
    | Ok existing =>
        user ← wrapping "load user for known identity" (on_users (as_GetUserByID (ui_UserID existing)));
        on_users (issueTokens s e r user)
    | Err _ =>
        '(user, identityEmail) ← on_users (resolve_user e i);
        _ ← wrapping "upsert user identity"
          (on_social (ss_UpsertUserIdentity e 1 (identity_row i user identityEmail)));
        on_users (issueTokens s e r user)
    end.

(** ** oidc.go *)

Definition oidcPresets : gmap string string :=
  {["google" := "https://accounts.google.com";
    "microsoft" := "https://login.microsoftonline.com/common/v2.0"]}.
Definition oidcScopes : list string := ["openid"; "email"; "profile"].
(** The callback of the server, given to every provider. *)
Definition callback_url (s : SocialAuthService) : string := so_baseURL s +:+ "/auth/social/callback".

Definition RegisterOIDCProvider (s : SocialAuthService) (provider clientID clientSecret : string) :
    SocialAuthService :=
  with_provider s provider
    {| pc_Provider := provider; pc_IssuerURL := default "" (oidcPresets !! provider);
       pc_ClientID := clientID; pc_ClientSecret := clientSecret; pc_Scopes := oidcScopes;
       pc_UsesPKCE := false |}.

Definition oidcConfig (s : SocialAuthService) (provider : string) : outcome aerr Config :=
  match providers s !! provider with
  | None => Err (Errorf "provider not registered")
  | Some pc =>
      let issuer := default "" (oidcPresets !! provider) in
      if bool_decide (issuer = "") then Err (Errorf "provider is not an OIDC provider")
      else Ok {| cf_Issuer := issuer; cf_ClientID := pc_ClientID pc; cf_ClientSecret := pc_ClientSecret pc;
                 cf_RedirectURI := callback_url s; cf_Scopes := oidcScopes |}
  end.

Definition randomNonce (o : Outside) : outcome aerr string :=
  match rand_Read o with
  | None => Err (Errorf "rand")
  | Some b => Ok (hex_EncodeToString b)
  end.

(** [r] names the state token with [jti r 0]. *)
Definition InitiateOIDC (s : SocialAuthService) (e : Env) (r : Rand) (o : Outside)
    (provider redirectURI : string) : outcome aerr (string * string) :=
  match oidcPresets !! provider with
  | None => Err (Errorf "unknown OIDC provider")
  | Some _ =>
      if negb (isAllowedRedirectURI s redirectURI) then Err (Errorf "redirect_uri not allowed")
      else match oidcConfig s provider with
           | Err err => Err err
           | Ok cfg =>
               match randomNonce o with
               | Err err => Err (Wrapf "generate nonce" err)
               | Ok nonce =>
                   match createStateJWT s e (jti r 0) provider redirectURI "" nonce with
                   | Err err => Err (Wrapf "create state" err)
                   | Ok state =>
                       match BuildAuthURL o cfg state nonce with
                       | Err err => Err (Wrapf "build auth URL" err)
                       | Ok authURL => Ok (authURL, state)
                       end
                   end
               end
           end
  end.

Definition claimString (claims : claim_map) (key : string) : string :=
  match claims !! key with Some (JString v) => v | _ => "" end.
Definition claimBool (claims : claim_map) (key : string) : bool :=
  match claims !! key with
  | Some (JBool v) => v
  | Some (JString v) => EqualFold v "true"
  | _ => false
  end.

Definition claimsToIdentity (provider : string) (claims : claim_map) : Identity :=
  {| id_Provider := provider; id_ProviderSub := claimString claims "sub";
     id_Email := ToLower (TrimSpace (claimString claims "email"));
     id_EmailVerified := if bool_decide (provider = "google") then claimBool claims "email_verified" else false;
     id_DisplayName := claimString claims "name"; id_AvatarURL := claimString claims "picture";
     id_RawClaims := "" |}.

(** ** x.go *)

Definition xAuthURL : string := "https://twitter.com/i/oauth2/authorize".
Definition xTokenURL : string := "https://api.twitter.com/2/oauth2/token".
Definition xUsersMeURL : string := "https://api.twitter.com/2/users/me".
Definition xScopes : list string := ["tweet.read"; "users.read"; "offline.access"].

Definition xOAuthConfig (s : SocialAuthService) : oauth2_Config :=
  {| o2_ClientID := pc_ClientID (provider_of s "x"); o2_ClientSecret := "";
     o2_Endpoint := {| AuthURL := xAuthURL; TokenURL := xTokenURL; Style := AuthStyleInHeader |};
     o2_RedirectURL := callback_url s; o2_Scopes := xScopes |}.

Definition initiateX (s : SocialAuthService) (e : Env) (r : Rand) (o : Outside) (redirectURI : string) :
    outcome aerr (string * string) :=
  if negb (isAllowedRedirectURI s redirectURI) then Err (Errorf "redirect_uri not allowed")
  else
    let verifier := GenerateVerifier o in
    match randomNonce o with
    | Err err => Err (Wrapf "generate nonce" err)
    | Ok nonce =>
        match createStateJWT s e (jti r 0) "x" redirectURI verifier nonce with
        | Err err => Err (Wrapf "create state" err)
        | Ok state => Ok (AuthCodeURL (xOAuthConfig s) state [S256ChallengeOption verifier], state)
        end
    end.

Definition exchangeX (o : Outside) (cfg : oauth2_Config) (code verifier : string) : outcome aerr string :=
  match Exchange o cfg code [VerifierOption verifier] with
  | None => Err (Errorf "exchange x code")
  | Some token => if bool_decide (tk_AccessToken token = "")
                  then Err (Errorf "x token response missing access_token")
                  else Ok (tk_AccessToken token)
  end.

Definition fetchXUser (o : Outside) (accessToken : string) : outcome aerr (string * string) :=
  match Do o {| hr_URL := xUsersMeURL +:+ "?user.fields=id,name,username";
                hr_Authorization := Some ("Bearer " +:+ accessToken) |} with
  | None => Err (Errorf "call x users/me")
  | Some (status, body) =>
      if bool_decide (status ≠ 200%Z) then Err (Errorf "x users/me returned")
      else match decode_x_user body with
           | None => Err (Errorf "decode x response")
           | Some user => Ok user
           end
  end.

Definition xToIdentity (id name : string) : Identity :=
  {| id_Provider := "x"; id_ProviderSub := id; id_Email := ""; id_EmailVerified := false;
     id_DisplayName := name; id_AvatarURL := ""; id_RawClaims := "" |}.

(** ** facebook.go *)

Definition facebookAuthURL : string := "https://www.facebook.com/v20.0/dialog/oauth".
Definition facebookTokenURL : string := "https://graph.facebook.com/v20.0/oauth/access_token".
Definition facebookGraphMeURL : string := "https://graph.facebook.com/v20.0/me".
Definition facebookScopes : list string := ["public_profile"; "email"].

Definition facebookOAuthConfig (s : SocialAuthService) : oauth2_Config :=
  {| o2_ClientID := pc_ClientID (provider_of s "facebook");
     o2_ClientSecret := pc_ClientSecret (provider_of s "facebook");
     o2_Endpoint := {| AuthURL := facebookAuthURL; TokenURL := facebookTokenURL; Style := AuthStyleInParams |};
     o2_RedirectURL := callback_url s; o2_Scopes := facebookScopes |}.

Definition exchangeFacebook (o : Outside) (cfg : oauth2_Config) (code : string) : outcome aerr string :=
  match Exchange o cfg code [] with
  | None => Err (Errorf "exchange facebook code")
  | Some token => if bool_decide (tk_AccessToken token = "")
                  then Err (Errorf "facebook token response missing access_token")
                  else Ok (tk_AccessToken token)
  end.

(** [url.Values.Encode] writes the parameters in the order of their names. *)
Definition fetchFacebookUser (o : Outside) (accessToken : string) : outcome aerr (string * string * string) :=
  let query := "access_token=" +:+ QueryEscape accessToken +:+ "&fields=" +:+ QueryEscape "id,name,email" in
  match Do o {| hr_URL := facebookGraphMeURL +:+ "?" +:+ query; hr_Authorization := None |} with
  | None => Err (Errorf "call facebook graph")
  | Some (status, body) =>
      if bool_decide (status ≠ 200%Z) then Err (Errorf "facebook graph returned")
      else match decode_facebook_user body with
           | None => Err (Errorf "decode facebook response")
           | Some user => Ok user
           end
  end.

Definition facebookToIdentity (id name email : string) : Identity :=
  {| id_Provider := "facebook"; id_ProviderSub := id; id_Email := ToLower (TrimSpace email);
     id_EmailVerified := false; id_DisplayName := name; id_AvatarURL := ""; id_RawClaims := "" |}.

(** ** apple.go *)

Definition appleIssuer : string := "https://appleid.apple.com".
Definition appleAuthURL : string := "https://appleid.apple.com/auth/authorize".
Definition appleTokenURL : string := "https://appleid.apple.com/auth/token".
Definition appleClientSecretMaxAge : duration := (150 * 24 * Hour)%Z.

Definition parseECPrivateKey (pemStr : string) : outcome aerr ECKey :=
  match pem_Decode pemStr with
  | None => Err (Errorf "no PEM block found")
  | Some block =>
      match ParsePKCS8PrivateKey block with
      | Some (Some ec) => Ok ec
      | Some None => Err (Errorf "PKCS8 key is not an EC key")
      | None => match ParseECPrivateKey block with
                | Some ec => Ok ec
                | None => Err (Errorf "unsupported EC private key encoding")
                end
      end
  end.

Definition GenerateAppleClientSecret (e : Env) (privateKeyPEM teamID servicesID keyID : string) :
    outcome aerr string :=
  match parseECPrivateKey privateKeyPEM with
  | Err err => Err (Wrapf "parse apple private key" err)
  | Ok key =>
      let claims :=
        {| Subject := servicesID; Issuer := teamID; Audience := [appleIssuer];
           ExpiresAt := Some (NumericDate (now e + appleClientSecretMaxAge)%Z);
           IssuedAt := Some (NumericDate (now e)); NotBefore := None; JTI := "" |} in
      match SignedStringES256 keyID key claims with
      | None => Err (Errorf "sign apple client secret")
      | Some signed => Ok signed
      end
  end.

Definition verifyAppleIDToken (o : Outside) (rawIDToken servicesID : string) : outcome aerr claim_map :=
  match NewProvider o appleIssuer with
  | None => Err (Errorf "discover apple oidc provider")
  | Some p =>
      match Verify o p servicesID rawIDToken with
      | None => Err (Errorf "verify apple id_token")
      | Some None => Err (Errorf "extract apple claims")
      | Some (Some claims) => Ok claims
      end
  end.

Definition parseAppleFormName (formUserField : string) : string :=
  if bool_decide (TrimSpace formUserField = "") then ""
  else match decode_apple_user formUserField with
       | None => ""
       | Some (first, last) => TrimSpace (first +:+ " " +:+ last)
       end.

Definition appleClaimsToIdentity (claims : claim_map) (formUserField : string) : Identity :=
  {| id_Provider := "apple"; id_ProviderSub := claimString claims "sub";
     id_Email := ToLower (TrimSpace (claimString claims "email")); id_EmailVerified := true;
     id_DisplayName := parseAppleFormName formUserField; id_AvatarURL := ""; id_RawClaims := "" |}.

Definition appleOAuthConfig (s : SocialAuthService) (clientSecret : string) : oauth2_Config :=
  {| o2_ClientID := pc_ClientID (provider_of s "apple"); o2_ClientSecret := clientSecret;
     o2_Endpoint := {| AuthURL := appleAuthURL; TokenURL := appleTokenURL; Style := AuthStyleInParams |};
     o2_RedirectURL := callback_url s; o2_Scopes := ["name"; "email"] |}.

Definition exchangeApple (o : Outside) (cfg : oauth2_Config) (code : string) : outcome aerr string :=
  match Exchange o cfg code [] with
  | None => Err (Errorf "exchange apple code")
  | Some token =>
      match tk_IDToken token with
      | Some raw => if bool_decide (raw = "") then Err (Errorf "apple token response missing id_token") else Ok raw
      | None => Err (Errorf "apple token response missing id_token")
      end
  end.

(** ** custom.go *)

Definition customProviders : gmap string bool :=
  {["apple" := true; "facebook" := true; "x" := true]}.

Definition RegisterCustomProvider (s : SocialAuthService) (provider clientID clientSecret : string) :
    SocialAuthService :=
  with_provider s provider
    {| pc_Provider := provider; pc_IssuerURL := ""; pc_ClientID := clientID;
       pc_ClientSecret := clientSecret; pc_Scopes := []; pc_UsesPKCE := bool_decide (provider = "x") |}.

Definition initiateCustom (s : SocialAuthService) (e : Env) (r : Rand) (o : Outside)
    (provider redirectURI : string) : outcome aerr (string * string) :=
  match providers s !! provider with
  | None => Err (Errorf "provider not registered")
  | Some _ =>
      if negb (isAllowedRedirectURI s redirectURI) then Err (Errorf "redirect_uri not allowed")
      else if bool_decide (provider = "x") then initiateX s e r o redirectURI
      else match randomNonce o with
           | Err err => Err (Wrapf "generate nonce" err)
           | Ok nonce =>
               match createStateJWT s e (jti r 0) provider redirectURI "" nonce with
               | Err err => Err (Wrapf "create state" err)
               | Ok state =>
                   if bool_decide (provider = "apple") then
                     Ok (AuthCodeURL (appleOAuthConfig s "") state [] +:+ "&response_mode=form_post", state)
                   else if bool_decide (provider = "facebook") then
                     Ok (AuthCodeURL (facebookOAuthConfig s) state [], state)
                   else Err (Errorf "unsupported custom provider")
               end
           end
  end.

Definition Initiate (s : SocialAuthService) (e : Env) (r : Rand) (o : Outside)
    (provider redirectURI : string) : outcome aerr (string * string) :=
  match oidcPresets !! provider with
  | Some _ => InitiateOIDC s e r o provider redirectURI
  | None => if default false (customProviders !! provider)
            then initiateCustom s e r o provider redirectURI
            else Err (Errorf "unknown social provider")
  end.

Definition appleClientSecret (s : SocialAuthService) (e : Env) (o : Outside) : outcome aerr string :=
  let teamID := Getenv o "APPLE_TEAM_ID" in
  let keyID := Getenv o "APPLE_KEY_ID" in
  let servicesID := if bool_decide (pc_ClientID (provider_of s "apple") = "")
                    then Getenv o "APPLE_SERVICES_ID" else pc_ClientID (provider_of s "apple") in
  let path := Getenv o "APPLE_PRIVATE_KEY_PATH" in
  let keyPEM :=
    if bool_decide (Getenv o "APPLE_PRIVATE_KEY" = "") && negb (bool_decide (path = "")) then
      match ReadFile o path with
      | None => Err (Errorf "read apple private key file")
      | Some b => Ok b
      end
    else Ok (Getenv o "APPLE_PRIVATE_KEY") in
  match keyPEM with
  | Err err => Err err
  | Ok keyPEM =>
      if bool_decide (keyPEM = "") then Err (Errorf "APPLE_PRIVATE_KEY or APPLE_PRIVATE_KEY_PATH not set")
      else GenerateAppleClientSecret e keyPEM teamID servicesID keyID
  end.

Definition handleXCallback (s : SocialAuthService) (o : Outside) (code verifier : string) :
    outcome aerr Identity :=
  match exchangeX o (xOAuthConfig s) code verifier with
  | Err err => Err err
  | Ok accessToken =>
      match fetchXUser o accessToken with
      | Err err => Err err
      | Ok (id, name) => Ok (xToIdentity id name)
      end
  end.

Definition appleCallback (s : SocialAuthService) (e : Env) (o : Outside) (code formUserField : string) :
    outcome aerr Identity :=
  match appleClientSecret s e o with
  | Err err => Err (Wrapf "apple client secret" err)
  | Ok clientSecret =>
      match exchangeApple o (appleOAuthConfig s clientSecret) code with
      | Err err => Err err
      | Ok rawIDToken =>
          match verifyAppleIDToken o rawIDToken (pc_ClientID (provider_of s "apple")) with
          | Err err => Err err
          | Ok claims => Ok (appleClaimsToIdentity claims formUserField)
          end
      end
  end.
Definition facebookCallback (s : SocialAuthService) (o : Outside) (code : string) : outcome aerr Identity :=
  match exchangeFacebook o (facebookOAuthConfig s) code with
  | Err err => Err err
  | Ok accessToken =>
      match fetchFacebookUser o accessToken with
      | Err err => Err err
      | Ok (id, name, email) => Ok (facebookToIdentity id name email)
      end
  end.
Definition handleCustomCallback (s : SocialAuthService) (e : Env) (o : Outside)
    (provider code formUserField : string) : outcome aerr Identity :=
  if bool_decide (provider = "apple") then appleCallback s e o code formUserField
  else if bool_decide (provider = "facebook") then facebookCallback s o code
  else if bool_decide (provider = "x") then Err (Errorf "x callback must be handled with its PKCE verifier")
  else Err (Errorf "unsupported custom provider").

(** ** oidc.go: the callback of all providers *)

Definition oidcCallback (s : SocialAuthService) (o : Outside) (provider code : string) :
    outcome aerr Identity :=
  match oidcConfig s provider with
  | Err err => Err err
  | Ok cfg =>
      match ExchangeCode o cfg code with
      | Err err => Err (Wrapf "exchange code" err)
      | Ok tokens =>
          match VerifyIDToken o cfg (IDToken tokens) with
          | Err err => Err (Wrapf "verify id_token" err)
          | Ok claims => Ok (claimsToIdentity provider claims)
          end
      end
  end.

(** The identity the code of a provider stands for. *)
Definition identify (s : SocialAuthService) (e : Env) (o : Outside)
    (provider code pkceVerifier formUserField : string) : outcome aerr Identity :=
  if negb (bool_decide (default "" (oidcPresets !! provider) = "")) then oidcCallback s o provider code
  else if bool_decide (provider = "x") then handleXCallback s o code pkceVerifier
  else if default false (customProviders !! provider) then handleCustomCallback s e o provider code formUserField
  else Err (Errorf "unknown social provider").

(** The results of the Go function: the response or the error, and the redirect. *)
Definition HandleCallback (s : SocialAuthService) (e : Env) (r : Rand) (o : Outside)
    (code stateJWT formUserField : string) (st : SocialState) :
    (outcome aerr AuthResponse * string) * SocialState :=
  match parseStateJWT s e stateJWT with
  | Err err => ((Err (Wrapf "parse state" err), ""), st)
  | Ok (provider, redirectURI, pkceVerifier, _) =>
      if negb (isAllowedRedirectURI s redirectURI) then ((Err (Errorf "redirect_uri not allowed"), ""), st)
      else match identify s e o provider code pkceVerifier formUserField with
           | Err err => ((Err err, ""), st)
           | Ok ident =>
               match Provision s e r ident st with
               | (Err err, st) => ((Err (Wrapf "provision" err), ""), st)
               | (Ok resp, st) => ((Ok resp, redirectURI), st)
               end
           end
  end.

(** ** http.go *)

Definition appendQuery (rawURL key value : string) : string :=
  let sep := if strings_Contains rawURL "?" then "&" else "?" in
  rawURL +:+ sep +:+ key +:+ "=" +:+ QueryEscape value.

(** The form of the request as [FormValue] reads it and the query alone. *)
Record callback_request : Type := { FormValue : string → string; Query : string → string }.
Definition first_nonempty (a b : string) : string := if bool_decide (a = "") then b else a.

Definition answer (resp : sso_response) (st : SocialState) : sso_response * SocialState := (resp, st).
Definition on_handoff {X} (m : prog HS herr X) (st : SocialState) : outcome herr X * SocialState :=
  match m (so_handoffStore st) with
  | (res, hs) => (res, {| social := social st; users := users st; so_handoffStore := hs |})
  end.

(** [callback] is the field of the service, [HandleCallback] unless a test
    replaces it.  The identifiers of the hand-off are drawn after its own. *)
Definition handleCallbackHTTP (s : SocialAuthService) (e : Env) (r : Rand)
    (callback : string → string → string → SocialState → (outcome aerr AuthResponse * string) * SocialState)
    (req : callback_request) (st : SocialState) : sso_response * SocialState :=
  let code := first_nonempty (FormValue req "code") (Query req "code") in
  let state := first_nonempty (FormValue req "state") (Query req "state") in
  if bool_decide (code = "") || bool_decide (state = "")
  then answer (HttpError "missing code or state parameter" 400) st
  else
    match callback code state (FormValue req "user") st with
    | ((Err _, redirectURI), st) =>
        if negb (bool_decide (redirectURI = "")) && isAllowedRedirectURI s redirectURI
        then answer (HttpRedirect (appendQuery redirectURI "error" "authentication_failed")) st
        else answer (HttpError "authentication failed" 500) st
    | ((Ok resp, redirectURI), st) =>
        if bool_decide (redirectURI = "") || negb (isAllowedRedirectURI s redirectURI)
        then answer (HttpError "invalid redirect target" 400) st
        else
          let r' := {| salt := salt r; jti := λ n, jti r (2 + n) |} in
          match on_handoff (MintHandoff e r' (Some (jwt s)) redirectURI (Some resp)) st with
          | (Err _, st) => answer (HttpRedirect (appendQuery redirectURI "error" "authentication_failed")) st
          | (Ok handoffCode, st) =>
              answer (HttpRedirect (appendQuery (appendQuery redirectURI "code" handoffCode) "state" state)) st
          end
    end.

(** [form] is the parsed body: [None] when [ParseForm] fails. *)
Definition handleExchangeHTTP (s : SocialAuthService) (e : Env) (method : string)
    (form : option (string → string)) (st : SocialState) : sso_response * SocialState :=
  if bool_decide (method ≠ "POST") then answer (HttpError "method not allowed" 405) st
  else match form with
       | None => answer (HttpError "invalid request" 400) st
       | Some PostFormValue =>
           let handoffCode := PostFormValue "code" in
           let redirectURI := PostFormValue "redirect_uri" in
           if bool_decide (handoffCode = "") || bool_decide (redirectURI = "")
           then answer (HttpError "invalid request" 400) st
           else if negb (isAllowedRedirectURI s redirectURI) then answer (HttpError "invalid request" 400) st
           else match on_handoff (RedeemHandoff e (Some (jwt s)) redirectURI handoffCode) st with
                | (Err _, st) => answer (HttpError "invalid request" 400) st
                | (Ok resp, st) => answer (TokenPair (AccessToken resp) (RefreshToken resp)) st
                end
       end.

Definition randomConfirmationCode (o : Outside) : outcome aerr string := randomNonce o.

(** The status page and the confirmation code, or [None] for a server error. *)
Definition handleFacebookDeletion (s : SocialAuthService) (o : Outside) (st : SocialState) :
    option (string * string) * SocialState :=
  match randomConfirmationCode o with
  | Err _ => (None, st)
  | Ok code =>
      let details := "{" +:+ quoted "confirmation_code" +:+ ":" +:+ quoted code +:+ "}" in
      let '(_, st) := on_users (as_CreateAuditLog uuid_Nil uuid_Nil "social.facebook.deletion_request"
                                  "user_identity" "" "" details) st in
      (Some (so_baseURL s +:+ "/auth/social/facebook/deletion/status?code=" +:+ QueryEscape code, code), st)
  end.
End provision.
End social.
