(* ===== verification/SocialProofs.v ===== *)
(** * Theorems on social login

    Over the development backend and any identity store: which account an
    identity enters, and who else holds its password; what the tokens of a new
    user are worth; what a half-finished sign-in leaves behind; a whole login from
    the authorization URL to the exchanged token pair, and where it may lead. *)

From S2P Require Import Prelude Encoding Password Rbac Company Auth Devstore AuthProofs Sso SsoProofs Social.

Section social.
Context {U : UuidText} {C : UnicodeCase} {H : Sha256} {K : KeyDerivation} {J : JWTLib} {P : IdPLib}.
Context {SSt : Type} {SS : SocialStore SSt}.
Implicit Types (s : SocialAuthService) (b : memoryState) (σ : SSt) (hs : InMemoryHandoffStore) (i : Identity).
Abbreviation state := (SocialState (St := memoryState) (SSt := SSt) (HS := InMemoryHandoffStore)).

(** ** Tokens *)

Definition access_claims s (e : Env) (r : Rand) (uid : uuid) : Claims :=
  {| Registered := registered e (jwt s) (jti r 0) (uuid_String uid) (AccessTokenExpiry (config (jwt s)));
     c_UserID := uuid_String uid; c_CompanyID := ""; c_CompanyIDs := []; c_Role := ""; c_RoleLevel := 0;
     c_Scopes := []; c_HouseholdID := ""; c_ChildID := ""; c_ChildMode := false; c_Entitlements := [] |}.
Definition social_refresh_claims s (e : Env) (r : Rand) (uid : uuid) : Claims :=
  registered_only (registered e (jwt s) (jti r 1) (uuid_String uid) (RefreshTokenExpiry (config (jwt s)))).
(** The response for a user and the backend with its refresh token. *)
Definition social_response s (e : Env) (r : Rand) (u : User) : AuthResponse :=
  {| AccessToken := token_of (jwt s) (access_claims s e r (u_ID u));
     RefreshToken := token_of (jwt s) (social_refresh_claims s e r (u_ID u)); resp_User := u |}.
Definition remembering (e : Env) (resp : AuthResponse) b : memoryState :=
  set_refreshTokens (<[HashToken (RefreshToken resp) :=
    {| rt_UserID := u_ID (resp_User resp); rt_TokenHash := HashToken (RefreshToken resp);
       rt_ExpiresAt := (now e + refreshTokenExpiry)%Z |}]> (refreshTokens b)) b.

Lemma issueTokens_Ok s e r u b :
  has_key (jwt s) →
  issueTokens s e r u b = (Ok (social_response s e r u), remembering e (social_response s e r u) b).
Proof.
  intros Hk. unfold issueTokens, CreateAccessToken, CreateAccessTokenWithScopes, CreateRefreshToken.
  by rewrite !sign_claims_Ok.
Qed.

(** ** Which account an identity enters *)

Definition named i : Prop := id_Provider i ≠ "" ∧ id_ProviderSub i ≠ "".
(** Where the e-mail of an identity is looked up: the store normalizes it again. *)
Definition email_of i : string := normalized (id_Email i).
Definition linkable i : bool := negb (bool_decide (email_of i = "")) && id_EmailVerified i.
Definition placeholder_of i : string := placeholderEmail (id_Provider i) (id_ProviderSub i).
(** The e-mail a new account gets. *)
Definition account_email i : string := if linkable i then email_of i else placeholder_of i.
Definition fresh_user (e : Env) i : User :=
  {| u_ID := new_id e 0; u_Email := normalized (account_email i); u_PasswordHash := unusablePasswordHash;
     u_DisplayName := TrimSpace (displayName i (account_email i)); u_AvatarURL := ""; u_IsActive := true;
     u_CreatedAt := now e |}.
Definition row_email i : option string := if bool_decide (email_of i = "") then None else Some (email_of i).
Definition added (u : User) b : memoryState :=
  set_users (<[u_ID u := u]> (usersByID b)) (<[u_Email u := u_ID u]> (usersByEmail b)) b.

Lemma linkable_spec i : linkable i = true ↔ email_of i ≠ "" ∧ id_EmailVerified i = true.
Proof. unfold linkable. rewrite andb_true_iff, negb_true_iff, bool_decide_eq_false. done. Qed.

Lemma resolve_known_email e i b id u :
  linkable i = true → usersByEmail b !! normalized (email_of i) = Some id → usersByID b !! id = Some u →
  resolve_user e i b = (Ok (u, row_email i), b).
Proof.
  intros Hl Hid Hu. unfold resolve_user. fold (normalized (id_Email i)). fold (email_of i). fold (linkable i).
  rewrite Hl. cbv [mbind prog_bind try]. unfold as_GetUserByEmail, dev_AuthStore, dev_GetUserByEmail.
  rewrite Hid, Hu. apply linkable_spec in Hl as [Hne _]. unfold row_email. by rewrite bool_decide_false.
Qed.
Lemma resolve_free e i b :
  usersByEmail b !! normalized (account_email i) = None →
  resolve_user e i b = (Ok (fresh_user e i, row_email i), added (fresh_user e i) b).
Proof.
  unfold account_email, fresh_user, resolve_user, account_email. fold (normalized (id_Email i)). fold (email_of i).
  fold (linkable i). fold (placeholder_of i). destruct (linkable i) eqn:Hl; intros Hf;
    cbv [mbind prog_bind try wrapping]; unfold as_GetUserByEmail, as_CreateUser, dev_AuthStore, dev_GetUserByEmail, dev_CreateUser;
    rewrite Hf; [|done].
  cbn [mret prog_ret]. rewrite Hf. apply linkable_spec in Hl as [Hne _]. unfold row_email. by rewrite bool_decide_false.
Qed.
Lemma resolve_placeholder_taken e i b id :
  linkable i = false → usersByEmail b !! normalized (placeholder_of i) = Some id →
  resolve_user e i b = (Err (Wrapf "create placeholder user" (Errorf "duplicate key")), b).
Proof.
  intros Hl Hid. unfold resolve_user. fold (normalized (id_Email i)). fold (email_of i). fold (linkable i).
  fold (placeholder_of i). rewrite Hl. cbv [mbind prog_bind wrapping].
  unfold as_CreateUser, dev_AuthStore, dev_CreateUser. by rewrite Hid.
Qed.

Lemma Provision_new s e r i σ b hs err u mail b1 row σ1 :
  has_key (jwt s) → named i → ss_GetUserIdentityByProviderSub (id_Provider i) (id_ProviderSub i) σ = (Err err, σ) →
  resolve_user e i b = (Ok (u, mail), b1) → ss_UpsertUserIdentity e 1 (identity_row i u mail) σ = (Ok row, σ1) →
  Provision s e r i {| social := σ; users := b; so_handoffStore := hs |} =
  (Ok (social_response s e r u),
   {| social := σ1; users := remembering e (social_response s e r u) b1; so_handoffStore := hs |}).
Proof.
  intros Hk [Hp Hsub] Hget Hres Hup. unfold Provision. rewrite !bool_decide_false by done. cbn [orb].
  cbv [mbind prog_bind try wrapping on_social on_users zoom]. cbn [social users so_handoffStore].
  rewrite Hget. cbn [social users so_handoffStore]. rewrite Hres. cbn [social users so_handoffStore].
  rewrite Hup. cbn [social users so_handoffStore]. by rewrite issueTokens_Ok.
Qed.
Lemma Provision_known s e r i σ b hs row u :
  has_key (jwt s) → named i → ss_GetUserIdentityByProviderSub (id_Provider i) (id_ProviderSub i) σ = (Ok row, σ) →
  usersByID b !! ui_UserID row = Some u →
  Provision s e r i {| social := σ; users := b; so_handoffStore := hs |} =
  (Ok (social_response s e r u),
   {| social := σ; users := remembering e (social_response s e r u) b; so_handoffStore := hs |}).
Proof.
  intros Hk [Hp Hsub] Hget Hu. unfold Provision. rewrite !bool_decide_false by done. cbn [orb].
  cbv [mbind prog_bind try wrapping on_social on_users zoom]. cbn [social users so_handoffStore].
  rewrite Hget. cbn [social users so_handoffStore]. unfold as_GetUserByID, dev_AuthStore, dev_GetUserByID.
  rewrite Hu. cbn [social users so_handoffStore]. by rewrite issueTokens_Ok.
Qed.

Lemma Provision_taken s e r i σ b hs err id :
  named i → linkable i = false →
  ss_GetUserIdentityByProviderSub (id_Provider i) (id_ProviderSub i) σ = (Err err, σ) →
  usersByEmail b !! normalized (placeholder_of i) = Some id →
  Provision s e r i {| social := σ; users := b; so_handoffStore := hs |} =
  (Err (Wrapf "create placeholder user" (Errorf "duplicate key")),
   {| social := σ; users := b; so_handoffStore := hs |}).
Proof.
  intros [Hp Hsub] Hl Hget Hid. unfold Provision. rewrite !bool_decide_false by done. cbn [orb].
  cbv [mbind prog_bind try on_social on_users zoom]. cbn [social users so_handoffStore].
  rewrite Hget. cbn [social users so_handoffStore]. by rewrite (resolve_placeholder_taken e i b id).
Qed.

(** What a sign-in that succeeds found. *)
Lemma resolve_inv e i b u mail b' :
  resolve_user e i b = (Ok (u, mail), b') →
  (linkable i = true ∧ b' = b ∧ ∃ id, usersByEmail b !! normalized (email_of i) = Some id ∧
     (usersByID b !! id = Some u ∨ usersByID b !! id = None)) ∨
  (usersByEmail b !! normalized (account_email i) = None ∧ u = fresh_user e i ∧ b' = added u b).
Proof.
  intros Hr. destruct (usersByEmail b !! normalized (account_email i)) as [id|] eqn:Hid.
  - destruct (linkable i) eqn:Hl; unfold account_email in Hid; rewrite Hl in Hid.
    + left. split; [done|]. revert Hr. unfold resolve_user. fold (normalized (id_Email i)). fold (email_of i).
      fold (linkable i). rewrite Hl. cbv [mbind prog_bind try].
      unfold as_GetUserByEmail, dev_AuthStore, dev_GetUserByEmail. rewrite Hid. intros [= <- _ <-].
      split; [done|]. exists id. split; [done|]. destruct (usersByID b !! id); [by left|by right].
    + by rewrite (resolve_placeholder_taken e i b id) in Hr.
  - right. rewrite resolve_free in Hr by done. injection Hr as <- _ <-. done.
Qed.

Lemma Provision_inv s e r i (st st' : state) resp :
  has_key (jwt s) → Provision s e r i st = (Ok resp, st') →
  named i ∧ resp = social_response s e r (resp_User resp) ∧ ∃ b1, users st' = remembering e resp b1 ∧
  ((∃ row, (ss_GetUserIdentityByProviderSub (id_Provider i) (id_ProviderSub i) (social st)).1 = Ok row ∧
      usersByID (users st) !! ui_UserID row = Some (resp_User resp) ∧ b1 = users st) ∨
   (∃ mail, resolve_user e i (users st) = (Ok (resp_User resp, mail), b1))).
Proof.
  intros Hk. unfold Provision. do 2 (case_bool_decide; [done|]). cbn [orb].
  cbv [mbind prog_bind try wrapping on_social on_users zoom]. cbn [social users so_handoffStore].
  destruct (ss_GetUserIdentityByProviderSub _ _ (social st)) as [[row|err] σ1]; cbn [social users so_handoffStore].
  - unfold as_GetUserByID, dev_AuthStore, dev_GetUserByID.
    destruct (usersByID (users st) !! ui_UserID row) as [u|] eqn:Hu; [|done].
    cbn [social users so_handoffStore]. rewrite issueTokens_Ok by done. intros [= <- <-].
    split; [done|]. split; [done|]. eexists. split; [done|]. left. eauto.
  - destruct (resolve_user e i (users st)) as [[[u mail]|err1] b1]; [|done].
    cbn [social users so_handoffStore].
    destruct (ss_UpsertUserIdentity _ _ _ _) as [[row|err2] σ2]; [|done]. cbn [social users so_handoffStore].
    rewrite issueTokens_Ok by done. intros [= <- <-].
    split; [done|]. split; [done|]. eexists. split; [done|]. right. eauto.
Qed.

(** C4: a sign-in that succeeds enters an account that was there before only
    when the identity was linked to it already, or when the provider verified the
    e-mail and the account is the one with that e-mail; otherwise it enters a new
    account, whose password hash no password verifies against. *)
Theorem entered_account s e r i (st st' : state) resp :
  has_key (jwt s) → backend_wf (users st) → usersByID (users st) !! new_id e 0 = None →
  Provision s e r i st = (Ok resp, st') →
  let u := resp_User resp in
  (usersByID (users st) !! u_ID u = Some u ∧
     ((∃ row, (ss_GetUserIdentityByProviderSub (id_Provider i) (id_ProviderSub i) (social st)).1 = Ok row ∧
        ui_UserID row = u_ID u) ∨
      (id_EmailVerified i = true ∧ email_of i ≠ "" ∧ u_Email u = normalized (email_of i)))) ∨
  (usersByID (users st) !! u_ID u = None ∧ usersByID (users st') !! u_ID u = Some u ∧
     ∀ fips p, PasswordHasher.Verify (PasswordHasher.NewPolicyHasher fips) p (u_PasswordHash u) ≠ Returns (Ok true)).
Proof.
  intros Hk Hwf Hfresh Hp u.
  apply Provision_inv in Hp as (_ & _ & b1 & Hst' & [(row & Hrow & Hu & ->)|[mail Hres]]); [|..|done].
  - left. pose proof (wf_id _ Hwf _ _ Hu) as Hid. subst u. rewrite Hid. eauto.
  - apply resolve_inv in Hres as [(Hl & -> & id & Hem & Hu)|(Hem & Hu & ->)].
    + left. apply (wf_email _ Hwf) in Hem as (v & Hv & Hmail).
      destruct Hu as [Hu|Hu]; rewrite Hv in Hu; [|done]. injection Hu as Hu. subst v.
      apply linkable_spec in Hl as [Hne Hver]. split; [|by right].
      subst u. by rewrite (wf_id _ Hwf _ _ Hv).
    + right. subst u. rewrite Hu. split; [done|]. split.
      * rewrite Hst', <-Hu. cbn [usersByID remembering set_refreshTokens set_tokens added set_users].
        by rewrite Hu, lookup_insert_eq.
      * by intros [] p.
Qed.

(** ** Refresh *)

(** C32: the refresh token of a social sign-in is of no use to a user without a
    company membership, as every user [Provision] creates is: the rotation fails
    for want of the membership after it has revoked the token, so that the
    session ends with the first access token. *)
Theorem social_refresh_lost `{L : !JWTLaws J} svc s e r i (st st' : state) resp e2 r2 :
  has_key (jwt s) → jwt s = jwtManager svc → Provision s e r i st = (Ok resp, st') →
  usersByID (users st') !! u_ID (resp_User resp) = Some (resp_User resp) →
  default [] (ms_memberships (users st) !! u_ID (resp_User resp)) = [] →
  (now e2 < NumericDate (now e + RefreshTokenExpiry_of svc))%Z → (now e2 ≤ now e + refreshTokenExpiry)%Z →
  is_Some (refreshTokens (users st') !! HashToken (RefreshToken resp)) ∧
  ∃ b, Service_RefreshToken svc e2 r2 (RefreshToken resp) (users st') =
    (Err (Wrapf "get company membership" (Errorf "membership not found")), b) ∧
    refreshTokens b !! HashToken (RefreshToken resp) = None.
Proof.
  intros Hk Hj Hp Hu Hm Hlive Hrow.
  apply Provision_inv in Hp as (_ & Hresp & b1 & Hst' & Hcase); [|done].
  assert (ms_memberships (users st') = ms_memberships (users st)) as Hms.
  { rewrite Hst'. destruct Hcase as [(row & _ & _ & ->)|[mail Hres]]; [done|].
    by apply resolve_inv in Hres as [(_ & -> & _)|(_ & _ & ->)]. }
  assert (refreshTokens (users st') !! HashToken (RefreshToken resp) =
    Some {| rt_UserID := u_ID (resp_User resp); rt_TokenHash := HashToken (RefreshToken resp);
            rt_ExpiresAt := (now e + refreshTokenExpiry)%Z |}) as Hst by (rewrite Hst'; apply lookup_insert_eq).
  split; [by rewrite Hst|]. eexists. unfold Service_RefreshToken, refresh_lookup, ValidateRefreshToken.
  rewrite <-Hj, Hresp at 1. cbn [RefreshToken social_response].
  rewrite (ParseWithClaims_signed e2 _ (social_refresh_claims s e r (u_ID (resp_User resp))) _ Hk (sign_claims_Ok _ _ Hk)).
  unfold social_refresh_claims at 1. cbn [Registered registered_only].
  unfold RefreshTokenExpiry_of in Hlive. rewrite <-Hj in Hlive. rewrite not_expired_registered, bool_decide_true by done.
  cbv [mbind prog_bind try]. unfold as_GetRefreshToken, dev_AuthStore, dev_GetRefreshToken.
  rewrite Hst. unfold After. cbn [rt_ExpiresAt]. rewrite bool_decide_false by lia. cbn [mret prog_ret].
  unfold refresh_rotate. cbv [mbind prog_bind wrapping].
  unfold as_RevokeRefreshToken, dev_AuthStore, dev_RevokeRefreshToken, modify, as_GetUserByID, dev_GetUserByID.
  cbn [usersByID set_refreshTokens set_tokens rt_UserID]. rewrite Hu.
  unfold as_GetCompanyMembershipByUser, dev_GetCompanyMembershipByUser.
  cbn [ms_memberships set_refreshTokens set_tokens]. rewrite Hms, Hm. split; [done|].
  cbn. apply lookup_delete_eq.
Qed.

(** ** Accounts nobody verified *)

Lemma remembering_account e resp b key u m role :
  account b key u m role → account (remembering e resp b) key u m role.
Proof. by intros [? ? ? ?]. Qed.

(** A sign-up does not ask whether its e-mail belongs to the user, and a
    verified sign-in of the owner of that e-mail later links to the account
    without touching its password: whoever signed up first, with whatever
    password, logs in as the same user afterwards, with the owner's role. *)
Theorem preregistered_account_shared `{L : !KeyDerivationLaws K} PA fmt svc s e r fips sl email password name b
    e2 r2 i σ hs err e3 r3 :
  has_key (jwt s) → jwt s = jwtManager svc → passwordHasher svc = PasswordHasher.NewPolicyHasher fips →
  salt r = Some sl → acceptable PA email password name →
  usersByEmail b !! normalized (normalized email) = None →
  ms_memberships b !! new_id e 0 = None → ms_roles b = authRoles →
  named i → linkable i = true → normalized (email_of i) = normalized (normalized email) →
  ss_GetUserIdentityByProviderSub (id_Provider i) (id_ProviderSub i) σ = (Err err, σ) →
  (∀ ui, ∃ row σ1, ss_UpsertUserIdentity e2 1 ui σ = (Ok row, σ1)) →
  ∃ resp b1 st2 b3,
    SignUp (St := memoryState) (Tx := memoryState) PA fmt svc e r email password name b = (Ok resp, b1) ∧
    Provision s e2 r2 i {| social := σ; users := b1; so_handoffStore := hs |} =
      (Ok (social_response s e2 r2 (resp_User resp)), st2) ∧
    Login svc e3 r3 email password (users st2) =
      (Ok (response svc e3 r3 (resp_User resp) (new_id e 1) "owner" 90), b3).
Proof.
  intros Hk Hj Hh Hsl Hacc Hkey Hm Hr Hn Hl Hem Hget Hup.
  assert (has_key (jwtManager svc)) as Hk' by (by rewrite <-Hj).
  destruct (SignUp_account PA fmt svc e r fips sl email password name b)
    as (u & b1 & Hok & Hid & Hac & Hact & Hver & _); [done..|].
  destruct (Hup (identity_row i u (row_email i))) as (row & σ1 & Hrow).
  eexists _, b1, _, _. split; [exact Hok|]. cbn [resp_User response]. split.
  - apply (Provision_new s e2 r2 i σ b1 hs err u (row_email i) b1 row σ1); [done..| |done].
    apply (resolve_known_email e2 i b1 (u_ID u)); [done| |apply Hac]. rewrite Hem. apply Hac.
  - cbn [users]. apply (Login_Ok svc e3 r3 email password _ u (owner_membership e owner_role) owner_role);
      [done|by apply remembering_account|done..].
Qed.

(** ** Half-finished sign-ins *)

(** The placeholder address of an identity that may not link is the same at
    every attempt.  Once an account has it, the first sign-in of the identity
    always fails and changes nothing: also for the identity's own owner, after an
    attempt that made the account but could not store the identity. *)
Theorem placeholder_taken s e r i σ b hs err uerr st' :
  let absent σ err := ss_GetUserIdentityByProviderSub (id_Provider i) (id_ProviderSub i) σ = (Err err, σ) in
  named i → linkable i = false → absent σ err →
  Provision s e r i {| social := σ; users := b; so_handoffStore := hs |} =
    (Err (Wrapf "upsert user identity" uerr), st') →
  ∃ u, usersByEmail (users st') !! normalized (placeholder_of i) = Some u ∧
  ∀ e2 r2 σ2 b2 hs2 err2, absent σ2 err2 → usersByEmail b2 !! normalized (placeholder_of i) = Some u →
    Provision s e2 r2 i {| social := σ2; users := b2; so_handoffStore := hs2 |} =
    (Err (Wrapf "create placeholder user" (Errorf "duplicate key")),
     {| social := σ2; users := b2; so_handoffStore := hs2 |}).
Proof.
  intros absent Hn Hl Hget Hfail.
  destruct (usersByEmail b !! normalized (placeholder_of i)) as [id|] eqn:Hid;
    [by rewrite (Provision_taken _ _ _ _ _ _ _ err id) in Hfail|].
  exists (new_id e 0). split; [|intros; by eapply Provision_taken].
  revert Hfail. destruct Hn as [Hp Hsub]. unfold Provision. rewrite !bool_decide_false by done. cbn [orb].
  cbv [mbind prog_bind try wrapping on_social on_users zoom]. cbn [social users so_handoffStore].
  rewrite Hget. cbn [social users so_handoffStore].
  rewrite resolve_free by (unfold account_email; by rewrite Hl). cbn [social users so_handoffStore].
  destruct (ss_UpsertUserIdentity _ _ _ _) as [[row|err2] σ2]; cbn [social users so_handoffStore].
  - destruct (issueTokens _ _ _ _ _) as [[?|?] ?] eqn:Hi; [done|]. cbn.
    intros [= Herr2 <-]. revert Hi. unfold issueTokens. cbv [mbind prog_bind wrapping of_outcome].
    repeat case_match; intros; simplify_eq.
  - intros [= <- <-]. cbn [users added set_users usersByEmail fresh_user u_Email u_ID].
    unfold account_email. rewrite Hl. apply lookup_insert_eq.
Qed.

(** ** Inactive accounts *)

(** A known identity enters its account whether or not the account is active;
    a login with the password of the account asks. *)
Theorem inactive_account_enters svc s e r i σ b hs row u e2 r2 p :
  has_key (jwt s) → named i →
  ss_GetUserIdentityByProviderSub (id_Provider i) (id_ProviderSub i) σ = (Ok row, σ) →
  usersByID b !! ui_UserID row = Some u → u_IsActive u = false →
  usersByEmail b !! normalized (normalized (u_Email u)) = Some (ui_UserID row) →
  (Provision s e r i {| social := σ; users := b; so_handoffStore := hs |}).1 = Ok (social_response s e r u) ∧
  (Login svc e2 r2 (u_Email u) p b).1 = Err genericErr.
Proof.
  intros Hk Hn Hget Hu Hact Hem. rewrite (Provision_known s e r i σ b hs row u) by done. split; [done|].
  unfold Login, check_credentials. cbv [mbind prog_bind try].
  unfold as_GetUserByEmail, dev_AuthStore, dev_GetUserByEmail. rewrite Hem, Hu.
  cbn [default from_option id]. by rewrite Hact.
Qed.

(** ** A whole login *)

Abbreviation no_bar t := ("|"%char ∉ String.list_ascii_of_string t).

Lemma social_state_parses `{L : !JWTLaws J} s e e' id provider redirectURI verifier nonce tok :
  has_key (jwt s) → no_bar provider → no_bar redirectURI → no_bar verifier →
  createStateJWT s e id provider redirectURI verifier nonce = Ok tok →
  parseStateJWT s e' tok =
  if bool_decide (now e' < NumericDate (now e + stateTTL))%Z
  then Ok (provider, redirectURI, verifier, nonce)
  else Err (Wrapf "invalid state" (Errorf "parse short-lived token")).
Proof.
  intros Hk Hp Hr Hv Htok. unfold parseStateJWT, ValidateShortLivedToken.
  rewrite (ParseWithClaims_signed e' _ _ _ Hk Htok). cbn [Registered registered_only].
  rewrite not_expired_registered. case_bool_decide; [|done]. cbn [Registered registered_only registered Subject].
  change (strings_Join "|" [provider; redirectURI; verifier; nonce])
    with (provider +:+ String "|" (redirectURI +:+ String "|" (verifier +:+ String "|" nonce))).
  by rewrite !SplitN_app by done.
Qed.

Lemma createStateJWT_Ok s e id provider redirectURI verifier nonce :
  has_key (jwt s) → ∃ tok, createStateJWT s e id provider redirectURI verifier nonce = Ok tok.
Proof. intros Hk. unfold createStateJWT, CreateShortLivedToken. rewrite sign_claims_Ok by done. by eexists. Qed.

(** The nonce of the authorization URL is in the state token, and nothing
    compares it with the identity token: two callbacks that differ in it alone
    give the same. *)
Theorem nonce_never_checked `{L : !JWTLaws J} s e e2 id1 id2 provider redirectURI verifier nonce1 nonce2 state1 state2 r o code form (st : state) :
  has_key (jwt s) → no_bar provider → no_bar redirectURI → no_bar verifier →
  createStateJWT s e id1 provider redirectURI verifier nonce1 = Ok state1 →
  createStateJWT s e id2 provider redirectURI verifier nonce2 = Ok state2 →
  HandleCallback s e2 r o code state1 form st = HandleCallback s e2 r o code state2 form st.
Proof.
  intros Hk Hp Hr Hv H1 H2. unfold HandleCallback.
  rewrite (social_state_parses s e e2 _ _ _ _ _ _ Hk Hp Hr Hv H1),
    (social_state_parses s e e2 _ _ _ _ _ _ Hk Hp Hr Hv H2).
  by case_bool_decide.
Qed.

(** A callback that fails is never sent back to the application. *)
Theorem failed_callback_not_redirected s e r o req (st : state) code state err :
  code = first_nonempty (FormValue req "code") (Query req "code") →
  state = first_nonempty (FormValue req "state") (Query req "state") → code ≠ "" → state ≠ "" →
  (HandleCallback s e r o code state (FormValue req "user") st).1.1 = Err err →
  (handleCallbackHTTP s e r (HandleCallback s e r o) req st).1 = HttpError "authentication failed" 500.
Proof.
  intros -> -> Hc Hs Herr. unfold handleCallbackHTTP. rewrite !bool_decide_false by done. cbn [orb].
  revert Herr. unfold HandleCallback. repeat case_match; intros; simplify_eq/=; done.
Qed.

(** A redirect is allowed exactly when it extends an allowed text. *)
Lemma isAllowedRedirectURI_exact s uri :
  isAllowedRedirectURI s uri = true ↔
  uri ≠ "" ∧ ∃ allowed rest, allowed ∈ redirectAllowlist s ∧ allowed ≠ "" ∧ uri = allowed +:+ rest.
Proof.
  unfold isAllowedRedirectURI. case_bool_decide as Hu; [split; [done|by intros [? _]]|].
  rewrite any_true. split.
  - intros (a & Ha & [Hne Hp%prefix_inv]%andb_true_iff).
    rewrite negb_true_iff, bool_decide_eq_false in Hne. eauto 10.
  - intros (_ & a & rest & Ha & Hne & Hp). exists a. split; [done|]. apply andb_true_iff.
    split; [by rewrite bool_decide_false|rewrite Hp; apply prefix_app].
Qed.

(** The request of a browser that comes back from a provider, and the form of
    the application that exchanges its code. *)
Definition returning (code state : string) (user : string) : callback_request :=
  {| FormValue := λ k, if bool_decide (k = "code") then code else if bool_decide (k = "state") then state
                       else if bool_decide (k = "user") then user else "";
     Query := λ _, "" |}.
Definition exchange_form (code redirectURI : string) (k : string) : string :=
  if bool_decide (k = "code") then code else if bool_decide (k = "redirect_uri") then redirectURI else "".

(** Signed texts are not empty. *)
Hypothesis signed_nonempty : ∀ kid sk c, SignedString kid sk c ≠ "".
Hypothesis signedHS256_nonempty : ∀ key r, SignedStringHS256 key r ≠ "".

Lemma token_of_nonempty (m : JWTManager) c : has_key m → token_of m c ≠ "".
Proof. intros [[sk Hsk] _]. unfold token_of. by rewrite Hsk. Qed.

Lemma InitiateOIDC_Ok s e r o provider target pc bytes p :
  has_key (jwt s) → isAllowedRedirectURI s target = true → is_Some (oidcPresets !! provider) →
  providers s !! provider = Some pc → rand_Read o = Some bytes →
  NewProvider o (default "" (oidcPresets !! provider)) = Some p →
  ∃ url state, InitiateOIDC s e r o provider target = Ok (url, state) ∧ state ≠ "" ∧
    createStateJWT s e (jti r 0) provider target "" (hex_EncodeToString bytes) = Ok state.
Proof.
  intros Hk Ht [issuer Hi] Hpc Hrand Hd. unfold InitiateOIDC. rewrite Hi, Ht. cbn [negb].
  unfold oidcConfig. rewrite Hpc, Hi. cbn [default from_option id].
  assert (issuer ≠ "") as Hne.
  { unfold oidcPresets in Hi. apply lookup_insert_Some in Hi as [[_ <-]|[_ [_ <-]%lookup_singleton_Some]]; done. }
  rewrite bool_decide_false by done. unfold randomNonce. rewrite Hrand.
  destruct (createStateJWT_Ok s e (jti r 0) provider target "" (hex_EncodeToString bytes) Hk) as [tok Htok].
  rewrite Htok. unfold BuildAuthURL, discovered. cbn [cf_Issuer]. rewrite Hi in Hd. cbn [default from_option id] in Hd.
  rewrite Hd. eexists _, tok. split; [done|]. split; [|done]. unfold createStateJWT, CreateShortLivedToken in Htok.
  rewrite sign_claims_Ok in Htok by done. injection Htok as <-. by apply token_of_nonempty.
Qed.

Lemma MintHandoff_Ok e r jm audience resp hs :
  has_key jm → audience ≠ "" → AccessToken resp ≠ "" →
  (Z.of_nat (size (ho_entries (sweepLocked e hs))) < maxInMemoryHandoffs)%Z →
  ∃ code hs', MintHandoff (J := J) e r (Some jm) audience (Some resp) hs = (Ok code, hs') ∧ code ≠ "".
Proof.
  intros Hk Ha Hr Hsize. unfold MintHandoff, mintHandoff. rewrite !bool_decide_false by done.
  cbv [mbind prog_bind handoff_wrapping hs_Put InMemoryHandoffStore_store mem_Put of_outcome].
  rewrite bool_decide_false by lia. unfold CreateCompactShortLivedToken, stateHMACKey.
  destruct Hk as [[sk Hsk] _]. rewrite Hsk. cbn. eauto.
Qed.

(** The verifier that a login keeps in its state: only that of x has one. *)
Definition state_verifier (o : Outside) (provider : string) : string :=
  if bool_decide (provider = "x") then GenerateVerifier o else "".
(** The providers a login can start at; those of OpenID Connect have to answer to
    discovery. *)
Definition startable (o : Outside) (provider : string) : Prop :=
  (∃ issuer, oidcPresets !! provider = Some issuer ∧ is_Some (NewProvider o issuer)) ∨ provider ∈ ["apple"; "facebook"; "x"].
Lemma startable_no_bar o provider : startable o provider → no_bar provider.
Proof.
  intros [(issuer & Hi & _)|Hin].
  - unfold oidcPresets in Hi.
    apply lookup_insert_Some in Hi as [[<- _]|[_ [<- _]%lookup_singleton_Some]]; by apply (bool_decide_unpack _).
  - rewrite !elem_of_cons, elem_of_nil in Hin. destruct Hin as [->|[->|[->|[]]]]; by apply (bool_decide_unpack _).
Qed.
Lemma Initiate_Ok s e r o provider target pc bytes :
  has_key (jwt s) → isAllowedRedirectURI s target = true → startable o provider →
  providers s !! provider = Some pc → rand_Read o = Some bytes →
  ∃ url state, Initiate s e r o provider target = Ok (url, state) ∧ state ≠ "" ∧
    createStateJWT s e (jti r 0) provider target (state_verifier o provider) (hex_EncodeToString bytes) = Ok state.
Proof.
  intros Hk Ht Hstart Hpc Hrand. unfold Initiate, state_verifier.
  assert (∀ verifier tok, createStateJWT s e (jti r 0) provider target verifier (hex_EncodeToString bytes) = Ok tok → tok ≠ "") as Hne.
  { intros verifier tok Htok. unfold createStateJWT, CreateShortLivedToken in Htok.
    rewrite sign_claims_Ok in Htok by done. injection Htok as <-. by apply token_of_nonempty. }
  destruct Hstart as [(issuer & Hi & p & Hd)|Hin].
  - rewrite Hi. assert (provider ≠ "x") as Hx by (intros ->; done). rewrite bool_decide_false by done.
    apply (InitiateOIDC_Ok s e r o provider target pc bytes p); try done. by rewrite Hi.
  - rewrite !elem_of_cons, elem_of_nil in Hin. destruct Hin as [->|[->|[->|[]]]]; cbn;
      unfold initiateCustom, initiateX; rewrite Hpc, Ht; cbn [negb]; unfold randomNonce; rewrite Hrand; cbn.
    + destruct (createStateJWT_Ok s e (jti r 0) "apple" target "" (hex_EncodeToString bytes) Hk) as [tok Htok].
      rewrite Htok. eexists _, tok. split; [reflexivity|]. split; [by eapply Hne|exact Htok].
    + destruct (createStateJWT_Ok s e (jti r 0) "facebook" target "" (hex_EncodeToString bytes) Hk) as [tok Htok].
      rewrite Htok. eexists _, tok. split; [reflexivity|]. split; [by eapply Hne|exact Htok].
    + destruct (createStateJWT_Ok s e (jti r 0) "x" target (GenerateVerifier o) (hex_EncodeToString bytes) Hk) as [tok Htok].
      rewrite Htok. eexists _, tok. split; [reflexivity|]. split; [by eapply Hne|exact Htok].
Qed.

(** C31: a login with any of the five providers that starts at an allowed target without
    the separator of the state token (a bar) ends with its tokens, when the provider is
    registered and, for OpenID Connect, answers to discovery: the authorization URL is
    built; when the browser comes back in time with a code the provider accepts and the
    account is provisioned, it is redirected to the target with a hand-off code and the
    state, unless the process holds as many hand-off codes as it may; and whoever posts
    that code with that target while it lives gets the token pair. *)
Theorem social_login_completes `{L : !JWTLaws J} s e r o provider target pc bytes :
  has_key (jwt s) → isAllowedRedirectURI s target = true → no_bar target → startable o provider →
  providers s !! provider = Some pc → rand_Read o = Some bytes → no_bar (GenerateVerifier o) →
  ∃ url stok, Initiate s e r o provider target = Ok (url, stok) ∧ stok ≠ "" ∧
  ∀ e2 r2 o2 code form (st st2 : state) i resp,
    (now e2 < NumericDate (now e + stateTTL))%Z → code ≠ "" →
    identify s e2 o2 provider code (state_verifier o provider) form = Ok i → Provision s e2 r2 i st = (Ok resp, st2) →
    jti_ok (jti r2 2) → redeemed (so_handoffStore st2) !! jti r2 2 = None →
    (Z.of_nat (size (ho_entries (sweepLocked e2 (so_handoffStore st2)))) < maxInMemoryHandoffs)%Z →
  ∃ handoff st3,
    handleCallbackHTTP s e2 r2 (HandleCallback s e2 r2 o2) (returning code stok form) st =
      (HttpRedirect (appendQuery (appendQuery target "code" handoff) "state" stok), st3) ∧
    ∀ e3, (now e2 ≤ now e3)%Z → (now e3 < NumericDate (now e2 + HandoffTTL))%Z →
      (handleExchangeHTTP s e3 "POST" (Some (exchange_form handoff target)) st3).1 =
      TokenPair (AccessToken resp) (RefreshToken resp).
Proof.
  intros Hk Ht Hbar Hstart Hpc Hrand Hver.
  destruct (Initiate_Ok s e r o provider target pc bytes) as (url & stok & Hinit & Hs & Hstate); [done..|].
  exists url, stok. split; [done|]. split; [done|].
  intros e2 r2 o2 code form st st2 i resp Hlive Hc Hident Hprov Hjti Hfresh Hsize.
  assert (no_bar (state_verifier o provider)) as Hnil by (unfold state_verifier; case_bool_decide; [done|apply not_elem_of_nil]).
  pose proof (social_state_parses s e e2 _ _ _ _ _ _ Hk (startable_no_bar _ _ Hstart) Hbar Hnil Hstate) as Hparse.
  rewrite bool_decide_true in Hparse by done.
  assert (target ≠ "") as Hne by (intros ->; done).
  unfold handleCallbackHTTP.
  change (first_nonempty (FormValue (returning code stok form) "code") (Query (returning code stok form) "code"))
    with (first_nonempty code "").
  change (first_nonempty (FormValue (returning code stok form) "state") (Query (returning code stok form) "state"))
    with (first_nonempty stok "").
  change (FormValue (returning code stok form) "user") with form.
  unfold first_nonempty. rewrite !(bool_decide_false (code = "")), !(bool_decide_false (stok = "")) by done.
  cbn [orb]. unfold HandleCallback. rewrite Hparse, Ht. cbn [negb]. rewrite Hident, Hprov.
  rewrite bool_decide_false, Ht by done. cbn [orb negb].
  assert (AccessToken resp ≠ "") as Hat.
  { apply Provision_inv in Hprov as (_ & -> & _); [|done]. by apply token_of_nonempty. }
  set (r' := {| salt := salt r2; jti := λ n, jti r2 (2 + n) |}).
  destruct (MintHandoff_Ok e2 r' (jwt s) target resp (so_handoffStore st2)) as (handoff & hs' & Hmint & Hhne); [done..|].
  unfold on_handoff. rewrite Hmint. cbn [fst snd]. eexists _, _. split; [reflexivity|].
  intros e3 Hle Hlt. unfold handleExchangeHTTP. rewrite bool_decide_false by tauto.
  change (exchange_form handoff target "code") with handoff. change (exchange_form handoff target "redirect_uri") with target.
  rewrite !bool_decide_false by done. cbn [orb]. rewrite Ht. cbn [negb].
  pose proof (handoff_redeemed (jwt s) e2 r' target resp handoff (so_handoffStore st2) hs' [] e3 Hjti Hfresh Hmint
    (Forall_nil_2 _) Hle Hlt) as Hred. cbn [run_ops foldl] in Hred.
  unfold on_handoff. cbn [so_handoffStore]. by destruct (RedeemHandoff _ _ _ _ hs') as [? ?]; cbn in Hred; subst.
Qed.
End social.

(** ** Examples *)

Section examples.
#[local] Existing Instances toy_jwt binary_uuid_text ascii_case toy_kdf toy_jwt_laws toy_kdf_laws.
#[local] Existing Instance identity_sha256.

(** A table of identities, unique per provider and subject, that may be down for
    writes. *)
Record identity_table : Type := { rows : gmap (string * string) UserIdentity; read_only : bool }.
Definition table_upsert (ui : UserIdentity) : prog identity_table aerr UserIdentity := λ t,
  if read_only t then (Err (Errorf "read-only transaction"), t)
  else
    let key := (ui_Provider ui, ui_ProviderSub ui) in
    let row := match rows t !! key with None => ui | Some old =>
      {| ui_ID := ui_ID old; ui_UserID := ui_UserID old; ui_Provider := ui_Provider ui; ui_ProviderSub := ui_ProviderSub ui;
         ui_Email := ui_Email ui; ui_IsVerified := ui_IsVerified ui; ui_DisplayName := ui_DisplayName ui;
         ui_AvatarURL := ui_AvatarURL ui; ui_RawClaims := ui_RawClaims ui; ui_CreatedAt := ui_CreatedAt old;
         ui_UpdatedAt := ui_UpdatedAt ui |} end in
    (Ok row, {| rows := <[key := row]> (rows t); read_only := false |}).
#[local] Instance identity_table_store : SocialStore identity_table := {|
  ss_UpsertUserIdentity := λ _ _ ui, table_upsert ui;
  ss_GetUserIdentityByProviderSub := λ p sub t,
    (match rows t !! (p, sub) with Some row => Ok row | None => Err (Errorf "no rows") end, t);
  ss_GetUserIdentityByEmail := λ _ t, (Err (Errorf "no rows"), t);
  ss_ListUserIdentitiesByUser := λ _ t, (Ok [], t);
  ss_DeleteUserIdentity := λ _ t, (Ok tt, t) |}.

#[local] Instance toy_idp : IdPLib := {|
  OIDCProvider := string; provider_Endpoint := λ p, {| AuthURL := p; TokenURL := p; Style := AuthStyleAutoDetect |};
  AuthCodeURL := λ cfg st _, AuthURL (o2_Endpoint cfg) +:+ "?state=" +:+ st;
  ECKey := unit; pem_Decode := λ _, None; ParsePKCS8PrivateKey := λ _, None; ParseECPrivateKey := λ _, None;
  SignedStringES256 := λ _ _ _, None; EqualFold := λ a b, bool_decide (a = b);
  decode_apple_user := λ _, None; decode_x_user := λ _, None; decode_facebook_user := λ _, None |}.

Definition ex_social : SocialAuthService :=
  RegisterOIDCProvider (NewSocialAuthService ex_manager "https://platform/" ["https://app"]) "google" "id" "secret".
(** A provider whose codes are the e-mails they stand for. *)
Definition ex_outside : Outside := {|
  Exchange := λ _ code _, Some {| tk_AccessToken := "at"; tk_IDToken := Some code |};
  NewProvider := Some;
  Verify := λ _ _ raw, Some (Some {["sub" := JString "42"; "email" := JString raw; "email_verified" := JBool true]});
  Do := λ _, None; Getenv := λ _, ""; ReadFile := λ _, None; rand_Read := Some "0123456789abcdef";
  GenerateVerifier := "verifier" |}.
Definition ex_identity (verified : bool) : Identity :=
  {| id_Provider := "google"; id_ProviderSub := "42"; id_Email := "ada@example.org"; id_EmailVerified := verified;
     id_DisplayName := "Ada"; id_AvatarURL := ""; id_RawClaims := "" |}.
Definition google_identity : Identity :=
  claimsToIdentity "google" {["sub" := JString "42"; "email" := JString "ada@example.org"; "email_verified" := JBool true]}.
Definition empty_state (ro : bool) (b : memoryState) :
    SocialState (St := memoryState) (SSt := identity_table) (HS := InMemoryHandoffStore) :=
  {| social := {| rows := ∅; read_only := ro |}; users := b; so_handoffStore := NewInMemoryHandoffStore |}.
Definition provisioned (ro : bool) (i : Identity) (b : memoryState) :=
  run no_response (Provision ex_social (ex_env 20 7) (ex_rand "s") i (empty_state ro b)).

Lemma toy_text_nonempty alg kid c key : toy_text alg kid c key ≠ "".
Proof. intros Heq. pose proof (toy_read_text alg kid c key) as Hr. rewrite Heq in Hr. by vm_compute in Hr. Qed.

Lemma provisioned_run ro i b :
  match Provision ex_social (ex_env 20 7) (ex_rand "s") i (empty_state ro b) with
  | (Ok resp, st') => resp = (provisioned ro i b).1 ∧ st' = (provisioned ro i b).2
  | (Err _, st') => st' = (provisioned ro i b).2
  end.
Proof. unfold provisioned. by destruct (Provision _ _ _ _ _) as [[resp|err] st']. Qed.
Lemma provisioned_Ok i b :
  is_Ok (Provision ex_social (ex_env 20 7) (ex_rand "s") i (empty_state false b)).1 = true →
  Provision ex_social (ex_env 20 7) (ex_rand "s") i (empty_state false b) =
  (Ok (provisioned false i b).1, (provisioned false i b).2).
Proof.
  pose proof (provisioned_run false i b) as Hr. destruct (Provision _ _ _ _ _) as [[resp|err] st']; [|done].
  by destruct Hr as [-> ->].
Qed.
Lemma provisioned_Err i b err :
  (Provision ex_social (ex_env 20 7) (ex_rand "s") i (empty_state true b)).1 = Err err →
  Provision ex_social (ex_env 20 7) (ex_rand "s") i (empty_state true b) = (Err err, (provisioned true i b).2).
Proof.
  pose proof (provisioned_run true i b) as Hr. destruct (Provision _ _ _ _ _) as [[resp|err'] st']; [done|].
  intros [= ->]. by rewrite Hr.
Qed.
Lemma enters i : i = google_identity ∨ i = ex_identity true ∨ i = ex_identity false →
  is_Ok (Provision ex_social (ex_env 20 7) (ex_rand "s") i (empty_state false NewMemoryBackend)).1 = true.
Proof. intros [-> | [-> | ->]]; by vm_compute. Qed.

Lemma entered_account_witness :
  let st := empty_state false NewMemoryBackend in
  let st' := (provisioned false (ex_identity true) NewMemoryBackend).2 in
  let u := resp_User (provisioned false (ex_identity true) NewMemoryBackend).1 in
  (usersByID (users st) !! u_ID u = Some u ∧
     ((∃ row, (ss_GetUserIdentityByProviderSub "google" "42" (social st)).1 = Ok row ∧ ui_UserID row = u_ID u) ∨
      (true = true ∧ email_of (ex_identity true) ≠ "" ∧ u_Email u = normalized (email_of (ex_identity true))))) ∨
  (usersByID (users st) !! u_ID u = None ∧ usersByID (users st') !! u_ID u = Some u ∧
     ∀ fips p, PasswordHasher.Verify (PasswordHasher.NewPolicyHasher fips) p (u_PasswordHash u) ≠ Returns (Ok true)).
Proof.
  refine (entered_account ex_social (ex_env 20 7) (ex_rand "s") (ex_identity true) (empty_state false NewMemoryBackend)
    (provisioned false (ex_identity true) NewMemoryBackend).2 (provisioned false (ex_identity true) NewMemoryBackend).1
    _ _ _ _); [apply ex_has_key|apply NewMemoryBackend_wf|apply lookup_empty|].
  apply provisioned_Ok, enters; auto.
Defined.

Lemma social_refresh_lost_witness :
  let resp := (provisioned false (ex_identity false) NewMemoryBackend).1 in
  let st' := (provisioned false (ex_identity false) NewMemoryBackend).2 in
  is_Some (refreshTokens (users st') !! HashToken (RefreshToken resp)) ∧
  ∃ b, Service_RefreshToken ex_service (ex_env 30 9) (ex_rand "t") (RefreshToken resp) (users st') =
    (Err (Wrapf "get company membership" (Errorf "membership not found")), b) ∧
    refreshTokens b !! HashToken (RefreshToken resp) = None.
Proof.
  apply (social_refresh_lost ex_service ex_social (ex_env 20 7) (ex_rand "s") (ex_identity false)
    (empty_state false NewMemoryBackend) (provisioned false (ex_identity false) NewMemoryBackend).2
    (provisioned false (ex_identity false) NewMemoryBackend).1 (ex_env 30 9) (ex_rand "t"));
    [apply ex_has_key|reflexivity|apply provisioned_Ok, enters; by auto|vm_compute; reflexivity..|vm_compute; discriminate].
Defined.

Lemma preregistered_account_shared_witness :
  ∃ resp b1 st2 b3,
    SignUp (St := memoryState) (Tx := memoryState) any_address ex_stamp ex_service (ex_env 10 1) (ex_rand "a")
      "ada@example.org" "password" "Ada" NewMemoryBackend = (Ok resp, b1) ∧
    Provision ex_social (ex_env 20 7) (ex_rand "s") (ex_identity true) (empty_state false b1) =
      (Ok (social_response ex_social (ex_env 20 7) (ex_rand "s") (resp_User resp)), st2) ∧
    Login ex_service (ex_env 30 9) (ex_rand "b") "ada@example.org" "password" (users st2) =
      (Ok (response ex_service (ex_env 30 9) (ex_rand "b") (resp_User resp) 2 "owner" 90), b3).
Proof.
  apply (preregistered_account_shared any_address ex_stamp ex_service ex_social (ex_env 10 1) (ex_rand "a") false "salt"
    "ada@example.org" "password" "Ada" NewMemoryBackend (ex_env 20 7) (ex_rand "s") (ex_identity true) _ _ (Errorf "no rows"));
    [apply ex_has_key|done|done|done|apply ex_acceptable|done|done|done|done|done|done|done|].
  intros ui. by eexists _, _.
Defined.

Lemma placeholder_taken_witness :
  ∃ u, usersByEmail (users (provisioned true (ex_identity false) NewMemoryBackend).2) !!
      normalized (placeholder_of (ex_identity false)) = Some u ∧
  ∀ e2 r2 σ2 b2 (hs2 : InMemoryHandoffStore) err2,
    ss_GetUserIdentityByProviderSub "google" "42" σ2 = (Err err2, σ2) →
    usersByEmail b2 !! normalized (placeholder_of (ex_identity false)) = Some u →
    Provision ex_social e2 r2 (ex_identity false) {| social := σ2; users := b2; so_handoffStore := hs2 |} =
    (Err (Wrapf "create placeholder user" (Errorf "duplicate key")),
     {| social := σ2; users := b2; so_handoffStore := hs2 |}).
Proof.
  apply (placeholder_taken ex_social (ex_env 20 7) (ex_rand "s") (ex_identity false) {| rows := ∅; read_only := true |}
    NewMemoryBackend NewInMemoryHandoffStore (Errorf "no rows") (Errorf "read-only transaction")); [done|done|done|].
  apply provisioned_Err. by vm_compute.
Defined.

Lemma social_login_completes_witness :
  ∃ url stok handoff st3,
    Initiate ex_social (ex_env 10 1) (ex_rand "a") ex_outside "google" "https://app/home" = Ok (url, stok) ∧
    handleCallbackHTTP ex_social (ex_env 20 7) (ex_rand "s")
      (HandleCallback ex_social (ex_env 20 7) (ex_rand "s") ex_outside) (returning "ada@example.org" stok "")
      (empty_state false NewMemoryBackend) =
      (HttpRedirect (appendQuery (appendQuery "https://app/home" "code" handoff) "state" stok), st3) ∧
    (handleExchangeHTTP ex_social (ex_env 30 9) "POST" (Some (exchange_form handoff "https://app/home")) st3).1 =
      TokenPair (AccessToken (provisioned false (google_identity) NewMemoryBackend).1)
        (RefreshToken (provisioned false (google_identity) NewMemoryBackend).1).
Proof.
  destruct (social_login_completes (J := toy_jwt) (SSt := identity_table) (λ _ _ _, toy_text_nonempty _ _ _ _) (λ _ _, toy_text_nonempty _ _ _ _)
    ex_social (ex_env 10 1) (ex_rand "a") ex_outside "google" "https://app/home"
    {| pc_Provider := "google"; pc_IssuerURL := "https://accounts.google.com"; pc_ClientID := "id";
       pc_ClientSecret := "secret"; pc_Scopes := oidcScopes; pc_UsesPKCE := false |} "0123456789abcdef")
    as (url & stok & Hinit & Hne & Hback);
    [apply ex_has_key|done|by apply (bool_decide_unpack _)|left; by eexists|done|done|by apply (bool_decide_unpack _)|].
  destruct (Hback (ex_env 20 7) (ex_rand "s") ex_outside "ada@example.org" "" (empty_state false NewMemoryBackend)
    (provisioned false google_identity NewMemoryBackend).2 google_identity (provisioned false google_identity NewMemoryBackend).1)
    as (handoff & st3 & Hcb & Hex); [done|done|done|apply provisioned_Ok, enters; by auto|by split; [|apply (bool_decide_unpack _)]|done|done|].
  exists url, stok, handoff, st3. split; [exact Hinit|]. split; [exact Hcb|]. apply Hex; by apply (bool_decide_unpack _).
Defined.
End examples.
