(* ===== verification/Registry.v ===== *)
(** * Modules and adapters (platform/registry and platform/bridge)

    registry.go: what the modules of a product register and what a company sees of it;
    bridge.go: adapters by subject prefix and the treatment of one event.  The stream
    of events itself is NATS's. *)

From S2P Require Import Prelude Encoding.

(** ** registry.go *)

Record NavItem : Type := { n_ID : string; n_Label : string; n_Icon : string; n_Path : string; n_Feature : string; n_Priority : Z; n_Section : string }.
Record Widget : Type := { wd_ID : string; wd_Label : string; wd_Type : string; wd_Feature : string; wd_Priority : Z }.
Record SearchScope : Type := { ss_ID : string; ss_Label : string; ss_Feature : string }.
Record ModuleRegistration : Type := {
  mod_Name : string; NavItems : list NavItem; Widgets : list Widget; SearchScopes : list SearchScope; BadgeProvider : option (string → string → Z)
}.
Abbreviation Registry := (gmap string ModuleRegistration) (only parsing).
Definition Register (reg : ModuleRegistration) (r : Registry) : Registry := <[mod_Name reg := reg]> r.
Section registry.
Context (e : Env).
(** The items of the modules, in the order of the map, whose feature is none or enabled. *)
Definition visible {A} (enabledFeatures : gset string) (feature : A → string) (items : list A) : list A :=
  filter (λ i, feature i = "" ∨ feature i ∈ enabledFeatures) items.
Definition modules_of (r : Registry) : list ModuleRegistration := (range (MapRange := order e) r).*2.
Definition GetNavItems (enabledFeatures : gset string) (r : Registry) : list NavItem :=
  modules_of r ≫= λ m, visible enabledFeatures n_Feature (NavItems m).
Definition GetWidgets (enabledFeatures : gset string) (r : Registry) : list Widget :=
  modules_of r ≫= λ m, visible enabledFeatures wd_Feature (Widgets m).
Definition GetSearchScopes (enabledFeatures : gset string) (r : Registry) : list SearchScope :=
  modules_of r ≫= λ m, visible enabledFeatures ss_Feature (SearchScopes m).
End registry.
Definition GetBadgeCounts (companyID userID : string) (r : Registry) : gmap string Z :=
  omap (λ m, (λ provider : string → string → Z, provider companyID userID) <$> BadgeProvider m) r.

(** ** bridge.go *)

Record ActionSchema : Type := { as_Type : string; as_Label : string; RequiresInput : bool; InputHint : string; Destructive : bool }.
Record EventEnvelope : Type := {
  ee_AppName : string; ee_EventID : string; ee_EventType : string; ee_CompanyID : string; ee_UserID : string; ee_Timestamp : time; ee_Data : string
}.
Record TransformedEvent : Type := { te_EventType : string; te_SourceID : string; te_CompanyID : string; te_Data : string }.
(** [Transform] fails, or yields an event or none. *)
Record Adapter : Type := {
  EventTypes : list string; Transform : string → EventEnvelope → option (option TransformedEvent);
  ActionTypes : list ActionSchema; SupportsAction : string → bool
}.
Record AdapterRegistry : Type := { adapters : gmap string Adapter; eventTypes : gmap string Adapter }.
Definition NewAdapterRegistry : AdapterRegistry := {| adapters := ∅; eventTypes := ∅ |}.
Definition bridge_Register (prefix : string) (adapter : Adapter) (r : AdapterRegistry) : AdapterRegistry :=
  {| adapters := <[prefix := adapter]> (adapters r);
     eventTypes := foldl (λ m et, <[et := adapter]> m) (eventTypes r) (EventTypes adapter) |}.
Definition ListAll (r : AdapterRegistry) : gmap string Adapter := adapters r.
Definition FindAdapterForAction (e : Env) (actionType : string) (r : AdapterRegistry) : option Adapter :=
  head (filter (λ a, SupportsAction a actionType = true) (range (MapRange := order e) (adapters r)).*2).
(** One iteration: the best adapter so far, with the length of its prefix. *)
Definition longer_prefix (subject : string) (best : option Adapter * nat) (entry : string * Adapter) : option Adapter * nat :=
  if String.prefix entry.1 subject && bool_decide (best.2 < String.length entry.1)%nat then (Some entry.2, String.length entry.1) else best.
Definition FindAdapter (e : Env) (subject : string) (r : AdapterRegistry) : option Adapter :=
  (foldl (longer_prefix subject) (None, 0%nat) (range (MapRange := order e) (adapters r))).1.

(** What becomes of a message, and the event the handler was called with, if it was. *)
Inductive reply : Type := Ack | Nak.
#[export] Instance reply_eq_dec : EqDecision reply.
Proof. solve_decision. Defined.
Definition processMessage (decode : string → option EventEnvelope) (e : Env) (handle : option (string → TransformedEvent → bool))
    (subject data : string) (r : AdapterRegistry) : reply * option TransformedEvent :=
  match FindAdapter e subject r with
  | None => (Nak, None)
  | Some adapter =>
      match decode data with
      | None => (Nak, None)
      | Some envelope =>
          match Transform adapter subject envelope with
          | None => (Nak, None)
          | Some None => (Ack, None)
          | Some (Some ev) =>
              match handle with
              | None => (Ack, None)
              | Some h => (if h subject ev then Ack else Nak, Some ev)
              end
          end
      end
  end.
