(* ===== verification/Gateway.v ===== *)
(** * The way into the services (platform/server, platform/adminauth, platform/membership)

    interceptors.go and router.go: what a request to a service passes through;
    tenant_scope.go and adminauth: the same for administrators; health.go; and the
    resolver of platform/membership.  A handler is a program that takes the context of
    a request and the request. *)

From S2P Require Import Prelude Encoding AuditLog Rbac Auth.

(** ** connect.Error *)

(** A call whose error the caller inspects. *)
Definition attempt {St X E A} (m : prog St X A) : prog St E (outcome X A) := λ s, let '(r, s') := m s in (Ok r, s').

Inductive Code : Type :=
  | CodeCanceled
  | CodeInvalidArgument
  | CodeNotFound
  | CodePermissionDenied
  | CodeUnimplemented
  | CodeInternal
  | CodeUnauthenticated.
#[export] Instance Code_eq_dec : EqDecision Code.
Proof. solve_decision. Defined.
Definition Code_String (c : Code) : string :=
  match c with
  | CodeCanceled => "canceled"
  | CodeInvalidArgument => "invalid_argument"
  | CodeNotFound => "not_found"
  | CodePermissionDenied => "permission_denied"
  | CodeUnimplemented => "unimplemented"
  | CodeInternal => "internal"
  | CodeUnauthenticated => "unauthenticated"
  end.
(** The message is empty when there is no underlying error. *)
Record connect_error : Type := { code : Code; message : string }.
Definition NewError (c : Code) (msg : string) : connect_error := {| code := c; message := msg |}.
Definition connect_Error (err : connect_error) : string :=
  if bool_decide (message err = "") then Code_String (code err) else Code_String (code err) +:+ ": " +:+ message err.

(** ** adminauth/identity.go and mtls/peer.go *)

Record AdminIdentity : Type := { SubjectCN : string; ai_TenantID : uuid; IsSuperAdmin : bool; ai_Roles : list string }.
Definition AdminIdentity_IsZero (a : AdminIdentity) : bool :=
  bool_decide (SubjectCN a = "") && bool_decide (ai_TenantID a = uuid_Nil) && negb (IsSuperAdmin a) && bool_decide (ai_Roles a = []).
Definition HasTenantAccess (a : AdminIdentity) (targetTenantID : uuid) : bool :=
  if IsSuperAdmin a then true else bool_decide (ai_TenantID a ≠ uuid_Nil) && bool_decide (ai_TenantID a = targetTenantID).
Definition HasRole (a : AdminIdentity) (name : string) : bool := any (λ r, bool_decide (r = name)) (ai_Roles a).
Inductive admin_error : Type := ErrMissingCN | ErrUnknownAdmin.
#[export] Instance admin_error_eq_dec : EqDecision admin_error.
Proof. solve_decision. Defined.
Definition admin_text (err : admin_error) : string :=
  match err with ErrMissingCN => "adminauth: missing mTLS peer CN" | ErrUnknownAdmin => "adminauth: unknown admin CN" end.

(** The verified chains of a connection, as the subjects and the URIs of their
    certificates. *)
Record peer_cert : Type := { CommonName : string; URIs : list (option (string * string)) }.
Abbreviation ConnectionState := (list (list peer_cert)) (only parsing).
Definition leaf_of (state : option ConnectionState) : option peer_cert :=
  match state with Some ((leaf :: _) :: _) => Some leaf | _ => None end.
Definition ErrNoVerifiedChain : string := "mtls: no verified chain in connection state".
Definition ExtractPeerCommonName (state : option ConnectionState) : outcome string string :=
  match leaf_of state with None => Err ErrNoVerifiedChain | Some leaf => Ok (CommonName leaf) end.
(** A URI is its scheme and its text. *)
Definition ExtractPeerSPIFFEID (state : option ConnectionState) : outcome string string :=
  match leaf_of state with
  | None => Err ErrNoVerifiedChain
  | Some leaf =>
      match head (omap (λ u : option (string * string), u ≫= λ '(scheme, text), if bool_decide (scheme = "spiffe") then Some text else None) (URIs leaf)) with
      | None => Err "mtls: no SPIFFE URI SAN in leaf cert"
      | Some text => Ok text
      end
  end.

(** ** interceptors.go *)

(** What a request carries from one handler to the next. *)
Record Ctx : Type := { ctx_claims : option Claims; ctx_admin : option AdminIdentity; ctx_tls : option ConnectionState }.
Definition background : Ctx := {| ctx_claims := None; ctx_admin := None; ctx_tls := None |}.
Definition WithClaims (c : Claims) (ctx : Ctx) : Ctx := {| ctx_claims := Some c; ctx_admin := ctx_admin ctx; ctx_tls := ctx_tls ctx |}.
Definition WithAdminIdentity (a : AdminIdentity) (ctx : Ctx) : Ctx := {| ctx_claims := ctx_claims ctx; ctx_admin := Some a; ctx_tls := ctx_tls ctx |}.
(** [tls] is what the server knows of the connection: none without TLS. *)
Definition WithTLSConnectionState (tls : option ConnectionState) (ctx : Ctx) : Ctx :=
  match tls with None => ctx | Some s => {| ctx_claims := ctx_claims ctx; ctx_admin := ctx_admin ctx; ctx_tls := Some s |} end.
Record AnyRequest (Msg : Type) : Type := { Procedure : string; Header : gmap string string; Any : Msg }.
Arguments Procedure {Msg} _.
Arguments Header {Msg} _.
Arguments Any {Msg} _.
Arguments Build_AnyRequest {Msg} _ _ _.
(** A unary handler; a streaming one has [unit] for its response. *)
Definition UnaryFunc (St Msg Resp : Type) : Type := Ctx → AnyRequest Msg → prog St connect_error Resp.
Definition header {Msg} (k : string) (req : AnyRequest Msg) : string := default "" (Header req !! k).

Record ProcPermission : Type := { pp_Feature : string; pp_Action : string }.
Record InterceptorConfig : Type := { PublicProcedures : gmap string bool; ProcedurePermissions : gmap string ProcPermission }.
Definition is_public (public : gmap string bool) (procedure : string) : bool := default false (public !! procedure).
Definition ExtractClaims (ctx : Ctx) : string * string * string :=
  match ctx_claims ctx with None => ("", "", "") | Some c => (c_UserID c, c_CompanyID c, c_Role c) end.

Section interceptors.
Context {J : JWTLib} (EqualFold : string → string → bool).
Context {St Msg Resp : Type}.
Abbreviation handler := (UnaryFunc St Msg Resp) (only parsing).

(** The token of [strings.SplitN(h, " ", 2)]. *)
Definition bearer (h : string) : option string :=
  match split_on " " h with
  | scheme :: (_ :: _) as rest => if EqualFold scheme "bearer" then Some (strings_Join " " rest) else None
  | _ => None
  end.
Definition authInterceptor (e : Env) (jm : JWTManager) (public : gmap string bool) (next : handler) : handler := λ ctx req,
  if is_public public (Procedure req) then next ctx req
  else
    let authHeader := header "Authorization" req in
    if bool_decide (authHeader = "") then throw (NewError CodeUnauthenticated "")
    else match bearer authHeader with
         | None => throw (NewError CodeUnauthenticated "")
         | Some token =>
             match ValidateAccessToken e jm token with
             | Err _ => throw (NewError CodeUnauthenticated "")
             | Ok claims => next (WithClaims claims ctx) req
             end
         end.

(** [check] is the enforcer's [HasPermission]. *)
Definition rbacInterceptor {X} {U : UuidText} (check : uuid → uuid → string → prog St X bool) (cfg : InterceptorConfig) (next : handler) : handler :=
  λ ctx req,
  if is_public (PublicProcedures cfg) (Procedure req) then next ctx req
  else
    match ProcedurePermissions cfg !! Procedure req with
    | None => next ctx req
    | Some perm =>
        match ctx_claims ctx with
        | None => throw (NewError CodeUnauthenticated "")
        | Some claims =>
            match uuid_Parse (c_UserID claims), uuid_Parse (c_CompanyID claims) with
            | Some userID, Some companyID =>
                allowed ← attempt (check userID companyID (pp_Feature perm +:+ ":" +:+ pp_Action perm));
                match allowed with
                | Err _ => throw (NewError CodeInternal "permission check failed")
                | Ok false => throw (NewError CodePermissionDenied "insufficient permissions")
                | Ok true => next ctx req
                end
            | _, _ => throw (NewError CodeUnauthenticated "")
            end
        end
    end.

(** The service and the method of a procedure. *)
Definition audit_names (procedure : string) : string * string :=
  match split_on "/" (trim_prefix "/" procedure) with
  | [resource; action] => (resource, action)
  | _ => ("unknown", "unknown")
  end.
Definition audit_event (claims : Claims) (req : AnyRequest Msg) (res : outcome connect_error Resp) : Event :=
  let details : gmap string detail :=
    match res with
    | Err err => {["procedure" := DString (Procedure req); "error" := DString (connect_Error err); "status" := DString "error"]}
    | Ok _ => {["procedure" := DString (Procedure req); "status" := DString "success"]}
    end in
  event (c_CompanyID claims) (c_UserID claims) (audit_names (Procedure req)).2 (audit_names (Procedure req)).1 "" details (header "X-Forwarded-For" req).
(** [log] hands an event to the logger. *)
Definition auditInterceptor (log : Event → St → St) (public : gmap string bool) (next : handler) : handler := λ ctx req,
  if is_public public (Procedure req) then next ctx req
  else
    res ← try (next ctx req);
    _ ← match ctx_claims ctx with
        | None => mret tt
        | Some claims => modify (log (audit_event claims req res))
        end;
    of_outcome res.

(** ** tenant_scope.go and adminauth/interceptor.go *)

(** The outcome of the extractor is the tenant, or the text of its error; the two
    tests of [target] are the texts of the two errors. *)
Definition admin_resolver : Type := string → outcome (goerr admin_error) AdminIdentity.
Definition AdminContextInterceptor (resolver : admin_resolver) (next : handler) : handler := λ ctx req,
  match ctx_tls ctx with
  | None => throw (NewError CodeInternal "adminauth: TLS state missing — wire WithTLSConnectionState before Connect mux")
  | Some _ =>
      match ExtractPeerCommonName (ctx_tls ctx) with
      | Err err => throw (NewError CodeUnauthenticated ("adminauth: cn extract: " +:+ err))
      | Ok cn =>
          if bool_decide (cn = "") then throw (NewError CodeUnauthenticated (admin_text ErrMissingCN))
          else match resolver cn with
               | Err err =>
                   if errors_Is err ErrUnknownAdmin then throw (NewError CodePermissionDenied (Error_text admin_text err))
                   else throw (NewError CodeInternal ("adminauth: resolver: " +:+ Error_text admin_text err))
               | Ok found => next (WithAdminIdentity found ctx) req
               end
      end
  end.
Definition ErrNoTargetTenant : string := "server: request has no target tenant_id".
Definition ErrCrossTenantAccess : string := "server: cross-tenant access denied".
(** [dedicated] is [uuid.Nil] without the option. *)
Definition TenantScopeInterceptor {U : UuidText} (extractor : AnyRequest Msg → outcome string uuid) (dedicated : uuid) (next : handler) : handler := λ ctx req,
  match ctx_admin ctx with
  | None => throw (NewError CodeUnauthenticated
      "server: tenant_scope interceptor requires admin identity in context — chain NewAdminContextInterceptor first")
  | Some admin =>
      if bool_decide (dedicated ≠ uuid_Nil) then
        match extractor req with
        | Err err => throw (NewError CodeInvalidArgument ("server: tenant_id extract: " +:+ err))
        | Ok target =>
            if bool_decide (target = uuid_Nil) then next ctx req
            else if bool_decide (target ≠ dedicated) then
              throw (NewError CodePermissionDenied
                ("server: dedicated-mode: target tenant " +:+ uuid_String target +:+ " != dedicated " +:+ uuid_String dedicated))
            else next ctx req
        end
      else if IsSuperAdmin admin then next ctx req
      else
        match extractor req with
        | Err err => throw (NewError CodeInvalidArgument ("server: tenant_id extract: " +:+ err))
        | Ok target =>
            if bool_decide (target = uuid_Nil) then throw (NewError CodeInvalidArgument ErrNoTargetTenant)
            else if negb (HasTenantAccess admin target) then
              throw (NewError CodePermissionDenied
                (ErrCrossTenantAccess +:+ ": admin tenant=" +:+ uuid_String (ai_TenantID admin) +:+ " target tenant=" +:+ uuid_String target))
            else next ctx req
        end
  end.
End interceptors.

(** ** health.go and middleware.go *)

(** The checks of the components: the text of an error, or none. *)
Definition HealthCheck (components : gmap string (option string)) : string * gmap string string :=
  (if bool_decide (map_Forall (λ _ r, r = None) components) then "healthy" else "degraded",
   (λ r : option string, match r with None => "healthy" | Some err => "unhealthy: " +:+ err end) <$> components).
Definition health_status (components : gmap string (option string)) : Z :=
  if bool_decide ((HealthCheck components).1 = "healthy") then 200 else 503.

(** ** platform/membership *)

Record MembershipRecord : Type := { mr_CompanyID : uuid; mr_UserID : uuid; mr_RoleID : uuid; mr_RoleName : string; mr_RoleLevel : Z }.
Record AncestorInfo : Type := { an_CompanyID : uuid; an_Generations : Z; InheritRoleCap : option Z; AccessLevel : option string }.
Abbreviation merr := (goerr Empty_set) (only parsing).
Class MembershipStore (St : Type) : Type := {
  GetDirectMembership : St → uuid → uuid → outcome merr (option MembershipRecord);
  GetCompanyAncestorChain : St → uuid → outcome merr (list AncestorInfo);
  ListUserCompanyIDs : St → uuid → outcome merr (list uuid);
}.
Section membership.
Context {U : UuidText} {St : Type} {S : MembershipStore St}.

(** One iteration of the walk: [None] is [continue]. *)
Definition via_ancestor (st : St) (companyID userID : uuid) (ancestor : AncestorInfo) : option ResolvedMembership :=
  match GetDirectMembership st (an_CompanyID ancestor) userID with
  | Err _ | Ok None => None
  | Ok (Some m) =>
      let effectiveLevel := match InheritRoleCap ancestor with
                            | Some cap => if bool_decide (cap < mr_RoleLevel m)%Z then cap else mr_RoleLevel m
                            | None => mr_RoleLevel m
                            end in
      let accessLevel := default "full" (AccessLevel ancestor) in
      if bool_decide (accessLevel = "none") then None
      else Some {| rm_CompanyID := companyID; rm_UserID := userID; rm_RoleLevel := mr_RoleLevel m; rm_RoleName := mr_RoleName m;
                   rm_SourceCompany := an_CompanyID ancestor; rm_IsDirect := false; rm_CappedLevel := effectiveLevel; rm_AccessLevel := accessLevel |}
  end.
Definition Resolve (st : St) (companyID userID : uuid) : outcome merr ResolvedMembership :=
  match GetDirectMembership st companyID userID with
  | Ok (Some direct) =>
      Ok {| rm_CompanyID := companyID; rm_UserID := userID; rm_RoleLevel := mr_RoleLevel direct; rm_RoleName := mr_RoleName direct;
            rm_SourceCompany := companyID; rm_IsDirect := true; rm_CappedLevel := mr_RoleLevel direct; rm_AccessLevel := "full" |}
  | _ =>
      match GetCompanyAncestorChain st companyID with
      | Err err => Err (Wrapf "get ancestors" err)
      | Ok ancestors =>
          match head (omap (via_ancestor st companyID userID) ancestors) with
          | Some r => Ok r
          | None => Err (Errorf ("no membership found for user " +:+ uuid_String userID +:+ " in company " +:+ uuid_String companyID +:+ " hierarchy"))
          end
      end
  end.
Definition ListAccessibleCompanies (st : St) (userID : uuid) : outcome merr (list uuid) := ListUserCompanyIDs st userID.
End membership.
