(* ===== verification/GatewayProofs.v ===== *)
(** * Properties of the way in and of the adapters

    Administrators reach exactly what the tenant scope allows; the adapter of a subject
    is the one with the longest prefix; the two resolvers of memberships agree. *)

From S2P Require Import Prelude Encoding Rbac Auth Gateway Registry.

(** ** Administrators *)

Section administrators.
Context {U : UuidText} {St Msg Resp : Type}.
Implicit Types (extractor : AnyRequest Msg → outcome string uuid) (next : UnaryFunc St Msg Resp) (a : AdminIdentity).

(** The administrator of a connection: the resolver's for the name in its certificate. *)
Definition identified (resolver : admin_resolver) (ctx : Ctx) (a : AdminIdentity) : Prop :=
  ∃ leaf, leaf_of (ctx_tls ctx) = Some leaf ∧ CommonName leaf ≠ "" ∧ resolver (CommonName leaf) = Ok a.
(** What the scope lets him do. *)
Definition in_scope extractor (dedicated : uuid) (a : AdminIdentity) (req : AnyRequest Msg) : Prop :=
  if bool_decide (dedicated = uuid_Nil) then
    IsSuperAdmin a = true ∨ (extractor req = Ok (ai_TenantID a) ∧ ai_TenantID a ≠ uuid_Nil)
  else extractor req = Ok uuid_Nil ∨ extractor req = Ok dedicated.

Lemma scope_exact extractor dedicated next ctx req a s :
  ctx_admin ctx = Some a →
  (in_scope extractor dedicated a req ∧ TenantScopeInterceptor extractor dedicated next ctx req s = next ctx req s) ∨
  (¬ in_scope extractor dedicated a req ∧
   ∃ err, TenantScopeInterceptor extractor dedicated next ctx req s = (Err err, s) ∧ code err ∈ [CodeInvalidArgument; CodePermissionDenied]).
Proof.
  intros Ha. unfold TenantScopeInterceptor, in_scope. rewrite Ha. destruct (decide (dedicated = uuid_Nil)) as [Hd|Hd].
  - rewrite (bool_decide_false (dedicated ≠ uuid_Nil)), bool_decide_true by (done || tauto). destruct (IsSuperAdmin a) eqn:Hsuper; [left; split; [by left|done]|].
    destruct (extractor req) as [t|err]; [|right; split; [by intros [|[]]|eexists; split; [done|set_solver]]].
    case_bool_decide as Ht; [right; split; [intros [|[[= ->] ?]]; done|eexists; split; [done|set_solver]]|].
    unfold HasTenantAccess. rewrite Hsuper. destruct (bool_decide (ai_TenantID a ≠ uuid_Nil) && _) eqn:Hacc; cbn [negb].
    + apply andb_true_iff in Hacc as [Hn%bool_decide_eq_true He%bool_decide_eq_true]. left. split; [right; by subst t|done].
    + right. split; [|eexists; split; [done|set_solver]]. intros [|[[= ->] Hn]]; [done|].
      by rewrite !bool_decide_true in Hacc.
  - rewrite (bool_decide_true (dedicated ≠ uuid_Nil)), bool_decide_false by done.
    destruct (extractor req) as [t|err]; [|right; split; [intros []; congruence|eexists; split; [done|set_solver]]].
    case_bool_decide as Ht; [subst; left; split; [by left|done]|].
    case_bool_decide as Ht'; [right; split; [intros [[= ->]|[= ->]]; done|eexists; split; [done|set_solver]]|].
    left. split; [right|done]. destruct (decide (t = dedicated)) as [->|]; [done|by destruct Ht'].
Qed.

(** C13: behind the two interceptors a handler runs exactly for the requests of an
    administrator the certificate names and the scope admits.  Without a dedicated
    tenant that is a super administrator, or a request for the administrator's own
    tenant; with one it is any request for that tenant or for none, whoever the
    administrator is: his own tenant is not compared.  Every other request is refused
    before anything happens. *)
Theorem administrators_exact resolver extractor dedicated next ctx req s :
  let chain := AdminContextInterceptor resolver (TenantScopeInterceptor extractor dedicated next) in
  (∃ a, identified resolver ctx a ∧ in_scope extractor dedicated a req ∧ chain ctx req s = next (WithAdminIdentity a ctx) req s) ∨
  ((∀ a, identified resolver ctx a → ¬ in_scope extractor dedicated a req) ∧ ∃ err, chain ctx req s = (Err err, s)).
Proof.
  cbv zeta. unfold AdminContextInterceptor, ExtractPeerCommonName, identified.
  destruct (ctx_tls ctx) as [tls|] eqn:Htls; [|right; split; [by intros a (leaf & [=] & _)|by eexists]].
  destruct (leaf_of (Some tls)) as [leaf|]; [|right; split; [by intros a (leaf & [=] & _)|by eexists]].
  case_bool_decide as Hcn; [right; split; [by intros a (l & [= <-] & Hl & _)|by eexists]|].
  destruct (resolver (CommonName leaf)) as [a|err] eqn:Hr.
  - destruct (scope_exact extractor dedicated next (WithAdminIdentity a ctx) req a s eq_refl) as [[Hin Hrun]|[Hout (err & Hrun & _)]].
    + left. exists a. split_and!; [by exists leaf|done|done].
    + right. split; [|by eexists]. intros a' (l & [= <-] & _ & Ha'). congruence.
  - right. split; [intros a (l & [= <-] & _ & Ha); congruence|]. case_match; by eexists.
Qed.
End administrators.

(** ** Adapters *)

Section adapters.
Context (e : Env).

(** [p] is the longest of the prefixes of [subject] among [l], and not empty. *)
Definition longest (subject : string) (l : list (string * Adapter)) (p : string) (a : Adapter) : Prop :=
  (p, a) ∈ l ∧ String.prefix p subject = true ∧ p ≠ "" ∧
  ∀ q b, (q, b) ∈ l → String.prefix q subject = true → (String.length q ≤ String.length p)%nat.
Lemma longest_snoc subject l p a q b :
  longest subject l p a → (String.prefix q subject && bool_decide (String.length p < String.length q)%nat) = false →
  longest subject (l ++ [(q, b)]) p a.
Proof.
  intros (Hin & Hp & Hn & Hmax) Hq. split_and!; [set_solver|done|done|].
  intros q' b' [Hin'|[= -> ->]%list_elem_of_singleton]%elem_of_app Hpre; [by eapply Hmax|].
  rewrite Hpre in Hq. cbn in Hq. apply bool_decide_eq_false in Hq. lia.
Qed.
Lemma FindAdapter_fold subject l :
  match foldl (longer_prefix subject) (None, 0%nat) l with
  | (Some a, n) => ∃ p, longest subject l p a ∧ n = String.length p
  | (None, n) => n = 0%nat ∧ ∀ q b, (q, b) ∈ l → String.prefix q subject = true → q = ""
  end.
Proof.
  induction l as [|[q b] l IH] using rev_ind; [split; [done|]; intros q b Hin; by apply not_elem_of_nil in Hin|].
  rewrite foldl_app. cbn [foldl]. destruct (foldl _ _ l) as [[a|] n]; unfold longer_prefix; cbn [fst snd].
  - destruct IH as (p & Hp & ->). destruct (String.prefix q subject && _) eqn:Hq.
    + apply andb_true_iff in Hq as [Hpre Hlen%bool_decide_eq_true]. exists q. split; [|done].
      destruct Hp as (_ & _ & _ & Hmax). split_and!; [set_solver|done|by intros ->; cbn in Hlen; lia|].
      intros q' b' [Hin|[= -> ->]%list_elem_of_singleton]%elem_of_app Hq'; [|done]. specialize (Hmax q' b' Hin Hq'). lia.
    + exists p. split; [by apply longest_snoc|done].
  - destruct IH as [-> Hnone]. destruct (String.prefix q subject && _) eqn:Hq.
    + apply andb_true_iff in Hq as [Hpre Hlen%bool_decide_eq_true]. exists q. split; [|done].
      split_and!; [set_solver|done|by intros ->; cbn in Hlen; lia|].
      intros q' b' [Hin|[= -> ->]%list_elem_of_singleton]%elem_of_app Hq'; [|done]. rewrite (Hnone q' b' Hin Hq'). cbn. lia.
    + split; [done|]. intros q' b' [Hin|[= -> ->]%list_elem_of_singleton]%elem_of_app Hq'; [by eapply Hnone|].
      rewrite Hq' in Hq. cbn in Hq. apply bool_decide_eq_false in Hq. destruct q; [done|cbn in Hq; lia].
Qed.
Lemma prefix_same_length p q s :
  String.prefix p s = true → String.prefix q s = true → String.length p = String.length q → p = q.
Proof.
  revert q s. induction p as [|x p IH]; intros [|y q] s Hp Hq Hl; try done. destruct s as [|z s]; [done|]. cbn in *.
  destruct (ascii_dec x z) as [->|]; [|done]. destruct (ascii_dec y z) as [->|]; [|done]. f_equal. apply (IH q s); [done|done|lia].
Qed.
(** The adapter of a subject is the registered one with the longest prefix of the
    subject, in whatever order the map is visited; a subject no registered prefix
    matches has none, and neither has one that only the empty prefix matches. *)
Theorem FindAdapter_longest subject r a :
  FindAdapter e subject r = Some a ↔
  ∃ p, adapters r !! p = Some a ∧ String.prefix p subject = true ∧ p ≠ "" ∧
    ∀ q b, adapters r !! q = Some b → String.prefix q subject = true → (String.length q ≤ String.length p)%nat.
Proof.
  unfold FindAdapter. pose proof (FindAdapter_fold subject (range (MapRange := order e) (adapters r))) as Hf.
  destruct (foldl _ _ _) as [found n]. cbn [fst]. split.
  - intros ->. destruct Hf as (p & (Hin & Hp & Hn & Hmax) & _). exists p.
    split_and!; [by apply (elem_of_range (H := order e)) in Hin|done|done|].
    intros q b Hq. apply (Hmax q b). by apply (elem_of_range (H := order e)).
  - intros (p & Hin & Hp & Hn & Hmax). destruct found as [a'|].
    + destruct Hf as (p' & (Hin' & Hp' & Hn' & Hmax') & _). apply (elem_of_range (H := order e)) in Hin'.
      assert (p = p') as <-; [|congruence]. apply (prefix_same_length p p' subject Hp Hp').
      apply Nat.le_antisymm; [apply (Hmax' p a); [by apply (elem_of_range (H := order e))|done]|by apply (Hmax p' a')].
    + destruct Hf as [_ Hnone]. exfalso. apply Hn. apply (Hnone p a); [by apply (elem_of_range (H := order e))|done].
Qed.
End adapters.

(** ** Memberships *)

Section memberships.
Context {U : UuidText} {St1 St2 : Type} {S1 : MembershipStore St1} {S2 : RBACStore St2}.

(** The two stores have the same members and the same ancestors. *)
Definition same_member (m : Rbac.Membership) : MembershipRecord :=
  {| mr_CompanyID := m_CompanyID m; mr_UserID := m_UserID m; mr_RoleID := m_RoleID m; mr_RoleName := m_RoleName m; mr_RoleLevel := m_RoleLevel m |}.
Definition same_ancestor (a : CompanyAncestor) : AncestorInfo :=
  {| an_CompanyID := a_CompanyID a; an_Generations := a_Generations a; InheritRoleCap := a_InheritedRoleCap a; AccessLevel := a_AccessLevel a |}.
Record agree (e : Env) (st1 : St1) (st2 : St2) : Prop := {
  agree_members c u : match GetMembershipInCompany e st2 c u with
                      | Ok m => GetDirectMembership st1 c u = Ok (same_member <$> m)
                      | Err _ => is_Ok (GetDirectMembership st1 c u) = false
                      end;
  agree_ancestors c : match GetCompanyAncestors st2 c with
                      | Ok l => GetCompanyAncestorChain st1 c = Ok (same_ancestor <$> l)
                      | Err _ => is_Ok (GetCompanyAncestorChain st1 c) = false
                      end;
}.
Lemma via_agree e st1 st2 c u a :
  agree e st1 st2 → via_ancestor st1 c u (same_ancestor a) = resolve_via e st2 c u a.
Proof.
  intros Hag. unfold via_ancestor, resolve_via. pose proof (agree_members _ _ _ Hag (a_CompanyID a) u) as Hm. cbn [an_CompanyID same_ancestor].
  destruct (GetMembershipInCompany e st2 (a_CompanyID a) u) as [[m|]|err].
  - by rewrite Hm.
  - by rewrite Hm.
  - by destruct (GetDirectMembership st1 (a_CompanyID a) u).
Qed.
(** C0: over stores that agree on members and ancestors, the resolver of platform/membership
    and the one of platform/rbac resolve alike: the same membership, or no membership in both. *)
Theorem resolvers_agree e st1 st2 c u :
  agree e st1 st2 →
  ∀ r, Resolve st1 c u = Ok r ↔ ResolveMembership e st2 c u = Ok r.
Proof.
  intros Hag r. pose proof (agree_members _ _ _ Hag c u) as Hm. pose proof (agree_ancestors _ _ _ Hag c) as Ha.
  assert (∀ l, head (omap (via_ancestor st1 c u) (same_ancestor <$> l)) = walk_ancestors e st2 c u l) as Hwalk.
  { induction l as [|a l IH]; [done|]. rewrite fmap_cons. cbn [omap list_omap walk_ancestors]. rewrite (via_agree e st1 st2) by done.
    by destruct (resolve_via e st2 c u a). }
  assert (∀ msg msg',
    match GetCompanyAncestorChain st1 c with
    | Err err => Err (Wrapf "get ancestors" err)
    | Ok l => match head (omap (via_ancestor st1 c u) l) with Some x => Ok x | None => Err (Errorf msg) end
    end = Ok r ↔
    match GetCompanyAncestors st2 c with
    | Err err => Err (Wrapf "get company ancestors" err)
    | Ok l => match walk_ancestors e st2 c u l with Some x => Ok x | None => Err (Errorf msg') end
    end = Ok r) as Hrest.
  { intros msg msg'. destruct (GetCompanyAncestors st2 c) as [l|err].
    - rewrite Ha, Hwalk. by destruct (walk_ancestors e st2 c u l); split; intros [= ->].
    - by destruct (GetCompanyAncestorChain st1 c). }
  unfold Resolve, ResolveMembership.
  destruct (GetMembershipInCompany e st2 c u) as [[m|]|err].
  - rewrite Hm. by split; intros [= <-].
  - rewrite Hm. cbn [fmap option_fmap option_map]. apply Hrest.
  - destruct (GetDirectMembership st1 c u); [done|apply Hrest].
Qed.
End memberships.
