(* ===== verification/ConnectApi.v ===== *)
(** * The API of the platform (platform/connectapi and cmd/eden-platform-dev)

    The handlers of the seven services over the development backend, and the server
    that cmd/eden-platform-dev assembles: interceptors, permissions and seeds.  The
    messages are those of proto/ with the fields the handlers read and fill in. *)

From S2P Require Import Prelude Encoding AuditLog Webhook Company Rbac Password Auth Devstore Sso Registry Gateway.

(** ** Messages *)

Inductive request : Type :=
  (* AuthService *)
  | SignUpRequest (email password display_name : string)
  | LoginRequest (email password : string)
  | RefreshTokenRequest (refresh_token : string)
  | LogoutRequest (refresh_token : string)
  | InitiateOIDCRequest (company_id : string)
  | InitiateSAMLRequest (company_id : string)
  | InitiateSocialLoginRequest (provider redirect_uri : string)
  | UpdateProfileRequest (display_name avatar_url : string)
  (* CompanyService *)
  | CreateCompanyRequest (name slug company_type : string) (parent_company_id : option string) (settings_json : string)
  | GetCompanyRequest (id : string)
  | UpdateCompanyRequest (id name slug company_type : string) (inherited_role_cap : option Z)
      (inherited_access_level settings_json : option string)
  | ListCompaniesRequest
  | GetAncestorsRequest (company_id : string)
  | GetDescendantsRequest (company_id : string)
  | GetEffectiveSettingsRequest (company_id : string)
  (* RegistryService *)
  | GetNavItemsRequest (company_id : string)
  | GetWidgetsRequest (company_id : string)
  | GetSearchScopesRequest (company_id : string)
  | GetBadgeCountsRequest (company_id : string)
  (* RBACService *)
  | ListRolesRequest (company_id : string)
  | CreateRoleRequest (company_id name description : string) (level : Z) (permission_ids : list string)
  | AssignRoleRequest (company_id user_id role_id : string)
  | RemoveRoleRequest (company_id user_id role_id : string)
  | ListPermissionsRequest
  | GetUserPermissionsRequest (company_id user_id : string)
  | CheckPermissionRequest (company_id user_id feature action : string)
  | ResolveMembershipRequest (company_id user_id : string)
  (* AuditService *)
  | ListAuditLogsRequest (company_id : string) (limit offset : Z) (actor_id action resource : option string)
  | IngestBreakGlassEventRequest (original_jti : string) (original_issued_at : option (outcome string time))
      (subject tenant scope reason operator manifest_digest : string)
  (* WebhookService *)
  | RegisterWebhookRequest (company_id url : string) (events : list string)
  | ListWebhooksRequest (company_id : string)
  | DeleteWebhookRequest (id : string)
  | ListDeliveriesRequest (webhook_id : string) (limit offset : Z)
  (* BridgeService *)
  | ListAdaptersRequest
  | DispatchActionRequest (action_type : string)
  | ListActionsRequest (event_type : string).

(** The names of the procedures, as generated. *)
Definition procedure (r : request) : string :=
  match r with
  | SignUpRequest _ _ _ => "/platform.v1.AuthService/SignUp"
  | LoginRequest _ _ => "/platform.v1.AuthService/Login"
  | RefreshTokenRequest _ => "/platform.v1.AuthService/RefreshToken"
  | LogoutRequest _ => "/platform.v1.AuthService/Logout"
  | InitiateOIDCRequest _ => "/platform.v1.AuthService/InitiateOIDC"
  | InitiateSAMLRequest _ => "/platform.v1.AuthService/InitiateSAML"
  | InitiateSocialLoginRequest _ _ => "/platform.v1.AuthService/InitiateSocialLogin"
  | UpdateProfileRequest _ _ => "/platform.v1.AuthService/UpdateProfile"
  | CreateCompanyRequest _ _ _ _ _ => "/platform.v1.CompanyService/CreateCompany"
  | GetCompanyRequest _ => "/platform.v1.CompanyService/GetCompany"
  | UpdateCompanyRequest _ _ _ _ _ _ _ => "/platform.v1.CompanyService/UpdateCompany"
  | ListCompaniesRequest => "/platform.v1.CompanyService/ListCompanies"
  | GetAncestorsRequest _ => "/platform.v1.CompanyService/GetAncestors"
  | GetDescendantsRequest _ => "/platform.v1.CompanyService/GetDescendants"
  | GetEffectiveSettingsRequest _ => "/platform.v1.CompanyService/GetEffectiveSettings"
  | GetNavItemsRequest _ => "/platform.v1.RegistryService/GetNavItems"
  | GetWidgetsRequest _ => "/platform.v1.RegistryService/GetWidgets"
  | GetSearchScopesRequest _ => "/platform.v1.RegistryService/GetSearchScopes"
  | GetBadgeCountsRequest _ => "/platform.v1.RegistryService/GetBadgeCounts"
  | ListRolesRequest _ => "/platform.v1.RBACService/ListRoles"
  | CreateRoleRequest _ _ _ _ _ => "/platform.v1.RBACService/CreateRole"
  | AssignRoleRequest _ _ _ => "/platform.v1.RBACService/AssignRole"
  | RemoveRoleRequest _ _ _ => "/platform.v1.RBACService/RemoveRole"
  | ListPermissionsRequest => "/platform.v1.RBACService/ListPermissions"
  | GetUserPermissionsRequest _ _ => "/platform.v1.RBACService/GetUserPermissions"
  | CheckPermissionRequest _ _ _ _ => "/platform.v1.RBACService/CheckPermission"
  | ResolveMembershipRequest _ _ => "/platform.v1.RBACService/ResolveMembership"
  | ListAuditLogsRequest _ _ _ _ _ _ => "/platform.v1.AuditService/ListAuditLogs"
  | IngestBreakGlassEventRequest _ _ _ _ _ _ _ _ => "/platform.v1.AuditService/IngestBreakGlassEvent"
  | RegisterWebhookRequest _ _ _ => "/platform.v1.WebhookService/RegisterWebhook"
  | ListWebhooksRequest _ => "/platform.v1.WebhookService/ListWebhooks"
  | DeleteWebhookRequest _ => "/platform.v1.WebhookService/DeleteWebhook"
  | ListDeliveriesRequest _ _ _ => "/platform.v1.WebhookService/ListDeliveries"
  | ListAdaptersRequest => "/platform.v1.BridgeService/ListAdapters"
  | DispatchActionRequest _ => "/platform.v1.BridgeService/DispatchAction"
  | ListActionsRequest _ => "/platform.v1.BridgeService/ListActions"
  end.

Record UserMsg : Type := { um_Id : string; um_Email : string; um_DisplayName : string; um_AvatarUrl : string; um_IsActive : bool; um_CreatedAt : string }.
Record AuthData : Type := { ad_AccessToken : string; ad_RefreshToken : string; ad_User : UserMsg }.
Record CompanyData : Type := {
  cd_Id : string; cd_Name : string; cd_Slug : string; cd_CompanyType : string; cd_SettingsJson : string; cd_IsActive : bool;
  cd_CreatedAt : string; cd_UpdatedAt : string; cd_ParentCompanyId : option string; cd_InheritedRoleCap : option Z; cd_InheritedAccessLevel : option string
}.
Record RoleData : Type := { rd_Id : string; rd_Name : string; rd_Description : string; rd_Level : Z; rd_IsSystem : bool }.
Record PermissionResponse : Type := { pr_Id : string; pr_Feature : string; pr_Action : string; pr_Resource : string }.
Record MembershipMsg : Type := {
  mm_CompanyId : string; mm_UserId : string; mm_RoleLevel : Z; mm_RoleName : string; mm_SourceCompanyId : string; mm_IsDirect : bool;
  mm_CappedLevel : Z; mm_AccessLevel : string
}.
Record AuditLogEntry : Type := {
  ae_Id : string; ae_CompanyId : string; ae_ActorId : string; ae_Action : string; ae_Resource : string; ae_ResourceId : string;
  ae_DetailsJson : string; ae_IpAddress : string; ae_CreatedAt : string
}.
Record WebhookData : Type := {
  wd_Id : string; wd_CompanyId : string; wd_Url : string; wd_Secret : string; wd_Events : list string; wd_Active : bool; wd_CreatedAt : string
}.
Record DeliveryResponse : Type := {
  dr_Id : string; dr_WebhookId : string; dr_EventType : string; dr_Status : string; dr_StatusCode : Z; dr_Attempts : Z; dr_CreatedAt : string
}.
Record AdapterInfo : Type := { ai_Prefix : string; ai_EventTypes : list string; ai_Actions : list ActionSchema }.

Inductive response : Type :=
  | SignUpResponse (auth : AuthData)
  | LoginResponse (auth : AuthData)
  | RefreshTokenResponse (auth : AuthData)
  | LogoutResponse
  | InitiateOIDCResponse (auth_url state : string)
  | InitiateSAMLResponse (redirect_url : string)
  | InitiateSocialLoginResponse (auth_url state : string)
  | UpdateProfileResponse (user : UserMsg)
  | CompanyResponse (company : CompanyData)
  | CompaniesResponse (companies : list CompanyData)
  | GetEffectiveSettingsResponse (settings_json : string)
  | GetNavItemsResponse (items : list NavItem)
  | GetWidgetsResponse (widgets : list Widget)
  | GetSearchScopesResponse (scopes : list SearchScope)
  | GetBadgeCountsResponse (counts : gmap string Z)
  | ListRolesResponse (roles : list RoleData)
  | CreateRoleResponse (role : RoleData)
  | AssignRoleResponse
  | RemoveRoleResponse
  | ListPermissionsResponse (permissions : list PermissionResponse)
  | GetUserPermissionsResponse (permissions : list PermissionResponse) (role : RoleData)
  | CheckPermissionResponse (allowed : bool)
  | ResolveMembershipResponse (m : MembershipMsg)
  | ListAuditLogsResponse (entries : list AuditLogEntry) (total : Z)
  | IngestBreakGlassEventResponse (accepted : bool) (event_id : string)
  | RegisterWebhookResponse (webhook : WebhookData)
  | ListWebhooksResponse (webhooks : list WebhookData)
  | DeleteWebhookResponse
  | ListDeliveriesResponse (deliveries : list DeliveryResponse)
  | ListAdaptersResponse (adapters : list AdapterInfo)
  | DispatchActionResponse (success : bool) (msg : string)
  | ListActionsResponse (actions : list ActionSchema)
  (* the handler panicked: the connection is closed *)
  | Aborted.

(** ** The server *)

Record BreakGlassEvent : Type := {
  OriginalJTI : uuid; OriginalIssuedAt : time; bg_Subject : string; bg_Tenant : string; bg_Scope : string; bg_Reason : string;
  bg_Operator : string; ManifestDigestB64 : string
}.
Definition breakGlassMaxAge : duration := (30 * 24 * Hour)%Z.
Definition breakGlassClockSkew : duration := (5 * Minute)%Z.
Definition breakGlassScopeAdmin : string := "admin.recovery".
Definition breakGlassScopeService : string := "service.recovery".

Definition webhook_set (b : Webhook.Backend) (s : memoryState) : memoryState :=
  {| usersByID := usersByID s; usersByEmail := usersByEmail s; companies := companies s; hierarchy := hierarchy s;
     ms_memberships := ms_memberships s; ms_roles := ms_roles s; refreshTokens := refreshTokens s; ssoConfigs := ssoConfigs s;
     defaultSettings := defaultSettings s; ms_rbacRoles := ms_rbacRoles s; ms_rbacPermissions := ms_rbacPermissions s;
     ms_rolePermissions := ms_rolePermissions s; ms_rbacMemberships := ms_rbacMemberships s; auditLogs := auditLogs s;
     ms_webhooks := webhooks b; ms_deliveries := deliveries b |}.
Definition no_sentinel (s : Empty_set) : string := match s with end.
Definition rbac_text (err : rbac_error) : string :=
  match err with ErrUnauthorized => "rbac: not authorized" | ErrUnknownAction => "rbac: unknown policy action" end.

Section api.
Context {U : UuidText} {C : UnicodeCase} {H : Sha256} {K : KeyDerivation} {J : JWTLib} {L : SSOLib} {HS : Type} {SH : HandoffStore HS}.
(** What the services take from outside the repository; [uuid_error] is the text of an
    error of [uuid.Parse], [Unmarshal] that of permission overrides and
    [enabled_features] what the settings of a company have under that name: none when
    they do not parse, [Some None] when it is no array, and strings or other values. *)
Context (ParseAddress : string → bool) (Format_150405 Format_RFC3339 : time → string) (uuid_error : string → string)
  (Unmarshal : string → option (gmap string bool)) {Json : Type} (UnmarshalSettings : string → option (option (gmap string Json)))
  (MarshalSettings : option (gmap string Json) → outcome cerr string) (enabled_features : string → option (option (list (option string))))
  (EqualFold : string → string → bool).

Record Server : Type := {
  backend : memoryState;
  enf : Enforcer;
  providers : gmap string oidcCachedProvider;
  handoffs : HS;
  ingested : list BreakGlassEvent;
}.
(** What the server is made with.  The ingester sees what has been ingested before. *)
Record Services : Type := {
  authService : Auth.Service;
  ssoService : SSOService;
  socialService : option (string → string → outcome string (string * string));
  reg : Registry.Registry;
  adapterRegistry : AdapterRegistry;
  ingester : option (list BreakGlassEvent → BreakGlassEvent → outcome string (string * bool));
  permissionConfig : InterceptorConfig;
}.
(** What a request draws and meets: the clock, identifiers, tokens and salts, the
    identity providers, the secret of a new webhook, and the clock when the enforcer
    stores what it has read. *)
Record Call : Type := { env : Env; rand : Rand; upstream : Upstream; secret : string; stored : time }.
Abbreviation api A := (prog Server connect_error A) (only parsing).

Definition set_backend (b : memoryState) (s : Server) : Server :=
  {| backend := b; enf := enf s; providers := providers s; handoffs := handoffs s; ingested := ingested s |}.
Definition set_enf (en : Enforcer) (s : Server) : Server :=
  {| backend := backend s; enf := en; providers := providers s; handoffs := handoffs s; ingested := ingested s |}.
Definition ingest (ev : BreakGlassEvent) (s : Server) : Server :=
  {| backend := backend s; enf := enf s; providers := providers s; handoffs := handoffs s; ingested := ingested s ++ [ev] |}.

(** Calls of the services on the state of the server. *)
Definition on_backend {X A} (m : prog memoryState X A) : prog Server X A := zoom backend set_backend m.
Definition on_rbac {A} (m : prog (Rbac.Service Rbac.Backend) rerr A) : prog Server rerr A := λ s,
  let '(r, sv) := m {| Rbac.store := rbac_view (backend s); Rbac.enforcer := enf s |} in
  (r, set_enf (Rbac.enforcer sv) (set_backend (set_rbac (Rbac.store sv) (backend s)) s)).
Definition on_webhooks {A} (m : prog Webhook.Backend werr A) : prog Server werr A :=
  on_backend (zoom webhook_view webhook_set m).
Definition on_sso {A} (m : prog (SSOState (St := memoryState) (HS := HS)) aerr A) : prog Server aerr A := λ s,
  let '(r, st) := m {| oidcProviders := providers s; handoffStore := handoffs s; Sso.store := backend s |} in
  (r, {| backend := Sso.store st; enf := enf s; providers := oidcProviders st; handoffs := handoffStore st; ingested := ingested s |}).
Definition HasPermission_call (c : Call) (userID companyID : uuid) (permission : string) : prog Server rerr bool := λ s,
  let '(r, en) := HasPermission Unmarshal (env c) (stored c) (rbac_view (backend s)) userID companyID permission (enf s) in (r, set_enf en s).

(** An error of a service becomes one of the protocol. *)
Definition answering {X A} (to_code : string → Code) (text : X → string) (m : prog Server (goerr X) A) : api A := λ s,
  match m s with
  | (Ok a, s) => (Ok a, s)
  | (Err err, s) => let msg := Error_text text err in (Err (NewError (to_code msg) msg), s)
  end.
Definition as_code {X A} (c : Code) (text : X → string) (m : prog Server (goerr X) A) : api A := answering (λ _, c) text m.
Definition parse_id (s : string) : api uuid :=
  match uuid_Parse s with None => throw (NewError CodeInvalidArgument (uuid_error s)) | Some i => mret i end.
Fixpoint parse_ids (l : list string) : api (list uuid) :=
  match l with [] => mret [] | s :: l => i ← parse_id s; rest ← parse_ids l; mret (i :: rest) end.

(** *** helpers.go *)

Definition userToProto (u : User) : UserMsg := {|
  um_Id := uuid_String (u_ID u); um_Email := u_Email u; um_DisplayName := u_DisplayName u; um_AvatarUrl := u_AvatarURL u;
  um_IsActive := u_IsActive u; um_CreatedAt := Format_RFC3339 (u_CreatedAt u) |}.
Definition authDataFromDomain (r : AuthResponse) : AuthData :=
  {| ad_AccessToken := AccessToken r; ad_RefreshToken := RefreshToken r; ad_User := userToProto (resp_User r) |}.
Definition companyDataFromDomain (c : Company) : CompanyData := {|
  cd_Id := uuid_String (co_ID c); cd_Name := co_Name c; cd_Slug := co_Slug c; cd_CompanyType := co_CompanyType c;
  cd_SettingsJson := default "" (co_Settings c); cd_IsActive := co_IsActive c; cd_CreatedAt := Format_RFC3339 (co_CreatedAt c);
  cd_UpdatedAt := Format_RFC3339 (co_UpdatedAt c); cd_ParentCompanyId := uuid_String <$> co_ParentCompanyID c;
  cd_InheritedRoleCap := wrap32 <$> co_InheritedRoleCap c; cd_InheritedAccessLevel := co_InheritedAccessLvl c |}.
Definition companyDataList (l : list Company) : list CompanyData := companyDataFromDomain <$> l.
Definition parseSettingsJSON (raw : string) : RawMessage := if bool_decide (raw = "") then None else Some raw.

(** *** auth_handler.go *)

Definition SignUp_handler (c : Call) (sv : Services) (email password display_name : string) : api response :=
  r ← as_code CodeInvalidArgument sentinel_text (on_backend
        (Auth.SignUp (Tx := memoryState) ParseAddress Format_150405 (authService sv) (env c) (rand c) email password display_name));
  mret (SignUpResponse (authDataFromDomain r)).
Definition Login_handler (c : Call) (sv : Services) (email password : string) : api response :=
  r ← as_code CodeInvalidArgument sentinel_text (on_backend (Login (authService sv) (env c) (rand c) email password));
  mret (LoginResponse (authDataFromDomain r)).
Definition RefreshToken_handler (c : Call) (sv : Services) (refresh_token : string) : api response :=
  r ← as_code CodeUnauthenticated sentinel_text (on_backend (Service_RefreshToken (authService sv) (env c) (rand c) refresh_token));
  mret (RefreshTokenResponse (authDataFromDomain r)).
Definition Logout_handler (refresh_token : string) : api response :=
  _ ← as_code CodeUnauthenticated sentinel_text (on_backend (Logout refresh_token)); mret LogoutResponse.
Definition sso_code (msg : string) : Code := if strings_Contains msg "not configured" then CodeNotFound else CodeInternal.
Definition parse_company (company_id : string) : api uuid :=
  match uuid_Parse company_id with None => throw (NewError CodeInvalidArgument "invalid company_id") | Some i => mret i end.
Definition InitiateOIDC_handler (c : Call) (sv : Services) (company_id : string) : api response :=
  companyID ← parse_company company_id;
  r ← answering sso_code sentinel_text (on_sso (InitiateOIDC (ssoService sv) (env c) (rand c) (upstream c) companyID "oidc" ""));
  mret (InitiateOIDCResponse r.1 r.2).
Definition InitiateSAML_handler (c : Call) (sv : Services) (company_id : string) : api response :=
  companyID ← parse_company company_id;
  url ← answering sso_code sentinel_text (on_sso (InitiateSAML (ssoService sv) (upstream c) companyID));
  mret (InitiateSAMLResponse url).
Definition social_code (msg : string) : Code :=
  if any (strings_Contains msg) ["not allowed"; "unknown OIDC provider"; "unknown social provider"; "not registered"; "not an OIDC provider"]
  then CodeInvalidArgument else CodeInternal.
Definition InitiateSocialLogin_handler (sv : Services) (provider redirect_uri : string) : api response :=
  match socialService sv with
  | None => throw (NewError CodeUnimplemented "social login not configured")
  | Some initiate =>
      if bool_decide (provider = "" ∨ redirect_uri = "") then throw (NewError CodeInvalidArgument "provider and redirect_uri are required")
      else match initiate provider redirect_uri with
           | Err msg => throw (NewError (social_code msg) msg)
           | Ok (url, state) => mret (InitiateSocialLoginResponse url state)
           end
  end.
Definition UpdateProfile_handler (ctx : Ctx) (display_name avatar_url : string) : api response :=
  match uuid_Parse (ExtractClaims ctx).1.1 with
  | None => throw (NewError CodeUnauthenticated "invalid user identity")
  | Some userID =>
      user ← as_code CodeInvalidArgument sentinel_text (on_backend (UpdateProfile userID display_name avatar_url));
      mret (UpdateProfileResponse (userToProto user))
  end.

(** *** company_handler.go *)

Definition company_read {A} (code : Code) (f : memoryState → outcome cerr A) : api A :=
  as_code code no_sentinel (on_backend (λ b, (f b, b))).
Definition CreateCompany_handler (c : Call) (name slug company_type : string) (parent_company_id : option string) (settings_json : string) : api response :=
  parentID ← match parent_company_id with
             | Some p => if bool_decide (p ≠ "") then i ← parse_id p; mret (Some i) else mret None
             | None => mret None
             end;
  created ← as_code CodeInvalidArgument no_sentinel (on_backend
              (CreateCompany Format_150405 (env c) name slug company_type parentID (parseSettingsJSON settings_json)));
  mret (CompanyResponse (companyDataFromDomain created)).
Definition GetCompany_handler (id : string) : api response :=
  i ← parse_id id; x ← company_read CodeNotFound (λ b, GetCompany b i); mret (CompanyResponse (companyDataFromDomain x)).
Definition updated_fields (name slug company_type : string) (cap : option Z) (level settings_json : option string) (x : Company) : Company :=
  {| co_ID := co_ID x; co_Name := name; co_Slug := slug; co_ParentCompanyID := co_ParentCompanyID x; co_CompanyType := company_type;
     co_InheritedRoleCap := match cap with Some v => Some v | None => co_InheritedRoleCap x end;
     co_InheritedAccessLvl := match level with Some v => Some v | None => co_InheritedAccessLvl x end;
     co_Settings := match settings_json with Some v => parseSettingsJSON v | None => co_Settings x end;
     co_IsActive := co_IsActive x; co_CreatedAt := co_CreatedAt x; co_UpdatedAt := co_UpdatedAt x |}.
Definition UpdateCompany_handler (c : Call) (id name slug company_type : string) (cap : option Z) (level settings_json : option string) : api response :=
  i ← parse_id id;
  existing ← company_read CodeNotFound (λ b, GetCompany b i);
  result ← as_code CodeInvalidArgument no_sentinel (on_backend
             (UpdateCompany Format_150405 (env c) (updated_fields name slug company_type cap level settings_json existing)));
  mret (CompanyResponse (companyDataFromDomain result)).
Definition ListCompanies_handler (ctx : Ctx) : api response :=
  let userID := (ExtractClaims ctx).1.1 in
  if bool_decide (userID = "") then throw (NewError CodeInternal "company listing is not configured")
  else match uuid_Parse userID with
       | None => throw (NewError CodeUnauthenticated (uuid_error userID))
       | Some i => s ← get; mret (CompaniesResponse (companyDataList (dev_ListCompaniesForUser (backend s) i)))
       end.
Definition GetAncestors_handler (company_id : string) : api response :=
  i ← parse_id company_id; l ← company_read CodeInternal (λ b, GetAncestors b i); mret (CompaniesResponse (companyDataList l)).
Definition GetDescendants_handler (company_id : string) : api response :=
  i ← parse_id company_id;
  ids ← company_read CodeInternal (λ b, GetSelfAndDescendantIDs b i);
  s ← get;
  mret (CompaniesResponse (companyDataList (omap (λ d, match GetCompany (backend s) d with Ok x => Some x | Err _ => None end) ids))).
Definition GetEffectiveSettings_handler (c : Call) (company_id : string) : api response :=
  i ← parse_id company_id;
  s ← get;
  match GetEffectiveSettings UnmarshalSettings MarshalSettings (env c) (backend s) i with
  | Panics => mret Aborted
  | Returns (Err err) => throw (NewError CodeInternal (Error_text no_sentinel err))
  | Returns (Ok settings) => mret (GetEffectiveSettingsResponse settings)
  end.

(** *** registry_handler.go *)

Definition default_enabled : gset string := {["home"; "projects"; "activity"; "settings"]}.
Definition enabledFeatures (company_id : string) : api (gset string) :=
  i ← parse_id company_id;
  x ← company_read CodeInvalidArgument (λ b, cs_GetCompany b i);
  mret match co_Settings x ≫= enabled_features with
       | None => ∅
       | Some None => default_enabled
       | Some (Some l) =>
           let enabled : gset string := list_to_set (omap id l) in
           if bool_decide (enabled = ∅) then default_enabled else enabled
       end.
Definition GetNavItems_handler (c : Call) (sv : Services) (company_id : string) : api response :=
  f ← enabledFeatures company_id;
  mret (GetNavItemsResponse ((λ n, {| n_ID := n_ID n; n_Label := n_Label n; n_Icon := n_Icon n; n_Path := n_Path n; n_Feature := n_Feature n;
                                      n_Priority := wrap32 (n_Priority n); n_Section := n_Section n |})
     <$> sort_slice (λ a b, bool_decide (n_Priority a < n_Priority b)%Z) (GetNavItems (env c) f (reg sv)))).
Definition GetWidgets_handler (c : Call) (sv : Services) (company_id : string) : api response :=
  f ← enabledFeatures company_id;
  mret (GetWidgetsResponse ((λ w, {| wd_ID := wd_ID w; wd_Label := wd_Label w; wd_Type := wd_Type w; wd_Feature := wd_Feature w; wd_Priority := wrap32 (wd_Priority w) |})
     <$> sort_slice (λ a b, bool_decide (wd_Priority a < wd_Priority b)%Z) (GetWidgets (env c) f (reg sv)))).
Definition GetSearchScopes_handler (c : Call) (sv : Services) (company_id : string) : api response :=
  f ← enabledFeatures company_id; mret (GetSearchScopesResponse (GetSearchScopes (env c) f (reg sv))).
Definition GetBadgeCounts_handler (ctx : Ctx) (sv : Services) (company_id : string) : api response :=
  mret (GetBadgeCountsResponse (wrap32 <$> GetBadgeCounts company_id (ExtractClaims ctx).1.1 (reg sv))).

(** *** rbac_handler.go *)

Definition roleToProto (r : Rbac.Role) : RoleData :=
  {| rd_Id := uuid_String (r_ID r); rd_Name := r_Name r; rd_Description := r_Description r; rd_Level := wrap32 (r_Level r); rd_IsSystem := r_IsSystem r |}.
Definition permissionToProto (p : Permission) : PermissionResponse :=
  {| pr_Id := uuid_String (p_ID p); pr_Feature := p_Feature p; pr_Action := p_Action p; pr_Resource := p_Resource p |}.
(** Reads of the service. *)
Definition rbac_read {A} (code : Code) (f : Rbac.Service Rbac.Backend → outcome rerr A) : api A :=
  as_code code rbac_text (on_rbac (λ sv, (f sv, sv))).
Definition ListRoles_handler (c : Call) (company_id : string) : api response :=
  companyID ← parse_id company_id;
  roles ← rbac_read CodeInternal (ListRoles (env c) companyID);
  mret (ListRolesResponse (roleToProto <$> roles)).
Definition CreateRole_handler (c : Call) (company_id name description : string) (level : Z) (permission_ids : list string) : api response :=
  companyID ← parse_id company_id;
  permissionIDs ← parse_ids permission_ids;
  role ← as_code CodeInvalidArgument rbac_text (on_rbac (CreateRole (env c) companyID name description level permissionIDs));
  mret (CreateRoleResponse (roleToProto role)).
Definition AssignRole_handler (c : Call) (ctx : Ctx) (company_id user_id role_id : string) : api response :=
  companyID ← parse_id company_id;
  userID ← parse_id user_id;
  roleID ← parse_id role_id;
  let currentUserIDStr := (ExtractClaims ctx).1.1 in
  if bool_decide (currentUserIDStr = "") then throw (NewError CodeUnauthenticated "")
  else match uuid_Parse currentUserIDStr with
       | None => throw (NewError CodeUnauthenticated (uuid_error currentUserIDStr))
       | Some currentUserID =>
           _ ← answering (λ msg, if strings_Contains msg "only the owner" then CodePermissionDenied else CodeInvalidArgument) rbac_text
                 (on_rbac (AssignRole (env c) companyID userID roleID currentUserID));
           mret AssignRoleResponse
       end.
Definition RemoveRole_handler (c : Call) (company_id user_id role_id : string) : api response :=
  companyID ← parse_id company_id;
  userID ← parse_id user_id;
  roleID ← parse_id role_id;
  _ ← answering (λ msg, if strings_Contains msg "cannot remove the owner" then CodePermissionDenied else CodeInvalidArgument) rbac_text
        (on_rbac (RemoveRole (env c) companyID userID roleID));
  mret RemoveRoleResponse.
Definition ListPermissions_handler (c : Call) : api response :=
  perms ← rbac_read CodeInternal (ListPermissions (env c)); mret (ListPermissionsResponse (permissionToProto <$> perms)).
Definition GetUserPermissions_handler (company_id user_id : string) : api response :=
  companyID ← parse_id company_id;
  userID ← parse_id user_id;
  r ← rbac_read CodeNotFound (GetUserPermissions companyID userID);
  mret (GetUserPermissionsResponse (permissionToProto <$> r.1) (roleToProto r.2)).
Definition CheckPermission_handler (c : Call) (company_id user_id feature action : string) : api response :=
  companyID ← parse_id company_id;
  userID ← parse_id user_id;
  allowed ← as_code CodeInternal rbac_text (HasPermission_call c userID companyID (feature +:+ ":" +:+ action));
  mret (CheckPermissionResponse allowed).
Definition ResolveMembership_handler (c : Call) (company_id user_id : string) : api response :=
  companyID ← parse_id company_id;
  userID ← parse_id user_id;
  m ← rbac_read CodeNotFound (λ sv, ResolveMembership (env c) (Rbac.store sv) companyID userID);
  mret (ResolveMembershipResponse
    {| mm_CompanyId := uuid_String (rm_CompanyID m); mm_UserId := uuid_String (rm_UserID m); mm_RoleLevel := wrap32 (rm_RoleLevel m);
       mm_RoleName := rm_RoleName m; mm_SourceCompanyId := uuid_String (rm_SourceCompany m); mm_IsDirect := rm_IsDirect m;
       mm_CappedLevel := wrap32 (rm_CappedLevel m); mm_AccessLevel := rm_AccessLevel m |}).

(** *** audit_handler.go *)

Definition auditToProto (a : auditLogEntry) : AuditLogEntry := {|
  ae_Id := uuid_String (al_ID a); ae_CompanyId := uuid_String (al_CompanyID a); ae_ActorId := uuid_String (al_ActorID a); ae_Action := al_Action a;
  ae_Resource := al_Resource a; ae_ResourceId := al_ResourceID a; ae_DetailsJson := al_Details a; ae_IpAddress := al_IPAddress a;
  ae_CreatedAt := Format_RFC3339 (al_CreatedAt a) |}.
Definition page_limit (limit : Z) : Z := let l := if bool_decide (limit ≤ 0)%Z then 50%Z else limit in if bool_decide (100 < l)%Z then 100%Z else l.
Definition page_offset (offset : Z) : Z := if bool_decide (offset < 0)%Z then 0%Z else offset.
Definition ListAuditLogs_handler (company_id : string) (limit offset : Z) (actor_id action resource : option string) : api response :=
  companyID ← parse_id company_id;
  actorID ← match actor_id with Some a => i ← parse_id a; mret (Some i) | None => mret None end;
  s ← get;
  let '(entries, total) := QueryAuditLogs (backend s) companyID (page_limit limit) (page_offset offset) actorID action resource in
  mret (ListAuditLogsResponse (auditToProto <$> entries) (wrap32 (Z.of_nat total))).
(** The tests of a replayed event, in order; [issued_at] as in the message, with the
    text of [CheckValid] when it is no instant. *)
Definition validate_break_glass (c : Call) (issued_at : option (outcome string time)) (subject tenant scope : string) : outcome string time :=
  match issued_at with
  | None => Err "original_issued_at is required"
  | Some (Err text) => Err ("original_issued_at invalid: " +:+ text)
  | Some (Ok t) =>
      if After t (now (env c) + breakGlassClockSkew)%Z then Err "original_issued_at is in the future"
      else if bool_decide (breakGlassMaxAge < now (env c) - t)%Z then Err "original_issued_at is older than 720h0m0s (suspicious replay)"
      else if negb (bool_decide (scope = breakGlassScopeAdmin ∨ scope = breakGlassScopeService)) then
        Err ("scope must be " +:+ quoted breakGlassScopeAdmin +:+ " or " +:+ quoted breakGlassScopeService)
      else if bool_decide (TrimSpace subject = "") then Err "subject is required"
      else if bool_decide (TrimSpace tenant = "") then Err "tenant is required"
      else Ok t
  end.
Definition IngestBreakGlassEvent_handler (c : Call) (sv : Services) (jti : string) (issued_at : option (outcome string time))
    (subject tenant scope reason operator digest : string) : api response :=
  match uuid_Parse jti with
  | None => throw (NewError CodeInvalidArgument ("original_jti must be a UUID: " +:+ uuid_error jti))
  | Some id =>
      match validate_break_glass c issued_at subject tenant scope with
      | Err msg => throw (NewError CodeInvalidArgument msg)
      | Ok t =>
          match ingester sv with
          | None => throw (NewError CodeUnimplemented "break-glass ingest is not configured")
          | Some f =>
              s ← get;
              let ev := {| OriginalJTI := id; OriginalIssuedAt := t; bg_Subject := subject; bg_Tenant := tenant; bg_Scope := scope;
                           bg_Reason := reason; bg_Operator := operator; ManifestDigestB64 := digest |} in
              _ ← modify (ingest ev);
              match f (ingested s) ev with
              | Err msg => throw (NewError CodeInternal ("ingest break-glass event: " +:+ msg))
              | Ok (eventID, _) => mret (IngestBreakGlassEventResponse true eventID)
              end
          end
      end
  end.

(** *** webhook_handler.go *)

Definition webhookToProto (w : Webhook) : WebhookData := {|
  wd_Id := uuid_String (w_ID w); wd_CompanyId := uuid_String (w_CompanyID w); wd_Url := w_URL w; wd_Secret := w_Secret w; wd_Events := w_Events w;
  wd_Active := w_Active w; wd_CreatedAt := Format_RFC3339 (w_CreatedAt w) |}.
Definition deliveryToProto (d : WebhookDelivery) : DeliveryResponse := {|
  dr_Id := uuid_String (d_ID d); dr_WebhookId := uuid_String (d_WebhookID d); dr_EventType := d_EventType d; dr_Status := d_Status d;
  dr_StatusCode := wrap32 (d_StatusCode d); dr_Attempts := wrap32 (d_Attempts d); dr_CreatedAt := Format_RFC3339 (d_CreatedAt d) |}.
Definition RegisterWebhook_handler (c : Call) (company_id url : string) (events : list string) : api response :=
  companyID ← parse_id company_id;
  w ← as_code CodeInvalidArgument no_sentinel (on_webhooks (Webhook.Register (env c) (secret c) companyID url "" events));
  mret (RegisterWebhookResponse (webhookToProto w)).
Definition ListWebhooks_handler (c : Call) (company_id : string) : api response :=
  companyID ← parse_id company_id;
  l ← as_code CodeInternal no_sentinel (on_webhooks (ws_ListWebhooksByCompany (env c) companyID));
  mret (ListWebhooksResponse (webhookToProto <$> l)).
Definition DeleteWebhook_handler (id : string) : api response :=
  i ← parse_id id; _ ← as_code CodeNotFound no_sentinel (on_webhooks (ws_DeleteWebhook i)); mret DeleteWebhookResponse.
Definition ListDeliveries_handler (c : Call) (webhook_id : string) (limit offset : Z) : api response :=
  i ← parse_id webhook_id;
  l ← as_code CodeInternal no_sentinel (on_webhooks
        (dev_ListDeliveriesByWebhook (env c) i (if bool_decide (limit ≤ 0)%Z then 50%Z else limit) (page_offset offset)));
  mret (ListDeliveriesResponse (deliveryToProto <$> l)).

(** *** bridge_handler.go *)

Definition adapter_list (c : Call) (sv : Services) : list (string * Adapter) := range (MapRange := order (env c)) (ListAll (adapterRegistry sv)).
Definition ListAdapters_handler (c : Call) (sv : Services) : api response :=
  mret (ListAdaptersResponse ((λ '(prefix, a), {| ai_Prefix := prefix; ai_EventTypes := EventTypes a; ai_Actions := ActionTypes a |}) <$> adapter_list c sv)).
Definition DispatchAction_handler (c : Call) (sv : Services) (action_type : string) : api response :=
  match FindAdapterForAction (env c) action_type (adapterRegistry sv) with
  | None => throw (NewError CodeNotFound ("no adapter supports action: " +:+ action_type))
  | Some _ => mret (DispatchActionResponse true "Action dispatched")
  end.
Definition ListActions_handler (c : Call) (sv : Services) (event_type : string) : api response :=
  mret (ListActionsResponse (adapter_list c sv ≫= λ '(_, a), if any (λ et, bool_decide (et = event_type)) (EventTypes a) then ActionTypes a else [])).

(** ** Requests *)

Definition handle (c : Call) (sv : Services) : UnaryFunc Server request response := λ ctx req,
  match Any req with
  | SignUpRequest email password display_name => SignUp_handler c sv email password display_name
  | LoginRequest email password => Login_handler c sv email password
  | RefreshTokenRequest refresh_token => RefreshToken_handler c sv refresh_token
  | LogoutRequest refresh_token => Logout_handler refresh_token
  | InitiateOIDCRequest company_id => InitiateOIDC_handler c sv company_id
  | InitiateSAMLRequest company_id => InitiateSAML_handler c sv company_id
  | InitiateSocialLoginRequest provider redirect_uri => InitiateSocialLogin_handler sv provider redirect_uri
  | UpdateProfileRequest display_name avatar_url => UpdateProfile_handler ctx display_name avatar_url
  | CreateCompanyRequest name slug company_type parent settings => CreateCompany_handler c name slug company_type parent settings
  | GetCompanyRequest id => GetCompany_handler id
  | UpdateCompanyRequest id name slug company_type cap level settings => UpdateCompany_handler c id name slug company_type cap level settings
  | ListCompaniesRequest => ListCompanies_handler ctx
  | GetAncestorsRequest company_id => GetAncestors_handler company_id
  | GetDescendantsRequest company_id => GetDescendants_handler company_id
  | GetEffectiveSettingsRequest company_id => GetEffectiveSettings_handler c company_id
  | GetNavItemsRequest company_id => GetNavItems_handler c sv company_id
  | GetWidgetsRequest company_id => GetWidgets_handler c sv company_id
  | GetSearchScopesRequest company_id => GetSearchScopes_handler c sv company_id
  | GetBadgeCountsRequest company_id => GetBadgeCounts_handler ctx sv company_id
  | ListRolesRequest company_id => ListRoles_handler c company_id
  | CreateRoleRequest company_id name description level permission_ids => CreateRole_handler c company_id name description level permission_ids
  | AssignRoleRequest company_id user_id role_id => AssignRole_handler c ctx company_id user_id role_id
  | RemoveRoleRequest company_id user_id role_id => RemoveRole_handler c company_id user_id role_id
  | ListPermissionsRequest => ListPermissions_handler c
  | GetUserPermissionsRequest company_id user_id => GetUserPermissions_handler company_id user_id
  | CheckPermissionRequest company_id user_id feature action => CheckPermission_handler c company_id user_id feature action
  | ResolveMembershipRequest company_id user_id => ResolveMembership_handler c company_id user_id
  | ListAuditLogsRequest company_id limit offset actor action resource => ListAuditLogs_handler company_id limit offset actor action resource
  | IngestBreakGlassEventRequest jti issued_at subject tenant scope reason operator digest =>
      IngestBreakGlassEvent_handler c sv jti issued_at subject tenant scope reason operator digest
  | RegisterWebhookRequest company_id url events => RegisterWebhook_handler c company_id url events
  | ListWebhooksRequest company_id => ListWebhooks_handler c company_id
  | DeleteWebhookRequest id => DeleteWebhook_handler id
  | ListDeliveriesRequest webhook_id limit offset => ListDeliveries_handler c webhook_id limit offset
  | ListAdaptersRequest => ListAdapters_handler c sv
  | DispatchActionRequest action_type => DispatchAction_handler c sv action_type
  | ListActionsRequest event_type => ListActions_handler c sv event_type
  end.
(** The server of cmd/eden-platform-dev: the interceptors, then the handlers. *)
Definition serve (c : Call) (sv : Services) (headers : gmap string string) (r : request) : api response :=
  authInterceptor EqualFold (env c) (jwtManager (authService sv)) (PublicProcedures (permissionConfig sv))
    (rbacInterceptor (HasPermission_call c) (permissionConfig sv) (handle c sv))
    background {| Procedure := procedure r; Header := headers; Any := r |}.
End api.

(** ** router.go and cmd/eden-platform-dev *)

Definition DefaultPublicProcedures : gmap string bool := list_to_map [
  ("/platform.v1.AuthService/Login", true); ("/platform.v1.AuthService/SignUp", true); ("/platform.v1.AuthService/RefreshToken", true);
  ("/platform.v1.AuthService/Logout", true)].
Definition settings (action : string) : ProcPermission := {| pp_Feature := "settings"; pp_Action := action |}.
Definition defaultProcedurePermissions : gmap string ProcPermission := list_to_map [
  ("/platform.v1.CompanyService/CreateCompany", settings "admin"); ("/platform.v1.CompanyService/UpdateCompany", settings "edit");
  ("/platform.v1.RBACService/CreateRole", settings "admin"); ("/platform.v1.RBACService/AssignRole", settings "admin");
  ("/platform.v1.RBACService/RemoveRole", settings "admin"); ("/platform.v1.WebhookService/RegisterWebhook", settings "admin");
  ("/platform.v1.WebhookService/DeleteWebhook", settings "admin")].
Definition dev_config : InterceptorConfig := {| PublicProcedures := DefaultPublicProcedures; ProcedurePermissions := defaultProcedurePermissions |}.

(** [seedRBACData]; [ids] are the identifiers of the permissions. *)
Definition systemRoles : list Rbac.Role :=
  (λ '(i, name, level), {| r_ID := i; r_CompanyID := None; r_Name := name; r_Description := ""; r_Level := level; r_IsSystem := true |})
  <$> [(OwnerRoleID, "owner", RoleLevelOwner); (AdminRoleID, "admin", RoleLevelAdmin); (MemberRoleID, "member", RoleLevelMember);
       (ViewerRoleID, "viewer", RoleLevelViewer)].
Definition basePerms : list (string * string) :=
  [("settings", "view"); ("settings", "edit"); ("settings", "admin"); ("projects", "view"); ("projects", "create"); ("projects", "edit");
   ("projects", "delete")].
Definition grants (role : uuid) (key : string) : bool :=
  if bool_decide (role = OwnerRoleID) then true
  else if bool_decide (role = AdminRoleID) then negb (bool_decide (key = "settings:admin"))
  else if bool_decide (role = MemberRoleID) then negb (bool_decide (key = "settings:admin" ∨ key = "projects:delete"))
  else has_suffix ":view" key.
Definition seedRBACData (e : Env) (s : memoryState) : memoryState :=
  let s := foldl (λ s role, SeedRBACRole role s) s systemRoles in
  let perms := imap (λ n '(feature, action), {| p_ID := new_id e n; p_Feature := feature; p_Action := action; p_Resource := "" |}) basePerms in
  let s := foldl (λ s perm, SeedRBACPermission perm s) s perms in
  let permIDs : gmap string uuid := list_to_map ((λ p, (p_Feature p +:+ ":" +:+ p_Action p, p_ID p)) <$> perms) in
  foldl (λ s role,
    foldl (λ s '(key, pid),
      if grants role key then set_rbac (dev_AddRolePermission role pid (rbac_view s)).2 s else s) s (range (MapRange := order e) permIDs))
    s [OwnerRoleID; AdminRoleID; MemberRoleID; ViewerRoleID].
