(* ===== verification/ApiProofs.v ===== *)
(** * The API of the platform: its properties

    What reaches a handler and with whose authority; what every request keeps of the
    development backend; what the permission interceptor does not look at. *)

From S2P Require Import Prelude Encoding AuditLog Webhook Company Rbac Password Auth Devstore Sso Registry Gateway RbacProofs AuthProofs ConnectApi.

Create HintDb handlers.
Lemma moves_attempt {St} (R : relation St) {X E A} (m : prog St X A) : moves R m → moves R (attempt m : prog St E _).
Proof. intros Hm s. specialize (Hm s). unfold attempt. by destruct (m s). Qed.
#[export] Hint Resolve moves_attempt : moves.

(** ** What a request may do to the backend *)

Section kept.
Context {U : UuidText} {C : UnicodeCase} (Unmarshal : string → option (gmap string bool)).

(** The backend stays well formed, and whoever has permissions keeps them as they are. *)
Record kept (b b' : memoryState) : Prop := {
  kept_wf : backend_wf b → backend_wf b';
  kept_load e u c x : load_permissions Unmarshal e (rbac_view b) u c = Ok x → load_permissions Unmarshal e (rbac_view b') u c = Ok x;
}.
#[export] Instance kept_preorder : PreOrder kept.
Proof. split; [by split|]. intros a b c [] []. split; eauto. Qed.

Lemma kept_write b b' : auth_write b b' → rbac_view b' = rbac_view b → kept b b'.
Proof. intros Hw Hv. split; [by apply auth_write_wf|]. intros e u c x. by rewrite Hv. Qed.
Lemma kept_same b b' :
  usersByEmail b' = usersByEmail b → usersByID b' = usersByID b → ms_memberships b' = ms_memberships b → ms_roles b' = ms_roles b →
  refreshTokens b' = refreshTokens b → rbac_view b' = rbac_view b → kept b b'.
Proof.
  intros He Hu Hm Hr Ht Hv. split; [|intros e u c x; by rewrite Hv].
  intros Hwf. split; intros *; rewrite ?He, ?Hu, ?Hm, ?Hr, ?Ht; apply Hwf.
Qed.

Lemma load_more_memberships e b b' u c x :
  rbacRoles b' = rbacRoles b → rbacPermissions b' = rbacPermissions b → rolePermissions b' = rolePermissions b →
  rbacMemberships b' = rbacMemberships b →
  (∀ y, auth_role_in b c u = Some y → auth_role_in b' c u = Some y) →
  load_permissions Unmarshal e b u c = Ok x → load_permissions Unmarshal e b' u c = Ok x.
Proof.
  intros Hr Hp Hrp Hm Ha. unfold load_permissions, GetUserRole, ListPermissionsByRole, GetMembership, dev_RBACStore.
  unfold Rbac.dev_GetUserRole, dev_ListPermissionsByRole, dev_GetMembership. rewrite Hr, Hp, Hrp, Hm.
  destruct (rbacMemberships b !! membership_key c u) as [m|] eqn:Hk; cbn [mbind option_bind].
  - destruct (rbacRoles b !! m_RoleID m); [done|].
    destruct (auth_role_in b c u) as [[am ar]|]; [|done]. by rewrite (Ha _ eq_refl).
  - destruct (auth_role_in b c u) as [[am ar]|]; [|done]. by rewrite (Ha _ eq_refl).
Qed.

Lemma kept_membership cid uid rid b : kept b (dev_CreateCompanyMembership cid uid rid b).2.
Proof.
  split; [apply auth_write_wf; constructor|]. intros e u c x. unfold dev_CreateCompanyMembership.
  destruct (ms_roles b !! rid) as [role|]; [|done]. destruct (any _ _); [done|].
  apply load_more_memberships; [done..|]. intros y. unfold auth_role_in. cbn.
  rewrite !lookup_fmap. destruct (decide (u = uid)) as [->|Hu]; [rewrite lookup_insert_eq|by rewrite lookup_insert_ne].
  cbn. destruct (ms_memberships b !! uid) as [l|]; cbn; [|done].
  rewrite map_app, omap_app. intros Hh. by apply head_Some in Hh as [l' ->].
Qed.

(** The calls of the store. *)
Abbreviation keeps := (moves kept).
Lemma keeps_GetUserByEmail email : keeps (dev_GetUserByEmail email).
Proof. apply moves_still; [apply _|]. intros s. unfold dev_GetUserByEmail. by case_match. Qed.
Lemma keeps_GetUserByID id : keeps (dev_GetUserByID id).
Proof. apply moves_still; [apply _|]. intros s. unfold dev_GetUserByID. by case_match. Qed.
Lemma keeps_UpdateUser id dn av : keeps (dev_UpdateUser id dn av).
Proof.
  intros s. apply kept_write; [constructor|]. unfold dev_UpdateUser. by case_match.
Qed.
Lemma keeps_auth_CreateCompany e n name slug ct : keeps (dev_auth_CreateCompany e n name slug ct).
Proof. intros s. by apply kept_write; [constructor|]. Qed.
Lemma keeps_CreateCompanyMembership cid uid rid : keeps (dev_CreateCompanyMembership cid uid rid).
Proof. intros s. apply kept_membership. Qed.
Lemma keeps_GetCompanyMembershipByUser uid : keeps (dev_GetCompanyMembershipByUser uid).
Proof. apply moves_still; [apply _|]. intros s. unfold dev_GetCompanyMembershipByUser. by case_match. Qed.
Lemma keeps_GetRoleByID rid : keeps (Devstore.dev_GetRoleByID rid).
Proof. apply moves_still; [apply _|]. intros s. unfold Devstore.dev_GetRoleByID. by case_match. Qed.
Lemma keeps_CreateRefreshToken uid h t : keeps (dev_CreateRefreshToken uid h t).
Proof. intros s. by apply kept_write; [constructor|]. Qed.
Lemma keeps_GetRefreshToken e h : keeps (dev_GetRefreshToken e h).
Proof.
  apply moves_still; [apply _|]. intros s. unfold dev_GetRefreshToken. by repeat case_match.
Qed.
Lemma keeps_RevokeRefreshToken h : keeps (dev_RevokeRefreshToken h).
Proof. intros s. by apply kept_write; [constructor|]. Qed.
Lemma keeps_GetSSOConfig cid p : keeps (dev_GetSSOConfig cid p).
Proof. apply moves_still; [apply _|]. intros s. unfold dev_GetSSOConfig. by case_match. Qed.
#[local] Hint Resolve keeps_GetUserByEmail keeps_GetUserByID keeps_UpdateUser keeps_auth_CreateCompany keeps_CreateCompanyMembership
  keeps_GetCompanyMembershipByUser keeps_GetRoleByID keeps_CreateRefreshToken keeps_GetRefreshToken keeps_RevokeRefreshToken keeps_GetSSOConfig : moves.

(** The calls of the service. *)
Context {H : Sha256} {K : KeyDerivation} {J : JWTLib}.
Implicit Types (svc : Auth.Service).
Lemma keeps_returned {A} (c : PasswordHasher.result A) msg : keeps (returned c msg).
Proof. apply moves_still; [apply _|]. intros s. unfold returned. by repeat case_match. Qed.
#[local] Hint Resolve keeps_returned : moves.
Lemma keeps_issue_tokens svc e r u a m1 m2 j : keeps (issue_tokens svc e r u a m1 m2 j).
Proof. unfold issue_tokens. moving. Qed.
#[local] Hint Resolve keeps_issue_tokens : moves.
Lemma keeps_Login svc e r email password : keeps (Login svc e r email password).
Proof. unfold Login, check_credentials. moving. Qed.
Lemma keeps_RefreshToken svc e r tok : keeps (Service_RefreshToken svc e r tok).
Proof. unfold Service_RefreshToken, refresh_lookup, refresh_rotate. moving. Qed.
Lemma keeps_Logout tok : keeps (Logout tok).
Proof. unfold Logout. moving. Qed.
Lemma keeps_UpdateProfile uid dn av : keeps (UpdateProfile uid dn av).
Proof. unfold UpdateProfile. moving. Qed.

Lemma kept_clone b : kept b (clone b).
Proof. by apply kept_same. Qed.
Lemma keeps_SignUp pa fmt svc e r email password name b :
  usersByID b !! new_id e 0 = None →
  kept b (Auth.SignUp (St := memoryState) (Tx := memoryState) pa fmt svc e r email password name b).2.
Proof.
  intros Hf. unfold Auth.SignUp. do 3 (case_match; [done|]). destruct (PasswordHasher.Hash _ _ _) as [[ph|]|]; [|done..].
  unfold returned, mbind, prog_bind, mret, prog_ret, wrapping. change (BeginTx b) with (Ok (E := aerr) (clone b), b). cbv beta iota.
  assert (kept (clone b) (SignUp_tx fmt svc e r email ph name (clone b)).2) as Htx.
  { unfold SignUp_tx. unfold mbind at 1, prog_bind at 1, try. cbv beta iota.
    assert (kept (clone b) (dev_CreateUser e 0 (normalized email) ph (TrimSpace name) (clone b)).2) as Hu.
    { apply kept_write; [by constructor|]. unfold dev_CreateUser. by case_match. }
    change (as_CreateUser e 0 ?x ph ?y) with (dev_CreateUser e 0 x ph y).
    destruct (dev_CreateUser _ _ _ _ _ _) as [r0 b0]. cbn [fst snd] in *. etrans; [exact Hu|]. clear Hu.
    revert b0. match goal with |- ∀ b0, kept b0 (?m b0).2 => change (keeps m) end.
    unfold create_user_error. moving. }
  destruct (SignUp_tx _ _ _ _ _ _ _ _) as [[resp|err] tx]; [|done]. cbn in *.
  etrans; [apply kept_clone|exact Htx].
Qed.

Lemma kept_companies cs hs b : kept b (set_companies cs hs b).
Proof. by apply kept_same. Qed.
Lemma kept_foldl {A} (f : memoryState → A → memoryState) l b : (∀ b a, kept b (f b a)) → kept b (foldl f b l).
Proof. intros Hf. revert b. induction l as [|a l IH]; intros b; cbn; [done|]. etrans; [apply Hf|apply IH]. Qed.
Lemma keeps_store_CreateCompany e c : keeps (cs_CreateCompany e c : prog memoryState cerr _).
Proof.
  intros b. unfold cs_CreateCompany, dev_CompanyStore, dev_CreateCompany. cbv zeta. cbn [snd].
  etrans; [|destruct (co_ParentCompanyID _); [apply kept_foldl; intros; apply kept_companies|reflexivity]].
  etrans; apply kept_companies.
Qed.
Lemma keeps_InsertHierarchyEntries l : keeps (cs_InsertHierarchyEntries l : prog memoryState cerr _).
Proof. intros b. apply kept_foldl. intros. apply kept_companies. Qed.
Lemma keeps_store_UpdateCompany e c : keeps (cs_UpdateCompany e c : prog memoryState cerr _).
Proof. intros b. unfold cs_UpdateCompany, dev_CompanyStore, dev_UpdateCompany. case_match; [apply kept_companies|done]. Qed.
#[local] Hint Resolve keeps_store_CreateCompany keeps_InsertHierarchyEntries keeps_store_UpdateCompany : moves.
Lemma keeps_CreateCompany fmt e name slug ct p settings :
  keeps (Company.CreateCompany fmt e name slug ct p settings : prog memoryState cerr _).
Proof. unfold Company.CreateCompany. moving. by apply moves_wrapping, moves_still; [apply _|]. Qed.
Lemma keeps_UpdateCompany fmt e c : keeps (Company.UpdateCompany fmt e c : prog memoryState cerr _).
Proof. unfold Company.UpdateCompany. moving. Qed.
Lemma keeps_webhooks {A} (m : prog Webhook.Backend werr A) : keeps (zoom webhook_view webhook_set m).
Proof. apply (moves_zoom kept (λ _ _, True)); [done|]. intros. by apply kept_same. Qed.
End kept.

Lemma foldl_invariant {St A} (P : St → Prop) (f : St → A → St) l s : (∀ s a, P s → P (f s a)) → P s → P (foldl f s l).
Proof. intros Hf. revert s. induction l as [|a l IH]; intros s Hs; cbn; auto. Qed.
Lemma set_rbac_wf b s : backend_wf s → backend_wf (set_rbac b s).
Proof. intros Hwf. split; apply Hwf. Qed.
Lemma seed_wf e s : backend_wf s → backend_wf (seedRBACData e s).
Proof.
  intros Hs. unfold seedRBACData. apply foldl_invariant.
  - intros s1 role H1. apply foldl_invariant; [|done]. intros s2 [key pid] H2. case_match; [by apply set_rbac_wf|done].
  - do 2 (apply foldl_invariant; [intros s1 x H1; by apply set_rbac_wf|]). done.
Qed.

(** ** What a request may do to the server *)

Section server.
Context {U : UuidText} {C : UnicodeCase} {H : Sha256} {K : KeyDerivation} {J : JWTLib} {L : SSOLib} {HS : Type} {SH : HandoffStore HS}.
Context (ParseAddress : string → bool) (Format_150405 Format_RFC3339 : time → string) (uuid_error : string → string)
  (Unmarshal : string → option (gmap string bool)) {Json : Type} (UnmarshalSettings : string → option (option (gmap string Json)))
  (MarshalSettings : option (gmap string Json) → outcome cerr string) (enabled_features : string → option (option (list (option string))))
  (EqualFold : string → string → bool).
Abbreviation Server := (Server (L := L) (HS := HS)) (only parsing).
Implicit Types (s : Server) (c : Call (L := L)).

(** The RBAC service as the handlers see it. *)
Definition rbac_of (s : Server) : Rbac.Service Rbac.Backend := {| Rbac.store := rbac_view (backend s); Rbac.enforcer := enf s |}.
Record sound (s : Server) : Prop := {
  sound_wf : backend_wf (backend s);
  sound_cache : coherent Unmarshal (rbac_of s);
}.
(** What a request must draw for the identifiers it makes to be new. *)
Record fresh_ids (c : Call) (s : Server) : Prop := {
  fresh_user : usersByID (backend s) !! new_id (env c) 0 = None;
  fresh_roles : fresh_role (env c) (rbac_view (backend s));
}.
Definition upholds (s s' : Server) : Prop := sound s → sound s'.
#[export] Instance upholds_preorder : PreOrder upholds.
Proof. split; [by intros s Hs|]. intros a b d Hab Hbd Ha. unfold upholds in *. auto. Qed.

Lemma upholds_backend s s' : kept Unmarshal (backend s) (backend s') → enf s' = enf s → upholds s s'.
Proof.
  intros [Hwf Hl] He [Hs Hc]. split; [auto|]. intros e u cid ce Hk. cbn in *. rewrite He in Hk. apply Hl. by apply (Hc e u cid ce).
Qed.
Lemma upholds_on_backend {X A} (m : prog memoryState X A) s :
  kept Unmarshal (backend s) (m (backend s)).2 → upholds s (on_backend (L := L) m s).2.
Proof. intros Hm. unfold on_backend, zoom. destruct (m (backend s)) as [r b]. by apply upholds_backend. Qed.
Lemma moves_on_backend {X A} (m : prog memoryState X A) : moves (kept Unmarshal) m → moves upholds (on_backend (L := L) (HS := HS) m).
Proof. intros Hm s. apply upholds_on_backend, Hm. Qed.

Lemma upholds_on_rbac {A} (m : prog (Rbac.Service Rbac.Backend) rerr A) s :
  (coherent Unmarshal (rbac_of s) → coherent Unmarshal (m (rbac_of s)).2) →
  memberships (Rbac.store (m (rbac_of s)).2) = memberships (rbac_view (backend s)) →
  roles (Rbac.store (m (rbac_of s)).2) = roles (rbac_view (backend s)) →
  upholds s (on_rbac (L := L) m s).2.
Proof.
  unfold on_rbac, rbac_of. destruct (m _) as [r [b en]]. cbn. intros Hc Hm Hr [Hwf Hs]. split.
  - split; apply Hwf.
  - specialize (Hc Hs). unfold rbac_of. cbn. destruct b as [? ? ? ? mb rs]. cbn in Hm, Hr. by subst mb rs.
Qed.
Lemma moves_rbac_read {A} code (f : Rbac.Service Rbac.Backend → outcome rerr A) : moves upholds (rbac_read (L := L) (HS := HS) code f).
Proof.
  intros s. pose proof (upholds_on_rbac (λ sv, (f sv, sv)) s) as Hu.
  unfold rbac_read, as_code, answering. destruct (on_rbac _ s) as [[] s']; by apply Hu.
Qed.
Lemma upholds_AssignRole e cid uid rid by_ s : upholds s (on_rbac (L := L) (Rbac.AssignRole e cid uid rid by_) s).2.
Proof.
  pose proof (AssignRole_inv e cid uid rid by_ (rbac_of s)) as Hi. apply upholds_on_rbac.
  all: destruct (Rbac.AssignRole e cid uid rid by_ (rbac_of s)) as [[u|err] sv]; specialize (Hi _ _ eq_refl); cbn [snd] in *; [|by subst sv].
  all: destruct Hi as (b' & Ha & -> & _); unfold dev_AssignRoleToUser in Ha; destruct (_ !! rid); [|done]; injection Ha as <- ; try done.
  intros _. apply invalidated_coherent.
Qed.
Lemma upholds_RemoveRole e cid uid rid s : upholds s (on_rbac (L := L) (Rbac.RemoveRole e cid uid rid) s).2.
Proof.
  pose proof (RemoveRole_inv e cid uid rid (rbac_of s)) as Hi. apply upholds_on_rbac.
  all: destruct (Rbac.RemoveRole e cid uid rid (rbac_of s)) as [[u|err] sv]; specialize (Hi _ _ eq_refl); cbn [snd] in *; [|by subst sv].
  all: destruct Hi as (b' & Ha & -> & _); unfold dev_AssignRoleToUser in Ha; destruct (_ !! MemberRoleID); [|done]; injection Ha as <- ; try done.
  intros _. apply invalidated_coherent.
Qed.
Lemma CreateRole_store e cid n d l ps (sv : Rbac.Service Rbac.Backend) :
  ∃ rs rp, (Rbac.CreateRole e cid n d l ps sv).2 = {| Rbac.store := set_rolePermissions rp (set_rbacRoles rs (Rbac.store sv)); Rbac.enforcer := Rbac.enforcer sv |}.
Proof.
  unfold Rbac.CreateRole, Rbac.on_store. prog_unfold. cbn. unfold dev_CreateRole. prog_unfold. cbn.
  match goal with |- context [add_permissions ?id ps ?s1] => destruct (add_permissions_store id ps s1) as (rp & -> & _) end.
  cbn. by eexists _, rp.
Qed.
Lemma upholds_CreateRole e cid n d l ps s :
  fresh_role e (rbac_view (backend s)) → upholds s (on_rbac (L := L) (Rbac.CreateRole e cid n d l ps) s).2.
Proof.
  intros Hf. destruct (CreateRole_store e cid n d l ps (rbac_of s)) as (rs & rp & Hs). apply upholds_on_rbac; rewrite ?Hs; [|done..].
  rewrite <-Hs. destruct (Rbac.CreateRole e cid n d l ps (rbac_of s)) as [r sv] eqn:Hc. by apply (CreateRole_coherent _ e cid n d l ps (rbac_of s) r).
Qed.

Lemma moves_answering {X A} f text (m : prog Server (goerr X) A) : moves upholds m → moves upholds (answering f text m).
Proof. intros Hm s. specialize (Hm s). unfold answering. by destruct (m s) as [[] ?]. Qed.
Lemma moves_as_code {X A} code text (m : prog Server (goerr X) A) : moves upholds m → moves upholds (as_code code text m).
Proof. apply moves_answering. Qed.
Lemma parse_id_still x s : (parse_id uuid_error x s).2 = s.
Proof. unfold parse_id. by destruct (uuid_Parse x). Qed.
Lemma moves_parse_id x : moves upholds (parse_id (L := L) (HS := HS) uuid_error x).
Proof. apply moves_still; [apply _|]. apply parse_id_still. Qed.
Lemma moves_company_read {A} code (f : memoryState → outcome cerr A) : moves upholds (company_read (L := L) (HS := HS) code f).
Proof. apply moves_as_code, moves_on_backend, moves_still; [apply _|done]. Qed.

(** Initiating a sign-on leaves the store alone. *)
Definition same_store (st st' : SSOState (L := L) (St := memoryState) (HS := HS)) : Prop := Sso.store st' = Sso.store st.
#[export] Instance same_store_preorder : PreOrder same_store.
Proof. split; [done|]. intros a b d Hab Hbd. unfold same_store in *. by rewrite Hbd. Qed.
Lemma moves_on_sso {A} (m : prog (SSOState (L := L) (St := memoryState) (HS := HS)) aerr A) :
  moves same_store m → moves upholds (on_sso m).
Proof.
  intros Hm s. specialize (Hm {| oidcProviders := providers s; handoffStore := handoffs s; Sso.store := backend s |}).
  unfold on_sso. destruct (m _) as [r st]. unfold same_store in Hm. cbn in *. apply upholds_backend; [|done]. by rewrite Hm.
Qed.
Lemma same_store_config cid p msg : moves same_store (sso_config (L := L) (St := memoryState) (HS := HS) cid p msg).
Proof.
  apply moves_still; [apply _|]. intros st. unfold sso_config, try, Sso.on_store, zoom, as_GetSSOConfig, dev_AuthStore, dev_GetSSOConfig.
  unfold mbind, prog_bind. destruct st. cbn. repeat case_match; simplify_eq; done.
Qed.
Lemma same_store_provider sv u cfg : moves same_store (getOrCreateOIDCProvider (L := L) (St := memoryState) (HS := HS) sv u cfg).
Proof. intros st. unfold getOrCreateOIDCProvider. by repeat case_match. Qed.
#[local] Hint Resolve same_store_config same_store_provider : moves.
Lemma same_store_OIDC sv e r u cid p uri : moves same_store (InitiateOIDC (L := L) (St := memoryState) (HS := HS) sv e r u cid p uri).
Proof. unfold InitiateOIDC. moving. Qed.
Lemma same_store_SAML sv u cid : moves same_store (InitiateSAML (L := L) (St := memoryState) (HS := HS) sv u cid).
Proof. unfold InitiateSAML. moving. Qed.

Lemma HasPermission_call_spec c uid cid perm s :
  sound s → let '(r, s') := HasPermission_call Unmarshal c uid cid perm s in
  r = match load_permissions Unmarshal (env c) (rbac_view (backend s)) uid cid with
      | Ok (ps, _) => Ok (granted ps perm) | Err err => Err err end ∧
  (∃ en, s' = set_enf en s) ∧ sound s'.
Proof.
  intros [Hwf Hc]. unfold HasPermission_call.
  destruct (on_enforcer (λ st, HasPermission Unmarshal (env c) (stored c) st uid cid perm) (rbac_of s)) as [r sv] eqn:Hp.
  pose proof (HasPermission_coherent _ _ _ _ _ _ _ _ _ Hp Hc) as (Hco & Hst & ->). unfold on_enforcer in Hp. cbn in *.
  destruct (HasPermission _ _ _ _ _ _ _ _) as [r1 en]. injection Hp as -> <-. split_and!; [done|by eexists|]. split; [exact Hwf|exact Hco].
Qed.
Lemma moves_HasPermission_call c uid cid perm : moves upholds (HasPermission_call (L := L) (HS := HS) Unmarshal c uid cid perm).
Proof. intros s Hs. pose proof (HasPermission_call_spec c uid cid perm s Hs) as Hp. destruct (HasPermission_call _ _ _ _ _ s). apply Hp. Qed.

#[local] Hint Resolve moves_rbac_read moves_as_code moves_answering moves_parse_id moves_company_read moves_on_backend moves_on_sso
  same_store_OIDC same_store_SAML moves_HasPermission_call keeps_Login keeps_RefreshToken keeps_Logout keeps_UpdateProfile keeps_CreateCompany
  keeps_UpdateCompany keeps_webhooks : moves.
Lemma moves_AssignRole e cid uid rid by_ : moves upholds (on_rbac (L := L) (HS := HS) (Rbac.AssignRole e cid uid rid by_)).
Proof. intros s. apply upholds_AssignRole. Qed.
Lemma moves_RemoveRole e cid uid rid : moves upholds (on_rbac (L := L) (HS := HS) (Rbac.RemoveRole e cid uid rid)).
Proof. intros s. apply upholds_RemoveRole. Qed.
#[local] Hint Resolve moves_AssignRole moves_RemoveRole : moves.
Lemma moves_enabledFeatures x : moves upholds (enabledFeatures (L := L) (HS := HS) uuid_error enabled_features x).
Proof. unfold enabledFeatures. moving. Qed.
#[local] Hint Resolve moves_enabledFeatures : moves.
Lemma moves_ingest ev : moves upholds (modify (ingest ev) : prog Server connect_error unit).
Proof. intros s. by apply upholds_backend. Qed.
#[local] Hint Resolve moves_ingest : moves.

Abbreviation handle := (handle ParseAddress Format_150405 Format_RFC3339 uuid_error Unmarshal UnmarshalSettings MarshalSettings enabled_features).
Abbreviation serve := (ConnectApi.serve ParseAddress Format_150405 Format_RFC3339 uuid_error Unmarshal UnmarshalSettings MarshalSettings enabled_features EqualFold).

Lemma moves_parse_company x : moves upholds (parse_company (L := L) (HS := HS) x).
Proof. unfold parse_company. moving. Qed.
#[local] Hint Resolve moves_parse_company : moves.
#[local] Hint Unfold Login_handler RefreshToken_handler Logout_handler InitiateOIDC_handler InitiateSAML_handler InitiateSocialLogin_handler
  UpdateProfile_handler CreateCompany_handler GetCompany_handler UpdateCompany_handler ListCompanies_handler GetAncestors_handler
  GetDescendants_handler GetEffectiveSettings_handler GetNavItems_handler GetWidgets_handler GetSearchScopes_handler GetBadgeCounts_handler
  ListRoles_handler AssignRole_handler RemoveRole_handler ListPermissions_handler GetUserPermissions_handler CheckPermission_handler
  ResolveMembership_handler ListAuditLogs_handler IngestBreakGlassEvent_handler RegisterWebhook_handler ListWebhooks_handler
  DeleteWebhook_handler ListDeliveries_handler ListAdapters_handler DispatchAction_handler ListActions_handler : handlers.
Lemma parse_ids_still l s : (parse_ids uuid_error l s).2 = s.
Proof.
  revert s. induction l as [|x l IH]; intros s; [done|]. cbn [parse_ids]. pose proof (parse_id_still x s) as Hp.
  unfold mbind, prog_bind. destruct (parse_id _ x s) as [[i|err] s1]; [|done]. cbn in Hp. subst s1.
  specialize (IH s). by destruct (parse_ids _ l s) as [[ids|err] s2].
Qed.
Lemma upholds_SignUp c sv email password name s :
  fresh_ids c s → upholds s (SignUp_handler ParseAddress Format_150405 Format_RFC3339 c sv email password name s).2.
Proof.
  intros [Hu _]. unfold SignUp_handler, as_code, answering, mbind, prog_bind.
  pose proof (upholds_on_backend (Auth.SignUp (Tx := memoryState) ParseAddress Format_150405 (authService sv) (env c) (rand c) email password name) s
    (keeps_SignUp _ _ _ _ _ _ _ _ _ _ Hu)) as Hk.
  by destruct (on_backend _ s) as [[] ?].
Qed.
Lemma upholds_CreateRole_handler c x n d l ps s :
  fresh_ids c s → upholds s (CreateRole_handler uuid_error c x n d l ps s).2.
Proof.
  intros [_ Hr]. unfold CreateRole_handler, as_code, answering, mbind, prog_bind.
  pose proof (parse_id_still x s) as Hp. destruct (parse_id _ x s) as [[i|err] s1]; cbn in Hp; subst s1; [|done].
  pose proof (parse_ids_still ps s) as Hp. destruct (parse_ids _ ps s) as [[ids|err] s1]; cbn in Hp; subst s1; [|done].
  pose proof (upholds_CreateRole (env c) i n d l ids s Hr) as Hk. by destruct (on_rbac _ s) as [[] ?].
Qed.

(** Whatever a handler is asked and on whose behalf, the server stays sound. *)
Lemma handle_upholds c sv ctx req s : fresh_ids c s → upholds s (handle c sv ctx req s).2.
Proof.
  intros Hf. unfold ConnectApi.handle. destruct (Any req); [by apply upholds_SignUp|..].
  all: try (by apply upholds_CreateRole_handler).
  all: match goal with |- upholds ?t (?m ?t).2 => clear Hf; revert t; change (moves upholds m) end.
  all: autounfold with handlers; moving.
Qed.

(** ** Who gets through *)

(** The policy of the interceptors, without headers taken apart, caches or an order of
    tests: what is public is anybody's; anything else takes a valid access token after
    the word bearer and, when the procedure has a permission, that the store grants it
    to the user of the token in the company of the token. *)
Definition permitted (c : Call (L := L)) (cfg : InterceptorConfig) (r : request) (claims : Claims) (s : Server) : Prop :=
  match ProcedurePermissions cfg !! procedure r with
  | None => True
  | Some perm => ∃ userID companyID ps level,
      uuid_Parse (c_UserID claims) = Some userID ∧ uuid_Parse (c_CompanyID claims) = Some companyID ∧
      load_permissions Unmarshal (env c) (rbac_view (backend s)) userID companyID = Ok (ps, level) ∧
      granted ps (pp_Feature perm +:+ ":" +:+ pp_Action perm) = true
  end.
Definition carries (headers : gmap string string) (tok : string) : Prop :=
  ∃ scheme, headers !! "Authorization" = Some (scheme +:+ " " +:+ tok) ∧ (" "%char ∉ String.list_ascii_of_string scheme) ∧ EqualFold scheme "bearer" = true.
Inductive admitted (c : Call) (sv : Services) (headers : gmap string string) (r : request) (s : Server) : Ctx → Prop :=
  | admitted_anybody : is_public (PublicProcedures (permissionConfig sv)) (procedure r) = true → admitted c sv headers r s background
  | admitted_bearer tok claims :
      is_public (PublicProcedures (permissionConfig sv)) (procedure r) = false →
      carries headers tok → ValidateAccessToken (env c) (jwtManager (authService sv)) tok = Ok claims →
      permitted c (permissionConfig sv) r claims s → admitted c sv headers r s (WithClaims claims background).

Lemma bearer_exact h tok :
  bearer EqualFold h = Some tok ↔
  ∃ scheme, h = scheme +:+ " " +:+ tok ∧ (" "%char ∉ String.list_ascii_of_string scheme) ∧ EqualFold scheme "bearer" = true.
Proof.
  unfold bearer. split.
  - pose proof (Join_split " " h) as Hj. destruct (split_on " " h) as [|scheme [|y ys]] eqn:E; [done..|].
    destruct (EqualFold scheme "bearer") eqn:Hf; [|done]. intros [= <-]. exists scheme.
    split_and!; [by rewrite <-Hj|by eapply split_on_head|done].
  - intros (scheme & -> & Hs & Hf). change (" " +:+ tok) with (String " " tok). rewrite split_on_app by done.
    destruct (split_on_cons " " tok) as (y & ys & E). pose proof (Join_split " " tok) as Hj. rewrite E in Hj |- *.
    by rewrite Hf, Hj.
Qed.

Definition any_request (headers : gmap string string) (r : request) : AnyRequest request := {| Procedure := procedure r; Header := headers; Any := r |}.
Definition refusals : list Code := [CodeUnauthenticated; CodePermissionDenied; CodeInternal].
(** A request reaches its handler, in a context the policy admits, or is refused. *)
Definition by_policy (c : Call) (sv : Services) (headers : gmap string string) (r : request) (s : Server) : Prop :=
  ∃ en, sound (set_enf en s) ∧
    ((∃ ctx, admitted c sv headers r s ctx ∧ serve c sv headers r s = handle c sv ctx (any_request headers r) (set_enf en s)) ∨
     ((∀ ctx, ¬ admitted c sv headers r s ctx) ∧
      ∃ err, serve c sv headers r s = (Err err, set_enf en s) ∧ code err ∈ refusals)).

Lemma set_enf_same s : set_enf (enf s) s = s.
Proof. by destruct s. Qed.
Lemma refused_policy c sv headers r s en err :
  sound (set_enf en s) → (∀ ctx, ¬ admitted c sv headers r s ctx) →
  serve c sv headers r s = (Err err, set_enf en s) → code err ∈ refusals → by_policy c sv headers r s.
Proof. intros Hs Hn He Hc. exists en. split; [done|]. right. eauto. Qed.
Lemma admitted_policy c sv headers r s en ctx :
  sound (set_enf en s) → admitted c sv headers r s ctx →
  serve c sv headers r s = handle c sv ctx (any_request headers r) (set_enf en s) → by_policy c sv headers r s.
Proof. intros Hs Ha He. exists en. split; [done|]. left. eauto. Qed.
(** One text carries one token. *)
Lemma carries_one headers tok tok' : carries headers tok → carries headers tok' → tok = tok'.
Proof.
  intros (x & Hx & Hns & Hf) (y & Hy & Hns' & Hf').
  assert (bearer EqualFold (x +:+ " " +:+ tok) = Some tok) as H1 by (apply bearer_exact; eauto).
  assert (bearer EqualFold (x +:+ " " +:+ tok) = Some tok') as H2 by (apply bearer_exact; exists y; split_and!; [congruence|done|done]).
  congruence.
Qed.

(** Whether there is a valid token can be told from the header. *)
Lemma classic_token headers (f : string → outcome aerr Claims) :
  (∃ tok claims, carries headers tok ∧ f tok = Ok claims) ∨ (∀ tok claims, carries headers tok → f tok ≠ Ok claims).
Proof.
  destruct (headers !! "Authorization") as [h|] eqn:Hh; [|right; intros tok claims (x & Hx & _); congruence].
  destruct (bearer EqualFold h) as [tok|] eqn:Hb.
  - pose proof (proj1 (bearer_exact h tok) Hb) as (x & -> & Hns & Hf).
    assert (carries headers tok) as Hc by (exists x; auto).
    destruct (f tok) as [claims|] eqn:Hv; [left; eauto|]. right. intros tok' claims Hc'. rewrite (carries_one headers tok' tok) by done. congruence.
  - right. intros tok claims (x & Hx & Hns & Hf). assert (h = x +:+ " " +:+ tok) as -> by congruence.
    assert (bearer EqualFold (x +:+ " " +:+ tok) = Some tok) by (apply bearer_exact; eauto). congruence.
Qed.
Lemma serve_public c sv headers r s :
  is_public (PublicProcedures (permissionConfig sv)) (procedure r) = true →
  serve c sv headers r s = handle c sv background (any_request headers r) s.
Proof. intros Hp. unfold ConnectApi.serve, authInterceptor, rbacInterceptor. cbn [Procedure]. by rewrite Hp. Qed.
Lemma serve_unauthenticated c sv headers r s :
  is_public (PublicProcedures (permissionConfig sv)) (procedure r) = false →
  (∀ tok claims, carries headers tok → ValidateAccessToken (env c) (jwtManager (authService sv)) tok ≠ Ok claims) →
  serve c sv headers r s = (Err (NewError CodeUnauthenticated ""), s).
Proof.
  intros Hp Hn. unfold ConnectApi.serve, authInterceptor. cbn [Procedure]. rewrite Hp. unfold header. cbn [Header].
  case_bool_decide as He; [done|]. destruct (bearer _ _) as [tok|] eqn:Hb; [|done].
  destruct (headers !! "Authorization") as [h|] eqn:Hh; [|done].
  change (default "" (Some h)) with h in *. apply bearer_exact in Hb as (scheme & -> & Hs & Hf).
  destruct (ValidateAccessToken _ _ tok) as [claims|] eqn:Hv; [|done].
  exfalso. apply (Hn tok claims); [exists scheme; auto|done].
Qed.
Lemma serve_authenticated c sv headers r s tok claims :
  is_public (PublicProcedures (permissionConfig sv)) (procedure r) = false →
  carries headers tok → ValidateAccessToken (env c) (jwtManager (authService sv)) tok = Ok claims →
  serve c sv headers r s =
  rbacInterceptor (HasPermission_call Unmarshal c) (permissionConfig sv) (handle c sv) (WithClaims claims background) (any_request headers r) s.
Proof.
  intros Hp (scheme & Hh & Hs & Hf) Hv. unfold ConnectApi.serve, authInterceptor. cbn [Procedure]. rewrite Hp. unfold header. cbn [Header].
  rewrite Hh. cbn [default from_option id]. rewrite bool_decide_false by (by destruct scheme).
  assert (bearer EqualFold (scheme +:+ " " +:+ tok) = Some tok) as -> by (apply bearer_exact; eauto). by rewrite Hv.
Qed.
(** What the permission interceptor does of a request with claims. *)
Lemma rbac_policy c sv claims req s :
  sound s → is_public (PublicProcedures (permissionConfig sv)) (procedure (Any req)) = false → Procedure req = procedure (Any req) →
  ∃ en, sound (set_enf en s) ∧
    let res := rbacInterceptor (HasPermission_call Unmarshal c) (permissionConfig sv) (handle c sv) (WithClaims claims background) req s in
    (permitted c (permissionConfig sv) (Any req) claims s ∧ res = handle c sv (WithClaims claims background) req (set_enf en s)) ∨
    (¬ permitted c (permissionConfig sv) (Any req) claims s ∧ ∃ err, res = (Err err, set_enf en s) ∧ code err ∈ refusals).
Proof.
  intros Hs Hp Hproc. unfold rbacInterceptor, permitted. rewrite Hproc, Hp.
  destruct (ProcedurePermissions (permissionConfig sv) !! procedure (Any req)) as [perm|].
  2:{ exists (enf s). rewrite set_enf_same. split; [done|]. by left. }
  cbn [ctx_claims WithClaims].
  destruct (uuid_Parse (c_UserID claims)) as [uid|], (uuid_Parse (c_CompanyID claims)) as [cid|].
  2-4: exists (enf s); rewrite set_enf_same; split; [done|]; right; split;
    [by intros (? & ? & ? & ? & ? & ? & _)|eexists; split; [done|by vm_compute; repeat constructor]].
  pose proof (HasPermission_call_spec c uid cid (pp_Feature perm +:+ ":" +:+ pp_Action perm) s Hs) as Hcall.
  unfold attempt, mbind, prog_bind. destruct (HasPermission_call _ c uid cid _ s) as [res s1].
  destruct Hcall as (-> & (en & ->) & Hs1). exists en. split; [done|].
  destruct (load_permissions Unmarshal (env c) (rbac_view (backend s)) uid cid) as [[ps lv]|err] eqn:Hl.
  - destruct (granted ps _) eqn:Hg; [left|right]; (split; [|]).
    + by exists uid, cid, ps, lv.
    + done.
    + intros (? & ? & ? & ? & [= <-] & [= <-] & Hl' & Hg'). congruence.
    + eexists; split; [done|by vm_compute; repeat constructor].
  - right. split; [intros (? & ? & ? & ? & [= <-] & [= <-] & Hl' & _); congruence|].
    eexists; split; [done|by vm_compute; repeat constructor].
Qed.

Lemma serve_policy c sv headers r s : sound s → by_policy c sv headers r s.
Proof.
  intros Hs. destruct (is_public (PublicProcedures (permissionConfig sv)) (procedure r)) eqn:Hpub.
  { apply (admitted_policy c sv headers r s (enf s) background); rewrite ?set_enf_same; [done|by constructor|by apply serve_public]. }
  destruct (classic_token headers (λ tok, ValidateAccessToken (env c) (jwtManager (authService sv)) tok)) as [(tok & claims & Hc & Hv)|Hn].
  - destruct (rbac_policy c sv claims (any_request headers r) s Hs Hpub eq_refl) as (en & Hen & [[Hp He]|[Hp (err & He & Hcode)]]).
    + apply (admitted_policy c sv headers r s en (WithClaims claims background)); [done|by econstructor|].
      by rewrite (serve_authenticated c sv headers r s tok claims).
    + apply (refused_policy c sv headers r s en err); [done| |by rewrite (serve_authenticated c sv headers r s tok claims)|done].
      intros ctx [Hx|tok' claims' _ Hc' Hv' Hp']; [congruence|]. assert (tok' = tok) as -> by (by eapply carries_one).
      assert (claims' = claims) as -> by congruence. by apply Hp.
  - apply (refused_policy c sv headers r s (enf s) (NewError CodeUnauthenticated "")); rewrite ?set_enf_same; [done| |by apply serve_unauthenticated|by repeat constructor].
    intros ctx [Hx|tok claims _ Hc Hv _]; [congruence|]. by eapply Hn.
Qed.

Lemma serve_upholds c sv headers r s : fresh_ids c s → upholds s (serve c sv headers r s).2.
Proof.
  intros [Hu Hr] Hs. destruct (serve_policy c sv headers r s Hs) as (en & Hen & [(ctx & _ & ->)|(_ & err & -> & _)]); [|done].
  by apply (handle_upholds c sv ctx (any_request headers r) (set_enf en s)).
Qed.
Inductive api_step : relation Server :=
  | api_call c sv headers r s : fresh_ids c s → api_step s (serve c sv headers r s).2.
Lemma reachable_sound s0 s : backend_wf (backend s0) → cache (enf s0) = ∅ → rtc api_step s0 s → sound s.
Proof.
  intros Hwf Hc Hrun. apply (rtc_preserves api_step sound s0 s); [|done|split; [done|]].
  - intros a b [c sv headers r a' Hf]. by apply serve_upholds.
  - intros e u cid ce. cbn. by rewrite Hc.
Qed.

(** C2: a server that starts with a well-formed backend and an empty cache, after any
    sequence of requests to any of the 36 procedures, whatever their outcome, treats
    the next one by the policy: it reaches its handler exactly when it is public or
    carries a valid access token whose user holds, in the company of the token, the
    permission its procedure is mapped to, as the store has it at that moment and not
    as some cache remembers it; otherwise it is refused as unauthenticated, denied or
    failed, and changes nothing but cache entries.  The backend is well formed all along. *)
Theorem requests_by_policy s0 s c sv headers r :
  backend_wf (backend s0) → cache (enf s0) = ∅ → rtc api_step s0 s →
  backend_wf (backend s) ∧ by_policy c sv headers r s.
Proof.
  intros Hwf Hc Hrun. pose proof (reachable_sound s0 s Hwf Hc Hrun) as Hs. split; [apply Hs|by apply serve_policy].
Qed.

(** ** What the permission does not cover *)

(** The keys of the permissions of a role. *)
Definition role_keys (b : memoryState) (role : uuid) : gmap string bool :=
  foldl (λ ps p, <[p_Feature p +:+ ":" +:+ p_Action p := true]> ps) ∅
    (omap (λ pid, ms_rbacPermissions b !! pid) (default [] (ms_rolePermissions b !! role))).
Lemma parse_id_Ok i s : parse_id (L := L) (HS := HS) uuid_error (uuid_String i) s = (Ok i, s).
Proof. unfold parse_id. by rewrite uuid_Parse_String. Qed.
Lemma load_member e b cid uid m role :
  rbacMemberships b !! membership_key cid uid = Some m → rbacRoles b !! m_RoleID m = Some role → m_PermissionOverrides m = None →
  Rbac.dev_GetUserRole b cid uid = Ok role ∧
  load_permissions Unmarshal e b uid cid =
    Ok (foldl (λ ps p, <[p_Feature p +:+ ":" +:+ p_Action p := true]> ps) ∅
          (omap (λ pid, rbacPermissions b !! pid) (default [] (rolePermissions b !! r_ID role))), r_Level role).
Proof.
  intros Hm Hr Ho. assert (Rbac.dev_GetUserRole b cid uid = Ok role) as Hrole by (unfold Rbac.dev_GetUserRole; rewrite Hm; cbn; by rewrite Hr).
  split; [done|]. unfold load_permissions, GetUserRole, ListPermissionsByRole, GetMembership, dev_RBACStore. rewrite Hrole.
  unfold dev_ListPermissionsByRole, dev_GetMembership. by rewrite Hm, Ho.
Qed.
Lemma AssignRole_granted e cid uid rid by_ role s :
  rid ≠ OwnerRoleID → ms_rbacRoles (backend s) !! rid = Some role → r_ID role = rid →
  ∃ s', on_rbac (L := L) (Rbac.AssignRole e cid uid rid by_) s = (Ok tt, s') ∧
    Rbac.dev_GetUserRole (rbac_view (backend s')) cid uid = Ok role ∧
    ∀ e2, load_permissions Unmarshal e2 (rbac_view (backend s')) uid cid = Ok (role_keys (backend s) rid, r_Level role).
Proof.
  intros Ho Hr Hid. unfold on_rbac, Rbac.AssignRole, invalidate_all, Rbac.on_store. rewrite bool_decide_false by done. prog_unfold.
  cbn [AssignRoleToUser dev_RBACStore]. unfold dev_AssignRoleToUser. cbn. rewrite Hr. cbn. eexists. split; [done|].
  set (b' := rbac_view _).
  assert (∀ e2, Rbac.dev_GetUserRole b' cid uid = Ok role ∧ load_permissions Unmarshal e2 b' uid cid = Ok (role_keys (backend s) rid, r_Level role)) as Hall.
  { intros e2. unfold role_keys. rewrite <-Hid at 1. eapply load_member; [by apply lookup_insert_eq|done|done]. }
  split; [by apply (Hall e)|]. intros e2. apply Hall.
Qed.

Lemma AssignRole_mapped cid uid rid :
  ProcedurePermissions dev_config !! procedure (AssignRoleRequest cid uid rid) = Some (settings "admin").
Proof. by vm_compute. Qed.

(** C3: the permission to administer is looked up in the company of the caller's token
    and spent in the company named by the message: whoever administers any company,
    his own included, gives any user, himself included, any role but the owner's in
    any company, and the enforcer then grants that user there exactly the permissions
    of that role. *)
Theorem assignment_crosses_companies c sv headers s tok claims caller own ps level cid uid rid role :
  permissionConfig sv = dev_config → sound s → carries headers tok →
  ValidateAccessToken (env c) (jwtManager (authService sv)) tok = Ok claims →
  uuid_Parse (c_UserID claims) = Some caller → c_UserID claims ≠ "" → uuid_Parse (c_CompanyID claims) = Some own →
  load_permissions Unmarshal (env c) (rbac_view (backend s)) caller own = Ok (ps, level) → granted ps "settings:admin" = true →
  rid ≠ OwnerRoleID → ms_rbacRoles (backend s) !! rid = Some role → r_ID role = rid →
  ∃ s', serve c sv headers (AssignRoleRequest (uuid_String cid) (uuid_String uid) (uuid_String rid)) s = (Ok AssignRoleResponse, s') ∧
    Rbac.dev_GetUserRole (rbac_view (backend s')) cid uid = Ok role ∧
    ∀ c2 perm, (HasPermission_call Unmarshal c2 uid cid perm s').1 = Ok (granted (role_keys (backend s) rid) perm).
Proof.
  intros Hcfg Hs Hc Hv Hcaller Hne Hown Hl Hg Ho Hr Hid.
  pose proof (serve_authenticated c sv headers (AssignRoleRequest (uuid_String cid) (uuid_String uid) (uuid_String rid)) s tok claims) as He.
  rewrite Hcfg in He. specialize (He eq_refl Hc Hv).
  destruct (rbac_policy c sv claims (any_request headers (AssignRoleRequest (uuid_String cid) (uuid_String uid) (uuid_String rid))) s Hs)
    as (en & Hen & [[_ Hres]|[Hn _]]); [by rewrite Hcfg|done| |].
  2:{ exfalso. apply Hn. unfold permitted. cbn [Any any_request]. rewrite Hcfg, AssignRole_mapped. exists caller, own, ps, level. exact (conj Hcaller (conj Hown (conj Hl Hg))). }
  rewrite He, <-Hcfg, Hres. unfold ConnectApi.handle. cbn [Any any_request]. unfold AssignRole_handler.
  unfold mbind at 1 2 3, prog_bind at 1 2 3. rewrite !parse_id_Ok. cbn [ExtractClaims WithClaims ctx_claims fst].
  rewrite bool_decide_false, Hcaller by done. unfold answering, mbind, prog_bind.
  destruct (AssignRole_granted (env c) cid uid rid caller role (set_enf en s)) as (s' & Ha & Hrole & Hload); [done..|].
  assert (sound s') as Hs'. { pose proof (upholds_AssignRole (env c) cid uid rid caller (set_enf en s) Hen) as Hk. by rewrite Ha in Hk. }
  rewrite Ha. exists s'. split_and!; [done|done|]. intros c2 perm.
  pose proof (HasPermission_call_spec c2 uid cid perm s' Hs') as Hp. destruct (HasPermission_call _ c2 uid cid perm s') as [res s2].
  destruct Hp as [-> _]. by rewrite Hload.
Qed.

(** The handlers that look at the claims. *)
Definition personal (r : request) : bool :=
  match r with
  | UpdateProfileRequest _ _ | ListCompaniesRequest | GetBadgeCountsRequest _ | AssignRoleRequest _ _ _ => true
  | _ => false
  end.
Lemma handle_impersonal c sv ctx ctx' headers headers' r s :
  personal r = false → handle c sv ctx (any_request headers r) s = handle c sv ctx' (any_request headers' r) s.
Proof. by destruct r. Qed.
(** A procedure without a permission answers any two users alike: whatever company
    the request names, the answer and the effect are the same for everybody with a valid
    token, be it the members, the roles and permissions of its users, its audit log, its
    webhooks with their signing secrets, or the break-glass events it is given. *)
Theorem any_user_reads_any_company c sv headers headers' s tok tok' claims claims' r :
  permissionConfig sv = dev_config → sound s → carries headers tok → carries headers' tok' →
  ValidateAccessToken (env c) (jwtManager (authService sv)) tok = Ok claims →
  ValidateAccessToken (env c) (jwtManager (authService sv)) tok' = Ok claims' →
  is_public (PublicProcedures dev_config) (procedure r) = false →
  defaultProcedurePermissions !! procedure r = None → personal r = false →
  serve c sv headers r s = serve c sv headers' r s.
Proof.
  intros Hcfg Hs Hc Hc' Hv Hv' Hpub Hperm Hr. rewrite <-Hcfg in Hpub.
  rewrite (serve_authenticated c sv headers r s tok claims), (serve_authenticated c sv headers' r s tok' claims') by done.
  unfold rbacInterceptor. cbn [Procedure any_request]. rewrite Hpub.
  rewrite Hcfg. cbn [ProcedurePermissions dev_config]. rewrite Hperm. by apply handle_impersonal.
Qed.
End server.

(** ** Witnesses *)

Section examples.
#[local] Existing Instances toy_jwt binary_uuid_text ascii_case toy_kdf toy_jwt_laws toy_kdf_laws identity_sha256.
#[local] Instance no_sso : SSOLib := {| Provider := unit; SP := unit |}.

Definition ex_upstream : Upstream := {|
  NewProvider := λ _, None; GenerateVerifier := ""; AuthCodeURL := λ _ _ _, ""; Exchange := λ _ _ _, None; VerifyIDToken := λ _ _ _, None;
  FetchSP := λ _ _, None; AuthnRedirect := λ _ _, None; ParseResponse := λ _, None |}.
Definition same_text (a b : string) : bool := bool_decide (a = b).
Definition ex_serve := ConnectApi.serve (HS := InMemoryHandoffStore) any_address ex_stamp ex_stamp (λ _, "invalid UUID") (λ _, None) (Json := unit)
  (λ _, None) (λ _, Ok "") (λ _, None) same_text.
Definition ex_services : Services := {|
  authService := ex_service; ssoService := NewSSOService ex_manager "https://app"; socialService := None; reg := ∅;
  adapterRegistry := NewAdapterRegistry; ingester := None; permissionConfig := dev_config |}.
Definition ex_call (t : Z) (k : uuid) (r : string) : Call :=
  {| env := ex_env t k; rand := ex_rand r; upstream := ex_upstream; secret := "s"; stored := (t * Second)%Z |}.
Definition ex_started : Server := {|
  backend := seedRBACData (ex_env 1 100) NewMemoryBackend; enf := NewEnforcer None; providers := ∅; handoffs := NewInMemoryHandoffStore; ingested := [] |}.
(** Ada and Bob sign up, each with a company of his own. *)
Definition ex_ada : response * Server := run Aborted (ex_serve (ex_call 10 10 "a") ex_services ∅ (SignUpRequest "ada@example.org" "password" "Ada") ex_started).
Definition ex_bob : response * Server := run Aborted (ex_serve (ex_call 11 20 "b") ex_services ∅ (SignUpRequest "bob@example.org" "password" "Bob") ex_ada.2).
Definition token_in (r : response) : string := match r with SignUpResponse a => ad_AccessToken a | _ => "" end.
Definition bearing (tok : string) : gmap string string := {["Authorization" := "bearer" +:+ " " +:+ tok]}.
Definition value {X A} (d : A) (o : outcome X A) : A := match o with Ok a => a | Err _ => d end.
Lemma value_Ok {X A} (d : A) (o : outcome X A) : is_Ok o = true → o = Ok (value d o).
Proof. by destruct o. Qed.
Definition claims_of (tok : string) : Claims :=
  value (registered_only (registered (ex_env 20 30) ex_manager "" "" 0%Z)) (ValidateAccessToken (ex_env 20 30) ex_manager tok).

Lemma ex_carries tok : carries same_text (bearing tok) tok.
Proof. exists "bearer". split_and!; [by apply lookup_singleton_eq|by apply (bool_decide_unpack _)|done]. Qed.
Definition fresh_idsb (c : Call) (s : Server (HS := InMemoryHandoffStore)) : bool :=
  bool_decide (usersByID (backend s) !! new_id (env c) 0 = None) &&
  bool_decide (map_Forall (λ _ m, m_RoleID m ≠ new_id (env c) 0) (rbacMemberships (rbac_view (backend s)))) &&
  bool_decide (map_Forall (λ _ r, ar_ID r ≠ new_id (env c) 0) (roles (rbac_view (backend s)))) &&
  bool_decide (map_Forall (λ _ r, r_ID r ≠ new_id (env c) 0) (rbacRoles (rbac_view (backend s)))).
Lemma fresh_idsb_ok c s : fresh_idsb c s = true → fresh_ids c s.
Proof.
  unfold fresh_idsb. rewrite !andb_true_iff, !bool_decide_eq_true. intros [[[Hu Hm] Ha] Hr].
  split; [done|]. split; [exact Hm|exact Ha|exact Hr].
Qed.
Lemma ex_started_wf : backend_wf (backend ex_started).
Proof. apply seed_wf, NewMemoryBackend_wf. Qed.
Lemma run_snd {St E A} (d : A) (p : outcome E A * St) : (run d p).2 = p.2.
Proof. by destruct p as [[a|err] t]. Qed.
Abbreviation ex_step := (api_step any_address ex_stamp ex_stamp (λ _, "invalid UUID") (λ _, None) (Json := unit) (λ _, None) (λ _, Ok "") (λ _, None) same_text).
Lemma ex_reached : rtc ex_step ex_started ex_bob.2.
Proof.
  apply (rtc_l _ _ ex_ada.2); [|apply rtc_once].
  - unfold ex_ada. rewrite run_snd. apply (api_call any_address ex_stamp ex_stamp). apply fresh_idsb_ok. by vm_compute.
  - unfold ex_bob. rewrite run_snd. apply (api_call any_address ex_stamp ex_stamp). apply fresh_idsb_ok. by vm_compute.
Qed.
Lemma ex_bob_sound : sound (λ _, None) ex_bob.2.
Proof. apply (reachable_sound any_address ex_stamp ex_stamp (λ _, "invalid UUID") (λ _, None) (Json := unit) (λ _, None) (λ _, Ok "") (λ _, None) same_text ex_started); [apply ex_started_wf|done|apply ex_reached]. Qed.

Lemma requests_by_policy_witness :
  backend_wf (backend ex_bob.2) ∧
  by_policy any_address ex_stamp ex_stamp (λ _, "invalid UUID") (λ _, None) (Json := unit) (λ _, None) (λ _, Ok "") (λ _, None) same_text
    (ex_call 20 30 "c") ex_services (bearing (token_in ex_bob.1)) (ListWebhooksRequest (uuid_String 11)) ex_bob.2.
Proof.
  apply (requests_by_policy any_address ex_stamp ex_stamp (λ _, "invalid UUID") (λ _, None) (λ _, None) (λ _, Ok "") (λ _, None) same_text ex_started);
    [apply ex_started_wf|done|apply ex_reached].
Defined.

(** Bob makes himself an administrator of Ada's company. *)
Definition ex_admin : Rbac.Role :=
  {| r_ID := AdminRoleID; r_CompanyID := None; r_Name := "admin"; r_Description := ""; r_Level := RoleLevelAdmin; r_IsSystem := true |}.
Definition ex_owned : gmap string bool * Z :=
  value (∅, 0%Z) (load_permissions (λ _, None) (ex_env 20 30) (rbac_view (backend ex_bob.2)) 20 21).
Lemma ex_owned_loads : is_Ok (load_permissions (λ _, None) (ex_env 20 30) (rbac_view (backend ex_bob.2)) 20 21) = true.
Proof. by vm_compute. Qed.
Lemma ex_token_valid : is_Ok (ValidateAccessToken (ex_env 20 30) ex_manager (token_in ex_bob.1)) = true.
Proof. by vm_compute. Qed.
Lemma assignment_crosses_companies_witness :
  ∃ s', ex_serve (ex_call 20 30 "c") ex_services (bearing (token_in ex_bob.1))
      (AssignRoleRequest (uuid_String 11) (uuid_String 20) (uuid_String AdminRoleID)) ex_bob.2 = (Ok AssignRoleResponse, s') ∧
    Rbac.dev_GetUserRole (rbac_view (backend s')) 11 20 = Ok ex_admin ∧
    ∀ c2 perm, (HasPermission_call (λ _, None) c2 20 11 perm s').1 = Ok (granted (role_keys (backend ex_bob.2) AdminRoleID) perm).
Proof.
  apply (assignment_crosses_companies any_address ex_stamp ex_stamp (λ _, "invalid UUID") (λ _, None) (λ _, None) (λ _, Ok "") (λ _, None) same_text
    (ex_call 20 30 "c") ex_services (bearing (token_in ex_bob.1)) ex_bob.2 (token_in ex_bob.1) (claims_of (token_in ex_bob.1)) 20 21 ex_owned.1 ex_owned.2).
  1: done. 1: apply ex_bob_sound. 1: apply ex_carries. 1: exact (value_Ok _ _ ex_token_valid).
  4: exact (eq_trans (value_Ok (∅, 0%Z) _ ex_owned_loads) (f_equal Ok (surjective_pairing _))).
  1: by vm_compute.
  1: by vm_compute.
  1: by vm_compute.
  1: by vm_compute.
  1: by vm_compute.
  1: by vm_compute.
  done.
Defined.

Lemma ex_ada_token_valid : is_Ok (ValidateAccessToken (ex_env 20 30) ex_manager (token_in ex_ada.1)) = true.
Proof. by vm_compute. Qed.
Lemma any_user_reads_any_company_witness :
  ex_serve (ex_call 20 30 "c") ex_services (bearing (token_in ex_ada.1)) (ListWebhooksRequest (uuid_String 11)) ex_bob.2 =
  ex_serve (ex_call 20 30 "c") ex_services (bearing (token_in ex_bob.1)) (ListWebhooksRequest (uuid_String 11)) ex_bob.2.
Proof.
  apply (any_user_reads_any_company any_address ex_stamp ex_stamp (λ _, "invalid UUID") (λ _, None) (λ _, None) (λ _, Ok "") (λ _, None) same_text
    (ex_call 20 30 "c") ex_services (bearing (token_in ex_ada.1)) (bearing (token_in ex_bob.1)) ex_bob.2 (token_in ex_ada.1) (token_in ex_bob.1)
    (claims_of (token_in ex_ada.1)) (claims_of (token_in ex_bob.1)) (ListWebhooksRequest (uuid_String 11)));
    [done|apply ex_bob_sound|apply ex_carries|apply ex_carries|exact (value_Ok _ _ ex_ada_token_valid)|exact (value_Ok _ _ ex_token_valid)
    |by vm_compute|by vm_compute|done].
Defined.
End examples.
