(* ===== verification/Credentials.v ===== *)
(** * Other credentials (platform/auth/apikey, emailotp, totp, session, oauth, breach)

    API keys found by prefix and checked by digest; one-time codes; backup
    codes; the cookie and the client address of a session; the user
    information of OAuth providers; breach screeners.  bcrypt, SHA-1, HTTP exchanges
    and [encoding/json] are parameters. *)

From S2P Require Import Prelude Encoding Auth.

(** bcrypt; [bcrypt_Generate] takes the salt it draws and fails for long
    passwords. *)
Class Bcrypt : Type := {
  bcrypt_Generate : string → string → option string;
  bcrypt_Compare : string → string → bool;
}.
(** What the package documents. *)
Class BcryptLaws (B : Bcrypt) : Prop :=
  bcrypt_verifies salt pw digest : bcrypt_Generate salt pw = Some digest → bcrypt_Compare digest pw = true.

(** ** apikey.go *)
Module apikey.
Definition DefaultPrefix : string := "aoc_".
Definition PrefixLookupLength : nat := 8.

Inductive apikey_error : Type := ErrInvalidKeyFormat | ErrKeyNotFound.
#[export] Instance apikey_error_eq_dec : EqDecision apikey_error.
Proof. solve_decision. Defined.
Abbreviation kerr := (goerr apikey_error) (only parsing).

Record AuthenticatedKey : Type := { ak_UserID : string; ak_KeyID : string; ak_Scopes : list string }.
Record Candidate : Type := {
  ca_ID : string;
  ca_KeyDigest : string;
  ca_UserID : string;
  ca_Scopes : list string;
}.

Class Store (St : Type) : Type := {
  LookupByPrefix : Env → string → prog St kerr (list Candidate);
  MarkUsed : string → time → prog St kerr unit;
}.

Section apikey.
Context {B : Bcrypt} {St : Type} {S : Store St}.

Definition or_default (prefix : string) : string := if bool_decide (prefix = "") then DefaultPrefix else prefix.
Definition authenticated (c : Candidate) : AuthenticatedKey :=
  {| ak_UserID := ca_UserID c; ak_KeyID := ca_ID c; ak_Scopes := ca_Scopes c |}.

(** The loop over the candidates. *)
Fixpoint try_candidates (e : Env) (rawKey : string) (candidates : list Candidate) :
    prog St kerr AuthenticatedKey :=
  match candidates with
  | [] => throw (Sentinel ErrKeyNotFound)
  | c :: rest =>
      if bcrypt_Compare (ca_KeyDigest c) rawKey then
        _ ← ignore (MarkUsed (ca_ID c) (now e));
        mret (authenticated c)
      else try_candidates e rawKey rest
  end.

(** [prefix] is the one of the authenticator. *)
Definition Authenticate (e : Env) (prefix rawKey : string) : prog St kerr AuthenticatedKey :=
  if negb (String.prefix (or_default prefix) rawKey) then throw (Sentinel ErrInvalidKeyFormat)
  else if bool_decide (String.length rawKey < PrefixLookupLength)%nat then throw (Sentinel ErrInvalidKeyFormat)
  else
    candidates ← wrapping "looking up API keys"
      (LookupByPrefix e (String.substring 0 PrefixLookupLength rawKey));
    match candidates with
    | [] => throw (Sentinel ErrKeyNotFound)
    | _ => try_candidates e rawKey candidates
    end.
End apikey.

Definition ExtractFromHeaders (prefix xAPIKey authHeader queryParam : string) : string :=
  let prefix := or_default prefix in
  if negb (bool_decide (xAPIKey = "")) then xAPIKey
  else if String.prefix "Bearer " authHeader && String.prefix prefix (trim_prefix "Bearer " authHeader)
  then trim_prefix "Bearer " authHeader
  else queryParam.

Definition HashKey {B : Bcrypt} (salt rawKey : string) : outcome kerr string :=
  match bcrypt_Generate salt rawKey with
  | None => Err (Errorf "hashing API key")
  | Some hash => Ok hash
  end.
Definition GenerateKey (prefix randomBytes : string) : string :=
  or_default prefix +:+ hex_EncodeToString randomBytes.
End apikey.

(** ** emailotp.go *)
Module emailotp.
Definition CodeLength : nat := 6.
Definition DefaultExpiry : duration := (10 * Minute)%Z.

Fixpoint zeros (n : nat) : string := match n with O => "" | S n => String "0" (zeros n) end.
(** [fmt.Sprintf] of [%06d], for a number that is not negative. *)
Definition pad6 (n : Z) : string := zeros (6 - String.length (pretty n)) +:+ pretty n.
(** [drawn] is what [rand.Int] drew below a million; [None] when it failed. *)
Definition Generate {X} (drawn : option Z) : outcome (goerr X) string :=
  match drawn with
  | None => Err (Errorf "generating email OTP")
  | Some n => Ok (pad6 n)
  end.

Definition Verify (e : Env) (storedCode providedCode : string) (sentAt : time) (expiry : duration) : bool :=
  if bool_decide (storedCode = "") || bool_decide (providedCode = "") then false
  else
    let expiry := if bool_decide (expiry = 0)%Z then DefaultExpiry else expiry in
    if bool_decide (expiry < now e - sentAt)%Z then false
    else bool_decide (storedCode = providedCode).
End emailotp.

(** ** totp.go: the backup codes *)
Module totp.
Definition DefaultBackupCodeCount : Z := 10.
Definition BackupCodeLength : nat := 8.

Section totp.
Context {B : Bcrypt}.
(** Each code takes four random bytes ([None] when they cannot be read) and a salt. *)
Fixpoint backup_codes {X} (n : nat) (draws : nat → option string) (salts : nat → string) :
    outcome (goerr X) (list (string * string)) :=
  match n with
  | O => Ok []
  | S i =>
      match backup_codes i draws salts with
      | Err err => Err err
      | Ok codes =>
          match draws i with
          | None => Err (Errorf "generating backup code")
          | Some bytes =>
              let code := hex_EncodeToString bytes in
              match bcrypt_Generate (salts i) code with
              | None => Err (Errorf "hashing backup code")
              | Some hash => Ok (codes ++ [(code, hash)])
              end
          end
      end
  end.
Definition GenerateBackupCodes {X} (count : Z) (draws : nat → option string) (salts : nat → string) :
    outcome (goerr X) (list string * list string) :=
  let count := if bool_decide (count ≤ 0)%Z then DefaultBackupCodeCount else count in
  match backup_codes (Z.to_nat count) draws salts with
  | Err err => Err err
  | Ok codes => Ok (codes.*1, codes.*2)
  end.

(** The loop of [VerifyBackupCode] from index [i]. *)
Fixpoint verify_from (i : Z) (code : string) (hashedCodes : list string) : Z :=
  match hashedCodes with
  | [] => (-1)%Z
  | hash :: rest => if bcrypt_Compare hash code then i else verify_from (i + 1)%Z code rest
  end.
Definition VerifyBackupCode (code : string) (hashedCodes : list string) : Z := verify_from 0 code hashedCodes.
End totp.

Definition Issuer : string := "AOC Platform".
(** [NewKeyFromURL] is that of the library, with [Key.URL]. *)
Definition GenerateProvisioningURI (NewKeyFromURL : string → option string) (secret accountName : string) :
    string :=
  let uri := "otpauth://totp/" +:+ Issuer +:+ ":" +:+ accountName +:+ "?secret=" +:+ secret
             +:+ "&issuer=" +:+ Issuer +:+ "&algorithm=SHA1&digits=6&period=30" in
  default uri (NewKeyFromURL uri).
End totp.

(** ** session.go: cookies and client addresses *)
Module session.
Definition DefaultLifetime : duration := (24 * Hour)%Z.
Inductive SameSite : Type := SameSiteNone | SameSiteLax.
Record Cookie : Type := {
  ck_Name : string;
  ck_Domain : option string;
  ck_Path : string;
  ck_HttpOnly : bool;
  ck_Secure : bool;
  ck_SameSite : SameSite;
  ck_Lifetime : duration;
}.
Record Config : Type := {
  CookieName : string;
  CookieDomain : string;
  Production : bool;
  Lifetime : duration;
}.
(** The domain is left as the library has it when none is configured. *)
Definition newCookieManager (cfg : Config) : Cookie :=
  {| ck_Name := CookieName cfg;
     ck_Domain := if bool_decide (CookieDomain cfg = "") then None else Some (CookieDomain cfg);
     ck_Path := "/"; ck_HttpOnly := true; ck_Secure := Production cfg;
     ck_SameSite := if Production cfg then SameSiteNone else SameSiteLax;
     ck_Lifetime := if bool_decide (Lifetime cfg = 0)%Z then DefaultLifetime else Lifetime cfg |}.

(** [strings.Index] and [strings.LastIndex] of one character. *)
Fixpoint index_char (c : ascii) (s : string) : option nat :=
  match s with
  | EmptyString => None
  | String a s => if bool_decide (a = c) then Some O else S <$> index_char c s
  end.
Fixpoint last_index_char (c : ascii) (s : string) : option nat :=
  match s with
  | EmptyString => None
  | String a s => match last_index_char c s with
                  | Some i => Some (S i)
                  | None => if bool_decide (a = c) then Some O else None
                  end
  end.
(** [s[:i]] for an index above 0, else [s]. *)
Definition cut_at (i : option nat) (s : string) : string :=
  match i with Some (S i) => String.substring 0 (S i) s | _ => s end.

Record Request : Type := { X_Forwarded_For : string; X_Real_IP : string; RemoteAddr : string }.
Definition ClientIP (r : Request) : string :=
  if negb (bool_decide (X_Forwarded_For r = ""))
  then TrimSpace (cut_at (index_char "," (X_Forwarded_For r)) (X_Forwarded_For r))
  else if negb (bool_decide (X_Real_IP r = "")) then TrimSpace (X_Real_IP r)
  else cut_at (last_index_char ":" (RemoteAddr r)) (RemoteAddr r).

(** The scs manager: the data of the current session are a map of texts. *)
Definition KeyUserID : string := "user_id".
Definition KeyTwoFactorUser : string := "two_factor_user_id".
Abbreviation Session := (gmap string string) (only parsing).
Definition GetString (s : Session) (key : string) : string := default "" (s !! key).
Definition SetUserID (userID : string) (s : Session) : Session := <[KeyUserID := userID]> s.
Definition SetTwoFactorUserID (userID : string) (s : Session) : Session := <[KeyTwoFactorUser := userID]> s.
Definition get_user (key : string) (s : Session) : string * bool :=
  let v := GetString s key in if bool_decide (v = "") then ("", false) else (v, true).
Definition GetUserID : Session → string * bool := get_user KeyUserID.
Definition GetTwoFactorUserID : Session → string * bool := get_user KeyTwoFactorUser.
End session.

(** ** oauth.go: user information *)
Module oauth.
Record UserInfo : Type := { UID : string; Email : string; Name : string; Image : string }.
Record Request : Type := { rq_URL : string; rq_Authorization : string; rq_Accept : string }.
(** What the client answers: a status and a body. *)
Record Response : Type := { rs_Status : Z; rs_Body : string }.
Record EmailRow : Type := { em_Email : string; em_Primary : bool; em_Verified : bool }.

Section oauth.
Context {X : Type}.
(** [client.Do], [None] when it fails; [encoding/json] into the struct of each
    provider, in the order of its fields. *)
Context (Do : Request → option Response).
Context (decode_google : string → option (string * string * string * string)).
Context (decode_github : string → option (Z * string * string * string * string)).
Context (decode_emails : string → option (list EmailRow)).
Context (decode_facebook : string → option (string * string * string)).
Context (decode_twitter : string → option (string * string * string)).
Context (decode_apple : string → option (string * string)).
Context (decode_microsoft : string → option (string * string * string * string)).
Abbreviation oerr := (goerr X) (only parsing).

(** The request, the status check and the decoding every provider starts with. *)
Definition fetch {A} (decode : string → option A) (rq : Request) : outcome oerr A :=
  match Do rq with
  | None => Err (Errorf "calling userinfo")
  | Some resp =>
      if negb (bool_decide (rs_Status resp = 200%Z)) then Err (Errorf "userinfo returned another status")
      else match decode (rs_Body resp) with
           | None => Err (Errorf "decoding response")
           | Some a => Ok a
           end
  end.
Definition bearer (url accept accessToken : string) : Request :=
  {| rq_URL := url; rq_Authorization := "Bearer " +:+ accessToken; rq_Accept := accept |}.

Definition fetchGoogle (accessToken : string) : outcome oerr UserInfo :=
  match fetch decode_google (bearer "https://www.googleapis.com/oauth2/v3/userinfo" "" accessToken) with
  | Err err => Err err
  | Ok (sub, email, name, picture) => Ok {| UID := sub; Email := email; Name := name; Image := picture |}
  end.

Definition fetchGitHubPrimaryEmail (accessToken : string) : outcome oerr string :=
  match fetch decode_emails (bearer "https://api.github.com/user/emails" "application/vnd.github+json" accessToken) with
  | Err err => Err err
  | Ok emails =>
      match head (filter (λ em, em_Primary em && em_Verified em = true) emails) with
      | None => Err (Errorf "no primary verified email found")
      | Some em => Ok (em_Email em)
      end
  end.
Definition fetchGitHub (accessToken : string) : outcome oerr UserInfo :=
  match fetch decode_github (bearer "https://api.github.com/user" "application/vnd.github+json" accessToken) with
  | Err err => Err err
  | Ok (id, login, name, email, avatar) =>
      match (if bool_decide (email = "") then fetchGitHubPrimaryEmail accessToken else Ok email) with
      | Err err => Err (Wrapf "fetching github primary email" err)
      | Ok email =>
          Ok {| UID := pretty id; Email := email;
                Name := if bool_decide (name = "") then login else name; Image := avatar |}
      end
  end.

Definition fetchFacebook (accessToken : string) : outcome oerr UserInfo :=
  match fetch decode_facebook
          {| rq_URL := "https://graph.facebook.com/me?fields=id,name,email&access_token=" +:+ accessToken;
             rq_Authorization := ""; rq_Accept := "" |} with
  | Err err => Err err
  | Ok (id, name, email) => Ok {| UID := id; Email := email; Name := name; Image := "" |}
  end.

Definition fetchTwitter (accessToken : string) : outcome oerr UserInfo :=
  match fetch decode_twitter
          (bearer "https://api.twitter.com/2/users/me?user.fields=id,name,username" "" accessToken) with
  | Err err => Err err
  | Ok (id, name, _) => Ok {| UID := id; Email := ""; Name := name; Image := "" |}
  end.

Definition fetchApple (accessToken : string) : outcome oerr UserInfo :=
  match split_on "." accessToken with
  | _ :: part :: _ =>
      match base64_DecodeString URLAlphabet part with
      | None => Err (Errorf "decoding apple jwt payload")
      | Some payload =>
          match decode_apple payload with
          | None => Err (Errorf "parsing apple jwt claims")
          | Some (sub, email) =>
              if bool_decide (sub = "") then Err (Errorf "apple id_token missing sub claim")
              else Ok {| UID := sub; Email := email; Name := ""; Image := "" |}
          end
      end
  | _ => Err (Errorf "invalid apple id_token: expected JWT format")
  end.

Definition fetchMicrosoft (accessToken : string) : outcome oerr UserInfo :=
  match fetch decode_microsoft (bearer "https://graph.microsoft.com/v1.0/me" "" accessToken) with
  | Err err => Err err
  | Ok (id, displayName, mail, userPrincipalName) =>
      Ok {| UID := id; Email := if bool_decide (mail = "") then userPrincipalName else mail;
            Name := displayName; Image := "" |}
  end.

Definition FetchUserInfo (provider accessToken : string) : outcome oerr UserInfo :=
  if bool_decide (provider = "google") then fetchGoogle accessToken
  else if bool_decide (provider = "github") then fetchGitHub accessToken
  else if bool_decide (provider = "facebook") then fetchFacebook accessToken
  else if bool_decide (provider = "twitter") then fetchTwitter accessToken
  else if bool_decide (provider = "apple") then fetchApple accessToken
  else if bool_decide (provider = "microsoft") then fetchMicrosoft accessToken
  else Err (Errorf "unsupported OAuth provider").
End oauth.
End oauth.

(** ** breach: screening of passwords *)
Module breach.
Inductive breach_error : Type := ErrScreenerUnavailable | ErrInvalidPrefix.
#[export] Instance breach_error_eq_dec : EqDecision breach_error.
Proof. solve_decision. Defined.
Abbreviation berr := (goerr breach_error) (only parsing).

(** [sort.Search]: the loop on [i < j], [fuel] at least [j - i]. *)
Fixpoint search_loop (f : nat → bool) (fuel i j : nat) : nat :=
  match fuel with
  | O => i
  | S fuel =>
      if bool_decide (i < j)%nat then
        let h := ((i + j) / 2)%nat in
        if f h then search_loop f fuel i h else search_loop f fuel (S h) j
      else i
  end.
Definition sort_Search (n : nat) (f : nat → bool) : nat := search_loop f n 0 n.
Definition sort_SearchStrings (a : list string) (x : string) : nat :=
  sort_Search (length a) (λ i, match a !! i with Some s => negb (string_lt s x) | None => true end).

(** *** local.go *)
(** [lines] of the embedded list. *)
Definition NewLocalListScreener (lines : list string) : list string :=
  sort_Strings (filter (λ line, negb (bool_decide (line = "")) = true) (TrimSpace <$> lines)).
Definition LocalList_Check {C : UnicodeCase} (passwords : list string) (password : string) : bool * Z :=
  if bool_decide (password = "") then (false, 0%Z)
  else
    let needle := ToLower password in
    if bool_decide (passwords !! sort_SearchStrings passwords needle = Some needle)
    then (true, 1%Z) else (false, 0%Z).

(** *** disabled.go *)
Definition Disabled_Check (password : string) : bool * Z := (false, 0%Z).

(** *** hibp.go *)
Definition defaultMaxRetries : Z := 3.
Definition defaultRetryBackoff : duration := Second.
Definition maxRetryBackoff : duration := (30 * Second)%Z.
Record HIBPScreener : Type := { maxRetries : Z; retryBackoff : duration }.
Definition NewHIBPScreener : HIBPScreener :=
  {| maxRetries := defaultMaxRetries; retryBackoff := defaultRetryBackoff |}.

(** One exchange with the service: the context is done, the transport failed,
    or a status with the lines of the body ([scanned] is [false] when reading
    them failed at the end). *)
Inductive exchange : Type :=
  | Cancelled
  | Failed
  | Responded (status : Z) (lines : list string) (scanned : bool).

(** [strings.EqualFold] with a text of upper-case hexadecimal digits, for which
    only the two cases of a letter are equal. *)
Definition upper_ascii (a : ascii) : ascii :=
  if within_ 97 122 (byte_of a) then ascii_of_N (byte_of a - 32) else a.
Definition upper_hex (s : string) : string :=
  String.string_of_list_ascii (upper_ascii <$> String.list_ascii_of_string s).
Definition EqualFold_hex (s hex : string) : bool := bool_decide (upper_hex s = hex).

(** [strings.SplitN(line, c, 2)]. *)
Definition cut_once (c : ascii) (s : string) : option (string * string) :=
  match split_on c s with
  | a :: b :: rest => Some (a, strings_Join (String c "") (b :: rest))
  | _ => None
  end.
Fixpoint scanResponse (lines : list string) (scanned : bool) (suffix : string) : outcome berr (bool * Z) :=
  match lines with
  | [] => if scanned then Ok (false, 0%Z) else Err (Errorf "breach: scan response")
  | line :: rest =>
      let line := TrimSpace line in
      if bool_decide (line = "") then scanResponse rest scanned suffix
      else match cut_once ":" line with
           | None => scanResponse rest scanned suffix
           | Some (h, n) =>
               if EqualFold_hex h suffix then
                 match Atoi (bytes (TrimSpace n)) with
                 | None => Err (Errorf "breach: parse count")
                 | Some count => Ok (bool_decide (0 < count)%Z, count)
                 end
               else scanResponse rest scanned suffix
           end
  end.

Section hibp.
Context (sha1 : string → string).

Definition hash_hex (password : string) : string := upper_hex (hex_EncodeToString (sha1 password)).
Definition doubled (backoff : duration) : duration :=
  let b := wrap64 (backoff * 2) in
  if bool_decide (maxRetryBackoff < b)%Z then maxRetryBackoff else b.

(** The attempts [n] to go, from number [attempt]; [send attempt] is what the
    service answers to it, [waits] says whether the context outlives the wait
    before it.  The result comes with the delays waited for. *)
Fixpoint attempts (send : nat → exchange) (waits : nat → bool) (suffix : string) (attempt n : nat)
    (backoff : duration) : outcome berr (bool * Z) * list duration :=
  match n with
  | O => (Err (Wrapf "breach" (Sentinel ErrScreenerUnavailable)), [])
  | S n =>
      if (0 <? attempt)%nat && negb (waits attempt) then (Err (Errorf "context done"), [])
      else
        let slept := if (0 <? attempt)%nat then [backoff] else [] in
        let backoff := if (0 <? attempt)%nat then doubled backoff else backoff in
        let retry := let '(r, ds) := attempts send waits suffix (S attempt) n backoff in (r, slept ++ ds) in
        match send attempt with
        | Cancelled => (Err (Errorf "context done"), slept)
        | Failed => retry
        | Responded status lines scanned =>
            if bool_decide (status = 429%Z) || bool_decide (500 ≤ status)%Z then retry
            else if negb (bool_decide (status = 200%Z)) then (Err (Errorf "breach: HIBP unexpected status"), slept)
            else (scanResponse lines scanned suffix, slept)
        end
  end.

(** [limited] says that the rate limiter lets the call through. *)
Definition HIBP_Check (s : HIBPScreener) (limited : bool) (send : string → nat → exchange)
    (waits : nat → bool) (password : string) : outcome berr (bool * Z) * list duration :=
  if bool_decide (password = "") then (Ok (false, 0%Z), [])
  else
    let hashHex := hash_hex password in
    if bool_decide (String.length hashHex ≠ 40%nat) then (Err (Wrapf "hash length" (Sentinel ErrInvalidPrefix)), [])
    else if negb limited then (Err (Errorf "breach: rate limit wait"), [])
    else
      let backoff := if bool_decide (retryBackoff s ≤ 0)%Z then defaultRetryBackoff else retryBackoff s in
      attempts (send (String.substring 0 5 hashHex)) waits (String.substring 5 35 hashHex) 0
        (Z.to_nat (maxRetries s + 1)) backoff.
End hibp.
End breach.
