(* ===== verification/CredentialsProofs.v ===== *)
(** * Theorems on the other credentials

    Generated API keys and backup codes verify, one-time codes are exact, the
    local breach list is a membership test, the remote one retries within bounds
    and fails open, and an Apple token is believed without its signature. *)

From S2P Require Import Prelude Encoding Auth Credentials.

(** ** API keys *)

Section apikeys.
Context {B : Bcrypt} {L : BcryptLaws B} {St : Type} {S : apikey.Store St}.

(** A generated key whose digest the store lists authenticates as the row of that
    digest, when no row listed before it has a digest the key verifies under, and the row is
    marked as used, whatever the store says to the mark. *)
Theorem generated_key_authenticates e prefix random salt before after c (s s1 : St) :
  let key := apikey.GenerateKey prefix random in
  (8 ≤ String.length key)%nat →
  apikey.HashKey salt key = Ok (apikey.ca_KeyDigest c) →
  apikey.LookupByPrefix e (String.substring 0 8 key) s = (Ok (before ++ c :: after), s1) →
  Forall (λ b, bcrypt_Compare (apikey.ca_KeyDigest b) key = false) before →
  apikey.Authenticate e prefix key s =
    (Ok (apikey.authenticated c), (apikey.MarkUsed (apikey.ca_ID c) (now e) s1).2).
Proof.
  intros key Hlen Hhash Hlook Hbefore. unfold apikey.Authenticate.
  assert (String.prefix (apikey.or_default prefix) key = true) as -> by apply prefix_app. cbn [negb].
  rewrite bool_decide_false by (unfold apikey.PrefixLookupLength; lia).
  cbv [mbind prog_bind wrapping]. change apikey.PrefixLookupLength with 8%nat. rewrite Hlook.
  assert (bcrypt_Compare (apikey.ca_KeyDigest c) key = true) as Hc.
  { unfold apikey.HashKey in Hhash. destruct (bcrypt_Generate salt key) eqn:Hg; [|done].
    injection Hhash as <-. by eapply bcrypt_verifies. }
  assert (∀ bs, Forall (λ b, bcrypt_Compare (apikey.ca_KeyDigest b) key = false) bs →
    apikey.try_candidates e key (bs ++ c :: after) s1 =
    (Ok (apikey.authenticated c), (apikey.MarkUsed (apikey.ca_ID c) (now e) s1).2)) as Htry.
  { induction 1 as [|b bs Hb _ IH]; cbn; [by rewrite Hc|by rewrite Hb]. }
  destruct before as [|b bs]; by apply (Htry _ Hbefore).
Qed.
End apikeys.

(** ** One-time codes *)

Lemma zeros_length n : String.length (emailotp.zeros n) = n.
Proof. induction n; cbn; congruence. Qed.

Lemma string_length_app (s t : string) : String.length (s +:+ t) = (String.length s + String.length t)%nat.
Proof. induction s as [|a s IH]; [done|]. change (String a s +:+ t) with (String a (s +:+ t)). cbn. by rewrite IH. Qed.

Lemma pretty_N_go_length (k : nat) x s :
  (x < 10 ^ N.of_nat k)%N → (String.length (pretty_N_go x s) ≤ k + String.length s)%nat.
Proof.
  revert x s. induction k as [|k IH]; intros x s Hx.
  - assert (x = 0%N) as -> by (cbn in Hx; lia). by rewrite pretty_N_go_0.
  - destruct (decide (x = 0)%N) as [->|Hne]; [rewrite pretty_N_go_0; lia|]. rewrite pretty_N_go_step by lia.
    etrans; [apply IH|cbn; lia]. apply N.Div0.div_lt_upper_bound.
    replace (10 ^ N.of_nat (S k))%N with (10 * 10 ^ N.of_nat k)%N in Hx; [done|].
    by rewrite Nat2N.inj_succ, N.pow_succ_r'.
Qed.
Lemma pretty_length (k : nat) (n : Z) :
  (0 < k)%nat → (0 ≤ n < 10 ^ Z.of_nat k)%Z → (String.length (pretty n) ≤ k)%nat.
Proof.
  intros Hk Hn. destruct n as [|p|p]; [done| |lia].
  change (pretty (Z.pos p)) with (pretty (N.pos p)). unfold pretty, pretty_N. rewrite decide_False by lia.
  etrans; [apply (pretty_N_go_length k)|cbn; lia]. apply N2Z.inj_lt. rewrite N2Z.inj_pow, nat_N_Z. cbn. lia.
Qed.

Lemma foldl_zeros n l :
  foldl add_digit (Some 0%Z) (bytes (emailotp.zeros n +:+ l)) = foldl add_digit (Some 0%Z) (bytes l).
Proof.
  induction n as [|n IH]; [done|].
  change (emailotp.zeros (S n) +:+ l) with (String "0" (emailotp.zeros n +:+ l)). exact IH.
Qed.

(** The number a code stands for. *)
Lemma pad6_value n : (0 ≤ n)%Z → foldl add_digit (Some 0%Z) (bytes (emailotp.pad6 n)) = Some n.
Proof.
  intros Hn. unfold emailotp.pad6. rewrite foldl_zeros. by destruct (digits_spec n Hn) as (_ & _ & Hv).
Qed.

(** The code of a number below a million has six characters and stands for
    that number alone: it verifies against the code of another draw exactly when the two
    numbers are the same, up to the expiry, which is ten minutes when none is given. *)
Theorem otp_exact e n m sentAt expiry :
  (0 ≤ n < 10 ^ 6)%Z → (0 ≤ m < 10 ^ 6)%Z →
  String.length (emailotp.pad6 n) = emailotp.CodeLength ∧
  (emailotp.Verify e (emailotp.pad6 n) (emailotp.pad6 m) sentAt expiry = true ↔
    n = m ∧ (now e - sentAt ≤ if bool_decide (expiry = 0) then emailotp.DefaultExpiry else expiry)%Z).
Proof.
  intros Hn Hm.
  assert (∀ k, (0 ≤ k < 10 ^ 6)%Z → String.length (emailotp.pad6 k) = 6%nat) as Hlen.
  { intros k Hk. unfold emailotp.pad6. rewrite string_length_app, zeros_length.
    pose proof (pretty_length 6 k ltac:(lia) Hk). lia. }
  split; [by apply Hlen|]. unfold emailotp.Verify.
  assert (∀ k, (0 ≤ k < 10 ^ 6)%Z → emailotp.pad6 k ≠ "") as Hne.
  { intros k Hk Heq. specialize (Hlen k Hk). by rewrite Heq in Hlen. }
  rewrite (bool_decide_false (emailotp.pad6 n = "")), (bool_decide_false (emailotp.pad6 m = "")) by auto.
  cbn [orb]. case_bool_decide; [split; [done|lia]|]. rewrite bool_decide_eq_true.
  split; [|by intros [-> _]]. intros Heq. split; [|lia].
  apply (inj Some). by rewrite <-(pad6_value n), <-(pad6_value m), Heq by lia.
Qed.

(** ** Backup codes *)

Section backup.
Context {B : Bcrypt} {L : BcryptLaws B}.

Lemma verify_from_exact i code hashes :
  totp.verify_from i code hashes =
  match list_find (λ h, bcrypt_Compare h code = true) hashes with
  | Some (k, _) => (i + Z.of_nat k)%Z
  | None => (-1)%Z
  end.
Proof.
  revert i. induction hashes as [|h hs IH]; intros i; [done|]. cbn.
  case_decide as Hh; [rewrite Hh; lia|]. apply not_true_is_false in Hh. rewrite Hh, IH.
  destruct (list_find _ hs) as [[k x]|]; simpl; lia.
Qed.

Lemma backup_codes_lookup {X} n draws salts (codes : list (string * string)) :
  totp.backup_codes (X := X) n draws salts = Ok codes →
  length codes = n ∧ ∀ i c h, codes !! i = Some (c, h) → bcrypt_Generate (salts i) c = Some h.
Proof.
  revert codes. induction n as [|n IH]; intros codes; cbn; [by intros [= <-]|].
  destruct (totp.backup_codes n draws salts) as [cs|]; [|done]. destruct (IH cs eq_refl) as [Hl Hc].
  destruct (draws n); [|done]. destruct (bcrypt_Generate _ _) as [hash|] eqn:Hg; [|done]. intros [= <-].
  rewrite length_app. cbn. split; [lia|]. intros i c h. rewrite lookup_app_Some.
  intros [Hi|[Hi Hlast]]; [by apply Hc|]. apply list_lookup_singleton_Some in Hlast as [Hz [= <- <-]].
  by replace i with n by lia.
Qed.

(** The codes handed out are as many as asked for, ten when no count is
    given, and code [i] verifies at the index of the first digest that accepts it, at
    most [i]; a text that no digest accepts gets -1. *)
Theorem backup_codes_verify {X} count draws salts codes hashes i code :
  totp.GenerateBackupCodes (X := X) count draws salts = Ok (codes, hashes) → codes !! i = Some code →
  length codes = Z.to_nat (if bool_decide (count ≤ 0)%Z then 10%Z else count) ∧ length hashes = length codes ∧
  (0 ≤ totp.VerifyBackupCode code hashes ≤ Z.of_nat i)%Z ∧
  ∀ other, Forall (λ h, bcrypt_Compare h other = false) hashes → totp.VerifyBackupCode other hashes = (-1)%Z.
Proof.
  unfold totp.GenerateBackupCodes. destruct (totp.backup_codes _ _ _) as [cs|] eqn:Hcs; [|done].
  intros [= <- <-] Hi. destruct (backup_codes_lookup _ _ _ _ Hcs) as [Hl Hc].
  rewrite !length_fmap. split; [done|]. split; [done|]. split.
  - apply list_lookup_fmap_Some in Hi as ([c h] & Heq & Hi).
    subst code. cbn [fst snd].
    pose proof (bcrypt_verifies _ _ _ (Hc i c h Hi)) as Hv. unfold totp.VerifyBackupCode.
    rewrite verify_from_exact. destruct (list_find _ _) as [[k x]|] eqn:Hf.
    + apply list_find_Some in Hf as (Hk & _ & Hfirst).
      destruct (decide (k ≤ i)%nat); [lia|]. exfalso.
      apply (Hfirst i h); [|lia|done]. by rewrite list_lookup_fmap, Hi.
    + apply list_find_None in Hf. exfalso. rewrite Forall_lookup in Hf. apply (Hf i h); [|done].
      by rewrite list_lookup_fmap, Hi.
  - intros other Hall. unfold totp.VerifyBackupCode. rewrite verify_from_exact.
    destruct (list_find _ _) as [[k x]|] eqn:Hf; [|done]. apply list_find_Some in Hf as (Hk & Hx & _).
    rewrite Forall_lookup in Hall. specialize (Hall k x Hk). congruence.
Qed.
End backup.

(** ** Breach lists *)

(** The least index at which a monotone predicate holds. *)
Lemma search_loop_spec (f : nat → bool) n fuel i j :
  (i ≤ j ≤ n)%nat → (j - i ≤ fuel)%nat →
  (∀ k, (k < i)%nat → f k = false) → (∀ k, (j ≤ k < n)%nat → f k = true) →
  (∀ k l, (k ≤ l < n)%nat → f k = true → f l = true) →
  let r := breach.search_loop f fuel i j in
  (r ≤ n)%nat ∧ (∀ k, (k < r)%nat → f k = false) ∧ ∀ k, (r ≤ k < n)%nat → f k = true.
Proof.
  revert i j. induction fuel as [|fuel IH]; intros i j Hij Hfuel Hlo Hhi Hmono; cbn [breach.search_loop].
  - assert (i = j) as -> by lia. split_and!; [lia|done|done].
  - case_bool_decide as Hlt; [|assert (i = j) as -> by lia; split_and!; [lia|done|done]].
    pose proof (Nat.div_mod_eq (i + j) 2). pose proof (Nat.mod_upper_bound (i + j) 2 ltac:(lia)).
    set (h := ((i + j) / 2)%nat) in *. destruct (f h) eqn:Hh.
    + apply IH; [lia|lia|done| |done]. intros k Hk.
      destruct (decide (h ≤ k)%nat); [|lia]. apply (Hmono h k); [lia|done].
    + apply IH; [lia|lia| |done|done]. intros k Hk. destruct (f k) eqn:Hf; [|done].
      rewrite (Hmono k h) in Hh; [done|lia|done].
Qed.

(** In a sorted list the search finds a member exactly when there is one. *)
Lemma sort_SearchStrings_spec l x :
  StronglySorted (may_precede string_lt) l → l !! breach.sort_SearchStrings l x = Some x ↔ x ∈ l.
Proof.
  intros Hs. split; [apply list_elem_of_lookup_2|]. intros [i Hi]%list_elem_of_lookup.
  unfold breach.sort_SearchStrings, breach.sort_Search.
  set (f := λ i, match l !! i with Some s => negb (string_lt s x) | None => true end).
  assert (∀ j k a b, (j ≤ k)%nat → l !! j = Some a → l !! k = Some b → string_lt b a = false) as Hord.
  { intros j k a b Hjk Ha Hb. destruct (decide (j = k)) as [->|Hne].
    - simplify_eq. apply bytes_lt_irrefl.
    - apply (StronglySorted_lookup (may_precede string_lt) l j k); [done..|lia]. }
  destruct (search_loop_spec f (length l) (length l) 0 (length l)) as (Hr & Hlo & Hhi); [lia|lia|lia|lia| |].
  - intros j k Hjk. unfold f. destruct (lookup_lt_is_Some_2 l j) as [a Ha]; [lia|].
    destruct (lookup_lt_is_Some_2 l k) as [b Hb]; [lia|]. rewrite Ha, Hb.
    rewrite !negb_true_iff. intros Hax. apply (less_cotrans b a x); [|done]. apply (Hord j k); [lia|done..].
  - set (r := breach.search_loop f (length l) 0 (length l)) in *.
    assert (r ≤ i)%nat as Hri.
    { destruct (decide (r ≤ i)%nat); [done|]. specialize (Hlo i ltac:(lia)). unfold f in Hlo.
      rewrite Hi in Hlo. unfold string_lt in Hlo. by rewrite bytes_lt_irrefl in Hlo. }
    pose proof (lookup_lt_Some _ _ _ Hi). destruct (lookup_lt_is_Some_2 l r) as [a Ha]; [lia|].
    rewrite Ha. f_equal. specialize (Hhi r ltac:(lia)). unfold f in Hhi. rewrite Ha, negb_true_iff in Hhi.
    symmetry. apply string_lt_total; [by apply (Hord r i)|done].
Qed.

(** The binary search in the loaded list is a membership test: a password is
    compromised exactly when its lower-case form is a line of the list, up to the spaces
    around the line, in whatever order the lines are. *)
Theorem LocalList_Check_exact {C : UnicodeCase} lines password :
  breach.LocalList_Check (breach.NewLocalListScreener lines) password =
  if bool_decide (password ≠ "" ∧ ToLower password ≠ "" ∧ ToLower password ∈ TrimSpace <$> lines)
  then (true, 1%Z) else (false, 0%Z).
Proof.
  unfold breach.LocalList_Check. case_bool_decide as Hp; [by rewrite bool_decide_false by tauto|].
  assert (breach.NewLocalListScreener lines !!
    breach.sort_SearchStrings (breach.NewLocalListScreener lines) (ToLower password) = Some (ToLower password) ↔
    ToLower password ≠ "" ∧ ToLower password ∈ TrimSpace <$> lines) as Hiff.
  { rewrite sort_SearchStrings_spec by (unfold breach.NewLocalListScreener, sort_Strings; apply sort_slice_sorted; apply _).
    unfold breach.NewLocalListScreener, sort_Strings. rewrite sort_slice_perm, list_elem_of_filter.
    by rewrite negb_true_iff, bool_decide_eq_false. }
  do 2 case_bool_decide; tauto.
Qed.

Section hibp.
Context (sha1 : string → string).
Implicit Types (send : nat → breach.exchange) (waits : nat → bool).

Definition within_backoff (d : duration) : Prop := (0 < d ≤ breach.maxRetryBackoff)%Z.
(** An attempt after which the screener tries again. *)
Definition retryable (x : breach.exchange) : bool :=
  match x with
  | breach.Failed => true
  | breach.Responded status _ _ => bool_decide (status = 429%Z) || bool_decide (500 ≤ status)%Z
  | breach.Cancelled => false
  end.

Lemma doubled_exact b : within_backoff b → breach.doubled b = Z.min (b * 2) breach.maxRetryBackoff.
Proof.
  unfold within_backoff, breach.doubled, breach.maxRetryBackoff, Second. intros Hb. rewrite wrap64_small by lia.
  case_bool_decide; lia.
Qed.
Lemma doubled_within b : within_backoff b → within_backoff (breach.doubled b).
Proof.
  intros Hb. rewrite doubled_exact by done. unfold within_backoff, breach.maxRetryBackoff, Second in *. lia.
Qed.

(** One attempt: a retry, or a result. *)
Lemma attempts_step send waits suffix attempt n b :
  breach.attempts send waits suffix attempt (S n) b =
  if (0 <? attempt)%nat && negb (waits attempt) then (Err (Errorf "context done"), [])
  else
    let slept := if (0 <? attempt)%nat then [b] else [] in
    if retryable (send attempt) then
      let '(r, ds) := breach.attempts send waits suffix (S attempt) n
                        (if (0 <? attempt)%nat then breach.doubled b else b) in (r, slept ++ ds)
    else (match send attempt with
          | breach.Responded status lines scanned =>
              if bool_decide (status = 200%Z) then breach.scanResponse lines scanned suffix
              else Err (Errorf "breach: HIBP unexpected status")
          | _ => Err (Errorf "context done")
          end, slept).
Proof.
  cbn [breach.attempts]. destruct (_ && _); [done|].
  destruct (send attempt) as [| |status lines scanned]; [done|done|]. cbn [retryable].
  destruct (_ || _); [done|]. by case_bool_decide.
Qed.

Lemma attempts_bounded_delays send waits suffix attempt n b r ds :
  within_backoff b → breach.attempts send waits suffix attempt n b = (r, ds) →
  Forall within_backoff ds ∧ (length ds ≤ if (0 <? attempt)%nat then n else Nat.pred n)%nat ∧
  ∀ count, r = Ok (true, count) → ∃ i lines scanned,
    (attempt ≤ i < attempt + n)%nat ∧ send i = breach.Responded 200 lines scanned ∧
    breach.scanResponse lines scanned suffix = Ok (true, count).
Proof.
  revert attempt b r ds. induction n as [|n IH]; intros attempt b r ds Hb.
  { cbn [breach.attempts]. intros [= <- <-]. split_and!; [done|destruct (0 <? attempt)%nat; cbn; lia|done]. }
  rewrite attempts_step.
  destruct (_ && _); [intros [= <- <-]; split_and!; [done|destruct (0 <? attempt)%nat; cbn; lia|done]|].
  cbn zeta. destruct (retryable (send attempt)).
  - destruct (breach.attempts _ _ _ _ _ _) as [r' ds'] eqn:Hrest. intros [= <- <-].
    apply IH in Hrest as (Hf & Hl & Hok); [|destruct (0 <? attempt)%nat; [by apply doubled_within|done]].
    cbn [Nat.ltb Nat.leb] in Hl. split_and!.
    + apply Forall_app. split; [|done]. destruct (0 <? attempt)%nat; auto.
    + rewrite length_app. destruct (0 <? attempt)%nat; cbn; lia.
    + intros count Hr. destruct (Hok count Hr) as (i & lines & scanned & Hi & Hs). exists i, lines, scanned.
      split; [lia|done].
  - intros [= <- <-]. split_and!.
    + destruct (0 <? attempt)%nat; auto.
    + destruct (0 <? attempt)%nat; cbn; lia.
    + intros count. destruct (send attempt) as [| |status lines scanned] eqn:Hs; [done|done|].
      case_bool_decide; [|done]. subst. intros Hr. exists attempt, lines, scanned. split; [lia|done].
Qed.

Lemma attempts_all_fail send waits suffix n attempt b :
  within_backoff b → (0 < attempt)%nat → (∀ i, retryable (send i) = true) → (∀ i, waits i = true) →
  breach.attempts send waits suffix attempt n b =
  (Err (Wrapf "breach" (Sentinel breach.ErrScreenerUnavailable)),
   (λ k, Z.min (b * 2 ^ Z.of_nat k) breach.maxRetryBackoff) <$> seq 0 n).
Proof.
  intros Hb Ha Hr Hw. revert attempt b Hb Ha. induction n as [|n IH]; intros attempt b Hb Ha; [done|].
  rewrite attempts_step, Hw, Hr, (proj2 (Nat.ltb_lt 0 attempt)) by done. cbn [negb andb]. cbn zeta.
  rewrite IH by (done || lia || by apply doubled_within). f_equal. cbn [seq fmap list_fmap app].
  f_equal; [unfold within_backoff in Hb; lia|]. rewrite <-(fmap_S_seq 0), <-list_fmap_compose.
  apply list_fmap_ext. intros i k _. unfold compose. rewrite doubled_exact by done.
  rewrite Nat2Z.inj_succ, Z.pow_succ_r by lia. unfold within_backoff in Hb.
  assert (1 ≤ 2 ^ Z.of_nat k)%Z by (assert (0 < 2 ^ Z.of_nat k)%Z by (apply Z.pow_pos_nonneg; lia); lia).
  destruct (Z.min_spec (b * 2) breach.maxRetryBackoff) as [[? ->]|[? ->]]; nia.
Qed.

(** A check asks the service once and [maxRetries] times again at the most, each
    time after a delay of at most thirty seconds; it calls a password compromised only if
    an answer lists it; and when the service fails every time the delays double up to that
    bound and the error is the one on which callers let the password pass. *)
Theorem HIBP_Check_bounded s limited (send : string → nat → breach.exchange) waits password r ds :
  (0 ≤ breach.maxRetries s)%Z → within_backoff (breach.retryBackoff s) →
  breach.HIBP_Check sha1 s limited send waits password = (r, ds) →
  let hex := breach.hash_hex sha1 password in
  let ask := send (String.substring 0 5 hex) in
  Forall within_backoff ds ∧ (Z.of_nat (length ds) ≤ breach.maxRetries s)%Z ∧
  (∀ count, r = Ok (true, count) → ∃ i lines scanned,
     (Z.of_nat i ≤ breach.maxRetries s)%Z ∧ ask i = breach.Responded 200 lines scanned ∧
     breach.scanResponse lines scanned (String.substring 5 35 hex) = Ok (true, count)) ∧
  (password ≠ "" → limited = true → String.length hex = 40%nat →
   (∀ i, retryable (ask i) = true) → (∀ i, waits i = true) →
   r = Err (Wrapf "breach" (Sentinel breach.ErrScreenerUnavailable)) ∧
   ds = (λ k, Z.min (breach.retryBackoff s * 2 ^ Z.of_nat k) breach.maxRetryBackoff) <$>
          seq 0 (Z.to_nat (breach.maxRetries s))).
Proof.
  intros Hm Hb Hcheck hex ask. unfold breach.HIBP_Check in Hcheck.
  case_bool_decide; [by simplify_eq; split_and!; [..|intros []]|].
  case_bool_decide; [by simplify_eq; split_and!; [..|intros]|].
  destruct limited; cbn [negb] in Hcheck; [|by simplify_eq; split_and!; [..|intros]].
  rewrite bool_decide_false in Hcheck by (unfold within_backoff in Hb; lia).
  replace (Z.to_nat (breach.maxRetries s + 1)) with (S (Z.to_nat (breach.maxRetries s))) in Hcheck by lia.
  split_and!.
  1-3: apply attempts_bounded_delays in Hcheck as (Hf & Hl & Hok); [|done]; cbn [Nat.ltb Nat.leb Nat.pred] in Hl.
  - done.
  - lia.
  - intros count Hr. destruct (Hok count Hr) as (i & lines & scanned & Hi & Hs). exists i, lines, scanned.
    split; [lia|done].
  - intros _ _ _ Hr Hw. rewrite attempts_step in Hcheck. cbn [Nat.ltb Nat.leb andb] in Hcheck. cbn zeta in Hcheck.
    unfold ask, hex in Hr. rewrite Hr, attempts_all_fail in Hcheck by (done || lia). by simplify_eq.
Qed.
End hibp.

(** ** Provider tokens *)

(** User information from Apple is read from the middle part of the text the
    caller presents, and nothing else is looked at: no signature, issuer, audience or expiry,
    so that whoever writes such a text chooses the identity. *)
Theorem apple_token_unverified {X} Do dg dh de df dt (decode_apple : string → option (string * string)) dm
    header payload signature sub email :
  "."%char ∉ String.list_ascii_of_string header →
  "."%char ∉ String.list_ascii_of_string (base64_EncodeToString URLAlphabet payload) →
  decode_apple payload = Some (sub, email) → sub ≠ "" →
  oauth.FetchUserInfo (X := X) Do dg dh de df dt decode_apple dm "apple"
    (header +:+ "." +:+ base64_EncodeToString URLAlphabet payload +:+ "." +:+ signature) =
  Ok {| oauth.UID := sub; oauth.Email := email; oauth.Name := ""; oauth.Image := "" |}.
Proof.
  intros Hh Hp Hd Hs. unfold oauth.FetchUserInfo. do 4 (rewrite bool_decide_false by done).
  rewrite bool_decide_true by done. unfold oauth.fetchApple.
  change (header +:+ "." +:+ base64_EncodeToString URLAlphabet payload +:+ "." +:+ signature)
    with (header +:+ String "." (base64_EncodeToString URLAlphabet payload +:+ String "." signature)).
  rewrite !split_on_app by done. rewrite base64_Decode_Encode, Hd. by rewrite bool_decide_false.
Qed.

(** ** Witnesses *)

Section examples.
#[local] Instance ex_bcrypt : Bcrypt :=
  {| bcrypt_Generate := λ salt pw, Some (salt +:+ pw);
     bcrypt_Compare := λ digest pw, has_suffix pw digest |}.
#[local] Instance ex_bcrypt_laws : BcryptLaws ex_bcrypt.
Proof. intros salt pw digest [= <-]. apply has_suffix_app. Qed.

Definition ex_row (id digest : string) : apikey.Candidate :=
  {| apikey.ca_ID := id; apikey.ca_KeyDigest := digest; apikey.ca_UserID := "u-" +:+ id; apikey.ca_Scopes := ["read"] |}.
(** Two rows with the prefix; the state is the identifier marked last. *)
#[local] Instance ex_keys : apikey.Store string := {|
  apikey.LookupByPrefix := λ _ p, mret (if bool_decide (p = "aoc_0102")
    then [ex_row "k-1" "other key"; ex_row "k-2" "saltaoc_01020304"] else []);
  apikey.MarkUsed := λ id _ _, (Ok tt, id) |}.
Definition ex_call : Env := {| now := 0%Z; new_id := λ _, 0%N; order := canonical_range |}.
Definition ex_random : string := String "001" (String "002" (String "003" (String "004" ""))).

Lemma generated_key_authenticates_witness :
  apikey.Authenticate ex_call "" (apikey.GenerateKey "" ex_random) "" =
  (Ok {| apikey.ak_UserID := "u-k-2"; apikey.ak_KeyID := "k-2"; apikey.ak_Scopes := ["read"] |}, "k-2").
Proof.
  apply (generated_key_authenticates (S := ex_keys) ex_call "" ex_random "salt" [ex_row "k-1" "other key"] []
    (ex_row "k-2" "saltaoc_01020304") "" ""); [by apply (bool_decide_unpack _)|reflexivity|reflexivity|by repeat constructor].
Defined.

Lemma otp_exact_witness :
  String.length (emailotp.pad6 42) = emailotp.CodeLength ∧
  (emailotp.Verify ex_call (emailotp.pad6 42) (emailotp.pad6 42) (- 10 * Minute)%Z 0 = true ↔
    42%Z = 42%Z ∧ (0 - - 10 * Minute ≤ emailotp.DefaultExpiry)%Z).
Proof. apply (otp_exact ex_call 42 42 (- 10 * Minute)%Z 0); lia. Defined.

Definition ex_draws (i : nat) : option string := Some (String (ascii_of_N (N.of_nat i)) "abc").
Definition ex_codes : list string * list string :=
  match totp.GenerateBackupCodes (X := apikey.apikey_error) 0 ex_draws (λ _, "s") with Ok c => c | Err _ => ([], []) end.
Lemma backup_codes_verify_witness :
  length ex_codes.1 = 10%nat ∧ length ex_codes.2 = length ex_codes.1 ∧
  (0 ≤ totp.VerifyBackupCode "03616263" ex_codes.2 ≤ 3)%Z ∧
  ∀ other, Forall (λ h, bcrypt_Compare h other = false) ex_codes.2 → totp.VerifyBackupCode other ex_codes.2 = (-1)%Z.
Proof.
  apply (backup_codes_verify (X := apikey.apikey_error) 0 ex_draws (λ _, "s") ex_codes.1 ex_codes.2 3 "03616263"); by vm_compute.
Defined.

(** A digest function of twenty bytes, and a service that is down. *)
Definition ex_sha1 (s : string) : string := "abcdefghijklmnopqrst".
Definition ex_down (prefix : string) (attempt : nat) : breach.exchange :=
  if (attempt =? 1)%nat then breach.Failed else breach.Responded 503 [] true.
Definition ex_delays : list duration := [Second; (2 * Second)%Z; (4 * Second)%Z].

Lemma HIBP_Check_bounded_witness :
  let hex := breach.hash_hex ex_sha1 "password" in
  let ask := ex_down (String.substring 0 5 hex) in
  Forall within_backoff ex_delays ∧ (Z.of_nat (length ex_delays) ≤ 3)%Z ∧
  (∀ count, Err (Wrapf "breach" (Sentinel breach.ErrScreenerUnavailable)) = Ok (true, count) → ∃ i lines scanned,
     (Z.of_nat i ≤ 3)%Z ∧ ask i = breach.Responded 200 lines scanned ∧
     breach.scanResponse lines scanned (String.substring 5 35 hex) = Ok (true, count)) ∧
  ("password" ≠ "" → true = true → String.length hex = 40%nat →
   (∀ i, retryable (ask i) = true) → (∀ i : nat, (λ _, true) i = true) →
   Err (A := bool * Z) (Wrapf "breach" (Sentinel breach.ErrScreenerUnavailable)) =
     Err (Wrapf "breach" (Sentinel breach.ErrScreenerUnavailable)) ∧
   ex_delays = (λ k, Z.min (Second * 2 ^ Z.of_nat k) breach.maxRetryBackoff) <$> seq 0 3).
Proof.
  apply (HIBP_Check_bounded ex_sha1 breach.NewHIBPScreener true ex_down (λ _, true) "password"
    (Err (Wrapf "breach" (Sentinel breach.ErrScreenerUnavailable))) ex_delays); [done|by split|by vm_compute].
Defined.

Lemma apple_token_unverified_witness :
  oauth.FetchUserInfo (X := apikey.apikey_error) (λ _, None) (λ _, None) (λ _, None) (λ _, None) (λ _, None)
    (λ _, None) (λ p, Some (p, "ada@example.org")) (λ _, None) "apple"
    ("anything" +:+ "." +:+ base64_EncodeToString URLAlphabet "001" +:+ "." +:+ "no signature") =
  Ok {| oauth.UID := "001"; oauth.Email := "ada@example.org"; oauth.Name := ""; oauth.Image := "" |}.
Proof.
  apply (apple_token_unverified (X := apikey.apikey_error) (λ _, None) (λ _, None) (λ _, None) (λ _, None) (λ _, None)
    (λ _, None) (λ p, Some (p, "ada@example.org")) (λ _, None) "anything" "001" "no signature" "001" "ada@example.org");
    [by apply (bool_decide_unpack _)..|done|done].
Defined.
End examples.
