(* ===== verification/Rpauth.v ===== *)
(** * The relying party's side of authentication (platform/rpauth)

    cache.go: a bounded cache of the last results; introspect.go: tokens are
    validated by the authority, with a bounded trust in the cache; middleware.go:
    outcomes and gates; revalidate.go: the periodic check of a long-lived
    connection.  The answers of the authority, [strings.EqualFold] and the
    principals of the service are parameters; a call reads the clock once.  The
    theorems are in [RpauthProofs]. *)

From S2P Require Import Prelude Encoding.

(** ** cache.go

    [container/list]: an element has an identity of its own, which the map holds;
    the front of the list comes first. *)
Section cache.
Context {H : Sha256} {V : Type}.

Record cacheEntry : Type := { en_key : string; en_value : V; en_expiresAt : time }.
Record Cache : Type := {
  entries : gmap string nat;
  lru : list (nat * cacheEntry);
  next_el : nat;
  maxSize : Z;
}.

Definition NewCache (max : Z) : Cache :=
  {| entries := ∅; lru := []; next_el := 0; maxSize := if bool_decide (max ≤ 0)%Z then 1%Z else max |}.

Definition hashKey (secret : string) : string := hex_EncodeToString (sha256 secret).

Definition el_value (el : nat) (l : list (nat * cacheEntry)) : option cacheEntry :=
  snd <$> head (filter (λ x, x.1 = el) l).
(** [Remove], [MoveToFront] (with the element's new value). *)
Definition remove_el (el : nat) (l : list (nat * cacheEntry)) : list (nat * cacheEntry) :=
  filter (λ x, x.1 ≠ el) l.
Definition move_front (el : nat) (en : cacheEntry) (l : list (nat * cacheEntry)) : list (nat * cacheEntry) :=
  (el, en) :: remove_el el l.

Definition with_lists (es : gmap string nat) (l : list (nat * cacheEntry)) (c : Cache) : Cache :=
  {| entries := es; lru := l; next_el := next_el c; maxSize := maxSize c |}.

Definition Get (e : Env) (secret : string) (c : Cache) : option V * Cache :=
  let key := hashKey secret in
  match entries c !! key with
  | None => (None, c)
  | Some el =>
      match el_value el (lru c) with
      | None => (None, c)
      | Some entry =>
          if negb (Before (now e) (en_expiresAt entry))
          then (None, with_lists (delete key (entries c)) (remove_el el (lru c)) c)
          else (Some (en_value entry), with_lists (entries c) (move_front el entry (lru c)) c)
      end
  end.

(** [for c.lru.Len() > c.maxSize], at most as often as there are elements. *)
Fixpoint evict (max : Z) (fuel : nat) (es : gmap string nat) (l : list (nat * cacheEntry)) :
    gmap string nat * list (nat * cacheEntry) :=
  match fuel with
  | O => (es, l)
  | S fuel =>
      if bool_decide (Z.of_nat (length l) ≤ max)%Z then (es, l)
      else match last l with
           | None => (es, l)
           | Some (el, oldest) => evict max fuel (delete (en_key oldest) es) (remove_el el l)
           end
  end.

Definition Put (e : Env) (secret : string) (value : V) (ttl : duration) (c : Cache) : Cache :=
  if bool_decide (ttl ≤ 0)%Z then c
  else
    let key := hashKey secret in
    let entry := {| en_key := key; en_value := value; en_expiresAt := (now e + ttl)%Z |} in
    match entries c !! key with
    | Some el => with_lists (entries c) (move_front el entry (lru c)) c
    | None =>
        let el := next_el c in
        let l := (el, entry) :: lru c in
        let '(es, l) := evict (maxSize c) (length l) (<[key := el]> (entries c)) l in
        {| entries := es; lru := l; next_el := S el; maxSize := maxSize c |}
    end.

Definition Invalidate (secret : string) (c : Cache) : Cache :=
  let key := hashKey secret in
  match entries c !! key with
  | None => c
  | Some el => with_lists (delete key (entries c)) (remove_el el (lru c)) c
  end.

Definition Len (c : Cache) : nat := length (lru c).
End cache.
Arguments cacheEntry : clear implicits.
Arguments Cache : clear implicits.

(** ** introspect.go *)

Inductive rp_error : Type := ErrInactive | ErrUnavailable.
#[export] Instance rp_error_eq_dec : EqDecision rp_error.
Proof. solve_decision. Defined.
Abbreviation rerr := (goerr rp_error) (only parsing).

Definition DefaultMaxTTL : duration := (60 * Second)%Z.

(** A zero [ExpiresAt] is [None]. *)
Record Identity : Type := {
  id_Subject : string;
  id_TenantSlug : string;
  id_Scopes : list string;
  id_ExpiresAt : option time;
}.

Record introspectResponse : Type := {
  Active : bool;
  Sub : string;
  Tnt : string;
  Scope : string;
  Exp : Z;
  TokenType : string;
}.

(** What the authority answers to a request: nothing usable, or a status, the
    header Cache-Control and the body, [None] when it does not parse. *)
Inductive answer : Type :=
  | Unreachable
  | Answered (status : Z) (cacheControl : string) (body : option introspectResponse).

Record Introspector : Type := { endpoint : string; it_maxTTL : duration }.
(** [client] says whether one is configured. *)
Definition NewIntrospector (url : string) (client : bool) (maxTTL : duration) : outcome rerr Introspector :=
  if bool_decide (TrimSpace url = "") then Err (Errorf "rpauth: Endpoint is required")
  else if negb client then Err (Errorf "rpauth: Client is required (it carries the mTLS identity)")
  else Ok {| endpoint := url; it_maxTTL := if bool_decide (maxTTL ≤ 0)%Z then DefaultMaxTTL else maxTTL |}.
Definition MaxTTL (i : Introspector) : duration := it_maxTTL i.

Definition splitScopes (scope : string) : list string :=
  if bool_decide (TrimSpace scope = "") then [] else strings_Fields scope.

Section introspection.
Context {H : Sha256} {C : UnicodeCase} (EqualFold : string → string → bool).

(** The loop over the directives; the first max-age decides. *)
Fixpoint max_age_of (parts : list string) : duration :=
  match parts with
  | [] => 0%Z
  | part :: rest =>
      let part := TrimSpace part in
      if negb (String.prefix "max-age=" (ToLower part)) then max_age_of rest
      else match Atoi (bytes (String.substring 8 (String.length part - 8) part)) with
           | None => 0%Z
           | Some n => if bool_decide (n < 0)%Z then 0%Z else wrap64 (n * Second)
           end
  end.
Definition parseMaxAge (cc : string) : duration :=
  if bool_decide (cc = "") then 0%Z else max_age_of (split_on "," cc).

Definition computeTTL (e : Env) (i : Introspector) (cacheControl : string) (tokenExp : Z) : duration :=
  let best := it_maxTTL i in
  let maxAge := parseMaxAge cacheControl in
  let best := if bool_decide (0 < maxAge)%Z && bool_decide (maxAge < best)%Z then maxAge else best in
  let remaining := time_Sub (tokenExp * Second)%Z (now e) in
  let best := if bool_decide (0 < tokenExp)%Z && bool_decide (remaining < best)%Z then remaining else best in
  if bool_decide (best < 0)%Z then 0%Z else best.

(** The state of an introspector: its cache, if it has one. *)
Abbreviation istate := (option (Cache Identity)) (only parsing).

Definition Introspector_Invalidate (rawToken : string) (c : istate) : istate := Invalidate rawToken <$> c.

Definition identity_of (out : introspectResponse) : Identity :=
  {| id_Subject := Sub out; id_TenantSlug := Tnt out; id_Scopes := splitScopes (Scope out);
     id_ExpiresAt := if bool_decide (0 < Exp out)%Z then Some (Exp out * Second)%Z else None |}.

(** From the answer of the authority on. *)
Definition introspected (e : Env) (i : Introspector) (rawToken : string) (a : answer) :
    prog istate rerr Identity := λ c,
  match a with
  | Unreachable => (Err (Wrapf "introspection failed" (Sentinel ErrUnavailable)), c)
  | Answered status cacheControl body =>
      if bool_decide (status < 200)%Z || bool_decide (300 ≤ status)%Z
      then (Err (Wrapf "authority returned another status" (Sentinel ErrUnavailable)), c)
      else match body with
           | None => (Err (Wrapf "unparseable response" (Sentinel ErrUnavailable)), c)
           | Some out =>
               if negb (Active out) then (Err (Sentinel ErrInactive), Introspector_Invalidate rawToken c)
               else if EqualFold (TokenType out) "refresh_token" then
                 (Err (Wrapf "refresh token presented as a bearer credential" (Sentinel ErrInactive)),
                  Introspector_Invalidate rawToken c)
               else
                 let ttl := computeTTL e i cacheControl (Exp out) in
                 (Ok (identity_of out),
                  if bool_decide (0 < ttl)%Z then Put e rawToken (identity_of out) ttl <$> c else c)
           end
  end.

(** [ask] is what the authority answers about a token at this instant. *)
Definition validate (e : Env) (i : Introspector) (ask : string → answer) (rawToken : string)
    (useCache : bool) : prog istate rerr Identity := λ c,
  if bool_decide (TrimSpace rawToken = "") then (Err (Sentinel ErrInactive), c)
  else
    match c with
    | Some cache =>
        if useCache then
          match Get e rawToken cache with
          | (Some cached, cache) => (Ok cached, Some cache)
          | (None, cache) => introspected e i rawToken (ask rawToken) (Some cache)
          end
        else introspected e i rawToken (ask rawToken) c
    | None => introspected e i rawToken (ask rawToken) c
    end.
Definition Validate (e : Env) (i : Introspector) (ask : string → answer) (rawToken : string) :
    prog istate rerr Identity := validate e i ask rawToken true.
Definition ValidateUncached (e : Env) (i : Introspector) (ask : string → answer) (rawToken : string) :
    prog istate rerr Identity := validate e i ask rawToken false.

(** ** middleware.go *)

Inductive Outcome : Type :=
  | OutcomeAnonymous
  | OutcomeAuthenticated
  | OutcomeRejected
  | OutcomeUnavailable
  | OutcomePrincipalError.
#[export] Instance Outcome_eq_dec : EqDecision Outcome.
Proof. solve_decision. Defined.
Definition Outcome_String (o : Outcome) : string :=
  match o with
  | OutcomeAnonymous => "anonymous"
  | OutcomeAuthenticated => "authenticated"
  | OutcomeRejected => "rejected"
  | OutcomeUnavailable => "unavailable"
  | OutcomePrincipalError => "principal_error"
  end.
Definition statusFor (o : Outcome) : Z :=
  match o with OutcomeUnavailable | OutcomePrincipalError => 503%Z | _ => 401%Z end.

(** A request: its method, the header Authorization, its cookies. *)
Record Request : Type := { rq_Method : string; rq_Authorization : string; rq_Cookie : string → option string }.
Abbreviation TokenExtractor := (Request → string) (only parsing).

Definition BearerToken : TokenExtractor := λ r,
  let h := rq_Authorization r in
  if bool_decide (String.length h < 7)%nat || negb (EqualFold (String.substring 0 7 h) "Bearer ") then ""
  else TrimSpace (String.substring 7 (String.length h - 7) h).
Definition CookieToken (name : string) : TokenExtractor := λ r,
  match rq_Cookie r name with None => "" | Some v => TrimSpace v end.
Fixpoint FirstToken (extractors : list TokenExtractor) : TokenExtractor := λ r,
  match extractors with
  | [] => ""
  | ex :: rest => let tok := ex r in if bool_decide (tok = "") then FirstToken rest r else tok
  end.
Definition Excluding (inner : TokenExtractor) (skip : string → bool) : TokenExtractor := λ r,
  let tok := inner r in if bool_decide (tok = "") || skip tok then "" else tok.

Section authenticator.
Context {P : Type}.

(** The principal is there when the outcome is [OutcomeAuthenticated]. *)
Record Result : Type := {
  rs_Outcome : Outcome;
  rs_Identity : option Identity;
  rs_Principal : option P;
  rs_Err : option rerr;
}.
Definition failed (o : Outcome) (id : option Identity) (err : option rerr) : Result :=
  {| rs_Outcome := o; rs_Identity := id; rs_Principal := None; rs_Err := err |}.

Record Authenticator : Type := { introspector : Introspector; extract : TokenExtractor }.

(** [load] is what the service's loader says at this instant. *)
Definition authenticate (e : Env) (a : Authenticator) (ask : string → answer)
    (load : Identity → outcome rerr P) (r : Request) (c : istate) : Result * istate :=
  let token := extract a r in
  if bool_decide (token = "") then (failed OutcomeAnonymous None None, c)
  else
    match Validate e (introspector a) ask token c with
    | (Err err, c) =>
        (if errors_Is err ErrInactive then failed OutcomeRejected None (Some err)
         else failed OutcomeUnavailable None (Some err), c)
    | (Ok identity, c) =>
        match load identity with
        | Err err => (failed OutcomePrincipalError (Some identity) (Some err), c)
        | Ok principal =>
            ({| rs_Outcome := OutcomeAuthenticated; rs_Identity := Some identity;
                rs_Principal := Some principal; rs_Err := None |}, c)
        end
    end.

(** The context of a request, as far as it holds a result; a handler answers, or
    the gate denies with a status. *)
Inductive reply (R : Type) : Type :=
  | Served (r : R)
  | Denied (status : Z) (o : Outcome).
Arguments Served {R} _.
Arguments Denied {R} _ _.

Definition Optional {R} (e : Env) (a : Authenticator) (ask : string → answer)
    (load : Identity → outcome rerr P) (next : option Result → reply R) (r : Request) (c : istate) :
    reply R * istate :=
  if bool_decide (rq_Method r = "OPTIONS") then (next None, c)
  else let '(res, c) := authenticate e a ask load r c in (next (Some res), c).

Definition outcome_of (res : option Result) : Outcome :=
  match res with Some res => rs_Outcome res | None => OutcomeAnonymous end.

(** The gate behind [Optional] in [Require]. *)
Definition require_gate {R} (next : option Result → reply R) (r : Request) (res : option Result) : reply R :=
  if bool_decide (rq_Method r = "OPTIONS") then next res
  else if bool_decide (outcome_of res = OutcomeAuthenticated) then next res
  else Denied (statusFor (outcome_of res)) (outcome_of res).
Definition Require {R} (e : Env) (a : Authenticator) (ask : string → answer)
    (load : Identity → outcome rerr P) (next : option Result → reply R) (r : Request) (c : istate) :
    reply R * istate :=
  Optional e a ask load (require_gate next r) r c.

Definition RequireAuthenticated {R} (authenticated : option (Request → bool)) (next : option Result → reply R)
    (r : Request) (res : option Result) : reply R :=
  if bool_decide (rq_Method r = "OPTIONS") then next res
  else if match authenticated with Some f => f r | None => false end then next res
  else Denied (statusFor (outcome_of res)) (outcome_of res).

Definition PrincipalFrom (res : option Result) : option P :=
  match res with
  | Some res => if bool_decide (rs_Outcome res = OutcomeAuthenticated) then rs_Principal res else None
  | None => None
  end.

(** ** revalidate.go *)

Inductive RevalidationStatus : Type := RevalidationIndeterminate | RevalidationValid | RevalidationRevoked.
#[export] Instance RevalidationStatus_eq_dec : EqDecision RevalidationStatus.
Proof. solve_decision. Defined.
Record RevalidationResult : Type := {
  rv_Status : RevalidationStatus;
  rv_Identity : option Identity;
  rv_Principal : option P;
  rv_Err : option rerr;
  rv_CheckedAt : time;
}.
Definition ShouldDisconnect (r : RevalidationResult) : bool := bool_decide (rv_Status r = RevalidationRevoked).
Definition RevalidationInterval (a : Authenticator) : duration := MaxTTL (introspector a).

Definition Revalidate (e : Env) (a : Authenticator) (ask : string → answer)
    (load : Identity → outcome rerr P) (rawToken : string) (c : istate) : RevalidationResult * istate :=
  let answer status id principal err :=
    {| rv_Status := status; rv_Identity := id; rv_Principal := principal; rv_Err := err;
       rv_CheckedAt := now e |} in
  match ValidateUncached e (introspector a) ask rawToken c with
  | (Err err, c) =>
      (answer (if errors_Is err ErrInactive then RevalidationRevoked else RevalidationIndeterminate)
         None None (Some err), c)
  | (Ok identity, c) =>
      if match id_ExpiresAt identity with Some exp => negb (Before (now e) exp) | None => false end then
        (answer RevalidationRevoked (Some identity) None (Some (Wrapf "token expired" (Sentinel ErrInactive))),
         Introspector_Invalidate rawToken c)
      else
        match load identity with
        | Err err => (answer RevalidationIndeterminate (Some identity) None (Some err), c)
        | Ok principal => (answer RevalidationValid (Some identity) (Some principal) None, c)
        end
  end.

(** [rand.N(half)] is [draw], below [half]. *)
Definition nextDelay (interval draw : duration) : duration :=
  let half := (interval `quot` 2)%Z in
  if bool_decide (half ≤ 0)%Z then interval else (half + draw)%Z.

(** What the [k]-th check of a loop meets: its duration, the answers of the
    authority and of the loader, the draw of the delay after it, and whether
    [onResult] wants to go on. *)
Record round : Type := {
  ro_rtt : duration;
  ro_ask : string → answer;
  ro_load : Identity → outcome rerr P;
  ro_draw : duration;
  ro_keep : RevalidationResult → bool;
}.

Definition loop_interval (a : Authenticator) : duration :=
  let interval := RevalidationInterval a in
  if bool_decide (interval ≤ 0)%Z then DefaultMaxTTL else interval.

(** [RevalidateLoop] for its first [n] checks at the most, from the one at
    instant [t]: the results it delivers, and the cache.  [env t] is the
    environment at [t]. *)
Fixpoint RevalidateLoop (env : time → Env) (a : Authenticator) (rawToken : string)
    (rounds : nat → round) (k n : nat) (t : time) (c : istate) : list RevalidationResult * istate :=
  match n with
  | O => ([], c)
  | S n =>
      let r := rounds k in
      let '(res, c) := Revalidate (env t) a (ro_ask r) (ro_load r) rawToken c in
      if bool_decide (rv_Status res = RevalidationRevoked) || negb (ro_keep r res) then ([res], c)
      else
        let '(rest, c) := RevalidateLoop env a rawToken rounds (S k) n
                            (t + ro_rtt r + nextDelay (loop_interval a) (ro_draw r))%Z c in
        (res :: rest, c)
  end.
End authenticator.
End introspection.
Arguments Result : clear implicits.
Arguments RevalidationResult : clear implicits.
Arguments round : clear implicits.
