(* ===== verification/RpauthProofs.v ===== *)
(** * Theorems on the relying party's authentication

    The cache is a bounded LRU list whatever is done with it; a revoked token is
    refused once the trust in the last positive answer has run out, and a
    connection that holds one is closed; an outage of the authority closes nothing
    and blames nobody. *)

From S2P Require Import Prelude Encoding Rpauth.

(** ** The cache is an LRU list *)

Lemma fmap_filter {A B} (f : A → B) (P : A → Prop) (Q : B → Prop) `{∀ x, Decision (P x)} `{∀ y, Decision (Q y)} (l : list A) :
  (∀ x, x ∈ l → P x ↔ Q (f x)) → f <$> filter P l = filter Q (f <$> l).
Proof.
  induction l as [|x l IH]; intros Hpq; [done|]. rewrite fmap_cons.
  assert (f <$> filter P l = filter Q (f <$> l)) as IHl by (apply IH; intros y Hy; apply Hpq; by right).
  assert (P x ↔ Q (f x)) as Hx by (apply Hpq; by left). destruct (decide (P x)) as [Hp|Hp].
  - rewrite !filter_cons_True by tauto. by rewrite fmap_cons, IHl.
  - by rewrite !filter_cons_False, IHl by tauto.
Qed.

Section cache.
Context {H : Sha256} {V : Type}.
Implicit Types (c : Cache V) (l : list (nat * cacheEntry V)) (es : gmap string nat).

(** The map and the list agree. *)
Record agree es l : Prop := {
  ag_nodup : NoDup l.*1;
  ag_map k el : es !! k = Some el ↔ ∃ en, (el, en) ∈ l ∧ en_key en = k;
}.
Record cache_ok c : Prop := {
  ok_agree : agree (entries c) (lru c);
  ok_next x : x ∈ lru c → (x.1 < next_el c)%nat;
  ok_size : (Z.of_nat (length (lru c)) ≤ maxSize c)%Z;
  ok_max : (1 ≤ maxSize c)%Z;
}.

Lemma agree_key es l el en k : agree es l → es !! k = Some el → (el, en) ∈ l ↔ (el, en) ∈ l ∧ en_key en = k.
Proof.
  intros [Hnd Hm] Hk. split; [|tauto]. intros Hin. split; [done|]. apply Hm in Hk as (en' & Hin' & <-).
  f_equal. by eapply NoDup_fst_eq.
Qed.
(** Within the list, having the identity of the element of [k] is having the key [k]. *)
Lemma agree_iff es l el k x : agree es l → es !! k = Some el → x ∈ l → x.1 = el ↔ en_key x.2 = k.
Proof.
  destruct x as [i en]. cbn. intros Hag Hk Hin. split.
  - intros ->. by apply (agree_key es l el en k) in Hin as [_ ?].
  - intros Hen. destruct Hag as [Hnd Hm]. assert (es !! k = Some i) as Hi by (apply Hm; eauto). congruence.
Qed.

Lemma el_value_Some es l el k :
  agree es l → es !! k = Some el → ∃ en, el_value el l = Some en ∧ (el, en) ∈ l ∧ en_key en = k.
Proof.
  intros [Hnd Hm] Hk. apply Hm in Hk as (en & Hin & Hen). unfold el_value.
  destruct (filter (λ x, x.1 = el) l) as [|[i en'] l'] eqn:Hf.
  - exfalso. assert ((el, en) ∈ filter (λ x, x.1 = el) l) as Hx by (by apply list_elem_of_filter). rewrite Hf in Hx. set_solver.
  - assert ((i, en') ∈ filter (λ x, x.1 = el) l) as Hx by (rewrite Hf; by left).
    apply list_elem_of_filter in Hx as [Hi Hin']. cbn in Hi. subst i. exists en'. split; [done|].
    split; [done|]. assert (en' = en) as -> by (by eapply NoDup_fst_eq). done.
Qed.

(** *** The reference: a list of entries, most recently used first. *)
#[local] Abbreviation ref := (list (cacheEntry V)) (only parsing).
Definition without (k : string) (r : ref) : ref := filter (λ en, en_key en ≠ k) r.
Definition ref_find (k : string) (r : ref) : option (cacheEntry V) := head (filter (λ en, en_key en = k) r).
Definition ref_get (e : Env) (k : string) (r : ref) : option V * ref :=
  match ref_find k r with
  | None => (None, r)
  | Some en => if Before (now e) (en_expiresAt en) then (Some (en_value en), en :: without k r) else (None, without k r)
  end.
Definition ref_put (max : Z) (en : cacheEntry V) (r : ref) : ref := take (Z.to_nat max) (en :: without (en_key en) r).
Definition contents c : ref := snd <$> lru c.

Lemma remove_el_agree es l el k :
  agree es l → es !! k = Some el →
  agree (delete k es) (remove_el el l) ∧ snd <$> remove_el el l = without k (snd <$> l).
Proof.
  intros Hag Hk. split.
  - pose proof Hag as [Hnd Hm]. split.
    + unfold remove_el. eapply sublist_NoDup; [exact Hnd|]. apply fmap_sublist, sublist_filter.
    + intros k' el'. unfold remove_el. rewrite lookup_delete_Some, Hm. split.
      * intros [Hne (en & Hin & Hen)]. exists en. split; [|done]. apply list_elem_of_filter. split; [|done].
        cbn. intros ->. apply Hne. rewrite <-Hen. symmetry. by apply (agree_iff es l el k (el, en)).
      * intros (en & [Hne Hin]%list_elem_of_filter & Hen). cbn in Hne. split; [|eauto]. intros <-.
        apply Hne. by apply (agree_iff es l el k (el', en)).
  - unfold remove_el, without. apply fmap_filter. intros x Hx. by rewrite (agree_iff es l el k).
Qed.

Lemma without_absent es l k : agree es l → es !! k = None → without k (snd <$> l) = snd <$> l.
Proof.
  intros [_ Hm] Hk. unfold without. apply filter_all. intros en (x & -> & Hx)%list_elem_of_fmap Hen.
  destruct x as [el en]. assert (es !! k = Some el) as Hs by (apply Hm; eauto). congruence.
Qed.

Lemma ref_find_agree es l k :
  agree es l → ref_find k (snd <$> l) = (el ← es !! k; el_value el l).
Proof.
  intros Hag. unfold ref_find. destruct (es !! k) as [el|] eqn:Hk; cbn [mbind option_bind].
  - unfold el_value. rewrite <-(fmap_filter snd (λ x : nat * cacheEntry V, x.1 = el) (λ en, en_key en = k) l); [by destruct (filter _ l)|].
    intros x Hx. by apply (agree_iff es l el k).
  - destruct (filter _ _) as [|en r] eqn:Hf; [done|]. exfalso.
    assert (en ∈ filter (λ en, en_key en = k) (snd <$> l)) as Hin by (rewrite Hf; by left).
    apply list_elem_of_filter in Hin as [Hen (x & -> & Hx)%list_elem_of_fmap]. destruct x as [el en], Hag as [_ Hm].
    assert (es !! k = Some el) by (apply Hm; eauto). congruence.
Qed.

(** Moving the element of a key to the front, with a new value for the key. *)
Lemma move_front_agree es l el k en :
  agree es l → es !! k = Some el → en_key en = k →
  agree es (move_front el en l) ∧ snd <$> move_front el en l = en :: without k (snd <$> l).
Proof.
  intros Hag Hk Hen. destruct (remove_el_agree es l el k Hag Hk) as [Hag' Hcon]. split.
  - destruct Hag' as [Hnd Hm]. unfold move_front. split; cbn.
    + apply NoDup_cons. split; [|done]. intros (x & Hx & Hin)%list_elem_of_fmap.
      apply list_elem_of_filter in Hin as [Hne _]. congruence.
    + intros k' el'. destruct (decide (k' = k)) as [->|Hne].
      * rewrite Hk. split; [intros [= <-]; exists en; split; [by left|done]|].
        intros (en' & Hin & Hen'). apply elem_of_cons in Hin as [[= -> ->]|Hin]; [done|].
        exfalso. specialize (Hm k el'). rewrite lookup_delete_eq in Hm. assert (None = Some el'); [|done].
        apply Hm. eauto.
      * specialize (Hm k' el'). rewrite lookup_delete_ne in Hm by done. rewrite Hm.
        split; intros (en' & Hin & Hen').
        -- exists en'. split; [by right|done].
        -- apply elem_of_cons in Hin as [[= -> ->]|Hin]; [congruence|eauto].
  - unfold move_front. rewrite fmap_cons. by rewrite Hcon.
Qed.

Lemma evict_spec max fuel es l :
  (1 ≤ max)%Z → (length l ≤ fuel)%nat → agree es l →
  let '(es', l') := evict max fuel es l in
  agree es' l' ∧ snd <$> l' = take (Z.to_nat max) (snd <$> l) ∧ (∀ x, x ∈ l' → x ∈ l) ∧
  (Z.of_nat (length l') ≤ max)%Z.
Proof.
  intros Hmax. revert es l. induction fuel as [|fuel IH]; intros es l Hfuel Hag.
  { destruct l; [|cbn in Hfuel; lia]. cbn. split_and!; [done|by destruct (Z.to_nat max)|done|lia]. }
  cbn [evict]. case_bool_decide as Hlen.
  { split_and!; [done| |done|done]. rewrite take_ge; [done|rewrite length_fmap; lia]. }
  destruct (last l) as [[el oldest]|] eqn:Hlast.
  2: { apply last_None in Hlast. subst. cbn in Hlen. lia. }
  apply last_Some in Hlast as [l0 ->].
  assert (es !! en_key oldest = Some el) as Hk.
  { apply Hag. exists oldest. split; [|done]. apply elem_of_app. right. by left. }
  assert (remove_el el (l0 ++ [(el, oldest)]) = l0) as Hrem.
  { unfold remove_el. rewrite filter_app, (filter_cons_False _ (el, oldest)), filter_nil, app_nil_r by (cbn; tauto).
    apply filter_all. intros x Hx. pose proof (ag_nodup _ _ Hag) as Hnd.
    rewrite fmap_app, NoDup_app in Hnd. destruct Hnd as (_ & Hdis & _). intros Heq.
    apply (Hdis x.1); [by apply list_elem_of_fmap; eauto|]. rewrite Heq. by left. }
  destruct (remove_el_agree _ _ _ _ Hag Hk) as [Hag' _]. rewrite Hrem in *.
  specialize (IH (delete (en_key oldest) es) l0). rewrite length_app in Hlen, Hfuel. cbn in Hlen, Hfuel.
  destruct (evict max fuel _ l0) as [es' l']. destruct IH as (? & Hc & Hin & ?); [lia|done|].
  split_and!; [done| |intros x Hx; apply elem_of_app; left; by apply Hin|done].
  rewrite Hc, fmap_app, take_app_le; [done|rewrite length_fmap; lia].
Qed.

(** *** The operations refine those of the reference. *)
Lemma Get_refines e secret c :
  cache_ok c →
  cache_ok (Get e secret c).2 ∧
  ((Get e secret c).1, contents (Get e secret c).2) = ref_get e (hashKey secret) (contents c).
Proof.
  intros [Hag Hnext Hsize Hmax]. unfold Get, ref_get, contents. rewrite (ref_find_agree (entries c)) by done.
  destruct (entries c !! hashKey secret) as [el|] eqn:Hk; cbn [mbind option_bind]; [|by split].
  destruct (el_value_Some _ _ _ _ Hag Hk) as (en & Hv & Hin & Hen). rewrite Hv.
  destruct (Before (now e) (en_expiresAt en)); cbn [negb fst snd lru with_lists].
  - destruct (move_front_agree _ _ el (hashKey secret) en Hag Hk Hen) as [Hag' Hcon]. rewrite Hcon. split; [|done].
    assert (∀ x, x ∈ move_front el en (lru c) → (x.1 < next_el c)%nat) as Hn.
    { intros x [->|[_ Hx]%list_elem_of_filter]%elem_of_cons; [by apply (Hnext (el, en))|by apply Hnext]. }
    split; [done|exact Hn| |done]. cbn [lru with_lists maxSize]. etrans; [|exact Hsize]. apply Nat2Z.inj_le. unfold move_front, remove_el. cbn [length].
    by apply (length_filter_lt _ _ (el, en)); [|cbn; tauto].
  - destruct (remove_el_agree _ _ el (hashKey secret) Hag Hk) as [Hag' Hcon]. rewrite Hcon. split; [|done].
    split; [done| | |done].
    + intros x [_ Hx]%list_elem_of_filter. by apply Hnext.
    + cbn. etrans; [|exact Hsize]. apply Nat2Z.inj_le. unfold remove_el. apply length_filter.
Qed.

Lemma Put_refines e secret v ttl c :
  cache_ok c →
  cache_ok (Put e secret v ttl c) ∧
  contents (Put e secret v ttl c) =
    if bool_decide (ttl ≤ 0)%Z then contents c
    else ref_put (maxSize c) {| en_key := hashKey secret; en_value := v; en_expiresAt := (now e + ttl)%Z |} (contents c).
Proof.
  intros [Hag Hnext Hsize Hmax]. unfold Put. case_bool_decide; [by split|]. cbn zeta.
  set (en := {| en_key := hashKey secret; en_value := v; en_expiresAt := (now e + ttl)%Z |}).
  unfold ref_put, contents. change (en_key en) with (hashKey secret).
  destruct (entries c !! hashKey secret) as [el|] eqn:Hk.
  - destruct (move_front_agree _ _ el (hashKey secret) en Hag Hk eq_refl) as [Hag' Hcon].
    destruct (el_value_Some _ _ _ _ Hag Hk) as (en0 & _ & Hin & _).
    assert (length (move_front el en (lru c)) ≤ length (lru c))%nat as Hlen.
    { unfold move_front, remove_el. cbn [length]. by apply (length_filter_lt _ _ (el, en0)); [|cbn; tauto]. }
    cbn [lru with_lists]. rewrite Hcon, take_ge.
    + split; [|done]. split; [done| |cbn [lru with_lists maxSize]; lia|done].
      intros x [->|[_ Hx]%list_elem_of_filter]%elem_of_cons; [by apply (Hnext (el, en0))|by apply Hnext].
    + rewrite <-Hcon, length_fmap. lia.
  - assert (agree (<[hashKey secret := next_el c]> (entries c)) ((next_el c, en) :: lru c)) as Hag'.
    { destruct Hag as [Hnd Hm]. split; cbn.
      - apply NoDup_cons. split; [|done]. intros (x & Hx & Hin)%list_elem_of_fmap. apply Hnext in Hin. lia.
      - intros k el. rewrite lookup_insert_Some, Hm. split.
        + intros [[<- <-]|[Hne (en' & Hin & Hen)]]; [exists en; split; [by left|done]|].
          exists en'. split; [by right|done].
        + intros (en' & Hin & Hen). apply elem_of_cons in Hin as [[= -> ->]|Hin]; [by left|].
          right. split; [|eauto]. intros <-. assert (entries c !! hashKey secret = Some el) by (apply Hm; eauto).
          congruence. }
    pose proof (evict_spec (maxSize c) (length ((next_el c, en) :: lru c)) _ _ Hmax (le_n _) Hag') as Hev.
    destruct (evict _ _ _ _) as [es l]. destruct Hev as (Ha & Hc & Hin & Hl). cbn [lru]. rewrite Hc, fmap_cons.
    rewrite (without_absent (entries c)) by done. split; [|done]. split; [done| |done|done].
    intros x [->|Hx]%Hin%elem_of_cons; cbn; [lia|]. apply Hnext in Hx. lia.
Qed.

Lemma Invalidate_refines secret c :
  cache_ok c → cache_ok (Invalidate secret c) ∧ contents (Invalidate secret c) = without (hashKey secret) (contents c).
Proof.
  intros [Hag Hnext Hsize Hmax]. unfold Invalidate, contents.
  destruct (entries c !! hashKey secret) as [el|] eqn:Hk.
  - destruct (remove_el_agree _ _ el (hashKey secret) Hag Hk) as [Hag' Hcon]. cbn [lru with_lists].
    split; [|done]. split; [done| | |done].
    + intros x [_ Hx]%list_elem_of_filter. by apply Hnext.
    + cbn. etrans; [|exact Hsize]. apply Nat2Z.inj_le. unfold remove_el. apply length_filter.
  - rewrite (without_absent (entries c)) by done. by split.
Qed.

Lemma NewCache_ok max : cache_ok (NewCache max).
Proof.
  split; cbn; [|by intros x Hx; apply not_elem_of_nil in Hx| |]; [|case_bool_decide; lia..].
  split; [apply NoDup_nil_2|]. intros k el. rewrite lookup_empty. split; [done|].
  intros (en & Hin & _). by apply not_elem_of_nil in Hin.
Qed.

(** What is done with a cache. *)
Inductive cache_op : Type :=
  | OpGet (secret : string)
  | OpPut (secret : string) (v : V) (ttl : duration)
  | OpInvalidate (secret : string).
Definition run_op (e : Env) (op : cache_op) c : Cache V :=
  match op with
  | OpGet secret => (Get e secret c).2
  | OpPut secret v ttl => Put e secret v ttl c
  | OpInvalidate secret => Invalidate secret c
  end.
Definition ref_op (max : Z) (e : Env) (op : cache_op) (r : list (cacheEntry V)) : list (cacheEntry V) :=
  match op with
  | OpGet secret => (ref_get e (hashKey secret) r).2
  | OpPut secret v ttl =>
      if bool_decide (ttl ≤ 0)%Z then r
      else ref_put max {| en_key := hashKey secret; en_value := v; en_expiresAt := (now e + ttl)%Z |} r
  | OpInvalidate secret => without (hashKey secret) r
  end.

Lemma run_op_refines max e op c :
  cache_ok c → maxSize c = max →
  cache_ok (run_op e op c) ∧ maxSize (run_op e op c) = max ∧ contents (run_op e op c) = ref_op max e op (contents c).
Proof.
  intros Hok <-. destruct op as [secret|secret v ttl|secret]; cbn [run_op ref_op].
  - destruct (Get_refines e secret c Hok) as [? Heq]. split; [done|]. split; [|by rewrite <-Heq].
    unfold Get. by repeat case_match.
  - destruct (Put_refines e secret v ttl c Hok) as [? Heq]. split; [done|]. split; [|done].
    unfold Put. by repeat case_match.
  - destruct (Invalidate_refines secret c Hok) as [? Heq]. split; [done|]. split; [|done].
    unfold Invalidate. by repeat case_match.
Qed.

(** Whatever is done with a cache, map and list agree, there are never more
    entries than its size, at least one, and it holds and answers what the reference
    does: a list of entries, most recently used first, cut at the size. *)
Theorem cache_is_lru max (ops : list (Env * cache_op)) e secret :
  let c := foldl (λ c '(e, op), run_op e op c) (NewCache max) ops in
  let r := foldl (λ r '(e, op), ref_op (Z.max 1 max) e op r) [] ops in
  cache_ok c ∧ (Z.of_nat (Len c) ≤ Z.max 1 max)%Z ∧ contents c = r ∧
  (Get e secret c).1 = (ref_get e (hashKey secret) r).1.
Proof.
  intros c r. assert (cache_ok c ∧ maxSize c = Z.max 1 max ∧ contents c = r) as (Hok & Hmax & Hcon).
  { subst c r. induction ops as [|[e' op] ops IH] using rev_ind.
    - split; [apply NewCache_ok|]. split; [cbn; case_bool_decide; lia|done].
    - rewrite !foldl_app. cbn. destruct IH as (Hok & Hmax & <-). by apply run_op_refines. }
  split; [done|]. split; [rewrite <-Hmax; apply Hok|]. split; [done|].
  destruct (Get_refines e secret c Hok) as [_ Heq]. by rewrite <-Hcon, <-Heq.
Qed.
End cache.

(** ** Trust in the authority *)

Section trust.
Context {H : Sha256} {C : UnicodeCase} (EqualFold : string → string → bool).
#[local] Abbreviation istate := (option (Cache Identity)) (only parsing).
Implicit Types (i : Introspector) (ask : string → answer).

(** The answers that authenticate, and those that refuse for good. *)
Definition vouches (a : answer) : option introspectResponse :=
  match a with
  | Answered status _ (Some out) =>
      if bool_decide (200 ≤ status < 300)%Z && Active out && negb (EqualFold (TokenType out) "refresh_token")
      then Some out else None
  | _ => None
  end.
Definition refuses (a : answer) : bool :=
  match a with
  | Answered status _ (Some out) =>
      bool_decide (200 ≤ status < 300)%Z && (negb (Active out) || EqualFold (TokenType out) "refresh_token")
  | _ => false
  end.

Lemma introspected_eq e i tok a (c : istate) :
  introspected EqualFold e i tok a c =
  match vouches a, a with
  | Some out, Answered _ cc _ =>
      (Ok (identity_of out),
       if bool_decide (0 < computeTTL e i cc (Exp out))%Z
       then Put e tok (identity_of out) (computeTTL e i cc (Exp out)) <$> c else c)
  | _, _ => if refuses a
            then ((introspected EqualFold e i tok a c).1, Introspector_Invalidate tok c)
            else ((introspected EqualFold e i tok a c).1, c)
  end.
Proof.
  destruct a as [|status cc body]; [done|]. unfold introspected, vouches, refuses.
  destruct body as [out|]; [|by repeat case_match].
  destruct (decide (200 ≤ status < 300)%Z).
  - rewrite (bool_decide_false (status < 200)%Z), (bool_decide_false (300 ≤ status)%Z),
      (bool_decide_true (200 ≤ status < 300)%Z) by lia.
    by destruct (Active out), (EqualFold _ _).
  - rewrite (bool_decide_false (200 ≤ status < 300)%Z) by done.
    destruct (_ || _) eqn:Hb; [done|]. apply orb_false_iff in Hb as [?%bool_decide_eq_false ?%bool_decide_eq_false]. lia.
Qed.

(** The error of an answer that does not authenticate. *)
Lemma introspected_error e i tok a (c : istate) :
  vouches a = None →
  ∃ err, (introspected EqualFold e i tok a c).1 = Err err ∧ errors_Is err ErrInactive = refuses a ∧
    errors_Is err ErrUnavailable = negb (refuses a).
Proof.
  destruct a as [|status cc body]; [by eexists|]. unfold introspected, vouches, refuses.
  destruct body as [out|]; [|intros _; case_match; by eexists].
  destruct (decide (200 ≤ status < 300)%Z).
  - rewrite (bool_decide_false (status < 200)%Z), (bool_decide_false (300 ≤ status)%Z),
      (bool_decide_true (200 ≤ status < 300)%Z) by lia.
    destruct (Active out), (EqualFold _ _); intros Hv; try done; by eexists.
  - rewrite (bool_decide_false (200 ≤ status < 300)%Z) by done. intros _.
    destruct (_ || _) eqn:Hb; [by eexists|]. apply orb_false_iff in Hb as [?%bool_decide_eq_false ?%bool_decide_eq_false]. lia.
Qed.

Lemma computeTTL_bound e i cc exp :
  (0 < computeTTL e i cc exp)%Z →
  (computeTTL e i cc exp ≤ it_maxTTL i)%Z ∧ ((0 < exp)%Z → (now e + computeTTL e i cc exp ≤ exp * Second)%Z).
Proof.
  unfold computeTTL, time_Sub. set (ma := parseMaxAge cc).
  repeat case_bool_decide; cbn [andb] in *; lia.
Qed.

(** What is asked of an introspector over time. *)
Inductive icall : Type :=
  | CallValidate (ask : string → answer) (tok : string) (useCache : bool)
  | CallInvalidate (tok : string).
Definition run_call i (e : Env) (call : icall) (c : istate) : istate :=
  match call with
  | CallValidate ask tok useCache => (validate EqualFold e i ask tok useCache c).2
  | CallInvalidate tok => Introspector_Invalidate tok c
  end.
Definition run_calls i (calls : list (Env * icall)) (c : istate) : istate :=
  foldl (λ c '(e, call), run_call i e call c) c calls.

(** An entry that one of the calls put, with the identity the authority vouched for. *)
Definition justified i (calls : list (Env * icall)) (en : cacheEntry Identity) : Prop :=
  ∃ e ask tok useCache out, (e, CallValidate ask tok useCache) ∈ calls ∧ hashKey tok = en_key en ∧
    vouches (ask tok) = Some out ∧ en_value en = identity_of out ∧
    (en_expiresAt en ≤ now e + it_maxTTL i)%Z ∧ ((0 < Exp out)%Z → (en_expiresAt en ≤ Exp out * Second)%Z).
Definition all_justified i calls (c : istate) : Prop :=
  match c with
  | None => True
  | Some c => cache_ok c ∧ ∀ en, en ∈ contents c → justified i calls en
  end.

Lemma justified_more i calls x en : justified i calls en → justified i (calls ++ [x]) en.
Proof.
  intros (e & ask & tok & u & out & Hin & Hrest). exists e, ask, tok, u, out.
  split; [apply elem_of_app; by left|done].
Qed.

Lemma ref_get_subset e k (r : list (cacheEntry Identity)) en : en ∈ (ref_get e k r).2 → en ∈ r.
Proof.
  unfold ref_get, ref_find. destruct (filter _ r) as [|en0 l] eqn:Hf; cbn [head]; [done|].
  assert (en0 ∈ r) as H0.
  { assert (en0 ∈ filter (λ en, en_key en = k) r) as Hin by (rewrite Hf; by left).
    by apply list_elem_of_filter in Hin as [_ ?]. }
  destruct (Before _ _); cbn [snd]; [intros [->|[_ Hin]%list_elem_of_filter]%elem_of_cons; done|].
  by intros [_ Hin]%list_elem_of_filter.
Qed.
Lemma ref_put_subset max x (r : list (cacheEntry Identity)) en : en ∈ ref_put max x r → en = x ∨ en ∈ r.
Proof.
  unfold ref_put. intros Hin%elem_of_take. destruct Hin as (k & Hin & _).
  apply list_elem_of_lookup_2 in Hin. apply elem_of_cons in Hin as [->|[_ Hin]%list_elem_of_filter]; auto.
Qed.

(** A lookup in a justified cache: it stays justified, and a hit is a live entry. *)
Lemma Get_justified e i calls tok (c : Cache Identity) :
  all_justified i calls (Some c) →
  all_justified i calls (Some (Get e tok c).2) ∧
  ∀ id, (Get e tok c).1 = Some id → ∃ en, justified i calls en ∧ en_key en = hashKey tok ∧ en_value en = id ∧
    (now e < en_expiresAt en)%Z.
Proof.
  intros [Hok Hj]. destruct (Get_refines e tok c Hok) as [Hok' Heq]. split.
  - split; [done|]. intros en Hin. apply Hj. apply (ref_get_subset e (hashKey tok)). by rewrite <-Heq.
  - intros id Hid. rewrite Hid in Heq. unfold ref_get, ref_find in Heq.
    destruct (filter _ (contents c)) as [|en l] eqn:Hf; cbn [head] in Heq; [done|].
    assert (en ∈ filter (λ en, en_key en = hashKey tok) (contents c)) as Hin by (rewrite Hf; by left).
    apply list_elem_of_filter in Hin as [Hkey Hin]. unfold Before in Heq. case_bool_decide; [|done].
    exists en. split; [by apply Hj|]. split; [done|]. by injection Heq as ->.
Qed.

Lemma Invalidate_justified i calls tok (c : istate) :
  all_justified i calls c → all_justified i calls (Introspector_Invalidate tok c).
Proof.
  destruct c as [c|]; [|done]. intros [Hok Hj]. cbn. destruct (Invalidate_refines tok c Hok) as [? Heq].
  split; [done|]. rewrite Heq. intros en [_ Hin]%list_elem_of_filter. by apply Hj.
Qed.

Lemma introspected_justified e i calls ask tok useCache (c : istate) :
  all_justified i calls c →
  all_justified i (calls ++ [(e, CallValidate ask tok useCache)]) (introspected EqualFold e i tok (ask tok) c).2.
Proof.
  intros Hj. assert (all_justified i (calls ++ [(e, CallValidate ask tok useCache)]) c) as Hj'.
  { destruct c as [c|]; [|done]. destruct Hj as [Hok Hj]. split; [done|]. intros en Hin. by apply justified_more, Hj. }
  rewrite introspected_eq. destruct (vouches (ask tok)) as [out|] eqn:Hv;
    [|destruct (refuses (ask tok)); cbn; by try apply Invalidate_justified].
  destruct (ask tok) as [|status cc body] eqn:Ha; [done|]. cbn [snd].
  case_bool_decide as Hpos; [|done]. destruct c as [c|]; [|done]. cbn [fmap option_fmap option_map].
  destruct Hj' as [Hok Hj']. destruct (Put_refines e tok (identity_of out) (computeTTL e i cc (Exp out)) c Hok)
    as [Hok' Heq]. split; [done|]. rewrite Heq. rewrite bool_decide_false by lia.
  intros en [->|Hin]%ref_put_subset; [|by apply Hj'].
  destruct (computeTTL_bound e i cc (Exp out) Hpos) as [Hmax Hexp].
  exists e, ask, tok, useCache, out. split; [apply elem_of_app; right; by left|]. cbn.
  rewrite Ha. split_and!; [done|done|done|lia|done].
Qed.

Lemma validate_justified e i calls ask tok useCache (c : istate) :
  all_justified i calls c →
  all_justified i (calls ++ [(e, CallValidate ask tok useCache)]) (validate EqualFold e i ask tok useCache c).2.
Proof.
  intros Hj. assert (all_justified i (calls ++ [(e, CallValidate ask tok useCache)]) c) as Hj'.
  { destruct c as [c|]; [|done]. destruct Hj as [Hok Hj]. split; [done|]. intros en Hin. by apply justified_more, Hj. }
  unfold validate. case_bool_decide; [done|]. destruct c as [c|]; [|by apply introspected_justified].
  destruct useCache; [|by apply introspected_justified].
  destruct (Get_justified e i calls tok c Hj) as [Hg _].
  destruct (Get_justified e i _ tok c Hj') as [Hg' _].
  destruct (Get e tok c) as [[id|] c']; cbn [snd] in *; [done|]. by apply introspected_justified.
Qed.

Lemma run_calls_justified i calls (c : istate) : all_justified i [] c → all_justified i calls (run_calls i calls c).
Proof.
  intros H0. unfold run_calls. induction calls as [|[e call] calls IH] using rev_ind; [done|].
  rewrite foldl_app. cbn. destruct call as [ask tok u|tok]; cbn [run_call].
  - by apply validate_justified.
  - apply Invalidate_justified. destruct (foldl _ _ _) as [c'|]; [|done]. destruct IH as [Hok Hj].
    split; [done|]. intros en Hin. by apply justified_more, Hj.
Qed.

(** A new introspector, with an empty cache or none. *)
Definition fresh (c : istate) : Prop := ∃ max, c = None ∨ c = Some (NewCache max).
Lemma fresh_justified i c : fresh c → all_justified i [] c.
Proof.
  intros [max [->| ->]]; [done|]. split; [apply NewCache_ok|]. intros en Hin. by apply not_elem_of_nil in Hin.
Qed.

(** C35: an identity comes from the authority now, or from a call at most [MaxTTL]
    ago, and then before the token's own expiry; asked past the cache, always from the
    authority now.  So a token the authority stopped vouching for is refused once
    [MaxTTL] has passed, whatever calls were made. *)
Theorem validated_recently i (calls : list (Env * icall)) c0 e ask tok useCache id :
  fresh c0 → (∀ tok', hashKey tok' = hashKey tok → tok' = tok) →
  (validate EqualFold e i ask tok useCache (run_calls i calls c0)).1 = Ok id →
  (∃ out, vouches (ask tok) = Some out ∧ id = identity_of out) ∨
  (useCache = true ∧ ∃ e' ask' u out, (e', CallValidate ask' tok u) ∈ calls ∧ vouches (ask' tok) = Some out ∧
     id = identity_of out ∧ (now e < now e' + MaxTTL i)%Z ∧ ((0 < Exp out)%Z → (now e < Exp out * Second)%Z)).
Proof.
  intros Hfresh Hinj. pose proof (run_calls_justified i calls c0 (fresh_justified i c0 Hfresh)) as Hj.
  assert (∀ c : istate, (introspected EqualFold e i tok (ask tok) c).1 = Ok id →
    ∃ out, vouches (ask tok) = Some out ∧ id = identity_of out) as Hnow.
  { intros c Hc. destruct (vouches (ask tok)) as [out|] eqn:Hv.
    - rewrite introspected_eq, Hv in Hc. destruct (ask tok); [done|]. injection Hc as <-. eauto.
    - destruct (introspected_error e i tok (ask tok) c Hv) as (err & Herr & _). congruence. }
  unfold validate. case_bool_decide; [done|].
  destruct (run_calls i calls c0) as [c|]; [|intros Hc; left; by eapply Hnow].
  destruct useCache; [|intros Hc; left; by eapply Hnow].
  destruct (Get_justified e i calls tok c Hj) as [_ Hhit].
  destruct (Get e tok c) as [[id'|] c']; cbn [fst] in *; [|intros Hc; left; by eapply Hnow].
  intros [= ->]. right. split; [done|]. destruct (Hhit id eq_refl) as (en & Hen & Hkey & Hval & Hlive).
  destruct Hen as (e' & ask' & tok' & u & out & Hin & Hk & Hv & He & Hmax & Hexp).
  assert (tok' = tok) as -> by (apply Hinj; congruence). exists e', ask', u, out.
  split_and!; [done|done|congruence|unfold MaxTTL; lia|intros Hpos; specialize (Hexp Hpos); lia].
Qed.
End trust.

(** ** Long-lived connections *)

Section connections.
Context {H : Sha256} {C : UnicodeCase} (EqualFold : string → string → bool) {P : Type}.
#[local] Abbreviation istate := (option (Cache Identity)) (only parsing).
Implicit Types (a : Authenticator) (res : RevalidationResult P).

Lemma ValidateUncached_eq e i ask tok (c : istate) :
  ValidateUncached EqualFold e i ask tok c =
  if bool_decide (TrimSpace tok = "") then (Err (Sentinel ErrInactive), c)
  else introspected EqualFold e i tok (ask tok) c.
Proof. unfold ValidateUncached, validate. case_bool_decide; [done|]. by destruct c. Qed.

Lemma expired_identity now out :
  match id_ExpiresAt (identity_of out) with Some exp => negb (Before now exp) | None => false end =
  bool_decide (0 < Exp out ∧ Exp out * Second ≤ now)%Z.
Proof. unfold identity_of, Before. cbn. repeat case_bool_decide; try done; lia. Qed.

(** A revalidation closes a connection exactly when the token is blank, when the
    authority refuses it (inactive, or a refresh token), or when the token's own
    expiry has passed; an authority that cannot be reached and a principal that
    cannot be loaded leave the connection open. *)
Theorem Revalidate_exact e a ask (load : Identity → outcome (goerr rp_error) P) tok (c : istate) :
  let res := (Revalidate EqualFold e a ask load tok c).1 in
  rv_CheckedAt res = now e ∧
  (ShouldDisconnect res = true ↔
     TrimSpace tok = "" ∨ refuses EqualFold (ask tok) = true ∨
     ∃ out, vouches EqualFold (ask tok) = Some out ∧ (0 < Exp out)%Z ∧ (Exp out * Second ≤ now e)%Z) ∧
  (rv_Status res = RevalidationValid ↔
     TrimSpace tok ≠ "" ∧ ∃ out p, vouches EqualFold (ask tok) = Some out ∧ load (identity_of out) = Ok p ∧
       rv_Principal res = Some p ∧ ((0 < Exp out)%Z → (now e < Exp out * Second)%Z)).
Proof.
  cbn zeta. unfold Revalidate, ShouldDisconnect. rewrite ValidateUncached_eq. case_bool_decide as Htok.
  { cbn. split; [done|]. split; [|naive_solver]. rewrite bool_decide_true by done. naive_solver. }
  destruct (vouches EqualFold (ask tok)) as [out|] eqn:Hv.
  - assert (refuses EqualFold (ask tok) = false) as Hr.
    { destruct (ask tok) as [|status cc [out'|]]; [done| |done]. cbn in *.
      by destruct (bool_decide _), (Active out'), (EqualFold _ _). }
    rewrite introspected_eq, Hv, Hr. destruct (ask tok) as [|status cc body]; [done|].
    rewrite expired_identity. case_bool_decide as Hexp.
    + cbn. split; [done|]. rewrite bool_decide_true by done. split; [naive_solver|]. split; [done|].
      intros (_ & out' & p & [= <-] & _ & _ & Hlt). lia.
    + destruct (load (identity_of out)) eqn:Hl; cbn; (split; [done|]); rewrite bool_decide_false by done.
      all: split; [split; [done|]; intros [?|[?|(out' & [= <-] & ? & ?)]]; [done|done|lia]|].
      * split; [|done]. intros _. split; [done|]. eexists out, _. split_and!; [done..|lia].
      * split; [done|]. naive_solver.
  - destruct (introspected_error EqualFold e (introspector a) tok (ask tok) c Hv) as (err & Herr & Hin & _).
    destruct (introspected _ _ _ _ _ _) as [o c']. cbn in Herr. subst o. rewrite Hin. cbn.
    split; [done|]. destruct (refuses EqualFold (ask tok)); cbn; split; naive_solver.
Qed.

Lemma nextDelay_bounds interval draw :
  (0 < interval)%Z → (0 ≤ draw < Z.max 1 (interval `quot` 2))%Z → (0 < nextDelay interval draw ≤ interval)%Z.
Proof.
  intros Hi Hd. unfold nextDelay. pose proof (Z.quot_rem' interval 2). pose proof (Z.rem_bound_pos interval 2).
  case_bool_decide; lia.
Qed.
Lemma loop_interval_pos a : (0 < loop_interval a)%Z.
Proof. unfold loop_interval, DefaultMaxTTL, Second. case_bool_decide; lia. Qed.

(** The instant of the [k]-th check of a loop that starts at [t]. *)
Fixpoint check_time a (rounds : nat → round P) (t : time) (k : nat) : time :=
  match k with
  | O => t
  | S k => (check_time a rounds t k + ro_rtt (rounds k) + nextDelay (loop_interval a) (ro_draw (rounds k)))%Z
  end.

(** A connection that holds a token the authority refuses from some instant on
    is closed by a check within one interval, plus the time a check takes, of that
    instant, whatever the cache holds, the loader says and the delays drawn are. *)
Theorem revoked_connection_closed env a tok (rounds : nat → round P) t0 revoked rtt (c : istate) :
  (∀ t, now (env t) = t) → (t0 ≤ revoked)%Z →
  (∀ k, 0 ≤ ro_rtt (rounds k) ≤ rtt)%Z →
  (∀ k, 0 ≤ ro_draw (rounds k) < Z.max 1 (loop_interval a `quot` 2))%Z →
  (∀ k res, ro_keep (rounds k) res = true) →
  (∀ k, (revoked ≤ check_time a rounds t0 k)%Z → refuses EqualFold (ro_ask (rounds k) tok) = true) →
  ∃ n results res, (∀ m, (n ≤ m)%nat →
      (RevalidateLoop EqualFold env a tok rounds 0 m t0 c).1 = results) ∧
    last results = Some res ∧ ShouldDisconnect res = true ∧
    (rv_CheckedAt res ≤ revoked + rtt + loop_interval a)%Z.
Proof.
  intros Henv Ht0 Hrtt Hdraw Hkeep Hrev.
  assert (∀ d k c, Z.to_nat (revoked - check_time a rounds t0 k) ≤ d →
    (check_time a rounds t0 k ≤ revoked + rtt + loop_interval a)%Z →
    ∃ n results res, (∀ m, (n ≤ m)%nat →
      (RevalidateLoop EqualFold env a tok rounds k m (check_time a rounds t0 k) c).1 = results) ∧
    last results = Some res ∧ ShouldDisconnect res = true ∧
    (rv_CheckedAt res ≤ revoked + rtt + loop_interval a)%Z) as Hgen.
  { intros d. induction d as [|d IH]; intros k c' Hd Hle.
    all: set (t := check_time a rounds t0 k) in *.
    all: destruct (Revalidate_exact (env t) a (ro_ask (rounds k)) (ro_load (rounds k)) tok c') as (Hat & Hdis & _).
    all: destruct (Revalidate EqualFold (env t) a (ro_ask (rounds k)) (ro_load (rounds k)) tok c') as [res c1] eqn:Hres.
    all: cbn [fst] in *.
    all: destruct (ShouldDisconnect res) eqn:Hsd.
    - exists 1%nat, [res], res. split; [|rewrite Hat, Henv; done]. intros [|m] Hm; [lia|]. cbn. rewrite Hres.
      unfold ShouldDisconnect in Hsd. by rewrite Hsd.
    - exfalso. assert (false = true); [|done]. apply Hdis. right. left. apply Hrev. fold t. lia.
    - exists 1%nat, [res], res. split; [|rewrite Hat, Henv; done]. intros [|m] Hm; [lia|]. cbn. rewrite Hres.
      unfold ShouldDisconnect in Hsd. by rewrite Hsd.
    - assert (t < revoked)%Z as Hlt.
      { destruct (decide (t < revoked)%Z); [done|]. exfalso. assert (false = true); [|done].
        apply Hdis. right. left. apply Hrev. fold t. lia. }
      pose proof (nextDelay_bounds (loop_interval a) (ro_draw (rounds k)) (loop_interval_pos a) (Hdraw k)).
      specialize (Hrtt k). destruct (IH (S k) c1) as (n & results & r & Hloop & Hlast & Hr & Hb);
        [cbn [check_time]; fold t; lia|cbn [check_time]; fold t; lia|].
      exists (S n), (res :: results), r. split; [|split; [|done]].
      + intros [|m] Hm; [lia|]. cbn [RevalidateLoop]. rewrite Hres.
        unfold ShouldDisconnect in Hsd. rewrite Hsd, Hkeep. cbn [orb negb].
        specialize (Hloop m ltac:(lia)). cbn [check_time] in Hloop. fold t in Hloop.
        destruct (RevalidateLoop _ _ _ _ _ _ _ _ _) as [rest c2]. cbn in Hloop |- *. by rewrite Hloop.
      + rewrite last_cons, Hlast. done. }
  destruct (Hgen _ 0%nat c (le_n _)) as (n & results & res & Hn); [|by exists n, results, res].
  cbn. pose proof (loop_interval_pos a). specialize (Hrtt 0%nat). lia.
Qed.

(** ** Gates *)

(** [Require] serves preflight requests, and otherwise exactly the requests whose
    token validates and whose principal loads; every other one is denied with 401 when
    there is no token or the authority refuses it, and with 503, which blames no
    credential, when the authority or the loader fails. *)
Theorem Require_exact {R} e a ask (load : Identity → outcome (goerr rp_error) P)
    (next : option (Result P) → reply R) r (c : istate) :
  let token := extract a r in
  let checked := (Validate EqualFold e (introspector a) ask token c).1 in
  (Require EqualFold e a ask load next r c).1 =
  if bool_decide (rq_Method r = "OPTIONS") then next None
  else if bool_decide (token = "") then Denied R 401 OutcomeAnonymous
  else match checked with
       | Err err => if errors_Is err ErrInactive then Denied R 401 OutcomeRejected
                    else Denied R 503 OutcomeUnavailable
       | Ok id => match load id with
                  | Err _ => Denied R 503 OutcomePrincipalError
                  | Ok p => next (Some {| rs_Outcome := OutcomeAuthenticated; rs_Identity := Some id;
                                          rs_Principal := Some p; rs_Err := None |})
                  end
       end.
Proof.
  cbn zeta. unfold Require, Optional, require_gate, authenticate. case_bool_decide; [done|].
  case_bool_decide; [done|]. destruct (Validate _ _ _ _ _ _) as [[id|err] c']; cbn [fst].
  - by destruct (load id).
  - by destruct (errors_Is err ErrInactive).
Qed.

(** The authority cannot forbid caching: an answer whose Cache-Control says
    max-age=0 is trusted for the whole of [MaxTTL], like one without the header, so
    that within it a token the authority refuses by then still validates. *)
Theorem max_age_zero_ignored e e' i ask ask' tok out cache :
  ToLower "max-age=0" = "max-age=0" →
  TrimSpace tok ≠ "" → (0 < it_maxTTL i)%Z → Exp out = 0%Z → cache_ok cache →
  ask tok = Answered 200 "max-age=0" (Some out) → vouches EqualFold (ask tok) = Some out →
  (now e' < now e + it_maxTTL i)%Z →
  (Validate EqualFold e' i ask' tok (ValidateUncached EqualFold e i ask tok (Some cache)).2).1 = Ok (identity_of out).
Proof.
  intros Hlow Htok Hpos Hexp Hok Hask Hv Hlive.
  assert (computeTTL e i "max-age=0" (Exp out) = it_maxTTL i) as Httl.
  { unfold computeTTL. assert (parseMaxAge "max-age=0" = 0%Z) as ->.
    { change (max_age_of ["max-age=0"] = 0%Z). cbn [max_age_of].
      change (TrimSpace "max-age=0") with "max-age=0". by rewrite Hlow. }
    rewrite Hexp, (bool_decide_false (0 < 0)%Z) by lia. cbn [andb]. by rewrite bool_decide_false by lia. }
  rewrite ValidateUncached_eq, bool_decide_false, introspected_eq, Hv by done. rewrite Hask, Httl.
  rewrite bool_decide_true by done. cbn [snd fmap option_fmap option_map].
  destruct (Put_refines e tok (identity_of out) (it_maxTTL i) cache Hok) as [Hok' Hcon].
  rewrite bool_decide_false in Hcon by lia. pose proof (ok_max _ Hok) as Hmax.
  unfold ref_put in Hcon. destruct (Z.to_nat (maxSize cache)) as [|n] eqn:Hn; [lia|]. cbn [take] in Hcon.
  destruct (Get_refines e' tok _ Hok') as [_ Hget]. rewrite Hcon in Hget.
  unfold ref_get, ref_find in Hget. rewrite filter_cons_True in Hget by done.
  cbn [head en_expiresAt en_value] in Hget. unfold Before in Hget. rewrite bool_decide_true in Hget by done.
  unfold Validate, validate. rewrite bool_decide_false by done.
  destruct (Get e' tok _) as [o c']. cbn in Hget. by simplify_eq.
Qed.
End connections.

(** ** Witnesses *)

Section examples.
#[local] Existing Instance ascii_case.
#[local] Instance ex_digest : Sha256 := {| sha256 := λ s, s |}.
Definition same_fold (s t : string) : bool := bool_decide (s = t).
Definition ex_at (t : time) : Env := {| now := t; new_id := λ _, 0%N; order := canonical_range |}.
Definition ex_introspector : Introspector := {| endpoint := "https://auth/introspect"; it_maxTTL := DefaultMaxTTL |}.
Definition ex_active : introspectResponse :=
  {| Active := true; Sub := "ada"; Tnt := "acme"; Scope := "read write"; Exp := 0; TokenType := "Bearer" |}.
Definition ex_inactive : introspectResponse :=
  {| Active := false; Sub := ""; Tnt := ""; Scope := ""; Exp := 0; TokenType := "" |}.
Definition says (out : introspectResponse) (cc : string) : string → answer := λ _, Answered 200 cc (Some out).

Lemma hashKey_inj (t t' : string) : hashKey t' = hashKey t → t' = t.
Proof.
  unfold hashKey. cbn. intros Heq. apply (inj Some). by rewrite <-!hex_Decode_Encode, Heq.
Qed.

(** The call is answered from the cache, ten seconds after the one that filled it. *)
Definition ex_calls : list (Env * icall) :=
  [(ex_at (100 * Second), CallValidate (says ex_active "") "token" true);
   (ex_at (105 * Second), CallInvalidate "other")].
Lemma validated_recently_witness :
  (∃ out, vouches same_fold (says ex_inactive "" "token") = Some out ∧ identity_of ex_active = identity_of out) ∨
  (true = true ∧ ∃ e' ask' u out, (e', CallValidate ask' "token" u) ∈ ex_calls ∧ vouches same_fold (ask' "token") = Some out ∧
     identity_of ex_active = identity_of out ∧ (110 * Second < now e' + DefaultMaxTTL)%Z ∧
     ((0 < Exp out)%Z → (110 * Second < Exp out * Second)%Z)).
Proof.
  apply (validated_recently same_fold ex_introspector ex_calls (Some (NewCache 10)) (ex_at (110 * Second)) (says ex_inactive "")
    "token" true (identity_of ex_active)); [by exists 10%Z; right|apply hashKey_inj|by vm_compute].
Defined.

Definition ex_authenticator : Authenticator := {| introspector := ex_introspector; extract := λ _, "token" |}.
(** The token is refused from instant 130 s on; checks take a second, delays vary. *)
Definition ex_round (k : nat) : round string :=
  {| ro_rtt := Second; ro_ask := if (k <? 2)%nat then says ex_active "" else says ex_inactive "";
     ro_load := λ id, Ok (id_Subject id); ro_draw := (Z.of_nat (k `mod` 7) * Second)%Z; ro_keep := λ _, true |}.

Lemma revoked_connection_closed_witness :
  ∃ n results res, (∀ m, (n ≤ m)%nat →
      (RevalidateLoop same_fold ex_at ex_authenticator "token" ex_round 0 m 0 (Some (NewCache 10))).1 = results) ∧
    last results = Some res ∧ ShouldDisconnect res = true ∧
    (rv_CheckedAt res ≤ 40 * Second + Second + loop_interval ex_authenticator)%Z.
Proof.
  apply (revoked_connection_closed same_fold ex_at ex_authenticator "token" ex_round 0%Z (40 * Second)%Z Second
    (Some (NewCache 10))); [done|done|done| |done|].
  - intros k. cbn [ex_round ro_draw]. pose proof (Nat.mod_upper_bound k 7 ltac:(lia)).
    change (Z.max 1 (loop_interval ex_authenticator `quot` 2)) with (30 * Second)%Z. unfold Second. lia.
  - intros [|[|k]] Hk; [exfalso; by apply Hk|exfalso; by apply Hk|done].
Defined.

Lemma max_age_zero_ignored_witness :
  (Validate same_fold (ex_at (50 * Second)) ex_introspector (says ex_inactive "") "token"
    (ValidateUncached same_fold (ex_at 0) ex_introspector (says ex_active "max-age=0") "token" (Some (NewCache 10))).2).1 =
  Ok (identity_of ex_active).
Proof.
  apply (max_age_zero_ignored same_fold (ex_at 0) (ex_at (50 * Second)) ex_introspector (says ex_active "max-age=0")
    (says ex_inactive "") "token" ex_active (NewCache 10)); [by vm_compute|done|done|done|apply NewCache_ok|done|done|done].
Defined.
End examples.
