(* ===== verification/Entitlements.v ===== *)
(** * Entitlements (platform/entitlements)

    cache.go: a cache with a time to live; client.go: the client of the billing
    backend; feature_flags.go and middleware.go: the gates on it.  HTTP exchanges
    and [encoding/json] are parameters.  A call that asks the backend reads the
    cache, at its start, and fills it, at its end, in two steps, between which other
    calls run. *)

From S2P Require Import Prelude Encoding.

(** ** models.go *)

Record EntitlementEntry : Type := {
  ee_FeatureKey : string;
  ee_FeatureType : string;
  ee_Allowed : bool;
  ee_IncludedUnits : option Z;
  ee_UsedUnits : option Z;
  ee_Remaining : option Z;
  ee_SoftCap : bool;
}.
Record EntitlementResult : Type := { er_Allowed : bool; er_Remaining : option Z; er_SoftCap : bool }.
Record FeatureFlag : Type := { ff_Key : string; ff_Enabled : bool }.
Record Plan : Type := {
  pl_ID : string; pl_Name : string; pl_Interval : string; pl_Amount : Z; pl_Currency : string; pl_Features : RawMessage
}.
Record Subscription : Type := {
  su_ID : string; su_PlanID : string; su_Status : string; su_CurrentPeriodStart : string; su_CurrentPeriodEnd : string
}.
Record BootstrapResponse : Type := {
  br_Subscription : option Subscription;
  br_Plan : option Plan;
  br_Entitlements : list EntitlementEntry;
  br_FeatureFlags : list FeatureFlag;
}.

(** ** cache.go *)

Section cache.
Context {V : Type}.
Record Cache : Type := { entries : gmap string (V * time); ttl : duration }.
Definition NewCache (d : duration) : Cache := {| entries := ∅; ttl := d |}.
Definition Get (e : Env) (key : string) (c : Cache) : option V :=
  match entries c !! key with
  | None => None
  | Some (value, expiresAt) => if After (now e) expiresAt then None else Some value
  end.
Definition Set_ (e : Env) (key : string) (value : V) (c : Cache) : Cache :=
  {| entries := <[key := (value, (now e + ttl c)%Z)]> (entries c); ttl := ttl c |}.
Definition Invalidate (key : string) (c : Cache) : Cache :=
  {| entries := delete key (entries c); ttl := ttl c |}.
Definition Clear (c : Cache) : Cache := {| entries := ∅; ttl := ttl c |}.
End cache.
Arguments Cache : clear implicits.

(** ** client.go *)

Definition defaultCacheTTL : duration := (5 * Minute)%Z.

(** A request: its method, URL, headers and body; what the server answers, [None]
    when there is no answer or its body cannot be read. *)
Record http_request : Type := {
  hr_Method : string;
  hr_URL : string;
  hr_Headers : gmap string string;
  hr_Body : string;
}.
Abbreviation server := (http_request → option (Z * string)) (only parsing).

Record EntitlementClient : Type := {
  baseURL : string;
  serviceToken : string;
  bootstrapCache : Cache BootstrapResponse;
  checkCache : Cache EntitlementResult;
  bootstrapByIdentityCache : Cache BootstrapResponse;
}.
Abbreviation eerr := (goerr Empty_set) (only parsing).

(** [cacheTTL] is that of the options, [None] when they set none. *)
Definition NewClient (edenBizBaseURL token : string) (cacheTTL : option duration) : EntitlementClient :=
  let d := default defaultCacheTTL cacheTTL in
  {| baseURL := TrimRight edenBizBaseURL "/"; serviceToken := token;
     bootstrapCache := NewCache d; checkCache := NewCache d; bootstrapByIdentityCache := NewCache d |}.

Definition set_bootstrap (x : Cache BootstrapResponse) (c : EntitlementClient) : EntitlementClient :=
  {| baseURL := baseURL c; serviceToken := serviceToken c; bootstrapCache := x; checkCache := checkCache c;
     bootstrapByIdentityCache := bootstrapByIdentityCache c |}.
Definition set_check (x : Cache EntitlementResult) (c : EntitlementClient) : EntitlementClient :=
  {| baseURL := baseURL c; serviceToken := serviceToken c; bootstrapCache := bootstrapCache c; checkCache := x;
     bootstrapByIdentityCache := bootstrapByIdentityCache c |}.
Definition set_by_identity (x : Cache BootstrapResponse) (c : EntitlementClient) : EntitlementClient :=
  {| baseURL := baseURL c; serviceToken := serviceToken c; bootstrapCache := bootstrapCache c;
     checkCache := checkCache c; bootstrapByIdentityCache := x |}.

Definition setAuth (c : EntitlementClient) (headers : gmap string string) : gmap string string :=
  if bool_decide (serviceToken c = "") then headers
  else <["Authorization" := "Bearer " +:+ serviceToken c]> headers.

Definition doGetWithHeaders (c : EntitlementClient) (srv : server) (rawURL : string)
    (headers : gmap string string) : outcome eerr string :=
  match srv {| hr_Method := "GET"; hr_URL := rawURL; hr_Headers := headers ∪ setAuth c ∅; hr_Body := "" |} with
  | None => Err (Errorf "get")
  | Some (status, body) => if bool_decide (300 ≤ status)%Z then Err (Errorf "status") else Ok body
  end.
Definition doGet (c : EntitlementClient) (srv : server) (rawURL : string) : outcome eerr string :=
  doGetWithHeaders c srv rawURL ∅.

Section client.
Context (decode_bootstrap : string → option BootstrapResponse) (decode_check : string → option EntitlementResult).
Context (Marshal_usage : string → string → Z → string).

(** What a call learns from the backend, before it fills the cache. *)
Definition fetched {A} (msg : string) (decode : string → option A) (resp : outcome eerr string) : outcome eerr A :=
  match resp with
  | Err err => Err (Wrapf msg err)
  | Ok body => match decode body with None => Err (Errorf (msg +:+ ": parse")) | Some a => Ok a end
  end.

Definition bootstrap_url (c : EntitlementClient) (companyID : string) : string :=
  baseURL c +:+ "/api/v1/entitlements/bootstrap?company_id=" +:+ QueryEscape companyID.
Definition fetch_bootstrap (c : EntitlementClient) (srv : server) (companyID : string) :
    outcome eerr BootstrapResponse :=
  fetched "entitlements bootstrap" decode_bootstrap (doGet c srv (bootstrap_url c companyID)).
Definition fill_bootstrap (e : Env) (companyID : string) (r : outcome eerr BootstrapResponse)
    (c : EntitlementClient) : EntitlementClient :=
  match r with Err _ => c | Ok result => set_bootstrap (Set_ e companyID result (bootstrapCache c)) c end.

(** [e] is the environment at the start, [e'] that at the end of the exchange. *)
Definition Bootstrap (e e' : Env) (srv : server) (companyID : string) :
    prog EntitlementClient eerr BootstrapResponse := λ c,
  match Get e companyID (bootstrapCache c) with
  | Some resp => (Ok resp, c)
  | None => let r := fetch_bootstrap c srv companyID in (r, fill_bootstrap e' companyID r c)
  end.

Definition BootstrapByIdentity (e e' : Env) (srv : server) (subject email : string) :
    prog EntitlementClient eerr BootstrapResponse := λ c,
  match Get e subject (bootstrapByIdentityCache c) with
  | Some resp => (Ok resp, c)
  | None =>
      let u := baseURL c +:+ "/api/v1/entitlements/bootstrap?aoid_subject=" +:+ QueryEscape subject in
      let headers : gmap string string := if bool_decide (email = "") then ∅ else {["X-AOID-Email" := email]} in
      match fetched "entitlements bootstrap by identity" decode_bootstrap (doGetWithHeaders c srv u headers) with
      | Err err => (Err err, c)
      | Ok result => (Ok result, set_by_identity (Set_ e' subject result (bootstrapByIdentityCache c)) c)
      end
  end.

Definition check_key (subscriptionID featureKey : string) : string := subscriptionID +:+ ":" +:+ featureKey.
Definition CheckEntitlement (e e' : Env) (srv : server) (subscriptionID featureKey : string) :
    prog EntitlementClient eerr EntitlementResult := λ c,
  let cacheKey := check_key subscriptionID featureKey in
  match Get e cacheKey (checkCache c) with
  | Some result => (Ok result, c)
  | None =>
      let u := baseURL c +:+ "/entitlements/check?subscription_id=" +:+ QueryEscape subscriptionID
               +:+ "&feature=" +:+ QueryEscape featureKey in
      match fetched "entitlements check" decode_check (doGet c srv u) with
      | Err err => (Err err, c)
      | Ok result => (Ok result, set_check (Set_ e' cacheKey result (checkCache c)) c)
      end
  end.

(** [for _, e := range bootstrap.Entitlements]: the first entry of the feature. *)
Fixpoint allowed_in (es : list EntitlementEntry) (featureKey : string) : bool :=
  match es with
  | [] => false
  | en :: rest => if bool_decide (ee_FeatureKey en = featureKey) then ee_Allowed en else allowed_in rest featureKey
  end.
Definition CanUseFeature (e e' : Env) (srv : server) (companyID featureKey : string) :
    prog EntitlementClient eerr bool :=
  bootstrap ← Bootstrap e e' srv companyID;
  mret (allowed_in (br_Entitlements bootstrap) featureKey).
Definition CanUseFeatureByIdentity (e e' : Env) (srv : server) (subject email featureKey : string) :
    prog EntitlementClient eerr bool :=
  bootstrap ← BootstrapByIdentity e e' srv subject email;
  mret (allowed_in (br_Entitlements bootstrap) featureKey).

Definition RecordUsage (srv : server) (subscriptionID featureKey : string) (quantity : Z) :
    prog EntitlementClient eerr unit := λ c,
  match srv {| hr_Method := "POST"; hr_URL := baseURL c +:+ "/entitlements/usage";
               hr_Headers := setAuth c {["Content-Type" := "application/json"]};
               hr_Body := Marshal_usage subscriptionID featureKey quantity |} with
  | None => (Err (Errorf "entitlements record usage"), c)
  | Some (status, _) =>
      if bool_decide (300 ≤ status)%Z then (Err (Errorf "entitlements record usage: status"), c)
      else (Ok tt, set_check (Invalidate (check_key subscriptionID featureKey) (checkCache c)) c)
  end.

Definition InvalidateCompany (companyID : string) (c : EntitlementClient) : EntitlementClient :=
  set_check (Clear (checkCache c)) (set_bootstrap (Invalidate companyID (bootstrapCache c)) c).
Definition InvalidateIdentity (subject : string) (c : EntitlementClient) : EntitlementClient :=
  set_by_identity (Invalidate subject (bootstrapByIdentityCache c)) c.

(** ** feature_flags.go *)

Definition AllFlags (e e' : Env) (srv : server) (companyID : string) :
    prog EntitlementClient eerr (gmap string bool) :=
  bootstrap ← wrapping "feature flags" (Bootstrap e e' srv companyID);
  mret (foldl (λ m flag, <[ff_Key flag := ff_Enabled flag]> m) ∅ (br_FeatureFlags bootstrap)).
Definition IsEnabled (e e' : Env) (srv : server) (companyID flagKey : string) :
    prog EntitlementClient eerr bool :=
  flags ← AllFlags e e' srv companyID;
  mret (default false (flags !! flagKey)).

(** ** middleware.go

    A request carries the company (or subject and e-mail) of its context; the next
    handler gets the bootstrap injected into it, if any. *)
Inductive reply (R : Type) : Type :=
  | Served (r : R)
  | Denied (status : Z) (msg : string).
Arguments Served {R} _.
Arguments Denied {R} _ _.

Definition gate {R} (check : prog EntitlementClient eerr bool) (refusal : string) (next : R)
    (c : EntitlementClient) : reply R * EntitlementClient :=
  match check c with
  | (Err _, c) => (Denied 403 "feature not available", c)
  | (Ok allowed, c) => (if allowed then Served next else Denied 403 refusal, c)
  end.

Definition RequireEntitlement {R} (e e' : Env) (srv : server) (featureKey companyID : string) (next : R)
    (c : EntitlementClient) : reply R * EntitlementClient :=
  if bool_decide (companyID = "") then (Denied 401 "missing company context", c)
  else gate (CanUseFeature e e' srv companyID featureKey)
         ("feature '" +:+ featureKey +:+ "' is not included in your plan") next c.
Definition RequireFeatureFlag {R} (e e' : Env) (srv : server) (flagKey companyID : string) (next : R)
    (c : EntitlementClient) : reply R * EntitlementClient :=
  if bool_decide (companyID = "") then (Denied 401 "missing company context", c)
  else gate (IsEnabled e e' srv companyID flagKey) ("feature '" +:+ flagKey +:+ "' is not enabled") next c.
Definition RequireEntitlementByIdentity {R} (e e' : Env) (srv : server) (featureKey subject email : string)
    (next : R) (c : EntitlementClient) : reply R * EntitlementClient :=
  if bool_decide (subject = "") then (Denied 401 "missing identity context", c)
  else gate (CanUseFeatureByIdentity e e' srv subject email featureKey)
         ("feature '" +:+ featureKey +:+ "' is not included in your plan") next c.

Definition inject {R} (boot : prog EntitlementClient eerr BootstrapResponse)
    (next : option BootstrapResponse → R) (c : EntitlementClient) : R * EntitlementClient :=
  match boot c with
  | (Err _, c) => (next None, c)
  | (Ok bootstrap, c) => (next (Some bootstrap), c)
  end.
Definition InjectEntitlements {R} (e e' : Env) (srv : server) (companyID : string)
    (next : option BootstrapResponse → R) (c : EntitlementClient) : R * EntitlementClient :=
  if bool_decide (companyID = "") then (next None, c) else inject (Bootstrap e e' srv companyID) next c.
Definition InjectEntitlementsByIdentity {R} (e e' : Env) (srv : server) (subject email : string)
    (next : option BootstrapResponse → R) (c : EntitlementClient) : R * EntitlementClient :=
  if bool_decide (subject = "") then (next None, c) else inject (BootstrapByIdentity e e' srv subject email) next c.
End client.
Arguments Served {R} _.
Arguments Denied {R} _ _.
