(* ===== verification/EntitlementsProofs.v ===== *)
(** * Properties of the entitlements client

    What the caches serve, in the order in which calls get to them, and what the
    gates let through. *)

From S2P Require Import Prelude Encoding Entitlements.

(** ** Theorems *)

Section theorems.
Context (decode_bootstrap : string → option BootstrapResponse) (decode_check : string → option EntitlementResult).
Context (Marshal_usage : string → string → Z → string).
Implicit Types (c : EntitlementClient) (srv : server).

(** What happens to the bootstrap cache, in the order in which concurrent calls
    get to it. *)
Inductive cache_step : Type :=
  | StepFill (companyID : string) (r : BootstrapResponse)
  | StepInvalidate (companyID : string)
  | StepUsage (subscriptionID featureKey : string).
Definition run_step (e : Env) (st : cache_step) c : EntitlementClient :=
  match st with
  | StepFill companyID r => fill_bootstrap e companyID (Ok r) c
  | StepInvalidate companyID => InvalidateCompany companyID c
  | StepUsage sub feature => set_check (Invalidate (check_key sub feature) (checkCache c)) c
  end.
Definition run_steps (steps : list (Env * cache_step)) c : EntitlementClient :=
  foldl (λ c '(e, st), run_step e st c) c steps.
(** A step that decides what is cached for the company. *)
Definition about (companyID : string) (st : cache_step) : bool :=
  match st with
  | StepFill k _ | StepInvalidate k => bool_decide (k = companyID)
  | StepUsage _ _ => false
  end.

Lemma run_step_ttl e st c : ttl (bootstrapCache (run_step e st c)) = ttl (bootstrapCache c).
Proof. by destruct st. Qed.
Lemma run_step_other e st c companyID :
  about companyID st = false →
  entries (bootstrapCache (run_step e st c)) !! companyID = entries (bootstrapCache c) !! companyID.
Proof.
  destruct st as [k r|k|sub feature]; cbn; [| |done]; intros Hk%bool_decide_eq_false;
    [by apply lookup_insert_ne|by apply lookup_delete_ne].
Qed.

(** What is served from the cache for a company is what the last step about the
    company filled in, if that was a fill, and for the time to live from then on;
    recording usage does not refresh it. *)
Theorem bootstrap_served_from_last_fill url token d (steps : list (Env * cache_step)) e companyID resp :
  let c := run_steps steps (NewClient url token d) in
  Get e companyID (bootstrapCache c) = Some resp ↔
  ∃ before e' after, steps = before ++ (e', StepFill companyID resp) :: after ∧
    Forall (λ x, about companyID x.2 = false) after ∧ (now e ≤ now e' + default defaultCacheTTL d)%Z.
Proof.
  intros c. assert (ttl (bootstrapCache c) = default defaultCacheTTL d ∧
    ∀ en, entries (bootstrapCache c) !! companyID = Some en ↔
      ∃ before e' resp after, steps = before ++ (e', StepFill companyID resp) :: after ∧
        Forall (λ x, about companyID x.2 = false) after ∧ en = (resp, now e' + default defaultCacheTTL d)%Z)
    as [_ Hen].
  { subst c. induction steps as [|[e' st] steps [Ht IH]] using rev_ind.
    - split; [done|]. intros en. cbn. rewrite lookup_empty. split; [done|].
      by intros ([|] & ? & ? & ? & ? & _).
    - unfold run_steps in *. rewrite foldl_app. cbn [foldl]. split; [by rewrite run_step_ttl|]. intros en.
      destruct (about companyID st) eqn:Hab.
      + split.
        * intros Hl. destruct st as [k r|k|]; cbn in Hab; [| |done]; apply bool_decide_eq_true in Hab; subst k; cbn in Hl.
          -- rewrite lookup_insert_eq in Hl. injection Hl as <-. exists steps, e', r, []. by rewrite Ht.
          -- by rewrite lookup_delete_eq in Hl.
        * intros (before & e1 & resp1 & after & Heq & Hafter & ->).
          induction after as [|x l _] using rev_ind.
          -- apply app_inj_tail in Heq as [-> [= -> ->]]. cbn. by rewrite lookup_insert_eq, Ht.
          -- rewrite app_comm_cons, app_assoc in Heq. apply app_inj_tail in Heq as [_ <-].
             apply Forall_app in Hafter as [_ Hx]. apply Forall_cons in Hx as [Hx _]. cbn [snd] in Hx. congruence.
      + rewrite run_step_other by done. rewrite IH. split.
        * intros (before & e1 & resp1 & after & -> & Hafter & ->). exists before, e1, resp1, (after ++ [(e', st)]).
          split; [by rewrite <-app_assoc|]. split; [|done]. apply Forall_app. split; [done|]. by repeat constructor.
        * intros (before & e1 & resp1 & after & Heq & Hafter & ->).
          induction after as [|x l _] using rev_ind.
          -- apply app_inj_tail in Heq as [_ [= -> ->]]. cbn in Hab. by rewrite bool_decide_true in Hab.
          -- rewrite app_comm_cons, app_assoc in Heq. apply app_inj_tail in Heq as [-> _].
             apply Forall_app in Hafter as [Hafter _]. by exists before, e1, resp1, l. }
  unfold Get, After. split.
  - destruct (entries (bootstrapCache c) !! companyID) as [[v exp]|] eqn:Hl; [|done].
    case_bool_decide; [done|]. intros [= ->]. destruct (proj1 (Hen _) eq_refl) as (before & e' & r & after & -> & Hafter & [= -> ->]).
    exists before, e', after. split; [done|]. split; [done|lia].
  - intros (before & e' & after & Hs & Hafter & Hlive).
    rewrite (proj2 (Hen (resp, now e' + default defaultCacheTTL d)%Z)) by eauto 10.
    by rewrite bool_decide_false by lia.
Qed.

(** An invalidation that comes while the backend is being asked is lost: the
    answer from before it is filled in after it, and is served for the whole time to
    live. *)
Theorem invalidation_lost c srv e1 e2 e3 companyID old :
  Get e1 companyID (bootstrapCache c) = None →
  (* a call misses and asks the backend *)
  fetch_bootstrap decode_bootstrap c srv companyID = Ok old →
  (* the plan changes and the company is invalidated, then the call ends *)
  let c1 := fill_bootstrap e2 companyID (fetch_bootstrap decode_bootstrap c srv companyID) (InvalidateCompany companyID c) in
  (now e3 ≤ now e2 + ttl (bootstrapCache c))%Z →
  ∀ e4 srv', Bootstrap decode_bootstrap e3 e4 srv' companyID c1 = (Ok old, c1).
Proof.
  intros _ Hf c1 Hlive e4 srv'. unfold Bootstrap, Get. subst c1. rewrite Hf. cbn.
  rewrite lookup_insert_eq. unfold After. by rewrite bool_decide_false by lia.
Qed.

(** The keys of the check cache run together: with a colon in a feature's key, the
    answer for one subscription and feature is served for another subscription and feature,
    without asking the backend. *)
Theorem check_cache_collision c srv e1 e2 e3 e4 srv' s a b result c1 :
  Get e1 (check_key s (a +:+ ":" +:+ b)) (checkCache c) = None →
  CheckEntitlement decode_check e1 e2 srv s (a +:+ ":" +:+ b) c = (Ok result, c1) →
  (now e3 ≤ now e2 + ttl (checkCache c))%Z →
  CheckEntitlement decode_check e3 e4 srv' (s +:+ ":" +:+ a) b c1 = (Ok result, c1).
Proof.
  assert (check_key (s +:+ ":" +:+ a) b = check_key s (a +:+ ":" +:+ b)) as Hkey.
  { unfold check_key. by rewrite !string_app_assoc. }
  intros Hmiss. unfold CheckEntitlement. rewrite Hmiss, Hkey.
  destruct (fetched _ _ _) as [r|]; [|done]. intros [= -> <-] Hlive. cbn [checkCache set_check].
  unfold Get, Set_. cbn [entries]. rewrite lookup_insert_eq. unfold After. by rewrite bool_decide_false by lia.
Qed.

(** The gates fail closed: a request is served exactly when it names a company
    and the bootstrap, cached or fetched now, could be had and its first entry of
    the feature allows it; 401 without a company, 403 otherwise. *)
Theorem RequireEntitlement_exact {R} e e' srv featureKey companyID (next : R) c :
  (RequireEntitlement decode_bootstrap e e' srv featureKey companyID next c).1 =
  if bool_decide (companyID = "") then Denied 401 "missing company context"
  else match (match Get e companyID (bootstrapCache c) with
              | Some resp => Ok resp
              | None => fetch_bootstrap decode_bootstrap c srv companyID
              end) with
       | Err _ => Denied 403 "feature not available"
       | Ok resp =>
           if bool_decide (ee_Allowed <$> head (filter (λ en, ee_FeatureKey en = featureKey) (br_Entitlements resp)) = Some true)
           then Served next else Denied 403 ("feature '" +:+ featureKey +:+ "' is not included in your plan")
       end.
Proof.
  assert (∀ es, allowed_in es featureKey =
    bool_decide (ee_Allowed <$> head (filter (λ en, ee_FeatureKey en = featureKey) es) = Some true)) as Hallowed.
  { induction es as [|en es IH]; [done|]. cbn [allowed_in].
    destruct (decide (ee_FeatureKey en = featureKey)) as [Hk|Hk]; rewrite ?(bool_decide_true (_ = featureKey)) by done;
      rewrite ?(bool_decide_false (_ = featureKey)) by done.
    - rewrite filter_cons_True by done. cbn. by destruct (ee_Allowed en).
    - by rewrite filter_cons_False. }
  unfold RequireEntitlement. case_bool_decide; [done|]. unfold gate, CanUseFeature, Bootstrap.
  cbv [mbind prog_bind mret prog_ret].
  destruct (Get e companyID _) as [resp|]; [rewrite Hallowed; by case_bool_decide|].
  destruct (fetch_bootstrap _ _ _ _) as [resp|]; [|done]. rewrite Hallowed. by case_bool_decide.
Qed.
End theorems.

(** ** Witnesses *)

Definition ex_time (t : Z) : Env := {| now := t; new_id := N.of_nat; order := canonical_range |}.
Definition ex_boot (allowed : bool) : BootstrapResponse :=
  {| br_Subscription := None; br_Plan := None;
     br_Entitlements := [{| ee_FeatureKey := "reports"; ee_FeatureType := "boolean"; ee_Allowed := allowed;
       ee_IncludedUnits := None; ee_UsedUnits := None; ee_Remaining := None; ee_SoftCap := false |}];
     br_FeatureFlags := [] |}.
Definition ex_client : EntitlementClient := NewClient "https://biz/" "" None.
(** A backend that answers [body], decoded as an allowance of reports. *)
Definition answers (body : string) : server := λ _, Some (200%Z, body).
Definition ex_decode (body : string) : option BootstrapResponse := Some (ex_boot (bool_decide (body = "yes"))).
Definition ex_decode_check (body : string) : option EntitlementResult :=
  Some {| er_Allowed := bool_decide (body = "yes"); er_Remaining := None; er_SoftCap := false |}.

Lemma invalidation_lost_witness :
  ∀ e4 srv', (Bootstrap ex_decode (ex_time 20) e4 srv' "acme"
    (fill_bootstrap (ex_time 10) "acme" (fetch_bootstrap ex_decode ex_client (answers "yes") "acme")
       (InvalidateCompany "acme" ex_client))).1 = Ok (ex_boot true).
Proof.
  intros e4 srv'.
  rewrite (invalidation_lost ex_decode ex_client (answers "yes") (ex_time 0) (ex_time 10) (ex_time 20) "acme" (ex_boot true)
    eq_refl eq_refl ltac:(vm_compute; discriminate) e4 srv').
  done.
Defined.

Lemma check_cache_collision_witness :
  ∃ result c1, CheckEntitlement ex_decode_check (ex_time 0) (ex_time 1) (answers "yes") "sub" "a:b" ex_client = (Ok result, c1) ∧
    CheckEntitlement ex_decode_check (ex_time 2) (ex_time 3) (answers "no") "sub:a" "b" c1 = (Ok result, c1).
Proof.
  eexists _, _. split; [reflexivity|].
  apply (check_cache_collision ex_decode_check ex_client (answers "yes") (ex_time 0) (ex_time 1) (ex_time 2) (ex_time 3)
    (answers "no") "sub" "a" "b" _ _ eq_refl eq_refl). vm_compute. discriminate.
Defined.
