(* ===== verification/Json.v ===== *)
(** * JSON as encoding/json prints it

    [json.Encoder] with HTML escaping off, on decoded values: quoted texts,
    arrays, objects in the order of their members.  What is printed determines the
    value: [render_inj], for texts that are valid UTF-8 and numbers printed as
    numbers. *)

From S2P Require Import Prelude Encoding.

Abbreviation chars := String.list_ascii_of_string.
Abbreviation unchars := String.string_of_list_ascii.

(** ** Quoted texts *)

(** A byte below 128. *)
Definition escape (a : ascii) : list ascii :=
  let b := byte_of a in
  if bool_decide (b = 34 ∨ b = 92)%N then ["\"%char; a]
  else if bool_decide (b = 8)%N then ["\"%char; "b"%char]
  else if bool_decide (b = 12)%N then ["\"%char; "f"%char]
  else if bool_decide (b = 10)%N then ["\"%char; "n"%char]
  else if bool_decide (b = 13)%N then ["\"%char; "r"%char]
  else if bool_decide (b = 9)%N then ["\"%char; "t"%char]
  else if bool_decide (b < 32)%N then chars "\u00" ++ [hex_digit (b / 16); hex_digit (b mod 16)%N]
  else [a].

(** How many bytes the rune at the front has, when it is valid and not ASCII; 0
    otherwise. *)
Definition rune_width (b0 : N) (rest : list N) : nat :=
  match rest with
  | [] => 0
  | b1 :: rest1 =>
      if within_ 194 223 b0 && cont b1 then 2
      else
        match rest1 with
        | [] => 0
        | b2 :: rest2 =>
            if cont b1 && cont b2
               && ((bool_decide (b0 = 224%N) && within_ 160 191 b1) || within_ 225 236 b0 || within_ 238 239 b0
                   || (bool_decide (b0 = 237%N) && within_ 128 159 b1)) then 3
            else
              match rest2 with
              | [] => 0
              | b3 :: _ =>
                  if cont b1 && cont b2 && cont b3
                     && ((bool_decide (b0 = 240%N) && within_ 144 191 b1) || within_ 241 243 b0
                         || (bool_decide (b0 = 244%N) && within_ 128 143 b1)) then 4 else 0
              end
        end
  end%nat.

(** U+2028 and U+2029 are escaped, and a byte that is not part of a rune stands
    for U+FFFD. *)
Definition line_separator (a b c : ascii) : option ascii :=
  if bool_decide (byte_of a = 226 ∧ byte_of b = 128 ∧ (byte_of c = 168 ∨ byte_of c = 169))%N
  then Some (hex_digit (byte_of c - 160)%N) else None.
Fixpoint quote_body (l : list ascii) : list ascii :=
  match l with
  | [] => []
  | a :: l0 =>
      if bool_decide (byte_of a < 128)%N then escape a ++ quote_body l0
      else match rune_width (byte_of a) (byte_of <$> l0), l0 with
           | 2%nat, b :: l1 => a :: b :: quote_body l1
           | 3%nat, b :: c :: l2 =>
               match line_separator a b c with
               | Some x => chars "\u202" ++ x :: quote_body l2
               | None => a :: b :: c :: quote_body l2
               end
           | 4%nat, b :: c :: d :: l3 => a :: b :: c :: d :: quote_body l3
           | _, _ => chars "\ufffd" ++ quote_body l0
           end
  end.
Definition dq : ascii := "034"%char.
Definition quote (s : string) : list ascii := dq :: quote_body (chars s) ++ [dq].

(** Texts without a byte that is not part of a rune. *)
Fixpoint valid_utf8 (l : list ascii) : bool :=
  match l with
  | [] => true
  | a :: l0 =>
      if bool_decide (byte_of a < 128)%N then valid_utf8 l0
      else match rune_width (byte_of a) (byte_of <$> l0), l0 with
           | 2%nat, b :: l1 => valid_utf8 l1
           | 3%nat, b :: c :: l2 => valid_utf8 l2
           | 4%nat, b :: c :: d :: l3 => valid_utf8 l3
           | _, _ => false
           end
  end.

(** ** Values *)

Fixpoint join (sep : list ascii) (ls : list (list ascii)) : list ascii :=
  match ls with
  | [] => []
  | [l] => l
  | l :: rest => l ++ sep ++ join sep rest
  end.
Definition print_member (k : string) (v : list ascii) : list ascii := quote k ++ ":"%char :: v.
Definition print_array (els : list (list ascii)) : list ascii := "["%char :: join [","%char] els ++ ["]"%char].
Definition print_object (ms : list (list ascii)) : list ascii := "{"%char :: join [","%char] ms ++ ["}"%char].

(** [Encode], without the line end it appends; the members in their order. *)
Fixpoint print (j : json) : list ascii :=
  match j with
  | JNull => chars "null"
  | JBool b => chars (if b then "true" else "false")
  | JNumber n => chars n
  | JString s => quote s
  | JArray l => print_array (print <$> l)
  | JObject ms => print_object ((λ '(k, v), print_member k (print v)) <$> ms)
  end.

(** How the encoder prints a struct: its fields in their order, without the
    empty ones. *)
Definition text_field (k s : string) : list (list ascii) :=
  if bool_decide (s = "") then [] else [print_member k (quote s)].
Definition int_field (k : string) (n : Z) : list (list ascii) :=
  if bool_decide (n = 0)%Z then [] else [print_member k (chars (pretty n))].
Definition list_field {A} (k : string) (f : A → list ascii) (l : list A) : list (list ascii) :=
  match l with [] => [] | _ => [print_member k (print_array (f <$> l))] end.

(** [json.Marshal] escapes the characters of HTML in what is printed; they occur
    inside of texts alone. *)
Definition html_escape (a : ascii) : list ascii :=
  if bool_decide (byte_of a = 60 ∨ byte_of a = 62 ∨ byte_of a = 38)%N
  then chars "\u00" ++ [hex_digit (byte_of a / 16); hex_digit (byte_of a mod 16)%N] else [a].
Definition HTMLEscape (l : list ascii) : list ascii := concat (html_escape <$> l).

(** What a decoder makes: texts are valid, the names of the members of an object
    distinct, and numbers printed as numbers. *)
Definition number_start (a : ascii) : bool := bool_decide (a = "-"%char) || within_ 48 57 (byte_of a).
Definition stop (a : ascii) : bool := bool_decide (a ∈ [","%char; "]"%char; "}"%char]).
Definition is_number (n : string) : bool :=
  match chars n with [] => false | a :: l => number_start a && forallb (λ a, negb (stop a)) l end.
Fixpoint decoded (j : json) : bool :=
  match j with
  | JNull | JBool _ => true
  | JNumber n => is_number n
  | JString s => valid_utf8 (chars s)
  | JArray l => forallb decoded l
  | JObject ms => bool_decide (NoDup ms.*1) && forallb (λ kv, valid_utf8 (chars kv.1) && decoded kv.2) ms
  end.

(** ** What is printed determines the value *)

(** A reader of the body of a quoted text. *)
Definition unescape (c : ascii) : option ascii :=
  match byte_of c with
  | 34%N | 92%N => Some c
  | 98%N => Some (ascii_of_N 8)
  | 102%N => Some (ascii_of_N 12)
  | 110%N => Some (ascii_of_N 10)
  | 114%N => Some (ascii_of_N 13)
  | 116%N => Some (ascii_of_N 9)
  | _ => None
  end.
Fixpoint unquote (l : list ascii) : option (list ascii * list ascii) :=
  match l with
  | [] => None
  | a :: r =>
      if bool_decide (a = dq) then Some ([], r)
      else if bool_decide (a = "\"%char) then
        match r with
        | c :: r =>
            if bool_decide (c = "u"%char) then
              match r with
              | h1 :: h2 :: h3 :: h4 :: r =>
                  if bool_decide (h1 = "0"%char) then
                    b ← hex_byte h3 h4; '(l, rest) ← unquote r; Some (b :: l, rest)
                  else
                    b ← hex_value h4; '(l, rest) ← unquote r;
                    Some (ascii_of_N 226 :: ascii_of_N 128 :: ascii_of_N (160 + b) :: l, rest)
              | _ => None
              end
            else x ← unescape c; '(l, rest) ← unquote r; Some (x :: l, rest)
        | [] => None
        end
      else '(l, rest) ← unquote r; Some (a :: l, rest)
  end.

(** Reading an escaped byte. *)
Lemma unquote_escape a t : (byte_of a < 128)%N →
  unquote (escape a ++ t) = '(l, rest) ← unquote t; Some (a :: l, rest).
Proof. each_byte a; intros Ha; try (exfalso; vm_compute in Ha; discriminate Ha); reflexivity. Qed.

(** Bytes from 128 on stand for themselves. *)
Lemma unquote_raw a t : (128 ≤ byte_of a)%N → unquote (a :: t) = '(l, rest) ← unquote t; Some (a :: l, rest).
Proof.
  intros Ha. cbn [unquote]. rewrite !bool_decide_false; [done| |]; intros ->; vm_compute in Ha; by destruct Ha.
Qed.

Lemma within_bounds lo hi b : within_ lo hi b = true → (lo ≤ b ≤ hi)%N.
Proof. unfold within_. rewrite andb_true_iff, !bool_decide_eq_true. lia. Qed.
Lemma rune_width_cont b0 rest w :
  rune_width b0 rest = w → (0 < w)%nat →
  (w ≤ 4)%nat ∧ (w ≤ S (length rest))%nat ∧ Forall (λ b, 128 ≤ b)%N (take (w - 1) rest).
Proof.
  unfold rune_width. intros Hw Hpos.
  repeat match goal with
         | H : context [match ?l with [] => _ | _ :: _ => _ end] |- _ => destruct l
         | H : context [if ?b then _ else _] |- _ => destruct b eqn:?
         end; subst; try lia;
  repeat match goal with H : _ && _ = true |- _ => apply andb_prop in H as [] end;
  unfold cont in *; repeat match goal with H : within_ 128 191 _ = true |- _ => apply within_bounds in H end;
  cbn; split_and!; try lia; repeat constructor; lia.
Qed.

(** The separators are escaped by their last digit. *)
Lemma line_separator_unquote a b c x t :
  line_separator a b c = Some x →
  unquote (chars "\u202" ++ x :: t) = '(l, rest) ← unquote t; Some (a :: b :: c :: l, rest).
Proof.
  unfold line_separator. case_bool_decide as H; [|done]. destruct H as (Ha & Hb & Hc). intros [= <-].
  rewrite <-(ascii_N_embedding a), <-(ascii_N_embedding b), <-(ascii_N_embedding c), Ha, Hb.
  destruct Hc as [-> | ->]; rewrite N_ascii_embedding by done; reflexivity.
Qed.

(** The head of a valid text: a byte, or a rune of two to four bytes from 128 on. *)
Lemma valid_utf8_cases a l0 :
  valid_utf8 (a :: l0) = true →
  ((byte_of a < 128)%N ∧ valid_utf8 l0 = true ∧ quote_body (a :: l0) = escape a ++ quote_body l0) ∨
  ∃ pre l1, l0 = pre ++ l1 ∧ Forall (λ x, 128 ≤ byte_of x)%N (a :: pre) ∧ valid_utf8 l1 = true ∧
    (quote_body (a :: l0) = a :: pre ++ quote_body l1 ∨
     ∃ b c x, pre = [b; c] ∧ line_separator a b c = Some x ∧ quote_body (a :: l0) = chars "\u202" ++ x :: quote_body l1).
Proof.
  cbn [valid_utf8 quote_body]. case_bool_decide as Ha; [by left|]. right.
  destruct (rune_width (byte_of a) (byte_of <$> l0)) as [|[|[|[|[|w]]]]] eqn:Hw; try done.
  all: pose proof (rune_width_cont _ _ _ Hw ltac:(lia)) as (_ & Hlen & Hb); rewrite length_fmap in Hlen.
  - destruct l0 as [|b l1]; [done|]. exists [b], l1. cbn in Hb.
    split; [done|]. split; [|by split; [|left]]. constructor; [lia|]. by apply Forall_cons in Hb as [? _]; repeat constructor.
  - destruct l0 as [|b [|c l2]]; [done..|]. exists [b; c], l2. cbn in Hb.
    apply Forall_cons in Hb as [? Hb]. apply Forall_cons in Hb as [? _].
    split; [done|]. split; [by repeat constructor; [lia|..]|]. split; [done|].
    destruct (line_separator a b c) as [x|] eqn:Hx; [right; by exists b, c, x|by left].
  - destruct l0 as [|b [|c [|d l3]]]; [done..|]. exists [b; c; d], l3. cbn in Hb.
    apply Forall_cons in Hb as [? Hb]. apply Forall_cons in Hb as [? Hb]. apply Forall_cons in Hb as [? _].
    split; [done|]. split; [by repeat constructor; [lia|..]|]. split; [done|]. by left.
Qed.

Lemma unquote_raws pre t :
  Forall (λ x, 128 ≤ byte_of x)%N pre → unquote (pre ++ t) = '(l, rest) ← unquote t; Some (pre ++ l, rest).
Proof.
  induction 1 as [|a pre Ha _ IH]; cbn [app]; [by destruct (unquote t) as [[]|]|].
  rewrite unquote_raw by done. rewrite IH. by destruct (unquote t) as [[]|].
Qed.

Lemma unquote_quote_body l r : valid_utf8 l = true → unquote (quote_body l ++ dq :: r) = Some (l, r).
Proof.
  remember (length l) as n eqn:Hn. revert l Hn. induction n as [n IH] using lt_wf_ind. intros [|a l0] -> Hv; [done|].
  apply valid_utf8_cases in Hv as [(Ha & Hv & ->)|(pre & l1 & -> & Hpre & Hv & Hq)].
  - rewrite <-app_assoc, unquote_escape by done. rewrite (IH (length l0)) by (cbn; auto with lia). done.
  - destruct Hq as [->|(b & c & x & -> & Hx & ->)].
    + change (a :: pre ++ quote_body l1) with ((a :: pre) ++ quote_body l1).
      rewrite <-app_assoc, unquote_raws by done.
      rewrite (IH (length l1)); [done| |done|done]. cbn. rewrite length_app. lia.
    + rewrite <-app_assoc. cbn [app]. rewrite (line_separator_unquote a b c x) by done.
      rewrite (IH (length l1)); [done| |done|done]. cbn. lia.
Qed.

Lemma quote_inj s1 s2 r1 r2 :
  valid_utf8 (chars s1) = true → valid_utf8 (chars s2) = true →
  quote s1 ++ r1 = quote s2 ++ r2 → s1 = s2 ∧ r1 = r2.
Proof.
  unfold quote. intros H1 H2. cbn [app]. rewrite <-!app_assoc. cbn [app]. intros [= Heq].
  apply (f_equal unquote) in Heq. rewrite !unquote_quote_body in Heq by done. injection Heq as Heq ->. split; [|done].
  by rewrite <-(String.string_of_list_ascii_of_string s1), Heq, String.string_of_list_ascii_of_string.
Qed.

Lemma chars_inj s t : chars s = chars t → s = t.
Proof.
  intros H. by rewrite <-(String.string_of_list_ascii_of_string s), H, String.string_of_list_ascii_of_string.
Qed.

(** Where the text of a value may end. *)
Definition stops (r : list ascii) : bool := match r with [] => true | a :: _ => stop a end.

(** The first character of a printed value says what kind of value it is. *)
Definition kind (a : ascii) : nat :=
  if number_start a then 1
  else if bool_decide (a = dq) then 2
  else if bool_decide (a = "["%char) then 3
  else if bool_decide (a = "{"%char) then 4
  else if bool_decide (a = "t"%char) then 5
  else if bool_decide (a = "f"%char) then 6
  else if bool_decide (a = "n"%char) then 7 else 0%nat.
Definition kind_of (j : json) : nat :=
  match j with
  | JNumber _ => 1 | JString _ => 2 | JArray _ => 3 | JObject _ => 4
  | JBool true => 5 | JBool false => 6 | JNull => 7
  end%nat.
Lemma print_head j : decoded j = true → ∃ a l, print j = a :: l ∧ kind a = kind_of j ∧ stop a = false.
Proof.
  destruct j as [|[]|n|s|l|ms]; cbn [decoded print]; intros Hd;
    [by eexists _, _|by eexists _, _|by eexists _, _| |by eexists _, _|by eexists _, _|by eexists _, _].
  unfold is_number in Hd. destruct (chars n) as [|a l]; [done|]. apply andb_prop in Hd as [Ha _].
  exists a, l. split; [done|]. split; [by unfold kind; rewrite Ha|].
  revert Ha. each_byte a; vm_compute; done.
Qed.

(** A number ends where a stop begins. *)
Lemma number_inj l1 l2 r1 r2 :
  forallb (λ a, negb (stop a)) l1 = true → forallb (λ a, negb (stop a)) l2 = true →
  stops r1 = true → stops r2 = true → l1 ++ r1 = l2 ++ r2 → l1 = l2 ∧ r1 = r2.
Proof.
  revert l2. induction l1 as [|a l1 IH]; intros [|b l2]; cbn; intros H1 H2 Hr1 Hr2 Heq.
  - done.
  - subst r1. cbn in Hr1. by rewrite Hr1 in H2.
  - subst r2. cbn in Hr2. by rewrite Hr2 in H1.
  - apply andb_prop in H1 as [_ H1]. apply andb_prop in H2 as [_ H2]. injection Heq as -> Heq.
    by destruct (IH l2 H1 H2 Hr1 Hr2 Heq) as [-> ->].
Qed.

(** Lists between brackets, given that their elements are read back. *)
Section lists.
Context {A : Type} (f : A → list ascii) (ok : A → bool) (close : ascii).
Hypothesis (close_stops : stop close = true) (close_comma : close ≠ ","%char).
Hypothesis f_head : ∀ x, ok x = true → ∃ a l, f x = a :: l ∧ stop a = false.

Lemma join_cons x l t :
  join [","%char] (f <$> x :: l) ++ close :: t =
  f x ++ match l with [] => close :: t | _ => ","%char :: (join [","%char] (f <$> l) ++ close :: t) end.
Proof. destruct l; [done|]. cbn [fmap list_fmap join app]. by rewrite <-!app_assoc. Qed.

Lemma join_inj l1 l2 r1 r2 :
  (∀ x y r1 r2, x ∈ l1 → ok x = true → ok y = true → stops r1 = true → stops r2 = true →
     f x ++ r1 = f y ++ r2 → x = y ∧ r1 = r2) →
  forallb ok l1 = true → forallb ok l2 = true →
  join [","%char] (f <$> l1) ++ close :: r1 = join [","%char] (f <$> l2) ++ close :: r2 → l1 = l2 ∧ r1 = r2.
Proof.
  revert l2. induction l1 as [|x l1 IH]; intros [|y l2] Hf H1 H2.
  - by intros [= ->].
  - rewrite join_cons. cbn [forallb] in H2. apply andb_prop in H2 as [Hy _].
    destruct (f_head y Hy) as (a & l & -> & Ha). cbn [app fmap list_fmap join]. intros [= -> _]. congruence.
  - rewrite join_cons. cbn [forallb] in H1. apply andb_prop in H1 as [Hx _].
    destruct (f_head x Hx) as (a & l & -> & Ha). cbn [app fmap list_fmap join]. intros [= -> _]. congruence.
  - rewrite !join_cons. cbn [forallb] in H1, H2. apply andb_prop in H1 as [Hx H1]. apply andb_prop in H2 as [Hy H2].
    intros Heq. apply Hf in Heq as [-> Heq];
      [|by left|done|done|by destruct l1; [exact close_stops|]|by destruct l2; [exact close_stops|]].
    destruct l1 as [|x1 l1], l2 as [|y2 l2]; [by injection Heq as ->| | |].
    + by injection Heq as Hc _.
    + by injection Heq as Hc _.
    + injection Heq as Heq. destruct (IH (y2 :: l2)) as [-> ->]; [|done..].
      intros a b s1 s2 Hin. apply Hf. by right.
Qed.
End lists.

Section json_induction.
Context (P : json → Prop) (Hnull : P JNull) (Hbool : ∀ b, P (JBool b)) (Hnumber : ∀ n, P (JNumber n)).
Context (Hstring : ∀ s, P (JString s)) (Harray : ∀ l, Forall P l → P (JArray l)).
Context (Hobject : ∀ ms, Forall (λ kv, P kv.2) ms → P (JObject ms)).
Fixpoint json_nested_ind (j : json) : P j :=
  match j with
  | JNull => Hnull
  | JBool b => Hbool b
  | JNumber n => Hnumber n
  | JString s => Hstring s
  | JArray l => Harray l (Forall_true P l json_nested_ind)
  | JObject ms => Hobject ms (Forall_true (λ kv, P kv.2) ms (λ kv, json_nested_ind kv.2))
  end.
End json_induction.

Definition print_pair (kv : string * json) : list ascii := print_member kv.1 (print kv.2).
Definition decoded_pair (kv : string * json) : bool := valid_utf8 (chars kv.1) && decoded kv.2.
Lemma print_object_pairs ms : print (JObject ms) = print_object (print_pair <$> ms).
Proof. cbn [print]. f_equal. apply list_fmap_ext. by intros _ [k v] _. Qed.

Theorem print_inj j1 j2 r1 r2 :
  decoded j1 = true → decoded j2 = true → stops r1 = true → stops r2 = true →
  print j1 ++ r1 = print j2 ++ r2 → j1 = j2 ∧ r1 = r2.
Proof.
  revert j2 r1 r2. induction j1 as [|b|n|s|l IH|ms IH] using json_nested_ind; intros j2 r1 r2 H1 H2 Hr1 Hr2 Heq.
  all: assert (kind_of j2 = kind_of _) as Hkind by
    (destruct (print_head _ H1) as (a & t & Ha & <- & _), (print_head _ H2) as (a' & t' & Ha' & <- & _);
     rewrite Ha, Ha' in Heq; by injection Heq as -> _).
  - destruct j2 as [|[]|?|?|?|?]; try done. by injection Heq as ->.
  - destruct b, j2 as [|[]|?|?|?|?]; try done; by injection Heq as ->.
  - destruct j2 as [|[]|n2|?|?|?]; try done. cbn [print decoded] in *. unfold is_number in *.
    destruct (chars n) as [|a t] eqn:Hn; [done|]. destruct (chars n2) as [|a2 t2] eqn:Hn2; [done|].
    apply andb_prop in H1 as [_ H1]. apply andb_prop in H2 as [_ H2]. injection Heq as -> Heq.
    destruct (number_inj t t2 r1 r2 H1 H2 Hr1 Hr2 Heq) as [-> ->].
    split; [|done]. f_equal. apply chars_inj. congruence.
  - destruct j2 as [|[]|?|s2|?|?]; try done. cbn [print decoded] in *.
    by destruct (quote_inj s s2 r1 r2 H1 H2 Heq) as [-> ->].
  - destruct j2 as [|[]|?|?|l2|?]; try done. cbn [print decoded] in *. unfold print_array in Heq.
    cbn [app] in Heq. rewrite <-!app_assoc in Heq. injection Heq as Heq.
    destruct (join_inj print decoded "]"%char eq_refl ltac:(done)) with l l2 r1 r2 as [-> ->]; try done.
    + intros x Hx. destruct (print_head x Hx) as (a & t & Ha & _ & Hs). eauto.
    + intros x y s1 s2 Hin Hx Hy Hs1 Hs2. rewrite Forall_forall in IH. by apply IH.
  - destruct j2 as [|[]|?|?|?|ms2]; try done. rewrite !print_object_pairs in Heq. cbn [decoded] in H1, H2.
    apply andb_prop in H1 as [_ H1]. apply andb_prop in H2 as [_ H2]. unfold print_object in Heq.
    cbn [app] in Heq. rewrite <-!app_assoc in Heq. injection Heq as Heq.
    destruct (join_inj print_pair decoded_pair "}"%char eq_refl ltac:(done)) with ms ms2 r1 r2 as [-> ->]; try done.
    + intros [k v] _. unfold print_pair, print_member, quote. cbn. eauto.
    + intros [k v] [k2 v2] s1 s2 Hin. unfold decoded_pair, print_pair, print_member. cbn [fst snd].
      intros [Hk Hv]%andb_prop [Hk2 Hv2]%andb_prop Hs1 Hs2. rewrite <-!app_assoc. intros Hq.
      apply quote_inj in Hq as [-> Hq]; [|done..]. cbn [app] in Hq. injection Hq as Hq.
      rewrite Forall_forall in IH. destruct (IH _ Hin v2 s1 s2 Hv Hv2 Hs1 Hs2 Hq) as [Hvv ->]. cbn in Hvv. by subst v2.
Qed.
