(* ===== verification/Signature.v ===== *)
(** * Signatures of key management services (platform/kms/signature, platform/auth/kmssigner)

    ECDSA signatures between their DER form and the raw form of a JWS, and the
    signing methods that delegate to a key management service.  ASN.1, the keys and
    the verification of the standard library are parameters. *)

From S2P Require Import Prelude Encoding Json.

(** ** kms/signature: DER and raw ECDSA signatures *)

(** [big.Int.Bytes], big-endian without leading zeros, and [big.Int.SetBytes]. *)
Fixpoint be_bytes (fuel : nat) (n : N) : list ascii :=
  match fuel with
  | O => []
  | S fuel => if bool_decide (n = 0)%N then [] else be_bytes fuel (n / 256) ++ [ascii_of_N (n mod 256)]
  end.
Definition Int_Bytes (n : N) : list ascii := be_bytes (N.to_nat (N.size n)) n.
Definition SetBytes (l : list ascii) : N := foldl (λ acc a, acc * 256 + byte_of a)%N 0%N l.

Section signature.
Context (asn1_Unmarshal : string → option (Z * Z * string)) (asn1_Marshal : Z → Z → option string).

(** [None] stands for the errors; [copy] into a slice of zeros pads on the left. *)
Definition padded (width : nat) (l : list ascii) : list ascii := replicate (width - length l) "000"%char ++ l.
Definition ECDSAJWSFromDER (der : string) (curveBytes : Z) : option string :=
  if bool_decide (der = "") || bool_decide (curveBytes ≤ 0)%Z then None
  else match asn1_Unmarshal der with
       | None => None
       | Some (r, s, rest) =>
           if negb (bool_decide (rest = "")) || bool_decide (r < 0)%Z || bool_decide (s < 0)%Z then None
           else
             let rBytes := Int_Bytes (Z.to_N r) in
             let sBytes := Int_Bytes (Z.to_N s) in
             let width := Z.to_nat curveBytes in
             if bool_decide (width < length rBytes)%nat || bool_decide (width < length sBytes)%nat then None
             else Some (unchars (padded width rBytes ++ padded width sBytes))
       end.
Definition ECDSADERFromJWS (raw : string) : option string :=
  let n := String.length raw in
  if bool_decide (raw = "") || bool_decide (n mod 2 ≠ 0)%nat then None
  else let half := (n / 2)%nat in
       asn1_Marshal (Z.of_N (SetBytes (take half (chars raw)))) (Z.of_N (SetBytes (drop half (chars raw)))).
End signature.

(** A key management signer; [Sign] gives DER for ECDSA.  [None] is its error. *)
Record KMSSigner : Type := {
  KeyID : string;
  SigningAlgorithm : string;
  Sign : string → option string;
}.

(** ** kmssigner/method.go

    The keys a method is given: a signer, a public key, or something else; a nil
    pointer to a key is [None]. *)
Record ecdsa_PublicKey : Type := { Curve : option string; pub_X : option N; pub_Y : option N }.
Record rsa_PublicKey : Type := { pub_N : option N; pub_E : Z }.
Inductive crypto_PublicKey : Type :=
  | ECDSAPublic (pub : option ecdsa_PublicKey)
  | RSAPublic (pub : option rsa_PublicKey)
  | OtherPublic.
(** A [kms.KMSSigner], of which [kmssigner.Signer] is a part; [HealthCheck] is its error. *)
Record Signer : Type := { Public : crypto_PublicKey; kms :> KMSSigner; HealthCheck : option string }.
Inductive method_key : Type :=
  | SignerKey (s : Signer)
  | PublicKeyOnly (k : crypto_PublicKey).

Inductive kmssigner_error : Type := ErrAlgMismatch | ErrInvalidKeyType | ErrTokenSignatureInvalid.
#[export] Instance kmssigner_error_eq_dec : EqDecision kmssigner_error.
Proof. solve_decision. Defined.
Abbreviation serr := (goerr kmssigner_error) (only parsing).

(** crypto/ecdsa.Verify and crypto/rsa.VerifyPKCS1v15, on a SHA-256 digest. *)
Class SignatureScheme : Type := {
  ecdsa_Verify : option ecdsa_PublicKey → string → N → N → bool;
  rsa_VerifyPKCS1v15 : option rsa_PublicKey → string → string → bool;
}.

Section methods.
Context {H : Sha256} (asn1_Unmarshal : string → option (Z * Z * string)).

Definition ES256_Sign (signingString : string) (key : method_key) : outcome serr string :=
  match key with
  | PublicKeyOnly _ => Err (Wrapf "kmssigner: ES256 sign" (Sentinel ErrInvalidKeyType))
  | SignerKey signer =>
      if bool_decide (SigningAlgorithm signer ≠ "ES256") then Err (Wrapf "method is ES256" (Sentinel ErrAlgMismatch))
      else match Sign signer (sha256 signingString) with
           | None => Err (Errorf "kmssigner: ES256 sign")
           | Some derSig =>
               match ECDSAJWSFromDER asn1_Unmarshal derSig 32 with
               | None => Err (Errorf "kmssigner: ES256 sign: DER conversion")
               | Some jwsSig => Ok jwsSig
               end
           end
  end.
Definition RS256_Sign (signingString : string) (key : method_key) : outcome serr string :=
  match key with
  | PublicKeyOnly _ => Err (Wrapf "kmssigner: RS256 sign" (Sentinel ErrInvalidKeyType))
  | SignerKey signer =>
      if bool_decide (SigningAlgorithm signer ≠ "RS256") then Err (Wrapf "method is RS256" (Sentinel ErrAlgMismatch))
      else match Sign signer (sha256 signingString) with
           | None => Err (Errorf "kmssigner: RS256 sign")
           | Some sig => Ok sig
           end
  end.

Definition extractECDSAPublicKey (key : method_key) : outcome serr (option ecdsa_PublicKey) :=
  match key with
  | PublicKeyOnly (ECDSAPublic k) => Ok k
  | SignerKey s =>
      match Public s with ECDSAPublic k => Ok k | _ => Err (Wrapf "Signer.Public()" (Sentinel ErrInvalidKeyType)) end
  | _ => Err (Wrapf "want *ecdsa.PublicKey or Signer" (Sentinel ErrInvalidKeyType))
  end.
Definition extractRSAPublicKey (key : method_key) : outcome serr (option rsa_PublicKey) :=
  match key with
  | PublicKeyOnly (RSAPublic k) => Ok k
  | SignerKey s =>
      match Public s with RSAPublic k => Ok k | _ => Err (Wrapf "Signer.Public()" (Sentinel ErrInvalidKeyType)) end
  | _ => Err (Wrapf "want *rsa.PublicKey or Signer" (Sentinel ErrInvalidKeyType))
  end.

Context {V : SignatureScheme}.
Definition ES256_Verify (signingString sig : string) (key : method_key) : outcome serr unit :=
  match extractECDSAPublicKey key with
  | Err err => Err (Wrapf "kmssigner: ES256 verify" err)
  | Ok pub =>
      if bool_decide (String.length sig ≠ 64) then Err (Wrapf "signature length" (Sentinel ErrTokenSignatureInvalid))
      else if ecdsa_Verify pub (sha256 signingString) (SetBytes (take 32 (chars sig))) (SetBytes (drop 32 (chars sig)))
      then Ok tt else Err (Sentinel ErrTokenSignatureInvalid)
  end.
Definition RS256_Verify (signingString sig : string) (key : method_key) : outcome serr unit :=
  match extractRSAPublicKey key with
  | Err err => Err (Wrapf "kmssigner: RS256 verify" err)
  | Ok pub =>
      if rsa_VerifyPKCS1v15 pub (sha256 signingString) sig then Ok tt
      else Err (Wrapf "verification error" (Sentinel ErrTokenSignatureInvalid))
  end.
End methods.

(** ** Numbers as bytes *)

Lemma length_chars s : length (chars s) = String.length s.
Proof. induction s as [|a s IH]; [done|]. cbn. by rewrite IH. Qed.

Lemma SetBytes_app l a : SetBytes (l ++ [a]) = (SetBytes l * 256 + byte_of a)%N.
Proof. unfold SetBytes. by rewrite foldl_app. Qed.
Lemma SetBytes_zeros n l : SetBytes (replicate n "000"%char ++ l) = SetBytes l.
Proof. induction n as [|n IH]; [done|exact IH]. Qed.
Lemma be_bytes_value fuel n : (n < 2 ^ N.of_nat fuel)%N → SetBytes (be_bytes fuel n) = n.
Proof.
  revert n. induction fuel as [|fuel IH]; intros n Hn; cbn [be_bytes]; [cbn in *; lia|].
  case_bool_decide as Hz; [by subst|]. rewrite SetBytes_app, IH.
  - rewrite N_ascii_embedding by (apply N.mod_lt; done). pose proof (N.div_mod' n 256). lia.
  - rewrite Nat2N.inj_succ, N.pow_succ_r' in Hn. apply N.Div0.div_lt_upper_bound. lia.
Qed.
Lemma be_bytes_length fuel n w : (n < 256 ^ N.of_nat w)%N → (length (be_bytes fuel n) ≤ w)%nat.
Proof.
  revert n w. induction fuel as [|fuel IH]; intros n w Hn; cbn [be_bytes]; [cbn; lia|].
  case_bool_decide as Hz; [cbn; lia|]. rewrite length_app. cbn [length]. destruct w as [|w]; [cbn in Hn; lia|].
  rewrite Nat2N.inj_succ, N.pow_succ_r' in Hn. specialize (IH (n / 256)%N w).
  assert (n / 256 < 256 ^ N.of_nat w)%N by (apply N.Div0.div_lt_upper_bound; lia). lia.
Qed.
Lemma Int_Bytes_value n : SetBytes (Int_Bytes n) = n.
Proof. apply be_bytes_value. rewrite N2Nat.id. apply N.size_gt. Qed.

Lemma padded_spec n w :
  (n < 256 ^ N.of_nat w)%N → length (padded w (Int_Bytes n)) = w ∧ SetBytes (padded w (Int_Bytes n)) = n.
Proof.
  intros Hn. unfold padded. rewrite length_app, length_replicate, SetBytes_zeros, Int_Bytes_value. split; [|done].
  pose proof (be_bytes_length (N.to_nat (N.size n)) n w Hn). unfold Int_Bytes. lia.
Qed.

Section signature.
Context (asn1_Unmarshal : string → option (Z * Z * string)) (asn1_Marshal : Z → Z → option string).

(** A pair that fits the width becomes the two numbers, each in its half. *)
Lemma raw_halves der (w : nat) r s :
  (0 < w)%nat → der ≠ "" → asn1_Unmarshal der = Some (Z.of_N r, Z.of_N s, "") →
  (r < 256 ^ N.of_nat w)%N → (s < 256 ^ N.of_nat w)%N →
  ∃ raw, ECDSAJWSFromDER asn1_Unmarshal der (Z.of_nat w) = Some raw ∧ String.length raw = (2 * w)%nat ∧
    SetBytes (take w (chars raw)) = r ∧ SetBytes (drop w (chars raw)) = s.
Proof.
  intros Hw Hder Hu Hr Hs. unfold ECDSAJWSFromDER. rewrite bool_decide_false by done. rewrite bool_decide_false by lia.
  cbn [orb]. rewrite Hu, bool_decide_true by done. cbn [negb orb]. rewrite !bool_decide_false by lia.
  rewrite !N2Z.id, Nat2Z.id. pose proof (be_bytes_length (N.to_nat (N.size r)) r w Hr).
  pose proof (be_bytes_length (N.to_nat (N.size s)) s w Hs). cbn [orb]. rewrite !bool_decide_false by (unfold Int_Bytes; lia).
  cbn [orb]. destruct (padded_spec r w Hr) as [Hlr Hvr], (padded_spec s w Hs) as [Hls Hvs].
  eexists. split; [done|]. split.
  - rewrite <-length_chars, String.list_ascii_of_string_of_list_ascii, length_app. lia.
  - rewrite String.list_ascii_of_string_of_list_ascii. rewrite take_app_length', drop_app_length' by done. done.
Qed.

(** A DER signature whose numbers fit the width of the curve becomes the two
    numbers padded to the width, from which its DER form comes back. *)
Theorem raw_signature_roundtrip der (w : nat) r s :
  (0 < w)%nat → der ≠ "" → asn1_Unmarshal der = Some (Z.of_N r, Z.of_N s, "") →
  (r < 256 ^ N.of_nat w)%N → (s < 256 ^ N.of_nat w)%N →
  ∃ raw, ECDSAJWSFromDER asn1_Unmarshal der (Z.of_nat w) = Some raw ∧ String.length raw = (2 * w)%nat ∧
    ECDSADERFromJWS asn1_Marshal raw = asn1_Marshal (Z.of_N r) (Z.of_N s).
Proof.
  intros Hw Hder Hu Hr Hs. destruct (raw_halves der w r s) as (raw & Hraw & Hlen & H1 & H2); [done..|].
  exists raw. split; [done|]. split; [done|]. unfold ECDSADERFromJWS. rewrite Hlen.
  replace (2 * w)%nat with (w * 2)%nat by lia. rewrite Nat.Div0.mod_mul, Nat.div_mul, H1, H2 by done.
  rewrite (bool_decide_false (raw = "")), (bool_decide_false (0 ≠ 0)%nat); [done|lia|].
  intros ->. cbn in Hlen. lia.
Qed.
End signature.

(** ** Witnesses *)

Definition ex_asn1 (der : string) : option (Z * Z * string) :=
  if bool_decide (der = "der") then Some (5%Z, 70000%Z, "") else None.
Definition ex_asn1_Marshal (r s : Z) : option string :=
  if bool_decide (r = 5 ∧ s = 70000)%Z then Some "der" else None.
Lemma raw_signature_roundtrip_witness :
  ∃ raw, ECDSAJWSFromDER ex_asn1 "der" 32 = Some raw ∧ String.length raw = 64%nat ∧
    ECDSADERFromJWS ex_asn1_Marshal raw = Some "der".
Proof.
  apply (raw_signature_roundtrip ex_asn1 ex_asn1_Marshal "der" 32 5 70000); [lia|done|reflexivity|by vm_compute|by vm_compute].
Defined.
