(* ===== verification/AuditSigned.v ===== *)
(** * Signed audit events (platform/audit/canonical_json.go, signed.go)

    The canonical JSON of an event, its signature as a JWS, and the store that
    signs events before it hands them on.  [encoding/json]'s decoders, ASN.1 and the
    keys are parameters.  Details are decoded JSON: those are what the store, which
    gets them as bytes, and the verifier have. *)

From S2P Require Import Prelude Encoding Json Signature AuditLog.

(** An [Event] whose details are decoded JSON; a nil map is [None]. *)
Record SignedEvent : Type := {
  se_CompanyID : string;
  se_ActorID : string;
  se_Action : string;
  se_Resource : string;
  se_ResourceID : string;
  se_Details : option (gmap string json);
  se_IPAddress : string;
  se_Decision : string;
  se_ActorKind : string;
  se_SubjectID : string;
  se_SubjectKind : string;
  se_MFA : option MFAAttestation;
  se_Federation : list FederationLink;
  se_Risk : option RiskAttestation;
}.

(** ** canonical_json.go *)

(** The details are raw JSON texts. *)
Record canonicalPayload : Type := {
  cp_EventID : string;
  cp_Issuer : string;
  cp_IssuedAt : Z;
  cp_JTI : string;
  cp_EventType : string;
  cp_TenantID : string;
  cp_ActorID : string;
  cp_ActorKind : string;
  cp_SubjectID : string;
  cp_SubjectKind : string;
  cp_Resource : string;
  cp_ResourceID : string;
  cp_Decision : string;
  cp_SourceIP : string;
  cp_MFA : option MFAAttestation;
  cp_Federation : list FederationLink;
  cp_RiskScore : Z;
  cp_RiskSignals : list RiskSignal;
  cp_Details : gmap string (list ascii);
}.

(** [canonicalizeDecoded]: the members of an object in the order of their sorted
    names, each looked up in the map. *)
Definition lookup_text (k : string) (ms : list (string * list ascii)) : list ascii :=
  default [] (snd <$> head (filter (λ kv, kv.1 = k) ms)).
Fixpoint canonicalizeDecoded (v : json) : list ascii :=
  match v with
  | JObject x =>
      let rendered := (λ '(k, w), (k, canonicalizeDecoded w)) <$> x in
      let keys := sort_Strings x.*1 in
      print_object ((λ k, print_member k (lookup_text k rendered)) <$> keys)
  | JArray x => print_array (canonicalizeDecoded <$> x)
  | _ => print v
  end.

Definition encode_mfa (m : MFAAttestation) : list ascii :=
  print_object (list_field "presented" quote (Presented m) ++ list_field "verified" quote (Verified m)
    ++ (if StepUpSatisfied m then [print_member "step_up_satisfied" (chars "true")] else [])
    ++ text_field "aal_achieved" (AALAchieved m)).
Definition encode_link (l : FederationLink) : list ascii :=
  print_object (text_field "idp" (IDP l) ++ text_field "level" (Level l) ++ text_field "trust_link" (TrustLink l)).
Definition encode_signal (s : RiskSignal) : list ascii :=
  print_object (text_field "signal" (rs_Signal s) ++ int_field "weight" (rs_Weight s)).

(** A map is printed with its keys sorted; canonical texts are printed as they
    are. *)
Definition encode_details (e : Env) (m : gmap string (list ascii)) : list ascii :=
  print_object ((λ k, print_member k (default [] (m !! k))) <$> sort_Strings (range (MapRange := order e) m).*1).

Definition encode_payload (e : Env) (cp : canonicalPayload) : list ascii :=
  print_object
    (text_field "event_id" (cp_EventID cp) ++ text_field "iss" (cp_Issuer cp) ++ int_field "iat" (cp_IssuedAt cp)
     ++ text_field "jti" (cp_JTI cp) ++ text_field "event_type" (cp_EventType cp)
     ++ text_field "tenant_id" (cp_TenantID cp) ++ text_field "actor_id" (cp_ActorID cp)
     ++ text_field "actor_kind" (cp_ActorKind cp) ++ text_field "subject_id" (cp_SubjectID cp)
     ++ text_field "subject_kind" (cp_SubjectKind cp) ++ text_field "resource" (cp_Resource cp)
     ++ text_field "resource_id" (cp_ResourceID cp) ++ text_field "decision" (cp_Decision cp)
     ++ text_field "source_ip" (cp_SourceIP cp)
     ++ (match cp_MFA cp with Some m => [print_member "mfa" (encode_mfa m)] | None => [] end)
     ++ list_field "federation" encode_link (cp_Federation cp) ++ int_field "risk_score" (cp_RiskScore cp)
     ++ list_field "risk_signals" encode_signal (cp_RiskSignals cp)
     ++ (if bool_decide (cp_Details cp = ∅) then [] else [print_member "details" (encode_details e (cp_Details cp))])).

Inductive audit_error : Type := ErrUnsupportedAlgorithm | ErrInvalidJWS | ErrSignatureInvalid.
#[export] Instance audit_error_eq_dec : EqDecision audit_error.
Proof. solve_decision. Defined.
Abbreviation aerr := (goerr audit_error) (only parsing).

Definition eventJTI (e : SignedEvent) : string :=
  match se_Details e with
  | Some m => match m !! "jti" with Some (JString s) => s | _ => "" end
  | None => ""
  end.

(** [encoding/json]: decoding into [any], into the payload, and the header of a
    JWS, printed and decoded. *)
Class JsonDecoder : Type := {
  Unmarshal : string → option json;
  Unmarshal_payload : string → option canonicalPayload;
  Marshal_header : gmap string string → string;
  Unmarshal_header : string → option (gmap string string);
}.

Section signed.
Context {D : JsonDecoder} {C : UnicodeCase} {H : Sha256}.

(** A decoded value is printed with sorted keys, decoded again and walked. *)
Definition canonicalizeAny (v : json) : outcome aerr (list ascii) :=
  match Unmarshal (unchars (canonicalizeDecoded v)) with
  | None => Err (Errorf "unmarshal")
  | Some decoded => Ok (canonicalizeDecoded decoded)
  end.

(** The loop over the sorted keys. *)
Fixpoint canonical_details (m : gmap string json) (keys : list string) (acc : gmap string (list ascii)) :
    outcome aerr (gmap string (list ascii)) :=
  match keys with
  | [] => Ok acc
  | k :: rest =>
      match canonicalizeAny (default JNull (m !! k)) with
      | Err err => Err (Wrapf "audit: canonicalize details" err)
      | Ok b => canonical_details m rest (<[k := b]> acc)
      end
  end.

Definition payload_of (e : SignedEvent) (issuer : string) (iatSec : Z) (details : gmap string (list ascii)) :
    canonicalPayload :=
  let jti := eventJTI e in
  {| cp_EventID := jti; cp_Issuer := issuer; cp_IssuedAt := iatSec; cp_JTI := jti; cp_EventType := se_Action e;
     cp_TenantID := ToLower (se_CompanyID e); cp_ActorID := ToLower (se_ActorID e); cp_ActorKind := se_ActorKind e;
     cp_SubjectID := ToLower (se_SubjectID e); cp_SubjectKind := se_SubjectKind e; cp_Resource := se_Resource e;
     cp_ResourceID := se_ResourceID e; cp_Decision := se_Decision e; cp_SourceIP := se_IPAddress e;
     cp_MFA := se_MFA e; cp_Federation := se_Federation e;
     cp_RiskScore := match se_Risk e with Some r => ra_Score r | None => 0%Z end;
     cp_RiskSignals := match se_Risk e with Some r => ra_Signals r | None => [] end;
     cp_Details := details |}.

Definition MarshalCanonical (env : Env) (e : SignedEvent) (issuer : string) (iatSec : Z) : outcome aerr string :=
  let details := default ∅ (se_Details e) in
  match canonical_details details (sort_Strings (range (MapRange := order env) details).*1) ∅ with
  | Err err => Err err
  | Ok raw => Ok (unchars (encode_payload env (payload_of e issuer iatSec raw)))
  end.

(** The loop over the details of [UnmarshalCanonical]; [None] is its error. *)
Definition decode_details (m : gmap string (list ascii)) : option (gmap string json) :=
  if bool_decide (map_Forall (λ _ raw, is_Some (Unmarshal (unchars raw))) m)
  then Some (omap (λ raw, Unmarshal (unchars raw)) m) else None.
Definition UnmarshalCanonical (b : string) : outcome aerr (SignedEvent * string * Z) :=
  match Unmarshal_payload b with
  | None => Err (Errorf "audit: unmarshal canonical")
  | Some cp =>
      match (if bool_decide (cp_Details cp = ∅) then Some None else Some <$> decode_details (cp_Details cp)) with
      | None => Err (Errorf "audit: unmarshal details")
      | Some details =>
          Ok ({| se_CompanyID := cp_TenantID cp; se_ActorID := cp_ActorID cp; se_Action := cp_EventType cp;
                 se_Resource := cp_Resource cp; se_ResourceID := cp_ResourceID cp; se_Details := details;
                 se_IPAddress := cp_SourceIP cp; se_Decision := cp_Decision cp; se_ActorKind := cp_ActorKind cp;
                 se_SubjectID := cp_SubjectID cp; se_SubjectKind := cp_SubjectKind cp; se_MFA := cp_MFA cp;
                 se_Federation := cp_Federation cp;
                 se_Risk := if bool_decide (cp_RiskScore cp = 0%Z ∧ cp_RiskSignals cp = []) then None
                            else Some {| ra_Score := cp_RiskScore cp; ra_Signals := cp_RiskSignals cp |} |},
              cp_Issuer cp, cp_IssuedAt cp)
      end
  end.

(** ** signed.go *)

Inductive PublicKey : Type :=
  | ECDSAKey (verify : string → N → N → bool)
  | RSAKey (verify : string → string → bool).

Record VerifiedEvent : Type := {
  ve_Event : SignedEvent;
  ve_Issuer : string;
  ve_IssuedAt : Z;
  ve_KID : string;
  ve_Alg : string;
}.

(** encoding/asn1 on the pair of an ECDSA signature; what is left over. *)
Context (asn1_Unmarshal : string → option (Z * Z * string)) (asn1_Marshal : Z → Z → option string).

(** [sign], at the instant of [env]. *)
Definition allowed_alg (alg : string) : bool := bool_decide (alg = "ES256") || bool_decide (alg = "RS256").
Definition raw_signature (alg sig : string) : outcome aerr string :=
  if bool_decide (alg = "ES256") then
    match ECDSAJWSFromDER asn1_Unmarshal sig 32 with
    | None => Err (Errorf "audit: ECDSA DER to raw")
    | Some raw => Ok raw
    end
  else Ok sig.
Definition jws_header (signer : KMSSigner) : gmap string string :=
  <["alg" := SigningAlgorithm signer]> (<["kid" := KeyID signer]> {["typ" := "JWT"]}).
Definition b64 (s : string) : string := base64_EncodeToString URLAlphabet s.
Definition sign (env : Env) (signer : KMSSigner) (issuerID : string) (e : SignedEvent) : outcome aerr string :=
  let iat := (now env / Second)%Z in
  match MarshalCanonical env e issuerID iat with
  | Err err => Err (Wrapf "audit: canonicalize" err)
  | Ok payload =>
      let signingInput := b64 (Marshal_header (jws_header signer)) +:+ "." +:+ b64 payload in
      match Sign signer (sha256 signingInput) with
      | None => Err (Errorf "audit: signer.Sign")
      | Some sig =>
          match raw_signature (SigningAlgorithm signer) sig with
          | Err err => Err err
          | Ok sig => Ok (signingInput +:+ "." +:+ b64 sig)
          end
      end
  end.

(** The audit stores: all take plain events; some signed ones too. *)
Record AuditStore (St : Type) : Type := {
  st_CreateAuditLog : AuditCall → prog St aerr unit;
  st_CreateSignedAuditLog : option (SignedEvent → string → string → prog St aerr unit);
}.
Arguments st_CreateAuditLog {St} _.
Arguments st_CreateSignedAuditLog {St} _.

Record SignedStore (St : Type) : Type := {
  inner : AuditStore St;
  signer : KMSSigner;
  issuerID : string;
}.
Arguments inner {St} _.
Arguments signer {St} _.
Arguments issuerID {St} _.

(** A nil store or signer is [None]. *)
Definition NewSignedStore {St} (st : option (AuditStore St)) (k : option KMSSigner) (iss : string) :
    outcome aerr (SignedStore St) :=
  match k with
  | None => Err (Errorf "audit: nil signer")
  | Some k =>
      match st with
      | None => Err (Errorf "audit: nil inner store")
      | Some st =>
          if negb (allowed_alg (SigningAlgorithm k)) then Err (Wrapf "got another" (Sentinel ErrUnsupportedAlgorithm))
          else if bool_decide (iss = "") then Err (Errorf "audit: empty issuerID")
          else Ok {| inner := st; signer := k; issuerID := iss |}
      end
  end.

Definition crockfordAlphabet : list ascii := chars "0123456789ABCDEFGHJKMNPQRSTVWXYZ".
Definition crockford (n : N) : ascii := default "0"%char (crockfordAlphabet !! N.to_nat (N.land n 31)).
(** The loop [for i := 9; i >= 0; i--], for a buffer of [n] characters. *)
Fixpoint crockford_time (n : nat) (ms : N) : list ascii :=
  match n with
  | O => []
  | S n => crockford_time n (N.shiftr ms 5) ++ [crockford ms]
  end.
(** [draw i] is the [i]-th random byte. *)
Definition generateJTI (env : Env) (draw : nat → N) : string :=
  let ms := Z.to_N ((now env / 1000000) mod 2 ^ 64)%Z in
  unchars (crockford_time 10 ms ++ ((λ i, crockford (draw i)) <$> seq 0 16)).

Definition object_map (j : option json) : gmap string json :=
  match j with Some (JObject ms) => list_to_map ms | _ => ∅ end.
Definition with_jti (env : Env) (draw : nat → N) (m : gmap string json) : gmap string json :=
  match m !! "jti" with
  | Some (JString s) => if bool_decide (s = "") then <["jti" := JString (generateJTI env draw)]> m else m
  | _ => <["jti" := JString (generateJTI env draw)]> m
  end.

Context {U : UuidText} (Marshal_wrapped : string → gmap string json → option string → string).

Definition event_of (call : AuditCall) (details : gmap string json) : SignedEvent :=
  {| se_CompanyID := uuid_String (c_companyID call); se_ActorID := uuid_String (c_actorID call);
     se_Action := c_action call; se_Resource := c_resource call; se_ResourceID := c_resourceID call;
     se_Details := Some details; se_IPAddress := c_ipAddress call; se_Decision := ""; se_ActorKind := "";
     se_SubjectID := ""; se_SubjectKind := ""; se_MFA := None; se_Federation := []; se_Risk := None |}.
Definition with_details (call : AuditCall) (details : string) : AuditCall :=
  {| c_companyID := c_companyID call; c_actorID := c_actorID call; c_action := c_action call;
     c_resource := c_resource call; c_resourceID := c_resourceID call; c_ipAddress := c_ipAddress call;
     c_details := details |}.

(** [error_text] is the text of an error. *)
Context (error_text : aerr → string).
Definition CreateAuditLog {St} (env : Env) (draw : nat → N) (s : SignedStore St) (call : AuditCall) : prog St aerr unit :=
  let detailsMap := with_jti env draw
    (if bool_decide (c_details call = "") then ∅ else object_map (Unmarshal (c_details call))) in
  let e := event_of call detailsMap in
  let '(jwsCompact, signingErr) :=
    match sign env (signer s) (issuerID s) e with
    | Ok jws => (jws, "")
    | Err err => ("", error_text err)
    end in
  match st_CreateSignedAuditLog (inner s) with
  | Some create => create e jwsCompact signingErr
  | None =>
      st_CreateAuditLog (inner s) (with_details call
        (Marshal_wrapped jwsCompact detailsMap (if bool_decide (signingErr = "") then None else Some signingErr)))
  end.
Definition SignForResign {St} (env : Env) (s : SignedStore St) (e : SignedEvent) : outcome aerr string :=
  sign env (signer s) (issuerID s) e.

(** The check of the signature in [VerifySignedEvent]. *)
Definition check_signature (alg : string) (pub : PublicKey) (digest sig : string) : outcome aerr unit :=
  if bool_decide (alg = "ES256") then
    match pub with
    | RSAKey _ => Err (Wrapf "ES256 requires *ecdsa.PublicKey" (Sentinel ErrInvalidJWS))
    | ECDSAKey verify =>
        if negb (bool_decide (String.length sig = 64%nat)) then Err (Wrapf "ES256 raw signature length" (Sentinel ErrInvalidJWS))
        else if verify digest (SetBytes (take 32 (chars sig))) (SetBytes (drop 32 (chars sig))) then Ok tt
        else Err (Sentinel ErrSignatureInvalid)
    end
  else
    match pub with
    | ECDSAKey _ => Err (Wrapf "RS256 requires *rsa.PublicKey" (Sentinel ErrInvalidJWS))
    | RSAKey verify => if verify digest sig then Ok tt else Err (Wrapf "verification error" (Sentinel ErrSignatureInvalid))
    end.

Definition VerifySignedEvent (jwsCompact : string) (pub : PublicKey) : outcome aerr VerifiedEvent :=
  match split_on "." jwsCompact with
  | [p0; p1; p2] =>
      match base64_DecodeString URLAlphabet p0 with
      | None => Err (Wrapf "decode header" (Sentinel ErrInvalidJWS))
      | Some headerBytes =>
          match Unmarshal_header headerBytes with
          | None => Err (Wrapf "parse header" (Sentinel ErrInvalidJWS))
          | Some header =>
              let alg := default "" (header !! "alg") in
              if negb (allowed_alg alg) then Err (Wrapf "header alg" (Sentinel ErrUnsupportedAlgorithm))
              else match base64_DecodeString URLAlphabet p1 with
                   | None => Err (Wrapf "decode payload" (Sentinel ErrInvalidJWS))
                   | Some payload =>
                       match base64_DecodeString URLAlphabet p2 with
                       | None => Err (Wrapf "decode signature" (Sentinel ErrInvalidJWS))
                       | Some sig =>
                           match check_signature alg pub (sha256 (p0 +:+ "." +:+ p1)) sig with
                           | Err err => Err err
                           | Ok _ =>
                               match UnmarshalCanonical payload with
                               | Err _ => Err (Wrapf "unmarshal payload" (Sentinel ErrInvalidJWS))
                               | Ok (event, iss, iat) =>
                                   Ok {| ve_Event := event; ve_Issuer := iss; ve_IssuedAt := iat;
                                         ve_KID := default "" (header !! "kid"); ve_Alg := alg |}
                               end
                           end
                       end
                   end
          end
      end
  | _ => Err (Wrapf "want 3 parts" (Sentinel ErrInvalidJWS))
  end.
End signed.
Arguments st_CreateAuditLog {St} _.
Arguments st_CreateSignedAuditLog {St} _.
Arguments inner {St} _.
Arguments signer {St} _.
Arguments issuerID {St} _.
