(* ===== verification/AuditSignedProofs.v ===== *)
(** * Properties of signed audit events

    The canonical JSON of a value determines it, up to the order in which objects
    list their members; the payload of an event determines the event; a signed
    event verifies and gives the event back. *)

From S2P Require Import Prelude Encoding Json Signature AuditLog AuditSigned.

(** ** Values up to the order of members *)

#[warnings="-register-all"] Inductive json_equiv : json → json → Prop :=
  | equiv_same j : json_equiv j j
  | equiv_array l l' : Forall2 json_equiv l l' → json_equiv (JArray l) (JArray l')
  | equiv_object ms ps ms' :
      ms ≡ₚ ps → Forall2 (λ a b, a.1 = b.1 ∧ json_equiv a.2 b.2) ps ms' → json_equiv (JObject ms) (JObject ms').

Definition key_lt (a b : string * json) : bool := string_lt a.1 b.1.
#[export] Instance key_lt_weak : StrictWeak key_lt.
Proof. split; unfold key_lt; intros; [by apply less_asym|by eapply less_cotrans]. Qed.

(** The representative whose objects are sorted. *)
Definition on_value (f : json → json) (kv : string * json) : string * json := (kv.1, f kv.2).
Fixpoint norm (j : json) : json :=
  match j with
  | JArray l => JArray (norm <$> l)
  | JObject ms => JObject (sort_slice key_lt ((λ kv, (kv.1, norm kv.2)) <$> ms))
  | _ => j
  end.

Lemma fmap_keys {A B} (f : A → B) (ms : list (string * A)) : ((λ kv, (kv.1, f kv.2)) <$> ms).*1 = ms.*1.
Proof. rewrite <-list_fmap_compose. by apply list_fmap_ext. Qed.

Lemma sorted_keys ps : sort_Strings ps.*1 = (sort_slice key_lt ps).*1.
Proof.
  apply (StronglySorted_unique_strong (may_precede string_lt)).
  - intros a b _ _ Hab Hba. by apply string_lt_total.
  - apply (sort_slice_sorted string_lt).
  - pose proof (sort_slice_sorted key_lt ps) as Hs. induction Hs as [|kv l _ IH Hall]; cbn; constructor; [done|].
    apply Forall_fmap. eapply Forall_impl; [exact Hall|]. done.
  - unfold sort_Strings. by rewrite !sort_slice_perm.
Qed.

Lemma lookup_text_elem k b ms : NoDup ms.*1 → (k, b) ∈ ms → lookup_text k ms = b.
Proof.
  intros Hnd Hin. unfold lookup_text. induction ms as [|[k' b'] ms IH]; [by apply not_elem_of_nil in Hin|].
  cbn [fmap list_fmap fst] in Hnd. apply NoDup_cons in Hnd as [Hk Hnd]. destruct (decide (k' = k)) as [->|Hne].
  - rewrite filter_cons_True by done. cbn. apply elem_of_cons in Hin as [[= ->]|Hin]; [done|].
    destruct Hk. apply list_elem_of_fmap. by exists (k, b).
  - rewrite filter_cons_False by done. apply elem_of_cons in Hin as [[= -> _]|Hin]; [done|]. by apply IH.
Qed.

Lemma decoded_object ms :
  decoded (JObject ms) = true ↔ NoDup ms.*1 ∧ ∀ kv, kv ∈ ms → valid_utf8 (chars kv.1) = true ∧ decoded kv.2 = true.
Proof.
  cbn [decoded]. rewrite andb_true_iff, bool_decide_eq_true, forallb_forall. split; intros [Hnd H]; split; try done.
  - intros kv Hin. apply andb_true_iff, H. by apply list_elem_of_In.
  - intros kv Hin. apply andb_true_iff, H. by apply list_elem_of_In.
Qed.
Lemma decoded_array l : decoded (JArray l) = true ↔ ∀ j, j ∈ l → decoded j = true.
Proof.
  cbn [decoded]. rewrite forallb_forall. split; intros H j Hj; apply H; by apply list_elem_of_In.
Qed.

Lemma canonical_print j : decoded j = true → canonicalizeDecoded j = print (norm j).
Proof.
  induction j as [|b|n|s|l IH|ms IH] using json_nested_ind; intros Hd; try done.
  - cbn [canonicalizeDecoded print norm]. f_equal. rewrite <-list_fmap_compose. apply list_fmap_ext. intros i j Hj.
    apply list_elem_of_lookup_2 in Hj. rewrite Forall_forall in IH. apply IH; [done|].
    by apply (proj1 (decoded_array l) Hd).
  - apply decoded_object in Hd as [Hnd Hd]. cbn [canonicalizeDecoded norm print]. f_equal.
    set (ps := (λ kv : string * json, (kv.1, norm kv.2)) <$> ms).
    assert (ms.*1 = ps.*1) as -> by (unfold ps; by rewrite fmap_keys).
    rewrite sorted_keys. rewrite <-list_fmap_compose. apply list_fmap_ext. intros i [k w] Hk.
    unfold compose. cbn beta iota zeta match delta [fst]. apply (f_equal (print_member k)).
    apply list_elem_of_lookup_2, elem_of_sort_slice in Hk. unfold ps in Hk.
    apply list_elem_of_fmap in Hk as ([k' v] & Heq & Hin). cbn in Heq. injection Heq as -> ->. rewrite Forall_forall in IH.
    apply lookup_text_elem.
    + assert ((λ '(k, w), (k, canonicalizeDecoded w)) <$> ms = (λ kv, (kv.1, canonicalizeDecoded kv.2)) <$> ms) as ->
        by (apply list_fmap_ext; by intros _ [] _).
      by rewrite fmap_keys.
    + apply list_elem_of_fmap. exists (k', v). cbn. split; [|done]. f_equal. symmetry. apply (IH _ Hin), (Hd _ Hin).
Qed.

Lemma decoded_norm j : decoded j = true → decoded (norm j) = true.
Proof.
  induction j as [|b|n|s|l IH|ms IH] using json_nested_ind; intros Hd; try done; cbn [norm]; rewrite Forall_forall in IH.
  - apply decoded_array. intros j (x & -> & Hx)%list_elem_of_fmap. apply IH; [done|]. by apply (proj1 (decoded_array l) Hd).
  - apply decoded_object in Hd as [Hnd Hd]. apply decoded_object. split.
    + rewrite sort_slice_perm. by rewrite fmap_keys.
    + intros kv ([k v] & -> & Hin)%elem_of_sort_slice%list_elem_of_fmap. destruct (Hd _ Hin) as [? ?]. split; [done|].
      by apply (IH _ Hin).
Qed.

Lemma sort_slice_eq_perm ps qs :
  NoDup ps.*1 → sort_slice key_lt ps = sort_slice key_lt qs ↔ ps ≡ₚ qs.
Proof.
  intros Hnd. split.
  - intros Heq. etrans; [symmetry; apply (sort_slice_perm key_lt)|]. by rewrite Heq, sort_slice_perm.
  - intros Hp. apply (StronglySorted_unique_strong (may_precede key_lt)).
    + intros [k x] [k' y] Ha Hb Hab Hba. rewrite elem_of_sort_slice in Ha, Hb. rewrite <-Hp in Hb.
      assert (k = k') as -> by (by apply string_lt_total). f_equal. by eapply NoDup_fst_eq.
    + apply (sort_slice_sorted key_lt).
    + apply (sort_slice_sorted key_lt).
    + by rewrite !sort_slice_perm.
Qed.

Lemma norm_equiv j1 j2 : norm j1 = norm j2 → json_equiv j1 j2.
Proof.
  revert j2. induction j1 as [|b|n|s|l IH|ms IH] using json_nested_ind; intros j2 Heq.
  1-4: destruct j2; cbn in Heq; try done; inversion Heq; constructor.
  - destruct j2 as [| | | |l2|]; try done. injection Heq as Heq. apply equiv_array.
    revert l2 Heq. induction IH as [|x l Hx _ IHl]; intros [|y l2] Heq; try done; constructor; injection Heq as Hxy Hl; eauto.
  - destruct j2 as [| | | | |ms2]; try done. injection Heq as Heq.
    assert ((λ kv, (kv.1, norm kv.2)) <$> ms ≡ₚ (λ kv, (kv.1, norm kv.2)) <$> ms2) as Hp
      by (etrans; [symmetry; apply (sort_slice_perm key_lt)|]; by rewrite Heq, sort_slice_perm).
    symmetry in Hp. apply Permutation_map_inv in Hp as (ps & Hps & Hp). apply (equiv_object ms ps); [done|].
    rewrite Hp in IH. clear Hp Heq. revert ms2 Hps. induction IH as [|[k x] ps Hx _ IHps]; intros [|[k' y] ms2] Hps; try done;
      constructor; injection Hps as Hk Hxy Hl; eauto.
Qed.

Lemma equiv_norm j1 j2 : decoded j1 = true → json_equiv j1 j2 → norm j1 = norm j2.
Proof.
  revert j2. induction j1 as [|b|n|s|l IH|ms IH] using json_nested_ind; intros j2 Hd Heq;
    inversion Heq as [?|? l' Hall|? ps ms' Hperm Hall]; subst; try done.
  - cbn. f_equal. pose proof (proj1 (decoded_array l) Hd) as Hd'. clear Heq Hd.
    induction Hall as [|x y l l' Hxy _ IHl]; [done|]. apply Forall_cons in IH as [Hx IH]. cbn. f_equal.
    + apply Hx; [|done]. apply Hd'. by left.
    + apply IHl; [done|]. intros j Hj. apply Hd'. by right.
  - apply decoded_object in Hd as [Hnd Hd]. cbn. f_equal. apply sort_slice_eq_perm; [by rewrite fmap_keys|].
    rewrite Hperm. assert (∀ kv, kv ∈ ps → decoded kv.2 = true) as Hd' by (intros kv Hkv; apply Hd; by rewrite Hperm).
    rewrite Hperm in IH. clear Hperm Heq Hnd Hd. apply reflexive_eq.
    induction Hall as [|[k x] [k' y] ps ms' [Hk Hxy] _ IHl]; [done|]. apply Forall_cons in IH as [Hx IH]. cbn in *. subst k'.
    f_equal.
    + f_equal. apply Hx; [|done]. apply (Hd' (k, x)). by left.
    + apply IHl; [done|]. intros j Hj. apply Hd'. by right.
Qed.

(** What is signed for a value determines the value, up to the order in which
    objects list their members, and does not depend on that order. *)
Theorem canonical_exact j1 j2 :
  decoded j1 = true → decoded j2 = true →
  canonicalizeDecoded j1 = canonicalizeDecoded j2 ↔ json_equiv j1 j2.
Proof.
  intros H1 H2. rewrite !canonical_print by done. split.
  - intros Heq. apply norm_equiv.
    apply (print_inj (norm j1) (norm j2) [] []); [by apply decoded_norm..|done|done|by rewrite Heq].
  - intros Heq. by rewrite (equiv_norm j1 j2).
Qed.

(** ** The payload of an event *)

(** The fields of a struct, [None] for an empty one, and the members printed. *)
Definition members (fs : list (string * option json)) : list (string * json) :=
  omap (λ f, (f.1,.) <$> f.2) fs.

Lemma members_keys fs k : k ∈ (members fs).*1 → k ∈ fs.*1.
Proof.
  intros ([k' j] & -> & ([k2 o] & Hin & Ho)%list_elem_of_omap)%list_elem_of_fmap. cbn in *.
  destruct o; [|done]. injection Ho as <- <-. apply list_elem_of_fmap. by exists (k2, Some j0).
Qed.
Lemma members_NoDup fs : NoDup fs.*1 → NoDup (members fs).*1.
Proof.
  induction fs as [|[k [j|]] fs IH]; cbn; intros Hnd; [constructor| |]; apply NoDup_cons in Hnd as [Hk Hnd]; [|by apply IH].
  constructor; [|by apply IH]. intros Hin. apply Hk. by apply members_keys.
Qed.
Lemma members_inj fs gs : fs.*1 = gs.*1 → NoDup fs.*1 → members fs = members gs → fs = gs.
Proof.
  revert gs. induction fs as [|[k o] fs IH]; intros [|[k' o'] gs] Hkeys Hnd Heq; try done.
  injection Hkeys as <- Hkeys. cbn [fmap list_fmap fst] in Hnd. apply NoDup_cons in Hnd as [Hk Hnd].
  assert (∀ hs j l, hs.*1 = fs.*1 → members hs ≠ (k, j) :: l) as Hno.
  { intros hs j l Hhs Hm. apply Hk. rewrite <-Hhs. apply members_keys. rewrite Hm. by left. }
  destruct o as [j|], o' as [j'|]; cbn in Heq.
  - injection Heq as -> Heq. f_equal. by apply IH.
  - symmetry in Heq. by apply Hno in Heq.
  - by apply Hno in Heq.
  - f_equal. by apply IH.
Qed.

Definition text_opt (s : string) : option json := if bool_decide (s = "") then None else Some (JString s).
Definition int_opt (n : Z) : option json := if bool_decide (n = 0)%Z then None else Some (JNumber (pretty n)).
Definition list_opt {A} (g : A → json) (l : list A) : option json :=
  match l with [] => None | _ => Some (JArray (g <$> l)) end.

Lemma text_field_members k s : text_field k s = print_pair <$> members [(k, text_opt s)].
Proof. unfold text_field, text_opt. by case_bool_decide. Qed.
Lemma int_field_members k n : int_field k n = print_pair <$> members [(k, int_opt n)].
Proof. unfold int_field, int_opt. by case_bool_decide. Qed.
Lemma list_field_members {A} k (f : A → list ascii) g (l : list A) :
  (∀ x, f x = print (g x)) → list_field k f l = print_pair <$> members [(k, list_opt g l)].
Proof.
  intros Hf. destruct l as [|x l]; [done|].
  change ([print_member k (print_array (f <$> x :: l))] = [print_member k (print_array (print <$> (g <$> x :: l)))]).
  rewrite <-list_fmap_compose. by rewrite (list_fmap_ext f (print ∘ g)) by (by intros).
Qed.
Lemma members_app fs gs : members (fs ++ gs) = members fs ++ members gs.
Proof. apply omap_app. Qed.

Definition mfa_json (m : MFAAttestation) : json :=
  JObject (members [("presented", list_opt JString (Presented m)); ("verified", list_opt JString (Verified m));
    ("step_up_satisfied", if StepUpSatisfied m then Some (JBool true) else None); ("aal_achieved", text_opt (AALAchieved m))]).
Definition link_json (l : FederationLink) : json :=
  JObject (members [("idp", text_opt (IDP l)); ("level", text_opt (Level l)); ("trust_link", text_opt (TrustLink l))]).
Definition signal_json (s : RiskSignal) : json :=
  JObject (members [("signal", text_opt (rs_Signal s)); ("weight", int_opt (rs_Weight s))]).

Lemma encode_mfa_json m : encode_mfa m = print (mfa_json m).
Proof.
  unfold encode_mfa, mfa_json. rewrite print_object_pairs. f_equal.
  rewrite !(list_field_members _ _ JString), !text_field_members by done.
  assert ((if StepUpSatisfied m then [print_member "step_up_satisfied" (chars "true")] else []) =
    print_pair <$> members [("step_up_satisfied", if StepUpSatisfied m then Some (JBool true) else None)]) as ->
    by (by destruct (StepUpSatisfied m)).
  by rewrite <-!fmap_app, <-!members_app.
Qed.
Lemma encode_link_json l : encode_link l = print (link_json l).
Proof.
  unfold encode_link, link_json. rewrite print_object_pairs, !text_field_members. f_equal.
  by rewrite <-!fmap_app, <-!members_app.
Qed.
Lemma encode_signal_json s : encode_signal s = print (signal_json s).
Proof.
  unfold encode_signal, signal_json. rewrite print_object_pairs, text_field_members, int_field_members. f_equal.
  by rewrite <-!fmap_app, <-!members_app.
Qed.

(** The details, sorted. *)
Definition details_members (m : gmap string json) : list (string * json) :=
  (λ k, (k, norm (default JNull (m !! k)))) <$> sort_Strings (map_to_list m).*1.
Definition details_opt (m : gmap string json) : option json :=
  if bool_decide (m = ∅) then None else Some (JObject (details_members m)).

(** The fields of a payload whose details are the canonical texts of [m]. *)
Definition payload_fields (cp : canonicalPayload) (m : gmap string json) : list (string * option json) :=
  [("event_id", text_opt (cp_EventID cp)); ("iss", text_opt (cp_Issuer cp)); ("iat", int_opt (cp_IssuedAt cp));
   ("jti", text_opt (cp_JTI cp)); ("event_type", text_opt (cp_EventType cp)); ("tenant_id", text_opt (cp_TenantID cp));
   ("actor_id", text_opt (cp_ActorID cp)); ("actor_kind", text_opt (cp_ActorKind cp));
   ("subject_id", text_opt (cp_SubjectID cp)); ("subject_kind", text_opt (cp_SubjectKind cp));
   ("resource", text_opt (cp_Resource cp)); ("resource_id", text_opt (cp_ResourceID cp));
   ("decision", text_opt (cp_Decision cp)); ("source_ip", text_opt (cp_SourceIP cp)); ("mfa", mfa_json <$> cp_MFA cp);
   ("federation", list_opt link_json (cp_Federation cp)); ("risk_score", int_opt (cp_RiskScore cp));
   ("risk_signals", list_opt signal_json (cp_RiskSignals cp)); ("details", details_opt m)].

Definition canon_map (m : gmap string json) : gmap string (list ascii) := canonicalizeDecoded <$> m.

Lemma range_keys (e : Env) {V} (m : gmap string V) : (range (MapRange := order e) m).*1 ≡ₚ (map_to_list m).*1.
Proof. apply fmap_Permutation, (range_perm (MapRange := order e)). Qed.

Lemma encode_details_json e m :
  (∀ k v, m !! k = Some v → decoded v = true) → encode_details e (canon_map m) = print (JObject (details_members m)).
Proof.
  intros Hd. rewrite print_object_pairs. unfold encode_details, details_members. f_equal.
  assert (sort_Strings (range (MapRange := order e) (canon_map m)).*1 = sort_Strings (map_to_list m).*1) as ->.
  { apply sort_Strings_perm. rewrite range_keys. unfold canon_map. rewrite map_to_list_fmap.
    rewrite <-list_fmap_compose. apply reflexive_eq, list_fmap_ext. by intros _ [] _. }
  rewrite <-list_fmap_compose. apply list_fmap_ext. intros i k Hk. unfold compose, print_pair. cbn [fst snd]. f_equal.
  apply list_elem_of_lookup_2 in Hk. unfold sort_Strings in Hk. rewrite elem_of_sort_slice in Hk.
  apply list_elem_of_fmap in Hk as ([k' v] & -> & Hin%elem_of_map_to_list). cbn [fst]. unfold canon_map.
  rewrite lookup_fmap, Hin. cbn. by apply canonical_print, (Hd k').
Qed.

Lemma encode_payload_json e cp m :
  cp_Details cp = canon_map m → (∀ k v, m !! k = Some v → decoded v = true) →
  encode_payload e cp = print (JObject (members (payload_fields cp m))).
Proof.
  intros Hm Hd. rewrite print_object_pairs. unfold encode_payload, payload_fields. f_equal.
  rewrite !text_field_members, !int_field_members, (list_field_members _ _ link_json), (list_field_members _ _ signal_json)
    by (apply encode_link_json || apply encode_signal_json).
  assert (match cp_MFA cp with Some m0 => [print_member "mfa" (encode_mfa m0)] | None => [] end =
    print_pair <$> members [("mfa", mfa_json <$> cp_MFA cp)]) as ->.
  { destruct (cp_MFA cp) as [x|]; [|done]. cbn. unfold print_pair. cbn [fst snd]. by rewrite encode_mfa_json. }
  assert ((if bool_decide (cp_Details cp = ∅) then [] else [print_member "details" (encode_details e (cp_Details cp))]) =
    print_pair <$> members [("details", details_opt m)]) as ->.
  { rewrite Hm. unfold details_opt, canon_map. rewrite (bool_decide_ext _ _ (fmap_empty_iff canonicalizeDecoded m)).
    case_bool_decide; [done|]. change (canonicalizeDecoded <$> m) with (canon_map m). by rewrite encode_details_json. }
  by rewrite <-!fmap_app, <-!members_app.
Qed.

Section payload.
Context {D : JsonDecoder} {C : UnicodeCase}.

(** A decoded value that reads back from its canonical text, up to the order of
    members. *)
Definition reads_back (v : json) : Prop :=
  decoded v = true ∧ ∃ d, Unmarshal (unchars (canonicalizeDecoded v)) = Some d ∧ decoded d = true ∧ json_equiv v d.

Lemma canonicalizeAny_reads v : reads_back v → canonicalizeAny v = Ok (canonicalizeDecoded v).
Proof.
  intros (Hv & d & Hu & Hd & Heq). unfold canonicalizeAny. rewrite Hu. f_equal.
  rewrite !canonical_print by done. by rewrite (equiv_norm v d).
Qed.

Lemma canonical_details_reads m keys acc :
  (∀ k v, m !! k = Some v → reads_back v) → (∀ k, k ∈ keys → is_Some (m !! k)) →
  ∃ raw, canonical_details m keys acc = Ok raw ∧
    ∀ k, raw !! k = if decide (k ∈ keys) then canonicalizeDecoded <$> m !! k else acc !! k.
Proof.
  intros Hm. revert acc. induction keys as [|k keys IH]; intros acc Hk; cbn [canonical_details].
  { exists acc. split; [done|]. intros k. by rewrite decide_False by apply not_elem_of_nil. }
  destruct (Hk k) as [v Hv]; [by left|]. rewrite Hv. cbn [default]. rewrite canonicalizeAny_reads by eauto.
  destruct (IH (<[k:=canonicalizeDecoded v]> acc)) as (raw & Hraw & Hl); [intros k' Hk'; apply Hk; by right|].
  exists raw. split; [done|]. intros k'. rewrite Hl. destruct (decide (k' = k)) as [->|Hne].
  - rewrite Hv, (decide_True (P := k ∈ k :: keys)) by (by left). cbn. rewrite lookup_insert_eq. by destruct (decide _).
  - rewrite lookup_insert_ne by done. destruct (decide (k' ∈ keys)).
    + by rewrite decide_True by (by right).
    + rewrite decide_False; [done|]. intros [?|?]%elem_of_cons; done.
Qed.

(** An event whose texts are valid, signed for the issuer. *)
Definition text_ok (s : string) : bool := valid_utf8 (chars s).
Definition payload_ok (cp : canonicalPayload) : bool :=
  forallb text_ok [cp_EventID cp; cp_Issuer cp; cp_JTI cp; cp_EventType cp; cp_TenantID cp; cp_ActorID cp; cp_ActorKind cp;
    cp_SubjectID cp; cp_SubjectKind cp; cp_Resource cp; cp_ResourceID cp; cp_Decision cp; cp_SourceIP cp]
  && match cp_MFA cp with
     | None => true
     | Some m => forallb text_ok (Presented m) && forallb text_ok (Verified m) && text_ok (AALAchieved m)
     end
  && forallb (λ l, text_ok (IDP l) && text_ok (Level l) && text_ok (TrustLink l)) (cp_Federation cp)
  && forallb (λ s, text_ok (rs_Signal s)) (cp_RiskSignals cp).
Definition details_of (e : SignedEvent) : gmap string json := default ∅ (se_Details e).
Record event_ok (e : SignedEvent) (issuer : string) : Prop := {
  ok_texts : payload_ok (payload_of e issuer 0 ∅) = true;
  ok_details k v : details_of e !! k = Some v → text_ok k = true ∧ reads_back v;
}.

Lemma MarshalCanonical_json env e issuer iat :
  event_ok e issuer →
  MarshalCanonical env e issuer iat =
  Ok (unchars (print (JObject (members (payload_fields (payload_of e issuer iat ∅) (details_of e)))))).
Proof.
  intros Hok. unfold MarshalCanonical. fold (details_of e).
  destruct (canonical_details_reads (details_of e)
    (sort_Strings (range (MapRange := order env) (details_of e)).*1) ∅) as (raw & Hraw & Hl).
  - intros k v Hk. by apply (ok_details _ _ Hok k).
  - intros k. unfold sort_Strings. rewrite elem_of_sort_slice.
    intros ([k' v] & -> & Hin%(elem_of_range (H := order env)))%list_elem_of_fmap. eauto.
  - rewrite Hraw. assert (raw = canon_map (details_of e)) as ->.
    { apply map_eq. intros k. rewrite Hl. unfold canon_map. rewrite lookup_fmap. case_decide as Hk; [done|].
      destruct (details_of e !! k) as [v|] eqn:Hv; [|done]. exfalso. apply Hk. unfold sort_Strings. rewrite elem_of_sort_slice.
      apply list_elem_of_fmap. exists (k, v). split; [done|]. by apply (elem_of_range (H := order env)). }
    rewrite (encode_payload_json _ _ (details_of e)); [done..|]. intros k v Hv. by destruct (ok_details _ _ Hok k v Hv) as [_ [? _]].
Qed.
End payload.

(** *** Each field determines its value *)

#[export] Instance text_opt_inj : Inj (=) (=) text_opt.
Proof. intros s t. unfold text_opt. do 2 case_bool_decide; congruence. Qed.
#[export] Instance int_opt_inj : Inj (=) (=) int_opt.
Proof.
  intros n m. unfold int_opt. do 2 case_bool_decide; try congruence. intros [= Heq]. by apply (inj pretty) in Heq.
Qed.
#[export] Instance list_opt_inj {A} (g : A → json) : Inj (=) (=) g → Inj (=) (=) (list_opt g).
Proof.
  intros Hg [|x l] [|y l']; cbn; try done. intros [= H1 H2]. apply Hg in H1 as ->. f_equal. by apply (inj (fmap g)) in H2.
Qed.
#[export] Instance JString_inj : Inj (=) (=) JString.
Proof. by intros s t [= ->]. Qed.

Lemma object_members_inj fs gs :
  fs.*1 = gs.*1 → NoDup fs.*1 → JObject (members fs) = JObject (members gs) → fs = gs.
Proof. intros Hk Hnd Heq. apply members_inj; [done..|]. by injection Heq. Qed.
Ltac no_duplicates := apply (bool_decide_unpack _); by vm_compute.
Ltac members_eq H := apply object_members_inj in H; [|reflexivity|no_duplicates].

#[export] Instance link_json_inj : Inj (=) (=) link_json.
Proof.
  intros [a b c] [a' b' c'] Heq. members_eq Heq. injection Heq as H1 H2 H3.
  apply (inj text_opt) in H1, H2, H3. by subst.
Qed.
#[export] Instance signal_json_inj : Inj (=) (=) signal_json.
Proof.
  intros [a b] [a' b'] Heq. members_eq Heq. injection Heq as H1 H2.
  apply (inj text_opt) in H1. apply (inj int_opt) in H2. by subst.
Qed.
#[export] Instance mfa_json_inj : Inj (=) (=) mfa_json.
Proof.
  intros [a b c d] [a' b' c' d'] Heq. members_eq Heq. injection Heq as H1 H2 H3 H4.
  apply (inj (list_opt JString)) in H1, H2. apply (inj text_opt) in H4. cbn in H3.
  destruct c, c'; simplify_eq; done.
Qed.

(** *** What is printed is well formed *)

Definition field_ok (f : string * option json) : bool :=
  text_ok f.1 && match f.2 with Some j => decoded j | None => true end.
Lemma members_decoded fs : NoDup fs.*1 → forallb field_ok fs = true → decoded (JObject (members fs)) = true.
Proof.
  intros Hnd Hok. apply decoded_object. split; [by apply members_NoDup|].
  intros kv ([k o] & Hin & Ho)%list_elem_of_omap. cbn in Ho. destruct o as [j|]; [|done]. injection Ho as <-.
  rewrite forallb_forall in Hok. apply list_elem_of_In, Hok, andb_prop in Hin as [? ?]. done.
Qed.

Lemma digits_plain l : Forall (λ a, is_digit (byte_of a)) l → forallb (λ a, negb (stop a)) l = true.
Proof.
  induction 1 as [|a l Ha _ IH]; [done|]. cbn [forallb]. rewrite IH, andb_true_r. unfold stop.
  rewrite bool_decide_false; [done|]. intros Hin. destruct Ha as [H1 H2].
  rewrite !elem_of_cons, elem_of_nil in Hin. destruct Hin as [->|[->|[->|[]]]]; vm_compute in H1, H2; congruence.
Qed.
Lemma digit_start a : is_digit (byte_of a) → number_start a = true.
Proof.
  intros [H1 H2]. unfold number_start, within_. rewrite (bool_decide_true (48 ≤ _)%N), (bool_decide_true (_ ≤ 57)%N) by done.
  apply orb_true_r.
Qed.
Lemma digits_chars z : (0 ≤ z)%Z → ∃ a l, chars (pretty z) = a :: l ∧ Forall (λ a, is_digit (byte_of a)) (a :: l).
Proof.
  intros Hz. destruct (digits_spec z Hz) as (Hne & Hd & _). unfold digits in *.
  destruct (chars (pretty z)) as [|a l]; [done|]. exists a, l. split; [done|]. exact (proj1 (Forall_fmap _ _ _) Hd).
Qed.
Lemma is_number_pretty (z : Z) : is_number (pretty z) = true.
Proof.
  unfold is_number. destruct (decide (0 ≤ z)%Z) as [Hz|Hz].
  - destruct (digits_chars z Hz) as (a & l & -> & [Ha Hl]%Forall_cons). by rewrite digit_start, digits_plain.
  - destruct z as [|p|p]; [lia|lia|]. change (pretty (Z.neg p)) with (String "-" (pretty (Z.pos p))).
    destruct (digits_chars (Z.pos p)) as (a & l & Heq & Hl); [done|].
    cbn [String.list_ascii_of_string]. rewrite Heq. by rewrite digits_plain.
Qed.

Lemma text_field_ok k s : text_ok k = true → text_ok s = true → field_ok (k, text_opt s) = true.
Proof. intros Hk Hs. unfold field_ok, text_opt. cbn [fst snd]. rewrite Hk. by case_bool_decide. Qed.
Lemma int_field_ok k n : text_ok k = true → field_ok (k, int_opt n) = true.
Proof.
  intros Hk. unfold field_ok, int_opt. cbn [fst snd]. rewrite Hk. case_bool_decide; [done|]. apply is_number_pretty.
Qed.
Lemma list_field_ok {A} k (g : A → json) l :
  text_ok k = true → forallb (λ x, decoded (g x)) l = true → field_ok (k, list_opt g l) = true.
Proof.
  intros Hk Hl. unfold field_ok. cbn [fst snd]. rewrite Hk. destruct l as [|x l]; [done|]. unfold list_opt. cbn [andb].
  apply decoded_array. intros j (y & -> & Hy)%list_elem_of_fmap. rewrite forallb_forall in Hl. by apply Hl, list_elem_of_In.
Qed.

Ltac split_ok := repeat match goal with
  | |- _ && _ = true => apply andb_true_intro; split
  | H : _ && _ = true |- _ => apply andb_prop in H as [? ?]
  end.

Lemma forallb_mono {A} (f g : A → bool) l : (∀ x, f x = true → g x = true) → forallb f l = true → forallb g l = true.
Proof. intros Hfg. rewrite !forallb_forall. auto. Qed.
Lemma link_decoded l : text_ok (IDP l) && text_ok (Level l) && text_ok (TrustLink l) = true → decoded (link_json l) = true.
Proof. intros H. apply members_decoded; [no_duplicates|]. cbn [forallb]. split_ok; try done; by apply text_field_ok. Qed.
Lemma signal_decoded s : text_ok (rs_Signal s) = true → decoded (signal_json s) = true.
Proof.
  intros H. apply members_decoded; [no_duplicates|]. cbn [forallb]. split_ok; try done; [by apply text_field_ok|by apply int_field_ok].
Qed.
Lemma mfa_decoded m :
  forallb text_ok (Presented m) && forallb text_ok (Verified m) && text_ok (AALAchieved m) = true → decoded (mfa_json m) = true.
Proof.
  intros H. apply members_decoded; [no_duplicates|]. cbn [forallb]. split_ok; try done;
    [by apply list_field_ok|by apply list_field_ok|by destruct (StepUpSatisfied m)|by apply text_field_ok].
Qed.
Lemma details_decoded m :
  (∀ k v, m !! k = Some v → text_ok k = true ∧ decoded v = true) → decoded (JObject (details_members m)) = true.
Proof.
  intros Hm. unfold details_members. apply decoded_object. split.
  - rewrite <-list_fmap_compose. unfold compose. cbn [fst]. rewrite list_fmap_id. unfold sort_Strings. rewrite sort_slice_perm.
    apply NoDup_fst_map_to_list.
  - intros kv (k & -> & Hk)%list_elem_of_fmap. unfold sort_Strings in Hk. rewrite elem_of_sort_slice in Hk.
    apply list_elem_of_fmap in Hk as ([k' v] & -> & Hin%elem_of_map_to_list). cbn [fst snd].
    destruct (Hm _ _ Hin) as [? ?]. rewrite Hin. split; [done|]. by apply decoded_norm.
Qed.

(** *** What two events with the same payload share *)

Definition same_details (m1 m2 : gmap string json) : Prop := ∀ k, option_Forall2 json_equiv (m1 !! k) (m2 !! k).

Lemma details_members_lookup m k j :
  (k, j) ∈ details_members m ↔ ∃ v, m !! k = Some v ∧ j = norm v.
Proof.
  unfold details_members. rewrite list_elem_of_fmap. unfold sort_Strings. split.
  - intros (k' & [= -> ->] & Hk). rewrite elem_of_sort_slice in Hk.
    apply list_elem_of_fmap in Hk as ([k2 v] & -> & Hin%elem_of_map_to_list). cbn. rewrite Hin. by exists v.
  - intros (v & Hv & ->). exists k. rewrite Hv. split; [done|]. rewrite elem_of_sort_slice. apply list_elem_of_fmap.
    exists (k, v). split; [done|]. by apply elem_of_map_to_list.
Qed.
Lemma elem_of_keys {V} (m : gmap string V) k : k ∈ (map_to_list m).*1 ↔ is_Some (m !! k).
Proof.
  rewrite list_elem_of_fmap. split.
  - intros ([k' v] & -> & Hin%elem_of_map_to_list). eauto.
  - intros [v Hv]. exists (k, v). split; [done|]. by apply elem_of_map_to_list.
Qed.
Lemma details_opt_same m1 m2 :
  (∀ k v, m1 !! k = Some v → decoded v = true) → details_opt m1 = details_opt m2 ↔ same_details m1 m2.
Proof.
  intros Hd. assert (details_members m1 = details_members m2 → same_details m1 m2) as Hsame.
  { intros Heq k.
    assert (∀ j, (∃ v, m1 !! k = Some v ∧ j = norm v) ↔ (∃ v, m2 !! k = Some v ∧ j = norm v)) as Hl.
    { intros j. by rewrite <-!details_members_lookup, Heq. }
    destruct (m1 !! k) as [v|] eqn:H1.
    - destruct (proj1 (Hl (norm v))) as (w & Hw & Hn); [by exists v|]. rewrite Hw. constructor. by apply norm_equiv.
    - destruct (m2 !! k) as [w|] eqn:H2; [|constructor].
      destruct (proj2 (Hl (norm w))) as (v & Hv & _); [by exists w|done]. }
  unfold details_opt. split.
  - do 2 case_bool_decide; try done.
    + subst. intros _ k. rewrite lookup_empty. constructor.
    + intros [= Heq]. by apply Hsame.
  - intros Hs. assert (details_members m1 = details_members m2) as ->.
    { unfold details_members.
      assert (sort_Strings (map_to_list m1).*1 = sort_Strings (map_to_list m2).*1) as ->.
      { apply sort_Strings_perm. apply NoDup_Permutation; [apply NoDup_fst_map_to_list..|]. intros k.
        rewrite !elem_of_keys. specialize (Hs k). split; intros [v Hv]; rewrite Hv in Hs; inversion Hs; eauto. }
      apply list_fmap_ext. intros i k _. f_equal. specialize (Hs k). inversion Hs as [v w Hvw H1 H2|H1 H2]; cbn; [|done].
      apply equiv_norm; [|done]. by apply (Hd k). }
    assert (m1 = ∅ ↔ m2 = ∅) as He.
    { split; intros ->; apply map_eq; intros k; specialize (Hs k); rewrite lookup_empty in *; by inversion Hs. }
    by rewrite (bool_decide_ext _ _ He).
Qed.

Section exact.
Context {D : JsonDecoder} {C : UnicodeCase}.

(** What the payload holds of an event beside its details: identifiers count up
    to case. *)
Definition essence (e : SignedEvent) :=
  ((ToLower (se_CompanyID e), ToLower (se_ActorID e), ToLower (se_SubjectID e)),
   (se_Action e, se_Resource e, se_ResourceID e, se_IPAddress e, se_Decision e, se_ActorKind e, se_SubjectKind e),
   (se_MFA e, se_Federation e, default {| ra_Score := 0; ra_Signals := [] |} (se_Risk e))).
Definition same_event (e1 e2 : SignedEvent) : Prop :=
  essence e1 = essence e2 ∧ same_details (details_of e1) (details_of e2).

Lemma same_details_jti e1 e2 : same_details (details_of e1) (details_of e2) → eventJTI e1 = eventJTI e2.
Proof.
  intros Hs. specialize (Hs "jti"). unfold details_of, eventJTI in *.
  assert (∀ e, match se_Details e with Some m => match m !! "jti" with Some (JString s) => s | _ => "" end | None => "" end =
    match (default ∅ (se_Details e) : gmap string json) !! "jti" with Some (JString s) => s | _ => "" end) as Hj.
  { intros e. by destruct (se_Details e). }
  rewrite !Hj. inversion Hs as [v w Hvw H1 H2|H1 H2]; [|done]. by inversion Hvw.
Qed.

Lemma payload_fields_same e1 e2 iss1 iss2 t1 t2 :
  event_ok e1 iss1 →
  payload_fields (payload_of e1 iss1 t1 ∅) (details_of e1) = payload_fields (payload_of e2 iss2 t2 ∅) (details_of e2) ↔
  iss1 = iss2 ∧ t1 = t2 ∧ same_event e1 e2.
Proof.
  intros Hok. assert (∀ k v, details_of e1 !! k = Some v → decoded v = true) as Hd.
  { intros k v Hv. by destruct (ok_details _ _ Hok k v Hv) as [_ [? _]]. }
  unfold same_event, essence. rewrite <-details_opt_same by done. split.
  - unfold payload_fields. cbn [payload_of cp_EventID cp_Issuer cp_IssuedAt cp_JTI cp_EventType cp_TenantID cp_ActorID
      cp_ActorKind cp_SubjectID cp_SubjectKind cp_Resource cp_ResourceID cp_Decision cp_SourceIP cp_MFA cp_Federation
      cp_RiskScore cp_RiskSignals].
    intros Heq. injection Heq as _ Hiss%(inj text_opt) Ht%(inj int_opt) _ Ha%(inj text_opt) Hc%(inj text_opt)
      Hactor%(inj text_opt) Hak%(inj text_opt) Hs%(inj text_opt) Hsk%(inj text_opt) Hr%(inj text_opt) Hri%(inj text_opt)
      Hdec%(inj text_opt) Hip%(inj text_opt) Hm%(inj (fmap mfa_json)) Hf%(inj (list_opt link_json)) Hsc%(inj int_opt)
      Hsig%(inj (list_opt signal_json)) Hdet.
    split; [done|]. split; [done|]. split; [|done].
    rewrite Ha, Hc, Hactor, Hak, Hs, Hsk, Hr, Hri, Hdec, Hip, Hm, Hf. f_equal. f_equal.
    destruct (se_Risk e1) as [[]|], (se_Risk e2) as [[]|]; cbn in *; congruence.
  - intros (-> & -> & Hess & Hdet). pose proof (proj1 (details_opt_same _ _ Hd) Hdet) as Hsame.
    apply same_details_jti in Hsame. unfold payload_fields. rewrite Hdet.
    cbn [payload_of cp_EventID cp_Issuer cp_IssuedAt cp_JTI cp_EventType cp_TenantID cp_ActorID
      cp_ActorKind cp_SubjectID cp_SubjectKind cp_Resource cp_ResourceID cp_Decision cp_SourceIP cp_MFA cp_Federation
      cp_RiskScore cp_RiskSignals].
    injection Hess as H1 H2 H3 H4 H5 H6 H7 H8 H9 H10 H11 H12 H13. rewrite Hsame, H1, H2, H3, H4, H5, H6, H7, H8, H9, H10, H11, H12.
    destruct (se_Risk e1) as [[]|], (se_Risk e2) as [[]|]; cbn in H13; by simplify_eq.
Qed.

Lemma payload_decoded e iss t :
  event_ok e iss → decoded (JObject (members (payload_fields (payload_of e iss t ∅) (details_of e)))) = true.
Proof.
  intros [Htexts Hdet]. unfold payload_ok in Htexts. apply andb_prop in Htexts as [Htexts Hsignals].
  apply andb_prop in Htexts as [Htexts Hlinks]. apply andb_prop in Htexts as [Htexts Hmfa]. cbn [forallb] in Htexts.
  apply members_decoded; [no_duplicates|]. unfold payload_fields. cbn [forallb].
  split_ok; try done; try by apply text_field_ok.
  - by apply int_field_ok.
  - unfold field_ok. change (cp_MFA (payload_of e iss t ∅)) with (se_MFA e). change (cp_MFA (payload_of e iss 0 ∅)) with (se_MFA e) in Hmfa.
    destruct (se_MFA e); [by apply mfa_decoded|done].
  - apply list_field_ok; [done|]. by apply (forallb_mono _ _ _ link_decoded).
  - by apply int_field_ok.
  - apply list_field_ok; [done|]. by apply (forallb_mono _ _ _ signal_decoded).
  - unfold field_ok, details_opt. cbn [fst snd]. case_bool_decide; [done|]. apply details_decoded. intros k v Hv.
    destruct (Hdet k v Hv) as [? [? _]]. done.
Qed.

Lemma printed_text_inj j1 j2 :
  decoded j1 = true → decoded j2 = true →
  (Ok (unchars (print j1)) : outcome aerr string) = Ok (unchars (print j2)) → j1 = j2.
Proof.
  intros H1 H2 [= Heq]. apply (f_equal chars) in Heq. rewrite !String.list_ascii_of_string_of_list_ascii in Heq.
  by apply (print_inj j1 j2 [] []); rewrite ?Heq.
Qed.

(** The signed payload determines the issuer, the instant and the event, and is
    determined by them, up to the case of identifiers and the order of members in
    the details. *)
Theorem payload_exact env1 env2 e1 e2 iss1 iss2 t1 t2 :
  event_ok e1 iss1 → event_ok e2 iss2 →
  MarshalCanonical env1 e1 iss1 t1 = MarshalCanonical env2 e2 iss2 t2 ↔ iss1 = iss2 ∧ t1 = t2 ∧ same_event e1 e2.
Proof.
  intros H1 H2. rewrite !MarshalCanonical_json by done. rewrite <-payload_fields_same by done. split; [|by intros ->].
  intros Heq. apply object_members_inj; [done|no_duplicates|].
  by apply (printed_text_inj _ _ (payload_decoded _ _ _ H1) (payload_decoded _ _ _ H2)).
Qed.
End exact.

(** ** Signed events verify *)

Lemma b64_no_dot s : "."%char ∉ chars (b64 s).
Proof.
  unfold b64, base64_EncodeToString. rewrite String.list_ascii_of_string_of_list_ascii.
  intros (n & Hn & Hin)%list_elem_of_fmap. pose proof (sextets_bound (chars s)) as Hb.
  rewrite Forall_forall in Hb. destruct (base64_value_char URLAlphabet n (Hb n Hin)) as (Hv & _). by rewrite <-Hn in Hv.
Qed.
Lemma split_jws a b c : split_on "." (b64 a +:+ "." +:+ b64 b +:+ "." +:+ b64 c) = [b64 a; b64 b; b64 c].
Proof.
  change ("." +:+ b64 b +:+ "." +:+ b64 c) with (String "." (b64 b +:+ "." +:+ b64 c)).
  change ("." +:+ b64 c) with (String "." (b64 c)).
  rewrite !split_on_app, split_on_none; auto using b64_no_dot.
Qed.

Section verification.
Context {D : JsonDecoder} {C : UnicodeCase} {S : Sha256}.
Context (asn1_Unmarshal : string → option (Z * Z * string)).

(** The public key is that of the signer: it accepts what the signer signs. *)
Definition key_of (k : KMSSigner) (pub : PublicKey) : Prop :=
  match pub with
  | ECDSAKey verify =>
      SigningAlgorithm k = "ES256" ∧
      ∀ digest der, Sign k digest = Some der → der ≠ "" ∧
        ∃ r s, asn1_Unmarshal der = Some (Z.of_N r, Z.of_N s, "") ∧ (r < 256 ^ 32)%N ∧ (s < 256 ^ 32)%N ∧
          verify digest r s = true
  | RSAKey verify =>
      SigningAlgorithm k = "RS256" ∧ ∀ digest sig, Sign k digest = Some sig → verify digest sig = true
  end.

(** What the verifier gets for an event. *)
Definition received (e : SignedEvent) (details : option (gmap string json)) : SignedEvent :=
  {| se_CompanyID := ToLower (se_CompanyID e); se_ActorID := ToLower (se_ActorID e); se_Action := se_Action e;
     se_Resource := se_Resource e; se_ResourceID := se_ResourceID e; se_Details := details;
     se_IPAddress := se_IPAddress e; se_Decision := se_Decision e; se_ActorKind := se_ActorKind e;
     se_SubjectID := ToLower (se_SubjectID e); se_SubjectKind := se_SubjectKind e; se_MFA := se_MFA e;
     se_Federation := se_Federation e;
     se_Risk := match se_Risk e with
                | Some r => if bool_decide (ra_Score r = 0%Z ∧ ra_Signals r = []) then None else Some r
                | None => None
                end |}.

Lemma decode_details_reads m :
  (∀ k v, m !! k = Some v → reads_back v) → ∃ d, decode_details (canon_map m) = Some d ∧ same_details m d.
Proof.
  intros Hm. unfold decode_details. rewrite bool_decide_true.
  - eexists. split; [done|]. intros k. rewrite lookup_omap. unfold canon_map. rewrite lookup_fmap.
    destruct (m !! k) as [v|] eqn:Hv; [|constructor]. cbn. destruct (Hm k v Hv) as (_ & d & Hd & _ & Heq).
    rewrite Hd. by constructor.
  - intros k raw. unfold canon_map. rewrite lookup_fmap. destruct (m !! k) as [v|] eqn:Hv; [|done].
    intros [= <-]. destruct (Hm k v Hv) as (_ & d & Hd & _ & Heq). rewrite Hd. eauto.
Qed.

Lemma UnmarshalCanonical_payload p e issuer iat d :
  Unmarshal_payload p = Some (payload_of e issuer iat (canon_map (details_of e))) →
  decode_details (canon_map (details_of e)) = Some d →
  UnmarshalCanonical p =
    Ok (received e (if bool_decide (canon_map (details_of e) = ∅) then None else Some d), issuer, iat).
Proof.
  intros Hp Hd. unfold UnmarshalCanonical, received. rewrite Hp. cbn [cp_Details payload_of]. rewrite Hd.
  destruct (bool_decide (canon_map (details_of e) = ∅)); cbn; destruct (se_Risk e) as [[score signals]|]; cbn;
    rewrite ?(bool_decide_true (0%Z = 0%Z ∧ _)) by done; try done; by case_bool_decide.
Qed.

Lemma check_signature_ok k pub digest sig raw :
  key_of k pub → Sign k digest = Some sig → raw_signature asn1_Unmarshal (SigningAlgorithm k) sig = Ok raw →
  check_signature (SigningAlgorithm k) pub digest raw = Ok tt.
Proof.
  unfold check_signature, raw_signature. destruct pub as [verify|verify]; intros [-> Hk] Hsig.
  - rewrite !(bool_decide_true ("ES256" = "ES256")) by done. destruct (Hk _ _ Hsig) as (Hder & r & s & Hu & Hr & Hs & Hv).
    destruct (raw_halves asn1_Unmarshal sig 32 r s) as (raw' & Hraw & Hlen & H1 & H2); [lia|done..|].
    change (Z.of_nat 32) with 32%Z in Hraw. rewrite Hraw. intros [= <-]. rewrite bool_decide_true by done. cbn [negb].
    by rewrite H1, H2, Hv.
  - rewrite !(bool_decide_false ("RS256" = "ES256")) by done. intros [= <-]. by rewrite (Hk _ _ Hsig).
Qed.

(** What the store signs verifies under the key of its signer and gives back
    the event, with lower-case identifiers and the same details, the issuer and
    the second it was signed in. *)
Theorem signed_event_verifies env k pub issuer e jws :
  key_of k pub →
  (∀ key v, details_of e !! key = Some v → reads_back v) →
  Unmarshal_header (Marshal_header (jws_header k)) = Some (jws_header k) →
  (∀ p, MarshalCanonical env e issuer (now env / Second)%Z = Ok p →
     Unmarshal_payload p = Some (payload_of e issuer (now env / Second)%Z (canon_map (details_of e)))) →
  sign asn1_Unmarshal env k issuer e = Ok jws →
  ∃ details, VerifySignedEvent jws pub =
      Ok {| ve_Event := received e details; ve_Issuer := issuer; ve_IssuedAt := (now env / Second)%Z;
            ve_KID := KeyID k; ve_Alg := SigningAlgorithm k |} ∧
    same_details (details_of e) (default ∅ details).
Proof.
  intros Hkey Hreads Hheader Hpayload. unfold sign.
  destruct (MarshalCanonical env e issuer (now env / Second)) as [p|] eqn:Hm; [|done].
  destruct (Sign k _) as [sig|] eqn:Hsig; [|done].
  destruct (raw_signature _ _ _) as [raw|] eqn:Hraw; [|done]. intros [= <-].
  assert (allowed_alg (SigningAlgorithm k) = true) as Halg by (by destruct pub, Hkey as [-> _]).
  destruct (decode_details_reads (details_of e) Hreads) as (d & Hd & Hsame).
  exists (if bool_decide (canon_map (details_of e) = ∅) then None else Some d). split.
  - unfold VerifySignedEvent. rewrite !string_app_assoc, split_jws. unfold b64 at 1. rewrite base64_Decode_Encode, Hheader.
    assert (default "" (jws_header k !! "alg") = SigningAlgorithm k) as -> by (by unfold jws_header; rewrite lookup_insert_eq).
    assert (default "" (jws_header k !! "kid") = KeyID k) as ->
      by (by unfold jws_header; rewrite lookup_insert_ne, lookup_insert_eq by done).
    rewrite Halg. cbn [negb].
    unfold b64 at 1. rewrite base64_Decode_Encode. unfold b64 at 1. rewrite base64_Decode_Encode.
    rewrite (check_signature_ok _ _ _ _ _ Hkey Hsig Hraw).
    by rewrite (UnmarshalCanonical_payload _ _ _ _ _ (Hpayload p eq_refl) Hd).
  - case_bool_decide as He; [|done]. cbn. unfold canon_map in He. apply fmap_empty_inv in He. rewrite He.
    intros k'. rewrite lookup_empty. constructor.
Qed.
End verification.

(** ** Identifiers of events *)

Lemma bytes_lt_app p q x y : length p = length q → bytes_lt p q = true → bytes_lt (p ++ x) (q ++ y) = true.
Proof.
  revert q. induction p as [|a p IH]; intros [|b q] Hlen Hlt; try done. cbn in *.
  apply orb_prop in Hlt as [Hlt|[He Hlt]%andb_prop]; [by rewrite Hlt|]. rewrite He, IH by (lia || done). apply orb_true_r.
Qed.
Lemma bytes_lt_prefix p x y : bytes_lt (p ++ x) (p ++ y) = bytes_lt x y.
Proof. induction p as [|a p IH]; [done|]. cbn. by rewrite IH, bool_decide_false, bool_decide_true by lia. Qed.

Lemma land31 n : N.land n 31 = (n mod 32)%N.
Proof. change 31%N with (N.ones 5). by rewrite N.land_ones. Qed.
Lemma crockford_mono a b : (a mod 32 < b mod 32)%N → (byte_of (crockford a) < byte_of (crockford b))%N.
Proof.
  unfold crockford. rewrite !land31. assert (b mod 32 < 32)%N as Hy by (by apply N.mod_lt).
  generalize (a mod 32)%N, (b mod 32)%N, Hy. clear. intros x y Hy Hxy.
  pose (char i := byte_of (default "0"%char (crockfordAlphabet !! i))).
  pose (good i j := bool_decide (i < j)%nat && negb (bool_decide (char i < char j)%N)).
  assert (forallb (λ i, forallb (λ j, negb (good i j)) (seq 0 32)) (seq 0 32) = true) as Hb by (vm_compute; done).
  rewrite forallb_forall in Hb. specialize (Hb (N.to_nat x)). rewrite forallb_forall in Hb.
  specialize (Hb ltac:(apply in_seq; lia) (N.to_nat y) ltac:(apply in_seq; lia)). unfold good in Hb.
  rewrite (bool_decide_true (N.to_nat x < N.to_nat y)%nat) in Hb by lia. cbn [andb] in Hb. rewrite negb_involutive in Hb.
  by apply bool_decide_eq_true in Hb.
Qed.

Lemma crockford_time_length n ms : length (crockford_time n ms) = n.
Proof. revert ms. induction n as [|n IH]; intros ms; [done|]. cbn. rewrite length_app, IH. cbn. lia. Qed.

Lemma crockford_time_order n a b x y :
  (a < b)%N → (b < 32 ^ N.of_nat n)%N →
  bytes_lt (byte_of <$> crockford_time n a ++ x) (byte_of <$> crockford_time n b ++ y) = true.
Proof.
  revert a b x y. induction n as [|n IH]; intros a b x y Hab Hb; [cbn in Hb; lia|].
  rewrite Nat2N.inj_succ, N.pow_succ_r' in Hb. cbn [crockford_time]. rewrite <-!app_assoc.
  pose proof (N.div_mod' a 32). pose proof (N.div_mod' b 32).
  assert (a `mod` 32 < 32)%N by (by apply N.mod_lt). assert (b `mod` 32 < 32)%N by (by apply N.mod_lt).
  rewrite !N.shiftr_div_pow2. change (2 ^ 5)%N with 32%N.
  destruct (decide (a / 32 = b / 32)%N) as [Heq|Hne].
  - rewrite Heq, !fmap_app, bytes_lt_prefix. cbn [app fmap list_fmap bytes_lt]. 
    rewrite bool_decide_true; [done|]. apply crockford_mono. lia.
  - apply (IH _ _ ([crockford a] ++ x) ([crockford b] ++ y)); [|apply N.Div0.div_lt_upper_bound; lia].
    pose proof (N.Div0.div_le_mono a b 32). lia.
Qed.

(** Identifiers sort by the millisecond they were made in, whatever random
    bytes they end in. *)
Theorem jti_sorts_by_time env1 env2 draw1 draw2 :
  (0 ≤ now env1 / 1000000)%Z → (now env1 / 1000000 < now env2 / 1000000)%Z → (now env2 / 1000000 < 2 ^ 50)%Z →
  string_lt (generateJTI env1 draw1) (generateJTI env2 draw2) = true.
Proof.
  intros H0 Hlt Hmax. unfold string_lt, bytes, generateJTI. rewrite !String.list_ascii_of_string_of_list_ascii.
  rewrite !Z.mod_small by lia. apply crockford_time_order; [lia|]. change (32 ^ N.of_nat 10)%N with (2 ^ 50)%N. lia.
Qed.

(** ** The store *)

Lemma generateJTI_nonempty env draw : generateJTI env draw ≠ "".
Proof.
  unfold generateJTI. intros Heq. apply (f_equal chars) in Heq. rewrite String.list_ascii_of_string_of_list_ascii in Heq.
  apply (f_equal length) in Heq. rewrite length_app, crockford_time_length in Heq. cbn in Heq. lia.
Qed.
Lemma with_jti_spec env draw m : ∃ s, with_jti env draw m !! "jti" = Some (JString s) ∧ s ≠ "".
Proof.
  pose proof (generateJTI_nonempty env draw). unfold with_jti.
  destruct (m !! "jti") as [[| | |s| |]|] eqn:Hm; try (eexists; split; [apply lookup_insert_eq|done]).
  case_bool_decide; [eexists; split; [apply lookup_insert_eq|done]|by exists s].
Qed.

(** An event gets to the inner store whether or not it can be signed: with its
    signature, or with the text of the error; and it has an identifier. *)
Theorem stored_even_unsigned {D : JsonDecoder} {C : UnicodeCase} {S : Sha256} {U : UuidText} {St}
    asn1 wrapped error_text env draw (s : SignedStore St) create call st :
  st_CreateSignedAuditLog (inner s) = Some create →
  ∃ e, eventJTI e ≠ "" ∧ se_Action e = c_action call ∧ se_CompanyID e = uuid_String (c_companyID call) ∧
    CreateAuditLog asn1 wrapped error_text env draw s call st =
      match sign asn1 env (signer s) (issuerID s) e with
      | Ok jws => create e jws "" st
      | Err err => create e "" (error_text err) st
      end.
Proof.
  intros Hcreate. unfold CreateAuditLog. set (m := with_jti _ _ _). exists (event_of call m). split_and!; [|done|done|].
  - destruct (with_jti_spec env draw (if bool_decide (c_details call = "") then ∅ else object_map (Unmarshal (c_details call))))
      as (x & Hx & Hne). unfold eventJTI, event_of. cbn [se_Details]. fold m in Hx. by rewrite Hx.
  - rewrite Hcreate. by destruct (sign _ _ _ _ _).
Qed.

(** ** Witnesses *)

Definition ex_detail : json := JObject [("b", JBool true); ("a", JArray [JNull; JNumber "7"])].
Definition ex_details : gmap string json := <["z" := ex_detail]> {["jti" := JString "01H"]}.
Definition ex_event : SignedEvent :=
  {| se_CompanyID := "ABC"; se_ActorID := "def"; se_Action := "auth.user.login"; se_Resource := "user"; se_ResourceID := "1";
     se_Details := Some ex_details; se_IPAddress := ""; se_Decision := "allow"; se_ActorKind := "human"; se_SubjectID := "";
     se_SubjectKind := ""; se_MFA := Some {| Presented := ["totp"]; Verified := []; StepUpSatisfied := true; AALAchieved := "aal2" |};
     se_Federation := [{| IDP := "login.gov"; Level := ""; TrustLink := "t" |}];
     se_Risk := Some {| ra_Score := 20; ra_Signals := [{| rs_Signal := "new_device"; rs_Weight := 20 |}] |} |}.
(** The same in lower case, with the members of its detail swapped. *)
Definition ex_event' : SignedEvent :=
  {| se_CompanyID := "abc"; se_ActorID := "DEF"; se_Action := "auth.user.login"; se_Resource := "user"; se_ResourceID := "1";
     se_Details := Some (<["z" := norm ex_detail]> {["jti" := JString "01H"]}); se_IPAddress := ""; se_Decision := "allow";
     se_ActorKind := "human"; se_SubjectID := ""; se_SubjectKind := ""; se_MFA := se_MFA ex_event;
     se_Federation := se_Federation ex_event; se_Risk := se_Risk ex_event |}.
Definition ex_now : Env := {| now := 100 * Second; new_id := N.of_nat; order := canonical_range |}.
Definition ex_text (j : json) : string := unchars (canonicalizeDecoded j).

(** Decoders that know the texts of the examples. *)
Definition ex_payload_of (D : JsonDecoder) : canonicalPayload := payload_of (C := ascii_case) ex_event "aoid" 100 (canon_map ex_details).
Definition ex_decoder0 : JsonDecoder := {|
  Unmarshal := λ s, if bool_decide (s = ex_text ex_detail) then Some (norm ex_detail)
                    else if bool_decide (s = ex_text (JString "01H")) then Some (JString "01H") else None;
  Unmarshal_payload := λ _, None;
  Marshal_header := λ h, default "" (h !! "alg") +:+ default "" (h !! "kid");
  Unmarshal_header := λ s, if bool_decide (s = "ES256k1")
    then Some (<["alg" := "ES256"]> (<["kid" := "k1"]> {["typ" := "JWT"]})) else None |}.
Definition ex_payload_text : string :=
  match MarshalCanonical (D := ex_decoder0) (C := ascii_case) ex_now ex_event "aoid" 100 with Ok p => p | Err _ => "" end.
Definition ex_decoder : JsonDecoder := {|
  Unmarshal := @Unmarshal ex_decoder0;
  Unmarshal_payload := λ s, if bool_decide (s = ex_payload_text)
    then Some (payload_of (C := ascii_case) ex_event "aoid" 100 (canon_map ex_details)) else None;
  Marshal_header := @Marshal_header ex_decoder0;
  Unmarshal_header := @Unmarshal_header ex_decoder0 |}.

Lemma ex_reads k v z :
  norm z = norm ex_detail → decoded z = true → (<["z" := z]> {["jti" := JString "01H"]} : gmap string json) !! k = Some v →
  text_ok k = true ∧ reads_back (D := ex_decoder) v.
Proof.
  intros Hn Hz [[<- <-]|[_ [<- <-]%lookup_singleton_Some]]%lookup_insert_Some.
  - split; [by vm_compute|]. split; [done|]. exists (norm ex_detail). split.
    + rewrite canonical_print by done. rewrite Hn. by vm_compute.
    + split; [by vm_compute|]. apply norm_equiv. rewrite Hn. by vm_compute.
  - split; [by vm_compute|]. split; [by vm_compute|]. exists (JString "01H").
    split; [by vm_compute|]. split; [by vm_compute|constructor].
Qed.
Lemma ex_event_ok : event_ok (D := ex_decoder) (C := ascii_case) ex_event "aoid".
Proof. split; [by vm_compute|]. intros k v Hk. by apply (ex_reads k v ex_detail). Qed.
Lemma ex_event_ok' : event_ok (D := ex_decoder) (C := ascii_case) ex_event' "aoid".
Proof. split; [by vm_compute|]. intros k v Hk. apply (ex_reads k v (norm ex_detail)); [by vm_compute..|exact Hk]. Qed.

Lemma canonical_exact_witness :
  canonicalizeDecoded ex_detail = canonicalizeDecoded (norm ex_detail) ↔ json_equiv ex_detail (norm ex_detail).
Proof. apply (canonical_exact ex_detail (norm ex_detail)); by vm_compute. Defined.

Lemma payload_exact_witness :
  MarshalCanonical (D := ex_decoder) (C := ascii_case) ex_now ex_event "aoid" 100 =
    MarshalCanonical (D := ex_decoder) (C := ascii_case) ex_now ex_event' "aoid" 100 ↔
  "aoid" = "aoid" ∧ 100%Z = 100%Z ∧ same_event (C := ascii_case) ex_event ex_event'.
Proof.
  apply (payload_exact (D := ex_decoder) (C := ascii_case) ex_now ex_now ex_event ex_event' "aoid" "aoid" 100 100
    ex_event_ok ex_event_ok').
Defined.

Definition ex_signer : KMSSigner := {| KeyID := "k1"; SigningAlgorithm := "ES256"; Sign := λ _, Some "der" |}.
Definition ex_key : PublicKey := ECDSAKey (λ _ r s, bool_decide (r = 5 ∧ s = 70000)%N).
Definition plain_sha256 : Sha256 := {| sha256 := λ s, s |}.
Definition ex_jws : string :=
  match sign (D := ex_decoder) (C := ascii_case) (H := plain_sha256) ex_asn1 ex_now ex_signer "aoid" ex_event with
  | Ok jws => jws | Err _ => "" end.
Lemma signed_event_verifies_witness :
  ∃ details, VerifySignedEvent (D := ex_decoder) (H := plain_sha256) ex_jws ex_key =
      Ok {| ve_Event := received (C := ascii_case) ex_event details; ve_Issuer := "aoid"; ve_IssuedAt := 100;
            ve_KID := "k1"; ve_Alg := "ES256" |} ∧
    same_details ex_details (default ∅ details).
Proof.
  apply (signed_event_verifies (D := ex_decoder) (C := ascii_case) (S := plain_sha256) ex_asn1 ex_now ex_signer ex_key
    "aoid" ex_event ex_jws).
  - split; [done|]. intros digest der [= <-]. split; [done|]. exists 5%N, 70000%N. by split_and!.
  - intros k v Hk. by apply (ex_reads k v ex_detail).
  - by vm_compute.
  - intros p Hp. vm_compute in Hp. injection Hp as <-. by vm_compute.
  - by vm_compute.
Defined.

Lemma jti_sorts_by_time_witness :
  string_lt (generateJTI ex_now (λ _, 255%N))
    (generateJTI {| now := 101 * Second; new_id := N.of_nat; order := canonical_range |} (λ _, 0%N)) = true.
Proof.
  apply (jti_sorts_by_time ex_now {| now := 101 * Second; new_id := N.of_nat; order := canonical_range |}); by vm_compute.
Defined.

Definition ex_inner : AuditStore (list (string * string)) :=
  {| st_CreateAuditLog := λ _, modify id;
     st_CreateSignedAuditLog := Some (λ e jws err, modify (λ l, l ++ [(jws, err)])) |}.
Definition ex_call : AuditCall :=
  {| c_companyID := 3%N; c_actorID := 4%N; c_action := "auth.user.login"; c_resource := ""; c_resourceID := "";
     c_ipAddress := ""; c_details := "" |}.
Definition ex_failing : SignedStore (list (string * string)) :=
  {| inner := ex_inner; signer := {| KeyID := "k1"; SigningAlgorithm := "ES256"; Sign := λ _, None |}; issuerID := "aoid" |}.
Lemma stored_even_unsigned_witness :
  ∃ e, eventJTI e ≠ "" ∧ se_Action e = "auth.user.login" ∧ se_CompanyID e = uuid_String (UuidText := binary_uuid_text) 3%N ∧
    CreateAuditLog (D := ex_decoder) (C := ascii_case) (H := plain_sha256) (U := binary_uuid_text)
      ex_asn1 (λ _ _ _, "") (λ _, "error") ex_now (λ _, 0%N) ex_failing ex_call [] =
    match sign (D := ex_decoder) (C := ascii_case) (H := plain_sha256) ex_asn1 ex_now (signer ex_failing) "aoid" e with
    | Ok jws => modify (λ l, l ++ [(jws, "")]) []
    | Err err => modify (λ l, l ++ [("", "error")]) []
    end.
Proof.
  apply (stored_even_unsigned (D := ex_decoder) (C := ascii_case) (S := plain_sha256) (U := binary_uuid_text)
    ex_asn1 (λ _ _ _, "") (λ _, "error") ex_now (λ _, 0%N) ex_failing _ ex_call [] eq_refl).
Defined.
