(* ===== verification/AuditBuffer.v ===== *)
(** * The durable audit buffer and its forwarder (platform/audit/postgres_buffer.go, forwarder.go, otlp_sink.go)

    The buffer is a table; each method is the statement, or the transaction, of its
    SQL text.  A dequeue locks the rows it returns until its release commits or rolls
    back, and skips the rows others have locked.  The forwarder's three loops run
    at once, in as many processes as there are: [step] is the relation of their
    interleavings.  The sink is a parameter. *)

From S2P Require Import Prelude Encoding Json Signature AuditLog AuditSigned.

(** ** The table *)

(** A row; [None] is SQL's NULL. *)
Record Row : Type := {
  r_id : Z;
  r_jti : string;
  r_tenant_id : uuid;
  r_emitted_at : time;
  r_jws_compact : option string;
  r_payload_canonical : string;
  r_attempts : Z;
  r_last_attempt_at : option time;
  r_last_error : option string;
  r_sent_at : option time;
  r_signing_error : option string;
}.
(** The table, with the next value of its serial, and the identifiers of the rows that
    open transactions have locked. *)
Record Buffer : Type := { rows : list Row; next_id : Z; locked : gset Z }.

Record BufferedEvent : Type := {
  be_ID : Z;
  be_JTI : string;
  be_TenantID : uuid;
  be_EmittedAt : time;
  be_JWSCompact : string;
  be_PayloadCanon : string;
  be_Attempts : Z;
  be_LastAttemptAt : option time;
  be_LastError : string;
  be_SigningError : string;
}.
(** The columns of the two queries, with their [COALESCE]s. *)
Definition scan (r : Row) : BufferedEvent :=
  {| be_ID := r_id r; be_JTI := r_jti r; be_TenantID := r_tenant_id r; be_EmittedAt := r_emitted_at r;
     be_JWSCompact := default "" (r_jws_compact r); be_PayloadCanon := r_payload_canonical r;
     be_Attempts := r_attempts r; be_LastAttemptAt := r_last_attempt_at r;
     be_LastError := default "" (r_last_error r); be_SigningError := default "" (r_signing_error r) |}.

Inductive buffer_error : Type := ErrBufferFull.
#[export] Instance buffer_error_eq_dec : EqDecision buffer_error.
Proof. solve_decision. Defined.
Abbreviation berr := (goerr buffer_error) (only parsing).

Definition NULLIF (s : string) : option string := if bool_decide (s = "") then None else Some s.
Definition unsent (r : Row) : bool := bool_decide (r_sent_at r = None).

Definition set_rows (rs : list Row) (b : Buffer) : Buffer :=
  {| rows := rs; next_id := next_id b; locked := locked b |}.
Definition set_locked (l : gset Z) (b : Buffer) : Buffer :=
  {| rows := rows b; next_id := next_id b; locked := l |}.

Definition BufferDepth (b : Buffer) : Z := Z.of_nat (count unsent (rows b)).

(** The age of the oldest row not sent, in whole seconds as [EXTRACT(EPOCH ...)::bigint]
    rounds it. *)
Definition oldest (rs : list Row) : option time :=
  foldr (λ r acc, if unsent r then Some (match acc with Some t => r_emitted_at r `min` t | None => r_emitted_at r end)%Z else acc)
    None rs.
Definition OldestUnsentAge (e : Env) (b : Buffer) : duration :=
  match oldest (rows b) with
  | None => 0%Z
  | Some t => let secs := ((now e - t + Second `div` 2) `div` Second)%Z in
              ((if bool_decide (secs < 0)%Z then 0 else secs) * Second)%Z
  end.

(** [INSERT ... ON CONFLICT (jti) DO NOTHING]. *)
Definition insert_row (e : Env) (jti : string) (tenant : uuid) (jws payload serr : string) (b : Buffer) : Buffer :=
  if any (λ r, bool_decide (r_jti r = jti)) (rows b) then b
  else
    {| rows := rows b ++ [{| r_id := next_id b; r_jti := jti; r_tenant_id := tenant; r_emitted_at := now e;
         r_jws_compact := NULLIF jws; r_payload_canonical := payload; r_attempts := 0; r_last_attempt_at := None;
         r_last_error := None; r_sent_at := None; r_signing_error := NULLIF serr |}];
       next_id := (next_id b + 1)%Z; locked := locked b |}.

(** The queries of the two dequeues; rows emitted at the same instant, whose order
    SQL leaves open, are taken in the order of their identifiers. *)
Definition pending (r : Row) : bool :=
  unsent r && match r_jws_compact r with Some j => negb (bool_decide (j = "")) | None => false end.
Definition unsigned (r : Row) : bool :=
  unsent r && bool_decide (default "" (r_jws_compact r) = "") && bool_decide (is_Some (r_signing_error r)).
Definition earlier (r s : Row) : bool :=
  bool_decide (r_emitted_at r < r_emitted_at s)%Z
  || (bool_decide (r_emitted_at r = r_emitted_at s) && bool_decide (r_id r < r_id s)%Z).
Definition free (b : Buffer) (r : Row) : bool := negb (bool_decide (r_id r ∈ locked b)).
Definition select (which : Row → bool) (batchSize : nat) (b : Buffer) : list Row :=
  take batchSize (sort_slice earlier (filter (λ r, which r && free b r = true) (rows b))).
Definition dequeue (which : Row → bool) (batchSize : nat) (b : Buffer) : list BufferedEvent * Buffer :=
  let out := select which batchSize b in
  (scan <$> out, set_locked (locked b ∪ list_to_set (r_id <$> out)) b).
Definition DequeuePending : nat → Buffer → list BufferedEvent * Buffer := dequeue pending.
Definition DequeueUnsignedForResigningWithTx : nat → Buffer → list BufferedEvent * Buffer := dequeue unsigned.

(** What the releases write. *)
Definition ids_of (out : list BufferedEvent) : list Z := be_ID <$> out.
Definition update (ids : list Z) (f : Row → Row) (rs : list Row) : list Row :=
  (λ r, if bool_decide (r_id r ∈ ids) then f r else r) <$> rs.
Definition with_row (jws : option string) (serr : option string) (sent : option time) (r : Row) : Row :=
  {| r_id := r_id r; r_jti := r_jti r; r_tenant_id := r_tenant_id r; r_emitted_at := r_emitted_at r;
     r_jws_compact := jws; r_payload_canonical := r_payload_canonical r; r_attempts := r_attempts r;
     r_last_attempt_at := r_last_attempt_at r; r_last_error := r_last_error r; r_sent_at := sent;
     r_signing_error := serr |}.
Definition mark_sent (e : Env) (r : Row) : Row := with_row (r_jws_compact r) (r_signing_error r) (Some (now e)) r.
Definition mark_failed (e : Env) (err : string) (r : Row) : Row :=
  {| r_id := r_id r; r_jti := r_jti r; r_tenant_id := r_tenant_id r; r_emitted_at := r_emitted_at r;
     r_jws_compact := r_jws_compact r; r_payload_canonical := r_payload_canonical r; r_attempts := (r_attempts r + 1)%Z;
     r_last_attempt_at := Some (now e); r_last_error := Some err; r_sent_at := r_sent_at r;
     r_signing_error := r_signing_error r |}.
Definition clear_signing_error (r : Row) : Row := with_row (r_jws_compact r) None (r_sent_at r) r.
Definition set_jws (jws : string) (r : Row) : Row := with_row (Some jws) (r_signing_error r) (r_sent_at r) r.

Definition unlock (out : list BufferedEvent) (b : Buffer) : Buffer :=
  set_locked (locked b ∖ list_to_set (ids_of out)) b.
(** [committed] says whether the update and the commit work; a transaction that does not
    commit leaves the rows as they were. [failure] is the error of the sink. *)
Definition release_sent (e : Env) (committed : bool) (out : list BufferedEvent) (failure : option string) (b : Buffer) : Buffer :=
  let f := match failure with None => mark_sent e | Some err => mark_failed e err end in
  unlock out (if committed then set_rows (update (ids_of out) f (rows b)) b else b).
(** [jws] are the signatures [SetJWSInTx] has written in the transaction. *)
Definition apply_jws (jws : list (Z * string)) (rs : list Row) : list Row :=
  foldl (λ rs '(id, j), update [id] (set_jws j) rs) rs jws.
Definition release_resign (e : Env) (committed : bool) (out : list BufferedEvent) (jws : list (Z * string))
    (failure : option string) (b : Buffer) : Buffer :=
  let f := match failure with None => clear_signing_error | Some err => mark_failed e err end in
  unlock out (if committed then set_rows (update (ids_of out) f (apply_jws jws (rows b))) b else b).

(** [SetJWS], outside of a dequeue; it waits for the lock of the row. *)
Definition SetJWS (id : Z) (jws : string) (b : Buffer) : option Buffer :=
  if bool_decide (id ∈ locked b) then None
  else Some (set_rows (update [id] (with_row (Some jws) None None) (rows b)) b).

(** [Vacuum]'s delete. *)
Definition Day : duration := (24 * Hour)%Z.
Definition Vacuum (e : Env) (retentionDays : Z) : prog Buffer berr unit := λ b,
  if bool_decide (retentionDays ≤ 0)%Z then (Err (Errorf "audit: retentionDays must be > 0"), b)
  else
    let old r := match r_sent_at r with Some t => bool_decide (t < now e - retentionDays * Day)%Z | None => false end in
    (Ok tt, set_rows (filter (λ r, old r = false) (rows b)) b).

Section buffer.
Context {D : JsonDecoder} {C : UnicodeCase} {H : Sha256} {U : UuidText}.

(** [depth_known] and [inserts] say whether the two statements work. *)
Definition CreateSignedAuditLog (env : Env) (hardCap : Z) (depth_known inserts : bool) (e : SignedEvent)
    (jwsCompact signingError : string) : prog Buffer berr unit := λ b,
  if bool_decide (0 < hardCap)%Z && depth_known && bool_decide (hardCap ≤ BufferDepth b)%Z then (Err (Sentinel ErrBufferFull), b)
  else
    match uuid_Parse (se_CompanyID e) with
    | None => (Err (Errorf "audit: parse tenant_id"), b)
    | Some tenantID =>
        let jti := eventJTI e in
        if bool_decide (jti = "") then (Err (Errorf "audit: event missing jti"), b)
        else
          match MarshalCanonical env e "aoid" (now env / Second)%Z with
          | Err _ => (Err (Errorf "audit: canonicalize"), b)
          | Ok payload =>
              if inserts then (Ok tt, insert_row env jti tenantID jwsCompact payload signingError b)
              else (Err (Errorf "audit: insert buffered event"), b)
          end
    end.

(** [CreateAuditLog] of the buffer itself, for callers that do not sign. *)
Definition buffer_CreateAuditLog (env : Env) (draw : nat → N) (hardCap : Z) (depth_known inserts : bool) (call : AuditCall) :
    prog Buffer berr unit :=
  let detailsMap := with_jti env draw
    (if bool_decide (c_details call = "") then ∅ else object_map (Unmarshal (c_details call))) in
  CreateSignedAuditLog env hardCap depth_known inserts (event_of call detailsMap) "" "".

(** ** forwarder.go *)

Definition DefaultBackoff (n : Z) : duration :=
  if bool_decide (n ≤ 0)%Z then 0%Z
  else if bool_decide (n = 1)%Z then Second
  else if bool_decide (n = 2)%Z then (5 * Second)%Z
  else if bool_decide (n = 3)%Z then (30 * Second)%Z
  else if bool_decide (n = 4)%Z then (5 * Minute)%Z
  else if bool_decide (n = 5)%Z then (30 * Minute)%Z
  else Hour.

Record Forwarder : Type := { batchSize : nat; consecutiveFailures : Z }.
Definition NewForwarder : Forwarder := {| batchSize := 100; consecutiveFailures := 0 |}.
Definition SetBatchSize (n : Z) (f : Forwarder) : Forwarder :=
  if bool_decide (0 < n)%Z then {| batchSize := Z.to_nat n; consecutiveFailures := consecutiveFailures f |} else f.
Definition set_failures (n : Z) (f : Forwarder) : Forwarder := {| batchSize := batchSize f; consecutiveFailures := n |}.

(** The sink: [None] when it accepts the batch. *)
Abbreviation Sink := (list BufferedEvent → option string) (only parsing).

(** [drainOnce]: the new states, what the sink accepted, and how long the loop
    sleeps.  [committed] is the fate of the release. *)
Definition drainOnce (env : Env) (send : Sink) (committed : bool) (f : Forwarder) (b : Buffer) :
    Forwarder * Buffer * list BufferedEvent * duration :=
  let '(events, b) := DequeuePending (batchSize f) b in
  match events with
  | [] => (set_failures 0 f, release_sent env committed events None b, [], 0%Z)
  | _ =>
      match send events with
      | Some err =>
          let f := set_failures (wrap64 (consecutiveFailures f + 1)) f in
          (f, release_sent env committed events (Some err) b, [], DefaultBackoff (consecutiveFailures f))
      | None => (set_failures 0 f, release_sent env committed events None b, events, 0%Z)
      end
  end.

(** The loop of [resignOnce]: the signatures written; an event that does not parse or
    cannot be signed is skipped.  [resigner] is [SignForResign]; [writes] says whether
    [SetJWSInTx] works. *)
Definition resign_event (resigner : SignedEvent → outcome aerr string) (writes : bool) (be : BufferedEvent) :
    option (Z * string) :=
  match UnmarshalCanonical (be_PayloadCanon be) with
  | Err _ => None
  | Ok (e, _, _) =>
      match resigner e with
      | Err _ => None
      | Ok jws => if writes then Some (be_ID be, jws) else None
      end
  end.
Definition resigned (resigner : SignedEvent → outcome aerr string) (writes : bool) (events : list BufferedEvent) :
    list (Z * string) := omap (resign_event resigner writes) events.
Definition resignOnce (env : Env) (resigner : SignedEvent → outcome aerr string) (writes committed : bool) (f : Forwarder)
    (b : Buffer) : Buffer :=
  let '(events, b) := DequeueUnsignedForResigningWithTx (batchSize f) b in
  release_resign env committed events (resigned resigner writes events) None b.
End buffer.

(** ** otlp_sink.go

    [export] is the exporter on the [i]-th record; the first error since the reset is
    kept. *)
Record LogRecord : Type := { lr_Timestamp : time; lr_Body : string; lr_Attributes : list (string * string) }.
Definition log_record {U : UuidText} (ev : BufferedEvent) : LogRecord :=
  {| lr_Timestamp := be_EmittedAt ev; lr_Body := be_PayloadCanon ev;
     lr_Attributes := [("aoid.audit.jws", be_JWSCompact ev); ("aoid.audit.schema_version", "1");
       ("aoid.audit.jti", be_JTI ev); ("aoid.audit.tenant_id", uuid_String (be_TenantID ev)); ("service.name", "aoid")] |}.
Definition capture (lastErr : option string) (r : option string) : option string :=
  match lastErr with Some err => Some err | None => r end.
Definition OTLP_Send {U : UuidText} (export : LogRecord → option string) (flush : option string) (events : list BufferedEvent) :
    option string :=
  match events with
  | [] => None
  | _ =>
      let lastErr := foldl (λ err ev, capture err (export (log_record ev))) None events in
      match flush with
      | Some err => Some ("audit otlp sink: flush: " +:+ err)
      | None => (λ err, "audit otlp sink: export: " +:+ err) <$> lastErr
      end
  end.
