(* ===== verification/AuditBufferProofs.v ===== *)
(** * Properties of the durable audit buffer

    In every interleaving of emitters, forwarders and re-signers, with failing sinks,
    lost transactions and crashes, a signed event is in the buffer until the sink has
    accepted it; a row is in the hands of one transaction at a time; a sink that
    accepts empties the buffer.  An event whose signature fails twice stays in the
    buffer for ever. *)

From S2P Require Import Prelude Encoding Json Signature AuditLog AuditSigned AuditBuffer.

(** ** Interleavings *)

(** An open transaction: what it has dequeued, and what became of it. *)
Inductive transaction : Type :=
  | Forwarding (events : list BufferedEvent)
  | Accepted (events : list BufferedEvent)
  | Refused (events : list BufferedEvent) (err : string)
  | Resigning (events : list BufferedEvent).
Definition tx_events (tx : transaction) : list BufferedEvent :=
  match tx with Forwarding l | Accepted l | Refused l _ | Resigning l => l end.
Definition tx_rows (tx : transaction) : Row → bool :=
  match tx with Resigning _ => unsigned | _ => pending end.

(** The buffer, the open transactions, and what the sink has accepted. *)
Record world : Type := { buf : Buffer; open : gmap nat transaction; delivered : list BufferedEvent }.
Definition set_buf (b : Buffer) (w : world) : world := {| buf := b; open := open w; delivered := delivered w |}.
Definition set_tx (t : nat) (tx : transaction) (w : world) : world :=
  {| buf := buf w; open := <[t := tx]> (open w); delivered := delivered w |}.
Definition close_tx (t : nat) (b : Buffer) (w : world) : world :=
  {| buf := b; open := delete t (open w); delivered := delivered w |}.

Section interleavings.
Context {D : JsonDecoder} {C : UnicodeCase} {H : Sha256} {U : UuidText}.
Implicit Types (w : world) (b : Buffer) (r : Row).

Inductive step : world → world → Prop :=
  | step_create w env cap dk ins e jws serr :
      step w (set_buf (CreateSignedAuditLog env cap dk ins e jws serr (buf w)).2 w)
  | step_dequeue w t n :
      open w !! t = None →
      step w (set_tx t (Forwarding (DequeuePending n (buf w)).1) (set_buf (DequeuePending n (buf w)).2 w))
  | step_accept w t evs :
      open w !! t = Some (Forwarding evs) →
      step w {| buf := buf w; open := <[t := Accepted evs]> (open w); delivered := delivered w ++ evs |}
  | step_refuse w t evs err :
      open w !! t = Some (Forwarding evs) → step w (set_tx t (Refused evs err) w)
  | step_release w t evs env committed :
      open w !! t = Some (Accepted evs) → step w (close_tx t (release_sent env committed evs None (buf w)) w)
  | step_release_refused w t evs err env committed :
      open w !! t = Some (Refused evs err) → step w (close_tx t (release_sent env committed evs (Some err) (buf w)) w)
  | step_dequeue_unsigned w t n :
      open w !! t = None →
      step w (set_tx t (Resigning (DequeueUnsignedForResigningWithTx n (buf w)).1)
                (set_buf (DequeueUnsignedForResigningWithTx n (buf w)).2 w))
  | step_resign w t evs env resigner writes committed :
      open w !! t = Some (Resigning evs) →
      step w (close_tx t (release_resign env committed evs (resigned resigner writes evs) None (buf w)) w)
  | step_crash w t tx :
      open w !! t = Some tx → step w (close_tx t (unlock (tx_events tx) (buf w)) w)
  | step_vacuum w env days : step w (set_buf (Vacuum env days (buf w)).2 w).

Definition start : world := {| buf := {| rows := []; next_id := 1; locked := ∅ |}; open := ∅; delivered := [] |}.
Definition reachable (w : world) : Prop := rtc step start w.

(** *** The invariant *)

(** An event stands for a row: same identifier, and what is forwarded of it. *)
Definition stands_for (ev : BufferedEvent) (r : Row) : Prop :=
  be_ID ev = r_id r ∧ be_JTI ev = r_jti r ∧ be_JWSCompact ev = default "" (r_jws_compact r) ∧
  be_PayloadCanon ev = r_payload_canonical r.
Lemma scan_stands r : stands_for (scan r) r.
Proof. done. Qed.

Record ok (w : world) : Prop := {
  ok_ids : NoDup (r_id <$> rows (buf w));
  ok_next r : r ∈ rows (buf w) → (r_id r < next_id (buf w))%Z;
  ok_jti : NoDup (r_jti <$> rows (buf w));
  ok_locked t tx ev : open w !! t = Some tx → ev ∈ tx_events tx → be_ID ev ∈ locked (buf w);
  ok_disjoint t t' tx tx' ev ev' :
    open w !! t = Some tx → open w !! t' = Some tx' → ev ∈ tx_events tx → ev' ∈ tx_events tx' →
    be_ID ev = be_ID ev' → t = t';
  ok_nodup t tx : open w !! t = Some tx → NoDup (ids_of (tx_events tx));
  ok_rows t tx ev : open w !! t = Some tx → ev ∈ tx_events tx →
    ∃ r, r ∈ rows (buf w) ∧ stands_for ev r ∧ tx_rows tx r = true;
  ok_accepted t evs ev : open w !! t = Some (Accepted evs) → ev ∈ evs → ev ∈ delivered w;
  ok_sent r : r ∈ rows (buf w) → unsent r = false → ∃ ev, ev ∈ delivered w ∧ stands_for ev r;
}.

Lemma ok_start : ok start.
Proof.
  split; cbn; try (intros; by rewrite lookup_empty in *); try constructor; intros r Hr; by apply not_elem_of_nil in Hr.
Qed.

Lemma row_unique rs r r' : NoDup (r_id <$> rs) → r ∈ rs → r' ∈ rs → r_id r = r_id r' → r = r'.
Proof.
  intros Hnd [i Hi]%list_elem_of_lookup [j Hj]%list_elem_of_lookup Heq.
  assert (i = j) as ->; [|congruence].
  apply (NoDup_lookup (r_id <$> rs) i j (r_id r)); [done|by rewrite list_lookup_fmap, Hi|].
  rewrite list_lookup_fmap, Hj. cbn. congruence.
Qed.

(** A change of the rows with the given identifiers that keeps what identifies them. *)
Record touches (ids : list Z) (h : Row → Row) : Prop := {
  touches_id r : r_id (h r) = r_id r;
  touches_jti r : r_jti (h r) = r_jti r;
  touches_payload r : r_payload_canonical (h r) = r_payload_canonical r;
  touches_others r : r_id r ∉ ids → h r = r;
}.
Definition on_ids (ids : list Z) (f : Row → Row) (r : Row) : Row := if bool_decide (r_id r ∈ ids) then f r else r.
Lemma touches_on_ids ids f :
  (∀ r, r_id (f r) = r_id r ∧ r_jti (f r) = r_jti r ∧ r_payload_canonical (f r) = r_payload_canonical r) →
  touches ids (on_ids ids f).
Proof.
  intros Hf. unfold on_ids. split; intros r; try (case_bool_decide; [by destruct (Hf r) as (? & ? & ?)|done]).
Qed.
Lemma touches_id_fun ids : touches ids id.
Proof. done. Qed.
Lemma touches_compose ids h h' : touches ids h → touches ids h' → touches ids (h' ∘ h).
Proof.
  intros [H1 H2 H3 H4] [H1' H2' H3' H4']. split; intros r; unfold compose; rewrite ?H1', ?H2', ?H3'; try done.
  intros Hr. rewrite H4' by (by rewrite H1). by apply H4.
Qed.
Lemma touches_mono ids ids' h : ids ⊆ ids' → touches ids h → touches ids' h.
Proof. intros Hsub [H1 H2 H3 H4]. split; try done. intros r Hr. apply H4. set_solver. Qed.

(** What the signatures written in a transaction do to a row. *)
Definition sign_row (jws : list (Z * string)) (r : Row) : Row :=
  foldl (λ r '(id, j), on_ids [id] (set_jws j) r) r jws.
Lemma apply_jws_rows jws rs : apply_jws jws rs = sign_row jws <$> rs.
Proof.
  revert rs. induction jws as [|[id j] jws IH]; intros rs; [symmetry; apply list_fmap_id|].
  change (apply_jws ((id, j) :: jws) rs) with (apply_jws jws (update [id] (set_jws j) rs)).
  rewrite IH. unfold update. rewrite <-list_fmap_compose. done.
Qed.
Lemma touches_sign_row ids jws : (∀ x, x ∈ jws → x.1 ∈ ids) → touches ids (sign_row jws).
Proof.
  induction jws as [|[id j] jws IH]; intros Hj; [apply touches_id_fun|].
  change (sign_row ((id, j) :: jws)) with (sign_row jws ∘ on_ids [id] (set_jws j)). apply touches_compose.
  - apply (touches_mono [id]); [|by apply touches_on_ids].
    intros x ->%list_elem_of_singleton. apply (Hj (id, j)). by left.
  - apply IH. intros x Hx. apply Hj. by right.
Qed.
Lemma resigned_ids resigner writes evs x : x ∈ resigned resigner writes evs → x.1 ∈ ids_of evs.
Proof.
  intros (ev & Hev & Hx)%list_elem_of_omap. apply list_elem_of_fmap. exists ev. split; [|done].
  unfold resign_event in Hx. destruct (UnmarshalCanonical _) as [[[e ?] ?]|]; [|done].
  destruct (resigner e); [|done]. destruct writes; [|done]. by injection Hx as <-.
Qed.

Lemma fmap_kept {B} (p : Row → B) h (rs : list Row) : (∀ r, p (h r) = p r) → p <$> (h <$> rs) = p <$> rs.
Proof. intros Hp. rewrite <-list_fmap_compose. apply list_fmap_ext. intros i r _. apply Hp. Qed.

Lemma ids_elem evs x : x ∈ ids_of evs ↔ ∃ ev, ev ∈ evs ∧ be_ID ev = x.
Proof. unfold ids_of. rewrite list_elem_of_fmap. split; intros (ev & H1 & H2); eauto. Qed.

(** The end of a transaction. *)
Lemma ok_close w t tx h :
  ok w → open w !! t = Some tx → touches (ids_of (tx_events tx)) h →
  (∀ r, r ∈ rows (buf w) → r_id r ∈ ids_of (tx_events tx) → unsent (h r) = false →
     ∃ ev, ev ∈ delivered w ∧ stands_for ev (h r)) →
  ok (close_tx t (unlock (tx_events tx) (set_rows (h <$> rows (buf w)) (buf w))) w).
Proof.
  intros Hok Ht Hh Hsent. pose proof Hok as [H1 H2 H3 H4 H5 H6 H7 H8 H9].
  assert (∀ t' tx' ev, delete t (open w) !! t' = Some tx' → ev ∈ tx_events tx' →
    open w !! t' = Some tx' ∧ be_ID ev ∉ ids_of (tx_events tx)) as Hother.
  { intros t' tx' ev [Hne Ht']%lookup_delete_Some Hev. split; [done|]. intros (ev' & Hev' & Heq)%ids_elem.
    apply Hne. by apply (H5 t t' tx tx' ev' ev). }
  split; cbn [close_tx unlock set_rows set_locked buf rows next_id locked open delivered].
  - rewrite fmap_kept; [done|apply Hh].
  - intros r (r' & -> & Hr)%list_elem_of_fmap. rewrite (touches_id _ _ Hh). by apply H2.
  - rewrite fmap_kept; [done|apply Hh].
  - intros t' tx' ev Ht' Hev. destruct (Hother t' tx' ev Ht' Hev) as [Ho Hn].
    apply elem_of_difference. split; [by eapply H4|]. by rewrite elem_of_list_to_set.
  - intros t1 t2 tx1 tx2 ev1 ev2 Hd1 Hd2 He1 He2 Heq.
    destruct (Hother _ _ _ Hd1 He1), (Hother _ _ _ Hd2 He2). by eapply H5.
  - intros t' tx' [_ Ht']%lookup_delete_Some. by eapply H6.
  - intros t' tx' ev Ht' Hev. destruct (Hother t' tx' ev Ht' Hev) as [Ho Hn].
    destruct (H7 t' tx' ev Ho Hev) as (r & Hr & Hs & Hp). exists r. split; [|done].
    apply list_elem_of_fmap. exists r. split; [|done]. symmetry. apply Hh. destruct Hs as [<- _]. done.
  - intros t' evs ev [_ Ht']%lookup_delete_Some. by eapply H8.
  - intros r (r' & -> & Hr)%list_elem_of_fmap Hu. destruct (decide (r_id r' ∈ ids_of (tx_events tx))) as [Hin|Hin].
    + by apply Hsent.
    + rewrite (touches_others _ _ Hh) in * by done. by apply H9.
Qed.

(** A transaction that rolls back. *)
Lemma ok_rollback w t tx : ok w → open w !! t = Some tx → ok (close_tx t (unlock (tx_events tx) (buf w)) w).
Proof.
  intros Hok Ht. pose proof (ok_close w t tx id Hok Ht (touches_id_fun _)) as Hc. rewrite list_fmap_id in Hc.
  assert (set_rows (rows (buf w)) (buf w) = buf w) as Hb by (by destruct (buf w)). rewrite Hb in Hc. apply Hc.
  intros r Hr _ Hu. by apply (ok_sent w Hok).
Qed.

(** Dequeuing. *)
Lemma elem_of_select which n b r : r ∈ select which n b → r ∈ rows b ∧ which r = true ∧ r_id r ∉ locked b.
Proof.
  unfold select. intros Hr%subseteq_take. rewrite elem_of_sort_slice, list_elem_of_filter in Hr.
  destruct Hr as [[Hw Hf]%andb_prop Hr]. split; [done|]. split; [done|]. unfold free in Hf.
  by apply negb_true_iff, bool_decide_eq_false in Hf.
Qed.
Lemma select_NoDup which n b : NoDup (r_id <$> rows b) → NoDup (r_id <$> select which n b).
Proof.
  intros Hnd. unfold select. eapply sublist_NoDup; [|apply fmap_sublist, sublist_take].
  rewrite sort_slice_perm. eapply sublist_NoDup; [exact Hnd|]. apply fmap_sublist, sublist_filter.
Qed.

Lemma ok_open w t tx which n :
  ok w → open w !! t = None → (∀ r, which r = true → tx_rows tx r = true) → (∀ evs, tx ≠ Accepted evs) →
  tx_events tx = (dequeue which n (buf w)).1 →
  ok (set_tx t tx (set_buf (dequeue which n (buf w)).2 w)).
Proof.
  intros Hok Ht Hwhich Hkind Hevs. pose proof Hok as [H1 H2 H3 H4 H5 H6 H7 H8 H9]. unfold dequeue in *. cbn in Hevs.
  assert (∀ ev, ev ∈ tx_events tx → ∃ r, ev = scan r ∧ r ∈ rows (buf w) ∧ tx_rows tx r = true ∧ be_ID ev ∉ locked (buf w)) as Hsel.
  { rewrite Hevs. intros ev (r & -> & Hr)%list_elem_of_fmap. apply elem_of_select in Hr as (Hr & Hw & Hl).
    exists r. split_and!; auto. }
  split; cbn [set_tx set_buf set_locked buf rows next_id locked open delivered]; try done.
  - intros t' tx' ev. destruct (decide (t' = t)) as [->|Hne].
    + rewrite lookup_insert_eq. intros [= <-] Hev. apply elem_of_union_r, elem_of_list_to_set.
      rewrite Hevs in Hev. apply list_elem_of_fmap in Hev as (r & -> & Hr). apply list_elem_of_fmap. by exists r.
    + rewrite lookup_insert_ne by done. intros Ho Hev. apply elem_of_union_l. by eapply H4.
  - intros t1 t2 tx1 tx2 ev1 ev2. destruct (decide (t1 = t)) as [->|Hne1], (decide (t2 = t)) as [->|Hne2];
      rewrite ?lookup_insert_eq, ?lookup_insert_ne by done; try done.
    + intros [= <-] Ho He1 He2 Heq. destruct (Hsel ev1 He1) as (_ & _ & _ & _ & Hl). destruct Hl. rewrite Heq. by eapply H4.
    + intros Ho [= <-] He1 He2 Heq. destruct (Hsel ev2 He2) as (_ & _ & _ & _ & Hl). destruct Hl. rewrite <-Heq. by eapply H4.
    + apply H5.
  - intros t' tx'. destruct (decide (t' = t)) as [->|Hne]; rewrite ?lookup_insert_eq, ?lookup_insert_ne by done; [|apply H6].
    intros [= <-]. rewrite Hevs. unfold ids_of. rewrite <-list_fmap_compose. by apply (select_NoDup which n (buf w)).
  - intros t' tx' ev. destruct (decide (t' = t)) as [->|Hne]; rewrite ?lookup_insert_eq, ?lookup_insert_ne by done; [|apply H7].
    intros [= <-] Hev. destruct (Hsel ev Hev) as (r & -> & Hr & Hw & _). by exists r.
  - intros t' evs ev. destruct (decide (t' = t)) as [->|Hne]; rewrite ?lookup_insert_eq, ?lookup_insert_ne by done; [|apply H8].
    intros [= ->]. by destruct (Hkind evs).
Qed.

(** The answer of the sink. *)
Lemma ok_answer w t evs tx :
  ok w → open w !! t = Some (Forwarding evs) → tx_events tx = evs → (∀ r, tx_rows tx r = pending r) →
  ok {| buf := buf w; open := <[t := tx]> (open w);
        delivered := match tx with Accepted _ => delivered w ++ evs | _ => delivered w end |}.
Proof.
  intros Hok Ht Hevs Hrows. pose proof Hok as [H1 H2 H3 H4 H5 H6 H7 H8 H9].
  assert (∀ t' tx', <[t := tx]> (open w) !! t' = Some tx' →
    ∃ tx0, open w !! t' = Some tx0 ∧ tx_events tx0 = tx_events tx' ∧ (∀ r, tx_rows tx0 r = tx_rows tx' r) ∧
      (t' = t ∨ tx' = tx0)) as Hold.
  { intros t' tx'. destruct (decide (t' = t)) as [->|Hne].
    - rewrite lookup_insert_eq. intros [= <-]. exists (Forwarding evs). split_and!; auto.
    - rewrite lookup_insert_ne by done. intros Ho. exists tx'. split_and!; auto. }
  assert (∀ ev, ev ∈ delivered w → ev ∈ match tx with Accepted _ => delivered w ++ evs | _ => delivered w end) as Hmore
    by (intros ev Hev; destruct tx; try done; apply elem_of_app; by left).
  split; cbn [buf open delivered]; try done.
  - intros t' tx' ev (tx0 & Ho & <- & _)%Hold. by eapply H4.
  - intros t1 t2 tx1 tx2 ev1 ev2 (tx1' & Ho1 & <- & _)%Hold (tx2' & Ho2 & <- & _)%Hold. by eapply H5.
  - intros t' tx' (tx0 & Ho & <- & _)%Hold. by eapply H6.
  - intros t' tx' ev (tx0 & Ho & <- & Hr & _)%Hold Hev. destruct (H7 _ _ _ Ho Hev) as (r & ? & ? & Hp). exists r.
    by rewrite <-Hr.
  - intros t' evs' ev Ho' Hev. destruct (decide (t' = t)) as [->|Hne].
    + rewrite lookup_insert_eq in Ho'. injection Ho' as ->. cbn in Hevs. subst evs'. apply elem_of_app. by right.
    + rewrite lookup_insert_ne in Ho' by done. apply Hmore. by eapply H8.
  - intros r Hr Hu. destruct (H9 r Hr Hu) as (ev & Hev & Hs). exists ev. split; [by apply Hmore|done].
Qed.

(** Inserting. *)
Lemma ok_insert w env jti tenant jws payload serr :
  ok w → ok (set_buf (insert_row env jti tenant jws payload serr (buf w)) w).
Proof.
  intros Hok. pose proof Hok as [H1 H2 H3 H4 H5 H6 H7 H8 H9]. unfold insert_row.
  destruct (any _ _) eqn:Hany; [by destruct w|]. rewrite any_false in Hany.
  split; cbn [set_buf buf rows next_id locked open delivered]; try done.
  - rewrite fmap_app. apply NoDup_app. split; [done|]. split; [|by apply NoDup_singleton].
    intros x (r & -> & Hr)%list_elem_of_fmap Hx. apply list_elem_of_singleton in Hx. cbn in Hx. apply H2 in Hr. lia.
  - intros r [Hr|Hr]%elem_of_app; [|apply list_elem_of_singleton in Hr as ->]; [|cbn; lia]. apply H2 in Hr. lia.
  - rewrite fmap_app. apply NoDup_app. split; [done|]. split; [|by apply NoDup_singleton].
    intros x (r & -> & Hr)%list_elem_of_fmap Hx. apply list_elem_of_singleton in Hx. cbn in Hx.
    apply Hany in Hr. by apply bool_decide_eq_false in Hr.
  - intros t tx ev Ho Hev. destruct (H7 t tx ev Ho Hev) as (r & Hr & ?). exists r. split; [|done]. apply elem_of_app. by left.
  - intros r [Hr|Hr]%elem_of_app; [|apply list_elem_of_singleton in Hr as ->]; [by apply H9|done].
Qed.

Lemma create_cases env cap dk ins e jws serr b :
  (CreateSignedAuditLog env cap dk ins e jws serr b).2 = b ∨
  ∃ tenant payload, (CreateSignedAuditLog env cap dk ins e jws serr b).2 = insert_row env (eventJTI e) tenant jws payload serr b.
Proof.
  unfold CreateSignedAuditLog. destruct (bool_decide (0 < cap)%Z && dk && bool_decide (cap ≤ BufferDepth b)%Z); [by left|]. destruct (uuid_Parse (se_CompanyID e)) as [tenant|]; [|by left].
  destruct (bool_decide (eventJTI e = "")); [by left|]. destruct (MarshalCanonical env e "aoid" (now env / Second)%Z) as [payload|]; [|by left].
  destruct ins; [right|by left]. by exists tenant, payload.
Qed.
Lemma vacuum_cases env days b :
  (Vacuum env days b).2 = b ∨
  ∃ old, (∀ r, old r = true → unsent r = false) ∧ (Vacuum env days b).2 = set_rows (filter (λ r, old r = false) (rows b)) b.
Proof.
  unfold Vacuum. case_bool_decide; [by left|]. right. eexists. split; [|done].
  intros r. cbn. unfold unsent. destruct (r_sent_at r); [intros _; by apply bool_decide_false|done].
Qed.

Lemma ok_filter w old :
  ok w → (∀ r, old r = true → unsent r = false) →
  ok (set_buf (set_rows (filter (λ r, old r = false) (rows (buf w))) (buf w)) w).
Proof.
  intros Hok Hold. pose proof Hok as [H1 H2 H3 H4 H5 H6 H7 H8 H9].
  split; cbn [set_buf set_rows buf rows next_id locked open delivered]; try done.
  - eapply sublist_NoDup; [exact H1|]. apply fmap_sublist, sublist_filter.
  - intros r [_ Hr]%list_elem_of_filter. by apply H2.
  - eapply sublist_NoDup; [exact H3|]. apply fmap_sublist, sublist_filter.
  - intros t tx ev Ho Hev. destruct (H7 t tx ev Ho Hev) as (r & Hr & Hs & Hp). exists r. split; [|done].
    apply list_elem_of_filter. split; [|done]. destruct (old r) eqn:Ho'; [|done]. apply Hold in Ho'.
    destruct tx; cbn in Hp; unfold pending, unsigned in Hp; by rewrite Ho' in Hp.
  - intros r [_ Hr]%list_elem_of_filter. by apply H9.
Qed.

(** *** Releases *)

Lemma release_sent_rows env committed evs failure b :
  ∃ h, release_sent env committed evs failure b = unlock evs (set_rows (h <$> rows b) b) ∧ touches (ids_of evs) h ∧
    (∀ r, r_id r ∈ ids_of evs → r_jws_compact (h r) = r_jws_compact r ∧
       (is_Some failure ∨ committed = false → r_sent_at (h r) = r_sent_at r)).
Proof.
  unfold release_sent. destruct committed.
  - exists (on_ids (ids_of evs) (match failure with None => mark_sent env | Some err => mark_failed env err end)).
    split; [done|]. split; [apply touches_on_ids; by destruct failure|].
    intros r Hr. unfold on_ids. rewrite bool_decide_true by done. destruct failure; cbn; split; try done.
    by intros [[]|].
  - exists id. split; [by rewrite list_fmap_id; destruct b|]. by split; [apply touches_id_fun|].
Qed.

Lemma ok_release_sent w t tx evs env committed failure :
  ok w → open w !! t = Some tx → tx_events tx = evs → (is_Some failure ∨ tx = Accepted evs) →
  ok (close_tx t (release_sent env committed evs failure (buf w)) w).
Proof.
  intros Hok Ht <- Hkind. destruct (release_sent_rows env committed (tx_events tx) failure (buf w)) as (h & -> & Hh & Hsent).
  apply ok_close; [done..|]. intros r Hr Hin Hu. destruct (Hsent r Hin) as [Hjws Hs]. destruct Hkind as [Hf|Hacc].
  - destruct (ok_sent w Hok r Hr) as (ev & Hev & Hst).
    { revert Hu. unfold unsent. rewrite Hs by auto. done. }
    exists ev. split; [done|]. destruct Hst as (E1 & E2 & E3 & E4).
    split; [by rewrite (touches_id _ _ Hh)|]. split; [by rewrite (touches_jti _ _ Hh)|]. split; [by rewrite Hjws|].
    by rewrite (touches_payload _ _ Hh).
  - apply ids_elem in Hin as (ev & Hev & Hid). destruct (ok_rows w Hok t tx ev Ht Hev) as (r' & Hr' & Hst & _).
    assert (r' = r) as -> by (apply (row_unique (rows (buf w))); [apply Hok|done|done|destruct Hst; congruence]).
    exists ev. split; [rewrite Hacc in Ht, Hev; by eapply ok_accepted|]. destruct Hst as (E1 & E2 & E3 & E4).
    split; [by rewrite (touches_id _ _ Hh)|]. split; [by rewrite (touches_jti _ _ Hh)|]. split; [by rewrite Hjws|].
    by rewrite (touches_payload _ _ Hh).
Qed.

Lemma sign_row_cons id j jws r : sign_row ((id, j) :: jws) r = sign_row jws (on_ids [id] (set_jws j) r).
Proof. done. Qed.
Lemma sign_row_sent jws r : r_sent_at (sign_row jws r) = r_sent_at r.
Proof.
  revert r. induction jws as [|[id j] jws IH]; intros r; [done|]. rewrite sign_row_cons, IH. unfold on_ids. by case_bool_decide.
Qed.
Lemma sign_row_others jws r : r_id r ∉ jws.*1 → r_jws_compact (sign_row jws r) = r_jws_compact r.
Proof.
  revert r. induction jws as [|[id j] jws IH]; intros r Hr; [done|]. cbn in Hr. apply not_elem_of_cons in Hr as [Hne Hr].
  rewrite sign_row_cons. unfold on_ids. rewrite bool_decide_false by (by intros ?%list_elem_of_singleton). by apply IH.
Qed.

(** A re-signing transaction leaves alone what is not signed anew. *)
Lemma release_resign_rows env committed evs jws failure b :
  (∀ x, x ∈ jws → x.1 ∈ ids_of evs) →
  ∃ h, release_resign env committed evs jws failure b = unlock evs (set_rows (h <$> rows b) b) ∧ touches (ids_of evs) h ∧
    (∀ r, r_sent_at (h r) = r_sent_at r) ∧
    (∀ r, r_id r ∉ jws.*1 → r_jws_compact (h r) = r_jws_compact r) ∧
    (committed = true → failure = None → ∀ r, r_id r ∈ ids_of evs → r_signing_error (h r) = None).
Proof.
  intros Hids. unfold release_resign. destruct committed.
  - set (f := match failure with None => clear_signing_error | Some err => mark_failed env err end).
    exists (on_ids (ids_of evs) f ∘ sign_row jws). split; [|split; [|split; [|split]]].
    + rewrite apply_jws_rows. unfold update. rewrite <-list_fmap_compose. done.
    + apply touches_compose; [by apply touches_sign_row|]. apply touches_on_ids. subst f. by destruct failure.
    + assert (∀ r, r_sent_at (f r) = r_sent_at r) as Hf by (subst f; by destruct failure).
      intros r. unfold compose, on_ids. case_bool_decide; by rewrite ?Hf, sign_row_sent.
    + assert (∀ r, r_jws_compact (f r) = r_jws_compact r) as Hf by (subst f; by destruct failure).
      intros r Hr. unfold compose, on_ids. case_bool_decide; by rewrite ?Hf, sign_row_others.
    + intros _ -> r Hr. unfold compose, on_ids. rewrite bool_decide_true; [done|].
      by rewrite (touches_id _ _ (touches_sign_row _ jws Hids)).
  - exists id. split; [by rewrite list_fmap_id; destruct b|]. by split; [apply touches_id_fun|].
Qed.

Lemma ok_release_resign w t evs env committed resigner writes :
  ok w → open w !! t = Some (Resigning evs) →
  ok (close_tx t (release_resign env committed evs (resigned resigner writes evs) None (buf w)) w).
Proof.
  intros Hok Ht. destruct (release_resign_rows env committed evs (resigned resigner writes evs) None (buf w)) as
    (h & -> & Hh & Hsent & _); [intros x; apply resigned_ids|].
  apply (ok_close w t (Resigning evs)); [done..|]. intros r Hr (ev & Hev & Hid)%ids_elem Hu. exfalso.
  destruct (ok_rows w Hok t _ ev Ht Hev) as (r' & Hr' & Hst & Hp).
  assert (r' = r) as -> by (apply (row_unique (rows (buf w))); [apply Hok|done|done|destruct Hst; congruence]).
  cbn in Hp. unfold unsigned, unsent in *. rewrite Hsent in Hu. by rewrite Hu in Hp.
Qed.

Lemma step_ok w w' : ok w → step w w' → ok w'.
Proof.
  intros Hok Hstep. destruct Hstep.
  - destruct (create_cases env cap dk ins e jws serr (buf w)) as [->|(tenant & payload & ->)]; [by destruct w|by apply ok_insert].
  - by apply ok_open.
  - by apply (ok_answer w t evs (Accepted evs)).
  - by apply (ok_answer w t evs (Refused evs err)).
  - by eapply ok_release_sent; [done|done|done|right].
  - by eapply ok_release_sent; [done|done|done|left].
  - by apply ok_open.
  - by apply ok_release_resign.
  - by apply ok_rollback.
  - destruct (vacuum_cases env days (buf w)) as [->|(old & Hold & ->)]; [by destruct w|by apply ok_filter].
Qed.
Lemma reachable_ok w : reachable w → ok w.
Proof. intros Hr. eapply (rtc_preserves step ok); [intros; by eapply step_ok|exact Hr|exact ok_start]. Qed.

(** *** Signed events are not lost *)

Lemma create_rows env cap dk ins e jws serr b r :
  r ∈ rows b → r ∈ rows (CreateSignedAuditLog env cap dk ins e jws serr b).2.
Proof.
  intros Hr. destruct (create_cases env cap dk ins e jws serr b) as [->|(tenant & payload & ->)]; [done|].
  unfold insert_row. destruct (any _ _); [done|]. apply elem_of_app. by left.
Qed.
Lemma vacuum_rows env days b r : r ∈ rows b → unsent r = true → r ∈ rows (Vacuum env days b).2.
Proof.
  intros Hr Hu. destruct (vacuum_cases env days b) as [->|(old & Hold & ->)]; [done|].
  apply list_elem_of_filter. split; [|done]. destruct (old r) eqn:Ho; [|done]. apply Hold in Ho. congruence.
Qed.
Lemma pending_unsent r : pending r = true → unsent r = true.
Proof. by intros [? _]%andb_prop. Qed.
Lemma unsigned_unsent r : unsigned r = true → unsent r = true.
Proof. by intros [[? _]%andb_prop _]%andb_prop. Qed.

(** The row of an event of a transaction. *)
Lemma ok_row_of w t tx ev r :
  ok w → open w !! t = Some tx → ev ∈ tx_events tx → r ∈ rows (buf w) → be_ID ev = r_id r →
  stands_for ev r ∧ tx_rows tx r = true.
Proof.
  intros Hok Ht Hev Hr Hid. destruct (ok_rows w Hok t tx ev Ht Hev) as (r' & Hr' & Hst & Hp).
  assert (r' = r) as -> by (apply (row_unique (rows (buf w))); [apply Hok|done|done|destruct Hst; congruence]). done.
Qed.

Definition survives w r : Prop :=
  (∃ r', r' ∈ rows (buf w) ∧ stands_for (scan r) r' ∧ pending r' = true) ∨ (∃ ev, ev ∈ delivered w ∧ stands_for ev r).

Lemma delivered_step w w' ev : step w w' → ev ∈ delivered w → ev ∈ delivered w'.
Proof. destruct 1; try done. intros Hev. apply elem_of_app. by left. Qed.

Lemma pending_step w w' r : ok w → r ∈ rows (buf w) → pending r = true → step w w' → survives w' r.
Proof.
  intros Hok Hr Hp Hstep. assert (∀ w1, r ∈ rows (buf w1) → survives w1 r) as Hsame by (intros w1 H1; left; by exists r).
  pose proof (pending_unsent r Hp) as Hu. destruct Hstep; try by apply Hsame.
  - apply Hsame. by apply create_rows.
  - destruct (release_sent_rows env committed evs None (buf w)) as (h & Heq & Hh & Hs).
    destruct (decide (r_id r ∈ ids_of evs)) as [(ev & Hev & Hid)%ids_elem|Hn].
    + right. exists ev. destruct (ok_row_of w t (Accepted evs) ev r) as [Hst _]; [done..|].
      split; [by apply (ok_accepted w Hok t evs)|done].
    + apply Hsame. cbn [close_tx buf]. rewrite Heq. apply list_elem_of_fmap. exists r. by rewrite (touches_others _ _ Hh).
  - destruct (release_sent_rows env committed evs (Some err) (buf w)) as (h & Heq & Hh & Hs).
    left. exists (h r). split; [cbn [close_tx buf]; rewrite Heq; apply list_elem_of_fmap; by exists r|].
    destruct (decide (r_id r ∈ ids_of evs)) as [Hin|Hn]; [|by rewrite (touches_others _ _ Hh)].
    destruct (Hs r Hin) as [Hjws Hsent]. split.
    + split_and!; cbn; by rewrite ?(touches_id _ _ Hh), ?(touches_jti _ _ Hh), ?(touches_payload _ _ Hh), ?Hjws.
    + revert Hp. unfold pending, unsent. by rewrite Hjws, Hsent by eauto.
  - destruct (release_resign_rows env committed evs (resigned resigner writes evs) None (buf w)) as (h & Heq & Hh & _);
      [intros x; apply resigned_ids|].
    apply Hsame. cbn [close_tx buf]. rewrite Heq. apply list_elem_of_fmap. exists r. split; [|done]. symmetry. apply Hh.
    intros (ev & Hev & Hid)%ids_elem. destruct (ok_row_of w t (Resigning evs) ev r) as [_ Hun]; [done..|].
    cbn in Hun. unfold pending, unsigned in *. destruct (r_jws_compact r) as [j|]; [|by rewrite andb_false_r in Hp].
    cbn in Hun. apply andb_prop in Hp as [_ Hp]. by destruct (bool_decide (j = "")); rewrite ?andb_false_r in Hun.
  - apply Hsame. by apply vacuum_rows.
Qed.

(** C25: however emitters, forwarders, re-signers and vacuums interleave, and whatever
    fails or crashes, a signed event that is in the buffer stays there, to be
    forwarded, until the sink has accepted it. *)
Theorem signed_event_never_lost w w' r :
  reachable w → r ∈ rows (buf w) → pending r = true → rtc step w w' → survives w' r.
Proof.
  intros Hw%reachable_ok Hr Hp Hrun. assert (survives w r) as Hs by (left; by exists r). clear Hr Hp.
  induction Hrun as [|w1 w2 w3 H12 _ IH]; [done|]. apply IH; [by eapply step_ok|].
  destruct Hs as [(r' & Hr' & Hst & Hp)|(ev & Hev & Hst)]; [|right; exists ev; split; [by eapply delivered_step|done]].
  destruct Hst as (E1 & E2 & E3 & E4). cbn in E1, E2, E3, E4.
  destruct (pending_step w1 w2 r' Hw Hr' Hp H12) as [(r2 & Hr2 & Hst2 & Hp2)|(ev & Hev & Hst2)].
  - left. exists r2. split; [done|]. split; [|done]. destruct Hst2 as (F1 & F2 & F3 & F4). cbn in F1, F2, F3, F4.
    split_and!; cbn; congruence.
  - right. exists ev. split; [done|]. destruct Hst2 as (F1 & F2 & F3 & F4). split_and!; congruence.
Qed.

(** A row is in the hands of one open transaction at most, whatever the
    forwarders of all processes do: two forwarders do not send the same row at
    once. *)
Theorem forwarders_exclusive w t1 t2 tx1 tx2 ev1 ev2 :
  reachable w → open w !! t1 = Some tx1 → open w !! t2 = Some tx2 → ev1 ∈ tx_events tx1 → ev2 ∈ tx_events tx2 →
  be_ID ev1 = be_ID ev2 → t1 = t2 ∧ ev1 = ev2.
Proof.
  intros Hw%reachable_ok H1 H2 He1 He2 Heq. assert (t1 = t2) as <- by (by eapply (ok_disjoint w Hw)). split; [done|].
  assert (tx1 = tx2) as <- by congruence. pose proof (ok_nodup w Hw t1 tx1 H1) as Hnd. unfold ids_of in Hnd.
  apply list_elem_of_lookup in He1 as [i Hi]. apply list_elem_of_lookup in He2 as [j Hj].
  assert (i = j) as ->; [|congruence].
  apply (NoDup_lookup _ i j (be_ID ev1) Hnd); rewrite list_lookup_fmap, ?Hi, ?Hj; cbn; congruence.
Qed.

(** *** Events that are never forwarded *)

(** Neither pending nor waiting for a signature. *)
Definition stranded r : bool :=
  unsent r && bool_decide (default "" (r_jws_compact r) = "") && bool_decide (r_signing_error r = None).
Lemma stranded_not_dequeued r : stranded r = true → pending r = false ∧ unsigned r = false.
Proof.
  unfold stranded, pending, unsigned. intros [[Hu Hj]%andb_prop Hs]%andb_prop. apply bool_decide_eq_true in Hj, Hs.
  rewrite Hs. split.
  - destruct (r_jws_compact r) as [j|]; [|apply andb_false_r]. cbn in Hj. subst j. by rewrite bool_decide_true, andb_false_r by done.
  - by rewrite (bool_decide_false (is_Some None)), andb_false_r by (by intros []).
Qed.

Lemma stranded_step w w' r : ok w → r ∈ rows (buf w) → stranded r = true → step w w' → r ∈ rows (buf w').
Proof.
  intros Hok Hr Hs Hstep. destruct (stranded_not_dequeued r Hs) as [Hp Hun].
  assert (unsent r = true) as Hu by (by apply andb_prop in Hs as [[? _]%andb_prop _]).
  assert (∀ t tx h, open w !! t = Some tx → touches (ids_of (tx_events tx)) h → r ∈ h <$> rows (buf w)) as Hkept.
  { intros t tx h Ht Hh. apply list_elem_of_fmap. exists r. split; [|done]. symmetry. apply Hh.
    intros (ev & Hev & Hid)%ids_elem. destruct (ok_row_of w t tx ev r) as [_ Hrows]; [done..|].
    destruct tx; cbn in Hrows; congruence. }
  destruct Hstep; try done.
  - by apply create_rows.
  - destruct (release_sent_rows env committed evs None (buf w)) as (h & Heq & Hh & _). cbn [close_tx buf]. rewrite Heq. by apply (Hkept t (Accepted evs)).
  - destruct (release_sent_rows env committed evs (Some err) (buf w)) as (h & Heq & Hh & _). cbn [close_tx buf]. rewrite Heq.
    by apply (Hkept t (Refused evs err)).
  - destruct (release_resign_rows env committed evs (resigned resigner writes evs) None (buf w)) as (h & Heq & Hh & _);
      [intros x; apply resigned_ids|]. cbn [close_tx buf]. rewrite Heq. by apply (Hkept t (Resigning evs)).
  - by apply vacuum_rows.
Qed.
Lemma stranded_for_ever w w' r : ok w → r ∈ rows (buf w) → stranded r = true → rtc step w w' → r ∈ rows (buf w').
Proof.
  intros Hok Hr Hs Hrun. induction Hrun as [|w1 w2 w3 H12 _ IH]; [done|].
  apply IH; [by eapply step_ok|by eapply stranded_step].
Qed.

(** When an event that landed unsigned cannot be signed by a re-signing pass
    either, because the key service is still down or the write fails, the commit of
    the pass clears its signing error with that of the others: no pass takes it up
    again and no forwarder sends it, whatever happens later. *)
Theorem failed_resign_strands w t evs env resigner writes ev w' :
  reachable w → open w !! t = Some (Resigning evs) → ev ∈ evs → resign_event resigner writes ev = None →
  rtc step (close_tx t (release_resign env true evs (resigned resigner writes evs) None (buf w)) w) w' →
  ∃ r, r ∈ rows (buf w') ∧ r_id r = be_ID ev ∧ r_jti r = be_JTI ev ∧ r_sent_at r = None ∧
    pending r = false ∧ unsigned r = false.
Proof.
  intros Hw%reachable_ok Ht Hev Hfail Hrun.
  destruct (ok_rows w Hw t _ ev Ht Hev) as (r & Hr & (E1 & E2 & E3 & E4) & Hun). cbn in Hun.
  destruct (release_resign_rows env true evs (resigned resigner writes evs) None (buf w)) as
    (h & Heq & Hh & Hsent & Hjws & Hserr); [intros x; apply resigned_ids|].
  assert (r_id r ∈ ids_of evs) as Hin by (apply ids_elem; by exists ev).
  assert (r_id r ∉ (resigned resigner writes evs).*1) as Hnot.
  { intros ([id j] & Hid & (ev' & Hev' & Hx)%list_elem_of_omap)%list_elem_of_fmap. cbn in Hid. subst id.
    assert (be_ID ev' = r_id r) as Hid'.
    { unfold resign_event in Hx. destruct (UnmarshalCanonical _) as [[[e ?] ?]|]; [|done].
      destruct (resigner e); [|done]. destruct writes; [|done]. by injection Hx. }
    assert (ev' = ev) as ->; [|congruence]. pose proof (ok_nodup w Hw t _ Ht) as Hnd. cbn in Hnd. unfold ids_of in Hnd.
    apply list_elem_of_lookup in Hev as [i Hi]. apply list_elem_of_lookup in Hev' as [k Hk].
    assert (i = k) as ->; [|congruence].
    apply (NoDup_lookup _ i k (r_id r) Hnd); rewrite list_lookup_fmap, ?Hi, ?Hk; cbn; congruence. }
  assert (stranded (h r) = true) as Hs.
  { unfold stranded, unsent. rewrite Hsent, Hjws, Hserr by done. unfold unsigned in Hun.
    apply andb_prop in Hun as [[Hu Hj]%andb_prop _]. unfold unsent in Hu. by rewrite Hu, Hj. }
  exists (h r). split.
  - eapply stranded_for_ever; [| |exact Hs|exact Hrun]; [by apply ok_release_resign|].
    cbn [close_tx buf]. rewrite Heq. apply list_elem_of_fmap. by exists r.
  - rewrite (touches_id _ _ Hh), (touches_jti _ _ Hh). destruct (stranded_not_dequeued _ Hs) as [Hp Hu].
    apply andb_prop in Hs as [[Hs _]%andb_prop _]. apply bool_decide_eq_true in Hs. by split_and!.
Qed.

(** An event stored through the buffer's own [CreateAuditLog] is neither signed
    nor marked for signing: it is never forwarded. *)
Theorem unsigned_callers_not_forwarded w env draw cap dk call tenant b' w' :
  reachable w → uuid_Parse (uuid_String (c_companyID call)) = Some tenant →
  buffer_CreateAuditLog env draw cap dk true call (buf w) = (Ok tt, b') →
  (length (rows (buf w)) < length (rows b'))%nat →
  rtc step (set_buf b' w) w' →
  ∃ r, r ∈ rows (buf w') ∧ r_id r = next_id (buf w) ∧ r_tenant_id r = tenant ∧ r_sent_at r = None ∧
    pending r = false ∧ unsigned r = false.
Proof.
  intros Hw Htenant Hcreate Hnew Hrun. apply reachable_ok in Hw as Hok. unfold buffer_CreateAuditLog in Hcreate.
  set (m := with_jti _ _ _) in Hcreate. pose proof (step_create w env cap dk true (event_of call m) "" "") as Hstep.
  rewrite Hcreate in Hstep. cbn [snd] in Hstep. apply (step_ok _ _ Hok) in Hstep.
  unfold CreateSignedAuditLog in Hcreate. cbn [se_CompanyID event_of] in Hcreate. rewrite Htenant in Hcreate.
  destruct (_ && _ && _) in Hcreate; [done|]. destruct (bool_decide _) in Hcreate; [done|].
  destruct (MarshalCanonical _ _ _ _) as [payload|]; [|done]. injection Hcreate as <-. unfold insert_row in *.
  destruct (any _ _) eqn:Hany; [lia|]. eexists. split.
  - eapply stranded_for_ever; [exact Hstep| | |exact Hrun].
    + cbn. apply elem_of_app. right. by left.
    + done.
  - done.
Qed.
End interleavings.

(** ** A sink that accepts *)

(** [k] drains in a row, of one forwarder: what the sink has accepted. *)
Fixpoint drains (k : nat) (env : Env) (f : Forwarder) (b : Buffer) : list BufferedEvent * Buffer :=
  match k with
  | O => ([], b)
  | S k =>
      let '(f, b, evs, _) := drainOnce env (λ _, None) true f b in
      let '(rest, b) := drains k env f b in (evs ++ rest, b)
  end.
Definition pendings (b : Buffer) : list Row := filter (λ r, pending r = true) (rows b).

Lemma drainOnce_accepted env f b :
  ∃ f', batchSize f' = batchSize f ∧
    drainOnce env (λ _, None) true f b =
    (f', release_sent env true (DequeuePending (batchSize f) b).1 None (DequeuePending (batchSize f) b).2,
     (DequeuePending (batchSize f) b).1, 0%Z).
Proof.
  unfold drainOnce. destruct (DequeuePending (batchSize f) b) as [[|ev evs] b']; cbn; by exists (set_failures 0 f).
Qed.

Lemma pendings_released env ids rs :
  filter (λ r, pending r = true) (update ids (mark_sent env) rs) =
  filter (λ r, r_id r ∉ ids) (filter (λ r, pending r = true) rs).
Proof.
  induction rs as [|r rs IH]; [done|]. cbn [update fmap list_fmap]. fold (update ids (mark_sent env) rs).
  destruct (pending r) eqn:Hp.
  - rewrite (filter_cons_True (λ r, pending r = true) r) by done. destruct (decide (r_id r ∈ ids)) as [Hin|Hn].
    + rewrite bool_decide_true by done. rewrite filter_cons_False by (cbn; unfold pending, unsent; cbn; by destruct (r_jws_compact r)).
      rewrite filter_cons_False by (intros ?; done). exact IH.
    + rewrite bool_decide_false by done. rewrite !filter_cons_True by done. f_equal. exact IH.
  - rewrite (filter_cons_False (λ r, pending r = true) r) by congruence. rewrite filter_cons_False; [exact IH|].
    case_bool_decide; [|congruence]. unfold pending, unsent. cbn. by destruct (r_jws_compact r).
Qed.

Lemma select_free n b : locked b = ∅ → select pending n b = take n (sort_slice earlier (pendings b)).
Proof.
  intros Hl. unfold select, pendings. f_equal. f_equal. apply list_filter_iff. intros r. unfold free.
  rewrite Hl, bool_decide_false by set_solver. by rewrite andb_true_r.
Qed.

Lemma filter_ids_app (ids : list Z) (a c : list Row) :
  (∀ r, r ∈ a → r_id r ∈ ids) → (∀ r, r ∈ c → r_id r ∉ ids) → filter (λ r, r_id r ∉ ids) (a ++ c) = c.
Proof.
  intros Ha Hc. induction a as [|r a IH]; cbn [app].
  - induction c as [|r c IH]; [done|]. rewrite filter_cons_True by (apply Hc; by left). f_equal. apply IH.
    intros r' Hr'. apply Hc. by right.
  - rewrite filter_cons_False by (intros Hn; apply Hn, Ha; by left). apply IH. intros r' Hr'. apply Ha. by right.
Qed.

Lemma drain_step env f b :
  NoDup (r_id <$> rows b) → locked b = ∅ →
  let out := take (batchSize f) (sort_slice earlier (pendings b)) in
  let b' := release_sent env true (DequeuePending (batchSize f) b).1 None (DequeuePending (batchSize f) b).2 in
  (DequeuePending (batchSize f) b).1 = scan <$> out ∧ NoDup (r_id <$> rows b') ∧ locked b' = ∅ ∧
  pendings b' ≡ₚ drop (batchSize f) (sort_slice earlier (pendings b)).
Proof.
  intros Hnd Hl out b'.
  assert ((DequeuePending (batchSize f) b).1 = scan <$> out) as Hout by (unfold DequeuePending, dequeue; cbn; by rewrite select_free).
  assert (ids_of (scan <$> out) = r_id <$> out) as Hids by (unfold ids_of; rewrite <-list_fmap_compose; done).
  subst b'. rewrite Hout. split_and!; [done| | |].
  - change (NoDup (r_id <$> (on_ids (ids_of (scan <$> out)) (mark_sent env) <$> rows b))).
    rewrite fmap_kept; [done|]. intros r. unfold on_ids. by case_bool_decide.
  - change ((locked b ∪ list_to_set (r_id <$> select pending (batchSize f) b)) ∖ list_to_set (ids_of (scan <$> out)) = ∅).
    rewrite Hids, Hl, select_free by done. fold out. set_solver.
  - change (filter (λ r, pending r = true) (update (ids_of (scan <$> out)) (mark_sent env) (rows b)) ≡ₚ
      drop (batchSize f) (sort_slice earlier (pendings b))). rewrite pendings_released, Hids. fold (pendings b). set (l := sort_slice earlier (pendings b)) in *.
    assert (pendings b ≡ₚ l) as Hp by (symmetry; apply sort_slice_perm).
    assert (NoDup (r_id <$> l)) as Hndl.
    { rewrite <-Hp. eapply sublist_NoDup; [exact Hnd|]. apply fmap_sublist, sublist_filter. }
    rewrite Hp. rewrite <-(take_drop (batchSize f) l) at 1. fold out. rewrite filter_ids_app; [done| |].
    + intros r Hr. by apply list_elem_of_fmap_2.
    + intros r Hr Hin. rewrite <-(take_drop (batchSize f) l), fmap_app in Hndl. fold out in Hndl.
      apply NoDup_app in Hndl as (_ & Hdis & _). apply (Hdis (r_id r)); [done|]. by apply list_elem_of_fmap_2.
Qed.

(** Enough drains with a sink that accepts forward every signed event of the
    buffer exactly once, and leave none. *)
Theorem drains_deliver k env f b :
  NoDup (r_id <$> rows b) → locked b = ∅ → (length (pendings b) ≤ k * batchSize f)%nat →
  (drains k env f b).1 ≡ₚ scan <$> pendings b ∧ pendings (drains k env f b).2 = [].
Proof.
  revert f b. induction k as [|k IH]; intros f b Hnd Hl Hk.
  { destruct (pendings b) eqn:Hp; [|cbn in Hk; lia]. cbn [drains fst snd]. by rewrite Hp. }
  cbn [drains]. destruct (drainOnce_accepted env f b) as (f' & Hf' & ->).
  destruct (drain_step env f b Hnd Hl) as (Hout & Hnd' & Hl' & Hp').
  set (b' := release_sent _ _ _ _ _) in *. rewrite Hout.
  assert (length (pendings b') = length (pendings b) - batchSize f)%nat as Hlen
    by (by rewrite Hp', length_drop, sort_slice_perm).
  destruct (IH f' b' Hnd' Hl') as [IH1 IH2]; [rewrite Hf'; lia|].
  destruct (drains k env f' b') as [rest b2]. cbn [fst snd] in *. split; [|done].
  rewrite IH1, Hp', <-fmap_app, take_drop. by rewrite sort_slice_perm.
Qed.

(** ** Witnesses *)

(** A decoder of quoted texts. *)
Definition text_decoder : JsonDecoder := {|
  Unmarshal := λ s, match chars s with
                    | _ :: l => match unquote l with Some (x, []) => Some (JString (unchars x)) | _ => None end
                    | [] => None
                    end;
  Unmarshal_payload := λ _, None;
  Marshal_header := λ _, "";
  Unmarshal_header := λ _, None |}.
Definition at_second (n : Z) : Env := {| now := n * Second; new_id := N.of_nat; order := canonical_range |}.
Definition ex_audit_call : AuditCall :=
  {| c_companyID := 6%N; c_actorID := 4%N; c_action := "auth.user.login"; c_resource := ""; c_resourceID := "";
     c_ipAddress := ""; c_details := "" |}.
Definition ex_audit_event (jti : string) : SignedEvent :=
  event_of (U := binary_uuid_text) ex_audit_call {["jti" := JString jti]}.
#[local] Abbreviation ex_create n jti jws serr b :=
  (CreateSignedAuditLog (D := text_decoder) (C := ascii_case) (U := binary_uuid_text) (at_second n) 10 true true
     (ex_audit_event jti) jws serr b).2.
#[local] Abbreviation ex_step := (step (D := text_decoder) (C := ascii_case) (U := binary_uuid_text)).
#[local] Abbreviation ex_reachable := (reachable (D := text_decoder) (C := ascii_case) (U := binary_uuid_text)).

(** A signed event, dequeued by a forwarder. *)
Definition ex_w1 : world := set_buf (ex_create 1 "j1" "a.b.c" "" (buf start)) start.
Definition ex_w2 : world :=
  set_tx 7 (Forwarding (DequeuePending 100 (buf ex_w1)).1) (set_buf (DequeuePending 100 (buf ex_w1)).2 ex_w1).
Definition ex_row : Row := default (with_row None None None
  {| r_id := 0; r_jti := ""; r_tenant_id := 0%N; r_emitted_at := 0; r_jws_compact := None; r_payload_canonical := "";
     r_attempts := 0; r_last_attempt_at := None; r_last_error := None; r_sent_at := None; r_signing_error := None |})
  (head (rows (buf ex_w1))).
Lemma ex_reachable1 : ex_reachable ex_w1.
Proof. apply rtc_once. apply (step_create start). Qed.
Lemma ex_step12 : ex_step ex_w1 ex_w2.
Proof. apply (step_dequeue ex_w1 7 100). by vm_compute. Qed.

Lemma signed_event_never_lost_witness :
  survives (close_tx 7 (unlock (tx_events (Forwarding (DequeuePending 100 (buf ex_w1)).1)) (buf ex_w2)) ex_w2) ex_row.
Proof.
  apply (signed_event_never_lost (D := text_decoder) (C := ascii_case) (U := binary_uuid_text) ex_w1 _ ex_row).
  - exact ex_reachable1.
  - apply list_elem_of_lookup_2 with (i := 0%nat). by vm_compute.
  - by vm_compute.
  - eapply rtc_l; [exact ex_step12|]. apply rtc_once, step_crash. by vm_compute.
Defined.

Definition ex_event1 : BufferedEvent := scan ex_row.
Lemma forwarders_exclusive_witness : 7%nat = 7%nat ∧ ex_event1 = ex_event1.
Proof.
  apply (forwarders_exclusive (D := text_decoder) (C := ascii_case) (U := binary_uuid_text) ex_w2 7 7
    (Forwarding [ex_event1]) (Forwarding [ex_event1]) ex_event1 ex_event1).
  - eapply rtc_r; [exact ex_reachable1|exact ex_step12].
  - by vm_compute.
  - by vm_compute.
  - by left.
  - by left.
  - done.
Defined.

(** An event that could not be signed, taken up by a re-signing pass whose signer is
    still down. *)
Definition ex_u1 : world := set_buf (ex_create 1 "j1" "" "kms: timeout" (buf start)) start.
Definition ex_unsigned : list BufferedEvent := (DequeueUnsignedForResigningWithTx 100 (buf ex_u1)).1.
Definition ex_u2 : world :=
  set_tx 7 (Resigning ex_unsigned) (set_buf (DequeueUnsignedForResigningWithTx 100 (buf ex_u1)).2 ex_u1).
Definition ex_down (e : SignedEvent) : outcome aerr string := Err (Errorf "kms: timeout").
Definition ex_u3 : world :=
  close_tx 7 (release_resign (at_second 30) true ex_unsigned (resigned (D := text_decoder) ex_down true ex_unsigned) None (buf ex_u2)) ex_u2.
Lemma failed_resign_strands_witness :
  ∃ r, r ∈ rows (buf ex_u3) ∧ r_id r = 1%Z ∧ r_jti r = "j1" ∧ r_sent_at r = None ∧ pending r = false ∧ unsigned r = false.
Proof.
  apply (failed_resign_strands (D := text_decoder) (C := ascii_case) (U := binary_uuid_text) ex_u2 7 ex_unsigned
    (at_second 30) ex_down true (default ex_event1 (head ex_unsigned)) ex_u3).
  - eapply rtc_l; [apply (step_create start)|]. apply rtc_once. apply (step_dequeue_unsigned ex_u1 7 100). by vm_compute.
  - done.
  - apply list_elem_of_lookup_2 with (i := 0%nat). by vm_compute.
  - by vm_compute.
  - apply rtc_refl.
Defined.

Definition ex_direct : Buffer :=
  (buffer_CreateAuditLog (D := text_decoder) (C := ascii_case) (U := binary_uuid_text) (at_second 1) (λ _, 0%N) 10 true true
     ex_audit_call (buf start)).2.
Lemma unsigned_callers_not_forwarded_witness :
  ∃ r, r ∈ rows (buf (set_buf ex_direct start)) ∧ r_id r = 1%Z ∧ r_tenant_id r = 6%N ∧ r_sent_at r = None ∧
    pending r = false ∧ unsigned r = false.
Proof.
  apply (unsigned_callers_not_forwarded (D := text_decoder) (C := ascii_case) (U := binary_uuid_text) start (at_second 1)
    (λ _, 0%N) 10 true ex_audit_call 6%N ex_direct (set_buf ex_direct start)).
  - apply rtc_refl.
  - by vm_compute.
  - by vm_compute.
  - vm_compute. lia.
  - apply rtc_refl.
Defined.

Lemma drains_deliver_witness :
  (drains 1 (at_second 5) NewForwarder (buf ex_w1)).1 ≡ₚ scan <$> pendings (buf ex_w1) ∧
  pendings (drains 1 (at_second 5) NewForwarder (buf ex_w1)).2 = [].
Proof.
  apply (drains_deliver 1 (at_second 5) NewForwarder (buf ex_w1)); [|done|vm_compute; lia].
  apply (bool_decide_unpack _). by vm_compute.
Defined.
