(* ===== verification/Identity.v ===== *)
(** * Identity contexts: claims, authentications and assurance (platform/identity: claims.go, authentication.go, assurance.go)

    The claim set that crosses services and its semantic checks; the record of an
    authentication and the assurance level derived from it. *)

From S2P Require Import Prelude Encoding.

(** The errors of the package. *)
Inductive identity_error : Type :=
  | ErrUnsupportedVersion | ErrMissingSubject | ErrMissingTenant | ErrMissingAssurance
  | ErrNilAuthentication | ErrMissingAuthenticatedSubject | ErrNoFactors | ErrUnknownFactorKind | ErrMissingFactorMethod
  | ErrNilSigner | ErrMissingKeyID | ErrMissingIssuer | ErrUnsupportedAlgorithm | ErrInvalidTTL | ErrInvalidClock
  | ErrInvalidAssurance | ErrMalformedTokenRef
  | ErrNilCredentialVerifier | ErrNilClaimsResolver | ErrSignerUnhealthy | ErrVerifierReportedNoAuthentication
  | ErrNilKeySetSigner | ErrMissingKeySetKeyID | ErrUnpublishableKey | ErrInvalidKeySetMaxAge
  | ErrMissingJWKSURL | ErrInvalidJWKSURL | ErrNilHTTPClient | ErrInvalidCacheTTL | ErrInvalidRefetchInterval
  | ErrUnknownKeyID | ErrJWKSUnavailable | ErrJWKSMalformed
  | ErrInvalidContext | ErrNoTrustedIssuers | ErrMissingTrustedIssuer | ErrNilKeySource | ErrDuplicateTrustedIssuer
  | ErrNoAcceptedVersions.
#[export] Instance identity_error_eq_dec : EqDecision identity_error.
Proof. solve_decision. Defined.
Abbreviation ierr := (goerr identity_error) (only parsing).

(** ** claims.go *)

Definition JWTType : string := "identity-context+jwt".
Definition Version : Z := 1.
Definition AAL1 : string := "AAL1".
Definition AAL2 : string := "AAL2".
Definition AAL3 : string := "AAL3".

(** [jwt.RegisteredClaims]; [None] is an absent date, a [NumericDate] being an
    instant in whole seconds.  [rc_JTI] is its [ID]. *)
Record RegisteredClaims : Type := {
  rc_Issuer : string;
  rc_Subject : string;
  rc_Audience : list string;
  rc_ExpiresAt : option time;
  rc_NotBefore : option time;
  rc_IssuedAt : option time;
  rc_JTI : string;
}.
(** A nil slice of entitlements is [None]. *)
Record Claims : Type := {
  Registered : RegisteredClaims;
  c_Tenant : string;
  c_Entitlements : option (list string);
  c_AAL : string;
  c_CtxVer : Z;
  c_TokRef : string;
}.

Abbreviation VersionSet := (gmap Z ()) (only parsing).
Definition NewVersionSet (versions : list Z) : VersionSet := foldl (λ set v, <[v := tt]> set) ∅ versions.
Definition DefaultVersionSet : VersionSet := NewVersionSet [Version].
Definition Accepts (s : VersionSet) (v : Z) : bool := bool_decide (is_Some (s !! v)).
Definition int_lt (a b : Z) : bool := bool_decide (a < b)%Z.
Definition Versions (e : Env) (s : VersionSet) : list Z := sort_slice int_lt (range (MapRange := order e) s).*1.

(** [Claims.Validate]; the message of the first error lists the versions. *)
Definition Validate_claims (c : Claims) (accepted : VersionSet) : outcome ierr unit :=
  if negb (Accepts accepted (c_CtxVer c)) then Err (Wrapf "got another version" (Sentinel ErrUnsupportedVersion))
  else if bool_decide (rc_Subject (Registered c) = "") then Err (Sentinel ErrMissingSubject)
  else if bool_decide (c_Tenant c = "") then Err (Sentinel ErrMissingTenant)
  else if bool_decide (c_AAL c = "") then Err (Sentinel ErrMissingAssurance)
  else Ok tt.

Definition TokRef {H : Sha256} (token : string) : string :=
  if bool_decide (token = "") then ""
  else hex_EncodeToString (String.substring 0 8 (sha256 token)).

(** ** authentication.go *)

Abbreviation FactorKind := string (only parsing).
Definition FactorKnowledge : FactorKind := "knowledge".
Definition FactorPossession : FactorKind := "possession".
Definition FactorInherence : FactorKind := "inherence".
Definition factorKinds : list FactorKind := [FactorKnowledge; FactorPossession; FactorInherence].
Definition recognised (k : FactorKind) : bool :=
  bool_decide (k = FactorKnowledge) || bool_decide (k = FactorPossession) || bool_decide (k = FactorInherence).

Record Factor : Type := { Kind : FactorKind; Method : string }.
Record Authentication : Type := {
  a_Subject : string;
  a_Factors : list Factor;
  a_PhishingResistant : bool;
  a_HardwareBacked : bool;
}.

(** The loop over the factors of [Validate]. *)
Fixpoint check_factors (fs : list Factor) : outcome ierr unit :=
  match fs with
  | [] => Ok tt
  | factor :: rest =>
      if negb (recognised (Kind factor)) then Err (Wrapf "factor has another category" (Sentinel ErrUnknownFactorKind))
      else if bool_decide (Method factor = "") then Err (Wrapf "factor" (Sentinel ErrMissingFactorMethod))
      else check_factors rest
  end.
(** [Authentication.Validate]; the nil pointer is [None]. *)
Definition Validate (a : option Authentication) : outcome ierr unit :=
  match a with
  | None => Err (Sentinel ErrNilAuthentication)
  | Some a =>
      if bool_decide (a_Subject a = "") then Err (Sentinel ErrMissingAuthenticatedSubject)
      else if bool_decide (a_Factors a = []) then Err (Sentinel ErrNoFactors)
      else check_factors (a_Factors a)
  end.

(** The set [present], and the loop over the array. *)
Definition present (fs : list Factor) : gmap FactorKind () :=
  foldl (λ set factor, if recognised (Kind factor) then <[Kind factor := tt]> set else set) ∅ fs.
Definition Kinds (a : option Authentication) : list FactorKind :=
  match a with
  | None => []
  | Some a => let set := present (a_Factors a) in filter (λ kind, is_Some (set !! kind)) factorKinds
  end.

(** What a resolver returns. *)
Record Grant : Type := { g_Tenant : string; g_Entitlements : option (list string) }.

(** ** assurance.go *)

Definition DeriveAssurance (auth : option Authentication) : outcome ierr string :=
  match Validate auth with
  | Err err => Err err
  | Ok _ =>
      let categories := length (Kinds auth) in
      if bool_decide (categories < 2)%nat then Ok AAL1
      else match auth with
           | Some a => if a_HardwareBacked a && a_PhishingResistant a then Ok AAL3 else Ok AAL2
           | None => Ok AAL2
           end
  end.
