(* ===== verification/KeySource.v ===== *)
(** * Published and fetched verification keys (platform/auth/jwks, platform/identity/keyset.go, keysource.go)

    A key as a JWK and the document that publishes it; the sources a verifier
    resolves keys through: a fixed set, and the cache of a published document.
    URLs, HTTP exchanges, [encoding/json]'s decoder and the curve are parameters. *)

From S2P Require Import Prelude Encoding Json Signature Identity.

(** ** jwks/jwk.go *)

Record JWK : Type := {
  k_Kty : string; k_Crv : string; k_Alg : string; k_Use : string; k_Kid : string;
  k_X : string; k_Y : string; k_N : string; k_E : string;
}.
Definition p256CoordBytes : nat := 32.
Definition b64url (l : list ascii) : string := base64_EncodeToString URLAlphabet (unchars l).
(** [big.Int.FillBytes] into a buffer of this width; [None] is its panic. *)
Definition FillBytes (width : nat) (n : N) : option (list ascii) :=
  if bool_decide (length (Int_Bytes n) ≤ width)%nat then Some (padded width (Int_Bytes n)) else None.

(** Errors of the package carry no sentinel. *)
Abbreviation jerr := (goerr identity_error) (only parsing).

Definition MarshalECPublic (pub : option ecdsa_PublicKey) (kid alg use : string) : call (outcome jerr JWK) :=
  match pub with
  | None => Returns (Err (Errorf "jwks: nil public key"))
  | Some pub =>
      if bool_decide (Curve pub ≠ Some "P-256") then Returns (Err (Errorf "jwks: unsupported curve, only P-256 supported"))
      else match pub_X pub, pub_Y pub with
           | Some X, Some Y =>
               match FillBytes p256CoordBytes X, FillBytes p256CoordBytes Y with
               | Some x, Some y =>
                   Returns (Ok {| k_Kty := "EC"; k_Crv := "P-256"; k_Alg := alg; k_Use := use; k_Kid := kid;
                                  k_X := b64url x; k_Y := b64url y; k_N := ""; k_E := "" |})
               | _, _ => Panics
               end
           | _, _ => Returns (Err (Errorf "jwks: EC public key missing X or Y"))
           end
  end.

(** The loop that strips leading zeros and keeps one byte. *)
Fixpoint strip_zeros (l : list ascii) : list ascii :=
  match l with
  | [] => []
  | a :: l' => if bool_decide (l' ≠ []) && bool_decide (a = "000"%char) then strip_zeros l' else l
  end.
(** The exponent fits 64 bits. *)
Definition MarshalRSAPublic (pub : option rsa_PublicKey) (kid alg use : string) : outcome jerr JWK :=
  match pub with
  | None => Err (Errorf "jwks: nil public key")
  | Some pub =>
      match pub_N pub with
      | None => Err (Errorf "jwks: RSA public key missing N")
      | Some N =>
          if bool_decide (pub_E pub ≤ 0)%Z then Err (Errorf "jwks: RSA public exponent must be positive")
          else
            let eBuf := strip_zeros (padded 8 (Int_Bytes (Z.to_N (pub_E pub)))) in
            Ok {| k_Kty := "RSA"; k_Crv := ""; k_Alg := alg; k_Use := use; k_Kid := kid; k_X := ""; k_Y := "";
                  k_N := b64url (Int_Bytes N); k_E := b64url eBuf |}
      end
  end.

(** ** jwks/set.go *)

Abbreviation Set_ := (list JWK) (only parsing).
(** [AddSigningKey]; the result is the set and the error. *)
Definition AddSigningKey (signer : option Signer) (kid : string) (s : Set_) : call (outcome jerr Set_) :=
  match signer with
  | None => Returns (Err (Errorf "jwks: nil signer"))
  | Some signer =>
      if bool_decide (kid = "") then Returns (Err (Errorf "jwks: empty kid"))
      else
        let alg := SigningAlgorithm signer in
        if bool_decide (alg = "ES256") then
          match Public signer with
          | ECDSAPublic pub =>
              match MarshalECPublic pub kid alg "sig" with
              | Panics => Panics
              | Returns (Err err) => Returns (Err (Wrapf "jwks: marshal EC public" err))
              | Returns (Ok jwk) => Returns (Ok (s ++ [jwk]))
              end
          | _ => Returns (Err (Errorf "jwks: signer has non-ecdsa public key"))
          end
        else if bool_decide (alg = "RS256") then
          match Public signer with
          | RSAPublic pub =>
              match MarshalRSAPublic pub kid alg "sig" with
              | Err err => Returns (Err (Wrapf "jwks: marshal RSA public" err))
              | Ok jwk => Returns (Ok (s ++ [jwk]))
              end
          | _ => Returns (Err (Errorf "jwks: signer has non-rsa public key"))
          end
        else Returns (Err (Errorf "jwks: unsupported signing algorithm"))
  end.

(** [json.Marshal] of the set: HTML characters are escaped, which inside of texts is
    all there are; empty members with [omitempty] are left out. *)
Definition encode_jwk (j : JWK) : list ascii :=
  print_object ([print_member "kty" (quote (k_Kty j))] ++ text_field "crv" (k_Crv j)
    ++ [print_member "alg" (quote (k_Alg j)); print_member "use" (quote (k_Use j)); print_member "kid" (quote (k_Kid j))]
    ++ text_field "x" (k_X j) ++ text_field "y" (k_Y j) ++ text_field "n" (k_N j) ++ text_field "e" (k_E j)).
Definition MarshalJSON (s : Set_) : string :=
  unchars (HTMLEscape (print_object [print_member "keys" (print_array (encode_jwk <$> s))])).

(** ** jwks/thumbprint.go

    [%q] on the texts of a key is [strconv.Quote], a parameter. *)
Definition RFC7638Thumbprint {H : Sha256} (Quote : string → string) (j : JWK) : outcome jerr string :=
  let digest canonical := Ok (base64_EncodeToString URLAlphabet (sha256 canonical)) in
  let lit := λ l : list ascii, unchars l in
  if bool_decide (k_Kty j = "EC") then
    if bool_decide (k_Crv j = "") then Err (Errorf "jwks: EC thumbprint requires crv")
    else if bool_decide (k_X j = "") then Err (Errorf "jwks: EC thumbprint requires x")
    else if bool_decide (k_Y j = "") then Err (Errorf "jwks: EC thumbprint requires y")
    else digest (lit ("{"%char :: quote "crv") +:+ ":" +:+ Quote (k_Crv j) +:+ "," +:+ lit (quote "kty") +:+ ":"
           +:+ lit (quote "EC") +:+ "," +:+ lit (quote "x") +:+ ":" +:+ Quote (k_X j) +:+ "," +:+ lit (quote "y")
           +:+ ":" +:+ Quote (k_Y j) +:+ "}")
  else if bool_decide (k_Kty j = "RSA") then
    if bool_decide (k_N j = "") then Err (Errorf "jwks: RSA thumbprint requires n")
    else if bool_decide (k_E j = "") then Err (Errorf "jwks: RSA thumbprint requires e")
    else digest (lit ("{"%char :: quote "e") +:+ ":" +:+ Quote (k_E j) +:+ "," +:+ lit (quote "kty") +:+ ":"
           +:+ lit (quote "RSA") +:+ "," +:+ lit (quote "n") +:+ ":" +:+ Quote (k_N j) +:+ "}")
  else Err (Errorf "jwks: unsupported kty for thumbprint").

(** ** keyset.go *)

Definition DefaultJWKSCacheTTL : duration := (5 * Minute)%Z.
Definition DefaultKeySetMaxAge : duration := DefaultJWKSCacheTTL.
Definition KeySetContentType : string := "application/jwk-set+json".

Record KeySetHandler : Type := { document : string; cacheControl : string; maxAge : duration }.
Abbreviation KeySetOption := (KeySetHandler → KeySetHandler) (only parsing).
Definition WithKeySetMaxAge (d : duration) : KeySetOption := λ h,
  {| document := document h; cacheControl := cacheControl h; maxAge := d |}.
(** Applying options. *)
Definition apply_options {A} (opts : list (A → A)) (a : A) : A := foldl (λ a opt, opt a) a opts.

Definition NewKeySetHandler (signer : option Signer) (opts : list KeySetOption) : call (outcome ierr KeySetHandler) :=
  let h := apply_options opts {| document := ""; cacheControl := ""; maxAge := DefaultKeySetMaxAge |} in
  match signer with
  | None => Returns (Err (Sentinel ErrNilKeySetSigner))
  | Some s =>
      if bool_decide (maxAge h < Second)%Z then Returns (Err (Wrapf "got" (Sentinel ErrInvalidKeySetMaxAge)))
      else
        let keyID := KeyID s in
        if bool_decide (keyID = "") then Returns (Err (Sentinel ErrMissingKeySetKeyID))
        else match AddSigningKey signer keyID [] with
             | Panics => Panics
             | Returns (Err _) => Returns (Err (Wrapf "jwks" (Sentinel ErrUnpublishableKey)))
             | Returns (Ok set) =>
                 Returns (Ok {| document := MarshalJSON set;
                                cacheControl := "public, max-age=" +:+ pretty (maxAge h `div` Second)%Z;
                                maxAge := maxAge h |})
             end
  end.

(** What a handler answers; the headers it sets. *)
Record response : Type := { status : Z; header : gmap string string; body : string }.
Definition ServeHTTP (h : KeySetHandler) (method : string) : response :=
  if negb (bool_decide (method = "GET")) && negb (bool_decide (method = "HEAD")) then
    {| status := 405; header := <["Content-Type" := "text/plain; charset=utf-8"]>
         (<["X-Content-Type-Options" := "nosniff"]> {["Allow" := "GET, HEAD"]});
       body := "method not allowed" +:+ String "010" "" |}
  else
    {| status := 200;
       header := <["Cache-Control" := cacheControl h]>
         (<["Content-Length" := pretty (Z.of_nat (String.length (document h)))]>
         {["Content-Type" := KeySetContentType]});
       body := if bool_decide (method = "HEAD") then "" else document h |}.

(** ** keysource.go

    A source over the state [St]; what it answers may depend on the instant. *)
Abbreviation KeySource St := (Env → string → prog St ierr crypto_PublicKey) (only parsing).
Definition unknown_kid : ierr := Wrapf "kid" (Sentinel ErrUnknownKeyID).

(** A map entry without a key is [None]. *)
Abbreviation StaticKeys := (gmap string crypto_PublicKey) (only parsing).
Definition NewStaticKeys (keys : gmap string (option crypto_PublicKey)) : StaticKeys := omap id (delete "" keys).
Definition Static_KeyForKID {St} (s : StaticKeys) : KeySource St := λ _ kid,
  if bool_decide (kid = "") then throw unknown_kid
  else match s !! kid with
       | None => throw unknown_kid
       | Some key => mret key
       end.

Definition DefaultJWKSMinRefetchInterval : duration := (30 * Second)%Z.
Definition maxJWKSBytes : Z := (2 ^ 20)%Z.
Definition p256CoordinateBytes : nat := 32.
Definition minRSAModulusBits : N := 2048.

Record jwk : Type := {
  j_Kty : string; j_Kid : string; j_Crv : string; j_Use : string; j_X : string; j_Y : string; j_N : string; j_E : string
}.

(** The configuration; [client_set] and [clock_set] tell whether the client and the clock are
    not nil. *)
Record RemoteConfig : Type := {
  url : string; client_set : bool; ttl : duration; minRefetch : duration; clock_set : bool
}.
Record RemoteJWKS : Type := {
  cfg : RemoteConfig;
  keys : gmap string crypto_PublicKey;
  fetchedAt : time;
  lastAttempt : time;
}.
Abbreviation RemoteJWKSOption := (RemoteConfig → RemoteConfig) (only parsing).
Definition WithJWKSHTTPClient (present : bool) : RemoteJWKSOption := λ r,
  {| url := url r; client_set := present; ttl := ttl r; minRefetch := minRefetch r; clock_set := clock_set r |}.
Definition WithJWKSCacheTTL (d : duration) : RemoteJWKSOption := λ r,
  {| url := url r; client_set := client_set r; ttl := d; minRefetch := minRefetch r; clock_set := clock_set r |}.
Definition WithJWKSMinRefetchInterval (interval : duration) : RemoteJWKSOption := λ r,
  {| url := url r; client_set := client_set r; ttl := ttl r; minRefetch := interval; clock_set := clock_set r |}.
Definition WithJWKSClock (present : bool) : RemoteJWKSOption := λ r,
  {| url := url r; client_set := client_set r; ttl := ttl r; minRefetch := minRefetch r; clock_set := present |}.

(** [url.Parse], its scheme and host. *)
Definition NewRemoteJWKS (url_Parse : string → option (string * string)) (jwksURL : string)
    (opts : list RemoteJWKSOption) : outcome ierr RemoteJWKS :=
  let r := apply_options opts {| url := jwksURL; client_set := true; ttl := DefaultJWKSCacheTTL;
             minRefetch := DefaultJWKSMinRefetchInterval; clock_set := true |} in
  if bool_decide (url r = "") then Err (Sentinel ErrMissingJWKSURL)
  else match url_Parse (url r) with
  | None => Err (Wrapf "parse" (Sentinel ErrInvalidJWKSURL))
  | Some (scheme, host) =>
      if negb (bool_decide (scheme = "http")) && negb (bool_decide (scheme = "https"))
      then Err (Wrapf "got scheme" (Sentinel ErrInvalidJWKSURL))
      else if bool_decide (host = "") then Err (Wrapf "no host" (Sentinel ErrInvalidJWKSURL))
      else if negb (client_set r) then Err (Sentinel ErrNilHTTPClient)
      else if bool_decide (ttl r ≤ 0)%Z then Err (Wrapf "got" (Sentinel ErrInvalidCacheTTL))
      else if bool_decide (minRefetch r ≤ 0)%Z || bool_decide (ttl r < minRefetch r)%Z
      then Err (Wrapf "got" (Sentinel ErrInvalidRefetchInterval))
      else if negb (clock_set r) then Err (Sentinel ErrInvalidClock)
      else Ok {| cfg := r; keys := ∅; fetchedAt := 0%Z; lastAttempt := 0%Z |}
  end.

(** What the standard library does with a document and with a point. *)
Class KeyFormat : Type := {
  Unmarshal_jwks : string → option (list jwk);
  ParseUncompressedPublicKey : string → option ecdsa_PublicKey;
}.

Section keys.
Context {F : KeyFormat}.

Definition coordinate (encoded : string) (width : nat) : outcome jerr N :=
  if bool_decide (encoded = "") then Err (Errorf "coordinate is absent")
  else match base64_DecodeString URLAlphabet encoded with
       | None => Err (Errorf "coordinate is not unpadded base64url")
       | Some decoded =>
           if bool_decide (width < String.length decoded)%nat then Err (Errorf "coordinate is wider than the curve")
           else Ok (SetBytes (chars decoded))
       end.

(** The coordinates fit the buffer. *)
Definition point (x y : N) : string :=
  unchars ("004"%char :: padded p256CoordinateBytes (Int_Bytes x) ++ padded p256CoordinateBytes (Int_Bytes y)).
Definition ecPublicKey (k : jwk) : outcome jerr ecdsa_PublicKey :=
  if bool_decide (j_Crv k ≠ "P-256") then Err (Errorf "unsupported curve")
  else match coordinate (j_X k) p256CoordinateBytes with
       | Err err => Err (Wrapf "x" err)
       | Ok x =>
           match coordinate (j_Y k) p256CoordinateBytes with
           | Err err => Err (Wrapf "y" err)
           | Ok y =>
               match ParseUncompressedPublicKey (point x y) with
               | None => Err (Errorf "not a point of the curve")
               | Some pub => Ok pub
               end
           end
       end.

Definition rsaPublicKey (k : jwk) : outcome jerr rsa_PublicKey :=
  if bool_decide (j_N k = "") || bool_decide (j_E k = "") then Err (Errorf "modulus or exponent is absent")
  else match base64_DecodeString URLAlphabet (j_N k) with
       | None => Err (Errorf "modulus is not unpadded base64url")
       | Some modulusBytes =>
           match base64_DecodeString URLAlphabet (j_E k) with
           | None => Err (Errorf "exponent is not unpadded base64url")
           | Some exponentBytes =>
               let modulus := SetBytes (chars modulusBytes) in
               if bool_decide (N.size modulus < minRSAModulusBits)%N then Err (Errorf "modulus is below the floor")
               else
                 let exponent := SetBytes (chars exponentBytes) in
                 if bool_decide (31 < N.size exponent)%N then Err (Errorf "public exponent does not fit in an int")
                 else let e := Z.of_N exponent in
                      if bool_decide (e < 3)%Z || bool_decide (e `mod` 2 = 0)%Z
                      then Err (Errorf "public exponent is not usable")
                      else Ok {| pub_N := Some modulus; pub_E := e |}
           end
       end.

Definition publicKey (k : jwk) : outcome jerr crypto_PublicKey :=
  if bool_decide (j_Kty k = "EC") then
    match ecPublicKey k with Err err => Err err | Ok pub => Ok (ECDSAPublic (Some pub)) end
  else if bool_decide (j_Kty k = "RSA") then
    match rsaPublicKey k with Err err => Err err | Ok pub => Ok (RSAPublic (Some pub)) end
  else Err (Errorf "unsupported key type").

(** One turn of the loop of [parseJWKS]. *)
Definition add_entry (set : gmap string crypto_PublicKey) (entry : jwk) : gmap string crypto_PublicKey :=
  if bool_decide (j_Kid entry = "") || (negb (bool_decide (j_Use entry = "")) && negb (bool_decide (j_Use entry = "sig"))) then set
  else match set !! j_Kid entry with
       | Some _ => set
       | None => match publicKey entry with Err _ => set | Ok key => <[j_Kid entry := key]> set end
       end.
Definition parseJWKS (body : string) : outcome ierr (gmap string crypto_PublicKey) :=
  match Unmarshal_jwks body with
  | None => Err (Wrapf "unmarshal" (Sentinel ErrJWKSMalformed))
  | Some document =>
      let set := foldl add_entry ∅ document in
      if bool_decide (size set = 0%nat) then Err (Wrapf "no usable verification key" (Sentinel ErrJWKSMalformed)) else Ok set
  end.

(** The answer to a request: nothing, or a status and a body, which may fail to be
    read. *)
Abbreviation answer := (option (Z * option string)) (only parsing).
Definition fetch (resp : answer) : outcome ierr (gmap string crypto_PublicKey) :=
  match resp with
  | None => Err (Wrapf "do" (Sentinel ErrJWKSUnavailable))
  | Some (status, body) =>
      if bool_decide (status < 200)%Z || bool_decide (300 ≤ status)%Z then Err (Wrapf "responded" (Sentinel ErrJWKSUnavailable))
      else match body with
           | None => Err (Wrapf "read" (Sentinel ErrJWKSUnavailable))
           | Some body =>
               if bool_decide (maxJWKSBytes < Z.of_nat (String.length body))%Z
               then Err (Wrapf "document exceeds" (Sentinel ErrJWKSMalformed))
               else parseJWKS body
           end
  end.

Definition expiredLocked (now : time) (r : RemoteJWKS) : bool :=
  IsZero (fetchedAt r) || negb (Before now (fetchedAt r + ttl (cfg r))%Z).
Definition throttledLocked (now : time) (r : RemoteJWKS) : bool :=
  negb (IsZero (lastAttempt r)) && Before now (lastAttempt r + minRefetch (cfg r))%Z.

Definition set_attempt (now : time) (r : RemoteJWKS) : RemoteJWKS :=
  {| cfg := cfg r; keys := keys r; fetchedAt := fetchedAt r; lastAttempt := now |}.
Definition set_keys (set : gmap string crypto_PublicKey) (now : time) (r : RemoteJWKS) : RemoteJWKS :=
  {| cfg := cfg r; keys := set; fetchedAt := now; lastAttempt := lastAttempt r |}.
(** [resp] is what the issuer answers, should the lookup ask. *)
Definition refreshLocked (resp : answer) (now : time) : prog RemoteJWKS ierr unit :=
  _ ← modify (set_attempt now);
  set ← of_outcome (fetch resp);
  modify (set_keys set now).

(** [issuer_at] is what the issuer answers at an instant. *)
Definition Remote_KeyForKID (issuer_at : time → answer) : KeySource RemoteJWKS := λ e kid,
  if bool_decide (kid = "") then throw unknown_kid
  else
    r ← get;
    match keys r !! kid with
    | Some key =>
        if negb (expiredLocked (now e) r) then mret key
        else if throttledLocked (now e) r then mret key
        else _ ← refreshLocked (issuer_at (now e)) (now e); r ← get;
             match keys r !! kid with Some key => mret key | None => throw unknown_kid end
    | None =>
        if throttledLocked (now e) r then throw unknown_kid
        else _ ← refreshLocked (issuer_at (now e)) (now e); r ← get;
             match keys r !! kid with Some key => mret key | None => throw unknown_kid end
    end.
End keys.
