(* ===== verification/KeySourceProofs.v ===== *)
(** * Properties of published and fetched keys

    The document of a key set gives its key back; a cache asks the issuer no more
    often than its floor allows and is never further behind it than its
    lifetime. *)

From S2P Require Import Prelude Encoding Json Signature Identity KeySource.

(** ** Published keys *)

Lemma chars_unchars l : chars (unchars l) = l.
Proof. apply String.list_ascii_of_string_of_list_ascii. Qed.
Lemma b64url_decode l : base64_DecodeString URLAlphabet (b64url l) = Some (unchars l).
Proof. apply base64_Decode_Encode. Qed.
Lemma b64url_nonempty l : l ≠ [] → b64url l ≠ "".
Proof.
  intros Hl Hb. pose proof (b64url_decode l) as Hd. rewrite Hb in Hd. cbn in Hd. apply Hl.
  rewrite <-(chars_unchars l). by injection Hd as <-.
Qed.
Lemma SetBytes_strip l : SetBytes (strip_zeros l) = SetBytes l.
Proof.
  induction l as [|a l IH]; [done|]. cbn [strip_zeros]. destruct (_ && _) eqn:Hc; [|done].
  apply andb_prop in Hc as [_ ->%bool_decide_eq_true]. exact IH.
Qed.
Lemma strip_nonempty l : l ≠ [] → strip_zeros l ≠ [].
Proof.
  induction l as [|a l IH]; [done|]. intros _. cbn [strip_zeros]. destruct (bool_decide (l ≠ [])) eqn:Hl; [|done].
  apply bool_decide_eq_true in Hl. destruct (bool_decide _); cbn [andb]; [by apply IH|done].
Qed.
Lemma FillBytes_fits w n : (n < 256 ^ N.of_nat w)%N → FillBytes w n = Some (padded w (Int_Bytes n)).
Proof.
  intros Hn. unfold FillBytes. rewrite bool_decide_true; [done|]. by apply be_bytes_length.
Qed.
Lemma unchars_length l : String.length (unchars l) = length l.
Proof. by rewrite <-length_chars, chars_unchars. Qed.

Section keys.
Context {F : KeyFormat}.

Definition as_jwk (j : JWK) : jwk :=
  {| j_Kty := k_Kty j; j_Kid := k_Kid j; j_Crv := k_Crv j; j_Use := k_Use j; j_X := k_X j; j_Y := k_Y j;
     j_N := k_N j; j_E := k_E j |}.
(** The decoder reads back a document. *)
Definition reads_back (s : list JWK) : Prop := Unmarshal_jwks (MarshalJSON s) = Some (as_jwk <$> s).

(** A point of the curve, or a modulus and an exponent that are strong enough. *)
Definition p256 (x y : N) : ecdsa_PublicKey := {| Curve := Some "P-256"; pub_X := Some x; pub_Y := Some y |}.
Definition good_point (x y : N) : Prop :=
  (x < 256 ^ 32)%N ∧ (y < 256 ^ 32)%N ∧ ParseUncompressedPublicKey (point x y) = Some (p256 x y).
Definition good_modulus (n : N) (e : Z) : Prop := (2 ^ 2047 ≤ n)%N ∧ (3 ≤ e < 2 ^ 31)%Z ∧ (e mod 2 = 1)%Z.
Inductive publishable (s : Signer) : Prop :=
  | publish_ec x y : SigningAlgorithm s = "ES256" → Public s = ECDSAPublic (Some (p256 x y)) → good_point x y → publishable s
  | publish_rsa n e : SigningAlgorithm s = "RS256" → Public s = RSAPublic (Some {| pub_N := Some n; pub_E := e |}) →
      good_modulus n e → publishable s.

Lemma coordinate_published n :
  (n < 256 ^ 32)%N → coordinate (b64url (padded 32 (Int_Bytes n))) p256CoordinateBytes = Ok n.
Proof.
  intros Hn. destruct (padded_spec n 32 Hn) as [Hl Hv]. unfold coordinate.
  rewrite bool_decide_false by (apply b64url_nonempty; intros E; by rewrite E in Hl).
  rewrite b64url_decode, unchars_length, Hl, bool_decide_false by (unfold p256CoordinateBytes; lia).
  by rewrite chars_unchars, Hv.
Qed.

(** What a published key reads as. *)
Lemma published_ec x y kid j :
  good_point x y → MarshalECPublic (Some (p256 x y)) kid "ES256" "sig" = Returns (Ok j) →
  k_Kid j = kid ∧ k_Use j = "sig" ∧ publicKey (as_jwk j) = Ok (ECDSAPublic (Some (p256 x y))).
Proof.
  intros (Hx & Hy & Hp) Hj. unfold MarshalECPublic in Hj. cbn [p256 Curve pub_X pub_Y] in Hj.
  rewrite bool_decide_false in Hj by (intros E; by apply E).
  rewrite !FillBytes_fits in Hj by done. injection Hj as <-. cbn [k_Kid k_Use]. split_and!; [done..|].
  unfold publicKey, ecPublicKey, as_jwk. cbn [k_Kty k_Crv k_X k_Y k_N k_E j_Kty j_Crv j_X j_Y j_N j_E k_Kid j_Kid k_Use j_Use].
  rewrite bool_decide_true by done. rewrite bool_decide_false by (intros E; by apply E).
  unfold p256CoordBytes. rewrite !coordinate_published by done. by rewrite Hp.
Qed.

Lemma exponent_bytes e : (0 < e < 2 ^ 63)%Z →
  strip_zeros (padded 8 (Int_Bytes (Z.to_N e))) ≠ [] ∧
  SetBytes (strip_zeros (padded 8 (Int_Bytes (Z.to_N e)))) = Z.to_N e.
Proof.
  intros He. destruct (padded_spec (Z.to_N e) 8) as [Hl Hv].
  { change (256 ^ N.of_nat 8)%N with (Z.to_N (2 ^ 64)). apply Z2N.inj_lt; lia. }
  split; [|by rewrite SetBytes_strip]. apply strip_nonempty. intros E. by rewrite E in Hl.
Qed.

Lemma published_rsa n e kid j :
  good_modulus n e → MarshalRSAPublic (Some {| pub_N := Some n; pub_E := e |}) kid "RS256" "sig" = Ok j →
  k_Kid j = kid ∧ k_Use j = "sig" ∧ publicKey (as_jwk j) = Ok (RSAPublic (Some {| pub_N := Some n; pub_E := e |})).
Proof.
  intros (Hn & He & Ho) Hj. unfold MarshalRSAPublic in Hj. cbn [pub_N pub_E] in Hj.
  rewrite bool_decide_false in Hj by lia. injection Hj as <-. cbn [k_Kid k_Use]. split_and!; [done..|].
  unfold publicKey, rsaPublicKey, as_jwk. cbn [k_Kty k_Crv k_X k_Y k_N k_E j_Kty j_Crv j_X j_Y j_N j_E k_Kid j_Kid k_Use j_Use].
  rewrite (bool_decide_false ("RSA" = "EC")), (bool_decide_true ("RSA" = "RSA")) by done.
  destruct (exponent_bytes e) as [Hne Hv]; [lia|].
  assert (Int_Bytes n ≠ []) as Hnn.
  { intros E. pose proof (Int_Bytes_value n) as Hv0. rewrite E in Hv0. cbn in Hv0. subst n. by apply Hn. }
  rewrite !bool_decide_false by (by apply b64url_nonempty). cbn [orb]. rewrite !b64url_decode, !chars_unchars.
  rewrite Int_Bytes_value, Hv. rewrite (bool_decide_false (_ < _)%N).
  2: { unfold minRSAModulusBits. intros Hs. pose proof (N.size_gt n) as Hg.
       assert (2 ^ N.size n ≤ 2 ^ 2047)%N by (apply N.pow_le_mono_r; lia). lia. }
  rewrite (bool_decide_false (31 < _)%N).
  2: { intros Hs. assert (Z.to_N e < 2 ^ 31)%N as Hlt by (change (2 ^ 31)%N with (Z.to_N (2 ^ 31)); apply Z2N.inj_lt; lia).
       pose proof (N.size_le (Z.to_N e)) as Hle.
       assert (2 ^ 32 ≤ 2 ^ N.size (Z.to_N e))%N by (apply N.pow_le_mono_r; lia). lia. }
  rewrite Z2N.id by lia. rewrite !bool_decide_false by lia. done.
Qed.

Lemma parse_single j kid key :
  reads_back [j] → k_Kid j = kid → kid ≠ "" → k_Use j = "sig" → publicKey (as_jwk j) = Ok key →
  parseJWKS (MarshalJSON [j]) = Ok {[kid := key]}.
Proof.
  intros Hr Hk Hne Hu Hp. unfold parseJWKS. rewrite Hr.
  assert (foldl add_entry ∅ (as_jwk <$> [j]) = {[kid := key]}) as ->.
  { cbn [fmap list_fmap foldl]. unfold add_entry. cbn [as_jwk j_Kid j_Use]. rewrite Hk, Hu, bool_decide_false by done.
    rewrite (bool_decide_true ("sig" = "sig")) by done. cbn [negb orb]. rewrite andb_false_r, lookup_empty.
    change {| j_Kty := _; j_Kid := _; j_Crv := _; j_Use := _; j_X := _; j_Y := _; j_N := _; j_E := _ |} with (as_jwk j).
    by rewrite Hp. }
  by rewrite bool_decide_false by (by rewrite map_size_singleton).
Qed.

(** What [NewKeySetHandler] publishes. *)
Lemma handler_document s opts h :
  NewKeySetHandler (Some s) opts = Returns (Ok h) →
  KeyID s ≠ "" ∧ ∃ set, AddSigningKey (Some s) (KeyID s) [] = Returns (Ok set) ∧ document h = MarshalJSON set.
Proof.
  unfold NewKeySetHandler. destruct (bool_decide (maxAge _ < Second)%Z); [done|].
  destruct (bool_decide (KeyID s = "")) eqn:Hk; [done|]. apply bool_decide_eq_false in Hk.
  destruct (AddSigningKey _ _ _) as [[set|]|]; [|done..]. intros Hh. split; [done|]. exists set. split; [done|].
  by injection Hh as <-.
Qed.

Lemma published_key s opts h :
  publishable s → NewKeySetHandler (Some s) opts = Returns (Ok h) →
  (∀ set, AddSigningKey (Some s) (KeyID s) [] = Returns (Ok set) → reads_back set) →
  parseJWKS (document h) = Ok {[KeyID s := Public s]}.
Proof.
  intros Hs (Hk & set & Hset & Hd)%handler_document Hr. specialize (Hr set Hset). rewrite Hd.
  unfold AddSigningKey in Hset. rewrite (bool_decide_false (KeyID s = "")) in Hset by done.
  destruct Hs as [x y Ha Hp Hg|n e Ha Hp Hg]; rewrite Ha, Hp in Hset; rewrite Hp.
  - rewrite (bool_decide_true ("ES256" = "ES256")) in Hset by done.
    destruct (MarshalECPublic _ _ _ _) as [[j|]|] eqn:Hj; [|done..]. injection Hset as <-.
    destruct (published_ec _ _ _ _ Hg Hj) as (? & ? & ?). by apply parse_single.
  - rewrite (bool_decide_false ("RS256" = "ES256")), (bool_decide_true ("RS256" = "RS256")) in Hset by done.
    destruct (MarshalRSAPublic _ _ _ _) as [j|] eqn:Hj; [|done]. injection Hset as <-.
    destruct (published_rsa _ _ _ _ Hg Hj) as (? & ? & ?). by apply parse_single.
Qed.

(** The document of a key set resolves to the key that signs: a P-256 point or an
    RSA key of at least 2048 bits is read back, whole, under the identifier of its
    signer, and nothing else is. *)
Theorem published_key_resolves s opts h :
  publishable s → NewKeySetHandler (Some s) opts = Returns (Ok h) →
  (∀ set, AddSigningKey (Some s) (KeyID s) [] = Returns (Ok set) → reads_back set) →
  parseJWKS (document h) = Ok {[KeyID s := Public s]}.
Proof. apply published_key. Qed.

Lemma weak_modulus n e : (n < 2 ^ 2047)%N → is_Ok (rsaPublicKey
  {| j_Kty := "RSA"; j_Kid := e.1; j_Crv := ""; j_Use := "sig"; j_X := ""; j_Y := ""; j_N := b64url (Int_Bytes n); j_E := e.2 |}) = false.
Proof.
  intros Hn. unfold rsaPublicKey. cbn [j_N j_E]. destruct (_ || _); [done|]. rewrite b64url_decode.
  destruct (base64_DecodeString _ _); [|done]. rewrite chars_unchars, Int_Bytes_value, bool_decide_true; [done|].
  unfold minRSAModulusBits. apply N.lt_nge. intros Hs. pose proof (N.size_le n) as Hle.
  assert (2 ^ 2048 ≤ 2 ^ N.size n)%N as Hp by (apply N.pow_le_mono_r; lia).
  rewrite N.succ_double_spec in Hle. change (2 ^ 2048)%N with (2 * 2 ^ 2047)%N in Hp. lia.
Qed.

(** An RSA key of fewer than 2048 bits is published without an error, and no source
    of this package resolves it: the document counts as malformed. *)
Theorem weak_key_published (s : Signer) n e :
  KeyID s ≠ "" → SigningAlgorithm s = "RS256" → Public s = RSAPublic (Some {| pub_N := Some n; pub_E := e |}) →
  (0 < e)%Z → (n < 2 ^ 2047)%N →
  (∀ set, AddSigningKey (Some s) (KeyID s) [] = Returns (Ok set) → reads_back set) →
  ∃ h, NewKeySetHandler (Some s) [] = Returns (Ok h) ∧
    parseJWKS (document h) = Err (Wrapf "no usable verification key" (Sentinel ErrJWKSMalformed)).
Proof.
  intros Hk Ha Hp He Hn Hr. unfold NewKeySetHandler. cbn [apply_options foldl maxAge].
  rewrite (bool_decide_false (DefaultKeySetMaxAge < Second)%Z) by done. rewrite (bool_decide_false (KeyID s = "")) by done.
  unfold AddSigningKey in *. rewrite (bool_decide_false (KeyID s = "")) in * by done. rewrite Ha, Hp in *.
  rewrite (bool_decide_false ("RS256" = "ES256")), (bool_decide_true ("RS256" = "RS256")) in * by done.
  unfold MarshalRSAPublic in *. cbn [pub_N pub_E] in *. rewrite (bool_decide_false (e ≤ 0)%Z) in * by lia.
  eexists. split; [reflexivity|]. cbn [document]. specialize (Hr _ eq_refl). cbn [app] in *. unfold parseJWKS. rewrite Hr.
  assert (foldl add_entry ∅ (as_jwk <$> [{| k_Kty := "RSA"; k_Crv := ""; k_Alg := "RS256"; k_Use := "sig"; k_Kid := KeyID s;
    k_X := ""; k_Y := ""; k_N := b64url (Int_Bytes n);
    k_E := b64url (strip_zeros (padded 8 (Int_Bytes (Z.to_N e)))) |}]) = ∅) as ->; [|done].
  cbn [fmap list_fmap foldl]. unfold add_entry. destruct (_ || _); [done|]. rewrite lookup_empty. unfold publicKey.
  cbn [as_jwk j_Kty k_Kty k_Kid k_Crv k_Use k_X k_Y k_N k_E]. rewrite (bool_decide_false ("RSA" = "EC")), (bool_decide_true ("RSA" = "RSA")) by done.
  pose proof (weak_modulus n (KeyID s, b64url (strip_zeros (padded 8 (Int_Bytes (Z.to_N e))))) Hn) as Hw. cbn [fst snd] in Hw.
  by destruct (rsaPublicKey _).
Qed.
End keys.

(** ** The cache of a published document *)

Section remote.
Context {F : KeyFormat} (issuer_at : time → option (Z * option string)).
Implicit Types (r : RemoteJWKS) (l : list (Env * string)).

(** A source that has not been asked yet. *)
Definition fresh (c : RemoteConfig) : RemoteJWKS := {| cfg := c; keys := ∅; fetchedAt := 0%Z; lastAttempt := 0%Z |}.
Lemma new_remote parse u opts r :
  NewRemoteJWKS parse u opts = Ok r → r = fresh (cfg r) ∧ (0 < minRefetch (cfg r) ≤ ttl (cfg r))%Z.
Proof.
  unfold NewRemoteJWKS. set (c := apply_options _ _). destruct (bool_decide (url c = "")); [done|].
  destruct (parse _) as [[scheme host]|]; [|done]. destruct (negb _ && negb _); [done|].
  destruct (bool_decide (host = "")); [done|]. destruct (negb (client_set c)); [done|].
  destruct (bool_decide (ttl c ≤ 0)%Z); [done|]. destruct (bool_decide (minRefetch c ≤ 0)%Z || _) eqn:Hm; [done|].
  destruct (negb (clock_set c)); [done|]. intros [= <-]. split; [done|].
  apply orb_false_iff in Hm as [H1%bool_decide_eq_false H2%bool_decide_eq_false]. cbn [cfg]. lia.
Qed.

(** A lookup that asks the issuer. *)
Definition asks (e : Env) (kid : string) r : bool :=
  negb (bool_decide (kid = "")) && negb (throttledLocked (now e) r)
  && match keys r !! kid with Some _ => expiredLocked (now e) r | None => true end.
Definition answer_of (o : option crypto_PublicKey) : outcome (goerr identity_error) crypto_PublicKey :=
  match o with Some key => Ok key | None => Err unknown_kid end.
(** The source after an attempt at this instant. *)
Definition attempted (t : time) r : RemoteJWKS :=
  match fetch (issuer_at t) with
  | Ok set => set_keys set t (set_attempt t r)
  | Err _ => set_attempt t r
  end.

Lemma lookup_spec e kid r :
  Remote_KeyForKID issuer_at e kid r =
  if asks e kid r then
    (match fetch (issuer_at (now e)) with Ok set => answer_of (set !! kid) | Err err => Err err end, attempted (now e) r)
  else (if bool_decide (kid = "") then Err unknown_kid else answer_of (keys r !! kid), r).
Proof.
  unfold Remote_KeyForKID, asks, attempted. case_bool_decide as Hk; [done|]. cbn [negb andb].
  unfold get, throw, refreshLocked, modify, of_outcome, mbind, prog_bind, mret, prog_ret. cbv beta iota.
  destruct (keys r !! kid) as [key|] eqn:Hkey; [destruct (expiredLocked (now e) r); cbn [negb]; [|by rewrite andb_false_r]|];
    rewrite andb_true_r; (destruct (throttledLocked (now e) r); [done|]); cbn [negb];
    (destruct (fetch _) as [set|err]; [|done]); cbn [keys set_keys]; by destruct (set !! kid).
Qed.

Lemma lookup_state e kid r :
  (Remote_KeyForKID issuer_at e kid r).2 = if asks e kid r then attempted (now e) r else r.
Proof. rewrite lookup_spec. by destruct (asks e kid r). Qed.

Lemma attempted_cfg t r : cfg (attempted t r) = cfg r.
Proof. unfold attempted. by destruct (fetch _). Qed.
Lemma attempted_last t r : lastAttempt (attempted t r) = t.
Proof. unfold attempted. by destruct (fetch _). Qed.

(** The instants at which a sequence of lookups asks, and the source after it. *)
Fixpoint attempts l r : list time :=
  match l with
  | [] => []
  | (e, kid) :: l =>
      let rest := attempts l (Remote_KeyForKID issuer_at e kid r).2 in
      if asks e kid r then now e :: rest else rest
  end.
Definition run l r : RemoteJWKS := foldl (λ r '(e, kid), (Remote_KeyForKID issuer_at e kid r).2) r l.

Lemma attempts_after l r t i :
  Forall (λ ek, 0 < now ek.1)%Z l → (0 < lastAttempt r)%Z → (0 ≤ minRefetch (cfg r))%Z → attempts l r !! i = Some t →
  (lastAttempt r + (Z.of_nat i + 1) * minRefetch (cfg r) ≤ t)%Z.
Proof.
  revert r i. induction l as [|[e kid] l IH]; intros r i Hl Hr Hm Ht; [done|]. apply Forall_cons in Hl as [He Hl].
  cbn [attempts] in Ht. rewrite lookup_state in Ht. destruct (asks e kid r) eqn:Ha; [|by apply IH].
  unfold asks, throttledLocked in Ha. apply andb_prop in Ha as [[_ Ha]%andb_prop _].
  unfold IsZero, Before in Ha. rewrite bool_decide_false in Ha by lia.
  apply negb_true_iff, andb_false_iff in Ha as [Ha|Ha]; [done|]. apply bool_decide_eq_false in Ha.
  destruct i as [|i].
  - injection Ht as <-. lia.
  - specialize (IH (attempted (now e) r) i Hl). rewrite attempted_last, attempted_cfg in IH.
    specialize (IH He Hm Ht). cbn in He. lia.
Qed.

(** C38: whatever identifiers are looked up, and whatever the issuer answers, two requests
    to the issuer are at least the floor apart — [n] floors, when [n - 1] requests are
    between them — and a lookup that makes no request does not depend on the
    issuer. *)
Theorem fetch_floor parse u opts l r i j a b :
  NewRemoteJWKS parse u opts = Ok r → Forall (λ ek, 0 < now ek.1)%Z l → (i < j)%nat →
  attempts l r !! i = Some a → attempts l r !! j = Some b →
  (a + Z.of_nat (j - i) * minRefetch (cfg r) ≤ b)%Z ∧
  ∀ other e kid r', asks e kid r' = false → Remote_KeyForKID issuer_at e kid r' = Remote_KeyForKID (λ _, other) e kid r'.
Proof.
  intros [_ Hnew]%new_remote Hl Hij Ha Hb. assert (0 ≤ minRefetch (cfg r))%Z as Hm by lia. clear Hnew. split.
  2: { intros other e kid r' Hn. unfold asks in Hn. unfold Remote_KeyForKID. case_bool_decide; [done|].
       cbn [negb andb] in Hn. unfold get, throw, mbind, prog_bind, mret, prog_ret. cbv beta iota.
       destruct (keys r' !! kid); destruct (throttledLocked _ _); cbn [negb andb] in Hn |- *; try done.
       by rewrite Hn. }
  revert r i j Hm Hij Ha Hb. induction l as [|[e kid] l IH]; intros r i j Hm Hij Ha Hb; [done|].
  apply Forall_cons in Hl as [He Hl]. cbn [attempts] in Ha, Hb. rewrite lookup_state in Ha, Hb.
  destruct (asks e kid r); [|by eapply IH]. destruct j as [|j]; [lia|]. cbn in Hb. destruct i as [|i].
  - injection Ha as <-. pose proof (attempts_after l (attempted (now e) r) b j Hl) as Hx.
    rewrite attempted_last, attempted_cfg in Hx. specialize (Hx He Hm Hb). lia.
  - specialize (IH Hl (attempted (now e) r) i j). rewrite attempted_cfg in IH. apply IH; [done|lia|done..].
Qed.

(** What the source knows of the issuer: its keys are those of an answer, and its
    last attempt either brought them or failed. *)
Record knows r : Prop := {
  known_keys : fetchedAt r ≠ 0%Z → fetch (issuer_at (fetchedAt r)) = Ok (keys r);
  known_last : lastAttempt r ≠ 0%Z → fetchedAt r = lastAttempt r ∨ is_Ok (fetch (issuer_at (lastAttempt r))) = false;
  known_none : lastAttempt r = 0%Z → fetchedAt r = 0%Z;
  known_empty : fetchedAt r = 0%Z → keys r = ∅;
}.
Lemma knows_attempted t r : t ≠ 0%Z → knows r → knows (attempted t r).
Proof.
  intros Ht [H1 H2 H3 H4]. unfold attempted. destruct (fetch (issuer_at t)) as [set|err] eqn:Hf; split; cbn; try done.
  - by left.
  - intros _. right. by rewrite Hf.
Qed.
Lemma knows_run l r : Forall (λ ek, 0 < now ek.1)%Z l → knows r → knows (run l r) ∧ cfg (run l r) = cfg r.
Proof.
  revert r. induction l as [|[e kid] l IH]; intros r Hl Hr; [done|]. apply Forall_cons in Hl as [He Hl].
  cbn [run foldl]. rewrite lookup_state. destruct (asks e kid r); [|by apply IH]. cbn in He.
  destruct (IH (attempted (now e) r) Hl) as [Hk Hc]; [apply knows_attempted; [lia|done]|].
  split; [exact Hk|]. etrans; [exact Hc|apply attempted_cfg].
Qed.

(** The instants a source remembers are those at which it asked. *)
Lemma run_instants l r :
  (lastAttempt (run l r) = lastAttempt r ∨ lastAttempt (run l r) ∈ attempts l r) ∧
  (fetchedAt (run l r) = fetchedAt r ∨ fetchedAt (run l r) ∈ attempts l r).
Proof.
  revert r. induction l as [|[e kid] l IH]; intros r; [by auto|]. cbn [run foldl attempts]. rewrite !lookup_state.
  destruct (asks e kid r); [|apply IH]. fold (run l (attempted (now e) r)).
  destruct (IH (attempted (now e) r)) as [H1 H2]. rewrite attempted_last in H1.
  assert (fetchedAt (attempted (now e) r) = fetchedAt r ∨ fetchedAt (attempted (now e) r) = now e) as Hf
    by (unfold attempted; destruct (fetch _); by auto).
  rewrite !elem_of_cons. split; [tauto|]. destruct H2 as [->|?]; tauto.
Qed.

(** What a lookup gives when every usable answer from [T] on agrees on an identifier and
    a cache lifetime has passed. *)
Lemma source_answers parse u opts r0 l e kid T o :
  NewRemoteJWKS parse u opts = Ok r0 → Forall (λ ek, 0 < now ek.1)%Z (l ++ [(e, kid)]) → kid ≠ "" → (0 < T)%Z →
  (∀ t set, (T ≤ t)%Z → fetch (issuer_at t) = Ok set → set !! kid = o) → (T + ttl (cfg r0) ≤ now e)%Z →
  let got := (Remote_KeyForKID issuer_at e kid (run l r0)).1 in
  got = answer_of o ∨ (∃ err, fetch (issuer_at (now e)) = Err err ∧ got = Err err) ∨
  ∃ t, t ∈ attempts l r0 ∧ (now e < t + minRefetch (cfg r0))%Z ∧ is_Ok (fetch (issuer_at t)) = false ∧
    (got = Err unknown_kid ∨
     ∃ t0 set, t0 ∈ attempts l r0 ∧ fetch (issuer_at t0) = Ok set ∧ got = answer_of (set !! kid)).
Proof.
  intros [E Hm]%new_remote [Hl He]%Forall_app Hk HT Hissuer Hnow got. apply Forall_singleton in He. cbn in He.
  assert (knows r0) as Hk0 by (rewrite E; done).
  destruct (knows_run l r0 Hl Hk0) as [Hr Hc]. destruct (run_instants l r0) as [Hlast Hfetched].
  unfold got. clear got. set (r := run l r0) in *. rewrite lookup_spec. destruct (asks e kid r) eqn:Ha; cbn [fst].
  { destruct (fetch (issuer_at (now e))) as [set|err] eqn:Hf; [left|right; left; by exists err].
    by rewrite (Hissuer (now e) set) by (done || lia). }
  rewrite bool_decide_false by done. unfold asks in Ha. rewrite bool_decide_false in Ha by done. cbn [negb andb] in Ha.
  assert (fetchedAt r ≠ 0%Z → (T ≤ fetchedAt r)%Z → answer_of (keys r !! kid) = answer_of o) as Hgood
    by (intros Hz Hf; by rewrite (Hissuer _ _ Hf (known_keys r Hr Hz))).
  destruct (throttledLocked (now e) r) eqn:Ht.
  2: { left. cbn in Ha. destruct (keys r !! kid) eqn:Hkey; [|done]. rewrite <-Hkey. unfold expiredLocked in Ha.
       apply orb_false_iff in Ha as [_ Hx]. apply negb_false_iff, bool_decide_eq_true in Hx. rewrite Hc in Hx.
       rewrite <-Hkey in Hgood. apply Hgood; lia. }
  unfold throttledLocked in Ht. apply andb_prop in Ht as [Hz Ht]. apply negb_true_iff, bool_decide_eq_false in Hz.
  apply bool_decide_eq_true in Ht. rewrite Hc in Ht.
  destruct (known_last r Hr Hz) as [Hf|Hfail]; [left; apply Hgood; lia|].
  right; right. exists (lastAttempt r). destruct Hlast as [Hl0|Hlast]; [by rewrite E in Hl0; cbn in Hl0; congruence|].
  split_and!; [done|lia|done|]. destruct (keys r !! kid) as [key|] eqn:Hkey; [right|by left].
  destruct (decide (fetchedAt r = 0%Z)) as [H0|H0]; [by rewrite (known_empty r Hr H0), lookup_empty in Hkey|].
  exists (fetchedAt r), (keys r). destruct Hfetched as [Hf0|Hfetched]; [by rewrite E in Hf0; cbn in Hf0; congruence|].
  split_and!; [done|by apply known_keys|by rewrite Hkey].
Qed.

Lemma source_heals parse u opts r0 l e kid T o :
  NewRemoteJWKS parse u opts = Ok r0 → Forall (λ ek, 0 < now ek.1)%Z (l ++ [(e, kid)]) → kid ≠ "" → (0 < T)%Z →
  (∀ t, (T ≤ t)%Z → ∃ set, fetch (issuer_at t) = Ok set ∧ set !! kid = o) → (T + ttl (cfg r0) ≤ now e)%Z →
  (Remote_KeyForKID issuer_at e kid (run l r0)).1 = answer_of o.
Proof.
  intros [-> Hm]%new_remote [Hl He%Forall_singleton]%Forall_app Hk HT Hissuer. cbn [fresh cfg] in *.
  set (c := cfg r0) in *. intros Hnow.
  destruct (knows_run l (fresh c) Hl) as [Hr Hc]; [done|]. set (r := run l (fresh c)) in *. change (cfg (fresh c)) with c in Hc.
  rewrite lookup_spec. destruct (asks e kid r) eqn:Ha; cbn [fst].
  { destruct (Hissuer (now e)) as (set & -> & <-); [|done]. lia. }
  rewrite bool_decide_false by done. unfold asks in Ha. rewrite bool_decide_false in Ha by done. cbn [negb andb] in Ha.
  assert (throttledLocked (now e) r = false ∧ expiredLocked (now e) r = false ∨ throttledLocked (now e) r = true) as Hcase.
  { destruct (throttledLocked (now e) r); [by right|]. left. split; [done|]. cbn in Ha. by destruct (keys r !! kid). }
  assert ((T ≤ fetchedAt r)%Z) as HF.
  { destruct Hcase as [[_ Hx]|Ht].
    - unfold expiredLocked in Hx. apply orb_false_iff in Hx as [_ Hx]. apply negb_false_iff, bool_decide_eq_true in Hx.
      rewrite Hc in Hx. lia.
    - unfold throttledLocked in Ht. apply andb_prop in Ht as [Hz Ht]. apply negb_true_iff, bool_decide_eq_false in Hz.
      apply bool_decide_eq_true in Ht. rewrite Hc in Ht. assert (T ≤ lastAttempt r)%Z as HTl by lia.
      destruct (known_last r Hr Hz) as [->|Hf]; [done|]. destruct (Hissuer _ HTl) as (set & E & _). by rewrite E in Hf. }
  destruct (Hissuer _ HF) as (set & Hf & <-). rewrite (known_keys r Hr) in Hf by lia. by injection Hf as ->.
Qed.

(** C37: suppose that from [T] on every usable answer of the issuer agrees on [kid] — the
    key was rotated under its identifier, or withdrawn — and that a cache lifetime has
    passed.  Then a lookup gives what the issuer says, whatever has been looked up and
    answered before, provided no fetch of the last floor failed, the lookup's own
    included.  Otherwise the lookup's own fetch failed and it gives that failure; or an
    earlier fetch failed less than a floor ago, and the lookup gives what some earlier
    answer said, which may be a withdrawn key, or that it does not know the identifier. *)
Theorem rotation_heals parse u opts r0 l e kid T o :
  NewRemoteJWKS parse u opts = Ok r0 → Forall (λ ek, 0 < now ek.1)%Z (l ++ [(e, kid)]) → kid ≠ "" → (0 < T)%Z →
  (∀ t set, (T ≤ t)%Z → fetch (issuer_at t) = Ok set → set !! kid = o) → (T + ttl (cfg r0) ≤ now e)%Z →
  let got := (Remote_KeyForKID issuer_at e kid (run l r0)).1 in
  let failed t := is_Ok (fetch (issuer_at t)) = false in
  ((∀ t, t ∈ attempts l r0 ++ [now e] → (now e < t + minRefetch (cfg r0))%Z → ¬ failed t) → got = answer_of o) ∧
  (got ≠ answer_of o →
   (∃ err, fetch (issuer_at (now e)) = Err err ∧ got = Err err) ∨
   ∃ t, t ∈ attempts l r0 ∧ (now e < t + minRefetch (cfg r0))%Z ∧ failed t ∧
     (got = Err unknown_kid ∨
      ∃ t0 set, t0 ∈ attempts l r0 ∧ (t0 < T)%Z ∧ fetch (issuer_at t0) = Ok set ∧ got = answer_of (set !! kid))).
Proof.
  intros Hnew Hl Hk HT Hissuer Hnow got failed. pose proof (new_remote _ _ _ _ Hnew) as [_ Hm].
  pose proof (source_answers _ _ _ _ _ _ _ _ _ Hnew Hl Hk HT Hissuer Hnow) as Hcases. fold got in Hcases.
  split.
  - intros Hok. destruct Hcases as [?|[(err & Hf & _)|(t & Hin & Hlt & Hf & _)]]; [done|exfalso..].
    + apply (Hok (now e)); [apply elem_of_app; right; by left|lia|]. unfold failed. by rewrite Hf.
    + apply (Hok t); [by apply elem_of_app; left|done..].
  - intros Hne. destruct Hcases as [?|[?|(t & Hin & Hlt & Hf & Hgot)]]; [done|by left|right].
    exists t. split_and!; [done..|]. destruct Hgot as [?|(t0 & set & Hin0 & Hset & Hgot)]; [by left|right].
    exists t0, set. split_and!; [done| |done..]. destruct (decide (t0 < T)%Z) as [|Hge]; [done|].
    destruct Hne. rewrite Hgot. by rewrite (Hissuer t0 set) by (done || lia).
Qed.
End remote.

(** ** Witnesses *)

(** A signer, and a decoder and a curve that know its key alone. *)
Definition ex_kms (kid alg : string) (pub : crypto_PublicKey) : Signer :=
  {| Public := pub; kms := {| KeyID := kid; SigningAlgorithm := alg; Sign := λ _, Some "der" |}; HealthCheck := None |}.
Definition ex_ec : Signer := ex_kms "k1" "ES256" (ECDSAPublic (Some (p256 1 2))).
Definition ex_rsa : Signer := ex_kms "k2" "RS256" (RSAPublic (Some {| pub_N := Some 35%N; pub_E := 3 |})).
Definition ex_set (s : Signer) : list JWK :=
  match AddSigningKey (Some s) (KeyID s) [] with Returns (Ok set) => set | _ => [] end.
Definition ex_format (s : Signer) : KeyFormat := {|
  Unmarshal_jwks := λ text, if bool_decide (text = MarshalJSON (ex_set s)) then Some (as_jwk <$> ex_set s) else None;
  ParseUncompressedPublicKey := λ text, if bool_decide (text = point 1 2) then Some (p256 1 2) else None |}.
Definition ex_handler (s : Signer) : KeySetHandler :=
  match NewKeySetHandler (Some s) [] with
  | Returns (Ok h) => h
  | _ => {| document := ""; cacheControl := ""; maxAge := 0 |}
  end.

Lemma published_key_resolves_witness :
  parseJWKS (F := ex_format ex_ec) (document (ex_handler ex_ec)) = Ok {["k1" := Public ex_ec]}.
Proof.
  apply (published_key_resolves (F := ex_format ex_ec) ex_ec [] (ex_handler ex_ec)).
  - apply (publish_ec (F := ex_format ex_ec) ex_ec 1 2); [done|done|]. split_and!; by vm_compute.
  - by vm_compute.
  - intros set [= <-]. by vm_compute.
Defined.
Lemma weak_key_published_witness :
  ∃ h, NewKeySetHandler (Some ex_rsa) [] = Returns (Ok h) ∧
    parseJWKS (F := ex_format ex_rsa) (document h) = Err (Wrapf "no usable verification key" (Sentinel ErrJWKSMalformed)).
Proof.
  apply (weak_key_published (F := ex_format ex_rsa) ex_rsa 35 3); [done..|by vm_compute|].
  intros set [= <-]. by vm_compute.
Defined.

(** An issuer that is down until second 100, and lookups that start before. *)
Definition ex_at (n : Z) : Env := {| now := n * Second; new_id := N.of_nat; order := canonical_range |}.
Definition ex_issuer_at (t : time) : option (Z * option string) :=
  if bool_decide (t < 100 * Second)%Z then None else Some (200%Z, Some (document (ex_handler ex_ec))).
Definition ex_url (u : string) : option (string * string) := Some ("https", "issuer").
Definition ex_lookups : list (Env * string) := [(ex_at 1, "k1"); (ex_at 20, "k7"); (ex_at 40, "k1"); (ex_at 110, "k7")].
Definition ex_source : RemoteJWKS :=
  fresh {| url := "u"; client_set := true; ttl := 300 * Second; minRefetch := 30 * Second; clock_set := true |}.
Lemma fetch_floor_witness :
  (1 * Second + Z.of_nat (2 - 0) * (30 * Second) ≤ 110 * Second)%Z ∧
  ∀ other e kid r', asks e kid r' = false →
    Remote_KeyForKID (F := ex_format ex_ec) ex_issuer_at e kid r' = Remote_KeyForKID (F := ex_format ex_ec) (λ _, other) e kid r'.
Proof.
  apply (fetch_floor (F := ex_format ex_ec) ex_issuer_at ex_url "u" [] ex_lookups ex_source 0 2).
  - by vm_compute.
  - apply (bool_decide_unpack _). by vm_compute.
  - lia.
  - by vm_compute.
  - by vm_compute.
Defined.
Lemma rotation_heals_witness :
  let got := (Remote_KeyForKID (F := ex_format ex_ec) ex_issuer_at (ex_at 400) "k1" (run (F := ex_format ex_ec) ex_issuer_at ex_lookups ex_source)).1 in
  got = Ok (Public ex_ec).
Proof.
  intros got. eapply (rotation_heals (F := ex_format ex_ec) ex_issuer_at ex_url "u" [] ex_source ex_lookups (ex_at 400) "k1" (100 * Second)
    (Some (Public ex_ec))).
  - by vm_compute.
  - apply (bool_decide_unpack _). by vm_compute.
  - done.
  - done.
  - intros t set Ht. unfold ex_issuer_at. rewrite bool_decide_false by lia. intros Hset.
    assert (fetch (F := ex_format ex_ec) (Some (200%Z, Some (document (ex_handler ex_ec)))) = Ok {["k1" := Public ex_ec]}) as E by (by vm_compute).
    rewrite E in Hset. by injection Hset as <-.
  - vm_compute. done.
  - intros t Hin Hlt. assert (t = now (ex_at 400)) as ->.
    { assert (Forall (λ t, (400 * Second < t + 30 * Second)%Z → t = (400 * Second)%Z) (attempts (F := ex_format ex_ec) ex_issuer_at ex_lookups ex_source ++ [(400 * Second)%Z]))
        as Hall by (apply (bool_decide_unpack _); by vm_compute).
      rewrite Forall_forall in Hall. by apply Hall. }
    by vm_compute.
Defined.
