(* ===== verification/Verifier.v ===== *)
(** * Minting and verifying identity contexts (platform/identity: minter.go, issuer.go, verifier.go)

    A minter states claims and signs them; an issuer composes it with the
    verification of a credential and the resolution of its claims; a verifier
    checks contexts against the issuers it trusts.  golang-jwt, the credential
    verifier and the resolver are parameters. *)

From S2P Require Import Prelude Encoding Json Signature Identity KeySource.

(** [jwt.NewNumericDate] truncates to the second. *)
Definition NumericDate (t : time) : time := ((t `div` Second) * Second)%Z.

(** golang-jwt: the signing input of a header and claims, the compact form of an
    input and its signature, reading a text without verifying it, and the check of its
    own ES256 and RS256 methods. *)
Record Token : Type := {
  t_alg : string;
  t_kid : option string;
  t_typ : option string;
  t_claims : Claims;
  t_input : string;
  t_sig : string;
}.
Class ContextJWT : Type := {
  SigningString : gmap string string → Claims → string;
  Compact : string → string → string;
  ParseUnverified : string → option Token;
  library_Verify : string → crypto_PublicKey → string → string → bool;
}.

(** ** minter.go *)

Definition DefaultTTL : duration := (15 * Minute)%Z.
Record MintInput : Type := {
  in_Subject : string; in_Tenant : string; in_Entitlements : option (list string); in_Assurance : string;
  in_TokenID : string; in_TokenRef : string;
}.
(** The two methods of the signing seam. *)
Inductive SigningMethod : Type := ES256SigningMethod | RS256SigningMethod.
Definition Alg (m : SigningMethod) : string :=
  match m with ES256SigningMethod => "ES256" | RS256SigningMethod => "RS256" end.

(** What the options adjust. *)
Record MinterConfig : Type := { m_ttl : duration; m_clock_set : bool }.
Abbreviation MinterOption := (MinterConfig → MinterConfig) (only parsing).
Definition WithTTL (d : duration) : MinterOption := λ m, {| m_ttl := d; m_clock_set := m_clock_set m |}.
Definition WithClock (present : bool) : MinterOption := λ m, {| m_ttl := m_ttl m; m_clock_set := present |}.
Record Minter : Type := {
  m_signer : Signer; m_method : SigningMethod; m_keyID : string; m_issuer : string; m_cfg : MinterConfig;
}.

Definition signingMethodFor (alg : string) : outcome ierr SigningMethod :=
  if bool_decide (alg = Alg ES256SigningMethod) then Ok ES256SigningMethod
  else if bool_decide (alg = Alg RS256SigningMethod) then Ok RS256SigningMethod
  else Err (Wrapf "signer reports" (Sentinel ErrUnsupportedAlgorithm)).

Definition NewMinter (signer : option Signer) (keyID issuer : string) (opts : list MinterOption) : outcome ierr Minter :=
  let m := apply_options opts {| m_ttl := DefaultTTL; m_clock_set := true |} in
  match signer with
  | None => Err (Sentinel ErrNilSigner)
  | Some signer =>
      if bool_decide (keyID = "") then Err (Sentinel ErrMissingKeyID)
      else if bool_decide (issuer = "") then Err (Sentinel ErrMissingIssuer)
      else if bool_decide (m_ttl m ≤ 0)%Z then Err (Wrapf "got" (Sentinel ErrInvalidTTL))
      else if negb (m_clock_set m) then Err (Sentinel ErrInvalidClock)
      else match signingMethodFor (SigningAlgorithm signer) with
           | Err err => Err err
           | Ok method =>
               Ok {| m_signer := signer; m_method := method; m_keyID := keyID; m_issuer := issuer; m_cfg := m |}
           end
  end.

Definition knownAssurance (level : string) : bool :=
  bool_decide (level = AAL1) || bool_decide (level = AAL2) || bool_decide (level = AAL3).

Section identity.
Context {H : Sha256} {J : ContextJWT} (asn1_Unmarshal : string → option (Z * Z * string)).

Definition tokenRefWidth : nat := String.length (TokRef "derive the width from the function itself").
Definition isDerivedTokenRef (ref : string) : bool :=
  bool_decide (String.length ref = tokenRefWidth) && forallb (λ r, within_ 48 57 r || within_ 97 102 r) (runes ref).

Definition contextClaims (e : Env) (m : Minter) (i : MintInput) : outcome ierr Claims :=
  if bool_decide (in_Subject i = "") then Err (Wrapf "identity: mint" (Sentinel ErrMissingSubject))
  else if bool_decide (in_Tenant i = "") then Err (Wrapf "identity: mint" (Sentinel ErrMissingTenant))
  else if bool_decide (in_Assurance i = "") then Err (Wrapf "identity: mint" (Sentinel ErrMissingAssurance))
  else if negb (knownAssurance (in_Assurance i)) then Err (Wrapf "want one of" (Sentinel ErrInvalidAssurance))
  else if negb (bool_decide (in_TokenRef i = "")) && negb (isDerivedTokenRef (in_TokenRef i))
  then Err (Wrapf "want lowercase hex characters" (Sentinel ErrMalformedTokenRef))
  else
    let issued := now e in
    let claims :=
      {| Registered := {| rc_Issuer := m_issuer m; rc_Subject := in_Subject i; rc_Audience := [];
           rc_ExpiresAt := Some (NumericDate (issued + m_ttl (m_cfg m))%Z); rc_NotBefore := None;
           rc_IssuedAt := Some (NumericDate issued); rc_JTI := in_TokenID i |};
         c_Tenant := in_Tenant i; c_Entitlements := Some (default [] (in_Entitlements i)); c_AAL := in_Assurance i;
         c_CtxVer := Version; c_TokRef := in_TokenRef i |} in
    match Validate_claims claims DefaultVersionSet with
    | Err err => Err (Wrapf "identity: mint: refusing to mint an unvalidatable context" err)
    | Ok _ => Ok claims
    end.

(** The header of [jwt.NewWithClaims], and the two set on it. *)
Definition mint_header (m : Minter) : gmap string string :=
  <["kid" := m_keyID m]> (<["typ" := JWTType]> (<["typ" := "JWT"]> {["alg" := Alg (m_method m)]})).
(** [token.SignedString(m.signer)]. *)
Definition method_Sign (method : SigningMethod) : string → method_key → outcome serr string :=
  match method with ES256SigningMethod => ES256_Sign asn1_Unmarshal | RS256SigningMethod => RS256_Sign end.
Definition Mint (e : Env) (m : Minter) (i : MintInput) : outcome ierr string :=
  match contextClaims e m i with
  | Err err => Err err
  | Ok claims =>
      let input := SigningString (mint_header m) claims in
      match method_Sign (m_method m) input (SignerKey (m_signer m)) with
      | Err _ => Err (Errorf "identity: sign context")
      | Ok sig => Ok (Compact input sig)
      end
  end.

(** ** issuer.go

    The seams may change a state of theirs; an authentication may be nil. *)
Section issuer.
Context {St Cred : Type}.
Abbreviation CredentialVerifier := (Cred → prog St ierr (option Authentication)) (only parsing).
Abbreviation ClaimsResolver := (string → prog St ierr Grant) (only parsing).
Record Issuer : Type := { i_verifier : CredentialVerifier; i_resolver : ClaimsResolver; i_minter : Minter }.

Definition NewIssuer (signer : option Signer) (issuer : string) (verifier : option CredentialVerifier)
    (resolver : option ClaimsResolver) (opts : list MinterOption) : outcome ierr Issuer :=
  match verifier, resolver, signer with
  | None, _, _ => Err (Sentinel ErrNilCredentialVerifier)
  | _, None, _ => Err (Sentinel ErrNilClaimsResolver)
  | _, _, None => Err (Sentinel ErrNilSigner)
  | Some v, Some r, Some s =>
      if bool_decide (issuer = "") then Err (Sentinel ErrMissingIssuer)
      else
        let keyID := KeyID s in
        if bool_decide (keyID = "") then Err (Sentinel ErrMissingKeyID)
        else match HealthCheck s with
             | Some _ => Err (Wrapf "health check" (Sentinel ErrSignerUnhealthy))
             | None =>
                 match NewMinter (Some s) keyID issuer opts with
                 | Err err => Err err
                 | Ok minter => Ok {| i_verifier := v; i_resolver := r; i_minter := minter |}
                 end
             end
  end.

Definition Issue (e : Env) (i : Issuer) (credential : Cred) : prog St ierr string :=
  auth ← wrapping "identity: issue: verify credential" (i_verifier i credential);
  match auth with
  | None => throw (Sentinel ErrVerifierReportedNoAuthentication)
  | Some a =>
      _ ← wrapping "identity: issue" (of_outcome (Validate auth));
      assurance ← wrapping "identity: issue: derive assurance" (of_outcome (DeriveAssurance auth));
      grant ← wrapping "identity: issue: resolve claims" (i_resolver i (a_Subject a));
      of_outcome (Mint e (i_minter i)
        {| in_Subject := a_Subject a; in_Tenant := g_Tenant grant; in_Entitlements := g_Entitlements grant;
           in_Assurance := assurance; in_TokenID := ""; in_TokenRef := "" |})
  end.
End issuer.
Arguments Issuer : clear implicits.

(** ** verifier.go *)

Definition verificationLeeway : duration := (5 * Second)%Z.
Definition verificationMethods : list string := ["ES256"; "RS256"].

(** The claims validator of golang-jwt: with a leeway, no claim being required. *)
Definition within_window (now : time) (r : RegisteredClaims) : bool :=
  match rc_ExpiresAt r with None => true | Some exp => Before now (exp + verificationLeeway)%Z end
  && match rc_NotBefore r with None => true | Some nbf => negb (Before now (nbf - verificationLeeway)%Z) end.

Section verifier.
Context {St : Type}.

(** A nil source is [None]. *)
Record TrustedIssuer : Type := { ti_Issuer : string; ti_Keys : option (KeySource St) }.
Record VerifierConfig : Type := { accepted : VersionSet; logRejection : bool }.
Record Verifier : Type := { trusted : gmap string (KeySource St); v_cfg : VerifierConfig }.
Abbreviation VerifierOption := (VerifierConfig → VerifierConfig) (only parsing).
Definition WithAcceptedVersions (s : VersionSet) : VerifierOption := λ v,
  {| accepted := s; logRejection := logRejection v |}.
Definition WithRejectionLogger (present : bool) : VerifierOption := λ v,
  {| accepted := accepted v; logRejection := present |}.

(** The loop over the trusted issuers. *)
Fixpoint trust (l : list TrustedIssuer) (m : gmap string (KeySource St)) : outcome ierr (gmap string (KeySource St)) :=
  match l with
  | [] => Ok m
  | i :: rest =>
      if bool_decide (ti_Issuer i = "") then Err (Sentinel ErrMissingTrustedIssuer)
      else match ti_Keys i with
           | None => Err (Wrapf "issuer" (Sentinel ErrNilKeySource))
           | Some ks =>
               match m !! ti_Issuer i with
               | Some _ => Err (Wrapf "issuer" (Sentinel ErrDuplicateTrustedIssuer))
               | None => trust rest (<[ti_Issuer i := ks]> m)
               end
           end
  end.
Definition NewVerifier (e : Env) (l : list TrustedIssuer) (opts : list VerifierOption) : outcome ierr Verifier :=
  let cfg := apply_options opts {| accepted := DefaultVersionSet; logRejection := false |} in
  if bool_decide (length l = 0%nat) then Err (Sentinel ErrNoTrustedIssuers)
  else match trust l ∅ with
       | Err err => Err err
       | Ok m =>
           if bool_decide (size (accepted cfg) = 0%nat) then Err (Sentinel ErrNoAcceptedVersions)
           else Ok {| trusted := m;
                      v_cfg := {| accepted := NewVersionSet (Versions e (accepted cfg)); logRejection := logRejection cfg |} |}
       end.

Definition claimedIssuer (token : string) : outcome ierr string :=
  match ParseUnverified token with
  | None => Err (Errorf "token is malformed")
  | Some t => Ok (rc_Issuer (Registered (t_claims t)))
  end.

(** [v.parser.ParseWithClaims(token, claims, keyfunc)]. *)
Definition ParseWithClaims (e : Env) (token : string) (keyfunc : Token → prog St ierr crypto_PublicKey) :
    prog St ierr Token :=
  t ← of_outcome (match ParseUnverified token with None => Err (Errorf "token is malformed") | Some t => Ok t end);
  _ ← reject_if (bool_decide (t_alg t ∉ verificationMethods)) (Errorf "signing method is invalid");
  key ← wrapping "error while executing keyfunc" (keyfunc t);
  _ ← reject_if (negb (library_Verify (t_alg t) key (t_input t) (t_sig t))) (Errorf "token signature is invalid");
  _ ← reject_if (negb (within_window (now e) (Registered (t_claims t)))) (Errorf "token has invalid claims");
  mret t.

Definition verify (e : Env) (v : Verifier) (token : string) : prog St ierr Claims :=
  issuer ← of_outcome (claimedIssuer token);
  match trusted v !! issuer with
  | None => throw (Errorf "identity: issuer is not in this verifier's trust set")
  | Some keys =>
      parsed ← ParseWithClaims e token (λ t, keys e (default "" (t_kid t)));
      _ ← reject_if (bool_decide (default "" (t_typ parsed) ≠ JWTType)) (Errorf "identity: token type header");
      _ ← of_outcome (Validate_claims (t_claims parsed) (accepted (v_cfg v)));
      mret (t_claims parsed)
  end.

(** [Verify]; the second part of the state is what the operator's sink has received. *)
Definition report (v : Verifier) (err : ierr) (log : list ierr) : list ierr :=
  if logRejection (v_cfg v) then log ++ [err] else log.
Definition Verify (e : Env) (v : Verifier) (token : string) : prog (St * list ierr) ierr Claims := λ s,
  match verify e v token s.1 with
  | (Err err, st) => (Err (Sentinel ErrInvalidContext), (st, report v err s.2))
  | (Ok claims, st) => (Ok claims, (st, s.2))
  end.
End verifier.
Arguments TrustedIssuer : clear implicits.
Arguments Verifier : clear implicits.
End identity.
Arguments Issuer : clear implicits.
Arguments TrustedIssuer : clear implicits.
Arguments Verifier : clear implicits.
