(* ===== verification/VerifierProofs.v ===== *)
(** * Properties of identity contexts

    The assurance level is that of the distinct categories exercised; a context is
    accepted exactly when the issuer it names signed it and it is current; what an
    issuer mints states what was proved, and verifies through the key it publishes. *)

From S2P Require Import Prelude Encoding Json Signature Identity KeySource KeySourceProofs Verifier.

(** ** Assurance *)

(** The categories of an authentication, and the rung for their number. *)
Definition categories (fs : list Factor) : gset string := list_to_set (Kind <$> fs).
Definition rung (n : nat) (both : bool) : string :=
  match n with 0 | 1 => AAL1 | _ => if both then AAL3 else AAL2 end%nat.
Definition good_factor (f : Factor) : Prop := Kind f ∈ factorKinds ∧ Method f ≠ "".
Definition good_authentication (a : Authentication) : Prop :=
  a_Subject a ≠ "" ∧ a_Factors a ≠ [] ∧ Forall good_factor (a_Factors a).

Lemma recognised_spec k : recognised k = true ↔ k ∈ factorKinds.
Proof.
  unfold recognised, factorKinds. rewrite !orb_true_iff, !bool_decide_eq_true, !elem_of_cons, elem_of_nil. tauto.
Qed.
Lemma check_factors_ok fs : check_factors fs = Ok tt ↔ Forall good_factor fs.
Proof.
  induction fs as [|f fs IH]; [by split|]. cbn [check_factors]. rewrite Forall_cons. unfold good_factor at 1.
  rewrite <-recognised_spec. destruct (recognised (Kind f)); cbn [negb]; [|split; [done|by intros [[? ?] ?]]].
  case_bool_decide; [split; [done|by intros [[? ?] ?]]|]. rewrite IH. tauto.
Qed.
Lemma Validate_ok a : Validate (Some a) = Ok tt ↔ good_authentication a.
Proof.
  unfold good_authentication. cbn [Validate]. case_bool_decide; [split; [done|tauto]|].
  case_bool_decide; [split; [done|tauto]|]. rewrite check_factors_ok. tauto.
Qed.
Lemma present_spec fs k (set : gmap string ()) :
  is_Some (foldl (λ set factor, if recognised (Kind factor) then <[Kind factor := tt]> set else set) set fs !! k)
  ↔ is_Some (set !! k) ∨ (k ∈ Kind <$> fs ∧ k ∈ factorKinds).
Proof.
  revert set. induction fs as [|f fs IH]; intros set; cbn [foldl fmap list_fmap].
  { rewrite elem_of_nil. tauto. }
  rewrite IH, elem_of_cons. destruct (recognised (Kind f)) eqn:Hr.
  - apply recognised_spec in Hr. rewrite lookup_insert_is_Some'. naive_solver.
  - assert (Kind f ∉ factorKinds) by (rewrite <-recognised_spec; by rewrite Hr). naive_solver.
Qed.
Lemma Kinds_categories a :
  Forall good_factor (a_Factors a) → length (Kinds (Some a)) = size (categories (a_Factors a)).
Proof.
  intros Hf. assert (NoDup (Kinds (Some a))) as Hnd by (unfold Kinds; apply NoDup_filter; apply (bool_decide_unpack _); by vm_compute).
  rewrite <-(size_list_to_set (C := gset string)) by done. f_equal. apply leibniz_equiv. intros k.
  unfold categories. rewrite !elem_of_list_to_set. unfold Kinds, present. rewrite list_elem_of_filter, present_spec, lookup_empty.
  split; [intros [[[? ?]|[? ?]] ?]; done|]. intros Hk. assert (k ∈ factorKinds).
  { apply list_elem_of_fmap in Hk as (f & -> & Hin). by apply (proj1 (Forall_forall _ _) Hf) in Hin as [? _]. }
  tauto.
Qed.

Lemma assurance_rung a lvl :
  DeriveAssurance (Some a) = Ok lvl ↔
  good_authentication a ∧ lvl = rung (size (categories (a_Factors a))) (a_HardwareBacked a && a_PhishingResistant a).
Proof.
  unfold DeriveAssurance. destruct (Validate (Some a)) as [[]|err] eqn:Hv.
  - apply Validate_ok in Hv as Hg. rewrite Kinds_categories by apply Hg. unfold rung.
    destruct (size _) as [|[|n]]; cbn [bool_decide decide]; try (rewrite bool_decide_true by lia; naive_solver).
    rewrite bool_decide_false by lia. destruct (_ && _); naive_solver.
  - split; [done|]. intros [Hg%Validate_ok _]. by rewrite Hg in Hv.
Qed.

(** A level is derived exactly from a named principal and factors of known
    categories and named methods; it is that of the number of distinct categories,
    in whatever order and however often they were exercised, and of the two
    properties when there are two categories at least. *)
Theorem assurance_exact a lvl :
  DeriveAssurance (Some a) = Ok lvl ↔
  good_authentication a ∧ lvl = rung (size (categories (a_Factors a))) (a_HardwareBacked a && a_PhishingResistant a).
Proof. apply assurance_rung. Qed.

(** ** Verification *)

Section identity.
Context {H : Sha256} {J : ContextJWT}.

(** Within the dates a context has, up to the leeway. *)
Definition current (now : time) (r : RegisteredClaims) : Prop :=
  (∀ exp, rc_ExpiresAt r = Some exp → now < exp + 5 * Second)%Z ∧ (∀ nbf, rc_NotBefore r = Some nbf → nbf - 5 * Second ≤ now)%Z.
Lemma within_window_current now r : within_window now r = true ↔ current now r.
Proof.
  unfold within_window, current, Before, verificationLeeway. rewrite andb_true_iff.
  destruct (rc_ExpiresAt r) as [exp|], (rc_NotBefore r) as [nbf|];
    rewrite ?negb_true_iff, ?bool_decide_eq_true, ?bool_decide_eq_false; split; intros [H1 H2]; split; intros;
    simplify_eq; try done; try (by apply H1); try (specialize (H2 _ eq_refl)); lia.
Qed.
Definition complete (c : Claims) (accepted : gmap Z ()) : Prop :=
  Accepts accepted (c_CtxVer c) = true ∧ rc_Subject (Registered c) ≠ "" ∧ c_Tenant c ≠ "" ∧ c_AAL c ≠ "".
Lemma Validate_claims_ok c accepted : Validate_claims c accepted = Ok tt ↔ complete c accepted.
Proof.
  unfold Validate_claims, complete. destruct (Accepts _ _); cbn [negb]; [|naive_solver].
  repeat (case_bool_decide; [naive_solver|]). naive_solver.
Qed.

Section verifier.
Context {St : Type}.
Implicit Types (v : Verifier St) (st : St).

(** What the library checks of a token with the key its source gives. *)
Record authentic (e : Env) v (t : Token) st st' : Prop := {
  authentic_signed : ∃ (keys : KeySource St) key, trusted v !! rc_Issuer (Registered (t_claims t)) = Some keys ∧
    keys e (default "" (t_kid t)) st = (Ok key, st') ∧ library_Verify (t_alg t) key (t_input t) (t_sig t) = true;
  authentic_alg : t_alg t = "ES256" ∨ t_alg t = "RS256";
  authentic_typ : t_typ t = Some JWTType;
  authentic_current : current (now e) (Registered (t_claims t));
  authentic_complete : complete (t_claims t) (accepted (v_cfg v));
}.

Lemma verify_spec e v token st claims st' :
  verify e v token st = (Ok claims, st') ↔
  ∃ t, ParseUnverified token = Some t ∧ claims = t_claims t ∧ authentic e v t st st'.
Proof.
  unfold verify, claimedIssuer, ParseWithClaims, of_outcome, throw, mbind, prog_bind, mret, prog_ret.
  destruct (ParseUnverified token) as [t|]; [|naive_solver]. cbv beta iota.
  destruct (trusted v !! _) as [keys|] eqn:Hi.
  2: { split; [done|]. intros (t' & [= <-] & _ & Ha). destruct (authentic_signed _ _ _ _ _ Ha) as (ks & k & Hk & _). by rewrite Hi in Hk. }
  unfold reject_if, wrapping. unfold throw, mret, prog_ret.
  destruct (bool_decide (t_alg t ∉ verificationMethods)) eqn:Halg; cbv beta iota.
  { split; [done|]. intros (t' & [= <-] & _ & Ha). apply bool_decide_eq_true in Halg. destruct Halg.
    unfold verificationMethods. destruct (authentic_alg _ _ _ _ _ Ha) as [-> | ->]; set_solver. }
  destruct (keys e (default "" (t_kid t)) st) as [[key|err] st1] eqn:Hkey; cbv beta iota.
  2: { split; [done|]. intros (t' & [= <-] & _ & Ha). destruct (authentic_signed _ _ _ _ _ Ha) as (ks & k & Hk & Hk2 & _).
       rewrite Hi in Hk. injection Hk as <-. by rewrite Hkey in Hk2. }
  destruct (library_Verify _ _ _ _) eqn:Hv; cbn [negb]; cbv beta iota.
  2: { split; [done|]. intros (t' & [= <-] & _ & Ha). destruct (authentic_signed _ _ _ _ _ Ha) as (ks & k & Hk & Hk2 & Hk3).
       rewrite Hi in Hk. injection Hk as <-. rewrite Hkey in Hk2. injection Hk2 as <- <-. by rewrite Hv in Hk3. }
  destruct (within_window _ _) eqn:Hw; cbn [negb]; cbv beta iota.
  2: { split; [done|]. intros (t' & [= <-] & _ & Ha%authentic_current). apply within_window_current in Ha. by rewrite Hw in Ha. }
  destruct (bool_decide (default "" (t_typ t) ≠ JWTType)) eqn:Ht; cbv beta iota.
  { split; [done|]. intros (t' & [= <-] & _ & Ha%authentic_typ). apply bool_decide_eq_true in Ht. by rewrite Ha in Ht. }
  destruct (Validate_claims _ _) as [[]|err] eqn:Hc.
  2: { split; [done|]. intros (t' & [= <-] & _ & Ha%authentic_complete%Validate_claims_ok). by rewrite Hc in Ha. }
  split; [|intros (t' & [= <-] & -> & Ha); destruct (authentic_signed _ _ _ _ _ Ha) as (ks & k & Hk & Hk2 & _);
    rewrite Hi in Hk; injection Hk as <-; rewrite Hkey in Hk2; by injection Hk2 as <- <-].
  intros [= <- <-]. exists t. split; [done|]. split; [done|]. split.
  - by exists keys, key.
  - apply bool_decide_eq_false, dec_stable in Halg. unfold verificationMethods in Halg. set_solver.
  - apply bool_decide_eq_false, dec_stable in Ht. destruct (t_typ t); cbn in Ht; [by subst|done].
  - by apply within_window_current.
  - by apply Validate_claims_ok.
Qed.

(** C10: A context is accepted exactly when a key that the source of the very issuer it
    names gives for its identifier verifies its signature by one of the two
    algorithms, it is typed as a context, it is within the dates it has and states what a
    decision needs; every refusal is the same error, and its reason goes to the
    operator alone. *)
Theorem verified_exactly e v token st log :
  (∀ claims st' log', Verify e v token (st, log) = (Ok claims, (st', log')) ↔
     log' = log ∧ ∃ t, ParseUnverified token = Some t ∧ claims = t_claims t ∧ authentic e v t st st') ∧
  (∀ err st' log', Verify e v token (st, log) = (Err err, (st', log')) →
     err = Sentinel ErrInvalidContext ∧ ∃ reason, log' = if logRejection (v_cfg v) then log ++ [reason] else log).
Proof.
  unfold Verify. cbn [fst snd]. pose proof (λ c st', verify_spec e v token st c st') as Hs.
  destruct (verify e v token st) as [[c|err] st1]; split.
  - intros claims st' log'. rewrite <-Hs. naive_solver.
  - done.
  - intros claims st' log'. rewrite <-Hs. naive_solver.
  - intros err' st' log' [= <- <- <-]. split; [done|]. by exists err.
Qed.

(** A context without an expiry is accepted however long ago it was made. *)
Theorem undated_context_never_expires e e' v token st log c st' log' :
  Verify e v token (st, log) = (Ok c, (st', log')) → rc_ExpiresAt (Registered c) = None → (now e ≤ now e')%Z →
  (∀ kid iss (keys : KeySource St), trusted v !! iss = Some keys → keys e' kid st = keys e kid st) →
  Verify e' v token (st, log) = (Ok c, (st', log')).
Proof.
  unfold Verify. cbn [fst snd]. destruct (verify e v token st) as [[c1|err] st1] eqn:Hv; [|done]. intros [= <- <- <-] Hexp Hnow Hsame.
  apply verify_spec in Hv as (t & Ht & -> & Ha). assert (verify e' v token st = (Ok (t_claims t), st1)) as ->; [|done].
  apply verify_spec. exists t. split; [done|]. split; [done|]. destruct Ha as [(keys & key & H1 & H2 & H3) H4 H5 [H6 H7] H8]. split; try done.
  - exists keys, key. by rewrite (Hsame _ _ _ H1).
  - split; [by rewrite Hexp|]. intros nbf Hn. specialize (H7 _ Hn). lia.
Qed.
End verifier.

(** ** Issuing *)

Context (asn1_Unmarshal : string → option (Z * Z * string)).

(** What a context says of an authentication and a grant. *)
Definition stated (e : Env) (m : Minter) (a : Authentication) (grant : Grant) : Claims :=
  {| Registered := {| rc_Issuer := m_issuer m; rc_Subject := a_Subject a; rc_Audience := [];
       rc_ExpiresAt := Some (NumericDate (now e + m_ttl (m_cfg m))%Z); rc_NotBefore := None;
       rc_IssuedAt := Some (NumericDate (now e)); rc_JTI := "" |};
     c_Tenant := g_Tenant grant; c_Entitlements := Some (default [] (g_Entitlements grant));
     c_AAL := rung (size (categories (a_Factors a))) (a_HardwareBacked a && a_PhishingResistant a);
     c_CtxVer := Version; c_TokRef := "" |}.

Lemma DeriveAssurance_good a : good_authentication a →
  DeriveAssurance (Some a) = Ok (rung (size (categories (a_Factors a))) (a_HardwareBacked a && a_PhishingResistant a)).
Proof. intros Ha. by apply assurance_rung. Qed.
Lemma rung_known n both : knownAssurance (rung n both) = true ∧ rung n both ≠ "".
Proof. unfold rung. destruct n as [|[|n]]; [done..|]. by destruct both. Qed.

Lemma contextClaims_stated e m a grant lvl :
  a_Subject a ≠ "" → lvl = rung (size (categories (a_Factors a))) (a_HardwareBacked a && a_PhishingResistant a) →
  contextClaims e m {| in_Subject := a_Subject a; in_Tenant := g_Tenant grant; in_Entitlements := g_Entitlements grant;
    in_Assurance := lvl; in_TokenID := ""; in_TokenRef := "" |} =
  if bool_decide (g_Tenant grant = "") then Err (Wrapf "identity: mint" (Sentinel ErrMissingTenant)) else Ok (stated e m a grant).
Proof.
  intros Hs ->. unfold contextClaims. cbn [in_Subject in_Tenant in_Entitlements in_Assurance in_TokenID in_TokenRef].
  rewrite (bool_decide_false (a_Subject a = "")) by done. case_bool_decide as Ht; [done|].
  set (lvl := rung _ _). destruct (rung_known (size (categories (a_Factors a))) (a_HardwareBacked a && a_PhishingResistant a)) as [Hk Hn].
  fold lvl in Hk, Hn. rewrite (bool_decide_false (lvl = "")), Hk by done. cbn [negb]. rewrite (bool_decide_true ("" = "")) by done.
  cbn [negb andb]. fold lvl. assert (Validate_claims (stated e m a grant) DefaultVersionSet = Ok tt) as Hv.
  { apply Validate_claims_ok. split_and!; [by vm_compute|done..]. }
  unfold stated in Hv |- *. fold lvl in Hv |- *. by rewrite Hv.
Qed.

Section issuer.
Context {St Cred : Type}.
Implicit Types (i : Issuer St Cred) (st : St).

Lemma Issue_spec e i cred st :
  Issue asn1_Unmarshal e i cred st =
  match i_verifier i cred st with
  | (Err err, st1) => (Err (Wrapf "identity: issue: verify credential" err), st1)
  | (Ok None, st1) => (Err (Sentinel ErrVerifierReportedNoAuthentication), st1)
  | (Ok (Some a), st1) =>
      match Validate (Some a) with
      | Err err => (Err (Wrapf "identity: issue" err), st1)
      | Ok _ =>
          match i_resolver i (a_Subject a) st1 with
          | (Err err, st2) => (Err (Wrapf "identity: issue: resolve claims" err), st2)
          | (Ok grant, st2) =>
              (if bool_decide (g_Tenant grant = "") then Err (Wrapf "identity: mint" (Sentinel ErrMissingTenant))
               else let m := i_minter i in
                    let input := SigningString (mint_header m) (stated e m a grant) in
                    match method_Sign asn1_Unmarshal (m_method m) input (SignerKey (m_signer m)) with
                    | Err _ => Err (Errorf "identity: sign context")
                    | Ok sig => Ok (Compact input sig)
                    end, st2)
          end
      end
  end.
Proof.
  unfold Issue, wrapping, of_outcome, throw, mbind, prog_bind. destruct (i_verifier i cred st) as [[[a|]|err] st1]; [|done..].
  cbv beta iota. destruct (Validate (Some a)) as [[]|err] eqn:Hv; [|done]. apply Validate_ok in Hv.
  rewrite (DeriveAssurance_good a Hv). cbv beta iota. destruct (i_resolver i (a_Subject a) st1) as [[grant|err] st2]; [|done].
  unfold Mint. rewrite contextClaims_stated by (done || apply Hv). by case_bool_decide.
Qed.

(** A context is issued exactly for a good authentication, to whose subject, and to
    no other, the resolver granted a tenant; it states that subject, that grant and
    the level of the factors that were exercised, signed by the key of the issuer.
    Without a good authentication the resolver is not asked. *)
Theorem issued_as_proved e i cred st token st' :
  (Issue asn1_Unmarshal e i cred st = (Ok token, st') ↔
   ∃ a st1 grant sig, i_verifier i cred st = (Ok (Some a), st1) ∧ good_authentication a ∧
     i_resolver i (a_Subject a) st1 = (Ok grant, st') ∧ g_Tenant grant ≠ "" ∧
     let input := SigningString (mint_header (i_minter i)) (stated e (i_minter i) a grant) in
     method_Sign asn1_Unmarshal (m_method (i_minter i)) input (SignerKey (m_signer (i_minter i))) = Ok sig ∧
     token = Compact input sig) ∧
  ((∀ a st1, i_verifier i cred st = (Ok (Some a), st1) → ¬ good_authentication a) →
   (Issue asn1_Unmarshal e i cred st).2 = (i_verifier i cred st).2).
Proof.
  rewrite Issue_spec. destruct (i_verifier i cred st) as [[[a|]|err] st1] eqn:Hi; [|split; [split; [done|by intros (? & ? & ? & ? & ? & _)]|done]..].
  destruct (Validate (Some a)) as [[]|err] eqn:Hv.
  2: { split; [|done]. split; [done|]. intros (a' & ? & ? & ? & [= <- <-] & Hg%Validate_ok & _). by rewrite Hg in Hv. }
  apply Validate_ok in Hv. split; [|intros Hbad; by destruct (Hbad a st1)].
  destruct (i_resolver i (a_Subject a) st1) as [[grant|err] st2] eqn:Hr.
  2: { split; [done|]. intros (a' & ? & ? & ? & [= <- <-] & _ & Hr' & _). by rewrite Hr in Hr'. }
  case_bool_decide as Ht.
  { split; [done|]. intros (a' & ? & ? & ? & [= <- <-] & _ & Hr' & Hn & _). rewrite Hr in Hr'. by injection Hr' as <- <-. }
  cbv zeta.
  destruct (method_Sign _ _ _ _) as [sig|err] eqn:Hs.
  2: { split; [done|]. intros (a' & ? & ? & ? & [= <- <-] & _ & Hr' & _ & Hs' & _). rewrite Hr in Hr'. injection Hr' as <- <-.
       by rewrite Hs in Hs'. }
  split.
  - intros [= <- <-]. exists a, st1, grant, sig. done.
  - intros (a' & st1' & grant' & sig' & [= <- <-] & _ & Hr' & _ & Hs' & ->). rewrite Hr in Hr'. injection Hr' as <- <-.
    rewrite Hs in Hs'. by injection Hs' as <-.
Qed.
End issuer.

(** ** From a credential to verified claims *)

Section composition.
Context {F : KeyFormat} {V : SignatureScheme}.

(** The library's methods check what the signing seam's do. *)
Definition standard_methods : Prop := ∀ key input sig,
  library_Verify "ES256" key input sig = is_Ok (ES256_Verify input sig (PublicKeyOnly key)) ∧
  library_Verify "RS256" key input sig = is_Ok (RS256_Verify input sig (PublicKeyOnly key)).
(** A key management service whose signatures verify under its public key. *)
Definition signs (s : Signer) : Prop := ∀ digest,
  match Public s with
  | ECDSAPublic pub => ∃ der x y, Sign s digest = Some der ∧ der ≠ "" ∧ asn1_Unmarshal der = Some (Z.of_N x, Z.of_N y, "") ∧
      (x < 256 ^ 32)%N ∧ (y < 256 ^ 32)%N ∧ ecdsa_Verify pub digest x y = true
  | RSAPublic pub => ∃ sig, Sign s digest = Some sig ∧ rsa_VerifyPKCS1v15 pub digest sig = true
  | OtherPublic => True
  end.
(** The token of a minted context, and that it is read back. *)
Definition minted (m : Minter) (c : Claims) (sig : string) : Token :=
  {| t_alg := Alg (m_method m); t_kid := Some (m_keyID m); t_typ := Some JWTType; t_claims := c;
     t_input := SigningString (mint_header m) c; t_sig := sig |}.
Definition reads_token (m : Minter) (c : Claims) : Prop := ∀ sig,
  ParseUnverified (Compact (SigningString (mint_header m) c) sig) = Some (minted m c sig).

Lemma new_issuer {St Cred : Type} (s : Signer) iss vf rs opts (i : Issuer St Cred) :
  NewIssuer (Some s) iss vf rs opts = Ok i →
  KeyID s ≠ "" ∧ m_keyID (i_minter i) = KeyID s ∧ m_issuer (i_minter i) = iss ∧ m_signer (i_minter i) = s ∧
  Alg (m_method (i_minter i)) = SigningAlgorithm s ∧ vf = Some (i_verifier i) ∧ rs = Some (i_resolver i).
Proof.
  unfold NewIssuer. destruct vf as [vf|], rs as [rs|]; try done. destruct (bool_decide (iss = "")); [done|].
  destruct (bool_decide (KeyID s = "")) eqn:Hk; [done|]. apply bool_decide_eq_false in Hk. destruct (HealthCheck s); [done|].
  unfold NewMinter. destruct (bool_decide (KeyID s = "")); [done|]. destruct (bool_decide (iss = "")); [done|].
  set (cfg := apply_options _ _). destruct (bool_decide (m_ttl cfg ≤ 0)%Z); [done|]. destruct (negb (m_clock_set cfg)); [done|].
  unfold signingMethodFor. destruct (bool_decide (SigningAlgorithm s = Alg ES256SigningMethod)) eqn:H1.
  { apply bool_decide_eq_true in H1. intros [= <-]. cbn. by rewrite H1. }
  destruct (bool_decide (SigningAlgorithm s = Alg RS256SigningMethod)) eqn:H2; [|done]. apply bool_decide_eq_true in H2.
  intros [= <-]. cbn. by rewrite H2.
Qed.

Lemma signature_verifies_seam (s : Signer) method input :
  standard_methods → signs s → publishable s → Alg method = SigningAlgorithm s →
  ∃ sig, method_Sign asn1_Unmarshal method input (SignerKey s) = Ok sig ∧
    library_Verify (Alg method) (Public s) input sig = true.
Proof.
  intros Hlib Hsig Hp Halg. specialize (Hsig (sha256 input)).
  destruct Hp as [x y Ha Hpub Hg|n e Ha Hpub Hg]; rewrite Hpub in Hsig |- *.
  - destruct method; [|by rewrite Ha in Halg]. destruct Hsig as (der & r & q & Hs & Hd & Hasn & Hr & Hq & Hv).
    destruct (raw_halves asn1_Unmarshal der 32 r q) as (raw & Hraw & Hlen & H1 & H2); [lia|done..|]. exists raw.
    cbn [method_Sign Alg]. unfold ES256_Sign. rewrite Ha, bool_decide_false by (intros E; by apply E). rewrite Hs.
    change (Z.of_nat 32) with 32%Z in Hraw. rewrite Hraw. split; [done|]. rewrite (proj1 (Hlib _ _ _)).
    unfold ES256_Verify, extractECDSAPublicKey. rewrite Hlen, bool_decide_false by lia. by rewrite H1, H2, Hv.
  - destruct method; [by rewrite Ha in Halg|]. destruct Hsig as (sig & Hs & Hv). exists sig.
    cbn [method_Sign Alg]. unfold RS256_Sign. rewrite Ha, bool_decide_false by (intros E; by apply E). rewrite Hs.
    split; [done|]. rewrite (proj2 (Hlib _ _ _)). unfold RS256_Verify, extractRSAPublicKey. by rewrite Hv.
Qed.

Lemma trust_lookup {St : Type} (l : list (TrustedIssuer St)) m m' iss (ks : KeySource St) :
  trust l m = Ok m' → (m !! iss = Some ks ∨ {| ti_Issuer := iss; ti_Keys := Some ks |} ∈ l) → m' !! iss = Some ks.
Proof.
  revert m. induction l as [|i l IH]; intros m; cbn [trust].
  { intros [= ->] [?|?%elem_of_nil]; done. }
  destruct (bool_decide (ti_Issuer i = "")); [done|]. destruct (ti_Keys i) as [ks'|] eqn:Hks; [|done].
  destruct (m !! ti_Issuer i) eqn:Hm; [done|]. intros Ht Hin. apply (IH _ Ht). destruct Hin as [Hin|[<-|Hin]%elem_of_cons]; [| |by right].
  - left. rewrite lookup_insert_ne; [done|]. intros E. rewrite E in Hm. by rewrite Hm in Hin.
  - left. cbn in Hks |- *. injection Hks as <-. apply lookup_insert_eq.
Qed.

Lemma Accepts_copy e (s : gmap Z ()) v : Accepts (NewVersionSet (Versions e s)) v = Accepts s v.
Proof.
  unfold Accepts. apply bool_decide_ext. unfold NewVersionSet.
  assert (∀ l (m : gmap Z ()), is_Some (foldl (λ set v, <[v := tt]> set) m l !! v) ↔ is_Some (m !! v) ∨ v ∈ l) as Hl.
  { induction l as [|x l IH]; intros m; cbn [foldl]; [rewrite elem_of_nil; tauto|].
    rewrite IH, elem_of_cons, lookup_insert_is_Some'. naive_solver. }
  rewrite Hl, lookup_empty. unfold Versions. rewrite elem_of_sort_slice, list_elem_of_fmap.
  split; [intros [[? ?]|([k []] & -> & Hin)]; [done|]|intros [[] Hs]; right; exists (v, tt); split; [done|]];
    rewrite (range_perm (MapRange := order e)), elem_of_map_to_list in *; [by exists tt|done].
Qed.

(** C9: what an issuer mints for a credential verifies: it is issued whenever the credential
    is verified by a good authentication and a tenant is granted, and a verifier that trusts
    the issuer through the key set it publishes accepts it until its lifetime is
    over — whatever its source was asked before, once the document has been served for a
    cache lifetime — and gives the stated claims. *)
Theorem issued_context_verifies {St Cred : Type} (s : Signer) iss vf rs mopts (i : Issuer St Cred) kopts h issuer_at T parse u ropts r0 l
    ev tl vopts v e1 e2 cred st st1 st2 a grant log :
  standard_methods → signs s → publishable s →
  NewIssuer (Some s) iss vf rs mopts = Ok i →
  NewKeySetHandler (Some s) kopts = Returns (Ok h) →
  (∀ set, AddSigningKey (Some s) (KeyID s) [] = Returns (Ok set) → reads_back set) →
  (Z.of_nat (String.length (document h)) ≤ maxJWKSBytes)%Z →
  (0 < T)%Z → (∀ t, T ≤ t → issuer_at t = Some (200, Some (document h)))%Z →
  NewRemoteJWKS parse u ropts = Ok r0 → Forall (λ ek, 0 < now ek.1)%Z l → (0 < now e2)%Z → (T + ttl (cfg r0) ≤ now e2)%Z →
  NewVerifier ev tl vopts = Ok v → {| ti_Issuer := iss; ti_Keys := Some (Remote_KeyForKID issuer_at) |} ∈ tl →
  Accepts (accepted (apply_options vopts {| accepted := DefaultVersionSet; logRejection := false |})) Version = true →
  i_verifier i cred st = (Ok (Some a), st1) → good_authentication a →
  i_resolver i (a_Subject a) st1 = (Ok grant, st2) → g_Tenant grant ≠ "" →
  reads_token (i_minter i) (stated e1 (i_minter i) a grant) →
  (now e2 < NumericDate (now e1 + m_ttl (m_cfg (i_minter i))) + 5 * Second)%Z →
  ∃ token r', Issue asn1_Unmarshal e1 i cred st = (Ok token, st2) ∧
    Verify e2 v token (run issuer_at l r0, log) = (Ok (stated e1 (i_minter i) a grant), (r', log)).
Proof.
  intros Hlib Hsig Hpub Hi Hh Hrb Hlen HT Hserved Hr0 Hl He2 Hnow Hv Htl Hacc Hvf Hgood Hrs Hten Hread Hexp.
  apply new_issuer in Hi as (Hk & Hkid & Hiss & Hms & Halg & _). set (m := i_minter i) in *.
  destruct (signature_verifies_seam s (m_method m) (SigningString (mint_header m) (stated e1 m a grant))) as (sig & Hsign & Hver); [done..|].
  exists (Compact (SigningString (mint_header m) (stated e1 m a grant)) sig).
  assert (∀ t, (T ≤ t)%Z → ∃ set, fetch (issuer_at t) = Ok set ∧ set !! KeyID s = Some (Public s)) as Hfetch.
  { intros t Ht. exists {[KeyID s := Public s]}. split; [|apply lookup_singleton_eq]. rewrite (Hserved t Ht). unfold fetch.
    rewrite (bool_decide_false (200 < 200)%Z), (bool_decide_false (300 ≤ 200)%Z), bool_decide_false by lia. cbn [orb].
    by apply (published_key s kopts h). }
  pose proof (source_heals issuer_at parse u ropts r0 l e2 (KeyID s) T (Some (Public s)) Hr0) as Hheal.
  rewrite Forall_app, Forall_singleton in Hheal. specialize (Hheal (conj Hl He2) Hk HT Hfetch Hnow).
  destruct (Remote_KeyForKID issuer_at e2 (KeyID s) (run issuer_at l r0)) as [res r'] eqn:Hkey. cbn [fst answer_of] in Hheal. subst res.
  exists r'. split.
  { rewrite Issue_spec, Hvf. apply Validate_ok in Hgood as Hok. rewrite Hok, Hrs, bool_decide_false by done. cbv zeta. fold m.
    by rewrite Hms, Hsign. }
  unfold NewVerifier in Hv. destruct (bool_decide (length tl = 0)); [done|]. destruct (trust tl ∅) as [ts|] eqn:Hts; [|done].
  set (vc := apply_options vopts _) in *. destruct (bool_decide (size (accepted vc) = 0)); [done|]. injection Hv as <-.
  unfold Verify. cbn [fst snd]. set (v := {| trusted := ts; v_cfg := _ |}).
  assert (verify e2 v (Compact (SigningString (mint_header m) (stated e1 m a grant)) sig) (run issuer_at l r0)
    = (Ok (stated e1 m a grant), r')) as ->; [|done].
  apply verify_spec. exists (minted m (stated e1 m a grant) sig). split; [apply Hread|]. split; [done|]. split.
  - exists (Remote_KeyForKID issuer_at), (Public s). split_and!; [|cbn; by rewrite Hkid|exact Hver].
    cbn. rewrite Hiss. apply (trust_lookup tl ∅ ts); [done|by right].
  - cbn. destruct (m_method m); [by left|by right].
  - done.
  - split; [|done]. intros exp [= <-]. exact Hexp.
  - split_and!; [cbn; by rewrite Accepts_copy|cbn; apply Hgood|done|apply rung_known].
Qed.
End composition.
End identity.

(** ** Witnesses *)

Definition ex_sha : Sha256 := {| sha256 := λ s, s |}.
Definition ex_scheme : SignatureScheme := {|
  ecdsa_Verify := λ _ _ r s, bool_decide (r = 5 ∧ s = 70000)%N; rsa_VerifyPKCS1v15 := λ _ _ _, false |}.
Definition ex_auth : Authentication :=
  {| a_Subject := "alice"; a_Factors := [{| Kind := "possession"; Method := "webauthn" |}; {| Kind := "knowledge"; Method := "pin" |}];
     a_PhishingResistant := true; a_HardwareBacked := true |}.
Definition ex_grant : Grant := {| g_Tenant := "acme"; g_Entitlements := None |}.
Definition ex_seam_verifier (cred : string) : prog (list string) (goerr identity_error) (option Authentication) := λ st,
  if bool_decide (cred = "secret") then (Ok (Some ex_auth), st ++ ["verified"]) else (Err (Errorf "refused"), st).
Definition ex_seam_resolver (subject : string) : prog (list string) (goerr identity_error) Grant := λ st,
  (Ok ex_grant, st ++ ["resolved"]).
Definition ex_minter : Minter :=
  {| m_signer := ex_ec; m_method := ES256SigningMethod; m_keyID := "k1"; m_issuer := "idp";
     m_cfg := {| m_ttl := DefaultTTL; m_clock_set := true |} |}.
Definition ex_issuer : Issuer (list string) string :=
  {| i_verifier := ex_seam_verifier; i_resolver := ex_seam_resolver; i_minter := ex_minter |}.
(** A library that knows the tokens of one context, with and without its expiry. *)
Definition ex_claims : Claims := stated (ex_at 390) ex_minter ex_auth ex_grant.
Definition ex_undated : Claims :=
  {| Registered := {| rc_Issuer := "idp"; rc_Subject := "alice"; rc_Audience := []; rc_ExpiresAt := None; rc_NotBefore := None;
       rc_IssuedAt := None; rc_JTI := "" |};
     c_Tenant := "acme"; c_Entitlements := None; c_AAL := AAL1; c_CtxVer := 1; c_TokRef := "" |}.
Definition ex_token (c : Claims) (sig : string) : Token :=
  {| t_alg := "ES256"; t_kid := Some "k1"; t_typ := Some JWTType; t_claims := c; t_input := "h.c"; t_sig := sig |}.
Definition ex_jwt : ContextJWT := {|
  SigningString := λ _ _, "h.c";
  Compact := λ input sig, String "d" sig;
  ParseUnverified := λ token, match token with
                              | String "d" sig => Some (ex_token ex_claims sig)
                              | _ => Some (ex_token ex_undated token)
                              end;
  library_Verify := λ alg key input sig,
    if bool_decide (alg = "ES256") then is_Ok (ES256_Verify (H := ex_sha) (V := ex_scheme) input sig (PublicKeyOnly key))
    else is_Ok (RS256_Verify (H := ex_sha) (V := ex_scheme) input sig (PublicKeyOnly key)) |}.
Definition ex_sig : string := default "" (ECDSAJWSFromDER ex_asn1 "der" 32).
Definition ex_static : KeySource unit := Static_KeyForKID (NewStaticKeys {["k1" := Some (Public ex_ec)]}).
Definition ex_verifier : Verifier unit :=
  {| trusted := {["idp" := ex_static]}; v_cfg := {| accepted := DefaultVersionSet; logRejection := true |} |}.

Lemma verified_exactly_witness :
  ∃ t, ParseUnverified (ContextJWT := ex_jwt) ex_sig = Some t ∧ ex_undated = t_claims t ∧
    authentic (J := ex_jwt) (ex_at 7) ex_verifier t tt tt.
Proof.
  apply (verified_exactly (J := ex_jwt) (ex_at 7) ex_verifier ex_sig tt []) with (log' := []). by vm_compute.
Defined.
Lemma undated_context_never_expires_witness :
  Verify (J := ex_jwt) (ex_at 1000000) ex_verifier ex_sig (tt, []) = (Ok ex_undated, (tt, [])).
Proof.
  apply (undated_context_never_expires (J := ex_jwt) (ex_at 7)); [by vm_compute|done|by vm_compute|].
  intros kid iss ks Hks. unfold ex_verifier in Hks. cbn [trusted] in Hks.
  apply lookup_singleton_Some in Hks as [_ <-]. done.
Defined.
Lemma issued_as_proved_witness :
  (Issue (H := ex_sha) (J := ex_jwt) ex_asn1 (ex_at 390) ex_issuer "guess" []).2 = (ex_seam_verifier "guess" []).2.
Proof.
  apply (issued_as_proved (H := ex_sha) (J := ex_jwt) ex_asn1 (ex_at 390) ex_issuer "guess" [] "" []).
  intros a st1 Hv. by vm_compute in Hv.
Defined.

Lemma ex_signs : signs ex_asn1 (V := ex_scheme) ex_ec.
Proof.
  intros digest. exists "der", 5%N, 70000%N. split_and!; by vm_compute.
Qed.
Lemma issued_context_verifies_witness :
  ∃ token r', Issue (H := ex_sha) (J := ex_jwt) ex_asn1 (ex_at 390) ex_issuer "secret" [] = (Ok token, ["verified"; "resolved"]) ∧
    Verify (J := ex_jwt) (ex_at 400)
      {| trusted := {["idp" := Remote_KeyForKID (F := ex_format ex_ec) ex_issuer_at]};
         v_cfg := {| accepted := DefaultVersionSet; logRejection := false |} |} token
      (run (F := ex_format ex_ec) ex_issuer_at ex_lookups ex_source, []) = (Ok ex_claims, (r', [])).
Proof.
  apply (issued_context_verifies (H := ex_sha) (J := ex_jwt) ex_asn1 (F := ex_format ex_ec) (V := ex_scheme) ex_ec "idp"
    (Some ex_seam_verifier) (Some ex_seam_resolver) [] ex_issuer [] (ex_handler ex_ec) ex_issuer_at (100 * Second) ex_url "u" []
    ex_source ex_lookups (ex_at 0) [{| ti_Issuer := "idp"; ti_Keys := Some (Remote_KeyForKID (F := ex_format ex_ec) ex_issuer_at) |}] [] _ (ex_at 390)
    (ex_at 400) "secret" [] ["verified"] ["verified"; "resolved"] ex_auth ex_grant []).
  - intros key input sig. by split.
  - exact ex_signs.
  - apply (publish_ec (F := ex_format ex_ec) ex_ec 1 2); [done|done|]. split_and!; by vm_compute.
  - by vm_compute.
  - by vm_compute.
  - intros set [= <-]. by vm_compute.
  - by vm_compute.
  - done.
  - intros t Ht. unfold ex_issuer_at. by rewrite bool_decide_false by lia.
  - by vm_compute.
  - apply (bool_decide_unpack _). by vm_compute.
  - done.
  - vm_compute. done.
  - reflexivity.
  - by left.
  - by vm_compute.
  - by vm_compute.
  - apply (bool_decide_unpack _). by vm_compute.
  - by vm_compute.
  - by vm_compute.
  - done.
  - by vm_compute.
Defined.
