(* ===== verification/Risk.v ===== *)
(** * Risk scoring (platform/risk)

    risk.go: requests, signals and the evaluator; signals.go: the eight signals of the
    package; geoip.go: the lookup of an address and its fallback.  Floating point and
    the functions of math, net.ParseIP, the MaxMind reader and the history of an account
    are parameters.  A nil interface, map or pointer is [None], an error of a lookup
    too. *)

From S2P Require Import Prelude Encoding.

(** [float64] and the functions of math on it; [f_int] is the conversion to [int]. *)
Class Float64 : Type := {
  float : Type;
  f_add : float → float → float;
  f_sub : float → float → float;
  f_mul : float → float → float;
  f_div : float → float → float;
  f_lt : float → float → bool;
  f_eq : float → float → bool;
  f_of : Z → float;
  f_int : float → Z;
  f_Pi : float;
  f_Sin : float → float;
  f_Cos : float → float;
  f_Sqrt : float → float;
  f_Atan2 : float → float → float;
}.
(** [net.IP], [net.ParseIP] and [IP.String]. *)
Class NetIP : Type := { IP : Type; ParseIP : string → option IP; IP_String : IP → string }.

Section risk.
Context {Fl : Float64} {Net : NetIP}.

(** ** risk.go *)

Record Attempt : Type := {
  at_Outcome : string; at_AttemptedAt : time; at_SourceIP : string; at_CountryCode : string; at_UserAgent : string
}.
Record GeoLocation : Type := {
  CountryCode : string; City : string; Lat : float; Lng : float; AccuracyKM : Z; geo_At : time
}.
Record HistoricalLookups : Type := {
  RecentAttempts : uuid → duration → option (list Attempt);
  KnownDeviceFingerprints : uuid → duration → option (list string);
  LastLoginGeo : uuid → option (option GeoLocation);
  IsAnonymizerIP : IP → option bool;
}.
Abbreviation GeoIPLookup := (IP → option (option GeoLocation)) (only parsing).
(** The values a policy context holds. *)
Inductive any_value : Type := AnyBool (b : bool) | AnyInt (n : Z) | AnyFloat (f : float) | AnyOther.

Record Request : Type := {
  TenantID : uuid;
  AccountID : uuid;
  SourceIP : string;
  UserAgent : string;
  AcceptLanguage : string;
  AttemptedAt : time;
  PolicyContext : option (gmap string any_value);
  Lookups : option HistoricalLookups;
  GeoIP : option GeoIPLookup;
}.

Inductive detail : Type := DText (s : string) | DInt (n : Z) | DFloat (f : float) | DBool (b : bool).
Abbreviation details := (gmap string detail) (only parsing).
(** [Evaluate]: [None] when the signal does not trigger, or its weight, an [int32],
    and its details. *)
Record Signal : Type := { Name : string; Evaluate : Env → Request → option (Z * details) }.
Record Triggered : Type := { t_Signal : string; t_Weight : Z; t_Details : details }.
Record Result : Type := { Score : Z; r_Triggered : list Triggered }.
Record Evaluator : Type := { signals : list Signal; clipAt : Z }.
Abbreviation Option_ := (Evaluator → Evaluator) (only parsing).
Definition WithClip (max : Z) : Option_ := λ e, {| signals := signals e; clipAt := max |}.
Definition NewEvaluator (l : list Signal) (opts : list Option_) : Evaluator :=
  foldl (λ e opt, opt e) {| signals := l; clipAt := 100 |} opts.

(** One turn of the loop of [Eval]; the score is an [int32]. *)
Definition eval_signal (env : Env) (req : Request) (out : Result) (s : Signal) : Result :=
  match Evaluate s env req with
  | None => out
  | Some (weight, d) =>
      {| Score := wrap32 (Score out + weight);
         r_Triggered := r_Triggered out ++ [{| t_Signal := Name s; t_Weight := weight; t_Details := d |}] |}
  end.
Definition Eval (env : Env) (e : Evaluator) (req : Request) : Result :=
  let out := foldl (eval_signal env req) {| Score := 0; r_Triggered := [] |} (signals e) in
  let score := if bool_decide (0 < clipAt e)%Z && bool_decide (clipAt e < Score out)%Z then clipAt e else Score out in
  {| Score := if bool_decide (score < 0)%Z then 0%Z else score; r_Triggered := r_Triggered out |}.

(** ** signals.go *)

(** The eight signals with what configures them. *)
Inductive baseline : Type :=
  | geoVelocityAnomaly (weight : Z) (thresholdKMH minDistKM : float)
  | newGeoCountry (weight : Z) (window : duration)
  | newDeviceFingerprint (weight : Z) (window : duration)
  | uaMismatchFromBaseline (weight : Z) (window : duration)
  | failedAttemptRecency (weight : Z) (threshold : Z) (window : duration)
  | torAnonymizerIP (weight : Z)
  | impossibleTravel (weight : Z) (thresholdKMH minDistKM : float)
  | mfaBypassAttempted (weight : Z).

Definition setWeight (w : Z) (s : baseline) : baseline :=
  match s with
  | geoVelocityAnomaly _ t d => geoVelocityAnomaly w t d
  | newGeoCountry _ win => newGeoCountry w win
  | newDeviceFingerprint _ win => newDeviceFingerprint w win
  | uaMismatchFromBaseline _ win => uaMismatchFromBaseline w win
  | failedAttemptRecency _ n win => failedAttemptRecency w n win
  | torAnonymizerIP _ => torAnonymizerIP w
  | impossibleTravel _ t d => impossibleTravel w t d
  | mfaBypassAttempted _ => mfaBypassAttempted w
  end.
(** Signals without a window are left alone. *)
Definition setWindow (win : duration) (s : baseline) : baseline :=
  match s with
  | newGeoCountry w _ => newGeoCountry w win
  | newDeviceFingerprint w _ => newDeviceFingerprint w win
  | uaMismatchFromBaseline w _ => uaMismatchFromBaseline w win
  | failedAttemptRecency w n _ => failedAttemptRecency w n win
  | _ => s
  end.
Abbreviation SignalOpt := (baseline → baseline) (only parsing).
Definition WithSignalWeight (w : Z) : SignalOpt := setWeight w.
Definition WithVelocityThreshold (kmh : float) : SignalOpt := λ s,
  match s with
  | geoVelocityAnomaly w _ d => geoVelocityAnomaly w kmh d
  | impossibleTravel w _ d => impossibleTravel w kmh d
  | _ => s
  end.
Definition WithFailureThreshold (failures : Z) (win : duration) : SignalOpt := λ s,
  match s with failedAttemptRecency w _ _ => failedAttemptRecency w failures win | _ => s end.
Definition WithHistoryWindow (d : duration) : SignalOpt := setWindow d.
(** A nil option is [None]. *)
Definition applyOpts (target : baseline) (opts : list (option SignalOpt)) : baseline :=
  foldl (λ s o, match o with Some f => f s | None => s end) target opts.

Definition Day : duration := (24 * Hour)%Z.
Definition NewGeoVelocityAnomalySignal := applyOpts (geoVelocityAnomaly 25 (f_of 900) (f_of 100)).
Definition NewNewGeoCountrySignal := applyOpts (newGeoCountry 15 (90 * Day)).
Definition NewNewDeviceFingerprintSignal := applyOpts (newDeviceFingerprint 10 (90 * Day)).
Definition NewUAMismatchFromBaselineSignal := applyOpts (uaMismatchFromBaseline 5 (30 * Day)).
Definition NewFailedAttemptRecencySignal := applyOpts (failedAttemptRecency 15 3 (15 * Minute)).
Definition NewTorAnonymizerIPSignal := applyOpts (torAnonymizerIP 30).
Definition NewImpossibleTravelSignal := applyOpts (impossibleTravel 40 (f_of 900) (f_of 100)).
Definition NewMFABypassAttemptedSignal := applyOpts (mfaBypassAttempted 50).

(** [Duration.Hours] and [Minutes]. *)
Definition in_unit (unit_ d : duration) : float :=
  f_add (f_of (Z.quot d unit_)) (f_div (f_of (Z.rem d unit_)) (f_of unit_)).
Definition Hours : duration → float := in_unit Hour.
Definition Minutes : duration → float := in_unit Minute.

Definition haversineKM (lat1 lng1 lat2 lng2 : float) : float :=
  if f_eq lat1 lat2 && f_eq lng1 lng2 then f_of 0
  else
    let two := f_of 2 in
    let toRad d := f_div (f_mul d f_Pi) (f_of 180) in
    let phi1 := toRad lat1 in
    let phi2 := toRad lat2 in
    let dphi := toRad (f_sub lat2 lat1) in
    let dlam := toRad (f_sub lng2 lng1) in
    let a := f_add (f_mul (f_Sin (f_div dphi two)) (f_Sin (f_div dphi two)))
               (f_mul (f_mul (f_mul (f_Cos phi1) (f_Cos phi2)) (f_Sin (f_div dlam two))) (f_Sin (f_div dlam two))) in
    let c := f_mul two (f_Atan2 (f_Sqrt a) (f_Sqrt (f_sub (f_of 1) a))) in
    f_mul (f_of 6371) c.

(** The common part of the two signals on velocity. *)
Definition velocity (weight : Z) (thresholdKMH minDistKM : float) (req : Request) : option (Z * details) :=
  match GeoIP req, Lookups req with
  | Some geoip, Some history =>
      match ParseIP (SourceIP req) with
      | None => None
      | Some currentIP =>
          match geoip currentIP with
          | Some (Some currentGeo) =>
              if bool_decide (AccountID req = uuid_Nil) then None
              else match LastLoginGeo history (AccountID req) with
                   | Some (Some lastGeo) =>
                       let distKM := haversineKM (Lat lastGeo) (Lng lastGeo) (Lat currentGeo) (Lng currentGeo) in
                       let hours := Hours (time_Sub (AttemptedAt req) (geo_At lastGeo)) in
                       if (f_lt hours (f_of 0) || f_eq hours (f_of 0)) || f_lt distKM minDistKM then None
                       else
                         let kmh := f_div distKM hours in
                         if f_lt kmh thresholdKMH then None
                         else Some (weight, <["distance_km" := DFloat distKM]> (<["delta_hours" := DFloat hours]>
                           (<["velocity_kmh" := DFloat kmh]> (<["from_country" := DText (CountryCode lastGeo)]>
                           {["to_country" := DText (CountryCode currentGeo)]}))))
                   | _ => None
                   end
          | _ => None
          end
      end
  | _, _ => None
  end.

Definition eval_newGeoCountry (weight : Z) (window : duration) (req : Request) : option (Z * details) :=
  match GeoIP req, Lookups req with
  | Some geoip, Some history =>
      match ParseIP (SourceIP req) with
      | None => None
      | Some currentIP =>
          match geoip currentIP with
          | Some (Some currentGeo) =>
              if bool_decide (CountryCode currentGeo = "") then None
              else if bool_decide (AccountID req = uuid_Nil) then None
              else match RecentAttempts history (AccountID req) window with
                   | None => None
                   | Some attempts =>
                       if bool_decide (attempts = []) then None
                       else if any (λ a, bool_decide (at_CountryCode a = CountryCode currentGeo)) attempts then None
                       else Some (weight, <["country" := DText (CountryCode currentGeo)]>
                                            {["history_len" := DInt (Z.of_nat (length attempts))]})
                   end
          | _ => None
          end
      end
  | _, _ => None
  end.

Definition deviceFingerprint {H : Sha256} (ua al : string) : string :=
  hex_EncodeToString (sha256 (ua +:+ String "000" al)).
Definition eval_newDeviceFingerprint {H : Sha256} (weight : Z) (window : duration) (req : Request) : option (Z * details) :=
  match Lookups req with
  | None => None
  | Some history =>
      if bool_decide (UserAgent req = "") then None
      else if bool_decide (AccountID req = uuid_Nil) then None
      else
        let fp := deviceFingerprint (UserAgent req) (AcceptLanguage req) in
        match KnownDeviceFingerprints history (AccountID req) window with
        | None => None
        | Some known =>
            if any (λ k, bool_decide (k = fp)) known then None
            else Some (weight, <["fingerprint" := DText fp]> {["known_count" := DInt (Z.of_nat (length known))]})
        end
  end.

(** [s[:i]] where [i] is the first index of one of the characters, when it is not 0. *)
Fixpoint before (p : ascii → bool) (s : string) : string :=
  match s with
  | EmptyString => ""
  | String a rest => if p a then "" else String a (before p rest)
  end.
Definition cut_at (p : ascii → bool) (s : string) : string :=
  match s with
  | String a _ => if p a then s else before p s
  | EmptyString => s
  end.
Definition uaFamilyToken {C : UnicodeCase} (ua : string) : string :=
  let ua := TrimSpace ua in
  if bool_decide (ua = "") then ""
  else ToLower (cut_at (λ a, bool_decide (a = "/"%char))
         (cut_at (λ a, bool_decide (a = " "%char) || bool_decide (a = "009"%char)) ua)).
Definition eval_uaMismatch {C : UnicodeCase} (weight : Z) (window : duration) (req : Request) : option (Z * details) :=
  match Lookups req with
  | None => None
  | Some history =>
      if bool_decide (UserAgent req = "") then None
      else if bool_decide (AccountID req = uuid_Nil) then None
      else
        let cur := uaFamilyToken (UserAgent req) in
        if bool_decide (cur = "") then None
        else match RecentAttempts history (AccountID req) window with
             | None => None
             | Some attempts =>
                 if bool_decide (attempts = []) then None
                 else if any (λ a, bool_decide (uaFamilyToken (at_UserAgent a) = cur)) attempts then None
                 else Some (weight, {["current_family" := DText cur]})
             end
  end.

Definition eval_failedAttempts (env : Env) (weight threshold : Z) (window : duration) (req : Request) : option (Z * details) :=
  match Lookups req with
  | None => None
  | Some history =>
      if bool_decide (AccountID req = uuid_Nil) then None
      else
        let cutoff := if IsZero (AttemptedAt req) then (now env - window)%Z else (AttemptedAt req - window)%Z in
        match RecentAttempts history (AccountID req) window with
        | None => None
        | Some attempts =>
            let n := Z.of_nat (count (λ a, bool_decide (at_Outcome a = "failure") && negb (Before (at_AttemptedAt a) cutoff)) attempts) in
            if bool_decide (n < threshold)%Z then None
            else Some (weight, <["failures" := DInt n]> {["window_min" := DFloat (Minutes window)]})
        end
  end.

Definition eval_torAnonymizer (weight : Z) (req : Request) : option (Z * details) :=
  match Lookups req with
  | None => None
  | Some history =>
      match ParseIP (SourceIP req) with
      | None => None
      | Some ip =>
          match IsAnonymizerIP history ip with
          | Some true => Some (weight, {["source_ip" := DText (IP_String ip)]})
          | _ => None
          end
      end
  end.

Definition intValue (v : option any_value) : Z * bool :=
  match v with
  | Some (AnyInt n) => (n, true)
  | Some (AnyFloat f) => (f_int f, true)
  | _ => (0%Z, false)
  end.
Definition eval_mfaBypass (weight : Z) (req : Request) : option (Z * details) :=
  match PolicyContext req with
  | None => None
  | Some ctx =>
      match ctx !! "mfa_required" with
      | Some (AnyBool true) =>
          let presented := (intValue (ctx !! "mfa_factors_presented")).1 in
          if bool_decide (0 < presented)%Z then None
          else Some (weight, <["mfa_required" := DBool true]> {["mfa_factors_presented" := DInt 0]})
      | _ => None
      end
  end.

Definition baseline_Name (s : baseline) : string :=
  match s with
  | geoVelocityAnomaly _ _ _ => "geo_velocity_anomaly"
  | newGeoCountry _ _ => "new_geo_country"
  | newDeviceFingerprint _ _ => "new_device_fingerprint"
  | uaMismatchFromBaseline _ _ => "ua_mismatch_from_baseline"
  | failedAttemptRecency _ _ _ => "failed_attempt_recency"
  | torAnonymizerIP _ => "tor_anonymizer_ip"
  | impossibleTravel _ _ _ => "impossible_travel"
  | mfaBypassAttempted _ => "mfa_bypass_attempted"
  end.
Definition baseline_Evaluate {H : Sha256} {C : UnicodeCase} (s : baseline) (env : Env) (req : Request) : option (Z * details) :=
  match s with
  | geoVelocityAnomaly w t d => velocity w t d req
  | newGeoCountry w win => eval_newGeoCountry w win req
  | newDeviceFingerprint w win => eval_newDeviceFingerprint w win req
  | uaMismatchFromBaseline w win => eval_uaMismatch w win req
  | failedAttemptRecency w n win => eval_failedAttempts env w n win req
  | torAnonymizerIP w => eval_torAnonymizer w req
  | impossibleTravel w t d => velocity w t d req
  | mfaBypassAttempted w => eval_mfaBypass w req
  end.
Definition as_Signal {H : Sha256} {C : UnicodeCase} (s : baseline) : Signal :=
  {| Name := baseline_Name s; Evaluate := baseline_Evaluate s |}.

(** ** geoip.go

    A reader finds a record, nothing, or fails; decoding a record may fail. *)
Record geoRecord : Type := {
  gr_ISOCode : string; gr_Names : gmap string string; gr_Latitude : float; gr_Longitude : float; gr_Accuracy : Z
}.
Inductive reader_result : Type := ReaderErr | NotFound | Found (rec : option geoRecord).
(** [MaxMindGeoIP], whose reader is gone once it is closed, and [NoOpGeoIP]. *)
Inductive GeoIP_impl : Type :=
  | MaxMindGeoIP (reader : option (IP → reader_result)) (dbPath : string) (refreshedAt : time)
  | NoOpGeoIP.
(** [opened] is what opening the file gives, [modified] its time when it has one. *)
Definition NewMaxMindGeoIP (env : Env) (opened : option (IP → reader_result)) (modified : option time) (dbPath : string) :
    GeoIP_impl :=
  match opened with
  | None => NoOpGeoIP
  | Some reader => MaxMindGeoIP (Some reader) dbPath (default (now env) modified)
  end.
Definition Lookup_ (env : Env) (g : GeoIP_impl) (ip : option IP) : option (option GeoLocation) :=
  match g with
  | NoOpGeoIP => Some None
  | MaxMindGeoIP reader _ _ =>
      match ip, reader with
      | Some ip, Some reader =>
          match reader ip with
          | ReaderErr | Found None => None
          | NotFound => Some None
          | Found (Some rec) =>
              Some (Some {| CountryCode := gr_ISOCode rec; City := default "" (gr_Names rec !! "en"); Lat := gr_Latitude rec;
                            Lng := gr_Longitude rec; AccuracyKM := gr_Accuracy rec; geo_At := now env |})
          end
      | _, _ => None
      end
  end.
Definition RefreshedAt (g : GeoIP_impl) : time := match g with MaxMindGeoIP _ _ t => t | NoOpGeoIP => 0%Z end.
Definition Healthy (g : GeoIP_impl) : bool := match g with MaxMindGeoIP (Some _) _ _ => true | _ => false end.
Definition Close (g : GeoIP_impl) : GeoIP_impl :=
  match g with MaxMindGeoIP _ path t => MaxMindGeoIP None path t | NoOpGeoIP => NoOpGeoIP end.
End risk.
