(* ===== verification/RiskProofs.v ===== *)
(** * Properties of risk scoring

    The score is the clipped sum of the weights of the signals that trigger, in any
    order, as long as the sum fits 32 bits, and zero right beyond; a signal of the
    package triggers exactly on what it names, and missing data never triggers. *)

From S2P Require Import Prelude Encoding Risk.

(** ** 32-bit sums *)

Lemma wrap32_add a b : wrap32 (wrap32 a + b) = wrap32 (a + b).
Proof.
  unfold wrap. f_equal.
  replace ((a + 2 ^ (32 - 1)) `mod` 2 ^ 32 - 2 ^ (32 - 1) + b + 2 ^ (32 - 1))%Z with ((a + 2 ^ (32 - 1)) `mod` 2 ^ 32 + b)%Z by lia.
  rewrite Z.add_mod_idemp_l by lia. f_equal. lia.
Qed.
Lemma wrap32_beyond n : (2 ^ 31 ≤ n < 2 ^ 32)%Z → (wrap32 n < 0)%Z.
Proof.
  intros Hn. unfold wrap. replace (n + 2 ^ (32 - 1))%Z with (n - 2 ^ 31 + 1 * 2 ^ 32)%Z by lia.
  rewrite Z.mod_add, Z.mod_small by lia. lia.
Qed.
Definition sum_Z (l : list Z) : Z := foldr Z.add 0%Z l.
Lemma sum_Z_perm l l' : l ≡ₚ l' → sum_Z l = sum_Z l'.
Proof. unfold sum_Z. induction 1; cbn [foldr]; lia. Qed.

Section risk.
Context {Fl : Float64} {Net : NetIP}.
Implicit Types (req : Request) (e : Evaluator).

(** ** The evaluator *)

(** The signals that trigger, in order. *)
Definition fires (env : Env) req (s : Signal) : option Triggered :=
  (λ '(w, d), {| t_Signal := Name s; t_Weight := w; t_Details := d |}) <$> Evaluate s env req.
Definition total (env : Env) req (l : list Signal) : Z := sum_Z (t_Weight <$> omap (fires env req) l).
Definition clip (max n : Z) : Z := Z.max 0 (if bool_decide (0 < max)%Z then Z.min max n else n).

Lemma eval_signal_fires env req out s :
  eval_signal env req out s =
  match fires env req s with
  | None => out
  | Some t => {| Score := wrap32 (Score out + t_Weight t); r_Triggered := r_Triggered out ++ [t] |}
  end.
Proof. unfold eval_signal, fires. by destruct (Evaluate s env req) as [[w d]|]. Qed.
Lemma eval_fold env req l out :
  foldl (eval_signal env req) out l =
  {| Score := match omap (fires env req) l with [] => Score out | _ => wrap32 (Score out + total env req l) end;
     r_Triggered := r_Triggered out ++ omap (fires env req) l |}.
Proof.
  revert out. induction l as [|s l IH]; intros out; cbn [foldl].
  { cbn. rewrite app_nil_r. by destruct out. }
  rewrite IH, eval_signal_fires. unfold total. cbn [omap list_omap]. destruct (fires env req s) as [t|]; [|done].
  cbn [Score r_Triggered]. rewrite <-app_assoc. f_equal. rewrite wrap32_add.
  destruct (omap (fires env req) l) as [|t' l']; cbn [fmap list_fmap sum_Z foldr]; f_equal; lia.
Qed.

Lemma Eval_spec env e req :
  Eval env e req = {| Score := clip (clipAt e) (wrap32 (total env req (signals e))); r_Triggered := omap (fires env req) (signals e) |}.
Proof.
  unfold Eval. rewrite eval_fold. cbn [Score r_Triggered app].
  assert (match omap (fires env req) (signals e) with [] => 0%Z | _ => wrap32 (0 + total env req (signals e)) end
    = wrap32 (total env req (signals e))) as ->.
  { unfold total. by destruct (omap _ _). }
  f_equal. unfold clip. set (n := wrap32 _).
  destruct (bool_decide (0 < clipAt e)%Z); cbn [andb]; repeat case_bool_decide; lia.
Qed.

(** The evaluator reports, in order, the signals that trigger; its score is the sum of
    their weights cut to the range from zero to the clip, when the sum fits 32 bits;
    and neither depends on the order of the signals, but for the order of the report. *)
Theorem score_exact env e req :
  (- 2 ^ 31 ≤ total env req (signals e) < 2 ^ 31)%Z →
  Eval env e req = {| Score := clip (clipAt e) (total env req (signals e)); r_Triggered := omap (fires env req) (signals e) |} ∧
  ∀ e', signals e' ≡ₚ signals e → clipAt e' = clipAt e →
    Score (Eval env e' req) = Score (Eval env e req) ∧ r_Triggered (Eval env e' req) ≡ₚ r_Triggered (Eval env e req).
Proof.
  intros Ht. split; [by rewrite Eval_spec, wrap32_small|]. intros e' Hp Hc. rewrite !Eval_spec. cbn [Score r_Triggered].
  assert (omap (fires env req) (signals e') ≡ₚ omap (fires env req) (signals e)) as Ho by (by rewrite Hp).
  split; [|done]. rewrite Hc. unfold total. do 2 f_equal. apply sum_Z_perm. by rewrite Ho.
Qed.

(** Weights that add up to 2^31 or more give the score of an attempt on which no
    signal triggers. *)
Theorem heavy_weights_score_zero env e req :
  (2 ^ 31 ≤ total env req (signals e) < 2 ^ 32)%Z → Score (Eval env e req) = 0%Z.
Proof.
  intros Ht. rewrite Eval_spec. cbn [Score]. pose proof (wrap32_beyond _ Ht). unfold clip. case_bool_decide; lia.
Qed.

(** ** The signals *)

Section signals.
Context {H : Sha256} {C : UnicodeCase}.

(** What the velocity signals look at: where the attempt and the last login are, with the
    distance between them and the hours. *)
Definition located req (cur : GeoLocation) : Prop :=
  ∃ geoip ip, GeoIP req = Some geoip ∧ ParseIP (SourceIP req) = Some ip ∧ geoip ip = Some (Some cur).
Definition history_of req (h : HistoricalLookups) : Prop := Lookups req = Some h ∧ AccountID req ≠ 0%N.
Definition distance (last cur : GeoLocation) : float := haversineKM (Lat last) (Lng last) (Lat cur) (Lng cur).
Definition elapsed req (last : GeoLocation) : float := Hours (time_Sub (AttemptedAt req) (geo_At last)).
Definition too_fast req (threshold min_distance : float) : Prop :=
  ∃ cur h last, located req cur ∧ history_of req h ∧ LastLoginGeo h (AccountID req) = Some (Some last) ∧
    f_lt (elapsed req last) (f_of 0) = false ∧ f_eq (elapsed req last) (f_of 0) = false ∧
    f_lt (distance last cur) min_distance = false ∧
    f_lt (f_div (distance last cur) (elapsed req last)) threshold = false.

(** When each signal triggers. *)
Definition trigger (env : Env) req (s : baseline) : Prop :=
  match s with
  | geoVelocityAnomaly _ t d | impossibleTravel _ t d => too_fast req t d
  | newGeoCountry _ win => ∃ cur h l, located req cur ∧ history_of req h ∧ CountryCode cur ≠ "" ∧
      RecentAttempts h (AccountID req) win = Some l ∧ l ≠ [] ∧ ∀ a, a ∈ l → at_CountryCode a ≠ CountryCode cur
  | newDeviceFingerprint _ win => ∃ h l, history_of req h ∧ UserAgent req ≠ "" ∧
      KnownDeviceFingerprints h (AccountID req) win = Some l ∧ deviceFingerprint (UserAgent req) (AcceptLanguage req) ∉ l
  | uaMismatchFromBaseline _ win => ∃ h l, history_of req h ∧ UserAgent req ≠ "" ∧ uaFamilyToken (UserAgent req) ≠ "" ∧
      RecentAttempts h (AccountID req) win = Some l ∧ l ≠ [] ∧
      ∀ a, a ∈ l → uaFamilyToken (at_UserAgent a) ≠ uaFamilyToken (UserAgent req)
  | failedAttemptRecency _ n win => ∃ h l, history_of req h ∧ RecentAttempts h (AccountID req) win = Some l ∧
      let start := ((if IsZero (AttemptedAt req) then now env else AttemptedAt req) - win)%Z in
      (n ≤ Z.of_nat (length (filter (λ a, at_Outcome a = "failure" ∧ start ≤ at_AttemptedAt a)%Z l)))%Z
  | torAnonymizerIP _ => ∃ h ip, Lookups req = Some h ∧ ParseIP (SourceIP req) = Some ip ∧ IsAnonymizerIP h ip = Some true
  | mfaBypassAttempted _ => ∃ ctx, PolicyContext req = Some ctx ∧ ctx !! "mfa_required" = Some (AnyBool true) ∧
      ((intValue (ctx !! "mfa_factors_presented")).1 ≤ 0)%Z
  end.

(** A result is there exactly when [P] holds, with the weight. *)
Definition weighs (o : option (Z * gmap string detail)) (w : Z) (P : Prop) : Prop :=
  (is_Some o ↔ P) ∧ ∀ w' d, o = Some (w', d) → w' = w.
Lemma weighs_none w P : ¬ P → weighs None w P.
Proof. intros HP. split; [|done]. split; [by intros []|done]. Qed.
Lemma weighs_some w d P : P → weighs (Some (w, d)) w P.
Proof. intros HP. split; [|by intros ?? [= <- _]]. split; [done|by eexists]. Qed.

Lemma weighs_iff (Q : Prop) o w (P : Prop) : (Q ↔ P) → weighs o w Q → weighs o w P.
Proof. intros HQ [H1 H2]. split; [by rewrite H1|done]. Qed.

Lemma weighs_match {A} (o : option A) (k : A → option (Z * gmap string detail)) w (P : A → Prop) :
  (∀ x, weighs (k x) w (P x)) → weighs (match o with Some x => k x | None => None end) w (∃ x, o = Some x ∧ P x).
Proof.
  intros Hk. destruct o as [x|]; [|apply weighs_none; by intros (? & ? & _)].
  apply (weighs_iff (P x)); [|apply Hk]. split; [by exists x|]. by intros (? & [= <-] & ?).
Qed.
Lemma weighs_if (b : bool) o w P : weighs o w P → weighs (if b then None else o) w (b = false ∧ P).
Proof.
  intros Ho. destruct b; [apply weighs_none; by intros [? _]|]. apply (weighs_iff P); [|done]. naive_solver.
Qed.
Lemma weighs_end w d : weighs (Some (w, d)) w True.
Proof. by apply weighs_some. Qed.

(** Where the attempt and its account are. *)
Lemma located_weighs (k : GeoLocation → HistoricalLookups → option (Z * gmap string detail)) w (P : GeoLocation → HistoricalLookups → Prop) req :
  (∀ cur h, weighs (k cur h) w (P cur h)) →
  weighs match GeoIP req, Lookups req with
         | Some geoip, Some history =>
             match ParseIP (SourceIP req) with
             | None => None
             | Some ip => match geoip ip with Some (Some cur) => k cur history | _ => None end
             end
         | _, _ => None
         end w (∃ cur h, located req cur ∧ Lookups req = Some h ∧ P cur h).
Proof.
  intros Hk. unfold located.
  destruct (GeoIP req) as [geoip|]; [|apply weighs_none; by intros (? & ? & (? & ? & ? & _) & _)].
  destruct (Lookups req) as [h|]; [|apply weighs_none; by intros (? & ? & _ & ? & _)].
  destruct (ParseIP (SourceIP req)) as [ip|]; [|apply weighs_none; by intros (? & ? & (? & ? & _ & ? & _) & _)].
  destruct (geoip ip) as [[cur|]|] eqn:Hg.
  2, 3: apply weighs_none; intros (? & ? & (? & ? & [= <-] & [= <-] & E) & _); by rewrite Hg in E.
  apply (weighs_iff (P cur h)); [|apply Hk]. split.
  - intros HP. exists cur, h. split_and!; try done. by exists geoip, ip.
  - intros (cur' & h' & (? & ? & [= <-] & [= <-] & E) & [= <-] & HP). rewrite Hg in E. by injection E as <-.
Qed.
Lemma velocity_weighs w t d req : weighs (velocity w t d req) w (too_fast req t d).
Proof.
  unfold velocity. eapply weighs_iff.
  2: { apply located_weighs. intros cur h. apply weighs_if.
       apply (weighs_iff (∃ last, LastLoginGeo h (AccountID req) = Some (Some last) ∧
         ((f_lt (elapsed req last) (f_of 0) || f_eq (elapsed req last) (f_of 0)) || f_lt (distance last cur) d) = false ∧
         f_lt (f_div (distance last cur) (elapsed req last)) t = false ∧ True)); [reflexivity|].
       destruct (LastLoginGeo h (AccountID req)) as [[last|]|].
       2, 3: apply weighs_none; by intros (? & ? & _).
       eapply weighs_iff; [|apply weighs_if, weighs_if, weighs_end]. split; [intros HQ; by exists last|].
       by intros (? & [= <-] & HQ). }
  unfold too_fast, history_of. setoid_rewrite bool_decide_eq_false. setoid_rewrite orb_false_iff. setoid_rewrite orb_false_iff.
  naive_solver.
Qed.

Lemma newGeoCountry_weighs env w win req : weighs (eval_newGeoCountry w win req) w (trigger env req (newGeoCountry w win)).
Proof.
  unfold eval_newGeoCountry. eapply weighs_iff.
  2: { apply located_weighs. intros cur h. apply weighs_if, weighs_if, weighs_match. intros l. apply weighs_if, weighs_if, weighs_end. }
  unfold trigger, history_of. setoid_rewrite any_false. setoid_rewrite bool_decide_eq_false. naive_solver.
Qed.
Lemma newDevice_weighs env w win req :
  weighs (eval_newDeviceFingerprint w win req) w (trigger env req (newDeviceFingerprint w win)).
Proof.
  unfold eval_newDeviceFingerprint. eapply weighs_iff.
  2: { apply weighs_match. intros h. apply weighs_if, weighs_if, weighs_match. intros l. apply weighs_if, weighs_end. }
  unfold trigger, history_of. setoid_rewrite any_false. setoid_rewrite bool_decide_eq_false. naive_solver.
Qed.
Lemma uaMismatch_weighs env w win req : weighs (eval_uaMismatch w win req) w (trigger env req (uaMismatchFromBaseline w win)).
Proof.
  unfold eval_uaMismatch. eapply weighs_iff.
  2: { apply weighs_match. intros h. apply weighs_if, weighs_if, weighs_if, weighs_match. intros l. apply weighs_if, weighs_if, weighs_end. }
  unfold trigger, history_of. setoid_rewrite any_false. setoid_rewrite bool_decide_eq_false. naive_solver.
Qed.
Lemma failures_weighs env w n win req : weighs (eval_failedAttempts env w n win req) w (trigger env req (failedAttemptRecency w n win)).
Proof.
  unfold eval_failedAttempts. eapply weighs_iff.
  2: { apply weighs_match. intros h. apply weighs_if, weighs_match. intros l. apply weighs_if, weighs_end. }
  unfold trigger, history_of. setoid_rewrite bool_decide_eq_false. unfold count.
  assert (∀ (start : Z) (l : list Attempt), filter (λ a, bool_decide (at_Outcome a = "failure") && negb (Before (at_AttemptedAt a) start) = true) l
    = filter (λ a, at_Outcome a = "failure" ∧ start ≤ at_AttemptedAt a)%Z l) as Hf.
  { intros start l. apply list_filter_iff. intros a. unfold Before. rewrite andb_true_iff, negb_true_iff, bool_decide_eq_true, bool_decide_eq_false. intuition lia. }
  setoid_rewrite Hf. split.
  - intros (h & HL & Hz & l & HR & Hn & _). exists h, l. split_and!; try done. destruct (IsZero (AttemptedAt req)); lia.
  - intros (h & l & [HL Hz] & HR & Hn). exists h. split_and!; try done. exists l. split_and!; try done. destruct (IsZero (AttemptedAt req)); lia.
Qed.
Lemma torAnonymizer_weighs env w req : weighs (eval_torAnonymizer w req) w (trigger env req (torAnonymizerIP w)).
Proof.
  unfold eval_torAnonymizer. eapply weighs_iff.
  2: { apply weighs_match. intros h. apply weighs_match with (P := λ ip, IsAnonymizerIP h ip = Some true). intros ip.
       destruct (IsAnonymizerIP h ip) as [[]|]; [by apply weighs_some|by apply weighs_none..]. }
  unfold trigger. naive_solver.
Qed.
Lemma mfaBypass_weighs env w req : weighs (eval_mfaBypass w req) w (trigger env req (mfaBypassAttempted w)).
Proof.
  unfold eval_mfaBypass. eapply weighs_iff.
  2: { apply weighs_match with (P := λ ctx, ctx !! "mfa_required" = Some (AnyBool true) ∧
         bool_decide (0 < (intValue (ctx !! "mfa_factors_presented")).1)%Z = false ∧ True). intros ctx.
       destruct (ctx !! "mfa_required") as [[[]| | |]|]; try (apply weighs_none; by intros [? _]).
       eapply weighs_iff; [|apply weighs_if, weighs_end]. naive_solver. }
  unfold trigger. setoid_rewrite bool_decide_eq_false. split; intros (ctx & H1 & H2 & H3); exists ctx; intuition lia.
Qed.

Definition weight_of (s : baseline) : Z :=
  match s with
  | geoVelocityAnomaly w _ _ | newGeoCountry w _ | newDeviceFingerprint w _ | uaMismatchFromBaseline w _
  | failedAttemptRecency w _ _ | torAnonymizerIP w | impossibleTravel w _ _ | mfaBypassAttempted w => w
  end.
Lemma baseline_weighs env req s : weighs (baseline_Evaluate s env req) (weight_of s) (trigger env req s).
Proof.
  destruct s; cbn [baseline_Evaluate weight_of];
    eauto using velocity_weighs, newGeoCountry_weighs, newDevice_weighs, uaMismatch_weighs, failures_weighs,
      torAnonymizer_weighs, mfaBypass_weighs.
Qed.

(** A signal of the package triggers exactly on what it is about, with the weight it
    is configured with; where there is neither history nor policy, none does. *)
Theorem signal_triggers_exactly env req s :
  (is_Some (baseline_Evaluate s env req) ↔ trigger env req s) ∧
  (∀ w d, baseline_Evaluate s env req = Some (w, d) → w = weight_of s) ∧
  (Lookups req = None → PolicyContext req = None → baseline_Evaluate s env req = None).
Proof.
  destruct (baseline_weighs env req s) as [H1 H2]. split; [done|]. split; [done|]. intros HL HP.
  destruct (baseline_Evaluate s env req) as [[w d]|] eqn:He; [|done]. assert (trigger env req s) as Ht by (apply H1; by eexists).
  destruct s; unfold trigger, too_fast, history_of in Ht; naive_solver.
Qed.

End signals.
End risk.

(** ** Witnesses *)

Definition whole_floats : Float64 := {|
  float := Z; f_add := Z.add; f_sub := Z.sub; f_mul := Z.mul; f_div := Z.quot; f_lt := λ a b, bool_decide (a < b)%Z;
  f_eq := λ a b, bool_decide (a = b); f_of := λ n, n; f_int := λ n, n; f_Pi := 3%Z; f_Sin := λ n, n; f_Cos := λ n, n;
  f_Sqrt := Z.sqrt; f_Atan2 := λ a b, (a - b)%Z |}.
Definition text_ip : NetIP := {| IP := string; ParseIP := λ s, if bool_decide (s = "") then None else Some s; IP_String := λ s, s |}.
Definition ex_sha : Sha256 := {| sha256 := λ s, s |}.
Definition ex_env : Env := {| now := 100 * Second; new_id := N.of_nat; order := canonical_range |}.
#[local] Abbreviation ex_signal := (as_Signal (Fl := whole_floats) (Net := text_ip) (H := ex_sha) (C := ascii_case)).
#[local] Abbreviation ex_total := (total (Fl := whole_floats) (Net := text_ip)).

(** An attempt from an anonymizer that skips a required factor. *)
Definition ex_listed (ip : string) : option bool := Some (bool_decide (ip = "10.0.0.1")).
Definition ex_history : HistoricalLookups (Fl := whole_floats) (Net := text_ip) :=
  @Build_HistoricalLookups whole_floats text_ip (λ _ _, Some []) (λ _ _, Some []) (λ _, Some None) ex_listed.
Definition ex_req : Request (Fl := whole_floats) (Net := text_ip) :=
  {| TenantID := 6%N; AccountID := 4%N; SourceIP := "10.0.0.1"; UserAgent := ""; AcceptLanguage := ""; AttemptedAt := 90 * Second;
     PolicyContext := Some {["mfa_required" := AnyBool true]}; Lookups := Some ex_history; GeoIP := None |}.
Definition ex_baseline (mfa : Z) : list (Signal (Fl := whole_floats) (Net := text_ip)) :=
  [ex_signal (NewTorAnonymizerIPSignal []);
   ex_signal (NewFailedAttemptRecencySignal []);
   ex_signal (NewMFABypassAttemptedSignal [Some (WithSignalWeight mfa)])].

Lemma score_exact_witness :
  Eval ex_env (NewEvaluator (ex_baseline 50) []) ex_req =
    {| Score := clip 100 80; r_Triggered := omap (fires ex_env ex_req) (ex_baseline 50) |} ∧
  ∀ e', signals e' ≡ₚ ex_baseline 50 → clipAt e' = 100%Z →
    Score (Eval ex_env e' ex_req) = Score (Eval ex_env (NewEvaluator (ex_baseline 50) []) ex_req) ∧
    r_Triggered (Eval ex_env e' ex_req) ≡ₚ r_Triggered (Eval ex_env (NewEvaluator (ex_baseline 50) []) ex_req).
Proof. apply (score_exact ex_env (NewEvaluator (ex_baseline 50) []) ex_req). vm_compute. by split. Defined.
(** The operator means to stop such attempts at any price. *)
Lemma heavy_weights_score_zero_witness : Score (Eval ex_env (NewEvaluator (ex_baseline (2 ^ 31 - 1)) []) ex_req) = 0%Z.
Proof. apply (heavy_weights_score_zero ex_env (NewEvaluator (ex_baseline (2 ^ 31 - 1)) []) ex_req). vm_compute. by split. Defined.
Definition ex_blank : Request (Fl := whole_floats) (Net := text_ip) :=
  {| TenantID := 6%N; AccountID := 4%N; SourceIP := "10.0.0.1"; UserAgent := "curl/8"; AcceptLanguage := ""; AttemptedAt := 0;
     PolicyContext := None; Lookups := None; GeoIP := None |}.
Lemma signal_triggers_exactly_witness :
  baseline_Evaluate (H := ex_sha) (C := ascii_case) (NewFailedAttemptRecencySignal []) ex_env ex_blank = None.
Proof. by apply (signal_triggers_exactly ex_env ex_blank (NewFailedAttemptRecencySignal [])). Defined.
