(* ===== verification/Realtime.v ===== *)
(** * The realtime hub (platform/realtime)

    The hub of one process, subscribers with a bounded buffer, and the fan-out over
    Redis.  Subscribers are objects that hubs and readers share: they live in a store,
    under their pointers.  Redis and [encoding/json] are parameters. *)

From S2P Require Import Prelude.

Abbreviation Channel := string (only parsing).
Record Message : Type := {
  m_Channel : Channel; m_Type : string; m_Data : RawMessage; m_Metadata : gmap string string
}.
Inductive hub_error : Type := ErrHubStopped.
#[export] Instance hub_error_eq_dec : EqDecision hub_error.
Proof. solve_decision. Defined.
Abbreviation herr := (goerr hub_error) (only parsing).

(** ** Buffered subscribers *)

Record BufferedSubscriber : Type := { sub_id : string; channel : Channel; buf : list Message; cap : nat; closed : bool }.
Abbreviation pointer := nat (only parsing).
Abbreviation Store := (gmap nat BufferedSubscriber) (only parsing).

Definition NewBufferedSubscriber (i : string) (ch : Channel) (bufSize : Z) : BufferedSubscriber :=
  {| sub_id := i; channel := ch; buf := []; cap := if bool_decide (bufSize < 1)%Z then 1 else Z.to_nat bufSize; closed := false |}.
Definition set_buf (l : list Message) (b : BufferedSubscriber) : BufferedSubscriber :=
  {| sub_id := sub_id b; channel := channel b; buf := l; cap := cap b; closed := closed b |}.
Definition Send (m : Message) (b : BufferedSubscriber) : outcome herr BufferedSubscriber :=
  if closed b then Err (Errorf "realtime: subscriber closed")
  else
    let l := if bool_decide (cap b ≤ length (buf b))%nat then tail (buf b) else buf b in
    Ok (set_buf (l ++ [m]) b).
(** One turn of the loop of [Recv]: a message, the end, or nothing yet. *)
Inductive received : Type := Got (m : Message) | Drained | Waits.
Definition Recv (b : BufferedSubscriber) : received * BufferedSubscriber :=
  match buf b with
  | m :: rest => (Got m, set_buf rest b)
  | [] => (if closed b then Drained else Waits, b)
  end.
Definition Close (b : BufferedSubscriber) : BufferedSubscriber :=
  {| sub_id := sub_id b; channel := channel b; buf := buf b; cap := cap b; closed := true |}.

(** ** The local hub *)

Record Counters : Type := { published : Z; delivered : Z; dropped : Z; remoteIngress : Z; remoteEgress : Z }.
Record localHub : Type := { channels : gmap Channel (gmap string pointer); stopped : bool; stats : Counters }.
Definition NewHub : localHub :=
  {| channels := ∅; stopped := false; stats := {| published := 0; delivered := 0; dropped := 0; remoteIngress := 0; remoteEgress := 0 |} |}.
Definition set_channels (c : gmap Channel (gmap string pointer)) (h : localHub) : localHub :=
  {| channels := c; stopped := stopped h; stats := stats h |}.
Definition count_published (h : localHub) : localHub :=
  {| channels := channels h; stopped := stopped h;
     stats := {| published := published (stats h) + 1; delivered := delivered (stats h); dropped := dropped (stats h);
                 remoteIngress := remoteIngress (stats h); remoteEgress := remoteEgress (stats h) |} |}.
Definition count_sent (ok : bool) (h : localHub) : localHub :=
  {| channels := channels h; stopped := stopped h;
     stats := {| published := published (stats h); delivered := delivered (stats h) + (if ok then 1 else 0);
                 dropped := dropped (stats h) + (if ok then 0 else 1); remoteIngress := remoteIngress (stats h); remoteEgress := remoteEgress (stats h) |} |}.
Definition count_ingress (h : localHub) : localHub :=
  {| channels := channels h; stopped := stopped h;
     stats := {| published := published (stats h); delivered := delivered (stats h); dropped := dropped (stats h);
                 remoteIngress := remoteIngress (stats h) + 1; remoteEgress := remoteEgress (stats h) |} |}.

(** The test of [Subscribe], which comes before the lock is taken, and what follows under the lock. *)
Definition add_subscriber (ch : Channel) (sid : string) (p : pointer) (h : localHub) : localHub :=
  set_channels (<[ch := <[sid := p]> (default ∅ (channels h !! ch))]> (channels h)) h.
Definition Subscribe (ch : Channel) (sid : string) (p : pointer) : prog localHub herr unit := λ h,
  if stopped h then (Err (Sentinel ErrHubStopped), h) else (Ok tt, add_subscriber ch sid p h).
Definition Unsubscribe (ch : Channel) (sid : string) (h : localHub) : localHub :=
  match channels h !! ch with
  | None => h
  | Some subs =>
      let subs := delete sid subs in
      if bool_decide (size subs = 0)%nat then set_channels (delete ch (channels h)) h
      else set_channels (<[ch := subs]> (channels h)) h
  end.

(** The loop of [Publish] over its targets. *)
Definition send_to (m : Message) (hs : localHub * Store) (p : pointer) : localHub * Store :=
  match hs.2 !! p with
  | None => hs
  | Some b => match Send m b with
              | Err _ => (count_sent false hs.1, hs.2)
              | Ok b' => (count_sent true hs.1, <[p := b']> hs.2)
              end
  end.
Definition targets (e : Env) (ch : Channel) (h : localHub) : list pointer :=
  (range (MapRange := order e) (default ∅ (channels h !! ch))).*2.
Definition Publish (e : Env) (m : Message) : prog (localHub * Store) herr unit := λ hs,
  if stopped hs.1 then (Err (Sentinel ErrHubStopped), hs)
  else (Ok tt, foldl (send_to m) (count_published hs.1, hs.2) (targets e (m_Channel m) hs.1)).
Definition Presence (e : Env) (ch : Channel) (h : localHub) : list string :=
  match channels h !! ch with
  | None => []
  | Some subs => (range (MapRange := order e) subs).*1
  end.
Record Stats : Type := { st_Channels : nat; st_Subscribers : nat; st_counters : Counters }.
Definition hub_Stats (h : localHub) : Stats :=
  {| st_Channels := size (channels h); st_Subscribers := map_fold (λ _ s n, (n + size s)%nat) 0%nat (channels h);
     st_counters := stats h |}.
(** [Stop] closes every subscriber and forgets them. *)
Definition pointers (h : localHub) : list pointer :=
  concat ((λ subs : gmap string pointer, (map_to_list subs).*2) <$> (map_to_list (channels h)).*2).
Definition Stop (hs : localHub * Store) : localHub * Store :=
  let '(h, s) := hs in
  if stopped h then hs
  else ({| channels := ∅; stopped := true; stats := stats h |}, foldr (alter Close) s (pointers h)).

(** ** The fan-out over Redis

    [subscribed] are the channels that have a Redis subscription to cancel. *)
Record fanoutHub : Type := {
  local : localHub;
  prefix : string;
  subscribed : gset Channel;
  subCount : gmap Channel Z;
}.
Definition NewRedisFanout (l : localHub) (pre : string) : fanoutHub :=
  {| local := l; prefix := if bool_decide (pre = "") then "platform:rt:" else pre; subscribed := ∅; subCount := ∅ |}.
Definition set_local (l : localHub) (f : fanoutHub) : fanoutHub :=
  {| local := l; prefix := prefix f; subscribed := subscribed f; subCount := subCount f |}.

(** [redis_ok] says whether Redis takes the subscription; the result says
    whether there is a new one. *)
Definition fan_Subscribe (redis_ok : bool) (ch : Channel) (sid : string) (p : pointer) (f : fanoutHub) :
    outcome herr bool * fanoutHub :=
  match Subscribe ch sid p (local f) with
  | (Err err, l) => (Err err, set_local l f)
  | (Ok _, l) =>
      let n := (default 0 (subCount f !! ch) + 1)%Z in
      let fresh := bool_decide (ch ∉ subscribed f) && redis_ok in
      (Ok fresh, {| local := l; prefix := prefix f; subscribed := if fresh then {[ch]} ∪ subscribed f else subscribed f;
                    subCount := <[ch := n]> (subCount f) |})
  end.
(** The result says whether a Redis subscription is cancelled. *)
Definition fan_Unsubscribe (ch : Channel) (sid : string) (f : fanoutHub) : bool * fanoutHub :=
  let l := Unsubscribe ch sid (local f) in
  let n := (default 0 (subCount f !! ch) - 1)%Z in
  if bool_decide (n ≤ 0)%Z then
    (bool_decide (ch ∈ subscribed f),
     {| local := l; prefix := prefix f; subscribed := subscribed f ∖ {[ch]}; subCount := delete ch (subCount f) |})
  else (false, {| local := l; prefix := prefix f; subscribed := subscribed f; subCount := <[ch := n]> (subCount f) |}).

Class MessageCodec : Type := { Marshal : Message → option string; Unmarshal : string → option Message }.

Section fanout.
Context {J : MessageCodec}.

(** [Publish]; the result is what is handed to Redis, a channel and a payload. *)
Definition fan_Publish (e : Env) (m : Message) (fs : fanoutHub * Store) :
    outcome herr (string * string) * (fanoutHub * Store) :=
  match Publish e m (local fs.1, fs.2) with
  | (Err err, (l, s)) => (Err err, (set_local l fs.1, s))
  | (Ok _, (l, s)) =>
      (match Marshal m with
       | None => Err (Errorf "realtime: marshal message")
       | Some payload => Ok (prefix fs.1 +:+ m_Channel m, payload)
       end, (set_local l fs.1, s))
  end.

(** One turn of the loop of [consumeRedis]. *)
Definition consumeRedis (e : Env) (payload : string) (fs : fanoutHub * Store) : fanoutHub * Store :=
  match Unmarshal payload with
  | None => fs
  | Some m => let '(l, s) := (Publish e m (local fs.1, fs.2)).2 in (set_local (count_ingress l) fs.1, s)
  end.
Definition fan_Stop (fs : fanoutHub * Store) : fanoutHub * Store :=
  let '(l, s) := Stop (local fs.1, fs.2) in
  ({| local := l; prefix := prefix fs.1; subscribed := ∅; subCount := ∅ |}, s).

(** ** Several processes

    The hubs, the subscribers, and what each Redis subscription, of a process to a
    channel, has received and not consumed. *)
Record world : Type := {
  hubs : gmap nat fanoutHub;
  store : Store;
  inbox : gmap (nat * string) (list string);
}.
Definition set_hub (i : nat) (fs : fanoutHub * Store) (w : world) : world :=
  {| hubs := <[i := fs.1]> (hubs w); store := fs.2; inbox := inbox w |}.
(** Redis hands a payload to every subscription of the channel. *)
Definition broadcast (ch payload : string) (w : world) : world :=
  {| hubs := hubs w; store := store w;
     inbox := map_imap (λ k l, Some (if bool_decide (k.2 = ch) then l ++ [payload] else l)) (inbox w) |}.
Definition subscribe_inbox (i : nat) (ch : string) (w : world) : world :=
  {| hubs := hubs w; store := store w; inbox := <[(i, ch) := []]> (inbox w) |}.
Definition cancel_inbox (i : nat) (ch : string) (w : world) : world :=
  {| hubs := hubs w; store := store w; inbox := delete (i, ch) (inbox w) |}.

Inductive step : world → world → Prop :=
  | step_subscribe w i f ok ch sid p fresh f' :
      hubs w !! i = Some f → fan_Subscribe ok ch sid p f = (Ok fresh, f') →
      step w ((if fresh then subscribe_inbox i (prefix f +:+ ch) else id) (set_hub i (f', store w) w))
  | step_unsubscribe w i f ch sid cancelled f' :
      hubs w !! i = Some f → fan_Unsubscribe ch sid f = (cancelled, f') →
      step w ((if cancelled then cancel_inbox i (prefix f +:+ ch) else id) (set_hub i (f', store w) w))
  | step_publish w i f e m ch payload fs' :
      hubs w !! i = Some f → fan_Publish e m (f, store w) = (Ok (ch, payload), fs') →
      step w (broadcast ch payload (set_hub i fs' w))
  | step_publish_alone w i f e m res fs' :
      hubs w !! i = Some f → fan_Publish e m (f, store w) = (res, fs') →
      step w (set_hub i fs' w)
  | step_consume w i f e ch payload rest :
      hubs w !! i = Some f → inbox w !! (i, ch) = Some (payload :: rest) →
      step w {| hubs := <[i := (consumeRedis e payload (f, store w)).1]> (hubs w); store := (consumeRedis e payload (f, store w)).2;
                inbox := <[(i, ch) := rest]> (inbox w) |}
  | step_receive w p b :
      store w !! p = Some b → step w {| hubs := hubs w; store := <[p := (Recv b).2]> (store w); inbox := inbox w |}
  | step_close w p b :
      store w !! p = Some b → step w {| hubs := hubs w; store := <[p := Close b]> (store w); inbox := inbox w |}
  | step_new w p sid ch n :
      store w !! p = None → step w {| hubs := hubs w; store := <[p := NewBufferedSubscriber sid ch n]> (store w); inbox := inbox w |}.
End fanout.
