(* ===== verification/RealtimeProofs.v ===== *)
(** * Properties of the realtime hub

    What a bounded subscriber keeps and what the hub counts; how often a message that
    is fanned out is heard; when the fan-out of a channel is up. *)

From S2P Require Import Prelude Realtime.

(** ** Subscribers *)

(** The last [n] elements. *)
Definition latest {A} (n : nat) (l : list A) : list A := drop (length l - n) l.
Lemma latest_all {A} n (l : list A) : (length l ≤ n)%nat → latest n l = l.
Proof. intros Hl. unfold latest. by replace (length l - n)%nat with 0%nat by lia. Qed.

(** A buffer that is in bounds, as every subscriber is made and kept. *)
Definition bounded (b : BufferedSubscriber) : Prop := (1 ≤ cap b)%nat ∧ (length (buf b) ≤ cap b)%nat.
Lemma new_bounded i ch n : bounded (NewBufferedSubscriber i ch n).
Proof. unfold bounded, NewBufferedSubscriber. cbn. case_bool_decide; lia. Qed.
Lemma Send_open m b : closed b = false → bounded b → Send m b = Ok (set_buf (latest (cap b) (buf b ++ [m])) b).
Proof.
  intros Hc [H1 H2]. unfold Send. rewrite Hc. do 2 f_equal. unfold latest. rewrite length_app. cbn [length].
  case_bool_decide.
  - replace (length (buf b) + 1 - cap b)%nat with 1%nat by lia. destruct (buf b); [cbn in *; lia|done].
  - by replace (length (buf b) + 1 - cap b)%nat with 0%nat by lia.
Qed.
Lemma latest_length {A} n (l : list A) : length (latest n l) = (length l `min` n)%nat.
Proof. unfold latest. rewrite length_drop. lia. Qed.
Lemma latest_snoc {A} n (l : list A) x : (1 ≤ n)%nat → latest n (latest n l ++ [x]) = latest n (l ++ [x]).
Proof.
  intros Hn. unfold latest at 1. rewrite length_app, latest_length. cbn [length]. unfold latest.
  rewrite length_app. cbn [length]. destruct (decide (length l < n)%nat).
  - replace (length l - n)%nat with 0%nat by lia. rewrite drop_0. f_equal. lia.
  - rewrite (drop_app_le l) by lia. replace (length l `min` n + 1 - n)%nat with 1%nat by lia.
    rewrite drop_app_le by (rewrite length_drop; lia). rewrite drop_drop. do 2 f_equal. lia.
Qed.

(** Sending a sequence. *)
Fixpoint sends (ms : list Message) (b : BufferedSubscriber) : outcome herr BufferedSubscriber :=
  match ms with
  | [] => Ok b
  | m :: ms => match Send m b with Ok b' => sends ms b' | Err err => Err err end
  end.
Lemma set_buf_bounded b l : bounded b → bounded (set_buf (latest (cap b) l) b).
Proof. intros [H1 H2]. split; cbn; [done|]. rewrite latest_length. lia. Qed.

(** An open subscriber holds the latest messages that were sent, as many as its
    capacity, in order; so a reader that is never more than a capacity behind gets
    all of them. *)
Theorem subscriber_keeps_latest ms b :
  closed b = false → bounded b → sends ms b = Ok (set_buf (latest (cap b) (buf b ++ ms)) b).
Proof.
  intros Hc Hb. assert (∀ l, buf b = latest (cap b) l → sends ms b = Ok (set_buf (latest (cap b) (l ++ ms)) b)) as Hs.
  2: { apply Hs. symmetry. apply latest_all, Hb. }
  revert b Hc Hb. induction ms as [|m ms IH]; intros b Hc Hb l Hl; cbn [sends].
  - rewrite app_nil_r, <-Hl. by destruct b.
  - rewrite Send_open by done. rewrite (IH (set_buf _ b)) with (l := l ++ [m]).
    + by rewrite <-app_assoc.
    + done.
    + by apply set_buf_bounded.
    + cbn [set_buf buf cap]. rewrite Hl. apply latest_snoc, Hb.
Qed.

(** ** The hub *)

Section hub.
Implicit Types (h : localHub) (s : Store).

(** What a publish does to the store, and how many of its targets are closed. *)
Definition is_closed s (p : nat) : bool := match s !! p with Some b => closed b | None => false end.
Definition is_open s (p : nat) : bool := match s !! p with Some b => negb (closed b) | None => false end.
Definition sent (m : Message) (b : BufferedSubscriber) : BufferedSubscriber :=
  if closed b then b else set_buf (latest (cap b) (buf b ++ [m])) b.
Definition all_bounded s : Prop := ∀ p b, s !! p = Some b → bounded b.

Lemma send_to_spec m h s p :
  all_bounded s →
  send_to m (h, s) p = (if is_closed s p then count_sent false h else if is_open s p then count_sent true h else h, alter (sent m) p s).
Proof.
  intros Hb. unfold send_to, is_closed, is_open. cbn [fst snd]. destruct (s !! p) as [b|] eqn:Hp.
  2: { f_equal. symmetry. apply alter_id. intros x. by rewrite Hp. }
  unfold sent. destruct (closed b) eqn:Hc.
  - unfold Send. rewrite Hc. f_equal. symmetry. apply alter_id. intros x Hx. rewrite Hp in Hx. injection Hx as <-. by rewrite Hc.
  - rewrite Send_open by eauto. cbn [negb]. f_equal. apply map_eq. intros q. destruct (decide (q = p)) as [->|Hne].
    + rewrite lookup_insert_eq, lookup_alter_eq, Hp. cbn. by rewrite Hc.
    + by rewrite lookup_insert_ne, lookup_alter_ne by done.
Qed.
Lemma all_bounded_alter m s p : all_bounded s → all_bounded (alter (sent m) p s).
Proof.
  intros Hb q b. destruct (decide (q = p)) as [->|Hne]; [|by rewrite lookup_alter_ne by done; apply Hb].
  rewrite lookup_alter_eq. destruct (s !! p) as [b0|] eqn:Hp; [|done]. cbn. intros [= <-]. unfold sent.
  destruct (closed b0); [by eapply Hb|]. apply set_buf_bounded. by eapply Hb.
Qed.
Lemma closed_sent m b : closed (sent m b) = closed b.
Proof. unfold sent. by destruct (closed b) eqn:E. Qed.
Lemma is_closed_alter m s p q : is_closed (alter (sent m) p s) q = is_closed s q.
Proof.
  unfold is_closed. destruct (decide (q = p)) as [->|Hne]; [|by rewrite lookup_alter_ne].
  rewrite lookup_alter_eq. destruct (s !! p); [|done]. apply closed_sent.
Qed.
Lemma is_open_alter m s p q : is_open (alter (sent m) p s) q = is_open s q.
Proof.
  unfold is_open. destruct (decide (q = p)) as [->|Hne]; [|by rewrite lookup_alter_ne].
  rewrite lookup_alter_eq. destruct (s !! p); [|done]. cbn. by rewrite closed_sent.
Qed.

Lemma send_all m h s ps :
  all_bounded s →
  let '(h', s') := foldl (send_to m) (h, s) ps in
  all_bounded s' ∧ s' = foldr (alter (sent m)) s (reverse ps) ∧ channels h' = channels h ∧ stopped h' = stopped h ∧
  published (stats h') = published (stats h) ∧ remoteIngress (stats h') = remoteIngress (stats h) ∧
  dropped (stats h') = (dropped (stats h) + Z.of_nat (count (is_closed s) ps))%Z ∧
  delivered (stats h') = (delivered (stats h) + Z.of_nat (count (is_open s) ps))%Z.
Proof.
  revert h s. induction ps as [|p ps IH]; intros h s Hb; [unfold count; cbn; split_and!; (done || lia)|].
  cbn [foldl]. rewrite send_to_spec by done.
  specialize (IH (if is_closed s p then count_sent false h else if is_open s p then count_sent true h else h) (alter (sent m) p s)
    (all_bounded_alter _ _ _ Hb)).
  destruct (foldl _ _ ps) as [h' s']. destruct IH as (H1 & H2 & H3 & H4 & H5 & H6 & H7 & H8).
  assert (count (is_closed (alter (sent m) p s)) ps = count (is_closed s) ps) as E1
    by (unfold count; f_equal; apply list_filter_iff; intros q; by rewrite is_closed_alter).
  assert (count (is_open (alter (sent m) p s)) ps = count (is_open s) ps) as E2
    by (unfold count; f_equal; apply list_filter_iff; intros q; by rewrite is_open_alter).
  rewrite E1 in H7. rewrite E2 in H8. rewrite reverse_cons, foldr_app.
  unfold count in *. rewrite !filter_cons. unfold is_closed, is_open in *. destruct (s !! p) as [b|] eqn:Hp.
  - destruct (closed b); cbn [negb] in *; repeat (case_decide; try done); cbn [length count_sent channels stopped stats published remoteIngress dropped delivered] in *;
      split_and!; done || lia.
  - by repeat (case_decide; try done).
Qed.

Lemma foldr_alter_lookup m s ps p :
  NoDup ps → foldr (alter (sent m)) s ps !! p = if bool_decide (p ∈ ps) then sent m <$> s !! p else s !! p.
Proof.
  induction ps as [|q ps IH]; intros Hnd; [done|]. apply NoDup_cons in Hnd as [Hq Hnd]. cbn [foldr].
  destruct (decide (p = q)) as [->|Hne].
  - rewrite lookup_alter_eq, IH, (bool_decide_false (q ∈ ps)), bool_decide_true by (done || by left). done.
  - rewrite lookup_alter_ne, IH by done. by rewrite (bool_decide_ext (p ∈ q :: ps) (p ∈ ps)) by set_solver.
Qed.

(** A hub where no subscriber has two names on a channel. *)
Definition distinct (e : Env) (ch : string) h : Prop := NoDup (targets e ch h).

Lemma Publish_spec e m h s :
  stopped h = false → all_bounded s → distinct e (m_Channel m) h →
  ∃ h' s', Publish e m (h, s) = (Ok tt, (h', s')) ∧ all_bounded s' ∧ channels h' = channels h ∧ stopped h' = false ∧
    (∀ p, s' !! p = if bool_decide (p ∈ targets e (m_Channel m) h) then sent m <$> s !! p else s !! p) ∧
    published (stats h') = (published (stats h) + 1)%Z ∧
    dropped (stats h') = (dropped (stats h) + Z.of_nat (count (is_closed s) (targets e (m_Channel m) h)))%Z ∧
    delivered (stats h') = (delivered (stats h) + Z.of_nat (count (is_open s) (targets e (m_Channel m) h)))%Z.
Proof.
  intros Hst Hb Hd. unfold Publish. cbn [fst snd]. rewrite Hst.
  pose proof (send_all m (count_published h) s (targets e (m_Channel m) h) Hb) as Hsend.
  destruct (foldl _ _ _) as [h' s']. destruct Hsend as (H1 & H2 & H3 & H4 & H5 & H6 & H7 & H8).
  exists h', s'. split_and!; try done.
  - by rewrite H4.
  - intros p. rewrite H2, foldr_alter_lookup by (by rewrite reverse_Permutation). by rewrite (bool_decide_ext _ _ (elem_of_reverse _ _)).
Qed.

(** A message reaches exactly the open subscribers of its channel, and each keeps the
    latest it has room for; the hub counts as dropped the closed ones alone: what a
    full subscriber loses is counted as delivered. *)
Theorem publish_reaches_channel e m h s :
  stopped h = false → all_bounded s → distinct e (m_Channel m) h →
  ∃ h' s', Publish e m (h, s) = (Ok tt, (h', s')) ∧
    (∀ p b, s !! p = Some b → s' !! p = Some
       (if bool_decide (p ∈ targets e (m_Channel m) h) && negb (closed b) then set_buf (latest (cap b) (buf b ++ [m])) b else b)) ∧
    dropped (stats h') = (dropped (stats h) + Z.of_nat (count (is_closed s) (targets e (m_Channel m) h)))%Z ∧
    delivered (stats h') = (delivered (stats h) + Z.of_nat (count (is_open s) (targets e (m_Channel m) h)))%Z.
Proof.
  intros Hst Hb Hd. destruct (Publish_spec e m h s Hst Hb Hd) as (h' & s' & H1 & _ & _ & _ & H2 & _ & H3 & H4).
  exists h', s'. split_and!; try done. intros p b Hp. rewrite H2, Hp. unfold sent.
  destruct (bool_decide _); [|done]. cbn. by destruct (closed b).
Qed.

(** A subscriber that has come back under its name is removed when the hub is told
    that the one it replaced is gone. *)
Theorem returning_subscriber_removed ch sid old new h :
  stopped h = false →
  ∃ h1 h2, Subscribe ch sid old h = (Ok tt, h1) ∧ Subscribe ch sid new h1 = (Ok tt, h2) ∧
    default ∅ (channels (Unsubscribe ch sid h2) !! ch) !! sid = None.
Proof.
  intros Hst. unfold Subscribe. rewrite Hst. exists (add_subscriber ch sid old h). cbn [add_subscriber set_channels stopped].
  rewrite Hst. eexists. split; [done|]. split; [done|]. unfold Unsubscribe. cbn [add_subscriber set_channels channels].
  rewrite lookup_insert_eq. case_bool_decide as Hs; cbn [set_channels channels].
  - by rewrite lookup_delete_eq.
  - rewrite lookup_insert_eq. cbn [default]. apply lookup_delete_eq.
Qed.
End hub.

(** ** The fan-out *)

Section fanout.
Context {J : MessageCodec}.
Implicit Types (w : world) (f g : fanoutHub).

Lemma lookup_broadcast ch payload w k :
  inbox (broadcast ch payload w) !! k = (λ l, if bool_decide (k.2 = ch) then l ++ [payload] else l) <$> inbox w !! k.
Proof. cbn [broadcast inbox]. rewrite map_lookup_imap. by destruct (inbox w !! k). Qed.

Lemma fan_Publish_spec e m payload f s :
  stopped (local f) = false → all_bounded s → distinct e (m_Channel m) (local f) → Marshal m = Some payload →
  ∃ f' s', fan_Publish e m (f, s) = (Ok (prefix f +:+ m_Channel m, payload), (f', s')) ∧ all_bounded s' ∧
    prefix f' = prefix f ∧ channels (local f') = channels (local f) ∧ stopped (local f') = false ∧
    ∀ p, s' !! p = if bool_decide (p ∈ targets e (m_Channel m) (local f)) then sent m <$> s !! p else s !! p.
Proof.
  intros Hst Hb Hd Hm. destruct (Publish_spec e m (local f) s Hst Hb Hd) as (h' & s' & H1 & H2 & H3 & H4 & H5 & _).
  exists (set_local h' f), s'. unfold fan_Publish. cbn [fst snd]. rewrite H1, Hm. split_and!; done.
Qed.
Lemma consume_spec e m payload g s :
  stopped (local g) = false → all_bounded s → distinct e (m_Channel m) (local g) → Unmarshal payload = Some m →
  ∃ g' s', consumeRedis e payload (g, s) = (g', s') ∧ channels (local g') = channels (local g) ∧
    ∀ p, s' !! p = if bool_decide (p ∈ targets e (m_Channel m) (local g)) then sent m <$> s !! p else s !! p.
Proof.
  intros Hst Hb Hd Hm. destruct (Publish_spec e m (local g) s Hst Hb Hd) as (h' & s' & H1 & H2 & H3 & H4 & H5 & _).
  unfold consumeRedis. cbn [fst snd]. rewrite Hm, H1. cbn [snd]. eexists _, _. split_and!; done.
Qed.
Lemma sent_open m b : closed b = false → sent m b = set_buf (latest (cap b) (buf b ++ [m])) b.
Proof. intros Hc. unfold sent. by rewrite Hc. Qed.
Lemma sent_twice m b : closed b = false → bounded b → sent m (sent m b) = set_buf (latest (cap b) (buf b ++ [m; m])) b.
Proof.
  intros Hc [Hb _]. rewrite (sent_open m b), sent_open by done. cbn [set_buf buf cap sub_id channel closed].
  rewrite latest_snoc, <-app_assoc by done. done.
Qed.

(** A message that is fanned out is heard once by the subscribers of every other
    process, and twice by the subscribers of the process that published it, which
    are sent it directly and again when it comes back from Redis. *)
Theorem publisher_hears_twice w i j f g e m payload p b :
  hubs w !! i = Some f → hubs w !! j = Some g → prefix g = prefix f →
  stopped (local f) = false → stopped (local g) = false →
  distinct e (m_Channel m) (local f) → distinct e (m_Channel m) (local g) → all_bounded (store w) →
  Marshal m = Some payload → Unmarshal payload = Some m →
  inbox w !! (j, prefix f +:+ m_Channel m) = Some [] →
  p ∈ targets e (m_Channel m) (local g) → (j ≠ i → p ∉ targets e (m_Channel m) (local f)) →
  store w !! p = Some b → closed b = false →
  ∃ w1 w2, step w w1 ∧ step w1 w2 ∧ inbox w2 !! (j, prefix f +:+ m_Channel m) = Some [] ∧
    store w2 !! p = Some (set_buf (latest (cap b) (buf b ++ if bool_decide (j = i) then [m; m] else [m])) b).
Proof.
  intros Hf Hg Hpre Hsf Hsg Hdf Hdg Hb Hm Hu Hin Hp Hother Hs Hc.
  destruct (fan_Publish_spec e m payload f (store w) Hsf Hb Hdf Hm) as (f' & s' & H1 & H2 & H3 & H4 & H5 & H6).
  pose proof (step_publish w i f e m _ _ _ Hf H1) as Hstep1.
  set (w1 := broadcast _ _ _) in Hstep1.
  assert (∃ g', hubs w1 !! j = Some g' ∧ channels (local g') = channels (local g) ∧ stopped (local g') = false) as (g' & Hg' & Hch & Hsg').
  { unfold w1. cbn [broadcast set_hub hubs fst]. destruct (decide (j = i)) as [->|Hne].
    - exists f'. rewrite lookup_insert_eq. rewrite Hf in Hg. injection Hg as <-. done.
    - exists g. by rewrite lookup_insert_ne. }
  assert (targets e (m_Channel m) (local g') = targets e (m_Channel m) (local g)) as Ht by (unfold targets; by rewrite Hch).
  destruct (consume_spec e m payload g' s' Hsg' H2) as (g2 & s2 & K1 & K2 & K3).
  { unfold distinct. by rewrite Ht. }
  { done. }
  assert (inbox w1 !! (j, prefix f +:+ m_Channel m) = Some [payload]) as Hin1.
  { unfold w1. rewrite lookup_broadcast. cbn [set_hub inbox snd]. rewrite Hin. cbn. by rewrite bool_decide_true. }
  pose proof (step_consume w1 j g' e _ payload [] Hg' Hin1) as Hstep2.
  exists w1. eexists. split; [exact Hstep1|]. split; [exact Hstep2|]. split; [cbn [inbox]; by rewrite lookup_insert_eq|].
  cbn [store]. change (store w1) with s'. rewrite K1. cbn [snd]. rewrite K3, Ht, (bool_decide_true (p ∈ targets e _ (local g))) by done.
  rewrite H6, Hs. destruct (decide (j = i)) as [->|Hne].
  - rewrite Hf in Hg. injection Hg as ->. rewrite !bool_decide_true by done. cbn. by rewrite sent_twice by eauto.
  - rewrite bool_decide_false, (bool_decide_false (j = i)) by auto. cbn. by rewrite sent_open.
Qed.
End fanout.

(** *** When the fan-out of a channel is up *)

Definition members (ch : string) (f : fanoutHub) : gmap string nat := default ∅ (channels (local f) !! ch).
Inductive call : Type := CSubscribe (redis_ok : bool) (ch sid : string) (p : nat) | CUnsubscribe (ch sid : string).
Definition called (c : call) (f : fanoutHub) : fanoutHub :=
  match c with
  | CSubscribe ok ch sid p => (fan_Subscribe ok ch sid p f).2
  | CUnsubscribe ch sid => (fan_Unsubscribe ch sid f).2
  end.
(** Every call names a subscriber who is not there when it subscribes, and is there
    when it unsubscribes; Redis takes every subscription. *)
Definition orderly (c : call) (f : fanoutHub) : Prop :=
  match c with
  | CSubscribe ok ch sid _ => ok = true ∧ members ch f !! sid = None
  | CUnsubscribe ch sid => is_Some (members ch f !! sid)
  end.
Inductive orderly_from (f : fanoutHub) : fanoutHub → Prop :=
  | orderly_none : orderly_from f f
  | orderly_call c g : orderly_from f g → orderly c g → orderly_from f (called c g).

(** The counts are those of the subscribers, and the subscriptions those of the
    channels that have some. *)
Definition accounted (f : fanoutHub) : Prop :=
  stopped (local f) = false ∧
  ∀ ch, default 0%Z (subCount f !! ch) = Z.of_nat (size (members ch f)) ∧ (ch ∈ subscribed f ↔ members ch f ≠ ∅).

Lemma members_subscribe ch sid p f ch' :
  stopped (local f) = false →
  members ch' (fan_Subscribe true ch sid p f).2 = if bool_decide (ch' = ch) then <[sid := p]> (members ch f) else members ch' f.
Proof.
  intros Hst. unfold fan_Subscribe, Subscribe, members. rewrite Hst. cbn [snd local add_subscriber set_channels channels].
  case_bool_decide as Hc.
  - subst ch'. by rewrite lookup_insert_eq.
  - by rewrite lookup_insert_ne.
Qed.
Lemma members_unsubscribe ch sid f ch' :
  members ch' (fan_Unsubscribe ch sid f).2 = if bool_decide (ch' = ch) then delete sid (members ch f) else members ch' f.
Proof.
  assert (members ch' (fan_Unsubscribe ch sid f).2 = default ∅ (channels (Unsubscribe ch sid (local f)) !! ch')) as ->
    by (unfold fan_Unsubscribe; by case_bool_decide).
  unfold Unsubscribe, members. destruct (channels (local f) !! ch) as [subs|] eqn:Hch.
  - case_bool_decide as Hs; cbn [set_channels channels]; case_bool_decide as Hc; try subst ch'.
    + rewrite lookup_delete_eq. cbn. symmetry. by apply map_size_empty_iff.
    + by rewrite lookup_delete_ne.
    + by rewrite lookup_insert_eq.
    + by rewrite lookup_insert_ne.
  - case_bool_decide as Hc; [|done]. subst ch'. rewrite Hch. cbn. by rewrite delete_empty.
Qed.

Lemma members_nonempty ch f : members ch f ≠ ∅ ↔ (0 < size (members ch f))%nat.
Proof. rewrite <-map_size_non_empty_iff. lia. Qed.
Lemma accounted_subscribe ch sid p f :
  accounted f → members ch f !! sid = None → accounted (fan_Subscribe true ch sid p f).2.
Proof.
  intros [Hst Ha] Hn. split; [unfold fan_Subscribe, Subscribe; by rewrite Hst|]. intros ch'. rewrite members_subscribe by done.
  specialize (Ha ch') as [Hc Hs]. unfold fan_Subscribe, Subscribe. rewrite Hst. cbn [snd subCount subscribed]. rewrite andb_true_r.
  case_bool_decide as Hch; [subst ch'|].
  - rewrite lookup_insert_eq. cbn [default]. split.
    + rewrite map_size_insert_None by done. unfold id in *. lia.
    + split; [intros _; apply insert_non_empty|]. intros _. destruct (decide (ch ∈ subscribed f)); case_bool_decide; set_solver.
  - rewrite lookup_insert_ne by done. split; [done|]. rewrite <-Hs. destruct (bool_decide (ch ∉ subscribed f)); set_solver.
Qed.
Lemma accounted_unsubscribe ch sid f :
  accounted f → is_Some (members ch f !! sid) → accounted (fan_Unsubscribe ch sid f).2.
Proof.
  intros [Hst Ha] Hin. split.
  { unfold fan_Unsubscribe, Unsubscribe. destruct (channels _ !! ch); repeat case_bool_decide; done. }
  intros ch'. rewrite members_unsubscribe. destruct (Ha ch) as [Hc _]. specialize (Ha ch') as [Hc' Hs'].
  assert (size (members ch f) = S (size (delete sid (members ch f)))) as Hsize.
  { rewrite map_size_delete_Some by done. destruct Hin as [q Hq].
    assert (members ch f ≠ ∅) as Hne by (intros E; rewrite E in Hq; done). apply members_nonempty in Hne. lia. }
  unfold fan_Unsubscribe. case_bool_decide as Hz; cbn [snd subCount subscribed]; case_bool_decide as Hch; try subst ch'.
  - rewrite lookup_delete_eq. cbn. split; [lia|]. split; [set_solver|]. intros Hne.
    rewrite <-map_size_non_empty_iff in Hne. lia.
  - rewrite lookup_delete_ne by done. split; [done|]. set_solver.
  - rewrite lookup_insert_eq. unfold id in *. cbn [from_option] in *. split; [lia|]. rewrite Hs', <-!map_size_non_empty_iff. lia.
  - by rewrite lookup_insert_ne.
Qed.
Lemma orderly_accounted f g : accounted f → orderly_from f g → accounted g.
Proof.
  intros Ha. induction 1 as [|c g _ IH Ho]; [done|]. destruct c as [ok ch sid p|ch sid]; cbn in Ho |- *.
  - destruct Ho as [-> Hn]. by apply accounted_subscribe.
  - by apply accounted_unsubscribe.
Qed.
Lemma accounted_new pre : accounted (NewRedisFanout NewHub pre).
Proof. split; [done|]. intros ch. split; [done|]. split; [set_solver|done]. Qed.

(** While every subscriber subscribes once and unsubscribes once, and Redis takes the
    subscriptions, the hub listens to Redis on exactly the channels that have a
    subscriber. *)
Theorem fanout_follows_subscribers pre f ch :
  orderly_from (NewRedisFanout NewHub pre) f → (ch ∈ subscribed f ↔ ∃ sid p, members ch f !! sid = Some p).
Proof.
  intros Ho. destruct (orderly_accounted _ _ (accounted_new pre) Ho) as [_ Ha]. rewrite (proj2 (Ha ch)). split.
  - intros Hne. apply map_choose in Hne as (sid & p & Hp). eauto.
  - intros (sid & p & Hp) E. by rewrite E in Hp.
Qed.

(** A subscriber that unsubscribes twice takes Redis away from another one on the
    channel, who stays on the hub: the counter counts calls, not subscribers. *)
Theorem repeated_unsubscribe_deafens f ch a b p :
  accounted f → members ch f !! a ≠ None → members ch f !! b = Some p → a ≠ b → size (members ch f) = 2%nat →
  let '(first, f1) := fan_Unsubscribe ch a f in
  let '(second, f2) := fan_Unsubscribe ch a f1 in
  first = false ∧ second = true ∧ (ch ∉ subscribed f2) ∧ members ch f2 !! b = Some p.
Proof.
  intros [Hst Ha] Hina Hb Hab Hsize. destruct (Ha ch) as [Hc Hs].
  pose proof (members_unsubscribe ch a f ch) as M1. pose proof (members_unsubscribe ch a (fan_Unsubscribe ch a f).2 ch) as M2.
  rewrite bool_decide_true in M1, M2 by done. rewrite M1 in M2.
  unfold fan_Unsubscribe in *. rewrite Hc, Hsize in *. cbn [Z.of_nat Z.sub bool_decide] in *.
  rewrite (bool_decide_false (Z.of_nat 2 - 1 ≤ 0)%Z) in * by lia. cbn [snd subCount subscribed] in *.
  rewrite lookup_insert_eq in *. cbn [default] in *.
  rewrite (bool_decide_true (Z.of_nat 2 - 1 - 1 ≤ 0)%Z) in * by lia. split_and!.
  - done.
  - apply bool_decide_eq_true. apply Hs. intros E. by rewrite E in Hb.
  - cbn [subscribed]. set_solver.
  - etrans; [exact (f_equal (lookup b) M2)|]. by rewrite !lookup_delete_ne by done.
Qed.

(** ** Witnesses *)

Definition ex_env : Env := {| now := 0%Z; new_id := N.of_nat; order := canonical_range |}.
Definition ex_message (ch : string) : Message := {| m_Channel := ch; m_Type := "chat"; m_Data := None; m_Metadata := ∅ |}.
(** A codec for chat messages that are empty. *)
Definition ex_codec : MessageCodec := {| Marshal := λ m, Some (m_Channel m); Unmarshal := λ s, Some (ex_message s) |}.
Definition ex_hub (f : fanoutHub) (ch sid : string) (p : nat) : fanoutHub := (fan_Subscribe true ch sid p f).2.
Definition ex_fan : fanoutHub := NewRedisFanout NewHub "".
Definition ex_buf (n : nat) : BufferedSubscriber := NewBufferedSubscriber "ann" "room" (Z.of_nat n).

Lemma subscriber_keeps_latest_witness :
  sends [ex_message "a"; ex_message "b"; ex_message "c"] (ex_buf 2) = Ok (set_buf [ex_message "b"; ex_message "c"] (ex_buf 2)).
Proof. apply (subscriber_keeps_latest [ex_message "a"; ex_message "b"; ex_message "c"] (ex_buf 2)); [done|apply new_bounded]. Defined.

Definition ex_store : Store := {[0%nat := ex_buf 1; 1%nat := Close (ex_buf 1)]}.
Lemma ex_store_bounded : all_bounded ex_store.
Proof.
  intros p b. unfold ex_store. intros [[_ <-]|[_ Hp]]%lookup_insert_Some; [apply (new_bounded "ann" "room" 1)|].
  apply lookup_singleton_Some in Hp as [_ <-]. apply (new_bounded "ann" "room" 1).
Qed.
Definition ex_local : localHub := add_subscriber "room" "bob" 1%nat (add_subscriber "room" "ann" 0%nat NewHub).
Lemma publish_reaches_channel_witness :
  ∃ h' s', Publish ex_env (ex_message "room") (ex_local, ex_store) = (Ok tt, (h', s')) ∧
    (∀ p b, ex_store !! p = Some b → s' !! p = Some
       (if bool_decide (p ∈ targets ex_env "room" ex_local) && negb (closed b) then set_buf (latest (cap b) (buf b ++ [ex_message "room"])) b else b)) ∧
    dropped (stats h') = (dropped (stats ex_local) + Z.of_nat (count (is_closed ex_store) (targets ex_env "room" ex_local)))%Z ∧
    delivered (stats h') = (delivered (stats ex_local) + Z.of_nat (count (is_open ex_store) (targets ex_env "room" ex_local)))%Z.
Proof.
  apply (publish_reaches_channel ex_env (ex_message "room") ex_local ex_store); [done|exact ex_store_bounded|].
  apply (bool_decide_unpack _). by vm_compute.
Defined.

Lemma returning_subscriber_removed_witness :
  ∃ h1 h2, Subscribe "room" "ann" 0%nat NewHub = (Ok tt, h1) ∧ Subscribe "room" "ann" 1%nat h1 = (Ok tt, h2) ∧
    default ∅ (channels (Unsubscribe "room" "ann" h2) !! "room") !! "ann" = None.
Proof. by apply (returning_subscriber_removed "room" "ann" 0%nat 1%nat NewHub). Defined.

Definition ex_world : world :=
  {| hubs := {[0%nat := ex_hub ex_fan "room" "ann" 0]}; store := {[0%nat := ex_buf 4]}; inbox := {[(0%nat, "platform:rt:room") := []]} |}.
Lemma publisher_hears_twice_witness :
  ∃ w1 w2, step (J := ex_codec) ex_world w1 ∧ step (J := ex_codec) w1 w2 ∧ inbox w2 !! (0%nat, "platform:rt:room") = Some [] ∧
    store w2 !! 0%nat = Some (set_buf (latest 4 [ex_message "room"; ex_message "room"]) (ex_buf 4)).
Proof.
  apply (publisher_hears_twice (J := ex_codec) ex_world 0 0 (ex_hub ex_fan "room" "ann" 0) (ex_hub ex_fan "room" "ann" 0)
    ex_env (ex_message "room") "room" 0 (ex_buf 4));
    try (reflexivity || congruence || (apply (bool_decide_unpack _); by vm_compute)).
Defined.

Lemma fanout_follows_subscribers_witness :
  "room" ∈ subscribed (ex_hub ex_fan "room" "ann" 0) ↔ (∃ sid p, members "room" (ex_hub ex_fan "room" "ann" 0) !! sid = Some p).
Proof.
  apply (fanout_follows_subscribers "" (ex_hub ex_fan "room" "ann" 0) "room").
  apply (orderly_call _ (CSubscribe true "room" "ann" 0)); [constructor|]. by split.
Defined.

Definition ex_two : fanoutHub := ex_hub (ex_hub ex_fan "room" "ann" 0) "room" "bob" 1.
Lemma repeated_unsubscribe_deafens_witness :
  let '(first, f1) := fan_Unsubscribe "room" "ann" ex_two in
  let '(second, f2) := fan_Unsubscribe "room" "ann" f1 in
  first = false ∧ second = true ∧ ("room" ∉ subscribed f2) ∧ members "room" f2 !! "bob" = Some 1%nat.
Proof.
  apply (repeated_unsubscribe_deafens ex_two "room" "ann" "bob" 1); [|by vm_compute|by vm_compute|done|by vm_compute].
  repeat apply accounted_subscribe; try apply accounted_new; by vm_compute.
Defined.
