(* ===== verification/Aigateway.v ===== *)
(** * The client of the AI gateway (platform/aigateway)

    config.go, client.go, errors.go, observer.go, transport.go, the requests and
    responses, and one method per endpoint; stream.go.  What the methods meet outside
    (replies, cancellation, the clock) is an oracle, [Outside], indexed by how often it
    was asked; what they do is recorded in the state, [gw].  JSON is written out for the
    requests and is a parameter for the responses. *)

From S2P Require Import Prelude Encoding Json.

(** Floating point, and values of type [any]. *)
Class Values : Type := {
  float : Type; float32 : Type; to_float32 : float → float32; print_float : float → option (list ascii);
  any : Type; print_any : any → option (list ascii); any_string : any → option string;
  escapeQuotes : string → string;   (* of mime/multipart *)
}.

(** ** errors.go *)

Inductive gw_error : Type :=
  | ErrNotConfigured
  | ErrUnauthorized
  | ErrBudgetExceeded
  | HTTPError (Status : Z) (Body Path : string)
  (* the error of a context, and those of net/http and of readers *)
  | ContextError (cause : string)
  | TransportError (cause : string).
#[export] Instance gw_error_eq_dec : EqDecision gw_error.
Proof. solve_decision. Defined.
Abbreviation gerr := (goerr gw_error) (only parsing).

(** The digits are written from the end of a buffer of 20 bytes. *)
Fixpoint itoa_digits (room : nat) (i : Z) (buf : string) : string :=
  match room with
  | O => buf
  | S room => if bool_decide (i > 0)%Z then itoa_digits room (i / 10) (String (ascii_of_N (48 + Z.to_N (i mod 10))) buf) else buf
  end.
Definition itoa (i : Z) : string :=
  if bool_decide (i = 0)%Z then "0"
  else
    let neg := bool_decide (i < 0)%Z in
    let i := if neg then wrap64 (- i) else i in
    let s := itoa_digits 20 i "" in
    if neg then String "-" s else s.
Definition HTTPError_Error (Status : Z) (Body Path : string) : string :=
  if bool_decide (Path ≠ "") then "aigateway: " +:+ Path +:+ " returned status " +:+ itoa Status +:+ ": " +:+ Body
  else "aigateway: status " +:+ itoa Status +:+ ": " +:+ Body.

(** ** config.go *)

Definition defaultTimeout : duration := (30 * Second)%Z.
Definition defaultMaxRetries : Z := 3.
Definition defaultDefaultModel : string := "gpt-4o-mini".
Record Config : Type := {
  BaseURL : string; APIKey : string; cf_DefaultModel : string; Timeout : duration; MaxRetries : Z
}.
Definition ConfigFromEnv (Getenv : string → string) (ParseDuration : string → option duration) : outcome gerr Config :=
  let base := TrimRight (Getenv "AOSENTRY_BASE_URL") "/" in
  if bool_decide (base = "") then Err (Errorf "aigateway: AOSENTRY_BASE_URL is required")
  else
    let model := Getenv "AOSENTRY_DEFAULT_MODEL" in
    let model := if bool_decide (model = "") then defaultDefaultModel else model in
    let v := Getenv "AOSENTRY_TIMEOUT" in
    match if bool_decide (v ≠ "") then ParseDuration v else Some 0%Z with
    | None => Err (Errorf "aigateway: invalid AOSENTRY_TIMEOUT")
    | Some d =>
        let v := Getenv "AOSENTRY_MAX_RETRIES" in
        match if bool_decide (v ≠ "") then Atoi (bytes v) else Some 0%Z with
        | Some n =>
            if bool_decide (n < 0)%Z then Err (Errorf "aigateway: invalid AOSENTRY_MAX_RETRIES")
            else Ok {| BaseURL := base; APIKey := Getenv "AOSENTRY_API_KEY"; cf_DefaultModel := model; Timeout := d; MaxRetries := n |}
        | None => Err (Errorf "aigateway: invalid AOSENTRY_MAX_RETRIES")
        end
    end.
Definition withDefaults (c : Config) : Config :=
  let retries := if bool_decide (MaxRetries c < 0)%Z then 0%Z else MaxRetries c in
  {| BaseURL := TrimRight (BaseURL c) "/"; APIKey := APIKey c;
     cf_DefaultModel := if bool_decide (cf_DefaultModel c = "") then defaultDefaultModel else cf_DefaultModel c;
     Timeout := if bool_decide (Timeout c ≤ 0)%Z then defaultTimeout else Timeout c;
     MaxRetries := if bool_decide (retries = 0)%Z then defaultMaxRetries else retries |}.

(** ** client.go *)

Inductive http_Client : Type := DefaultHTTP (timeout : duration) | CustomHTTP.
(** [observer] says whether there is one that does something. *)
Record Client : Type := { cfg : Config; http : http_Client; observer : bool }.
Definition Option_ : Type := Client → Client.
Definition WithObserver (present : bool) : Option_ := λ c,
  if present then {| cfg := cfg c; http := http c; observer := true |} else c.
Definition WithHTTPClient (present : bool) : Option_ := λ c,
  if present then {| cfg := cfg c; http := CustomHTTP; observer := observer c |} else c.
Definition NewClient (c : Config) (opts : list Option_) : outcome gerr Client :=
  if bool_decide (BaseURL c = "") then Err (Sentinel ErrNotConfigured)
  else
    let c := withDefaults c in
    Ok (foldl (λ cl opt, opt cl) {| cfg := c; http := DefaultHTTP (Timeout c); observer := false |} opts).
(** Methods have a [*Client] as receiver. *)
Definition IsConfigured (c : option Client) : bool :=
  match c with None => false | Some c => negb (bool_decide (BaseURL (cfg c) = "")) end.
Definition client_BaseURL (c : option Client) : string := match c with None => "" | Some c => BaseURL (cfg c) end.
Definition DefaultModel (c : option Client) : string := match c with None => "" | Some c => cf_DefaultModel (cfg c) end.

(** ** observer.go *)

Abbreviation Operation := string (only parsing).
Definition OpChatCompletion := "chat_completion".
Definition OpChatStream := "chat_stream".
Definition OpEmbedding := "embedding".
Definition OpModeration := "moderation".
Definition OpGuardrails := "guardrails_check".
Definition OpPIIRedact := "pii_redact".
Definition OpPIIRehydrate := "pii_rehydrate".
Definition OpImageGenerate := "image_generate".
Definition OpAudioTranscribe := "audio_transcribe".
Definition OpPromptRefine := "prompt_refine".
Definition OpDocumentSummarize := "document_summarize".
Definition OpDocumentExtract := "document_extract".
Definition OpGenerate := "generate".
Record Event : Type := {
  ev_Operation : Operation; ev_Model : string; ev_PromptTokens : Z; ev_CompletionTokens : Z; ev_TotalTokens : Z;
  ev_Duration : duration; ev_Success : bool; ev_Err : option gerr
}.
Record Usage : Type := { PromptTokens : Z; CompletionTokens : Z; TotalTokens : Z }.
Definition no_usage : Usage := {| PromptTokens := 0; CompletionTokens := 0; TotalTokens := 0 |}.

(** ** What the client does and meets *)

Record http_request : Type := { method : string; url : string; header : gmap string string; payload : string }.
(** A reply, and a reader of its body: what it yields, and the error it ends with
    unless that is the end of the file. *)
Record reader : Type := { content : string; end_ : option string }.
Record reply : Type := { StatusCode : Z; Body : reader }.
Record Outside : Type := {
  valid_request : string → string → bool;                (* [http.NewRequestWithContext]: method and URL *)
  reply_to : nat → http_request → outcome string reply;   (* the n-th request *)
  interrupt : nat → duration → option string;             (* the context ends the n-th wait *)
  hang_up : nat → option string;                          (* the context ends the n-th hand-over of a stream *)
  clock : nat → time;                                     (* the n-th reading *)
  o_order : MapRange;
}.
Record gw : Type := { sent : list http_request; waited : list duration; events : list Event; readings : nat }.
Definition log_sent (r : http_request) (s : gw) : gw :=
  {| sent := sent s ++ [r]; waited := waited s; events := events s; readings := readings s |}.
Definition log_wait (d : duration) (s : gw) : gw :=
  {| sent := sent s; waited := waited s ++ [d]; events := events s; readings := readings s |}.
Definition log_event (ev : Event) (s : gw) : gw :=
  {| sent := sent s; waited := waited s; events := events s ++ [ev]; readings := readings s |}.
Definition Now (o : Outside) : prog gw gerr time := λ s,
  (Ok (clock o (readings s)), {| sent := sent s; waited := waited s; events := events s; readings := S (readings s) |}).
Definition observe (o : Outside) (c : option Client) (op model : string) (u : Usage) (started : time) (err : option gerr) :
    prog gw gerr unit :=
  match c with
  | None => mret tt
  | Some c =>
      t ← Now o;
      if observer c then
        modify (log_event {| ev_Operation := op; ev_Model := model; ev_PromptTokens := PromptTokens u;
                             ev_CompletionTokens := CompletionTokens u; ev_TotalTokens := TotalTokens u;
                             ev_Duration := (t - started)%Z; ev_Success := bool_decide (err = None); ev_Err := err |})
      else mret tt
  end.

(** ** transport.go *)

Definition set_extra (o : Outside) (extra h : gmap string string) : gmap string string :=
  foldl (λ h kv, Header_Set kv.1 kv.2 h) h (range (MapRange := o_order o) extra).

Definition errorBodyLimit : nat := 8 * 1024.
Definition readLimited (r : reader) (limit : nat) : string := String.substring 0 limit (content r).
Fixpoint doubled (n : nat) (d : duration) : duration :=
  match n with
  | O => d
  | S n => let d := (d * 2)%Z in if bool_decide (8 * Second < d)%Z then (8 * Second)%Z else doubled n d
  end.
Definition backoffDelay (attempt : Z) : duration :=
  if bool_decide (attempt < 1)%Z then 0%Z else doubled (Z.to_nat (attempt - 1)) (500 * 1000000)%Z.

Definition wait (o : Outside) (d : duration) : prog gw gerr unit := λ s,
  match interrupt o (length (waited s)) d with
  | Some cause => (Err (Sentinel (ContextError cause)), s)
  | None => (Ok tt, log_wait d s)
  end.
Definition http_Do (o : Outside) (r : http_request) : prog gw gerr (outcome string reply) := λ s,
  (Ok (reply_to o (length (sent s)) r), log_sent r s).

(** What a reply means for the loop: the end, with a result, or another attempt. *)
Inductive verdict : Type := Decided (r : outcome gerr reply) | Retry (lastErr : gerr).
Definition judge (m path : string) (r : outcome string reply) : verdict :=
  match r with
  | Err cause => Retry (Wrapf ("aigateway: " +:+ m +:+ " " +:+ path) (Sentinel (TransportError cause)))
  | Ok resp =>
      if bool_decide (200 ≤ StatusCode resp < 300)%Z then Decided (Ok resp)
      else
        let body := readLimited (Body resp) errorBodyLimit in
        if bool_decide (StatusCode resp = 401)%Z then Decided (Err (Wrapf body (Sentinel ErrUnauthorized)))
        else if bool_decide (StatusCode resp = 402)%Z then Decided (Err (Wrapf body (Sentinel ErrBudgetExceeded)))
        else if bool_decide (StatusCode resp = 429 ∨ 500 ≤ StatusCode resp)%Z
        then Retry (Sentinel (HTTPError (StatusCode resp) body path))
        else Decided (Err (Sentinel (HTTPError (StatusCode resp) body path)))
  end.
Definition request_of (o : Outside) (c : Client) (m path contentType body : string) (extra : gmap string string) : http_request :=
  let h := if bool_decide (contentType ≠ "") then Header_Set "Content-Type" contentType ∅ else ∅ in
  let h := if bool_decide (APIKey (cfg c) ≠ "") then Header_Set "Authorization" ("Bearer " +:+ APIKey (cfg c)) h else h in
  {| method := m; url := BaseURL (cfg c) +:+ path; header := set_extra o extra h; payload := body |}.
(** [more] attempts are left after those made. *)
Fixpoint attempts (o : Outside) (c : Client) (m path contentType body : string) (extra : gmap string string)
    (more : nat) (attempt : Z) (lastErr : option gerr) : prog gw gerr reply :=
  match more with
  | O => throw (default (Errorf ("aigateway: " +:+ m +:+ " " +:+ path +:+ ": exhausted retries")) lastErr)
  | S more =>
      _ ← (if bool_decide (attempt > 0)%Z then wait o (backoffDelay attempt) else mret tt);
      _ ← reject_if (negb (valid_request o m (BaseURL (cfg c) +:+ path))) (Errorf "aigateway: build request");
      r ← http_Do o (request_of o c m path contentType body extra);
      match judge m path r with
      | Decided res => of_outcome res
      | Retry err => attempts o c m path contentType body extra more (attempt + 1) (Some err)
      end
  end.
Definition do_ (o : Outside) (c : option Client) (m path contentType body : string) (extra : gmap string string) : prog gw gerr reply :=
  match c with
  | Some cl =>
      if IsConfigured c then
        let maxRetries := if bool_decide (MaxRetries (cfg cl) < 0)%Z then 0%Z else MaxRetries (cfg cl) in
        attempts o cl m path contentType body extra (Z.to_nat (maxRetries + 1)) 0 None
      else throw (Sentinel ErrNotConfigured)
  | None => throw (Sentinel ErrNotConfigured)
  end.

(** [json.NewDecoder(body).Decode(&out)]: what was filled in, and the error. *)
Abbreviation decoder T := (reader → T * option string) (only parsing).
(** A call and what it filled in of its result, which an error does not undo. *)
Definition decode_into {T} (dec : decoder T) (path : string) (resp : reply) : T * option gerr :=
  let '(out, err) := dec (Body resp) in
  (out, (λ cause, Wrapf ("aigateway: decode response from " +:+ path) (Sentinel (TransportError cause))) <$> err).
Definition doJSON {T} (o : Outside) (c : option Client) (path : string) (body : option (list ascii)) (extra : gmap string string)
    (dec : decoder T) (zero : T) : prog gw gerr (T * option gerr) :=
  match body with
  | None => mret (zero, Some (Errorf "aigateway: marshal request"))
  | Some encoded =>
      r ← try (do_ o c "POST" path "application/json" (unchars (HTMLEscape encoded)) extra);
      mret match r with Err err => (zero, Some err) | Ok resp => decode_into dec path resp end
  end.

(** A form of [mime/multipart], with the files and fields a builder writes. *)
Inductive part : Type := FormFile (field filename : string) (bytes : string) | FormField (field value : string).
Definition crlf : string := unchars [ascii_of_N 13; ascii_of_N 10].
Section values.
Context {V : Values}.
Definition quoted (s : string) : string := unchars (dq :: chars (escapeQuotes s) ++ [dq]).
Definition write_part (boundary : string) (first : bool) (p : part) : string :=
  (if first then "" else crlf) +:+ "--" +:+ boundary +:+ crlf +:+
  match p with
  | FormFile field filename b =>
      "Content-Disposition: form-data; name=" +:+ quoted field +:+ "; filename=" +:+ quoted filename +:+ crlf
      +:+ "Content-Type: application/octet-stream" +:+ crlf +:+ crlf +:+ b
  | FormField field v => "Content-Disposition: form-data; name=" +:+ quoted field +:+ crlf +:+ crlf +:+ v
  end.
Definition write_form (boundary : string) (ps : list part) : string :=
  strings_Join "" (imap (λ i p, write_part boundary (bool_decide (i = 0)%nat) p) ps) +:+ crlf +:+ "--" +:+ boundary +:+ "--" +:+ crlf.
Definition doMultipart {T} (o : Outside) (c : option Client) (path boundary : string) (build : outcome gerr (list part))
    (dec : decoder T) (zero : T) : prog gw gerr (T * option gerr) :=
  match build with
  | Err err => mret (zero, Some (Wrapf "aigateway: build multipart body" err))
  | Ok ps =>
      r ← try (do_ o c "POST" path ("multipart/form-data; boundary=" +:+ boundary) (write_form boundary ps) ∅);
      mret match r with Err err => (zero, Some err) | Ok resp => decode_into dec path resp end
  end.
(** How a method ends: it observes, and returns a result or the error. *)
Definition finish {T A} (o : Outside) (c : option Client) (op : string) (model : T → string) (usage : T → Usage) (started : time)
    (f : T → A) (r : T * option gerr) : prog gw gerr A :=
  _ ← observe o c op (model r.1) (usage r.1) started r.2;
  match r.2 with Some err => throw err | None => mret (f r.1) end.

(** ** Requests and responses

    A slice is an option, [None] for nil, where it is printed without [omitempty]; a
    request is printed, or refused for a number or a value that JSON does not have. *)

Definition print_struct (fields : list (option (list (list ascii)))) : option (list ascii) :=
  (λ fs, print_object (concat fs)) <$> mapM id fields.
Definition always (k : string) (v : list ascii) : option (list (list ascii)) := Some [print_member k v].
Definition print_Z (z : Z) : list ascii := chars (pretty z).
Definition pointer_field {A} (k : string) (f : A → option (list ascii)) (p : option A) : option (list (list ascii)) :=
  match p with None => Some [] | Some a => (λ v, [print_member k v]) <$> f a end.
Definition print_slice {A} (f : A → option (list ascii)) (l : option (list A)) : option (list ascii) :=
  match l with None => Some (chars "null") | Some l => print_array <$> mapM f l end.
(** A map is printed with its keys sorted. *)
Definition print_map {A} (o : Outside) (f : A → option (list ascii)) (m : gmap string A) : option (list ascii) :=
  let keys := sort_Strings (range (MapRange := o_order o) m).*1 in
  print_object <$> mapM (λ k, v ← m !! k; print_member k <$> f v) keys.
Definition map_field {A} (o : Outside) (k : string) (f : A → option (list ascii)) (m : gmap string A) : option (list (list ascii)) :=
  if bool_decide (m = ∅) then Some [] else (λ v, [print_member k v]) <$> print_map o f m.

Record ImageURLPart : Type := { URL : string; Detail : string }.
Record ContentPart : Type := { cp_Type : string; Text : string; ImageURL : option ImageURLPart }.
(** What [ChatMessage.Content] holds. *)
Inductive message_content : Type := CText (s : string) | CParts (l : option (list ContentPart)) | CNil | CAny (a : any).
Record ChatMessage : Type := { Role : string; Content : message_content; Name : string }.
Record ChatRequest : Type := {
  Model : string; Messages : option (list ChatMessage); Temperature : option float; MaxTokens : option Z; TopP : option float;
  Stop : list string; Stream : bool; User : string; cr_ResponseFormat : option string; ExtraHeaders : gmap string string
}.
Definition print_image (i : ImageURLPart) : option (list ascii) :=
  print_struct [always "url" (quote (URL i)); Some (text_field "detail" (Detail i))].
Definition print_content_part (p : ContentPart) : option (list ascii) :=
  print_struct [always "type" (quote (cp_Type p)); Some (text_field "text" (Text p)); pointer_field "image_url" print_image (ImageURL p)].
Definition print_content (c : message_content) : option (list ascii) :=
  match c with
  | CText s => Some (quote s)
  | CParts l => print_slice print_content_part l
  | CNil => Some (chars "null")
  | CAny a => print_any a
  end.
Definition print_message (m : ChatMessage) : option (list ascii) :=
  c ← print_content (Content m);
  print_struct [always "role" (quote (Role m)); always "content" c; Some (text_field "name" (Name m))].
Definition print_chat (r : ChatRequest) : option (list ascii) :=
  ms ← print_slice print_message (Messages r);
  print_struct
    [always "model" (quote (Model r)); always "messages" ms; pointer_field "temperature" print_float (Temperature r);
     pointer_field "max_tokens" (λ n, Some (print_Z n)) (MaxTokens r); pointer_field "top_p" print_float (TopP r);
     Some (list_field "stop" quote (Stop r)); Some (if Stream r then [print_member "stream" (chars "true")] else []);
     Some (text_field "user" (User r));
     pointer_field "response_format" (λ t, print_struct [always "type" (quote t)]) (cr_ResponseFormat r)].

Record Choice : Type := { c_Index : Z; c_Message : ChatMessage; c_FinishReason : string }.
Record ChatResponse : Type := { r_ID : string; r_Object : string; r_Created : Z; r_Model : string; r_Choices : list Choice; r_Usage : Usage }.
Definition FirstContent (r : option ChatResponse) : string :=
  match r with
  | Some r => match r_Choices r with
              | c :: _ => match Content (c_Message c) with
                          | CText s => s
                          | CAny a => default "" (any_string a)
                          | _ => ""
                          end
              | [] => ""
              end
  | None => ""
  end.
Record EmbeddingRequest : Type := { er_Model : string; er_Input : any; er_User : string }.
Definition print_embedding (r : EmbeddingRequest) : option (list ascii) :=
  i ← print_any (er_Input r);
  print_struct [always "model" (quote (er_Model r)); always "input" i; Some (text_field "user" (er_User r))].
Record EmbeddingData : Type := { ed_Object : string; ed_Index : Z; Embedding : list float }.
Record EmbeddingResponse : Type := { e_Object : string; e_Data : list EmbeddingData; e_Model : string; e_Usage : Usage }.
Definition print_moderation (input : string) : option (list ascii) := print_struct [always "input" (quote input)].
Record ModerationResult : Type := { Flagged : bool; Categories : gmap string bool; CategoryScores : gmap string float }.
Record ModerationResponse : Type := { mo_ID : string; mo_Model : string; mo_Results : list ModerationResult }.
Record GuardrailsCheckRequest : Type := { g_Input : string; g_Policy : string; g_Metadata : gmap string string; g_ExtraHeaders : gmap string string }.
Definition print_guardrails (o : Outside) (r : GuardrailsCheckRequest) : option (list ascii) :=
  print_struct [always "input" (quote (g_Input r)); Some (text_field "policy" (g_Policy r));
                map_field o "metadata" (λ v, Some (quote v)) (g_Metadata r)].
Record GuardrailsCheckResponse : Type := { Safe : bool; FlaggedCategories : list string; Reason : string; Confidence : float }.
Record PIIEntity : Type := { p_Type : string; p_Value : string; StartIndex : Z; EndIndex : Z }.
Definition print_entity (p : PIIEntity) : option (list ascii) :=
  print_struct [always "type" (quote (p_Type p)); always "value" (quote (p_Value p)); always "start_index" (print_Z (StartIndex p));
                always "end_index" (print_Z (EndIndex p))].
Definition print_redact (input : string) (entityTypes : list string) : option (list ascii) :=
  print_struct [always "input" (quote input); Some (list_field "entity_types" quote entityTypes)].
Definition print_rehydrate (redacted : string) (entities : option (list PIIEntity)) : option (list ascii) :=
  es ← print_slice print_entity entities;
  print_struct [always "redacted_text" (quote redacted); always "entities" es].
Record PIIRedactResponse : Type := { RedactedText : string; Entities : list PIIEntity; HasPII : bool }.
Record ImageGenerateRequest : Type := { i_Prompt : string; i_Model : string; i_Size : string; i_Quality : string; i_Style : string; i_N : Z }.
Definition print_image_request (r : ImageGenerateRequest) : option (list ascii) :=
  print_struct [always "prompt" (quote (i_Prompt r)); Some (text_field "model" (i_Model r)); Some (text_field "size" (i_Size r));
                Some (text_field "quality" (i_Quality r)); Some (text_field "style" (i_Style r)); Some (int_field "n" (i_N r))].
Record ImageData : Type := { im_URL : string; im_B64 : string }.
Record ImageGenerateResponse : Type := { ig_Data : list ImageData; ig_Model : string; ig_Usage : Usage }.
Record TranscriptionSegment : Type := { ts_Start : float; ts_End : float; ts_Text : string }.
Record TranscriptionResult : Type := { tr_Text : string; tr_Language : string; tr_Duration : float; tr_Segments : list TranscriptionSegment }.
Record RefineRequest : Type := { Domain : string; Intent : string; rf_Context : gmap string any; RoughPrompt : string }.
Definition print_refine (o : Outside) (r : RefineRequest) : option (list ascii) :=
  print_struct [always "domain" (quote (Domain r)); always "intent" (quote (Intent r)); map_field o "context" print_any (rf_Context r);
                always "rough_prompt" (quote (RoughPrompt r))].
Record RefineResponse : Type := { RefinedPrompt : string; ModelHint : string; CacheTTLHours : Z }.
Record SummarizeDocumentResponse : Type := { sd_Result : string; sd_Hash : string }.
Definition print_summarize (text documentID : string) : option (list ascii) :=
  print_struct [always "text" (quote text); Some (text_field "document_id" documentID)].
Record GenerateRequest : Type := { gr_Model : string; SystemPrompt : string; UserPrompt : string; gr_MaxTokens : Z }.
Definition print_generate (r : GenerateRequest) : option (list ascii) :=
  print_struct [always "model" (quote (gr_Model r)); always "system_prompt" (quote (SystemPrompt r));
                always "user_prompt" (quote (UserPrompt r)); always "max_tokens" (print_Z (gr_MaxTokens r))].
Record GenerateResponse : Type := { gn_Content : string; gn_Flagged : bool; gn_FlagReason : string; InputTokens : Z; OutputTokens : Z }.

(** A generic decoder for each response, with the zero value it starts from. *)
Context (dec_chat : decoder ChatResponse) (dec_embedding : decoder EmbeddingResponse)
        (dec_moderation : decoder ModerationResponse) (dec_guardrails : decoder GuardrailsCheckResponse)
        (dec_redact : decoder PIIRedactResponse) (dec_rehydrate : decoder string) (dec_images : decoder ImageGenerateResponse)
        (dec_transcription : decoder TranscriptionResult) (dec_refine : decoder RefineResponse)
        (dec_document : decoder SummarizeDocumentResponse) (dec_generate : decoder GenerateResponse) (f_zero : float).
Implicit Types (o : Outside) (c : option Client).

(** ** The endpoints *)

Definition ChatPath : string := "/v1/chat/completions".
Definition EmbeddingsPath : string := "/v1/embeddings".
Definition DefaultEmbeddingModel : string := "text-embedding-3-small".
Definition ModerationsPath : string := "/v1/moderations".
Definition GuardrailsCheckPath : string := "/v1/guardrails/check".
Definition PIIRedactPath : string := "/v1/guardrails/pii/redact".
Definition PIIRehydratePath : string := "/v1/guardrails/pii/rehydrate".
Definition ImagesGeneratePath : string := "/v1/images/generations".
Definition AudioTranscribePath : string := "/v1/audio/transcriptions".
Definition PromptsRefinePath : string := "/v1/prompts/refine".
Definition DocumentsSummarizePath : string := "/v1/documents/summarize".
Definition DocumentsExtractPath : string := "/v1/documents/extract".
Definition GeneratePath : string := "/v1/generate".

Definition with_model (m : string) (stream : bool) (r : ChatRequest) : ChatRequest :=
  {| Model := m; Messages := Messages r; Temperature := Temperature r; MaxTokens := MaxTokens r; TopP := TopP r; Stop := Stop r;
     Stream := stream; User := User r; cr_ResponseFormat := cr_ResponseFormat r; ExtraHeaders := ExtraHeaders r |}.
Definition zero_chat : ChatResponse := {| r_ID := ""; r_Object := ""; r_Created := 0; r_Model := ""; r_Choices := []; r_Usage := no_usage |}.
Definition ChatCompletion o c (req : ChatRequest) : prog gw gerr ChatResponse :=
  let req := with_model (if bool_decide (Model req = "") then DefaultModel c else Model req) false req in
  started ← Now o;
  r ← doJSON o c ChatPath (print_chat req) (ExtraHeaders req) dec_chat zero_chat;
  finish o c OpChatCompletion (λ resp, if bool_decide (r.2 = None) then r_Model resp else Model req)
    (λ resp, if bool_decide (r.2 = None) then r_Usage resp else no_usage) started id r.

Definition zero_embedding : EmbeddingResponse := {| e_Object := ""; e_Data := []; e_Model := ""; e_Usage := no_usage |}.
Definition Embeddings o c (req : EmbeddingRequest) : prog gw gerr EmbeddingResponse :=
  let m := if bool_decide (er_Model req = "") then DefaultEmbeddingModel else er_Model req in
  let req := {| er_Model := m; er_Input := er_Input req; er_User := er_User req |} in
  started ← Now o;
  r ← doJSON o c EmbeddingsPath (print_embedding req) ∅ dec_embedding zero_embedding;
  finish o c OpEmbedding (λ resp, if bool_decide (r.2 = None) then e_Model resp else m)
    (λ resp, if bool_decide (r.2 = None) then e_Usage resp else no_usage) started id r.
Definition EmbedText o c (text : any) (model : string) : prog gw gerr (list float32) :=
  resp ← Embeddings o c {| er_Model := model; er_Input := text; er_User := "" |};
  match e_Data resp with
  | [] => throw (Sentinel (HTTPError 500 "no embedding data" EmbeddingsPath))
  | d :: _ => mret (to_float32 <$> Embedding d)
  end.

Definition no_model {T} (_ : T) : string := "".
Definition unused {T} (_ : T) : Usage := no_usage.
Definition Moderate o c (input : string) : prog gw gerr ModerationResponse :=
  started ← Now o;
  r ← doJSON o c ModerationsPath (print_moderation input) ∅ dec_moderation {| mo_ID := ""; mo_Model := ""; mo_Results := [] |};
  finish o c OpModeration mo_Model unused started id r.
Definition CheckGuardrailsWithHeaders o c (input policy : string) (metadata extraHeaders : gmap string string) :
    prog gw gerr GuardrailsCheckResponse :=
  started ← Now o;
  let req := {| g_Input := input; g_Policy := policy; g_Metadata := metadata; g_ExtraHeaders := extraHeaders |} in
  r ← doJSON o c GuardrailsCheckPath (print_guardrails o req) (g_ExtraHeaders req) dec_guardrails
    {| Safe := false; FlaggedCategories := []; Reason := ""; Confidence := f_zero |};
  finish o c OpGuardrails no_model unused started id r.
Definition CheckGuardrails o c (input policy : string) (metadata : gmap string string) : prog gw gerr GuardrailsCheckResponse :=
  CheckGuardrailsWithHeaders o c input policy metadata ∅.
Definition RedactPII o c (input : string) (entityTypes : list string) : prog gw gerr PIIRedactResponse :=
  started ← Now o;
  r ← doJSON o c PIIRedactPath (print_redact input entityTypes) ∅ dec_redact {| RedactedText := ""; Entities := []; HasPII := false |};
  finish o c OpPIIRedact no_model unused started id r.
Definition RehydratePII o c (redactedText : string) (entities : option (list PIIEntity)) : prog gw gerr string :=
  started ← Now o;
  r ← doJSON o c PIIRehydratePath (print_rehydrate redactedText entities) ∅ dec_rehydrate "";
  finish o c OpPIIRehydrate no_model unused started id r.
Definition GenerateImage o c (req : ImageGenerateRequest) : prog gw gerr ImageGenerateResponse :=
  let req := {| i_Prompt := i_Prompt req; i_Model := i_Model req; i_Size := i_Size req; i_Quality := i_Quality req;
                i_Style := i_Style req; i_N := if bool_decide (i_N req = 0)%Z then 1%Z else i_N req |} in
  started ← Now o;
  r ← doJSON o c ImagesGeneratePath (print_image_request req) ∅ dec_images {| ig_Data := []; ig_Model := ""; ig_Usage := no_usage |};
  finish o c OpImageGenerate ig_Model ig_Usage started id r.
Definition RefinePrompt o c (req : RefineRequest) : prog gw gerr RefineResponse :=
  started ← Now o;
  r ← doJSON o c PromptsRefinePath (print_refine o req) ∅ dec_refine {| RefinedPrompt := ""; ModelHint := ""; CacheTTLHours := 0 |};
  finish o c OpPromptRefine ModelHint unused started id r.
(** The boundary of a form is random; [audio] is what its reader yields. *)
Definition TranscribeAudio o c (boundary : string) (audio : reader) (filename model : string) : prog gw gerr TranscriptionResult :=
  let filename := if bool_decide (filename = "") then "audio.bin" else filename in
  started ← Now o;
  let build := match end_ audio with
               | Some cause => Err (Wrapf "copy audio" (Sentinel (TransportError cause)))
               | None => Ok (FormFile "file" filename (content audio) :: (if bool_decide (model ≠ "") then [FormField "model" model] else []))
               end in
  r ← doMultipart o c AudioTranscribePath boundary build dec_transcription
    {| tr_Text := ""; tr_Language := ""; tr_Duration := f_zero; tr_Segments := [] |};
  finish o c OpAudioTranscribe (λ _, model) unused started id r.
Definition zero_document : SummarizeDocumentResponse := {| sd_Result := ""; sd_Hash := "" |}.
Definition SummarizeDocument o c (text documentID : string) : prog gw gerr string :=
  started ← Now o;
  r ← doJSON o c DocumentsSummarizePath (print_summarize text documentID) ∅ dec_document zero_document;
  finish o c OpDocumentSummarize no_model unused started sd_Result r.
Definition ExtractText o c (boundary fileBytes filename documentID : string) : prog gw gerr string :=
  let filename := if bool_decide (filename = "") then "document.bin" else filename in
  started ← Now o;
  r ← doMultipart o c DocumentsExtractPath boundary
    (Ok (FormFile "file" filename fileBytes :: (if bool_decide (documentID ≠ "") then [FormField "document_id" documentID] else [])))
    dec_document zero_document;
  finish o c OpDocumentExtract no_model unused started sd_Result r.
Definition Generate o c (req : GenerateRequest) : prog gw gerr GenerateResponse :=
  let m := if bool_decide (gr_Model req = "") then DefaultModel c else gr_Model req in
  let req := {| gr_Model := m; SystemPrompt := SystemPrompt req; UserPrompt := UserPrompt req; gr_MaxTokens := gr_MaxTokens req |} in
  started ← Now o;
  r ← doJSON o c GeneratePath (print_generate req) ∅ dec_generate
    {| gn_Content := ""; gn_Flagged := false; gn_FlagReason := ""; InputTokens := 0; OutputTokens := 0 |};
  finish o c OpGenerate (λ _, m)
    (λ resp, {| PromptTokens := InputTokens resp; CompletionTokens := OutputTokens resp; TotalTokens := wrap64 (InputTokens resp + OutputTokens resp) |})
    started id r.

(** ** stream.go *)

(** A chunk is the contents of the deltas of its choices; [Unmarshal] decodes one. *)
Context (Unmarshal : string → option (list string)).

(** [ReadString] yields the lines that are ended; what follows the last one comes
    with the error that ends the body. *)
Definition ended_lines (body : string) : list string := removelast (split_on (ascii_of_N 10) body).
(** The choices of a chunk, handed over one by one. *)
Fixpoint hand_over o (choices : list string) (chunks : list string) : list string * option gerr :=
  match choices with
  | [] => (chunks, None)
  | x :: choices =>
      if bool_decide (x = "") then hand_over o choices chunks
      else match hang_up o (length chunks) with
           | Some cause => (chunks, Some (Sentinel (ContextError cause)))
           | None => hand_over o choices (chunks ++ [x])
           end
  end.
Definition DONE : string := "[DONE]".
Fixpoint read_stream o (lines : list string) (last : option string) (chunks : list string) : list string * option gerr :=
  match lines with
  | [] => (chunks, (λ cause, Wrapf "aigateway: read stream" (Sentinel (TransportError cause))) <$> last)
  | line :: lines =>
      let line := TrimRight line (ascii_of_N 13) in
      if bool_decide (line = "") || negb (String.prefix "data: " line) then read_stream o lines last chunks
      else
        let data := trim_prefix "data: " line in
        if bool_decide (data = DONE) then (chunks, None)
        else
          match Unmarshal data with
          | None => read_stream o lines last chunks
          | Some choices => match hand_over o choices chunks with
                            | (chunks, None) => read_stream o lines last chunks
                            | stopped => stopped
                            end
          end
  end.
Definition stream_request (c : Client) (body : list ascii) : http_request :=
  let h := Header_Set "Accept" "text/event-stream" (Header_Set "Content-Type" "application/json" ∅) in
  {| method := "POST"; url := BaseURL (cfg c) +:+ ChatPath;
     header := if bool_decide (APIKey (cfg c) ≠ "") then Header_Set "Authorization" ("Bearer " +:+ APIKey (cfg c)) h else h;
     payload := unchars (HTMLEscape body) |}.
Definition stream_status (resp : reply) : option gerr :=
  if bool_decide (StatusCode resp = 200)%Z then None
  else
    let body := readLimited (Body resp) errorBodyLimit in
    Some (if bool_decide (StatusCode resp = 401)%Z then Wrapf body (Sentinel ErrUnauthorized)
          else if bool_decide (StatusCode resp = 402)%Z then Wrapf body (Sentinel ErrBudgetExceeded)
          else Sentinel (HTTPError (StatusCode resp) body ChatPath)).
(** What the goroutine sends on its two channels. *)
Definition ChatCompletionStream o c (req : ChatRequest) : prog gw gerr (list string * option gerr) :=
  match c with
  | Some cl =>
      if IsConfigured c then
        started ← Now o;
        let m := if bool_decide (Model req = "") then DefaultModel c else Model req in
        let ends (chunks : list string) (err : option gerr) : prog gw gerr (list string * option gerr) :=
          _ ← observe o c OpChatStream m no_usage started err; mret (chunks, err) in
        match print_chat (with_model m true req) with
        | None => ends [] (Some (Errorf "aigateway: marshal stream request"))
        | Some body =>
            if negb (valid_request o "POST" (BaseURL (cfg cl) +:+ ChatPath)) then ends [] (Some (Errorf "aigateway: build stream request"))
            else
              r ← http_Do o (stream_request cl body);
              match r with
              | Err cause => ends [] (Some (Wrapf "aigateway: stream request" (Sentinel (TransportError cause))))
              | Ok resp =>
                  match stream_status resp with
                  | Some err => ends [] (Some err)
                  | None => let '(chunks, err) := read_stream o (ended_lines (content (Body resp))) (end_ (Body resp)) [] in ends chunks err
                  end
              end
        end
      else mret ([], Some (Sentinel ErrNotConfigured))
  | None => mret ([], Some (Sentinel ErrNotConfigured))
  end.
End values.
