(* ===== verification/AigatewayProofs.v ===== *)
(** * Properties of the client of the AI gateway

    What the retry loop returns, sends and waits; which headers its requests carry;
    what a stream yields; that every call is observed once. *)

From S2P Require Import Prelude Encoding Json Aigateway.

Section client.
Context {V : Values}.
Implicit Types (o : Outside) (s : gw).

(** ** The retry loop *)

Lemma doubled_min n d :
  (0 < d)%Z → (d ≤ 8 * Second)%Z → doubled n d = Z.min (8 * Second) (d * 2 ^ Z.of_nat n).
Proof.
  revert d. induction n as [|n IH]; intros d Hd Hb; cbn [doubled]; [rewrite Z.mul_1_r; lia|].
  rewrite Nat2Z.inj_succ, Z.pow_succ_r by lia. pose proof (Z.pow_pos_nonneg 2 (Z.of_nat n) ltac:(lia) ltac:(lia)).
  case_bool_decide as Hc; [nia|]. rewrite IH by lia. f_equal. ring.
Qed.
(** Before the n-th retry the client waits half a second doubled n - 1 times, up to
    eight seconds. *)
Theorem backoff_exact n :
  (1 ≤ n)%Z → backoffDelay n = Z.min (8 * Second) (500 * 1000000 * 2 ^ (n - 1)).
Proof.
  intros Hn. unfold backoffDelay. rewrite bool_decide_false by lia.
  rewrite doubled_min by (unfold Second; lia). by rewrite Z2Nat.id by lia.
Qed.

(** An outside that lets requests be built and does not interrupt the waits. *)
Definition undisturbed o : Prop := (∀ m u, valid_request o m u = true) ∧ ∀ n d, interrupt o n d = None.
Definition answered (v : verdict) : outcome gerr reply := match v with Decided r => r | Retry err => Err err end.
Definition waits (first : Z) (n : nat) : list duration := backoffDelay <$> filter (λ a, 0 < a)%Z (seqZ first (Z.of_nat n)).

Section loop.
Context (o : Outside) (c : Client) (m path contentType body : string) (extra : gmap string string).
Context (Ho : undisturbed o).
Let req : http_request := request_of o c m path contentType body extra.
Let verdict_of (n : nat) : verdict := judge m path (reply_to o n req).

Lemma waits_cons a n : waits a (S n) = (if bool_decide (a > 0)%Z then [backoffDelay a] else []) ++ waits (a + 1) n.
Proof.
  unfold waits. rewrite seqZ_cons by lia. rewrite filter_cons. replace (Z.succ a) with (a + 1)%Z by lia.
  replace (Z.pred (Z.of_nat (S n))) with (Z.of_nat n) by lia. case_decide; case_bool_decide; (done || lia).
Qed.
Lemma attempts_spec i more a lastErr s :
  (i < more)%nat → (∀ j, (j < i)%nat → ∃ err, verdict_of (length (sent s) + j) = Retry err) →
  (i = more - 1 ∨ ∃ r, verdict_of (length (sent s) + i) = Decided r) →
  attempts o c m path contentType body extra more a lastErr s =
    (answered (verdict_of (length (sent s) + i)),
     {| sent := sent s ++ replicate (S i) req; waited := waited s ++ waits a (S i); events := events s; readings := readings s |}).
Proof.
  destruct Ho as [Hv Hw]. revert i a lastErr s. induction more as [|more IH]; intros i a lastErr s Hi Hretry Hend; [lia|].
  cbn [attempts]. unfold mbind, prog_bind, reject_if. rewrite Hv. cbn [negb]. unfold http_Do, mret, prog_ret. cbv beta iota.
  assert (∀ d, (if bool_decide (a > 0)%Z then wait o d else λ s, (Ok tt, s)) s =
    (Ok tt, {| sent := sent s; waited := waited s ++ (if bool_decide (a > 0)%Z then [d] else []); events := events s; readings := readings s |})) as ->.
  { intros d. case_bool_decide; [unfold wait; by rewrite Hw|]. rewrite app_nil_r. by destruct s. }
  cbv beta iota. cbn [sent]. fold req. fold (verdict_of (length (sent s))). rewrite waits_cons.
  destruct i as [|i].
  - rewrite Nat.add_0_r in *. unfold waits, log_sent. cbn [sent waited events readings]. cbn [replicate]. rewrite app_nil_r.
    destruct (verdict_of (length (sent s))) as [r|err] eqn:Hver; cbn [answered].
    + done.
    + destruct Hend as [Hend|[r Hr]]; [|done]. assert (more = 0%nat) as -> by lia. cbn [attempts]. done.
  - destruct (Hretry 0%nat) as [err Herr]; [lia|]. rewrite Nat.add_0_r in Herr. rewrite Herr.
    assert (∀ j, (length (sent s ++ [req]) + j)%nat = (length (sent s) + S j)%nat) as Hlen by (intros j; rewrite length_app; cbn; lia).
    rewrite (IH i).
    + unfold log_sent. cbn [sent waited events readings]. rewrite Hlen, <-!app_assoc. do 2 f_equal.
    + lia.
    + intros j Hj. unfold log_sent. cbn [sent]. rewrite Hlen. apply Hretry. lia.
    + unfold log_sent. cbn [sent]. rewrite Hlen. destruct Hend as [Hend|Hend]; [left; lia|by right].
Qed.
End loop.

(** A call makes the same request again until a reply decides it or the retries
    are used up, waiting before each retry; it returns what the last reply says. *)
Theorem retries_exact o c m path contentType body extra s i :
  undisturbed o → BaseURL (cfg c) ≠ "" →
  let req := request_of o c m path contentType body extra in
  let verdict_of n := judge m path (reply_to o (length (sent s) + n) req) in
  let maxRetries := Z.to_nat (Z.max 0 (MaxRetries (cfg c))) in
  (i ≤ maxRetries)%nat → (∀ j, (j < i)%nat → ∃ err, verdict_of j = Retry err) → (i = maxRetries ∨ ∃ r, verdict_of i = Decided r) →
  do_ o (Some c) m path contentType body extra s =
    (answered (verdict_of i),
     {| sent := sent s ++ replicate (S i) req; waited := waited s ++ (backoffDelay <$> seqZ 1 (Z.of_nat i)); events := events s; readings := readings s |}).
Proof.
  intros Ho Hurl req verdict_of maxRetries Hi Hretry Hend. unfold do_, IsConfigured. rewrite bool_decide_false by done. cbn [negb].
  replace (if bool_decide (MaxRetries (cfg c) < 0)%Z then 0%Z else MaxRetries (cfg c)) with (Z.max 0 (MaxRetries (cfg c)))
    by (case_bool_decide; lia).
  rewrite (attempts_spec o c m path contentType body extra Ho i); [|lia|done|destruct Hend; [left; lia|by right]].
  do 2 f_equal. rewrite waits_cons, bool_decide_false by lia. f_equal. cbn [app]. unfold waits. f_equal.
  change (0 + 1)%Z with 1%Z. apply filter_all. intros a Ha%elem_of_seqZ. lia.
Qed.

(** ** Errors in texts *)

Lemma ascii_digit x : (x < 10)%N → ascii_of_N (48 + x) = pretty_N_char x.
Proof.
  intros Hx. assert (x = 0 ∨ x = 1 ∨ x = 2 ∨ x = 3 ∨ x = 4 ∨ x = 5 ∨ x = 6 ∨ x = 7 ∨ x = 8 ∨ x = 9)%N as Hcases by lia.
  by repeat (destruct Hcases as [->|Hcases]; [by vm_compute|]); subst; vm_compute.
Qed.
Lemma itoa_digits_exact room n buf :
  (n < 10 ^ N.of_nat room)%N → itoa_digits room (Z.of_N n) buf = pretty_N_go n buf.
Proof.
  revert n buf. induction room as [|room IH]; intros n buf Hn; cbn [itoa_digits].
  { cbn in Hn. by replace n with 0%N by lia. }
  case_bool_decide as Hpos; [|by replace n with 0%N by lia]. rewrite pretty_N_go_step by lia.
  change 10%Z with (Z.of_N 10). rewrite <-N2Z.inj_div, <-N2Z.inj_mod, N2Z.id.
  rewrite ascii_digit by (apply N.mod_lt; lia). apply IH.
  rewrite Nat2N.inj_succ, N.pow_succ_r' in Hn. apply N.Div0.div_lt_upper_bound. lia.
Qed.
(** [itoa] is the decimal text of every 64-bit number but the least one, whose
    negation wraps around: that one prints as a lone minus sign. *)
Theorem itoa_exact i :
  (- 2 ^ 63 ≤ i < 2 ^ 63)%Z → itoa i = if bool_decide (i = - 2 ^ 63)%Z then "-" else pretty i.
Proof.
  intros Hi. case_bool_decide as Hmin; [subst; by vm_compute|]. unfold itoa. case_bool_decide as Hz; [by subst|].
  assert (∀ n : N, (0 < n < 2 ^ 63)%N → itoa_digits 20 (Z.of_N n) "" = pretty n) as Hpos.
  { intros n Hn. rewrite itoa_digits_exact by (change (10 ^ N.of_nat 20)%N with 100000000000000000000%N; lia).
    unfold pretty, pretty_N. by rewrite decide_False by lia. }
  destruct i as [|x|x]; [done| |].
  - rewrite bool_decide_false by lia. change (Z.pos x) with (Z.of_N (N.pos x)). rewrite Hpos by lia. done.
  - rewrite bool_decide_true by lia. replace (wrap64 (- Z.neg x)) with (Z.of_N (N.pos x)); [by rewrite Hpos by lia|].
    rewrite wrap64_small; lia.
Qed.

(** ** Headers *)

(** Two names that are one header do not both occur. *)
Definition distinct_names (extra : gmap string string) : Prop :=
  ∀ k k' v v', extra !! k = Some v → extra !! k' = Some v' → CanonicalHeaderKey k = CanonicalHeaderKey k' → k = k'.
Lemma set_list_lookup (l : list (string * string)) h k v :
  (k, v) ∈ l → (∀ k' v', (k', v') ∈ l → CanonicalHeaderKey k' = CanonicalHeaderKey k → v' = v) →
  foldl (λ h kv, Header_Set kv.1 kv.2 h) h l !! CanonicalHeaderKey k = Some v.
Proof.
  intros Hin Heq. induction l as [|[k' v'] l IH] using rev_ind; [by apply not_elem_of_nil in Hin|].
  rewrite foldl_app. cbn [foldl fst snd]. unfold Header_Set at 1. destruct (decide (CanonicalHeaderKey k' = CanonicalHeaderKey k)) as [E|Hne].
  - rewrite E, lookup_insert_eq. f_equal. apply (Heq k'); [apply elem_of_app; right; by left|done].
  - rewrite lookup_insert_ne by done. apply IH.
    + apply elem_of_app in Hin as [Hin|Hin]; [done|]. apply list_elem_of_singleton in Hin. congruence.
    + intros k2 v2 H2. apply Heq. apply elem_of_app. by left.
Qed.
Lemma request_carries o c m path contentType body extra k v :
  distinct_names extra → extra !! k = Some v →
  header (request_of o c m path contentType body extra) !! CanonicalHeaderKey k = Some v.
Proof.
  intros Hd Hk. apply set_list_lookup.
  - by apply (elem_of_range (H := o_order o)).
  - intros k' v' Hin E. apply (elem_of_range (H := o_order o)) in Hin. assert (k' = k) as -> by eauto. congruence.
Qed.

(** ** What the calls do to the state *)

(** The requests a call adds are copies of one, and it adds no event. *)
Definition adds (r : http_request) (s s' : gw) : Prop :=
  events s' = events s ∧ ∃ n, sent s' = sent s ++ replicate n r.
Lemma adds_refl r s : adds r s s.
Proof. split; [done|]. exists 0%nat. by rewrite app_nil_r. Qed.
Lemma adds_trans r s1 s2 s3 : adds r s1 s2 → adds r s2 s3 → adds r s1 s3.
Proof.
  intros [He1 (n1 & H1)] [He2 (n2 & H2)]. split; [congruence|]. exists (n1 + n2)%nat.
  by rewrite H2, H1, replicate_add, app_assoc.
Qed.
Lemma attempts_adds o c m path contentType body extra more a lastErr s :
  adds (request_of o c m path contentType body extra) s (attempts o c m path contentType body extra more a lastErr s).2.
Proof.
  revert a lastErr s. induction more as [|more IH]; intros a lastErr s; cbn [attempts]; [apply adds_refl|].
  unfold mbind, prog_bind.
  assert (∀ d, let '(r, s') := (if bool_decide (a > 0)%Z then wait o d else mret tt) s in
    adds (request_of o c m path contentType body extra) s s') as Hwait.
  { intros d. case_bool_decide; [unfold wait; destruct (interrupt _ _ _)|]; cbn; try apply adds_refl.
    split; [done|]. exists 0%nat. by rewrite app_nil_r. }
  specialize (Hwait (backoffDelay a)). destruct ((if bool_decide (a > 0)%Z then wait o (backoffDelay a) else mret tt) s) as [[[]|err] s1]; [|done].
  unfold reject_if. destruct (negb _); [done|]. unfold mret, prog_ret, http_Do.
  assert (adds (request_of o c m path contentType body extra) s1 (log_sent (request_of o c m path contentType body extra) s1)) as Hsent
    by (split; [done|by exists 1%nat]).
  eapply adds_trans; [exact Hwait|]. eapply adds_trans; [exact Hsent|].
  destruct (judge _ _ _); [apply adds_refl|apply IH].
Qed.
Lemma do_adds o c m path contentType body extra s :
  adds (request_of o c m path contentType body extra) s (do_ o (Some c) m path contentType body extra s).2.
Proof. unfold do_. destruct (IsConfigured _); [apply attempts_adds|apply adds_refl]. Qed.

Lemma doJSON_runs {T} o c path body extra (dec : decoder T) zero s :
  ∃ r s', doJSON o c path body extra dec zero s = (Ok r, s') ∧ events s' = events s ∧
    match c with
    | Some c => ∃ b, adds (request_of o c "POST" path "application/json" b extra) s s'
    | None => s' = s
    end.
Proof.
  unfold doJSON. destruct body as [b|]; cbv [mret prog_ret].
  - unfold mbind, prog_bind, try. destruct c as [c|]; [|by eexists _, _].
    pose proof (do_adds o c "POST" path "application/json" (unchars (HTMLEscape b)) extra s) as Ha.
    destruct (do_ _ _ _ _ _ _ _ _) as [r s']. eexists _, _. split; [done|]. split; [apply Ha|eauto].
  - eexists _, _. split; [done|]. split; [done|]. destruct c as [c|]; [|done]. exists ""%string. apply adds_refl.
Qed.
Lemma doMultipart_runs {T} o c path boundary build (dec : decoder T) zero s :
  ∃ r s', doMultipart o c path boundary build dec zero s = (Ok r, s') ∧ events s' = events s.
Proof.
  unfold doMultipart. destruct build as [ps|err]; cbv [mret prog_ret]; [|by eexists _, _].
  unfold mbind, prog_bind, try. destruct c as [c|]; [|by eexists _, _].
  match goal with |- context [do_ o (Some c) ?m ?p ?t ?b ?x s] => pose proof (do_adds o c m p t b x s) as Ha; destruct (do_ o (Some c) m p t b x s) as [r s'] end.
  eexists _, _. split; [done|]. apply Ha.
Qed.

(** ** One event per call *)

Definition error_of {A} (r : outcome gerr A) : option gerr := match r with Ok _ => None | Err err => Some err end.
(** One event, with how the call ended, when somebody observes. *)
Definition observed_once (c : Client) (op : string) {A} (call : prog gw gerr A) : Prop :=
  ∀ s, let '(r, s') := call s in
    if observer c then ∃ ev, events s' = events s ++ [ev] ∧ ev_Operation ev = op ∧ ev_Success ev = is_Ok r ∧ ev_Err ev = error_of r
    else events s' = events s.
Lemma method_observed {T A} o c op (call : prog gw gerr (T * option gerr)) (model : T * option gerr → T → string) usage (f : T → A) :
  (∀ s, ∃ r s', call s = (Ok r, s') ∧ events s' = events s) →
  observed_once c op (started ← Now o; r ← call; finish o (Some c) op (model r) (usage r) started f r).
Proof.
  intros Hcall s. unfold mbind, prog_bind, Now. set (s0 := {| sent := _ |}). destruct (Hcall s0) as (r & s1 & -> & He).
  unfold finish, observe, mbind, prog_bind, Now, modify, mret, prog_ret, throw. destruct (observer c).
  - cbn [events log_event]. destruct r as [t [err|]]; cbn [snd fst]; eexists; (split; [cbn; by rewrite He|]); done.
  - destruct r as [t [err|]]; cbn; exact He.
Qed.
Lemma doJSON_events {T} o c path body extra (dec : decoder T) zero s :
  ∃ r s', doJSON o c path body extra dec zero s = (Ok r, s') ∧ events s' = events s.
Proof. destruct (doJSON_runs o c path body extra dec zero s) as (r & s' & H1 & H2 & _). eauto. Qed.

(** A stream's goroutine: one event, and one request at most, which is the same
    whatever the extra headers of the chat. *)
Context (Unmarshal : string → option (list string)).
Definition streamed (c : Client) s (res : outcome gerr (list string * option gerr) * gw) : Prop :=
  ∃ chunks err s', res = (Ok (chunks, err), s') ∧ (sent s' = sent s ∨ ∃ b, sent s' = sent s ++ [stream_request c b]) ∧
    if observer c then ∃ ev, events s' = events s ++ [ev] ∧ ev_Operation ev = OpChatStream ∧ ev_Success ev = bool_decide (err = None) ∧ ev_Err ev = err
    else events s' = events s.
Lemma ends_streamed o c (b : option (list ascii)) chunks err m t s s1 :
  events s1 = events s → sent s1 = sent s ++ match b with Some b => [stream_request c b] | None => [] end →
  streamed c s ((_ ← observe o (Some c) OpChatStream m no_usage t err; mret (chunks, err)) s1 : outcome gerr (list string * option gerr) * gw).
Proof.
  intros He Hs. unfold streamed, observe, mbind, prog_bind, Now, modify, mret, prog_ret.
  assert (sent s1 = sent s ∨ ∃ b, sent s1 = sent s ++ [stream_request c b]) as Hs'
    by (destruct b; [right; eauto|left; by rewrite Hs, app_nil_r]).
  destruct (observer c); eexists _, _, _; (split; [done|]); (split; [done|]); cbn; [|done]. eexists. by rewrite He.
Qed.
Lemma bind_http_Do {A} o r (k : outcome string reply → prog gw gerr A) s :
  (a ← http_Do o r; k a) s = k (reply_to o (length (sent s)) r) (log_sent r s).
Proof. done. Qed.
Lemma stream_runs o c (req : ChatRequest) s :
  IsConfigured (Some c) = true → streamed c s (ChatCompletionStream Unmarshal o (Some c) req s).
Proof.
  intros Hc. unfold ChatCompletionStream. rewrite Hc. set (s0 := {| sent := sent s; waited := waited s; events := events s; readings := S (readings s) |}).
  match goal with |- streamed c s ((Now o ≫= ?k) s) => change (streamed c s (k (clock o (readings s)) s0)) end. cbv beta zeta.
  destruct (print_chat _) as [body|]; [|apply (ends_streamed o c None); [done|by rewrite app_nil_r]].
  destruct (negb _); [apply (ends_streamed o c None); [done|by rewrite app_nil_r]|].
  rewrite bind_http_Do. destruct (reply_to o _ _) as [resp|cause]; [|by apply (ends_streamed o c (Some body))].
  destruct (stream_status resp) as [err|]; [by apply (ends_streamed o c (Some body))|].
  destruct (read_stream Unmarshal o _ _ _) as [chunks err]. by apply (ends_streamed o c (Some body)).
Qed.

(** ** Streams *)

(** The data of an event of the stream. *)
Definition data_of (line : string) : option string :=
  let line := TrimRight line (ascii_of_N 13) in
  if String.prefix "data: " line then Some (trim_prefix "data: " line) else None.
Fixpoint before (x : string) (l : list string) : list string :=
  match l with [] => [] | y :: l => if bool_decide (y = x) then [] else y :: before x l end.
Definition deltas (data : list string) : list string :=
  filter (λ x, x ≠ "") (concat ((λ d, default [] (Unmarshal d)) <$> data)).
Lemma hand_over_all o choices chunks :
  (∀ n, hang_up o n = None) → hand_over o choices chunks = (chunks ++ filter (λ x, x ≠ "") choices, None).
Proof.
  intros Ho. revert chunks. induction choices as [|x choices IH]; intros chunks; cbn [hand_over]; [by rewrite app_nil_r|].
  rewrite filter_cons. destruct (decide (x = "")) as [Hx|Hx].
  - rewrite bool_decide_true, decide_False by (done || by intros []). apply IH.
  - rewrite bool_decide_false, decide_True, Ho, IH, <-app_assoc by done. done.
Qed.
(** A stream that nobody hangs up on yields the contents, in order, of the chunks
    that decode, up to the first end mark or the end of the body; it ends in error
    exactly when the body does, before an end mark. *)
Theorem stream_exact o lines last chunks :
  (∀ n, hang_up o n = None) →
  read_stream Unmarshal o lines last chunks =
    (chunks ++ deltas (before DONE (omap data_of lines)),
     if bool_decide (DONE ∈ omap data_of lines) then None
     else (λ cause, Wrapf "aigateway: read stream" (Sentinel (TransportError cause))) <$> last).
Proof.
  intros Ho. revert chunks. induction lines as [|line lines IH]; intros chunks; [by rewrite app_nil_r|].
  cbn [read_stream]. change (omap data_of (line :: lines)) with (match data_of line with Some d => d :: omap data_of lines | None => omap data_of lines end).
  set (l := TrimRight line _).
  assert (data_of line = if String.prefix "data: " l then Some (trim_prefix "data: " l) else None) as Hdata by done.
  destruct (String.prefix "data: " l) eqn:Hpre; rewrite !Hdata; cbn [negb].
  2: { rewrite orb_true_r. apply IH. }
  rewrite (bool_decide_false (l = "")) by (intros E; by rewrite E in Hpre). cbn [orb before].
  destruct (decide (trim_prefix "data: " l = DONE)) as [Hd|Hd].
  - rewrite (bool_decide_true (_ = DONE)) by done. rewrite (bool_decide_true (DONE ∈ _)) by (rewrite <-Hd; by left). unfold deltas. cbn. by rewrite app_nil_r.
  - rewrite (bool_decide_false (_ = DONE)) by done. rewrite (bool_decide_ext (DONE ∈ trim_prefix "data: " l :: omap data_of lines) (DONE ∈ omap data_of lines))
      by (rewrite elem_of_cons; naive_solver).
    unfold deltas. cbn [fmap list_fmap concat]. destruct (Unmarshal (trim_prefix "data: " l)) as [choices|]; cbn [default from_option].
    + rewrite hand_over_all, IH by done. by rewrite filter_app, <-app_assoc.
    + apply IH.
Qed.
Lemma removelast_snoc {A} (l : list A) x : removelast (l ++ [x]) = l.
Proof. apply List.removelast_last. Qed.
Lemma split_on_nonempty ch t : split_on ch t ≠ [].
Proof. destruct t as [|a t]; cbn; [done|]. case_bool_decide; [done|]. by destruct (split_on ch t). Qed.
Lemma split_on_snoc ch body t :
  ch ∉ String.list_ascii_of_string t → split_on ch (body +:+ String ch t) = split_on ch body ++ [t].
Proof.
  intros Hn. induction body as [|a body IH].
  - change ("" +:+ String ch t) with (String ch t). cbn [split_on]. rewrite bool_decide_true, split_on_none by done. done.
  - change (String a body +:+ String ch t) with (String a (body +:+ String ch t)). cbn [split_on]. rewrite IH.
    case_bool_decide; [done|]. by destruct (split_on ch body) as [|x xs] eqn:E; [destruct (split_on_nonempty _ _ E)|].
Qed.
Lemma ended_lines_tail body tail :
  ascii_of_N 10 ∉ String.list_ascii_of_string tail →
  ended_lines (body +:+ String (ascii_of_N 10) tail) = ended_lines (body +:+ String (ascii_of_N 10) "").
Proof.
  intros Ht. unfold ended_lines. rewrite !split_on_snoc by (done || apply not_elem_of_nil). by rewrite !removelast_snoc.
Qed.
(** What follows the last line end of a body is not part of the stream, whatever it
    says, and the stream ends without an error. *)
Theorem unended_line_lost o body tail :
  ascii_of_N 10 ∉ String.list_ascii_of_string tail →
  read_stream Unmarshal o (ended_lines (body +:+ String (ascii_of_N 10) tail)) None [] =
  read_stream Unmarshal o (ended_lines (body +:+ String (ascii_of_N 10) "")) None [].
Proof. intros Ht. by rewrite ended_lines_tail. Qed.

(** ** Clients *)

(** No retries cannot be configured: a client made with none, or with a negative
    number, retries three times. *)
Theorem zero_retries_is_three cf opts cl :
  NewClient cf opts = Ok cl → (∀ opt cl, opt ∈ opts → cfg (opt cl) = cfg cl) → (MaxRetries cf ≤ 0)%Z → MaxRetries (cfg cl) = 3%Z.
Proof.
  unfold NewClient. case_bool_decide; [done|]. intros [= <-] Hopts Hm.
  assert (∀ c0, cfg (foldl (λ cl opt, opt cl) c0 opts) = cfg c0) as ->.
  { clear Hm. induction opts as [|opt opts IH]; intros c0; [done|]. cbn [foldl]. rewrite IH; [apply Hopts; by left|].
    intros opt' cl Hin. apply Hopts. by right. }
  cbn [cfg withDefaults MaxRetries]. unfold defaultMaxRetries. repeat case_bool_decide; (done || lia).
Qed.
(** A client made for the URL of slashes alone is returned without an error, and is
    not configured. *)
Theorem slashes_not_configured cf :
  BaseURL cf ≠ "" → TrimRight (BaseURL cf) "/" = "" →
  ∃ cl, NewClient cf [] = Ok cl ∧ IsConfigured (Some cl) = false.
Proof.
  intros Hne Ht. unfold NewClient. rewrite bool_decide_false by done. eexists. split; [done|].
  cbn [IsConfigured foldl cfg withDefaults BaseURL]. by rewrite Ht.
Qed.

(** ** Calls *)

Section calls.
Context (dec_chat : decoder ChatResponse) (dec_embedding : decoder EmbeddingResponse)
        (dec_moderation : decoder ModerationResponse) (dec_guardrails : decoder GuardrailsCheckResponse)
        (dec_redact : decoder PIIRedactResponse) (dec_rehydrate : decoder string) (dec_images : decoder ImageGenerateResponse)
        (dec_transcription : decoder TranscriptionResult) (dec_refine : decoder RefineResponse)
        (dec_document : decoder SummarizeDocumentResponse) (dec_generate : decoder GenerateResponse) (f_zero : float).

(** Every method of a client makes one event, when there is an observer, with its
    operation and with the error it returns, whether the call fails before, in or after
    its requests. *)
Theorem calls_observed_once o c :
  (∀ req, observed_once c OpChatCompletion (ChatCompletion dec_chat o (Some c) req)) ∧
  (∀ req, observed_once c OpEmbedding (Embeddings dec_embedding o (Some c) req)) ∧
  (∀ input, observed_once c OpModeration (Moderate dec_moderation o (Some c) input)) ∧
  (∀ input policy meta, observed_once c OpGuardrails (CheckGuardrails dec_guardrails f_zero o (Some c) input policy meta)) ∧
  (∀ input types, observed_once c OpPIIRedact (RedactPII dec_redact o (Some c) input types)) ∧
  (∀ text es, observed_once c OpPIIRehydrate (RehydratePII dec_rehydrate o (Some c) text es)) ∧
  (∀ req, observed_once c OpImageGenerate (GenerateImage dec_images o (Some c) req)) ∧
  (∀ req, observed_once c OpPromptRefine (RefinePrompt dec_refine o (Some c) req)) ∧
  (∀ b audio name m, observed_once c OpAudioTranscribe (TranscribeAudio dec_transcription f_zero o (Some c) b audio name m)) ∧
  (∀ text d, observed_once c OpDocumentSummarize (SummarizeDocument dec_document o (Some c) text d)) ∧
  (∀ b f name d, observed_once c OpDocumentExtract (ExtractText dec_document o (Some c) b f name d)) ∧
  (∀ req, observed_once c OpGenerate (Generate dec_generate o (Some c) req)).
Proof.
  split_and!; intros;
    first [apply (method_observed o c OpChatCompletion) | apply (method_observed o c OpEmbedding) | apply method_observed];
    intros; (apply doJSON_events || apply doMultipart_runs).
Qed.

(** The requests of a chat that is not streamed are all one request, with its extra
    headers. *)
Lemma chat_adds o c req s : ∃ n r, (sent (ChatCompletion dec_chat o (Some c) req s).2 = sent s ++ replicate n r) ∧
  ∃ b, r = request_of o c "POST" ChatPath "application/json" b (ExtraHeaders req).
Proof.
  unfold ChatCompletion. cbv zeta. unfold mbind, prog_bind, Now. set (s0 := {| sent := _ |}).
  match goal with |- context [doJSON ?o ?c ?p ?b ?x ?d ?z s0] => destruct (doJSON_runs o c p b x d z s0) as (r & s1 & -> & _ & b0 & (_ & n & Hs)) end.
  exists n. eexists. split; [|by exists b0]. etrans; [|exact Hs].
  unfold finish, observe, mbind, prog_bind, Now, modify, mret, prog_ret, throw. destruct (observer c), r as [t [err|]]; done.
Qed.
(** Every request of a chat carries its extra headers, the retries too; but the
    request of a streamed chat carries none of them, beyond the three it sets itself. *)
Theorem extra_headers_not_streamed o c req s k v :
  distinct_names (ExtraHeaders req) → ExtraHeaders req !! k = Some v →
  CanonicalHeaderKey k ∉ ["Content-Type"; "Accept"; "Authorization"] → IsConfigured (Some c) = true →
  (∃ rs, sent (ChatCompletion dec_chat o (Some c) req s).2 = sent s ++ rs ∧ Forall (λ r, header r !! CanonicalHeaderKey k = Some v) rs) ∧
  (∃ rs, sent (ChatCompletionStream Unmarshal o (Some c) req s).2 = sent s ++ rs ∧ Forall (λ r, header r !! CanonicalHeaderKey k = None) rs).
Proof.
  intros Hd Hk Hother Hc. split.
  - destruct (chat_adds o c req s) as (n & r & Hs & b & ->). eexists. split; [exact Hs|]. apply Forall_replicate. by apply request_carries.
  - destruct (stream_runs o c req s Hc) as (chunks & err & s' & -> & Hs & _). cbn [snd]. destruct Hs as [Hs|[b Hs]].
    + exists []. by rewrite Hs, app_nil_r.
    + eexists. split; [exact Hs|]. apply Forall_singleton. unfold stream_request, Header_Set. cbn [header].
      change (CanonicalHeaderKey "Accept") with "Accept"%string. change (CanonicalHeaderKey "Content-Type") with "Content-Type"%string.
      change (CanonicalHeaderKey "Authorization") with "Authorization"%string. rewrite !not_elem_of_cons in Hother.
      destruct Hother as (H1 & H2 & H3 & _). case_bool_decide; rewrite !lookup_insert_ne by done; apply lookup_empty.
Qed.
End calls.
End client.

(** ** Witnesses *)

#[local] Instance ex_values : Values := {|
  float := unit; float32 := unit; to_float32 := λ x, x; print_float := λ _, Some ["0"%char];
  any := string; print_any := λ s, Some (quote s); any_string := Some; escapeQuotes := λ s, s |}.
Definition ex_config : Config := {| BaseURL := "https://ai"; APIKey := "k"; cf_DefaultModel := ""; Timeout := 0; MaxRetries := 0 |}.
Definition ex_client : Client := {| cfg := withDefaults ex_config; http := CustomHTTP; observer := true |}.
Definition ex_body (s : string) : reader := {| content := s; end_ := None |}.
(** Two failures, and an answer. *)
Definition ex_outside : Outside := {|
  valid_request := λ _ _, true; reply_to := λ n _, Ok {| StatusCode := if bool_decide (n < 2)%nat then 503 else 200; Body := ex_body "{}" |};
  interrupt := λ _ _, None; hang_up := λ _, None; clock := λ n, Z.of_nat n; o_order := canonical_range |}.
Definition ex_start : gw := {| sent := []; waited := []; events := []; readings := 0 |}.

Lemma backoff_exact_witness : backoffDelay 4 = Z.min (8 * Second) (500 * 1000000 * 2 ^ 3).
Proof. by apply (backoff_exact 4). Defined.
Lemma itoa_exact_witness : itoa (-503) = (if bool_decide (-503 = - 2 ^ 63)%Z then "-" else pretty (-503)%Z).
Proof. apply (itoa_exact (-503)). lia. Defined.

Lemma retries_exact_witness :
  let req := request_of ex_outside ex_client "POST" "/p" "" "b" ∅ in
  do_ ex_outside (Some ex_client) "POST" "/p" "" "b" ∅ ex_start =
    (Ok {| StatusCode := 200; Body := ex_body "{}" |},
     {| sent := [req; req; req]; waited := (500 * 1000000)%Z :: [Second]; events := []; readings := 0 |}).
Proof.
  apply (retries_exact ex_outside ex_client "POST" "/p" "" "b" ∅ ex_start 2).
  - by split.
  - done.
  - by vm_compute; lia.
  - intros j Hj. assert (j = 0 ∨ j = 1)%nat as [->| ->] by lia; vm_compute; eauto.
  - right. vm_compute. eauto.
Defined.

Definition ex_chunk (s : string) : option (list string) := if bool_decide (s = "bad") then None else Some [s; ""].
Lemma stream_exact_witness :
  read_stream ex_chunk ex_outside ["data: a"; ": ping"; "data: bad"; "data: b"; "data: [DONE]"; "data: c"] (Some "reset") [] = (["a"; "b"], None).
Proof. apply (stream_exact ex_chunk ex_outside ["data: a"; ": ping"; "data: bad"; "data: b"; "data: [DONE]"; "data: c"] (Some "reset") []). done. Defined.
Lemma unended_line_lost_witness :
  read_stream ex_chunk ex_outside (ended_lines ("data: a" +:+ String (ascii_of_N 10) "data: b")) None [] =
  read_stream ex_chunk ex_outside (ended_lines ("data: a" +:+ String (ascii_of_N 10) "")) None [].
Proof. apply (unended_line_lost ex_chunk ex_outside "data: a" "data: b"). apply (bool_decide_unpack _). by vm_compute. Defined.
Lemma zero_retries_is_three_witness : MaxRetries (cfg ex_client) = 3%Z.
Proof.
  apply (zero_retries_is_three ex_config [WithObserver true; WithHTTPClient true] ex_client).
  - by vm_compute.
  - intros opt cl [->|[->|[]%not_elem_of_nil]%elem_of_cons]%elem_of_cons; done.
  - done.
Defined.
Lemma slashes_not_configured_witness :
  ∃ cl, NewClient {| BaseURL := "//"; APIKey := ""; cf_DefaultModel := ""; Timeout := 0; MaxRetries := 0 |} [] = Ok cl ∧ IsConfigured (Some cl) = false.
Proof. by apply (slashes_not_configured {| BaseURL := "//"; APIKey := ""; cf_DefaultModel := ""; Timeout := 0; MaxRetries := 0 |}). Defined.

Definition ex_chat : ChatRequest :=
  {| Model := ""; Messages := Some [{| Role := "user"; Content := CText "hi"; Name := "" |}]; Temperature := None; MaxTokens := None;
     TopP := None; Stop := []; Stream := false; User := ""; cr_ResponseFormat := None; ExtraHeaders := {["x-child-mode" := "1"]} |}.
Definition ex_decoder : decoder ChatResponse := λ _, (zero_chat, None).
Lemma extra_headers_not_streamed_witness :
  (∃ rs, sent (ChatCompletion ex_decoder ex_outside (Some ex_client) ex_chat ex_start).2 = sent ex_start ++ rs ∧
     Forall (λ r, header r !! CanonicalHeaderKey "x-child-mode" = Some "1") rs) ∧
  (∃ rs, sent (ChatCompletionStream ex_chunk ex_outside (Some ex_client) ex_chat ex_start).2 = sent ex_start ++ rs ∧
     Forall (λ r, header r !! CanonicalHeaderKey "x-child-mode" = None) rs).
Proof.
  apply (extra_headers_not_streamed ex_chunk ex_decoder ex_outside ex_client ex_chat ex_start "x-child-mode" "1").
  - cbn [ex_chat ExtraHeaders]. intros k k' v v' [<- _]%lookup_singleton_Some [<- _]%lookup_singleton_Some. done.
  - done.
  - apply (bool_decide_unpack _). by vm_compute.
  - done.
Defined.
