(* ===== verification/Saml.v ===== *)
(** * SAML primitives (platform/auth/saml and platform/auth/saml/idp)

    saml.go and saml_verify.go (requests and responses of a service provider; the library
    that verifies is a parameter),
    crypto.go (certificates as texts), idp.go and assertion.go (metadata, requests
    and signed responses of an identity provider).  Documents are trees; reading and
    writing them, and signatures in them, are parameters. *)

From S2P Require Import Prelude Encoding.

(** ** Texts *)

(** [base64.StdEncoding] and [base64.URLEncoding], with padding. *)
Definition chars_of (s : string) : list ascii := String.list_ascii_of_string s.
Definition padding (n : nat) : string := if bool_decide (n mod 3 = 1)%nat then "==" else if bool_decide (n mod 3 = 2)%nat then "=" else "".
Definition padded_Encode (al : alphabet) (s : string) : string := base64_EncodeToString al s +:+ padding (String.length s).
Definition padded_Decode (al : alphabet) (s : string) : option string :=
  let l := filter (λ a, byte_of a ≠ 10%N ∧ byte_of a ≠ 13%N) (chars_of s) in
  let body := filter (λ a, a ≠ "="%char) l in
  if bool_decide (length l mod 4 = 0)%nat && bool_decide (length l - length body ≤ 2)%nat
     && bool_decide (l = body ++ replicate (length l - length body) "="%char)
  then base64_DecodeString al (String.string_of_list_ascii body) else None.
(** [decodeSAMLParam]. *)
Definition decodeSAMLParam (s : string) : option string :=
  match padded_Decode StdAlphabet s with
  | Some b => Some b
  | None => match base64_DecodeString StdAlphabet s with
            | Some b => Some b
            | None => match padded_Decode URLAlphabet s with
                      | Some b => Some b
                      | None => base64_DecodeString URLAlphabet s
                      end
            end
  end.
Fixpoint replace_chars (f : ascii → option string) (s : string) : string :=
  match s with
  | EmptyString => ""
  | String a s => match f a with Some t => t | None => String a "" end +:+ replace_chars f s
  end.

(** ** Documents *)

#[warnings="-register-all"] Inductive xml : Type :=
  | Elem (tag : string) (attrs : list (string * string)) (children : list xml)
  | CharData (s : string).

(** Names are compared without their prefix. *)
Definition local_name (tag : string) : string := List.last (split_on ":" tag) "".
Definition is_named (name : string) (x : xml) : bool :=
  match x with Elem t _ _ => bool_decide (local_name t = name) | CharData _ => false end.
Definition children_named (name : string) (x : xml) : list xml :=
  match x with
  | Elem _ _ ch => filter (λ c, is_named name c = true) ch
  | CharData _ => []
  end.
Definition attr (name : string) (x : xml) : option string :=
  match x with
  | Elem _ attrs _ => last (snd <$> filter (λ kv, local_name kv.1 = name) attrs)
  | CharData _ => None
  end.
Definition text_of (x : xml) : string :=
  match x with
  | Elem _ _ ch => strings_Join "" (omap (λ c, match c with CharData s => Some s | Elem _ _ _ => None end) ch)
  | CharData s => s
  end.

(** What [xml.Unmarshal] fills in of a response: repeated elements fill one field, so
    the last one counts. *)
Record AttributeXML : Type := { at_Name : string; at_Values : list string }.
Record AssertionXML : Type := {
  IssueInstant : string; NameID : string; NotOnOrAfter : string; AttributeStatements : list (list AttributeXML);
  ClassRefs : list string
}.
Abbreviation ResponseXML := (list AssertionXML) (only parsing).
Definition path (names : list string) (x : xml) : list xml := foldl (λ xs name, xs ≫= children_named name) [x] names.
Definition last_text (xs : list xml) : string := default "" (last (text_of <$> xs)).
Definition last_attr (name : string) (xs : list xml) : string := default "" (last (omap (attr name) xs)).
Definition assertion_of (x : xml) : AssertionXML := {|
  IssueInstant := last_attr "IssueInstant" [x];
  NameID := last_text (path ["Subject"; "NameID"] x);
  NotOnOrAfter := last_attr "NotOnOrAfter" (path ["Conditions"] x);
  AttributeStatements := (λ stmt, (λ a, {| at_Name := last_attr "Name" [a]; at_Values := text_of <$> children_named "AttributeValue" a |})
                            <$> children_named "Attribute" stmt) <$> children_named "AttributeStatement" x;
  ClassRefs := (λ stmt, last_text (path ["AuthnContext"; "AuthnContextClassRef"] stmt)) <$> children_named "AuthnStatement" x |}.
Definition response_of (x : xml) : option ResponseXML :=
  match x with
  | Elem t _ _ => if bool_decide (local_name t = "Response") then Some (assertion_of <$> children_named "Assertion" x) else None
  | CharData _ => None
  end.
Definition request_of (x : xml) : option (string * string) :=
  match x with
  | Elem t _ _ => if bool_decide (local_name t = "AuthnRequest") then Some (last_attr "ID" [x], last_text (children_named "Issuer" x)) else None
  | CharData _ => None
  end.

Class SAMLLib : Type := {
  rsa_PrivateKey : Type;
  Certificate : Type;
  Raw : Certificate → string;
  ReadXML : string → option xml;
  WriteToString : xml → string;
  SignEnveloped : rsa_PrivateKey → Certificate → xml → option xml;
  Format_RFC3339 : time → string;
  Parse_RFC3339 : string → option time;   (* and with fractions of a second *)
  url_ok : string → bool;                  (* [url.Parse] *)
  ParseCertPEM : string → option Certificate;   (* [pem.Decode] and [x509.ParseCertificate] *)
}.
Abbreviation serr := (goerr Empty_set) (only parsing).

Section saml.
Context {L : SAMLLib}.

(** ** saml.go *)

Record Config : Type := {
  IDPSSOUrl : string; IDPEntityID : string; IDPCert : string; SPEntityID : string; ACSURL : string; AttributeMapping : gmap string string
}.
Definition AuthnRequest (e : Env) (request_id : string) (cfg : Config) : xml :=
  Elem "AuthnRequest" [("xmlns", "urn:oasis:names:tc:SAML:2.0:protocol"); ("ID", request_id); ("Version", "2.0");
                       ("IssueInstant", Format_RFC3339 (now e)); ("AssertionConsumerServiceURL", ACSURL cfg); ("Destination", IDPSSOUrl cfg)]
    [Elem "Issuer" [("xmlns", "urn:oasis:names:tc:SAML:2.0:assertion")] [CharData (SPEntityID cfg)]].
(** [uuid] is the text of the identifier that is drawn. *)
Definition BuildAuthnRequestRedirectURL (e : Env) (uuid : string) (cfg : Config) : string :=
  IDPSSOUrl cfg +:+ "?SAMLRequest=" +:+ QueryEscape (padded_Encode StdAlphabet (WriteToString (AuthnRequest e ("_" +:+ uuid) cfg))).
Definition defaultAttributeMapping : gmap string string :=
  {["email" := "email"; "name" := "name"; "first_name" := "first_name"; "last_name" := "last_name"]}.
(** The first value of every attribute; a later attribute of the same name wins. *)
Definition raw_attributes (r : ResponseXML) : gmap string string :=
  foldl (λ m (a : AttributeXML), match at_Values a with v :: _ => <[at_Name a := v]> m | [] => m end) ∅
    (concat ((λ a, concat (AttributeStatements a)) <$> r)).
Definition ParseResponseUnverified (samlResponse : string) (mapping : gmap string string) : outcome serr (gmap string string) :=
  match padded_Decode StdAlphabet samlResponse with
  | None => Err (Errorf "decoding SAML response")
  | Some b =>
      match ReadXML b ≫= response_of with
      | None => Ok ∅
      | Some r =>
          let raw := raw_attributes r in
          let result := omap (λ source, raw !! source) (mapping ∪ defaultAttributeMapping) in
          Ok (match result !! "email" with
              | Some _ => result
              | None => match head (filter (λ i, i ≠ "") (NameID <$> r)) with
                        | Some i => <["email" := i]> result
                        | None => result
                        end
              end)
      end
  end.
Definition xmlEscapeString (s : string) : string :=
  replace_chars (λ a, if bool_decide (a = "&"%char) then Some "&amp;" else if bool_decide (a = "<"%char) then Some "&lt;"
                      else if bool_decide (a = ">"%char) then Some "&gt;" else if bool_decide (a = "034"%char) then Some "&quot;" else None) s.
Definition BuildSPMetadata (cfg : Config) : string :=
  let q := String "034" "" in let nl := String "010" "" in
  "<?xml version=" +:+ q +:+ "1.0" +:+ q +:+ "?>" +:+ nl
  +:+ "<md:EntityDescriptor xmlns:md=" +:+ q +:+ "urn:oasis:names:tc:SAML:2.0:metadata" +:+ q +:+ nl
  +:+ "  entityID=" +:+ q +:+ xmlEscapeString (SPEntityID cfg) +:+ q +:+ ">" +:+ nl
  +:+ "  <md:SPSSODescriptor AuthnRequestsSigned=" +:+ q +:+ "false" +:+ q +:+ " WantAssertionsSigned=" +:+ q +:+ "true" +:+ q +:+ nl
  +:+ "    protocolSupportEnumeration=" +:+ q +:+ "urn:oasis:names:tc:SAML:2.0:protocol" +:+ q +:+ ">" +:+ nl
  +:+ "    <md:NameIDFormat>urn:oasis:names:tc:SAML:1.1:nameid-format:emailAddress</md:NameIDFormat>" +:+ nl
  +:+ "    <md:AssertionConsumerService" +:+ nl
  +:+ "      Binding=" +:+ q +:+ "urn:oasis:names:tc:SAML:2.0:bindings:HTTP-POST" +:+ q +:+ nl
  +:+ "      Location=" +:+ q +:+ xmlEscapeString (ACSURL cfg) +:+ q +:+ nl
  +:+ "      index=" +:+ q +:+ "1" +:+ q +:+ " />" +:+ nl
  +:+ "  </md:SPSSODescriptor>" +:+ nl +:+ "</md:EntityDescriptor>".

Definition ParseIDPCertificate (certData : string) : outcome serr Certificate :=
  let certData := TrimSpace certData in
  let nl := String "010" "" in
  let certData := if negb (String.prefix "-----BEGIN" certData)
                  then "-----BEGIN CERTIFICATE-----" +:+ nl +:+ certData +:+ nl +:+ "-----END CERTIFICATE-----" else certData in
  match ParseCertPEM certData with
  | None => Err (Errorf "failed to decode PEM block")   (* or to parse the certificate *)
  | Some c => Ok c
  end.

(** ** saml_verify.go; [ParseResponse] is that of crewjam/saml *)

Record VerifiedAttribute : Type := { va_Name : string; va_FriendlyName : string; va_Values : list string }.
(** The value of the NameID of its subject, where it has one. *)
Record VerifiedAssertion : Type := { va_Statements : list (list VerifiedAttribute); va_NameID : option string }.
(** What the code fills in of a [saml.ServiceProvider]. *)
Record ServiceProvider : Type := {
  spd_EntityID : string; spd_MetadataURL : string; spd_AcsURL : string; spd_IDPEntityID : string; spd_Certificates : list string;
  AllowIDPInitiated : bool
}.
Definition buildVerifyingSP (cfg : Config) : outcome serr ServiceProvider :=
  match ParseIDPCertificate (IDPCert cfg) with
  | Err err => Err (Wrapf "SAML config has no verifiable IdP certificate" err)
  | Ok cert =>
      if negb (url_ok (ACSURL cfg)) then Err (Errorf "parsing ACS URL")
      else if negb (url_ok (SPEntityID cfg)) then Err (Errorf "parsing SP entity ID")
      else Ok {| spd_EntityID := SPEntityID cfg; spd_MetadataURL := SPEntityID cfg; spd_AcsURL := ACSURL cfg; spd_IDPEntityID := IDPEntityID cfg;
                 spd_Certificates := [padded_Encode StdAlphabet (Raw cert)]; AllowIDPInitiated := true |}
  end.
Definition add_verified (m : gmap string string) (a : VerifiedAttribute) : gmap string string :=
  match va_Values a with
  | [] => m
  | v :: _ =>
      let m := if bool_decide (va_Name a ≠ "") then <[va_Name a := v]> m else m in
      if bool_decide (va_FriendlyName a ≠ "") then <[va_FriendlyName a := v]> m else m
  end.
Definition mapVerifiedAttributes (assertion : option VerifiedAssertion) (mapping : gmap string string) : gmap string string :=
  let raw := match assertion with Some a => foldl add_verified ∅ (concat (va_Statements a)) | None => ∅ end in
  let result := omap (λ source, raw !! source) (mapping ∪ defaultAttributeMapping) in
  match result !! "email", assertion ≫= va_NameID with
  | None, Some i => <["email" := i]> result
  | _, _ => result
  end.
Definition VerifyResponse (ParseResponse : ServiceProvider → string → option (option VerifiedAssertion)) (samlResponse : string) (cfg : Config) :
    outcome serr (gmap string string) :=
  match buildVerifyingSP cfg with
  | Err err => Err err
  | Ok sp =>
      match ParseResponse sp samlResponse with
      | None => Err (Errorf "SAML signature verification failed")
      | Some assertion => Ok (mapVerifiedAttributes assertion (AttributeMapping cfg))
      end
  end.

(** ** crypto.go *)

Record SigningKey : Type := { k_PrivateKey : option rsa_PrivateKey; k_Certificate : option Certificate }.
Definition CertificateBase64 (k : SigningKey) : string :=
  match k_Certificate k with Some c => padded_Encode StdAlphabet (Raw c) | None => "" end.
Definition certificatesEqual (a b : Certificate) : bool := bool_decide (Raw a = Raw b).

(** ** idp.go *)

Record SPRegistration : Type := { sp_EntityID : string; sp_ACSURL : string; SigningCertificate : option Certificate }.
Record IdPConfig : Type := {
  EntityID : string; SSOURL : string; CurrentKey : option SigningKey; PreviousKey : option SigningKey;
  AssertionLifetime : duration; AllowedSPs : gmap string SPRegistration
}.
(** A constructed provider is its configuration, with the key pair it needs. *)
Record IdentityProvider : Type := { cfg : IdPConfig; private : rsa_PrivateKey; certificate : Certificate }.
Definition New (c : IdPConfig) : outcome serr IdentityProvider :=
  match CurrentKey c with
  | None => Err (Errorf "idp: CurrentKey is required")
  | Some k =>
      match k_Certificate k, k_PrivateKey k with
      | Some cert, Some key =>
          if bool_decide (AssertionLifetime c < 0)%Z then Err (Errorf "idp: AssertionLifetime must be non-negative")
          else if negb (url_ok (SSOURL c)) then Err (Errorf "idp: SSOURL invalid")
          else if negb (url_ok (EntityID c)) then Err (Errorf "idp: EntityID invalid")
          else Ok {| cfg := {| EntityID := EntityID c; SSOURL := SSOURL c; CurrentKey := CurrentKey c; PreviousKey := PreviousKey c;
                               AssertionLifetime := if bool_decide (AssertionLifetime c = 0)%Z then (5 * Minute)%Z else AssertionLifetime c;
                               AllowedSPs := AllowedSPs c |}; private := key; certificate := cert |}
      | _, _ => Err (Errorf "idp: CurrentKey is incomplete")
      end
  end.
Definition key_descriptor (cert : string) : xml :=
  Elem "md:KeyDescriptor" [("use", "signing")]
    [Elem "ds:KeyInfo" [("xmlns:ds", "http://www.w3.org/2000/09/xmldsig#")] [Elem "ds:X509Data" [] [Elem "ds:X509Certificate" [] [CharData cert]]]].
(** [xml.MarshalIndent] writes it with line ends and spaces between the elements. *)
Definition Metadata (i : IdentityProvider) : xml :=
  let c := cfg i in
  let previous := match PreviousKey c with
                  | Some k => match k_Certificate k with Some _ => [key_descriptor (CertificateBase64 k)] | None => [] end
                  | None => []
                  end in
  let sso b := Elem "md:SingleSignOnService" [("Binding", b); ("Location", SSOURL c)] [] in
  Elem "md:EntityDescriptor" [("xmlns:md", "urn:oasis:names:tc:SAML:2.0:metadata"); ("entityID", EntityID c)]
    [Elem "md:IDPSSODescriptor" [("protocolSupportEnumeration", "urn:oasis:names:tc:SAML:2.0:protocol")]
       (key_descriptor (padded_Encode StdAlphabet (Raw (certificate i))) :: previous
        ++ [Elem "md:NameIDFormat" [] [CharData "urn:oasis:names:tc:SAML:1.1:nameid-format:emailAddress"];
            Elem "md:NameIDFormat" [] [CharData "urn:oasis:names:tc:SAML:1.1:nameid-format:unspecified"];
            sso "urn:oasis:names:tc:SAML:2.0:bindings:HTTP-Redirect"; sso "urn:oasis:names:tc:SAML:2.0:bindings:HTTP-POST"])].

Record AssertionInput : Type := {
  in_SPEntityID : string; InResponseTo : string; in_NameID : string; NameIDFormat : string; Attributes : gmap string (list string);
  AuthnContextClassRef : string; in_IssueInstant : time
}.
Definition sortedAttributes (e : Env) (m : gmap string (list string)) : list (string * list string) :=
  sort_slice (λ a b, string_lt a.1 b.1) (range (MapRange := order e) m).
(** *** assertion.go; [ids] are the texts [randomID] returns. *)
Record buildAssertionInput : Type := {
  issuer : string; audience : string; recipient : string; nameID : string; nameIDFormat : string; issueInstant : time; notOnOrAfter : time;
  inResponseTo : string; authnContextClassRef : string; attributes : list (string * list string)
}.
Definition optional_attr (k v : string) : list (string * string) := if bool_decide (v ≠ "") then [(k, v)] else [].
Definition leaf (tag : string) (attrs : list (string * string)) (text : string) : xml := Elem tag attrs [CharData text].
Definition buildAssertion (ids : nat → string) (i : buildAssertionInput) : xml :=
  let at_ := Format_RFC3339 (issueInstant i) in let until := Format_RFC3339 (notOnOrAfter i) in
  Elem "saml:Assertion" [("xmlns:saml", "urn:oasis:names:tc:SAML:2.0:assertion"); ("ID", "_" +:+ ids 0%nat); ("Version", "2.0"); ("IssueInstant", at_)]
    ([leaf "saml:Issuer" [] (issuer i);
      Elem "saml:Subject" []
        [leaf "saml:NameID" [("Format", nameIDFormat i)] (nameID i);
         Elem "saml:SubjectConfirmation" [("Method", "urn:oasis:names:tc:SAML:2.0:cm:bearer")]
           [Elem "saml:SubjectConfirmationData" ([("NotOnOrAfter", until); ("Recipient", recipient i)] ++ optional_attr "InResponseTo" (inResponseTo i)) []]];
      Elem "saml:Conditions" [("NotBefore", at_); ("NotOnOrAfter", until)]
        [Elem "saml:AudienceRestriction" [] [leaf "saml:Audience" [] (audience i)]];
      Elem "saml:AuthnStatement" [("AuthnInstant", at_); ("SessionIndex", "_" +:+ ids 1%nat)]
        [Elem "saml:AuthnContext" [] [leaf "saml:AuthnContextClassRef" [] (authnContextClassRef i)]]]
     ++ (if bool_decide (attributes i = []) then []
         else [Elem "saml:AttributeStatement" []
                 ((λ a : string * list string,
                     Elem "saml:Attribute" [("Name", a.1); ("NameFormat", "urn:oasis:names:tc:SAML:2.0:attrname-format:basic")]
                       ((λ v, leaf "saml:AttributeValue" [("xmlns:xsi", "http://www.w3.org/2001/XMLSchema-instance");
                                                          ("xmlns:xs", "http://www.w3.org/2001/XMLSchema"); ("xsi:type", "xs:string")] v) <$> a.2))
                  <$> attributes i)])).
Definition buildResponse (ids : nat → string) (iss destination : string) (at_ : time) (inResponseTo assertion : string) : xml :=
  Elem "samlp:Response"
    ([("xmlns:samlp", "urn:oasis:names:tc:SAML:2.0:protocol"); ("xmlns:saml", "urn:oasis:names:tc:SAML:2.0:assertion"); ("ID", "_" +:+ ids 2%nat);
      ("Version", "2.0"); ("IssueInstant", Format_RFC3339 at_); ("Destination", destination)] ++ optional_attr "InResponseTo" inResponseTo)
    ([leaf "saml:Issuer" [] iss;
      Elem "samlp:Status" [] [Elem "samlp:StatusCode" [("Value", "urn:oasis:names:tc:SAML:2.0:status:Success")] []]]
     ++ match ReadXML assertion with Some root => [root] | None => [] end).
Definition signResponse (responseXML : string) (key : rsa_PrivateKey) (cert : Certificate) : outcome serr string :=
  match ReadXML responseXML with
  | None => Err (Errorf "read response xml")
  | Some root => match SignEnveloped key cert root with
                 | None => Err (Errorf "sign enveloped")
                 | Some signed => Ok (WriteToString signed)
                 end
  end.
Definition assertion_input (e : Env) (i : IdentityProvider) (sp : SPRegistration) (inp : AssertionInput) : buildAssertionInput :=
  let t := if IsZero (in_IssueInstant inp) then now e else in_IssueInstant inp in
  {| issuer := EntityID (cfg i); audience := sp_EntityID sp; recipient := sp_ACSURL sp; nameID := in_NameID inp;
     nameIDFormat := if bool_decide (NameIDFormat inp = "") then "urn:oasis:names:tc:SAML:1.1:nameid-format:emailAddress" else NameIDFormat inp;
     issueInstant := t; notOnOrAfter := (t + AssertionLifetime (cfg i))%Z; inResponseTo := InResponseTo inp;
     authnContextClassRef := if bool_decide (AuthnContextClassRef inp = "")
                             then "urn:oasis:names:tc:SAML:2.0:ac:classes:PasswordProtectedTransport" else AuthnContextClassRef inp;
     attributes := sortedAttributes e (Attributes inp) |}.
Definition IssueAssertion (e : Env) (ids : nat → string) (i : IdentityProvider) (inp : AssertionInput) : outcome serr string :=
  match AllowedSPs (cfg i) !! in_SPEntityID inp with
  | None => Err (Errorf "idp: SP not registered")
  | Some sp =>
      if bool_decide (in_NameID inp = "") then Err (Errorf "idp: NameID is required")
      else
        let a := assertion_input e i sp inp in
        let assertion := buildAssertion ids a in
        let resp := buildResponse ids (EntityID (cfg i)) (sp_ACSURL sp) (issueInstant a) (InResponseTo inp) (TrimSpace (WriteToString assertion)) in
        match signResponse (TrimSpace (WriteToString resp)) (private i) (certificate i) with
        | Err err => Err (Wrapf "sign response" err)
        | Ok signed => Ok signed
        end
  end.
Definition HasKey (i : IdentityProvider) (cert : option Certificate) : bool :=
  match cert with
  | None => false
  | Some c =>
      certificatesEqual c (certificate i)
      || match PreviousKey (cfg i) with
         | Some k => match k_Certificate k with Some p => certificatesEqual c p | None => false end
         | None => false
         end
  end.
Definition AllowedSPs_list (e : Env) (i : IdentityProvider) : list string :=
  sort_Strings (range (MapRange := order e) (AllowedSPs (cfg i))).*1.
(** [GetServiceProvider]: its entity, its endpoint and its certificates. *)
Definition GetServiceProvider (i : IdentityProvider) (entityID : string) : outcome serr (string * string * list string) :=
  match AllowedSPs (cfg i) !! entityID with
  | None => Err (Errorf "SP not registered")
  | Some sp =>
      Ok (sp_EntityID sp, sp_ACSURL sp,
          match SigningCertificate sp with Some c => [CertificateBase64 {| k_PrivateKey := None; k_Certificate := Some c |}] | None => [] end)
  end.
Definition TLSCertificate (i : IdentityProvider) : option (string * option rsa_PrivateKey) :=
  match CurrentKey (cfg i) with
  | Some k => match k_Certificate k with Some c => Some (Raw c, k_PrivateKey k) | None => None end
  | None => None
  end.
Definition AcceptAuthnRequest (i : IdentityProvider) (samlRequest : string) : outcome serr (SPRegistration * string) :=
  if bool_decide (TrimSpace samlRequest = "") then Err (Errorf "idp: empty SAMLRequest")
  else
    match decodeSAMLParam samlRequest with
    | None => Err (Errorf "idp: SAMLRequest is not valid base64")
    | Some b =>
        match ReadXML b ≫= request_of with
        | None => Err (Errorf "idp: parse AuthnRequest")
        | Some (id_, iss) =>
            if bool_decide (iss = "") then Err (Errorf "idp: AuthnRequest missing Issuer")
            else match AllowedSPs (cfg i) !! iss with
                 | None => Err (Errorf "idp: SP not registered")
                 | Some sp => Ok (sp, id_)
                 end
        end
    end.
End saml.
