(* ===== verification/SamlProofs.v ===== *)
(** * Properties of the SAML primitives

    Base64 with padding; documents up to empty texts; what an issued response holds
    for the one who reads it. *)

From S2P Require Import Prelude Encoding Saml.

(** ** Base64 with padding *)

Lemma base64_char_plain al (n : N) :
  (n < 64)%N → base64_char al n ≠ "="%char ∧ byte_of (base64_char al n) ≠ 10%N ∧ byte_of (base64_char al n) ≠ 13%N.
Proof.
  intros Hn. destruct (base64_value_char al n Hn) as (Hv & H10 & H13 & _). split_and!; [|done|done].
  intros E. rewrite E in Hv. by destruct al.
Qed.
Lemma padding_length (l : list ascii) :
  (String.length (padding (length l)) ≤ 2 ∧ (length (sextets l) + String.length (padding (length l))) mod 4 = 0)%nat.
Proof.
  induction l as [|a|a b|a b c l [IH1 IH2]] using triples_ind; [vm_compute; lia..|].
  cbn [sextets length]. assert (padding (S (S (S (length l)))) = padding (length l)) as ->.
  { unfold padding. assert (S (S (S (length l))) mod 3 = length l mod 3)%nat as ->; [|done].
    etrans; [|apply (Nat.Div0.mod_add _ 1 3)]. f_equal. lia. }
  split; [done|]. etrans; [|exact IH2]. etrans; [|apply (Nat.Div0.mod_add _ 1 4)]. f_equal. lia.
Qed.
Lemma padding_chars n : String.list_ascii_of_string (padding n) = replicate (String.length (padding n)) "="%char.
Proof. unfold padding. by repeat case_bool_decide. Qed.
Lemma length_chars_of s : length (String.list_ascii_of_string s) = String.length s.
Proof. induction s; cbn; congruence. Qed.
Lemma padded_Decode_Encode al s : padded_Decode al (padded_Encode al s) = Some s.
Proof.
  unfold padded_Decode, padded_Encode, chars_of. rewrite list_ascii_app, padding_chars, <-(length_chars_of s).
  set (body := String.list_ascii_of_string (base64_EncodeToString al s)). destruct (padding_length (String.list_ascii_of_string s)) as [Hp Hm].
  set (k := String.length _) in *.
  assert (∀ a, a ∈ body → a ≠ "="%char ∧ byte_of a ≠ 10%N ∧ byte_of a ≠ 13%N) as Hbody.
  { intros a Ha. unfold body, base64_EncodeToString in Ha. rewrite String.list_ascii_of_string_of_list_ascii in Ha.
    apply list_elem_of_fmap in Ha as (n & -> & Hn). apply base64_char_plain. pose proof (sextets_bound (String.list_ascii_of_string s)) as Hb.
    rewrite Forall_forall in Hb. by apply Hb. }
  rewrite (filter_all _ (body ++ _)).
  2: { intros a [Ha|Ha]%elem_of_app; [naive_solver|]. by apply elem_of_replicate in Ha as [-> _]. }
  rewrite filter_app, (filter_all _ body) by (intros a Ha; by apply Hbody).
  assert (filter (λ a, a ≠ "="%char) (replicate k "="%char) = []) as ->.
  { clear. induction k as [|k IH]; [done|]. cbn [replicate]. by rewrite filter_cons, decide_False by (by intros []). }
  rewrite app_nil_r, length_app, length_replicate. replace (length body + k - length body)%nat with k by lia.
  assert (length body = length (sextets (String.list_ascii_of_string s))) as ->.
  { unfold body, base64_EncodeToString. by rewrite String.list_ascii_of_string_of_list_ascii, length_fmap. }
  rewrite !bool_decide_true by done. cbn [andb]. unfold body. rewrite String.string_of_list_ascii_of_string. apply base64_Decode_Encode.
Qed.


(** Encoded texts have no white space. *)
Definition graphic (a : ascii) : Prop := (33 ≤ byte_of a ≤ 126)%N.
Lemma base64_char_graphic al n : (n < 64)%N → graphic (base64_char al n).
Proof.
  intros Hn. unfold graphic, base64_char. destruct al; cbn [last_two fst snd]; repeat case_bool_decide; subst; try (vm_compute; split; discriminate);
    rewrite N_ascii_embedding by lia; lia.
Qed.
Lemma padded_Encode_graphic al s : Forall graphic (chars_of (padded_Encode al s)).
Proof.
  unfold padded_Encode, chars_of, base64_EncodeToString. rewrite list_ascii_app, padding_chars, String.list_ascii_of_string_of_list_ascii.
  apply Forall_app. split; [|apply Forall_replicate; by vm_compute].
  apply Forall_fmap. eapply Forall_impl; [apply sextets_bound|]. intros n. apply base64_char_graphic.
Qed.
Lemma graphic_not_space a :
  graphic a → ascii_space a = false ∧ ∀ b c, space2 a b = false ∧ space2 b a = false ∧ space3 a b c = false ∧ space3 c b a = false.
Proof.
  unfold graphic. intros Ha. split.
  - unfold ascii_space, within_. repeat case_bool_decide; (done || lia).
  - intros b c. unfold space2, space3, within_. split_and!; repeat case_bool_decide; naive_solver lia.
Qed.
Lemma trim_left_graphic l : Forall graphic l → trim_bytes_left l = l.
Proof.
  destruct l as [|a l]; [done|]. intros [Ha _]%Forall_cons. apply graphic_not_space in Ha as [Hs H23]. cbn [trim_bytes_left]. rewrite Hs.
  destruct l as [|b l]; [done|]. destruct (H23 b b) as (-> & _). destruct l as [|c l]; [done|]. by destruct (H23 b c) as (_ & _ & -> & _).
Qed.
Lemma trim_right_graphic l : Forall graphic l → trim_bytes_right l = l.
Proof.
  destruct l as [|a l]; [done|]. intros [Ha _]%Forall_cons. apply graphic_not_space in Ha as [Hs H23]. cbn [trim_bytes_right]. rewrite Hs.
  destruct l as [|b l]; [done|]. destruct (H23 b b) as (_ & -> & _). destruct l as [|c l]; [done|]. by destruct (H23 b c) as (_ & _ & _ & ->).
Qed.
Lemma TrimSpace_graphic s : Forall graphic (chars_of s) → TrimSpace s = s.
Proof.
  intros Hs. unfold TrimSpace. rewrite trim_left_graphic by done. rewrite trim_right_graphic by (by apply Forall_reverse).
  by rewrite reverse_involutive, String.string_of_list_ascii_of_string.
Qed.
Lemma padded_Encode_nonempty al s : s ≠ "" → padded_Encode al s ≠ "".
Proof. intros Hs E. pose proof (padded_Decode_Encode al s) as Hd. rewrite E in Hd. destruct al; vm_compute in Hd; congruence. Qed.

(** ** Documents up to empty texts *)

Definition filled (x : xml) : bool := match x with CharData s => negb (bool_decide (s = "")) | Elem _ _ _ => true end.
Fixpoint normal (x : xml) : xml :=
  match x with
  | Elem t a ch => Elem t a (filter (λ c, filled c = true) (normal <$> ch))
  | CharData s => CharData s
  end.
Lemma is_named_normal name x : is_named name (normal x) = is_named name x.
Proof. by destruct x. Qed.
Lemma filter_filled_named name (l : list xml) :
  filter (λ c, is_named name c = true) (filter (λ c, filled c = true) l) = filter (λ c, is_named name c = true) l.
Proof.
  rewrite list_filter_filter. apply list_filter_iff. intros x. split; [tauto|]. intros Hn. split; [done|]. by destruct x.
Qed.
Lemma children_normal name x : children_named name (normal x) = normal <$> children_named name x.
Proof.
  destruct x as [t a ch|s]; [|done]. cbn [normal children_named]. rewrite filter_filled_named.
  induction ch as [|c ch IH]; [done|]. cbn [fmap list_fmap]. rewrite !filter_cons, is_named_normal. case_decide; cbn; by rewrite IH.
Qed.
Lemma attr_normal name x : attr name (normal x) = attr name x.
Proof. by destruct x. Qed.
Lemma text_normal x : text_of (normal x) = text_of x.
Proof.
  destruct x as [t a ch|s]; [|done]. cbn [normal text_of].
  set (texts := omap _). assert (∀ s l, strings_Join "" (s :: l) = s +:+ strings_Join "" l) as Hcons.
  { intros s [|y l]; [|done]. cbn [strings_Join]. by rewrite string_app_empty. }
  induction ch as [|c ch IH]; [done|]. cbn [fmap list_fmap]. rewrite filter_cons. destruct c as [t' a' ch'|s]; cbn [normal filled].
  - rewrite decide_True by done. exact IH.
  - destruct (decide (s = "")) as [->|Hs].
    + rewrite bool_decide_true, decide_False by done. rewrite IH. change (texts (CharData "" :: ch)) with ("" :: texts ch). by rewrite Hcons.
    + rewrite bool_decide_false, decide_True by done. change (texts (CharData s :: ?l)) with (s :: texts l). by rewrite !Hcons, IH.
Qed.
Lemma path_normal names x : path names (normal x) = normal <$> path names x.
Proof.
  unfold path. change [normal x] with (normal <$> [x]). generalize [x]. induction names as [|name names IH]; intros xs; [done|].
  cbn [foldl]. rewrite <-IH. f_equal. induction xs as [|y ys IHy]; [done|]. cbn. by rewrite children_normal, fmap_app, <-IHy.
Qed.
Lemma last_text_normal xs : last_text (normal <$> xs) = last_text xs.
Proof. unfold last_text. rewrite <-list_fmap_compose. do 2 f_equal. apply list_fmap_ext. intros ? x _. apply text_normal. Qed.
Lemma last_attr_normal name xs : last_attr name (normal <$> xs) = last_attr name xs.
Proof. unfold last_attr. do 2 f_equal. induction xs as [|x xs IH]; [done|]. cbn. by rewrite attr_normal, IH. Qed.
Lemma last_attr_normal_one name x : last_attr name [normal x] = last_attr name [x].
Proof. exact (last_attr_normal name [x]). Qed.
Lemma assertion_of_normal x : assertion_of (normal x) = assertion_of x.
Proof.
  unfold assertion_of. rewrite !path_normal, !last_text_normal, !last_attr_normal, last_attr_normal_one. f_equal.
  - rewrite children_normal, <-list_fmap_compose. apply list_fmap_ext. intros ? stmt _. cbn. rewrite children_normal, <-list_fmap_compose.
    apply list_fmap_ext. intros ? at_ _. cbn. rewrite last_attr_normal_one, children_normal, <-list_fmap_compose. f_equal.
    apply list_fmap_ext. intros ? v _. apply text_normal.
  - rewrite children_normal, <-list_fmap_compose. apply list_fmap_ext. intros ? stmt _. unfold compose. by rewrite path_normal, last_text_normal.
Qed.

(** ** Verified responses *)

Definition verified_attribute (a : AttributeXML) : VerifiedAttribute := {| va_Name := at_Name a; va_FriendlyName := ""; va_Values := at_Values a |}.
Definition verified_assertion (a : AssertionXML) : VerifiedAssertion :=
  {| va_Statements := (λ stmt : list AttributeXML, verified_attribute <$> stmt : list VerifiedAttribute) <$> AttributeStatements a; va_NameID := if bool_decide (NameID a = "") then None else Some (NameID a) |}.
Lemma verified_concat (ls : list (list AttributeXML)) :
  concat ((λ stmt : list AttributeXML, verified_attribute <$> stmt : list VerifiedAttribute) <$> ls) = verified_attribute <$> concat ls.
Proof. induction ls as [|l ls IH]; [done|]. cbn [fmap list_fmap concat]. by rewrite fmap_app, IH. Qed.
Lemma add_verified_attributes (l : list AttributeXML) m :
  Forall (λ a, at_Name a ≠ "") l →
  foldl add_verified m (verified_attribute <$> l) = foldl (λ m (a : AttributeXML), match at_Values a with v :: _ => <[at_Name a := v]> m | [] => m end) m l.
Proof.
  intros Hl. revert m. induction Hl as [|a l Ha Hl IH]; intros m; [done|]. cbn [fmap list_fmap foldl]. rewrite IH. f_equal.
  unfold add_verified. cbn [verified_attribute va_Values va_Name va_FriendlyName]. destruct (at_Values a); [done|].
  by rewrite (bool_decide_true (at_Name a ≠ "")).
Qed.

Section verified.
Context {L : SAMLLib}.

(** For a response of one assertion whose attributes have names and no friendly
    names, verification yields the attributes that are read without it. *)
Theorem verified_as_unverified ParseResponse cfg sp doc bytes a :
  buildVerifyingSP cfg = Ok sp → padded_Decode StdAlphabet doc = Some bytes → (ReadXML bytes ≫= response_of) = Some [a] →
  Forall (λ x, at_Name x ≠ "") (concat (AttributeStatements a)) → ParseResponse sp doc = Some (Some (verified_assertion a)) →
  VerifyResponse ParseResponse doc cfg = ParseResponseUnverified doc (AttributeMapping cfg).
Proof.
  intros Hsp Hdec Hread Hnames Hparse. unfold VerifyResponse, ParseResponseUnverified. rewrite Hsp, Hparse, Hdec, Hread. f_equal.
  unfold mapVerifiedAttributes, raw_attributes. cbn [fmap list_fmap concat verified_assertion va_Statements va_NameID]. rewrite app_nil_r.
  rewrite verified_concat, add_verified_attributes by done. set (result := omap _ _). destruct (result !! "email"); [done|].
  rewrite filter_cons. cbn [mbind option_bind verified_assertion va_NameID]. destruct (decide (NameID a = "")) as [E|E].
  - rewrite bool_decide_true, decide_False by (done || tauto). done.
  - rewrite bool_decide_false, decide_True by done. done.
Qed.
End verified.

(** ** What an issued assertion holds *)

Section issued.
Context {L : SAMLLib}.

Definition attribute_of (a : string * list string) : AttributeXML := {| at_Name := a.1; at_Values := a.2 |}.
(** What is read of the attribute that is written. *)
Definition read_attribute (a : xml) : AttributeXML := {| at_Name := last_attr "Name" [a]; at_Values := text_of <$> children_named "AttributeValue" a |}.
Lemma all_children_named name t attrs ch : Forall (λ c, is_named name c = true) ch → children_named name (Elem t attrs ch) = ch.
Proof. intros Hch. apply filter_all. by rewrite <-Forall_forall. Qed.
Lemma read_attribute_written a attrs (extra : list (string * string)) :
  last_attr "Name" [Elem "saml:Attribute" attrs []] = a.1 →
  read_attribute (Elem "saml:Attribute" attrs ((λ v, leaf "saml:AttributeValue" extra v) <$> a.2)) = attribute_of a.
Proof.
  intros Hname. unfold read_attribute, attribute_of. f_equal; [exact Hname|].
  rewrite all_children_named by (apply Forall_fmap, Forall_true; by intros).
  rewrite <-list_fmap_compose. rewrite <-(list_fmap_id a.2) at 2. by apply list_fmap_ext.
Qed.
Lemma assertion_of_built ids i :
  assertion_of (buildAssertion ids i) =
  {| IssueInstant := Format_RFC3339 (issueInstant i); NameID := nameID i; NotOnOrAfter := Format_RFC3339 (notOnOrAfter i);
     AttributeStatements := if bool_decide (attributes i = []) then [] else [attribute_of <$> attributes i];
     ClassRefs := [authnContextClassRef i] |}.
Proof.
  assert (∀ name stmt, name ≠ "AttributeStatement" → filter (λ c, is_named name c = true)
    (if bool_decide (attributes i = []) then [] else [Elem "saml:AttributeStatement" [] stmt]) = []) as Hother.
  { intros name stmt Hn. destruct (bool_decide _); [done|]. rewrite filter_cons, decide_False; [done|].
    cbn [is_named]. change (local_name "saml:AttributeStatement") with "AttributeStatement". intros E%bool_decide_eq_true. by apply Hn. }
  unfold buildAssertion, assertion_of. cbv zeta.
  unfold path. cbn [foldl mbind list_bind children_named]. rewrite !app_nil_r. rewrite !filter_app, (Hother "Subject"), (Hother "Conditions"), (Hother "AuthnStatement"), !app_nil_r by done.
  f_equal.
  - change (filter _ [_; _; _; _]) with (@nil xml).
    case_bool_decide; [done|]. rewrite app_nil_l, filter_cons, decide_True by (by vm_compute). cbn [fmap list_fmap filter]. f_equal.
    rewrite all_children_named by (apply Forall_fmap, Forall_true; by intros). change (λ a : xml, _) with read_attribute.
    rewrite <-list_fmap_compose. apply list_fmap_ext. intros ? a _. cbn [compose]. apply read_attribute_written. by vm_compute.
Qed.

(** A signature is put after the children of what it signs. *)
Definition enveloped (doc signed : xml) : Prop :=
  ∃ t attrs ch sig, doc = Elem t attrs ch ∧ signed = Elem t attrs (ch ++ [sig]) ∧ is_named "Signature" sig = true.
Lemma not_named name name' x : is_named name x = true → name ≠ name' → is_named name' x = false.
Proof. destruct x; [|done]. cbn. rewrite bool_decide_eq_true, bool_decide_eq_false. congruence. Qed.
Lemma children_enveloped name doc signed :
  enveloped doc signed → name ≠ "Signature" → children_named name signed = children_named name doc.
Proof.
  intros (t & attrs & ch & sig & -> & -> & Hsig) Hn. cbn [children_named]. rewrite filter_app, (filter_cons _ sig), decide_False, filter_nil, app_nil_r; [done|].
  by rewrite (not_named _ _ _ Hsig) by done.
Qed.
Lemma response_of_assertions x :
  is_named "Response" x = true → response_of x = Some (assertion_of <$> children_named "Assertion" x).
Proof. destruct x as [t attrs ch|]; [|done]. cbn. by intros ->. Qed.

(** The documents of an issue are written and read as they are, but for empty texts. *)
Definition reads_back (x : xml) : Prop :=
  ReadXML (WriteToString x) = Some (normal x) ∧ ReadXML (TrimSpace (WriteToString x)) = Some (normal x).
Lemma issued_reads e ids i inp sp signed :
  AllowedSPs (cfg i) !! in_SPEntityID inp = Some sp →
  let a := assertion_input e i sp inp in
  let assertion := buildAssertion ids a in
  let resp := buildResponse ids (EntityID (cfg i)) (sp_ACSURL sp) (issueInstant a) (InResponseTo inp) (TrimSpace (WriteToString assertion)) in
  reads_back assertion → reads_back resp →
  (∀ doc, SignEnveloped (private i) (certificate i) (normal resp) = Some doc → enveloped (normal resp) doc ∧ reads_back doc) →
  IssueAssertion e ids i inp = Ok signed → (ReadXML signed ≫= response_of) = Some [assertion_of assertion].
Proof.
  intros Hsp a assertion resp [_ Hra] [_ Hrr] Hsign. unfold IssueAssertion. rewrite Hsp. case_bool_decide; [done|].
  cbv zeta. fold a. fold assertion. fold resp. unfold signResponse. rewrite Hrr.
  destruct (SignEnveloped _ _ _) as [doc|]; [|done]. intros [= <-]. destruct (Hsign doc eq_refl) as [Henv [-> _]]. cbn [mbind option_bind].
  assert (is_named "Response" (normal doc) = true) as Hresp.
  { destruct Henv as (t & attrs & ch & sig & E & -> & _). unfold resp, buildResponse in E. cbn [normal] in E. injection E as <- _ _. by vm_compute. }
  rewrite response_of_assertions by done. rewrite children_normal, (children_enveloped _ _ _ Henv), children_normal by done.
  assert (children_named "Assertion" resp = [normal assertion]) as ->.
  { unfold resp, buildResponse. rewrite Hra. cbn [children_named]. rewrite filter_app. change (filter _ [_; _]) with (@nil xml).
    rewrite app_nil_l, filter_cons, is_named_normal, decide_True by (by vm_compute). done. }
  cbn [fmap list_fmap]. by rewrite !assertion_of_normal.
Qed.
End issued.

(** ** Examples *)

Section examples.
(** A library that reads one document, and takes every response for verified. *)
Definition ex_document : xml := Elem "samlp:Response" [] [Elem "saml:Assertion" [] [
  Elem "saml:Subject" [] [leaf "saml:NameID" [] "ada@example.org"];
  Elem "saml:AttributeStatement" [] [Elem "saml:Attribute" [("Name", "name")] [leaf "saml:AttributeValue" [] "Ada"]]]].
Definition one_document : SAMLLib := {|
  rsa_PrivateKey := unit; Certificate := string; Raw := id; ReadXML := λ s, if bool_decide (s = "doc") then Some ex_document else None;
  WriteToString := λ _, "doc"; SignEnveloped := λ _ _ x, Some x; Format_RFC3339 := λ _, "t"; Parse_RFC3339 := λ _, None;
  url_ok := λ _, true; ParseCertPEM := Some |}.
Definition ex_config : Config := {|
  IDPSSOUrl := "https://idp/sso"; IDPEntityID := "idp"; IDPCert := "cert"; SPEntityID := "sp"; ACSURL := "https://sp/acs"; AttributeMapping := ∅ |}.
Definition ex_sp : ServiceProvider := match buildVerifyingSP (L := one_document) ex_config with Ok sp => sp | Err _ =>
  {| spd_EntityID := ""; spd_MetadataURL := ""; spd_AcsURL := ""; spd_IDPEntityID := ""; spd_Certificates := []; AllowIDPInitiated := false |} end.
Lemma verified_as_unverified_witness :
  VerifyResponse (L := one_document) (λ _ _, Some (Some (verified_assertion (assertion_of (List.hd ex_document (children_named "Assertion" ex_document))))))
    (padded_Encode StdAlphabet "doc") ex_config =
  ParseResponseUnverified (L := one_document) (padded_Encode StdAlphabet "doc") ∅.
Proof.
  apply (verified_as_unverified (L := one_document) _ ex_config ex_sp (padded_Encode StdAlphabet "doc") "doc"
    (assertion_of (List.hd ex_document (children_named "Assertion" ex_document)))); [by vm_compute..| |done].
  by apply (bool_decide_unpack _); vm_compute.
Defined.
End examples.
