(* ===== verification/Federation.v ===== *)
(** * Federation (internal/aoid/federation)

    Outbound: the registry of tenants, the manager of their identity providers and the
    SSO endpoint.  Inbound: the registry of external identity providers, state tokens,
    the start and the two callbacks of a login, provisioning and the tokens of the
    bridge.  The registries are the in-memory ones; users are those of any [AuthStore].
    Each request is one step. *)

From S2P Require Import Prelude Encoding Json AuditLog Password Auth Saml.

(** ** federation.go and external_idp.go *)

Inductive fed_error : Type :=
  | ErrTenantNotFound
  | ErrTenantInactive
  | ErrExternalIdPNotFound
  | ErrDuplicateTenant
  | ErrDuplicateExternalIdP
  | ErrInvalidConfig
  | ErrJITDisabled
  | ErrJITDomainNotAllowed
  | ErrJITMFARequired
  | ErrUnsupportedFlow
  | ErrFederationUserNotFound
  (* the errors of the packages it calls *)
  | AuthError (err : aerr)
  | OtherError (msg : string).
#[export] Instance fed_error_eq_dec : EqDecision fed_error.
Proof. solve_decision. Defined.
Abbreviation ferr := (goerr fed_error) (only parsing).
(** [errInvalid]. *)
Definition errInvalid (msg : string) : ferr := Wrapf msg (Sentinel ErrInvalidConfig).

Record SPEntry : Type := { f_EntityID : string; f_ACSURL : string; f_Audience : string; f_Label : string; f_SigningCertificatePEM : string; f_CreatedAt : time }.
Record TenantIdPConfig : Type := {
  t_TenantID : uuid; t_DisplayName : string; t_EntityID : string; t_SSOURL : string; t_MetadataURL : string;
  t_AllowedSPs : gmap string SPEntry; AttributeTemplate : gmap string (list string); t_AssertionLifetime : duration;
  t_IsActive : bool; t_CreatedAt : time; t_UpdatedAt : time
}.
Definition Validate_tenant (c : TenantIdPConfig) : option ferr :=
  if bool_decide (t_TenantID c = uuid_Nil) then Some (errInvalid "TenantID is required")
  else if bool_decide (t_EntityID c = "") then Some (errInvalid "EntityID is required")
  else if bool_decide (t_SSOURL c = "") then Some (errInvalid "SSOURL is required") else None.
Definition Validate_sp (s : SPEntry) : option ferr :=
  if bool_decide (f_EntityID s = "") then Some (errInvalid "SPRegistration.EntityID is required")
  else if bool_decide (f_ACSURL s = "") then Some (errInvalid "SPRegistration.ACSURL is required") else None.

Definition ProviderSAML : string := "saml".
Definition ProviderOIDC : string := "oidc".
Record JITPolicy : Type := { Enabled : bool; DefaultRole : string; AllowedDomains : list string; RequireMFA : bool }.
Record TenantExternalIdP : Type := {
  x_ID : uuid; x_TenantID : uuid; x_Provider : string; x_DisplayName : string; x_EntityID : string; x_MetadataURL : string;
  x_ClientID : string; x_ClientSecret : string; x_SigningCertificatePEM : string; x_AttributeMapping : gmap string string;
  x_JITPolicy : JITPolicy; x_IsActive : bool; x_CreatedAt : time; x_UpdatedAt : time
}.
Definition Validate_external (c : TenantExternalIdP) : option ferr :=
  if bool_decide (x_ID c = uuid_Nil) then Some (errInvalid "ID is required")
  else if bool_decide (x_TenantID c = uuid_Nil) then Some (errInvalid "TenantID is required")
  else if bool_decide (x_Provider c = ProviderSAML) then
    if bool_decide (x_EntityID c = "") then Some (errInvalid "SAML EntityID is required")
    else if bool_decide (x_MetadataURL c = "") then Some (errInvalid "SAML MetadataURL is required") else None
  else if bool_decide (x_Provider c = ProviderOIDC) then
    if bool_decide (x_EntityID c = "") then Some (errInvalid "OIDC EntityID (issuer URL) is required")
    else if bool_decide (x_ClientID c = "") then Some (errInvalid "OIDC ClientID is required") else None
  else Some (errInvalid "Provider must be saml or oidc").
Record Assertion : Type := {
  a_Subject : string; a_Email : string; a_DisplayName : string; a_Attributes : gmap string (list string); a_AuthnContext : string;
  a_IssuedAt : time; a_ExpiresAt : time
}.

(** [strings.LastIndexByte(s, c)], as what follows the last one. *)
Definition after_last (ch : ascii) (s : string) : option string :=
  match split_on ch s with
  | [] | [_] => None
  | parts => last parts
  end.

Section federation.
Context {U : UuidText} {C : UnicodeCase} {H : Sha256} {K : KeyDerivation} {J : JWTLib} {L : SAMLLib}.
Context (EqualFold : string → string → bool) (ParseAddress : string → bool) (hmac_hex : string → string → string).
(** [url.Parse], a parameter added to the query, and [String]; [json.Unmarshal] of the claims of a state. *)
Context (with_query : string → list (string * string) → option string).

Definition Domain (a : Assertion) : string :=
  match after_last "@" (a_Email a) with Some d => ToLower d | None => "" end.
Definition mfa_markers : list string :=
  ["multifactor"; "multi-factor"; "mfa"; "smartcard"; "hardwaretoken"; "timesynctoken"; "mobilecontract"; "mobiletwofactorunregistered"; "x509"; "webauthn"].
Definition HasMFA (a : Assertion) : bool :=
  let ctx := ToLower (a_AuthnContext a) in existsb (λ m, strings_Contains ctx m) mfa_markers.
(** [OIDCExchanger]. *)
Record OIDCExchanger : Type := {
  BuildAuthURL : TenantExternalIdP → string → string → outcome ferr string;
  ExchangeCode : TenantExternalIdP → string → string → outcome ferr Assertion;
}.
(** [drawn] is the identifier of the request. *)
Definition AuthorizationURL (e : Env) (drawn : string) (x : TenantExternalIdP) (ex : option OIDCExchanger) (redirectURI state : string) : outcome ferr string :=
  if bool_decide (x_Provider x = ProviderSAML) then
    let cfg := {| IDPSSOUrl := if bool_decide (x_MetadataURL x ≠ "") then x_MetadataURL x else x_EntityID x; IDPEntityID := x_EntityID x;
                  IDPCert := ""; SPEntityID := redirectURI; ACSURL := redirectURI; AttributeMapping := ∅ |} in
    match with_query (BuildAuthnRequestRedirectURL e drawn cfg) [("RelayState", state)] with
    | None => Err (Wrapf "federation: parse SAML URL" (Sentinel (OtherError "url")))
    | Some u => Ok u
    end
  else if bool_decide (x_Provider x = ProviderOIDC) then
    match ex with None => Err (Sentinel ErrUnsupportedFlow) | Some ex => BuildAuthURL ex x redirectURI state end
  else Err (Sentinel ErrUnsupportedFlow).
Definition ExchangeAuthCode (x : TenantExternalIdP) (ex : option OIDCExchanger) (code redirectURI : string) : outcome ferr Assertion :=
  if negb (bool_decide (x_Provider x = ProviderOIDC)) then Err (Sentinel ErrUnsupportedFlow)
  else match ex with None => Err (Sentinel ErrUnsupportedFlow) | Some ex => ExchangeCode ex x code redirectURI end.
Definition EnforceJITPolicy (p : JITPolicy) (a : Assertion) : option ferr :=
  if RequireMFA p && negb (HasMFA a) then Some (Sentinel ErrJITMFARequired)
  else if bool_decide (AllowedDomains p ≠ []) && negb (existsb (λ d, EqualFold d (Domain a)) (AllowedDomains p))
  then Some (Sentinel ErrJITDomainNotAllowed) else None.

(** ** oidc.go: the exchanger that is wired when there is no real one *)

Definition sanitize (s : string) : string :=
  let l := filter (λ a, within_ 97 122 (byte_of a) = true ∨ within_ 65 90 (byte_of a) = true ∨ within_ 48 57 (byte_of a) = true) (chars_of s) in
  if bool_decide (l = []) then "anon" else String.string_of_list_ascii (take 16 l).
Definition StubOIDCExchanger (fixed : option Assertion) (subject : string) : OIDCExchanger := {|
  BuildAuthURL := λ x redirectURI state,
    match with_query (TrimRight (x_EntityID x) "/" +:+ "/authorize")
            [("client_id", x_ClientID x); ("redirect_uri", redirectURI); ("state", state); ("response_type", "code"); ("scope", "openid profile email")] with
    | None => Err (Wrapf "federation/stub: parse issuer" (Sentinel (OtherError "url")))
    | Some u => Ok u
    end;
  ExchangeCode := λ _ code _,
    match fixed with
    | Some a => Ok a
    | None =>
        if bool_decide (code = "") then Err (Errorf "federation/stub: empty code")
        else
          let email := "user-" +:+ sanitize code +:+ "@stub.local" in
          Ok {| a_Subject := subject; a_Email := email; a_DisplayName := "Stub User"; a_Attributes := {["email" := [email]]};
                a_AuthnContext := "urn:oasis:names:tc:SAML:2.0:ac:classes:PasswordProtectedTransport"; a_IssuedAt := 0; a_ExpiresAt := 0 |}
    end |}.

(** ** saml_response.go *)

Definition parseSAMLTime (raw : string) : time := if bool_decide (raw = "") then 0%Z else default 0%Z (Parse_RFC3339 raw).
(** The values of every attribute of an assertion that has some. *)
Definition multi_attributes (a : AssertionXML) : gmap string (list string) :=
  foldl (λ m (at_ : AttributeXML), if bool_decide (at_Values at_ = []) then m else <[at_Name at_ := at_Values at_]> m) ∅ (concat (AttributeStatements a)).
Definition display_name (flat : gmap string string) : string :=
  let dn := TrimSpace (default "" (flat !! "display_name")) in
  if bool_decide (dn = "") then TrimSpace (default "" (flat !! "first_name") +:+ " " +:+ default "" (flat !! "last_name")) else dn.
Definition ValidateSAMLResponse (x : TenantExternalIdP) (samlResponse : string) : outcome ferr Assertion :=
  if negb (bool_decide (x_Provider x = ProviderSAML)) then Err (Sentinel ErrUnsupportedFlow)
  else if bool_decide (TrimSpace samlResponse = "") then Err (Errorf "federation: empty SAMLResponse")
  else
    match padded_Decode StdAlphabet samlResponse with
    | None => Err (Errorf "federation: decode SAMLResponse base64")
    | Some b =>
        match ReadXML b ≫= response_of with
        | None => Err (Errorf "federation: parse SAMLResponse XML")
        | Some [] => Err (Errorf "federation: SAMLResponse contains no assertions")
        | Some (first :: _) =>
            match ParseResponseUnverified samlResponse (x_AttributeMapping x) with
            | Err _ => Err (Errorf "federation: extract attributes")
            | Ok flat =>
                let email := ToLower (TrimSpace (default "" (flat !! "email"))) in
                Ok {| a_Subject := if bool_decide (NameID first = "") then email else NameID first;
                      a_Email := email; a_DisplayName := display_name flat; a_Attributes := multi_attributes first;
                      a_AuthnContext := default "" (head (filter (λ c, c ≠ "") (ClassRefs first)));
                      a_IssuedAt := parseSAMLTime (IssueInstant first); a_ExpiresAt := parseSAMLTime (NotOnOrAfter first) |}
            end
        end
    end.

(** ** The state of the server *)

Context {St : Type} {S : AuthStore St}.
Record World : Type := {
  tenants : gmap uuid TenantIdPConfig;
  externals : gmap uuid TenantExternalIdP;
  cache : gmap uuid IdentityProvider;
  users : St;
  audit : list Event;
}.
Definition set_tenants (m : gmap uuid TenantIdPConfig) (w : World) : World :=
  {| tenants := m; externals := externals w; cache := cache w; users := users w; audit := audit w |}.
Definition set_externals (m : gmap uuid TenantExternalIdP) (w : World) : World :=
  {| tenants := tenants w; externals := m; cache := cache w; users := users w; audit := audit w |}.
Definition set_cache (m : gmap uuid IdentityProvider) (w : World) : World :=
  {| tenants := tenants w; externals := externals w; cache := m; users := users w; audit := audit w |}.
Definition set_users (s : St) (w : World) : World :=
  {| tenants := tenants w; externals := externals w; cache := cache w; users := s; audit := audit w |}.
Definition log_event (ev : Event) (w : World) : World :=
  {| tenants := tenants w; externals := externals w; cache := cache w; users := users w; audit := audit w ++ [ev] |}.
(** A call of the auth service. *)
Definition auth_call {A} (m : prog St aerr A) : prog World ferr A := λ w,
  match m (users w) with
  | (Ok a, s) => (Ok a, set_users s w)
  | (Err err, s) => (Err (Sentinel (AuthError err)), set_users s w)
  end.

(** ** registry.go and sp_registry.go *)

Definition stamped_tenant (created updated : time) (c : TenantIdPConfig) : TenantIdPConfig :=
  {| t_TenantID := t_TenantID c; t_DisplayName := t_DisplayName c; t_EntityID := t_EntityID c; t_SSOURL := t_SSOURL c; t_MetadataURL := t_MetadataURL c;
     t_AllowedSPs := t_AllowedSPs c; AttributeTemplate := AttributeTemplate c; t_AssertionLifetime := t_AssertionLifetime c;
     t_IsActive := t_IsActive c; t_CreatedAt := created; t_UpdatedAt := updated |}.
Definition Register (e : Env) (c : TenantIdPConfig) : prog World ferr unit := λ w,
  match Validate_tenant c with
  | Some err => (Err err, w)
  | None =>
      match tenants w !! t_TenantID c with
      | Some _ => (Err (Sentinel ErrDuplicateTenant), w)
      | None =>
          let c := stamped_tenant (if IsZero (t_CreatedAt c) then now e else t_CreatedAt c) (now e) c in
          (Ok tt, set_tenants (<[t_TenantID c := c]> (tenants w)) w)
      end
  end.
Definition Registry_Get (i : uuid) : prog World ferr TenantIdPConfig := λ w,
  match tenants w !! i with None => (Err (Sentinel ErrTenantNotFound), w) | Some c => (Ok c, w) end.
Definition Update (e : Env) (c : TenantIdPConfig) : prog World ferr unit := λ w,
  match Validate_tenant c with
  | Some err => (Err err, w)
  | None =>
      match tenants w !! t_TenantID c with
      | None => (Err (Sentinel ErrTenantNotFound), w)
      | Some existing => (Ok tt, set_tenants (<[t_TenantID c := stamped_tenant (t_CreatedAt existing) (now e) c]> (tenants w)) w)
      end
  end.
Definition Delete (i : uuid) (w : World) : World := set_tenants (delete i (tenants w)) w.
Definition List_ (e : Env) (activeOnly : bool) (w : World) : list TenantIdPConfig :=
  sort_slice (λ a b, string_lt (uuid_String (t_TenantID a)) (uuid_String (t_TenantID b)))
    (filter (λ c, activeOnly = true → t_IsActive c = true) (range_values (R := order e) (tenants w))).

Definition stamped_external (created updated : time) (c : TenantExternalIdP) : TenantExternalIdP :=
  {| x_ID := x_ID c; x_TenantID := x_TenantID c; x_Provider := x_Provider c; x_DisplayName := x_DisplayName c; x_EntityID := x_EntityID c;
     x_MetadataURL := x_MetadataURL c; x_ClientID := x_ClientID c; x_ClientSecret := x_ClientSecret c;
     x_SigningCertificatePEM := x_SigningCertificatePEM c; x_AttributeMapping := x_AttributeMapping c; x_JITPolicy := x_JITPolicy c;
     x_IsActive := x_IsActive c; x_CreatedAt := created; x_UpdatedAt := updated |}.
Definition sp_Register (e : Env) (c : TenantExternalIdP) : prog World ferr unit := λ w,
  match Validate_external c with
  | Some err => (Err err, w)
  | None =>
      match externals w !! x_ID c with
      | Some _ => (Err (Sentinel ErrDuplicateExternalIdP), w)
      | None =>
          let c := stamped_external (if IsZero (x_CreatedAt c) then now e else x_CreatedAt c) (now e) c in
          (Ok tt, set_externals (<[x_ID c := c]> (externals w)) w)
      end
  end.
Definition sp_Get (i : uuid) : prog World ferr TenantExternalIdP := λ w,
  match externals w !! i with None => (Err (Sentinel ErrExternalIdPNotFound), w) | Some c => (Ok c, w) end.
Definition sp_Update (e : Env) (c : TenantExternalIdP) : prog World ferr unit := λ w,
  match Validate_external c with
  | Some err => (Err err, w)
  | None =>
      match externals w !! x_ID c with
      | None => (Err (Sentinel ErrExternalIdPNotFound), w)
      | Some existing => (Ok tt, set_externals (<[x_ID c := stamped_external (x_CreatedAt existing) (now e) c]> (externals w)) w)
      end
  end.
Definition sp_Delete (i : uuid) (w : World) : World := set_externals (delete i (externals w)) w.
Definition ListByTenant (e : Env) (tenant : uuid) (activeOnly : bool) (w : World) : list TenantExternalIdP :=
  sort_slice (λ a b, string_lt (uuid_String (x_ID a)) (uuid_String (x_ID b)))
    (filter (λ c, x_TenantID c = tenant ∧ (activeOnly = true → x_IsActive c = true)) (range_values (R := order e) (externals w))).

(** ** idp.go *)

Record SharedKeyResolver : Type := { Current : option SigningKey; Previous : option SigningKey }.
Definition Resolve (r : SharedKeyResolver) : outcome ferr (option SigningKey * option SigningKey) :=
  match Current r with
  | None => Err (Errorf "federation: SharedKeyResolver has no Current key")
  | Some k => Ok (Some k, Previous r)
  end.
Definition convertAllowedSPs (m : gmap string SPEntry) : gmap string SPRegistration :=
  (λ v, {| sp_EntityID := f_EntityID v; sp_ACSURL := f_ACSURL v;
           SigningCertificate := if bool_decide (f_SigningCertificatePEM v ≠ "") then ParseCertPEM (f_SigningCertificatePEM v) else None |}) <$> m.
(** What [Get] makes of a configuration it has read. *)
Definition build_provider (r : SharedKeyResolver) (c : TenantIdPConfig) : outcome ferr IdentityProvider :=
  if negb (t_IsActive c) then Err (Sentinel ErrTenantInactive)
  else
    match Resolve r with
    | Err err => Err (Wrapf "federation: resolve key" err)
    | Ok (current, previous) =>
        match New {| EntityID := t_EntityID c; SSOURL := t_SSOURL c; CurrentKey := current; PreviousKey := previous;
                     AssertionLifetime := t_AssertionLifetime c; AllowedSPs := convertAllowedSPs (t_AllowedSPs c) |} with
        | Err _ => Err (Wrapf "federation: construct IdP" (Sentinel (OtherError "idp")))
        | Ok p => Ok p
        end
    end.
(** [Get] reads, and stores what it made in a step of its own, unless another call has. *)
Definition Get_store (i : uuid) (p : IdentityProvider) : prog World ferr IdentityProvider := λ w,
  match cache w !! i with
  | Some cached => (Ok cached, w)
  | None => (Ok p, set_cache (<[i := p]> (cache w)) w)
  end.
Definition Get (r : SharedKeyResolver) (i : uuid) : prog World ferr IdentityProvider := λ w,
  match cache w !! i with
  | Some cached => (Ok cached, w)
  | None => (c ← Registry_Get i; p ← of_outcome (build_provider r c); Get_store i p) w
  end.
Definition Invalidate (i : uuid) (w : World) : World := set_cache (delete i (cache w)) w.
Definition InvalidateAll (w : World) : World := set_cache ∅ w.
Definition saml_call {A} (o : outcome serr A) : prog World ferr A :=
  match o with Ok a => mret a | Err _ => throw (Sentinel (OtherError "idp")) end.
Definition m_Metadata (r : SharedKeyResolver) (i : uuid) : prog World ferr xml := p ← Get r i; mret (Metadata p).
Definition m_IssueAssertion (e : Env) (ids : nat → string) (r : SharedKeyResolver) (i : uuid) (inp : AssertionInput) : prog World ferr string :=
  p ← Get r i; saml_call (IssueAssertion e ids p inp).
Definition m_AcceptAuthnRequest (r : SharedKeyResolver) (i : uuid) (samlRequest : string) : prog World ferr (SPRegistration * string) :=
  p ← Get r i; saml_call (AcceptAuthnRequest p samlRequest).
Definition m_AttributeTemplate (i : uuid) : prog World ferr (gmap string (list string)) := c ← Registry_Get i; mret (AttributeTemplate c).
Definition m_AssertionLifetime (i : uuid) : prog World ferr duration :=
  c ← Registry_Get i; mret (if bool_decide (t_AssertionLifetime c ≤ 0)%Z then (5 * Minute)%Z else t_AssertionLifetime c).

(** ** jit.go *)

Definition domainAllowed (p : JITPolicy) (email : string) : bool :=
  bool_decide (AllowedDomains p = [])
  || match after_last "@" email with
     | Some d => bool_decide (d ≠ "") && existsb (λ x, EqualFold (TrimSpace x) (ToLower d)) (AllowedDomains p)
     | None => false
     end.
(** [random] are the bytes that are drawn, [None] when the generator fails. *)
Definition unusablePasswordHash (random : option string) : option string := (λ b, "fed:" +:+ hex_EncodeToString b) <$> random.
Definition Provision (e : Env) (random : option string) (email displayName : string) (p : JITPolicy) : prog World ferr (User * bool) :=
  let email := ToLower (TrimSpace email) in
  if bool_decide (email = "") then throw (errInvalid "Provision: email required")
  else if negb (ParseAddress email) then throw (Wrapf "federation: invalid email" (Sentinel (OtherError "mail")))
  else
    found ← try (auth_call (Service_GetUserByEmail email));
    match found with
    | Ok existing => mret (existing, false)
    | Err _ =>
        if negb (Enabled p) then throw (Sentinel ErrFederationUserNotFound)
        else if negb (domainAllowed p email) then throw (Sentinel ErrJITDomainNotAllowed)
        else
          let dn := TrimSpace displayName in
          let dn := if bool_decide (dn = "") then default "" (head (split_on "@" email)) else dn in
          match unusablePasswordHash random with
          | None => throw (Wrapf "federation: generate unusable hash" (Sentinel (OtherError "rand")))
          | Some hash =>
              user ← wrapping "federation: create user" (auth_call (Service_CreateUser e email hash dn));
              mret (user, true)
          end
    end.

(** ** bridge.go *)

Record Bridge : Type := { JWT : JWTManager; RefreshTokenTTL : duration; ClockSkew : duration; audited : bool }.
Definition NewBridge (jwt : JWTManager) (audited : bool) : Bridge :=
  {| JWT := jwt; RefreshTokenTTL := (7 * 24 * Hour)%Z; ClockSkew := (5 * Minute)%Z; audited := audited |}.
Record BridgeResult : Type := { b_User : User; b_AccessToken : string; b_RefreshToken : string; ProvisionedNew : bool }.
Definition jitRole (p : JITPolicy) : string := if bool_decide (DefaultRole p = "") then "member" else DefaultRole p.
Definition jitRoleLevel (p : JITPolicy) : Z :=
  let r := jitRole p in
  if bool_decide (r = "owner") then 90 else if bool_decide (r = "admin") then 80 else if bool_decide (r = "manager") then 60
  else if bool_decide (r = "viewer") then 20 else 40.
Definition federation_event (tenant : uuid) (actor : uuid) (action : string) (x : TenantExternalIdP) (details : gmap string detail) : Event :=
  event (uuid_String tenant) (uuid_String actor) action "external_idp" (uuid_String (x_ID x)) details "".
Definition logSuccessfulLogin (b : Bridge) (tenant : uuid) (x : TenantExternalIdP) (a : Assertion) (user : User) (isNew : bool) : prog World ferr unit :=
  if audited b then
    modify (log_event (federation_event tenant (u_ID user) "auth.federation.login" x
      {["provider" := DString (x_Provider x); "external_idp" := DString (x_DisplayName x); "subject" := DString (a_Subject a);
        "authn_context" := DString (a_AuthnContext a); "jit_provisioned" := DBool isNew; "succeeded" := DBool true]}))
  else mret tt.
Definition logFailedLogin (b : Bridge) (tenant : uuid) (x : TenantExternalIdP) (a : Assertion) (reason : string) : prog World ferr unit :=
  if audited b then
    modify (log_event (federation_event tenant uuid_Nil "auth.federation.login_failed" x
      {["provider" := DString (x_Provider x); "external_idp" := DString (x_DisplayName x); "subject" := DString (a_Subject a);
        "authn_context" := DString (a_AuthnContext a); "reason" := DString reason; "succeeded" := DBool false]}))
  else mret tt.

(** [err.Error()]. *)
Definition fed_text (err : fed_error) : string :=
  match err with
  | ErrTenantNotFound => "federation: tenant IdP config not found"
  | ErrTenantInactive => "federation: tenant IdP config inactive"
  | ErrExternalIdPNotFound => "federation: external IdP not found"
  | ErrDuplicateTenant => "federation: tenant IdP config already registered"
  | ErrDuplicateExternalIdP => "federation: external IdP already registered"
  | ErrInvalidConfig => "federation: invalid configuration"
  | ErrJITDisabled => "federation: JIT provisioning disabled"
  | ErrJITDomainNotAllowed => "federation: email domain not allowed by JIT policy"
  | ErrJITMFARequired => "federation: MFA required by JIT policy"
  | ErrUnsupportedFlow => "federation: unsupported flow for this provider"
  | ErrFederationUserNotFound => "federation: user not found and JIT disabled"
  | AuthError err => Error_text sentinel_text err
  | OtherError msg => msg
  end.
Definition error_text (err : ferr) : string :=
  match err with
  | Wrapf msg (Sentinel ErrInvalidConfig) => "federation: invalid configuration: " +:+ msg
  | _ => Error_text fed_text err
  end.

(** The tokens of a user the bridge has resolved; a failure to store the refresh token
    is ignored. *)
Definition mint (b : Bridge) (e : Env) (r : Rand) (tenant : uuid) (p : JITPolicy) (user : User) : prog World ferr (string * string) :=
  let companyIDStr := uuid_String tenant in
  access ← match CreateAccessToken e (JWT b) (jti r 0) (uuid_String (u_ID user)) companyIDStr (jitRole p) (jitRoleLevel p) [companyIDStr] with
           | Ok t => mret t
           | Err err => throw (Wrapf "federation: mint access token" (Sentinel (AuthError err)))
           end;
  refresh ← match CreateRefreshToken e (JWT b) (jti r 1) (uuid_String (u_ID user)) with
            | Ok t => mret t
            | Err err => throw (Wrapf "federation: mint refresh token" (Sentinel (AuthError err)))
            end;
  _ ← ignore (auth_call (RememberRefreshToken (u_ID user) refresh (now e + RefreshTokenTTL b)%Z));
  mret (access, refresh).
(** A failure that is logged. *)
Definition failing {A} (b : Bridge) (tenant : uuid) (x : TenantExternalIdP) (a : Assertion) (err : ferr) : prog World ferr A :=
  _ ← logFailedLogin b tenant x a (error_text err); throw err.
Definition HandleAssertion (b : Bridge) (e : Env) (r : Rand) (tenant externalID : uuid) (a : Assertion) : prog World ferr BridgeResult :=
  x ← sp_Get externalID;
  _ ← reject_if (negb (bool_decide (x_TenantID x = tenant))) (Sentinel ErrExternalIdPNotFound);
  _ ← reject_if (negb (x_IsActive x)) (Sentinel ErrTenantInactive);
  _ ← match Validate_external x with Some err => throw (Wrapf "federation: build IdP wrapper" err) | None => mret tt end;
  _ ← match EnforceJITPolicy (x_JITPolicy x) a with Some err => failing b tenant x a err | None => mret tt end;
  _ ← (if negb (IsZero (a_ExpiresAt a)) && After (now e) (a_ExpiresAt a + ClockSkew b)%Z
       then failing b tenant x a (Errorf "federation: assertion expired") else mret tt);
  provisioned ← try (Provision e (salt r) (a_Email a) (a_DisplayName a) (x_JITPolicy x));
  match provisioned with
  | Err err => failing b tenant x a err
  | Ok (user, isNew) =>
      tokens ← mint b e r tenant (x_JITPolicy x) user;
      _ ← logSuccessfulLogin b tenant x a user isNew;
      mret {| b_User := user; b_AccessToken := tokens.1; b_RefreshToken := tokens.2; ProvisionedNew := isNew |}
  end.

(** ** handlers.go *)

Record Stack : Type := {
  resolver : SharedKeyResolver; bridge : Bridge; exchanger : option OIDCExchanger; BaseURL : string; StateSecret : string
}.
(** What a request carries: its path, its query, its form (the body before the query),
    and whether the form parses. *)
Record Request : Type := { Path : string; Query : gmap string string; Form : gmap string string; form_ok : bool }.
(** A key whose value is read by [Get] or [FormValue]. *)
Definition value (m : gmap string string) (k : string) : string := default "" (m !! k).
Inductive Response : Type :=
  | HTTPError (code : Z) (text : string)
  | Redirect (url : string)
  | XML (doc : xml)
  | PostForm (html : string)
  | Tokens (res : BridgeResult)
  | IdPList (l : list (string * string * string)).
Definition writeFederationError (err : ferr) : Response :=
  if errors_Is err ErrTenantNotFound || errors_Is err ErrExternalIdPNotFound then HTTPError 404 "Not Found"
  else if errors_Is err ErrTenantInactive then HTTPError 410 "tenant inactive"
  else if errors_Is err ErrInvalidConfig then HTTPError 400 (error_text err)
  else if errors_Is err ErrFederationUserNotFound || errors_Is err ErrJITDisabled then HTTPError 403 "user not provisioned"
  else if errors_Is err ErrJITDomainNotAllowed then HTTPError 403 "email domain not allowed"
  else if errors_Is err ErrJITMFARequired then HTTPError 403 "multi-factor authentication required"
  else HTTPError 500 "Internal Server Error".
Definition NotFound : Response := HTTPError 404 "404 page not found".

(** [path.Clean]. *)
Definition clean_step (rooted : bool) (acc : list string) (c : string) : list string :=
  if bool_decide (c = "" ∨ c = ".") then acc
  else if bool_decide (c = "..") then
    match acc with
    | [] => if rooted then [] else [".."]
    | x :: rest => if bool_decide (x = "..") then ".." :: acc else rest
    end
  else c :: acc.
Definition path_Clean (p : string) : string :=
  if bool_decide (p = "") then "."
  else
    let rooted := String.prefix "/" p in
    let body := strings_Join "/" (reverse (foldl (clean_step rooted) [] (split_on "/" p))) in
    if rooted then "/" +:+ body else if bool_decide (body = "") then "." else body.
Definition splitTenantPath (p prefix : string) : option (uuid * string) :=
  if String.prefix prefix p then
    match split_on "/" (trim_prefix prefix p) with
    | first :: (_ :: _) as rest =>
        match uuid_Parse first with
        | None => None
        | Some tenant => Some (tenant, path_Clean (strings_Join "/" rest))
        end
    | _ => None
    end
  else None.

(** *** State tokens *)

Record stateClaims : Type := { TenantID : uuid; ExternalIdPID : uuid; iat : Z }.
Definition encode_claims (c : stateClaims) : string :=
  unchars (print_object [print_member "tenant_id" (quote (uuid_String (TenantID c)));
                         print_member "external_idp_id" (quote (uuid_String (ExternalIdPID c))); print_member "iat" (chars (pretty (iat c)))]).
Definition computeStateSig (s : Stack) (body : string) : string := hmac_hex (StateSecret s) body.
Definition signState (s : Stack) (c : stateClaims) : string :=
  let enc := base64_EncodeToString URLAlphabet (encode_claims c) in enc +:+ "." +:+ computeStateSig s enc.
Context (decode_claims : string → option stateClaims).
Definition unix (t : time) : Z := (t `div` Second)%Z.
Definition verifyState (e : Env) (s : Stack) (token : string) : option stateClaims :=
  match split_on "." token with
  | body :: (_ :: _) as rest =>
      let sig := strings_Join "." rest in
      if bool_decide (body = "" ∨ sig = "") then None
      else if negb (bool_decide (computeStateSig s body = sig)) then None
      else
        match base64_DecodeString URLAlphabet body ≫= decode_claims with
        | None => None
        | Some c => if bool_decide (wrap64 (unix (now e) - iat c) > 30 * 60)%Z then None else Some c
        end
  | _ => None
  end.

(** *** Endpoints *)

Definition handler : Type := prog World Response Response.
(** Errors end a request with their response. *)
Definition served {A} (m : prog World ferr A) : prog World Response A := λ w,
  match m w with (Ok a, w) => (Ok a, w) | (Err err, w) => (Err (writeFederationError err), w) end.
Definition caught {A} (m : prog World ferr A) : prog World Response (outcome ferr A) := λ w, let '(r, w) := m w in (Ok r, w).
Definition IdPMetadata (s : Stack) (tenant : uuid) : handler := x ← served (m_Metadata (resolver s) tenant); mret (XML x).
Definition callbackURL (s : Stack) (x : TenantExternalIdP) (tenant : uuid) : string :=
  let base := TrimRight (BaseURL s) "/" in
  if bool_decide (x_Provider x = ProviderOIDC) then base +:+ "/federation/" +:+ uuid_String tenant +:+ "/oidc/callback"
  else base +:+ "/federation/" +:+ uuid_String tenant +:+ "/saml/acs".

Definition first_source (values : gmap string string) (sources : list string) : option string :=
  head (filter (λ v, v ≠ "") (omap (λ src, values !! ToLower src) sources)).
Definition buildAssertionAttributes (email dn id_ : string) (tpl : gmap string (list string)) : gmap string (list string) :=
  let values : gmap string string := {["email" := email; "display_name" := dn; "sub" := id_; "id" := id_]} in
  let out := omap (λ sources, (λ v, [v]) <$> first_source values sources) tpl in
  match out !! "email" with
  | Some _ => out
  | None => if bool_decide (email ≠ "") then <["email" := [email]]> out else out
  end.
Definition htmlEscape (s : string) : string :=
  replace_chars (λ a, if bool_decide (a = "&"%char) then Some "&amp;" else if bool_decide (a = "<"%char) then Some "&lt;"
                      else if bool_decide (a = ">"%char) then Some "&gt;" else if bool_decide (a = dq) then Some "&quot;"
                      else if bool_decide (a = "'"%char) then Some "&#39;" else None) s.
Definition buildPostAutoSubmit (acsURL samlResponse relayState : string) : string :=
  let q := String dq "" in let nl := String "010" "" in
  let relay := if bool_decide (relayState ≠ "")
               then "<input type=" +:+ q +:+ "hidden" +:+ q +:+ " name=" +:+ q +:+ "RelayState" +:+ q +:+ " value=" +:+ q +:+ htmlEscape relayState +:+ q +:+ ">"
               else "" in
  "<!doctype html>" +:+ nl +:+ "<html><body onload=" +:+ q +:+ "document.forms[0].submit()" +:+ q +:+ ">" +:+ nl
  +:+ "<noscript><p>JavaScript required to redirect. Click below.</p></noscript>" +:+ nl
  +:+ "<form method=" +:+ q +:+ "post" +:+ q +:+ " action=" +:+ q +:+ htmlEscape acsURL +:+ q +:+ ">" +:+ nl
  +:+ "  <input type=" +:+ q +:+ "hidden" +:+ q +:+ " name=" +:+ q +:+ "SAMLResponse" +:+ q +:+ " value=" +:+ q +:+ padded_Encode StdAlphabet samlResponse +:+ q +:+ ">" +:+ nl
  +:+ "  " +:+ relay +:+ nl +:+ "  <noscript><button type=" +:+ q +:+ "submit" +:+ q +:+ ">Continue</button></noscript>" +:+ nl
  +:+ "</form>" +:+ nl +:+ "</body></html>".
Definition or_else (a b : string) : string := if bool_decide (a = "") then b else a.
Definition IdPSSO (e : Env) (ids : nat → string) (s : Stack) (r : Request) (tenant : uuid) : handler :=
  _ ← reject_if (negb (form_ok r)) (HTTPError 400 "bad request");
  let samlReq := or_else (value (Form r) "SAMLRequest") (value (Query r) "SAMLRequest") in
  _ ← reject_if (bool_decide (samlReq = "")) (HTTPError 400 "missing SAMLRequest");
  accepted ← served (m_AcceptAuthnRequest (resolver s) tenant samlReq);
  let userIDStr := or_else (value (Query r) "aoid_user_id") (value (Form r) "aoid_user_id") in
  _ ← reject_if (bool_decide (userIDStr = "")) (HTTPError 401 "AO ID session required (Phase A: pass aoid_user_id explicitly)");
  match uuid_Parse userIDStr with
  | None => throw (HTTPError 400 "invalid aoid_user_id")
  | Some userID =>
      tpl ← served (m_AttributeTemplate tenant);
      found ← caught (auth_call (Service_GetUserByID userID));
      match found with
      | Err _ => throw (HTTPError 404 "user not found")
      | Ok user =>
          signed ← served (m_IssueAssertion e ids (resolver s) tenant
            {| in_SPEntityID := sp_EntityID accepted.1; InResponseTo := accepted.2; in_NameID := u_Email user; NameIDFormat := "";
               Attributes := buildAssertionAttributes (u_Email user) (u_DisplayName user) (uuid_String (u_ID user)) tpl;
               AuthnContextClassRef := ""; in_IssueInstant := 0 |});
          mret (PostForm (buildPostAutoSubmit (sp_ACSURL accepted.1) signed (value (Form r) "RelayState")))
      end
  end.
Definition StartFederation (e : Env) (drawn : string) (s : Stack) (r : Request) (tenant : uuid) : handler :=
  let externalIDStr := value (Query r) "external_idp_id" in
  _ ← reject_if (bool_decide (externalIDStr = "")) (HTTPError 400 "missing external_idp_id");
  match uuid_Parse externalIDStr with
  | None => throw (HTTPError 400 "invalid external_idp_id")
  | Some externalID =>
      x ← served (sp_Get externalID);
      _ ← reject_if (negb (bool_decide (x_TenantID x = tenant)) || negb (x_IsActive x)) NotFound;
      _ ← served (match Validate_external x with Some err => throw err | None => mret tt end);
      let state := signState s {| TenantID := tenant; ExternalIdPID := externalID; iat := unix (now e) |} in
      url ← served (of_outcome (AuthorizationURL e drawn x (exchanger s) (callbackURL s x tenant) state));
      mret (Redirect url)
  end.
(** What the two callbacks share: the claims of the state, and the provider they name. *)
Definition callback_provider (e : Env) (s : Stack) (state invalid : string) (tenant : uuid) : prog World Response (stateClaims * TenantExternalIdP) :=
  match verifyState e s state with
  | None => throw (HTTPError 400 invalid)
  | Some claims =>
      _ ← reject_if (negb (bool_decide (TenantID claims = tenant))) NotFound;
      x ← served (sp_Get (ExternalIdPID claims));
      _ ← served (match Validate_external x with Some err => throw err | None => mret tt end);
      mret (claims, x)
  end.
Definition sign_in (e : Env) (rnd : Rand) (s : Stack) (tenant externalID : uuid) (msg : string) (o : outcome ferr Assertion) : handler :=
  match o with
  | Err err => throw (HTTPError 400 (msg +:+ ": " +:+ error_text err))
  | Ok a => res ← served (HandleAssertion (bridge s) e rnd tenant externalID a); mret (Tokens res)
  end.
Definition SAMLACS (e : Env) (rnd : Rand) (s : Stack) (r : Request) (tenant : uuid) : handler :=
  _ ← reject_if (negb (form_ok r)) (HTTPError 400 "bad request");
  let samlResp := value (Form r) "SAMLResponse" in
  _ ← reject_if (bool_decide (samlResp = "")) (HTTPError 400 "missing SAMLResponse");
  cx ← callback_provider e s (value (Form r) "RelayState") "invalid RelayState" tenant;
  sign_in e rnd s tenant (ExternalIdPID cx.1) "parse assertion" (ValidateSAMLResponse cx.2 samlResp).
Definition OIDCCallback (e : Env) (rnd : Rand) (s : Stack) (r : Request) (tenant : uuid) : handler :=
  let code := value (Query r) "code" in
  let state := value (Query r) "state" in
  _ ← reject_if (bool_decide (code = "" ∨ state = "")) (HTTPError 400 "missing code or state");
  cx ← callback_provider e s state "invalid state" tenant;
  sign_in e rnd s tenant (ExternalIdPID cx.1) "exchange code" (ExchangeAuthCode cx.2 (exchanger s) code (callbackURL s cx.2 tenant)).
Definition ListExternalIdPs (e : Env) (tenant : uuid) : handler := λ w,
  (Ok (IdPList ((λ x, (uuid_String (x_ID x), x_Provider x, x_DisplayName x)) <$> ListByTenant e tenant true w)), w).
Definition routeSAMLIdP (e : Env) (ids : nat → string) (s : Stack) (r : Request) : handler :=
  match splitTenantPath (Path r) "/saml/idp/" with
  | None => throw NotFound
  | Some (tenant, rest) =>
      if bool_decide (rest = "metadata") then IdPMetadata s tenant
      else if bool_decide (rest = "sso") then IdPSSO e ids s r tenant else throw NotFound
  end.
Definition routeFederation (e : Env) (rnd : Rand) (drawn : string) (s : Stack) (r : Request) : handler :=
  match splitTenantPath (Path r) "/federation/" with
  | None => throw NotFound
  | Some (tenant, rest) =>
      if bool_decide (rest = "start") then StartFederation e drawn s r tenant
      else if bool_decide (rest = "saml/acs") then SAMLACS e rnd s r tenant
      else if bool_decide (rest = "oidc/callback") then OIDCCallback e rnd s r tenant
      else if bool_decide (rest = "idps") then ListExternalIdPs e tenant else throw NotFound
  end.
End federation.
