(* ===== verification/FederationProofs.v ===== *)
(** * Properties of federation

    State tokens; what a login through an external provider needs and gives, and what
    it does not check; provisioned users have no password; providers that outlive
    their configuration; what one side issues the other reads. *)

From S2P Require Import Prelude Encoding Json AuditLog Password Rbac Company Auth Devstore AuthProofs Saml SamlProofs Federation.

Section federation.
Context {U : UuidText} {C : UnicodeCase} {H : Sha256} {K : KeyDerivation} {J : JWTLib} {L : SAMLLib}.
Context (EqualFold : string → string → bool) (ParseAddress : string → bool) (hmac_hex : string → string → string).
Context (with_query : string → list (string * string) → option string) (decode_claims : string → option stateClaims).

(** ** State tokens *)

(** A state is accepted exactly when it is a body with its signature, the body
    decodes, and it was not issued more than half an hour ago. *)
Theorem state_exact e s tok c :
  (verifyState hmac_hex decode_claims e s tok = Some c) ↔
  ∃ body sig, tok = body +:+ "." +:+ sig ∧ ("."%char ∉ String.list_ascii_of_string body) ∧ body ≠ "" ∧ sig ≠ "" ∧
    sig = hmac_hex (StateSecret s) body ∧ (base64_DecodeString URLAlphabet body ≫= decode_claims) = Some c ∧
    (wrap64 (unix (now e) - iat c) ≤ 1800)%Z.
Proof.
  unfold verifyState, computeStateSig. split.
  - pose proof (Join_split "." tok) as Htok. assert (∀ x xs, split_on "." tok = x :: xs → "."%char ∉ String.list_ascii_of_string x) as Hnodot.
    { clear. induction tok as [|a tok IH]; cbn [split_on]; [intros x xs [= <- <-]; apply not_elem_of_nil|].
      case_bool_decide as Ha; [intros x xs [= <- <-]; apply not_elem_of_nil|].
      destruct (split_on "." tok) as [|y ys]; intros x xs [= <- <-]; cbn [String.list_ascii_of_string]; rewrite not_elem_of_cons;
        (split; [congruence|]); [apply not_elem_of_nil|by eapply IH]. }
    destruct (split_on "." tok) as [|body [|y ys]] eqn:Hsplit; try done. specialize (Hnodot _ _ eq_refl).
    set (sig := strings_Join "." (y :: ys)) in *. case_bool_decide as Hne; [done|].
    destruct (bool_decide (hmac_hex (StateSecret s) body = sig)) eqn:Hsig; [|done]. apply bool_decide_eq_true in Hsig. cbn [negb].
    destruct (_ ≫= decode_claims) as [c'|] eqn:Hd; [|done]. case_bool_decide as Ht; [done|]. intros [= ->].
    exists body, sig. split_and!; [by rewrite <-Htok|done|tauto|tauto|done|done|lia].
  - intros (body & sig & -> & Hnd & Hb & Hs & Hsig & Hd & Ht). change ("." +:+ sig) with (String "." sig).
    rewrite split_on_app by done. destruct (split_on_cons "." sig) as (y & ys & E). pose proof (Join_split "." sig) as Hj. rewrite E in Hj |- *.
    change (String "." "") with "."%string in Hj. rewrite Hj, (bool_decide_false (body = "" ∨ sig = "")), (bool_decide_true (_ = sig)) by (done || tauto).
    cbn [negb]. rewrite Hd. by rewrite bool_decide_false by lia.
Qed.

(** The claims that [json.Unmarshal] reads back, and signatures that are texts. *)
Definition reads_claims (c : stateClaims) : Prop := decode_claims (encode_claims c) = Some c.
Lemma encode_claims_nonempty c : encode_claims c ≠ "".
Proof. done. Qed.
Lemma signed_state_verifies e s c :
  reads_claims c → (∀ key msg, hmac_hex key msg ≠ "") → (wrap64 (unix (now e) - iat c) ≤ 1800)%Z →
  verifyState hmac_hex decode_claims e s (signState hmac_hex s c) = Some c.
Proof.
  intros Hc Hh Ht. apply state_exact. exists (base64_EncodeToString URLAlphabet (encode_claims c)). eexists.
  split_and!; [done|apply base64_no_dot|by apply base64_nonempty|apply Hh|done| |done]. by rewrite base64_Decode_Encode.
Qed.

(** ** The bridge *)

Context {St : Type} {S : AuthStore St}.
Implicit Types (w : World (St := St)) (b : Bridge) (a : Assertion).

(** What an assertion has to satisfy; [a_ExpiresAt] zero is no expiry. *)
Definition admitted b (e : Env) (tenant : uuid) (x : TenantExternalIdP) a : Prop :=
  x_TenantID x = tenant ∧ x_IsActive x = true ∧ Validate_external x = None ∧ EnforceJITPolicy EqualFold (x_JITPolicy x) a = None ∧
  (a_ExpiresAt a = 0 ∨ now e ≤ a_ExpiresAt a + ClockSkew b)%Z.
Definition user_claims (e : Env) b (jti : string) (tenant : uuid) (p : JITPolicy) (user : User) : outcome aerr string :=
  CreateAccessToken e (JWT b) jti (uuid_String (u_ID user)) (uuid_String tenant) (jitRole p) (jitRoleLevel p) [uuid_String tenant].
(** The state when the refresh token has been stored, if it could be, and the login logged. *)
Definition signed_in b (e : Env) (tenant : uuid) (x : TenantExternalIdP) a (res : BridgeResult) w : World :=
  (logSuccessfulLogin b tenant x a (b_User res) (ProvisionedNew res)
     (ignore (auth_call (RememberRefreshToken (u_ID (b_User res)) (b_RefreshToken res) (now e + RefreshTokenTTL b)%Z)) w).2).2.
Lemma not_expired_iff b e a :
  negb (IsZero (a_ExpiresAt a)) && After (now e) (a_ExpiresAt a + ClockSkew b)%Z = false ↔
  (a_ExpiresAt a = 0 ∨ now e ≤ a_ExpiresAt a + ClockSkew b)%Z.
Proof. unfold IsZero, After. do 2 case_bool_decide; cbn; split; (done || lia || tauto). Qed.
Lemma mint_spec b e r tenant p user w access refresh w' :
  mint b e r tenant p user w = (Ok (access, refresh), w') ↔
  user_claims e b (jti r 0) tenant p user = Ok access ∧ CreateRefreshToken e (JWT b) (jti r 1) (uuid_String (u_ID user)) = Ok refresh ∧
  w' = (ignore (auth_call (RememberRefreshToken (u_ID user) refresh (now e + RefreshTokenTTL b)%Z)) w).2.
Proof.
  unfold mint, user_claims, mbind, prog_bind. destruct (CreateAccessToken _ _ _ _ _ _ _ _) as [t|err]; cbv beta iota delta [throw mret prog_ret].
  2: { split; [done|]. intros (E & _). done. }
  destruct (CreateRefreshToken _ _ _ _) as [t'|err]; cbv beta iota delta [throw mret prog_ret].
  2: { split; [done|]. intros (_ & E & _). done. }
  unfold ignore at 1. split; [intros [= <- <- <-]; done|]. by intros ([= ->] & [= ->] & ->).
Qed.
Lemma failing_err {A} b tenant x a err w : ∃ w', failing (A := A) b tenant x a err w = (Err err, w').
Proof. unfold failing, logFailedLogin, mbind, prog_bind. destruct (audited b); by eexists. Qed.

(** The run of a login, in terms of the functions it calls. *)
Lemma HandleAssertion_run b e r tenant i a w res w' :
  HandleAssertion EqualFold ParseAddress b e r tenant i a w = (Ok res, w') ↔
  ∃ x w1, externals w !! i = Some x ∧ admitted b e tenant x a ∧
    Provision EqualFold ParseAddress e (salt r) (a_Email a) (a_DisplayName a) (x_JITPolicy x) w = (Ok (b_User res, ProvisionedNew res), w1) ∧
    user_claims e b (jti r 0) tenant (x_JITPolicy x) (b_User res) = Ok (b_AccessToken res) ∧
    CreateRefreshToken e (JWT b) (jti r 1) (uuid_String (u_ID (b_User res))) = Ok (b_RefreshToken res) ∧
    w' = signed_in b e tenant x a res w1.
Proof.
  unfold HandleAssertion, mbind, prog_bind. unfold sp_Get at 1. destruct (externals w !! i) as [x|] eqn:Hx; [|naive_solver].
  unfold reject_if. destruct (bool_decide (x_TenantID x = tenant)) eqn:Hten; cbn [negb throw mret prog_ret].
  2: { apply bool_decide_eq_false in Hten. split; [done|]. intros (? & ? & [= <-] & (? & _) & _). done. }
  apply bool_decide_eq_true in Hten. destruct (x_IsActive x) eqn:Hact; cbn [negb throw mret prog_ret].
  2: { split; [done|]. intros (? & ? & [= <-] & (_ & ? & _) & _). congruence. }
  destruct (Validate_external x) as [err|] eqn:Hval; cbn [throw mret prog_ret].
  { split; [done|]. intros (? & ? & [= <-] & (_ & _ & ? & _) & _). congruence. }
  destruct (EnforceJITPolicy _ _ _) as [err|] eqn:Henf; cbn [throw mret prog_ret].
  { destruct (failing_err (A := unit) b tenant x a err w) as [w0 ->]. split; [done|]. intros (? & ? & [= <-] & (_ & _ & _ & ? & _) & _). congruence. }
  destruct (negb (IsZero _) && _) eqn:Hexp; cbn [throw mret prog_ret].
  { destruct (failing_err (A := unit) b tenant x a (Errorf "federation: assertion expired") w) as [w0 ->]. split; [done|].
    intros (? & ? & [= <-] & (_ & _ & _ & _ & Hok) & _). apply not_expired_iff in Hok. congruence. }
  apply not_expired_iff in Hexp. unfold try.
  destruct (Provision _ _ _ _ _ _ _ w) as [[[user isNew]|err] w1] eqn:Hprov.
  2: { destruct (failing_err (A := BridgeResult) b tenant x a err w1) as [w0 ->]. split; [done|].
       intros (? & ? & [= <-] & _ & Hp & _). rewrite Hprov in Hp. done. }
  destruct (mint b e r tenant (x_JITPolicy x) user w1) as [[[access refresh]|err] w2] eqn:Hmint.
  2: { split; [done|]. intros (? & ? & [= <-] & _ & Hp & Ha & Hr & _). rewrite Hprov in Hp. injection Hp as -> -> ->.
       assert (mint b e r tenant (x_JITPolicy x) (b_User res) x1 = (Ok (b_AccessToken res, b_RefreshToken res), (ignore (auth_call (RememberRefreshToken
         (u_ID (b_User res)) (b_RefreshToken res) (now e + RefreshTokenTTL b)%Z)) x1).2)) as E by (apply mint_spec; done). congruence. }
  apply mint_spec in Hmint as (Ha & Hr & ->). split.
  - destruct (logSuccessfulLogin b tenant x a user isNew _) as [[[]|err] w3] eqn:Hlog.
    + cbn. intros [= <- <-]. exists x, w1. split_and!; try done. unfold signed_in. cbn [b_User ProvisionedNew b_RefreshToken]. by rewrite Hlog.
    + unfold logSuccessfulLogin in Hlog. by destruct (audited b).
  - intros (x' & w1' & [= <-] & _ & Hp & Ha' & Hr' & ->). rewrite Hprov in Hp. injection Hp as -> -> ->. unfold signed_in.
    assert (access = b_AccessToken res) as -> by congruence. assert (refresh = b_RefreshToken res) as -> by congruence.
    cbn [fst snd]. unfold logSuccessfulLogin. destruct (audited b); cbn; by destruct res.
Qed.

(** *** What a login needs and gives, stated apart from the code *)

(** [sub] stands somewhere in [s]. *)
Definition occurs (sub s : string) : Prop := ∃ l r, s = l +:+ sub +:+ r.
(** The context of an assertion tells of a second factor. *)
Definition second_factor a : Prop :=
  ∃ m, occurs m (ToLower (a_AuthnContext a)) ∧
    m ∈ ["mfa"; "multifactor"; "multi-factor"; "smartcard"; "hardwaretoken"; "timesynctoken"; "mobilecontract";
         "mobiletwofactorunregistered"; "x509"; "webauthn"].
(** [d] is what follows the last at sign of an address. *)
Definition email_domain (s d : string) : Prop := ∃ l, s = l +:+ "@" +:+ d ∧ ("@"%char ∉ String.list_ascii_of_string d).
(** What a provider has to name. *)
Definition valid_provider (x : TenantExternalIdP) : Prop :=
  x_ID x ≠ uuid_Nil ∧ x_TenantID x ≠ uuid_Nil ∧ x_EntityID x ≠ "" ∧
  ((x_Provider x = "saml" ∧ x_MetadataURL x ≠ "") ∨ (x_Provider x = "oidc" ∧ x_ClientID x ≠ "")).
(** What a policy asks of any assertion: a second factor when it requires one, and a
    domain it allows when it names any (an address without an at sign has the empty one). *)
Definition policy_admits (p : JITPolicy) a : Prop :=
  (RequireMFA p = true → second_factor a) ∧
  (AllowedDomains p = [] ∨
   ∃ d dom, d ∈ AllowedDomains p ∧ EqualFold d (ToLower dom) = true ∧
     (email_domain (a_Email a) dom ∨ (dom = "" ∧ ("@"%char ∉ String.list_ascii_of_string (a_Email a))))).
(** What it asks of a user who is to be created. *)
Definition policy_creates (p : JITPolicy) (email : string) : Prop :=
  Enabled p = true ∧
  (AllowedDomains p = [] ∨
   ∃ d dom, d ∈ AllowedDomains p ∧ EqualFold (TrimSpace d) (ToLower dom) = true ∧ email_domain email dom ∧ dom ≠ "").
(** The name a new user gets: the one given, or what stands before the first at sign. *)
Definition new_name (given email name : string) : Prop :=
  (TrimSpace given ≠ "" ∧ name = TrimSpace given) ∨
  (TrimSpace given = "" ∧ ("@"%char ∉ String.list_ascii_of_string name) ∧ (email = name ∨ ∃ rest, email = name +:+ "@" +:+ rest)).
(** The account of an address: the one that is found, or else a new one that no
    password opens. *)
Inductive account (e : Env) (random : option string) (email given : string) (p : JITPolicy) w : User → bool → World → Prop :=
  | account_found u s1 :
      as_GetUserByEmail (normalized email) (users w) = (Ok u, s1) →
      account e random email given p w u false (set_users s1 w)
  | account_created u err s1 s2 bytes name :
      as_GetUserByEmail (normalized email) (users w) = (Err err, s1) → policy_creates p email → random = Some bytes →
      new_name given email name →
      as_CreateUser e 0 (normalized email) ("fed:" +:+ hex_EncodeToString bytes) (TrimSpace name) s1 = (Ok u, s2) →
      account e random email given p w u true (set_users s2 w).
(** The role of a policy, and its rank. *)
Definition policy_role (p : JITPolicy) (role : string) : Prop :=
  (DefaultRole p = "" ∧ role = "member") ∨ (DefaultRole p ≠ "" ∧ role = DefaultRole p).
Inductive ranked : string → Z → Prop :=
  | ranked_owner : ranked "owner" 90
  | ranked_admin : ranked "admin" 80
  | ranked_manager : ranked "manager" 60
  | ranked_viewer : ranked "viewer" 20
  | ranked_other role : role ∉ ["owner"; "admin"; "manager"; "viewer"] → ranked role 40.
(** The state after a login: the refresh token is stored, if it can be, and the login is
    in the audit log, if there is one. *)
Definition after_login b (e : Env) (tenant : uuid) (x : TenantExternalIdP) a (res : BridgeResult) w : World := {|
  tenants := tenants w; externals := externals w; cache := cache w;
  users := (as_CreateRefreshToken (u_ID (b_User res)) (HashToken (b_RefreshToken res)) (now e + RefreshTokenTTL b)%Z (users w)).2;
  audit := audit w ++
    (if audited b
     then [event (uuid_String tenant) (uuid_String (u_ID (b_User res))) "auth.federation.login" "external_idp" (uuid_String (x_ID x))
             {["provider" := DString (x_Provider x); "external_idp" := DString (x_DisplayName x); "subject" := DString (a_Subject a);
               "authn_context" := DString (a_AuthnContext a); "jit_provisioned" := DBool (ProvisionedNew res); "succeeded" := DBool true]} ""]
     else []) |}.

Lemma Validate_external_iff x : Validate_external x = None ↔ valid_provider x.
Proof.
  unfold Validate_external, valid_provider, ProviderSAML, ProviderOIDC.
  repeat case_bool_decide; split; try done; intros; destruct_and?; destruct_or?; destruct_and?; split_and?; (done || congruence || tauto).
Qed.
Lemma HasMFA_iff a : HasMFA a = true ↔ second_factor a.
Proof.
  unfold HasMFA, second_factor, mfa_markers. rewrite existsb_exists. split.
  - intros (m & Hm & Hc). apply strings_Contains_iff in Hc. exists m. split; [exact Hc|]. apply list_elem_of_In in Hm. set_solver.
  - intros (m & Hc & Hm). exists m. split; [|by apply strings_Contains_iff]. apply list_elem_of_In. set_solver.
Qed.
(** The text after the last at sign. *)
Lemma after_last_cons ch x s :
  after_last ch (String x s) =
    match after_last ch s with Some d => Some d | None => if bool_decide (x = ch) then Some s else None end.
Proof.
  unfold after_last. cbn [split_on]. destruct (split_on_cons ch s) as (y & ys & E). rewrite E.
  assert (∀ z zs, ∃ d, last (z :: zs : list string) = Some d) as Hl.
  { intros z zs. destruct (last (z :: zs)) eqn:El; [by eexists|]. by apply last_None in El. }
  pose proof (Join_split ch s) as Hj. rewrite E in Hj. cbn in Hj. case_bool_decide as Hx; destruct ys as [|z zs]; [|..].
  - subst x. cbn. by rewrite Hj.
  - cbn [last]. destruct (Hl z zs) as [d Hd]. change (last (z :: zs)) with (last (z :: zs)) in Hd. cbn [last] in Hd. by rewrite Hd.
  - done.
  - cbn [last]. destruct (Hl z zs) as [d Hd]. cbn [last] in Hd. by rewrite Hd.
Qed.
Lemma after_last_None ch s : after_last ch s = None ↔ ch ∉ String.list_ascii_of_string s.
Proof.
  induction s as [|x s IH]; [cbn; split; [intros _; apply not_elem_of_nil|done]|].
  rewrite after_last_cons. cbn [String.list_ascii_of_string]. rewrite not_elem_of_cons.
  destruct (after_last ch s) as [d|]; [|case_bool_decide]; split; try done.
  - intros [_ Hs]. by apply IH in Hs.
  - intros [? _]. congruence.
  - intros _. split; [congruence|]. by apply IH.
Qed.
Lemma after_last_Some s d : after_last "@" s = Some d ↔ email_domain s d.
Proof.
  unfold email_domain. split.
  - revert d. induction s as [|x s IH]; intros d; [done|]. rewrite after_last_cons. destruct (after_last "@" s) as [d'|] eqn:Hd.
    + intros [= ->]. destruct (IH _ eq_refl) as (l & -> & Hn). by exists (String x l).
    + case_bool_decide; [|done]. intros [= ->]. subst x. exists "". split; [done|]. by apply after_last_None.
  - intros (l & -> & Hn). apply after_last_None in Hn. induction l as [|x l IH].
    + change ("" +:+ "@" +:+ d) with (String "@" d). by rewrite after_last_cons, Hn, bool_decide_true.
    + change (String x l +:+ "@" +:+ d) with (String x (l +:+ "@" +:+ d)). by rewrite after_last_cons, IH.
Qed.
(** The domain test of an assertion, and that of an address to provision. *)
Lemma domain_iff p a :
  bool_decide (AllowedDomains p ≠ []) && negb (existsb (λ d, EqualFold d (Domain a)) (AllowedDomains p)) = false ↔
  AllowedDomains p = [] ∨
  ∃ d dom, d ∈ AllowedDomains p ∧ EqualFold d (ToLower dom) = true ∧
    (email_domain (a_Email a) dom ∨ (dom = "" ∧ ("@"%char ∉ String.list_ascii_of_string (a_Email a)))).
Proof.
  case_bool_decide as Hd; cbn [andb]; [|split; [intros _; left; destruct (AllowedDomains p); naive_solver|done]].
  rewrite negb_false_iff, existsb_exists. split.
  - intros (d & Hin & Hf). right. apply list_elem_of_In in Hin. unfold Domain in Hf.
    destruct (after_last "@" (a_Email a)) as [dom|] eqn:Hl.
    + exists d, dom. split_and!; [done..|]. left. by apply after_last_Some.
    + exists d, "". split_and!; [done|exact Hf|]. right. split; [done|]. by apply after_last_None.
  - intros [?|(d & dom & Hin & Hf & Hdom)]; [done|]. exists d. split; [by apply list_elem_of_In|]. unfold Domain.
    destruct Hdom as [Hdom|[-> Hn]].
    + apply after_last_Some in Hdom. by rewrite Hdom.
    + apply after_last_None in Hn. rewrite Hn. done.
Qed.
Lemma EnforceJITPolicy_iff p a : EnforceJITPolicy EqualFold p a = None ↔ policy_admits p a.
Proof.
  unfold EnforceJITPolicy, policy_admits. rewrite <-HasMFA_iff, <-domain_iff.
  destruct (RequireMFA p), (HasMFA a); cbn [negb andb]; try (split; [done|naive_solver]);
    (destruct (_ && _); split; [done|naive_solver|naive_solver|done]).
Qed.
Lemma policy_creates_iff p email : policy_creates p email ↔ Enabled p = true ∧ domainAllowed EqualFold p email = true.
Proof.
  unfold policy_creates, domainAllowed. apply and_iff_compat_l. rewrite orb_true_iff, bool_decide_eq_true. apply or_iff_compat_l.
  split.
  - intros (d & dom & Hin & Hf & Hdom & Hne). apply after_last_Some in Hdom. rewrite Hdom, bool_decide_true by done. cbn [andb].
    apply existsb_exists. exists d. split; [by apply list_elem_of_In|done].
  - destruct (after_last "@" email) as [dom|] eqn:Hl; [|done]. rewrite andb_true_iff, bool_decide_eq_true, existsb_exists.
    intros (Hne & d & Hin & Hf). exists d, dom. split_and!; [by apply list_elem_of_In|done|by apply after_last_Some|done].
Qed.

Lemma new_name_iff given email name :
  new_name given email name ↔
  name = (if bool_decide (TrimSpace given = "") then default "" (head (split_on "@" email)) else TrimSpace given).
Proof.
  unfold new_name. case_bool_decide as Hg; [|naive_solver]. split.
  - intros [[? _]|(_ & Hn & [->|[rest ->]])]; [done|by rewrite split_on_none|].
    change ("@" +:+ rest) with (String "@" rest). by rewrite split_on_app.
  - intros ->. right. split; [done|]. destruct (split_on_cons "@" email) as (x & xs & E). rewrite E. split; [by eapply split_on_head|].
    pose proof (Join_split "@" email) as Hj. rewrite E in Hj. destruct xs as [|y ys]; [by left|right].
    exists (strings_Join "@" (y :: ys)). by rewrite <-Hj.
Qed.
Lemma Provision_iff e random email given p w u isNew w' :
  Provision EqualFold ParseAddress e random email given p w = (Ok (u, isNew), w') ↔
  normalized email ≠ "" ∧ ParseAddress (normalized email) = true ∧ account e random (normalized email) given p w u isNew w'.
Proof.
  unfold Provision. change (ToLower (TrimSpace email)) with (normalized email). set (m := normalized email).
  case_bool_decide as Hm; [by split; [|intros []]|]. destruct (ParseAddress m); cbn [negb]; [|by split; [|intros (_ & ? & _)]].
  unfold mbind, prog_bind, try. unfold auth_call at 1. unfold Service_GetUserByEmail.
  destruct (as_GetUserByEmail (normalized m) (users w)) as [[found|err] s1] eqn:Hfind.
  { split; [intros [= <- <- <-]; split_and!; [done..|by apply account_found]|].
    intros (_ & _ & [u' s1' Hf|? ? ? ? ? ? Hf]); rewrite Hfind in Hf; by simplify_eq. }
  destruct (policy_creates_iff p m) as [Hc1 Hc2].
  destruct (Enabled p && domainAllowed EqualFold p m) eqn:Hpol.
  2: { split.
       - destruct (Enabled p); [|done]. cbn [andb] in Hpol. by rewrite Hpol.
       - intros (_ & _ & [u' s1' Hf|? ? ? ? ? ? _ Hc]); [congruence|]. apply Hc1 in Hc as [Hen Hc]. rewrite Hen, Hc in Hpol. done. }
  apply andb_true_iff in Hpol as Hpol2. destruct Hpol2 as [Hen Hdom]. rewrite Hen, Hdom. cbn [negb].
  set (name := if bool_decide (TrimSpace given = "") then _ else _).
  pose proof (λ name', new_name_iff given m name') as Hname. fold name in Hname.
  unfold unusablePasswordHash. destruct random as [bytes|]; cbn [fmap option_fmap option_map].
  2: { split; [done|]. intros (_ & _ & [u' s1' Hf|? ? ? ? ? ? _ _ Hr]); congruence. }
  unfold wrapping, auth_call, Service_CreateUser. cbn [users set_users].
  destruct (as_CreateUser e 0 (normalized m) ("fed:" +:+ hex_EncodeToString bytes) (TrimSpace name) s1) as [[made|err'] s2] eqn:Hmake; cbn.
  - split.
    + intros [= <- <- <-]. split_and!; [done..|]. change (set_users s2 (set_users s1 w)) with (set_users s2 w).
      eapply account_created; [done|by apply Hc2|done|by apply Hname|done].
    + intros (_ & _ & [u' s1' Hf|u' ? ? s2' bytes' name' Hf _ Hr Hn Hcr]); [congruence|].
      rewrite Hfind in Hf. simplify_eq. apply Hname in Hn as ->. rewrite Hmake in Hcr. by simplify_eq.
  - split; [done|]. intros (_ & _ & [u' s1' Hf|u' ? ? s2' bytes' name' Hf _ Hr Hn Hcr]); [congruence|].
    rewrite Hfind in Hf. simplify_eq. apply Hname in Hn as ->. by rewrite Hmake in Hcr.
Qed.

Lemma policy_role_level p role level :
  policy_role p role → ranked role level → role = jitRole p ∧ level = jitRoleLevel p.
Proof.
  intros Hr Hl. assert (role = jitRole p) as -> by (unfold jitRole; destruct Hr as [[Hd ->]|[Hd ->]]; by case_bool_decide).
  split; [done|]. unfold jitRoleLevel. destruct Hl as [| | | |role Hn]; [done..|].
  rewrite !not_elem_of_cons in Hn. do 4 (rewrite bool_decide_false by tauto). done.
Qed.
Lemma jitRole_policy p : policy_role p (jitRole p).
Proof. unfold policy_role, jitRole. case_bool_decide; tauto. Qed.
Lemma jitRoleLevel_ranked p : ranked (jitRole p) (jitRoleLevel p).
Proof.
  unfold jitRoleLevel. do 4 (case_bool_decide as E; [rewrite E; constructor|revert E]). intros.
  constructor. rewrite !not_elem_of_cons. split_and!; [done..|]. apply not_elem_of_nil.
Qed.
Lemma signed_in_after b e tenant x a res w : signed_in b e tenant x a res w = after_login b e tenant x a res w.
Proof.
  unfold signed_in, after_login, logSuccessfulLogin, ignore, auth_call, RememberRefreshToken.
  destruct (as_CreateRefreshToken _ _ _ _) as [[[]|err] s1]; destruct (audited b); cbn; rewrite ?app_nil_r; done.
Qed.

(** C26: A login through an external provider succeeds exactly when the provider is
    the tenant's, is active and names what it has to; the assertion has not expired (five
    minutes of skew), tells of a second factor if the policy requires one, and comes
    from a domain the policy allows; and its address is valid and is that of an account,
    or else the policy creates accounts, for that domain, and the store takes a new one
    that no password opens.  The tokens are for that account in that tenant with the role
    of the policy at its rank; the refresh token is stored and the login is logged. *)
Theorem bridge_exact b e r tenant i a w res w' :
  HandleAssertion EqualFold ParseAddress b e r tenant i a w = (Ok res, w') ↔
  ∃ x w1 role level, externals w !! i = Some x ∧ x_TenantID x = tenant ∧ x_IsActive x = true ∧ valid_provider x ∧
    (a_ExpiresAt a = 0 ∨ now e ≤ a_ExpiresAt a + ClockSkew b)%Z ∧ policy_admits (x_JITPolicy x) a ∧
    normalized (a_Email a) ≠ "" ∧ ParseAddress (normalized (a_Email a)) = true ∧
    account e (salt r) (normalized (a_Email a)) (a_DisplayName a) (x_JITPolicy x) w (b_User res) (ProvisionedNew res) w1 ∧
    policy_role (x_JITPolicy x) role ∧ ranked role level ∧
    CreateAccessToken e (JWT b) (jti r 0) (uuid_String (u_ID (b_User res))) (uuid_String tenant) role level [uuid_String tenant] =
      Ok (b_AccessToken res) ∧
    CreateRefreshToken e (JWT b) (jti r 1) (uuid_String (u_ID (b_User res))) = Ok (b_RefreshToken res) ∧
    w' = after_login b e tenant x a res w1.
Proof.
  rewrite HandleAssertion_run. unfold admitted, user_claims. split.
  - intros (x & w1 & Hx & (Ht & Hact & Hv & Hp & Hexp) & Hprov & Hacc & Href & ->).
    apply Provision_iff in Hprov as (Hne & Hparse & Haccount). exists x, w1, (jitRole (x_JITPolicy x)), (jitRoleLevel (x_JITPolicy x)).
    split_and!; auto using jitRole_policy, jitRoleLevel_ranked.
    + by apply Validate_external_iff.
    + by apply EnforceJITPolicy_iff.
    + apply signed_in_after.
  - intros (x & w1 & role & level & Hx & Ht & Hact & Hv & Hexp & Hp & Hne & Hparse & Haccount & Hr & Hl & Hacc & Href & ->).
    destruct (policy_role_level _ _ _ Hr Hl) as [-> ->]. exists x, w1. split_and!; auto.
    + by apply Validate_external_iff.
    + by apply EnforceJITPolicy_iff.
    + by apply Provision_iff.
    + symmetry. apply signed_in_after.
Qed.

(** ** What is not checked *)

(** A response without a signature, that names somebody and tells of a second factor. *)
Definition forged (email : string) : xml :=
  Elem "Response" []
    [Elem "Assertion" []
       [Elem "Subject" [] [Elem "NameID" [] [CharData email]];
        Elem "AuthnStatement" [] [Elem "AuthnContext" [] [Elem "AuthnContextClassRef" [] [CharData "mfa"]]]]].
Definition forged_assertion (email : string) : Assertion :=
  {| a_Subject := email; a_Email := ToLower (TrimSpace email); a_DisplayName := ""; a_Attributes := ∅; a_AuthnContext := "mfa";
     a_IssuedAt := 0; a_ExpiresAt := 0 |}.
(** Policies that name no domains, or one that is that of an address. *)
Definition allows_address (p : JITPolicy) (email : string) : Prop :=
  AllowedDomains p = [] ∨ ∃ d dom, d ∈ AllowedDomains p ∧ email_domain email dom ∧ EqualFold d (ToLower dom) = true.
Lemma forged_admitted p email :
  allows_address p (ToLower (TrimSpace email)) → EnforceJITPolicy EqualFold p (forged_assertion email) = None.
Proof.
  intros Hp. apply EnforceJITPolicy_iff. split.
  - intros _. exists "mfa". split; [|by left]. exists "", "". unfold ToLower. cbn [a_AuthnContext forged_assertion].
    change (runes "mfa") with [109; 102; 97]%N. cbn [fmap list_fmap]. by rewrite !lower_rune_ascii by lia.
  - destruct Hp as [?|(d & dom & Hin & Hdom & Hf)]; [by left|right]. exists d, dom. split_and!; [done..|]. by left.
Qed.
Lemma ValidateSAMLResponse_forged x doc bytes email :
  x_Provider x = ProviderSAML → TrimSpace doc ≠ "" → padded_Decode StdAlphabet doc = Some bytes → ReadXML bytes = Some (forged email) → email ≠ "" →
  ValidateSAMLResponse x doc = Ok (forged_assertion email).
Proof.
  intros Hp Hd Hb Hx He. unfold ValidateSAMLResponse. rewrite Hp, bool_decide_true by done. cbn [negb].
  rewrite bool_decide_false by done. unfold ParseResponseUnverified. rewrite Hb. cbn [mbind option_bind]. rewrite Hx.
  change (Some (forged email) ≫= response_of) with
    (Some [{| IssueInstant := ""; NameID := strings_Join "" [email]; NotOnOrAfter := ""; AttributeStatements := []; ClassRefs := ["mfa"] |}]).
  cbv beta iota zeta. cbn [strings_Join NameID].
  change (raw_attributes [{| IssueInstant := ""; NameID := email; NotOnOrAfter := ""; AttributeStatements := []; ClassRefs := ["mfa"] |}]) with (∅ : gmap string string).
  assert (omap (λ source, (∅ : gmap string string) !! source) (x_AttributeMapping x ∪ defaultAttributeMapping) = ∅) as ->.
  { apply map_eq. intros k. rewrite lookup_omap. destruct (_ !! k); cbn; by rewrite ?lookup_empty. }
  rewrite lookup_empty. cbn [fmap list_fmap NameID]. rewrite filter_cons, decide_True by done. cbn [head].
  rewrite bool_decide_false by done. unfold forged_assertion. rewrite lookup_insert_eq. cbn [default from_option id]. done.
Qed.
(** A user who is found is not provisioned. *)
Lemma Provision_existing e rnd email dn p w user s1 :
  ToLower (TrimSpace email) ≠ "" → ParseAddress (ToLower (TrimSpace email)) = true →
  as_GetUserByEmail (normalized (ToLower (TrimSpace email))) (users w) = (Ok user, s1) →
  Provision EqualFold ParseAddress e rnd email dn p w = (Ok (user, false), set_users s1 w).
Proof.
  intros He Hp Hu. unfold Provision. rewrite bool_decide_false, Hp by done. cbn [negb]. unfold mbind, prog_bind, try, auth_call, Service_GetUserByEmail.
  by rewrite Hu.
Qed.

(** C27: whoever fetches a state at the start of a SAML login of an active provider signs
    in as any user that exists and whose address is in a domain the policy of the provider
    allows (any user, when it names no domains), in the tenant of the provider and with
    the role of its policy, by posting a response that nobody signed; a policy that
    requires a second factor is met by writing one into the response, and the user need
    not belong to the tenant nor be active.  The response has to come within the half
    hour the state lives, and the service has to be able to make tokens. *)
Theorem unsigned_response_signs_in e0 e1 drawn rnd s tenant i x w url doc bytes email user s1 access refresh :
  externals w !! i = Some x → x_TenantID x = tenant → x_IsActive x = true → Validate_external x = None → x_Provider x = ProviderSAML →
  allows_address (x_JITPolicy x) (ToLower (TrimSpace email)) →
  let claims := {| TenantID := tenant; ExternalIdPID := i; iat := unix (now e0) |} in
  let state := signState hmac_hex s claims in
  reads_claims claims → (∀ key msg, hmac_hex key msg ≠ "") → (wrap64 (unix (now e1) - unix (now e0)) ≤ 1800)%Z →
  AuthorizationURL with_query e0 drawn x (exchanger s) (callbackURL s x tenant) state = Ok url → uuid_String i ≠ "" →
  doc ≠ "" → TrimSpace doc ≠ "" → padded_Decode StdAlphabet doc = Some bytes → ReadXML bytes = Some (forged email) → email ≠ "" →
  ToLower (TrimSpace (ToLower (TrimSpace email))) ≠ "" → ParseAddress (ToLower (TrimSpace (ToLower (TrimSpace email)))) = true →
  as_GetUserByEmail (normalized (ToLower (TrimSpace (ToLower (TrimSpace email))))) (users w) = (Ok user, s1) →
  user_claims e1 (bridge s) (jti rnd 0) tenant (x_JITPolicy x) user = Ok access →
  CreateRefreshToken e1 (JWT (bridge s)) (jti rnd 1) (uuid_String (u_ID user)) = Ok refresh →
  StartFederation hmac_hex with_query e0 drawn s {| Path := ""; Query := {["external_idp_id" := uuid_String i]}; Form := ∅; form_ok := true |} tenant w =
    (Ok (Redirect url), w) ∧
  ∃ w', SAMLACS EqualFold ParseAddress hmac_hex decode_claims e1 rnd s
      {| Path := ""; Query := ∅; Form := <["SAMLResponse" := doc]> {["RelayState" := state]}; form_ok := true |} tenant w =
    (Ok (Tokens {| b_User := user; b_AccessToken := access; b_RefreshToken := refresh; ProvisionedNew := false |}), w').
Proof.
  intros Hx Hten Hact Hval Hprov Henf%forged_admitted claims state Hreads Hhmac Hage Hurl Hi Hdoc Htrim Hdec Hxml Hemail Hne Hparse Huser Hacc Href. split.
  - unfold StartFederation, value. cbn [Query]. rewrite lookup_singleton_eq. cbn [default from_option id].
    unfold mbind, prog_bind, reject_if, served, sp_Get, throw, mret, prog_ret. rewrite bool_decide_false by done. cbv beta iota.
    rewrite uuid_Parse_String, Hx. rewrite bool_decide_true, Hact by done. cbn [negb orb]. rewrite Hval. cbv beta iota zeta.
    unfold of_outcome. fold claims. fold state. by rewrite Hurl.
  - unfold SAMLACS, value. cbn [Form form_ok]. rewrite lookup_insert_eq, lookup_insert_ne, lookup_singleton_eq by done. cbn [default from_option id negb].
    unfold mbind, prog_bind, reject_if, throw, mret, prog_ret. rewrite bool_decide_false by done. cbv beta iota zeta.
    unfold callback_provider.
    assert (verifyState hmac_hex decode_claims e1 s state = Some claims) as -> by (by apply signed_state_verifies). cbn [claims TenantID ExternalIdPID].
    unfold mbind, prog_bind, reject_if, served at 1, sp_Get at 1, throw, mret, prog_ret. rewrite bool_decide_true by done. cbn [negb]. rewrite Hx.
    unfold served at 1. rewrite Hval. cbv beta iota. unfold sign_in. cbn [fst snd ExternalIdPID].
    rewrite (ValidateSAMLResponse_forged x doc bytes email) by done. unfold mbind, prog_bind, served.
    pose proof (Provision_existing e1 (salt rnd) (ToLower (TrimSpace email)) "" (x_JITPolicy x) w user s1 Hne Hparse Huser) as Hp.
    set (res := {| b_User := user; b_AccessToken := access; b_RefreshToken := refresh; ProvisionedNew := false |}).
    change (ExternalIdPID claims) with i. eexists. assert (HandleAssertion EqualFold ParseAddress (bridge s) e1 rnd tenant i (forged_assertion email) w =
      (Ok res, signed_in (bridge s) e1 tenant x (forged_assertion email) res (set_users s1 w))) as ->.
    { apply HandleAssertion_run. exists x, (set_users s1 w). split_and!; try done. unfold admitted. split_and!; try done. by left. }
    done.
Qed.

(** ** Provisioned users *)

(** A user the bridge provisions has no password: no log-in with a password
    succeeds, for any password, while that row stands. *)
Theorem provisioned_without_password e rnd email dn p w user w' :
  (∀ e n m h d s u s', as_CreateUser e n m h d s = (Ok u, s') → u_PasswordHash u = h) →
  Provision EqualFold ParseAddress e rnd email dn p w = (Ok (user, true), w') →
  ∀ svc e' r m password st st', as_GetUserByEmail (normalized m) st = (Ok user, st') →
    Login svc e' r m password st = (Err genericErr, st').
Proof.
  intros Hstore Hprov svc e' r m password st st' Hfound. assert (∃ h, u_PasswordHash user = "fed:" +:+ h) as [h Hh].
  { unfold Provision in Hprov. destruct (bool_decide _); [done|]. destruct (negb _); [done|]. unfold mbind, prog_bind, try in Hprov.
    destruct (auth_call _ w) as [[u|err] w0]; [done|]. destruct (negb _); [done|]. destruct (negb _); [done|].
    unfold unusablePasswordHash in Hprov. destruct rnd as [b|]; cbn [fmap option_fmap] in Hprov; [|done].
    unfold wrapping, auth_call, Service_CreateUser, option_map in Hprov. cbv beta iota zeta in Hprov.
    destruct (as_CreateUser _ _ _ _ _ _) as [[u|err'] s1] eqn:Hu; [|done]. injection Hprov as <- _. eexists. by eapply Hstore. }
  unfold Login, check_credentials, mbind, prog_bind, try. rewrite Hfound. destruct (u_IsActive user); [|done].
  cbn [negb]. rewrite Hh. done.
Qed.

(** ** Providers and their configuration *)

(** A provider that was built serves its tenant until it is invalidated, whatever
    becomes of the configuration: of a tenant switched off, too; and an invalidation that
    runs while a provider is being built does not keep the old one out. *)
Theorem provider_outlives_configuration r i w :
  (∀ p w1 e c w2, Get r i w = (Ok p, w1) → Update e c w1 = (Ok tt, w2) → Get r i w2 = (Ok p, w2)) ∧
  (∀ c p e c' w1 w2, Registry_Get i w = (Ok c, w) → build_provider r c = Ok p → Update e c' w = (Ok tt, w1) →
     Get_store i p (Invalidate i w1) = (Ok p, w2) → Get r i w2 = (Ok p, w2)).
Proof.
  split.
  - intros p w1 e c w2 Hget Hup. assert (cache w1 !! i = Some p) as Hc.
    { unfold Get in Hget. destruct (cache w !! i) as [q|] eqn:Hq; [congruence|]. unfold mbind, prog_bind, Registry_Get, of_outcome, Get_store in Hget.
      destruct (tenants w !! i); [|done]. destruct (build_provider _ _); [|done]. rewrite Hq in Hget. injection Hget as <- <-.
      cbn [set_cache cache]. by rewrite lookup_insert_eq. }
    unfold Update in Hup. destruct (Validate_tenant c); [done|]. destruct (tenants w1 !! _); [|done]. injection Hup as <-.
    unfold Get. cbn [set_tenants cache]. by rewrite Hc.
  - intros c p e c' w1 w2 _ _ _ Hst. unfold Get_store, Invalidate in Hst. cbn [set_cache cache] in Hst. rewrite lookup_delete_eq in Hst.
    injection Hst as <-. unfold Get. cbn [set_cache cache]. by rewrite lookup_insert_eq.
Qed.

(** ** What one side issues the other reads *)

(** A map filled from a list whose keys do not repeat. *)
Lemma filled_lookup {A B} (f : A → option B) (l : list (string * A)) (m : gmap string B) k :
  NoDup l.*1 →
  foldl (λ m x, match f x.2 with Some v => <[x.1 := v]> m | None => m end) m l !! k =
    match (list_to_map l : gmap string A) !! k ≫= f with Some v => Some v | None => m !! k end.
Proof.
  revert m. induction l as [|[k' a] l IH]; intros m Hnd; [done|]. cbn [fmap list_fmap fst] in Hnd. apply NoDup_cons in Hnd as [Hk' Hnd].
  cbn [foldl fst snd list_to_map foldr uncurry curry]. rewrite IH by done. destruct (decide (k = k')) as [->|Hk].
  - rewrite lookup_insert_eq, (not_elem_of_list_to_map_1 l k' Hk'). cbn [mbind option_bind]. destruct (f a); [by rewrite lookup_insert_eq|done].
  - rewrite lookup_insert_ne by done. destruct (_ ≫= f); [done|]. destruct (f a); [by rewrite lookup_insert_ne|done].
Qed.
Lemma filled_omap {A B} (f : A → option B) (l : list (string * A)) (m : gmap string A) :
  l ≡ₚ map_to_list m → foldl (λ m x, match f x.2 with Some v => <[x.1 := v]> m | None => m end) ∅ l = omap f m.
Proof.
  intros Hl. assert (NoDup l.*1) as Hnd by (rewrite Hl; apply NoDup_fst_map_to_list). apply map_eq. intros k.
  rewrite filled_lookup, lookup_empty, lookup_omap by done. assert ((list_to_map l : gmap string A) = m) as ->.
  { rewrite <-(list_to_map_to_list m). by apply list_to_map_proper. }
  by destruct (m !! k ≫= f).
Qed.
Definition some_values (vs : list string) : option (list string) := if bool_decide (vs = []) then None else Some vs.
Lemma sorted_perm e m : sortedAttributes e m ≡ₚ map_to_list m.
Proof. unfold sortedAttributes. rewrite sort_slice_perm. apply (range_perm (MapRange := order e)). Qed.
Lemma foldl_fmap_ext {A B D} (g : D → B → D) (h : D → A → D) (f : A → B) l d :
  (∀ d y, g d (f y) = h d y) → foldl g d (f <$> l) = foldl h d l.
Proof. intros E. revert d. induction l as [|y l IH]; intros d; [done|]. cbn. by rewrite E, IH. Qed.
Lemma built_statements (atts : list (string * list string)) :
  concat (if bool_decide (atts = []) then [] else [attribute_of <$> atts]) = attribute_of <$> atts.
Proof. case_bool_decide; [by subst|]. cbn. by rewrite app_nil_r. Qed.

(** What the receiver takes each of its attributes from: the first value of the
    attribute its mapping names, and the subject when no e-mail address is found. *)
Definition received (mapping : gmap string string) (inp : AssertionInput) : gmap string string :=
  let found := omap (λ source, Attributes inp !! source ≫= head) (mapping ∪ defaultAttributeMapping) in
  match found !! "email" with Some _ => found | None => <["email" := in_NameID inp]> found end.

(** A response that the identity provider of a tenant issues is accepted as a login
    from it: the subject, the attributes that have values, the context and the times
    are those of the issue. *)
Theorem issued_response_accepted e ids p inp sp signed x :
  AllowedSPs (cfg p) !! in_SPEntityID inp = Some sp →
  let a := assertion_input e p sp inp in
  let assertion := buildAssertion ids a in
  let resp := buildResponse ids (Saml.EntityID (cfg p)) (sp_ACSURL sp) (issueInstant a) (InResponseTo inp) (TrimSpace (WriteToString assertion)) in
  reads_back assertion → reads_back resp →
  (∀ doc, SignEnveloped (private p) (certificate p) (normal resp) = Some doc → enveloped (normal resp) doc ∧ reads_back doc) →
  Format_RFC3339 (issueInstant a) ≠ "" → Format_RFC3339 (notOnOrAfter a) ≠ "" →
  x_Provider x = ProviderSAML → signed ≠ "" → IssueAssertion e ids p inp = Ok signed →
  let flat := received (x_AttributeMapping x) inp in
  ValidateSAMLResponse x (padded_Encode StdAlphabet signed) =
    Ok {| a_Subject := in_NameID inp; a_Email := ToLower (TrimSpace (default "" (flat !! "email"))); a_DisplayName := display_name flat;
          a_Attributes := omap some_values (Attributes inp); a_AuthnContext := authnContextClassRef a;
          a_IssuedAt := default 0%Z (Parse_RFC3339 (Format_RFC3339 (issueInstant a)));
          a_ExpiresAt := default 0%Z (Parse_RFC3339 (Format_RFC3339 (notOnOrAfter a))) |}.
Proof.
  intros Hsp a assertion resp Hra Hrr Hsign Hi Hn Hp Hs Hissue flat.
  pose proof (issued_reads e ids p inp sp signed Hsp Hra Hrr Hsign Hissue) as Hread.
  assert (in_NameID inp ≠ "") as Hname by (unfold IssueAssertion in Hissue; rewrite Hsp in Hissue; by case_bool_decide).
  fold a in Hread. rewrite assertion_of_built in Hread.
  unfold ValidateSAMLResponse, ParseResponseUnverified. rewrite Hp, bool_decide_true by done. cbn [negb].
  rewrite TrimSpace_graphic by apply padded_Encode_graphic. rewrite bool_decide_false by by apply padded_Encode_nonempty.
  rewrite padded_Decode_Encode, Hread. cbn [NameID IssueInstant NotOnOrAfter AttributeStatements ClassRefs].
  unfold raw_attributes, multi_attributes. cbn [fmap list_fmap concat AttributeStatements NameID]. rewrite app_nil_r, built_statements.
  change (nameID a) with (in_NameID inp). rewrite (bool_decide_false (in_NameID inp = "")) by done.
  rewrite (filter_cons _ (in_NameID inp)), decide_True by done. cbn [head].
  assert (authnContextClassRef a ≠ "") as Hctx by (clear; unfold a, assertion_input; cbv zeta; cbn [authnContextClassRef]; by case_bool_decide).
  rewrite (filter_cons _ (authnContextClassRef a)), decide_True by done. cbn [head default from_option id].
  rewrite !(foldl_fmap_ext _ (λ m y, match head y.2 with Some v => <[y.1 := v]> m | None => m end)) by (intros m [k [|v vs]]; done).
  rewrite !(foldl_fmap_ext _ (λ m y, match some_values y.2 with Some v => <[y.1 := v]> m | None => m end)) by
    (intros m [k [|v vs]]; done).
  rewrite !(filled_omap _ _ (Attributes inp)) by apply sorted_perm.
  assert (omap (λ source, omap (head (A:=string)) (Attributes inp) !! source) (x_AttributeMapping x ∪ defaultAttributeMapping) =
    omap (λ source, Attributes inp !! source ≫= head) (x_AttributeMapping x ∪ defaultAttributeMapping)) as ->.
  { apply omap_ext. intros ? source _. by rewrite lookup_omap. }
  unfold parseSAMLTime. rewrite !bool_decide_false by done. done.
Qed.
(** ** The form *)

(** What is put into an attribute of the form has no quote and no angle bracket, so
    no value of a request leaves its attribute. *)
Theorem escaped_stays_in_attribute t :
  Forall (λ ch, ch ∉ String.list_ascii_of_string (htmlEscape t)) [dq; "<"%char; ">"%char; "'"%char].
Proof.
  apply Forall_forall. intros ch Hch. rewrite !elem_of_cons in Hch. unfold htmlEscape.
  induction t as [|a t IH]; cbn [replace_chars]; [apply not_elem_of_nil|]. rewrite list_ascii_app, not_elem_of_app. split; [|done].
  clear IH. repeat (case_bool_decide; [subst a; destruct Hch as [->|[->|[->|[->|[]%not_elem_of_nil]]]]; apply (bool_decide_unpack _); by vm_compute|]).
  cbn [String.list_ascii_of_string]. apply not_elem_of_cons. split; [|apply not_elem_of_nil].
  destruct Hch as [->|[->|[->|[->|[]%not_elem_of_nil]]]]; congruence.
Qed.
End federation.

(** ** Examples *)

(** Documents as texts; those of a list are read. *)
Fixpoint toy_write (x : xml) : string :=
  match x with
  | Elem t attrs ch =>
      "<" +:+ t +:+ strings_Join "" ((λ kv, " " +:+ kv.1 +:+ "=" +:+ kv.2) <$> attrs) +:+ ">" +:+ strings_Join "" (toy_write <$> ch) +:+ "</>"
  | CharData s => s
  end.
Definition toy_sign (x : xml) : option xml :=
  match x with Elem t attrs ch => Some (Elem t attrs (ch ++ [Elem "ds:Signature" [] []])) | CharData _ => None end.
Lemma toy_sign_enveloped x doc : toy_sign x = Some doc → enveloped x doc.
Proof. destruct x as [t attrs ch|]; [|done]. cbn. intros [= <-]. by exists t, attrs, ch, (Elem "ds:Signature" [] []). Qed.
Definition toy_saml (docs : list xml) : SAMLLib := {|
  rsa_PrivateKey := unit; Certificate := string; Raw := id; ReadXML := λ s, head (filter (λ x, toy_write x = s) docs);
  WriteToString := toy_write; SignEnveloped := λ _ _, toy_sign; Format_RFC3339 := λ t, pretty t;
  Parse_RFC3339 := λ s, if bool_decide (s = "0") then Some 0%Z else Some (20 * Second)%Z; url_ok := λ _, true; ParseCertPEM := Some |}.

Section examples.
#[local] Existing Instances toy_jwt binary_uuid_text ascii_case toy_kdf identity_sha256.

Definition ex_idp docs : @IdentityProvider (toy_saml docs) := {|
  cfg := {| Saml.EntityID := "idp"; SSOURL := "https://idp/sso"; CurrentKey := None; PreviousKey := None; Saml.AssertionLifetime := (5 * Minute)%Z;
            AllowedSPs := {["sp" := {| sp_EntityID := "sp"; sp_ACSURL := "https://sp/acs"; SigningCertificate := None |}]} |};
  private := (tt : rsa_PrivateKey (SAMLLib := toy_saml docs)); certificate := ("cert" : Certificate (SAMLLib := toy_saml docs)) |}.
Definition ex_sp docs : @SPRegistration (toy_saml docs) := {| sp_EntityID := "sp"; sp_ACSURL := "https://sp/acs"; SigningCertificate := None |}.
Definition ex_issue : AssertionInput := {|
  in_SPEntityID := "sp"; InResponseTo := "_req"; in_NameID := "7"; NameIDFormat := "";
  Attributes := {["email" := ["Ada@example.org"]; "first_name" := ["Ada"]; "groups" := []]}; AuthnContextClassRef := ""; in_IssueInstant := 0 |}.
Definition ex_ids (n : nat) : string := pretty n.
Definition ex_assertion docs : xml := buildAssertion (L := toy_saml docs) ex_ids (assertion_input (L := toy_saml docs) (ex_env 20 1) (ex_idp docs) (ex_sp docs) ex_issue).
Definition ex_response docs : xml :=
  let a := assertion_input (L := toy_saml docs) (ex_env 20 1) (ex_idp docs) (ex_sp docs) ex_issue in
  buildResponse (L := toy_saml docs) ex_ids "idp" "https://sp/acs" (issueInstant a) "_req" (TrimSpace (toy_write (ex_assertion docs))).
Definition ex_signed : xml := default (CharData "") (toy_sign (normal (ex_response [normal (ex_assertion [])]))).
Definition ex_docs : list xml := [normal (ex_assertion []); normal (ex_response [normal (ex_assertion [])]); normal ex_signed].
Definition ex_external (prov : string) : TenantExternalIdP := {|
  x_ID := 5%N; x_TenantID := 9%N; x_Provider := prov; x_DisplayName := "Acme"; x_EntityID := "idp"; x_MetadataURL := "https://idp/sso";
  x_ClientID := ""; x_ClientSecret := ""; x_SigningCertificatePEM := "cert"; x_AttributeMapping := ∅;
  x_JITPolicy := {| Enabled := true; DefaultRole := "admin"; AllowedDomains := ["example.org"]; RequireMFA := true |}; x_IsActive := true;
  x_CreatedAt := 0; x_UpdatedAt := 0 |}.

Lemma issued_response_accepted_witness :
  let flat := received ∅ ex_issue in
  ValidateSAMLResponse (L := toy_saml ex_docs) (ex_external ProviderSAML) (padded_Encode StdAlphabet (toy_write ex_signed)) =
    Ok {| a_Subject := "7"; a_Email := ToLower (TrimSpace (default "" (flat !! "email"))); a_DisplayName := display_name flat;
          a_Attributes := omap some_values (Attributes ex_issue); a_AuthnContext := "urn:oasis:names:tc:SAML:2.0:ac:classes:PasswordProtectedTransport";
          a_IssuedAt := (20 * Second)%Z; a_ExpiresAt := (20 * Second)%Z |}.
Proof.
  apply (issued_response_accepted (L := toy_saml ex_docs) (ex_env 20 1) ex_ids (ex_idp ex_docs) ex_issue (ex_sp ex_docs) (toy_write ex_signed) (ex_external ProviderSAML)).
  - done.
  - split; by vm_compute.
  - split; by vm_compute.
  - intros doc Hdoc. split; [by apply toy_sign_enveloped|]. assert (Some doc = Some ex_signed) as E by (rewrite <-Hdoc; by vm_compute).
    apply (inj Some) in E as ->. split; by vm_compute.
  - by vm_compute.
  - by vm_compute.
  - done.
  - by vm_compute.
  - by vm_compute.
Defined.

(** A server with a user who is not active and belongs to no tenant. *)
Definition ex_email : string := "ada@example.org".
Definition forged_docs : list xml := [forged ex_email].
Definition ex_user : User := {|
  u_ID := 3%N; u_Email := ex_email; u_PasswordHash := "h"; u_DisplayName := "Ada"; u_AvatarURL := ""; u_IsActive := false; u_CreatedAt := 0 |}.
Definition ex_world : World (L := toy_saml forged_docs) (St := memoryState) := {|
  tenants := ∅; externals := {[5%N := ex_external ProviderSAML]}; cache := ∅;
  users := Devstore.set_users {[3%N := ex_user]} {[ex_email := 3%N]} NewMemoryBackend; audit := [] |}.
Definition ex_bridge : Bridge := NewBridge ex_manager true.
Definition ex_stack : Stack (L := toy_saml forged_docs) := {|
  resolver := {| Current := None; Previous := None |}; bridge := ex_bridge; exchanger := None; BaseURL := "https://ao"; StateSecret := "s" |}.
Definition ex_hmac (key msg : string) : string := "mac of " +:+ msg.
Definition ex_query (u : string) (_ : list (string * string)) : option string := Some u.
Definition ex_claims : stateClaims := {| TenantID := 9%N; ExternalIdPID := 5%N; iat := 20 |}.
Definition ex_decode_claims (s : string) : option stateClaims := if bool_decide (s = encode_claims ex_claims) then Some ex_claims else None.
Definition text_of_outcome {E} (o : outcome E string) : string := match o with Ok s => s | Err _ => "" end.
Definition ex_state : string := signState ex_hmac ex_stack ex_claims.
Definition ex_url : string :=
  text_of_outcome (AuthorizationURL (L := toy_saml forged_docs) ex_query (ex_env 20 1) "d" (ex_external ProviderSAML) None
    (callbackURL ex_stack (ex_external ProviderSAML) 9%N) ex_state).
Definition ex_access : string := text_of_outcome (user_claims (ex_env 30 1) ex_bridge "r0" 9%N (x_JITPolicy (ex_external ProviderSAML)) ex_user).
Definition ex_refresh : string := text_of_outcome (CreateRefreshToken (ex_env 30 1) ex_manager "r1" (uuid_String 3%N)).

Lemma unsigned_response_signs_in_witness :
  u_IsActive ex_user = false ∧
  StartFederation (L := toy_saml forged_docs) ex_hmac ex_query (ex_env 20 1) "d" ex_stack
    {| Path := ""; Query := {["external_idp_id" := uuid_String 5%N]}; Form := ∅; form_ok := true |} 9%N ex_world = (Ok (Redirect ex_url), ex_world) ∧
  ∃ w', SAMLACS (L := toy_saml forged_docs) String.eqb any_address ex_hmac ex_decode_claims (ex_env 30 1) (ex_rand "r") ex_stack
      {| Path := ""; Query := ∅; Form := <["SAMLResponse" := padded_Encode StdAlphabet (toy_write (forged ex_email))]> {["RelayState" := ex_state]};
         form_ok := true |} 9%N ex_world =
    (Ok (Tokens {| b_User := ex_user; b_AccessToken := ex_access; b_RefreshToken := ex_refresh; ProvisionedNew := false |}), w').
Proof.
  split; [done|].
  apply (unsigned_response_signs_in (L := toy_saml forged_docs) String.eqb any_address ex_hmac ex_query ex_decode_claims (ex_env 20 1) (ex_env 30 1) "d" (ex_rand "r") ex_stack
    9%N 5%N (ex_external ProviderSAML) ex_world ex_url (padded_Encode StdAlphabet (toy_write (forged ex_email))) (toy_write (forged ex_email)) ex_email ex_user
    (users ex_world) ex_access ex_refresh).
  - done.
  - done.
  - done.
  - done.
  - done.
  - right. exists "example.org", "example.org". split; [by left|]. split; [|by vm_compute].
    exists "ada". split; [by vm_compute|]. apply (bool_decide_unpack _). by vm_compute.
  - by vm_compute.
  - intros key msg. done.
  - by vm_compute.
  - by vm_compute.
  - by vm_compute.
  - by vm_compute.
  - by vm_compute.
  - by vm_compute.
  - by vm_compute.
  - done.
  - by vm_compute.
  - by vm_compute.
  - by vm_compute.
  - by vm_compute.
  - by vm_compute.
Defined.

Definition ex_provisioned : (User * bool) * World (L := toy_saml forged_docs) (St := memoryState) :=
  run (ex_user, false) (Provision (L := toy_saml forged_docs) String.eqb any_address (ex_env 20 7) (Some "salt") "New@example.org" "New" (x_JITPolicy (ex_external ProviderSAML)) ex_world).
Lemma run_pair {X E A} (d : A * bool) (p : outcome E (A * bool) * X) :
  is_Ok p.1 = true → (run d p).1.2 = true → p = (Ok ((run d p).1.1, true), (run d p).2).
Proof. destruct p as [[[y b]|err] st]; cbn; [|done]. by intros _ ->. Qed.
Lemma ex_provisioned_Ok :
  Provision (L := toy_saml forged_docs) String.eqb any_address (ex_env 20 7) (Some "salt") "New@example.org" "New" (x_JITPolicy (ex_external ProviderSAML)) ex_world =
    (Ok (ex_provisioned.1.1, true), ex_provisioned.2).
Proof. unfold ex_provisioned. apply run_pair; by vm_compute. Qed.
Lemma dev_CreateUser_hash e n m h d s u s' : dev_CreateUser e n m h d s = (Ok u, s') → u_PasswordHash u = h.
Proof. unfold dev_CreateUser. cbv zeta. case_match; [done|]. by intros [= <- _]. Qed.
Lemma provisioned_without_password_witness :
  u_IsActive ex_provisioned.1.1 = true ∧
  Login ex_service (ex_env 30 1) (ex_rand "r") "new@example.org" "any" (users ex_provisioned.2) = (Err genericErr, users ex_provisioned.2).
Proof.
  split; [by vm_compute|].
  apply (provisioned_without_password (L := toy_saml forged_docs) String.eqb any_address (ex_env 20 7) (Some "salt") "New@example.org" "New" (x_JITPolicy (ex_external ProviderSAML))
    ex_world ex_provisioned.1.1 ex_provisioned.2).
  - exact dev_CreateUser_hash.
  - exact ex_provisioned_Ok.
  - by vm_compute.
Defined.
End examples.
