(* ===== verification/Webfetch.v ===== *)
(** * Outbound fetches (platform/webfetch)

    The policy of a client, the checks of a URL and the fetch with its redirects.
    The parts of Go's net package the checks use are defined here: [net.ParseIP] and
    the classes of addresses.  What the resolver answers, and how a peer answers a
    request, is the record [Network]; answers of the resolver may change from one
    question to the next, and the transport asks again when it dials.  [net/http] is
    read as: a request is sent, a redirect it would follow is submitted to
    [CheckRedirect] first. *)

From S2P Require Import Prelude Encoding Password.

(** ** net: addresses as their bytes *)

Abbreviation ip := (list N) (only parsing).

(** A field of a dotted address: no sign, no leading zero, at most 255. *)
Definition ipv4_field (l : list ascii) : option N :=
  match l with
  | [] => None
  | [a] => if is_digit_byte a then Some (byte_of a - 48)%N else None
  | a :: _ =>
      if bool_decide (a = "0"%char) then None
      else if forallb is_digit_byte l && bool_decide (length l ≤ 3)%nat then
        let n := foldl (λ acc d, acc * 10 + (byte_of d - 48))%N 0%N l in
        if bool_decide (n ≤ 255)%N then Some n else None
      else None
  end.
Definition parseIPv4 (s : string) : option ip :=
  match split_on "." s with
  | [a; b; c; d] => mapM (λ x, ipv4_field (String.list_ascii_of_string x)) [a; b; c; d]
  | _ => None
  end.

(** Up to four hexadecimal digits and what follows them. *)
Fixpoint hex_group (n : nat) (l : list ascii) : nat * N * list ascii :=
  match n, l with
  | S n, a :: rest =>
      match hex_value a with
      | None => (0, 0%N, l)
      | Some d => let '(k, v, r) := hex_group n rest in (S k, (d * 16 ^ N.of_nat k + v)%N, r)
      end
  | _, _ => (0, 0%N, l)
  end.
(** The loop of [netip.parseIPv6]: the bytes so far, and where the ellipsis was. *)
Fixpoint ipv6_loop (fuel : nat) (acc : ip) (ellipsis : option nat) (l : list ascii) :
    option (ip * option nat * list ascii) :=
  match fuel with
  | O => Some (acc, ellipsis, l)
  | S fuel =>
      match hex_group 4 l with
      | (O, _, _) => None
      | (_, v, rest) =>
          match rest with
          | [] => Some (acc ++ [(v / 256)%N; (v mod 256)%N], ellipsis, [])
          | c :: rest' =>
              if bool_decide (c = "."%char) then
                if (bool_decide (ellipsis = None) && negb (bool_decide (length acc = 12)%nat))
                   || bool_decide (16 < length acc + 4)%nat then None
                else match parseIPv4 (String.string_of_list_ascii l) with
                     | None => None
                     | Some v4 => Some (acc ++ v4, ellipsis, [])
                     end
              else if bool_decide (c = ":"%char) then
                let acc := acc ++ [(v / 256)%N; (v mod 256)%N] in
                match rest' with
                | [] => None
                | d :: rest'' =>
                    if bool_decide (d = ":"%char) then
                      if bool_decide (ellipsis = None) then
                        match rest'' with
                        | [] => Some (acc, Some (length acc), [])
                        | _ => ipv6_loop fuel acc (Some (length acc)) rest''
                        end
                      else None
                    else ipv6_loop fuel acc ellipsis rest'
                end
              else None
          end
      end
  end.
Definition parseIPv6 (s : string) : option ip :=
  let l := String.list_ascii_of_string s in
  let parsed :=
    match l with
    | a :: b :: rest =>
        if bool_decide (a = ":"%char) && bool_decide (b = ":"%char) then
          match rest with [] => Some ([], Some 0, []) | _ => ipv6_loop 8 [] (Some 0) rest end
        else ipv6_loop 8 [] None l
    | _ => ipv6_loop 8 [] None l
    end in
  match parsed with
  | Some (acc, ellipsis, []) =>
      match ellipsis with
      | None => if bool_decide (length acc = 16)%nat then Some acc else None
      | Some i => if bool_decide (length acc < 16)%nat
                  then Some (take i acc ++ replicate (16 - length acc) 0%N ++ drop i acc) else None
      end
  | _ => None
  end.

Definition v4_prefix : ip := replicate 10 0%N ++ [255%N; 255%N].
(** [net.ParseIP]: in sixteen bytes; the first of the three characters decides. *)
Definition ParseIP (s : string) : option ip :=
  match filter (λ a, a = "."%char ∨ a = ":"%char ∨ a = "%"%char) (String.list_ascii_of_string s) with
  | "."%char :: _ => v4 ← parseIPv4 s; Some (v4_prefix ++ v4)
  | ":"%char :: _ => parseIPv6 s
  | _ => None
  end.

Definition To4 (a : ip) : option ip :=
  if bool_decide (length a = 4)%nat then Some a
  else if bool_decide (length a = 16)%nat && bool_decide (take 12 a = v4_prefix) then Some (drop 12 a) else None.
Definition at_ (a : ip) (i : nat) : N := nth i a 0%N.
Definition IPv6loopback : ip := replicate 15 0%N ++ [1%N].
Definition IsLoopback (a : ip) : bool :=
  match To4 a with Some v4 => bool_decide (at_ v4 0 = 127%N) | None => bool_decide (a = IPv6loopback) end.
Definition IsPrivate (a : ip) : bool :=
  match To4 a with
  | Some v4 =>
      bool_decide (at_ v4 0 = 10%N)
      || bool_decide (at_ v4 0 = 172%N) && bool_decide (N.land (at_ v4 1) 240 = 16%N)
      || bool_decide (at_ v4 0 = 192%N) && bool_decide (at_ v4 1 = 168%N)
  | None => bool_decide (length a = 16)%nat && bool_decide (N.land (at_ a 0) 254 = 252%N)
  end.
Definition IsLinkLocalUnicast (a : ip) : bool :=
  match To4 a with
  | Some v4 => bool_decide (at_ v4 0 = 169%N) && bool_decide (at_ v4 1 = 254%N)
  | None => bool_decide (length a = 16)%nat && bool_decide (at_ a 0 = 254%N)
            && bool_decide (N.land (at_ a 1) 192 = 128%N)
  end.
Definition IsUnspecified (a : ip) : bool :=
  bool_decide (To4 a = Some (replicate 4 0%N)) || bool_decide (a = replicate 16 0%N).
Definition IsMulticast (a : ip) : bool :=
  match To4 a with
  | Some v4 => bool_decide (N.land (at_ v4 0) 240 = 224%N)
  | None => bool_decide (length a = 16)%nat && bool_decide (at_ a 0 = 255%N)
  end.

(** ** The policy *)

Inductive fetch_error : Type := ErrPolicyViolation | ErrTooManyRedirects | ErrResponseTooLarge.
#[export] Instance fetch_error_eq_dec : EqDecision fetch_error.
Proof. solve_decision. Defined.
Abbreviation werr := (goerr fetch_error) (only parsing).
(** [fmt.Errorf] with a first [%w]. *)
Definition violation (msg : string) : werr := Wrapf msg (Sentinel ErrPolicyViolation).

Definition DefaultMaxResponseBytes : Z := (10 * 1024 * 1024)%Z.
Definition DefaultMaxRedirects : Z := 5.
Definition DefaultConnectTimeout : duration := (10 * Second)%Z.
Definition DefaultReadTimeout : duration := (60 * Second)%Z.
Definition DefaultUserAgent : string := "aocyber-webfetch/1.0".

Record Policy : Type := {
  AllowedSchemes : list string;
  DenyPrivateIPs : bool;
  DenyHostsRegexp : list string;
  AllowHostsRegexp : list string;
  MaxResponseBytes : Z;
  MaxRedirects : Z;
  AllowedRedirectSchemes : list string;
  ConnectTimeout : duration;
  ReadTimeout : duration;
  UserAgent : string;
  AdditionalHeaders : gmap string string;
}.
Definition SafeDefault : Policy :=
  {| AllowedSchemes := ["http"; "https"]; DenyPrivateIPs := true; DenyHostsRegexp := []; AllowHostsRegexp := [];
     MaxResponseBytes := DefaultMaxResponseBytes; MaxRedirects := DefaultMaxRedirects;
     AllowedRedirectSchemes := ["http"; "https"]; ConnectTimeout := DefaultConnectTimeout;
     ReadTimeout := DefaultReadTimeout; UserAgent := DefaultUserAgent; AdditionalHeaders := ∅ |}.
Definition or_schemes (l d : list string) : list string := if bool_decide (length l = 0)%nat then d else l.
Definition or_positive (n d : Z) : Z := if bool_decide (n ≤ 0)%Z then d else n.
Definition applyDefaults (p : Policy) : Policy :=
  let schemes := or_schemes (AllowedSchemes p) ["http"; "https"] in
  {| AllowedSchemes := schemes; DenyPrivateIPs := DenyPrivateIPs p; DenyHostsRegexp := DenyHostsRegexp p;
     AllowHostsRegexp := AllowHostsRegexp p;
     MaxResponseBytes := or_positive (MaxResponseBytes p) DefaultMaxResponseBytes;
     MaxRedirects := or_positive (MaxRedirects p) DefaultMaxRedirects;
     AllowedRedirectSchemes := or_schemes (AllowedRedirectSchemes p) schemes;
     ConnectTimeout := or_positive (ConnectTimeout p) DefaultConnectTimeout;
     ReadTimeout := or_positive (ReadTimeout p) DefaultReadTimeout;
     UserAgent := if bool_decide (UserAgent p = "") then DefaultUserAgent else UserAgent p;
     AdditionalHeaders := AdditionalHeaders p |}.

(** [url.URL], as far as it is looked at: [Hostname()] and [String()]. *)
Record URL : Type := { Scheme : string; Hostname : string; url_String : string }.

(** regexp and [strings.EqualFold]. *)
Class TextLib : Type := {
  Regexp : Type;
  Compile : string → option Regexp;
  MatchString : Regexp → string → bool;
  EqualFold : string → string → bool;
}.

Section webfetch.
Context {C : UnicodeCase} {T : TextLib}.

Record Client : Type := { policy : Policy; denyHosts : list Regexp; allowHosts : list Regexp }.

Definition compileRegexps (patterns : list string) : outcome werr (list Regexp) :=
  foldl (λ acc p, match acc with
                  | Err err => Err err
                  | Ok out => match Compile p with
                              | None => Err (Wrapf "compile" (Errorf "regexp"))
                              | Some re => Ok (out ++ [re])
                              end
                  end) (Ok []) patterns.
Definition matchAny (rxs : list Regexp) (s : string) : bool := any (λ rx, MatchString rx s) rxs.
Definition schemeAllowed (scheme : string) (allowed : list string) : bool := any (λ a, EqualFold a scheme) allowed.

Definition NewClient (p : Policy) : outcome werr Client :=
  let p := applyDefaults p in
  match compileRegexps (DenyHostsRegexp p) with
  | Err err => Err (Wrapf "webfetch: deny regexps" err)
  | Ok deny =>
      match compileRegexps (AllowHostsRegexp p) with
      | Err err => Err (Wrapf "webfetch: allow regexps" err)
      | Ok allow => Ok {| policy := p; denyHosts := deny; allowHosts := allow |}
      end
  end.

Definition checkIPDeny (a : ip) : outcome werr unit :=
  if IsLoopback a then Err (violation "loopback IP")
  else if IsPrivate a then Err (violation "private IP")
  else if IsLinkLocalUnicast a then Err (violation "link-local IP")
  else if IsUnspecified a then Err (violation "unspecified IP")
  else if IsMulticast a then Err (violation "multicast IP")
  else Ok tt.

(** ** The network *)

(** A body is its bytes and whether it ends without an error. *)
Record http_response : Type := {
  StatusCode : Z; ContentType : string; Headers : gmap string string; stream : string; ends_well : bool }.
Inductive hop : Type := Failed | Redirected (u : URL) | Answered (r : http_response).
(** [LookupIP n host] is the answer to the [n]-th question, [None] an error; a
    connection goes to one of the addresses of the answer, which [pick] chooses.
    [forward] is what net/http sends of the headers when it follows a redirect: it
    drops credentials for another host and adds a referer. *)
Record Network : Type := {
  LookupIP : nat → string → option (list ip);
  pick : list ip → option ip;
  peer : ip → URL → gmap string string → hop;
  forward : URL → URL → gmap string string → gmap string string;
}.
(** The questions asked so far, and the requests sent, the last one first. *)
Record traffic : Type := { asked : nat; sent : list (URL * ip) }.

Definition resolve (nw : Network) (host : string) : prog traffic werr (option (list ip)) := λ t,
  (Ok (LookupIP nw (asked t) host), {| asked := S (asked t); sent := sent t |}).

Definition blocked_hostnames : list string := ["localhost"; "localhost.localdomain"; "metadata.google.internal"].

Fixpoint check_all (addrs : list ip) : outcome werr unit :=
  match addrs with
  | [] => Ok tt
  | a :: rest => match checkIPDeny a with Err err => Err err | Ok _ => check_all rest end
  end.
Definition denyPrivateIP (nw : Network) (host : string) : prog traffic werr unit :=
  match ParseIP host with
  | Some a => of_outcome (checkIPDeny a)
  | None =>
      if bool_decide (ToLower host ∈ blocked_hostnames) then throw (violation "host is blocked")
      else
        addrs ← resolve nw host;
        match addrs with
        | None => mret tt
        | Some addrs => of_outcome (check_all addrs)
        end
  end.

Definition validateURL (c : Client) (nw : Network) (u : URL) : prog traffic werr unit :=
  if bool_decide (Hostname u = "") then throw (violation "no host in URL")
  else if matchAny (allowHosts c) (Hostname u) then mret tt
  else if matchAny (denyHosts c) (Hostname u) then throw (violation "host matches deny pattern")
  else if DenyPrivateIPs (policy c) then denyPrivateIP nw (Hostname u)
  else mret tt.

(** [CheckRedirect], with [len(via)]. *)
Definition CheckRedirect (c : Client) (nw : Network) (via : nat) (u : URL) : prog traffic werr unit :=
  if bool_decide (MaxRedirects (policy c) ≤ Z.of_nat via)%Z then throw (Sentinel ErrTooManyRedirects)
  else if negb (schemeAllowed (Scheme u) (AllowedRedirectSchemes (policy c)))
  then throw (violation "redirect scheme not allowed")
  else validateURL c nw u.

(** The transport dials an address of its own: the literal one, or what the resolver
    answers now. *)
Definition dial (nw : Network) (u : URL) : prog traffic werr ip :=
  addr ← (match ParseIP (Hostname u) with
          | Some a => mret (Some a)
          | None => addrs ← resolve nw (Hostname u); mret (addrs ≫= pick nw)
          end);
  match addr with
  | None => throw (Errorf "dial")
  | Some a => _ ← modify (λ t, {| asked := asked t; sent := (u, a) :: sent t |}); mret a
  end.

(** [http.Client.Do]; [via] requests have been sent before. *)
Fixpoint Do (fuel : nat) (c : Client) (nw : Network) (header : gmap string string) (via : nat) (u : URL) :
    prog traffic werr (URL * http_response) :=
  match fuel with
  | O => throw (Errorf "out of fuel")
  | S fuel =>
      a ← dial nw u;
      match peer nw a u header with
      | Failed => throw (Errorf "request")
      | Answered r => mret (u, r)
      | Redirected u' => _ ← CheckRedirect c nw (S via) u'; Do fuel c nw (forward nw u u' header) (S via) u'
      end
  end.
(** Enough fuel for every chain of redirects ([Do_enough]). *)
Definition enough (c : Client) : nat := S (Z.to_nat (MaxRedirects (policy c))).

Definition surfaced (err : werr) : werr :=
  if errors_Is err ErrTooManyRedirects || errors_Is err ErrPolicyViolation then err
  else Wrapf "webfetch: request" err.

(** ** Fetch *)

Record Result : Type := {
  res_URL : string; res_StatusCode : Z; res_ContentType : string; Body : string; BytesRead : Z;
  res_Headers : gmap string string; Truncated : bool; Redirects : list string }.

(** [io.ReadAll(io.LimitReader(resp.Body, max+1))]. *)
Definition read_limited (max : Z) (r : http_response) : option string :=
  let limit := wrap64 (max + 1) in
  if bool_decide (limit ≤ 0)%Z then Some ""
  else if bool_decide (limit ≤ len (stream r))%Z then Some (String.substring 0 (Z.to_nat limit) (stream r))
  else if ends_well r then Some (stream r) else None.

Definition request_headers (e : Env) (c : Client) (header : gmap string string) : gmap string string :=
  foldl (λ h '(k, v), Header_Set k v h) (Header_Set "User-Agent" (UserAgent (policy c)) header)
    (range (MapRange := order e) (AdditionalHeaders (policy c))).

Definition FetchWith (e : Env) (c : Client) (nw : Network) (u : URL) (header : gmap string string) :
    prog traffic werr Result :=
  _ ← validateURL c nw u;
  _ ← reject_if (negb (schemeAllowed (Scheme u) (AllowedSchemes (policy c)))) (violation "scheme not allowed");
  done ← try (Do (enough c) c nw (request_headers e c header) 0 u);
  match done with
  | Err err => throw (surfaced err)
  | Ok (last, resp) =>
      match read_limited (MaxResponseBytes (policy c)) resp with
      | None => throw (Errorf "webfetch: read body")
      | Some body =>
          let truncated := bool_decide (MaxResponseBytes (policy c) < len body)%Z in
          let body := if truncated then String.substring 0 (Z.to_nat (MaxResponseBytes (policy c))) body else body in
          mret {| res_URL := url_String last; res_StatusCode := StatusCode resp; res_ContentType := ContentType resp;
                  Body := body; BytesRead := len body; res_Headers := Headers resp; Truncated := truncated;
                  Redirects := [] |}
      end
  end.

(** [url.Parse] makes the request of a target, or fails. *)
Definition Fetch (e : Env) (c : Client) (nw : Network) (Parse : string → option URL) (target : string) :
    prog traffic werr Result :=
  match Parse target with
  | None => throw (Errorf "webfetch: new request")
  | Some u => FetchWith e c nw u ∅
  end.
End webfetch.
