(* ===== verification/WebfetchProofs.v ===== *)
(** * Theorems on outbound fetches

    Which addresses are refused; what every request of a fetch has passed, how many
    there are and how much of the answer is kept; and what a resolver that changes
    its answer makes of it. *)

From S2P Require Import Prelude Encoding Password Webfetch.

(** ** Addresses *)

Lemma below_256 (P : N → bool) (n : N) : forallb (λ k, P (N.of_nat k)) (seq 0 256) = true → (n < 256)%N → P n = true.
Proof.
  intros Hall Hn. rewrite forallb_forall in Hall. specialize (Hall (N.to_nat n)). rewrite N2Nat.id in Hall.
  apply Hall, in_seq. lia.
Qed.
Lemma land_240 v n : v = 16%N ∨ v = 224%N → (n < 256)%N → N.land n 240 = v ↔ (v ≤ n < v + 16)%N.
Proof.
  intros Hv Hn. pose (P n := bool_decide (N.land n 240 = v ↔ (v ≤ n < v + 16)%N)).
  assert (P n = true) as Hp by (apply below_256; [destruct Hv as [-> | ->]; by vm_compute|done]).
  by apply bool_decide_eq_true in Hp.
Qed.

(** The five classes together. *)
Definition refused (a : list N) : bool :=
  IsLoopback a || IsPrivate a || IsLinkLocalUnicast a || IsUnspecified a || IsMulticast a.
Lemma checkIPDeny_refused a : checkIPDeny a = Ok tt ↔ refused a = false.
Proof.
  unfold checkIPDeny, refused.
  destruct (IsLoopback a), (IsPrivate a), (IsLinkLocalUnicast a), (IsUnspecified a), (IsMulticast a); done.
Qed.

Definition mapped (a b c d : N) : list N := v4_prefix ++ [a; b; c; d].

(** Of the IPv4 addresses, also in their IPv6 form, exactly these are
    refused: 10/8, 127/8, 169.254/16, 172.16/12, 192.168/16, multicast and 0.0.0.0;
    in particular the shared range 100.64/10 and 0.0.0.1 to 0.255.255.255 are not. *)
Theorem denied_v4 a b c d :
  (a < 256)%N → (b < 256)%N →
  (checkIPDeny (mapped a b c d) = Ok tt ↔ checkIPDeny [a; b; c; d] = Ok tt) ∧
  (checkIPDeny (mapped a b c d) ≠ Ok tt ↔
   a = 10%N ∨ a = 127%N ∨ (a = 169%N ∧ b = 254%N) ∨ (a = 172%N ∧ (16 ≤ b < 32)%N) ∨ (a = 192%N ∧ b = 168%N) ∨
   (224 ≤ a < 240)%N ∨ (a = 0%N ∧ b = 0%N ∧ c = 0%N ∧ d = 0%N)).
Proof.
  intros Ha Hb.
  assert (To4 (mapped a b c d) = Some [a; b; c; d] ∧ To4 [a; b; c; d] = Some [a; b; c; d]) as [H1 H2] by done.
  pose proof (land_240 16 b (or_introl eq_refl) Hb) as Hl. pose proof (land_240 224 a (or_intror eq_refl) Ha) as Hm.
  change (16 + 16)%N with 32%N in Hl. change (224 + 16)%N with 240%N in Hm.
  assert (Some [a; b; c; d] = Some (replicate 4 0%N) ↔ a = 0%N ∧ b = 0%N ∧ c = 0%N ∧ d = 0%N) as Hz
    by (split; [by intros [= -> -> -> ->]|by intros (-> & -> & -> & ->)]).
  rewrite !checkIPDeny_refused, not_false_iff_true.
  unfold refused, IsLoopback, IsPrivate, IsLinkLocalUnicast, IsUnspecified, IsMulticast. rewrite H1, H2.
  cbn [at_ nth]. rewrite (bool_decide_false (mapped a b c d = replicate 16 0%N)) by done.
  rewrite (bool_decide_false ([a; b; c; d] = replicate 16 0%N)) by done. split; [done|].
  rewrite !orb_true_iff, !andb_true_iff, !bool_decide_eq_true, Hl, Hm, Hz. intuition (done || discriminate).
Qed.

(** ** What every request has passed *)

Section fetch.
Context {C : UnicodeCase} {T : TextLib}.
Implicit Types (c : Client) (nw : Network) (u : URL) (t : traffic).

(** The resolver has answered that no address of the host is refused, or not answered. *)
Definition clean_answer (answer : option (list (list N))) : Prop :=
  match answer with None => True | Some addrs => (∀ a, a ∈ addrs → refused a = false) end.
Definition cleared c nw u : Prop :=
  Hostname u ≠ "" ∧
  (matchAny (allowHosts c) (Hostname u) = true ∨
   matchAny (denyHosts c) (Hostname u) = false ∧
   (DenyPrivateIPs (policy c) = true →
    match ParseIP (Hostname u) with
    | Some a => refused a = false
    | None => (ToLower (Hostname u) ∉ blocked_hostnames) ∧ (∃ n, clean_answer (LookupIP nw n (Hostname u)))
    end)).

Lemma check_all_Ok addrs : check_all addrs = Ok tt ↔ (∀ a, a ∈ addrs → refused a = false).
Proof.
  rewrite <-(Forall_forall (λ a, refused a = false)). induction addrs as [|a addrs IH]; [done|]. cbn [check_all].
  rewrite Forall_cons, <-IH, <-checkIPDeny_refused. destruct (checkIPDeny a) as [[]|err]; [tauto|]. naive_solver.
Qed.

Lemma validateURL_inv c nw u t r t' :
  validateURL c nw u t = (r, t') → sent t' = sent t ∧ (r = Ok tt → cleared c nw u).
Proof.
  unfold validateURL, cleared. case_bool_decide as Hh; [by intros [= <- <-]|].
  destruct (matchAny (allowHosts c) (Hostname u)) eqn:Hal; [intros [= <- <-]; auto|].
  destruct (matchAny (denyHosts c) (Hostname u)) eqn:Hde; [by intros [= <- <-]|].
  destruct (DenyPrivateIPs (policy c)); [|intros [= <- <-]; naive_solver]. unfold denyPrivateIP.
  destruct (ParseIP (Hostname u)) as [a|].
  - unfold of_outcome. intros [= <- <-]. split; [done|]. intros Ha%checkIPDeny_refused. auto.
  - case_bool_decide as Hb; [by intros [= <- <-]|]. unfold resolve. cbv [mbind prog_bind].
    destruct (LookupIP nw (asked t) (Hostname u)) as [addrs|] eqn:Hl.
    + unfold of_outcome. intros [= <- <-]. split; [done|]. intros Ha. split; [done|]. right. split; [done|].
      intros _. split; [done|]. exists (asked t). rewrite Hl. exact (proj1 (check_all_Ok addrs) Ha).
    + intros [= <- <-]. split; [done|]. intros _. split; [done|]. right. split; [done|]. intros _.
      split; [done|]. exists (asked t). by rewrite Hl.
Qed.

(** A request that was sent: its URL was cleared, and to a literal address it goes. *)
Definition lawful c nw (x : URL * list N) : Prop :=
  cleared c nw x.1 ∧ (∀ a, ParseIP (Hostname x.1) = Some a → x.2 = a) ∧
  (schemeAllowed (Scheme x.1) (AllowedSchemes (policy c)) = true ∨
   schemeAllowed (Scheme x.1) (AllowedRedirectSchemes (policy c)) = true).

Lemma dial_inv nw u t r t' :
  dial nw u t = (r, t') →
  (sent t' = sent t ∧ ∃ err, r = Err err) ∨ ∃ a, sent t' = (u, a) :: sent t ∧ r = Ok a ∧ ∀ x, ParseIP (Hostname u) = Some x → a = x.
Proof.
  unfold dial. cbv [mbind prog_bind resolve mret prog_ret throw modify].
  destruct (ParseIP (Hostname u)) as [a|].
  - intros [= <- <-]. right. exists a. split; [done|]. split; [done|]. by intros x [= ->].
  - destruct (option_bind _ _ (pick nw) _) as [a|]; intros [= <- <-]; [right; by exists a|left; eauto].
Qed.

Lemma Do_lawful fuel c nw h via u t r t' :
  cleared c nw u →
  (schemeAllowed (Scheme u) (AllowedSchemes (policy c)) = true ∨
   schemeAllowed (Scheme u) (AllowedRedirectSchemes (policy c)) = true) →
  (Z.of_nat via < MaxRedirects (policy c))%Z → Do fuel c nw h via u t = (r, t') →
  ∃ new, sent t' = new ++ sent t ∧ Forall (lawful c nw) new ∧ (Z.of_nat via + Z.of_nat (length new) ≤ MaxRedirects (policy c))%Z.
Proof.
  revert h via u t. induction fuel as [|fuel IH]; intros h via u t Hcl Hsch Hvia; cbn [Do].
  { intros [= <- <-]. exists []. split_and!; [done|done|cbn; lia]. }
  unfold mbind at 1, prog_bind at 1. destruct (dial nw u t) as [rd t1] eqn:Hd.
  apply dial_inv in Hd as [(Hs & err & ->)|(a & Hs & -> & Ha)].
  { intros [= <- <-]. exists []. split_and!; [done|done|cbn; lia]. }
  assert (lawful c nw (u, a)) as Hlaw by (split_and!; [done|intros x Hx; by apply Ha|done]).
  assert (∃ new, sent t1 = new ++ sent t ∧ Forall (lawful c nw) new ∧
    (Z.of_nat via + Z.of_nat (length new) ≤ MaxRedirects (policy c))%Z) as Hone
    by (exists [(u, a)]; split_and!; [done|by constructor|cbn; lia]).
  destruct (peer nw a u h) as [|u'|resp]; [by intros [= <- <-]| |by intros [= <- <-]].
  unfold mbind, prog_bind, CheckRedirect. case_bool_decide; [by intros [= <- <-]|].
  destruct (schemeAllowed (Scheme u') (AllowedRedirectSchemes (policy c))) eqn:Hsc; cbn [negb]; [|by intros [= <- <-]].
  destruct (validateURL c nw u' t1) as [rv t2] eqn:Hv. apply validateURL_inv in Hv as [Hs2 Hcl2].
  destruct rv as [[]|err]; [|intros [= <- <-]; by rewrite Hs2]. intros Hdo.
  apply IH in Hdo as (new & Hnew & Hall & Hlen); [|by apply Hcl2|by right|lia].
  exists (new ++ [(u, a)]). rewrite Hnew, Hs2, Hs, <-app_assoc. split; [done|].
  split; [apply Forall_app; split; [done|by constructor]|]. rewrite length_app. cbn. lia.
Qed.

(** The fuel is never used up. *)
Lemma Do_enough k fuel c nw h via u t :
  (Z.of_nat via ≤ MaxRedirects (policy c) < Z.of_nat via + Z.of_nat fuel)%Z →
  Do (fuel + k) c nw h via u t = Do fuel c nw h via u t.
Proof.
  revert h via u t. induction fuel as [|fuel IH]; intros h via u t Hf; [lia|]. cbn [Nat.add Do].
  unfold mbind, prog_bind. destruct (dial nw u t) as [[a|err] t1]; [|done].
  destruct (peer nw a u h) as [|u'|resp]; [done| |done]. unfold CheckRedirect.
  case_bool_decide; [done|]. destruct (negb _); [done|].
  destruct (validateURL c nw u' t1) as [[[]|err] t2]; [|done]. apply IH. lia.
Qed.

(** C6: with the policy of a client, whatever the peers answer: every request that
    is sent goes to a URL with a host and an allowed scheme that passed the policy
    before, a literal address is the one that was checked, and there are no more
    requests than [MaxRedirects], so that one redirect fewer than the limit names is
    followed. *)
Theorem fetch_stays_in_policy e c nw u h n r t' :
  (0 < MaxRedirects (policy c))%Z →
  FetchWith e c nw u h {| asked := n; sent := [] |} = (r, t') →
  (Z.of_nat (length (sent t')) ≤ MaxRedirects (policy c))%Z ∧
  ∀ v a, (v, a) ∈ sent t' →
    cleared c nw v ∧ (∀ x, ParseIP (Hostname v) = Some x → a = x) ∧
    (schemeAllowed (Scheme v) (AllowedSchemes (policy c)) = true ∨
     schemeAllowed (Scheme v) (AllowedRedirectSchemes (policy c)) = true).
Proof.
  intros Hpos. unfold FetchWith. unfold mbind at 1, prog_bind at 1.
  set (t0 := {| asked := n; sent := [] |}). destruct (validateURL c nw u t0) as [rv t1] eqn:Hv.
  apply validateURL_inv in Hv as [Hs1 Hcl].
  assert ((Z.of_nat (length (sent t1)) ≤ MaxRedirects (policy c))%Z ∧ ∀ v a, (v, a) ∈ sent t1 → lawful c nw (v, a)) as Hnone.
  { rewrite Hs1. cbn. split; [lia|]. intros v a Hx. by apply not_elem_of_nil in Hx. }
  destruct rv as [[]|err]; [|by intros [= <- <-]]. unfold reject_if.
  destruct (schemeAllowed (Scheme u) (AllowedSchemes (policy c))) eqn:Hsc; cbn [negb]; [|by intros [= <- <-]].
  cbv [mbind prog_bind mret prog_ret try]. destruct (Do _ c nw _ 0 u t1) as [rd t2] eqn:Hd.
  apply Do_lawful in Hd as (new & Hnew & Hall & Hlen); [|by apply Hcl|by left|lia].
  rewrite Hs1, app_nil_r in Hnew.
  assert ((Z.of_nat (length (sent t2)) ≤ MaxRedirects (policy c))%Z ∧ ∀ v a, (v, a) ∈ sent t2 → lawful c nw (v, a)) as Hfin.
  { rewrite Hnew. split; [lia|]. intros v a Hx. rewrite Forall_forall in Hall. by apply Hall. }
  destruct rd as [[last resp]|err]; [|by intros [= <- <-]].
  destruct (read_limited _ _); by intros [= <- <-].
Qed.

(** ** The answer *)

Lemma len_substring n s : (n ≤ String.length s)%nat → String.length (String.substring 0 n s) = n.
Proof.
  revert n. induction s as [|a s IH]; intros [|n] Hn; try done; cbn in Hn |- *; [lia|]. rewrite IH; lia.
Qed.

(** The answer is that of the last request. *)
Lemma Do_answered fuel c nw h via u t v resp t' :
  Do fuel c nw h via u t = (Ok (v, resp), t') →
  ∃ a before header, sent t' = (v, a) :: before ∧ peer nw a v header = Answered resp.
Proof.
  revert h via u t. induction fuel as [|fuel IH]; intros h via u t; cbn [Do]; [done|].
  unfold mbind at 1, prog_bind at 1. destruct (dial nw u t) as [rd t1] eqn:Hd.
  apply dial_inv in Hd as [(_ & err & ->)|(a & Hs & -> & _)]; [done|].
  destruct (peer nw a u h) as [|u'|r] eqn:Hp; [done| |intros [= <- <- <-]; eauto].
  unfold mbind, prog_bind. destruct (CheckRedirect _ _ _ _ _) as [[[]|err] t2]; [apply IH|done].
Qed.

(** Of an answer no more than [MaxResponseBytes] is kept; [Truncated] says
    whether there was more, and what is not truncated is all of it. *)
Theorem fetch_body_bounded e c nw u h t res t' :
  (0 < MaxResponseBytes (policy c) < 2 ^ 63 - 1)%Z → FetchWith e c nw u h t = (Ok res, t') →
  ∃ v a before header resp, sent t' = (v, a) :: before ∧ peer nw a v header = Answered resp ∧
    res_URL res = url_String v ∧ (len (Body res) ≤ MaxResponseBytes (policy c))%Z ∧ BytesRead res = len (Body res) ∧
    StatusCode resp = res_StatusCode res ∧
    (Truncated res = true ↔ (MaxResponseBytes (policy c) < len (stream resp))%Z) ∧
    (Truncated res = false → Body res = stream resp).
Proof.
  intros Hmax. unfold FetchWith, reject_if. cbv [mbind prog_bind mret prog_ret try throw].
  destruct (validateURL c nw u t) as [[[]|err] t1]; [|done].
  destruct (negb _); [done|]. destruct (Do _ c nw _ 0 u t1) as [[[last resp]|err] t2] eqn:Hd; [|done].
  destruct (read_limited (MaxResponseBytes (policy c)) resp) as [body|] eqn:Hb; [|done]. intros [= <- <-].
  apply Do_answered in Hd as (a & before & header & Hsent & Hpeer).
  exists last, a, before, header, resp. split; [done|]. split; [done|]. split; [done|].
  cbn [Body BytesRead Truncated res_StatusCode]. revert Hb. unfold read_limited.
  rewrite wrap64_small by lia. rewrite bool_decide_false by lia. unfold len.
  case_bool_decide as Hlong.
  - intros [= <-]. rewrite !len_substring by lia. rewrite Z2Nat.id, bool_decide_true by lia.
    rewrite len_substring; [|rewrite len_substring by lia; lia]. rewrite Z2Nat.id by lia. split_and!; [lia|done|done| |done].
    split; [lia|done].
  - destruct (ends_well resp); [|done]. intros [= <-]. rewrite bool_decide_false by lia.
    split_and!; [lia|done|done| |done]. split; [done|lia].
Qed.

(** ** A resolver that changes its answer *)

(** C5: the host is resolved for the check and again for the connection.  A name
    whose first answer is clean, or missing, and whose second is a refused address is
    fetched from that address, under any policy that denies such addresses. *)
Theorem rebinding_reaches_refused e c nw u h a r body :
  DenyPrivateIPs (policy c) = true → Hostname u ≠ "" →
  matchAny (denyHosts c) (Hostname u) = false → ParseIP (Hostname u) = None →
  ToLower (Hostname u) ∉ blocked_hostnames → schemeAllowed (Scheme u) (AllowedSchemes (policy c)) = true →
  matchAny (allowHosts c) (Hostname u) = false →
  clean_answer (LookupIP nw 0 (Hostname u)) → LookupIP nw 1 (Hostname u) ≫= pick nw = Some a → refused a = true →
  peer nw a u (request_headers e c h) = Answered r → read_limited (MaxResponseBytes (policy c)) r = Some body →
  ∃ res t', FetchWith e c nw u h {| asked := 0; sent := [] |} = (Ok res, t') ∧ sent t' = [(u, a)] ∧
    checkIPDeny a ≠ Ok tt.
Proof.
  intros Hden Hh Hdm Hip Hblk Hsc Ham Hclean Hlook Hbad Hpeer Hread. unfold FetchWith.
  assert (validateURL c nw u {| asked := 0; sent := [] |} = (Ok tt, {| asked := 1; sent := [] |})) as Hv.
  { unfold validateURL, denyPrivateIP, resolve. rewrite bool_decide_false, Ham, Hdm, Hden, Hip, bool_decide_false by done.
    cbv [mbind prog_bind]. cbn [asked sent]. destruct (LookupIP nw 0 (Hostname u)) as [addrs|]; [|done].
    unfold of_outcome. by rewrite (proj2 (check_all_Ok addrs) Hclean). }
  unfold reject_if, mbind, prog_bind. rewrite Hv, Hsc. cbn [negb mret prog_ret].
  unfold try, enough. cbn [Do]. unfold mbind, prog_bind, dial, resolve. rewrite Hip. cbv [mbind prog_bind mret prog_ret].
  cbn [asked sent]. cbv [mbind] in Hlook. rewrite Hlook. cbn [modify]. rewrite Hpeer, Hread. eexists _, _. split; [done|].
  split; [done|]. rewrite checkIPDeny_refused. congruence.
Qed.
End fetch.

(** ** Examples *)

Section examples.
#[local] Existing Instance ascii_case.
#[local] Instance plain_text : TextLib := {|
  Regexp := string; Compile := Some; MatchString := λ re s, bool_decide (re = s);
  EqualFold := λ a b, bool_decide (a = b) |}.
Definition ex_client : Client :=
  {| policy := SafeDefault; denyHosts := []; allowHosts := [] |}.
Definition ex_url : URL := {| Scheme := "http"; Hostname := "rebind.example"; url_String := "http://rebind.example/" |}.
Definition ex_answer : http_response :=
  {| StatusCode := 200; ContentType := "text/plain"; Headers := ∅; stream := "secret"; ends_well := true |}.
(** A name that is 93.184.216.34 when it is checked and 127.0.0.1 when it is dialed. *)
Definition ex_network : Network := {|
  LookupIP := λ n _, Some [if bool_decide (n = 0)%nat then mapped 93 184 216 34 else mapped 127 0 0 1];
  pick := head; peer := λ _ _ _, Answered ex_answer; forward := λ _ _ h, h |}.

Example parsed_addresses :
  ParseIP "127.0.0.1" = Some (mapped 127 0 0 1) ∧ ParseIP "::ffff:10.1.2.3" = Some (mapped 10 1 2 3) ∧
  ParseIP "fe80::1" = Some ([254; 128] ++ replicate 13 0 ++ [1])%N ∧ ParseIP "::" = Some (replicate 16 0%N) ∧
  ParseIP "1:2:3:4:5:6:7:8" = Some [0; 1; 0; 2; 0; 3; 0; 4; 0; 5; 0; 6; 0; 7; 0; 8]%N ∧
  ParseIP "127.0.0.01" = None ∧ ParseIP "2130706433" = None ∧ ParseIP "1::2::3" = None ∧ ParseIP "12345::" = None.
Proof. by vm_compute. Qed.

Lemma denied_v4_witness :
  (checkIPDeny (mapped 100 64 0 1) = Ok tt ↔ checkIPDeny [100; 64; 0; 1]%N = Ok tt) ∧
  (checkIPDeny (mapped 100 64 0 1) ≠ Ok tt ↔
   100%N = 10%N ∨ 100%N = 127%N ∨ (100%N = 169%N ∧ 64%N = 254%N) ∨ (100%N = 172%N ∧ (16 ≤ 64 < 32)%N) ∨
   (100%N = 192%N ∧ 64%N = 168%N) ∨ (224 ≤ 100 < 240)%N ∨ (100%N = 0%N ∧ 64%N = 0%N ∧ 0%N = 0%N ∧ 1%N = 0%N)).
Proof. apply (denied_v4 100 64 0 1); done. Defined.

Definition ex_env : Env := {| now := 0%Z; new_id := λ n, N.of_nat n; order := canonical_range |}.
Definition ex_fetched : outcome (goerr fetch_error) Result * traffic :=
  FetchWith ex_env ex_client ex_network ex_url ∅ {| asked := 0; sent := [] |}.

Lemma fetch_stays_in_policy_witness :
  (Z.of_nat (length (sent ex_fetched.2)) ≤ 5)%Z ∧
  ∀ v a, (v, a) ∈ sent ex_fetched.2 →
    cleared ex_client ex_network v ∧ (∀ x, ParseIP (Hostname v) = Some x → a = x) ∧
    (schemeAllowed (Scheme v) ["http"; "https"] = true ∨ schemeAllowed (Scheme v) ["http"; "https"] = true).
Proof.
  apply (fetch_stays_in_policy ex_env ex_client ex_network ex_url ∅ 0 ex_fetched.1 ex_fetched.2); [done|].
  apply surjective_pairing.
Defined.

Definition ex_result : Result :=
  {| res_URL := "http://rebind.example/"; res_StatusCode := 200; res_ContentType := "text/plain"; Body := "secret";
     BytesRead := 6; res_Headers := ∅; Truncated := false; Redirects := [] |}.
Lemma fetch_body_bounded_witness :
  ∃ v a before header resp, sent ex_fetched.2 = (v, a) :: before ∧ peer ex_network a v header = Answered resp ∧
    res_URL ex_result = url_String v ∧ (len (Body ex_result) ≤ DefaultMaxResponseBytes)%Z ∧
    BytesRead ex_result = len (Body ex_result) ∧ StatusCode resp = res_StatusCode ex_result ∧
    (Truncated ex_result = true ↔ (DefaultMaxResponseBytes < len (stream resp))%Z) ∧
    (Truncated ex_result = false → Body ex_result = stream resp).
Proof.
  apply (fetch_body_bounded ex_env ex_client ex_network ex_url ∅ {| asked := 0; sent := [] |} ex_result ex_fetched.2); [done|].
  by vm_compute.
Defined.

Lemma rebinding_reaches_refused_witness :
  ∃ res t', FetchWith ex_env ex_client ex_network ex_url ∅ {| asked := 0; sent := [] |} = (Ok res, t') ∧
    sent t' = [(ex_url, mapped 127 0 0 1)] ∧ checkIPDeny (mapped 127 0 0 1) ≠ Ok tt.
Proof.
  apply (rebinding_reaches_refused ex_env ex_client ex_network ex_url ∅ _ ex_answer "secret");
    [done|done|done|by vm_compute|by apply (bool_decide_unpack _)|done|done| |done|done|done|by vm_compute].
  intros a ->%list_elem_of_singleton. by vm_compute.
Defined.
End examples.
