(* ===== verification/Storage.v ===== *)
(** * Object storage and attachments (platform/storage, platform/attachments)

    storage.go: the policy of a bucket, the client contract as the class [Client],
    the in-memory client, and the S3 client over minio ([Minio], a parameter);
    attachments.go: the service that ties records to stored objects, and its
    in-memory store; postgres_store.go: its store in a Postgres table, over a connection
    that may fail.  A body is read at once: its bytes, or [None] when reading fails.
    The theorems are in [StorageProofs]. *)

From S2P Require Import Prelude Encoding Password.

Inductive storage_error : Type :=
  | ErrPolicyViolation
  | Storage_ErrNotFound
  | Attachments_ErrNotFound
  | ErrInvalidOwner.
#[export] Instance storage_error_eq_dec : EqDecision storage_error.
Proof. solve_decision. Defined.
Abbreviation serr := (goerr storage_error) (only parsing).

(** ** storage.go *)

Definition DefaultMaxBytes : Z := (100 * 1024 * 1024)%Z.

Record Object : Type := {
  o_Key : string;
  o_ContentType : string;
  o_Size : Z;
  o_ETag : string;
  o_Metadata : gmap string string;
  o_LastModified : time;
}.
Record Policy : Type := { MaxBytes : Z; AllowedTypes : list string; DefaultExpiry : duration }.

Definition IndexByte (s : string) (c : ascii) : option nat := fst <$> list_find (eq c) (String.list_ascii_of_string s).
Definition matchContentType (pattern ct : string) : bool :=
  if bool_decide (pattern = ct) then true
  else if has_suffix "/*" pattern then
    match IndexByte ct "/" with
    | Some i => bool_decide (0 < i)%nat && bool_decide (String.substring 0 i ct = trim_suffix "/*" pattern)
    | None => false
    end
  else false.

Definition max_bytes (p : Policy) : Z := if bool_decide (MaxBytes p = 0)%Z then DefaultMaxBytes else MaxBytes p.
Definition check (p : Policy) (contentType : string) (size : Z) : outcome serr unit :=
  if bool_decide (max_bytes p < size)%Z then Err (Wrapf "size exceeds max" (Sentinel ErrPolicyViolation))
  else if bool_decide (length (AllowedTypes p) = 0)%nat then Ok tt
  else if any (λ allowed, matchContentType allowed contentType) (AllowedTypes p) then Ok tt
  else Err (Wrapf "content-type not in allowlist" (Sentinel ErrPolicyViolation)).
Definition expiry (p : Policy) : duration :=
  if bool_decide (0 < DefaultExpiry p)%Z then DefaultExpiry p else (15 * Minute)%Z.

Class Client (St : Type) : Type := {
  cl_Put : Env → string → option string → string → Z → gmap string string → prog St serr Object;
  cl_Get : string → prog St serr (string * Object);
  cl_Delete : string → prog St serr unit;
  cl_Stat : string → prog St serr Object;
  cl_PresignedPut : Env → string → string → Z → duration → prog St serr string;
  cl_PresignedGet : Env → string → duration → prog St serr string;
}.

(** *** The in-memory client *)

Record storedObj : Type := { data : string; obj : Object }.
Record memoryClient : Type := { bucket : string; policy : Policy; store : gmap string storedObj }.
Definition NewMemoryClient (name : string) (p : Policy) : memoryClient :=
  {| bucket := if bool_decide (name = "") then "memory" else name; policy := p; store := ∅ |}.
Definition with_store (st : gmap string storedObj) (m : memoryClient) : memoryClient :=
  {| bucket := bucket m; policy := policy m; store := st |}.

Fixpoint hex_of (fuel : nat) (n : N) : string :=
  match fuel with
  | O => ""
  | S fuel => (if bool_decide (n < 16)%N then "" else hex_of fuel (n / 16)) +:+ String (hex_digit (n mod 16)) ""
  end.
(** [fmt.Sprintf] with the verb [%x] of a length. *)
Definition hex_len (n : nat) : string := hex_of (S n) (N.of_nat n).

Definition mem_Put (e : Env) (key : string) (body : option string) (contentType : string) (size : Z)
    (metadata : gmap string string) : prog memoryClient serr Object := λ m,
  match check (policy m) contentType size with
  | Err err => (Err err, m)
  | Ok _ =>
      match body with
      | None => (Err (Errorf "storage: read body"), m)
      | Some bytes =>
          if bool_decide (size < len bytes)%Z && bool_decide (0 < size)%Z
          then (Err (Errorf "storage: body larger than declared size"), m)
          else
            let o := {| o_Key := key; o_ContentType := contentType; o_Size := len bytes;
                        o_ETag := hex_len (String.length bytes); o_Metadata := metadata; o_LastModified := now e |} in
            (Ok o, with_store (<[key := {| data := bytes; obj := o |}]> (store m)) m)
      end
  end.
Definition mem_Get (key : string) : prog memoryClient serr (string * Object) := λ m,
  match store m !! key with
  | None => (Err (Sentinel Storage_ErrNotFound), m)
  | Some s => (Ok (data s, obj s), m)
  end.
Definition mem_Delete (key : string) : prog memoryClient serr unit := modify (λ m, with_store (delete key (store m)) m).
Definition mem_Stat (key : string) : prog memoryClient serr Object := λ m,
  match store m !! key with
  | None => (Err (Sentinel Storage_ErrNotFound), m)
  | Some s => (Ok (obj s), m)
  end.
Definition or_expiry (p : Policy) (d : duration) : duration := if bool_decide (d = 0)%Z then expiry p else d.
Definition unix_after (e : Env) (d : duration) : string := pretty ((now e + d) / Second)%Z.
Definition mem_PresignedPut (e : Env) (key contentType : string) (size : Z) (d : duration) :
    prog memoryClient serr string := λ m,
  match check (policy m) contentType size with
  | Err err => (Err err, m)
  | Ok _ => (Ok ("memory://" +:+ bucket m +:+ "/" +:+ key +:+ "?expires=" +:+ unix_after e (or_expiry (policy m) d)
                 +:+ "&type=" +:+ contentType), m)
  end.
Definition mem_PresignedGet (e : Env) (key : string) (d : duration) : prog memoryClient serr string := λ m,
  (Ok ("memory://" +:+ bucket m +:+ "/" +:+ key +:+ "?expires=" +:+ unix_after e (or_expiry (policy m) d) +:+ "&op=get"), m).
#[export] Instance memoryClient_client : Client memoryClient := {|
  cl_Put := mem_Put; cl_Get := mem_Get; cl_Delete := mem_Delete; cl_Stat := mem_Stat;
  cl_PresignedPut := mem_PresignedPut; cl_PresignedGet := mem_PresignedGet |}.

(** *** The S3 client *)

(** minio-go: the object a put reports and a stat finds; its errors by their code. *)
Record minio_stat : Type := {
  ms_ContentType : string; ms_Size : Z; ms_ETag : string; ms_UserMetadata : gmap string string; ms_LastModified : time }.
Class Minio (M : Type) : Type := {
  PutObject : string → string → option string → Z → string → gmap string string → prog M string (Z * string);
  GetObject : string → string → prog M string string;
  StatObject : string → string → prog M string minio_stat;
  RemoveObject : string → string → prog M string unit;
  PresignedPutObject : Env → string → string → duration → prog M string string;
  PresignedGetObject : Env → string → string → duration → prog M string string;
}.

Section s3.
Context {M : Type} {Mi : Minio M}.

Definition minio {A} (msg : string) (m : prog M string A) : prog M serr A := λ s,
  match m s with (Ok a, s) => (Ok a, s) | (Err _, s) => (Err (Errorf msg), s) end.
(** The errors that a stat tells apart. *)
Definition minio_found {A} (msg : string) (m : prog M string A) : prog M serr A := λ s,
  match m s with
  | (Ok a, s) => (Ok a, s)
  | (Err code, s) => (Err (if bool_decide (code = "NoSuchKey") then Sentinel Storage_ErrNotFound else Errorf msg), s)
  end.
Definition stat_object (key : string) (st : minio_stat) : Object :=
  {| o_Key := key; o_ContentType := ms_ContentType st; o_Size := ms_Size st; o_ETag := ms_ETag st;
     o_Metadata := ms_UserMetadata st; o_LastModified := ms_LastModified st |}.

Definition s3_Put (bucket : string) (p : Policy) (e : Env) (key : string) (body : option string) (contentType : string)
    (size : Z) (metadata : gmap string string) : prog M serr Object :=
  match check p contentType size with
  | Err err => throw err
  | Ok _ =>
      '(n, etag) ← minio "storage: put" (PutObject bucket key body size contentType metadata);
      mret {| o_Key := key; o_ContentType := contentType; o_Size := n; o_ETag := etag; o_Metadata := metadata;
              o_LastModified := now e |}
  end.
Definition s3_Get (bucket key : string) : prog M serr (string * Object) :=
  bytes ← minio "storage: get" (GetObject bucket key);
  st ← minio_found "storage: stat" (StatObject bucket key);
  mret (bytes, stat_object key st).
Definition s3_Delete (bucket key : string) : prog M serr unit := minio "storage: delete" (RemoveObject bucket key).
Definition s3_Stat (bucket key : string) : prog M serr Object :=
  st ← minio_found "storage: stat" (StatObject bucket key);
  mret (stat_object key st).
Definition s3_PresignedPut (bucket : string) (p : Policy) (e : Env) (key contentType : string) (size : Z) (d : duration) :
    prog M serr string :=
  match check p contentType size with
  | Err err => throw err
  | Ok _ => minio "storage: presigned put" (PresignedPutObject e bucket key (or_expiry p d))
  end.
Definition s3_PresignedGet (bucket : string) (p : Policy) (e : Env) (key : string) (d : duration) : prog M serr string :=
  minio "storage: presigned get" (PresignedGetObject e bucket key (or_expiry p d)).
Definition s3Client (bucket : string) (p : Policy) : Client M := {|
  cl_Put := s3_Put bucket p; cl_Get := s3_Get bucket; cl_Delete := s3_Delete bucket; cl_Stat := s3_Stat bucket;
  cl_PresignedPut := s3_PresignedPut bucket p; cl_PresignedGet := s3_PresignedGet bucket p |}.

Record Config : Type := {
  Endpoint : string;
  AccessKey : string;
  SecretKey : string;
  UseSSL : bool;
  Region : string;
  Bucket : string;
  UsePathStyle : bool;
}.
(** [connects] is whether [minio.New] takes the options; no bucket is made. *)
Definition NewS3Client (connects : Config → bool) (cfg : Config) (p : Policy) : outcome serr (Client M) :=
  if bool_decide (Endpoint cfg = "") || bool_decide (Bucket cfg = "")
  then Err (Errorf "storage: endpoint and bucket are required")
  else if connects cfg then Ok (s3Client (Bucket cfg) p)
  else Err (Errorf "storage: minio client").
End s3.

(** ** attachments.go *)

Record Owner : Type := { ow_Type : string; ow_ID : string }.
#[export] Instance Owner_eq_dec : EqDecision Owner.
Proof. solve_decision. Defined.
Record Attachment : Type := {
  a_ID : string;
  a_Owner : Owner;
  StorageKey : string;
  Filename : string;
  a_ContentType : string;
  a_Size : Z;
  UploadedBy : string;
  a_Metadata : gmap string string;
  CreatedAt : time;
}.

Class Store (St : Type) : Type := {
  st_Insert : Attachment → prog St serr unit;
  st_GetByID : string → prog St serr Attachment;
  st_ListByOwner : Env → Owner → prog St serr (list Attachment);
  st_Delete : string → prog St serr unit;
}.

(** *** The in-memory store *)

Abbreviation MemoryStore := (gmap string Attachment) (only parsing).
Definition att_Insert (a : Attachment) : prog MemoryStore serr unit := modify (λ m, <[a_ID a := a]> m).
Definition att_GetByID (id : string) : prog MemoryStore serr Attachment := λ m,
  (match m !! id with None => Err (Sentinel Attachments_ErrNotFound) | Some a => Ok a end, m).
Definition att_ListByOwner (e : Env) (owner : Owner) : prog MemoryStore serr (list Attachment) := λ m,
  let out := filter (λ a, a_Owner a = owner) (range_values (R := order e) m) in
  (Ok (sort_slice (λ a b, Before (CreatedAt a) (CreatedAt b)) out), m).
Definition att_Delete (id : string) : prog MemoryStore serr unit := λ m,
  match m !! id with
  | None => (Err (Sentinel Attachments_ErrNotFound), m)
  | Some _ => (Ok tt, delete id m)
  end.
#[export] Instance MemoryStore_store : Store (gmap string Attachment) := {|
  st_Insert := att_Insert; st_GetByID := att_GetByID; st_ListByOwner := att_ListByOwner; st_Delete := att_Delete |}.

(** *** The Postgres store (postgres_store.go) *)

(** What the columns make of a value: the identifiers a UUID column takes, the texts
    a TEXT column takes, what a JSONB column gives back of a map that is marshalled
    into it and unmarshalled from it, and the resolution of TIMESTAMPTZ. *)
Class Columns : Type := {
  pg_uuid : string → option uuid;
  pg_text : string → bool;
  pg_jsonb : gmap string string → option (gmap string string);
  pg_time : time → time;
}.
(** What becomes of a statement: it is answered; it does not reach the database; or it
    is executed, and the connection breaks after [n] rows of its answer. *)
Inductive delivery : Type := Answered | NotSent | Broken (n : nat).
(** The table, keyed by its primary key, and what becomes of the statements to come (of
    the rest, that they are answered).  [unsure] is not in the code: it holds the storage
    keys of the writes that were reported as failed and may have been made, and of the
    deletions that were not made. *)
Record PostgresStore : Type := { table : gmap uuid Attachment; network : list delivery; unsure : gset string }.

Section postgres.
Context {U : UuidText} {K : Columns}.

Definition next_delivery (s : PostgresStore) : delivery := default Answered (head (network s)).
Definition after_statement (rows : gmap uuid Attachment) (lost : gset string) (s : PostgresStore) : PostgresStore :=
  {| table := rows; network := tail (network s); unsure := lost ∪ unsure s |}.
(** [pool.Exec]: [stmt] gives the number of rows affected, or none when the database
    refuses the statement; [lost] what is unsure after a failure of the connection. *)
Definition Exec (lost : delivery → gset string) (stmt : gmap uuid Attachment → option (nat * gmap uuid Attachment)) :
    prog PostgresStore serr nat := λ s,
  match next_delivery s with
  | NotSent => (Err (Errorf "connection"), after_statement (table s) (lost NotSent) s)
  | Answered =>
      match stmt (table s) with
      | None => (Err (Errorf "database"), after_statement (table s) ∅ s)
      | Some (n, rows) => (Ok n, after_statement rows ∅ s)
      end
  | Broken n =>
      (Err (Errorf "connection"),
       match stmt (table s) with
       | None => after_statement (table s) ∅ s
       | Some (_, rows) => after_statement rows (lost (Broken n)) s
       end)
  end.

Definition insert_row (a : Attachment) (rows : gmap uuid Attachment) : option (nat * gmap uuid Attachment) :=
  match pg_uuid (a_ID a), pg_jsonb (a_Metadata a) with
  | Some id, Some md =>
      if forallb pg_text [ow_Type (a_Owner a); ow_ID (a_Owner a); StorageKey a; Filename a; a_ContentType a; UploadedBy a]
         && bool_decide (rows !! id = None)
         && bool_decide (map_Forall (λ _ b, StorageKey b ≠ StorageKey a) rows)
      then Some (1%nat, <[id := {| a_ID := uuid_String id; a_Owner := a_Owner a; StorageKey := StorageKey a;
                                   Filename := Filename a; a_ContentType := a_ContentType a; a_Size := a_Size a;
                                   UploadedBy := UploadedBy a; a_Metadata := md; CreatedAt := pg_time (CreatedAt a) |}]> rows)
      else None
  | _, _ => None
  end.
Definition pg_Insert (a : Attachment) : prog PostgresStore serr unit :=
  _ ← wrapping "attachments: insert"
        (Exec (λ d, match d with Broken _ => {[StorageKey a]} | _ => ∅ end) (insert_row a));
  mret tt.
(** The text of an identifier the column does not take is an error, not a row that is
    not there. *)
Definition pg_GetByID (id : string) : prog PostgresStore serr Attachment := λ s,
  let s' := after_statement (table s) ∅ s in
  match next_delivery s, pg_uuid id with
  | Answered, Some u =>
      match table s !! u with None => (Err (Sentinel Attachments_ErrNotFound), s') | Some a => (Ok a, s') end
  | _, _ => (Err (Wrapf "attachments: scan" (Errorf "database")), s')
  end.
(** The loop over the rows ends when the connection breaks, and its error is not looked
    at. *)
Definition pg_ListByOwner (e : Env) (owner : Owner) : prog PostgresStore serr (list Attachment) := λ s,
  let s' := after_statement (table s) ∅ s in
  let out := sort_slice (λ a b, Before (CreatedAt a) (CreatedAt b))
    (filter (λ a, a_Owner a = owner) (range_values (R := order e) (table s))) in
  if negb (pg_text (ow_Type owner) && pg_text (ow_ID owner)) then (Err (Wrapf "attachments: list" (Errorf "database")), s')
  else match next_delivery s with
       | NotSent => (Err (Wrapf "attachments: list" (Errorf "connection")), s')
       | Answered => (Ok out, s')
       | Broken n => (Ok (take n out), s')
       end.
Definition delete_row (id : string) (rows : gmap uuid Attachment) : option (nat * gmap uuid Attachment) :=
  match pg_uuid id with
  | None => None
  | Some u => Some (match rows !! u with Some _ => 1%nat | None => 0%nat end, delete u rows)
  end.
Definition key_of_row (id : string) (rows : gmap uuid Attachment) : gset string :=
  match pg_uuid id ≫= (λ u, rows !! u) with Some a => {[StorageKey a]} | None => ∅ end.
Definition pg_Delete (id : string) : prog PostgresStore serr unit := λ s,
  (n ← wrapping "attachments: delete" (Exec (λ _, key_of_row id (table s)) (delete_row id));
   if bool_decide (n = 0%nat) then throw (Sentinel Attachments_ErrNotFound) else mret tt) s.
Definition PostgresStore_store : Store PostgresStore := {|
  st_Insert := pg_Insert; st_GetByID := pg_GetByID; st_ListByOwner := pg_ListByOwner; st_Delete := pg_Delete |}.
End postgres.

(** *** The service *)

Section service.
Context {U : UuidText} {Cl St : Type} {CC : Client Cl} {SS : Store St}.

Record attachments : Type := { objects : Cl; records : St }.
Definition on_objects {A} (m : prog Cl serr A) : prog attachments serr A :=
  zoom objects (λ t s, {| objects := t; records := records s |}) m.
Definition on_records {A} (m : prog St serr A) : prog attachments serr A :=
  zoom records (λ t s, {| objects := objects s; records := t |}) m.

Definition default_prefix (prefix : string) : string := if bool_decide (prefix = "") then "attachments/" else prefix.
Definition invalid_owner (o : Owner) : bool := bool_decide (ow_Type o = "") || bool_decide (ow_ID o = "").
Definition storage_key (prefix : string) (o : Owner) (id : string) : string :=
  prefix +:+ ow_Type o +:+ "/" +:+ ow_ID o +:+ "/" +:+ id.
Definition attachment (e : Env) (id : string) (o : Owner) (key filename contentType : string) (size : Z) (by_ : string) :
    Attachment :=
  {| a_ID := id; a_Owner := o; StorageKey := key; Filename := filename; a_ContentType := contentType; a_Size := size;
     UploadedBy := by_; a_Metadata := ∅; CreatedAt := now e |}.

(** [prefix] is that of the service. *)
Definition Attach (prefix : string) (e : Env) (o : Owner) (body : option string) (filename contentType : string) (size : Z)
    (uploadedBy : string) : prog attachments serr Attachment :=
  if invalid_owner o then throw (Sentinel ErrInvalidOwner)
  else
    let id := uuid_String (new_id e 0) in
    let key := storage_key prefix o id in
    _ ← wrapping "attachments: storage put" (on_objects (cl_Put e key body contentType size
      {["owner_type" := ow_Type o; "owner_id" := ow_ID o; "uploaded_by" := uploadedBy]}));
    let att := attachment e id o key filename contentType size uploadedBy in
    inserted ← try (on_records (st_Insert att));
    match inserted with
    | Err err =>
        _ ← ignore (on_objects (cl_Delete key));
        throw (Wrapf "attachments: store insert" err)
    | Ok _ => mret att
    end.

Definition AttachFromKey (e : Env) (o : Owner) (storageKey filename contentType : string) (size : Z) (uploadedBy : string) :
    prog attachments serr Attachment :=
  if invalid_owner o then throw (Sentinel ErrInvalidOwner)
  else
    let att := attachment e (uuid_String (new_id e 0)) o storageKey filename contentType size uploadedBy in
    _ ← wrapping "attachments: store insert" (on_records (st_Insert att));
    mret att.

Definition List_ (e : Env) (o : Owner) : prog attachments serr (list Attachment) :=
  if invalid_owner o then throw (Sentinel ErrInvalidOwner) else on_records (st_ListByOwner e o).
Definition Get (id : string) : prog attachments serr Attachment := on_records (st_GetByID id).
Definition Remove (id : string) : prog attachments serr unit :=
  att ← on_records (st_GetByID id);
  _ ← wrapping "attachments: storage delete" (on_objects (cl_Delete (StorageKey att)));
  wrapping "attachments: store delete" (on_records (st_Delete id)).
Definition PresignedDownload (e : Env) (id : string) (d : duration) : prog attachments serr string :=
  att ← on_records (st_GetByID id);
  on_objects (cl_PresignedGet e (StorageKey att) d).
End service.
