(* ===== verification/StorageProofs.v ===== *)
(** * Theorems on object storage and attachments

    What a put lets through and the sizes it does not see; matching of content types;
    attachments that keep their objects, what an attached object reads back as, and
    what becomes of two attachments that share a key. *)

From S2P Require Import Prelude Encoding Password Storage.

(** ** The policy of a bucket *)

Lemma check_Ok p ct size :
  check p ct size = Ok tt ↔
  (size ≤ max_bytes p)%Z ∧ (AllowedTypes p = [] ∨ ∃ a, a ∈ AllowedTypes p ∧ matchContentType a ct = true).
Proof.
  unfold check. case_bool_decide as Hs; [split; [done|lia]|]. case_bool_decide as Hl.
  - apply nil_length_inv in Hl. rewrite Hl. split; [|done]. intros _. split; [lia|by left].
  - destruct (any _ (AllowedTypes p)) eqn:Ha.
    + apply any_true in Ha. split; [|done]. intros _. split; [lia|by right].
    + rewrite any_false in Ha. split; [done|]. intros [_ [Hn|(a & Hin & Hm)]]; [by rewrite Hn in Hl|].
      by rewrite Ha in Hm.
Qed.

(** A put into the in-memory client succeeds exactly when the declared size is
    at most the limit, the type is allowed and the body, if a positive size is
    declared, is no longer than declared.  A declared size of zero or less therefore
    lets a body of any length in, whatever the limit. *)
Theorem put_exact e key bytes ct size md m :
  ((∃ o m', mem_Put e key (Some bytes) ct size md m = (Ok o, m') ∧ store m' !! key = Some {| data := bytes; obj := o |} ∧
      o_Size o = len bytes) ↔
   check (policy m) ct size = Ok tt ∧ ((0 < size)%Z → (len bytes ≤ size)%Z)) ∧
  (AllowedTypes (policy m) = [] → (0 ≤ max_bytes (policy m))%Z → (size ≤ 0)%Z →
   ∃ o m', mem_Put e key (Some bytes) ct size md m = (Ok o, m') ∧ o_Size o = len bytes).
Proof.
  assert (check (policy m) ct size = Ok tt → ((0 < size)%Z → (len bytes ≤ size)%Z) →
    ∃ o m', mem_Put e key (Some bytes) ct size md m = (Ok o, m') ∧ store m' !! key = Some {| data := bytes; obj := o |} ∧
      o_Size o = len bytes) as Hput.
  { intros Hc Hs. unfold mem_Put. rewrite Hc.
    assert (bool_decide (size < len bytes)%Z && bool_decide (0 < size)%Z = false) as ->.
    { apply andb_false_iff. rewrite !bool_decide_eq_false. destruct (Z.lt_ge_cases 0 size); [left|right]; lia. }
    eexists _, _. split; [done|]. cbn. by rewrite lookup_insert_eq. }
  split; [split|].
  - intros (o & m' & Hok & _ & _). revert Hok. unfold mem_Put. destruct (check _ _ _) as [[]|]; [|done].
    destruct (_ && _) eqn:Hb; [done|]. intros _. split; [done|]. intros Hpos.
    apply andb_false_iff in Hb. rewrite !bool_decide_eq_false in Hb. lia.
  - intros [Hc Hs]. by apply Hput.
  - intros Hall Hmax Hsz. destruct Hput as (o & m' & Hok & _ & Ho); [apply check_Ok; split; [lia|by left]|lia|].
    eauto.
Qed.

(** ** Attachments and their objects, over any client and any store *)


Section laws.
Context {U : UuidText} {Cl St : Type} {CC : Client Cl} {SS : Store St}.

(** What a client promises: [blobs] is what its bucket holds; a call that fails changes
    nothing, or its key is one of those in doubt. *)
Class ClientLaws : Type := {
  blobs : Cl → gmap string string;
  doubted : Cl → gset string;
  put_law e key body ct size md t r t' :
    cl_Put e key body ct size md t = (r, t') →
    match r with
    | Ok _ => (∃ bytes, body = Some bytes ∧ blobs t' = <[key := bytes]> (blobs t)) ∧ doubted t' = doubted t
    | Err _ => (blobs t' = blobs t ∧ doubted t' = doubted t) ∨
               (delete key (blobs t') = delete key (blobs t) ∧ doubted t' = {[key]} ∪ doubted t)
    end;
  delete_law key t r t' :
    cl_Delete key t = (r, t') →
    match r with
    | Ok _ => blobs t' = delete key (blobs t) ∧ doubted t' = doubted t
    | Err _ => delete key (blobs t') = delete key (blobs t) ∧ doubted t' = {[key]} ∪ doubted t
    end;
  get_law key t r t' :
    cl_Get key t = (r, t') →
    blobs t' = blobs t ∧ doubted t' = doubted t ∧ ∀ bytes ob, r = Ok (bytes, ob) → blobs t !! key = Some bytes;
  presign_law e key d t :
    blobs (cl_PresignedGet e key d t).2 = blobs t ∧ doubted (cl_PresignedGet e key d t).2 = doubted t;
}.

(** What becomes of an attachment in a table: its times and metadata may change. *)
Definition recorded (a kept : Attachment) : Prop :=
  a_ID kept = a_ID a ∧ StorageKey kept = StorageKey a ∧ a_Owner kept = a_Owner a.
(** What a store promises: [entries] are its rows by their identifiers, of which a text may
    be another form ([named]); a call that fails changes nothing, or the key of its row is one
    of those in doubt. *)
Class StoreLaws : Type := {
  entries : St → gmap string Attachment;
  unclear : St → gset string;
  named : string → string;
  named_uuid u : named (uuid_String u) = uuid_String u;
  insert_law u a t r t' :
    st_Insert a t = (r, t') → a_ID a = uuid_String u → entries t !! a_ID a = None →
    match r with
    | Ok _ => (∃ kept, recorded a kept ∧ entries t' = <[a_ID a := kept]> (entries t)) ∧ unclear t' = unclear t
    | Err _ => (entries t' = entries t ∧ unclear t' = unclear t) ∨
               (∃ kept, recorded a kept ∧ entries t' = <[a_ID a := kept]> (entries t)) ∧ unclear t' = {[StorageKey a]} ∪ unclear t
    end;
  find_law id t r t' :
    st_GetByID id t = (r, t') →
    entries t' = entries t ∧ unclear t' = unclear t ∧ ∀ a, r = Ok a → entries t !! named id = Some a;
  list_law e o t r t' : st_ListByOwner e o t = (r, t') → entries t' = entries t ∧ unclear t' = unclear t;
  drop_law id t r t' a :
    st_Delete id t = (r, t') → entries t !! named id = Some a →
    match r with
    | Ok _ => entries t' = delete (named id) (entries t) ∧ unclear t' = unclear t
    | Err _ => (entries t' = entries t ∨ entries t' = delete (named id) (entries t)) ∧ unclear t' = {[StorageKey a]} ∪ unclear t
    end;
}.
End laws.
Arguments ClientLaws {Cl} CC.
Arguments StoreLaws {U St} SS.

Section linked.
Context {U : UuidText} {Cl St : Type} {CC : Client Cl} {SS : Store St} {CL : ClientLaws CC} {SL : StoreLaws SS}.
Context (prefix : string) (no_slash : ∀ u, "/"%char ∉ String.list_ascii_of_string (uuid_String u)).
Implicit Types (s : attachments (Cl := Cl) (St := St)) (drawn : gmap uuid string).












End linked.

(** ** Clients and stores that keep the laws *)

Lemma mem_Put_cases e key body ct size md m r m' :
  mem_Put e key body ct size md m = (r, m') →
  (m' = m ∧ ∃ err, r = Err err) ∨
  ∃ bytes o, body = Some bytes ∧ r = Ok o ∧ m' = with_store (<[key := {| data := bytes; obj := o |}]> (store m)) m.
Proof.
  unfold mem_Put. destruct (check _ _ _) as [[]|err]; [|intros [= <- <-]; eauto].
  destruct body as [bytes|]; [|intros [= <- <-]; eauto].
  destruct (_ && _); intros [= <- <-]; [eauto|right; eauto].
Qed.

#[export] Program Instance memoryClient_laws : ClientLaws memoryClient_client := {|
  blobs m := data <$> store m; doubted _ := ∅ |}.
Next Obligation.
  intros e key body ct size md m r m' Hput. apply mem_Put_cases in Hput as [[-> [err ->]]|(bytes & ob & -> & -> & ->)]; [by left|].
  split; [|done]. exists bytes. split; [done|]. cbn. by rewrite fmap_insert.
Qed.
Next Obligation. intros key m r m' [= <- <-]. cbn. by rewrite fmap_delete. Qed.
Next Obligation.
  intros key m r m'. cbn. unfold mem_Get. destruct (store m !! key) as [x|] eqn:Hx; intros [= <- <-]; (split_and!; [done..|]); [|done].
  intros bytes ob [= <- _]. by rewrite lookup_fmap, Hx.
Qed.
Next Obligation. done. Qed.

(** What minio-go is relied on for: an operation that is answered has been made, one that
    is not may have been. *)
Class MinioLaws (M : Type) `{Minio M} : Type := {
  held : string → M → gmap string string;
  open_keys : M → gset string;
  PutObject_law b key body size ct md t r t' :
    PutObject b key body size ct md t = (r, t') →
    match r with
    | Ok _ => (∃ bytes, body = Some bytes ∧ held b t' = <[key := bytes]> (held b t)) ∧ open_keys t' = open_keys t
    | Err _ => (held b t' = held b t ∧ open_keys t' = open_keys t) ∨
               (delete key (held b t') = delete key (held b t) ∧ open_keys t' = {[key]} ∪ open_keys t)
    end;
  RemoveObject_law b key t r t' :
    RemoveObject b key t = (r, t') →
    match r with
    | Ok _ => held b t' = delete key (held b t) ∧ open_keys t' = open_keys t
    | Err _ => delete key (held b t') = delete key (held b t) ∧ open_keys t' = {[key]} ∪ open_keys t
    end;
  GetObject_law b key t r t' :
    GetObject b key t = (r, t') → held b t' = held b t ∧ open_keys t' = open_keys t ∧ ∀ bytes, r = Ok bytes → held b t !! key = Some bytes;
  StatObject_law b key t : held b (StatObject b key t).2 = held b t ∧ open_keys (StatObject b key t).2 = open_keys t;
  PresignedGetObject_law e b key d t :
    held b (PresignedGetObject e b key d t).2 = held b t ∧ open_keys (PresignedGetObject e b key d t).2 = open_keys t;
}.
#[export] Program Instance s3Client_laws `{ML : MinioLaws M} (bucket : string) (p : Policy) : ClientLaws (s3Client bucket p) := {|
  blobs := held bucket; doubted := open_keys |}.
Next Obligation.
  intros M Mi ML bucket p e key body ct size md t r t'. cbn. unfold s3_Put. destruct (check _ _ _) as [[]|err]; [|intros [= <- <-]; by left].
  cbv [mbind prog_bind minio]. destruct (PutObject _ _ _ _ _ _ t) as [[[n etag]|err] t1] eqn:Hput;
    pose proof (PutObject_law _ _ _ _ _ _ _ _ _ Hput) as Hp; by intros [= <- <-].
Qed.
Next Obligation.
  intros M Mi ML bucket p key t r t'. cbn. unfold s3_Delete, minio. destruct (RemoveObject _ _ t) as [[[]|err] t1] eqn:Hrem;
    pose proof (RemoveObject_law _ _ _ _ _ Hrem) as Hp; by intros [= <- <-].
Qed.
Next Obligation.
  intros M Mi ML bucket p key t r t'. cbn. unfold s3_Get. cbv [mbind prog_bind minio minio_found].
  destruct (GetObject _ _ t) as [[bytes|err] t1] eqn:Hget; destruct (GetObject_law _ _ _ _ _ Hget) as (Hh & Ho & Hb); [|by intros [= <- <-]].
  destruct (StatObject_law bucket key t1) as [Hh1 Ho1]. destruct (StatObject bucket key t1) as [[st|code] t2]; cbn in Hh1, Ho1;
    intros [= <- <-]; rewrite Hh1, Ho1, Hh, Ho; (split_and!; [done..|]); [|done]. intros ? ? [= <- _]. by apply Hb.
Qed.
Next Obligation.
  intros M Mi ML bucket p e key d t. cbn. unfold s3_PresignedGet, minio. destruct (PresignedGetObject_law e bucket key (or_expiry p d) t) as [H1 H2].
  by destruct (PresignedGetObject _ _ _ _ t) as [[url|err] t1].
Qed.

Section stores.
Context {U : UuidText}.
#[export] Program Instance MemoryStore_laws : StoreLaws MemoryStore_store := {|
  entries m := m; unclear _ := ∅; named id := id |}.
Next Obligation. done. Qed.
Next Obligation. intros u a m r m' [= <- <-] _ _. split; [|done]. by exists a. Qed.
Next Obligation. intros id m r m' [= <- <-]. split_and!; [done..|]. intros a. by destruct (m !! id) as [b|]; [intros [= ->]|]. Qed.
Next Obligation. by intros e o m r m' [= <- <-]. Qed.
Next Obligation. intros id m r m' a Hdel Ha. cbn in *. unfold att_Delete in Hdel. rewrite Ha in Hdel. by injection Hdel as <- <-. Qed.

Context {K : Columns} (pg_uuid_String : ∀ u, pg_uuid (uuid_String u) = Some u).
Definition pg_named (id : string) : string := match pg_uuid id with Some u => uuid_String u | None => id end.
Lemma insert_row_Some u a rows n rows' :
  a_ID a = uuid_String u → insert_row a rows = Some (n, rows') → ∃ kept, recorded a kept ∧ rows' = <[u := kept]> rows.
Proof.
  intros Hid. unfold insert_row. rewrite Hid, pg_uuid_String. destruct (pg_jsonb (a_Metadata a)) as [md|]; [|done].
  destruct (_ && _); [|done]. intros [= <- <-]. eexists. split; [|reflexivity]. done.
Qed.
Definition by_text (rows : gmap uuid Attachment) : gmap string Attachment := kmap uuid_String rows.
Program Definition PostgresStore_laws : StoreLaws PostgresStore_store := {|
  entries s := by_text (table s); unclear := unsure; named := pg_named |}.
Next Obligation. intros u. unfold pg_named. by rewrite pg_uuid_String. Qed.
Next Obligation.
  intros u a s r s' Hins Hid _. cbn in Hins |- *. revert Hins.
  unfold pg_Insert, wrapping, Exec. cbv [mbind prog_bind mret prog_ret].
  assert (∀ n rows', insert_row a (table s) = Some (n, rows') →
    ∃ kept, recorded a kept ∧ by_text rows' = <[a_ID a := kept]> (by_text (table s))) as Hrow.
  { intros n rows' Hi. apply (insert_row_Some u) in Hi as (kept & Hk & ->); [|done]. exists kept. split; [done|].
    unfold by_text. by rewrite Hid, (kmap_insert uuid_String). }
  destruct (next_delivery s); [|intros [= <- <-]; cbn; rewrite union_empty_l_L; by left|];
    destruct (insert_row a (table s)) as [[n' rows']|] eqn:Hi; intros [= <- <-]; cbn; rewrite ?union_empty_l_L.
  - split; [by eapply Hrow|done].
  - by left.
  - right. split; [by eapply Hrow|done].
  - by left.
Qed.
Next Obligation.
  intros id s r s'. cbn. unfold pg_GetByID, pg_named. destruct (next_delivery s), (pg_uuid id) as [u|]; cbn;
    try destruct (table s !! u) as [a|] eqn:Hu; intros [= <- <-]; cbn; rewrite union_empty_l_L; (split_and!; [done..|]); try done.
  intros ? [= <-]. unfold by_text. by rewrite (lookup_kmap uuid_String).
Qed.
Next Obligation.
  intros e o s r s'. cbn. unfold pg_ListByOwner. destruct (negb _); [|destruct (next_delivery s)]; intros [= <- <-]; cbn; by rewrite union_empty_l_L.
Qed.
Next Obligation.
  intros id s r s' a. cbn. unfold pg_Delete, pg_named, delete_row, key_of_row, wrapping, Exec, by_text. intros Hdel Ha. revert Hdel.
  destruct (pg_uuid id) as [u|] eqn:Hid.
  2: { exfalso. apply (lookup_kmap_Some uuid_String) in Ha as (u & -> & _). by rewrite pg_uuid_String in Hid. }
  rewrite (lookup_kmap uuid_String) in Ha. cbn [mbind option_bind]. rewrite Ha. cbv [mbind prog_bind].
  destruct (next_delivery s); cbn; rewrite ?Ha; cbv [throw mret prog_ret]; cbn; intros [= <- <-]; cbn;
    rewrite ?union_empty_l_L, ?(kmap_delete uuid_String); by auto.
Qed.
End stores.

(** ** What a failing connection does to the Postgres store *)

Section broken.
Context {U : UuidText} {K : Columns} {Cl : Type} {CC : Client Cl}.
#[local] Existing Instance PostgresStore_store.
Implicit Types (s : attachments (Cl := Cl) (St := PostgresStore)).

(** A list whose connection breaks after [n] rows is answered with these rows, as if
    there were no others. *)
Theorem broken_list_truncated e o s n :
  invalid_owner o = false → pg_text (ow_Type o) = true → pg_text (ow_ID o) = true → next_delivery (records s) = Broken n →
  ∃ all, (pg_ListByOwner e o {| table := table (records s); network := []; unsure := ∅ |}).1 = Ok all ∧
         (List_ e o s).1 = Ok (take n all).
Proof.
  intros Ho Ht Hi Hn. unfold List_. rewrite Ho. cbv [on_records zoom]. cbn [st_ListByOwner PostgresStore_store].
  unfold pg_ListByOwner. rewrite Hn, Ht, Hi. cbn [andb negb next_delivery network head default from_option id]. by eexists.
Qed.

(** A record whose deletion is not made after its object was deleted stays: it is
    found, and there is nothing to download. *)
Theorem failed_removal_dangles id u a s t rest :
  pg_uuid id = Some u → table (records s) !! u = Some a → network (records s) = Answered :: NotSent :: rest →
  cl_Delete (StorageKey a) (objects s) = (Ok tt, t) →
  ∃ s', Remove id s = (Err (Wrapf "attachments: store delete" (Wrapf "attachments: delete" (Errorf "connection"))), s') ∧
    objects s' = t ∧ table (records s') !! u = Some a.
Proof.
  intros Hid Ha Hnet Hdel. unfold Remove. cbv [mbind prog_bind wrapping on_records on_objects zoom].
  cbn [st_GetByID st_Delete PostgresStore_store]. unfold pg_GetByID, next_delivery. rewrite Hid, Hnet. cbn [head default from_option Datatypes.id].
  rewrite Ha. cbn [objects records]. rewrite Hdel. unfold pg_Delete, wrapping, Exec, next_delivery, after_statement. rewrite Hnet.
  cbn. by eexists.
Qed.
End broken.

(** ** Attachments over the in-memory parts *)

Section attachments.
Context {U : UuidText}.
Implicit Types (s : attachments (Cl := memoryClient) (St := gmap string Attachment)).

(** What [Attach] does over the in-memory parts. *)
Lemma Attach_cases prefix e o body fn ct size by_ s r s' :
  Attach prefix e o body fn ct size by_ s = (r, s') →
  let id := uuid_String (new_id e 0) in let key := storage_key prefix o id in
  (s' = s ∧ ∃ err, r = Err err) ∨
  ∃ bytes ob, body = Some bytes ∧ r = Ok (attachment e id o key fn ct size by_) ∧
    s' = {| objects := with_store (<[key := {| data := bytes; obj := ob |}]> (store (objects s))) (objects s);
            records := <[id := attachment e id o key fn ct size by_]> (records s) |}.
Proof.
  intros Hat id key. revert Hat. unfold Attach. destruct (invalid_owner o); [intros [= <- <-]; eauto|].
  fold id. fold key. cbv [mbind prog_bind wrapping on_objects zoom]. cbn [cl_Put memoryClient_client].
  destruct (mem_Put e key body ct size _ (objects s)) as [rp m'] eqn:Hp.
  apply mem_Put_cases in Hp as [[-> [err ->]]|(bytes & ob & -> & -> & ->)].
  - intros [= <- <-]. left. split; [by destruct s|eauto].
  - cbn. intros [= <- <-]. right. by eexists _, _.
Qed.

Lemma Remove_cases id s :
  Remove id s =
  match records s !! id with
  | None => (Err (Sentinel Attachments_ErrNotFound), s)
  | Some a => (Ok tt, {| objects := with_store (delete (StorageKey a) (store (objects s))) (objects s);
                         records := delete id (records s) |})
  end.
Proof.
  unfold Remove. cbv [mbind prog_bind on_records on_objects zoom wrapping]. cbn [st_GetByID st_Delete MemoryStore_store].
  unfold att_GetByID. destruct (records s !! id) as [a|] eqn:Hid; [|by destruct s].
  cbn [cl_Delete memoryClient_client]. unfold mem_Delete, modify, att_Delete. cbn [objects records]. by rewrite Hid.
Qed.

(** [AttachFromKey] takes any key.  An attachment made from the key of another
    one, for whatever owner, shares its object: removing the copy removes the object
    of the original, which is still found and listed. *)
Theorem shared_key_dangles e o fn ct size by_ id a s :
  records s !! id = Some a → invalid_owner o = false → uuid_String (new_id e 0) ≠ id →
  ∃ copy s1 s2, AttachFromKey e o (StorageKey a) fn ct size by_ s = (Ok copy, s1) ∧
    Remove (a_ID copy) s1 = (Ok tt, s2) ∧
    (Get id s2).1 = Ok a ∧ (cl_Get (StorageKey a) (objects s2)).1 = Err (Sentinel Storage_ErrNotFound) ∧
    (Remove id s2).1 = Ok tt.
Proof.
  intros Ha Ho Hne. unfold AttachFromKey. rewrite Ho. cbv [mbind prog_bind wrapping on_records zoom].
  cbn [st_Insert MemoryStore_store att_Insert modify mret prog_ret]. eexists _, _, _. split; [reflexivity|].
  rewrite Remove_cases. cbn [records a_ID attachment objects]. rewrite lookup_insert_eq. split; [reflexivity|].
  assert (delete (uuid_String (new_id e 0)) (<[uuid_String (new_id e 0) :=
    attachment e (uuid_String (new_id e 0)) o (StorageKey a) fn ct size by_]> (records s)) !! id = Some a) as Hst
    by (by rewrite lookup_delete_ne, lookup_insert_ne).
  split_and!.
  - unfold Get. cbv [on_records zoom]. cbn [st_GetByID MemoryStore_store]. unfold att_GetByID. cbn [records]. by rewrite Hst.
  - cbn. unfold mem_Get. cbn. by rewrite lookup_delete_eq.
  - rewrite Remove_cases. cbn [records]. by rewrite Hst.
Qed.

(** What [Attach] answers is found again under its identifier, among those of
    its owner, and its object reads back as the body. *)
Theorem attach_roundtrip prefix e o bytes fn ct size by_ s a s' :
  Attach prefix e o (Some bytes) fn ct size by_ s = (Ok a, s') →
  (Get (a_ID a) s').1 = Ok a ∧ (∃ ob, (cl_Get (StorageKey a) (objects s')).1 = Ok (bytes, ob) ∧ o_Size ob = len bytes) ∧
  ∀ e2, ∃ l, (List_ e2 o s').1 = Ok l ∧ a ∈ l ∧ Forall (λ x, a_Owner x = o) l.
Proof.
  intros Hat. assert (invalid_owner o = false) as Ho.
  { revert Hat. unfold Attach. by destruct (invalid_owner o). }
  assert (∃ ob, (cl_Get (StorageKey a) (objects s')).1 = Ok (bytes, ob) ∧ o_Size ob = len bytes) as Hobj.
  { pose proof Hat as Hat'. revert Hat'. unfold Attach. rewrite Ho. cbv [mbind prog_bind wrapping on_objects zoom].
    cbn [cl_Put memoryClient_client]. unfold mem_Put. destruct (check _ _ _) as [[]|]; [|done]. destruct (_ && _); [done|].
    cbn. intros [= <- <-]. cbn. unfold mem_Get. cbn. rewrite lookup_insert_eq. by eexists. }
  apply Attach_cases in Hat as [[_ [err ?]]|(b & ob & _ & [= ->] & ->)]; [done|].
  split; [|split; [exact Hobj|]].
  - unfold Get. cbv [on_records zoom]. cbn [st_GetByID MemoryStore_store records a_ID attachment].
    unfold att_GetByID, attachment. cbn [a_ID fst]. by rewrite lookup_insert_eq.
  - intros e2. unfold List_. rewrite Ho. cbv [on_records zoom]. cbn [st_ListByOwner MemoryStore_store records].
    unfold att_ListByOwner. cbn [fst]. eexists. split; [reflexivity|]. split.
    + rewrite sort_slice_perm. apply list_elem_of_filter. split; [done|].
      apply elem_of_range_values. eexists. apply lookup_insert_eq.
    + rewrite sort_slice_perm. apply Forall_forall. intros x [Hx _]%list_elem_of_filter. done.
Qed.
End attachments.

(** Content types: equal, or the part before the slash when the pattern ends in a star. *)
Example content_types :
  matchContentType "image/*" "image/png" = true ∧ matchContentType "image/*" "image" = false ∧
  matchContentType "image/*" "images/png" = false ∧ matchContentType "image/png" "image/png" = true ∧
  matchContentType "*/*" "image/png" = false ∧ matchContentType "IMAGE/*" "image/png" = false.
Proof. by vm_compute. Qed.

Section examples.
#[local] Existing Instance binary_uuid_text.
Definition ex_env (k : uuid) : Env :=
  {| now := 0%Z; new_id := λ n, (k + N.of_nat n)%N; order := canonical_range |}.
Definition ex_owner : Owner := {| ow_Type := "invoice"; ow_ID := "7" |}.
Definition ex_policy : Policy := {| MaxBytes := 4; AllowedTypes := []; DefaultExpiry := 0 |}.
Definition ex_empty : attachments (Cl := memoryClient) (St := gmap string Attachment) :=
  {| objects := NewMemoryClient "" ex_policy; records := ∅ |}.
Definition ex_attached := Attach "attachments/" (ex_env 1) ex_owner (Some "body") "a.txt" "text/plain" 4 "ada" ex_empty.
Definition ex_attachment : Attachment :=
  attachment (ex_env 1) (uuid_String 1) ex_owner (storage_key "attachments/" ex_owner (uuid_String 1)) "a.txt" "text/plain" 4 "ada".
Lemma ex_attached_Ok : ex_attached = (Ok ex_attachment, ex_attached.2).
Proof. by vm_compute. Qed.

(** A body of eight bytes under a limit of four, declared as empty. *)
Example unseen_body : ∃ o m', mem_Put (ex_env 1) "k" (Some "too long") "text/plain" 0 ∅ (objects ex_empty) = (Ok o, m') ∧ o_Size o = 8%Z.
Proof. by eexists _, _. Qed.

(** A bucket behind a connection that may fail. *)
Record flaky_bucket : Type := { fb_held : gmap string string; fb_net : list delivery; fb_open : gset string }.
Definition fb_write (key : string) (f : gmap string string → gmap string string) : prog flaky_bucket string unit := λ t,
  match default Answered (head (fb_net t)) with
  | Answered => (Ok tt, {| fb_held := f (fb_held t); fb_net := tail (fb_net t); fb_open := fb_open t |})
  | NotSent => (Err "connection", {| fb_held := fb_held t; fb_net := tail (fb_net t); fb_open := {[key]} ∪ fb_open t |})
  | Broken _ => (Err "connection", {| fb_held := f (fb_held t); fb_net := tail (fb_net t); fb_open := {[key]} ∪ fb_open t |})
  end.
#[local] Instance flaky_minio : Minio flaky_bucket := {|
  PutObject _ key body _ _ _ :=
    match body with None => throw "read" | Some bytes => _ ← fb_write key <[key := bytes]>; mret (len bytes, "etag") end;
  GetObject _ key t := (match fb_held t !! key with Some bytes => Ok bytes | None => Err "NoSuchKey" end, t);
  StatObject _ key t := (match fb_held t !! key with
    | Some bytes => Ok {| ms_ContentType := ""; ms_Size := len bytes; ms_ETag := "etag"; ms_UserMetadata := ∅; ms_LastModified := 0 |}
    | None => Err "NoSuchKey" end, t);
  RemoveObject _ key := fb_write key (delete key);
  PresignedPutObject _ _ key _ := mret key;
  PresignedGetObject _ _ key _ := mret key |}.
#[local] Program Instance flaky_laws : MinioLaws flaky_bucket := {| held _ := fb_held; open_keys := fb_open |}.
Next Obligation.
  intros b key body size ct md t r t'. cbn. destruct body as [bytes|]; [|intros [= <- <-]; by left].
  unfold fb_write, mbind, prog_bind. destruct (default Answered _); intros [= <- <-]; cbn.
  - split; [by exists bytes|done].
  - by right.
  - right. by rewrite delete_insert_eq.
Qed.
Next Obligation.
  intros b key t r t'. cbn. unfold fb_write. destruct (default Answered _); intros [= <- <-]; cbn; [done|done|].
  by rewrite delete_delete_eq.
Qed.
Next Obligation. intros b key t r t' [= <- <-]. split_and!; [done..|]. intros bytes. by destruct (fb_held t !! key) as [?|]; [intros [= ->]|]. Qed.
Next Obligation. done. Qed.
Next Obligation. done. Qed.
#[local] Instance ex_columns : Columns := {|
  pg_uuid := uuid_Parse; pg_text := λ _, true; pg_jsonb := Some; pg_time := λ t, (t / 1000 * 1000)%Z |}.
#[local] Instance ex_pg : Store PostgresStore := PostgresStore_store.
#[local] Instance ex_pg_laws : StoreLaws ex_pg := PostgresStore_laws uuid_Parse_String.
#[local] Instance ex_s3 : Client flaky_bucket := s3Client "b" ex_policy.



Lemma attach_roundtrip_witness :
  (Get (a_ID ex_attachment) ex_attached.2).1 = Ok ex_attachment ∧
  (∃ ob, (cl_Get (StorageKey ex_attachment) (objects ex_attached.2)).1 = Ok ("body", ob) ∧ o_Size ob = len "body") ∧
  ∀ e2, ∃ l, (List_ e2 ex_owner ex_attached.2).1 = Ok l ∧ ex_attachment ∈ l ∧ Forall (λ x, a_Owner x = ex_owner) l.
Proof.
  apply (attach_roundtrip "attachments/" (ex_env 1) ex_owner "body" "a.txt" "text/plain" 4 "ada" ex_empty).
  exact ex_attached_Ok.
Defined.

Lemma shared_key_dangles_witness :
  ∃ copy s1 s2, AttachFromKey (ex_env 2) {| ow_Type := "note"; ow_ID := "9" |} (StorageKey ex_attachment) "b.txt" "text/plain" 4 "eve"
      ex_attached.2 = (Ok copy, s1) ∧
    Remove (a_ID copy) s1 = (Ok tt, s2) ∧
    (Get (uuid_String 1) s2).1 = Ok ex_attachment ∧
    (cl_Get (StorageKey ex_attachment) (objects s2)).1 = Err (Sentinel Storage_ErrNotFound) ∧
    (Remove (uuid_String 1) s2).1 = Ok tt.
Proof.
  apply (shared_key_dangles (ex_env 2) {| ow_Type := "note"; ow_ID := "9" |} "b.txt" "text/plain" 4 "eve" (uuid_String 1));
    [by vm_compute|done|by apply (bool_decide_unpack _)].
Defined.
End examples.
