(* ===== verification/PolicyCache.v ===== *)
(** * The policy cache (platform/policycache)

    cache.go, listener.go, poller.go and policy_cache.go: a map kept near a table of
    Postgres by notifications and by polls.  What the two callbacks do is up to the
    caller; [step] has them as their contracts say, call by call. *)

From S2P Require Import Prelude.

Section policycache.
Context {K V : Type} `{Countable K}.

(** ** cache.go *)

Abbreviation Cache := (gmap K V) (only parsing).
Definition New : Cache := ∅.
Definition Get (k : K) (c : Cache) : option V := c !! k.
Definition Set_ (k : K) (v : V) (c : Cache) : Cache := <[k := v]> c.
Definition Invalidate (k : K) (c : Cache) : Cache := delete k c.
(** The nil map clears the cache. *)
Definition Replace (snapshot : option (gmap K V)) (c : Cache) : Cache := default ∅ snapshot.
Definition Len (c : Cache) : nat := size c.
Definition Keys (e : Env) (c : Cache) : list K := (range (MapRange := order e) c).*1.
Definition Snapshot (c : Cache) : gmap K V := c.

(** ** listener.go *)

(** What [WaitForNotification] returns. *)
Inductive wait : Type :=
  | Notification (channel payload : string)
  | NoNotification
  | ConnError (text : string)
  | Cancelled.
(** How far [Listen] has come: it returned, with an error or without, or it waits. *)
Inductive listening : Type := Listened (err : option string) | Waiting.
Record heard : Type := { payloads : list string; errors : list string; state : listening }.

Fixpoint listen_loop (channel : string) (waits : list wait) : heard :=
  match waits with
  | [] => {| payloads := []; errors := []; state := Waiting |}
  | Cancelled :: _ => {| payloads := []; errors := []; state := Listened None |}
  | ConnError text :: _ =>
      let wrapped := "policycache: WaitForNotification: " +:+ text in
      {| payloads := []; errors := [wrapped]; state := Listened (Some wrapped) |}
  | NoNotification :: rest => listen_loop channel rest
  | Notification ch payload :: rest =>
      let h := listen_loop channel rest in
      if bool_decide (ch ≠ channel) then h
      else {| payloads := payload :: payloads h; errors := errors h; state := state h |}
  end.
(** [exec] is the error of the LISTEN statement; both callbacks are there. *)
Definition Listen (channel : string) (exec : option string) (waits : list wait) : heard :=
  if bool_decide (channel = "") then
    {| payloads := []; errors := []; state := Listened (Some "policycache: Listen: channel must not be empty") |}
  else match exec with
       | Some text =>
           let wrapped := "policycache: LISTEN " +:+ channel +:+ ": " +:+ text in
           {| payloads := []; errors := [wrapped]; state := Listened (Some wrapped) |}
       | None => listen_loop channel waits
       end.

(** ** poller.go *)

Inductive refreshed : Type := Refreshed | RefreshFailed | RefreshPanicked.
#[export] Instance refreshed_eq_dec : EqDecision refreshed.
Proof. solve_decision. Defined.
(** [safeRefresh] makes an error of a panic. *)
Definition safeRefresh (r : refreshed) : refreshed := match r with RefreshPanicked => RefreshFailed | _ => r end.
(** The end of [runOnce]: what [lastSeen] becomes after a refresh that began at [startedAt]. *)
Definition runOnce_end (r : refreshed) (startedAt lastSeen : time) : time :=
  match safeRefresh r with
  | Refreshed => if After startedAt lastSeen then startedAt else lastSeen
  | _ => lastSeen
  end.

(** ** policy_cache.go *)

Definition defaultPollInterval : duration := (30 * Second)%Z.
(** [WithPollInterval] panics for an interval that is not positive. *)
Definition newPCConfig (opts : list duration) : call duration :=
  if any (λ d, bool_decide (d ≤ 0)%Z) opts then Panics else Returns (default defaultPollInterval (last opts)).

(** The table with the times its rows were updated at, the notifications on their way
    and the goroutines of the cache: the refreshes of one key, with the row once it has
    been read, and the poll.  [dirty] are the keys committed since the query of the last
    successful poll, [recent] those committed since the query of the one under way. *)
Inductive poll_phase : Type :=
  | Idle
  | Querying (prev started : time)
  | Writing (started : time) (todo : list (K * V)).
Record world : Type := {
  rows : gmap K (V * time);
  notes : list K;
  refreshes : list (K * option (option V));
  poll : poll_phase;
  lastSeen : time;
  cache : Cache;
  dirty : gset K;
  recent : gset K;
}.
Definition started_world (table : gmap K (V * time)) : world :=
  {| rows := table; notes := []; refreshes := []; poll := Idle; lastSeen := 0%Z; cache := New;
     dirty := dom table; recent := ∅ |}.

Definition commit (k : K) (row : option (V * time)) (w : world) : world :=
  {| rows := partial_alter (λ _, row) k (rows w); notes := notes w ++ [k]; refreshes := refreshes w; poll := poll w;
     lastSeen := lastSeen w; cache := cache w; dirty := {[k]} ∪ dirty w; recent := {[k]} ∪ recent w |}.
Definition with_notes (l : list K) (w : world) : world :=
  {| rows := rows w; notes := l; refreshes := refreshes w; poll := poll w; lastSeen := lastSeen w; cache := cache w;
     dirty := dirty w; recent := recent w |}.
Definition with_refreshes (l : list (K * option (option V))) (w : world) : world :=
  {| rows := rows w; notes := notes w; refreshes := l; poll := poll w; lastSeen := lastSeen w; cache := cache w;
     dirty := dirty w; recent := recent w |}.
Definition with_cache (c : Cache) (w : world) : world :=
  {| rows := rows w; notes := notes w; refreshes := refreshes w; poll := poll w; lastSeen := lastSeen w; cache := c;
     dirty := dirty w; recent := recent w |}.
Definition with_poll (p : poll_phase) (w : world) : world :=
  {| rows := rows w; notes := notes w; refreshes := refreshes w; poll := p; lastSeen := lastSeen w; cache := cache w;
     dirty := dirty w; recent := recent w |}.

(** [onNotify]: a payload that is no key is dropped, any other starts a goroutine. *)
Definition onNotify (parseKey : string → option K) (payload : string) (w : world) : world :=
  match parseKey payload with None => w | Some k => with_refreshes (refreshes w ++ [(k, None)]) w end.

(** The contract of [refreshOne]: read the row, then set or invalidate its key. *)
Definition one_read (i : nat) (w : world) : world :=
  match refreshes w !! i with
  | Some (k, None) => with_refreshes (<[i := (k, Some (fst <$> rows w !! k))]> (refreshes w)) w
  | _ => w
  end.
Definition one_write (i : nat) (w : world) : world :=
  match refreshes w !! i with
  | Some (k, Some row) =>
      with_refreshes (delete i (refreshes w))
        (with_cache (match row with Some v => Set_ k v (cache w) | None => Invalidate k (cache w) end) w)
  | _ => w
  end.

(** [runOnce], whose refresh, by its contract, reads the rows updated after [prev] and
    sets them one by one. *)
Definition poll_begin (now : time) (w : world) : world := with_poll (Querying (lastSeen w) now) w.
Definition changed_since (prev : time) (table : gmap K (V * time)) : list (K * V) :=
  (λ kr : K * (V * time), (kr.1, kr.2.1)) <$> filter (λ kr, (prev < kr.2.2)%Z) (map_to_list table).
Definition poll_query (w : world) : world :=
  match poll w with
  | Querying prev started =>
      {| rows := rows w; notes := notes w; refreshes := refreshes w; poll := Writing started (changed_since prev (rows w));
         lastSeen := lastSeen w; cache := cache w; dirty := dirty w; recent := ∅ |}
  | _ => w
  end.
Definition poll_write (w : world) : world :=
  match poll w with
  | Writing started ((k, v) :: todo) => with_poll (Writing started todo) (with_cache (Set_ k v (cache w)) w)
  | _ => w
  end.
Definition poll_end (r : refreshed) (w : world) : world :=
  match poll w with
  | Writing started todo =>
      {| rows := rows w; notes := notes w; refreshes := refreshes w; poll := Idle;
         lastSeen := runOnce_end r started (lastSeen w); cache := cache w;
         dirty := if bool_decide (r = Refreshed) then recent w else dirty w; recent := recent w |}
  | Querying prev started => with_poll Idle w
  | Idle => w
  end.

(** Postgres: a commit, a deletion, a notification that is lost or delivered. *)
Inductive store_step : world → world → Prop :=
  | step_commit k v updated w : store_step w (commit k (Some (v, updated)) w)
  | step_delete k w : store_step w (commit k None w)
  | step_lose k rest w : notes w = k :: rest → store_step w (with_notes rest w).
Inductive notify_step : world → world → Prop :=
  | step_deliver parseKey payload k rest w :
      notes w = k :: rest → parseKey payload = Some k → notify_step w (onNotify parseKey payload (with_notes rest w))
  | step_read i w : notify_step w (one_read i w)
  | step_write i w : notify_step w (one_write i w).
(** A refresh that succeeds has set every row it read. *)
Inductive poll_step : world → world → Prop :=
  | step_begin now w : poll w = Idle → poll_step w (poll_begin now w)
  | step_query w : poll_step w (poll_query w)
  | step_set w : poll_step w (poll_write w)
  | step_done started w : poll w = Writing started [] → poll_step w (poll_end Refreshed w)
  | step_fail r w : r ≠ Refreshed → poll_step w (poll_end r w).
Inductive step (w w' : world) : Prop :=
  | step_store : store_step w w' → step w w'
  | step_notify : notify_step w w' → step w w'
  | step_poll : poll_step w w' → step w w'.
End policycache.
Arguments world K V {_ _}.
Arguments poll_phase : clear implicits.
