(* ===== verification/PolicyCacheProofs.v ===== *)
(** * Properties of the policy cache

    Without a single notification the polls bring the cache to the table, as long as no
    commit is older than the poll it overtakes; a commit that is, and a refresh that is
    slower than a poll, leave the cache wrong for good. *)

From S2P Require Import Prelude PolicyCache.

Section policycache.
Context {K V : Type} `{Countable K}.
Implicit Types (w : world K V) (k : K) (v : V) (u t : time).

(** The rest of a poll that has begun, with nothing in between. *)
Definition finish w : world K V :=
  match poll w with Writing _ todo => poll_end Refreshed (Nat.iter (length todo) poll_write w) | _ => w end.
Definition poll_once (now : time) w : world K V := finish (poll_query (poll_begin now w)).

(** ** Polls converge *)

(** A commit that is later than the last successful poll and than the one whose query it
    comes after. *)
Definition timely u w : Prop := (lastSeen w < u)%Z ∧ ∀ started todo, poll w = Writing started todo → (started < u)%Z.
(** No notification is delivered, those of deletions neither. *)
Inductive silent_step : relation (world K V) :=
  | silent_commit k v u w : timely u w → silent_step w (commit k (Some (v, u)) w)
  | silent_delete k w : silent_step w (commit k None w)
  | silent_lose k rest w : notes w = k :: rest → silent_step w (with_notes rest w)
  | silent_poll w w' : poll_step w w' → silent_step w w'.

Record coherent w : Prop := {
  co_clean k v u : rows w !! k = Some (v, u) → k ∉ dirty w → cache w !! k = Some v;
  co_dirty k v u : rows w !! k = Some (v, u) → k ∈ dirty w → (lastSeen w < u)%Z;
  co_recent : recent w ⊆ dirty w;
  co_querying prev started : poll w = Querying prev started → prev = lastSeen w;
  co_todo started todo k v : poll w = Writing started todo → (k, v) ∈ todo → k ∉ recent w → ∃ u, rows w !! k = Some (v, u);
  co_written started todo k v u : poll w = Writing started todo → rows w !! k = Some (v, u) → k ∉ recent w →
    cache w !! k = Some v ∨ (k, v) ∈ todo;
  co_later started todo k v u : poll w = Writing started todo → rows w !! k = Some (v, u) → k ∈ recent w → (started < u)%Z;
}.

Lemma elem_of_changed_since prev (table : gmap K (V * time)) k v :
  (k, v) ∈ changed_since prev table ↔ ∃ u, table !! k = Some (v, u) ∧ (prev < u)%Z.
Proof.
  unfold changed_since. rewrite list_elem_of_fmap. split.
  - intros ([k' [v' u]] & [= -> ->] & Hin). apply list_elem_of_filter in Hin as [Hu Hin%elem_of_map_to_list]. eauto.
  - intros (u & Hl & Hu). exists (k, (v, u)). split; [done|]. apply list_elem_of_filter. split; [done|by apply elem_of_map_to_list].
Qed.

Lemma started_coherent (table : gmap K (V * time)) :
  (∀ k v u, table !! k = Some (v, u) → (0 < u)%Z) → coherent (started_world table).
Proof.
  intros Hpos. split; cbn; try done.
  - intros k v u Hr Hk. destruct Hk. apply elem_of_dom. eauto.
  - intros k v u Hr _. by eapply Hpos.

Qed.
Lemma commit_coherent k row w : (∀ v u, row = Some (v, u) → timely u w) → coherent w → coherent (commit k row w).
Proof.
  intros Htimely [Hc Hd Hr Hq Ht Hw Hl]. split; cbn.
  - intros k' v' u' Hrow Hk. rewrite lookup_partial_alter_ne in Hrow by set_solver. apply (Hc k' v' u'); [done|set_solver].
  - intros k' v' u' Hrow Hk. destruct (decide (k = k')) as [<-|Hne]; [rewrite lookup_partial_alter_eq in Hrow; apply (Htimely v' u' Hrow)|].
    rewrite lookup_partial_alter_ne in Hrow by done. apply (Hd k' v' u'); [done|set_solver].
  - set_solver.
  - done.
  - intros started todo k' v' Hp Hin Hk. rewrite lookup_partial_alter_ne by set_solver. eapply Ht; [done|done|set_solver].
  - intros started todo k' v' u' Hp Hrow Hk. rewrite lookup_partial_alter_ne in Hrow by set_solver. eapply Hw; [done|done|set_solver].
  - intros started todo k' v' u' Hp Hrow Hk. destruct (decide (k = k')) as [<-|Hne].
    + rewrite lookup_partial_alter_eq in Hrow. by apply (proj2 (Htimely v' u' Hrow) started todo).
    + rewrite lookup_partial_alter_ne in Hrow by done. eapply Hl; [done|done|set_solver].
Qed.
Lemma query_coherent w : coherent w → coherent (poll_query w).
Proof.
  intros Hco. unfold poll_query. destruct (poll w) as [|prev started|] eqn:Hp; [done| |done]. destruct Hco as [Hc Hd Hr Hq Ht Hw Hl].
  assert (prev = lastSeen w) as -> by (by eapply Hq).
  split; cbn; [done|done|set_solver|done| | |].
  - intros s todo k v [= <- <-] (u & Hrow & _)%elem_of_changed_since _. eauto.
  - intros s todo k v u [= <- <-] Hrow _. destruct (decide (k ∈ dirty w)) as [Hk|Hk]; [right|left; by eapply Hc].
    apply elem_of_changed_since. exists u. split; [done|by eapply Hd].
  - intros s todo k v u [= <- <-] _ Hk. set_solver.
Qed.
Lemma write_coherent w : coherent w → coherent (poll_write w).
Proof.
  intros Hco. unfold poll_write. destruct (poll w) as [| |started [|[k v] todo]] eqn:Hp; [done..|]. destruct Hco as [Hc Hd Hr Hq Ht Hw Hl].
  assert (∀ v' u', rows w !! k = Some (v', u') → k ∉ recent w → v' = v) as Hv.
  { intros v' u' Hrow Hk. destruct (Ht started ((k, v) :: todo) k v) as [u0 Hu0]; [done|by constructor|done|]. congruence. }
  split; cbn; [|done|done|done| | |].
  - intros k' v' u' Hrow Hk. unfold Set_. destruct (decide (k = k')) as [<-|Hne].
    + rewrite lookup_insert_eq. f_equal. symmetry. apply (Hv v' u'); [done|set_solver].
    + rewrite lookup_insert_ne by done. by eapply Hc.
  - intros s todo' k' v' [= <- <-] Hin Hk. eapply Ht; [done|by constructor|done].
  - intros s todo' k' v' u' [= <- <-] Hrow Hk. unfold Set_. destruct (decide (k = k')) as [<-|Hne].
    + left. rewrite lookup_insert_eq. f_equal. symmetry. by apply (Hv v' u').
    + rewrite lookup_insert_ne by done. destruct (Hw started ((k, v) :: todo) k' v' u') as [|Hin]; [done..|by left|].
      right. apply elem_of_cons in Hin as [[= -> ->]|]; done.
  - intros s todo' k' v' u' [= <- <-] Hrow Hk. by eapply Hl.
Qed.
Lemma done_coherent started w : poll w = Writing started [] → coherent w → coherent (poll_end Refreshed w).
Proof.
  intros Hp [Hc Hd Hr Hq Ht Hw Hl]. unfold poll_end. rewrite Hp. cbn. split; cbn; try done.
  - intros k v u Hrow Hk. destruct (Hw started [] k v u) as [|Hin]; [done..|by apply not_elem_of_nil in Hin].
  - intros k v u Hrow Hk. unfold runOnce_end. cbn. pose proof (Hd k v u Hrow (Hr k Hk)). destruct (After _ _); [by eapply Hl|done].
Qed.
Lemma idle_coherent w : coherent w → coherent (with_poll Idle w).
Proof. intros []. by split. Qed.
Lemma fail_coherent r w : r ≠ Refreshed → coherent w → coherent (poll_end r w).
Proof.
  intros Hr Hco. unfold poll_end. destruct (poll w) eqn:Hp; [done|by apply idle_coherent|].
  rewrite bool_decide_false by done. assert (runOnce_end r started (PolicyCache.lastSeen w) = PolicyCache.lastSeen w) as -> by (by destruct r).
  by apply (idle_coherent w).
Qed.
Lemma silent_coherent w w' : silent_step w w' → coherent w → coherent w'.
Proof.
  intros [k v u w0 Ht|k w0|k rest w0 _|w0 w1 Hs].
  - apply commit_coherent. by intros ? ? [= <- <-].
  - by apply commit_coherent.
  - intros []. by split.
  - destruct Hs as [now w0 Hp|w0|w0|started w0 Hp|r w0 Hr].
    + intros []. split; try done. by intros prev st [= <- <-].
    + apply query_coherent.
    + apply write_coherent.
    + by eapply done_coherent.
    + by apply fail_coherent.
Qed.

Lemma iter_write started todo w :
  poll w = Writing started todo →
  let w' := Nat.iter (length todo) poll_write w in
  rtc silent_step w w' ∧ poll w' = Writing started [] ∧ rows w' = rows w ∧ recent w' = recent w.
Proof.
  revert w. induction todo as [|[k v] todo IH]; intros w Hp; [done|]. cbv zeta. cbn [length]. rewrite Nat.iter_succ_r.
  assert (poll (poll_write w) = Writing started todo ∧ rows (poll_write w) = rows w ∧ recent (poll_write w) = recent w) as (Hp' & Hr & Hrec)
    by (unfold poll_write; by rewrite Hp).
  destruct (IH (poll_write w) Hp') as (Hrun & Hend & Hr' & Hrec').
  split_and!; [|done|congruence|congruence]. eapply rtc_l; [apply silent_poll, step_set|exact Hrun].
Qed.

(** C36: with every notification lost, whatever commits, deletions, polls and failed polls
    interleave, as long as commits are timely: a key not committed since the query of the last
    successful poll has its row in the cache, and one undisturbed poll brings every row
    there. *)
Theorem polls_converge (table : gmap K (V * time)) w :
  (∀ k v u, table !! k = Some (v, u) → (0 < u)%Z) → rtc silent_step (started_world table) w →
  (∀ k v u, rows w !! k = Some (v, u) → k ∉ dirty w → Get k (cache w) = Some v) ∧
  (poll w = Idle → ∀ now k v u, rows w !! k = Some (v, u) → Get k (cache (poll_once now w)) = Some v).
Proof.
  intros Hpos Hrun.
  assert (∀ w', rtc silent_step (started_world table) w' → coherent w') as Hall.
  { intros w' Hr. apply (rtc_preserves silent_step coherent (started_world table) w'); [apply silent_coherent|done|by apply started_coherent]. }
  split; [by apply (co_clean w (Hall w Hrun))|]. intros Hidle now k v u Hrow.
  set (w1 := poll_query (poll_begin now w)). assert (poll w1 = Writing now (changed_since (lastSeen w) (rows w))) as Hp1 by done.
  destruct (iter_write _ _ w1 Hp1) as (Hw & Hp2 & Hr2 & Hrec2). unfold poll_once, finish. fold w1. rewrite Hp1.
  set (w2 := Nat.iter _ poll_write w1) in *.
  assert (rtc silent_step (started_world table) (poll_end Refreshed w2)) as Hreach.
  { etrans; [exact Hrun|]. eapply rtc_l; [by apply silent_poll, step_begin|]. eapply rtc_l; [apply silent_poll, step_query|].
    etrans; [exact Hw|]. apply rtc_once, silent_poll. by eapply step_done. }
  apply (co_clean _ (Hall _ Hreach) k v u); unfold poll_end; rewrite Hp2; cbn; [by rewrite Hr2|]. rewrite Hrec2. set_solver.
Qed.

(** ** What no poll repairs *)

Record overlooked k v u x w : Prop := {
  ov_row : rows w !! k = Some (v, u);
  ov_seen : (u ≤ lastSeen w)%Z;
  ov_cache : cache w !! k = x;
  ov_querying prev started : poll w = Querying prev started → (u ≤ prev)%Z;
  ov_todo started todo : poll w = Writing started todo → k ∉ todo.*1;
}.
Lemma polls_overlook k v u x w w' : overlooked k v u x w → rtc poll_step w w' → overlooked k v u x w'.
Proof.
  intros Ho Hrun. apply (rtc_preserves poll_step (overlooked k v u x) w w'); [|done|done].
  clear. intros w w' Hs [Hrow Hseen Hcache Hq Ht]. destruct Hs as [now w Hp|w|w|started w Hp|r w Hr].
  - split; [done..| |done]. by intros prev st [= <- <-].
  - unfold poll_query. destruct (poll w) as [|prev st|] eqn:Hp; [by split; rewrite ?Hp| |by split; rewrite ?Hp].
    split; cbn; [done..|]. intros s todo [= <- <-] ([k' v'] & -> & (u' & Hrow' & Hu)%elem_of_changed_since)%list_elem_of_fmap. cbn in *.
    specialize (Hq prev st eq_refl). assert (u' = u) as -> by congruence. lia.
  - unfold poll_write. destruct (poll w) as [| |s [|[k' v'] todo]] eqn:Hp; [by split; rewrite ?Hp..|].
    specialize (Ht s _ eq_refl). cbn in Ht. apply not_elem_of_cons in Ht as [Hne Hk]. split; cbn; [done|done| |done|].
    + unfold Set_. by rewrite lookup_insert_ne.
    + by intros ? ? [= <- <-].
  - unfold poll_end. rewrite Hp. split; cbn; [done| |done..]. unfold runOnce_end. cbn. destruct (After started (PolicyCache.lastSeen w)) eqn:Ha; [|done].
    unfold After in Ha. apply bool_decide_eq_true in Ha. lia.
  - unfold poll_end. destruct (poll w) eqn:Hp; [by split; rewrite ?Hp|by split|]. split; cbn; [done| |done..]. by destruct r.
Qed.
Lemma finish_keeps k v0 started todo w :
  poll w = Writing started todo → cache w !! k = Some v0 → (∀ x, (k, x) ∈ todo → x = v0) → cache (finish w) !! k = Some v0.
Proof.
  intros Hp Hc Ht. unfold finish. rewrite Hp. enough (cache (Nat.iter (length todo) poll_write w) !! k = Some v0) as Hk.
  { unfold poll_end. destruct (poll (Nat.iter _ _ _)); exact Hk. }
  revert w Hp Hc. induction todo as [|[k' v'] todo IH]; intros w Hp Hc; [done|]. cbn [length]. rewrite Nat.iter_succ_r.
  apply IH; [intros x Hx; apply Ht; by constructor|unfold poll_write; by rewrite Hp|].
  unfold poll_write. rewrite Hp. cbn. unfold Set_. destruct (decide (k' = k)) as [->|Hne].
  - rewrite lookup_insert_eq. f_equal. apply Ht. by constructor.
  - by rewrite lookup_insert_ne.
Qed.
Lemma finish_ends started todo w :
  poll w = Writing started todo →
  poll (finish w) = Idle ∧ rows (finish w) = rows w ∧ lastSeen (finish w) = runOnce_end Refreshed started (lastSeen w).
Proof.
  intros Hp. unfold finish. rewrite Hp. destruct (iter_write started todo w Hp) as (_ & Hend & Hr & _).
  assert (∀ n, lastSeen (Nat.iter n poll_write w) = lastSeen w) as Hl.
  { clear. induction n as [|n IH]; [done|]. cbn. rewrite <-IH. unfold poll_write. by repeat case_match. }
  unfold poll_end. rewrite Hend. cbn. by rewrite Hl.
Qed.

(** Two ways to be wrong for good.  A row of a transaction that took its time before a
    poll and commits after the query of that poll: if its notification is lost, no later
    poll brings it, however many succeed, and the cache keeps the value it had.  And a
    refresh of a key that read the row before a commit and writes it after the poll that
    saw the commit: the cache goes back to the old value and no poll corrects it. *)
Theorem stale_for_good k v u w w' :
  poll w = Idle →
  (∀ v0 u0 now, rows w !! k = Some (v0, u0) → cache w !! k = Some v0 → (lastSeen w < now)%Z → (u ≤ now)%Z →
     rtc poll_step (finish (commit k (Some (v, u)) (poll_query (poll_begin now w)))) w' →
     rows w' !! k = Some (v, u) ∧ Get k (cache w') = Some v0) ∧
  (∀ i v0, refreshes w !! i = Some (k, Some (Some v0)) → rows w !! k = Some (v, u) → (u ≤ lastSeen w)%Z →
     rtc poll_step (one_write i w) w' → rows w' !! k = Some (v, u) ∧ Get k (cache w') = Some v0).
Proof.
  intros Hidle. split.
  - intros v0 u0 now Hrow Hcache Hnow Hu Hrun.
    set (w2 := commit k (Some (v, u)) (poll_query (poll_begin now w))) in *.
    assert (poll w2 = Writing now (changed_since (lastSeen w) (rows w))) as Hp by done.
    assert (overlooked k v u (Some v0) (finish w2)) as Ho.
    { destruct (finish_ends now _ w2 Hp) as (Hi & Hr & Hs). split.
      - rewrite Hr. cbn. by rewrite lookup_partial_alter_eq.
      - rewrite Hs. unfold runOnce_end, safeRefresh, After. cbn. by rewrite bool_decide_true.
      - apply (finish_keeps k v0 now _ w2 Hp); [done|]. intros x (u1 & Hr1 & _)%elem_of_changed_since. congruence.
      - by rewrite Hi.
      - by rewrite Hi. }
    destruct (polls_overlook k v u (Some v0) _ w' Ho Hrun) as [? _ ? _ _]. done.
  - intros i v0 Hi Hrow Hu Hrun. assert (overlooked k v u (Some v0) (one_write i w)) as Ho.
    { unfold one_write. rewrite Hi. split; cbn; [done|done|by apply lookup_insert_eq|by rewrite Hidle..]. }
    destruct (polls_overlook k v u (Some v0) _ w' Ho Hrun) as [? _ ? _ _]. done.
Qed.

(** The listener hands on the notifications of its channel, in order, until it ends. *)
Lemma listen_payloads channel waits :
  channel ≠ "" → (∀ x, x ∈ waits → x ≠ Cancelled ∧ ∀ text, x ≠ ConnError text) →
  Listen channel None waits =
  {| payloads := omap (λ x, match x with Notification ch p => if bool_decide (ch = channel) then Some p else None | _ => None end) waits;
     errors := []; state := Waiting |}.
Proof.
  intros Hc Hw. unfold Listen. rewrite bool_decide_false by done. induction waits as [|x waits IH]; [done|].
  destruct (Hw x) as [Hx Hx']; [by constructor|]. assert (∀ y, y ∈ waits → y ≠ Cancelled ∧ ∀ text, y ≠ ConnError text) as Hrest
    by (intros y Hy; apply Hw; by constructor).
  destruct x as [ch payload| |text|]; [|by apply IH|by destruct (Hx' text)|done].
  cbn [listen_loop]. rewrite IH by done. destruct (decide (ch = channel)) as [->|Hne].
  - rewrite bool_decide_false by tauto. cbn. by rewrite bool_decide_true.
  - rewrite bool_decide_true by done. cbn. by rewrite bool_decide_false.
Qed.
End policycache.

(** ** Witnesses *)

Section examples.
Definition ex_table : gmap N (Z * time) := {[1%N := (10%Z, 5%Z)]}.
Definition ex_world : world N Z := poll_once 7 (started_world ex_table).
Lemma polls_converge_witness :
  (∀ k v u, rows (commit 2%N (Some (20%Z, 6%Z)) (started_world ex_table)) !! k = Some (v, u) →
     k ∉ dirty (commit 2%N (Some (20%Z, 6%Z)) (started_world ex_table)) →
     Get k (cache (commit 2%N (Some (20%Z, 6%Z)) (started_world ex_table))) = Some v) ∧
  (poll (commit 2%N (Some (20%Z, 6%Z)) (started_world ex_table)) = Idle →
   ∀ now k v u, rows (commit 2%N (Some (20%Z, 6%Z)) (started_world ex_table)) !! k = Some (v, u) →
     Get k (cache (poll_once now (commit 2%N (Some (20%Z, 6%Z)) (started_world ex_table)))) = Some v).
Proof.
  apply (polls_converge ex_table).
  - intros k v u Hk. unfold ex_table in Hk. apply lookup_singleton_Some in Hk as [_ [= <- <-]]. lia.
  - apply rtc_once, silent_commit. split; [done|]. intros started todo [=].
Defined.
(** The row of key 1 is written at 19 and committed after the poll of 20 has queried. *)
Lemma stale_for_good_witness :
  rows (poll_once 40 (finish (commit 1%N (Some (11%Z, 19%Z)) (poll_query (poll_begin 20 ex_world))))) !! 1%N = Some (11%Z, 19%Z) ∧
  Get 1%N (cache (poll_once 40 (finish (commit 1%N (Some (11%Z, 19%Z)) (poll_query (poll_begin 20 ex_world)))))) = Some 10%Z.
Proof.
  apply (proj1 (stale_for_good 1%N 11%Z 19%Z ex_world
    (poll_once 40 (finish (commit 1%N (Some (11%Z, 19%Z)) (poll_query (poll_begin 20 ex_world))))) eq_refl) 10%Z 5%Z 20%Z);
    [by vm_compute|by vm_compute|by vm_compute|lia|].
  set (w := finish _). eapply (rtc_l _ _ (poll_begin 40 w)); [by apply step_begin|].
  eapply (rtc_l _ _ (poll_query (poll_begin 40 w))); [apply step_query|]. apply rtc_once.
  assert (poll_once 40 w = poll_end Refreshed (poll_query (poll_begin 40 w))) as -> by (by vm_compute).
  by apply (step_done 40).
Defined.
End examples.
