(* ===== verification/FeatureFlags.v ===== *)
(** * Feature flags (platform/feature-flags)

    flag.go: flags, overrides and their specificity; rollout.go: the percentage
    rollout; client.go: evaluation; source.go: the in-memory source and the
    source that reads environment variables.  The theorems: which override
    wins, when [IsEnabled] and [Variant] agree, and that raising the percentage
    of a rollout takes the feature from nobody. *)

From S2P Require Import Prelude.

(** ** flag.go *)

Record Eval : Type := {
  SubjectID : string;
  HouseholdID : string;
  TenantID : string;
  Environment : string;
}.

Record Rollout : Type := {
  Percentage : Z;
  Salt : string;
}.

(** The dynamic type of an override's value, as the client inspects it. *)
Inductive any_value : Type :=
  | VBool (b : bool)
  | VString (s : string)
  | VOther.

Record Override : Type := {
  o_TenantID : string;
  o_HouseholdID : string;
  o_SubjectID : string;
  o_Environment : string;
  Value : any_value;
}.

(** [V] is the type of the values of variants. *)
Record Flag (V : Type) : Type := {
  Key : string;
  Enabled : bool;
  Variants : option (gmap string V);
  Default : string;
  f_Rollout : option Rollout;
  Overrides : list Override;
}.
Arguments Key {V} _.
Arguments Enabled {V} _.
Arguments Variants {V} _.
Arguments Default {V} _.
Arguments f_Rollout {V} _.
Arguments Overrides {V} _.

(** [o.Axis != "" && o.Axis != e.Axis] is false. *)
Definition axis_ok (pinned actual : string) : bool :=
  negb (bool_decide (pinned ≠ "") && bool_decide (pinned ≠ actual)).

Definition matches (o : Override) (e : Eval) : bool :=
  axis_ok (o_TenantID o) (TenantID e) && axis_ok (o_HouseholdID o) (HouseholdID e)
  && axis_ok (o_SubjectID o) (SubjectID e) && axis_ok (o_Environment o) (Environment e).

Definition specificity (o : Override) : Z :=
  let n := 0%Z in
  let n := if bool_decide (o_SubjectID o ≠ "") then (n + 8)%Z else n in
  let n := if bool_decide (o_HouseholdID o ≠ "") then (n + 4)%Z else n in
  let n := if bool_decide (o_TenantID o ≠ "") then (n + 2)%Z else n in
  if bool_decide (o_Environment o ≠ "") then (n + 1)%Z else n.

(** ** source.go *)

(** [Lookup]: the flag if there is one, or an error. *)
Class Source (V : Type) : Type := Lookup : string → outcome string (option (Flag V)).

Definition MemorySource (V : Type) : Type := gmap string (Flag V).
Definition NewMemorySource {V} : MemorySource V := ∅.
Definition Set_ {V} (f : Flag V) (s : MemorySource V) : MemorySource V := <[Key f := f]> s.
Definition Delete {V} (key : string) (s : MemorySource V) : MemorySource V := delete key s.
Definition NewMemorySourceWithFlags {V} (flags : list (Flag V)) : MemorySource V :=
  foldl (λ s f, Set_ f s) NewMemorySource flags.
Definition memory_Lookup {V} (s : MemorySource V) : Source V := λ key, Ok (s !! key).

(** One iteration of [envify]; every rune it writes is one byte. *)
Definition envify_rune (r : N) : ascii :=
  if within_ 97 122 r then ascii_of_N (r - 97 + 65)
  else if within_ 65 90 r || within_ 48 57 r then ascii_of_N r
  else "_"%char.
Definition envify (key : string) : string :=
  String.string_of_list_ascii (envify_rune <$> runes key).

(** [unicode.ToLower] on the runes that can spell the accepted words: no other
    rune has one of their letters as its lower case. *)
Definition lower (r : N) : N := if within_ 65 90 r then (r + 32)%N else r.

Definition parseBool (v : string) : bool :=
  let trimmed := trim_space (runes v) in
  bool_decide (lower <$> trimmed ∈ (runes <$> ["1"; "true"; "yes"; "on"])).

(** [lookup] reads the environment ([os.LookupEnv] unless one is given). *)
Record EnvSource : Type := {
  Prefix : string;
  lookup_env : string → option string;
}.
Definition prefix (s : EnvSource) : string :=
  if bool_decide (Prefix s ≠ "") then Prefix s else "FEATURE_FLAGS_".
Definition env_Lookup {V} (s : EnvSource) : Source V := λ key,
  match lookup_env s (prefix s +:+ envify key) with
  | None => Ok None
  | Some v => Ok (Some {| Key := key; Enabled := parseBool v; Variants := None; Default := "";
                          f_Rollout := None; Overrides := [] |})
  end.

(** ** rollout.go and client.go *)

(** [binary.BigEndian.Uint32]. *)
Definition be_uint32 (bytes : list Z) : Z := foldl (λ v b, v * 256 + b)%Z 0%Z (take 4 bytes).

Section client.
(** The bytes of a SHA-256 digest. *)
Context (sha256 : string → list Z) {V : Type}.

Definition inRollout (subjectID salt : string) (percentage : Z) : bool :=
  if bool_decide (percentage ≤ 0)%Z then false
  else if bool_decide (100 ≤ percentage)%Z then true
  else
    let sum := sha256 (salt +:+ String "000"%char subjectID) in
    let bucket := (be_uint32 sum `mod` 100)%Z in
    bool_decide (bucket < percentage)%Z.

Record match_ : Type := { spec : Z; idx : nat; val : any_value }.

(** [sort.SliceStable]'s comparison. *)
Definition match_before (a b : match_) : bool :=
  if bool_decide (spec a ≠ spec b) then bool_decide (spec b < spec a)%Z
  else bool_decide (idx a < idx b)%nat.

(** The loop that collects the matching overrides. *)
Fixpoint collect (i : nat) (os : list Override) (e : Eval) : list match_ :=
  match os with
  | [] => []
  | o :: rest =>
      if matches o e then {| spec := specificity o; idx := i; val := Value o |} :: collect (S i) rest e
      else collect (S i) rest e
  end.

Definition bestOverride (flag : Flag V) (e : Eval) : option any_value :=
  match sort_slice match_before (collect 0 (Overrides flag) e) with
  | [] => None
  | m :: _ => Some (val m)
  end.

Definition overrideToBool (flag : Flag V) (v : any_value) : bool :=
  match Variants flag with
  | None => match v with VBool b => b | _ => false end
  | Some _ =>
      match v with
      | VString name => bool_decide (name = Default flag) && bool_decide (name ≠ "")
      | _ => false
      end
  end.

Definition evaluateBool (flag : Flag V) (e : Eval) : bool :=
  if negb (Enabled flag) then false
  else match bestOverride flag e with
       | Some v => overrideToBool flag v
       | None =>
           match f_Rollout flag with
           | Some r => inRollout (SubjectID e) (Salt r) (Percentage r)
           | None =>
               match Variants flag with
               | Some _ => bool_decide (Default flag ≠ "")
               | None => true
               end
           end
       end.

(** The code after the override has been tried. *)
Definition variant_default (flag : Flag V) (e : Eval) : option string :=
  match f_Rollout flag with
  | Some r =>
      if negb (inRollout (SubjectID e) (Salt r) (Percentage r)) then None
      else if bool_decide (Default flag = "") then None else Some (Default flag)
  | None => if bool_decide (Default flag = "") then None else Some (Default flag)
  end.

Definition evaluateVariant (flag : Flag V) (e : Eval) : option string :=
  match bestOverride flag e with
  | Some (VString name) =>
      match default ∅ (Variants flag) !! name with
      | Some _ => Some name
      | None => variant_default flag e
      end
  | _ => variant_default flag e
  end.

(** A source error is logged and reads as a missing flag. *)
Definition lookup_flag {S : Source V} (key : string) : option (Flag V) :=
  match Lookup key with Ok f => f | Err _ => None end.

Definition IsEnabled {S : Source V} (key : string) (e : Eval) : bool :=
  match lookup_flag key with
  | None => false
  | Some flag => evaluateBool flag e
  end.

Definition Variant {S : Source V} (key : string) (e : Eval) : option (string * V) :=
  flag ← lookup_flag key;
  if negb (Enabled flag) then None
  else
    variants ← Variants flag;
    name ← evaluateVariant flag e;
    v ← variants !! name;
    Some (name, v).
End client.

(** ** Which override wins *)

#[export] Instance match_before_StrictWeak : StrictWeak match_before.
Proof.
  split; intros *; unfold match_before; repeat case_bool_decide;
    rewrite ?bool_decide_eq_true, ?bool_decide_eq_false; try done; lia.
Qed.

Lemma elem_of_collect n os e m :
  m ∈ collect n os e ↔
  ∃ j o, os !! j = Some o ∧ matches o e = true ∧
    m = {| spec := specificity o; idx := (n + j)%nat; val := Value o |}.
Proof.
  revert n. induction os as [|o os IH]; intros n; cbn [collect].
  { rewrite elem_of_nil. split; [done|]. intros (j & o & Hj & _). done. }
  assert ((∃ j o0, os !! j = Some o0 ∧ matches o0 e = true ∧
             m = {| spec := specificity o0; idx := (S n + j)%nat; val := Value o0 |}) ↔
          (∃ j o0, (o :: os) !! S j = Some o0 ∧ matches o0 e = true ∧
             m = {| spec := specificity o0; idx := (n + S j)%nat; val := Value o0 |})) as Hshift.
  { by setoid_rewrite Nat.add_succ_r. }
  destruct (matches o e) eqn:Ho; [rewrite elem_of_cons|]; rewrite IH, Hshift.
  - split.
    + intros [-> |(j & o0 & ?)]; [exists 0%nat, o; by rewrite Nat.add_0_r|by exists (S j), o0].
    + intros ([|j] & o0 & Hj & Hm & ->); [|right; by exists j, o0]. left. cbn in Hj.
      simplify_eq. by rewrite Nat.add_0_r.
  - split.
    + intros (j & o0 & ?). by exists (S j), o0.
    + intros ([|j] & o0 & Hj & Hm & ->); [cbn in Hj; congruence|by exists j, o0].
Qed.

Section theorems.
Context (sha256 : string → list Z) {V : Type}.
Implicit Types (flag : Flag V) (e : Eval).

(** The winning override: no matching one is more specific, and none as
    specific is declared earlier. *)
Definition wins flag e (i : nat) (o : Override) : Prop :=
  Overrides flag !! i = Some o ∧ matches o e = true ∧
  ∀ j o', Overrides flag !! j = Some o' → matches o' e = true →
    (specificity o' < specificity o)%Z ∨ (specificity o' = specificity o ∧ (i ≤ j)%nat).

(** The override that applies is the most specific of those that match,
    wherever it is declared, and the first declared among equally specific
    ones; there is none exactly when no override matches. *)
Theorem bestOverride_exact flag e :
  match bestOverride flag e with
  | Some v => ∃ i o, wins flag e i o ∧ v = Value o
  | None => ∀ i o, Overrides flag !! i = Some o → matches o e = false
  end.
Proof.
  unfold bestOverride.
  destruct (sort_slice match_before (collect 0 (Overrides flag) e)) as [|m l] eqn:Hs.
  - intros i o Hi. apply not_true_is_false. intros Hm.
    assert ({| spec := specificity o; idx := i; val := Value o |} ∈ collect 0 (Overrides flag) e) as Hin
      by (apply elem_of_collect; eauto).
    rewrite <-(sort_slice_perm match_before), Hs in Hin. by apply not_elem_of_nil in Hin.
  - apply sort_slice_head in Hs as [Hin Hbest]; [|apply _].
    apply elem_of_collect in Hin as (i & o & Hi & Hm & ->). exists i, o. split; [|done].
    split_and!; [done..|]. intros j o' Hj Hm'.
    assert ({| spec := specificity o'; idx := j; val := Value o' |} ∈ collect 0 (Overrides flag) e)
      as Hin%Hbest by (apply elem_of_collect; eauto). clear Hbest. rename Hin into Hbest.
    unfold match_before in Hbest. cbn in Hbest. repeat case_bool_decide; try done; lia.
Qed.

(** ** [IsEnabled] against [Variant] *)

(** The override that applies does not name a variant of the flag. *)
Definition stray_override flag (vs : gmap string V) e : Prop :=
  match bestOverride flag e with
  | Some (VString name) => vs !! name = None
  | Some _ => True
  | None => False
  end.

(** For an enabled variant flag whose default is a variant, [IsEnabled] is
    true only if [Variant] resolves to the default; and the two disagree
    exactly when the override that applies names no variant of the flag while
    the default passes the rollout: [IsEnabled] is then false although the
    resolved variant is the default. *)
Theorem IsEnabled_against_Variant {S : Source V} key flag vs e :
  Lookup key = Ok (Some flag) → Enabled flag = true → Variants flag = Some vs →
  is_Some (vs !! Default flag) → Default flag ≠ "" →
  let resolves_to_default := ∃ v, Variant sha256 key e = Some (Default flag, v) in
  (IsEnabled sha256 key e = true → resolves_to_default) ∧
  (resolves_to_default ∧ IsEnabled sha256 key e = false ↔
   stray_override flag vs e ∧ variant_default sha256 flag e = Some (Default flag)).
Proof.
  intros Hl Hen Hvs [v Hv] Hne resolves.
  assert (IsEnabled sha256 key e = evaluateBool sha256 flag e) as ->
    by (unfold IsEnabled, lookup_flag; by rewrite Hl).
  assert (resolves ↔ evaluateVariant sha256 flag e = Some (Default flag)) as ->.
  { unfold resolves, Variant, lookup_flag. rewrite Hl. cbn. rewrite Hen, Hvs. cbn.
    destruct (evaluateVariant sha256 flag e) as [name|]; cbn; [|naive_solver].
    split; [|intros [= ->]; rewrite Hv; eauto].
    intros [x Hx]. destruct (vs !! name); cbn in Hx; congruence. }
  assert (evaluateBool sha256 flag e = true → bestOverride flag e = None →
          variant_default sha256 flag e = Some (Default flag)) as Hdef.
  { unfold evaluateBool, variant_default. rewrite Hen. intros Hb Hnone. rewrite Hnone in Hb. cbn in Hb.
    rewrite bool_decide_false by done. destruct (f_Rollout flag); [by rewrite Hb|done]. }
  assert (bestOverride flag e = None → variant_default sha256 flag e = Some (Default flag) →
          evaluateBool sha256 flag e = true) as Hdef'.
  { unfold evaluateBool, variant_default. rewrite Hen. intros -> Hb. cbn.
    rewrite bool_decide_false in Hb by done. rewrite Hvs, bool_decide_true by done.
    destruct (f_Rollout flag); [by destruct (inRollout _ _ _ _)|done]. }
  unfold evaluateVariant, stray_override in *. destruct (bestOverride flag e) as [x|] eqn:Hbest.
  - clear Hdef Hdef'. unfold evaluateBool. rewrite Hen, Hbest. cbn. unfold overrideToBool. rewrite Hvs. cbn.
    destruct x as [b|name|]; [naive_solver| |naive_solver].
    destruct (vs !! name) eqn:Hname.
    + split; [by intros [->%bool_decide_eq_true _]%andb_true_iff|].
      split; [|naive_solver]. intros [[= ->] Hf]. rewrite !bool_decide_true in Hf by done. done.
    + rewrite (bool_decide_false (name = _)) by congruence. cbn. naive_solver.
  - split; [auto|]. split; [|naive_solver]. intros [Hd Hf]. by rewrite Hdef' in Hf.
Qed.

(** ** Rollouts *)

Definition with_percentage (p : Z) flag : Flag V :=
  {| Key := Key flag; Enabled := Enabled flag; Variants := Variants flag; Default := Default flag;
     f_Rollout := (λ r, {| Percentage := p; Salt := Salt r |}) <$> f_Rollout flag;
     Overrides := Overrides flag |}.

Lemma inRollout_mono subject salt p q :
  (p ≤ q)%Z → inRollout sha256 subject salt p = true → inRollout sha256 subject salt q = true.
Proof. unfold inRollout. intros Hpq. repeat case_bool_decide; try done; lia. Qed.

(** Raising the percentage of a flag's rollout takes the feature from
    nobody: who had it on, or had a variant, still has it, or that variant. *)
Theorem rollout_monotone (s : MemorySource V) flag p q e :
  (p ≤ q)%Z →
  let before : Source V := memory_Lookup (Set_ (with_percentage p flag) s) in
  let after : Source V := memory_Lookup (Set_ (with_percentage q flag) s) in
  (IsEnabled sha256 (S := before) (Key flag) e = true →
   IsEnabled sha256 (S := after) (Key flag) e = true) ∧
  (∀ x, Variant sha256 (S := before) (Key flag) e = Some x →
   Variant sha256 (S := after) (Key flag) e = Some x).
Proof.
  intros Hpq before after.
  assert (∀ p, lookup_flag (S := memory_Lookup (Set_ (with_percentage p flag) s)) (Key flag) =
               Some (with_percentage p flag)) as Hl
    by (intros n; exact (lookup_insert_eq (M := gmap string) s (Key flag) (with_percentage n flag))).
  unfold IsEnabled, Variant. unfold before, after. rewrite !Hl. split.
  - unfold evaluateBool. cbn. destruct (Enabled flag); [cbn|done].
    change (bestOverride (with_percentage p flag) e) with (bestOverride flag e).
    change (bestOverride (with_percentage q flag) e) with (bestOverride flag e).
    destruct (bestOverride flag e) as [x|]; [done|]. destruct (f_Rollout flag); cbn; [|done].
    by apply inRollout_mono.
  - intros x. cbn. destruct (Enabled flag); cbn; [|done]. destruct (Variants flag) as [vs|] eqn:Hvs; cbn; [|done].
    assert (∀ n, variant_default sha256 (with_percentage p flag) e = Some n →
                 variant_default sha256 (with_percentage q flag) e = Some n) as Hd.
    { unfold variant_default. cbn. intros n. destruct (f_Rollout flag) as [r|]; cbn; [|done].
      destruct (inRollout sha256 (SubjectID e) (Salt r) p) eqn:Hin; cbn; [|done].
      by rewrite (inRollout_mono _ _ _ _ Hpq Hin). }
    assert (∀ n, evaluateVariant sha256 (with_percentage p flag) e = Some n →
                 evaluateVariant sha256 (with_percentage q flag) e = Some n) as Hev.
    { unfold evaluateVariant. intros n.
      change (bestOverride (with_percentage p flag) e) with (bestOverride flag e).
      change (bestOverride (with_percentage q flag) e) with (bestOverride flag e).
      cbn. rewrite Hvs. cbn. repeat case_match; auto. }
    destruct (evaluateVariant sha256 (with_percentage p flag) e) as [n|]; cbn; [|done].
    by rewrite (Hev n eq_refl).
Qed.
End theorems.

(** ** Examples *)

Definition example_override (tenant subject : string) (v : any_value) : Override :=
  {| o_TenantID := tenant; o_HouseholdID := ""; o_SubjectID := subject; o_Environment := "";
     Value := v |}.
(** A tenant-wide override declared first, and one that names no variant. *)
Definition example_flag : Flag nat :=
  {| Key := "k"; Enabled := true; Variants := Some {["blue" := 1%nat]}; Default := "blue";
     f_Rollout := Some {| Percentage := 100; Salt := "k" |};
     Overrides := [example_override "t" "" (VString "blue"); example_override "t" "u" (VString "red")] |}.
Definition example_eval : Eval :=
  {| SubjectID := "u"; HouseholdID := ""; TenantID := "t"; Environment := "" |}.
Definition example_sha256 (_ : string) : list Z := [0; 0; 0; 60]%Z.

Lemma IsEnabled_against_Variant_witness :
  let src : Source nat := memory_Lookup (Set_ example_flag NewMemorySource) in
  IsEnabled example_sha256 (S := src) "k" example_eval = false ∧
  Variant example_sha256 (S := src) "k" example_eval = Some ("blue", 1%nat).
Proof.
  intros src.
  destruct (IsEnabled_against_Variant example_sha256 (S := src) "k" example_flag {["blue" := 1%nat]}
              example_eval eq_refl eq_refl eq_refl (ex_intro _ 1%nat eq_refl)) as [_ [_ Hd]]; [done|].
  destruct Hd as [_ Hf]; [split; by vm_compute|]. split; [exact Hf|]. by vm_compute.
Defined.

Lemma rollout_monotone_witness :
  let flag : Flag nat := {| Key := "k"; Enabled := true; Variants := None; Default := "";
                            f_Rollout := Some {| Percentage := 0; Salt := "k" |}; Overrides := [] |} in
  let after : Source nat := memory_Lookup (Set_ (with_percentage 80 flag) NewMemorySource) in
  IsEnabled example_sha256 (S := after) "k" example_eval = true.
Proof.
  intros flag after.
  apply (rollout_monotone example_sha256 NewMemorySource flag 70 80 example_eval); [done|].
  by vm_compute.
Defined.
