(* ===== verification/Scheduler.v ===== *)
(** * The cron scheduler (platform/scheduler)

    scheduler.go: registration, the tick, the lease a due task is run under,
    the in-memory locker, the matching of an instant against a schedule and the
    parser of cron expressions; the hash of postgres_locker.go.  Texts are read
    as their runes; the calendar is that of package [time] in UTC.  The
    theorems are in [SchedulerProofs]. *)

From S2P Require Import Prelude Encoding.

(** ** Calendar *)

Definition days_of (t : time) : Z := (t `div` (24 * Hour))%Z.
Definition secs_of_day (t : time) : Z := ((t `mod` (24 * Hour)) `div` Second)%Z.
Definition Second_ (t : time) : Z := (secs_of_day t `mod` 60)%Z.
Definition Minute_ (t : time) : Z := ((secs_of_day t `div` 60) `mod` 60)%Z.
Definition Hour_ (t : time) : Z := (secs_of_day t `div` 3600)%Z.
(** The zero time, 1 January of the year 1, is a Monday. *)
Definition Weekday (t : time) : Z := ((days_of t + 1) `mod` 7)%Z.
(** [t.Unix()]. *)
Definition Unix (t : time) : Z := (t `div` Second - 62135596800)%Z.

(** The days of a year before each of its months. *)
Definition month_starts (leap : bool) : list Z :=
  let f := if leap then 1%Z else 0%Z in
  [0; 31; 59 + f; 90 + f; 120 + f; 151 + f; 181 + f; 212 + f; 243 + f; 273 + f; 304 + f; 334 + f]%Z.

(** Month and day of the month of a day of the year. *)
Fixpoint civil_in (i : Z) (starts : list Z) (yday : Z) (acc : Z * Z) : Z * Z :=
  match starts with
  | [] => acc
  | s :: rest =>
      if bool_decide (s ≤ yday)%Z then civil_in (i + 1)%Z rest yday (i, yday - s + 1)%Z else acc
  end.
Definition civil (days : Z) : Z * Z :=
  let d := (days `mod` 146097)%Z in
  let n100 := Z.min 3 (d `div` 36524)%Z in
  let d := (d - n100 * 36524)%Z in
  let n4 := (d `div` 1461)%Z in
  let d := (d - n4 * 1461)%Z in
  let n1 := Z.min 3 (d `div` 365)%Z in
  let yday := (d - n1 * 365)%Z in
  let leap := bool_decide (n1 = 3)%Z && (negb (bool_decide (n4 = 24)%Z) || bool_decide (n100 = 3)%Z) in
  civil_in 1%Z (month_starts leap) yday (1, 1)%Z.
Definition Month_ (t : time) : Z := (civil (days_of t)).1.
Definition Day (t : time) : Z := (civil (days_of t)).2.

(** ** Parsing *)

Inductive scheduler_error : Type :=
  | ErrDuplicateName
  | ErrInvalidCron
  | ErrTimeout.
#[export] Instance scheduler_error_eq_dec : EqDecision scheduler_error.
Proof. solve_decision. Defined.
Abbreviation serr := (goerr scheduler_error) (only parsing).

(** [strings.Split(s, c)] and [strings.Index(s, c)] with what surrounds it. *)
Fixpoint split_runes (c : N) (s : text) : list text :=
  match s with
  | [] => [[]]
  | r :: rest =>
      if bool_decide (r = c) then [] :: split_runes c rest
      else match split_runes c rest with
           | [] => [[r]]
           | x :: xs => (r :: x) :: xs
           end
  end.
Fixpoint cut (c : N) (s : text) : option (text * text) :=
  match s with
  | [] => None
  | r :: rest =>
      if bool_decide (r = c) then Some ([], rest)
      else match cut c rest with
           | Some (a, b) => Some (r :: a, b)
           | None => None
           end
  end.
(** [strings.Fields]. *)
Fixpoint fields_from (word : text) (s : text) : list text :=
  let flush := match word with [] => [] | _ => [reverse word] end in
  match s with
  | [] => flush
  | r :: rest => if is_space r then flush ++ fields_from [] rest else fields_from (r :: word) rest
  end.
Definition Fields (s : text) : list text := fields_from [] s.

Definition star : text := [42%N].
Definition comma : N := 44.
Definition slash : N := 47.
Definition dash : N := 45.

(** [for v := rangeLo; v <= rangeHi; v += step { out[v] = struct{}{} }], in
    64-bit arithmetic.  [None] is an exhausted fuel. *)
Fixpoint fill (fuel : nat) (v hi step : Z) (out : gmap Z unit) : option (gmap Z unit) :=
  match fuel with
  | O => None
  | S fuel =>
      if bool_decide (v ≤ hi)%Z then fill fuel (wrap64 (v + step)) hi step (<[v := tt]> out)
      else Some out
  end.
(** Enough for every step: see [fill_terminates]. *)
Definition fill_fuel (hi : Z) : nat := Z.to_nat (hi + 5).

(** The step of a part and what is left of it. *)
Definition part_step (part : text) : option (Z * text) :=
  match cut slash part with
  | None => Some (1%Z, part)
  | Some (before, after) =>
      match Atoi after with
      | Some s => if bool_decide (s ≤ 0)%Z then None else Some (s, before)
      | None => None
      end
  end.

(** The range of a part without its step. *)
Definition part_range (part : text) (lo hi : Z) : option (Z * Z) :=
  if bool_decide (part = star) then Some (lo, hi)
  else match cut dash part with
       | Some (before, after) =>
           match Atoi before, Atoi after with
           | Some a, Some b =>
               if bool_decide (a < lo)%Z || bool_decide (hi < b)%Z || bool_decide (b < a)%Z
               then None else Some (a, b)
           | _, _ => None
           end
       | None =>
           match Atoi part with
           | Some n => if bool_decide (n < lo)%Z || bool_decide (hi < n)%Z then None else Some (n, n)
           | None => None
           end
       end.

(** The loop over the parts of a field. *)
Fixpoint parse_parts (parts : list text) (lo hi : Z) (out : gmap Z unit) :
    outcome serr (gmap Z unit) :=
  match parts with
  | [] => Ok out
  | part :: rest =>
      match part_step part with
      | None => Err (Errorf "invalid step")
      | Some (step, part) =>
          match part_range part lo hi with
          | None => Err (Errorf "invalid value or range")
          | Some (rangeLo, rangeHi) =>
              match fill (fill_fuel hi) rangeLo rangeHi step out with
              | Some out => parse_parts rest lo hi out
              | None => Err (Errorf "out of fuel")
              end
          end
      end
  end.

Definition parseField (e : Env) (field : text) (lo hi : Z) : outcome serr (list Z) :=
  if bool_decide (field = star) then Ok []
  else match parse_parts (split_runes comma field) lo hi ∅ with
       | Ok out => Ok (range (MapRange := order e) out).*1
       | Err err => Err err
       end.

Record schedule : Type := {
  everyDur : duration;
  s_minute : list Z;
  s_hour : list Z;
  s_dom : list Z;
  s_month : list Z;
  s_dow : list Z;
}.

Definition match_field (values : list Z) (v : Z) : bool :=
  match values with [] => true | _ => bool_decide (v ∈ values) end.

Definition matches (s : schedule) (t : time) : bool :=
  if bool_decide (0 < everyDur s)%Z then
    let secs := Z.quot (everyDur s) Second in
    let secs := if bool_decide (secs ≤ 0)%Z then 1%Z else secs in
    bool_decide (Z.rem (Unix t) secs = 0%Z)
  else
    match_field (s_minute s) (Minute_ t) && match_field (s_hour s) (Hour_ t)
    && match_field (s_dom s) (Day t) && match_field (s_month s) (Month_ t)
    && match_field (s_dow s) (Weekday t) && bool_decide (Second_ t = 0%Z).

Section parser.
(** [time.ParseDuration]. *)
Context (ParseDuration : text → option duration).

(** A field that does not parse. *)
Definition invalid {A} (field : string) : outcome serr A :=
  Err (Wrapf field (Sentinel ErrInvalidCron)).

(** The five-field form. *)
Definition parse_fields (e : Env) (expr : text) : outcome serr schedule :=
  match Fields expr with
  | [p0; p1; p2; p3; p4] =>
      match parseField e p0 0 59 with Err _ => invalid "(minute)" | Ok minute =>
      match parseField e p1 0 23 with Err _ => invalid "(hour)" | Ok hour =>
      match parseField e p2 1 31 with Err _ => invalid "(dom)" | Ok dom =>
      match parseField e p3 1 12 with Err _ => invalid "(month)" | Ok month =>
      match parseField e p4 0 6 with Err _ => invalid "(dow)" | Ok dow =>
        Ok {| everyDur := 0; s_minute := minute; s_hour := hour; s_dom := dom; s_month := month;
              s_dow := dow |}
      end end end end end
  | _ => Err (Wrapf "expected 5 fields" (Sentinel ErrInvalidCron))
  end.

(** The named shortcuts and the expression each one stands for. *)
Definition shortcuts : list (string * string) :=
  [("@hourly", "0 * * * *"); ("@daily", "0 0 * * *"); ("@midnight", "0 0 * * *");
   ("@weekly", "0 0 * * 0"); ("@monthly", "0 0 1 * *"); ("@yearly", "0 0 1 1 *");
   ("@annually", "0 0 1 1 *")].
Definition expand (expr : text) : text :=
  match List.find (λ p, bool_decide (runes p.1 = expr)) shortcuts with
  | Some p => runes p.2
  | None => expr
  end.

Fixpoint strip (p s : text) : option text :=
  match p, s with
  | [], _ => Some s
  | a :: p, b :: s => if bool_decide (a = b) then strip p s else None
  | _, [] => None
  end.

Definition parseSchedule (e : Env) (expr : string) : outcome serr schedule :=
  let expr := trim_space (runes expr) in
  if bool_decide (expr = []) then Err (Wrapf "empty" (Sentinel ErrInvalidCron))
  else match strip (runes "@every ") expr with
       | Some rest =>
           match ParseDuration rest with
           | None => Err (Wrapf "bad duration" (Sentinel ErrInvalidCron))
           | Some dur =>
               if bool_decide (dur < Second)%Z
               then Err (Wrapf "@every must be >= 1s" (Sentinel ErrInvalidCron))
               else Ok {| everyDur := dur; s_minute := []; s_hour := []; s_dom := []; s_month := [];
                          s_dow := [] |}
           end
       | None => parse_fields e (expand expr)
       end.

(** ** The scheduler *)

Context {H : Type}.

Record ScheduleSpec : Type := {
  Name : string;
  Cron : string;
  Handler : option H;
  Timeout : duration;
}.
Record task : Type := { t_spec : ScheduleSpec; t_schedule : schedule }.
(** [lastTick] is a variable of [Start]. *)
Record Scheduler : Type := { tasks : gmap string task; lastTick : time }.
Definition New : Scheduler := {| tasks := ∅; lastTick := 0 |}.

Definition Add (e : Env) (spec : ScheduleSpec) : prog Scheduler serr unit := λ s,
  if bool_decide (Name spec = "") || match Handler spec with None => true | Some _ => false end
  then (Err (Errorf "scheduler: Name and Handler required"), s)
  else match parseSchedule e (Cron spec) with
       | Err err => (Err err, s)
       | Ok sched =>
           match tasks s !! Name spec with
           | Some _ => (Err (Sentinel ErrDuplicateName), s)
           | None =>
               (Ok tt, {| tasks := <[Name spec := {| t_spec := spec; t_schedule := sched |}]> (tasks s);
                          lastTick := lastTick s |})
           end
       end.

(** [Start] refuses to run without tasks. *)
Definition Start_check (s : Scheduler) : option serr :=
  if bool_decide (size (tasks s) = 0%nat) then Some (Errorf "scheduler: no tasks registered") else None.

(** [runDueTasks]: the tasks it starts a goroutine for. *)
Definition runDueTasks (e : Env) (now : time) (s : Scheduler) : list task :=
  filter (λ t, matches (t_schedule t) now = true) (range_values (R := order e) (tasks s)).

(** One tick of the loop of [Start]: the instant is truncated to the second,
    and a second already seen is skipped. *)
Definition tick (e : Env) (s : Scheduler) : list task * Scheduler :=
  let now := (now e - now e `mod` Second)%Z in
  if negb (IsZero (lastTick s)) && bool_decide (now = lastTick s) then ([], s)
  else (runDueTasks e now s, {| tasks := tasks s; lastTick := now |}).
End parser.

(** ** Leases *)

Record MemoryLocker : Type := { leases : gmap string time }.
Definition NewMemoryLocker : MemoryLocker := {| leases := ∅ |}.

Definition TryLock (e : Env) (name : string) (ttl : duration) (l : MemoryLocker) : bool * MemoryLocker :=
  let grant := (true, {| leases := <[name := (now e + ttl)%Z]> (leases l) |}) in
  match leases l !! name with
  | Some exp => if After exp (now e) then (false, l) else grant
  | None => grant
  end.
Definition release (name : string) (l : MemoryLocker) : MemoryLocker :=
  {| leases := delete name (leases l) |}.

Definition lease_ttl : duration := (90 * Second)%Z.
Definition lease_name (name : string) (tickAt : time) : string :=
  "scheduler:" +:+ name +:+ ":" +:+ pretty (Unix tickAt).

(** [runOne] up to the handler, and after it: whether the handler runs. *)
Definition runOne_start (e : Env) (name : string) (tickAt : time) (l : MemoryLocker) :
    bool * MemoryLocker := TryLock e (lease_name name tickAt) lease_ttl l.
Definition runOne_finish (name : string) (tickAt : time) (l : MemoryLocker) : MemoryLocker :=
  release (lease_name name tickAt) l.

(** ** postgres_locker.go: the key of an advisory lock, FNV-1a in 64 bits *)
Definition fnv64a (bytes : list Z) : Z :=
  foldl (λ h b, (Z.lxor h b * 1099511628211) `mod` 2 ^ 64)%Z 14695981039346656037%Z bytes.
Definition hashLockName (name : string) : Z :=
  wrap64 (fnv64a (Z.of_N ∘ N_of_ascii <$> String.list_ascii_of_string name)).
