(* ===== verification/SchedulerProofs.v ===== *)
(** * Scheduler correctness

    A cron expression, printed from its meaning, is parsed back to a schedule
    that fires exactly at the instants it denotes; the loop that fills a field
    terminates for every step, however large; a lease excludes a second run of
    the same tick while the first one is in progress, as long as handlers end
    before their lease does, but not after it has finished. *)

From S2P Require Import Prelude Encoding Scheduler.

(** ** Filling a field *)

Lemma fill_exact fuel v hi step out :
  (0 ≤ v)%Z → (1 ≤ step)%Z → (hi + step < 2 ^ 63)%Z → (Z.to_nat (hi - v + 2) ≤ fuel)%nat →
  (v ≤ hi + step)%Z → (1 ≤ fuel)%nat →
  ∃ out', fill fuel v hi step out = Some out' ∧
    ∀ x, is_Some (out' !! x) ↔ is_Some (out !! x) ∨ ((v ≤ x ≤ hi)%Z ∧ ((x - v) `mod` step = 0)%Z).
Proof.
  revert v out. induction fuel as [|fuel IH]; intros v out Hv Hs Hb Hf Hle H1; [lia|]. cbn.
  case_bool_decide as Hc.
  - rewrite wrap64_small by lia.
    destruct (IH (v + step)%Z (<[v := tt]> out)) as (out' & Ho & Hx); [lia..|].
    exists out'. split; [done|]. intros x. rewrite Hx, lookup_insert_is_Some.
    assert (((x - (v + step)) `mod` step = (x - v) `mod` step)%Z) as Hmod.
    { replace (x - (v + step))%Z with (x - v + -1 * step)%Z by lia. apply Z_mod_plus_full. }
    rewrite Hmod. split.
    + intros [[<-|[_ ?]]|[? ?]]; [right|by left|right; split; [lia|done]].
      rewrite Z.sub_diag, Z.mod_0_l by lia. split; [lia|done].
    + intros [?|[Hr Hm]]; [left; destruct (decide (v = x)); auto|].
      destruct (decide (v = x)) as [->|Hne]; [left; by left|right]. split; [|done].
      apply Z.mod_divide in Hm as [k Hk]; [|lia]. assert (1 ≤ k)%Z by nia. nia.
  - exists out. split; [done|]. intros x. split; [by left|]. intros [?|[? _]]; [done|lia].
Qed.

(** Steps that wrap around: every second value goes down. *)
Lemma fill_wraps n v hi step out :
  (Z.to_nat v ≤ n)%nat → (0 ≤ v ≤ hi)%Z → (hi < 2 ^ 60)%Z → (step < 2 ^ 63 ≤ hi + step)%Z →
  ∀ fuel, (Z.to_nat v + 4 ≤ fuel)%nat → is_Some (fill fuel v hi step out).
Proof.
  revert v out. induction n as [|n IH]; intros v out Hn Hv Hhi Hs fuel Hf.
  all: destruct fuel as [|[|[|[|fuel]]]]; try lia.
  all: rewrite (eq_refl : fill (S (S (S (S fuel)))) v hi step out =
         if bool_decide (v ≤ hi)%Z then fill (S (S (S fuel))) (wrap64 (v + step)) hi step (<[v := tt]> out)
         else Some out); rewrite bool_decide_true by lia.
  all: destruct (decide (v + step < 2 ^ 63)%Z) as [Hlt|Hge].
  all: try (rewrite wrap64_small by lia; cbn [fill]; rewrite bool_decide_false by lia; by eexists).
  all: assert (wrap64 (v + step) = v + step - 2 ^ 64)%Z as ->
    by (unfold wrap; rewrite <-(Z_mod_plus_full _ (-1)), Z.mod_small; lia).
  all: cbn [fill]; rewrite bool_decide_true by lia; rewrite wrap64_small by lia.
  all: destruct (decide (0 ≤ v + step - 2 ^ 64 + step)%Z) as [Hpos|Hneg].
  all: try (rewrite bool_decide_true by lia; rewrite wrap64_small by lia;
            rewrite bool_decide_false by lia; by eexists).
  apply (IH (v + step - 2 ^ 64 + step)%Z (<[(v + step - 2 ^ 64)%Z := tt]> (<[v := tt]> out)))
    with (fuel := S (S fuel)); lia.
Qed.

(** The loop ends for every step and every range of a field. *)
Lemma fill_terminates v b hi step out :
  (0 ≤ v ≤ b)%Z → (b ≤ hi < 2 ^ 60)%Z → (1 ≤ step < 2 ^ 63)%Z →
  is_Some (fill (fill_fuel hi) v b step out).
Proof.
  intros Hv Hb Hs. unfold fill_fuel. destruct (decide (b + step < 2 ^ 63)%Z) as [Hlt|Hge].
  - destruct (fill_exact (Z.to_nat (hi + 5)) v b step out) as (out' & -> & _); [lia..|]. by eexists.
  - apply (fill_wraps (Z.to_nat v)); lia.
Qed.

Lemma part_step_bounds part step rest : part_step part = Some (step, rest) → (1 ≤ step < 2 ^ 63)%Z.
Proof.
  unfold part_step. destruct (cut slash part) as [[before after]|]; [|by intros [= <- <-]].
  destruct (Atoi after) as [s|] eqn:Ha; [|done]. destruct (bool_decide (s ≤ 0)%Z) eqn:Hs; [done|].
  intros [= <- <-]. apply bool_decide_eq_false in Hs.
  assert (∀ y z, in_int64 y = Some z → (z < 2 ^ 63)%Z) as Hi.
  { intros y z. unfold in_int64. case_bool_decide; [|done]. intros [= <-]. lia. }
  split; [lia|]. unfold Atoi in Ha.
  repeat match goal with
  | Hx : context [match ?x with _ => _ end] |- _ => is_var x; destruct x; simplify_eq
  end; apply bind_Some in Ha as (n & _ & Ha); by apply Hi in Ha.
Qed.

Lemma part_range_bounds part lo hi a b :
  (0 ≤ lo ≤ hi)%Z → part_range part lo hi = Some (a, b) → (0 ≤ a ≤ b)%Z ∧ (b ≤ hi)%Z.
Proof.
  unfold part_range. intros Hlo. repeat (case_match || case_bool_decide); intros ?; simplify_eq/=; try done; try lia.
Qed.

(** C40: the parser of a field ends on every text: with the bounds of a calendar
    field the loop over the values of a part, in 64-bit arithmetic and with steps
    that may wrap around, always runs to its end, so that a field is parsed or
    refused for its step or its values. *)
Theorem parseField_terminates e field lo hi :
  (0 ≤ lo ≤ hi)%Z → (hi < 2 ^ 60)%Z →
  (∃ l, parseField e field lo hi = Ok l) ∨ parseField e field lo hi = Err (Errorf "invalid step") ∨
  parseField e field lo hi = Err (Errorf "invalid value or range").
Proof.
  intros Hlo Hhi. unfold parseField. destruct (bool_decide _); [eauto|].
  generalize (∅ : gmap Z unit) as out. induction (split_runes comma field) as [|part parts IH]; intros out.
  { left. by eexists. }
  cbn [parse_parts]. destruct (part_step part) as [[step rest]|] eqn:Hs; [|auto].
  apply part_step_bounds in Hs.
  destruct (part_range rest lo hi) as [[a b]|] eqn:Hr; [|auto]. apply part_range_bounds in Hr as [Ha Hb]; [|done].
  destruct (fill_terminates a b hi step out) as [out' ->]; [lia..|]. apply IH.
Qed.

(** ** Parts *)

Inductive range_spec : Type :=
  | Any
  | One (n : Z)
  | Between (a b : Z).
(** A range and an optional step. *)
Definition part_spec : Type := range_spec * option Z.

Definition range_ends (lo hi : Z) (r : range_spec) : Z * Z :=
  match r with Any => (lo, hi) | One n => (n, n) | Between a b => (a, b) end.
Definition step_of (p : part_spec) : Z := default 1%Z p.2.

(** The values a part stands for. *)
Definition denotes (lo hi : Z) (p : part_spec) (v : Z) : Prop :=
  let '(a, b) := range_ends lo hi p.1 in (a ≤ v ≤ b)%Z ∧ ((v - a) `mod` step_of p = 0)%Z.

Definition part_ok (lo hi : Z) (p : part_spec) : Prop :=
  let '(a, b) := range_ends lo hi p.1 in (lo ≤ a ≤ b)%Z ∧ (b ≤ hi)%Z ∧ (1 ≤ step_of p < 2 ^ 62)%Z.

Definition print_range (r : range_spec) : text :=
  match r with
  | Any => star
  | One n => digits n
  | Between a b => digits a ++ dash :: digits b
  end.
Definition print_part (p : part_spec) : text :=
  print_range p.1 ++ match p.2 with None => [] | Some s => slash :: digits s end.
Fixpoint print_field (ps : list part_spec) : text :=
  match ps with
  | [] => []
  | [p] => print_part p
  | p :: rest => print_part p ++ comma :: print_field rest
  end.

Lemma cut_none c s : c ∉ s → cut c s = None.
Proof.
  induction s as [|r s IH]; [done|]. rewrite not_elem_of_cons. intros [Hne Hs]. cbn.
  by rewrite bool_decide_false, IH by congruence.
Qed.

Lemma cut_app c s t : c ∉ s → cut c (s ++ c :: t) = Some (s, t).
Proof.
  induction s as [|r s IH]; cbn; [by rewrite bool_decide_true|]. rewrite not_elem_of_cons. intros [Hne Hs].
  by rewrite bool_decide_false, IH by congruence.
Qed.

Lemma split_runes_none c s : c ∉ s → split_runes c s = [s].
Proof.
  induction s as [|r s IH]; cbn; [done|]. rewrite not_elem_of_cons. intros [Hne Hs].
  by rewrite bool_decide_false, IH by congruence.
Qed.

Lemma split_runes_app c s t : c ∉ s → split_runes c (s ++ c :: t) = s :: split_runes c t.
Proof.
  induction s as [|r s IH]; cbn; [by rewrite bool_decide_true|]. rewrite not_elem_of_cons. intros [Hne Hs].
  by rewrite bool_decide_false, IH by congruence.
Qed.

Lemma not_in_digits c z : (0 ≤ z)%Z → ¬ is_digit c → c ∉ digits z.
Proof. intros Hz Hc Hin. apply Hc. eapply Forall_forall; [|done]. by apply digits_spec. Qed.

(** The separators of a printed part. *)
Lemma not_in_print_range c lo hi p :
  (0 ≤ lo)%Z → part_ok lo hi p → ¬ is_digit c → c ≠ dash → c ≠ 42%N → c ∉ print_range p.1.
Proof.
  intros Hlo Hp Hc Hd Hs. unfold part_ok in Hp. destruct p as [[|n|a b] s]; cbn in *.
  - set_solver.
  - apply not_in_digits; [lia|done].
  - rewrite not_elem_of_app, not_elem_of_cons. split_and!; [apply not_in_digits; [lia|done]|done|].
    apply not_in_digits; [lia|done].
Qed.

Lemma not_in_print_part c lo hi p :
  (0 ≤ lo)%Z → part_ok lo hi p → ¬ is_digit c → c ≠ dash → c ≠ 42%N → c ≠ slash → c ∉ print_part p.
Proof.
  intros Hlo Hp Hc Hd Hs Hsl. unfold print_part. rewrite not_elem_of_app.
  split; [by eapply not_in_print_range|]. destruct p as [r [s|]]; cbn; [|set_solver].
  rewrite not_elem_of_cons. split; [done|]. apply not_in_digits; [|done].
  unfold part_ok, step_of in Hp. cbn in Hp. destruct (range_ends lo hi r). lia.
Qed.

Lemma part_step_print lo hi p :
  (0 ≤ lo)%Z → part_ok lo hi p → part_step (print_part p) = Some (step_of p, print_range p.1).
Proof.
  intros Hlo Hp. unfold part_step, print_part, step_of.
  assert (slash ∉ print_range p.1) as Hn by (eapply not_in_print_range; [done..|by unfold is_digit, slash; lia|done|done]).
  assert (1 ≤ step_of p < 2 ^ 62)%Z as Hs by (unfold part_ok in Hp; destruct (range_ends lo hi p.1); lia).
  destruct p as [r [s|]]; cbn in *.
  - rewrite cut_app by done. unfold step_of in Hs. cbn in Hs. rewrite Atoi_digits by lia.
    by rewrite bool_decide_false by lia.
  - by rewrite app_nil_r, cut_none.
Qed.

Lemma digits_not_star z : (0 ≤ z)%Z → digits z ≠ star.
Proof.
  intros Hz He. destruct (digits_spec z Hz) as (_ & Hd & _). rewrite He in Hd.
  apply Forall_cons in Hd as [Hd _]. unfold is_digit in Hd. lia.
Qed.

Lemma part_range_print lo hi p :
  (0 ≤ lo)%Z → (hi < 2 ^ 60)%Z → part_ok lo hi p →
  part_range (print_range p.1) lo hi = Some (range_ends lo hi p.1).
Proof.
  intros Hlo Hhi Hp. unfold part_range, part_ok in *. destruct p as [[|n|a b] s]; cbn in *.
  - done.
  - rewrite bool_decide_false by (apply digits_not_star; lia).
    rewrite cut_none by (apply not_in_digits; [lia|by unfold is_digit, dash; lia]).
    rewrite Atoi_digits, !bool_decide_false by lia. done.
  - rewrite bool_decide_false.
    + rewrite cut_app by (apply not_in_digits; [lia|by unfold is_digit, dash; lia]).
      rewrite !Atoi_digits, !bool_decide_false by lia. done.
    + intros He. destruct (digits a) as [|r [|r' l]]; cbn in He; discriminate || (injection He; intros; destruct l; discriminate).
Qed.

(** ** Fields *)

Lemma split_print_field lo hi ps :
  (0 ≤ lo)%Z → Forall (part_ok lo hi) ps → ps ≠ [] →
  split_runes comma (print_field ps) = print_part <$> ps.
Proof.
  intros Hlo Hok. induction Hok as [|p ps Hp Hps IH]; [done|]. intros _.
  assert (comma ∉ print_part p) as Hn
    by (eapply not_in_print_part; [done..|by unfold is_digit, comma; lia|done|done|done]).
  destruct ps as [|q ps]; [by apply split_runes_none|].
  change (print_field (p :: q :: ps)) with (print_part p ++ comma :: print_field (q :: ps)).
  rewrite split_runes_app by done. rewrite IH by done. done.
Qed.

Lemma parse_parts_print lo hi ps out :
  (0 ≤ lo)%Z → (hi < 2 ^ 60)%Z → Forall (part_ok lo hi) ps →
  ∃ out', parse_parts (print_part <$> ps) lo hi out = Ok out' ∧
    ∀ x, is_Some (out' !! x) ↔ is_Some (out !! x) ∨ Exists (λ p, denotes lo hi p x) ps.
Proof.
  intros Hlo Hhi Hok. revert out. induction Hok as [|p ps Hp Hps IH]; intros out; cbn [fmap list_fmap parse_parts].
  { exists out. split; [done|]. intros x. rewrite Exists_nil. tauto. }
  rewrite (part_step_print lo hi) by done. rewrite part_range_print by done.
  unfold part_ok in Hp. destruct (range_ends lo hi p.1) as [a b] eqn:He.
  destruct (fill_exact (fill_fuel hi) a b (step_of p) out) as (o & -> & Ho); [unfold fill_fuel; lia..|].
  destruct (IH o) as (out' & -> & Hx). exists out'. split; [done|].
  intros x. rewrite Hx, Ho, Exists_cons. unfold denotes at 2. rewrite He. tauto.
Qed.

(** Every field written in the documented syntax (stars, numbers, ranges,
    steps and lists of those) parses, and matches exactly the values it
    denotes. *)
Lemma parseField_exact e lo hi ps :
  (0 ≤ lo)%Z → (hi < 2 ^ 60)%Z → ps ≠ [] → Forall (part_ok lo hi) ps →
  ∃ vs, parseField e (print_field ps) lo hi = Ok vs ∧
    ∀ v, (lo ≤ v ≤ hi)%Z → match_field vs v = true ↔ Exists (λ p, denotes lo hi p v) ps.
Proof.
  intros Hlo Hhi Hne Hok. unfold parseField. case_bool_decide as Hstar.
  - exists []. split; [done|]. intros v Hv. split; [intros _|done].
    assert (print_part <$> ps = [star]) as Hps.
    { rewrite <-(split_print_field lo hi) by done. by rewrite Hstar. }
    destruct ps as [|p [|q ps]]; [done| |done]. injection Hps as Hp. apply Exists_cons. left.
    assert (p = (Any, None)) as ->.
    { apply Forall_cons in Hok as [Hok _]. destruct p as [[|n|a b] [s|]]; unfold part_ok, step_of in Hok; cbn in *; try done.
      - exfalso. by destruct (digits n) as [|? [|]].
      - exfalso. apply (digits_not_star n); [lia|]. by rewrite app_nil_r in Hp.
      - exfalso. by destruct (digits a) as [|? [|]].
      - exfalso. by destruct (digits a) as [|? [|]]. }
    unfold denotes, step_of. cbn. rewrite Z.mod_1_r. done.
  - rewrite (split_print_field lo hi) by done.
    destruct (parse_parts_print lo hi ps ∅) as (out & -> & Hout); [done..|].
    eexists. split; [done|]. intros v Hv.
    assert (v ∈ (range (MapRange := order e) out).*1 ↔ Exists (λ p, denotes lo hi p v) ps) as <-.
    { rewrite list_elem_of_fmap. transitivity (is_Some (out !! v)).
      - split.
        + intros ([k []] & -> & Hk). apply (elem_of_range (H := order e)) in Hk. by eexists.
        + intros [[] Hk]. exists (v, tt). split; [done|]. by apply (elem_of_range (H := order e)).
      - rewrite Hout, lookup_empty. split; [intros [[? ?]|?]; done|by right]. }
    destruct (range (MapRange := order e) out).*1 as [|x l] eqn:Hl; unfold match_field.
    + split; [intros _|by intros ?%not_elem_of_nil].
      exfalso. destruct ps as [|p ps]; [done|]. apply Forall_cons in Hok as [Hp _].
      unfold part_ok in Hp. destruct (range_ends lo hi p.1) as [a b] eqn:He.
      assert (is_Some (out !! a)) as [[] Ha].
      { apply Hout. right. apply Exists_cons. left. unfold denotes. rewrite He, Z.sub_diag, Z.mod_0_l by lia.
        split; [lia|done]. }
      apply (elem_of_range (H := order e)) in Ha. apply (list_elem_of_fmap_2 fst) in Ha.
      rewrite Hl in Ha. by apply not_elem_of_nil in Ha.
    + apply bool_decide_eq_true.
Qed.

(** ** Expressions *)

Lemma fields_from_app acc w rest :
  Forall (λ r, is_space r = false) w → fields_from acc (w ++ rest) = fields_from (reverse w ++ acc) rest.
Proof.
  intros Hw. revert acc. induction Hw as [|r w Hr Hw IH]; intros acc; [done|].
  rewrite reverse_cons, <-app_assoc. cbn. by rewrite Hr, IH.
Qed.

Lemma fields_from_word w :
  w ≠ [] → Forall (λ r, is_space r = false) w →
  fields_from [] w = [w] ∧ ∀ rest, fields_from [] (w ++ 32%N :: rest) = w :: fields_from [] rest.
Proof.
  intros Hne Hw. assert (reverse w ≠ []) as Hr by (intros He; apply Hne; by apply (inj reverse)).
  split; [rewrite <-(app_nil_r w) at 1|intros rest];
    rewrite fields_from_app, app_nil_r by done; cbn;
    (destruct (reverse w) as [|x l] eqn:He; [done|]); by rewrite <-He, reverse_involutive.
Qed.

Lemma printed_not_space c :
  is_digit c ∨ c = dash ∨ c = 42%N ∨ c = slash ∨ c = comma → is_space c = false.
Proof.
  unfold is_digit. intros Hc.
  assert (c ∈ [48; 49; 50; 51; 52; 53; 54; 55; 56; 57; 45; 42; 47; 44]%N) as Hin.
  { rewrite !elem_of_cons. unfold dash, slash, comma in Hc. lia. }
  repeat (apply elem_of_cons in Hin as [->|Hin]; [by vm_compute|]). by apply not_elem_of_nil in Hin.
Qed.

Lemma print_field_word lo hi ps :
  (0 ≤ lo)%Z → Forall (part_ok lo hi) ps → ps ≠ [] →
  print_field ps ≠ [] ∧ Forall (λ r, is_space r = false) (print_field ps).
Proof.
  intros Hlo Hok Hne. split.
  - intros He. pose proof (split_print_field lo hi ps Hlo Hok Hne) as Hs. rewrite He in Hs.
    destruct ps as [|p [|q ps]]; [done| |done]. injection Hs as Hs. unfold print_part in Hs.
    apply eq_sym, app_nil in Hs as [Hs _]. apply Forall_cons in Hok as [Hok _].
    destruct p as [[|n|a b] s]; unfold part_ok in Hok; cbn in *; [done| |].
    + by destruct (digits_spec n) as (? & _); [lia|].
    + by destruct (digits a).
  - apply Forall_forall. intros c Hc. destruct (is_space c) eqn:Hs; [|done]. exfalso.
    assert (¬ (is_digit c ∨ c = dash ∨ c = 42%N ∨ c = slash ∨ c = comma)) as Hn
      by (intros ?%printed_not_space; congruence).
    assert (∀ p, part_ok lo hi p → c ∉ print_part p) as Hp
      by (intros p Hp; eapply not_in_print_part; [done..|tauto|tauto|tauto|tauto]).
    clear Hne. induction Hok as [|p ps Hpk Hok IH]; [by apply not_elem_of_nil in Hc|].
    destruct ps as [|q ps]; [by eapply Hp|]. apply elem_of_app in Hc as [Hc|[Hc|Hc]%elem_of_cons];
      [by eapply Hp|tauto|by apply IH].
Qed.

Definition print_expr (m h d mo w : list part_spec) : text :=
  print_field m ++ 32%N :: print_field h ++ 32%N :: print_field d ++ 32%N ::
  print_field mo ++ 32%N :: print_field w.

Definition field_ok (lo hi : Z) (ps : list part_spec) : Prop := ps ≠ [] ∧ Forall (part_ok lo hi) ps.
Definition field_denotes (lo hi : Z) (ps : list part_spec) (v : Z) : Prop :=
  Exists (λ p, denotes lo hi p v) ps.

Lemma Fields_print_expr m h d mo w :
  field_ok 0 59 m → field_ok 0 23 h → field_ok 1 31 d → field_ok 1 12 mo → field_ok 0 6 w →
  Fields (print_expr m h d mo w) =
    [print_field m; print_field h; print_field d; print_field mo; print_field w].
Proof.
  intros [Nm Om] [Nh Oh] [Nd Od] [No Oo] [Nw Ow]. unfold Fields, print_expr.
  assert (∀ lo hi ps, (0 ≤ lo)%Z → Forall (part_ok lo hi) ps → ps ≠ [] →
    fields_from [] (print_field ps) = [print_field ps] ∧
    ∀ rest, fields_from [] (print_field ps ++ 32%N :: rest) = print_field ps :: fields_from [] rest) as Hword
    by (intros lo hi ps ???; destruct (print_field_word lo hi ps); [done..|]; by apply fields_from_word).
  rewrite (proj2 (Hword 0 59 m ltac:(lia) Om Nm)%Z), (proj2 (Hword 0 23 h ltac:(lia) Oh Nh)%Z),
    (proj2 (Hword 1 31 d ltac:(lia) Od Nd)%Z), (proj2 (Hword 1 12 mo ltac:(lia) Oo No)%Z),
    (proj1 (Hword 0 6 w ltac:(lia) Ow Nw)%Z). done.
Qed.

(** ** The calendar *)

Lemma clock_range t :
  (0 ≤ Minute_ t ≤ 59)%Z ∧ (0 ≤ Hour_ t ≤ 23)%Z ∧ (0 ≤ Weekday t ≤ 6)%Z.
Proof.
  unfold Minute_, Hour_, Weekday, secs_of_day.
  assert (0 ≤ t `mod` (24 * Hour) < 24 * Hour)%Z as Hd by (apply Z.mod_pos_bound; by vm_compute).
  change (24 * Hour)%Z with (86400 * Second)%Z in *.
  set (r := (t `mod` (86400 * Second))%Z) in *.
  assert (0 ≤ r `div` Second < 86400)%Z as Hs.
  { split; [apply Z.div_pos; [lia|by vm_compute]|apply Z.div_lt_upper_bound; [by vm_compute|]]. lia. }
  split_and!; try (apply Z.mod_pos_bound; lia); try (pose proof (Z.mod_pos_bound ((r `div` Second) `div` 60) 60); lia).
  - apply Z.div_pos; lia.
  - apply Z.lt_succ_r, Z.div_lt_upper_bound; lia.
  - pose proof (Z.mod_pos_bound (days_of t + 1) 7). lia.
Qed.

Lemma civil_range days : (1 ≤ (civil days).1 ≤ 12)%Z ∧ (1 ≤ (civil days).2 ≤ 31)%Z.
Proof.
  unfold civil.
  assert (0 ≤ days `mod` 146097 < 146097)%Z as H0 by (apply Z.mod_pos_bound; lia).
  set (d0 := (days `mod` 146097)%Z) in *. set (n100 := Z.min 3 (d0 `div` 36524)).
  assert (0 ≤ d0 - n100 * 36524 ≤ 36524 ∧ (n100 < 3 → d0 - n100 * 36524 < 36524) ∧ 0 ≤ n100 ≤ 3)%Z as H1.
  { pose proof (Z.div_mod d0 36524). pose proof (Z.mod_pos_bound d0 36524).
    assert (0 ≤ d0 `div` 36524)%Z by (apply Z.div_pos; lia). unfold n100. lia. }
  set (d1 := (d0 - n100 * 36524)%Z) in *. set (n4 := (d1 `div` 1461)%Z).
  assert (0 ≤ d1 - n4 * 1461 ≤ 1460 ∧ 0 ≤ n4 ≤ 24 ∧ (n4 = 24 → n100 < 3 → d1 - n4 * 1461 < 1460))%Z as H2.
  { pose proof (Z.div_mod d1 1461). pose proof (Z.mod_pos_bound d1 1461).
    assert (0 ≤ n4)%Z by (apply Z.div_pos; lia). unfold n4 in *. lia. }
  set (d2 := (d1 - n4 * 1461)%Z) in *. set (n1 := Z.min 3 (d2 `div` 365)).
  assert (0 ≤ d2 - n1 * 365 ≤ 365 ∧ (n1 < 3 → d2 - n1 * 365 < 365) ∧ (d2 < 1460 → d2 - n1 * 365 < 365))%Z as H3.
  { pose proof (Z.div_mod d2 365). pose proof (Z.mod_pos_bound d2 365).
    assert (0 ≤ d2 `div` 365)%Z by (apply Z.div_pos; lia). unfold n1. lia. }
  set (yday := (d2 - n1 * 365)%Z) in *.
  assert (∀ leap : bool, (0 ≤ yday ≤ if leap then 365 else 364)%Z →
    (1 ≤ (civil_in 1 (month_starts leap) yday (1, 1)).1 ≤ 12)%Z ∧
    (1 ≤ (civil_in 1 (month_starts leap) yday (1, 1)).2 ≤ 31)%Z) as Hc.
  { intros leap Hy. unfold month_starts, civil_in. destruct leap; repeat case_bool_decide; cbn; lia. }
  apply Hc. destruct (bool_decide (n1 = 3)%Z) eqn:E1; cbn.
  - destruct (bool_decide (n4 = 24)%Z) eqn:E2; cbn.
    + destruct (bool_decide (n100 = 3)%Z) eqn:E3; [lia|]. apply bool_decide_eq_false in E3.
      apply bool_decide_eq_true in E2. lia.
    + lia.
  - apply bool_decide_eq_false in E1. unfold n1 in *. lia.
Qed.

(** C23: a five-field expression in the documented syntax parses to a schedule
    that fires exactly on second 0 of the minutes whose minute, hour, day,
    month and weekday are all among those its fields denote. *)
Theorem cron_exact e m h d mo w t :
  field_ok 0 59 m → field_ok 0 23 h → field_ok 1 31 d → field_ok 1 12 mo → field_ok 0 6 w →
  ∃ s, parse_fields e (print_expr m h d mo w) = Ok s ∧
    (matches s t = true ↔
     field_denotes 0 59 m (Minute_ t) ∧ field_denotes 0 23 h (Hour_ t) ∧
     field_denotes 1 31 d (Day t) ∧ field_denotes 1 12 mo (Month_ t) ∧
     field_denotes 0 6 w (Weekday t) ∧ Second_ t = 0%Z).
Proof.
  intros Hm Hh Hd Hmo Hw. unfold parse_fields. rewrite Fields_print_expr by done.
  destruct Hm as [Nm Om], Hh as [Nh Oh], Hd as [Nd Od], Hmo as [No Oo], Hw as [Nw Ow].
  destruct (parseField_exact e 0 59 m) as (vm & -> & Em); [done..|].
  destruct (parseField_exact e 0 23 h) as (vh & -> & Eh); [done..|].
  destruct (parseField_exact e 1 31 d) as (vd & -> & Ed); [done..|].
  destruct (parseField_exact e 1 12 mo) as (vo & -> & Eo); [done..|].
  destruct (parseField_exact e 0 6 w) as (vw & -> & Ew); [done..|].
  eexists. split; [done|]. unfold matches. cbn [everyDur s_minute s_hour s_dom s_month s_dow].
  rewrite bool_decide_false by lia.
  destruct (clock_range t) as (R1 & R2 & R3). destruct (civil_range (days_of t)) as [R4 R5].
  rewrite !andb_true_iff, bool_decide_eq_true, (Em _ R1), (Eh _ R2), (Ed _ R5), (Eo _ R4), (Ew _ R3).
  unfold field_denotes. tauto.
Qed.

(** ** Leases *)

(** Replicas that share a locker: the runs in progress, each with the task, the
    tick and the end of its lease. *)
Record cluster : Type := {
  locker : MemoryLocker;
  clock : time;
  in_progress : list (string * time * time);
}.

(** The replica that calls reads a clock that has not passed the end of any
    lease in progress: handlers end before their lease does. *)
Definition timely (e : Env) (c : cluster) : Prop :=
  (clock c ≤ now e)%Z ∧ ∀ r, r ∈ in_progress c → (now e < r.2)%Z.

Inductive timely_step : cluster → cluster → Prop :=
  | run_starts e name tickAt l c :
      timely e c → runOne_start e name tickAt (locker c) = (true, l) →
      timely_step c {| locker := l; clock := now e;
                       in_progress := in_progress c ++ [(name, tickAt, (now e + lease_ttl)%Z)] |}
  | run_refused e name tickAt l c :
      timely e c → runOne_start e name tickAt (locker c) = (false, l) →
      timely_step c {| locker := l; clock := now e; in_progress := in_progress c |}
  | run_ends e name tickAt exp l1 l2 c :
      timely e c → in_progress c = l1 ++ (name, tickAt, exp) :: l2 →
      timely_step c {| locker := runOne_finish name tickAt (locker c); clock := now e;
                       in_progress := l1 ++ l2 |}.

Definition NewCluster (t : time) : cluster :=
  {| locker := NewMemoryLocker; clock := t; in_progress := [] |}.

Definition run_lease (r : string * time * time) : string := lease_name r.1.1 r.1.2.

Record lease_inv (c : cluster) : Prop := {
  li_held r : r ∈ in_progress c → leases (locker c) !! run_lease r = Some r.2;
  li_nodup : NoDup (run_lease <$> in_progress c);
}.

Lemma TryLock_cases e name ttl l b l' :
  TryLock e name ttl l = (b, l') →
  (b = true ∧ leases l' = <[name := (now e + ttl)%Z]> (leases l) ∧
   ∀ exp, leases l !! name = Some exp → (exp ≤ now e)%Z) ∨
  (b = false ∧ l' = l ∧ ∃ exp, leases l !! name = Some exp ∧ (now e < exp)%Z).
Proof.
  unfold TryLock, After. destruct (leases l !! name) as [exp|]; [case_bool_decide|]; intros [= <- <-].
  - right. eauto.
  - left. split_and!; [done..|]. intros ? [= <-]. lia.
  - by left.
Qed.

Lemma timely_step_inv c c' : timely_step c c' → lease_inv c → lease_inv c'.
Proof.
  intros Hs [Hh Hn]. destruct Hs as [e name tickAt l c [_ Ht] Hl|e name tickAt l c _ Hl
    |e name tickAt exp l1 l2 c _ Hp].
  - apply TryLock_cases in Hl as [(_ & Hl & Hfree)|[? _]]; [|done].
    assert (∀ r, r ∈ in_progress c → run_lease r ≠ lease_name name tickAt) as Hother.
    { intros r Hr Heq. pose proof (Hh r Hr) as Hx. rewrite Heq in Hx. specialize (Hfree _ Hx).
      specialize (Ht _ Hr). lia. }
    split; cbn; rewrite ?Hl.
    + intros r [Hr|Hr%list_elem_of_singleton]%elem_of_app.
      * rewrite lookup_insert_ne; [by apply Hh|]. intros Heq. by apply (Hother r).
      * subst r. apply lookup_insert_eq.
    + rewrite fmap_app. apply NoDup_app. split_and!; [done| |apply NoDup_singleton].
      intros x (r & -> & Hr)%list_elem_of_fmap Hx. apply list_elem_of_singleton in Hx. by apply (Hother r).
  - apply TryLock_cases in Hl as [[? _]|(_ & -> & _)]; [done|]. by split.
  - rewrite Hp in Hh, Hn. rewrite fmap_app in Hn. apply NoDup_app in Hn as (H1 & H2 & [H3 H4]%NoDup_cons).
    split; cbn.
    + intros r Hr. rewrite lookup_delete_ne; [apply Hh; set_solver|].
      intros Heq. change (lease_name name tickAt) with (run_lease (name, tickAt, exp)) in Heq.
      apply elem_of_app in Hr as [Hr|Hr].
      * apply (H2 (run_lease r)); [by apply list_elem_of_fmap_2|]. rewrite <-Heq. set_solver.
      * apply H3. rewrite Heq. by apply list_elem_of_fmap_2.
    + rewrite fmap_app. apply NoDup_app. split_and!; [done| |done].
      intros x Hx Hx'. apply (H2 x Hx). rewrite fmap_cons, elem_of_cons. by right.
Qed.

(** C24: as long as handlers end before their lease does, no two replicas are
    ever running the same task for the same tick. *)
Theorem lease_excludes c t l1 l2 l3 name tickAt exp exp' :
  rtc timely_step (NewCluster t) c →
  in_progress c = l1 ++ (name, tickAt, exp) :: l2 ++ (name, tickAt, exp') :: l3 → False.
Proof.
  intros Hrun Hp. assert (lease_inv c) as [_ Hn].
  { apply (rtc_preserves timely_step lease_inv _ _ timely_step_inv Hrun).
    split; cbn; [intros r Hr; by apply not_elem_of_nil in Hr|constructor]. }
  rewrite Hp, fmap_app, fmap_cons, fmap_app, fmap_cons in Hn.
  apply NoDup_app in Hn as (_ & _ & [Hnin _]%NoDup_cons). set_solver.
Qed.

(** The lease does not outlive the run.  Once a replica has run a task for
    a tick, another one that reaches the same tick later, by any delay, is
    granted the lease again and runs the task a second time. *)
Theorem tick_can_run_twice e e' name tickAt l :
  leases l !! lease_name name tickAt = None →
  ∃ l1 l2, runOne_start e name tickAt l = (true, l1) ∧
    runOne_start e' name tickAt (runOne_finish name tickAt l1) = (true, l2).
Proof.
  intros Hfree. do 2 eexists. unfold runOne_start, runOne_finish, release, TryLock. rewrite Hfree.
  split; [done|]. cbn. by rewrite lookup_delete_eq.
Qed.

(** ** Examples *)

Definition example_env (t : time) : Env := {| now := t; new_id := λ _, 1%N; order := canonical_range |}.

(** 1 January 1970 was a Thursday and 29 February 2024 existed. *)
Example epoch_civil : let t := (62135596800 * Second)%Z in
  Unix t = 0%Z ∧ Month_ t = 1%Z ∧ Day t = 1%Z ∧ Weekday t = 4%Z ∧ Hour_ t = 0%Z.
Proof. by vm_compute. Qed.
Example leap_civil : let t := ((62135596800 + 1709214300) * Second)%Z in
  Month_ t = 2%Z ∧ Day t = 29%Z ∧ Hour_ t = 13%Z ∧ Minute_ t = 45%Z ∧ Weekday t = 4%Z.
Proof. by vm_compute. Qed.

Lemma cron_exact_witness :
  ∃ s, parse_fields (example_env 0) (runes "*/15 9-17 * 1,6 1-5") = Ok s ∧
    (matches s ((62135596800 + 1709214300) * Second)%Z = true ↔
     field_denotes 0 59 [(Any, Some 15%Z)] 45 ∧ field_denotes 0 23 [(Between 9 17, None)] 13 ∧
     field_denotes 1 31 [(Any, None)] 29 ∧ field_denotes 1 12 [(One 1, None); (One 6, None)] 2 ∧
     field_denotes 0 6 [(Between 1 5, None)] 4 ∧ 0%Z = 0%Z).
Proof.
  apply (cron_exact (example_env 0) [(Any, Some 15%Z)] [(Between 9 17, None)] [(Any, None)]
           [(One 1, None); (One 6, None)] [(Between 1 5, None)]);
    (split; [done|]); repeat (apply Forall_cons_2; [unfold part_ok, step_of; cbn; lia|]); apply Forall_nil_2.
Defined.

Lemma lease_excludes_witness :
  ∃ c, rtc timely_step (NewCluster 0) c ∧
    ¬ ∃ l1 l2 l3 exp exp',
        in_progress c = l1 ++ ("job", 0%Z, exp) :: l2 ++ ("job", 0%Z, exp') :: l3.
Proof.
  eassert (rtc timely_step (NewCluster 0) _) as Hrun.
  { apply rtc_once, (run_starts (example_env 5) "job" 0); [split; [done|]|reflexivity].
    intros r Hr. by apply not_elem_of_nil in Hr. }
  eexists. split; [exact Hrun|]. intros (l1 & l2 & l3 & exp & exp' & Hp).
  exact (lease_excludes _ 0 l1 l2 l3 "job" 0 exp exp' Hrun Hp).
Defined.

Lemma parseField_terminates_witness :
  let r := parseField (example_env 5) (runes "5/9223372036854775807") 0 59 in
  (∃ l, r = Ok l) ∨ r = Err (Errorf "invalid step") ∨ r = Err (Errorf "invalid value or range").
Proof. apply (parseField_terminates (example_env 5) (runes "5/9223372036854775807") 0 59); lia. Defined.

Lemma tick_can_run_twice_witness :
  ∃ l1 l2, runOne_start (example_env 5) "job" 0 NewMemoryLocker = (true, l1) ∧
    runOne_start (example_env 6) "job" 0 (runOne_finish "job" 0 l1) = (true, l2).
Proof. apply (tick_can_run_twice (example_env 5) (example_env 6) "job" 0 NewMemoryLocker). reflexivity. Defined.
