(* ===== verification/Billing.v ===== *)
(** * Payment rails (platform/billing-rail)

    types.go, rail.go and sink.go: the data and the two contracts, the classes [Rail]
    and [EdenBizSink]; dispatcher.go: the dispatcher and the HTTP handler its
    documentation gives for it; mock.go: the programmable rail and the recording
    sink.

    Theorems: what a webhook does to the sink, which events a sink can tell apart,
    and what the recording sink holds. *)

From S2P Require Import Prelude Encoding.

(** ** types.go *)

Record Money : Type := { AmountMinor : Z; Currency : string }.
Record Customer : Type := { cu_ID : string; Email : string; TenantID : string; cu_Metadata : gmap string string }.
Record ChargeRequest : Type := {
  cq_Amount : Money;
  cq_Customer : Customer;
  Description : string;
  cq_IdempotencyKey : string;
  cq_Metadata : gmap string string;
}.
Inductive ChargeStatus : Type := ChargeStatusUnknown | ChargeStatusPending | ChargeStatusSucceeded | ChargeStatusFailed.
Definition ChargeStatus_String (s : ChargeStatus) : string :=
  match s with
  | ChargeStatusPending => "pending"
  | ChargeStatusSucceeded => "succeeded"
  | ChargeStatusFailed => "failed"
  | ChargeStatusUnknown => "unknown"
  end.
Record ChargeResult : Type := {
  cr_RailChargeID : string;
  cr_Status : ChargeStatus;
  cr_ProcessedAt : time;
  FailureCode : string;
  FailureMessage : string;
  cr_RawResponse : string;
}.
Record RefundRequest : Type := {
  rq_RailChargeID : string;
  rq_Amount : Money;
  rq_IdempotencyKey : string;
  Reason : string;
  rq_Metadata : gmap string string;
}.
Inductive RefundStatus : Type := RefundStatusUnknown | RefundStatusPending | RefundStatusSucceeded | RefundStatusFailed.
Definition RefundStatus_String (s : RefundStatus) : string :=
  match s with
  | RefundStatusPending => "pending"
  | RefundStatusSucceeded => "succeeded"
  | RefundStatusFailed => "failed"
  | RefundStatusUnknown => "unknown"
  end.
Record RefundResult : Type := {
  RailRefundID : string;
  rr_Status : RefundStatus;
  rr_ProcessedAt : time;
  rr_RawResponse : string;
}.
Record SubscriptionRequest : Type := {
  PlanID : string;
  sq_Customer : Customer;
  TrialEnd : option time;
  sq_IdempotencyKey : string;
  sq_Metadata : gmap string string;
}.
Inductive SubscriptionStatus : Type :=
  | SubStatusUnknown
  | SubStatusActive
  | SubStatusPastDue
  | SubStatusCanceled
  | SubStatusTrialing
  | SubStatusIncomplete.
Definition SubscriptionStatus_String (s : SubscriptionStatus) : string :=
  match s with
  | SubStatusActive => "active"
  | SubStatusPastDue => "past_due"
  | SubStatusCanceled => "canceled"
  | SubStatusTrialing => "trialing"
  | SubStatusIncomplete => "incomplete"
  | SubStatusUnknown => "unknown"
  end.
Record SubscriptionResult : Type := {
  RailSubscriptionID : string;
  sr_Status : SubscriptionStatus;
  CurrentPeriodEnd : time;
  sr_RawResponse : string;
}.

(** ** rail.go and sink.go *)

Definition EventChargeSucceeded : string := "charge.succeeded".
Definition EventChargeFailed : string := "charge.failed".
Definition EventChargeRefunded : string := "charge.refunded".
Definition EventSubCreated : string := "subscription.created".
Definition EventSubUpdated : string := "subscription.updated".
Definition EventSubCanceled : string := "subscription.canceled".
Definition EventSubRenewed : string := "subscription.renewed".
Definition EventSubTrialEnded : string := "subscription.trial_ended".

Record WebhookEvent : Type := {
  RailEventID : string;
  RailName : string;
  ev_Type : string;
  OccurredAt : time;
  ev_Customer : Customer;
  ev_Amount : Money;
  SubscriptionID : string;
  ChargeID : string;
  RailObject : string;
}.

Inductive billing_error : Type := ErrInvalidSignature | ErrUnsupportedEvent | ErrCharge | ErrRefund.
#[export] Instance billing_error_eq_dec : EqDecision billing_error.
Proof. solve_decision. Defined.
Abbreviation berr := (goerr billing_error) (only parsing).

Class Rail (R : Type) : Type := {
  Name : R → string;
  Charge : ChargeRequest → prog R berr ChargeResult;
  Refund : RefundRequest → prog R berr RefundResult;
  CreateSubscription : SubscriptionRequest → prog R berr SubscriptionResult;
  UpdateSubscription : SubscriptionRequest → prog R berr SubscriptionResult;
  CancelSubscription : string → prog R berr SubscriptionResult;
  SubscriptionStatus_of : string → prog R berr SubscriptionResult;
  ParseWebhook : gmap string string → string → prog R berr WebhookEvent;
}.
Class EdenBizSink (S : Type) : Type := {
  RecordCharge : Customer → Money → ChargeResult → prog S berr unit;
  RecordRefund : Customer → Money → RefundResult → prog S berr unit;
  RecordSubscriptionEvent : Customer → WebhookEvent → prog S berr unit;
}.

(** ** dispatcher.go *)

Section dispatcher.
Context {R S : Type} {RR : Rail R} {SS : EdenBizSink S}.

Record Dispatcher : Type := { rail : R; sink : S }.
(** Either argument may be a nil interface; a panic is [None]. *)
Definition NewDispatcher (r : option R) (s : option S) : option Dispatcher :=
  r ← r; s ← s; Some {| rail := r; sink := s |}.
Definition on_rail {A} (m : prog R berr A) : prog Dispatcher berr A :=
  zoom rail (λ r d, {| rail := r; sink := sink d |}) m.
Definition on_sink {A} (m : prog S berr A) : prog Dispatcher berr A :=
  zoom sink (λ s d, {| rail := rail d; sink := s |}) m.

Definition named (name : string) (ev : WebhookEvent) : WebhookEvent :=
  if bool_decide (RailName ev = "") then
    {| RailEventID := RailEventID ev; RailName := name; ev_Type := ev_Type ev; OccurredAt := OccurredAt ev;
       ev_Customer := ev_Customer ev; ev_Amount := ev_Amount ev; SubscriptionID := SubscriptionID ev;
       ChargeID := ChargeID ev; RailObject := RailObject ev |}
  else ev.
Definition charge_result (st : ChargeStatus) (ev : WebhookEvent) : ChargeResult :=
  {| cr_RailChargeID := ChargeID ev; cr_Status := st; cr_ProcessedAt := OccurredAt ev; FailureCode := "";
     FailureMessage := ""; cr_RawResponse := RailObject ev |}.
Definition refund_result (ev : WebhookEvent) : RefundResult :=
  {| RailRefundID := RailEventID ev; rr_Status := RefundStatusSucceeded; rr_ProcessedAt := OccurredAt ev;
     rr_RawResponse := RailObject ev |}.
Definition subscription_events : list string :=
  [EventSubCreated; EventSubUpdated; EventSubCanceled; EventSubRenewed; EventSubTrialEnded].

Definition dispatch (ev : WebhookEvent) : prog S berr unit :=
  if bool_decide (ev_Type ev = EventChargeSucceeded) then
    wrapping "billingrail: sink record charge"
      (RecordCharge (ev_Customer ev) (ev_Amount ev) (charge_result ChargeStatusSucceeded ev))
  else if bool_decide (ev_Type ev = EventChargeFailed) then
    wrapping "billingrail: sink record charge"
      (RecordCharge (ev_Customer ev) (ev_Amount ev) (charge_result ChargeStatusFailed ev))
  else if bool_decide (ev_Type ev = EventChargeRefunded) then
    wrapping "billingrail: sink record refund" (RecordRefund (ev_Customer ev) (ev_Amount ev) (refund_result ev))
  else if bool_decide (ev_Type ev ∈ subscription_events) then
    wrapping "billingrail: sink record subscription" (RecordSubscriptionEvent (ev_Customer ev) ev)
  else throw (Wrapf "type" (Sentinel ErrUnsupportedEvent)).

Definition Handle (headers : gmap string string) (body : string) : prog Dispatcher berr unit :=
  ev ← on_rail (ParseWebhook headers body);
  name ← gets (λ d, Name (rail d));
  on_sink (dispatch (named name ev)).

(** The status of the handler in the documentation of [Dispatcher]. *)
Definition respond (o : outcome berr unit) : Z :=
  match o with
  | Ok _ => 200
  | Err err => if errors_Is err ErrInvalidSignature then 400 else if errors_Is err ErrUnsupportedEvent then 204 else 500
  end.
End dispatcher.

(** ** mock.go *)

Section mock.
Definition answer (A : Type) : Type := outcome berr A.
Record MockRail : Type := {
  NameValue : string;
  ChargeResp : answer ChargeResult;
  ChargeFn : option (ChargeRequest → answer ChargeResult);
  RefundResp : answer RefundResult;
  RefundFn : option (RefundRequest → answer RefundResult);
  CreateSubscriptionResp : answer SubscriptionResult;
  UpdateSubscriptionResp : answer SubscriptionResult;
  CancelSubscriptionResp : answer SubscriptionResult;
  SubscriptionStatusResp : answer SubscriptionResult;
  ParseWebhookResp : answer WebhookEvent;
  ParseWebhookFn : option (gmap string string → string → answer WebhookEvent);
}.
(** What was called, in the order of the calls. *)
Record rail_calls : Type := {
  ChargeCalls : list ChargeRequest;
  RefundCalls : list RefundRequest;
  CreateSubCalls : list SubscriptionRequest;
  UpdateSubCalls : list SubscriptionRequest;
  CancelSubCalls : list string;
  SubStatusCalls : list string;
  WebhookCalls : list (gmap string string * string);
}.
Definition no_calls : rail_calls :=
  {| ChargeCalls := []; RefundCalls := []; CreateSubCalls := []; UpdateSubCalls := []; CancelSubCalls := [];
     SubStatusCalls := []; WebhookCalls := [] |}.
Definition mock_Name (m : MockRail) : string := if bool_decide (NameValue m = "") then "mock" else NameValue m.

Abbreviation mock A := (prog (MockRail * rail_calls) berr A) (only parsing).
Definition record (f : rail_calls → rail_calls) : mock unit := modify (λ '(m, c), (m, f c)).
Definition answering {A} (f : MockRail → answer A) : mock A := λ s, (f s.1, s).
Definition or_fn {A B} (fn : option (A → answer B)) (a : A) (resp : answer B) : answer B :=
  match fn with Some fn => fn a | None => resp end.

Definition mock_Charge (req : ChargeRequest) : mock ChargeResult :=
  _ ← record (λ c, {| ChargeCalls := ChargeCalls c ++ [req]; RefundCalls := RefundCalls c;
    CreateSubCalls := CreateSubCalls c; UpdateSubCalls := UpdateSubCalls c; CancelSubCalls := CancelSubCalls c;
    SubStatusCalls := SubStatusCalls c; WebhookCalls := WebhookCalls c |});
  answering (λ m, or_fn (ChargeFn m) req (ChargeResp m)).
Definition mock_Refund (req : RefundRequest) : mock RefundResult :=
  _ ← record (λ c, {| ChargeCalls := ChargeCalls c; RefundCalls := RefundCalls c ++ [req];
    CreateSubCalls := CreateSubCalls c; UpdateSubCalls := UpdateSubCalls c; CancelSubCalls := CancelSubCalls c;
    SubStatusCalls := SubStatusCalls c; WebhookCalls := WebhookCalls c |});
  answering (λ m, or_fn (RefundFn m) req (RefundResp m)).
Definition mock_CreateSubscription (req : SubscriptionRequest) : mock SubscriptionResult :=
  _ ← record (λ c, {| ChargeCalls := ChargeCalls c; RefundCalls := RefundCalls c;
    CreateSubCalls := CreateSubCalls c ++ [req]; UpdateSubCalls := UpdateSubCalls c; CancelSubCalls := CancelSubCalls c;
    SubStatusCalls := SubStatusCalls c; WebhookCalls := WebhookCalls c |});
  answering CreateSubscriptionResp.
Definition mock_UpdateSubscription (req : SubscriptionRequest) : mock SubscriptionResult :=
  _ ← record (λ c, {| ChargeCalls := ChargeCalls c; RefundCalls := RefundCalls c;
    CreateSubCalls := CreateSubCalls c; UpdateSubCalls := UpdateSubCalls c ++ [req]; CancelSubCalls := CancelSubCalls c;
    SubStatusCalls := SubStatusCalls c; WebhookCalls := WebhookCalls c |});
  answering UpdateSubscriptionResp.
Definition mock_CancelSubscription (id : string) : mock SubscriptionResult :=
  _ ← record (λ c, {| ChargeCalls := ChargeCalls c; RefundCalls := RefundCalls c;
    CreateSubCalls := CreateSubCalls c; UpdateSubCalls := UpdateSubCalls c; CancelSubCalls := CancelSubCalls c ++ [id];
    SubStatusCalls := SubStatusCalls c; WebhookCalls := WebhookCalls c |});
  answering CancelSubscriptionResp.
Definition mock_SubscriptionStatus (id : string) : mock SubscriptionResult :=
  _ ← record (λ c, {| ChargeCalls := ChargeCalls c; RefundCalls := RefundCalls c;
    CreateSubCalls := CreateSubCalls c; UpdateSubCalls := UpdateSubCalls c; CancelSubCalls := CancelSubCalls c;
    SubStatusCalls := SubStatusCalls c ++ [id]; WebhookCalls := WebhookCalls c |});
  answering SubscriptionStatusResp.
Definition mock_ParseWebhook (headers : gmap string string) (body : string) : mock WebhookEvent :=
  _ ← record (λ c, {| ChargeCalls := ChargeCalls c; RefundCalls := RefundCalls c;
    CreateSubCalls := CreateSubCalls c; UpdateSubCalls := UpdateSubCalls c; CancelSubCalls := CancelSubCalls c;
    SubStatusCalls := SubStatusCalls c; WebhookCalls := WebhookCalls c ++ [(headers, body)] |});
  answering (λ m, match ParseWebhookFn m with Some fn => fn headers body | None => ParseWebhookResp m end).
#[export] Instance MockRail_rail : Rail (MockRail * rail_calls) := {|
  Name := λ s, mock_Name s.1; Charge := mock_Charge; Refund := mock_Refund;
  CreateSubscription := mock_CreateSubscription; UpdateSubscription := mock_UpdateSubscription;
  CancelSubscription := mock_CancelSubscription; SubscriptionStatus_of := mock_SubscriptionStatus;
  ParseWebhook := mock_ParseWebhook |}.

(** An error that is [None] is nil. *)
Record MockSink : Type := {
  RecordChargeErr : option berr;
  RecordRefundErr : option berr;
  RecordSubscriptionErr : option berr;
  sink_Charges : list (Customer * Money * ChargeResult);
  sink_Refunds : list (Customer * Money * RefundResult);
  sink_Subscriptions : list (Customer * WebhookEvent);
}.
Definition result_of (err : option berr) : outcome berr unit := match err with None => Ok tt | Some err => Err err end.
Definition mock_RecordCharge (c : Customer) (amt : Money) (r : ChargeResult) : prog MockSink berr unit := λ s,
  (result_of (RecordChargeErr s),
   {| RecordChargeErr := RecordChargeErr s; RecordRefundErr := RecordRefundErr s;
      RecordSubscriptionErr := RecordSubscriptionErr s; sink_Charges := sink_Charges s ++ [(c, amt, r)];
      sink_Refunds := sink_Refunds s; sink_Subscriptions := sink_Subscriptions s |}).
Definition mock_RecordRefund (c : Customer) (amt : Money) (r : RefundResult) : prog MockSink berr unit := λ s,
  (result_of (RecordRefundErr s),
   {| RecordChargeErr := RecordChargeErr s; RecordRefundErr := RecordRefundErr s;
      RecordSubscriptionErr := RecordSubscriptionErr s; sink_Charges := sink_Charges s;
      sink_Refunds := sink_Refunds s ++ [(c, amt, r)]; sink_Subscriptions := sink_Subscriptions s |}).
Definition mock_RecordSubscriptionEvent (c : Customer) (ev : WebhookEvent) : prog MockSink berr unit := λ s,
  (result_of (RecordSubscriptionErr s),
   {| RecordChargeErr := RecordChargeErr s; RecordRefundErr := RecordRefundErr s;
      RecordSubscriptionErr := RecordSubscriptionErr s; sink_Charges := sink_Charges s;
      sink_Refunds := sink_Refunds s; sink_Subscriptions := sink_Subscriptions s ++ [(c, ev)] |}).
#[export] Instance MockSink_sink : EdenBizSink MockSink := {|
  RecordCharge := mock_RecordCharge; RecordRefund := mock_RecordRefund;
  RecordSubscriptionEvent := mock_RecordSubscriptionEvent |}.
End mock.

(** ** One webhook *)

Section sinks.
Context {R S : Type} {RR : Rail R} {SS : EdenBizSink S}.
Implicit Types (ev : WebhookEvent) (s : S).

(** The one call an event makes. *)
Definition recorded ev s : option (outcome (goerr billing_error) unit * S) :=
  if decide (ev_Type ev = EventChargeSucceeded) then
    Some (RecordCharge (ev_Customer ev) (ev_Amount ev) (charge_result ChargeStatusSucceeded ev) s)
  else if decide (ev_Type ev = EventChargeFailed) then
    Some (RecordCharge (ev_Customer ev) (ev_Amount ev) (charge_result ChargeStatusFailed ev) s)
  else if decide (ev_Type ev = EventChargeRefunded) then
    Some (RecordRefund (ev_Customer ev) (ev_Amount ev) (refund_result ev) s)
  else if decide (ev_Type ev ∈ subscription_events) then Some (RecordSubscriptionEvent (ev_Customer ev) ev s)
  else None.

Lemma dispatch_recorded ev s :
  match recorded ev s with
  | None => dispatch ev s = (Err (Wrapf "type" (Sentinel ErrUnsupportedEvent)), s)
  | Some (Ok _, s') => dispatch ev s = (Ok tt, s')
  | Some (Err err, s') => ∃ msg, dispatch ev s = (Err (Wrapf msg err), s')
  end.
Proof.
  unfold recorded, dispatch.
  repeat (case_decide; [rewrite bool_decide_true by done|rewrite bool_decide_false by done]); try done.
  all: unfold wrapping; first [destruct (RecordCharge _ _ _ s) as [[[]|err] s']|destruct (RecordRefund _ _ _ s) as [[[]|err] s']
    |destruct (RecordSubscriptionEvent _ _ s) as [[[]|err] s']]; eauto.
Qed.

(** A webhook that is not authentic, or of an unknown type, leaves the sink as it
    was; any other makes exactly one call on the sink, and is answered with 200
    exactly when that call succeeds. *)
Theorem webhook_exact headers body (d : @Dispatcher R S) o d' :
  Handle headers body d = (o, d') →
  match (ParseWebhook headers body (rail d)).1 with
  | Err err => o = Err err ∧ sink d' = sink d
  | Ok ev =>
      match recorded (named (Name (rail d')) ev) (sink d) with
      | None => errors_Is (match o with Err err => err | Ok _ => Errorf "" end) ErrUnsupportedEvent = true ∧
                sink d' = sink d ∧ respond o ≠ 200%Z
      | Some (r, s') => sink d' = s' ∧ (respond o = 200%Z ↔ r = Ok tt) ∧
                        match r with Ok _ => o = Ok tt | Err err => ∃ msg, o = Err (Wrapf msg err) end
      end
  end.
Proof.
  unfold Handle. cbv [mbind prog_bind on_rail on_sink zoom gets].
  destruct (ParseWebhook headers body (rail d)) as [[ev|err] r] eqn:Hp; [|by intros [= <- <-]]. cbn [fst rail].
  pose proof (dispatch_recorded (named (Name r) ev) (sink d)) as Hd. intros Heq.
  destruct (dispatch (named (Name r) ev) (sink d)) as [o1 s1] eqn:Hdis. cbn [sink] in Heq. rewrite Hdis in Heq.
  injection Heq as <- <-. cbn [rail sink].
  assert (∀ err, respond (Err err) ≠ 200%Z) as Hne.
  { intros err. unfold respond. destruct (errors_Is err ErrInvalidSignature), (errors_Is err ErrUnsupportedEvent); done. }
  destruct (recorded (named (Name r) ev) (sink d)) as [[[[]|err] s']|].
  - injection Hd as -> ->. done.
  - destruct Hd as [msg [= -> ->]]. split; [done|]. split; [|eauto]. split; [by intros ?%Hne|done].
  - injection Hd as -> ->. split; [by vm_compute|]. split; [done|apply Hne].
Qed.
End sinks.

(** ** Which events a sink can tell apart *)

Section deliveries.
Context {S : Type} {SS : EdenBizSink S}.

(** A sequence of events, whatever the sink answers. *)
Definition deliver (evs : list WebhookEvent) (s : S) : S := foldl (λ s ev, (dispatch ev s).2) s evs.
Definition event_key (ev : WebhookEvent) : string * string := (RailName ev, RailEventID ev).
(** The contract of the sink for the events of some types: the event identifier of a
    rail is the key that decides whether an event has been recorded. *)
Definition deduplicates (types : list string) (entries : S → nat) (s0 : S) : Prop :=
  ∀ evs ev, (∀ x, x ∈ ev :: evs → ev_Type x ∈ types) →
    entries (deliver (evs ++ [ev]) s0) =
      (entries (deliver evs s0) + (if decide (event_key ev ∈ event_key <$> evs) then 0 else 1))%nat.
End deliveries.

(** A sink that keeps the contract for subscriptions. *)
Definition keyed_sink : EdenBizSink (list WebhookEvent) := {|
  RecordCharge := λ _ _ _ s, (Ok tt, s);
  RecordRefund := λ _ _ _ s, (Ok tt, s);
  RecordSubscriptionEvent := λ _ ev s,
    (Ok tt, if bool_decide (event_key ev ∈ event_key <$> s) then s else s ++ [ev]) |}.

Lemma keyed_dispatch ev s :
  ev_Type ev ∈ subscription_events →
  (dispatch (SS := keyed_sink) ev s).2 = if bool_decide (event_key ev ∈ event_key <$> s) then s else s ++ [ev].
Proof.
  intros Hty. unfold dispatch.
  rewrite !bool_decide_false by (intros Heq; rewrite Heq in Hty; revert Hty; apply (bool_decide_unpack _); by vm_compute).
  by rewrite bool_decide_true.
Qed.

Lemma keyed_keys evs s :
  (∀ x, x ∈ evs → ev_Type x ∈ subscription_events) →
  ∀ k, k ∈ event_key <$> deliver (SS := keyed_sink) evs s ↔ k ∈ (event_key <$> s) ++ (event_key <$> evs).
Proof.
  revert s. induction evs as [|ev evs IH]; intros s Hty k; cbn [deliver foldl].
  { cbn. by rewrite app_nil_r. }
  change (foldl _ ?s evs) with (deliver (SS := keyed_sink) evs s).
  rewrite IH by (intros; apply Hty; by right). rewrite keyed_dispatch by (apply Hty; left).
  rewrite fmap_cons, !elem_of_app, elem_of_cons. case_bool_decide as Hin; [naive_solver|].
  rewrite fmap_app, elem_of_app. cbn. rewrite list_elem_of_singleton. tauto.
Qed.

Lemma deliver_snoc {T} {SS : EdenBizSink T} evs ev s : deliver (evs ++ [ev]) s = (dispatch ev (deliver evs s)).2.
Proof. unfold deliver. by rewrite foldl_app. Qed.

Definition ex_customer : Customer := {| cu_ID := "c"; Email := ""; TenantID := ""; cu_Metadata := ∅ |}.
(** A charge of one dollar, and the event that reports it. *)
Definition charge_event (id : string) : WebhookEvent :=
  {| RailEventID := id; RailName := "ach"; ev_Type := EventChargeSucceeded; OccurredAt := 0%Z; ev_Customer := ex_customer;
     ev_Amount := {| AmountMinor := 100; Currency := "usd" |}; SubscriptionID := ""; ChargeID := "ch"; RailObject := "" |}.

(** The contract of the sink asks for idempotence on rail and event identifier,
    but [RecordCharge] is given neither: no sink at all keeps the contract for
    charges.  For subscriptions, whose events are handed over whole, one does. *)
Theorem event_identity_lost :
  (∀ (S : Type) (SS : EdenBizSink S) (entries : S → nat) (s0 : S),
     ¬ deduplicates [EventChargeSucceeded; EventChargeFailed] entries s0) ∧
  ∃ (S : Type) (SS : EdenBizSink S) (entries : S → nat) (s0 : S), deduplicates subscription_events entries s0.
Proof.
  split.
  - intros S SS entries s0 Hd.
    pose proof (Hd [charge_event "1"] (charge_event "1")) as H1. pose proof (Hd [charge_event "1"] (charge_event "2")) as H2.
    rewrite decide_True in H1 by (by apply (bool_decide_unpack _)).
    rewrite decide_False in H2 by (by apply (bool_decide_unpack _)).
    assert (deliver ([charge_event "1"] ++ [charge_event "2"]) s0 = deliver ([charge_event "1"] ++ [charge_event "1"]) s0) as Hsame.
    { rewrite !deliver_snoc. done. }
    rewrite Hsame, H1 in H2; [specialize (H2 ltac:(intros x [-> | ->%list_elem_of_singleton]%elem_of_cons; by left)); lia|]; intros x [-> | ->%list_elem_of_singleton]%elem_of_cons; by left.
  - exists (list WebhookEvent), keyed_sink, length, []. intros evs ev Hty. rewrite deliver_snoc.
    rewrite keyed_dispatch by (apply Hty; left).
    assert (event_key ev ∈ event_key <$> deliver (SS := keyed_sink) evs [] ↔ event_key ev ∈ event_key <$> evs) as Hk
      by (apply keyed_keys; intros; apply Hty; by right).
    case_decide as Hin; [rewrite bool_decide_true by tauto; lia|rewrite bool_decide_false by tauto].
    rewrite length_app. cbn. lia.
Qed.

(** ** The recording sink *)

(** Two different types of one event. *)
Ltac type_clash :=
  exfalso;
  match goal with
  | H1 : ev_Type ?ev = _, H2 : ev_Type ?ev = _ |- _ => rewrite H1 in H2; discriminate
  | H1 : ev_Type ?ev = _, H2 : ev_Type ?ev ∈ _ |- _ =>
      rewrite H1 in H2; revert H2; apply (bool_decide_unpack _); by vm_compute
  end.
Definition charge_of (ev : WebhookEvent) : option (Customer * Money * ChargeResult) :=
  if decide (ev_Type ev = EventChargeSucceeded)
  then Some (ev_Customer ev, ev_Amount ev, charge_result ChargeStatusSucceeded ev)
  else if decide (ev_Type ev = EventChargeFailed)
  then Some (ev_Customer ev, ev_Amount ev, charge_result ChargeStatusFailed ev) else None.
Definition refund_of (ev : WebhookEvent) : option (Customer * Money * RefundResult) :=
  if decide (ev_Type ev = EventChargeRefunded) then Some (ev_Customer ev, ev_Amount ev, refund_result ev) else None.
Definition subscription_of (ev : WebhookEvent) : option (Customer * WebhookEvent) :=
  if decide (ev_Type ev ∈ subscription_events) then Some (ev_Customer ev, ev) else None.

(** The recording sink holds every delivered event once per delivery, in order
    and among its kind, also when it is configured to fail: an event that the rail
    delivers again because of the failure is held twice. *)
Theorem mock_sink_exact evs s :
  sink_Charges (deliver evs s) = sink_Charges s ++ omap charge_of evs ∧
  sink_Refunds (deliver evs s) = sink_Refunds s ++ omap refund_of evs ∧
  sink_Subscriptions (deliver evs s) = sink_Subscriptions s ++ omap subscription_of evs.
Proof.
  induction evs as [|ev evs IH] using rev_ind; [cbn; by rewrite !app_nil_r|].
  rewrite deliver_snoc, !omap_app, !app_assoc. destruct IH as (<- & <- & <-). generalize (deliver evs s) as t. intros t.
  unfold dispatch, wrapping. cbn [omap list_omap]. unfold charge_of, refund_of, subscription_of.
  repeat case_decide; repeat first [rewrite bool_decide_true by done|rewrite bool_decide_false by done]; try type_clash.
  all: cbn; try (destruct (result_of _)); cbn; by rewrite ?app_nil_r.
Qed.

(** ** Example *)

Definition ex_rail : MockRail :=
  {| NameValue := ""; ChargeResp := Err (Sentinel ErrCharge); ChargeFn := None; RefundResp := Err (Sentinel ErrRefund);
     RefundFn := None; CreateSubscriptionResp := Err (Errorf ""); UpdateSubscriptionResp := Err (Errorf "");
     CancelSubscriptionResp := Err (Errorf ""); SubscriptionStatusResp := Err (Errorf "");
     ParseWebhookResp := Err (Sentinel ErrInvalidSignature);
     ParseWebhookFn := Some (λ _ body, if bool_decide (body = "") then Err (Sentinel ErrInvalidSignature)
                                       else Ok (charge_event body)) |}.
Definition ex_sink : MockSink :=
  {| RecordChargeErr := None; RecordRefundErr := None; RecordSubscriptionErr := None; sink_Charges := [];
     sink_Refunds := []; sink_Subscriptions := [] |}.
Definition ex_dispatcher : @Dispatcher (MockRail * rail_calls) MockSink := {| rail := (ex_rail, no_calls); sink := ex_sink |}.

Lemma webhook_exact_witness :
  sink (Handle ∅ "evt" ex_dispatcher).2 = {|
    RecordChargeErr := None; RecordRefundErr := None; RecordSubscriptionErr := None;
    sink_Charges := [(ex_customer, {| AmountMinor := 100; Currency := "usd" |},
      charge_result ChargeStatusSucceeded (charge_event "evt"))]; sink_Refunds := []; sink_Subscriptions := [] |} ∧
  (respond (Handle ∅ "evt" ex_dispatcher).1 = 200%Z ↔ Ok tt = (Ok tt : outcome (goerr billing_error) unit)) ∧
  (Handle ∅ "evt" ex_dispatcher).1 = Ok tt.
Proof. exact (webhook_exact ∅ "evt" ex_dispatcher _ _ (surjective_pairing _)). Defined.
