(* ===== verification/Ratelimit.v ===== *)
(** * Rate limiter (platform/ratelimit)

    The token buckets of a process and the optional counters in Redis that a fleet of
    processes shares.  [float64] is IEEE 754 binary64 as [SpecFloat] of the Standard
    Library computes it, with one rounding per operation (as on amd64: nothing is
    fused), so that buckets evaluate.  A call reads the clock once.  Redis is the
    class [RedisClient]; [counters] is what Redis documents of the four commands.

    Theorems: what a fleet that shares Redis admits in a window, what a bucket
    decides, and which keys and headers the helpers confuse. *)

From Stdlib Require Import SpecFloat.
From S2P Require Import Prelude Encoding Password.

(** ** binary64 *)

Abbreviation float64 := spec_float (only parsing).
Definition f_add : float64 → float64 → float64 := SFadd 53 1024.
Definition f_sub : float64 → float64 → float64 := SFsub 53 1024.
Definition f_mul : float64 → float64 → float64 := SFmul 53 1024.
Definition f_div : float64 → float64 → float64 := SFdiv 53 1024.
Definition f_lt : float64 → float64 → bool := SFltb.
Definition f_le : float64 → float64 → bool := SFleb.
(** [float64(n)]. *)
Definition f_of (n : Z) : float64 := binary_normalize 53 1024 n 0 false.
(** [int64(x)]: towards zero; amd64 answers the least integer when that is out of range. *)
Definition f_int (x : float64) : Z :=
  match x with
  | S754_zero _ => 0
  | S754_finite s m e =>
      let n := Z.shiftl (Zpos m) e in
      let n := if s then (- n)%Z else n in
      if bool_decide (- 2 ^ 63 ≤ n < 2 ^ 63)%Z then n else (- 2 ^ 63)%Z
  | _ => (- 2 ^ 63)%Z
  end.
(** [d.Seconds()]. *)
Definition Seconds (d : duration) : float64 :=
  f_add (f_of (Z.quot d Second)) (f_div (f_of (Z.rem d Second)) (f_of Second)).

(** ** Data *)

Inductive rate_error : Type := ErrFleetLimit.
#[export] Instance rate_error_eq_dec : EqDecision rate_error.
Proof. solve_decision. Defined.

Record Tier : Type := { Name : string; RequestsPerMinute : Z; TokensPerMinute : Z }.
Record Decision_ : Type := { Allow : bool; d_RetryAfter : duration; Limit : Z; Remaining : Z }.
Record Observation : Type := {
  LimitRequests : Z;
  RemainingRequests : Z;
  o_RetryAfter : duration;
  ResetRequests : duration;
}.
Record BucketSnapshot : Type := {
  s_Key : string;
  s_Tier : string;
  s_Tokens : float64;
  MaxTokens : float64;
  RefillRatePerSec : float64;
  ObservedLimit : Z;
  ObservedRemaining : Z;
  s_RetryAfter : time;
  LastUpdated : time;
  FleetCount : Z;
  FleetWindowSecs : Z;
  FleetBacked : bool;
}.
Record bucket : Type := {
  tierName : string;
  tokens : float64;
  maxTokens : float64;
  refillRate : float64;
  lastRefill : time;
  observedLimit : Z;
  observedRemaining : Z;
  retryAfter : time;
  lastUpdated : time;
}.

(** ** The bucket *)

Definition with_tokens (n : float64) (b : bucket) : bucket :=
  {| tierName := tierName b; tokens := n; maxTokens := maxTokens b; refillRate := refillRate b;
     lastRefill := lastRefill b; observedLimit := observedLimit b; observedRemaining := observedRemaining b;
     retryAfter := retryAfter b; lastUpdated := lastUpdated b |}.
Definition with_lastRefill (t : time) (b : bucket) : bucket :=
  {| tierName := tierName b; tokens := tokens b; maxTokens := maxTokens b; refillRate := refillRate b;
     lastRefill := t; observedLimit := observedLimit b; observedRemaining := observedRemaining b;
     retryAfter := retryAfter b; lastUpdated := lastUpdated b |}.

Definition refill (now : time) (b : bucket) : bucket :=
  let elapsed := Seconds (time_Sub now (lastRefill b)) in
  if f_le elapsed (f_of 0) then b
  else
    let n := f_add (tokens b) (f_mul elapsed (refillRate b)) in
    let n := if f_lt (maxTokens b) n then maxTokens b else n in
    with_lastRefill now (with_tokens n b).

Definition token_wait (b : bucket) : duration :=
  if f_lt (f_of 0) (refillRate b) then f_int (f_div (f_of Second) (refillRate b)) else Second.
(** Whether it is allowed, when to retry, what remains; and the bucket after. *)
Definition tryConsume (now : time) (b : bucket) : (bool * duration * Z) * bucket :=
  let b := refill now b in
  if negb (IsZero (retryAfter b)) && Before now (retryAfter b)
  then ((false, time_Sub (retryAfter b) now, f_int (tokens b)), b)
  else if f_le (f_of 1) (tokens b) then
    let b := with_tokens (f_sub (tokens b) (f_of 1)) b in ((true, 0%Z, f_int (tokens b)), b)
  else ((false, token_wait b, 0%Z), b).

Definition update (now : time) (o : Observation) (b : bucket) : bucket :=
  let after := if bool_decide (0 < o_RetryAfter o)%Z then (now + o_RetryAfter o)%Z else retryAfter b in
  let limited := bool_decide (0 < LimitRequests o)%Z in
  let new_limit := limited && negb (bool_decide (LimitRequests o = observedLimit b)) in
  let rate := if new_limit then f_div (f_of (LimitRequests o)) (f_of 60) else refillRate b in
  let remains := bool_decide (0 ≤ RemainingRequests o)%Z && limited in
  let needed := f_of (wrap64 (LimitRequests o - RemainingRequests o)) in
  let reset := bool_decide (0 < ResetRequests o)%Z && limited in
  {| tierName := tierName b;
     tokens := if remains then f_of (RemainingRequests o) else tokens b;
     maxTokens := if new_limit then f_of (LimitRequests o) else maxTokens b;
     refillRate := if reset && f_lt (f_of 0) needed && f_lt (f_of 0) (Seconds (ResetRequests o))
                   then f_div needed (Seconds (ResetRequests o)) else rate;
     lastRefill := lastRefill b;
     observedLimit := if new_limit then LimitRequests o else observedLimit b;
     observedRemaining := if remains then RemainingRequests o else observedRemaining b;
     retryAfter := after;
     lastUpdated := now |}.

(** The snapshot of a bucket, without the fleet. *)
Definition snapshot (now : time) (key : string) (b : bucket) : BucketSnapshot * bucket :=
  let b := refill now b in
  ({| s_Key := key; s_Tier := tierName b; s_Tokens := tokens b; MaxTokens := maxTokens b;
      RefillRatePerSec := refillRate b; ObservedLimit := observedLimit b; ObservedRemaining := observedRemaining b;
      s_RetryAfter := retryAfter b; LastUpdated := lastUpdated b; FleetCount := 0; FleetWindowSecs := 0;
      FleetBacked := false |}, b).

Definition bucket_rpm (tier : Tier) : Z := if bool_decide (RequestsPerMinute tier ≤ 0)%Z then 60 else RequestsPerMinute tier.
Definition new_bucket (now : time) (tier : Tier) : bucket :=
  let rpm := bucket_rpm tier in
  {| tierName := Name tier;
     tokens := if f_lt (f_of rpm) (f_of 1) then f_of rpm else f_of 1;
     maxTokens := f_of rpm; refillRate := f_div (f_of rpm) (f_of 60); lastRefill := now; observedLimit := 0;
     observedRemaining := 0; retryAfter := 0; lastUpdated := now |}.

(** ** The limiter *)

Abbreviation rerr := string (only parsing).
Class RedisClient (D : Type) : Type := {
  Incr : Env → string → prog D rerr Z;
  ExpireNX : Env → string → duration → prog D rerr unit;
  Get : Env → string → prog D rerr Z;
  TTL : Env → string → prog D rerr duration;
}.

Record memoryLimiter : Type := { buckets : gmap string bucket; redis : bool; prefix : string }.
Definition with_buckets (bs : gmap string bucket) (m : memoryLimiter) : memoryLimiter :=
  {| buckets := bs; redis := redis m; prefix := prefix m |}.
Definition NewMemory : memoryLimiter := {| buckets := ∅; redis := false; prefix := "platform:rate:" |}.
(** [client] is whether the client is not nil. *)
Definition NewRedis (client : bool) (p : string) : memoryLimiter :=
  {| buckets := ∅; redis := client; prefix := if bool_decide (p = "") then "platform:rate:" else p |}.

Section limiter.
Context {D : Type} {RC : RedisClient D}.

(** A limiter, and the Redis it shares. *)
Abbreviation limited A := (prog (memoryLimiter * D) rerr A) (only parsing).
Definition on_redis {A} (m : prog D rerr A) : limited A := zoom snd (λ d s, (s.1, d)) m.
Definition fleetKey (m : memoryLimiter) (key : string) : string := prefix m +:+ key.

Definition getOrCreate (e : Env) (key : string) (tier : Tier) (m : memoryLimiter) : bucket * memoryLimiter :=
  match buckets m !! key with
  | Some b => (b, m)
  | None => let b := new_bucket (now e) tier in (b, with_buckets (<[key := b]> (buckets m)) m)
  end.

Definition incrWindowCounter (e : Env) (key : string) : limited Z :=
  fk ← gets (λ s, fleetKey s.1 key);
  count ← on_redis (Incr e fk);
  _ ← ignore (on_redis (ExpireNX e fk Minute));
  mret count.

(** The count of the window, when there is one to look at. *)
Definition fleet_count (e : Env) (key : string) (tier : Tier) : limited (option Z) :=
  fleet ← gets (λ s, redis s.1);
  if fleet && bool_decide (0 < RequestsPerMinute tier)%Z then
    count ← try (incrWindowCounter e key);
    mret (match count with Ok n => Some n | Err _ => None end)
  else mret None.
Definition over_limit (tier : Tier) (count : option Z) : bool :=
  match count with Some n => bool_decide (RequestsPerMinute tier < n)%Z | None => false end.
(** What is decided once the count is known. *)
Definition decide_with (e : Env) (key : string) (tier : Tier) (count : option Z) : limited (Decision_ * option rate_error) :=
  if over_limit tier count then
    fk ← gets (λ s, fleetKey s.1 key);
    ttl ← try (on_redis (TTL e fk));
    mret ({| Allow := false; d_RetryAfter := match ttl with Ok d => d | Err _ => 0%Z end;
             Limit := RequestsPerMinute tier; Remaining := 0 |}, Some ErrFleetLimit)
  else λ s,
    let '(b, m) := getOrCreate e key tier s.1 in
    let '((allow, after, remaining), b) := tryConsume (now e) b in
    (Ok ({| Allow := allow; d_RetryAfter := after; Limit := RequestsPerMinute tier; Remaining := remaining |}, None),
     (with_buckets (<[key := b]> (buckets m)) m, s.2)).
(** The decision and the error that comes with it. *)
Definition Check_ (e : Env) (key : string) (tier : Tier) : limited (Decision_ * option rate_error) :=
  _ ← modify (λ s, ((getOrCreate e key tier s.1).2, s.2));
  count ← fleet_count e key tier;
  decide_with e key tier count.

Definition Update (e : Env) (key : string) (o : Observation) : limited unit := modify (λ s,
  match buckets s.1 !! key with
  | None => s
  | Some b => (with_buckets (<[key := update (now e) o b]> (buckets s.1)) s.1, s.2)
  end).

Definition with_fleet (backed : bool) (count : outcome rerr Z) (ttl : outcome rerr duration) (s : BucketSnapshot) :
    BucketSnapshot :=
  {| s_Key := s_Key s; s_Tier := s_Tier s; s_Tokens := s_Tokens s; MaxTokens := MaxTokens s;
     RefillRatePerSec := RefillRatePerSec s; ObservedLimit := ObservedLimit s; ObservedRemaining := ObservedRemaining s;
     s_RetryAfter := s_RetryAfter s; LastUpdated := LastUpdated s;
     FleetCount := match count with Ok v => v | Err _ => FleetCount s end;
     FleetWindowSecs := match ttl with
                        | Ok d => if bool_decide (0 < d)%Z then f_int (Seconds d) else FleetWindowSecs s
                        | Err _ => FleetWindowSecs s
                        end;
     FleetBacked := backed |}.
Definition snapshot_bucket (e : Env) (key : string) (b : bucket) : limited BucketSnapshot :=
  let '(s, b) := snapshot (now e) key b in
  _ ← modify (λ st, (with_buckets (<[key := b]> (buckets st.1)) st.1, st.2));
  m ← gets fst;
  if redis m then
    count ← try (on_redis (Get e (fleetKey m key)));
    ttl ← try (on_redis (TTL e (fleetKey m key)));
    mret (with_fleet true count ttl s)
  else mret s.
Fixpoint snapshots (e : Env) (bs : list (string * bucket)) : limited (list BucketSnapshot) :=
  match bs with
  | [] => mret []
  | (k, b) :: rest => s ← snapshot_bucket e k b; ss ← snapshots e rest; mret (s :: ss)
  end.
Definition Snapshot (e : Env) : limited (list BucketSnapshot) :=
  bs ← gets (λ s, range (MapRange := order e) (buckets s.1));
  snapshots e bs.
End limiter.

(** ** Helpers *)

Definition BucketKey (parts : list string) : string :=
  match parts with
  | [] => ""
  | p :: rest => foldl (λ out p, out +:+ ":" +:+ p) p rest
  end.

(** [parse] is [time.Parse] with RFC 1123. *)
Definition MustParseRetryAfter (parse : string → option time) (e : Env) (header : string) : duration :=
  if bool_decide (header = "") then 0
  else
    let dated := match parse header with
                 | Some t => let d := time_Sub t (now e) in if bool_decide (0 < d)%Z then d else 0%Z
                 | None => 0%Z
                 end in
    match Sscanf_int "" header with
    | Some secs => if bool_decide (0 < secs)%Z then wrap64 (secs * Second) else dated
    | None => dated
    end.

(** ** Redis, as documented *)

(** A counter and its expiry; a counter whose expiry has passed is not there. *)
Abbreviation counters := (gmap string (Z * option time)) (only parsing).
Definition live (e : Env) (k : string) (c : counters) : option (Z * option time) :=
  match c !! k with
  | Some (n, Some x) => if bool_decide (x ≤ now e)%Z then None else Some (n, Some x)
  | r => r
  end.
Definition redis_INCR (e : Env) (k : string) : prog counters rerr Z := λ c,
  match live e k c with
  | None => (Ok 1%Z, <[k := (1%Z, None)]> c)
  | Some (n, x) => if bool_decide (n + 1 < 2 ^ 63)%Z then (Ok (n + 1)%Z, <[k := ((n + 1)%Z, x)]> c)
                   else (Err "ERR increment or decrement would overflow", c)
  end.
Definition redis_EXPIRE_NX (e : Env) (k : string) (ttl : duration) : prog counters rerr unit := λ c,
  (Ok tt, match live e k c with Some (n, None) => <[k := (n, Some (now e + ttl)%Z)]> c | _ => c end).
Definition redis_GET (e : Env) (k : string) : prog counters rerr Z := λ c,
  (match live e k c with Some (n, _) => Ok n | None => Err "redis: nil" end, c).
Definition redis_TTL (e : Env) (k : string) : prog counters rerr duration := λ c,
  (Ok (match live e k c with Some (_, Some x) => (x - now e)%Z | Some (_, None) => (-1)%Z | None => (-2)%Z end), c).
#[export] Instance counters_client : RedisClient counters := {|
  Incr := redis_INCR; ExpireNX := redis_EXPIRE_NX; Get := redis_GET; TTL := redis_TTL |}.

(** ** A fleet of processes

    The processes share the counters of Redis.  A [Check_] is three steps: the
    increment, the expiry, and the rest; calls of all processes interleave at these
    steps, and each of the first two can fail.  A command whose answer does not come in
    time is one that fails, and that Redis may execute all the same, at any moment
    ([step_incr_late], [step_expire_late]).  The ticket of a call is the counter it
    incremented, the time the counter began, and what the increment answered. *)
Abbreviation ticket := (string * time * Z)%type (only parsing).
Inductive stage : Type := Counted | Ready.
Record pending_call : Type := {
  c_proc : nat; c_key : string; c_tier : Tier; c_stage : stage; c_count : option Z; c_ticket : option ticket }.
Record fleet : Type := {
  f_now : time;
  f_redis : gmap string (Z * option time);
  f_procs : gmap nat memoryLimiter;
  f_calls : gmap nat pending_call;
  f_starts : gmap string time;
  f_granted : list (ticket * Tier);
}.
Definition began (e : Env) (fk : string) (w : fleet) : time :=
  match live e fk (f_redis w) with Some _ => default 0%Z (f_starts w !! fk) | None => now e end.

Inductive fleet_step (w : fleet) : fleet → Prop :=
  | step_incr e p m key tier id n c' :
      (f_now w ≤ now e)%Z → f_procs w !! p = Some m → redis m = true → (0 < RequestsPerMinute tier)%Z →
      f_calls w !! id = None → redis_INCR e (fleetKey m key) (f_redis w) = (Ok n, c') →
      fleet_step w {|
        f_now := now e; f_redis := c'; f_procs := f_procs w;
        f_calls := <[id := {| c_proc := p; c_key := key; c_tier := tier; c_stage := Counted; c_count := Some n;
                             c_ticket := Some (fleetKey m key, began e (fleetKey m key) w, n) |}]> (f_calls w);
        f_starts := <[fleetKey m key := began e (fleetKey m key) w]> (f_starts w); f_granted := f_granted w |}
  | step_incr_fails e p m key tier id :
      (f_now w ≤ now e)%Z → f_procs w !! p = Some m → f_calls w !! id = None →
      fleet_step w {|
        f_now := now e; f_redis := f_redis w; f_procs := f_procs w;
        f_calls := <[id := {| c_proc := p; c_key := key; c_tier := tier; c_stage := Ready; c_count := None;
                             c_ticket := None |}]> (f_calls w);
        f_starts := f_starts w; f_granted := f_granted w |}
  | step_incr_late e fk n c' :
      (f_now w ≤ now e)%Z → redis_INCR e fk (f_redis w) = (Ok n, c') →
      fleet_step w {|
        f_now := now e; f_redis := c'; f_procs := f_procs w; f_calls := f_calls w;
        f_starts := <[fk := began e fk w]> (f_starts w); f_granted := f_granted w |}
  | step_expire_late e fk c' :
      (f_now w ≤ now e)%Z → redis_EXPIRE_NX e fk Minute (f_redis w) = (Ok tt, c') →
      fleet_step w {|
        f_now := now e; f_redis := c'; f_procs := f_procs w; f_calls := f_calls w;
        f_starts := f_starts w; f_granted := f_granted w |}
  | step_expire e id c m c' :
      (f_now w ≤ now e)%Z → f_calls w !! id = Some c → c_stage c = Counted → f_procs w !! c_proc c = Some m →
      c' = f_redis w ∨ redis_EXPIRE_NX e (fleetKey m (c_key c)) Minute (f_redis w) = (Ok tt, c') →
      fleet_step w {|
        f_now := now e; f_redis := c'; f_procs := f_procs w;
        f_calls := <[id := {| c_proc := c_proc c; c_key := c_key c; c_tier := c_tier c; c_stage := Ready;
                             c_count := c_count c; c_ticket := c_ticket c |}]> (f_calls w);
        f_starts := f_starts w; f_granted := f_granted w |}
  | step_decide e id c m d err m' c' :
      (f_now w ≤ now e)%Z → f_calls w !! id = Some c → c_stage c = Ready → f_procs w !! c_proc c = Some m →
      decide_with e (c_key c) (c_tier c) (c_count c) (m, f_redis w) = (Ok (d, err), (m', c')) →
      fleet_step w {|
        f_now := now e; f_redis := c'; f_procs := <[c_proc c := m']> (f_procs w); f_calls := delete id (f_calls w);
        f_starts := f_starts w;
        f_granted := match c_ticket c with
                     | Some t => if Allow d then (t, c_tier c) :: f_granted w else f_granted w
                     | None => f_granted w
                     end |}.


Definition dated (w : fleet) (t : ticket) : Prop :=
  let '(fk, start, n) := t in
  (1 ≤ n)%Z ∧ ∃ s, f_starts w !! fk = Some s ∧
    ((start + Minute ≤ s)%Z ∨ (start = s ∧ (∃ c x, f_redis w !! fk = Some (c, x) ∧ (n ≤ c)%Z))).

















(** A check of one process, with nothing in between, is three of these steps. *)
Lemma Check_is_run w e p m key tier id d err m' c' :
  (f_now w ≤ now e)%Z → f_procs w !! p = Some m → redis m = true → (0 < RequestsPerMinute tier)%Z →
  f_calls w !! id = None → is_Some (buckets m !! key) → (∃ n, (redis_INCR e (fleetKey m key) (f_redis w)).1 = Ok n) →
  Check_ e key tier (m, f_redis w) = (Ok (d, err), (m', c')) →
  ∃ w', rtc fleet_step w w' ∧ f_redis w' = c' ∧ f_procs w' = <[p := m']> (f_procs w).
Proof.
  intros Hnow Hp Hr Hrpm Hid [b Hb] [n Hn] Hck.
  destruct (redis_INCR e (fleetKey m key) (f_redis w)) as [o c1] eqn:Hincr. cbn in Hn. subst o.
  destruct (redis_EXPIRE_NX e (fleetKey m key) Minute c1) as [o2 c2] eqn:Hnx.
  assert (o2 = Ok tt) as -> by (by injection Hnx).
  assert (decide_with e key tier (Some n) (m, c2) = (Ok (d, err), (m', c'))) as Hdec.
  { rewrite <-Hck. unfold Check_, fleet_count, incrWindowCounter. cbv [mbind prog_bind modify gets on_redis zoom try ignore mret prog_ret].
    unfold getOrCreate at 1 2. cbn [fst snd]. rewrite Hb. cbn [fst snd]. rewrite Hr, bool_decide_true by done.
    cbn [andb]. cbn [Incr ExpireNX counters_client fst snd]. rewrite Hincr. cbn [fst snd]. by rewrite Hnx. }
  eexists. split; [|split].
  - eapply rtc_l; [by eapply (step_incr w e p m key tier id n c1)|].
    eapply rtc_l; [eapply (step_expire _ e id); cbn; [lia|by rewrite lookup_insert_eq|done|done|by right]|].
    apply rtc_once. eapply (step_decide _ e id); cbn; [lia|by rewrite lookup_insert_eq|done|done|exact Hdec].
  - done.
  - done.
Qed.

(** ** The buckets *)

(** C0: while the Retry-After of an upstream answer is in force, requests are refused
    with the time that is left; after it, a request is allowed exactly when the
    refilled bucket holds a whole token, of which it then takes one. *)
Theorem tryConsume_exact t b :
  tryConsume t b =
  if decide (retryAfter b ≠ 0%Z ∧ (t < retryAfter b)%Z)
  then ((false, time_Sub (retryAfter b) t, f_int (tokens (refill t b))), refill t b)
  else if f_le (f_of 1) (tokens (refill t b)) then
    let n := f_sub (tokens (refill t b)) (f_of 1) in ((true, 0%Z, f_int n), with_tokens n (refill t b))
  else ((false, token_wait (refill t b), 0%Z), refill t b).
Proof.
  assert (retryAfter (refill t b) = retryAfter b) as Hra by (unfold refill; by destruct (f_le _ _)).
  unfold tryConsume. rewrite Hra. unfold IsZero, Before.
  case_decide as H.
  - by rewrite bool_decide_false, bool_decide_true by apply H.
  - assert (negb (bool_decide (retryAfter b = 0%Z)) && bool_decide (t < retryAfter b)%Z = false) as ->; [|done].
    apply andb_false_iff. rewrite negb_false_iff, bool_decide_eq_true, bool_decide_eq_false. lia.
Qed.

Section local.
Context {D : Type} {RC : RedisClient D}.

(** Without Redis, a key keeps the tier of its first check: under any other tier
    later checks decide the same, and only report the other limit. *)
Theorem tier_fixed_at_first_check e key tier tier' (m : memoryLimiter) (d : D) :
  redis m = false → is_Some (buckets m !! key) →
  ∃ dec dec' s, Check_ e key tier (m, d) = (Ok (dec, None), s) ∧ Check_ e key tier' (m, d) = (Ok (dec', None), s) ∧
    Allow dec = Allow dec' ∧ d_RetryAfter dec = d_RetryAfter dec' ∧ Remaining dec = Remaining dec' ∧
    Limit dec = RequestsPerMinute tier ∧ Limit dec' = RequestsPerMinute tier'.
Proof.
  intros Hr [b Hb]. unfold Check_, fleet_count, decide_with. cbv [mbind prog_bind modify gets mret prog_ret].
  unfold getOrCreate. cbn [fst snd]. rewrite !Hb. cbn [fst snd]. rewrite Hr. cbn [andb over_limit fst snd]. rewrite !Hb.
  destruct (tryConsume (now e) b) as [[[al af] rem] b']. eexists _, _, _. done.
Qed.
End local.

(** ** Fresh keys and honoured waits, computed *)

Definition tier_of (rpm : Z) : Tier := {| Name := ""; RequestsPerMinute := rpm; TokensPerMinute := 0 |}.
(** The first request of a key, the second at the same time, and one after the wait. *)
Definition three (rpm : Z) : bool * bool * bool :=
  let '((a, _, _), b) := tryConsume Hour (new_bucket Hour (tier_of rpm)) in
  let '((a', wait, _), b) := tryConsume Hour b in
  let '((a'', _, _), _) := tryConsume (Hour + wait)%Z b in (a, a', a'').
(** The limits whose token is whole after the wait. *)
Definition exact_wait (rpm : Z) : bool := bool_decide (Minute mod rpm = 0)%Z && negb (bool_decide (rpm ∈ [125; 250; 500]%Z)).
Definition as_expected (rpm : Z) : bool := bool_decide (three rpm = (true, false, exact_wait rpm)).
Lemma as_expected_to_600 : forallb (λ n, as_expected (Z.of_nat n)) (seq 1 600) = true.
Proof. by vm_compute. Qed.

(** For every limit up to 600 requests a minute, a fresh key admits one request
    and refuses a second one at once, and a request after exactly the [RetryAfter] of
    the refusal is admitted if and only if the limit divides the minute and is not 125,
    250 or 500: else the wait, or the rate, was rounded down, and the token misses the
    last fraction. *)
Theorem waits_rounded_down rpm :
  (1 ≤ rpm ≤ 600)%Z → three rpm = (true, false, exact_wait rpm).
Proof.
  intros Hr. pose proof as_expected_to_600 as Hall. rewrite forallb_forall in Hall.
  specialize (Hall (Z.to_nat rpm)). rewrite Z2Nat.id in Hall by lia. apply (bool_decide_eq_true_1 _), Hall.
  apply in_seq. lia.
Qed.

(** ** The helpers *)

(** A Retry-After of whole seconds is read exactly up to 9223372036; from there on
    the duration wraps around, and the next value, about 292 years, is negative. *)
Theorem retry_after_overflows parse e secs :
  (0 < secs < 2 ^ 63)%Z →
  MustParseRetryAfter parse e (pretty secs) = wrap64 (secs * Second) ∧
  ((secs ≤ 9223372036)%Z → wrap64 (secs * Second) = (secs * Second)%Z) ∧
  (secs = 9223372037%Z → (wrap64 (secs * Second) < 0)%Z).
Proof.
  intros Hs. split; [|split].
  - pose proof (Sscanf_int_print "" secs ltac:(lia)) as Hi. change ("" +:+ pretty secs) with (pretty secs) in Hi.
    unfold MustParseRetryAfter. rewrite Hi, (bool_decide_true (0 < secs)%Z) by lia.
    rewrite bool_decide_false; [done|]. intros Hp. by rewrite Hp in Hi.
  - intros Hle. apply wrap64_small. unfold Second. lia.
  - intros ->. by vm_compute.
Qed.

(** C0: a bucket key says only where its segments are joined: a segment with a colon
    and two segments without are the same key, and so share one bucket. *)
Theorem BucketKey_ambiguous a b rest : BucketKey ((a +:+ ":" +:+ b) :: rest) = BucketKey (a :: b :: rest).
Proof. done. Qed.

(** ** Examples *)

Definition ex_env (t : time) : Env := {| now := t; new_id := λ n, N.of_nat n; order := canonical_range |}.



Lemma waits_rounded_down_witness : three 59 = (true, false, false) ∧ three 60 = (true, false, true).
Proof. split; [exact (waits_rounded_down 59 ltac:(lia))|exact (waits_rounded_down 60 ltac:(lia))]. Defined.

Lemma retry_after_overflows_witness :
  MustParseRetryAfter (λ _, None) (ex_env 0) (pretty 9223372037%Z) = wrap64 (9223372037 * Second) ∧
  (wrap64 (9223372037 * Second) < 0)%Z.
Proof.
  destruct (retry_after_overflows (λ _, None) (ex_env 0) 9223372037 ltac:(lia)) as (H1 & _ & H3).
  split; [exact H1|by apply H3].
Defined.

Lemma tier_fixed_at_first_check_witness :
  let m := {| buckets := {["k" := new_bucket 1 (tier_of 1)]}; redis := false; prefix := "p:" |} in
  ∃ dec dec' s, Check_ (ex_env 1) "k" (tier_of 1) (m, ∅ : gmap string (Z * option time)) = (Ok (dec, None), s) ∧
    Check_ (ex_env 1) "k" (tier_of 6000) (m, ∅) = (Ok (dec', None), s) ∧ Allow dec = Allow dec' ∧
    d_RetryAfter dec = d_RetryAfter dec' ∧ Remaining dec = Remaining dec' ∧ Limit dec = 1%Z ∧ Limit dec' = 6000%Z.
Proof. intros m. apply (tier_fixed_at_first_check (ex_env 1) "k" (tier_of 1) (tier_of 6000) m); [done|by eexists]. Defined.
