(* ===== verification/Relying.v ===== *)
(** * Relying party (platform/oidcrp, platform/logingov)

    oidcrp: claimmap.go, state.go, flow.go, in_flight.go and the two caches;
    logingov: the client of Login.gov with its assertion and exchange.  go-oidc, oauth2
    and the JWT library of the assertion are the class [RPLib]; what the network
    answers is the record [Network].  Claims are the JSON the provider signed.
    Concurrent misses of the provider cache, which share one discovery, are one call
    here.

    Theorems: which states and tokens are accepted, what a claim map needs, how
    often a record in flight is taken, and what the caches pin. *)

From S2P Require Import Prelude Encoding Password Json.

Inductive rp_error : Type :=
  | ErrNonceMismatch
  | ErrIssuerMismatch
  | ErrMissingIDToken
  | ErrInFlightNotFound
  | ErrInFlightExpired
  | ErrMissingRequiredClaim
  | ErrStateInvalid
  | ErrStateExpired
  | ErrSigningKeyMissing
  | ErrSigningKeyTooShort
  | logingov_ErrNonceMismatch
  | ErrACRMismatch
  | ErrTokenEndpointStatus.
#[export] Instance rp_error_eq_dec : EqDecision rp_error.
Proof. solve_decision. Defined.
Abbreviation rperr := (goerr rp_error) (only parsing).

(** ** claimmap.go *)

Record ClaimMap : Type := {
  cm_Email : string;
  cm_EmailVerified : string;
  cm_Sub : string;
  cm_PreferredUsername : string;
  cm_Name : string;
  cm_Groups : string;
  cm_AssuranceLevel : string;
  CustomAttrs : gmap string string;
}.
Record MappedClaims : Type := {
  mc_Email : string;
  mc_EmailVerified : bool;
  mc_Sub : string;
  mc_PreferredUsername : string;
  mc_Name : string;
  mc_Groups : list string;
  mc_AssuranceLevel : string;
  Custom : option (gmap string json);
}.

(** The path ends at the first value that is not an object. *)
Fixpoint lookup_parts (parts : list string) (cur : json) : option json :=
  match parts with
  | [] => Some cur
  | p :: rest => v ← member p cur; lookup_parts rest v
  end.
Definition lookup (claims : json) (path : string) : option json :=
  if bool_decide (path = "") then None else lookup_parts (split_on "." path) claims.

Definition json_string (v : json) : option string := match v with JString s => Some s | _ => None end.
Definition json_bool (v : json) : option bool := match v with JBool b => Some b | _ => None end.
Definition coerceGroups (v : json) : list string :=
  match v with
  | JArray l => omap json_string l
  | JString s => [s]
  | _ => []
  end.

Definition required (field : string) (claims : json) (path : string) : outcome rperr string :=
  if bool_decide (path = "") then Err (Wrapf field (Sentinel ErrMissingRequiredClaim))
  else match lookup claims path ≫= json_string with
       | None => Err (Wrapf field (Sentinel ErrMissingRequiredClaim))
       | Some s => if bool_decide (s = "") then Err (Wrapf field (Sentinel ErrMissingRequiredClaim)) else Ok s
       end.
Definition optional_string (claims : json) (path : string) : string := default "" (lookup claims path ≫= json_string).

Definition ApplyClaimMap (e : Env) (claims : json) (m : ClaimMap) : outcome rperr MappedClaims :=
  match required "email" claims (cm_Email m) with
  | Err err => Err err
  | Ok email =>
      match required "sub" claims (cm_Sub m) with
      | Err err => Err err
      | Ok sub => Ok {|
          mc_Email := email;
          mc_EmailVerified := default false (lookup claims (cm_EmailVerified m) ≫= json_bool);
          mc_Sub := sub;
          mc_PreferredUsername := optional_string claims (cm_PreferredUsername m);
          mc_Name := optional_string claims (cm_Name m);
          mc_Groups := match lookup claims (cm_Groups m) with Some v => coerceGroups v | None => [] end;
          mc_AssuranceLevel := optional_string claims (cm_AssuranceLevel m);
          Custom :=
            if bool_decide (size (CustomAttrs m) = 0%nat) then None
            else Some (foldl (λ out '(key, path), match lookup claims path with
                                                 | Some v => <[key := v]> out
                                                 | None => out
                                                 end) ∅ (range (MapRange := order e) (CustomAttrs m))) |}
      end
  end.

(** ** state.go *)

Record State : Type := { Tenant : string; Idp : string; ReturnURL : string; st_Nonce : string; st_CreatedAt : Z }.
Definition unix (t : time) : Z := (t `div` Second)%Z.
Definition encode_state (s : State) : string :=
  String.string_of_list_ascii (print_object (
    [print_member "tenant" (quote (Tenant s)); print_member "idp" (quote (Idp s))] ++
    text_field "return_url" (ReturnURL s) ++
    [print_member "nonce" (quote (st_Nonce s));
     print_member "created_at" (String.list_ascii_of_string (pretty (st_CreatedAt s)))])).

Section state.
(** HMAC-SHA-256, and [json.Unmarshal] into a [State]. *)
Context (hmac : string → string → string) (decode_state : string → option State).

Definition SignState (key : string) (s : State) : string :=
  let encPayload := base64_EncodeToString URLAlphabet (encode_state s) in
  encPayload +:+ "." +:+ base64_EncodeToString URLAlphabet (hmac key encPayload).
Definition state_invalid (msg : string) : rperr := Wrapf msg (Sentinel ErrStateInvalid).
(** [int64(maxAge.Seconds())] of a positive duration below 2^53. *)
Definition whole_seconds (d : duration) : Z := (d `div` Second)%Z.

Definition VerifyState (e : Env) (key raw : string) (maxAge : duration) : outcome rperr State :=
  match split_on "." raw with
  | encPayload :: (_ :: _) as rest =>
      let encMAC := strings_Join "." rest in
      if bool_decide (encPayload = "") || bool_decide (encMAC = "") then Err (state_invalid "malformed")
      else
        match base64_DecodeString URLAlphabet encMAC with
        | None => Err (state_invalid "bad mac encoding")
        | Some gotMAC =>
            if negb (bool_decide (gotMAC = hmac key encPayload)) then Err (state_invalid "mac mismatch")
            else
              match base64_DecodeString URLAlphabet encPayload with
              | None => Err (state_invalid "bad payload encoding")
              | Some payload =>
                  match decode_state payload with
                  | None => Err (state_invalid "bad payload json")
                  | Some s =>
                      if bool_decide (Tenant s = "") || bool_decide (Idp s = "") || bool_decide (st_Nonce s = "")
                      then Err (state_invalid "missing required field")
                      else if bool_decide (0 < maxAge)%Z
                              && bool_decide (whole_seconds maxAge < wrap64 (unix (now e) - st_CreatedAt s))%Z
                      then Err (Wrapf "age" (Sentinel ErrStateExpired))
                      else Ok s
                  end
              end
        end
  | _ => Err (state_invalid "malformed")
  end.
End state.

(** ** in_flight.go *)

Record InFlightPayload : Type := {
  PKCEVerifier : string;
  StoredNonce : string;
  if_TenantID : string;
  IdpID : string;
  if_ReturnURL : string;
  if_CreatedAt : time;
}.
Record inFlightEntry : Type := { Payload : InFlightPayload; ExpireAt : time }.
Abbreviation InMemoryInFlightStore := (gmap string inFlightEntry) (only parsing).
Definition Put (e : Env) (key : string) (p : InFlightPayload) (ttl : duration) : prog InMemoryInFlightStore rperr unit :=
  modify (λ m, <[key := {| Payload := p; ExpireAt := (now e + ttl)%Z |}]> m).
Definition Pop (e : Env) (key : string) : prog InMemoryInFlightStore rperr InFlightPayload := λ m,
  match m !! key with
  | None => (Err (Sentinel ErrInFlightNotFound), m)
  | Some en =>
      (if After (now e) (ExpireAt en) then Err (Sentinel ErrInFlightExpired) else Ok (Payload en), delete key m)
  end.

(** ** The libraries *)

(** [oauth2.Config]; its endpoint is that of a provider. *)
Record oauth2_Config : Type := {
  o2_ClientID : string;
  o2_ClientSecret : string;
  o2_AuthURL : string;
  o2_TokenURL : string;
  o2_RedirectURL : string;
  o2_Scopes : list string;
}.
Inductive AuthCodeOption : Type :=
  | Nonce (nonce : string)
  | S256ChallengeOption (verifier : string)
  | VerifierOption (verifier : string)
  | SetAuthURLParam (key value : string).
Record oauth2_Token : Type := { AccessToken : string; Extra_id_token : option string }.
(** A verified token: its nonce, and its claims unless they cannot be read. *)
Record oidc_IDToken : Type := { idt_Nonce : string; idt_Claims : option json }.

Class RPLib : Type := {
  Provider : Type;
  provider_AuthURL : Provider → string;
  provider_TokenURL : Provider → string;
  (* [provider.Verifier] of a configuration: client and algorithms *)
  IDTokenVerifier : Type;
  NewVerifier : Provider → string → list string → IDTokenVerifier;
  AuthCodeURL : oauth2_Config → string → list AuthCodeOption → string;
  RSAKey : Type;
  BitLen : RSAKey → Z;
  (* the client assertion: client, audiences, key, key identifier *)
  NewAssertion : Env → string → list string → RSAKey → option string → option string;
}.

Section relying.
Context {L : RPLib}.

Record token_response : Type := { tr_Status : Z; tr_IDToken : option string }.
(** [None] is an error; a token response whose JSON cannot be read has no member. *)
Record Network : Type := {
  NewProvider : string → option Provider;
  Exchange_code : oauth2_Config → string → list AuthCodeOption → option oauth2_Token;
  Verify : IDTokenVerifier → string → option oidc_IDToken;
  PostForm : string → gmap string string → option token_response;
}.

(** ** provider_cache.go and verifier_cache.go *)

Abbreviation ProviderCache := (gmap string Provider) (only parsing).
Definition ProviderCache_Get (nw : Network) (key issuer : string) : prog ProviderCache rperr Provider := λ c,
  match c !! key with
  | Some p => (Ok p, c)
  | None => match NewProvider nw issuer with
            | None => (Err (Wrapf "oidcrp: discover" (Errorf "discovery")), c)
            | Some p => (Ok p, <[key := p]> c)
            end
  end.
Definition ProviderCache_Invalidate (key : string) : prog ProviderCache rperr unit := modify (delete key).

Abbreviation VerifierCache := (gmap string IDTokenVerifier) (only parsing).
Definition defaultSupportedAlgs : list string := ["RS256"; "ES256"].
Definition VerifierCache_Get (key : string) (p : Provider) (clientID : string) (supportedAlgs : list string)
    (c : VerifierCache) : call (IDTokenVerifier * VerifierCache) :=
  if bool_decide (clientID = "") then Panics
  else match c !! key with
       | Some v => Returns (v, c)
       | None =>
           let algs := if bool_decide (length supportedAlgs = 0%nat) then defaultSupportedAlgs else supportedAlgs in
           let v := NewVerifier p clientID algs in Returns (v, <[key := v]> c)
       end.
Definition VerifierCache_Invalidate (key : string) (c : VerifierCache) : VerifierCache := delete key c.

(** ** flow.go *)

Definition minPKCEVerifierLen : nat := 43.
(** A nil configuration is [None]. *)
Definition BuildAuthURL (cfg : option oauth2_Config) (state nonce pkceVerifier : string) (extra : list AuthCodeOption) :
    outcome rperr string :=
  match cfg with
  | None => Err (Errorf "oidcrp: BuildAuthURL: nil cfg")
  | Some cfg =>
      if bool_decide (state = "") then Err (Errorf "oidcrp: BuildAuthURL: empty state")
      else if bool_decide (nonce = "") then Err (Errorf "oidcrp: BuildAuthURL: empty nonce")
      else if bool_decide (String.length pkceVerifier < minPKCEVerifierLen)%nat
      then Err (Errorf "oidcrp: BuildAuthURL: pkceVerifier length")
      else Ok (AuthCodeURL cfg state ([Nonce nonce; S256ChallengeOption pkceVerifier] ++ extra))
  end.

(** The token is there with every error that comes after the exchange. *)
Definition ExchangeAndVerify (nw : Network) (cfg : option oauth2_Config) (verifier : option IDTokenVerifier)
    (code pkceVerifier storedNonce : string) : outcome rperr (oidc_IDToken * oauth2_Token * json) * option oauth2_Token :=
  match cfg with
  | None => (Err (Errorf "oidcrp: ExchangeAndVerify: nil cfg"), None)
  | Some cfg =>
      match Exchange_code nw cfg code [VerifierOption pkceVerifier] with
      | None => (Err (Wrapf "oidcrp: token exchange" (Errorf "oauth2")), None)
      | Some tok =>
          (match default "" (Extra_id_token tok) with
           | "" => Err (Sentinel ErrMissingIDToken)
           | rawID =>
               match verifier with
               | None => Err (Errorf "oidcrp: ExchangeAndVerify: nil verifier")
               | Some v =>
                   match Verify nw v rawID with
                   | None => Err (Wrapf "oidcrp: verify id_token" (Errorf "oidc"))
                   | Some idt =>
                       if negb (bool_decide (idt_Nonce idt = storedNonce)) then Err (Sentinel ErrNonceMismatch)
                       else match idt_Claims idt with
                            | None => Err (Wrapf "oidcrp: decode id_token claims" (Errorf "json"))
                            | Some claims => Ok (idt, tok, claims)
                            end
                   end
               end
           end, Some tok)
      end
  end.

(** ** logingov *)

Definition minRSAKeyBits : Z := 2048.
Definition JWTTypeParam : string := "urn:ietf:params:oauth:client-assertion-type:jwt-bearer".
Definition signing_key (key : option RSAKey) : outcome rperr RSAKey :=
  match key with
  | None => Err (Sentinel ErrSigningKeyMissing)
  | Some key => if bool_decide (BitLen key < minRSAKeyBits)%Z then Err (Sentinel ErrSigningKeyTooShort) else Ok key
  end.
Definition SignClientAssertion (e : Env) (clientID audience : string) (key : option RSAKey) (kid : string) :
    outcome rperr (string * string) :=
  match signing_key key with
  | Err err => Err err
  | Ok key =>
      match NewAssertion e clientID [audience] key (if bool_decide (kid = "") then None else Some kid) with
      | None => Err (Wrapf "logingov: build assertion" (Errorf "clientassertion"))
      | Some assertion => Ok (assertion, JWTTypeParam)
      end
  end.

Record Config : Type := {
  TenantID : string;
  ClientID : string;
  IssuerURL : string;
  RedirectURL : string;
  SigningKey : option RSAKey;
  SigningKID : string;
  ACRValues : list string;
  Scopes : list string;
}.
Record ID : Type := {
  Sub : string;
  Email : string;
  EmailVerified : bool;
  ACR : string;
  AssuranceLevel : string;
  RawClaims : json;
}.
Definition defaultACR : string := "urn:acr.login.gov:auth-only".
Definition defaultScopes : list string := ["openid"; "email"].

Record Client : Type := { cfg : Config; provider : Provider; oauthConfig : oauth2_Config; tokenEndpoint : string }.
(** The two caches, which all clients of a process share. *)
Record caches : Type := { providers : gmap string Provider; verifiers : gmap string IDTokenVerifier }.
Definition cache_key (c : Config) : string := "logingov:" +:+ TenantID c.
Definition NewClient (nw : Network) (c : Config) : prog caches rperr Client :=
  _ ← of_outcome (signing_key (SigningKey c));
  let scopes := if bool_decide (length (Scopes c) = 0%nat) then defaultScopes else Scopes c in
  p ← wrapping "logingov: provider discovery"
        (zoom providers (λ ps s, {| providers := ps; verifiers := verifiers s |})
           (ProviderCache_Get nw (cache_key c) (IssuerURL c)));
  mret {| cfg := {| TenantID := TenantID c; ClientID := ClientID c; IssuerURL := IssuerURL c;
                    RedirectURL := RedirectURL c; SigningKey := SigningKey c; SigningKID := SigningKID c;
                    ACRValues := ACRValues c; Scopes := scopes |};
          provider := p;
          oauthConfig := {| o2_ClientID := ClientID c; o2_ClientSecret := ""; o2_AuthURL := provider_AuthURL p;
                            o2_TokenURL := provider_TokenURL p; o2_RedirectURL := RedirectURL c; o2_Scopes := scopes |};
          tokenEndpoint := provider_TokenURL p |}.

Definition acr_values (c : Client) (extraACR : list string) : list string :=
  (if bool_decide (length (ACRValues (cfg c)) = 0%nat) then [defaultACR] else ACRValues (cfg c)) ++ extraACR.
Definition Client_BuildAuthURL (c : Client) (state nonce pkceVerifier : string) (extraACR : list string) :
    outcome rperr string :=
  BuildAuthURL (Some (oauthConfig c)) state nonce pkceVerifier
    [SetAuthURLParam "acr_values" (strings_Join " " (acr_values c extraACR))].

Definition mapACR (rawACR : string) : string :=
  if bool_decide (rawACR = "urn:acr.login.gov:auth-only") then "ial_1"
  else if bool_decide (rawACR = "urn:acr.login.gov:verified") then "verified_no_match"
  else if bool_decide (rawACR = "urn:acr.login.gov:verified-facial-match-required") then "ial_2"
  else if bool_decide (rawACR = "urn:acr.login.gov:verified-facial-match-preferred") then "ial_2_preferred"
  else if bool_decide (rawACR = "http://idmanagement.gov/ns/assurance/aal/2") then "aal_2"
  else if bool_decide (rawACR = "http://idmanagement.gov/ns/assurance/aal/2?phishing_resistant=true") then "aal_3"
  else if bool_decide (rawACR = "http://idmanagement.gov/ns/assurance/aal/2?hspd12=true") then "aal_3_piv"
  else "none".

Definition toString (v : option json) : string := default "" (v ≫= json_string).
Definition toBool (v : option json) : bool := default false (v ≫= json_bool).
Definition token_form (c : Client) (code pkceVerifier assertion assertionType : string) : gmap string string :=
  {["grant_type" := "authorization_code"; "code" := code; "redirect_uri" := RedirectURL (cfg c);
    "code_verifier" := pkceVerifier; "client_assertion_type" := assertionType; "client_assertion" := assertion]}.

(** The nonce and the claims of a verified token. *)
Definition identify (idt : oidc_IDToken) (storedNonce : string) : outcome rperr ID :=
  match idt_Claims idt with
  | None => Err (Wrapf "logingov.Exchange: decode id_token claims" (Errorf "json"))
  | Some claims =>
      if negb (bool_decide (toString (member "nonce" claims) = storedNonce)) then Err (Sentinel logingov_ErrNonceMismatch)
      else
        let acr := toString (member "acr" claims) in
        Ok {| Sub := toString (member "sub" claims); Email := toString (member "email" claims);
              EmailVerified := toBool (member "email_verified" claims); ACR := acr; AssuranceLevel := mapACR acr;
              RawClaims := claims |}
  end.
Definition Client_Exchange (e : Env) (nw : Network) (c : Client) (code pkceVerifier storedNonce : string) (s : caches) :
    call (outcome rperr ID * caches) :=
  match SignClientAssertion e (ClientID (cfg c)) (tokenEndpoint c) (SigningKey (cfg c)) (SigningKID (cfg c)) with
  | Err err => Returns (Err (Wrapf "logingov.Exchange: sign client_assertion" err), s)
  | Ok (assertion, assertionType) =>
      match PostForm nw (tokenEndpoint c) (token_form c code pkceVerifier assertion assertionType) with
      | None => Returns (Err (Wrapf "logingov.Exchange: POST token endpoint" (Errorf "http")), s)
      | Some resp =>
          if negb (bool_decide (tr_Status resp = 200%Z)) then Returns (Err (Wrapf "status" (Sentinel ErrTokenEndpointStatus)), s)
          else match default "" (tr_IDToken resp) with
               | "" => Returns (Err (Errorf "logingov.Exchange: response missing id_token"), s)
               | raw =>
                   match VerifierCache_Get (cache_key (cfg c)) (provider c) (ClientID (cfg c)) ["RS256"] (verifiers s) with
                   | Panics => Panics
                   | Returns (v, vs) =>
                       let s := {| providers := providers s; verifiers := vs |} in
                       match Verify nw v raw with
                       | None => Returns (Err (Wrapf "logingov.Exchange: verify id_token" (Errorf "oidc")), s)
                       | Some idt => Returns (identify idt storedNonce, s)
                       end
                   end
               end
      end
  end.
End relying.

(** ** Signed states *)

Section states.
Context (hmac : string → string → string) (decode_state : string → option State).

(** Neither missing nor too old. *)
Definition acceptable (e : Env) (maxAge : duration) (s : State) : Prop :=
  Tenant s ≠ "" ∧ Idp s ≠ "" ∧ st_Nonce s ≠ "" ∧
  ((0 < maxAge)%Z → (wrap64 (unix (now e) - st_CreatedAt s) ≤ whole_seconds maxAge)%Z).

(** A state is accepted exactly when it is a payload with its authentication code,
    the payload decodes, nothing required is missing, and, if an age is given, it is
    not older in whole seconds.  A state from the future is never too old, and
    without a positive age nothing expires. *)
Theorem signed_state_exact e key raw maxAge s :
  VerifyState hmac decode_state e key raw maxAge = Ok s ↔
  ∃ enc mac, raw = enc +:+ "." +:+ mac ∧ ("."%char ∉ String.list_ascii_of_string enc) ∧ enc ≠ "" ∧ mac ≠ "" ∧
    base64_DecodeString URLAlphabet mac = Some (hmac key enc) ∧
    base64_DecodeString URLAlphabet enc ≫= decode_state = Some s ∧ acceptable e maxAge s.
Proof.
  unfold VerifyState, acceptable. split.
  - destruct (split_on "." raw) as [|enc [|y ys]] eqn:Hsplit; try done. apply split_first in Hsplit as [-> Hnd].
    set (mac := strings_Join "." (y :: ys)). destruct (bool_decide (enc = "") || bool_decide (mac = "")) eqn:Hne; [done|].
    apply orb_false_iff in Hne as [He%bool_decide_eq_false Hm%bool_decide_eq_false].
    destruct (base64_DecodeString URLAlphabet mac) as [got|] eqn:Hmac; [|done].
    destruct (bool_decide (got = hmac key enc)) eqn:Hg; [|done]. apply bool_decide_eq_true in Hg as ->. cbn [negb].
    destruct (base64_DecodeString URLAlphabet enc) as [payload|] eqn:Henc; [|done].
    destruct (decode_state payload) as [s'|] eqn:Hd; [|done]. destruct (_ || _ || _) eqn:Hreq; [done|].
    destruct (_ && _) eqn:Hage; [done|]. intros [= ->]. exists enc, mac.
    rewrite !orb_false_iff, !bool_decide_eq_false in Hreq. apply andb_false_iff in Hage. rewrite !bool_decide_eq_false in Hage.
    rewrite Henc. split_and!; try done; [tauto|tauto|tauto|lia].
  - intros (enc & mac & -> & Hnd & He & Hm & Hmac & Hd & Ht & Hi & Hn & Hage). change ("." +:+ mac) with (String "." mac).
    rewrite split_on_app by done. destruct (split_on_cons "." mac) as (y & ys & E). pose proof (Join_split "." mac) as Hj.
    rewrite E in Hj |- *. rewrite Hj, (bool_decide_false (enc = "")), (bool_decide_false (mac = "")) by done. cbn [orb].
    rewrite Hmac, bool_decide_true by done. cbn [negb]. destruct (base64_DecodeString URLAlphabet enc) as [payload|]; [|done].
    cbn in Hd. rewrite Hd, !(bool_decide_false (_ = "")) by done. cbn [orb].
    assert (bool_decide (0 < maxAge)%Z && bool_decide (whole_seconds maxAge < wrap64 (unix (now e) - st_CreatedAt s))%Z = false) as ->; [|done].
    apply andb_false_iff. rewrite !bool_decide_eq_false. lia.
Qed.

(** A signed state verifies to itself, for what [json.Unmarshal] reads back, while
    it is acceptable. *)
Theorem signed_state_roundtrip e key maxAge s :
  decode_state (encode_state s) = Some s → hmac key (base64_EncodeToString URLAlphabet (encode_state s)) ≠ "" →
  acceptable e maxAge s → VerifyState hmac decode_state e key (SignState hmac key s) maxAge = Ok s.
Proof.
  intros Hd Hmac Hok. apply signed_state_exact. eexists _, _. split; [done|].
  split_and!; [apply base64_no_dot|by apply base64_nonempty|by apply base64_nonempty|apply base64_Decode_Encode| |done].
  by rewrite base64_Decode_Encode.
Qed.
End states.

(** ** Records in flight *)

Inductive flight_op : Type :=
  | DoPut (key : string) (p : InFlightPayload) (ttl : duration)
  | DoPop (key : string).
Definition flight_run (m : gmap string inFlightEntry) (op : Env * flight_op) : gmap string inFlightEntry :=
  match op.2 with DoPut k p ttl => (Put op.1 k p ttl m).2 | DoPop k => (Pop op.1 k m).2 end.
Definition taken (k : string) (m : gmap string inFlightEntry) (op : Env * flight_op) : bool :=
  match op.2 with DoPop k' => bool_decide (k' = k) && is_Ok (Pop op.1 k m).1 | _ => false end.
Definition is_put (k : string) (op : Env * flight_op) : bool :=
  match op.2 with DoPut k' _ _ => bool_decide (k' = k) | _ => false end.
(** How often a key was taken by a sequence of calls. *)
Fixpoint takes (k : string) (m : gmap string inFlightEntry) (ops : list (Env * flight_op)) : nat :=
  match ops with
  | [] => 0
  | op :: rest => ((if taken k m op then 1 else 0) + takes k (flight_run m op) rest)%nat
  end.

(** Whatever calls are made in whatever order, a record is taken at most once: a
    key is popped with success no more often than it was put, a pop with success
    needs that the record has not expired, and after any pop the key is unknown. *)
Theorem in_flight_single_use k ops m :
  m !! k = None →
  (takes k m ops ≤ count (is_put k) ops)%nat ∧
  ∀ e m', (∀ p, (Pop e k m').1 = Ok p → ∃ en, m' !! k = Some en ∧ Payload en = p ∧ (now e ≤ ExpireAt en)%Z) ∧
    ∀ e', (Pop e' k (Pop e k m').2).1 = Err (Sentinel ErrInFlightNotFound).
Proof.
  intros Hm. split.
  - assert (∀ m, (takes k m ops ≤ count (is_put k) ops + if decide (is_Some (m !! k)) then 1 else 0)%nat) as Hgen.
    { clear m Hm. induction ops as [|[e op] ops IH]; intros m; [cbn; lia|]. cbn [takes]. rewrite count_cons.
      specialize (IH (flight_run m (e, op))). unfold taken, is_put, flight_run in *. cbn [fst snd] in *.
      destruct op as [k' p ttl|k'].
      - cbn [Put modify snd] in *. case_bool_decide as Hk.
        + subst k'. rewrite lookup_insert_eq, decide_True in IH by eauto. destruct (decide _); lia.
        + rewrite lookup_insert_ne in IH by done. destruct (decide _); lia.
      - case_bool_decide as Hk; [subst k'|].
        + unfold Pop in *. destruct (m !! k) as [en|] eqn:Hmk; cbn [fst snd] in *.
          * rewrite lookup_delete_eq, decide_False in IH by (by intros [? ?]). rewrite decide_True by eauto.
            cbn [andb]. destruct (is_Ok _); lia.
          * rewrite Hmk in IH. cbn [is_Ok andb]. destruct (decide _); lia.
        + assert ((Pop e k' m).2 !! k = m !! k) as Heq.
          { unfold Pop. destruct (m !! k'); [|done]. cbn. by rewrite lookup_delete_ne. }
          rewrite Heq in IH. cbn [andb]. destruct (decide _); lia. }
    specialize (Hgen m). rewrite Hm, decide_False in Hgen by (by intros [? ?]). lia.
  - intros e m'. unfold Pop. split.
    + intros p. destruct (m' !! k) as [en|] eqn:Hk; [|done]. unfold After. cbn. case_bool_decide; [done|].
      intros [= <-]. exists en. split_and!; [done|done|lia].
    + intros e'. destruct (m' !! k) eqn:Hk; cbn; [by rewrite lookup_delete_eq|by rewrite Hk].
Qed.

(** ** Claims *)

(** The claims are mapped exactly when the paths of e-mail and subject lead to
    texts that are not empty, and these are the mapped values; no other claim, missing
    or of the wrong type, is an error. *)
Theorem claims_required_exactly e claims m :
  match ApplyClaimMap e claims m with
  | Ok out => lookup claims (cm_Email m) = Some (JString (mc_Email out)) ∧ mc_Email out ≠ "" ∧
              lookup claims (cm_Sub m) = Some (JString (mc_Sub out)) ∧ mc_Sub out ≠ ""
  | Err err => errors_Is err ErrMissingRequiredClaim = true ∧
      ¬ (∃ email sub, lookup claims (cm_Email m) = Some (JString email) ∧ email ≠ "" ∧
                      lookup claims (cm_Sub m) = Some (JString sub) ∧ sub ≠ "")
  end.
Proof.
  assert (∀ field path, match required field claims path with
    | Ok s => lookup claims path = Some (JString s) ∧ s ≠ ""
    | Err err => errors_Is err ErrMissingRequiredClaim = true ∧ ¬ (∃ s, lookup claims path = Some (JString s) ∧ s ≠ "")
    end) as Hreq.
  { intros field path. unfold required. case_bool_decide as Hp.
    - split; [by vm_compute|]. intros (s & Hs & _). revert Hs. unfold lookup. by rewrite bool_decide_true.
    - destruct (lookup claims path) as [v|]; [|split; [by vm_compute|by intros (s & ? & _)]].
      destruct v; cbn; try (split; [by vm_compute|by intros (s & ? & _)]).
      case_bool_decide as Hs; [split; [by vm_compute|intros (s' & [= <-] & ?); done]|done]. }
  unfold ApplyClaimMap. pose proof (Hreq "email" (cm_Email m)) as He. pose proof (Hreq "sub" (cm_Sub m)) as Hs.
  destruct (required "email" claims (cm_Email m)) as [email|err]; [|naive_solver].
  destruct (required "sub" claims (cm_Sub m)) as [sub|err]; [|naive_solver]. cbn. tauto.
Qed.

(** A claim whose name has a dot in it, such as a name that is a URL, is not found
    under its name in claims that have no other member. *)
Lemma dotted_name_unreachable name v :
  "."%char ∈ String.list_ascii_of_string name → lookup (JObject [(name, v)]) name = None.
Proof.
  intros Hdot. unfold lookup. case_bool_decide; [done|].
  destruct (split_on_cons "." name) as (x & xs & Hs). rewrite Hs. cbn [lookup_parts member].
  rewrite filter_cons_False; [done|]. cbn. intros ->. by apply split_on_head in Hs.
Qed.

(** ** Login.gov *)

Section logingov.
Context {L : RPLib}.
Implicit Types (nw : Network) (c : Client) (s : caches).

(** The identity that the claims of a token tell. *)
Definition identity_of (claims : json) : ID :=
  let acr := toString (member "acr" claims) in
  {| Sub := toString (member "sub" claims); Email := toString (member "email" claims);
     EmailVerified := toBool (member "email_verified" claims); ACR := acr; AssuranceLevel := mapACR acr; RawClaims := claims |}.
(** The answer to the form that proves possession of the code verifier and of the key of
    the client to its token endpoint. *)
Definition token_answer (e : Env) nw c (code pkce raw : string) : Prop :=
  ∃ key assertion, SigningKey (cfg c) = Some key ∧ (2048 ≤ BitLen key)%Z ∧
    NewAssertion e (ClientID (cfg c)) [tokenEndpoint c] key
      (if bool_decide (SigningKID (cfg c) = "") then None else Some (SigningKID (cfg c))) = Some assertion ∧
    PostForm nw (tokenEndpoint c) (token_form c code pkce assertion JWTTypeParam) =
      Some {| tr_Status := 200; tr_IDToken := Some raw |} ∧ raw ≠ "".
(** What a verifier takes a token for, under a nonce. *)
Definition accepted_by nw (v : IDTokenVerifier) (raw nonce : string) (claims : json) : Prop :=
  ∃ idt, Verify nw v raw = Some idt ∧ idt_Claims idt = Some claims ∧ toString (member "nonce" claims) = nonce.
(** The verifier of a tenant, which its first use makes. *)
Definition tenant_verifier c s : IDTokenVerifier :=
  default (NewVerifier (provider c) (ClientID (cfg c)) ["RS256"]) (verifiers s !! cache_key (cfg c)).

(** An identity comes exactly from an answer with status 200 to the form of the client
    whose token the verifier of the tenant takes under the stored nonce; it is what the
    claims of the token say, and the verifier stays. *)
Lemma Verifier_got c s :
  ClientID (cfg c) ≠ "" →
  VerifierCache_Get (cache_key (cfg c)) (provider c) (ClientID (cfg c)) ["RS256"] (verifiers s) =
    Returns (tenant_verifier c s, <[cache_key (cfg c) := tenant_verifier c s]> (verifiers s)).
Proof.
  intros Hid. unfold VerifierCache_Get, tenant_verifier. rewrite bool_decide_false by done.
  destruct (verifiers s !! cache_key (cfg c)) as [v|] eqn:Hv; cbn; [|done]. by rewrite insert_id.
Qed.
Lemma Exchange_iff e nw c code pkce nonce s id s' :
  Client_Exchange e nw c code pkce nonce s = Returns (Ok id, s') ↔
  ∃ raw claims, token_answer e nw c code pkce raw ∧ ClientID (cfg c) ≠ "" ∧
    accepted_by nw (tenant_verifier c s) raw nonce claims ∧ id = identity_of claims ∧
    s' = {| providers := providers s; verifiers := <[cache_key (cfg c) := tenant_verifier c s]> (verifiers s) |}.
Proof.
  unfold Client_Exchange, SignClientAssertion, signing_key, token_answer, accepted_by, minRSAKeyBits. split.
  - destruct (SigningKey (cfg c)) as [key|]; [|done]. case_bool_decide as Hb; [done|].
    destruct (NewAssertion _ _ _ _ _) as [assertion|] eqn:Hna; [|done].
    destruct (PostForm _ _ _) as [[st tok]|] eqn:Hpost; [|done]. cbn [tr_Status tr_IDToken].
    destruct (bool_decide (st = 200%Z)) eqn:Hst; [|done]. apply bool_decide_eq_true in Hst as ->. cbn [negb]. destruct tok as [raw|]; [|done].
    cbn [from_option]; unfold Datatypes.id at 1.
    destruct raw as [|a raw]; [done|]. destruct (decide (ClientID (cfg c) = "")) as [Hid|Hid].
    { unfold VerifierCache_Get. by rewrite bool_decide_true. }
    rewrite Verifier_got by done. destruct (Verify nw _ _) as [idt|] eqn:Hver; [|done]. unfold identify.
    destruct (idt_Claims idt) as [claims|] eqn:Hc; [|done]. destruct (bool_decide (toString _ = nonce)) eqn:Hn; [|done]. apply bool_decide_eq_true in Hn. cbn [negb]. intros [= <- <-].
    exists (String a raw), claims. split_and!; try done; [|by exists idt]. exists key, assertion. split_and!; try done; lia.
  - intros (raw & claims & (key & assertion & -> & Hb & Hna & Hpost & Hraw) & Hid & (idt & Hver & Hc & Hn) & -> & ->).
    rewrite bool_decide_false by lia. rewrite Hna, Hpost. cbn [tr_Status tr_IDToken]. rewrite bool_decide_true by done. cbn [negb from_option].
    unfold Datatypes.id at 1. destruct raw as [|a raw]; [done|]. rewrite Verifier_got by done. rewrite Hver. unfold identify. rewrite Hc.
    by rewrite bool_decide_true.
Qed.

(** C30: the caches are keyed by the tenant alone.  After the first client of a tenant
    has logged somebody in, a client for another issuer, registration or client
    identifier of the tenant still talks to the first provider, and takes exactly the
    tokens that the verifier for the first client identifier takes: a login succeeds just
    when the answer to its form holds such a token under its nonce, whatever a verifier
    for its own client identifier would say, and it leaves the caches as they are. *)
Theorem tenant_pinned e nw1 (c1 c2 : Config) s0 (cl1 : Client) s1 code pkce nonce id s nw2 :
  NewClient nw1 c1 s0 = (Ok cl1, s1) → Client_Exchange e nw1 cl1 code pkce nonce s1 = Returns (Ok id, s) →
  verifiers s0 !! cache_key c1 = None →
  TenantID c2 = TenantID c1 → is_Ok (signing_key (SigningKey c2)) = true →
  ∃ cl2, NewClient nw2 c2 s = (Ok cl2, s) ∧ ClientID (cfg cl2) = ClientID c2 ∧ provider cl2 = provider cl1 ∧
    tokenEndpoint cl2 = tokenEndpoint cl1 ∧
    ∀ e2 code2 pkce2 nonce2 id2 s2,
      Client_Exchange e2 nw2 cl2 code2 pkce2 nonce2 s = Returns (Ok id2, s2) ↔
      ∃ raw claims, token_answer e2 nw2 cl2 code2 pkce2 raw ∧ ClientID c2 ≠ "" ∧
        accepted_by nw2 (NewVerifier (provider cl1) (ClientID c1) ["RS256"]) raw nonce2 claims ∧
        id2 = identity_of claims ∧ s2 = s.
Proof.
  intros Hnew1 Hex Hnone Hten Hkey.
  assert (∃ p, providers s1 !! cache_key c1 = Some p ∧ provider cl1 = p ∧ verifiers s1 = verifiers s0 ∧
    ClientID (cfg cl1) = ClientID c1 ∧ cache_key (cfg cl1) = cache_key c1 ∧ tokenEndpoint cl1 = provider_TokenURL p) as
    (p & Hp & Hprov & Hvs & Hcid & Hck & Htok).
  { revert Hnew1. unfold NewClient, ProviderCache_Get, of_outcome, wrapping, zoom. cbv [mbind prog_bind mret prog_ret].
    destruct (signing_key (SigningKey c1)); [|done].
    destruct (providers s0 !! cache_key c1) as [p|] eqn:H0.
    - intros [= <- <-]. cbn. eauto 10.
    - destruct (NewProvider nw1 (IssuerURL c1)) as [p|]; [|done]. intros [= <- <-]. cbn. rewrite lookup_insert_eq. eauto 10. }
  apply Exchange_iff in Hex as (_ & _ & _ & _ & _ & _ & ->).
  assert (tenant_verifier cl1 s1 = NewVerifier (provider cl1) (ClientID c1) ["RS256"]) as Hv1
    by (unfold tenant_verifier; by rewrite Hck, Hvs, Hnone, Hcid).
  assert (cache_key c2 = cache_key c1) as Hck2 by (unfold cache_key; by rewrite Hten).
  destruct (signing_key (SigningKey c2)) as [k2|] eqn:Hk2; [|done].
  eexists. split; [|split; [|split; [|split]]].
  { unfold NewClient, ProviderCache_Get, of_outcome, wrapping, zoom. cbv [mbind prog_bind mret prog_ret].
    rewrite Hk2, Hck2. cbn [providers]. by rewrite Hp. }
  1-3: cbn; congruence.
  intros e2 code2 pkce2 nonce2 id2 s2. rewrite Exchange_iff, Hv1, Hck.
  match goal with |- context [tenant_verifier ?cl ?st] =>
    assert (tenant_verifier cl st = NewVerifier (provider cl1) (ClientID c1) ["RS256"]) as ->;
      [unfold tenant_verifier|]; change (cache_key (cfg cl)) with (cache_key c2); rewrite Hck2 end.
  { cbn [verifiers]. by rewrite lookup_insert_eq. }
  cbn [verifiers providers cfg ClientID]. rewrite insert_insert_eq. done.
Qed.

(** Each level of assurance comes from one value, and any other value is none. *)
Lemma mapACR_inj a b : mapACR a = mapACR b → mapACR a ≠ "none" → a = b.
Proof. unfold mapACR. repeat case_bool_decide; subst; done. Qed.
End logingov.

(** ** Examples *)

Definition ex_state : State :=
  {| Tenant := "t1"; Idp := "okta"; ReturnURL := "/home"; st_Nonce := "n1"; st_CreatedAt := 1700000000 |}.
Definition ex_env (t : time) : Env := {| now := t; new_id := λ n, N.of_nat n; order := canonical_range |}.
(** A reader that knows the example, and a code that is the key and the text. *)
Definition ex_decode (t : string) : option State := if bool_decide (t = encode_state ex_state) then Some ex_state else None.
Definition ex_hmac (key msg : string) : string := key +:+ msg.

Lemma signed_state_roundtrip_witness :
  VerifyState ex_hmac ex_decode (ex_env (1700000300 * Second)) "k" (SignState ex_hmac "k" ex_state) (10 * Minute) = Ok ex_state.
Proof.
  apply signed_state_roundtrip; [by vm_compute|done|].
  split_and!; try by apply (bool_decide_unpack _).
Defined.

Definition ex_payload : InFlightPayload :=
  {| PKCEVerifier := "v"; StoredNonce := "n1"; if_TenantID := "t1"; IdpID := "okta"; if_ReturnURL := "/"; if_CreatedAt := 0 |}.
Lemma in_flight_single_use_witness :
  let ops := [(ex_env 0, DoPut "n1" ex_payload Minute); (ex_env 1, DoPop "n1"); (ex_env 2, DoPop "n1")] in
  (takes "n1" ∅ ops ≤ count (is_put "n1") ops)%nat ∧ takes "n1" ∅ ops = 1%nat.
Proof.
  intros ops. split; [|by vm_compute]. exact (proj1 (in_flight_single_use "n1" ops ∅ (lookup_empty _))).
Defined.

(** A provider is its issuer, a verifier an issuer and a client; a token is taken by
    the verifier of the issuer and client it names. *)
#[local] Instance ex_lib : RPLib := {|
  Provider := string; provider_AuthURL := λ p, p +:+ "/authorize"; provider_TokenURL := λ p, p +:+ "/token";
  IDTokenVerifier := string; NewVerifier := λ p c _, p +:+ "|" +:+ c; AuthCodeURL := λ c st _, o2_AuthURL c +:+ "?state=" +:+ st;
  RSAKey := Z; BitLen := λ n, n; NewAssertion := λ _ c _ _ _, Some ("assertion of " +:+ c) |}.
Definition ex_claims : json :=
  JObject [("sub", JString "u1"); ("email", JString "a@x.gov"); ("nonce", JString "n1");
           ("acr", JString "http://idmanagement.gov/ns/assurance/aal/2")].
(** All tokens are those of the sandbox. *)
Definition ex_network : Network := {|
  NewProvider := Some; Exchange_code := λ _ _ _, None;
  Verify := λ v raw, if bool_decide (v = raw) then Some {| idt_Nonce := "n1"; idt_Claims := Some ex_claims |} else None;
  PostForm := λ _ _, Some {| tr_Status := 200; tr_IDToken := Some "https://sandbox|rp-sandbox" |} |}.
Definition ex_config (issuer client : string) : Config :=
  {| TenantID := "t1"; ClientID := client; IssuerURL := issuer; RedirectURL := "https://rp/cb"; SigningKey := Some 2048%Z;
     SigningKID := ""; ACRValues := []; Scopes := [] |}.
Definition sandbox : Config := ex_config "https://sandbox" "rp-sandbox".
Definition production : Config := ex_config "https://prod" "rp-prod".
Definition no_caches : caches := {| providers := ∅; verifiers := ∅ |}.
Definition ex_client : Client :=
  {| cfg := {| TenantID := "t1"; ClientID := "rp-sandbox"; IssuerURL := "https://sandbox"; RedirectURL := "https://rp/cb";
               SigningKey := Some 2048%Z; SigningKID := ""; ACRValues := []; Scopes := defaultScopes |};
     provider := "https://sandbox";
     oauthConfig := {| o2_ClientID := "rp-sandbox"; o2_ClientSecret := ""; o2_AuthURL := "https://sandbox/authorize";
                       o2_TokenURL := "https://sandbox/token"; o2_RedirectURL := "https://rp/cb"; o2_Scopes := defaultScopes |};
     tokenEndpoint := "https://sandbox/token" |}.
Definition one_provider : caches := {| providers := {["logingov:t1" := "https://sandbox"]}; verifiers := ∅ |}.
Definition both_cached : caches :=
  {| providers := {["logingov:t1" := "https://sandbox"]}; verifiers := {["logingov:t1" := "https://sandbox|rp-sandbox"]} |}.
Definition ex_id : ID :=
  {| Sub := "u1"; Email := "a@x.gov"; EmailVerified := false; ACR := "http://idmanagement.gov/ns/assurance/aal/2";
     AssuranceLevel := "aal_2"; RawClaims := ex_claims |}.

Lemma tenant_pinned_witness :
  ∃ cl2, NewClient ex_network production both_cached = (Ok cl2, both_cached) ∧ ClientID (cfg cl2) = "rp-prod" ∧
    provider cl2 = "https://sandbox" ∧ tokenEndpoint cl2 = "https://sandbox/token" ∧
    ∀ e2 code2 pkce2 nonce2 id2 s2,
      Client_Exchange e2 ex_network cl2 code2 pkce2 nonce2 both_cached = Returns (Ok id2, s2) ↔
      ∃ raw claims, token_answer e2 ex_network cl2 code2 pkce2 raw ∧ "rp-prod" ≠ "" ∧
        accepted_by ex_network (NewVerifier "https://sandbox" "rp-sandbox" ["RS256"]) raw nonce2 claims ∧
        id2 = identity_of claims ∧ s2 = both_cached.
Proof.
  apply (tenant_pinned (ex_env 0) ex_network sandbox production no_caches ex_client one_provider "code" "pkce" "n1" ex_id both_cached);
    by vm_compute.
Defined.
