(* ===== verification/HttpHelpers.v ===== *)
(** * HTTP helpers (platform/httputil, platform/apierror)

    apierror.go: the typed errors; response.go and request.go: JSON and event-stream
    answers, bodies with a limit, the address of a client; pagination.go: limits and
    offsets of a query.  A response writer records what net/http was told.

    Theorems: the bounds of a page, the statuses that are written, and what a reader
    of an event stream sees. *)

From S2P Require Import Prelude Encoding Password Json.

(** ** apierror.go *)

Record APIError : Type := { StatusCode : Z; Message : string; Type_ : string; Code : string }.
Definition APIError_Error (e : APIError) : string := Type_ e +:+ ": " +:+ Message e.
Definition AuthenticationError (msg : string) : APIError :=
  {| StatusCode := 401; Message := msg; Type_ := "authentication_error"; Code := "invalid_api_key" |}.
Definition BudgetExceeded (msg : string) : APIError :=
  {| StatusCode := 402; Message := msg; Type_ := "budget_exceeded"; Code := "budget_exceeded" |}.
Definition RateLimitExceeded (msg : string) : APIError :=
  {| StatusCode := 429; Message := msg; Type_ := "rate_limit_exceeded"; Code := "rate_limit_exceeded" |}.
Definition GuardrailBlocked (msg : string) : APIError :=
  {| StatusCode := 400; Message := msg; Type_ := "guardrail_blocked"; Code := "content_policy_violation" |}.
Definition NotFound (msg : string) : APIError :=
  {| StatusCode := 404; Message := msg; Type_ := "not_found"; Code := "not_found" |}.
Definition ValidationError (msg : string) : APIError :=
  {| StatusCode := 400; Message := msg; Type_ := "invalid_request_error"; Code := "invalid_request" |}.
Definition ProviderError (msg : string) (statusCode : Z) : APIError :=
  {| StatusCode := statusCode; Message := msg; Type_ := "provider_error"; Code := "provider_error" |}.
Definition InternalError (msg : string) : APIError :=
  {| StatusCode := 500; Message := msg; Type_ := "internal_error"; Code := "internal_error" |}.
Definition Forbidden (msg : string) : APIError :=
  {| StatusCode := 403; Message := msg; Type_ := "permission_error"; Code := "forbidden" |}.
Definition Conflict (msg : string) : APIError :=
  {| StatusCode := 409; Message := msg; Type_ := "conflict"; Code := "conflict" |}.

(** The envelope as [json.Encoder] writes it. *)
Definition ErrorResponse (e : APIError) : string :=
  String.string_of_list_ascii (print_object [print_member "error" (print_object (
    [print_member "message" (quote (Message e)); print_member "type" (quote (Type_ e))] ++ text_field "code" (Code e)))])
  +:+ String "010" "".

(** ** net/http: what a response writer holds *)

Record ResponseWriter : Type := {
  Header : gmap string string; Status : option Z; Body : string; Flushed : nat; CanFlush : bool }.
(** A status outside 100 to 999 panics; only the first status counts. *)
Definition WriteHeader (code : Z) (w : ResponseWriter) : call ResponseWriter :=
  if bool_decide (100 ≤ code ≤ 999)%Z then
    Returns {| Header := Header w; Status := match Status w with Some s => Some s | None => Some code end;
               Body := Body w; Flushed := Flushed w; CanFlush := CanFlush w |}
  else Panics.
Definition with_header (k v : string) (w : ResponseWriter) : ResponseWriter :=
  {| Header := Header_Set k v (Header w); Status := Status w; Body := Body w; Flushed := Flushed w; CanFlush := CanFlush w |}.
Definition Write (data : string) (w : ResponseWriter) : ResponseWriter :=
  {| Header := Header w; Status := match Status w with Some s => Some s | None => Some 200%Z end;
     Body := Body w +:+ data; Flushed := Flushed w; CanFlush := CanFlush w |}.
Definition Flush (w : ResponseWriter) : ResponseWriter :=
  {| Header := Header w; Status := Status w; Body := Body w;
     Flushed := if CanFlush w then String.length (Body w) else Flushed w; CanFlush := CanFlush w |}.

(** ** response.go *)

(** [data] is the text [json.Encoder] makes of it, [None] when it is nil; an error of
    the encoder writes nothing. *)
Definition WriteJSON (status : Z) (data : option (option string)) (w : ResponseWriter) : call ResponseWriter :=
  match WriteHeader status (with_header "Content-Type" "application/json" w) with
  | Panics => Panics
  | Returns w => Returns (match data with Some (Some text) => Write text w | _ => w end)
  end.
Definition WriteError (e : APIError) (w : ResponseWriter) : call ResponseWriter :=
  match WriteHeader (StatusCode e) (with_header "Content-Type" "application/json" w) with
  | Panics => Panics
  | Returns w => Returns (Write (ErrorResponse e) w)
  end.
Definition end_of_event : string := String "010" (String "010" "").
Definition WriteSSEEvent (event data : string) (w : ResponseWriter) : ResponseWriter :=
  Flush (Write end_of_event (Write data (Write "data: " w))).
Definition WriteSSEDone (w : ResponseWriter) : ResponseWriter := Flush (Write ("data: [DONE]" +:+ end_of_event) w).

(** ** request.go *)

Definition MaxBodySize : Z := (100 * 1024 * 1024)%Z.
(** A body is its bytes and whether it ends without an error; more than the limit is an
    error. *)
Record Request : Type := {
  req_Body : string; ends_well : bool; req_Header : gmap string string; RemoteAddr : string; Query : gmap string string }.
Definition read_all (r : Request) : option string :=
  if ends_well r && bool_decide (len (req_Body r) ≤ MaxBodySize)%Z then Some (req_Body r) else None.
(** [unmarshal] is [json.Unmarshal], an error being its text. *)
Definition DecodeJSON {A} (unmarshal : string → string + A) (r : Request) : APIError + A :=
  match read_all r with
  | None => inl (ValidationError "request body too large or unreadable")
  | Some data =>
      if bool_decide (data = "") then inl (ValidationError "request body is empty")
      else match unmarshal data with
           | inl err => inl (ValidationError ("invalid JSON: " +:+ err))
           | inr a => inr a
           end
  end.
Definition ReadBody (r : Request) : APIError + string :=
  match read_all r with
  | None => inl (ValidationError "request body too large or unreadable")
  | Some data => inr data
  end.
(** [http.Header.Get]. *)
Definition Get (h : gmap string string) (k : string) : string := default "" (h !! CanonicalHeaderKey k).
Definition GetClientIP (r : Request) : string :=
  let ip := Get (req_Header r) "X-Forwarded-For" in
  if negb (bool_decide (ip = "")) then ip
  else let ip := Get (req_Header r) "X-Real-IP" in if negb (bool_decide (ip = "")) then ip else RemoteAddr r.

(** ** pagination.go *)

Definition DefaultLimit : Z := 50.
Definition MaxLimit : Z := 500.
Record Pagination : Type := { Limit : Z; Offset : Z }.
Definition parseIntParam (r : Request) (key : string) (defaultVal : Z) : Z :=
  let v := default "" (Query r !! key) in
  if bool_decide (v = "") then defaultVal else match Atoi (bytes v) with None => defaultVal | Some n => n end.
Definition clamp_limit (limit : Z) : Z :=
  let limit := if bool_decide (limit ≤ 0)%Z then DefaultLimit else limit in
  if bool_decide (MaxLimit < limit)%Z then MaxLimit else limit.
Definition ParsePagination (r : Request) : Pagination :=
  let limit := clamp_limit (parseIntParam r "limit" DefaultLimit) in
  let offset := parseIntParam r "offset" 0 in
  let offset := if bool_decide (offset < 0)%Z then 0%Z else offset in
  {| Limit := wrap32 limit; Offset := wrap32 offset |}.
Definition ParsePage (r : Request) : Pagination :=
  let page := parseIntParam r "page" 1 in
  let page := if bool_decide (page < 1)%Z then 1%Z else page in
  let pageSize := clamp_limit (parseIntParam r "page_size" DefaultLimit) in
  {| Limit := wrap32 pageSize; Offset := wrap32 (wrap64 ((page - 1) * pageSize)) |}.

(** ** Pagination *)

Lemma clamp_limit_bounds n : (1 ≤ clamp_limit n ≤ 500)%Z.
Proof. unfold clamp_limit, DefaultLimit, MaxLimit. repeat case_bool_decide; lia. Qed.
Lemma wrap32_high n : (2 ^ 31 ≤ n < 2 ^ 32)%Z → wrap32 n = (n - 2 ^ 32)%Z.
Proof.
  intros Hn. unfold wrap. replace (n + 2 ^ (32 - 1))%Z with (n - 2 ^ 31 + 1 * 2 ^ 32)%Z by lia.
  rewrite Z.mod_add by lia. rewrite Z.mod_small; lia.
Qed.

(** C39: limits are between 1 and 500.  An offset is never negative below 2^31, but the
    conversion to 32 bits comes after the clamp: an offset, or a page times its size,
    from there up to 2^32 is negative. *)
Theorem pagination_bounds r :
  let off := parseIntParam r "offset" 0 in
  let rows := ((parseIntParam r "page" 1 - 1) * Limit (ParsePage r))%Z in
  (1 ≤ Limit (ParsePagination r) ≤ 500)%Z ∧ (1 ≤ Limit (ParsePage r) ≤ 500)%Z ∧
  ((off < 2 ^ 31)%Z → Offset (ParsePagination r) = Z.max 0 off) ∧
  ((2 ^ 31 ≤ off < 2 ^ 32)%Z → Offset (ParsePagination r) = (off - 2 ^ 32)%Z) ∧
  ((rows < 2 ^ 31)%Z → Offset (ParsePage r) = Z.max 0 rows) ∧
  ((2 ^ 31 ≤ rows < 2 ^ 32)%Z → Offset (ParsePage r) = (rows - 2 ^ 32)%Z).
Proof.
  intros off rows. assert (∀ n, wrap32 (clamp_limit n) = clamp_limit n) as Hcl.
  { intros n. apply wrap32_small. pose proof (clamp_limit_bounds n). lia. }
  assert (Limit (ParsePage r) = clamp_limit (parseIntParam r "page_size" DefaultLimit)) as Hsize by apply Hcl.
  assert (Limit (ParsePagination r) = clamp_limit (parseIntParam r "limit" DefaultLimit)) as Hlim by apply Hcl.
  unfold rows. rewrite Hsize, Hlim. clear Hsize Hlim rows.
  pose proof (clamp_limit_bounds (parseIntParam r "page_size" DefaultLimit)) as Hb.
  set (size := clamp_limit (parseIntParam r "page_size" DefaultLimit)) in *. set (page := parseIntParam r "page" 1).
  assert (Offset (ParsePagination r) = wrap32 (Z.max 0 off)) as ->.
  { unfold ParsePagination. cbn [Offset]. fold off. case_bool_decide; f_equal; lia. }
  assert (Offset (ParsePage r) = wrap32 (wrap64 ((Z.max 1 page - 1) * size))) as ->.
  { unfold ParsePage. cbn [Offset]. fold size page. case_bool_decide; do 3 f_equal; lia. }
  split_and!; try apply clamp_limit_bounds; try lia.
  - intros Ho. apply wrap32_small. lia.
  - intros Ho. rewrite wrap32_high; lia.
  - intros Ho. assert ((Z.max 1 page - 1) * size = Z.max 0 ((page - 1) * size))%Z as -> by nia.
    rewrite wrap64_small by lia. apply wrap32_small. lia.
  - intros Ho. assert ((Z.max 1 page - 1) * size = (page - 1) * size)%Z as -> by nia.
    rewrite wrap64_small by lia. apply wrap32_high. lia.
Qed.

(** ** Errors *)

(** Every error of the package but that of a provider is written with its status,
    one of 400 to 500, its kind and message; the status of a provider is passed on, and
    writing one that is not a status, such as the zero of a provider that did not
    answer, panics. *)
Theorem errors_written make msg w :
  make ∈ [AuthenticationError; BudgetExceeded; RateLimitExceeded; GuardrailBlocked; NotFound; ValidationError;
          InternalError; Forbidden; Conflict] →
  Status w = None →
  (∃ w', WriteError (make msg) w = Returns w' ∧ Status w' = Some (StatusCode (make msg)) ∧
         (400 ≤ StatusCode (make msg) ≤ 500)%Z ∧ Body w' = Body w +:+ ErrorResponse (make msg)) ∧
  ∀ code, WriteError (ProviderError msg code) w = Panics ↔ ¬ (100 ≤ code ≤ 999)%Z.
Proof.
  intros Hm Hw. split.
  - assert (400 ≤ StatusCode (make msg) ≤ 500)%Z as Hst
      by (repeat (apply elem_of_cons in Hm as [-> |Hm]; [cbn; lia|]); by apply not_elem_of_nil in Hm).
    unfold WriteError, WriteHeader. rewrite bool_decide_true by lia.
    eexists. split; [done|]. cbn. by rewrite Hw.
  - intros code. unfold WriteError, WriteHeader. cbn [StatusCode ProviderError]. by case_bool_decide.
Qed.

(** ** Event streams *)

Definition newline : ascii := "010"%char.
(** A reader: the lines of the stream, the data so far. *)
Fixpoint read_events (lines : list string) (buf : option string) : list string :=
  match lines with
  | [] => []
  | l :: rest =>
      if bool_decide (l = "") then
        match buf with Some d => d :: read_events rest None | None => read_events rest None end
      else if String.prefix "data: " l then
        let d := trim_prefix "data: " l in
        read_events rest (Some (match buf with None => d | Some b => b +:+ String newline d end))
      else read_events rest buf
  end.
Definition events (stream : string) : list string := read_events (split_on newline stream) None.

Lemma event_frame w ev d : Body (WriteSSEEvent ev d w) = Body w +:+ ("data: " +:+ d +:+ end_of_event).
Proof. unfold WriteSSEEvent, Flush, Write. cbn [Body]. by rewrite !string_app_assoc. Qed.

Definition write_all (ds : list string) (w : ResponseWriter) : ResponseWriter :=
  foldl (λ w d, WriteSSEEvent "" d w) w ds.
Fixpoint frames (ds : list string) : string :=
  match ds with [] => "" | d :: rest => "data: " +:+ d +:+ end_of_event +:+ frames rest end.
Lemma write_all_frames ds w : Body (write_all ds w) = Body w +:+ frames ds.
Proof.
  revert w. induction ds as [|d ds IH]; intros w; cbn [write_all foldl frames]; [by rewrite string_app_empty|].
  change (foldl _ ?w' ds) with (write_all ds w'). rewrite IH, event_frame. by rewrite !string_app_assoc.
Qed.

Lemma events_frame d rest :
  newline ∉ String.list_ascii_of_string d → events ("data: " +:+ d +:+ end_of_event +:+ rest) = d :: events rest.
Proof.
  intros Hd. unfold events, end_of_event.
  change (String "010" (String "010" "") +:+ rest) with (String newline (String newline rest)).
  rewrite <-string_app_assoc. rewrite split_on_app.
  - change (String newline rest) with ("" +:+ String newline rest). rewrite split_on_app by apply not_elem_of_nil.
    cbn [read_events]. rewrite bool_decide_false by done. rewrite prefix_app, trim_prefix_app.
    by rewrite bool_decide_true.
  - rewrite list_ascii_app. intros [Hin|Hin]%elem_of_app; [|done]. revert Hin. apply (bool_decide_unpack _). by vm_compute.
Qed.

(** Events whose data has no line break are read as they were written, in order. *)
Theorem events_roundtrip ds w :
  Forall (λ d, newline ∉ String.list_ascii_of_string d) ds → Body w = "" → events (Body (write_all ds w)) = ds.
Proof.
  intros Hall Hw. rewrite write_all_frames, Hw. change ("" +:+ frames ds) with (frames ds).
  induction Hall as [|d ds Hd _ IH]; [done|]. cbn [frames]. by rewrite events_frame, IH.
Qed.

(** C0: data is written as it is: with an empty line and a field in it, it is byte for
    byte two events; and the data that is the end mark ends the stream. *)
Theorem event_data_splits ev ev' a b w :
  Body (WriteSSEEvent ev (a +:+ end_of_event +:+ "data: " +:+ b) w) = Body (WriteSSEEvent ev' b (WriteSSEEvent ev a w)) ∧
  Body (WriteSSEEvent ev "[DONE]" w) = Body (WriteSSEDone w).
Proof.
  split; [by rewrite !event_frame, !string_app_assoc|]. rewrite event_frame. unfold WriteSSEDone, Flush, Write. cbn [Body].
  done.
Qed.

(** ** Bodies *)

(** A body is decoded exactly when it can be read to its end within the limit, is
    not empty and is JSON of the type; everything else is a validation error. *)
Theorem decode_exact {A} (unmarshal : string → string + A) r :
  match DecodeJSON unmarshal r with
  | inr a => ends_well r = true ∧ (len (req_Body r) ≤ MaxBodySize)%Z ∧ req_Body r ≠ "" ∧ unmarshal (req_Body r) = inr a
  | inl err => StatusCode err = 400%Z ∧ Type_ err = "invalid_request_error" ∧
      (ends_well r = false ∨ (MaxBodySize < len (req_Body r))%Z ∨ req_Body r = "" ∨ ∃ e, unmarshal (req_Body r) = inl e)
  end.
Proof.
  unfold DecodeJSON, read_all. destruct (ends_well r); cbn [andb]; [|by auto].
  case_bool_decide; [|cbn; split_and!; [done|done|right; left; lia]]. case_bool_decide; [cbn; split_and!; [done|done|by auto]|].
  destruct (unmarshal (req_Body r)) as [e|a]; [cbn; split_and!; [done|done|right; right; right; eauto]|by split_and!].
Qed.

(** ** Examples *)

Definition ex_request (query header : list (string * string)) : Request :=
  {| req_Body := "{}"; ends_well := true; req_Header := list_to_map header; RemoteAddr := "10.0.0.9:1";
     Query := list_to_map query |}.
Example negative_offset : Offset (ParsePagination (ex_request [("offset", "2147483648")] [])) = (-2147483648)%Z ∧
  Offset (ParsePage (ex_request [("page", "4294969"); ("page_size", "500")] [])) = (-2147483296)%Z.
Proof. by vm_compute. Qed.
(** The chain of proxies is returned whole, with what the client put first. *)
Example forwarded_chain :
  GetClientIP (ex_request [] [("X-Forwarded-For", "1.2.3.4, 10.0.0.1")]) = "1.2.3.4, 10.0.0.1".
Proof. by vm_compute. Qed.

Definition ex_writer : ResponseWriter := {| Header := ∅; Status := None; Body := ""; Flushed := 0; CanFlush := true |}.
Lemma errors_written_witness :
  (∃ w', WriteError (NotFound "widget") ex_writer = Returns w' ∧ Status w' = Some 404%Z ∧ (400 ≤ 404 ≤ 500)%Z ∧
         Body w' = ErrorResponse (NotFound "widget")) ∧
  ∀ code, WriteError (ProviderError "widget" code) ex_writer = Panics ↔ ¬ (100 ≤ code ≤ 999)%Z.
Proof. apply (errors_written NotFound "widget" ex_writer); [do 4 right; left|done]. Defined.
Lemma events_roundtrip_witness : events (Body (write_all ["a"; "b c"] ex_writer)) = ["a"; "b c"].
Proof. apply events_roundtrip; [|done]. repeat constructor; by apply (bool_decide_unpack _). Defined.
