(* ===== verification/Upload.v ===== *)
(** * Direct uploads (platform/upload)

    service.go: a caller asks for a URL to upload to, and reports when it is done.
    minio-go is the class [Minio] of [Storage] with two operations on buckets; the
    store of the attachments is an interface, the class [UploadStore].

    Theorems: who completes an upload, how often, and what was uploaded. *)

From S2P Require Import Prelude Encoding Storage.

Record Attachment : Type := {
  ID : uuid;
  CompanyID : uuid;
  UploaderID : uuid;
  Filename : string;
  ContentType : string;
  SizeBytes : Z;
  StorageKey : string;
  Status : string;
  CreatedAt : time;
}.
Abbreviation uerr := (goerr Empty_set) (only parsing).
Class UploadStore (St : Type) : Type := {
  CreateAttachment : Attachment → prog St uerr Attachment;
  GetAttachment : uuid → prog St uerr Attachment;
  UpdateAttachmentStatus : uuid → string → prog St uerr Attachment;
}.
Class Buckets (M : Type) : Type := {
  BucketExists : string → prog M string bool;
  MakeBucket : string → prog M string unit;
}.

Definition MaxFileSize : Z := (100 * 1024 * 1024)%Z.
Definition allowedContentTypes : list string :=
  ["image/jpeg"; "image/png"; "image/gif"; "image/webp"; "application/pdf"; "text/plain"; "application/zip";
   "application/msword"; "application/vnd.openxmlformats-officedocument.wordprocessingml.document";
   "application/vnd.ms-excel"; "application/vnd.openxmlformats-officedocument.spreadsheetml.sheet"].

Section upload.
Context {U : UuidText} {M St : Type} {Mi : Minio M} {B : Buckets M} {US : UploadStore St}.

Record Service : Type := { objects : M; rows : St }.
(** A call of minio, whose errors are wrapped. *)
Definition on_objects {A} (msg : string) (m : prog M string A) : prog Service uerr A := λ s,
  match m (objects s) with
  | (Ok a, o) => (Ok a, {| objects := o; rows := rows s |})
  | (Err _, o) => (Err (Wrapf msg (Errorf "minio")), {| objects := o; rows := rows s |})
  end.
Definition on_rows {A} (msg : string) (m : prog St uerr A) : prog Service uerr A :=
  wrapping msg (zoom rows (λ r s, {| objects := objects s; rows := r |}) m).

Definition NewService (bucket : string) : prog Service uerr unit :=
  found ← on_objects "check bucket" (BucketExists bucket);
  if found : bool then mret tt else on_objects "create bucket" (MakeBucket bucket).

Definition upload_key (e : Env) (companyID : uuid) (filename : string) : string :=
  "uploads/" +:+ uuid_String companyID +:+ "/" +:+ uuid_String (new_id e 0) +:+ "/" +:+ filename.
Definition RequestUploadURL (bucket : string) (e : Env) (companyID uploaderID : uuid) (filename contentType : string)
    (sizeBytes : Z) : prog Service uerr (string * string) :=
  if bool_decide (sizeBytes ≤ 0)%Z || bool_decide (MaxFileSize < sizeBytes)%Z
  then throw (Errorf "file size must be between 1 byte and the maximum")
  else if negb (bool_decide (contentType ∈ allowedContentTypes)) then throw (Errorf "content type is not allowed")
  else
    let key := upload_key e companyID filename in
    a ← on_rows "create attachment" (CreateAttachment
          {| ID := new_id e 1; CompanyID := companyID; UploaderID := uploaderID; Filename := filename;
             ContentType := contentType; SizeBytes := sizeBytes; StorageKey := key; Status := "pending"; CreatedAt := 0 |});
    url ← on_objects "generate presigned URL" (PresignedPutObject e bucket key (5 * Minute)%Z);
    mret (url, uuid_String (ID a)).

Definition CompleteUpload (bucket : string) (e : Env) (attachmentID uploaderID : uuid) :
    prog Service uerr (Attachment * string) :=
  a ← on_rows "get attachment" (GetAttachment attachmentID);
  _ ← reject_if (negb (bool_decide (UploaderID a = uploaderID))) (Errorf "unauthorized: uploader mismatch");
  _ ← reject_if (negb (bool_decide (Status a = "pending"))) (Errorf "attachment is not pending");
  _ ← on_objects "object not found" (StatObject bucket (StorageKey a));
  updated ← on_rows "update status" (UpdateAttachmentStatus attachmentID "complete");
  url ← try (on_objects "" (PresignedGetObject e bucket (StorageKey a) Hour));
  mret (updated, match url with Ok u => u | Err _ => "" end).

Definition GetDownloadURL (bucket : string) (e : Env) (storageKey : string) : prog Service uerr string :=
  on_objects "generate download URL" (PresignedGetObject e bucket storageKey Hour).
End upload.

Section upload.
Context {U : UuidText} {M St : Type} {Mi : Minio M} {B : Buckets M} {US : UploadStore St}.
Implicit Types (s : @Service M St) (a : Attachment).

(** What the store promises: a read changes nothing, and an update of the status is
    what is read afterwards, of the same uploader and under the same key. *)
Record store_laws : Prop := {
  sl_get : ∀ id r o r', GetAttachment id r = (o, r') → r' = r;
  sl_update : ∀ id st r a r', UpdateAttachmentStatus id st r = (Ok a, r') →
    (GetAttachment id r').1 = Ok a ∧ Status a = st ∧
    ∀ b, (GetAttachment id r).1 = Ok b → UploaderID a = UploaderID b ∧ StorageKey a = StorageKey b;
}.

(** The steps of a completion. *)
Lemma CompleteUpload_inv bucket e id who s r s' :
  store_laws → CompleteUpload bucket e id who s = (Ok r, s') →
  ∃ a o1 st a' r', (GetAttachment id (rows s)).1 = Ok a ∧ UploaderID a = who ∧ Status a = "pending" ∧
    StatObject bucket (StorageKey a) (objects s) = (Ok st, o1) ∧
    UpdateAttachmentStatus id "complete" (rows s) = (Ok a', r') ∧ rows s' = r' ∧ r.1 = a'.
Proof.
  intros Hl. unfold CompleteUpload, on_rows, on_objects, wrapping, zoom, reject_if, try. cbv [mbind prog_bind mret prog_ret throw].
  destruct (GetAttachment id (rows s)) as [[a|err] r1] eqn:Hg; [|done]. pose proof (sl_get Hl _ _ _ _ Hg) as ->.
  case_bool_decide as Hu; cbn [negb]; [|done]. case_bool_decide as Hp; cbn [negb]; [|done]. cbn [objects rows].
  destruct (StatObject bucket (StorageKey a) (objects s)) as [[st|err] o1] eqn:Hs; [|done]. cbn [objects rows].
  destruct (UpdateAttachmentStatus id "complete" (rows s)) as [[a'|err] r'] eqn:Hup; [|done]. cbn [objects rows].
  destruct (PresignedGetObject e bucket (StorageKey a) Hour o1) as [[url|err] o2]; intros [= <- <-];
    exists a, o1, st, a', r'; done.
Qed.

(** An upload is completed only by its uploader, while it is pending and an object
    is there; once it is completed, nobody completes it again. *)
Theorem upload_completes_once bucket e id who s r s' :
  store_laws → CompleteUpload bucket e id who s = (Ok r, s') →
  (∃ a st, (GetAttachment id (rows s)).1 = Ok a ∧ UploaderID a = who ∧ Status a = "pending" ∧
           (StatObject bucket (StorageKey a) (objects s)).1 = Ok st) ∧ Status r.1 = "complete" ∧
  ∀ e2 who2, is_Ok (CompleteUpload bucket e2 id who2 s').1 = false.
Proof.
  intros Hl Hok. destruct (CompleteUpload_inv _ _ _ _ _ _ _ Hl Hok) as (a & o1 & st & a' & r' & Ha & Hu & Hp & Hst & Hup & Hr & Hr1).
  destruct (sl_update Hl _ _ _ _ _ Hup) as (Hget & Hstat & _). split; [|split].
  - exists a, st. by rewrite Hst.
  - by rewrite Hr1.
  - intros e2 who2. destruct (CompleteUpload bucket e2 id who2 s') as [[r2|err] s2] eqn:H2; [exfalso|done].
    destruct (CompleteUpload_inv _ _ _ _ _ _ _ Hl H2) as (a2 & _ & _ & _ & _ & Ha2 & _ & Hp2 & _).
    rewrite Hr, Hget in Ha2. injection Ha2 as <-. by rewrite Hstat in Hp2.
Qed.

(** The object is only asked for, not looked at: a pending upload is completed
    whatever the size and type of what was stored, and the record keeps those that
    were declared. *)
Theorem completion_ignores_object bucket e id a s st o1 a' r' :
  store_laws → (GetAttachment id (rows s)).1 = Ok a → Status a = "pending" →
  StatObject bucket (StorageKey a) (objects s) = (Ok st, o1) →
  UpdateAttachmentStatus id "complete" (rows s) = (Ok a', r') →
  ∃ url s', CompleteUpload bucket e id (UploaderID a) s = (Ok (a', url), s') ∧ rows s' = r'.
Proof.
  intros Hl Hget Hp Hst Hup. unfold CompleteUpload, on_rows, on_objects, wrapping, zoom, reject_if, try.
  cbv [mbind prog_bind mret prog_ret throw]. destruct (GetAttachment id (rows s)) as [o r1] eqn:Hg.
  pose proof (sl_get Hl _ _ _ _ Hg) as ->. cbn in Hget. subst o. rewrite bool_decide_true by done. cbn [negb].
  rewrite bool_decide_true by done. cbn [negb objects rows]. rewrite Hst. cbn [objects rows]. rewrite Hup. cbn [objects rows].
  destruct (PresignedGetObject e bucket (StorageKey a) Hour o1) as [[url|err] o2]; eexists _, _; done.
Qed.
End upload.

(** ** A store and a bucket in memory *)

#[local] Instance mem_rows : UploadStore (gmap uuid Attachment) := {|
  CreateAttachment := λ a m, (Ok a, <[ID a := a]> m);
  GetAttachment := λ id m, (match m !! id with Some a => Ok a | None => Err (Errorf "not found") end, m);
  UpdateAttachmentStatus := λ id st m,
    match m !! id with
    | None => (Err (Errorf "not found"), m)
    | Some a =>
        let a := {| ID := ID a; CompanyID := CompanyID a; UploaderID := UploaderID a; Filename := Filename a;
                    ContentType := ContentType a; SizeBytes := SizeBytes a; StorageKey := StorageKey a; Status := st;
                    CreatedAt := CreatedAt a |} in (Ok a, <[id := a]> m)
    end |}.
Lemma mem_rows_laws : store_laws (US := mem_rows).
Proof.
  split.
  - by intros id r o r' [= _ <-].
  - intros id st r a r'. cbn. destruct (r !! id) as [b|] eqn:Hb; [|done]. intros [= <- <-].
    rewrite lookup_insert_eq. split_and!; [done|done|]. by intros b' [= <-].
Qed.
(** Objects by their keys: only their sizes. *)
#[local] Instance mem_objects : Minio (gmap string Z) := {|
  PutObject := λ _ k _ n _ _ m, (Ok (n, ""), <[k := n]> m);
  GetObject := λ _ k m, (Err "", m);
  StatObject := λ _ k m, (match m !! k with
    | Some n => Ok {| ms_ContentType := "application/x-executable"; ms_Size := n; ms_ETag := ""; ms_UserMetadata := ∅;
                      ms_LastModified := 0 |}
    | None => Err "NoSuchKey" end, m);
  RemoveObject := λ _ k m, (Ok tt, delete k m);
  PresignedPutObject := λ _ b k _ m, (Ok ("put " +:+ k), m);
  PresignedGetObject := λ _ b k _ m, (Ok ("get " +:+ k), m) |}.

Definition ex_row (status : string) : Attachment :=
  {| ID := 7; CompanyID := 1; UploaderID := 2; Filename := "a.png"; ContentType := "image/png"; SizeBytes := 10;
     StorageKey := "k"; Status := status; CreatedAt := 0 |}.
(** Ten bytes were declared, a terabyte was stored. *)
Definition ex_service (status : string) : @Service (gmap string Z) (gmap uuid Attachment) :=
  {| objects := {["k" := (2 ^ 40)%Z]}; rows := {[7%N := ex_row status]} |}.
Definition ex_env : Env := {| now := 0%Z; new_id := λ n, N.of_nat n; order := canonical_range |}.

Lemma upload_completes_once_witness :
  (∃ a st, (GetAttachment 7%N (rows (ex_service "pending"))).1 = Ok a ∧ UploaderID a = 2%N ∧ Status a = "pending" ∧
           (StatObject "b" (StorageKey a) (objects (ex_service "pending"))).1 = Ok st) ∧ "complete" = "complete" ∧
  ∀ e2 who2, is_Ok (CompleteUpload "b" e2 7%N who2 (ex_service "complete")).1 = false.
Proof.
  apply (upload_completes_once "b" ex_env 7%N 2%N (ex_service "pending") (ex_row "complete", "get k") (ex_service "complete"));
    [exact mem_rows_laws|by vm_compute].
Defined.
Lemma completion_ignores_object_witness :
  ∃ url s', CompleteUpload "b" ex_env 7%N 2%N (ex_service "pending") = (Ok (ex_row "complete", url), s') ∧
    rows s' = {[7%N := ex_row "complete"]}.
Proof.
  eapply (completion_ignores_object "b" ex_env 7%N (ex_row "pending") (ex_service "pending"));
    [exact mem_rows_laws|done|done|done|by vm_compute].
Defined.
