(* ===== verification/Spiffe.v ===== *)
(** * SPIFFE identifiers (platform/spiffe)

    id.go: trust domains, identifiers and their text; svid.go: the template of a leaf
    certificate.  What the code uses of net/url is defined here, with the percent
    encoding of paths, hosts and fragments.

    Theorems: which trust domains and identifiers are accepted, and what is read
    back from the text of an identifier. *)

From S2P Require Import Prelude Encoding Password.

(** ** net/url *)

(** [shouldEscape] for a path: [reserved] are those that stay as they are. *)
Definition path_plain (a : ascii) : bool :=
  unreserved a || bool_decide (a ∈ ["$"; "&"; "+"; ","; "/"; ":"; ";"; "="; "@"]%char).
Fixpoint escape_path (l : list ascii) : list ascii :=
  match l with
  | [] => []
  | a :: rest =>
      if path_plain a then a :: escape_path rest
      else "%"%char :: upper_hex_digit (byte_of a / 16)%N :: upper_hex_digit (byte_of a mod 16)%N :: escape_path rest
  end.
(** [unescape] where any byte may be encoded: in a path, a fragment, a user. *)
Fixpoint unescape (l : list ascii) : option (list ascii) :=
  match l with
  | [] => Some []
  | a :: rest =>
      if bool_decide (a = "%"%char) then
        match rest with
        | b :: c :: rest' => x ← hex_byte b c; r ← unescape rest'; Some (x :: r)
        | _ => None
        end
      else r ← unescape rest; Some (a :: r)
  end.
(** [unescape] of a host: only bytes above ASCII may be encoded, and no other byte may
    stand there that would need it.  The zone of an IPv6 address, which no trust domain
    has, is read like the rest of the host. *)
Definition host_plain (a : ascii) : bool :=
  unreserved a || bool_decide (128 ≤ byte_of a)%N
  || bool_decide (a ∈ ["!"; "$"; "&"; "'"; "("; ")"; "*"; "+"; ","; ";"; "="; ":"; "["; "]"; "<"; ">"; "034"]%char).
Fixpoint unescape_host (l : list ascii) : option (list ascii) :=
  match l with
  | [] => Some []
  | a :: rest =>
      if bool_decide (a = "%"%char) then
        match rest with
        | b :: c :: rest' =>
            x ← hex_byte b c;
            if bool_decide (byte_of x < 128)%N && negb (bool_decide (x = "%"%char)) then None
            else r ← unescape_host rest'; Some (x :: r)
        | _ => None
        end
      else if host_plain a then r ← unescape_host rest; Some (a :: r) else None
  end.

Record URL : Type := {
  Scheme : string;
  Opaque : string;
  User : bool;
  Host : string;
  Path : string;
  RawPath : string;
  ForceQuery : bool;
  RawQuery : string;
  Fragment : string;
}.

Definition letter (a : ascii) : bool := within_ 65 90 (byte_of a) || within_ 97 122 (byte_of a).
(** [getScheme]: what comes before the colon, and the rest. *)
Fixpoint scheme_loop (acc : list ascii) (l : list ascii) (full : list ascii) : option (list ascii * list ascii) :=
  match l with
  | [] => Some ([], full)
  | a :: rest =>
      if letter a then scheme_loop (acc ++ [a]) rest full
      else if is_digit_byte a || bool_decide (a ∈ ["+"; "-"; "."]%char) then
        if bool_decide (acc = []) then Some ([], full) else scheme_loop (acc ++ [a]) rest full
      else if bool_decide (a = ":"%char) then if bool_decide (acc = []) then None else Some (acc, rest)
      else Some ([], full)
  end.
(** The text before the first [c], and what follows it. *)
Fixpoint cut (c : ascii) (l : list ascii) : list ascii * option (list ascii) :=
  match l with
  | [] => ([], None)
  | a :: rest => if bool_decide (a = c) then ([], Some rest) else let '(x, y) := cut c rest in (a :: x, y)
  end.
(** The text before the last [c], if there is one, and what follows it. *)
Fixpoint cut_last (c : ascii) (l : list ascii) : option (list ascii) * list ascii :=
  match l with
  | [] => (None, [])
  | a :: rest =>
      match cut_last c rest with
      | (Some x, y) => (Some (a :: x), y)
      | (None, y) => if bool_decide (a = c) then (Some [], y) else (None, a :: y)
      end
  end.
(** An optional port: empty, or a colon and digits. *)
Definition validOptionalPort (l : list ascii) : bool :=
  match l with [] => true | a :: rest => bool_decide (a = ":"%char) && forallb is_digit_byte rest end.
Definition parseHost (l : list ascii) : option (list ascii) :=
  match l with
  | "["%char :: _ =>
      match cut_last "]" l with
      | (None, _) => None
      | (Some _, port) => if validOptionalPort port then unescape_host l else None
      end
  | _ =>
      match cut_last ":" l with
      | (Some _, port) => if forallb is_digit_byte port then unescape_host l else None
      | (None, _) => unescape_host l
      end
  end.
Definition user_char (a : ascii) : bool :=
  letter a || is_digit_byte a
  || bool_decide (a ∈ ["-"; "."; "_"; ":"; "~"; "!"; "$"; "&"; "'"; "("; ")"; "*"; "+"; ","; ";"; "="; "%"; "@"]%char).
(** The user, of which it only matters that there is one, and the host. *)
Definition parseAuthority (l : list ascii) : option (bool * list ascii) :=
  match cut_last "@" l with
  | (None, host) => h ← parseHost host; Some (false, h)
  | (Some userinfo, host) =>
      h ← parseHost host;
      if negb (forallb user_char userinfo) then None
      else let '(name, password) := cut ":" userinfo in
           _ ← unescape name; _ ← unescape (default [] password); Some (true, h)
  end.
Definition has_ctl (l : list ascii) : bool := any (λ a, bool_decide (byte_of a < 32)%N || bool_decide (byte_of a = 127)%N) l.
Definition starts (p : list ascii) (l : list ascii) : bool := bool_decide (take (length p) l = p).
Abbreviation chars := String.list_ascii_of_string (only parsing).
Abbreviation unchars := String.string_of_list_ascii (only parsing).

(** The query of what follows the scheme: a question mark that ends the text and is the
    only one is kept apart. *)
Definition split_query (l : list ascii) : list ascii * bool * list ascii :=
  match cut "?" l with
  | (rest, Some []) => (rest, true, [])
  | (rest, q) => (rest, false, default [] q)
  end.
(** [setPath]: the escaped form is kept where it is not the default one. *)
Definition with_path (scheme : string) (user : bool) (host p : list ascii) (force : bool) (query : list ascii) :
    option URL :=
  path ← unescape p;
  Some {| Scheme := scheme; Opaque := ""; User := user; Host := unchars host; Path := unchars path;
          RawPath := if bool_decide (escape_path path = p) then "" else unchars p;
          ForceQuery := force; RawQuery := unchars query; Fragment := "" |}.
Definition parse (l : list ascii) : option URL :=
  if has_ctl l || bool_decide (l = []) then
    if has_ctl l then None
    else Some {| Scheme := ""; Opaque := ""; User := false; Host := ""; Path := ""; RawPath := ""; ForceQuery := false;
                 RawQuery := ""; Fragment := "" |}
  else if bool_decide (l = ["*"]%char) then
    Some {| Scheme := ""; Opaque := ""; User := false; Host := ""; Path := "*"; RawPath := ""; ForceQuery := false;
            RawQuery := ""; Fragment := "" |}
  else
    '(scheme, rest) ← scheme_loop [] l l;
    let scheme := unchars (lower_ascii <$> scheme) in
    let '(rest, force, query) := split_query rest in
    if negb (starts ["/"]%char rest) && negb (bool_decide (scheme = "")) then
      Some {| Scheme := scheme; Opaque := unchars rest; User := false; Host := ""; Path := ""; RawPath := "";
              ForceQuery := force; RawQuery := unchars query; Fragment := "" |}
    else if negb (starts ["/"]%char rest) && bool_decide (":"%char ∈ fst (cut "/" rest)) then None
    else if starts ["/"; "/"]%char rest && (negb (bool_decide (scheme = "")) || negb (starts ["/"; "/"; "/"]%char rest)) then
      let '(authority, path) := cut "/" (drop 2 rest) in
      '(user, host) ← parseAuthority authority;
      with_path scheme user host (match path with Some p => "/"%char :: p | None => [] end) force query
    else with_path scheme false [] rest force query.
(** [url.Parse]. *)
Definition url_Parse (s : string) : option URL :=
  let '(l, frag) := cut "#" (chars s) in
  u ← parse l;
  match default [] frag with
  | [] => Some u
  | f => f ← unescape f;
         Some {| Scheme := Scheme u; Opaque := Opaque u; User := User u; Host := Host u; Path := Path u;
                 RawPath := RawPath u; ForceQuery := ForceQuery u; RawQuery := RawQuery u; Fragment := unchars f |}
  end.

(** ** id.go *)

Inductive spiffe_error : Type := ErrInvalidID | ErrInvalidTrustDomain | ErrInvalidPath.
#[export] Instance spiffe_error_eq_dec : EqDecision spiffe_error.
Proof. solve_decision. Defined.

Definition domain_byte (a : ascii) : bool :=
  within_ 97 122 (byte_of a) || is_digit_byte a || bool_decide (a = "."%char) || bool_decide (a = "-"%char).
Definition bad_label (label : string) : bool :=
  bool_decide (label = "") || String.prefix "-" label || has_suffix "-" label.

Section spiffe.
Context {C : UnicodeCase}.

Abbreviation TrustDomain := string (only parsing).
(** The runes of the loop are bytes: any other is refused with its first one. *)
Definition NewTrustDomain (s : string) : outcome spiffe_error TrustDomain :=
  if bool_decide (s = "") || bool_decide (255 < String.length s)%nat then Err ErrInvalidTrustDomain
  else if negb (bool_decide (s = ToLower s)) then Err ErrInvalidTrustDomain
  else if String.prefix "." s || has_suffix "." s then Err ErrInvalidTrustDomain
  else if strings_Contains s ".." then Err ErrInvalidTrustDomain
  else if negb (forallb domain_byte (chars s)) then Err ErrInvalidTrustDomain
  else if any bad_label (split_on "." s) then Err ErrInvalidTrustDomain
  else Ok s.

Record SPIFFEID : Type := { id_TrustDomain : TrustDomain; id_Path : string }.
Definition maxPathLen : nat := 2048.
Definition containsFold (haystack needle : string) : bool := strings_Contains (ToLower haystack) (ToLower needle).
Definition NUL : string := String "000" "".
Definition validatePath (p : string) : bool :=
  if bool_decide (p = "") || negb (String.prefix "/" p) then false
  else if bool_decide (maxPathLen < String.length p)%nat then false
  else if has_suffix "/" p then false
  else if strings_Contains p "//" then false
  else if strings_Contains p ".." then false
  else if strings_Contains p NUL then false
  else negb (containsFold p "%00").

Definition ParseID (s : string) : outcome spiffe_error SPIFFEID :=
  match url_Parse s with
  | None => Err ErrInvalidID
  | Some u =>
      if negb (bool_decide (Scheme u = "spiffe")) then Err ErrInvalidID
      else if User u then Err ErrInvalidID
      else if negb (bool_decide (Opaque u = "")) then Err ErrInvalidID
      else if bool_decide (Host u = "") then Err ErrInvalidTrustDomain
      else match NewTrustDomain (Host u) with
           | Err err => Err err
           | Ok td =>
               if negb (bool_decide (RawQuery u = "")) || ForceQuery u then Err ErrInvalidPath
               else if negb (bool_decide (Fragment u = "")) then Err ErrInvalidPath
               else
                 let p := if bool_decide (RawPath u = "") then Path u else RawPath u in
                 if negb (validatePath p) then Err ErrInvalidPath
                 else Ok {| id_TrustDomain := td; id_Path := Path u |}
           end
  end.

Definition BuildSPIFFEID (td : TrustDomain) (path : string) : outcome spiffe_error SPIFFEID :=
  match NewTrustDomain td with
  | Err err => Err err
  | Ok _ => if negb (validatePath path) then Err ErrInvalidPath else Ok {| id_TrustDomain := td; id_Path := path |}
  end.

Definition id_URL (id : SPIFFEID) : URL :=
  {| Scheme := "spiffe"; Opaque := ""; User := false; Host := id_TrustDomain id; Path := id_Path id; RawPath := "";
     ForceQuery := false; RawQuery := ""; Fragment := "" |}.
(** [u.String()] of such a URL: its host has no byte that would be escaped, and a path
    without its slash gets one. *)
Definition id_String (id : SPIFFEID) : string :=
  let p := escape_path (chars (id_Path id)) in
  let p := match p with [] => [] | _ => if starts ["/"]%char p then p else "/"%char :: p end in
  "spiffe://" +:+ id_TrustDomain id +:+ unchars p.

(** ** svid.go *)

Definition MaxSVIDTTL : duration := (24 * Hour)%Z.
Definition DefaultSVIDTTL : duration := Hour.
(** [x509.Certificate], as far as the template sets it. *)
Record Certificate : Type := {
  Subject : string;
  URIs : list URL;
  DNSNames : list string;
  EmailAddresses : list string;
  IPAddresses : list string;
  NotBefore : time;
  NotAfter : time;
  KeyUsage : list string;
  ExtKeyUsage : list string;
  IsCA : bool;
  BasicConstraintsValid : bool;
}.
Definition LeafTemplateSVID (id : SPIFFEID) (notBefore notAfter : time) : Certificate :=
  {| Subject := ""; URIs := [id_URL id]; DNSNames := []; EmailAddresses := []; IPAddresses := []; NotBefore := notBefore;
     NotAfter := notAfter; KeyUsage := ["DigitalSignature"]; ExtKeyUsage := ["ClientAuth"; "ServerAuth"]; IsCA := false;
     BasicConstraintsValid := true |}.
End spiffe.

(** ** Trust domains *)

Lemma split_on_app_all c p q : split_on c (p +:+ String c q) = split_on c p ++ split_on c q.
Proof.
  induction p as [|a p IH]; [change ("" +:+ String c q) with (String c q); cbn [split_on]; by rewrite bool_decide_true|].
  change (String a p +:+ String c q) with (String a (p +:+ String c q)). cbn [split_on].
  case_bool_decide; [by rewrite IH|]. rewrite IH. destruct (split_on_cons c p) as (x & xs & ->). done.
Qed.
Lemma decode_ascii l : Forall (λ b, (b < 128)%N) l → decode l = l.
Proof.
  induction 1 as [|b l Hb _ IH]; [done|]. cbn [decode].
  assert (within_ 0 127 b = true) as -> by (unfold within_; rewrite !bool_decide_true by lia; done). by rewrite IH.
Qed.
Lemma encode_ascii l : Forall (λ b, (b < 128)%N) l → encode l = String.string_of_list_ascii (ascii_of_N <$> l).
Proof.
  intros Hl. unfold encode. f_equal. induction Hl as [|b l Hb _ IH]; [done|]. cbn. rewrite IH.
  unfold encode_rune. by rewrite bool_decide_true.
Qed.

Section domains.
Context {C : UnicodeCase}.

Definition is_ascii (s : string) : bool := forallb (λ a, bool_decide (byte_of a < 128)%N) (String.list_ascii_of_string s).
Lemma ToLower_ascii s :
  is_ascii s = true → ToLower s = String.string_of_list_ascii (lower_ascii <$> String.list_ascii_of_string s).
Proof.
  unfold is_ascii. intros Hs. rewrite forallb_forall in Hs. set (l := String.list_ascii_of_string s) in *.
  assert (Forall (λ a, (byte_of a < 128)%N) l) as Hl.
  { apply Forall_forall. intros a Ha. specialize (Hs a (proj1 (list_elem_of_In _ _) Ha)). by apply bool_decide_eq_true in Hs. }
  clear Hs. unfold ToLower, runes. fold l. rewrite decode_ascii by (by apply Forall_fmap).
  assert (lower_rune <$> (N_of_ascii <$> l) = N_of_ascii <$> (lower_ascii <$> l)) as ->.
  { induction Hl as [|a l Ha _ IH]; [done|]. cbn [fmap list_fmap]. rewrite IH. f_equal.
    rewrite lower_rune_ascii by done. revert Ha. clear. each_byte a; vm_compute; done. }
  rewrite encode_ascii.
  - f_equal. rewrite <-list_fmap_compose. rewrite <-(list_fmap_id (lower_ascii <$> l)) at 2.
    apply list_fmap_ext. intros _ a _. apply Ascii.ascii_N_embedding.
  - apply Forall_fmap, Forall_fmap. eapply Forall_impl; [exact Hl|]. intros a Ha. revert Ha. clear. cbn. each_byte a; vm_compute; done.
Qed.
Lemma ToLower_plain s : forallb domain_byte (String.list_ascii_of_string s) = true → ToLower s = s.
Proof.
  intros Hs. rewrite forallb_forall in Hs.
  assert (∀ a, In a (String.list_ascii_of_string s) → bool_decide (byte_of a < 128)%N = true ∧ lower_ascii a = a) as Ha.
  { intros a Ha. specialize (Hs a Ha). revert Hs. clear. each_byte a; vm_compute; intros H; (discriminate H || done). }
  rewrite ToLower_ascii by (apply forallb_forall; intros a Hin; by destruct (Ha a Hin)).
  rewrite <-(String.string_of_list_ascii_of_string s) at 2. f_equal.
  induction (String.list_ascii_of_string s) as [|a l IH]; [done|]. cbn [fmap list_fmap].
  rewrite IH by (intros; (apply Hs || apply Ha); by right). f_equal. apply Ha. by left.
Qed.

(** A label of a host name: letters, digits and inner hyphens. *)
Definition label_byte (a : ascii) : bool := within_ 97 122 (byte_of a) || is_digit_byte a || bool_decide (a = "-"%char).
Definition label_ok (l : string) : Prop :=
  l ≠ "" ∧ forallb label_byte (String.list_ascii_of_string l) = true ∧ String.prefix "-" l = false ∧ has_suffix "-" l = false.

Lemma domain_bytes_labels s :
  forallb domain_byte (String.list_ascii_of_string s) = true ↔
  Forall (λ l, forallb label_byte (String.list_ascii_of_string l) = true) (split_on "." s).
Proof.
  induction s as [|a s IH]; cbn [String.list_ascii_of_string split_on forallb]; [by split; [intros; repeat constructor|]|].
  rewrite andb_true_iff, IH. case_bool_decide as Ha.
  - subst a. rewrite Forall_cons. cbn. tauto.
  - destruct (split_on_cons "." s) as (x & xs & ->). rewrite !Forall_cons. cbn [String.list_ascii_of_string forallb].
    rewrite andb_true_iff. assert (domain_byte a = label_byte a) as ->; [|tauto].
    unfold domain_byte, label_byte. rewrite (bool_decide_false (a = "."%char)) by done. by rewrite orb_false_r.
Qed.

(** A trust domain is accepted exactly when it has at most 255 bytes and its parts
    between the dots are all labels: not empty, of lower-case letters, digits and
    hyphens, with no hyphen at either end. *)
Theorem trust_domain_exact s td :
  NewTrustDomain s = Ok td ↔ td = s ∧ (String.length s ≤ 255)%nat ∧ Forall label_ok (split_on "." s).
Proof.
  unfold NewTrustDomain. split.
  - destruct (_ || _) eqn:H1; [done|]. apply orb_false_iff in H1 as [_ Hlen%bool_decide_eq_false].
    case_bool_decide; [|done]. cbn [negb]. destruct (_ || _); [done|]. destruct (strings_Contains s ".."); [done|].
    destruct (forallb _ _) eqn:Hb; [|done]. cbn [negb]. destruct (any bad_label _) eqn:Hl; [done|]. intros [= <-].
    split; [done|]. split; [lia|]. apply domain_bytes_labels in Hb. rewrite any_false in Hl.
    rewrite Forall_forall in Hb |- *. intros l Hin. specialize (Hl l Hin). unfold bad_label in Hl.
    rewrite !orb_false_iff, bool_decide_eq_false in Hl. split_and!; [tauto|by apply Hb|tauto|tauto].
  - intros (-> & Hlen & Hl). rewrite Forall_forall in Hl.
    assert ("" ∉ split_on "." s) as Hne by (intros Hin; by destruct (Hl "" Hin)).
    assert (forallb domain_byte (String.list_ascii_of_string s) = true) as Hb.
    { apply domain_bytes_labels, Forall_forall. intros l Hin. by destruct (Hl l Hin) as (_ & ? & _). }
    rewrite (bool_decide_false (s = "")), (bool_decide_false (255 < _)%nat) by (try lia; intros ->; apply Hne; by left).
    rewrite ToLower_plain, bool_decide_true by done. cbn [orb negb].
    destruct (String.prefix "." s) eqn:Hp.
    { apply prefix_inv in Hp. exfalso. apply Hne. rewrite Hp. left. }
    destruct (has_suffix "." s) eqn:Hsuf.
    { apply has_suffix_inv in Hsuf. exfalso. apply Hne. rewrite Hsuf, (split_on_app_all "." _ ""). apply elem_of_app. right. left. }
    cbn [orb]. destruct (strings_Contains s "..") eqn:Hc.
    { apply strings_Contains_iff in Hc as (p & q & ->). exfalso. apply Hne.
      change (".." +:+ q) with (String "." (String "." q)). rewrite split_on_app_all. apply elem_of_app. right. left. }
    rewrite Hb. cbn [negb]. assert (any bad_label (split_on "." s) = false) as ->; [|done].
    apply any_false. intros l (H1 & _ & H2 & H3)%Hl. unfold bad_label. by rewrite bool_decide_false, H2, H3.
Qed.
End domains.

(** ** Identifiers as texts *)

Lemma url_cut_none c l : c ∉ l → cut c l = (l, None).
Proof.
  induction l as [|a l IH]; [done|]. intros [Ha Hl]%not_elem_of_cons. cbn. rewrite bool_decide_false by congruence.
  by rewrite IH.
Qed.
Lemma url_cut_app c p q : c ∉ p → cut c (p ++ c :: q) = (p, Some q).
Proof.
  induction p as [|a p IH]; cbn [cut app]; [by rewrite bool_decide_true|]. intros [Ha Hl]%not_elem_of_cons.
  rewrite bool_decide_false by congruence. by rewrite IH.
Qed.
Lemma cut_last_none c l : c ∉ l → cut_last c l = (None, l).
Proof.
  induction l as [|a l IH]; [done|]. intros [Ha Hl]%not_elem_of_cons. cbn. rewrite IH by done.
  by rewrite bool_decide_false by congruence.
Qed.

Definition ctl (a : ascii) : bool := bool_decide (byte_of a < 32)%N || bool_decide (byte_of a = 127)%N.
(** A byte of a path as it stands in a URL. *)
Definition url_byte (a : ascii) : bool := negb (ctl a) && negb (bool_decide (a = "#"%char)) && negb (bool_decide (a = "?"%char)).

Lemma domain_byte_plain a :
  domain_byte a = true → url_byte a = true ∧ host_plain a = true ∧ a ≠ "%"%char ∧ a ≠ "/"%char ∧ a ≠ "@"%char ∧ a ≠ ":"%char.
Proof. each_byte a; vm_compute; intros H; (discriminate H || by split_and!). Qed.
Lemma url_bytes l c : forallb url_byte l = true → c ∈ ["#"; "?"]%char → c ∉ l.
Proof.
  intros Hl Hc Hin. rewrite forallb_forall in Hl. specialize (Hl c (proj1 (list_elem_of_In _ _) Hin)).
  revert Hl. by apply elem_of_cons in Hc as [-> | ->%list_elem_of_singleton].
Qed.

Lemma unescape_host_plain l : forallb domain_byte l = true → unescape_host l = Some l.
Proof.
  induction l as [|a l IH]; [done|]. intros [Ha Hl]%andb_true_iff. cbn [unescape_host].
  destruct (domain_byte_plain a Ha) as (_ & Hh & Hp & _). by rewrite bool_decide_false, Hh, IH by done.
Qed.
Lemma domain_bytes_without l c : forallb domain_byte l = true → c ∈ ["/"; "@"; ":"]%char → c ∉ l.
Proof.
  intros Hl Hc Hin. rewrite forallb_forall in Hl. specialize (Hl c (proj1 (list_elem_of_In _ _) Hin)).
  destruct (domain_byte_plain c Hl) as (_ & _ & _ & H1 & H2 & H3).
  repeat (apply elem_of_cons in Hc as [-> |Hc]; [done|]). by apply not_elem_of_nil in Hc.
Qed.
Lemma parseHost_plain l : forallb domain_byte l = true → parseHost l = Some l.
Proof.
  intros Hl. assert (parseHost l = match cut_last ":" l with
    | (Some _, port) => if forallb is_digit_byte port then unescape_host l else None
    | (None, _) => unescape_host l end) as ->.
  { destruct l as [|a l]; [done|]. apply andb_true_iff in Hl as [Ha _]. revert Ha. clear. unfold parseHost.
    each_byte a; vm_compute (domain_byte _); intros H; (discriminate H || done). }
  rewrite cut_last_none by (apply domain_bytes_without; [done|do 2 right; left]). by apply unescape_host_plain.
Qed.

(** What [url.Parse] makes of a host and a path, both as they stand. *)
Lemma url_Parse_spiffe td p :
  forallb domain_byte (String.list_ascii_of_string td) = true → forallb url_byte ("/"%char :: p) = true →
  url_Parse ("spiffe://" +:+ td +:+ String.string_of_list_ascii ("/"%char :: p)) =
  with_path "spiffe" false (String.list_ascii_of_string td) ("/"%char :: p) false [].
Proof.
  set (h := String.list_ascii_of_string td). set (q := "/"%char :: p). intros Hh Hp.
  assert (forallb url_byte h = true) as Hhu.
  { apply forallb_forall. intros a Ha. rewrite forallb_forall in Hh. by apply domain_byte_plain, Hh. }
  set (l := ["s"; "p"; "i"; "f"; "f"; "e"; ":"; "/"; "/"]%char ++ h ++ q).
  assert (String.list_ascii_of_string ("spiffe://" +:+ td +:+ String.string_of_list_ascii q) = l) as Hl.
  { rewrite !list_ascii_app, String.list_ascii_of_string_of_list_ascii. done. }
  assert (forallb url_byte (["/"; "/"]%char ++ h ++ q) = true) as Hrest by (rewrite !forallb_app, Hhu, Hp; done).
  assert (forallb url_byte l = true) as Hlu by (unfold l; rewrite !forallb_app, Hhu, Hp; done).
  unfold url_Parse. rewrite Hl, url_cut_none by (apply url_bytes; [done|left]). cbn [default].
  assert (parse l = with_path "spiffe" false h q false []) as ->; [|by destruct (with_path _ _ _ _ _ _)].
  unfold parse. assert (has_ctl l = false) as ->.
  { apply any_false. intros a Ha. rewrite forallb_forall in Hlu. specialize (Hlu a (proj1 (list_elem_of_In _ _) Ha)).
    unfold url_byte, ctl in Hlu. rewrite !andb_true_iff, negb_true_iff in Hlu. tauto. }
  rewrite !bool_decide_false by done. cbn [orb].
  change (scheme_loop [] l l) with (Some (["s"; "p"; "i"; "f"; "f"; "e"]%char, ["/"; "/"]%char ++ h ++ q)).
  cbv [mbind option_bind]. change (String.string_of_list_ascii (lower_ascii <$> ["s"; "p"; "i"; "f"; "f"; "e"]%char)) with "spiffe".
  unfold split_query. rewrite url_cut_none by (apply url_bytes; [done|by right; left]). cbn [from_option].
  change (starts ["/"]%char (["/"; "/"]%char ++ h ++ q)) with true. change (starts ["/"; "/"]%char (["/"; "/"]%char ++ h ++ q)) with true.
  cbn [negb andb]. rewrite bool_decide_false by done. cbn [negb orb andb]. change (drop 2 (["/"; "/"]%char ++ h ++ q)) with (h ++ q).
  unfold q. rewrite url_cut_app by (apply domain_bytes_without; [done|left]). unfold parseAuthority.
  rewrite cut_last_none by (apply domain_bytes_without; [done|by right; left]). by rewrite parseHost_plain.
Qed.

(** Escaping a path, and back. *)
Lemma escape_path_bytes l : forallb url_byte (escape_path l) = true.
Proof.
  induction l as [|a l IH]; [done|]. cbn [escape_path]. destruct (path_plain a) eqn:Hp; cbn [forallb]; rewrite IH, ?andb_true_r.
  - revert Hp. clear. each_byte a; vm_compute; done.
  - clear. each_byte a; vm_compute; done.
Qed.
Lemma unescape_escape l : unescape (escape_path l) = Some l.
Proof.
  induction l as [|a l IH]; [done|]. cbn [escape_path]. destruct (path_plain a) eqn:Hp; cbn [unescape].
  - rewrite bool_decide_false by (intros ->; by vm_compute in Hp). by rewrite IH.
  - rewrite bool_decide_true by done. rewrite hex_byte_upper. cbn. by rewrite IH.
Qed.

Section identifiers.
Context {C : UnicodeCase}.

Lemma trust_domain_bytes s td :
  NewTrustDomain s = Ok td → s ≠ "" ∧ td = s ∧ forallb domain_byte (String.list_ascii_of_string s) = true.
Proof.
  intros Htd. split; [intros ->; discriminate|]. apply trust_domain_exact in Htd as (-> & _ & Hl). split; [done|].
  apply domain_bytes_labels. eapply Forall_impl; [exact Hl|]. by intros l (_ & ? & _).
Qed.

(** What is accepted of a trust domain and a path as they stand: the default form of a
    path is checked, any other is checked as it stands, and decoded afterwards. *)
Lemma ParseID_text td p :
  NewTrustDomain td = Ok td → forallb url_byte ("/"%char :: p) = true →
  ParseID ("spiffe://" +:+ td +:+ String.string_of_list_ascii ("/"%char :: p)) =
  match unescape ("/"%char :: p) with
  | None => Err ErrInvalidID
  | Some path =>
      if validatePath (String.string_of_list_ascii (if bool_decide (escape_path path = "/"%char :: p) then path else "/"%char :: p))
      then Ok {| id_TrustDomain := td; id_Path := String.string_of_list_ascii path |} else Err ErrInvalidPath
  end.
Proof.
  intros Htd Hp. destruct (trust_domain_bytes _ _ Htd) as (Hne & _ & Hb). unfold ParseID. rewrite url_Parse_spiffe by done.
  set (q := "/"%char :: p). unfold with_path. destruct (unescape q) as [path|]; [|done]. cbn.
  rewrite String.string_of_list_ascii_of_string, (bool_decide_false (td = "")) by done. rewrite Htd. cbn.
  rewrite !(bool_decide_true ("" = "")), (bool_decide_true ("spiffe" = "spiffe")) by done. cbn [negb orb].
  destruct (bool_decide (escape_path path = q)); [rewrite bool_decide_true by done|rewrite bool_decide_false by done];
    by destruct (validatePath _).
Qed.

(** C28: the text of an identifier that was built parses to the identifier. *)
Theorem spiffe_roundtrip td path id : BuildSPIFFEID td path = Ok id → ParseID (id_String id) = Ok id.
Proof.
  unfold BuildSPIFFEID. destruct (NewTrustDomain td) as [td'|] eqn:Htd; [|done].
  destruct (validatePath path) eqn:Hv; [|done]. cbn [negb]. intros [= <-].
  destruct (trust_domain_bytes _ _ Htd) as (_ & -> & _).
  assert (∃ rest, path = String "/" rest) as [rest Hrest].
  { exists (trim_prefix "/" path). revert Hv. unfold validatePath. destruct (_ || _) eqn:H; [done|]. intros _.
    apply orb_false_iff in H as [_ H]. apply negb_false_iff, prefix_inv in H. by rewrite H at 1. }
  unfold id_String. cbn [id_TrustDomain id_Path].
  set (l := String.list_ascii_of_string path). set (p := escape_path (String.list_ascii_of_string rest)).
  assert (escape_path l = "/"%char :: p) as Hl by (unfold l; by rewrite Hrest).
  rewrite Hl. change (starts ["/"]%char ("/"%char :: p)) with true. cbv iota.
  rewrite ParseID_text by (done || (rewrite <-Hl; apply escape_path_bytes)). rewrite <-Hl, unescape_escape.
  rewrite bool_decide_true by done. unfold l. by rewrite String.string_of_list_ascii_of_string, Hv.
Qed.

Lemma validatePath_ascii s : is_ascii s = true → validatePath s = validatePath (C := ascii_case) s.
Proof. intros Hs. unfold validatePath, containsFold. by rewrite !(ToLower_ascii _ Hs), !ToLower_ascii. Qed.

(** The same for a text and a checked form without multi-byte runes. *)
Lemma ParseID_ascii td raw path :
  NewTrustDomain td = Ok td → forallb url_byte (String.list_ascii_of_string raw) = true →
  unescape (String.list_ascii_of_string ("/" +:+ raw)) = Some (String.list_ascii_of_string path) →
  let checked := if bool_decide (escape_path (String.list_ascii_of_string path) = String.list_ascii_of_string ("/" +:+ raw))
                 then path else "/" +:+ raw in
  is_ascii checked = true →
  ParseID ("spiffe://" +:+ td +:+ ("/" +:+ raw)) =
    if validatePath (C := ascii_case) checked then Ok {| id_TrustDomain := td; id_Path := path |} else Err ErrInvalidPath.
Proof.
  intros Htd Hb Hu checked Ha. pose proof (ParseID_text td (String.list_ascii_of_string raw) Htd Hb) as H.
  change ("/"%char :: String.list_ascii_of_string raw) with (String.list_ascii_of_string ("/" +:+ raw)) in H.
  rewrite Hu, !String.string_of_list_ascii_of_string in H. rewrite H, <-(validatePath_ascii _ Ha). unfold checked.
  case_bool_decide; by rewrite String.string_of_list_ascii_of_string.
Qed.

(** A control character, percent-encoded. *)
Definition encoded_control (n : N) : string := "%" +:+ hex_EncodeToString (String (ascii_of_N n) "").

(** C29: dots, slashes and control characters that are percent-encoded are not checked:
    under every trust domain, an identifier with encoded dots parses to one whose path
    leaves its directory, which cannot be built and whose own text does not parse; one
    with encoded slashes to one with an empty segment and a slash at its end; and each of
    the 31 encoded control characters but the zero byte, which is refused, is taken over
    into the path. *)
Theorem encoded_traversal td :
  NewTrustDomain td = Ok td →
  let id := {| id_TrustDomain := td; id_Path := "/a/../b" |} in
  ParseID ("spiffe://" +:+ td +:+ "/a/%2e%2e/b") = Ok id ∧
  BuildSPIFFEID td "/a/../b" = Err ErrInvalidPath ∧ ParseID (id_String id) = Err ErrInvalidPath ∧
  ParseID ("spiffe://" +:+ td +:+ "/a%2f%2fb%2f") = Ok {| id_TrustDomain := td; id_Path := "/a//b/" |} ∧
  (∀ n, (0 < n < 32)%N →
     ParseID ("spiffe://" +:+ td +:+ "/a" +:+ encoded_control n +:+ "b") =
       Ok {| id_TrustDomain := td; id_Path := "/a" +:+ String (ascii_of_N n) "b" |}) ∧
  ParseID ("spiffe://" +:+ td +:+ "/a" +:+ encoded_control 0 +:+ "b") = Err ErrInvalidPath.
Proof.
  intros Htd id.
  split_and!.
  - etrans; [apply (ParseID_ascii td "a/%2e%2e/b" "/a/../b"); [done|by vm_compute..]|by vm_compute].
  - unfold BuildSPIFFEID. rewrite Htd. by rewrite validatePath_ascii.
  - exact (ParseID_text td (String.list_ascii_of_string "a/../b") Htd eq_refl).
  - etrans; [apply (ParseID_ascii td "a%2f%2fb%2f" "/a//b/"); [done|by vm_compute..]|by vm_compute].
  - intros n Hn. rewrite <-(N2Nat.id n) in Hn |- *. revert Hn. generalize (N.to_nat n). clear n. intros n Hn.
    etrans; [apply (ParseID_ascii td ("a" +:+ encoded_control (N.of_nat n) +:+ "b") ("/a" +:+ String (ascii_of_N (N.of_nat n)) "b"));
             [done|..]|]; (do 32 (destruct n as [|n]; [first [lia|by vm_compute]|]); lia).
  - etrans; [apply (ParseID_ascii td "a%00b" ("/a" +:+ String "000" "b")); [done|by vm_compute..]|by vm_compute].
Qed.
End identifiers.

(** ** Examples *)

Section examples.
#[local] Existing Instance ascii_case.

Example parsed :
  ParseID "spiffe://aoid.local/sa/w1" = Ok {| id_TrustDomain := "aoid.local"; id_Path := "/sa/w1" |} ∧
  ParseID "spiffe://AOID.local/sa" = Err ErrInvalidTrustDomain ∧ ParseID "spiffe://aoid.local:80/sa" = Err ErrInvalidTrustDomain ∧
  ParseID "spiffe://u@aoid.local/sa" = Err ErrInvalidID ∧ ParseID "spiffe:aoid" = Err ErrInvalidID ∧
  ParseID "https://aoid.local/sa" = Err ErrInvalidID ∧ ParseID "spiffe://aoid.local/sa?x" = Err ErrInvalidPath ∧
  ParseID "spiffe://aoid.local/sa?" = Err ErrInvalidPath ∧ ParseID "spiffe://aoid.local/sa#f" = Err ErrInvalidPath ∧
  ParseID "spiffe://aoid.local/%00" = Err ErrInvalidPath ∧
  (* an empty fragment is none *)
  ParseID "spiffe://aoid.local/sa#" = Ok {| id_TrustDomain := "aoid.local"; id_Path := "/sa" |}.
Proof. by vm_compute. Qed.

Lemma spiffe_roundtrip_witness :
  ParseID (id_String {| id_TrustDomain := "aoid.local"; id_Path := "/sa/a b?%" |}) =
  Ok {| id_TrustDomain := "aoid.local"; id_Path := "/sa/a b?%" |}.
Proof. apply (spiffe_roundtrip "aoid.local" "/sa/a b?%"). by vm_compute. Defined.
Lemma encoded_traversal_witness :
  ParseID "spiffe://aoid.local/a/%2e%2e/b" = Ok {| id_TrustDomain := "aoid.local"; id_Path := "/a/../b" |}.
Proof. apply (encoded_traversal "aoid.local"). by vm_compute. Defined.
End examples.
