(* ===== verification/Piv.v ===== *)
(** * PIV and CAC certificates

    platform/mtls/piv: the user principal name, the FASC-N and the EDIPI of a
    certificate, read from its SubjectAltName extension, and the validation of its chain
    against pinned anchors.  What the package uses of encoding/asn1 is defined here;
    strings of the types T61String, GeneralString and BMPString, which versions of Go
    read differently, [Certificate.Verify] and PEM are parameters.

    Theorems: headers, identifiers and names are read back from their DER; which
    identities are extracted, and which chains validate. *)

From S2P Require Import Prelude Encoding.

(** ** encoding/asn1 *)

Abbreviation ObjectIdentifier := (list N) (only parsing).
Record tagAndLength : Type := { t_class : N; t_tag : N; t_length : N; t_isCompound : bool }.
Record RawValue : Type := { Class_ : N; Tag : N; IsCompound : bool; Bytes : text; FullBytes : text }.

Definition bit (b : N) (i : N) : bool := N.testbit b i.
(** At most five groups of seven bits, the first not empty, that fit 31 bits. *)
Fixpoint parseBase128Int_loop (shifted : nat) (ret : N) (l : text) : option (N * text) :=
  match l with
  | [] => None
  | b :: rest =>
      if bool_decide (shifted = 5%nat) then None
      else if bool_decide (shifted = 0%nat) && bool_decide (b = 128%N) then None
      else
        let ret := N.lor (N.shiftl ret 7) (N.land b 127) in
        if bit b 7 then parseBase128Int_loop (S shifted) ret rest
        else if bool_decide (2 ^ 31 - 1 < ret)%N then None
        else Some (ret, rest)
  end.
Definition parseBase128Int : text → option (N * text) := parseBase128Int_loop 0 0.

Fixpoint parse_long_length (numBytes : nat) (length : N) (l : text) : option (N * text) :=
  match numBytes with
  | O => Some (length, l)
  | S numBytes =>
      match l with
      | [] => None
      | b :: rest =>
          if bool_decide (2 ^ 23 ≤ length)%N then None
          else
            let length := N.lor (N.shiftl length 8) b in
            if bool_decide (length = 0%N) then None else parse_long_length numBytes length rest
      end
  end.
Definition parse_length (l : text) : option (N * text) :=
  match l with
  | [] => None
  | b :: rest =>
      if negb (bit b 7) then Some (N.land b 127, rest)
      else
        let numBytes := N.land b 127 in
        if bool_decide (numBytes = 0%N) then None
        else
          '(length, rest) ← parse_long_length (N.to_nat numBytes) 0 rest;
          if bool_decide (length < 128)%N then None else Some (length, rest)
  end.
Definition parse_tag (b : N) (rest : text) : option (N * text) :=
  let tag := N.land b 31 in
  if bool_decide (tag = 31%N) then
    '(tag, rest) ← parseBase128Int rest;
    if bool_decide (tag < 31)%N then None else Some (tag, rest)
  else Some (tag, rest).
Definition parseTagAndLength (l : text) : option (tagAndLength * text) :=
  match l with
  | [] => None
  | b :: rest =>
      '(tag, rest) ← parse_tag b rest;
      '(length, rest) ← parse_length rest;
      Some ({| t_class := N.shiftr b 6; t_tag := tag; t_length := length; t_isCompound := bit b 5 |}, rest)
  end.

(** The contents that a header announces, and what follows them. *)
Definition take_content (t : tagAndLength) (l : text) : option (text * text) :=
  if bool_decide (N.of_nat (length l) < t_length t)%N then None
  else Some (take (N.to_nat (t_length t)) l, drop (N.to_nat (t_length t)) l).
(** [parseField] into a [RawValue]. *)
Definition parse_raw (l : text) : option (RawValue * text) :=
  '(t, rest) ← parseTagAndLength l;
  '(content, rest) ← take_content t rest;
  Some ({| Class_ := t_class t; Tag := t_tag t; IsCompound := t_isCompound t; Bytes := content;
           FullBytes := take (length l - length rest) l |}, rest).
(** [parseField] into a type with a universal tag: its contents. *)
Definition parse_universal (tag : N) (compound : bool) (l : text) : option (text * text) :=
  '(t, rest) ← parseTagAndLength l;
  if bool_decide (t_class t = 0%N) && bool_decide (t_tag t = tag) && bool_decide (t_isCompound t = compound)
  then take_content t rest else None.

(** [parseSequenceOf]: every element takes a byte at least. *)
Fixpoint parse_elements (fuel : nat) (l : text) : option (list RawValue) :=
  match l with
  | [] => Some []
  | _ =>
      match fuel with
      | O => None
      | S fuel => '(v, rest) ← parse_raw l; vs ← parse_elements fuel rest; Some (v :: vs)
      end
  end.
Definition Unmarshal_raws (l : text) : option (list RawValue) :=
  '(content, _) ← parse_universal 16 true l; parse_elements (length content) content.

Fixpoint parse_subidentifiers (fuel : nat) (l : text) : option (list N) :=
  match l with
  | [] => Some []
  | _ =>
      match fuel with
      | O => None
      | S fuel => '(v, rest) ← parseBase128Int l; vs ← parse_subidentifiers fuel rest; Some (v :: vs)
      end
  end.
Definition parseObjectIdentifier (l : text) : option ObjectIdentifier :=
  vs ← parse_subidentifiers (length l) l;
  match vs with
  | [] => None
  | v :: rest => Some (if bool_decide (v < 80)%N then (v / 40)%N :: (v mod 40)%N :: rest else 2%N :: (v - 80)%N :: rest)
  end.

Definition text_of (l : text) : string := String.string_of_list_ascii (ascii_of_N <$> l).
(** [utf8.Valid]: encoding what is decoded gives the bytes back. *)
Definition utf8_Valid (s : string) : bool := bool_decide (encode (runes s) = s).
Definition isPrintable (b : N) : bool :=
  within_ 97 122 b || within_ 65 90 b || within_ 48 57 b || within_ 39 41 b || within_ 43 47 b
  || bool_decide (b ∈ [32; 58; 61; 63; 42; 38]%N).
Definition isNumeric (b : N) : bool := within_ 48 57 b || bool_decide (b = 32%N).

(** The other string types. *)
Class LegacyStrings : Type := { legacy_string : N → text → option string }.
Definition parse_string_of {LS : LegacyStrings} (tag : N) (content : text) : option string :=
  if bool_decide (tag = 12%N) then if utf8_Valid (text_of content) then Some (text_of content) else None
  else if bool_decide (tag = 19%N) then if forallb isPrintable content then Some (text_of content) else None
  else if bool_decide (tag = 18%N) then if forallb isNumeric content then Some (text_of content) else None
  else if bool_decide (tag = 22%N) then
    if forallb (λ b, bool_decide (b < 128)%N) content then Some (text_of content) else None
  else legacy_string tag content.
Definition string_tags : list N := [19; 22; 27; 20; 12; 18; 30]%N.
(** [asn1.Unmarshal] into a string: any of the string types. *)
Definition Unmarshal_string {LS : LegacyStrings} (l : text) : option string :=
  '(t, _) ← parseTagAndLength l;
  if bool_decide (t_tag t ∈ string_tags) then
    '(content, _) ← parse_universal (t_tag t) false l; parse_string_of (t_tag t) content
  else None.
(** Into a slice of bytes: an octet string. *)
Definition Unmarshal_octets (l : text) : option text := fst <$> parse_universal 4 false l.
(** Into the structure of an OtherName: further elements are ignored. *)
Definition Unmarshal_otherName (l : text) : option (ObjectIdentifier * RawValue) :=
  '(content, _) ← parse_universal 16 true l;
  '(oid, rest) ← parse_universal 6 false content;
  oid ← parseObjectIdentifier oid;
  '(w, _) ← parse_raw rest;
  Some (oid, w).

(** ** upn.go *)

Definition oidSubjectAltName : ObjectIdentifier := [2; 5; 29; 17]%N.
Definition oidMicrosoftUPN : ObjectIdentifier := [1; 3; 6; 1; 4; 1; 311; 20; 2; 3]%N.
Definition oidFASCN : ObjectIdentifier := [2; 16; 840; 1; 101; 3; 6; 6]%N.

Inductive piv_error : Type :=
  | ErrNoUPN
  | ErrNoFASCN
  | ErrNoEDIPI
  | ErrInvalidEDIPI
  | ErrUntrustedChain
  | ErrChainExpired
  | ErrPolicyNotSatisfied
  | ErrNoCertsInBundle.
#[export] Instance piv_error_eq_dec : EqDecision piv_error.
Proof. solve_decision. Defined.
Abbreviation perr := (goerr piv_error) (only parsing).

Record Certificate : Type := {
  Raw : text;
  Extensions : list (ObjectIdentifier * text);
  NotBefore : time;
  NotAfter : time;
  PolicyIdentifiers : list ObjectIdentifier;
}.

(** [byte(n)] keeps the lowest eight bits. *)
Definition encodeLength (n : N) : text :=
  if bool_decide (n < 128)%N then [n]
  else if bool_decide (n < 256)%N then [129; n]%N
  else if bool_decide (n < 65536)%N then [130; N.shiftr n 8; N.land n 255]%N
  else [131; N.land (N.shiftr n 16) 255; N.land (N.shiftr n 8) 255; N.land n 255]%N.

(** The type and the value of a name that is an OtherName. *)
Definition otherName (san : RawValue) : option (ObjectIdentifier * RawValue) :=
  if negb (bool_decide (Class_ san = 2%N)) || negb (bool_decide (Tag san = 0%N)) then None
  else Unmarshal_otherName (48%N :: encodeLength (N.of_nat (length (Bytes san))) ++ Bytes san).

Section piv.
Context {LS : LegacyStrings}.

(** What one name returns, if it returns at all. *)
Definition upn_of (san : RawValue) : option (outcome perr string) :=
  '(oid, w) ← otherName san;
  if negb (bool_decide (oid = oidMicrosoftUPN)) then None
  else if negb (bool_decide (Class_ w = 2%N)) || negb (bool_decide (Tag w = 0%N))
  then Some (Err (Errorf "piv: unexpected OtherName value wrapper"))
  else Some (match Unmarshal_string (Bytes w) with
             | None => Err (Wrapf "piv: parse UPN value" (Errorf "asn1"))
             | Some upn => Ok upn
             end).
Definition fascn_of (san : RawValue) : option (outcome perr text) :=
  '(oid, w) ← otherName san;
  if negb (bool_decide (oid = oidFASCN)) then None
  else if negb (bool_decide (Class_ w = 2%N)) || negb (bool_decide (Tag w = 0%N)) then None
  else raw ← Unmarshal_octets (Bytes w); Some (Ok raw).

Fixpoint first_name {A} (f : RawValue → option (outcome perr A)) (sans : list RawValue) : option (outcome perr A) :=
  match sans with
  | [] => None
  | san :: rest => match f san with Some r => Some r | None => first_name f rest end
  end.
Fixpoint walk {A} (f : RawValue → option (outcome perr A)) (none : piv_error)
    (exts : list (ObjectIdentifier * text)) : outcome perr A :=
  match exts with
  | [] => Err (Sentinel none)
  | (id, value) :: rest =>
      if negb (bool_decide (id = oidSubjectAltName)) then walk f none rest
      else match Unmarshal_raws value with
           | None => Err (Wrapf "piv: parse SubjectAltName" (Errorf "asn1"))
           | Some sans => match first_name f sans with Some r => r | None => walk f none rest end
           end
  end.
(** A nil certificate is [None]. *)
Definition ExtractUPN (cert : option Certificate) : outcome perr string :=
  match cert with None => Err (Sentinel ErrNoUPN) | Some c => walk upn_of ErrNoUPN (Extensions c) end.

(** ** fascn.go *)

Definition ExtractFASC_N (cert : option Certificate) : outcome perr text :=
  match cert with None => Err (Sentinel ErrNoFASCN) | Some c => walk fascn_of ErrNoFASCN (Extensions c) end.
Definition FormatFASC_NHex (raw : text) : string := hex_EncodeToString (text_of raw).

(** ** edipi.go *)

(** The prefix that [^([0-9]{10})@mil$] captures. *)
Definition edipiPattern (s : string) : option string :=
  let l := String.list_ascii_of_string s in
  if bool_decide (length l = 14%nat) && forallb (λ a, within_ 48 57 (byte_of a)) (take 10 l)
     && bool_decide (drop 10 l = String.list_ascii_of_string "@mil")
  then Some (String.string_of_list_ascii (take 10 l)) else None.
Definition testEDIPI : string := "0000000001".
(** [reject] is the package's [rejectTestEDIPI], which only tests change. *)
Definition ExtractEDIPI (reject : bool) (cert : option Certificate) : outcome perr string :=
  match ExtractUPN cert with
  | Err _ => Err (Sentinel ErrNoEDIPI)
  | Ok upn =>
      match edipiPattern upn with
      | None => Err (Sentinel ErrInvalidEDIPI)
      | Some edipi => if reject && bool_decide (edipi = testEDIPI) then Err (Sentinel ErrInvalidEDIPI) else Ok edipi
      end
  end.
End piv.

(** ** validator.go and truststore.go *)

Inductive verify_result : Type := Verified | Expired | Unverified.
Class X509 : Type := {
  CertPool : Type;
  (* roots, intermediates, time; the key usage is client authentication *)
  Verify : Certificate → CertPool → option CertPool → time → verify_result;
  AppendCertsFromPEM : string → option CertPool;
}.

Section validator.
Context {X : X509}.

Record TrustValidator : Type := {
  roots : option CertPool;
  allowedPolicies : option (list ObjectIdentifier);
  clock : Env → time;
}.
Definition NewTrustValidator (roots : option CertPool) (allowed : option (list ObjectIdentifier)) : TrustValidator :=
  {| roots := roots; allowedPolicies := allowed; clock := now |}.
Definition WithFixedClock (v : TrustValidator) (clock : Env → time) : TrustValidator :=
  {| roots := roots v; allowedPolicies := allowedPolicies v; clock := clock |}.
Definition hasAllowedPolicy (cert : Certificate) (allowed : list ObjectIdentifier) : bool :=
  any (λ p, any (λ a, bool_decide (p = a)) allowed) (PolicyIdentifiers cert).
Definition ValidateChain (e : Env) (v : TrustValidator) (cert : option Certificate) (intermediates : option CertPool) :
    outcome perr unit :=
  match cert with
  | None => Err (Errorf "piv: nil certificate")
  | Some c =>
      match roots v with
      | None => Err (Errorf "piv: TrustValidator constructed with nil roots")
      | Some pool =>
          if Before (clock v e) (NotBefore c) || After (clock v e) (NotAfter c)
          then Err (Wrapf "dates" (Sentinel ErrChainExpired))
          else match Verify c pool intermediates (clock v e) with
               | Expired => Err (Wrapf "x509" (Sentinel ErrChainExpired))
               | Unverified => Err (Wrapf "x509" (Sentinel ErrUntrustedChain))
               | Verified =>
                   match allowedPolicies v with
                   | None => Ok tt
                   | Some allowed =>
                       if hasAllowedPolicy c allowed then Ok tt else Err (Wrapf "policies" (Sentinel ErrPolicyNotSatisfied))
                   end
               end
      end
  end.

(** [readFile] is [os.ReadFile]. *)
Definition LoadDoDTrustStore (readFile : string → option string) (path : string) : outcome perr CertPool :=
  match readFile path with
  | None => Err (Wrapf "piv: read trust store" (Errorf "os"))
  | Some bs => match AppendCertsFromPEM bs with None => Err (Sentinel ErrNoCertsInBundle) | Some pool => Ok pool end
  end.
End validator.

(** ** Bits *)

Lemma lor_shiftl_add r x k : (x < 2 ^ k)%N → N.lor (N.shiftl r k) x = (r * 2 ^ k + x)%N.
Proof.
  intros Hx. assert (N.land (N.shiftl r k) x = 0%N) as Hl.
  { apply N.bits_inj_0. intros i. rewrite N.land_spec. destruct (N.lt_ge_cases i k) as [Hi|Hi].
    - by rewrite N.shiftl_spec_low.
    - rewrite (N.testbit_eqb x). rewrite N.div_small; [apply andb_false_r|].
      apply N.lt_le_trans with (2 ^ k)%N; [done|]. by apply N.pow_le_mono_r. }
  by rewrite <-N.lxor_lor, <-N.add_nocarry_lxor, N.shiftl_mul_pow2.
Qed.
Lemma land_low n k : N.land n (2 ^ k - 1) = (n mod 2 ^ k)%N.
Proof. rewrite <-N.land_ones. f_equal. rewrite N.ones_equiv, N.sub_1_r. done. Qed.
Lemma land_127 n : N.land n 127 = (n mod 128)%N.
Proof. apply (land_low n 7). Qed.
Lemma land_255 n : N.land n 255 = (n mod 256)%N.
Proof. apply (land_low n 8). Qed.
Lemma bit7_low b : (b < 128)%N → bit b 7 = false.
Proof. intros Hb. unfold bit. rewrite N.testbit_eqb. by rewrite N.div_small. Qed.
Lemma bit7_high d : (d < 128)%N → bit (128 + d) 7 = true.
Proof.
  intros Hd. unfold bit. rewrite N.testbit_eqb. apply N.eqb_eq. change (2 ^ 7)%N with 128%N.
  replace (128 + d)%N with (d + 1 * 128)%N by lia. rewrite N.div_add, N.div_small by lia. done.
Qed.

(** ** DER *)

Definition header (class tag : N) (compound : bool) : N := (class * 64 + (if compound then 32 else 0) + tag)%N.
Definition der (class tag : N) (compound : bool) (content : text) : text :=
  header class tag compound :: encodeLength (N.of_nat (length content)) ++ content.
(** The bound of [encodeLength]. *)
Definition fits (content : text) : Prop := (N.of_nat (length content) < 2 ^ 24)%N.

Lemma long_length_step k len b rest :
  (len < 8388608)%N → (b < 256)%N → (len * 256 + b ≠ 0)%N →
  parse_long_length (S k) len (b :: rest) = parse_long_length k (len * 256 + b) rest.
Proof.
  intros Hl Hb Hn. cbn [parse_long_length]. rewrite bool_decide_false by lia. rewrite (lor_shiftl_add _ _ 8) by done.
  change (2 ^ 8)%N with 256%N. by rewrite bool_decide_false.
Qed.
Lemma parse_long k bs n rest :
  (0 < k < 128)%N → parse_long_length (N.to_nat k) 0 (bs ++ rest) = Some (n, rest) → (128 ≤ n)%N →
  parse_length ((128 + k)%N :: bs ++ rest) = Some (n, rest).
Proof.
  intros Hk Hp Hn. cbn [parse_length]. rewrite bit7_high, land_127 by lia. cbn [negb].
  replace ((128 + k) mod 128)%N with k by (replace (128 + k)%N with (k + 1 * 128)%N by lia; rewrite N.Div0.mod_add, N.mod_small; lia).
  rewrite bool_decide_false, Hp by lia. cbn. by rewrite bool_decide_false by lia.
Qed.
Lemma byte_split n : ∃ q r, (n / 256 = q ∧ n mod 256 = r ∧ n = q * 256 + r ∧ r < 256)%N.
Proof.
  exists (n / 256)%N, (n mod 256)%N. split_and!; [done..| |by apply N.mod_lt].
  rewrite N.mul_comm. by apply N.div_mod.
Qed.
Lemma parse_length_encode n rest : (n < 2 ^ 24)%N → parse_length (encodeLength n ++ rest) = Some (n, rest).
Proof.
  intros Hn. change (2 ^ 24)%N with 16777216%N in Hn. unfold encodeLength.
  rewrite !land_255, !N.shiftr_div_pow2. change (2 ^ 8)%N with 256%N. change (2 ^ 16)%N with (256 * 256)%N.
  rewrite <-N.Div0.div_div. destruct (byte_split n) as (q & r & -> & -> & -> & Hr).
  destruct (byte_split q) as (q2 & r2 & -> & -> & -> & Hr2).
  case_bool_decide as H1; [|case_bool_decide as H2; [|case_bool_decide as H3]].
  - cbn [app parse_length]. rewrite bit7_low by done. cbn [negb]. by rewrite land_127, N.mod_small.
  - apply (parse_long 1 [_]); [done| |lia]. change (N.to_nat 1) with 1%nat. cbn [app].
    rewrite long_length_step by lia. done.
  - apply (parse_long 2 [_; _]); [done| |lia]. change (N.to_nat 2) with 2%nat. cbn [app].
    rewrite !long_length_step by lia. cbn [parse_long_length]. f_equal.
  - rewrite (N.mod_small q2) by lia. apply (parse_long 3 [_; _; _]); [done| |lia].
    change (N.to_nat 3) with 3%nat. cbn [app]. rewrite !long_length_step by lia. cbn [parse_long_length]. f_equal.
Qed.

Lemma parse_header class tag compound content rest :
  (class < 4)%N → (tag < 31)%N → fits content →
  parseTagAndLength (der class tag compound content ++ rest) =
  Some ({| t_class := class; t_tag := tag; t_length := N.of_nat (length content); t_isCompound := compound |}, content ++ rest).
Proof.
  intros Hc Ht Hf. unfold der. cbn [app parseTagAndLength]. rewrite <-app_assoc.
  assert (N.land (header class tag compound) 31 = tag ∧ N.shiftr (header class tag compound) 6 = class ∧
          bit (header class tag compound) 5 = compound) as (Hl & Hs & Hb).
  { unfold header, bit. change 31%N with (2 ^ 5 - 1)%N. rewrite land_low, N.shiftr_div_pow2, N.testbit_eqb.
    change (2 ^ 5)%N with 32%N. change (2 ^ 6)%N with 64%N.
    replace (class * 64 + (if compound then 32 else 0) + tag)%N with ((if compound then 32 else 0) + tag + class * 64)%N by lia.
    split_and!.
    - replace ((if compound then 32 else 0) + tag + class * 64)%N with (tag + ((if compound then 1 else 0) + class * 2) * 32)%N
        by (destruct compound; lia). rewrite N.Div0.mod_add by done. apply N.mod_small. lia.
    - rewrite N.div_add by done. rewrite N.div_small; [done|destruct compound; lia].
    - replace ((if compound then 32 else 0) + tag + class * 64)%N with (tag + ((if compound then 1 else 0) + class * 2) * 32)%N
        by (destruct compound; lia). rewrite N.div_add, N.div_small by lia.
      replace (0 + ((if compound then 1 else 0) + class * 2))%N with ((if compound then 1 else 0) + class * 2)%N by lia.
      rewrite N.Div0.mod_add by done. by destruct compound. }
  unfold parse_tag. rewrite Hl, bool_decide_false by lia. cbn [mbind option_bind].
  rewrite parse_length_encode by done. cbn [mbind option_bind]. by rewrite Hs, Hb.
Qed.
Lemma take_content_app t content rest :
  t_length t = N.of_nat (length content) → take_content t (content ++ rest) = Some (content, rest).
Proof.
  intros Ht. unfold take_content. rewrite Ht, Nat2N.id, length_app, bool_decide_false by lia.
  by rewrite take_app_length, drop_app_length.
Qed.
Lemma parse_raw_der class tag compound content rest :
  (class < 4)%N → (tag < 31)%N → fits content →
  parse_raw (der class tag compound content ++ rest) =
  Some ({| Class_ := class; Tag := tag; IsCompound := compound; Bytes := content;
           FullBytes := der class tag compound content |}, rest).
Proof.
  intros Hc Ht Hf. unfold parse_raw. rewrite parse_header by done. cbn [mbind option_bind].
  rewrite take_content_app by done. cbn [mbind option_bind t_class t_tag t_isCompound]. do 3 f_equal.
  rewrite length_app, Nat.add_sub. apply take_app_length.
Qed.
Lemma parse_universal_der tag compound content rest :
  (tag < 31)%N → fits content → parse_universal tag compound (der 0 tag compound content ++ rest) = Some (content, rest).
Proof.
  intros Ht Hf. unfold parse_universal. rewrite parse_header by done. cbn [mbind option_bind t_class t_tag t_isCompound].
  rewrite !bool_decide_true by done. cbn [andb]. by apply take_content_app.
Qed.

(** ** Identifiers *)

(** An identifier is written in groups of seven bits, the first not empty. *)
Definition der_base128 (n : N) : text :=
  (if bool_decide (n < 128) then [n]
   else if bool_decide (n < 16384) then [128 + n / 128; n mod 128]
   else if bool_decide (n < 2097152) then [128 + n / 128 / 128; 128 + n / 128 mod 128; n mod 128]
   else if bool_decide (n < 268435456) then
     [128 + n / 128 / 128 / 128; 128 + n / 128 / 128 mod 128; 128 + n / 128 mod 128; n mod 128]
   else [128 + n / 128 / 128 / 128 / 128; 128 + n / 128 / 128 / 128 mod 128; 128 + n / 128 / 128 mod 128;
         128 + n / 128 mod 128; n mod 128])%N.

Lemma base128_more k ret d rest :
  (k < 5)%nat → (d < 128)%N → k ≠ 0%nat ∨ d ≠ 0%N →
  parseBase128Int_loop k ret ((128 + d)%N :: rest) = parseBase128Int_loop (S k) (ret * 128 + d) rest.
Proof.
  intros Hk Hd Hz. cbn [parseBase128Int_loop]. rewrite bool_decide_false by lia.
  destruct (bool_decide (k = 0%nat) && bool_decide (128 + d = 128)%N) eqn:E.
  { apply andb_true_iff in E as [->%bool_decide_eq_true E%bool_decide_eq_true]. lia. }
  rewrite bit7_high, land_127 by done. replace (128 + d)%N with (d + 1 * 128)%N by lia.
  rewrite N.Div0.mod_add, N.mod_small by done. by rewrite (lor_shiftl_add _ _ 7).
Qed.
Lemma base128_last k ret d rest :
  (k < 5)%nat → (d < 128)%N → (ret * 128 + d < 2147483648)%N →
  parseBase128Int_loop k ret (d :: rest) = Some ((ret * 128 + d)%N, rest).
Proof.
  intros Hk Hd Hb. cbn [parseBase128Int_loop]. rewrite bool_decide_false by lia.
  rewrite (bool_decide_false (d = 128%N)) by lia. rewrite andb_false_r, bit7_low, land_127, N.mod_small by done.
  rewrite (lor_shiftl_add _ _ 7) by done. change (2 ^ 7)%N with 128%N. by rewrite bool_decide_false by lia.
Qed.
Lemma group_split n : ∃ q r, (n / 128 = q ∧ n mod 128 = r ∧ n = q * 128 + r ∧ r < 128)%N.
Proof.
  exists (n / 128)%N, (n mod 128)%N. split_and!; [done..| |by apply N.mod_lt].
  rewrite N.mul_comm. by apply N.div_mod.
Qed.
Lemma parse_der_base128 n rest : (n < 2147483648)%N → parseBase128Int (der_base128 n ++ rest) = Some (n, rest).
Proof.
  intros Hn. unfold der_base128, parseBase128Int.
  destruct (group_split n) as (q & r & -> & -> & -> & Hr). destruct (group_split q) as (q2 & r2 & -> & -> & -> & Hr2).
  destruct (group_split q2) as (q3 & r3 & -> & -> & -> & Hr3). destruct (group_split q3) as (q4 & r4 & -> & -> & -> & Hr4).
  repeat case_bool_decide; cbn [app];
    repeat first [rewrite base128_more by lia | rewrite base128_last by lia]; do 2 f_equal; lia.
Qed.
Lemma der_base128_nonempty n : (0 < length (der_base128 n))%nat.
Proof. unfold der_base128. repeat case_bool_decide; cbn; lia. Qed.

Definition der_oid (oid : ObjectIdentifier) : text :=
  match oid with a :: b :: rest => der_base128 (a * 40 + b) ++ concat (der_base128 <$> rest) | _ => [] end.
Definition valid_oid (oid : ObjectIdentifier) : Prop :=
  match oid with
  | a :: b :: rest => (a ≤ 2)%N ∧ (a < 2 → b < 40)%N ∧ (b < 2147483568)%N ∧ Forall (λ n, (n < 2147483648)%N) rest
  | _ => False
  end.
Lemma parse_subidentifiers_der ns : ∀ fuel,
  Forall (λ n, (n < 2147483648)%N) ns → (length (concat (der_base128 <$> ns)) ≤ fuel)%nat →
  parse_subidentifiers fuel (concat (der_base128 <$> ns)) = Some ns.
Proof.
  induction ns as [|n ns IH]; intros fuel Hall Hf; [by destruct fuel|]. apply Forall_cons in Hall as [Hn Hall].
  cbn in Hf |- *. rewrite length_app in Hf. pose proof (der_base128_nonempty n). destruct fuel as [|fuel]; [lia|].
  destruct (der_base128 n ++ concat (der_base128 <$> ns)) as [|b l] eqn:E.
  { apply (f_equal length) in E. rewrite length_app in E. cbn in E. lia. }
  cbn [parse_subidentifiers]. rewrite <-E, parse_der_base128 by done. cbn [mbind option_bind].
  by rewrite IH by (done || lia).
Qed.
Lemma parse_der_oid oid : valid_oid oid → parseObjectIdentifier (der_oid oid) = Some oid.
Proof.
  destruct oid as [|a [|b rest]]; try done. intros (Ha & Hab & Hb & Hall). unfold parseObjectIdentifier, der_oid.
  change (der_base128 (a * 40 + b) ++ concat (der_base128 <$> rest)) with (concat (der_base128 <$> (a * 40 + b)%N :: rest)).
  rewrite parse_subidentifiers_der by first [done | constructor; [lia|done]]. cbn [mbind option_bind]. f_equal.
  assert (a = 0 ∨ a = 1 ∨ a = 2)%N as [-> | [-> | ->]] by lia.
  - rewrite bool_decide_true by lia. change (0 * 40 + b)%N with b. by rewrite N.div_small, N.mod_small by lia.
  - rewrite bool_decide_true by lia. change (1 * 40)%N with 40%N. replace (40 + b)%N with (b + 1 * 40)%N by lia.
    by rewrite N.div_add, N.Div0.mod_add, N.div_small, N.mod_small by lia.
  - rewrite bool_decide_false by lia. do 2 f_equal. lia.
Qed.

(** ** Names *)

(** A name of a subject: an OtherName with a type and a value, or one of the others. *)
Inductive general_name : Type :=
  | OtherName (oid : ObjectIdentifier) (value : text)
  | Choice (tag : N) (compound : bool) (content : text).
Definition other_content (oid : ObjectIdentifier) (value : text) : text := der 0 6 false (der_oid oid) ++ der 2 0 true value.
Definition der_name (n : general_name) : text :=
  match n with
  | OtherName oid value => der 2 0 true (other_content oid value)
  | Choice tag compound content => der 2 tag compound content
  end.
Definition well_formed (n : general_name) : Prop :=
  match n with
  | OtherName oid value => valid_oid oid ∧ fits (other_content oid value)
  | Choice tag _ content => (0 < tag < 31)%N ∧ fits content
  end.
Definition has_type (oid : ObjectIdentifier) (n : general_name) : bool :=
  match n with OtherName o _ => bool_decide (o = oid) | _ => false end.
(** The contents of the extension: the names, and bytes that nobody reads. *)
Definition der_names (ns : list general_name) (junk : text) : text := der 0 16 true (concat (der_name <$> ns)) ++ junk.

Lemma fits_app a b : fits (a ++ b) → fits a ∧ fits b.
Proof. unfold fits. rewrite length_app. lia. Qed.
Lemma fits_der class tag compound content : fits (der class tag compound content) → fits content.
Proof. unfold fits, der. cbn [length]. rewrite length_app. lia. Qed.

Definition raw_of (n : general_name) : RawValue :=
  match n with
  | OtherName oid value =>
      {| Class_ := 2; Tag := 0; IsCompound := true; Bytes := other_content oid value; FullBytes := der_name n |}
  | Choice tag compound content =>
      {| Class_ := 2; Tag := tag; IsCompound := compound; Bytes := content; FullBytes := der_name n |}
  end.
Lemma parse_raw_name n rest : well_formed n → parse_raw (der_name n ++ rest) = Some (raw_of n, rest).
Proof.
  destruct n as [oid value|tag compound content]; intros [Hw Hf]; unfold der_name at 1; rewrite parse_raw_der by (done || lia); done.
Qed.
Lemma parse_names ns : ∀ fuel,
  Forall well_formed ns → (length (concat (der_name <$> ns)) ≤ fuel)%nat →
  parse_elements fuel (concat (der_name <$> ns)) = Some (raw_of <$> ns).
Proof.
  induction ns as [|n ns IH]; intros fuel Hall Hf; [by destruct fuel|]. apply Forall_cons in Hall as [Hn Hall].
  cbn in Hf |- *. rewrite length_app in Hf.
  assert (0 < length (der_name n))%nat as Hpos by (destruct n; cbn; lia). destruct fuel as [|fuel]; [lia|].
  destruct (der_name n ++ concat (der_name <$> ns)) as [|b l] eqn:E.
  { apply (f_equal length) in E. rewrite length_app in E. cbn in E. lia. }
  cbn [parse_elements]. rewrite <-E, parse_raw_name by done. cbn [mbind option_bind]. by rewrite IH by (done || lia).
Qed.
Lemma Unmarshal_names ns junk :
  Forall well_formed ns → fits (concat (der_name <$> ns)) → Unmarshal_raws (der_names ns junk) = Some (raw_of <$> ns).
Proof.
  intros Hall Hf. unfold Unmarshal_raws, der_names. rewrite parse_universal_der by done. cbn [mbind option_bind].
  by apply parse_names.
Qed.
Lemma otherName_raw n :
  well_formed n →
  otherName (raw_of n) =
  match n with
  | OtherName oid value => Some (oid, {| Class_ := 2; Tag := 0; IsCompound := true; Bytes := value; FullBytes := der 2 0 true value |})
  | Choice _ _ _ => None
  end.
Proof.
  destruct n as [oid value|tag compound content]; intros [Hw Hf]; unfold otherName; cbn [raw_of Class_ Tag Bytes].
  - rewrite !bool_decide_true by done. cbn [negb orb].
    change (48%N :: encodeLength (N.of_nat (length (other_content oid value))) ++ other_content oid value)
      with (der 0 16 true (other_content oid value)).
    rewrite <-(app_nil_r (der 0 16 true _)). unfold Unmarshal_otherName. rewrite parse_universal_der by done.
    cbn [mbind option_bind]. unfold other_content in Hf |- *. apply fits_app in Hf as [Ho%fits_der Hv%fits_der].
    rewrite parse_universal_der by done. cbn [mbind option_bind]. rewrite parse_der_oid by done. cbn [mbind option_bind].
    rewrite <-(app_nil_r (der 2 0 true value)). rewrite parse_raw_der by done. by rewrite app_nil_r.
  - by rewrite (bool_decide_false (tag = 0%N)), orb_true_r by lia.
Qed.

(** ** What is extracted *)

Section piv.
Context {LS : LegacyStrings}.

Definition not_san (e : ObjectIdentifier * text) : Prop := e.1 ≠ oidSubjectAltName.
(** The first SubjectAltName extension of a certificate holds these names. *)
Definition carries (c : Certificate) (ns : list general_name) (post : list (ObjectIdentifier * text)) : Prop :=
  ∃ pre junk, Extensions c = pre ++ (oidSubjectAltName, der_names ns junk) :: post ∧ Forall not_san pre ∧
    Forall well_formed ns ∧ fits (concat (der_name <$> ns)).

Lemma walk_skips {A} (f : RawValue → option (outcome perr A)) none pre exts :
  Forall not_san pre → walk f none (pre ++ exts) = walk f none exts.
Proof.
  induction 1 as [|[id value] pre Hid _ IH]; [done|]. cbn. by rewrite bool_decide_false by exact Hid.
Qed.
Lemma walk_carried {A} (f : RawValue → option (outcome perr A)) none c ns post :
  carries c ns post →
  walk f none (Extensions c) =
  match first_name f (raw_of <$> ns) with Some r => r | None => walk f none post end.
Proof.
  intros (pre & junk & -> & Hpre & Hns & Hf). rewrite walk_skips by done. cbn [walk].
  rewrite bool_decide_true by done. cbn [negb]. by rewrite Unmarshal_names.
Qed.
Lemma first_name_none {A} (f : RawValue → option (outcome perr A)) (ns : list general_name) rest :
  Forall (λ n, f (raw_of n) = None) ns → first_name f ((raw_of <$> ns) ++ rest) = first_name f rest.
Proof. induction 1 as [|n ns Hn _ IH]; [done|]. cbn. by rewrite Hn. Qed.

Lemma other_type_skipped n :
  well_formed n → (has_type oidMicrosoftUPN n = false → upn_of (raw_of n) = None) ∧
  (has_type oidFASCN n = false → fascn_of (raw_of n) = None).
Proof.
  intros Hw. unfold upn_of, fascn_of. rewrite otherName_raw by done. destruct n as [oid value|]; [|done]. cbn.
  split; intros Ht; by rewrite Ht.
Qed.
Lemma text_of_bytes s : text_of (bytes s) = s.
Proof.
  unfold text_of, bytes. rewrite <-list_fmap_compose. rewrite (list_fmap_ext _ id) by (intros; apply ascii_N_embedding).
  by rewrite list_fmap_id, String.string_of_list_ascii_of_string.
Qed.
Lemma upn_value upn : fits (bytes upn) → utf8_Valid upn = true → Unmarshal_string (der 0 12 false (bytes upn)) = Some upn.
Proof.
  intros Hf Hu. unfold Unmarshal_string. rewrite <-(app_nil_r (der _ _ _ _)). rewrite parse_header by done.
  cbn [mbind option_bind t_tag]. rewrite bool_decide_true by set_solver. rewrite parse_universal_der by done.
  cbn [mbind option_bind]. unfold parse_string_of. rewrite bool_decide_true by done. by rewrite text_of_bytes, Hu.
Qed.
Lemma name_found {A} (f : RawValue → option (outcome perr A)) none c before n after post r :
  carries c (before ++ n :: after) post → Forall (λ n, well_formed n → f (raw_of n) = None) before →
  (well_formed n → f (raw_of n) = Some r) → walk f none (Extensions c) = r.
Proof.
  intros Hc Hb Hn. rewrite (walk_carried _ _ _ _ _ Hc). destruct Hc as (_ & _ & _ & _ & Hw & _).
  apply Forall_app in Hw as [Hwb [Hwn _]%Forall_cons]. rewrite fmap_app, first_name_none, fmap_cons; [by cbn; rewrite Hn|].
  rewrite Forall_forall in Hb, Hwb |- *. eauto.
Qed.

(** C33: of the names of a certificate the first one of the type is extracted, whatever
    names of other kinds and types come before it, and whatever follows: the text of a
    principal name, the octets of a FASC-N.  Where no name is of the type and there is
    no further extension, none is found. *)
Theorem identities_extracted c ns post :
  carries c ns post →
  (∀ before upn after, ns = before ++ OtherName oidMicrosoftUPN (der 0 12 false (bytes upn)) :: after →
     Forall (λ n, has_type oidMicrosoftUPN n = false) before → utf8_Valid upn = true → ExtractUPN (Some c) = Ok upn) ∧
  (∀ before raw after, ns = before ++ OtherName oidFASCN (der 0 4 false raw) :: after →
     Forall (λ n, has_type oidFASCN n = false) before → ExtractFASC_N (Some c) = Ok raw) ∧
  (Forall not_san post →
   (Forall (λ n, has_type oidMicrosoftUPN n = false) ns → ExtractUPN (Some c) = Err (Sentinel ErrNoUPN)) ∧
   (Forall (λ n, has_type oidFASCN n = false) ns → ExtractFASC_N (Some c) = Err (Sentinel ErrNoFASCN))).
Proof.
  intros Hc. split_and!.
  - intros before upn after -> Hb Hu. apply (name_found _ _ _ _ _ _ _ _ Hc).
    + eapply Forall_impl; [exact Hb|]. intros n Hn Hw. by apply other_type_skipped.
    + intros Hw. unfold upn_of. rewrite otherName_raw by done. cbn [mbind option_bind Class_ Tag Bytes].
      rewrite !bool_decide_true by done. cbn [negb orb]. destruct Hw as [_ [_ Hf%fits_der%fits_der]%fits_app].
      by rewrite upn_value.
  - intros before raw after -> Hb. apply (name_found _ _ _ _ _ _ _ _ Hc).
    + eapply Forall_impl; [exact Hb|]. intros n Hn Hw. by apply other_type_skipped.
    + intros Hw. unfold fascn_of. rewrite otherName_raw by done. cbn [mbind option_bind Class_ Tag Bytes].
      rewrite !bool_decide_true by done. cbn [negb orb]. destruct Hw as [_ [_ Hf%fits_der%fits_der]%fits_app].
      unfold Unmarshal_octets. rewrite <-(app_nil_r (der 0 4 false raw)). by rewrite parse_universal_der.
  - intros Hpost. assert (∀ A (f : RawValue → option (outcome perr A)) none,
      Forall (λ n, f (raw_of n) = None) ns → walk f none (Extensions c) = Err (Sentinel none)) as Hnone.
    { intros A f none Hf. rewrite (walk_carried _ _ _ _ _ Hc). rewrite <-(app_nil_r (raw_of <$> ns)), first_name_none by done.
      cbn [first_name]. by rewrite <-(app_nil_r post), walk_skips. }
    destruct Hc as (_ & _ & _ & _ & Hw & _). rewrite Forall_forall in Hw.
    split; intros Ht; apply Hnone; rewrite Forall_forall in Ht |- *; intros n Hn; apply other_type_skipped; auto.
Qed.

Lemma chars_length s : length (String.list_ascii_of_string s) = String.length s.
Proof. induction s as [|a s IH]; cbn; by rewrite ?IH. Qed.
Definition decimal (s : string) : Prop := Forall is_digit (bytes s).
(** An EDIPI is extracted exactly when the principal name is ten digits and "@mil",
    and, unless a test has allowed it, not the test identity; it is the ten digits. *)
Theorem edipi_exact reject cert e :
  ExtractEDIPI reject cert = Ok e ↔
  ExtractUPN cert = Ok (e +:+ "@mil") ∧ String.length e = 10%nat ∧ decimal e ∧ ¬ (reject = true ∧ e = testEDIPI).
Proof.
  assert (∀ upn, edipiPattern upn = Some e ↔ upn = e +:+ "@mil" ∧ String.length e = 10%nat ∧ decimal e) as Hpat.
  { intros upn. unfold edipiPattern, decimal, bytes. rewrite Forall_fmap. unfold is_digit, within_. split.
    - destruct (_ && _ && _) eqn:E; [|done]. intros [= <-].
      rewrite !andb_true_iff, !bool_decide_eq_true, forallb_forall in E. destruct E as [[Hlen Hd] Hm].
      rewrite String.list_ascii_of_string_of_list_ascii. split_and!.
      + rewrite <-(String.string_of_list_ascii_of_string upn) at 1.
        rewrite <-(String.string_of_list_ascii_of_string (_ +:+ _)), list_ascii_app, String.list_ascii_of_string_of_list_ascii.
        by rewrite <-Hm, take_drop.
      + rewrite <-chars_length, String.list_ascii_of_string_of_list_ascii, length_take. lia.
      + apply Forall_forall. intros a Ha%list_elem_of_In. specialize (Hd _ Ha). cbn.
        by rewrite andb_true_iff, !bool_decide_eq_true in Hd.
    - intros (-> & Hlen & Hd). rewrite list_ascii_app.
      assert (length (String.list_ascii_of_string e) = 10%nat) as Hl by (by rewrite chars_length).
      rewrite take_app_length', drop_app_length', String.string_of_list_ascii_of_string, length_app, Hl by done.
      rewrite !bool_decide_true by done. cbn [andb]. destruct (forallb _ _) eqn:E; [done|].
      apply not_true_iff_false in E. destruct E. apply forallb_forall. intros a Ha%list_elem_of_In.
      rewrite Forall_forall in Hd. specialize (Hd _ Ha). cbn in Hd. by rewrite andb_true_iff, !bool_decide_eq_true. }
  unfold ExtractEDIPI. destruct (ExtractUPN cert) as [upn|err]; [|split; [done|by intros [? _]]].
  split.
  - destruct (edipiPattern upn) as [e'|] eqn:E; [|done]. destruct (reject && _) eqn:Hr; [done|]. intros [= ->].
    apply Hpat in E as (-> & Hlen & Hd). split_and!; [done..|]. intros [-> ->]. by vm_compute in Hr.
  - intros ([= ->] & Hlen & Hd & Hr). destruct (Hpat (e +:+ "@mil")) as [_ ->]; [|done].
    destruct (reject && _) eqn:Hrej; [|done]. apply andb_true_iff in Hrej as [-> He%bool_decide_eq_true]. by destruct Hr.
Qed.
End piv.

(** ** Chains *)

Section validator.
Context {X : X509}.

(** A chain validates exactly when there are anchors, the leaf is valid now, the
    chain verifies against them, and, if policies are asked for, the leaf has one of
    them: an empty list of policies admits nobody. *)
Theorem chain_validates_exactly e v cert intermediates :
  ValidateChain e v cert intermediates = Ok tt ↔
  ∃ c pool, cert = Some c ∧ roots v = Some pool ∧ (NotBefore c ≤ clock v e ≤ NotAfter c)%Z ∧
    Verify c pool intermediates (clock v e) = Verified ∧
    ∀ allowed, allowedPolicies v = Some allowed → ∃ p, p ∈ PolicyIdentifiers c ∧ p ∈ allowed.
Proof.
  assert (∀ c allowed, hasAllowedPolicy c allowed = true ↔ ∃ p, p ∈ PolicyIdentifiers c ∧ p ∈ allowed) as Hpol.
  { intros c allowed. unfold hasAllowedPolicy. rewrite existsb_exists. split.
    - intros (p & Hp%list_elem_of_In & (a & Ha%list_elem_of_In & ->%bool_decide_eq_true)%existsb_exists). eauto.
    - intros (p & Hp & Ha). exists p. split; [by apply list_elem_of_In|]. apply existsb_exists.
      exists p. split; [by apply list_elem_of_In|]. by apply bool_decide_eq_true. }
  unfold ValidateChain. destruct cert as [c|]; [|split; [done|by intros (? & ? & [=] & _)]].
  destruct (roots v) as [pool|]; [|split; [done|by intros (? & ? & _ & [=] & _)]].
  destruct (Before _ _ || After _ _) eqn:Hd.
  - split; [done|]. intros (? & ? & [= <-] & _ & Ht & _). unfold Before, After in Hd.
    apply orb_true_iff in Hd. rewrite !bool_decide_eq_true in Hd. lia.
  - apply orb_false_iff in Hd. unfold Before, After in Hd. rewrite !bool_decide_eq_false in Hd.
    destruct (Verify _ _ _ _) eqn:Hv; [|split; [done|intros (? & ? & [= <-] & [= <-] & _ & Hv' & _); congruence]..].
    destruct (allowedPolicies v) as [allowed|].
    2: { split; [|done]. intros _. exists c, pool. split_and!; [done..|lia|lia|done|done]. }
    destruct (hasAllowedPolicy c allowed) eqn:Ha.
    + split; [|done]. intros _. exists c, pool. split_and!; [done..|lia|lia|done|].
      intros ? [= <-]. by apply Hpol.
    + split; [done|]. intros (? & ? & [= <-] & _ & _ & _ & Hex). apply not_true_iff_false in Ha. destruct Ha. apply Hpol. eauto.
Qed.
End validator.

(** ** Examples *)

Section examples.
#[local] Instance no_legacy : LegacyStrings := {| legacy_string _ _ := None |}.

Definition ex_names : list general_name :=
  [Choice 1 false (bytes "a@b.mil"); OtherName oidFASCN (der 0 4 false [212; 0; 255]%N);
   OtherName oidMicrosoftUPN (der 0 12 false (bytes "1234567890@mil"))].
Definition ex_cert_of (ns : list general_name) (junk : text) : Certificate :=
  {| Raw := []; Extensions := [([2; 5; 29; 15]%N, []); (oidSubjectAltName, der_names ns junk)]; NotBefore := 0; NotAfter := 100;
     PolicyIdentifiers := [[2; 16; 840]%N] |}.
Definition ex_cert : Certificate := ex_cert_of ex_names [7]%N.

Example extracted :
  ExtractUPN (Some ex_cert) = Ok "1234567890@mil" ∧ ExtractEDIPI true (Some ex_cert) = Ok "1234567890" ∧
  ExtractFASC_N (Some ex_cert) = Ok [212; 0; 255]%N ∧ FormatFASC_NHex [212; 0; 255]%N = "d400ff" ∧
  ExtractUPN None = Err (Sentinel ErrNoUPN) ∧
  (* a printable string is a principal name too; what is not UTF-8 is none *)
  ExtractEDIPI true (Some (ex_cert_of [OtherName oidMicrosoftUPN (der 0 19 false (bytes "bob"))] [])) =
    Err (Sentinel ErrInvalidEDIPI) ∧
  ExtractUPN (Some (ex_cert_of [OtherName oidMicrosoftUPN (der 0 19 false (bytes "bob"))] [])) = Ok "bob" ∧
  ExtractUPN (Some (ex_cert_of [OtherName oidMicrosoftUPN (der 0 12 false [255]%N)] [])) =
    Err (Wrapf "piv: parse UPN value" (Errorf "asn1")) ∧
  (* the test identity *)
  ExtractEDIPI true (Some (ex_cert_of [OtherName oidMicrosoftUPN (der 0 12 false (bytes "0000000001@mil"))] [])) =
    Err (Sentinel ErrInvalidEDIPI).
Proof. by vm_compute. Qed.
(** Beyond its bound, the length has leading zeros. *)
Example too_long : parse_length (encodeLength (2 ^ 24)) = None.
Proof. by vm_compute. Qed.

Lemma identities_extracted_witness :
  ExtractUPN (Some ex_cert) = Ok "1234567890@mil" ∧ ExtractFASC_N (Some ex_cert) = Ok [212; 0; 255]%N.
Proof.
  assert (carries ex_cert ex_names []) as Hc.
  { exists [([2; 5; 29; 15]%N, [])], [7%N]. split_and!; [done|by repeat constructor| |by vm_compute].
    repeat constructor; by vm_compute. }
  destruct (identities_extracted _ _ _ Hc) as (Hupn & Hfascn & _). split.
  - apply (Hupn (take 2 ex_names) _ []); [done|by repeat constructor|by vm_compute].
  - apply (Hfascn (take 1 ex_names) _ (drop 2 ex_names)); [done|by repeat constructor].
Defined.

Definition ex_x509 : X509 :=
  {| CertPool := unit; Verify _ _ _ _ := Verified; AppendCertsFromPEM pem := if bool_decide (pem = "") then None else Some tt |}.
Definition ex_env (t : time) : Env := {| now := t; new_id := λ n, N.of_nat n; order := canonical_range |}.
Example chains :
  let v allowed := @NewTrustValidator ex_x509 (Some tt) allowed in
  ValidateChain (ex_env 50) (v None) (Some ex_cert) None = Ok tt ∧
  ValidateChain (ex_env 101) (v None) (Some ex_cert) None = Err (Wrapf "dates" (Sentinel ErrChainExpired)) ∧
  ValidateChain (ex_env 50) (v (Some [])) (Some ex_cert) None = Err (Wrapf "policies" (Sentinel ErrPolicyNotSatisfied)) ∧
  ValidateChain (ex_env 500) (WithFixedClock (v (Some [[2; 16; 840]%N])) (λ _, 5%Z)) (Some ex_cert) None = Ok tt ∧
  @LoadDoDTrustStore ex_x509 (λ _, Some "") "/etc/dod.pem" = Err (Sentinel ErrNoCertsInBundle).
Proof. by vm_compute. Qed.
End examples.
