(* ===== verification/SamlGuards.v ===== *)
(** * Service and identity providers, replay and wrapping guards

    platform/saml: the factories around crewjam/saml, the signer over a key management
    service, the cache of metadata, the store of assertion identifiers that were seen and
    the guard against signature wrapping.  crewjam/saml, goxmldsig, encoding/xml and the
    round-trip validator are parameters.

    Theorems: how often an assertion identifier is fresh, what passes the guard
    against wrapping, what the cache of metadata holds, and what the factories
    return. *)

From S2P Require Import Prelude Encoding.

Inductive saml_error : Type :=
  | ErrSPMissingMetadata
  | ErrSPMissingSigner
  | ErrSPMissingCert
  | ErrSPMissingEntityID
  | ErrSPMissingAcsURL
  | ErrIDPMissingCert
  | ErrIDPMissingSigner
  | ErrIDPMissingStore
  | ErrIDPMissingURL
  | ErrIDPMissingEntityID
  | ErrParseMetadata
  | ErrUnsupportedHash
  | ErrXMLRoundTripMismatch
  | ErrMultipleAssertions
  | ErrInvalidXML.
#[export] Instance saml_error_eq_dec : EqDecision saml_error.
Proof. solve_decision. Defined.
Abbreviation serr := (goerr saml_error) (only parsing).

(** ** replay.go *)

(** [stopped] is whether [stopCh] is closed. *)
Record InMemoryReplayStore : Type := { entries : gmap string time; interval : duration; stopped : bool }.
Definition NewInMemoryReplayStoreWithInterval (interval : duration) : InMemoryReplayStore :=
  {| entries := ∅; interval := interval; stopped := false |}.
Definition NewInMemoryReplayStore : InMemoryReplayStore := NewInMemoryReplayStoreWithInterval (30 * Second)%Z.
Definition with_entries (m : gmap string time) (s : InMemoryReplayStore) : InMemoryReplayStore :=
  {| entries := m; interval := interval s; stopped := stopped s |}.

(** [ctx_err] is the error of the context, if it has one. *)
Definition Seen (ctx_err : option string) (assertionID : string) (expiresAt : time) : prog InMemoryReplayStore serr bool := λ s,
  match ctx_err with
  | Some err => (Err (Errorf err), s)
  | None =>
      match entries s !! assertionID with
      | Some _ => (Ok true, s)
      | None => (Ok false, with_entries (<[assertionID := expiresAt]> (entries s)) s)
      end
  end.
Definition SweepExpired (now : time) (s : InMemoryReplayStore) : InMemoryReplayStore :=
  with_entries (filter (λ e, After e.2 now = true) (entries s)) s.
(** The background goroutine, which runs only with a positive interval, at a tick. *)
Definition loop_tick (now : time) (s : InMemoryReplayStore) : InMemoryReplayStore :=
  if bool_decide (0 < interval s)%Z && negb (stopped s) then SweepExpired now s else s.
(** [Close] looks whether the channel is closed, and closes it in a second step; closing a
    closed channel panics. *)
Definition Close_done (s : InMemoryReplayStore) : bool := stopped s.
Definition Close_closes (s : InMemoryReplayStore) : call InMemoryReplayStore :=
  if stopped s then Panics else Returns {| entries := entries s; interval := interval s; stopped := true |}.
Definition Close (s : InMemoryReplayStore) : call InMemoryReplayStore := if Close_done s then Returns s else Close_closes s.

(** ** xsw_guard.go *)

Inductive xml_token : Type := StartElement (space local : string) | OtherToken.
Definition samlAssertionNamespace : string := "urn:oasis:names:tc:SAML:2.0:assertion".

Section guard.
(** What [xmlrtv.Validate] accepts; the tokens of a text, and whether they end at its end
    ([io.EOF]) and not with an error. *)
Context (validate : string → bool) (tokens : string → list xml_token * bool).

Definition is_assertion (tok : xml_token) : bool :=
  match tok with
  | StartElement space local => bool_decide (local = "Assertion") && bool_decide (space = samlAssertionNamespace)
  | OtherToken => false
  end.
Definition is_element (tok : xml_token) : bool := match tok with StartElement _ _ => true | OtherToken => false end.
Fixpoint count_tokens (toks : list xml_token) (sawElement : bool) (count : nat) : bool * nat :=
  match toks with
  | [] => (sawElement, count)
  | tok :: rest =>
      if negb (is_element tok) then count_tokens rest sawElement count
      else count_tokens rest true (if is_assertion tok then S count else count)
  end.
Definition countAssertions (rawXML : string) : outcome serr nat :=
  let '(toks, eof) := tokens rawXML in
  let '(sawElement, count) := count_tokens toks false 0 in
  if negb eof then Err (Wrapf "xml" (Sentinel ErrInvalidXML))
  else if negb sawElement then Err (Wrapf "no XML elements found" (Sentinel ErrInvalidXML))
  else Ok count.
Definition XSWGuard (rawXML : string) : outcome serr unit :=
  if bool_decide (rawXML = "") then Err (Wrapf "empty input" (Sentinel ErrInvalidXML))
  else if negb (validate rawXML) then Err (Wrapf "xmlrtv" (Sentinel ErrXMLRoundTripMismatch))
  else match countAssertions rawXML with
       | Err err => Err err
       | Ok count => if bool_decide (1 < count)%nat then Err (Sentinel ErrMultipleAssertions) else Ok tt
       end.
End guard.

(** ** The libraries *)

Inductive PublicKey : Type := rsa_PublicKey | ecdsa_PublicKey | other_PublicKey.
Definition RSASHA256SignatureMethod : string := "http://www.w3.org/2001/04/xmldsig-more#rsa-sha256".
Definition ECDSASHA256SignatureMethod : string := "http://www.w3.org/2001/04/xmldsig-more#ecdsa-sha256".

Class SAMLFactories : Type := {
  EntityDescriptor : Type;
  ParseMetadata : string → option EntityDescriptor;
  x509_Certificate : Type;
  cert_PublicKey : x509_Certificate → PublicKey;
  Signer : Type;
  samlURL : Type;
  empty_URL : samlURL;
  RequestTracker : Type;
  SessionProvider : Type;
  Store : Type;
  ServiceProviderProvider : Type;
  idp_SessionProvider : Type;
  AssertionMaker : Type;
  Logger : Type;
  (* what [samlsp.New] leaves in fields that the factory does not touch *)
  sp_Rest : Type;
  idp_Rest : Type;
}.

Section saml.
Context {F : SAMLFactories} {H : Sha256}.

(** ** metadata.go *)

Abbreviation metadataCache := (gmap string EntityDescriptor) (only parsing).
Definition ParseAndCacheMetadata (rawXML : string) : prog metadataCache serr EntityDescriptor := λ c,
  match c !! sha256 rawXML with
  | Some ed => (Ok ed, c)
  | None => match ParseMetadata rawXML with
            | None => (Err (Wrapf "samlsp" (Sentinel ErrParseMetadata)), c)
            | Some ed => (Ok ed, <[sha256 rawXML := ed]> c)
            end
  end.
Definition RefreshMetadata (rawXML : string) : prog metadataCache serr unit := λ c,
  let c := delete (sha256 rawXML) c in
  match ParseMetadata rawXML with
  | None => (Err (Wrapf "samlsp" (Sentinel ErrParseMetadata)), c)
  | Some ed => (Ok tt, <[sha256 rawXML := ed]> c)
  end.
Definition ResetMetadataCache : prog metadataCache serr unit := λ _, (Ok tt, ∅).

(** ** sp.go *)

Record SPOptions : Type := {
  TenantSlug : string;
  IdpID : string;
  EntityID : string;
  AcsURL : option samlURL;
  MetadataURL : option samlURL;
  IDPMetadata : string;
  SPCert : option x509_Certificate;
  SPSigner : option Signer;
  sp_RequestTracker : option RequestTracker;
  sp_SessionProvider : option SessionProvider;
  SignRequest : bool;
  AllowIDPInitiated : bool;
}.
(** [samlsp.Options]. *)
Record samlsp_Options : Type := {
  so_EntityID : string;
  so_URL : samlURL;
  so_Key : option Signer;
  so_Certificate : x509_Certificate;
  so_IDPMetadata : EntityDescriptor;
  so_SignRequest : bool;
  so_AllowIDPInitiated : bool;
}.
(** [samlsp.Middleware], as far as the factory sets it. *)
Record Middleware : Type := {
  mw_Key : option Signer;
  mw_SignatureMethod : string;
  mw_AcsURL : samlURL;
  mw_MetadataURL : samlURL;
  mw_RequestTracker : RequestTracker;
  mw_Session : SessionProvider;
  mw_Rest : sp_Rest;
}.
Definition signatureMethodForPublicKey (pub : PublicKey) : outcome serr string :=
  match pub with
  | rsa_PublicKey => Ok RSASHA256SignatureMethod
  | ecdsa_PublicKey => Ok ECDSASHA256SignatureMethod
  | other_PublicKey => Err (Errorf "saml/sp: unsupported public-key type")
  end.

(** [of_option err o]: a nil pointer is an error. *)
Definition given {A} (err : saml_error) (o : option A) : prog metadataCache serr A :=
  match o with None => throw (Sentinel err) | Some a => mret a end.
(** What the options of the factory overlay on the middleware. *)
Definition overlay (opts : SPOptions) (signer : Signer) (acs : samlURL) (method : option string) (mw : Middleware) : Middleware :=
  {| mw_Key := Some signer; mw_SignatureMethod := default (mw_SignatureMethod mw) method; mw_AcsURL := acs;
     mw_MetadataURL := default (mw_MetadataURL mw) (MetadataURL opts);
     mw_RequestTracker := default (mw_RequestTracker mw) (sp_RequestTracker opts);
     mw_Session := default (mw_Session mw) (sp_SessionProvider opts); mw_Rest := mw_Rest mw |}.
(** [New] is [samlsp.New]. *)
Definition NewSP (New : samlsp_Options → option Middleware) (opts : SPOptions) : prog metadataCache serr Middleware :=
  _ ← reject_if (bool_decide (IDPMetadata opts = "")) (Sentinel ErrSPMissingMetadata);
  signer ← given ErrSPMissingSigner (SPSigner opts);
  cert ← given ErrSPMissingCert (SPCert opts);
  _ ← reject_if (bool_decide (EntityID opts = "")) (Sentinel ErrSPMissingEntityID);
  acs ← given ErrSPMissingAcsURL (AcsURL opts);
  idpMD ← wrapping "saml/sp: parse IDP metadata" (ParseAndCacheMetadata (IDPMetadata opts));
  match New {| so_EntityID := EntityID opts; so_URL := default empty_URL (MetadataURL opts); so_Key := None;
               so_Certificate := cert; so_IDPMetadata := idpMD; so_SignRequest := false;
               so_AllowIDPInitiated := AllowIDPInitiated opts |} with
  | None => throw (Wrapf "saml/sp: samlsp.New" (Errorf "samlsp"))
  | Some mw =>
      if SignRequest opts then
        method ← wrapping "saml/sp: choose signature method" (of_outcome (signatureMethodForPublicKey (cert_PublicKey cert)));
        mret (overlay opts signer acs (Some method) mw)
      else mret (overlay opts signer acs None mw)
  end.

(** ** idp.go *)

Record IDPOptions : Type := {
  i_TenantSlug : string;
  i_EntityID : string;
  i_URL : option samlURL;
  i_MetadataURL : option samlURL;
  i_SSOURL : option samlURL;
  i_LogoutURL : option samlURL;
  i_Cert : option x509_Certificate;
  i_Intermediates : list x509_Certificate;
  i_Signer : option Signer;
  i_Store : option Store;
  i_ServiceProviderProvider : option ServiceProviderProvider;
  i_SessionProvider : option idp_SessionProvider;
  i_AssertionMaker : option AssertionMaker;
  i_Logger : option Logger;
}.
Record samlidp_Options : Type := {
  io_URL : samlURL;
  io_Signer : Signer;
  io_Logger : option Logger;
  io_Certificate : x509_Certificate;
  io_Store : Store;
}.
(** [samlidp.Server], as far as the factory sets it. *)
Record Server : Type := {
  srv_MetadataURL : samlURL;
  srv_SSOURL : samlURL;
  srv_LogoutURL : samlURL;
  srv_Intermediates : list x509_Certificate;
  srv_SignatureMethod : string;
  srv_ServiceProviderProvider : ServiceProviderProvider;
  srv_SessionProvider : idp_SessionProvider;
  srv_AssertionMaker : AssertionMaker;
  srv_Rest : idp_Rest;
}.
Definition signatureMethodForIDPCert (cert : x509_Certificate) : outcome serr string :=
  match cert_PublicKey cert with
  | rsa_PublicKey => Ok RSASHA256SignatureMethod
  | ecdsa_PublicKey => Ok ECDSASHA256SignatureMethod
  | other_PublicKey => Err (Errorf "saml/idp: unsupported public-key type")
  end.
Definition srv_overlay (opts : IDPOptions) (method : string) (s : Server) : Server :=
  {| srv_MetadataURL := default (srv_MetadataURL s) (i_MetadataURL opts);
     srv_SSOURL := default (srv_SSOURL s) (i_SSOURL opts);
     srv_LogoutURL := default (srv_LogoutURL s) (i_LogoutURL opts);
     srv_Intermediates := match i_Intermediates opts with [] => srv_Intermediates s | l => l end;
     srv_SignatureMethod := method;
     srv_ServiceProviderProvider := default (srv_ServiceProviderProvider s) (i_ServiceProviderProvider opts);
     srv_SessionProvider := default (srv_SessionProvider s) (i_SessionProvider opts);
     srv_AssertionMaker := default (srv_AssertionMaker s) (i_AssertionMaker opts);
     srv_Rest := srv_Rest s |}.
(** [New] is [samlidp.New]. *)
Definition NewIDP (New : samlidp_Options → option Server) (opts : IDPOptions) : outcome serr Server :=
  match i_Cert opts with
  | None => Err (Sentinel ErrIDPMissingCert)
  | Some cert =>
  match i_Signer opts with
  | None => Err (Sentinel ErrIDPMissingSigner)
  | Some signer =>
  match i_Store opts with
  | None => Err (Sentinel ErrIDPMissingStore)
  | Some store =>
  match i_URL opts with
  | None => Err (Sentinel ErrIDPMissingURL)
  | Some url =>
      if bool_decide (i_EntityID opts = "") then Err (Sentinel ErrIDPMissingEntityID)
      else match New {| io_URL := url; io_Signer := signer; io_Logger := i_Logger opts; io_Certificate := cert;
                        io_Store := store |} with
           | None => Err (Wrapf "saml/idp: samlidp.New" (Errorf "samlidp"))
           | Some server =>
               match signatureMethodForIDPCert cert with
               | Err err => Err err
               | Ok method => Ok (srv_overlay opts method server)
               end
           end
  end end end end.
(** [NewContext] is [NewSigningContextSigner], and [set_method] the context with its
    signature method, unless it is refused. *)
Definition NewIDPSigningContext {Ctx : Type} (NewContext : Signer → x509_Certificate → option Ctx)
    (set_method : Ctx → string → option Ctx) (signer : option Signer) (cert : option x509_Certificate) : outcome serr Ctx :=
  match signer with
  | None => Err (Sentinel ErrIDPMissingSigner)
  | Some signer =>
      match cert with
      | None => Err (Sentinel ErrIDPMissingCert)
      | Some cert =>
          match NewContext signer cert with
          | None => Err (Wrapf "saml/idp: NewSigningContextSigner" (Errorf "goxmldsig"))
          | Some ctx =>
              match signatureMethodForIDPCert cert with
              | Err err => Err err
              | Ok method =>
                  match set_method ctx method with
                  | None => Err (Wrapf "saml/idp: SetSignatureMethod" (Errorf "goxmldsig"))
                  | Some ctx => Ok ctx
                  end
              end
          end
      end
  end.

(** ** kmsigner.go *)

Inductive Hash : Type := SHA1 | SHA224 | SHA256 | SHA384 | SHA512 | other_Hash.
(** The backend signs a digest; [None] is its error. *)
Record KMSSigner : Type := {
  k_Signer : option (string → Hash → option string);
  KeyID : string;
  k_Cert : option x509_Certificate;
}.
(** A nil signer is [None], and so are nil options. *)
Definition Public (s : option KMSSigner) : option PublicKey := cert_PublicKey <$> (s ≫= k_Cert).
Definition Sign (s : option KMSSigner) (digest : string) (opts : option Hash) : outcome serr string :=
  match s ≫= k_Signer with
  | None => Err (Errorf "saml/kmsigner: nil KMSSigner or backend")
  | Some sign =>
      match opts with
      | None => Err (Errorf "saml/kmsigner: nil SignerOpts")
      | Some h =>
          match h with
          | SHA256 | SHA384 | SHA512 =>
              match sign digest h with
              | None => Err (Wrapf "saml/kmsigner: backend Sign" (Errorf "kms"))
              | Some sig => Ok sig
              end
          | _ => Err (Wrapf "got" (Sentinel ErrUnsupportedHash))
          end
      end
  end.
End saml.

(** ** Replay *)

(** What happens to a store, with the time at which it happens. *)
Inductive replay_event : Type :=
  | Asks (assertionID : string) (expiresAt : time)
  | Ticks.
Definition replay_step (t : time) (ev : replay_event) (s : InMemoryReplayStore) : bool * InMemoryReplayStore :=
  match ev with
  | Asks id exp => let '(o, s) := Seen None id exp s in (match o with Ok seen => negb seen | Err _ => false end, s)
  | Ticks => (false, loop_tick t s)
  end.
(** The fresh answers, with their times, and the store after all of it. *)
Fixpoint replay_run (evs : list (time * replay_event)) (s : InMemoryReplayStore) :
    list (time * string) * InMemoryReplayStore :=
  match evs with
  | [] => ([], s)
  | (t, ev) :: rest =>
      let '(fresh, s) := replay_step t ev s in
      let '(l, s') := replay_run rest s in
      (match ev with Asks id _ => if fresh : bool then [(t, id)] else [] | Ticks => [] end ++ l, s')
  end.
Fixpoint ordered (from : time) (evs : list (time * replay_event)) : Prop :=
  match evs with [] => True | (t, _) :: rest => (from ≤ t)%Z ∧ ordered t rest end.
(** Every assertion has one expiry, and is asked for before it only. *)
Definition asked_while_valid (expiry : string → time) (evs : list (time * replay_event)) : Prop :=
  Forall (λ e, match e.2 with Asks id exp => exp = expiry id ∧ (e.1 < exp)%Z | Ticks => True end) evs.
Definition fresh_times (id : string) (evs : list (time * replay_event)) (s : InMemoryReplayStore) : list (time * string) :=
  filter (λ f, f.2 = id) (replay_run evs s).1.

Lemma Seen_entries id exp s :
  Seen None id exp s =
  (Ok (bool_decide (is_Some (entries s !! id))), match entries s !! id with Some _ => s | None => with_entries (<[id := exp]> (entries s)) s end).
Proof. unfold Seen. by destruct (entries s !! id) eqn:E; [rewrite bool_decide_true by eauto|rewrite bool_decide_false by (by intros [??])]. Qed.
Lemma tick_keeps t id exp s : (t < exp)%Z → entries s !! id = Some exp → entries (loop_tick t s) !! id = Some exp.
Proof.
  intros Ht He. unfold loop_tick. destruct (_ && _); [|done]. cbn. apply map_lookup_filter_Some. split; [done|].
  cbn. by apply bool_decide_eq_true.
Qed.

Section replay.
Context (expiry : string → time).

(** Once an identifier is known under its expiry, it is never fresh again. *)
Lemma known_never_fresh id evs : ∀ from s,
  ordered from evs → asked_while_valid expiry evs → entries s !! id = Some (expiry id) ∨ (expiry id ≤ from)%Z →
  fresh_times id evs s = [].
Proof.
  induction evs as [|[t ev] evs IH]; intros from s Ho Hv Hk; [done|]. destruct Ho as [Hle Ho].
  apply Forall_cons in Hv as [He Hv]. cbn in He. unfold fresh_times. cbn [replay_run].
  destruct ev as [i exp|]; cbn [replay_step].
  - rewrite Seen_entries. destruct He as [-> Ht]. destruct (decide (i = id)) as [->|Hne].
    + destruct Hk as [Hk|Hk]; [|lia]. rewrite Hk, bool_decide_true by eauto. cbn [negb].
      specialize (IH t s Ho Hv (or_introl Hk)). unfold fresh_times in IH. by destruct (replay_run evs s).
    + assert (fresh_times id evs (match entries s !! i with Some _ => s | None => with_entries (<[i := expiry i]> (entries s)) s end) = [])
        as Hrest.
      { apply (IH t); [done..|]. destruct Hk as [Hk|Hk]; [left|right; lia]. destruct (entries s !! i); [done|].
        cbn. by rewrite lookup_insert_ne. }
      unfold fresh_times in Hrest. destruct (replay_run evs _) as [l s'] eqn:El. cbn [fst] in Hrest |- *.
      destruct (negb _); cbn [app]; [|done]. by rewrite filter_cons_False.
  - assert (fresh_times id evs (loop_tick t s) = []) as Hrest.
    { apply (IH t); [done..|]. destruct Hk as [Hk|Hk]; [|right; lia].
      destruct (decide (t < expiry id)%Z); [left; by apply tick_keeps|right; lia]. }
    unfold fresh_times in Hrest. by destruct (replay_run evs (loop_tick t s)).
Qed.
Lemma fresh_at_most_once id evs : ∀ from s,
  ordered from evs → asked_while_valid expiry evs → (length (fresh_times id evs s) ≤ 1)%nat.
Proof.
  induction evs as [|[t ev] evs IH]; intros from s Ho Hv; [cbn; lia|]. destruct Ho as [Hle Ho].
  apply Forall_cons in Hv as [He Hv]. cbn in He. unfold fresh_times. cbn [replay_run].
  destruct ev as [i exp|]; cbn [replay_step].
  - rewrite Seen_entries. destruct He as [-> Ht].
    destruct (entries s !! i) as [x|] eqn:Ei.
    + rewrite bool_decide_true by eauto. cbn [negb]. specialize (IH t s Ho Hv). unfold fresh_times in IH.
      by destruct (replay_run evs s).
    + rewrite bool_decide_false by (by intros [??]). cbn [negb]. set (s1 := with_entries _ s).
      destruct (decide (i = id)) as [->|Hne].
      * assert (fresh_times id evs s1 = []) as Hrest by (apply (known_never_fresh _ _ t); [done..|left; cbn; by rewrite lookup_insert_eq]).
        unfold fresh_times in Hrest. destruct (replay_run evs s1) as [l s'] eqn:El. cbn [app fst] in Hrest |- *.
        by rewrite filter_cons_True, Hrest.
      * specialize (IH t s1 Ho Hv). unfold fresh_times in IH. destruct (replay_run evs s1) as [l s'] eqn:El. cbn [app fst] in IH |- *.
        by rewrite filter_cons_False.
  - specialize (IH t (loop_tick t s) Ho Hv). unfold fresh_times in IH. by destruct (replay_run evs (loop_tick t s)).
Qed.
(** Of all the calls for an assertion that are made before it expires, whatever
    other calls and sweeps come in between, one at most is told that it is new; and when
    the store did not know it and it is asked for, exactly one is. *)
Theorem assertion_fresh_once id from evs s :
  ordered from evs → asked_while_valid expiry evs →
  (length (fresh_times id evs s) ≤ 1)%nat ∧
  (entries s !! id = None → (∃ t, (t, Asks id (expiry id)) ∈ evs) → length (fresh_times id evs s) = 1%nat).
Proof.
  intros Ho Hv. split; [by eapply fresh_at_most_once|].
  intros Hn (t & Ht). apply Nat.le_antisymm; [by eapply fresh_at_most_once|]. clear Ho Hv.
  revert s Hn Ht. induction evs as [|[t' ev] evs IH]; intros s Hn Ht; [by apply elem_of_nil in Ht|].
  unfold fresh_times. cbn [replay_run]. destruct ev as [i exp|]; cbn [replay_step].
  - rewrite Seen_entries. destruct (decide (i = id)) as [->|Hne].
    + rewrite Hn, bool_decide_false by (by intros [??]). cbn [negb]. destruct (replay_run evs _) as [l s'].
      cbn [app fst]. rewrite filter_cons_True by done. cbn [length]. lia.
    + apply elem_of_cons in Ht as [[= _ <- _]|Ht]; [done|]. set (s1 := match entries s !! i with Some _ => s | None => _ end).
      assert (entries s1 !! id = None) as Hn1 by (unfold s1; destruct (entries s !! i); [done|cbn; by rewrite lookup_insert_ne]).
      specialize (IH s1 Hn1 Ht). unfold fresh_times in IH. destruct (replay_run evs s1) as [l s'].
      destruct (negb _); cbn [app fst] in IH |- *; [|done]. by rewrite filter_cons_False.
  - apply elem_of_cons in Ht as [[=]|Ht]. assert (entries (loop_tick t' s) !! id = None) as Hn1.
    { unfold loop_tick. destruct (_ && _); [|done]. cbn. apply map_lookup_filter_None. by left. }
    specialize (IH _ Hn1 Ht). unfold fresh_times in IH. by destruct (replay_run evs (loop_tick t' s)).
Qed.
End replay.

(** C0: an identifier stays known until a sweep finds it expired: without a positive
    interval, or once the store is closed, it is for ever, however long ago it expired. *)
Theorem known_after_expiry id exp evs s :
  (interval s ≤ 0)%Z ∨ stopped s = true → entries s !! id = Some exp →
  entries (replay_run evs s).2 !! id = Some exp ∧ ∀ exp', (Seen None id exp' (replay_run evs s).2).1 = Ok true.
Proof.
  intros Hi He. assert (entries (replay_run evs s).2 !! id = Some exp) as Hk.
  { revert s Hi He. induction evs as [|[t ev] evs IH]; intros s Hi He; [done|]. cbn [replay_run].
    destruct (replay_step t ev s) as [fresh s1] eqn:Es.
    assert (((interval s1 ≤ 0)%Z ∨ stopped s1 = true) ∧ entries s1 !! id = Some exp) as [Hi1 He1].
    { destruct ev as [i x|]; cbn [replay_step] in Es.
      - rewrite Seen_entries in Es. injection Es as _ <-. destruct (entries s !! i) eqn:Ei; [done|]. cbn.
        split; [done|]. rewrite lookup_insert_ne; [done|intros ->; by rewrite He in Ei].
      - injection Es as _ <-. unfold loop_tick. destruct Hi as [Hi|Hi].
        + rewrite bool_decide_false by lia. cbn. auto.
        + rewrite Hi, andb_false_r. auto. }
    specialize (IH s1 Hi1 He1). by destruct (replay_run evs s1). }
  split; [done|]. intros exp'. rewrite Seen_entries. cbn. by rewrite bool_decide_true by eauto.
Qed.

(** C0: closing a store twice in a row is harmless; but two callers that both look before
    one of them closes panic. *)
Theorem close_races s :
  stopped s = false →
  (∃ s', Close s = Returns s' ∧ stopped s' = true ∧ Close s' = Returns s') ∧
  Close_done s = false ∧ (∀ s', Close_closes s = Returns s' → Close_closes s' = Panics).
Proof.
  intros Hs. unfold Close, Close_done, Close_closes. rewrite Hs. split_and!; [|done|].
  - eexists. split; [done|]. done.
  - by intros s' [= <-].
Qed.

(** ** Wrapping *)

Section guard.
Context (validate : string → bool) (tokens : string → list xml_token * bool).

Lemma count_tokens_spec toks : ∀ saw n,
  count_tokens toks saw n = (saw || any is_element toks, (n + length (filter (λ t, is_assertion t = true) toks))%nat).
Proof.
  induction toks as [|tok toks IH]; intros saw n; [cbn; by rewrite orb_false_r, Nat.add_0_r|].
  cbn [count_tokens any existsb]. destruct tok as [space local|]; cbn [is_element negb].
  - rewrite IH. destruct (is_assertion _) eqn:E.
    + rewrite filter_cons_True by done. cbn. by rewrite orb_true_r, Nat.add_succ_r.
    + rewrite filter_cons_False by congruence. by rewrite orb_true_r.
  - rewrite IH. by rewrite filter_cons_False by done.
Qed.
(** A text passes the guard exactly when it is not empty, survives the round trip,
    is well-formed with an element at least, and has at most one assertion of the SAML
    namespace at whatever depth. *)
Theorem guard_exact rawXML :
  XSWGuard validate tokens rawXML = Ok tt ↔
  rawXML ≠ "" ∧ validate rawXML = true ∧ (tokens rawXML).2 = true ∧ any is_element (tokens rawXML).1 = true ∧
  (length (filter (λ t, is_assertion t = true) (tokens rawXML).1) ≤ 1)%nat.
Proof.
  unfold XSWGuard, countAssertions. case_bool_decide as Hr; [split; [done|by intros (? & _)]|].
  destruct (validate rawXML); [|split; [done|by intros (_ & ? & _)]]. cbn [negb].
  destruct (tokens rawXML) as [toks eof]. rewrite count_tokens_spec. cbn [orb].
  destruct eof; [|split; [done|by intros (_ & _ & ? & _)]]. cbn [negb].
  destruct (any is_element toks) eqn:Ha; [|split; [done|intros (_ & _ & _ & Hx & _); cbn [fst] in Hx; congruence]]. cbn [negb].
  case_bool_decide as Hc; split; [done|intros (_ & _ & _ & _ & Hle); cbn [fst] in Hle; lia| |done].
  intros _. split_and!; [done..|]. cbn [fst]. lia.
Qed.
End guard.

(** ** Metadata and factories *)

Section saml.
Context {F : SAMLFactories} {H : Sha256}.

Inductive metadata_call : Type := Parses (raw : string) | Refreshes (raw : string) | Resets.
Definition metadata_step (c : metadata_call) (m : gmap string EntityDescriptor) : gmap string EntityDescriptor :=
  match c with
  | Parses raw => (ParseAndCacheMetadata raw m).2
  | Refreshes raw => (RefreshMetadata raw m).2
  | Resets => (ResetMetadataCache m).2
  end.
Definition cache_sound (m : gmap string EntityDescriptor) : Prop :=
  ∀ k ed, m !! k = Some ed → ∃ raw, sha256 raw = k ∧ ParseMetadata raw = Some ed.
Lemma cache_sound_insert m raw ed :
  cache_sound m → ParseMetadata raw = Some ed → cache_sound (<[sha256 raw := ed]> m).
Proof. intros Hm Hp k ed' [[<- <-]|[_ Hk]]%lookup_insert_Some; eauto. Qed.
Lemma metadata_step_sound c m : cache_sound m → cache_sound (metadata_step c m).
Proof.
  intros Hm. destruct c as [raw|raw|]; cbn; [| |by intros ???].
  - unfold ParseAndCacheMetadata. destruct (m !! _); [done|]. destruct (ParseMetadata raw) eqn:Hp; [|done].
    by apply cache_sound_insert.
  - unfold RefreshMetadata. assert (cache_sound (delete (sha256 raw) m)) by (intros k ed [_ Hk]%lookup_delete_Some; eauto).
    destruct (ParseMetadata raw) eqn:Hp; [|done]. by apply cache_sound_insert.
Qed.
(** Whatever was parsed, refreshed and reset before, parsing answers the descriptor of
    the bytes, or of others with the same digest; what cannot be parsed is not cached. *)
Theorem metadata_exact calls raw :
  let m := foldl (λ m c, metadata_step c m) ∅ calls in
  match (ParseAndCacheMetadata raw m).1 with
  | Ok ed => ∃ raw', sha256 raw' = sha256 raw ∧ ParseMetadata raw' = Some ed
  | Err err => ParseMetadata raw = None ∧ errors_Is err ErrParseMetadata = true ∧ (ParseAndCacheMetadata raw m).2 = m
  end.
Proof.
  intros m. assert (cache_sound m) as Hm.
  { unfold m. assert (cache_sound ∅) as H0 by (by intros ???). revert H0. generalize (∅ : gmap string EntityDescriptor).
    induction calls as [|c calls IH]; intros m0 H0; [done|]. cbn. by apply IH, metadata_step_sound. }
  unfold ParseAndCacheMetadata. destruct (m !! sha256 raw) as [ed|] eqn:E; [by apply Hm|].
  destruct (ParseMetadata raw) eqn:Hp; cbn; [eauto|done].
Qed.

(** C0: a service provider is made exactly of complete options; it holds the given signer
    and URL, and signs its requests with SHA-256 if the options say so: left out, the
    option means that requests are not signed. *)
Theorem sp_as_given New opts m mw m' :
  NewSP New opts m = (Ok mw, m') →
  ∃ signer cert acs md made,
    SPSigner opts = Some signer ∧ SPCert opts = Some cert ∧ AcsURL opts = Some acs ∧ EntityID opts ≠ "" ∧ IDPMetadata opts ≠ "" ∧
    (ParseAndCacheMetadata (IDPMetadata opts) m).1 = Ok md ∧
    New {| so_EntityID := EntityID opts; so_URL := default empty_URL (MetadataURL opts); so_Key := None; so_Certificate := cert;
           so_IDPMetadata := md; so_SignRequest := false; so_AllowIDPInitiated := AllowIDPInitiated opts |} = Some made ∧
    mw_Key mw = Some signer ∧ mw_AcsURL mw = acs ∧
    (if SignRequest opts then signatureMethodForPublicKey (cert_PublicKey cert) = Ok (mw_SignatureMethod mw)
     else mw_SignatureMethod mw = mw_SignatureMethod made).
Proof.
  unfold NewSP. cbv [mbind prog_bind]. unfold reject_if. destruct (bool_decide (IDPMetadata opts = "")) eqn:H1; [done|].
  apply bool_decide_eq_false in H1. cbv [mret prog_ret]. unfold given.
  destruct (SPSigner opts) as [signer|]; [|done]. cbv [mret prog_ret]. destruct (SPCert opts) as [cert|]; [|done].
  destruct (bool_decide (EntityID opts = "")) eqn:H2; [done|]. apply bool_decide_eq_false in H2.
  destruct (AcsURL opts) as [acs|]; [|done]. unfold wrapping.
  destruct (ParseAndCacheMetadata (IDPMetadata opts) m) as [[md|] m1] eqn:Hp; [|done].
  destruct (New _) as [made|] eqn:Hn; [|done].
  destruct (SignRequest opts).
  - destruct (signatureMethodForPublicKey _) as [method|] eqn:Hm; [|done]. cbn. intros [= <- <-].
    exists signer, cert, acs, md, made. by split_and!.
  - intros [= <- <-]. exists signer, cert, acs, md, made. by split_and!.
Qed.

(** C0: an identity provider signs with SHA-256 and the method of its key, whatever it is
    made with otherwise; its entity identifier is asked for and goes nowhere: two that
    differ in it alone are the same provider. *)
Theorem idp_as_given New opts server :
  NewIDP New opts = Ok server →
  (∃ cert, i_Cert opts = Some cert ∧ signatureMethodForIDPCert cert = Ok (srv_SignatureMethod server) ∧
    srv_SignatureMethod server ∈ [RSASHA256SignatureMethod; ECDSASHA256SignatureMethod]) ∧
  ∀ id, id ≠ "" →
    NewIDP New {| i_TenantSlug := i_TenantSlug opts; i_EntityID := id; i_URL := i_URL opts; i_MetadataURL := i_MetadataURL opts;
                  i_SSOURL := i_SSOURL opts; i_LogoutURL := i_LogoutURL opts; i_Cert := i_Cert opts;
                  i_Intermediates := i_Intermediates opts; i_Signer := i_Signer opts; i_Store := i_Store opts;
                  i_ServiceProviderProvider := i_ServiceProviderProvider opts; i_SessionProvider := i_SessionProvider opts;
                  i_AssertionMaker := i_AssertionMaker opts; i_Logger := i_Logger opts |} = Ok server.
Proof.
  unfold NewIDP. cbn [i_Cert i_Signer i_Store i_URL i_EntityID i_Logger].
  destruct (i_Cert opts) as [cert|]; [|done]. destruct (i_Signer opts); [|done]. destruct (i_Store opts); [|done].
  destruct (i_URL opts); [|done]. case_bool_decide; [done|]. destruct (New _); [|done].
  destruct (signatureMethodForIDPCert cert) as [method|] eqn:Hm; [|done]. intros [= <-]. split.
  - exists cert. split_and!; [done|done|]. unfold signatureMethodForIDPCert in Hm.
    destruct (cert_PublicKey cert); simplify_eq; cbn; set_solver.
  - intros id Hid. by rewrite bool_decide_false.
Qed.

(** C0: nothing is signed with SHA-1 or SHA-224, or without a backend. *)
Theorem no_weak_signature s digest opts sig :
  Sign s digest opts = Ok sig →
  ∃ k sign h, s = Some k ∧ k_Signer k = Some sign ∧ opts = Some h ∧ h ∈ [SHA256; SHA384; SHA512] ∧ sign digest h = Some sig.
Proof.
  unfold Sign. destruct s as [k|]; [|done]. cbn. destruct (k_Signer k) as [sign|] eqn:Hk; [|done].
  destruct opts as [h|]; [|done]. destruct h; try done; destruct (sign digest _) eqn:Hs; try done; intros [= <-];
    do 3 eexists; split_and!; try done; set_solver.
Qed.
End saml.

(** ** Examples *)

Section examples.

Definition ex_evs : list (time * replay_event) :=
  [(1%Z, Asks "a" 10%Z); (2%Z, Asks "b" 5%Z); (3%Z, Asks "a" 10%Z); (6%Z, Ticks); (7%Z, Asks "a" 10%Z); (11%Z, Ticks)].
Definition ex_expiry (id : string) : time := if bool_decide (id = "a") then 10%Z else 5%Z.
Example replayed :
  (replay_run ex_evs NewInMemoryReplayStore).1 = [(1%Z, "a"); (2%Z, "b")] ∧
  entries (replay_run ex_evs NewInMemoryReplayStore).2 = ∅ ∧
  (* an identifier that is asked for after its expiry is new again *)
  (replay_run (ex_evs ++ [(12%Z, Asks "a" 10%Z)]) NewInMemoryReplayStore).1 = [(1%Z, "a"); (2%Z, "b"); (12%Z, "a")].
Proof. by vm_compute. Qed.
Lemma assertion_fresh_once_witness : length (fresh_times "a" ex_evs NewInMemoryReplayStore) = 1%nat.
Proof.
  apply (assertion_fresh_once ex_expiry "a" 0 ex_evs NewInMemoryReplayStore).
  - cbn. lia.
  - repeat constructor.
  - done.
  - exists 1%Z. vm_compute. left.
Defined.
Lemma known_after_expiry_witness :
  (Seen None "a" 0 (replay_run ex_evs (with_entries {["a" := 10%Z]} (NewInMemoryReplayStoreWithInterval 0))).2).1 = Ok true.
Proof. apply (known_after_expiry "a" 10 ex_evs (with_entries {["a" := 10%Z]} (NewInMemoryReplayStoreWithInterval 0))); [by left|done]. Defined.
Lemma close_races_witness : ∀ s', Close_closes NewInMemoryReplayStore = Returns s' → Close_closes s' = Panics.
Proof. apply (close_races NewInMemoryReplayStore). done. Defined.

Definition ex_tokens (s : string) : list xml_token * bool :=
  if bool_decide (s = "wrapped") then
    ([StartElement "p" "Response"; StartElement samlAssertionNamespace "Assertion"; OtherToken;
      StartElement samlAssertionNamespace "Assertion"], true)
  else if bool_decide (s = "text") then ([OtherToken], true)
  else ([StartElement "p" "Assertion"; StartElement samlAssertionNamespace "Assertion"], bool_decide (s = "ok")).
Example guarded :
  XSWGuard (λ _, true) ex_tokens "ok" = Ok tt ∧
  XSWGuard (λ _, true) ex_tokens "wrapped" = Err (Sentinel ErrMultipleAssertions) ∧
  XSWGuard (λ _, true) ex_tokens "text" = Err (Wrapf "no XML elements found" (Sentinel ErrInvalidXML)) ∧
  XSWGuard (λ _, true) ex_tokens "cut" = Err (Wrapf "xml" (Sentinel ErrInvalidXML)) ∧
  XSWGuard (λ _, false) ex_tokens "ok" = Err (Wrapf "xmlrtv" (Sentinel ErrXMLRoundTripMismatch)).
Proof. by vm_compute. Qed.

#[local] Instance ex_factories : SAMLFactories := {|
  EntityDescriptor := string; ParseMetadata s := if bool_decide (s = "bad") then None else Some s;
  x509_Certificate := PublicKey; cert_PublicKey k := k; Signer := string; samlURL := string; empty_URL := "";
  RequestTracker := unit; SessionProvider := unit; Store := unit; ServiceProviderProvider := unit; idp_SessionProvider := unit;
  AssertionMaker := unit; Logger := unit; sp_Rest := unit; idp_Rest := unit |}.
#[local] Instance ex_sha : Sha256 := {| sha256 s := s |}.
Definition ex_New (o : samlsp_Options) : option Middleware :=
  Some {| mw_Key := so_Key o; mw_SignatureMethod := ""; mw_AcsURL := "acs"; mw_MetadataURL := so_URL o; mw_RequestTracker := tt;
          mw_Session := tt; mw_Rest := tt |}.
Definition ex_options (sign : bool) : SPOptions :=
  {| TenantSlug := "t"; IdpID := "i"; EntityID := "e"; AcsURL := Some "/acs"; MetadataURL := None; IDPMetadata := "md";
     SPCert := Some rsa_PublicKey; SPSigner := Some "key"; sp_RequestTracker := None; sp_SessionProvider := None;
     SignRequest := sign; AllowIDPInitiated := false |}.
Definition ex_middleware (method : string) : Middleware :=
  {| mw_Key := Some "key"; mw_SignatureMethod := method; mw_AcsURL := "/acs"; mw_MetadataURL := ""; mw_RequestTracker := tt;
     mw_Session := tt; mw_Rest := tt |}.
Example providers :
  (NewSP ex_New (ex_options true) ∅).1 = Ok (ex_middleware RSASHA256SignatureMethod) ∧
  (NewSP ex_New (ex_options false) ∅).1 = Ok (ex_middleware "").
Proof. by vm_compute. Qed.
Lemma sp_as_given_witness : signatureMethodForPublicKey rsa_PublicKey = Ok RSASHA256SignatureMethod.
Proof.
  destruct (sp_as_given ex_New (ex_options true) ∅ (ex_middleware RSASHA256SignatureMethod) (<["md" := "md"]> ∅) ltac:(by vm_compute))
    as (signer & cert & acs & md & made & _ & [= <-] & _ & _ & _ & _ & _ & _ & _ & Hm). exact Hm.
Defined.
Definition ex_idp_New (o : samlidp_Options) : option Server :=
  Some {| srv_MetadataURL := io_URL o; srv_SSOURL := "/sso"; srv_LogoutURL := ""; srv_Intermediates := []; srv_SignatureMethod := "";
          srv_ServiceProviderProvider := tt; srv_SessionProvider := tt; srv_AssertionMaker := tt; srv_Rest := tt |}.
Definition ex_idp_options (id : string) : IDPOptions :=
  {| i_TenantSlug := "t"; i_EntityID := id; i_URL := Some "/idp"; i_MetadataURL := None; i_SSOURL := None; i_LogoutURL := None;
     i_Cert := Some ecdsa_PublicKey; i_Intermediates := []; i_Signer := Some "key"; i_Store := Some tt;
     i_ServiceProviderProvider := None; i_SessionProvider := None; i_AssertionMaker := None; i_Logger := None |}.
Definition ex_server : Server :=
  {| srv_MetadataURL := "/idp"; srv_SSOURL := "/sso"; srv_LogoutURL := ""; srv_Intermediates := [];
     srv_SignatureMethod := ECDSASHA256SignatureMethod; srv_ServiceProviderProvider := tt; srv_SessionProvider := tt;
     srv_AssertionMaker := tt; srv_Rest := tt |}.
Lemma idp_as_given_witness : NewIDP ex_idp_New (ex_idp_options "other") = Ok ex_server.
Proof. by apply (idp_as_given ex_idp_New (ex_idp_options "one") ex_server eq_refl). Defined.
Lemma no_weak_signature_witness : SHA256 ∈ [SHA256; SHA384; SHA512].
Proof.
  destruct (no_weak_signature (Some {| k_Signer := Some (λ d _, Some d); KeyID := "k"; k_Cert := None |})
    "digest" (Some SHA256) "digest" eq_refl) as (k & sign & h & _ & _ & [= <-] & Hin & _). exact Hin.
Defined.
End examples.
